(* ===== verification/_CoqProject ===== *)
-Q . S2P
Prelude.v
MiscMath.v
Bitmap.v
CList.v
StructList.v
StrUtil.v
Bst.v
BstTree.v
BstCorrect.v
Queue.v
PathReader.v
Arch.v
HeapIface.v
PmmIface.v
Mmu.v
MmuSafe.v
MmuPages.v
MmuCorrect.v
MmuBoot.v
PString.v
Vmm.v
VmmLists.v
VmmRegions.v
VmmInv.v
VmmAlloc.v
VmmFault.v
VmmFree.v
VmmErrors.v
VmmDeinit.v
VmmCorrect.v
Buddy.v
Pmm.v
PmmPages.v
VmmBoot.v
BootInfo.v
Heap.v
Kbd.v
Ps2kbd.v
Stream.v
Sched.v
SchedInv.v
SchedSafety.v
ArchThread.v
Trap.v
Ports.v
Pic.v
Pit.v
Disk.v
Psf.v
PsfCorrect.v
Fb.v
FbDraw.v
FbCorrect.v
FbScroll.v
Vt100.v
Vt100Correct.v
Fbtty.v
FbttyCorrect.v
Vgatty.v
Iodev.v
Mbr.v
AtaDisk.v
AtaLaws.v
AtaRead.v
AtaWrite.v
AtaDriver.v
FsWorld.v
Ext2.v
Ext2Block.v
Ext2Iter.v
Ext2Read.v
Ext2File.v
Ext2Dir.v
Ext2Correct.v
Ext2Image.v
Vfs.v
VfsCorrect.v
Unistd.v
Shell.v
ShellCorrect.v
