(* ===== verification/Prelude.v ===== *)
(** * A verification development for the YJK/OS kernel

    YJK/OS is a small kernel for 32-bit i586 machines, written in C
    (src/kernel, src/include).  This library models its core as definitions
    that run, and proves what makes them correct.  File and function names
    below are those under src/; a definition has the name of the C function
    it translates wherever that is possible.

    ** How C is modelled

    - Integers are in [Z] and wrap around where the C type does ([u8], [u32],
      [s32], ...); pointers are 32-bit addresses, 0 being the null pointer.
    - A function without side effects is a Rocq function; one that can stop
      the machine returns [res]: a value, or a [fault] ([assert], [panic], and
      the undefined behaviours of C, which the models guard against one by
      one: a bad pointer, an access out of bounds, a bad shift, a division by
      zero).  Code with state is in the monad [M S] over an explicit state
      record.  A function that returns an error number and stores a result
      through a pointer returns a sum.
    - Intrusive structures are modelled on stores: a map from addresses to
      nodes ([CList], [Bst]).  Components that only use a list through its
      operations have a sequence of addresses for it, which CList.v justifies.
    - Loops are [Fixpoint]s on a list where the code walks one, and otherwise
      [loop] or [loop_m] with fuel.  The theorems say that the fuel suffices
      (the result is [Ok], so never [No_fuel]); the fuel is computed from the
      input where the code bounds the loop, and is a parameter with a lower
      bound in the theorem where it depends on the contents of a disk.
    - Messages that are printed are left out.

    ** The files

    - Prelude: faults, the monads, loops, total correctness ([wp]), integers,
      array accesses, error numbers and automation.
    - MiscMath (kernel/lib/miscmath.c), Bitmap (lib/bitmap.c), CList
      (lib/list.c), StructList (lists embedded in structures, for clients of
      lib/list.c), StrUtil (lib/strutil.c, libc/ctype.c), Queue
      (lib/queue.c), PathReader (lib/pathreader.c): the library of the kernel.
      Bst, BstTree and BstCorrect (lib/bst.c): the operations of the balanced
      trees on a store of nodes, the abstract trees, and the refinement.
    - Arch (arch/i586/interrupts.c): the interrupt flag.  Mmu, MmuSafe,
      MmuPages and MmuCorrect (arch/i586/mmu.c): the page directory and the
      page tables in physical memory, reached through the recursive mapping,
      and the TLB; MmuBoot: the tables that asm/entry.S sets up.  PString
      (lib/pstring.c): copies to and from physical memory, page by page
      through the scratch mapping.
    - HeapIface and PmmIface: what the clients of the heap and of the page
      allocator rely on, as type classes ([HeapOps], [HeapLaws],
      [HeapSucceeds]; [PmmOps], [PmmLaws]).  Buddy and Pmm (mem/pmm.c): the
      physical page allocator, on the abstract buddy trees of Buddy; PmmPages
      makes it an instance of [PmmLaws].  BootInfo (arch/i586/bootinfo.c): the
      boot loader's memory map, read through PString and handed to Pmm.  Heap
      (mem/heap.c): the kernel heap, an instance of [HeapOps].
    - Vmm (mem/vmm.c): the virtual address space of the kernel, on Mmu and
      the heap, with its files of lemmas VmmLists (the lists of objects and
      regions), VmmRegions, VmmInv (the invariant), VmmAlloc, VmmFault,
      VmmFree, VmmErrors, VmmDeinit; VmmCorrect states the results and VmmBoot
      applies them to the kernel's first address space.
    - Kbd (io/kbd.c) and Ps2kbd (dev/ps2kbd.c): keyboard events, the scancode
      decoder and the command queue of the PS/2 keyboard, as state machines.
    - Stream (io/stream.c, libc/stdio.c): formatted output.
    - Sched (tasks/sched.c, tasks/mutex.c, tasks/thread.c): the scheduler,
      threads and mutexes as a transition system whose steps are the calls;
      SchedInv has its invariant, SchedSafety what follows for reachable
      states.  ArchThread (arch/i586/thread.c, asm/contextswitch.S): stacks.
    - Trap (trapmanager.c): the registered trap handlers and their checksums.
      Ports: the i/o ports as a class, with the documented behaviour of the
      8259A and 8254 chips as its laws; Pic (arch/i586/pic.c) and Pit
      (arch/i586/pit.c): interrupt requests and the timer on top of it.
    - Psf and PsfCorrect (raster/psf.c): fonts; Fb, FbDraw and FbCorrect
      (raster/fb.c): the back buffer, drawing, and updating the screen;
      FbScroll: scrolling.
    - Vt100 (io/vt100tty.c): the text terminal over the class [TtyOps] of
      devices; Vt100Correct proves it against a roll of paper, for every device
      with the laws [TtyLaws].  Fbtty and FbttyCorrect (raster/fbtty.c): the
      device that draws the characters into the frame buffer, an instance.
      Vgatty (arch/i586/vgatty.c): the terminal in the memory of the VGA text
      mode, proved against the same paper.
    - Disk (io/disk.c): partitions; the driver is the class [PdiskOps].
      Iodev (io/iodev.c): the registry of devices; Mbr (io/disk.c): the
      partition table.  AtaDisk (dev/atadisk.c): the driver of ATA disks over
      the class [AtaOps] of controllers, whose documented behaviour is
      [AtaLaws]: a channel that two disks share, with its lock, the disk that
      is selected, and the phases of a DMA transfer in the order of atadisk.h;
      AtaRead, AtaWrite and AtaDriver prove it, and run it on a simulated
      controller, with DMA and without.
    - FsWorld (fs/vfs.c): the table of open files, with the world of heap,
      disk and files the file system works in.  Ext2 (fs/fs_ext2.c): the
      driver, all of it; Ext2Block, Ext2Iter, Ext2Read, Ext2File and Ext2Dir
      prove it against a declarative reading of the disk ([block_map], [tree]),
      layer by layer, Ext2Correct states the results and Ext2Image applies
      them to a small image.  Vfs and VfsCorrect (fs/vfs.c): normal paths,
      mount points and dispatch.
    - Unistd (libc/unistd.c): [getopt], against the options of a command.
      Shell and ShellCorrect (shell/shell.c): a line, its words, and the
      program that is called with them; the programs are parameters.

    ** What the theorems show

    Allocators: what is handed out is apart from everything in use, freeing
    undoes allocating, errors leave the state alone; the pages that exist are
    those of the memory map, rounded to whole pages.  Address space: lookups agree with the
    processor, no stale rights in the TLB, objects stay apart, a page fault
    commits a page and nothing else.  Physical memory: what is written is read
    back.  Data structures: each refines its abstract counterpart (sequences,
    FIFO queues, ordered trees).  Keyboard: the decoder gives back the key
    events from the bytes of scancode set 2, which are written down apart from
    the tables of the driver.  Scheduler: no fault, mutual exclusion, every
    thread that was queued at one place while the heap has memory.
    Traps and interrupts: the handlers that are called are those with a
    right checksum, in the order of registration; every real interrupt is
    acknowledged once.  Formatting: the output is the rendering of the format,
    length modifiers included.  Fonts and frame buffer: the glyph of every
    character, and the picture on the screen after an update, each pixel in
    the bits or the palette colour of its mode.  Terminals: the screen shows
    the last lines of what was written, in pixels or in characters.  Disks:
    discovery registers the partitions of every disk that can be read; reads
    and writes of an ATA disk end, and on success transfer exactly the sectors
    asked for.  Ext2: a read gives the bytes of the file, a path leads where
    the directories say, mounting takes every field of the superblock from its
    place in the format, memory is given back.  VFS: the longest mount path
    wins.  [getopt]: the options of a command, in order.  Several theorems state defects the models exposed (for instance:
    unmounting leaves a dangling mount point; seeking does not move the file
    position; the region excluded for the kernel is too long); they are about
    reachable inputs, and say what the code does.

    ** Bounds and fuel

    Loops over a bounded range have their length as fuel.  [WAIT_FUEL] and
    [IRQ_FUEL] of AtaDisk bound the polls and the interrupts of one wait, and
    are parameters: the laws of the controller say that its clock advances and
    its interrupts end within them.  The fuel of a directory or block walk in
    Ext2 is bounded below in the theorems by the size of what is walked.

    ** Not modelled

    Code that is a sequence of accesses to hardware whose behaviour the
    repository does not describe (the PS/2 controller, serial ports, PCI
    enumeration, the bus-master registers behind [AtaOps], the descriptor
    tables of the processor), the programs of the shell, tests and vendored
    code.  Within the modelled parts: printed messages, self-tests, and the
    set-up of the frame buffer.  The pictures of FbCorrect leave out the video
    modes of one bit and fonts of more than eight columns. *)
From stdpp Require Export base tactics numbers list option.
From stdpp Require Export gmap.
From Stdlib Require Export ZArith Lia.
#[global] Open Scope Z_scope.

#[global] Arguments Z.eqb !_ !_ /.
#[global] Arguments Z.ltb !_ !_ /.
#[global] Arguments Z.leb !_ !_ /.


(** [lia] with division and remainder by literals unfolded. *)
Ltac dlia := Z.to_euclidean_division_equations; lia.

(** ** Faults and results

    A C function either returns or stops: [assert] and [panic] stop the
    machine, and the remaining constructors are the undefined behaviours of C
    the models guard against explicitly, instead of giving them a value. *)
Inductive fault :=
  | Assert_failed   (* assert(..) evaluated to false *)
  | Panic           (* panic(..) was called *)
  | Bad_pointer     (* a null or dangling pointer was dereferenced *)
  | Out_of_bounds   (* an array was accessed outside of its allocation *)
  | Bad_shift       (* a shift by at least the width of its operand *)
  | Div_by_zero     (* division or remainder by zero *)
  | Signed_overflow (* a signed operation left the range of its type *)
  | Hang            (* the source enters an endless loop with interrupts disabled *)
  | No_fuel.        (* the fuel of a loop ran out: the model has no answer *)

#[export] Instance fault_eq_dec : EqDecision fault.
Proof. solve_decision. Defined.

Inductive res (A : Type) :=
  | Ok (a : A)
  | Fault (f : fault).
Arguments Ok {A} a.
Arguments Fault {A} f.

#[export] Instance res_ret : MRet res := λ A a, Ok a.
#[export] Instance res_bind : MBind res := λ A B f m,
  match m with Ok a => f a | Fault e => Fault e end.

Definition assert_ (b : bool) : res unit := if b then Ok tt else Fault Assert_failed.

Definition is_ok {A} (m : res A) : Prop := ∃ a, m = Ok a.

Lemma bind_ok {A B} (m : res A) (f : A → res B) (b : B) :
  m ≫= f = Ok b ↔ ∃ a, m = Ok a ∧ f a = Ok b.
Proof. destruct m; unfold mbind, res_bind; naive_solver. Qed.

(** ** Stateful code: explicit state passing through a state-and-fault monad *)
Definition M (S A : Type) : Type := S → res (A * S).

#[export] Instance M_ret S : MRet (M S) := λ A a s, Ok (a, s).
#[export] Instance M_bind S : MBind (M S) := λ A B f m s,
  match m s with Ok (a, s') => f a s' | Fault e => Fault e end.

Definition throw {S A} (f : fault) : M S A := λ _, Fault f.
Definition massert {S} (b : bool) : M S unit :=
  λ s, if b then Ok (tt, s) else Fault Assert_failed.
Definition get {S} : M S S := λ s, Ok (s, s).
Definition put {S} (s : S) : M S unit := λ _, Ok (tt, s).
Definition lift {S A} (m : res A) : M S A :=
  λ s, match m with Ok a => Ok (a, s) | Fault e => Fault e end.

Lemma M_bind_ok {S A B} (m : M S A) (f : A → M S B) s b s' :
  (m ≫= f) s = Ok (b, s') ↔ ∃ a s1, m s = Ok (a, s1) ∧ f a s1 = Ok (b, s').
Proof.
  unfold mbind, M_bind. destruct (m s) as [[a s1]|e]; naive_solver.
Qed.

Lemma M_bind_step {S A B} (m : M S A) (f : A → M S B) s a s1 :
  m s = Ok (a, s1) → (m ≫= f) s = f a s1.
Proof. intros H. unfold mbind, M_bind. by rewrite H. Qed.

(** ** Loops

    [loop] runs one iteration of a C loop at a time: [inl] is the state in
    which the next iteration starts, [inr] what the loop is left with. *)
Fixpoint loop {X R} (fuel : nat) (step : X → res (X + R)) (x : X) : res R :=
  match fuel with
  | O => Fault No_fuel
  | S n =>
      match step x with
      | Fault e => Fault e
      | Ok (inl x') => loop n step x'
      | Ok (inr r) => Ok r
      end
  end.

Lemma loop_S {X R} n (step : X → res (X + R)) x :
  loop (S n) step x =
    match step x with
    | Fault e => Fault e
    | Ok (inl x') => loop n step x'
    | Ok (inr r) => Ok r
    end.
Proof. done. Qed.

(** The total-correctness rule of [loop]: an invariant and a measure that
    decreases at each iteration. *)
Lemma loop_rule {X R} (step : X → res (X + R)) (I : X → Prop) (m : X → nat)
    (Q : R → Prop) :
  (∀ x, I x → ∃ y, step x = Ok y ∧
     match y with inl x' => I x' ∧ (m x' < m x)%nat | inr r => Q r end) →
  ∀ fuel x, I x → (m x < fuel)%nat → ∃ r, loop fuel step x = Ok r ∧ Q r.
Proof.
  intros Hstep fuel. induction fuel as [|n IH]; intros x HI Hm; [lia|]. cbn.
  destruct (Hstep x HI) as ([x'|r] & -> & Hy); [|by eauto].
  destruct Hy as [HI' Hlt]. apply IH; [done|lia].
Qed.

#[global] Arguments loop : simpl never.

(** The same for code with state. *)
Fixpoint loop_m {S X R} (fuel : nat) (step : X → M S (X + R)) (x : X) : M S R :=
  match fuel with
  | O => throw No_fuel
  | S n => y ← step x; match y with inl x' => loop_m n step x' | inr r => mret r end
  end.

Lemma loop_m_step {S X R} n (step : X → M S (X + R)) x s y s' :
  step x s = Ok (y, s') →
  loop_m (Datatypes.S n) step x s = match y with inl x' => loop_m n step x' s' | inr r => Ok (r, s') end.
Proof. intros H. cbn. unfold mbind, M_bind. rewrite H. by destruct y. Qed.

Lemma loop_m_rule {S X R} (step : X → M S (X + R)) (I : X → S → Prop) (m : X → nat)
    (Q : R → S → Prop) :
  (∀ x s, I x s → ∃ y s', step x s = Ok (y, s') ∧
     match y with inl x' => I x' s' ∧ (m x' < m x)%nat | inr r => Q r s' end) →
  ∀ fuel x s, I x s → (m x < fuel)%nat → ∃ r s', loop_m fuel step x s = Ok (r, s') ∧ Q r s'.
Proof.
  intros Hstep fuel. induction fuel as [|n IH]; intros x s HI Hm; [lia|].
  destruct (Hstep x s HI) as ([x'|r] & s' & Hs & Hy); rewrite (loop_m_step _ _ _ _ _ _ Hs); [|by eauto].
  destruct Hy as [HI' Hlt]. apply IH; [done|lia].
Qed.

#[global] Arguments loop_m : simpl never.

(** A loop over a list: each element in turn, up to the first error. *)
Fixpoint for_ {S A} (l : list A) (f : A → M S unit) : M S unit :=
  match l with
  | [] => mret tt
  | x :: l => _ ← f x; for_ l f
  end.

Fixpoint for_try {S A E} (l : list A) (f : A → M S (E + unit)) : M S (E + unit) :=
  match l with
  | [] => mret (inr tt)
  | x :: l => r ← f x; match r with inl e => mret (inl e) | inr _ => for_try l f end
  end.

(** ** Fallible calls: an error number, or the values the call stores through
    its pointer arguments; [x ⇐ m; k] passes the error on. *)
Definition try_ {S E A B} (m : M S (E + A)) (k : A → M S (E + B)) : M S (E + B) :=
  λ s, match m s with
       | Ok (inl e, s') => Ok (inl e, s')
       | Ok (inr a, s') => k a s'
       | Fault f => Fault f
       end.
Notation "x ⇐ m ; k" := (try_ m (λ x, k)) (at level 20, m at level 100, k at level 200, only parsing).
Notation "' x ⇐ m ; k" := (try_ m (λ x, k)) (at level 20, x pattern, m at level 100, k at level 200, only parsing).

(** ** Total correctness of stateful code: [m] ends without a fault from [s],
    with a result and a state that satisfy [Q]. *)
Definition wp {S A} (m : M S A) (s : S) (Q : A → S → Prop) : Prop :=
  ∃ a s', m s = Ok (a, s') ∧ Q a s'.

Section Wp.
Context {S : Type}.
Implicit Types s : S.

Lemma wp_mono {A} (m : M S A) s (P Q : A → S → Prop) :
  wp m s P → (∀ a s', P a s' → Q a s') → wp m s Q.
Proof. intros (a & s' & H & HP) HPQ. exists a, s'. eauto. Qed.
Lemma wp_bind {A B} (m : M S A) (f : A → M S B) s Q :
  wp m s (λ a s', wp (f a) s' Q) → wp (m ≫= f) s Q.
Proof.
  intros (a & s1 & H & b & s2 & Hf & HQ). exists b, s2. split; [|done].
  by rewrite (M_bind_step _ _ _ _ _ H).
Qed.
Lemma wp_ret {A} (a : A) s (Q : A → S → Prop) : Q a s → wp (mret a) s Q.
Proof. intros HQ. by exists a, s. Qed.
Lemma wp_lift {A} (m : res A) a s (Q : A → S → Prop) : m = Ok a → Q a s → wp (lift m) s Q.
Proof. intros Hm HQ. exists a, s. unfold lift. by rewrite Hm. Qed.
Lemma wp_massert b s (Q : unit → S → Prop) : b = true → Q tt s → wp (massert b) s Q.
Proof. intros -> HQ. by exists tt, s. Qed.
Lemma wp_try {E A B} (m : M S (E + A)) (k : A → M S (E + B)) s Q :
  wp m s (λ r s', match r with inl e => Q (inl e) s' | inr a => wp (k a) s' Q end) →
  wp (try_ m k) s Q.
Proof.
  intros (r & s1 & H & HQ). unfold wp, try_. rewrite H. destruct r as [e|a]; [|done]. eauto.
Qed.
Lemma wp_loop {X R} (step : X → M S (X + R)) (I : X → S → Prop) (f : X → nat) Q fuel x s :
  (∀ x s, I x s → wp (step x) s (λ y s',
     match y with inl x' => I x' s' ∧ (f x' < f x)%nat | inr r => Q r s' end)) →
  I x s → (f x < fuel)%nat → wp (loop_m fuel step x) s Q.
Proof. intros Hstep HI Hf. by apply (loop_m_rule step I f). Qed.
(** The invariant of a loop over a list is over the part that is done. *)
Lemma wp_for_from {A} (k l : list A) (f : A → M S unit) (I : list A → S → Prop) s Q :
  I k s → (∀ k' x r s, k ++ l = k' ++ x :: r → I k' s → wp (f x) s (λ _ s', I (k' ++ [x]) s')) →
  (∀ s', I (k ++ l) s' → Q tt s') → wp (for_ l f) s Q.
Proof.
  revert k s. induction l as [|x l IH]; intros k s HI Hf HQ; cbn.
  - apply wp_ret, HQ. by rewrite app_nil_r.
  - apply wp_bind. eapply wp_mono; [by eapply Hf|]. intros [] s' HI'.
    apply (IH (k ++ [x])); [done|rewrite <- (assoc_L (++)); exact Hf|rewrite <- (assoc_L (++)); exact HQ].
Qed.

Lemma wp_for {A} (l : list A) (f : A → M S unit) (I : list A → S → Prop) s Q :
  I [] s → (∀ k x r s, l = k ++ x :: r → I k s → wp (f x) s (λ _ s', I (k ++ [x]) s')) →
  (∀ s', I l s' → Q tt s') → wp (for_ l f) s Q.
Proof. apply (wp_for_from []). Qed.

Lemma wp_for_try_from {A E} (k l : list A) (f : A → M S (E + unit)) (I : list A → S → Prop) s Q :
  I k s → (∀ k' x r s, k ++ l = k' ++ x :: r → I k' s →
    wp (f x) s (λ r s', match r with inl e => Q (inl e) s' | inr _ => I (k' ++ [x]) s' end)) →
  (∀ s', I (k ++ l) s' → Q (inr tt) s') → wp (for_try l f) s Q.
Proof.
  revert k s. induction l as [|x l IH]; intros k s HI Hf HQ; cbn.
  - apply wp_ret, HQ. by rewrite app_nil_r.
  - apply wp_bind. eapply wp_mono; [by eapply Hf|]. intros [e|u] s' HI'; [by apply wp_ret|].
    apply (IH (k ++ [x])); [done|rewrite <- (assoc_L (++)); exact Hf|rewrite <- (assoc_L (++)); exact HQ].
Qed.

Lemma wp_for_try {A E} (l : list A) (f : A → M S (E + unit)) (I : list A → S → Prop) s Q :
  I [] s → (∀ k x r s, l = k ++ x :: r → I k s →
    wp (f x) s (λ r s', match r with inl e => Q (inl e) s' | inr _ => I (k ++ [x]) s' end)) →
  (∀ s', I l s' → Q (inr tt) s') → wp (for_try l f) s Q.
Proof. apply (wp_for_try_from []). Qed.

(** Loops that count. *)
Lemma seqZ_middle (n : Z) k x r : seqZ 0 n = k ++ x :: r → x = Z.of_nat (length k) ∧ 0 ≤ x < n.
Proof.
  intros Hs. assert (seqZ 0 n !! length k = Some x) as Hx by (by rewrite Hs, list_lookup_middle).
  apply lookup_seqZ in Hx. lia.
Qed.

Lemma wp_for_seqZ (n : Z) (f : Z → M S unit) (I : Z → S → Prop) s Q : 0 ≤ n →
  I 0 s → (∀ k s, 0 ≤ k < n → I k s → wp (f k) s (λ _, I (k + 1))) → (∀ s, I n s → Q tt s) →
  wp (for_ (seqZ 0 n) f) s Q.
Proof.
  intros Hn HI Hf HQ. apply (wp_for _ _ (λ l s, I (Z.of_nat (length l)) s)); [done|..].
  - intros k x r s' [Hx Hlt]%seqZ_middle Hk. rewrite <- Hx in Hk. eapply wp_mono; [by apply Hf|].
    intros [] s2 HI'. rewrite length_app, Nat2Z.inj_add, <- Hx. done.
  - intros s' Hs. apply HQ. by rewrite length_seqZ, Z2Nat.id in Hs.
Qed.

Lemma wp_for_try_seqZ {E} (n : Z) (f : Z → M S (E + unit)) (I : Z → S → Prop) s Q : 0 ≤ n →
  I 0 s → (∀ k s, 0 ≤ k < n → I k s →
    wp (f k) s (λ r s', match r with inl e => Q (inl e) s' | inr _ => I (k + 1) s' end)) →
  (∀ s, I n s → Q (inr tt) s) → wp (for_try (seqZ 0 n) f) s Q.
Proof.
  intros Hn HI Hf HQ. apply (wp_for_try _ _ (λ l s, I (Z.of_nat (length l)) s)); [done|..].
  - intros k x r s' [Hx Hlt]%seqZ_middle Hk. rewrite <- Hx in Hk. eapply wp_mono; [by apply Hf|].
    intros [e|u] s2 HI'; [done|]. rewrite length_app, Nat2Z.inj_add, <- Hx. done.
  - intros s' Hs. apply HQ. by rewrite length_seqZ, Z2Nat.id in Hs.
Qed.
End Wp.

(** One step of a [wp] goal. *)
Ltac wp_step :=
  lazymatch goal with
  | |- wp (mbind _ _) _ _ => apply wp_bind
  | |- wp (try_ _ _) _ _ => apply wp_try
  | |- wp (mret _) _ _ => apply wp_ret
  | |- wp (massert _) _ _ => apply wp_massert
  end.

(** ** Machine integers of the i586 (ILP32) target *)
Definition u8 (x : Z) : Z := x mod 2 ^ 8.
Definition u16 (x : Z) : Z := x mod 2 ^ 16.
Definition u32 (x : Z) : Z := x mod 2 ^ 32.
Definition u64 (x : Z) : Z := x mod 2 ^ 64.
Definition s8 (x : Z) : Z := (x + 2 ^ 7) mod 2 ^ 8 - 2 ^ 7.
Definition s32 (x : Z) : Z := (x + 2 ^ 31) mod 2 ^ 32 - 2 ^ 31.
Definition s64 (x : Z) : Z := (x + 2 ^ 63) mod 2 ^ 64 - 2 ^ 63.

Definition SIZE_MAX : Z := 2 ^ 32 - 1.
Definition UINTPTR_MAX : Z := 2 ^ 32 - 1.
Definition INT_MAX : Z := 2 ^ 31 - 1.

(** Bitwise complement of a 32-bit word. *)
Definition not32 (x : Z) : Z := Z.lxor x (2 ^ 32 - 1).

Definition is_u8 (x : Z) : Prop := 0 ≤ x < 2 ^ 8.
Definition is_u32 (x : Z) : Prop := 0 ≤ x < 2 ^ 32.

Definition shr32 (x n : Z) : res Z :=
  if (0 <=? n) && (n <? 32) then Ok (Z.shiftr x n) else Fault Bad_shift.
Definition shl32 (x n : Z) : res Z :=
  if (0 <=? n) && (n <? 32) then Ok (u32 (Z.shiftl x n)) else Fault Bad_shift.

Lemma u32_small x : 0 ≤ x < 2 ^ 32 → u32 x = x.
Proof. intros. unfold u32. by rewrite Z.mod_small. Qed.
Lemma u32_range x : 0 ≤ u32 x < 2 ^ 32.
Proof. unfold u32. apply Z.mod_pos_bound. lia. Qed.
Lemma u32_testbit x k : 0 ≤ k → Z.testbit (u32 x) k = (k <? 32) && Z.testbit x k.
Proof.
  intros Hk. unfold u32. destruct (Z.ltb_spec k 32).
  - by rewrite Z.mod_pow2_bits_low.
  - by rewrite Z.mod_pow2_bits_high by lia.
Qed.
Lemma is_u32_testbit x : 0 ≤ x → (∀ k, 32 ≤ k → Z.testbit x k = false) → is_u32 x.
Proof.
  intros Hx Hk. split; [done|]. replace x with (u32 x); [apply u32_range|].
  apply Z.bits_inj'. intros k Hk0. rewrite u32_testbit by done.
  destruct (Z.ltb_spec k 32); [done|]. by rewrite Hk.
Qed.
Lemma testbit_high x k : is_u32 x → 32 ≤ k → Z.testbit x k = false.
Proof.
  intros Hx Hk. rewrite <- (u32_small x Hx), u32_testbit by lia.
  destruct (Z.ltb_spec k 32); [lia|done].
Qed.
Lemma not32_testbit x k : 0 ≤ k < 32 → Z.testbit (not32 x) k = negb (Z.testbit x k).
Proof.
  intros Hk. unfold not32. rewrite Z.lxor_spec.
  change (2 ^ 32 - 1) with (Z.ones 32).
  rewrite Z.ones_spec_low by lia. by rewrite xorb_true_r.
Qed.
Lemma land_1_testbit x : (Z.land x 1 =? 0) = negb (Z.testbit x 0).
Proof.
  change 1 with (Z.ones 1). rewrite Z.land_ones, Z.bit0_odd, Zmod_odd by lia.
  by destruct (Z.odd x).
Qed.
Lemma s32_small x : - 2 ^ 31 ≤ x < 2 ^ 31 → s32 x = x.
Proof. intros. unfold s32. rewrite Z.mod_small; lia. Qed.
Lemma u32_s32 x : - 2 ^ 31 ≤ x < 2 ^ 31 → s32 (u32 x) = x.
Proof. intros. unfold s32, u32. dlia. Qed.

(** ** Arrays: reads and writes through a C index *)
Definition rd {A} (l : list A) (i : Z) : res A :=
  if i <? 0 then Fault Out_of_bounds
  else match l !! Z.to_nat i with Some a => Ok a | None => Fault Out_of_bounds end.

Definition wr {A} (l : list A) (i : Z) (a : A) : res (list A) :=
  if (0 <=? i) && (i <? Z.of_nat (length l)) then Ok (<[Z.to_nat i := a]> l)
  else Fault Out_of_bounds.

Lemma rd_ok {A} (l : list A) i a :
  0 ≤ i → l !! Z.to_nat i = Some a → rd l i = Ok a.
Proof. intros Hi Hl. unfold rd. destruct (Z.ltb_spec i 0); [lia|]. by rewrite Hl. Qed.

Lemma rd_Some {A} (l : list A) i :
  0 ≤ i < Z.of_nat (length l) → ∃ a, l !! Z.to_nat i = Some a ∧ rd l i = Ok a.
Proof.
  intros Hi. destruct (lookup_lt_is_Some_2 l (Z.to_nat i)) as [a Ha]; [lia|].
  exists a. split; [done|]. apply rd_ok; [lia|done].
Qed.

Lemma wr_ok {A} (l : list A) i (a : A) :
  0 ≤ i < Z.of_nat (length l) → wr l i a = Ok (<[Z.to_nat i := a]> l).
Proof.
  intros Hi. unfold wr.
  destruct (Z.leb_spec 0 i), (Z.ltb_spec i (Z.of_nat (length l))); (done || lia).
Qed.

(** ** Error numbers (src/include/kernel/lib/libc/errno.h) and limits *)
Definition EPERM : Z := 1.
Definition ENOENT : Z := 2.
Definition EIO : Z := 5.
Definition EBADF : Z := 9.
Definition ENOMEM : Z := 12.
Definition EFAULT : Z := 14.
Definition EEXIST : Z := 17.
Definition ENODEV : Z := 19.
Definition ENOTDIR : Z := 20.
Definition EISDIR : Z := 21.
Definition EINVAL : Z := 22.
Definition ENAMETOOLONG : Z := 36.
Definition ENOTSUP : Z := 95.
Definition NAME_MAX : Z := 255.

(** ** Automation *)
Create HintDb kernel.
#[export] Hint Resolve u32_range : kernel.

(** Case analysis on the boolean comparisons of the goal and the context. *)
Ltac zcase :=
  repeat match goal with
  | |- context [?a <? ?b] => destruct (Z.ltb_spec a b)
  | |- context [?a <=? ?b] => destruct (Z.leb_spec a b)
  | |- context [?a =? ?b] => destruct (Z.eqb_spec a b)
  | H : context [?a <? ?b] |- _ => destruct (Z.ltb_spec a b)
  | H : context [?a <=? ?b] |- _ => destruct (Z.leb_spec a b)
  | H : context [?a =? ?b] |- _ => destruct (Z.eqb_spec a b)
  end.

(** Evaluate the monadic structure of the goal one step. *)
Ltac mstep := unfold mbind, res_bind, M_bind, mret, res_ret, M_ret; cbn -[Z.lor Z.land Z.shiftl Z.shiftr].
