(* ===== verification/MiscMath.v ===== *)
(** Alignment and unit-conversion helpers (src/kernel/lib/miscmath.c,
    src/include/kernel/lib/miscmath.h), on 32-bit [size_t]. *)
From S2P Require Import Prelude.

(** ** Operations *)

Definition WILL_ADD_OVERFLOW (base offset max : Z) : bool := u32 (max - base) <? offset.

Definition is_aligned (x align : Z) : res bool :=
  _ ← assert_ (negb (align =? 0));
  Ok (x mod align =? 0).

Definition align_up (x align : Z) : res Z :=
  _ ← assert_ (negb (align =? 0));
  b ← is_aligned x align;
  if b : bool then Ok x
  else Ok (u32 (x + (align - x mod align))).

Definition align_down (x align : Z) : res Z :=
  _ ← assert_ (negb (align =? 0));
  Ok (x - x mod align).

Definition is_ptr_aligned (x align : Z) : res bool :=
  _ ← assert_ (negb (align =? 0));
  Ok (x mod align =? 0).

Definition align_ptr_up (x align : Z) : res Z :=
  _ ← assert_ (negb (align =? 0));
  b ← is_ptr_aligned x align;
  if b : bool then Ok x
  else Ok (u32 (x + (align - x mod align))).

Definition align_ptr_down (x align : Z) : res Z :=
  _ ← assert_ (negb (align =? 0));
  Ok (x - x mod align).

Definition size_to_blocks (size block_size : Z) : res Z :=
  _ ← assert_ (negb (block_size =? 0));
  if size mod block_size =? 0 then Ok (size / block_size)
  else Ok (size / block_size + 1).

(** The bytes of memory [ptr] points to are a list. *)
Definition u16le_at (ptr : list Z) : res Z :=
  b1 ← rd ptr 1; b0 ← rd ptr 0;
  Ok (u16 (Z.lor (u32 (Z.shiftl b1 8)) b0)).

Definition u32le_at (ptr : list Z) : res Z :=
  b3 ← rd ptr 3; b2 ← rd ptr 2; b1 ← rd ptr 1; b0 ← rd ptr 0;
  Ok (Z.lor (Z.lor (Z.lor (u32 (Z.shiftl b3 24)) (u32 (Z.shiftl b2 16)))
                   (u32 (Z.shiftl b1 8))) b0).

(** ** Equations used by the other components *)

Lemma assert_nonzero n : n ≠ 0 → assert_ (negb (n =? 0)) = Ok tt.
Proof. intros. zcase; done. Qed.

Lemma is_aligned_eq x a : a ≠ 0 → is_aligned x a = Ok (x mod a =? 0).
Proof. intros. unfold is_aligned. by rewrite assert_nonzero. Qed.

Lemma align_down_eq x a : a ≠ 0 → align_down x a = Ok (x - x mod a).
Proof. intros. unfold align_down. by rewrite assert_nonzero. Qed.

Lemma align_ptr_down_eq x a : a ≠ 0 → align_ptr_down x a = Ok (x - x mod a).
Proof. intros. unfold align_ptr_down. by rewrite assert_nonzero. Qed.

Lemma size_to_blocks_eq s b :
  0 < b → size_to_blocks s b = Ok ((s + b - 1) / b).
Proof.
  intros Hb. unfold size_to_blocks. rewrite assert_nonzero by lia. cbn.
  pose proof (Z.div_mod s b ltac:(lia)) as Hdm.
  pose proof (Z.mod_pos_bound s b Hb) as Hm.
  destruct (Z.eqb_spec (s mod b) 0) as [E|E]; f_equal.
  - apply (Z.div_unique _ _ _ (b - 1)); lia.
  - apply (Z.div_unique _ _ _ (s mod b - 1)); lia.
Qed.

(** The little-endian bytes of [x]. *)
Fixpoint le_bytes (n : nat) (x : Z) : list Z :=
  match n with O => [] | S n => x mod 256 :: le_bytes n (x / 256) end.

Lemma lor_disjoint a b n : 0 ≤ n → 0 ≤ b < 2 ^ n → a mod 2 ^ n = 0 → Z.lor a b = a + b.
Proof.
  intros Hn Hb Ha. symmetry. rewrite <- Z.lxor_lor.
  - apply Z.add_nocarry_lxor. apply Z.bits_inj'. intros k Hk.
    rewrite Z.land_spec, Z.bits_0. destruct (Z.lt_ge_cases k n).
    + rewrite <- (Z.mod_pow2_bits_low a n k), Ha, Z.bits_0 by lia. done.
    + rewrite <- (Z.mod_small b (2 ^ n)), Z.mod_pow2_bits_high by lia. apply andb_false_r.
  - apply Z.bits_inj'. intros k Hk.
    rewrite Z.land_spec, Z.bits_0. destruct (Z.lt_ge_cases k n).
    + rewrite <- (Z.mod_pow2_bits_low a n k), Ha, Z.bits_0 by lia. done.
    + rewrite <- (Z.mod_small b (2 ^ n)), Z.mod_pow2_bits_high by lia. apply andb_false_r.
Qed.

Lemma u32le_at_sum b0 b1 b2 b3 tl :
  is_u8 b0 → is_u8 b1 → is_u8 b2 → is_u8 b3 →
  u32le_at (b0 :: b1 :: b2 :: b3 :: tl) =
    Ok (b0 + 256 * b1 + 65536 * b2 + 16777216 * b3).
Proof.
  unfold is_u8. intros. unfold u32le_at.
  rewrite (rd_ok _ 3 b3), (rd_ok _ 2 b2), (rd_ok _ 1 b1), (rd_ok _ 0 b0) by done.
  mstep. f_equal. rewrite !Z.shiftl_mul_pow2 by lia. rewrite !u32_small by lia.
  rewrite (lor_disjoint (b3 * 2 ^ 24) _ 24) by (lia || dlia).
  rewrite (lor_disjoint (b3 * 2 ^ 24 + b2 * 2 ^ 16) _ 16) by (lia || dlia).
  rewrite (lor_disjoint _ b0 8) by (lia || dlia). lia.
Qed.

Lemma u16le_at_sum b0 b1 tl :
  is_u8 b0 → is_u8 b1 → u16le_at (b0 :: b1 :: tl) = Ok (b0 + 256 * b1).
Proof.
  unfold is_u8. intros. unfold u16le_at.
  rewrite (rd_ok _ 1 b1), (rd_ok _ 0 b0) by done. mstep. f_equal.
  rewrite !Z.shiftl_mul_pow2 by lia. rewrite !u32_small by lia.
  rewrite (lor_disjoint _ b0 8) by (lia || dlia). unfold u16. rewrite Z.mod_small; lia.
Qed.

(** ** Properties *)

Lemma length_le_bytes n v : length (le_bytes n v) = n.
Proof. revert v. induction n as [|n IH]; intros v; cbn; [done|]. by rewrite IH. Qed.

Lemma u16le_of_bytes v tl : 0 ≤ v < 2 ^ 16 → u16le_at (le_bytes 2 v ++ tl) = Ok v.
Proof. intros Hv. cbn [le_bytes app]. rewrite u16le_at_sum by (unfold is_u8; dlia). f_equal. dlia. Qed.

Lemma u32le_of_bytes w tl : is_u32 w → u32le_at (le_bytes 4 w ++ tl) = Ok w.
Proof.
  unfold is_u32. intros Hw. cbn [le_bytes app]. rewrite u32le_at_sum by (unfold is_u8; dlia).
  f_equal. dlia.
Qed.

(** [u16le_at] and [u32le_at] decode the little-endian bytes of every
    16-bit and 32-bit value, whatever follows them in memory. *)
Theorem le_decode_roundtrip (v w : Z) (tl : list Z) :
  0 ≤ v < 2 ^ 16 → is_u32 w →
  u16le_at (le_bytes 2 v ++ tl) = Ok v ∧ u32le_at (le_bytes 4 w ++ tl) = Ok w.
Proof. intros. split; [by apply u16le_of_bytes|by apply u32le_of_bytes]. Qed.

Lemma le_decode_roundtrip_witness :
  u16le_at (le_bytes 2 0xef53 ++ [1]) = Ok 0xef53 ∧
  u32le_at (le_bytes 4 0xdeadbeef ++ [1]) = Ok 0xdeadbeef.
Proof. apply le_decode_roundtrip; split; discriminate || reflexivity. Defined.

(** for a nonzero alignment, [align_down] returns the greatest multiple of
    it not above [x], [align_up] the least multiple not below [x] when that
    multiple fits in 32 bits, and [size_to_blocks] the least number of blocks
    that hold [size] units; a zero alignment fails the assertion in all three. *)
Theorem alignment_correct (x a : Z) :
  is_u32 x → is_u32 a →
  (a = 0 → align_up x a = Fault Assert_failed ∧ align_down x a = Fault Assert_failed ∧
           size_to_blocks x a = Fault Assert_failed) ∧
  (0 < a →
    (∃ d, align_down x a = Ok d ∧ (a | d) ∧ d ≤ x < d + a) ∧
    (∃ n, size_to_blocks x a = Ok n ∧ a * (n - 1) < x ≤ a * n) ∧
    (x + a ≤ 2 ^ 32 → ∃ u, align_up x a = Ok u ∧ (a | u) ∧ x ≤ u < x + a)).
Proof.
  unfold is_u32. intros Hx Ha. split; [by intros ->|]. intros Hpos.
  pose proof (Z.div_mod x a ltac:(lia)) as Hdm.
  pose proof (Z.mod_pos_bound x a Hpos) as Hm.
  split_and!.
  - rewrite align_down_eq by lia. eexists. split; [done|].
    split; [|lia]. exists (x / a). lia.
  - rewrite size_to_blocks_eq by lia. eexists. split; [done|].
    pose proof (Z.div_mod (x + a - 1) a ltac:(lia)).
    pose proof (Z.mod_pos_bound (x + a - 1) a Hpos). lia.
  - intros Hfit. unfold align_up. rewrite assert_nonzero by lia. cbn.
    rewrite is_aligned_eq by lia. cbn.
    destruct (Z.eqb_spec (x mod a) 0) as [E|E].
    + eexists. split; [done|]. split; [|lia]. exists (x / a). lia.
    + destruct (Z.eq_dec (x + (a - x mod a)) (2 ^ 32)) as [E'|]; [exfalso; lia|].
      rewrite u32_small by lia. eexists. split; [done|]. split; [|lia].
      exists (x / a + 1). lia.
Qed.

Lemma alignment_correct_witness :
  (4096 = 0 → align_up 5000 4096 = Fault Assert_failed ∧
     align_down 5000 4096 = Fault Assert_failed ∧
     size_to_blocks 5000 4096 = Fault Assert_failed) ∧
  (0 < 4096 →
    (∃ d, align_down 5000 4096 = Ok d ∧ (4096 | d) ∧ d ≤ 5000 < d + 4096) ∧
    (∃ n, size_to_blocks 5000 4096 = Ok n ∧ 4096 * (n - 1) < 5000 ≤ 4096 * n) ∧
    (5000 + 4096 ≤ 2 ^ 32 → ∃ u, align_up 5000 4096 = Ok u ∧ (4096 | u) ∧ 5000 ≤ u < 5000 + 4096)).
Proof. apply alignment_correct; split; discriminate || reflexivity. Defined.
