(* ===== verification/Bitmap.v ===== *)
(** Word bitmaps (src/kernel/lib/bitmap.c, src/include/kernel/lib/bitmap.h):
    the operations, the set of bits a bitmap denotes ([bit]), and the
    behaviour of each operation in terms of that set. *)
From S2P Require Import Prelude MiscMath.

(** ** Data and operations *)

Definition BITS_PER_WORD : Z := 32. (* sizeof(UINT) * 8 *)
Definition WORD_ALL_ONES : Z := 2 ^ 32 - 1.

(** [words] is the memory behind the pointer field of the same name. *)
Record bitmap := Bitmap { words : list Z; word_count : Z }.

Definition findfirstsetbit (word startpos : Z) : res Z :=
  if (startpos <? 0) || (BITS_PER_WORD <=? startpos) then Ok (-1)
  else
    let shifted := Z.shiftr word startpos in
    if shifted =? 0 then Ok (-1)
    else
      loop 33 (λ '(shifted, index),
        if negb (Z.land shifted 1 =? 0) then Ok (inr index)
        else if index =? BITS_PER_WORD - 1 then Ok (inr (-1))
        else Ok (inl (Z.shiftr shifted 1, index + 1))) (shifted, startpos).

Definition findlastcontiguousbit (word startpos : Z) : res Z :=
  if (startpos <? 0) || (BITS_PER_WORD <=? startpos) then Ok (-1)
  else if word =? WORD_ALL_ONES then Ok (BITS_PER_WORD - 1)
  else
    let shifted := Z.shiftr word startpos in
    if Z.land shifted 1 =? 0 then Ok (-1)
    else
      loop 34 (λ '(shifted, index),
        if Z.land shifted 1 =? 0 then Ok (inr (index - 1))
        else Ok (inl (Z.shiftr shifted 1, index + 1))) (shifted, startpos).

Definition make_bitmask (offset len : Z) : res Z :=
  if len =? 0 then Ok 0
  else
    ones ← shr32 WORD_ALL_ONES (u32 (BITS_PER_WORD - len));
    shl32 ones offset.

Definition bitmap_needed_word_count (bits : Z) : res Z := size_to_blocks bits BITS_PER_WORD.

Definition bitmap_find_first_set_bit (self : bitmap) (startpos : Z) : res Z :=
  if startpos <? 0 then Ok (-1)
  else
    loop (S (Z.to_nat (word_count self))) (λ '(word_idx, bitoffset),
      if word_idx <? word_count self then
        w ← rd (words self) word_idx;
        idx ← findfirstsetbit w bitoffset;
        if 0 <=? idx then Ok (inr (s32 (u32 (word_idx * BITS_PER_WORD)) + idx))
        else Ok (inl (u32 (word_idx + 1), 0))
      else Ok (inr (-1)))
      (startpos / BITS_PER_WORD, startpos mod BITS_PER_WORD).

Definition bitmap_find_last_contiguous_bit (self : bitmap) (startpos : Z) : res Z :=
  if startpos <? 0 then Ok (-1)
  else
    let start_word_idx := startpos / BITS_PER_WORD in
    if word_count self <=? start_word_idx then Ok (-1)
    else
      loop (S (Z.to_nat (word_count self))) (λ '(word_idx, bitoffset),
        if word_idx <? word_count self then
          w ← rd (words self) word_idx;
          idx ← findlastcontiguousbit w bitoffset;
          if idx <? 0 then Ok (inr (-1))
          else
            let here := s32 (u32 (word_idx * BITS_PER_WORD)) + idx in
            (* We found 1 before the MSB *)
            if negb (idx =? BITS_PER_WORD - 1) then Ok (inr here)
            (* We found 1 at MSB, and it doesn't continue on the next word. *)
            else if u32 (word_idx + 1) <? word_count self then
              next ← rd (words self) (u32 (word_idx + 1));
              if Z.land next 1 =? 0 then Ok (inr here)
              else Ok (inl (u32 (word_idx + 1), 0))
            else Ok (inl (u32 (word_idx + 1), 0))
        else Ok (inr (s32 (u32 (word_count self * BITS_PER_WORD)) - 1)))
        (start_word_idx, startpos mod BITS_PER_WORD).

Definition bitmap_find_set_bits (self : bitmap) (startpos minlen : Z) : res Z :=
  if startpos <? 0 then Ok (-1)
  else
    loop (S (Z.to_nat (word_count self * BITS_PER_WORD))) (λ first_bit_idx,
      first_bit_idx ← bitmap_find_first_set_bit self first_bit_idx;
      if first_bit_idx <? 0 then Ok (inr (-1))
      else
        last_bit_idx ← bitmap_find_last_contiguous_bit self first_bit_idx;
        let foundlen := u32 (last_bit_idx - first_bit_idx + 1) in
        if minlen <=? foundlen then Ok (inr first_bit_idx)
        else Ok (inl (last_bit_idx + 1))) startpos.

(** The number of bits of the word at hand a range operation works on. *)
Definition current_len (bitoffset remaininglen : Z) : Z :=
  if BITS_PER_WORD <? u32 (bitoffset + remaininglen) then u32 (BITS_PER_WORD - bitoffset)
  else remaininglen.

Definition bitmap_are_bits_set (self : bitmap) (offset len : Z) : res bool :=
  if (offset <? 0) || (len =? 0) then Ok false
  else
    loop (S (Z.to_nat len)) (λ '(word_idx, bitoffset, remaininglen),
      if negb (remaininglen =? 0) then
        if word_count self <=? word_idx then Ok (inr false)
        else
          word ← rd (words self) word_idx;
          if word =? 0 then Ok (inr false)
          else
            let currentlen := current_len bitoffset remaininglen in
            mask ← make_bitmask bitoffset currentlen;
            if negb (Z.land word mask =? mask) then Ok (inr false)
            else Ok (inl (u32 (word_idx + 1), 0, u32 (remaininglen - currentlen)))
      else Ok (inr true))
      (u32 offset / BITS_PER_WORD, u32 offset mod BITS_PER_WORD, len).

(** [bitmap_set_bits] and [bitmap_clear_bits] differ in what they do to the
    word at hand and its mask. *)
Definition bitmap_update_bits (update : Z → Z → Z) (self : bitmap) (offset len : Z) : res bitmap :=
  if len =? 0 then Ok self
  else
    loop (S (Z.to_nat len)) (λ '(ws, word_idx, bitoffset, remaininglen),
      if negb (remaininglen =? 0) then
        if word_count self <=? word_idx then Ok (inr (Bitmap ws (word_count self)))
        else
          let currentlen := current_len bitoffset remaininglen in
          mask ← make_bitmask bitoffset currentlen;
          word ← rd ws word_idx;
          ws ← wr ws word_idx (update word mask);
          Ok (inl (ws, u32 (word_idx + 1), 0, u32 (remaininglen - currentlen)))
      else Ok (inr (Bitmap ws (word_count self))))
      (words self, u32 offset / BITS_PER_WORD, u32 offset mod BITS_PER_WORD, len).

Definition bitmap_set_bits : bitmap → Z → Z → res bitmap :=
  bitmap_update_bits (λ word mask, Z.lor word mask).
Definition bitmap_clear_bits : bitmap → Z → Z → res bitmap :=
  bitmap_update_bits (λ word mask, Z.land word (not32 mask)).

Definition bitmap_set_bit (self : bitmap) (offset : Z) : res bitmap :=
  if (offset <? 0) || (word_count self <? offset / BITS_PER_WORD) then Ok self
  else
    word ← rd (words self) (offset / BITS_PER_WORD);
    bit ← shl32 1 (offset mod BITS_PER_WORD);
    ws ← wr (words self) (offset / BITS_PER_WORD) (Z.lor word bit);
    Ok (Bitmap ws (word_count self)).

Definition bitmap_clear_bit (self : bitmap) (offset : Z) : res bitmap :=
  if (offset <? 0) || (word_count self <? offset / BITS_PER_WORD) then Ok self
  else
    word ← rd (words self) (offset / BITS_PER_WORD);
    bit ← shl32 1 (offset mod BITS_PER_WORD);
    ws ← wr (words self) (offset / BITS_PER_WORD) (Z.land word (not32 bit));
    Ok (Bitmap ws (word_count self)).

Definition bitmap_is_bit_set (self : bitmap) (offset : Z) : res bool :=
  if (offset <? 0) || (word_count self <? offset / BITS_PER_WORD) then Ok false
  else
    word ← rd (words self) (offset / BITS_PER_WORD);
    bit ← shl32 1 (offset mod BITS_PER_WORD);
    Ok (negb (Z.land word bit =? 0)).

(** ** Abstraction *)

(** Is bit [i] of the bitmap set? No bit outside of the words is. *)
Definition bit (self : bitmap) (i : Z) : bool :=
  (0 <=? i) &&
  match words self !! Z.to_nat (i / BITS_PER_WORD) with
  | Some w => Z.testbit w (i mod BITS_PER_WORD)
  | None => false
  end.

(** Well-formed bitmaps: the words are there, and their bits have indices
    that fit in a [long]. *)
Record bitmap_wf (self : bitmap) : Prop := {
  wf_len : Z.of_nat (length (words self)) = word_count self;
  wf_words : Forall is_u32 (words self);
  wf_max : word_count self * BITS_PER_WORD < 2 ^ 31;
}.

(** ** Words *)

Lemma is_u32_land_not32 w m : is_u32 w → is_u32 m → is_u32 (Z.land w (not32 m)).
Proof.
  intros Hw Hm. apply is_u32_testbit.
  - apply Z.land_nonneg. left. apply Hw.
  - intros k Hk. by rewrite Z.land_spec, (testbit_high w).
Qed.

Lemma is_u32_lor w m : is_u32 w → is_u32 m → is_u32 (Z.lor w m).
Proof.
  intros Hw Hm. apply is_u32_testbit.
  - apply Z.lor_nonneg. split; [apply Hw|apply Hm].
  - intros k Hk. by rewrite Z.lor_spec, !testbit_high.
Qed.

Lemma shl32_ok x n : 0 ≤ n < 32 → shl32 x n = Ok (u32 (Z.shiftl x n)).
Proof.
  intros. unfold shl32.
  destruct (Z.leb_spec 0 n), (Z.ltb_spec n 32); (done || lia).
Qed.

Lemma shr32_ok x n : 0 ≤ n < 32 → shr32 x n = Ok (Z.shiftr x n).
Proof.
  intros. unfold shr32.
  destruct (Z.leb_spec 0 n), (Z.ltb_spec n 32); (done || lia).
Qed.

(** The one-bit mask [1U << n]. *)
Lemma shl32_one n : 0 ≤ n < 32 →
  ∃ m, shl32 1 n = Ok m ∧ is_u32 m ∧ ∀ k, 0 ≤ k → Z.testbit m k = (k =? n).
Proof.
  intros Hn. rewrite shl32_ok by done. eexists. split; [done|]. split; [apply u32_range|].
  intros k Hk. rewrite u32_testbit, Z.shiftl_spec by done.
  destruct (Z.eqb_spec k n) as [->|Hne].
  - rewrite Z.sub_diag. destruct (Z.ltb_spec n 32); [done|lia].
  - destruct (Z.ltb_spec k 32); [|done]. cbn.
    destruct (Z.ltb_spec k n).
    + rewrite Z.testbit_neg_r by lia. done.
    + change 1 with (Z.ones 1). rewrite Z.ones_spec_high by lia. done.
Qed.

Lemma make_bitmask_spec offset len :
  0 ≤ offset → 0 < len → offset + len ≤ 32 →
  ∃ m, make_bitmask offset len = Ok m ∧ is_u32 m ∧
    ∀ k, 0 ≤ k → Z.testbit m k = (offset <=? k) && (k <? offset + len).
Proof.
  intros Ho Hl Hs. unfold make_bitmask, BITS_PER_WORD.
  destruct (Z.eqb_spec len 0); [lia|].
  rewrite u32_small, shr32_ok by lia. mstep. rewrite shl32_ok by lia.
  eexists. split; [done|]. split; [apply u32_range|]. intros k Hk.
  rewrite u32_testbit, Z.shiftl_spec by done.
  destruct (Z.leb_spec offset k) as [Hok|Hok]; cbn.
  2: { rewrite (Z.testbit_neg_r _ (k - offset)) by lia. apply andb_false_r. }
  rewrite Z.shiftr_spec by lia. change WORD_ALL_ONES with (Z.ones 32).
  destruct (Z.ltb_spec k (offset + len)).
  - rewrite Z.ones_spec_low by lia. destruct (Z.ltb_spec k 32); [done|lia].
  - rewrite Z.ones_spec_high by lia. apply andb_false_r.
Qed.

(** A nonzero word shifted right by [index] has a set bit not below [index]. *)
Lemma shiftr_zero_bits w p j : Z.shiftr w p = 0 → 0 ≤ p ≤ j → Z.testbit w j = false.
Proof.
  intros Hz Hj. replace j with (j - p + p) by lia.
  rewrite <- Z.shiftr_spec, Hz, Z.bits_0 by lia. done.
Qed.

Lemma shiftr_succ w i : 0 ≤ i → Z.shiftr (Z.shiftr w i) 1 = Z.shiftr w (i + 1).
Proof. intros. by rewrite Z.shiftr_shiftr by lia. Qed.

Lemma shiftr_bit0 w i : 0 ≤ i → Z.testbit (Z.shiftr w i) 0 = Z.testbit w i.
Proof. intros. by rewrite Z.shiftr_spec by lia. Qed.

(** What [findfirstsetbit] returns: the first set bit from [p] on. *)
Definition first_set_in_word (w p r : Z) : Prop :=
  (r = -1 ∧ ∀ j, p ≤ j < 32 → Z.testbit w j = false) ∨
  (p ≤ r < 32 ∧ Z.testbit w r = true ∧ ∀ j, p ≤ j < r → Z.testbit w j = false).

Lemma findfirstsetbit_spec w p :
  is_u32 w → 0 ≤ p < 32 →
  ∃ r, findfirstsetbit w p = Ok r ∧ first_set_in_word w p r.
Proof.
  intros Hw Hp. unfold findfirstsetbit, BITS_PER_WORD.
  destruct (Z.ltb_spec p 0), (Z.leb_spec 32 p); try lia. cbn [orb].
  destruct (Z.eqb_spec (Z.shiftr w p) 0) as [Hz|Hz].
  { eexists. split; [done|]. left. split; [done|]. intros j Hj.
    apply (shiftr_zero_bits w p); lia. }
  apply (loop_rule _ (λ '(s, i), s = Z.shiftr w i ∧ p ≤ i < 32 ∧
      ∀ j, p ≤ j < i → Z.testbit w j = false) (λ '(_, i), Z.to_nat (32 - i))).
  2: { cbn. split_and!; (done || lia). }
  2: { cbn. lia. }
  intros [s i] (-> & Hi & Hj). rewrite land_1_testbit, shiftr_bit0 by lia.
  destruct (Z.testbit w i) eqn:Hb; cbn.
  - eexists. split; [done|]. right. auto.
  - assert (∀ j, p ≤ j < i + 1 → Z.testbit w j = false) as Hj'.
    { intros j Hj1. destruct (decide (j = i)) as [->|]; [done|]. apply Hj. lia. }
    destruct (Z.eqb_spec i (32 - 1)).
    + eexists. split; [done|]. left. split; [done|]. intros j Hj1. apply Hj'. lia.
    + eexists. split; [done|]. rewrite shiftr_succ by lia. split_and!; (done || lia).
Qed.

(** What [findlastcontiguousbit] returns: the end of the run of set bits
    that [p] is in. *)
Definition last_set_in_word (w p r : Z) : Prop :=
  (r = -1 ∧ Z.testbit w p = false) ∨
  (p ≤ r < 32 ∧ (∀ j, p ≤ j ≤ r → Z.testbit w j = true) ∧
   (r = 31 ∨ Z.testbit w (r + 1) = false)).

Lemma findlastcontiguousbit_spec w p :
  is_u32 w → 0 ≤ p < 32 →
  ∃ r, findlastcontiguousbit w p = Ok r ∧ last_set_in_word w p r.
Proof.
  intros Hw Hp. unfold findlastcontiguousbit, BITS_PER_WORD.
  destruct (Z.ltb_spec p 0), (Z.leb_spec 32 p); try lia. cbn [orb].
  destruct (Z.eqb_spec w WORD_ALL_ONES) as [->|_].
  { eexists. split; [done|]. right. split; [lia|]. split; [|by left].
    intros j Hj. change WORD_ALL_ONES with (Z.ones 32). apply Z.ones_spec_low. lia. }
  rewrite land_1_testbit, shiftr_bit0 by lia.
  destruct (Z.testbit w p) eqn:Hb; cbn [negb].
  2: { eexists. split; [done|]. by left. }
  apply (loop_rule _ (λ '(s, i), s = Z.shiftr w i ∧ p ≤ i ≤ 32 ∧
      ∀ j, p ≤ j < i → Z.testbit w j = true) (λ '(_, i), Z.to_nat (32 - i))).
  2: { cbn. split_and!; (done || lia). }
  2: { cbn. lia. }
  intros [s i] (-> & Hi & Hj). rewrite land_1_testbit, shiftr_bit0 by lia.
  destruct (Z.testbit w i) eqn:Hbi; cbn.
  - assert (i < 32).
    { destruct (Z.ltb_spec i 32); [done|]. rewrite testbit_high in Hbi by (done || lia). done. }
    eexists. split; [done|]. rewrite shiftr_succ by lia. split_and!; try (done || lia).
    intros j Hj1. destruct (decide (j = i)) as [->|]; [done|]. apply Hj. lia.
  - assert (i ≠ p) by congruence.
    eexists. split; [done|]. right. split; [lia|]. split.
    + intros j Hj1. apply Hj. lia.
    + right. by replace (i - 1 + 1) with i by lia.
Qed.

(** ** Bits and words of a bitmap *)

Lemma bit_out self i : word_count self = Z.of_nat (length (words self)) →
  word_count self * BITS_PER_WORD ≤ i → bit self i = false.
Proof.
  intros Hl Hi. unfold bit, BITS_PER_WORD in *.
  rewrite lookup_ge_None_2; [by destruct (0 <=? i)|].
  dlia.
Qed.

Lemma bit_neg self i : i < 0 → bit self i = false.
Proof. intros Hi. unfold bit. destruct (Z.leb_spec 0 i); [lia|done]. Qed.

Lemma bit_word self i w k :
  0 ≤ i → words self !! Z.to_nat i = Some w → 0 ≤ k < 32 →
  bit self (i * 32 + k) = Z.testbit w k.
Proof.
  intros Hi Hw Hk. unfold bit, BITS_PER_WORD.
  replace ((i * 32 + k) / 32) with i by dlia.
  replace ((i * 32 + k) mod 32) with k by dlia.
  rewrite Hw. destruct (Z.leb_spec 0 (i * 32 + k)); [done|lia].
Qed.

Lemma bit_set_word ws wc i w j :
  0 ≤ i < Z.of_nat (length ws) →
  bit (Bitmap (<[Z.to_nat i := w]> ws) wc) j =
  if (i * 32 <=? j) && (j <? i * 32 + 32) then Z.testbit w (j - i * 32)
  else bit (Bitmap ws wc) j.
Proof.
  intros Hi. unfold bit, BITS_PER_WORD; cbn [words].
  destruct (Z.leb_spec (i * 32) j), (Z.ltb_spec j (i * 32 + 32)); cbn.
  - replace (j / 32) with i by dlia. rewrite list_lookup_insert_eq by lia.
    replace (j mod 32) with (j - i * 32) by dlia.
    destruct (Z.leb_spec 0 j); [done|lia].
  - destruct (Z.leb_spec 0 j); [|done]. cbn.
    rewrite list_lookup_insert_ne; [done|]. dlia.
  - destruct (Z.leb_spec 0 j); [|done]. cbn.
    rewrite list_lookup_insert_ne; [done|]. dlia.
  - lia.
Qed.

Lemma wf_rd self i :
  bitmap_wf self → 0 ≤ i < word_count self →
  ∃ w, rd (words self) i = Ok w ∧ words self !! Z.to_nat i = Some w ∧ is_u32 w.
Proof.
  intros [Hl Hw _] Hi. destruct (rd_Some (words self) i) as (w & Hlk & Hrd); [lia|].
  exists w. split_and!; [done..|]. by eapply Forall_lookup_1.
Qed.

Lemma wf_set_word self i w :
  bitmap_wf self → is_u32 w →
  bitmap_wf (Bitmap (<[Z.to_nat i := w]> (words self)) (word_count self)).
Proof.
  intros [Hl Hw Hm] Hu. split; cbn; [by rewrite length_insert| |done].
  by apply Forall_insert.
Qed.

(** The index arithmetic of the loops does not overflow. *)
Lemma word_pos self i :
  bitmap_wf self → 0 ≤ i < word_count self →
  s32 (u32 (i * BITS_PER_WORD)) = i * 32 ∧ u32 (i + 1) = i + 1.
Proof.
  intros [_ _ Hm] Hi. unfold BITS_PER_WORD in *. split.
  - apply u32_s32. lia.
  - apply u32_small. lia.
Qed.

(** ** Searching *)

Definition first_set (self : bitmap) (p r : Z) : Prop :=
  (r = -1 ∧ ∀ j, p ≤ j → bit self j = false) ∨
  (p ≤ r ∧ bit self r = true ∧ ∀ j, p ≤ j < r → bit self j = false).

Lemma find_first_set_bit_ok self p :
  bitmap_wf self → 0 ≤ p →
  ∃ r, bitmap_find_first_set_bit self p = Ok r ∧ first_set self p r.
Proof.
  intros Hwf Hp. unfold bitmap_find_first_set_bit.
  destruct (Z.ltb_spec p 0); [lia|].
  apply (loop_rule _ (λ '(i, o), 0 ≤ i ∧ 0 ≤ o < 32 ∧ p ≤ i * 32 + o ∧
      ∀ j, p ≤ j < i * 32 + o → bit self j = false)
      (λ '(i, _), Z.to_nat (word_count self - i))).
  2: { unfold BITS_PER_WORD. split_and!; intros; dlia. }
  2: { unfold BITS_PER_WORD. dlia. }
  intros [i o] (Hi & Ho & Hpi & Hj).
  destruct (Z.ltb_spec i (word_count self)) as [Hlt|Hge].
  2: { eexists. split; [done|]. left. split; [done|]. intros j Hpj.
       destruct (Z.lt_ge_cases j (i * 32 + o)); [apply Hj; lia|].
       apply bit_out; [symmetry; apply Hwf|]. unfold BITS_PER_WORD. lia. }
  destruct (wf_rd self i Hwf) as (w & Hrd & Hlk & Hu); [lia|].
  destruct (word_pos self i Hwf) as [-> ->]; [lia|].
  destruct (findfirstsetbit_spec w o Hu Ho) as (r & Hf & Hr).
  rewrite Hrd. mstep. rewrite Hf.
  assert (Hin : ∀ k, 0 ≤ k < 32 → bit self (i * 32 + k) = Z.testbit w k)
    by (intros; apply bit_word; done).
  destruct Hr as [[-> Hr]|(Hr & Hrb & Hrl)].
  - eexists. split; [done|]. split_and!; try lia. intros j Hpj.
    destruct (Z.lt_ge_cases j (i * 32 + o)); [apply Hj; lia|].
    replace j with (i * 32 + (j - i * 32)) by lia. rewrite Hin by lia. apply Hr. lia.
  - destruct (Z.leb_spec 0 r); [|lia]. eexists. split; [done|]. right. split; [lia|]. rewrite Hin by lia.
    split; [done|]. intros j Hpj.
    destruct (Z.lt_ge_cases j (i * 32 + o)); [apply Hj; lia|].
    replace j with (i * 32 + (j - i * 32)) by lia. rewrite Hin by lia. apply Hrl. lia.
Qed.

(** [r] ends the run of set bits that [p] is in. *)
Definition last_of_run (self : bitmap) (p r : Z) : Prop :=
  p ≤ r ∧ (∀ j, p ≤ j ≤ r → bit self j = true) ∧ bit self (r + 1) = false.

Lemma find_last_contiguous_bit_ok self p :
  bitmap_wf self → 0 ≤ p → bit self p = true →
  ∃ r, bitmap_find_last_contiguous_bit self p = Ok r ∧ last_of_run self p r.
Proof.
  intros Hwf Hp Hbp. unfold bitmap_find_last_contiguous_bit.
  destruct (Z.ltb_spec p 0); [lia|].
  assert (Hpw : p / BITS_PER_WORD < word_count self).
  { destruct (Z.lt_ge_cases (p / BITS_PER_WORD) (word_count self)); [done|].
    rewrite bit_out in Hbp; [done|symmetry; apply Hwf|]. unfold BITS_PER_WORD in *. dlia. }
  destruct (Z.leb_spec (word_count self) (p / BITS_PER_WORD)); [lia|].
  apply (loop_rule _ (λ '(i, o), 0 ≤ i < word_count self ∧ 0 ≤ o < 32 ∧
      p ≤ i * 32 + o ∧ (∀ j, p ≤ j ≤ i * 32 + o → bit self j = true) ∨
      i = word_count self ∧ o = 0 ∧ p < i * 32 ∧ ∀ j, p ≤ j < i * 32 → bit self j = true)
      (λ '(i, _), Z.to_nat (word_count self - i))).
  2: { left. unfold BITS_PER_WORD in *. split_and!; try dlia.
       intros j Hj. by replace j with p by dlia. }
  2: { unfold BITS_PER_WORD in *. dlia. }
  intros [i o] [(Hi & Ho & Hpi & Hj)|(-> & -> & Hpi & Hj)].
  2: { destruct (Z.ltb_spec (word_count self) (word_count self)); [lia|].
       replace (s32 (u32 (word_count self * BITS_PER_WORD))) with (word_count self * 32).
       2: { destruct Hwf as [_ _ Hm]. unfold BITS_PER_WORD in *. rewrite u32_s32; lia. }
       eexists. split; [done|]. split; [lia|]. split; [intros; apply Hj; lia|].
       apply bit_out; [symmetry; apply Hwf|]. unfold BITS_PER_WORD. lia. }
  destruct (Z.ltb_spec i (word_count self)); [|lia].
  destruct (wf_rd self i Hwf) as (w & Hrd & Hlk & Hu); [lia|].
  destruct (word_pos self i Hwf) as [-> ->]; [lia|].
  destruct (findlastcontiguousbit_spec w o Hu Ho) as (r & Hf & Hr).
  rewrite Hrd. mstep. rewrite Hf.
  assert (Hin : ∀ k, 0 ≤ k < 32 → bit self (i * 32 + k) = Z.testbit w k)
    by (intros; apply bit_word; (done || lia)).
  destruct Hr as [[-> Hr]|(Hr & Hrb & Hre)].
  { rewrite <- Hin, Hj in Hr by lia. done. }
  destruct (Z.ltb_spec r 0); [lia|].
  assert (Hrun : ∀ j, p ≤ j ≤ i * 32 + r → bit self j = true).
  { intros j Hpj. destruct (Z.le_gt_cases j (i * 32 + o)); [apply Hj; lia|].
    replace j with (i * 32 + (j - i * 32)) by lia. rewrite Hin by lia. apply Hrb. lia. }
  destruct (Z.eqb_spec r (BITS_PER_WORD - 1)) as [E|E]; unfold BITS_PER_WORD in E; cbn.
  2: { eexists. split; [done|]. split; [lia|]. split; [done|].
       destruct Hre as [->|Hre]; [lia|].
       replace (i * 32 + r + 1) with (i * 32 + (r + 1)) by lia. by rewrite Hin by lia. }
  destruct (Z.ltb_spec (i + 1) (word_count self)) as [Hn|Hn]; cbn.
  - destruct (wf_rd self (i + 1) Hwf) as (w' & Hrd' & Hlk' & _); [lia|].
    rewrite Hrd'. cbn. rewrite land_1_testbit.
    assert (Hb0 : bit self ((i + 1) * 32 + 0) = Z.testbit w' 0)
      by (apply bit_word; (done || lia)).
    destruct (Z.testbit w' 0) eqn:Hb; cbn; eexists; (split; [done|]).
    + split; [|lia]. left. split_and!; try lia. intros j Hpj.
      destruct (decide (j = (i + 1) * 32 + 0)) as [->|]; [done|]. apply Hrun. lia.
    + split; [lia|]. split; [done|]. rewrite <- Hb0. f_equal. lia.
  - eexists. split; [done|]. split; [|lia]. right. split_and!; try lia.
    intros j Hpj. apply Hrun. lia.
Qed.

(** [n] set bits in a row from [q] on. *)
Definition run (self : bitmap) (q n : Z) : Prop := ∀ j, q ≤ j < q + n → bit self j = true.

Lemma run_in_bounds self q n :
  bitmap_wf self → 0 < n → run self q n → 0 ≤ q ∧ q + n ≤ word_count self * BITS_PER_WORD.
Proof.
  intros Hwf Hn Hr. split.
  - destruct (Z.le_gt_cases 0 q); [done|]. specialize (Hr q ltac:(lia)).
    by rewrite bit_neg in Hr.
  - destruct (Z.le_gt_cases (q + n) (word_count self * BITS_PER_WORD)); [done|].
    specialize (Hr (q + n - 1) ltac:(lia)).
    rewrite bit_out in Hr; [done|symmetry; apply Hwf|lia].
Qed.

(** A bitmap is determined by its bits. *)
Lemma bitmap_ext b b' :
  bitmap_wf b → bitmap_wf b' → word_count b = word_count b' →
  (∀ j, bit b j = bit b' j) → b = b'.
Proof.
  intros [Hl Hw _] [Hl' Hw' _] Hwc Hb. destruct b as [ws n], b' as [ws' n']. cbn in *. subst n'.
  assert (ws = ws') as ->; [|by f_equal].
  apply list_eq_same_length with (length ws); [lia|done|].
  intros i w w' Hi Hws Hws'. apply Z.bits_inj'. intros k Hk.
  destruct (Z.lt_ge_cases k 32) as [Hlt|Hge].
  - specialize (Hb (Z.of_nat i * 32 + k)). unfold bit, BITS_PER_WORD in Hb. cbn in Hb.
    replace ((Z.of_nat i * 32 + k) / 32) with (Z.of_nat i) in Hb by dlia.
    replace ((Z.of_nat i * 32 + k) mod 32) with k in Hb by dlia.
    rewrite Nat2Z.id, Hws, Hws' in Hb. by destruct (Z.leb_spec 0 (Z.of_nat i * 32 + k)); [|lia].
  - rewrite (testbit_high w), (testbit_high w'); try done.
    + exact (Forall_lookup_1 is_u32 _ _ _ Hw' Hws').
    + exact (Forall_lookup_1 is_u32 _ _ _ Hw Hws).
Qed.

Lemma bit_in_bounds self j :
  bitmap_wf self → bit self j = true → 0 ≤ j < word_count self * BITS_PER_WORD.
Proof.
  intros Hwf Hj. enough (0 ≤ j ∧ j + 1 ≤ word_count self * BITS_PER_WORD) by lia.
  apply run_in_bounds; [done|lia|]. intros k Hk. by replace k with j by lia.
Qed.

(** [r] is where the first run of [n] set bits at or after [p] starts. *)
Definition first_run (self : bitmap) (p n r : Z) : Prop :=
  (r = -1 ∧ ∀ q, p ≤ q → ¬ run self q n) ∨
  (p ≤ r ∧ run self r n ∧ ∀ q, p ≤ q < r → ¬ run self q n).

Lemma find_set_bits_ok self p n :
  bitmap_wf self → 0 ≤ p → 0 < n →
  ∃ r, bitmap_find_set_bits self p n = Ok r ∧ first_run self p n r.
Proof.
  intros Hwf Hp Hn. unfold bitmap_find_set_bits.
  destruct (Z.ltb_spec p 0); [lia|].
  assert (Hclear : ∀ q x y, x ≤ q < y → (∀ j, x ≤ j < y → bit self j = false) →
    ¬ run self q n).
  { intros q x y Hq Hc Hr. specialize (Hr q ltac:(lia)). by rewrite Hc in Hr. }
  apply (loop_rule _ (λ x, p ≤ x ∧ ∀ q, p ≤ q < x → ¬ run self q n)
      (λ x, Z.to_nat (word_count self * BITS_PER_WORD - x))); cbn.
  2: { split; [lia|]. intros; lia. }
  2: lia.
  intros x (Hx & Hq).
  destruct (find_first_set_bit_ok self x Hwf ltac:(lia)) as (f & Hf & Hfs).
  rewrite Hf. mstep. destruct Hfs as [[-> Hfs]|(Hxf & Hbf & Hfl)].
  { eexists. split; [done|]. left. split; [done|]. intros q Hpq Hr.
    destruct (Z.lt_ge_cases q x); [by eapply Hq|].
    specialize (Hr q ltac:(lia)). by rewrite Hfs in Hr. }
  destruct (Z.ltb_spec f 0); [lia|].
  destruct (find_last_contiguous_bit_ok self f Hwf ltac:(lia) Hbf) as (l & Hl & Hfl' & Hrun & Hend).
  rewrite Hl. cbn.
  pose proof (bit_in_bounds self f Hwf Hbf) as Hbf'.
  assert (bit self l = true) as Hbl by (apply Hrun; lia).
  pose proof (bit_in_bounds self l Hwf Hbl) as Hbl'.
  pose proof (wf_max _ Hwf) as Hmax.
  rewrite u32_small by lia.
  assert (Hbelow : ∀ q, p ≤ q < f → ¬ run self q n).
  { intros q Hpq. destruct (Z.lt_ge_cases q x); [by apply Hq; lia|].
    apply (Hclear q x f); [lia|done]. }
  destruct (Z.leb_spec n (l - f + 1)); eexists; (split; [done|]).
  - right. split; [lia|]. split; [|done]. intros j Hj. apply Hrun. lia.
  - split; [|lia]. split; [lia|]. intros q Hpq Hr.
    destruct (Z.lt_ge_cases q f); [by apply (Hbelow q ltac:(lia))|].
    specialize (Hr (l + 1) ltac:(lia)). congruence.
Qed.

(** ** Updating ranges *)

(** The shared loop of the range updates: word [w] becomes [upd w m], whose
    bits are [f] of the old ones under the mask. *)
Section range.
  Context (upd : Z → Z → Z) (f : bool → bool).
  Hypothesis upd_u32 : ∀ w m, is_u32 w → is_u32 m → is_u32 (upd w m).
  Hypothesis upd_bit : ∀ w m k, is_u32 w → is_u32 m → 0 ≤ k < 32 →
    Z.testbit (upd w m) k = if Z.testbit m k then f (Z.testbit w k) else Z.testbit w k.

(** One iteration of the loop: the bits of word [i] from [o] on, at most [n]. *)
Lemma update_word_ok ws wc i o n :
    bitmap_wf (Bitmap ws wc) → 0 ≤ i < wc → 0 ≤ o < 32 → 0 < n → o + n < 2 ^ 32 →
    ∃ ws' cur, current_len o n = cur ∧ cur = Z.min n (32 - o) ∧
      (mask ← make_bitmask o cur; word ← rd ws i; wr ws i (upd word mask)) = Ok ws' ∧
      bitmap_wf (Bitmap ws' wc) ∧
      ∀ j, bit (Bitmap ws' wc) j =
        if (i * 32 + o <=? j) && (j <? i * 32 + o + cur)
        then f (bit (Bitmap ws wc) j) else bit (Bitmap ws wc) j.
  Proof using upd_u32 upd_bit.
    intros Hwf Hi Ho Hn Hs.
    set (cur := Z.min n (32 - o)).
    assert (current_len o n = cur) as Hcur.
    { unfold current_len, BITS_PER_WORD. rewrite u32_small by lia.
      destruct (Z.ltb_spec 32 (o + n)); [rewrite u32_small|]; lia. }
    destruct (make_bitmask_spec o cur) as (m & Hm & Hmu & Hmb); [lia..|].
    destruct (wf_rd _ i Hwf) as (w & Hrd & Hlk & Hu); [done|]. cbn in Hrd, Hlk.
    pose proof (wf_len _ Hwf) as Hlen. cbn in Hlen.
    exists (<[Z.to_nat i := upd w m]> ws), cur.
    split; [done|]. split; [done|]. rewrite Hm. cbn. rewrite Hrd. cbn.
    rewrite wr_ok by lia. split; [done|]. split.
    { apply (wf_set_word (Bitmap ws wc)); [done|]. by apply upd_u32. }
    intros j. rewrite bit_set_word by lia.
    destruct (Z.leb_spec (i * 32) j), (Z.ltb_spec j (i * 32 + 32)); cbn [andb].
    2-4: zcase; (done || lia).
    rewrite upd_bit, Hmb by (done || lia).
    assert (bit (Bitmap ws wc) j = Z.testbit w (j - i * 32)) as ->.
    { rewrite <- (bit_word (Bitmap ws wc) i w) by (done || lia). f_equal. lia. }
    zcase; (done || lia).
  Qed.

Lemma update_bits_ok self off len :
    bitmap_wf self → 0 ≤ off < 2 ^ 32 → 0 ≤ len → off + len < 2 ^ 32 →
    ∃ self', bitmap_update_bits upd self off len = Ok self' ∧ bitmap_wf self' ∧
      word_count self' = word_count self ∧
      ∀ j, bit self' j =
        if (off <=? j) && (j <? off + len) && (j <? word_count self * BITS_PER_WORD)
        then f (bit self j) else bit self j.
  Proof using upd_u32 upd_bit.
    intros Hwf Ho Hl Hs. unfold bitmap_update_bits.
    destruct (Z.eqb_spec len 0) as [->|Hlen0].
    { exists self. split_and!; [done..|]. intros j.
      destruct (Z.leb_spec off j), (Z.ltb_spec j (off + 0)); (done || lia). }
    set (P ws pos := ∀ j, bit (Bitmap ws (word_count self)) j =
        if (off <=? j) && (j <? pos) && (j <? word_count self * BITS_PER_WORD)
        then f (bit self j) else bit self j).
    assert (Hdone : ∀ ws, bitmap_wf (Bitmap ws (word_count self)) → P ws (off + len) →
      ∃ self', Ok (inr (Bitmap ws (word_count self))) = Ok (inr (A := list Z * Z * Z * Z) self') ∧
        bitmap_wf self' ∧ word_count self' = word_count self ∧
        ∀ j, bit self' j =
        if (off <=? j) && (j <? off + len) && (j <? word_count self * BITS_PER_WORD)
        then f (bit self j) else bit self j) by eauto 10.
    apply (loop_rule _ (λ '(ws, i, o, n), bitmap_wf (Bitmap ws (word_count self)) ∧
        (n = 0 ∧ P ws (off + len) ∨
         0 ≤ i ∧ 0 ≤ o < 32 ∧ 0 < n ∧ off ≤ i * 32 + o ∧ i * 32 + o + n = off + len ∧
         P ws (i * 32 + o)))
        (λ '(ws, i, o, n), Z.to_nat n)).
    2: { split; [by destruct self|]. right. rewrite u32_small by lia. unfold BITS_PER_WORD.
         destruct self as [ws wc]. split_and!; try dlia. intros j. cbn.
         destruct (Z.leb_spec off j), (Z.ltb_spec j (off / 32 * 32 + off mod 32));
           (done || dlia). }
    2: lia.
    intros [[[ws i] o] n] [Hw HI].
    destruct HI as [[-> HP]|(Hi & Hoo & Hn & Hpos & Hsum & HP)].
    { destruct (Hdone ws Hw HP) as (s' & E & Hs'). by exists (inr s'). }
    destruct (Z.eqb_spec n 0); [lia|]. cbn [negb].
    destruct (Z.leb_spec (word_count self) i) as [Hge|Hlt].
    { destruct (Hdone ws Hw) as (s' & E & Hs'); [|by exists (inr s')].
      intros j. rewrite HP. unfold BITS_PER_WORD. zcase; (done || lia). }
    destruct (update_word_ok ws (word_count self) i o n) as (ws' & cur & Hcur & Hc & Hrun & Hw' & Hbit);
      [done|lia..|].
    rewrite Hcur.
    assert (HP' : P ws' (i * 32 + o + cur)).
    { intros j. rewrite Hbit. specialize (HP j). cbn beta in HP. rewrite HP.
      pose proof (wf_max _ Hwf). unfold BITS_PER_WORD in *. zcase; (done || lia). }
    exists (inl (ws', i + 1, 0, n - cur)).
    replace (u32 (i + 1)) with (i + 1) by (rewrite u32_small; [lia|]; pose proof (wf_max _ Hwf);
      unfold BITS_PER_WORD in *; lia).
    rewrite (u32_small (n - cur)) by lia.
    split.
    { apply bind_ok in Hrun as (m & Hm & Hrun). apply bind_ok in Hrun as (w & Hrd & Hwr).
      rewrite Hm. cbn. rewrite Hrd. cbn. by rewrite Hwr. }
    split; [split; [done|]|lia].
    destruct (Z.eq_dec (n - cur) 0) as [E|E].
    - left. split; [done|]. by replace (off + len) with (i * 32 + o + cur) by lia.
    - right. split_and!; try lia. by replace ((i + 1) * 32 + 0) with (i * 32 + o + cur) by lia.
  Qed.
End range.

(** The bits [off, off + len) of a bitmap set to [v], the others kept. *)
Definition bits_updated (self self' : bitmap) (off len : Z) (v : bool) : Prop :=
  bitmap_wf self' ∧ word_count self' = word_count self ∧
  ∀ j, bit self' j =
    if (off <=? j) && (j <? off + len) && (j <? word_count self * BITS_PER_WORD)
    then v else bit self j.

Lemma set_bits_ok self off len :
  bitmap_wf self → 0 ≤ off < 2 ^ 32 → 0 ≤ len → off + len < 2 ^ 32 →
  ∃ self', bitmap_set_bits self off len = Ok self' ∧ bits_updated self self' off len true.
Proof.
  intros. apply (update_bits_ok _ (λ _, true)); try done.
  - intros. by apply is_u32_lor.
  - intros w m k _ _ Hk. rewrite Z.lor_spec.
    destruct (Z.testbit m k); [apply orb_true_r|apply orb_false_r].
Qed.

Lemma clear_bits_ok self off len :
  bitmap_wf self → 0 ≤ off < 2 ^ 32 → 0 ≤ len → off + len < 2 ^ 32 →
  ∃ self', bitmap_clear_bits self off len = Ok self' ∧ bits_updated self self' off len false.
Proof.
  intros. apply (update_bits_ok _ (λ _, false)); try done.
  - intros. by apply is_u32_land_not32.
  - intros w m k _ _ Hk. rewrite Z.land_spec, not32_testbit by done.
    destruct (Z.testbit m k); [apply andb_false_r|apply andb_true_r].
Qed.

(** ** Single bits *)

Section single.
  Context (self : bitmap) (i : Z).
  Hypothesis Hwf : bitmap_wf self.
  Hypothesis Hi : 0 ≤ i < word_count self * BITS_PER_WORD.

(** What every single-bit operation starts with. *)
Lemma single_word :
    ∃ w m, (i <? 0) || (word_count self <? i / BITS_PER_WORD) = false ∧
      rd (words self) (i / BITS_PER_WORD) = Ok w ∧
      words self !! Z.to_nat (i / BITS_PER_WORD) = Some w ∧
      0 ≤ i / BITS_PER_WORD < Z.of_nat (length (words self)) ∧
      shl32 1 (i mod BITS_PER_WORD) = Ok m ∧ is_u32 w ∧ is_u32 m ∧
      ∀ k, 0 ≤ k → Z.testbit m k = (k =? i mod BITS_PER_WORD).
  Proof using Hwf Hi.
    assert (0 ≤ i / BITS_PER_WORD < word_count self) by (unfold BITS_PER_WORD in *; dlia).
    assert (0 ≤ i mod BITS_PER_WORD < 32) by (unfold BITS_PER_WORD in *; dlia).
    destruct (wf_rd self (i / BITS_PER_WORD) Hwf) as (w & Hrd & Hlk & Hw); [done|].
    destruct (shl32_one (i mod BITS_PER_WORD)) as (m & Hm & Hmu & Hb); [done|].
    exists w, m. rewrite (wf_len _ Hwf).
    split_and!; (done || lia).
  Qed.

Lemma single_update w w' v :
    words self !! Z.to_nat (i / BITS_PER_WORD) = Some w → is_u32 w' →
    (∀ k, 0 ≤ k < 32 → Z.testbit w' k = if k =? i mod BITS_PER_WORD then v else Z.testbit w k) →
    bits_updated self
      (Bitmap (<[Z.to_nat (i / BITS_PER_WORD) := w']> (words self)) (word_count self)) i 1 v.
  Proof using Hwf Hi.
    intros Hlk Hw' Hk. split; [by apply wf_set_word|]. split; [done|]. intros j.
    unfold BITS_PER_WORD in *.
    rewrite bit_set_word by (rewrite (wf_len _ Hwf); dlia).
    destruct self as [ws wc]; cbn [words word_count] in *.
    destruct (Z.leb_spec (i / 32 * 32) j), (Z.ltb_spec j (i / 32 * 32 + 32)); cbn [andb].
    2-4: destruct (Z.leb_spec i j), (Z.ltb_spec j (i + 1)); cbn [andb]; (done || dlia).
    rewrite Hk by lia.
    assert (bit (Bitmap ws wc) j = Z.testbit w (j - i / 32 * 32)) as ->.
    { rewrite <- (bit_word (Bitmap ws wc) (i / 32) w) by (done || dlia). f_equal. lia. }
    destruct (Z.eqb_spec (j - i / 32 * 32) (i mod 32)), (Z.leb_spec i j),
      (Z.ltb_spec j (i + 1)), (Z.ltb_spec j (wc * 32)); cbn [andb]; (done || dlia).
  Qed.

Lemma set_bit_ok :
    ∃ self', bitmap_set_bit self i = Ok self' ∧ bits_updated self self' i 1 true.
  Proof using Hwf Hi.
    destruct single_word as (w & m & Hg & Hrd & Hlk & Hr & Hm & Hw & Hmu & Hb).
    unfold bitmap_set_bit. rewrite Hg, Hrd. cbn. rewrite Hm. cbn. rewrite wr_ok by done.
    eexists. split; [done|]. apply (single_update w); [done|by apply is_u32_lor|].
    intros k Hk. rewrite Z.lor_spec, Hb by lia.
    destruct (k =? _); [apply orb_true_r|apply orb_false_r].
  Qed.

Lemma clear_bit_ok :
    ∃ self', bitmap_clear_bit self i = Ok self' ∧ bits_updated self self' i 1 false.
  Proof using Hwf Hi.
    destruct single_word as (w & m & Hg & Hrd & Hlk & Hr & Hm & Hw & Hmu & Hb).
    unfold bitmap_clear_bit. rewrite Hg, Hrd. cbn. rewrite Hm. cbn. rewrite wr_ok by done.
    eexists. split; [done|]. apply (single_update w); [done|by apply is_u32_land_not32|].
    intros k Hk. rewrite Z.land_spec, not32_testbit, Hb by lia.
    destruct (k =? _); [apply andb_false_r|apply andb_true_r].
  Qed.

Lemma is_bit_set_ok : bitmap_is_bit_set self i = Ok (bit self i).
  Proof using Hwf Hi.
    destruct single_word as (w & m & Hg & Hrd & Hlk & Hr & Hm & Hw & Hmu & Hb).
    unfold bitmap_is_bit_set. rewrite Hg, Hrd. cbn. rewrite Hm. cbn. f_equal.
    unfold bit. rewrite Hlk. destruct (Z.leb_spec 0 i); [cbn|lia].
    assert (Hland : ∀ k, 0 ≤ k → Z.testbit (Z.land w m) k =
      (k =? i mod BITS_PER_WORD) && Z.testbit w k).
    { intros k Hk. rewrite Z.land_spec, Hb by done. apply andb_comm. }
    assert (0 ≤ i mod BITS_PER_WORD) by (unfold BITS_PER_WORD; dlia).
    destruct (Z.testbit w (i mod BITS_PER_WORD)) eqn:E.
    - destruct (Z.eqb_spec (Z.land w m) 0) as [Hz|]; [|done].
      specialize (Hland (i mod BITS_PER_WORD) ltac:(done)).
      by rewrite Hz, Z.bits_0, E, Z.eqb_refl in Hland.
    - destruct (Z.eqb_spec (Z.land w m) 0) as [|Hz]; [done|]. destruct Hz.
      apply Z.bits_inj'. intros k Hk. rewrite Hland, Z.bits_0 by done.
      destruct (Z.eqb_spec k (i mod BITS_PER_WORD)) as [->|]; [|done]. by rewrite E.
  Qed.
End single.

(** ** Testing ranges *)

Lemma land_mask_eq w m o n :
  (∀ k, 0 ≤ k → Z.testbit m k = (o <=? k) && (k <? o + n)) → 0 ≤ o →
  Z.land w m = m ↔ ∀ k, o ≤ k < o + n → Z.testbit w k = true.
Proof.
  intros Hm Ho. split.
  - intros E k Hk. apply (f_equal (λ z, Z.testbit z k)) in E.
    rewrite Z.land_spec, Hm in E by lia.
    destruct (Z.leb_spec o k), (Z.ltb_spec k (o + n)); try lia. by destruct (Z.testbit w k).
  - intros Hw. apply Z.bits_inj'. intros k Hk. rewrite Z.land_spec, Hm by done.
    destruct (Z.leb_spec o k), (Z.ltb_spec k (o + n)); cbn; rewrite ?andb_false_r; try done.
    rewrite Hw by lia. done.
Qed.

Lemma run_dec_split self p c n :
  0 ≤ c → 0 ≤ n → run self p (c + n) ↔ run self p c ∧ run self (p + c) n.
Proof.
  intros Hc Hn. unfold run. split; [intros Hr; split; intros; apply Hr; lia|].
  intros [H1 H2] j Hj. destruct (Z.lt_ge_cases j (p + c)); [apply H1|apply H2]; lia.
Qed.

Lemma are_bits_set_ok self off len :
  bitmap_wf self → off < 2 ^ 32 → 0 ≤ len → off + len < 2 ^ 32 →
  ∃ b : bool, bitmap_are_bits_set self off len = Ok b ∧
    (b = true ↔ 0 ≤ off ∧ 0 < len ∧ run self off len).
Proof.
  intros Hwf Ho Hl Hs. unfold bitmap_are_bits_set.
  destruct (Z.ltb_spec off 0), (Z.eqb_spec len 0) as [|Hlen0]; cbn [orb];
    try (eexists; split; [done|split; [done|lia]]).
  apply (loop_rule _ (λ '(i, o, n), 0 ≤ i ∧ 0 ≤ n ∧ 0 ≤ o < 32 ∧
      (0 ≤ off ∧ 0 < len ∧ run self off len ↔ run self (i * 32 + o) n) ∧
      (0 < n → i * 32 + o + n = off + len)) (λ '(i, o, n), Z.to_nat n)).
  2: { rewrite u32_small by lia. unfold BITS_PER_WORD. split_and!; try dlia.
       replace (off / 32 * 32 + off mod 32) with off by dlia.
       split; [tauto|]. intros. split_and!; (done || lia). }
  2: lia.
  intros [[i o] n] (Hi & Hn & Hoo & Hiff & Hpos).
  destruct (Z.eqb_spec n 0) as [->|]; cbn [negb].
  { eexists. split; [done|]. cbn. split; [|done]. intros _. apply Hiff. intros j Hj. lia. }
  assert (Hfalse : ¬ run self (i * 32 + o) n →
    ∃ y, Ok (inr false) = Ok (A := Z * Z * Z + bool) y ∧ match y with
      | inl x' => False
      | inr r => r = true ↔ 0 ≤ off ∧ 0 < len ∧ run self off len end).
  { intros Hr. eexists. split; [done|]. cbn. split; [done|]. intros. exfalso. tauto. }
  destruct (Z.leb_spec (word_count self) i) as [Hge|Hlt].
  { destruct Hfalse as ([?|b] & E & Hb); [|done|by exists (inr b)].
    intros Hr. apply run_in_bounds in Hr; [|done|lia]. unfold BITS_PER_WORD in Hr. lia. }
  destruct (wf_rd self i Hwf) as (w & Hrd & Hlk & Hu); [lia|].
  rewrite Hrd. cbn.
  assert (Hin : ∀ k, 0 ≤ k < 32 → bit self (i * 32 + k) = Z.testbit w k)
    by (intros; apply bit_word; (done || lia)).
  destruct (Z.eqb_spec w 0) as [->|].
  { destruct Hfalse as ([?|b] & E & Hb); [|done|by exists (inr b)].
    intros Hr. specialize (Hr (i * 32 + o) ltac:(lia)).
    by rewrite Hin, Z.bits_0 in Hr by lia. }
  assert (current_len o n = Z.min n (32 - o)) as ->.
  { unfold current_len, BITS_PER_WORD. rewrite u32_small by lia.
    destruct (Z.ltb_spec 32 (o + n)); [rewrite u32_small|]; lia. }
  set (cur := Z.min n (32 - o)).
  destruct (make_bitmask_spec o cur) as (m & -> & Hmu & Hmb); [lia..|]. cbn.
  assert (Hmask : Z.land w m = m ↔ run self (i * 32 + o) cur).
  { rewrite (land_mask_eq w m o cur) by (done || lia). split.
    - intros Hw j Hj. replace j with (i * 32 + (j - i * 32)) by lia.
      rewrite Hin by lia. apply Hw. lia.
    - intros Hr k Hk. rewrite <- Hin by lia. apply Hr. lia. }
  assert (Hsplit : run self (i * 32 + o) n ↔
    run self (i * 32 + o) cur ∧ run self (i * 32 + o + cur) (n - cur)).
  { rewrite <- run_dec_split by lia. by replace (cur + (n - cur)) with n by lia. }
  destruct (Z.eqb_spec (Z.land w m) m) as [E|E]; cbn [negb].
  - exists (inl (i + 1, 0, n - cur)).
    replace (u32 (i + 1)) with (i + 1) by (rewrite u32_small; [lia|];
      pose proof (wf_max _ Hwf); unfold BITS_PER_WORD in *; lia).
    rewrite (u32_small (n - cur)) by lia. split; [done|].
    assert (Hnext : run self (i * 32 + o + cur) (n - cur) ↔
      run self ((i + 1) * 32 + 0) (n - cur)).
    { destruct (Z.eq_dec (n - cur) 0) as [E0|].
      - rewrite E0. split; intros _ j Hj; lia.
      - by replace ((i + 1) * 32 + 0) with (i * 32 + o + cur) by lia. }
    split_and!; try lia. tauto.
  - destruct Hfalse as ([?|b] & E' & Hb); [|done|by exists (inr b)]. tauto.
Qed.

(** ** Properties *)

(** on a well-formed bitmap [bitmap_find_set_bits] terminates and returns
    the least index, from [startpos] on, at which [minlen] set bits in a row
    start, or -1 exactly when there is none; a negative [startpos] gives -1. *)
Theorem bitmap_find_set_bits_least self startpos minlen :
  bitmap_wf self → 0 < minlen →
  ∃ r, bitmap_find_set_bits self startpos minlen = Ok r ∧
    (startpos < 0 → r = -1) ∧
    (0 ≤ startpos →
      (r = -1 ∧ ∀ q, startpos ≤ q → ¬ run self q minlen) ∨
      (startpos ≤ r ∧ run self r minlen ∧ ∀ q, startpos ≤ q < r → ¬ run self q minlen)).
Proof.
  intros Hwf Hn. destruct (Z.lt_ge_cases startpos 0) as [Hs|Hs].
  - exists (-1). unfold bitmap_find_set_bits. destruct (Z.ltb_spec startpos 0); [|lia].
    split_and!; [done..|lia].
  - destruct (find_set_bits_ok self startpos minlen Hwf Hs Hn) as (r & Hr & Hf).
    exists r. split_and!; [done|lia|done].
Qed.

Definition demo_bitmap : bitmap := Bitmap [2 ^ 31; 3; 2 ^ 32 - 16] 3.

Lemma demo_bitmap_wf : bitmap_wf demo_bitmap.
Proof. split; [done| |done]. repeat constructor; done. Defined.

Lemma bitmap_find_set_bits_least_witness :
  bitmap_find_set_bits demo_bitmap 0 4 = Ok 68 ∧
  ∃ r, bitmap_find_set_bits demo_bitmap 0 4 = Ok r ∧
    (0 < 0 → r = -1) ∧
    (0 ≤ 0 →
      (r = -1 ∧ ∀ q, 0 ≤ q → ¬ run demo_bitmap q 4) ∨
      (0 ≤ r ∧ run demo_bitmap r 4 ∧ ∀ q, 0 ≤ q < r → ¬ run demo_bitmap q 4)).
Proof.
  split; [vm_compute; reflexivity|].
  apply (bitmap_find_set_bits_least demo_bitmap 0 4 demo_bitmap_wf). reflexivity.
Defined.

(** [bitmap_set_bits] (and [bitmap_clear_bits]) set (clear) exactly the
    bits of [offset, offset + len) that the bitmap has, change no other bit,
    and [bitmap_are_bits_set] afterwards (before) says so. *)
Theorem bitmap_range_updates_exact self offset len :
  bitmap_wf self → 0 ≤ offset → 0 ≤ len → offset + len < 2 ^ 32 →
  ∃ self1 self0,
    bitmap_set_bits self offset len = Ok self1 ∧ bits_updated self self1 offset len true ∧
    bitmap_clear_bits self offset len = Ok self0 ∧ bits_updated self self0 offset len false ∧
    (0 < len → offset + len ≤ word_count self * BITS_PER_WORD →
     bitmap_are_bits_set self1 offset len = Ok true ∧
     bitmap_are_bits_set self0 offset len = Ok false).
Proof.
  intros Hwf Ho Hl Hs.
  destruct (set_bits_ok self offset len) as (s1 & H1 & Hu1); [done|lia..|].
  destruct (clear_bits_ok self offset len) as (s0 & H0 & Hu0); [done|lia..|].
  exists s1, s0. do 4 (split; [done|]). intros Hpos Hin.
  destruct (are_bits_set_ok s1 offset len) as (b1 & -> & Hb1); [apply Hu1|lia..|].
  destruct (are_bits_set_ok s0 offset len) as (b0 & -> & Hb0); [apply Hu0|lia..|].
  destruct Hu1 as (_ & _ & Hu1), Hu0 as (_ & _ & Hu0). split; f_equal.
  - apply Hb1. split_and!; [lia..|]. intros j Hj. rewrite Hu1. zcase; (done || lia).
  - destruct b0; [|done]. destruct Hb0 as [Hb0 _].
    destruct Hb0 as (_ & _ & Hr); [done|]. specialize (Hr offset ltac:(lia)).
    rewrite Hu0 in Hr. revert Hr. zcase; (done || lia).
Qed.

Lemma bitmap_range_updates_exact_witness :
  ∃ self1 self0,
    bitmap_set_bits demo_bitmap 30 40 = Ok self1 ∧ bits_updated demo_bitmap self1 30 40 true ∧
    bitmap_clear_bits demo_bitmap 30 40 = Ok self0 ∧ bits_updated demo_bitmap self0 30 40 false ∧
    (0 < 40 → 30 + 40 ≤ word_count demo_bitmap * BITS_PER_WORD →
     bitmap_are_bits_set self1 30 40 = Ok true ∧
     bitmap_are_bits_set self0 30 40 = Ok false).
Proof.
  apply (bitmap_range_updates_exact demo_bitmap 30 40 demo_bitmap_wf); done.
Defined.

(** the guard of the single-bit operations, [word_count < offset / 32],
    lets the first index past the end of the bitmap through: on every
    well-formed bitmap the three operations then access a word outside of it. *)
Theorem bitmap_single_bit_guard_off_by_one self :
  bitmap_wf self →
  let past_end := word_count self * BITS_PER_WORD in
  bitmap_set_bit self past_end = Fault Out_of_bounds ∧
  bitmap_clear_bit self past_end = Fault Out_of_bounds ∧
  bitmap_is_bit_set self past_end = Fault Out_of_bounds.
Proof.
  intros Hwf past_end. pose proof (wf_len _ Hwf) as Hl.
  assert (past_end / BITS_PER_WORD = word_count self) as Hq
    by (unfold past_end, BITS_PER_WORD; dlia).
  assert (rd (words self) (word_count self) = Fault Out_of_bounds) as Hrd.
  { unfold rd. destruct (Z.ltb_spec (word_count self) 0); [done|].
    rewrite lookup_ge_None_2 by lia. done. }
  unfold bitmap_set_bit, bitmap_clear_bit, bitmap_is_bit_set. rewrite Hq, Hrd, Z.ltb_irrefl.
  destruct (Z.ltb_spec past_end 0); [unfold past_end, BITS_PER_WORD in *; lia|]. done.
Qed.

Lemma bitmap_single_bit_guard_off_by_one_witness :
  let past_end := word_count demo_bitmap * BITS_PER_WORD in
  bitmap_set_bit demo_bitmap past_end = Fault Out_of_bounds ∧
  bitmap_clear_bit demo_bitmap past_end = Fault Out_of_bounds ∧
  bitmap_is_bit_set demo_bitmap past_end = Fault Out_of_bounds.
Proof. apply (bitmap_single_bit_guard_off_by_one demo_bitmap demo_bitmap_wf). Defined.
