(* ===== verification/CList.v ===== *)
(** Intrusive doubly linked lists (src/kernel/lib/list.c,
    src/include/kernel/lib/list.h).

    The nodes live in a store that maps addresses to nodes; a list is the pair
    of its end pointers.  Each operation takes the list header, works on the
    store and returns the new header.  [dll] relates a header and a store to
    the sequence of (address, data) pairs the list holds, and the lemmas show
    that the operations refine the operations on sequences. *)
From S2P Require Import Prelude.

Definition NULL : Z := 0.

Record list_node := ListNode { next : Z; prev : Z; data : Z }.
Record clist := CList { front : Z; back : Z }.
Abbreviation nodes := (gmap Z list_node).

(** ** Access to the fields of a node *)

Definition load (p : Z) : M nodes list_node := λ st,
  match st !! p with Some n => Ok (n, st) | None => Fault Bad_pointer end.

Definition modify (p : Z) (f : list_node → list_node) : M nodes unit := λ st,
  match st !! p with Some n => Ok (tt, <[p := f n]> st) | None => Fault Bad_pointer end.

Definition with_next (q : Z) (n : list_node) : list_node := ListNode q (prev n) (data n).
Definition with_prev (q : Z) (n : list_node) : list_node := ListNode (next n) q (data n).
Definition with_data (d : Z) (n : list_node) : list_node := ListNode (next n) (prev n) d.

(** ** Operations *)

Definition list_init : clist := CList NULL NULL.

Definition list_insert_front (l : clist) (node d : Z) : M nodes clist :=
  _ ← (if negb (front l =? NULL) then modify (front l) (with_prev node) else mret tt);
  _ ← modify node (with_prev NULL);
  _ ← modify node (with_next (front l));
  _ ← modify node (with_data d);
  let l' := CList node (back l) in
  mret (if back l =? NULL then CList (front l') node else l').

Definition list_insert_back (l : clist) (node d : Z) : M nodes clist :=
  _ ← (if negb (back l =? NULL) then modify (back l) (with_next node) else mret tt);
  _ ← modify node (with_next NULL);
  _ ← modify node (with_prev (back l));
  _ ← modify node (with_data d);
  let l' := CList (front l) node in
  mret (if front l =? NULL then CList node (back l') else l').

Definition list_insert_after (l : clist) (after node d : Z) : M nodes clist :=
  _ ← modify node (with_prev after);
  a ← load after;
  _ ← modify node (with_next (next a));
  _ ← modify node (with_data d);
  n ← load node;
  _ ← (if negb (next n =? NULL) then modify (next n) (with_prev node) else mret tt);
  _ ← modify after (with_next node);
  mret (if back l =? after then CList (front l) node else l).

Definition list_insert_before (l : clist) (before node d : Z) : M nodes clist :=
  _ ← modify node (with_next before);
  b ← load before;
  _ ← modify node (with_prev (prev b));
  _ ← modify node (with_data d);
  n ← load node;
  _ ← (if negb (prev n =? NULL) then modify (prev n) (with_next node) else mret tt);
  _ ← modify before (with_prev node);
  mret (if front l =? before then CList node (back l) else l).

(** The removed node (0 when there is none) and the new header. *)
Definition list_remove_front (l : clist) : M nodes (Z * clist) :=
  let removed := front l in
  if removed =? NULL then mret (NULL, l)
  else
    r ← load removed;
    let f := next r in
    if negb (f =? NULL) then
      _ ← modify f (with_prev NULL);
      mret (removed, CList f (back l))
    else mret (removed, CList f NULL).

Definition list_remove_back (l : clist) : M nodes (Z * clist) :=
  let removed := back l in
  if removed =? NULL then mret (NULL, l)
  else
    r ← load removed;
    let b := prev r in
    if negb (b =? NULL) then
      _ ← modify b (with_next NULL);
      mret (removed, CList (front l) b)
    else mret (removed, CList NULL b).

Definition list_remove_node (l : clist) (node : Z) : M nodes clist :=
  n ← load node;
  _ ← (if negb (prev n =? NULL) then modify (prev n) (with_next (next n)) else mret tt);
  n ← load node;
  _ ← (if negb (next n =? NULL) then modify (next n) (with_prev (prev n)) else mret tt);
  n ← load node;
  let l := if node =? front l then CList (next n) (back l) else l in
  let l := if node =? back l then CList (front l) (prev n) else l in
  mret (if (front l =? NULL) || (back l =? NULL) then CList NULL NULL else l).

Definition list_get_data_or_null (node : Z) : M nodes Z :=
  if node =? NULL then mret NULL
  else
    n ← load node;
    _ ← massert (negb (data n =? NULL));
    mret (data n).

(** [LIST_FOREACH]: the body is run on each node, from the front, until the
    body asks to stop ([Some]) or the list ends; the next pointer is read after
    the body has run. *)
Fixpoint list_foreach {S A} (fuel : nat) (next_of : Z → M S Z) (body : Z → M S (option A))
    (node : Z) : M S (option A) :=
  if node =? NULL then mret None
  else match fuel with
  | O => throw No_fuel
  | Datatypes.S fuel =>
      r ← body node;
      match r with
      | Some a => mret (Some a)
      | None => nx ← next_of node; list_foreach fuel next_of body nx
      end
  end.

(** ** Abstraction *)

Abbreviation addrs := (fmap (M := list) fst).

Definition first_or (d : Z) (xs : list (Z * Z)) : Z :=
  match xs with [] => d | (p, _) :: _ => p end.
Fixpoint last_or (d : Z) (xs : list (Z * Z)) : Z :=
  match xs with [] => d | (p, _) :: xs => last_or p xs end.

(** The segment [xs] of a list, between a node at [before] and one at [after]. *)
Fixpoint dlseg (st : nodes) (before : Z) (xs : list (Z * Z)) (after : Z) : Prop :=
  match xs with
  | [] => True
  | (p, d) :: xs' =>
      st !! p = Some (ListNode (first_or after xs') before d) ∧ dlseg st p xs' after
  end.

Record dll (st : nodes) (l : clist) (xs : list (Z * Z)) : Prop := {
  dll_front : front l = first_or NULL xs;
  dll_back : back l = last_or NULL xs;
  dll_nodup : NoDup (addrs xs);
  dll_null : NULL ∉ addrs xs;
  dll_seg : dlseg st NULL xs NULL;
}.

(** Nodes outside of [ps] are the same in both stores. *)
Definition frame (ps : list Z) (st st' : nodes) : Prop :=
  ∀ p, p ∉ ps → st' !! p = st !! p.

Lemma dlseg_app st b xs ys a :
  dlseg st b (xs ++ ys) a ↔ dlseg st b xs (first_or a ys) ∧ dlseg st (last_or b xs) ys a.
Proof.
  revert b. induction xs as [|[p d] xs IH]; intros b; cbn; [tauto|].
  rewrite IH. destruct xs as [|[q e] xs]; cbn; tauto.
Qed.

Lemma first_or_app d xs ys : first_or d (xs ++ ys) = first_or (first_or d ys) xs.
Proof. by destruct xs as [|[p e] xs]. Qed.
Lemma last_or_app d xs ys : last_or d (xs ++ ys) = last_or (last_or d xs) ys.
Proof. revert d. induction xs as [|[p e] xs IH]; intros d; cbn; [done|apply IH]. Qed.

Lemma dlseg_frame st st' b xs a :
  (∀ p, p ∈ addrs xs → st' !! p = st !! p) → dlseg st b xs a → dlseg st' b xs a.
Proof.
  revert b. induction xs as [|[p d] xs IH]; intros b Hf; cbn; [done|].
  intros [Hp Hs]. rewrite Hf by (cbn; set_solver). split; [done|].
  apply IH; [|done]. intros q Hq. apply Hf. cbn. set_solver.
Qed.

Lemma first_or_in d xs : xs ≠ [] → first_or d xs ∈ addrs xs.
Proof. destruct xs as [|[p e] xs]; cbn; [done|]. set_solver. Qed.
Lemma last_or_in d xs : xs ≠ [] → last_or d xs ∈ addrs xs.
Proof.
  revert d. induction xs as [|[p e] xs IH]; intros d; [done|]. intros _. cbn.
  destruct xs as [|x xs]; [cbn; set_solver|]. apply elem_of_cons. right. by apply IH.
Qed.

(** The links of the nodes at the borders of a segment. *)
Lemma dlseg_relink_before st b b' p d xs a :
  p ∉ addrs xs → dlseg st b ((p, d) :: xs) a →
  dlseg (<[p := ListNode (first_or a xs) b' d]> st) b' ((p, d) :: xs) a.
Proof.
  intros Hp [_ Hs]. cbn. rewrite lookup_insert_eq. split; [done|].
  eapply dlseg_frame; [|done]. intros q Hq. rewrite lookup_insert_ne; [done|]. set_solver.
Qed.

Lemma dlseg_relink_after st b p d xs a a' :
  p ∉ addrs xs → dlseg st b (xs ++ [(p, d)]) a →
  dlseg (<[p := ListNode a' (last_or b xs) d]> st) b (xs ++ [(p, d)]) a'.
Proof.
  intros Hp. rewrite !dlseg_app. cbn. intros [Hs [Hl _]]. rewrite lookup_insert_eq.
  split_and!; try done. eapply dlseg_frame; [|done].
  intros q Hq. rewrite lookup_insert_ne; [done|]. set_solver.
Qed.

(** Walking a list: the body runs on the data of each node in turn, provided
    that it leaves the nodes as they are ([I] is what it keeps of the state). *)
Lemma foreach_dlseg {S A} (next_of : Z → M S Z) (body : Z → M S (option A)) (g : Z → M S unit)
    (I : S → Prop) (st : nodes) xs :
  (∀ q s n, I s → st !! q = Some n → next_of q s = Ok (next n, s)) →
  (∀ q s n, I s → st !! q = Some n → body q s = (_ ← g (data n); mret None) s) →
  (∀ p s s', p ∈ xs.*2 → I s → g p s = Ok (tt, s') → I s') →
  ∀ fuel b s, I s → dlseg st b xs NULL → NULL ∉ addrs xs → (length xs ≤ fuel)%nat →
  list_foreach fuel next_of body (first_or NULL xs) s = (_ ← for_ xs.*2 g; mret None) s.
Proof.
  intros Hnext Hbody Hkeep. induction xs as [|[q p] xs IH]; intros fuel b s HI Hd Hn Hf; [by destruct fuel|].
  destruct fuel as [|fuel]; [cbn in Hf; lia|]. destruct Hd as [Hq Hd]. cbn in Hn.
  cbn [first_or list_foreach fmap list_fmap for_]. destruct (Z.eqb_spec q NULL); [set_solver|].
  unfold mbind at 1, M_bind at 1. rewrite (Hbody _ _ _ HI Hq). cbn [data].
  change (q, p).2 with p. unfold mbind, M_bind. destruct (g p s) as [[[] s1]|e] eqn:E; [|done].
  assert (HI1 : I s1) by (eapply Hkeep; [|done..]; cbn; set_solver).
  unfold mret, M_ret. rewrite (Hnext _ _ _ HI1 Hq). cbn [next].
  apply (IH ltac:(intros p' s2 s3 Hp'; apply Hkeep; cbn; set_solver) fuel q); [done|done|set_solver|cbn in Hf; lia].
Qed.

Lemma dlseg_size st b xs a : dlseg st b xs a → NoDup (addrs xs) → (length xs ≤ size st)%nat.
Proof.
  intros Hd Hnd. rewrite <- size_dom, <- (length_fmap fst xs), <- (size_list_to_set (C := gset Z)) by done.
  apply subseteq_size. intros p Hp. apply elem_of_list_to_set in Hp. clear Hnd.
  revert b Hd. induction xs as [|[q d] xs IH]; intros b Hd; cbn in Hp; [by apply elem_of_nil in Hp|].
  destruct Hd as [Hq Hd]. apply elem_of_cons in Hp as [->|Hp]; [|by eauto].
  by apply elem_of_dom_2 in Hq.
Qed.

(** A whole list, with one unit of fuel for each node of the store. *)
Lemma foreach_dll {S A} (next_of : Z → M S Z) (body : Z → M S (option A)) (g : Z → M S unit)
    (I : S → Prop) st l xs s : dll st l xs → I s →
  (∀ q s n, I s → st !! q = Some n → next_of q s = Ok (next n, s)) →
  (∀ q s n, I s → st !! q = Some n → body q s = (_ ← g (data n); mret None) s) →
  (∀ p s s', p ∈ xs.*2 → I s → g p s = Ok (tt, s') → I s') →
  list_foreach (size st) next_of body (front l) s = (_ ← for_ xs.*2 g; mret None) s.
Proof.
  intros [-> _ Hnd Hn Hd] HI Hnext Hbody Hkeep. eapply (foreach_dlseg _ _ g I st); eauto using dlseg_size.
Qed.

Lemma dll_front_null st l xs : dll st l xs → front l = NULL → xs = [].
Proof.
  intros Hd E. destruct xs as [|[p e] xs]; [done|]. rewrite (dll_front _ _ _ Hd) in E. cbn in E.
  destruct (dll_null _ _ _ Hd). cbn. set_solver.
Qed.

(** ** Steps *)

Lemma modify_eq st p f n : st !! p = Some n → modify p f st = Ok (tt, <[p := f n]> st).
Proof. intros H. unfold modify. by rewrite H. Qed.
Lemma load_eq st p n : st !! p = Some n → load p st = Ok (n, st).
Proof. intros H. unfold load. by rewrite H. Qed.

Lemma first_or_null a xs : NULL ∉ addrs xs → first_or a xs = NULL → xs = [] ∧ a = NULL.
Proof. destruct xs as [|[p e] xs]; cbn; [done|]. set_solver. Qed.
Lemma last_or_null b xs : NULL ∉ addrs xs → last_or b xs = NULL → xs = [] ∧ b = NULL.
Proof.
  intros Hn Hl. destruct xs as [|x xs]; [done|].
  pose proof (last_or_in b (x :: xs) ltac:(done)) as Hin. by rewrite Hl in Hin.
Qed.

(** [if (p) p->next = y;] for the last node [p] of a prefix of a list. *)
Lemma set_next_ok st xs x y :
  dlseg st NULL xs x → NoDup (addrs xs) → NULL ∉ addrs xs →
  ∃ st', (if negb (last_or NULL xs =? NULL) then modify (last_or NULL xs) (with_next y)
          else mret tt) st = Ok (tt, st') ∧
    dlseg st' NULL xs y ∧ frame (addrs xs) st st'.
Proof.
  intros Hs Hnd Hn. destruct (Z.eqb_spec (last_or NULL xs) NULL) as [E|E]; cbn [negb].
  - apply last_or_null in E as [-> _]; [|done]. by exists st.
  - destruct xs as [|x' xs' _] using rev_ind; [done|]. destruct x' as [p d].
    rewrite last_or_app in E |- *. cbn in E |- *.
    rewrite fmap_app, NoDup_app in Hnd. cbn in Hnd.
    pose proof Hs as Hs0. apply dlseg_app in Hs0 as [_ [Hp _]]. cbn in Hp.
    rewrite (modify_eq _ _ _ _ Hp). eexists. split; [done|]. split.
    + apply dlseg_relink_after with (a := x); [set_solver|done].
    + intros q Hq. rewrite fmap_app in Hq. cbn in Hq.
      rewrite lookup_insert_ne; [done|]. set_solver.
Qed.

(** [if (p) p->prev = y;] for the first node [p] of a suffix of a list. *)
Lemma set_prev_ok st xs x y :
  dlseg st x xs NULL → NoDup (addrs xs) → NULL ∉ addrs xs →
  ∃ st', (if negb (first_or NULL xs =? NULL) then modify (first_or NULL xs) (with_prev y)
          else mret tt) st = Ok (tt, st') ∧
    dlseg st' y xs NULL ∧ frame (addrs xs) st st'.
Proof.
  intros Hs Hnd Hn. destruct (Z.eqb_spec (first_or NULL xs) NULL) as [E|E]; cbn [negb].
  - apply first_or_null in E as [-> _]; [|done]. by exists st.
  - destruct xs as [|[p d] xs]; [done|]. cbn in E, Hnd |- *.
    apply NoDup_cons in Hnd as [Hp Hnd]. destruct Hs as [Hlk Hs].
    rewrite (modify_eq _ _ _ _ Hlk). eexists. split; [done|]. split.
    + apply (dlseg_relink_before _ x y p d xs NULL); [done|]. split; done.
    + intros q Hq. rewrite lookup_insert_ne; [done|]. set_solver.
Qed.

(** Run the loads and stores of the goal whose node is known. *)
Ltac mrun :=
  repeat (first
    [ erewrite M_bind_step; [|apply modify_eq; first [eassumption | by simplify_map_eq]]
    | erewrite M_bind_step; [|apply load_eq; first [eassumption | by simplify_map_eq]] ];
    cbn beta).

Lemma is_Some_frame ps st st' p :
  frame ps st st' → p ∉ ps → is_Some (st !! p) → is_Some (st' !! p).
Proof. intros Hf Hp. by rewrite Hf. Qed.

Lemma insert_frame ps (st st' : nodes) p n :
  frame ps st st' → p ∈ ps → frame ps st (<[p := n]> st').
Proof. intros Hf Hp q Hq. rewrite lookup_insert_ne; [by apply Hf|]. set_solver. Qed.

Lemma dlseg_insert_ne st b xs a p n :
  p ∉ addrs xs → dlseg st b xs a → dlseg (<[p := n]> st) b xs a.
Proof.
  intros Hp. apply dlseg_frame. intros q Hq. rewrite lookup_insert_ne; [done|]. set_solver.
Qed.

(** A node about to be inserted: it exists, and is on no list. *)
Definition fresh (st : nodes) (node : Z) (xs : list (Z * Z)) : Prop :=
  is_Some (st !! node) ∧ node ∉ addrs xs ∧ node ≠ NULL.

(** ** Insertion *)

Lemma insert_front_ok st l xs node d :
  dll st l xs → fresh st node xs →
  ∃ l' st', list_insert_front l node d st = Ok (l', st') ∧
    dll st' l' ((node, d) :: xs) ∧ frame (node :: addrs xs) st st'.
Proof.
  intros [Hf Hb Hnd Hn Hs] ([n Hlk] & Hni & Hnn). unfold list_insert_front. rewrite Hf, Hb.
  destruct (set_prev_ok st xs NULL node Hs Hnd Hn) as (st1 & E1 & Hs1 & Hf1).
  rewrite (M_bind_step _ _ _ _ _ E1). cbn beta.
  assert (Hlk1 : st1 !! node = Some n) by (rewrite Hf1; done).
  mrun. unfold mret, M_ret. rewrite !insert_insert_eq. cbn.
  assert (Hres : ∀ b, b = last_or node xs →
    dll (<[node := ListNode (first_or NULL xs) NULL d]> st1) (CList node b) ((node, d) :: xs)).
  { intros b ->. split; cbn; [done|done|by apply NoDup_cons|set_solver|].
    rewrite lookup_insert_eq. split; [done|]. by apply dlseg_insert_ne. }
  destruct (Z.eqb_spec (last_or NULL xs) NULL) as [E|E]; eexists _, _; (split; [done|]); split.
  - apply Hres. apply last_or_null in E as [-> _]; done.
  - apply insert_frame; [|set_solver]. intros q Hq. apply Hf1. set_solver.
  - apply Hres. destruct xs as [|[p e] xs]; [done|]. done.
  - apply insert_frame; [|set_solver]. intros q Hq. apply Hf1. set_solver.
Qed.

Lemma insert_back_ok st l xs node d :
  dll st l xs → fresh st node xs →
  ∃ l' st', list_insert_back l node d st = Ok (l', st') ∧
    dll st' l' (xs ++ [(node, d)]) ∧ frame (node :: addrs xs) st st'.
Proof.
  intros [Hf Hb Hnd Hn Hs] ([n Hlk] & Hni & Hnn). unfold list_insert_back. rewrite Hf, Hb.
  destruct (set_next_ok st xs NULL node Hs Hnd Hn) as (st1 & E1 & Hs1 & Hf1).
  rewrite (M_bind_step _ _ _ _ _ E1). cbn beta.
  assert (Hlk1 : st1 !! node = Some n) by (rewrite Hf1; done).
  mrun. unfold mret, M_ret. rewrite !insert_insert_eq. cbn.
  assert (Hres : ∀ f, f = first_or node xs →
    dll (<[node := ListNode NULL (last_or NULL xs) d]> st1) (CList f node) (xs ++ [(node, d)])).
  { intros f ->. split; cbn.
    - by rewrite first_or_app.
    - by rewrite last_or_app.
    - rewrite fmap_app, NoDup_app. cbn. split_and!; [done|set_solver|by apply NoDup_singleton].
    - rewrite fmap_app. cbn. set_solver.
    - rewrite dlseg_app. cbn. rewrite lookup_insert_eq. split; [|done].
      by apply dlseg_insert_ne. }
  assert (Hfr : frame (node :: addrs xs) st
    (<[node := ListNode NULL (last_or NULL xs) d]> st1)).
  { apply insert_frame; [|set_solver]. intros q Hq. apply Hf1. set_solver. }
  destruct (Z.eqb_spec (first_or NULL xs) NULL) as [E|E]; eexists _, _; (split; [done|]); split.
  - apply Hres. apply first_or_null in E as [-> _]; done.
  - done.
  - apply Hres. destruct xs as [|[p e] xs]; done.
  - done.
Qed.

(** A list cut at one of its nodes. *)
Lemma dll_split st l xs k e ys :
  dll st l (xs ++ (k, e) :: ys) →
  dlseg st NULL xs k ∧ st !! k = Some (ListNode (first_or NULL ys) (last_or NULL xs) e) ∧
  dlseg st k ys NULL ∧ k ≠ NULL ∧
  NoDup (addrs xs) ∧ NoDup (addrs ys) ∧ NULL ∉ addrs xs ∧ NULL ∉ addrs ys ∧
  k ∉ addrs xs ∧ k ∉ addrs ys ∧ (∀ p, p ∈ addrs xs → p ∉ addrs ys).
Proof.
  intros [_ _ Hnd Hn Hs]. rewrite fmap_app, NoDup_app in Hnd. cbn in Hnd.
  rewrite fmap_app in Hn. cbn in Hn. apply dlseg_app in Hs as [Hs1 [Hk Hs2]].
  destruct Hnd as (Hnd1 & Hd & Hnd2). apply NoDup_cons in Hnd2 as [Hk2 Hnd2].
  split_and!; set_solver.
Qed.

Lemma insert_after_ok st l xs k e ys node d :
  dll st l (xs ++ (k, e) :: ys) → fresh st node (xs ++ (k, e) :: ys) →
  ∃ l' st', list_insert_after l k node d st = Ok (l', st') ∧
    dll st' l' (xs ++ (k, e) :: (node, d) :: ys) ∧
    frame (node :: addrs (xs ++ (k, e) :: ys)) st st'.
Proof.
  intros Hd ([n Hlk] & Hni & Hnn).
  destruct (dll_split _ _ _ _ _ _ Hd) as (Hs1 & Hk & Hs2 & Hkn & Hnd1 & Hnd2 & Hn1 & Hn2 & Hk1 & Hk2 & Hdis).
  destruct Hd as [Hf Hb Hnd Hn Hs]. rewrite fmap_app in Hni, Hnd, Hn. cbn in Hni, Hnd, Hn.
  rewrite first_or_app in Hf. rewrite last_or_app in Hb. cbn in Hf, Hb.
  assert (node ≠ k) as Hne by set_solver.
  unfold list_insert_after. mrun. rewrite !insert_insert_eq. cbn.
  set (st1 := <[node := ListNode (first_or NULL ys) k d]> st).
  destruct (set_prev_ok st1 ys k node) as (st2 & E2 & Hs2' & Hf2); [|done|done|].
  { apply dlseg_insert_ne; [set_solver|done]. }
  rewrite (M_bind_step _ _ _ _ _ E2). cbn beta.
  assert (Hk' : st2 !! k = Some (ListNode (first_or NULL ys) (last_or NULL xs) e)).
  { rewrite Hf2 by done. unfold st1. by rewrite lookup_insert_ne. }
  mrun. unfold mret, M_ret. cbn.
  set (st3 := <[k := ListNode node (last_or NULL xs) e]> st2).
  assert (Hst : ∀ q, q ∉ node :: k :: addrs ys → st3 !! q = st !! q).
  { intros q Hq. unfold st3, st1 in *.
    rewrite lookup_insert_ne by set_solver. rewrite Hf2 by set_solver.
    rewrite lookup_insert_ne by set_solver. done. }
  assert (Hseg : dlseg st3 NULL (xs ++ (k, e) :: (node, d) :: ys) NULL).
  { rewrite dlseg_app. cbn. split.
    - eapply dlseg_frame; [|done]. intros q Hq. apply Hst. set_solver.
    - unfold st3. rewrite lookup_insert_eq, lookup_insert_ne by done.
      rewrite Hf2 by set_solver. unfold st1. rewrite lookup_insert_eq.
      split_and!; try done. by apply dlseg_insert_ne. }
  exists (if back l =? k then CList (front l) node else l), st3.
  split; [by destruct (back l =? k)|]. split.
  2: { intros q Hq. rewrite fmap_app in Hq. cbn in Hq. apply Hst. set_solver. }
  assert (NoDup (addrs (xs ++ (k, e) :: (node, d) :: ys))).
  { rewrite fmap_app. cbn.
    rewrite (Permutation_app_comm (addrs xs)). cbn. rewrite NoDup_cons.
    rewrite NoDup_cons, NoDup_app. set_solver. }
  assert (Hback : back l = k ↔ ys = []).
  { rewrite Hb. split; [|by intros ->]. intros E. destruct ys as [|y ys]; [done|].
    destruct Hk2. rewrite <- E. by apply last_or_in. }
  split.
  - rewrite first_or_app. cbn. by destruct (back l =? k).
  - rewrite last_or_app. cbn. destruct (Z.eqb_spec (back l) k) as [E|E].
    + apply Hback in E as ->. done.
    + rewrite Hb. destruct ys as [|[y e'] ys]; [|done]. destruct E. by apply Hback.
  - done.
  - rewrite fmap_app. cbn. set_solver.
  - done.
Qed.

Lemma NoDup_insert_mid (ps qs : list Z) k :
  NoDup (ps ++ qs) → k ∉ ps → k ∉ qs → NoDup (ps ++ k :: qs).
Proof. rewrite !NoDup_app, NoDup_cons. set_solver. Qed.

Lemma insert_before_ok st l xs k e ys node d :
  dll st l (xs ++ (k, e) :: ys) → fresh st node (xs ++ (k, e) :: ys) →
  ∃ l' st', list_insert_before l k node d st = Ok (l', st') ∧
    dll st' l' (xs ++ (node, d) :: (k, e) :: ys) ∧
    frame (node :: addrs (xs ++ (k, e) :: ys)) st st'.
Proof.
  intros Hd ([n Hlk] & Hni & Hnn).
  destruct (dll_split _ _ _ _ _ _ Hd) as (Hs1 & Hk & Hs2 & Hkn & Hnd1 & Hnd2 & Hn1 & Hn2 & Hk1 & Hk2 & Hdis).
  destruct Hd as [Hf Hb Hnd Hn Hs]. rewrite fmap_app in Hni, Hnd, Hn. cbn in Hni, Hnd, Hn.
  rewrite first_or_app in Hf. rewrite last_or_app in Hb. cbn in Hf, Hb.
  assert (node ≠ k) as Hne by set_solver.
  unfold list_insert_before. mrun. rewrite !insert_insert_eq. cbn.
  set (st1 := <[node := ListNode k (last_or NULL xs) d]> st).
  destruct (set_next_ok st1 xs k node) as (st2 & E2 & Hs1' & Hf2); [|done|done|].
  { apply dlseg_insert_ne; [set_solver|done]. }
  rewrite (M_bind_step _ _ _ _ _ E2). cbn beta.
  assert (Hk' : st2 !! k = Some (ListNode (first_or NULL ys) (last_or NULL xs) e)).
  { rewrite Hf2 by done. unfold st1. by rewrite lookup_insert_ne. }
  mrun. unfold mret, M_ret. cbn.
  set (st3 := <[k := ListNode (first_or NULL ys) node e]> st2).
  assert (Hst : ∀ q, q ∉ node :: k :: addrs xs → st3 !! q = st !! q).
  { intros q Hq. unfold st3, st1 in *.
    rewrite lookup_insert_ne by set_solver. rewrite Hf2 by set_solver.
    rewrite lookup_insert_ne by set_solver. done. }
  assert (Hseg : dlseg st3 NULL (xs ++ (node, d) :: (k, e) :: ys) NULL).
  { rewrite dlseg_app. cbn. split.
    - by apply dlseg_insert_ne.
    - unfold st3. rewrite lookup_insert_eq, lookup_insert_ne by done.
      rewrite Hf2 by set_solver. unfold st1. rewrite lookup_insert_eq.
      split_and!; try done. eapply dlseg_frame; [|done].
      intros q Hq. apply Hst. set_solver. }
  exists (if front l =? k then CList node (back l) else l), st3.
  split; [by destruct (front l =? k)|]. split.
  2: { intros q Hq. rewrite fmap_app in Hq. cbn in Hq. apply Hst. set_solver. }
  assert (Hfront : front l = k ↔ xs = []).
  { rewrite Hf. split; [|by intros ->]. intros E. destruct xs as [|x xs]; [done|].
    destruct Hk1. rewrite <- E. by apply first_or_in. }
  split.
  - rewrite first_or_app. cbn. destruct (Z.eqb_spec (front l) k) as [E|E].
    + apply Hfront in E as ->. done.
    + rewrite Hf. destruct xs as [|[x e'] xs]; [|done]. destruct E. by apply Hfront.
  - rewrite last_or_app. cbn. by destruct (front l =? k).
  - rewrite fmap_app. cbn. apply NoDup_insert_mid; set_solver.
  - rewrite fmap_app. cbn. set_solver.
  - done.
Qed.

(** ** Removal *)

Lemma remove_node_ok st l xs k e ys :
  dll st l (xs ++ (k, e) :: ys) →
  ∃ l' st', list_remove_node l k st = Ok (l', st') ∧
    dll st' l' (xs ++ ys) ∧ frame (addrs xs ++ addrs ys) st st'.
Proof.
  intros Hd.
  destruct (dll_split _ _ _ _ _ _ Hd) as (Hs1 & Hk & Hs2 & Hkn & Hnd1 & Hnd2 & Hn1 & Hn2 & Hk1 & Hk2 & Hdis).
  destruct Hd as [Hf Hb _ _ _].
  rewrite first_or_app in Hf. rewrite last_or_app in Hb. cbn in Hf, Hb.
  unfold list_remove_node. mrun. cbn [prev next].
  destruct (set_next_ok st xs k (first_or NULL ys)) as (st1 & E1 & Hs1' & Hf1); [done..|].
  rewrite (M_bind_step _ _ _ _ _ E1). cbn beta.
  assert (Hk' : st1 !! k = Some (ListNode (first_or NULL ys) (last_or NULL xs) e))
    by (rewrite Hf1; done).
  mrun. cbn [prev next].
  destruct (set_prev_ok st1 ys k (last_or NULL xs)) as (st2 & E2 & Hs2' & Hf2); [|done|done|].
  { eapply dlseg_frame; [|done]. intros q Hq. apply Hf1. set_solver. }
  rewrite (M_bind_step _ _ _ _ _ E2). cbn beta.
  assert (Hk'' : st2 !! k = Some (ListNode (first_or NULL ys) (last_or NULL xs) e))
    by (rewrite Hf2; done).
  mrun. unfold mret, M_ret. cbn [prev next].
  assert (Hfront : k = front l ↔ xs = []).
  { rewrite Hf. split; [|by intros ->]. intros E. destruct xs as [|x xs]; [done|].
    destruct Hk1. rewrite E. by apply first_or_in. }
  assert (Hback : k = back l ↔ ys = []).
  { rewrite Hb. split; [|by intros ->]. intros E. destruct ys as [|y ys]; [done|].
    destruct Hk2. rewrite E. by apply last_or_in. }
  eexists _, st2. split; [done|]. split.
  2: { intros q Hq. rewrite Hf2, Hf1 by set_solver. done. }
  assert (Hfirst : ∀ zs, NULL ∉ addrs zs → zs ≠ [] → first_or NULL zs ≠ NULL ∧ last_or NULL zs ≠ NULL).
  { intros zs Hz Hne. split; intros E; destruct Hz; rewrite <- E;
      [by apply first_or_in|by apply last_or_in]. }
  assert (Hseg : dlseg st2 NULL (xs ++ ys) NULL).
  { rewrite dlseg_app. split; [|done]. eapply dlseg_frame; [|done].
    intros q Hq. apply Hf2. set_solver. }
  assert (Hxy : NULL ∉ addrs (xs ++ ys)) by (rewrite fmap_app; set_solver).
  assert (Hhead : ∀ zs l0, front l0 = first_or NULL zs → back l0 = last_or NULL zs →
      NULL ∉ addrs zs →
      (if (front l0 =? NULL) || (back l0 =? NULL) then CList NULL NULL else l0) =
      CList (first_or NULL zs) (last_or NULL zs)).
  { intros zs [f b] Hz1 Hz2 Hz. cbn in Hz1, Hz2 |- *. subst.
    destruct zs as [|z zs]; [done|]. destruct (Hfirst (z :: zs)) as [? ?]; [done..|].
    zcase; done. }
  rewrite (Hhead (xs ++ ys)); [|..|done].
  - split; [done|done| |done|done].
    rewrite fmap_app, NoDup_app. set_solver.
  - rewrite first_or_app.
    destruct (Z.eqb_spec k (front l)) as [E|E]; cbn [front back].
    + apply Hfront in E as ->. cbn. by destruct (k =? back l).
    + destruct xs as [|[x e'] xs]; [by destruct E; apply Hfront|].
      by destruct (k =? back l).
  - rewrite last_or_app.
    destruct (Z.eqb_spec k (front l)) as [E|E]; cbn [front back];
      (destruct (Z.eqb_spec k (back l)) as [E'|E']; cbn [front back];
       [apply Hback in E' as ->; done|]);
      destruct ys as [|[y e'] ys]; try (by destruct E'; apply Hback); done.
Qed.

Lemma remove_front_ok st l xs :
  dll st l xs →
  match xs with
  | [] => list_remove_front l st = Ok ((NULL, l), st)
  | (p, _) :: ys => ∃ l' st', list_remove_front l st = Ok ((p, l'), st') ∧
      dll st' l' ys ∧ frame (addrs ys) st st'
  end.
Proof.
  destruct xs as [|[p e] ys]; intros Hd.
  { unfold list_remove_front. rewrite (dll_front _ _ _ Hd). done. }
  destruct (dll_split st l [] p e ys Hd) as (_ & Hk & Hs2 & Hkn & _ & Hnd2 & _ & Hn2 & _ & Hk2 & _).
  destruct Hd as [Hf Hb _ _ _]. cbn in Hf, Hb, Hk.
  unfold list_remove_front. rewrite Hf. destruct (Z.eqb_spec p NULL); [done|].
  mrun. cbn [next].
  destruct (set_prev_ok st ys p NULL Hs2 Hnd2 Hn2) as (st1 & E1 & Hs1 & Hf1).
  destruct (Z.eqb_spec (first_or NULL ys) NULL) as [E|E]; cbn [negb] in E1 |- *.
  - apply first_or_null in E as [-> _]; [|done]. injection E1 as ->.
    eexists _, _. split; [done|]. split; [|done]. split; done.
  - rewrite (M_bind_step _ _ _ _ _ E1). eexists _, st1. split; [done|].
    split; [|done]. split; cbn; try done. destruct ys as [|[y e'] ys]; [done|]. done.
Qed.

Lemma remove_back_ok st l xs p e :
  dll st l (xs ++ [(p, e)]) →
  ∃ l' st', list_remove_back l st = Ok ((p, l'), st') ∧
    dll st' l' xs ∧ frame (addrs xs) st st'.
Proof.
  intros Hd.
  destruct (dll_split st l xs p e [] Hd) as (Hs1 & Hk & _ & Hkn & Hnd1 & _ & Hn1 & _ & Hk1 & _ & _).
  destruct Hd as [Hf Hb _ _ _]. rewrite first_or_app in Hf. rewrite last_or_app in Hb.
  cbn in Hf, Hb, Hk.
  unfold list_remove_back. rewrite Hb. destruct (Z.eqb_spec p NULL); [done|].
  mrun. cbn [prev].
  destruct (set_next_ok st xs p NULL Hs1 Hnd1 Hn1) as (st1 & E1 & Hs1' & Hf1).
  destruct (Z.eqb_spec (last_or NULL xs) NULL) as [E|E]; cbn [negb] in E1 |- *.
  - apply last_or_null in E as [-> _]; [|done]. injection E1 as ->.
    eexists _, _. split; [done|]. split; [|done]. split; done.
  - rewrite (M_bind_step _ _ _ _ _ E1). eexists _, st1. split; [done|].
    split; [|done]. split; cbn; try done. rewrite Hf. destruct xs as [|[y e'] xs]; done.
Qed.

Lemma remove_back_empty st l : dll st l [] → list_remove_back l st = Ok ((NULL, l), st).
Proof. intros Hd. unfold list_remove_back. by rewrite (dll_back _ _ _ Hd). Qed.

(** ** Properties *)

(** [op] takes the list to one that holds [xs'], touching only nodes of [ps]. *)
Definition yields (op : M nodes clist) (st : nodes) (xs' : list (Z * Z)) (ps : list Z) : Prop :=
  ∃ l' st', op st = Ok (l', st') ∧ dll st' l' xs' ∧ frame ps st st'.

(** on a list that holds the sequence [xs ++ (k, e) :: ys] and a node that
    is on no list, the four insertions succeed, put the new node (with its
    data) at the front, at the back, right after and right before [k], leave a
    well-linked list with both of its end pointers right, and change no node
    that is neither the new one nor on the list. *)
Theorem list_insertions_refine st l xs k e ys node d :
  dll st l (xs ++ (k, e) :: ys) → fresh st node (xs ++ (k, e) :: ys) →
  let ps := node :: addrs (xs ++ (k, e) :: ys) in
  yields (list_insert_front l node d) st ((node, d) :: xs ++ (k, e) :: ys) ps ∧
  yields (list_insert_back l node d) st ((xs ++ (k, e) :: ys) ++ [(node, d)]) ps ∧
  yields (list_insert_after l k node d) st (xs ++ (k, e) :: (node, d) :: ys) ps ∧
  yields (list_insert_before l k node d) st (xs ++ (node, d) :: (k, e) :: ys) ps.
Proof.
  intros Hd Hf ps. split_and!.
  - by apply insert_front_ok.
  - by apply insert_back_ok.
  - by apply insert_after_ok.
  - by apply insert_before_ok.
Qed.

(** Two nodes linked into a list, and a third that is not. *)
Definition demo_nodes : nodes :=
  <[16 := ListNode 32 0 7]> (<[32 := ListNode 0 16 8]> (<[48 := ListNode 1 2 3]> ∅)).

Lemma demo_dll : dll demo_nodes (CList 16 32) ([(16, 7)] ++ (32, 8) :: []).
Proof.
  split; try reflexivity.
  - repeat constructor; set_solver.
  - set_solver.
  - repeat split.
Defined.

Lemma demo_fresh : fresh demo_nodes 48 ([(16, 7)] ++ (32, 8) :: []).
Proof. split_and!; [by eexists|set_solver|done]. Defined.

Lemma list_insertions_refine_witness :
  let ps := [48; 16; 32] in
  yields (list_insert_front (CList 16 32) 48 9) demo_nodes [(48, 9); (16, 7); (32, 8)] ps ∧
  yields (list_insert_back (CList 16 32) 48 9) demo_nodes [(16, 7); (32, 8); (48, 9)] ps ∧
  yields (list_insert_after (CList 16 32) 32 48 9) demo_nodes [(16, 7); (32, 8); (48, 9)] ps ∧
  yields (list_insert_before (CList 16 32) 32 48 9) demo_nodes [(16, 7); (48, 9); (32, 8)] ps.
Proof. exact (list_insertions_refine demo_nodes (CList 16 32) [(16, 7)] 32 8 [] 48 9 demo_dll demo_fresh). Defined.

(** on a list that holds [xs ++ (k, e) :: ys], removing the node [k] leaves
    a well-linked list that holds [xs ++ ys]; removing at the front (back)
    returns the first (last) node and leaves the rest; in all three cases no
    node outside of the list changes. *)
Theorem list_removals_refine st l xs k e ys :
  dll st l (xs ++ (k, e) :: ys) →
  let ps := addrs (xs ++ (k, e) :: ys) in
  yields (list_remove_node l k) st (xs ++ ys) ps ∧
  (xs = [] → ∃ l' st', list_remove_front l st = Ok ((k, l'), st') ∧
     dll st' l' ys ∧ frame ps st st') ∧
  (ys = [] → ∃ l' st', list_remove_back l st = Ok ((k, l'), st') ∧
     dll st' l' xs ∧ frame ps st st').
Proof.
  intros Hd ps.
  assert (Hfr : ∀ qs st', frame qs st st' → (∀ q, q ∈ qs → q ∈ ps) → frame ps st st').
  { intros qs st' Hq Hin q Hnq. apply Hq. naive_solver. }
  assert (Hps : ∀ q, q ∈ ps ↔ q ∈ addrs xs ∨ q = k ∨ q ∈ addrs ys).
  { intros q. unfold ps. rewrite fmap_app. cbn. set_solver. }
  split_and!.
  - destruct (remove_node_ok st l xs k e ys Hd) as (l' & st' & Hr & Hd' & Hf).
    exists l', st'. split_and!; [done..|]. apply (Hfr _ _ Hf). set_solver.
  - intros ->. destruct (remove_front_ok st l ((k, e) :: ys) Hd) as (l' & st' & Hr & Hd' & Hf).
    exists l', st'. split_and!; [done..|]. apply (Hfr _ _ Hf). set_solver.
  - intros ->. destruct (remove_back_ok st l xs k e Hd) as (l' & st' & Hr & Hd' & Hf).
    exists l', st'. split_and!; [done..|]. apply (Hfr _ _ Hf). set_solver.
Qed.

Lemma list_removals_refine_witness :
  let ps := [16; 32] in
  yields (list_remove_node (CList 16 32) 32) demo_nodes [(16, 7)] ps ∧
  ([(16, 7)] = [] → ∃ l' st', list_remove_front (CList 16 32) demo_nodes = Ok ((32, l'), st') ∧
     dll st' l' [] ∧ frame ps demo_nodes st') ∧
  (@nil (Z * Z) = [] → ∃ l' st', list_remove_back (CList 16 32) demo_nodes = Ok ((32, l'), st') ∧
     dll st' l' [(16, 7)] ∧ frame ps demo_nodes st').
Proof. exact (list_removals_refine demo_nodes (CList 16 32) [(16, 7)] 32 8 [] demo_dll). Defined.
