(* ===== verification/StructList.v ===== *)
(** Lists of structures that embed their list node (src/include/kernel/lib/list.h):
    a structure at [p] has its node at a fixed offset, and the node's data is
    the structure.  Several lists share a store of nodes. *)
From S2P Require Import Prelude CList.

(** The node and data of the structure at [p]. *)
Definition entry (off p : Z) : Z * Z := (p + off, p).
Definition entries (off : Z) (ps : list Z) : list (Z * Z) := entry off <$> ps.

Section Entries.
Context (off : Z).
Implicit Types (ps : list Z) (pss : list (list Z)).

Lemma entries_app ps qs : entries off (ps ++ qs) = entries off ps ++ entries off qs.
Proof. apply fmap_app. Qed.

Lemma addrs_entries ps q : q ∈ addrs (entries off ps) ↔ q - off ∈ ps.
Proof.
  unfold entries. rewrite <- list_fmap_compose, list_elem_of_fmap. unfold compose, entry. cbn. split.
  - intros (p & -> & Hp). by replace (p + off - off) with p by lia.
  - intros Hq. exists (q - off). split; [lia|done].
Qed.
Lemma node_in_entries ps p : p + off ∈ addrs (entries off ps) ↔ p ∈ ps.
Proof. rewrite addrs_entries. by replace (p + off - off) with p by lia. Qed.

Lemma entries_data ps : (entries off ps).*2 = ps.
Proof. unfold entries. by rewrite <- list_fmap_compose, (list_fmap_ext _ id), list_fmap_id. Qed.

Lemma last_or_entries ps : last_or NULL (entries off ps) = from_option (λ p, p + off) NULL (last ps).
Proof.
  destruct ps as [|p ps _] using rev_ind; [done|]. by rewrite entries_app, last_or_app, last_snoc.
Qed.

(** The node of a structure on a list. *)
Lemma dll_entry st l ps p : dll st l (entries off ps) → p ∈ ps →
  ∃ k r, ps = k ++ p :: r ∧
    st !! (p + off) = Some (ListNode (first_or NULL (entries off r)) (last_or NULL (entries off k)) p).
Proof.
  intros Hd Hp. apply list_elem_of_split in Hp as (k & r & ->). exists k, r. split; [done|].
  rewrite entries_app in Hd. cbn in Hd. by apply dll_split in Hd as (_ & -> & _).
Qed.

(** The lists [ls] hold the structures [pss], each on one list. *)
Record linked (st : nodes) (ls : list clist) pss : Prop := {
  ln_lists : Forall2 (λ l ps, dll st l (entries off ps)) ls pss;
  ln_nodup : NoDup (concat pss);
}.

Lemma in_concat pss k ps p : pss !! k = Some ps → p ∈ ps → p ∈ concat pss.
Proof.
  intros Hk Hp. apply list_elem_of_In, List.in_concat. exists ps. rewrite <- !list_elem_of_In.
  by eauto using list_elem_of_lookup_2.
Qed.

Lemma concat_insert pss k ps out : pss !! k = Some ps →
  concat (<[k := ps ++ [out]]> pss) ≡ₚ out :: concat pss.
Proof.
  revert k. induction pss as [|xs pss IH]; intros [|k] Hk; simplify_eq/=.
  - rewrite <- (assoc_L (++)). symmetry. apply Permutation_middle.
  - rewrite (IH _ Hk). symmetry. apply Permutation_middle.
Qed.

Lemma concat_disjoint pss i k qs ps p : NoDup (concat pss) → i ≠ k →
  pss !! i = Some qs → pss !! k = Some ps → p ∈ qs → p ∉ ps.
Proof.
  revert i k. induction pss as [|xs pss IH]; intros [|i] [|k] Hnd Hne Hi Hk Hp; simplify_eq/=;
    apply NoDup_app in Hnd as (Hx & Hd & Hnd).
  - intros Hp'. by eapply Hd, in_concat.
  - intros Hp'. by eapply Hd, in_concat.
  - eapply (IH i k); eauto.
Qed.

Lemma linked_lookup st ls pss k ps : linked st ls pss → pss !! k = Some ps →
  ∃ l, ls !! k = Some l ∧ dll st l (entries off ps).
Proof. intros Hl Hk. by destruct (Forall2_lookup_r _ _ _ _ _ (ln_lists _ _ _ Hl) Hk) as (l & ? & ?); eauto. Qed.

(** A structure ready to be inserted: it has a node, and is on no list. *)
Definition unlinked (st : nodes) pss (out : Z) : Prop :=
  out ∉ concat pss ∧ is_Some (st !! (out + off)) ∧ out + off ≠ NULL.

(** Inserting a structure at the end of one of the lists. *)
Lemma linked_insert_back st ls pss k ps l out : linked st ls pss → pss !! k = Some ps → ls !! k = Some l →
  unlinked st pss out →
  ∃ l' st', list_insert_back l (out + off) out st = Ok (l', st') ∧
    dll st l (entries off ps) ∧ dll st' l' (entries off (ps ++ [out])) ∧
    frame (out + off :: addrs (entries off ps)) st st' ∧
    linked st' (<[k := l']> ls) (<[k := ps ++ [out]]> pss).
Proof.
  intros Hl Hk Hlk (Hni & Hn & Hnn). destruct (linked_lookup _ _ _ _ _ Hl Hk) as (l0 & Hl0 & Hd). simplify_eq.
  assert (Hop : out ∉ ps) by (intros Hp; by eapply Hni, in_concat).
  destruct (insert_back_ok st l (entries off ps) (out + off) out Hd) as (l' & st' & E & Hd' & Hf).
  { split_and!; [done| |done]. by rewrite node_in_entries. }
  assert (Hd2 : dll st' l' (entries off (ps ++ [out]))) by by rewrite entries_app.
  exists l', st'. split_and!; [done..|]. split.
  - apply Forall2_lookup. intros i. destruct (decide (i = k)) as [->|Hne].
    + rewrite !list_lookup_insert_eq by by eapply lookup_lt_Some. by constructor.
    + rewrite !list_lookup_insert_ne by done.
      pose proof (proj1 (Forall2_lookup _ _ _) (ln_lists _ _ _ Hl) i) as Hi.
      destruct (ls !! i) as [li|], (pss !! i) as [qs|] eqn:Ei; inversion Hi as [? ? Hdi|]; subst; constructor.
      destruct Hdi as [H1 H2 H3 H4 H5]. split; [done..|]. eapply dlseg_frame; [|done].
      intros p Hp. apply Hf. rewrite addrs_entries in Hp. rewrite elem_of_cons, addrs_entries.
      intros [->|Hp']; [|by eapply (concat_disjoint pss i k); eauto using ln_nodup].
      apply Hni. replace out with (out + off - off) by lia. by eapply in_concat.
  - rewrite (concat_insert _ _ _ _ Hk). apply NoDup_cons. split; [done|apply (ln_nodup _ _ _ Hl)].
Qed.

(** Empty lists. *)
Lemma dll_nil st : dll st list_init [].
Proof. split; cbn; [done|done|apply NoDup_nil_2|set_solver|done]. Qed.
Lemma concat_replicate_nil n : concat (replicate n ([] : list Z)) = [].
Proof. induction n; done. Qed.
Lemma linked_empty st n : linked st (replicate n list_init) (replicate n []).
Proof.
  split; [apply Forall2_replicate, dll_nil|rewrite concat_replicate_nil; apply NoDup_nil_2].
Qed.
End Entries.
