(* ===== verification/StrUtil.v ===== *)
(** C strings, raw memory and the string matcher (src/kernel/lib/strutil.c,
    src/kernel/lib/libc/ctype.c).

    A pointer into a character array is the list of the characters from it on
    to the end of the array.  [char] is signed on i586: a character is an
    integer of [-128, 127]. *)
From S2P Require Import Prelude.

(** ** Character classes (ctype.c) *)

Definition CCLASS_FLAG_SPACE : Z := 1.
Definition CCLASS_FLAG_DIGIT : Z := 2.

Definition CHARS (c : Z) : Z :=
  if (48 <=? c) && (c <=? 57) then CCLASS_FLAG_DIGIT
  else if (c =? 9) || (c =? 32) then CCLASS_FLAG_SPACE
  else 0.

Definition CCLASS_MAX_CHAR : Z := 128 - 1.

Definition isspace (c : Z) : bool :=
  if (c <? 0) || (CCLASS_MAX_CHAR <=? c) then false
  else negb (Z.land (CHARS c) CCLASS_FLAG_SPACE =? 0).

Definition isdigit (c : Z) : bool :=
  if (c <? 0) || (CCLASS_MAX_CHAR <=? c) then false
  else negb (Z.land (CHARS c) CCLASS_FLAG_DIGIT =? 0).

(** ** Strings *)

Fixpoint kstrlen_from (len : Z) (s : list Z) : res Z :=
  match s with
  | [] => Fault Out_of_bounds
  | c :: s' => if c =? 0 then Ok len else kstrlen_from (u32 (len + 1)) s'
  end.
Definition kstrlen : list Z → res Z := kstrlen_from 0.

Fixpoint kstrcmp (s1 s2 : list Z) : res Z :=
  match s1, s2 with
  | c1 :: s1', c2 :: s2' =>
      if negb (c1 =? c2) then Ok (c1 - c2)
      else if c1 =? 0 then Ok 0
      else kstrcmp s1' s2'
  | _, _ => Fault Out_of_bounds
  end.

Fixpoint kstrncmp_upto (n : nat) (s1 s2 : list Z) : res Z :=
  match n with
  | O => Ok 0
  | S n =>
      match s1, s2 with
      | c1 :: s1', c2 :: s2' =>
          if negb (c1 =? c2) then Ok (c1 - c2)
          else if c1 =? 0 then Ok 0
          else kstrncmp_upto n s1' s2'
      | _, _ => Fault Out_of_bounds
      end
  end.
Definition kstrncmp (s1 s2 : list Z) (n : Z) : res Z := kstrncmp_upto (Z.to_nat n) s1 s2.

(** The result pointers are offsets from [s]; [None] is the null pointer. *)
Fixpoint kstrchr_from (i : Z) (s : list Z) (c : Z) : res (option Z) :=
  match s with
  | [] => Fault Out_of_bounds
  | x :: s' =>
      if x =? c then Ok (Some i)
      else if x =? 0 then Ok None
      else kstrchr_from (i + 1) s' c
  end.
Definition kstrchr : list Z → Z → res (option Z) := kstrchr_from 0.

Fixpoint kstrrchr_from (i : Z) (result : option Z) (s : list Z) (c : Z) : res (option Z) :=
  match s with
  | [] => Fault Out_of_bounds
  | x :: s' =>
      let result := if x =? c then Some i else result in
      if x =? 0 then Ok result
      else kstrrchr_from (i + 1) result s' c
  end.
Definition kstrrchr : list Z → Z → res (option Z) := kstrrchr_from 0 None.

(** ** Memory: the [n] bytes, or elements, at offset [off] of an array *)

Definition mem_read {A} (src : list A) (off n : Z) : res (list A) :=
  if (0 <=? off) && (0 <=? n) && (off + n <=? Z.of_nat (length src))
  then Ok (take (Z.to_nat n) (drop (Z.to_nat off) src)) else Fault Out_of_bounds.

Definition mem_write {A} (dest : list A) (off : Z) (bytes : list A) : res (list A) :=
  if (0 <=? off) && (off + Z.of_nat (length bytes) <=? Z.of_nat (length dest))
  then Ok (take (Z.to_nat off) dest ++ bytes ++
           drop (Z.to_nat off + length bytes) dest) else Fault Out_of_bounds.

(** [rep movsb] copies upwards, byte by byte, between arrays that do not
    overlap ([restrict]). *)
Definition vmemcpy {A} (dest : list A) (doff : Z) (src : list A) (soff n : Z) : res (list A) :=
  bytes ← mem_read src soff n; mem_write dest doff bytes.

Definition vmemset (dest : list Z) (off c n : Z) : res (list Z) :=
  mem_write dest off (replicate (Z.to_nat n) (s8 c)).

(** ** The string matcher *)

Record smatcher := Smatcher { str : list Z; len : Z; currentindex : Z }.

Definition smatcher_init_with_len (s : list Z) (n : Z) : smatcher := Smatcher s n 0.

Definition smatcher_init (s : list Z) : res smatcher :=
  n ← kstrlen s; Ok (smatcher_init_with_len s n).

Definition smatcher_slice (self : smatcher) (firstchar lastchar : Z) : res smatcher :=
  _ ← assert_ (firstchar <=? lastchar);
  Ok (smatcher_init_with_len (drop (Z.to_nat firstchar) (str self)) (u32 (lastchar - firstchar + 1))).

Definition at_index (self : smatcher) : list Z := drop (Z.to_nat (currentindex self)) (str self).
Definition advance (self : smatcher) (n : Z) : smatcher :=
  Smatcher (str self) (len self) (u32 (currentindex self + n)).

Definition smatcher_consume_str_if_match (self : smatcher) (s : list Z) : res (bool * smatcher) :=
  n ← kstrlen s;
  if u32 (len self - currentindex self) <? n then Ok (false, self)
  else
    r ← kstrncmp (at_index self) s n;
    if negb (r =? 0) then Ok (false, self)
    else Ok (true, advance self n).

Definition smatcher_consume_word_if_match (self : smatcher) (s : list Z) : res (bool * smatcher) :=
  n ← kstrlen s;
  if u32 (len self - currentindex self) <? n then Ok (false, self)
  else
    r ← kstrncmp (at_index self) s n;
    if negb (r =? 0) then Ok (false, self)
    else
      nextchar ← rd (str self) (u32 (currentindex self + n));
      if negb (u32 (currentindex self + n) =? len self) && negb (isspace nextchar)
      then Ok (false, self)
      else Ok (true, advance self n).

Definition smatcher_skip_whitespaces (self : smatcher) : res smatcher :=
  loop (S (length (str self))) (λ self,
    c ← rd (str self) (currentindex self);
    if isspace c then Ok (inl (advance self 1)) else Ok (inr self)) self.

Definition consume_word_step : Z * smatcher → res (Z * smatcher + Z * smatcher) :=
  λ '(len_out, self),
    if currentindex self <? len self then
      c ← rd (str self) (currentindex self);
      if negb (isspace c) then Ok (inl (u32 (len_out + 1), advance self 1))
      else Ok (inr (len_out, self))
    else Ok (inr (len_out, self)).

(** The word: where it starts in [str], and its length. *)
Definition smatcher_consume_word (self : smatcher) : res (option (list Z * Z) * smatcher) :=
  if currentindex self =? len self then Ok (None, self)
  else
    c ← rd (str self) (currentindex self);
    if isspace c then Ok (None, self)
    else
      '(n, self') ← loop (S (Z.to_nat (len self))) consume_word_step (0, self);
      Ok (Some (at_index self, n), self').

(** ** C strings *)

(** [s] points to the C string [cs]. *)
Definition cstr (s cs : list Z) : Prop := 0 ∉ cs ∧ ∃ tl, s = cs ++ 0 :: tl.

Lemma kstrlen_from_ok n s cs : cstr s cs → 0 ≤ n → n + Z.of_nat (length cs) < 2 ^ 32 →
  kstrlen_from n s = Ok (n + Z.of_nat (length cs)).
Proof.
  intros [Hz [tl ->]]. revert n. induction cs as [|c cs IH]; intros n Hn Hl; cbn.
  - f_equal. lia.
  - cbn in Hl. destruct (Z.eqb_spec c 0) as [->|]; [set_solver|].
    rewrite u32_small by lia. rewrite IH by (set_solver || lia). f_equal. lia.
Qed.

Lemma kstrlen_ok s cs : cstr s cs → Z.of_nat (length cs) < 2 ^ 32 →
  kstrlen s = Ok (Z.of_nat (length cs)).
Proof. intros Hs Hl. unfold kstrlen. by rewrite (kstrlen_from_ok 0 s cs) by (done || lia). Qed.

(** The comparison stops at the first position where the two strings, with
    their terminators, differ. *)
Lemma kstrncmp_upto_ok n s1 s2 cs1 cs2 :
  cstr s1 cs1 → cstr s2 cs2 →
  ∃ r, kstrncmp_upto n s1 s2 = Ok r ∧ (r = 0 ↔ take n cs1 = take n cs2).
Proof.
  intros [Hz1 [t1 ->]] [Hz2 [t2 ->]]. revert cs1 cs2 Hz1 Hz2.
  induction n as [|n IH]; intros cs1 cs2 Hz1 Hz2; cbn.
  { exists 0. split; [done|]. by rewrite !take_0. }
  destruct cs1 as [|c1 cs1], cs2 as [|c2 cs2]; cbn.
  - exists 0. done.
  - destruct (Z.eqb_spec 0 c2) as [<-|]; [set_solver|]. cbn. exists (0 - c2). split; [done|].
    split; [lia|done].
  - destruct (Z.eqb_spec c1 0) as [->|]; [set_solver|]. cbn. exists (c1 - 0). split; [done|].
    split; [lia|done].
  - destruct (Z.eqb_spec c1 c2) as [->|]; cbn.
    + destruct (Z.eqb_spec c2 0) as [->|]; [set_solver|].
      destruct (IH cs1 cs2) as (r & Hr & Heq); [set_solver..|].
      exists r. split; [done|]. rewrite Heq. split; congruence.
    + exists (c1 - c2). split; [done|]. split; [lia|congruence].
Qed.

Lemma kstrcmp_ok s1 s2 cs1 cs2 :
  cstr s1 cs1 → cstr s2 cs2 → ∃ r, kstrcmp s1 s2 = Ok r ∧ (r = 0 ↔ cs1 = cs2).
Proof.
  intros [Hz1 [t1 ->]] [Hz2 [t2 ->]]. revert cs2 Hz2.
  induction cs1 as [|c1 cs1 IH]; intros [|c2 cs2] Hz2; cbn.
  - exists 0. done.
  - destruct (Z.eqb_spec 0 c2) as [<-|]; [set_solver|]. cbn. exists (0 - c2).
    split; [done|]. split; [lia|done].
  - destruct (Z.eqb_spec c1 0) as [->|]; [set_solver|]. cbn. exists (c1 - 0). split; [done|].
    split; [lia|done].
  - destruct (Z.eqb_spec c1 c2) as [->|]; cbn.
    + destruct (Z.eqb_spec c2 0) as [->|]; [set_solver|].
      destruct (IH ltac:(set_solver) cs2) as (r & Hr & Heq); [set_solver|].
      exists r. split; [done|]. rewrite Heq. split; congruence.
    + exists (c1 - c2). split; [done|]. split; [lia|congruence].
Qed.

Lemma kstrchr_from_ok i s cs c : cstr s cs → c ≠ 0 →
  (c ∉ cs ∧ kstrchr_from i s c = Ok None) ∨
  (∃ pre post, cs = pre ++ c :: post ∧ c ∉ pre ∧
     kstrchr_from i s c = Ok (Some (i + Z.of_nat (length pre)))).
Proof.
  intros [Hz [tl ->]] Hc. revert i. induction cs as [|x cs IH]; intros i; cbn.
  - left. destruct (Z.eqb_spec 0 c) as [<-|]; [done|]. split; [set_solver|done].
  - destruct (Z.eqb_spec x c) as [->|Hx].
    + right. exists [], cs. split_and!; [done|set_solver|]. cbn. do 2 f_equal. lia.
    + destruct (Z.eqb_spec x 0) as [->|]; [set_solver|].
      destruct (IH ltac:(set_solver) (i + 1)) as [[Hn ->]|(pre & post & -> & Hn & ->)].
      * left. split; [set_solver|done].
      * right. exists (x :: pre), post. split_and!; [done|set_solver|]. cbn. do 2 f_equal. lia.
Qed.

Lemma kstrchr_from_nul i s cs : cstr s cs →
  kstrchr_from i s 0 = Ok (Some (i + Z.of_nat (length cs))).
Proof.
  intros [Hz [tl ->]]. revert i. induction cs as [|x cs IH]; intros i; cbn.
  - do 2 f_equal. lia.
  - destruct (Z.eqb_spec x 0) as [->|]; [set_solver|].
    rewrite IH by set_solver. do 2 f_equal. lia.
Qed.

Lemma kstrrchr_from_ok i r s cs c : cstr s cs → c ≠ 0 →
  (c ∉ cs ∧ kstrrchr_from i r s c = Ok r) ∨
  (∃ pre post, cs = pre ++ c :: post ∧ c ∉ post ∧
     kstrrchr_from i r s c = Ok (Some (i + Z.of_nat (length pre)))).
Proof.
  intros [Hz [tl ->]] Hc. revert i r. induction cs as [|x cs IH]; intros i r; cbn.
  - left. destruct (Z.eqb_spec 0 c) as [<-|]; [done|]. split; [set_solver|done].
  - destruct (Z.eqb_spec x 0) as [->|]; [set_solver|].
    destruct (Z.eqb_spec x c) as [->|Hx].
    + destruct (IH ltac:(set_solver) (i + 1) (Some i)) as [[Hn ->]|(pre & post & -> & Hn & ->)].
      * right. exists [], cs. split_and!; [done|done|]. cbn. do 2 f_equal. lia.
      * right. exists (c :: pre), post. split_and!; [done|done|]. cbn. do 2 f_equal. lia.
    + destruct (IH ltac:(set_solver) (i + 1) r) as [[Hn ->]|(pre & post & -> & Hn & ->)].
      * left. split; [set_solver|done].
      * right. exists (x :: pre), post. split_and!; [done|done|]. cbn. do 2 f_equal. lia.
Qed.

(** ** Memory *)

Lemma mem_read_ok {A} (src : list A) off n : 0 ≤ off → 0 ≤ n → off + n ≤ Z.of_nat (length src) →
  mem_read src off n = Ok (take (Z.to_nat n) (drop (Z.to_nat off) src)).
Proof. intros. unfold mem_read. zcase; (done || lia). Qed.

Lemma mem_write_ok {A} (dest : list A) off bytes :
  0 ≤ off → off + Z.of_nat (length bytes) ≤ Z.of_nat (length dest) →
  mem_write dest off bytes =
    Ok (take (Z.to_nat off) dest ++ bytes ++ drop (Z.to_nat off + length bytes) dest).
Proof. intros. unfold mem_write. zcase; (done || lia). Qed.

(** Reading what was just written, and what was not. *)
Lemma mem_write_read {A} (dest : list A) off bytes dest' :
  mem_write dest off bytes = Ok dest' →
  mem_read dest' off (Z.of_nat (length bytes)) = Ok bytes ∧ length dest' = length dest.
Proof.
  unfold mem_write. zcase; cbn; try done. intros [= <-].
  assert (length (take (Z.to_nat off) dest ++ bytes ++
    drop (Z.to_nat off + length bytes) dest) = length dest) as Hlen.
  { rewrite !length_app, length_take, length_drop. lia. }
  split; [|done]. rewrite mem_read_ok by (rewrite ?Hlen; lia). f_equal.
  rewrite drop_app_length' by (rewrite length_take; lia).
  rewrite take_app_length' by lia. done.
Qed.

Lemma mem_write_read_other {A} (dest : list A) off bytes dest' o n :
  mem_write dest off bytes = Ok dest' →
  (o + n ≤ off ∨ off + Z.of_nat (length bytes) ≤ o) →
  mem_read dest' o n = mem_read dest o n.
Proof.
  intros Hw Ho. pose proof (proj2 (mem_write_read _ _ _ _ Hw)) as Hlen.
  unfold mem_read. rewrite Hlen.
  destruct (Z.leb_spec 0 o), (Z.leb_spec 0 n), (Z.leb_spec (o + n) (Z.of_nat (length dest)));
    cbn; try done.
  f_equal. revert Hw. unfold mem_write. zcase; cbn; try done. intros [= <-].
  apply list_eq. intros i. destruct (decide (i < Z.to_nat n)%nat).
  2: { rewrite !lookup_take_ge by lia. done. }
  rewrite !lookup_take_lt, !lookup_drop by lia.
  destruct Ho as [Ho|Ho].
  - rewrite lookup_app_l by (rewrite length_take; lia). rewrite lookup_take_lt by lia. done.
  - rewrite lookup_app_r by (rewrite length_take; lia).
    rewrite length_take. rewrite lookup_app_r by lia. rewrite lookup_drop. f_equal. lia.
Qed.

Lemma mem_write_lookup {A} (dest : list A) off bytes : 0 ≤ off → off + Z.of_nat (length bytes) ≤ Z.of_nat (length dest) →
  ∃ dest', mem_write dest off bytes = Ok dest' ∧ length dest' = length dest ∧
    ∀ i, 0 ≤ i → dest' !! Z.to_nat i =
      if (off <=? i) && (i <? off + Z.of_nat (length bytes)) then bytes !! Z.to_nat (i - off) else dest !! Z.to_nat i.
Proof.
  intros Ho Hl. rewrite mem_write_ok by done. eexists. split; [done|]. split.
  { rewrite !length_app, length_take, length_drop. lia. }
  intros i Hi. destruct (Z.leb_spec off i); cbn.
  - rewrite lookup_app_r by (rewrite length_take; lia). rewrite length_take.
    replace (Z.to_nat i - Z.to_nat off `min` length dest)%nat with (Z.to_nat (i - off)) by lia.
    destruct (Z.ltb_spec i (off + Z.of_nat (length bytes))).
    + by rewrite lookup_app_l by lia.
    + rewrite lookup_app_r, lookup_drop by lia. f_equal. lia.
  - rewrite lookup_app_l by (rewrite length_take; lia). by rewrite lookup_take_lt by lia.
Qed.

(** Moving a block inside of an array. *)
Lemma mem_move {A} (m : list A) src n dest : 0 ≤ src → 0 ≤ n → src + n ≤ Z.of_nat (length m) → 0 ≤ dest → dest + n ≤ Z.of_nat (length m) →
  ∃ bytes m', mem_read m src n = Ok bytes ∧ mem_write m dest bytes = Ok m' ∧ length m' = length m ∧
    ∀ i, 0 ≤ i → m' !! Z.to_nat i = if (dest <=? i) && (i <? dest + n) then m !! Z.to_nat (i - dest + src) else m !! Z.to_nat i.
Proof.
  intros Hs Hn Hsl Hd Hdl. rewrite mem_read_ok by done.
  set (bytes := take (Z.to_nat n) (drop (Z.to_nat src) m)).
  assert (Z.of_nat (length bytes) = n) as Hlen by (unfold bytes; rewrite length_take, length_drop; lia).
  destruct (mem_write_lookup m dest bytes) as (m' & Hw & Hl & Hlook); [done|lia|].
  exists bytes, m'. split; [done|]. split; [done|]. split; [done|]. intros i Hi. rewrite Hlook, Hlen by done.
  destruct (Z.leb_spec dest i); [|done]. destruct (Z.ltb_spec i (dest + n)); [|done]. cbn [andb].
  unfold bytes. rewrite lookup_take_lt, lookup_drop by lia. f_equal. lia.
Qed.

Lemma mem_read_ext {A} (m m' : list A) o o' n : 0 ≤ o → 0 ≤ o' → 0 ≤ n → o + n ≤ Z.of_nat (length m) → o' + n ≤ Z.of_nat (length m') →
  (∀ i, 0 ≤ i < n → m' !! Z.to_nat (o' + i) = m !! Z.to_nat (o + i)) → mem_read m' o' n = mem_read m o n.
Proof.
  intros Ho Ho' Hn Hl Hl' Heq. rewrite !mem_read_ok by done. f_equal. apply list_eq. intros i.
  destruct (decide (i < Z.to_nat n)%nat) as [Hi|Hi].
  - rewrite !lookup_take_lt, !lookup_drop by lia. specialize (Heq (Z.of_nat i) ltac:(lia)).
    replace (Z.to_nat o' + i)%nat with (Z.to_nat (o' + Z.of_nat i)) by lia. rewrite Heq. f_equal. lia.
  - by rewrite !lookup_ge_None_2 by (rewrite length_take; lia).
Qed.

(** ** The matcher *)

(** The text the matcher has not consumed yet. *)
Definition rest (self : smatcher) : list Z :=
  take (Z.to_nat (len self - currentindex self)) (at_index self).

(** The text is in memory, with a character after its end (its terminator, or
    the text a slice was taken from). *)
Record smatcher_wf (self : smatcher) : Prop := {
  sm_index : 0 ≤ currentindex self ≤ len self;
  sm_len : len self < 2 ^ 32;
  sm_mem : len self < Z.of_nat (length (str self));
}.

Lemma kstrncmp_prefix n s1 cs tl :
  length cs = n → (n ≤ length s1)%nat → 0 ∉ cs →
  ∃ r, kstrncmp_upto n s1 (cs ++ tl) = Ok r ∧ (r = 0 ↔ take n s1 = cs).
Proof.
  revert s1 cs. induction n as [|n IH]; intros s1 cs Hc Hn Hz; cbn.
  { exists 0. destruct cs; [|done]. by rewrite take_0. }
  destruct s1 as [|x s1]; [cbn in Hn; lia|]. destruct cs as [|c cs]; [done|]. cbn.
  destruct (Z.eqb_spec x c) as [->|Hne]; cbn.
  - destruct (Z.eqb_spec c 0) as [->|]; [set_solver|].
    destruct (IH s1 cs) as (r & -> & Hr); [by injection Hc|cbn in Hn; lia|set_solver|].
    exists r. split; [done|]. rewrite Hr. split; congruence.
  - exists (x - c). split; [done|]. split; [lia|congruence].
Qed.

Section smatcher.
  Context (self : smatcher) (s cs : list Z).
  Hypothesis Hwf : smatcher_wf self.
  Hypothesis Hs : cstr s cs.
  Hypothesis Hlen : Z.of_nat (length cs) < 2 ^ 32.

Lemma length_rest : length (rest self) = Z.to_nat (len self - currentindex self).
  Proof using Hwf.
    clear Hs Hlen. destruct Hwf as [Hi Hl Hm]. unfold rest, at_index. rewrite length_take, length_drop. lia.
  Qed.

(** The prologue the two consume-if-match operations share. *)
Lemma match_prologue :
    (u32 (len self - currentindex self) <? Z.of_nat (length cs) = true ∧ ¬ cs `prefix_of` rest self) ∨
    (u32 (len self - currentindex self) <? Z.of_nat (length cs) = false ∧
     ∃ r, kstrncmp (at_index self) s (Z.of_nat (length cs)) = Ok r ∧
       (r = 0 ↔ cs `prefix_of` rest self)).
  Proof using Hwf Hs Hlen.
    pose proof length_rest as Hr. destruct Hwf as [Hi Hl Hm].
    rewrite u32_small by lia.
    destruct (Z.ltb_spec (len self - currentindex self) (Z.of_nat (length cs))).
    - left. split; [done|]. intros Hp%prefix_length. lia.
    - right. split; [done|]. destruct Hs as [Hz [tl ->]].
      unfold kstrncmp. rewrite Nat2Z.id.
      destruct (kstrncmp_prefix (length cs) (at_index self) cs (0 :: tl)) as (r & -> & Hr0);
        [done| |done|].
      { unfold at_index. rewrite length_drop. lia. }
      exists r. split; [done|]. rewrite Hr0. unfold rest. split.
      + intros E. rewrite <- E at 1.
        exists (drop (length cs) (take (Z.to_nat (len self - currentindex self)) (at_index self))).
        rewrite <- (take_drop (length cs) (take _ (at_index self))) at 1. f_equal.
        rewrite take_take. f_equal. lia.
      + intros [k E]. apply (f_equal (take (length cs))) in E.
        rewrite take_take, take_app_length in E.
        rewrite Nat.min_l in E by lia. done.
  Qed.

Lemma consume_str_ok :
    smatcher_consume_str_if_match self s =
      Ok (if decide (cs `prefix_of` rest self)
          then (true, advance self (Z.of_nat (length cs))) else (false, self)).
  Proof using Hwf Hs Hlen.
    unfold smatcher_consume_str_if_match. rewrite (kstrlen_ok s cs) by done. cbn.
    destruct match_prologue as [[-> Hp]|(-> & r & -> & Hr)]; cbn.
    - by rewrite decide_False.
    - destruct (Z.eqb_spec r 0) as [E|E]; cbn; case_decide; (done || tauto).
  Qed.

(** The text after the matched word is at its end, or at a white space. *)
Definition word_ends : bool :=
    match rest self !! length cs with None => true | Some c => isspace c end.

Lemma consume_word_if_match_ok :
    smatcher_consume_word_if_match self s =
      Ok (if decide (cs `prefix_of` rest self) then
            if word_ends then (true, advance self (Z.of_nat (length cs))) else (false, self)
          else (false, self)).
  Proof using Hwf Hs Hlen.
    unfold smatcher_consume_word_if_match. rewrite (kstrlen_ok s cs) by done. cbn.
    destruct match_prologue as [[-> Hp]|(-> & r & -> & Hr)]; cbn.
    { by rewrite decide_False. }
    destruct (Z.eqb_spec r 0) as [E|E]; cbn; case_decide as Hp; try (done || tauto).
    pose proof length_rest as Hlr. pose proof (prefix_length _ _ Hp) as Hpl.
    destruct Hwf as [Hi Hl Hm]. rewrite u32_small by lia.
    destruct (rd_Some (str self) (currentindex self + Z.of_nat (length cs))) as (c & Hlk & ->); [lia|].
    cbn. unfold word_ends.
    destruct (Z.eqb_spec (currentindex self + Z.of_nat (length cs)) (len self)) as [Ee|Ee]; cbn.
    - by rewrite lookup_ge_None_2 by lia.
    - assert (rest self !! length cs = Some c) as ->; [|by destruct (isspace c)].
      unfold rest, at_index. rewrite lookup_take_lt, lookup_drop by lia.
      rewrite <- Hlk. f_equal. lia.
  Qed.
End smatcher.

(** The longest prefix without white space. *)
Fixpoint word_of (l : list Z) : list Z :=
  match l with
  | [] => []
  | c :: l => if isspace c then [] else c :: word_of l
  end.

Lemma rest_cons self : smatcher_wf self → currentindex self < len self →
  ∃ c, rd (str self) (currentindex self) = Ok c ∧
    rest self = c :: rest (advance self 1) ∧ smatcher_wf (advance self 1).
Proof.
  intros [Hi Hl Hm] Hlt.
  destruct (rd_Some (str self) (currentindex self)) as (c & Hlk & Hrd); [lia|].
  exists c. split; [done|].
  assert (Hadv : currentindex (advance self 1) = currentindex self + 1)
    by (cbn; apply u32_small; lia).
  split; [|split; rewrite ?Hadv; cbn; lia].
  unfold rest, at_index. rewrite Hadv. cbn [len str advance].
  replace (Z.to_nat (len self - currentindex self))
    with (S (Z.to_nat (len self - (currentindex self + 1)))) by lia.
  rewrite (drop_S (str self) c) by done. cbn. f_equal. f_equal. f_equal. lia.
Qed.

Lemma consume_word_ok self :
  smatcher_wf self →
  ∃ self', smatcher_consume_word self = Ok
     (if decide (word_of (rest self) = []) then None
      else Some (at_index self, Z.of_nat (length (word_of (rest self)))), self') ∧
   smatcher_wf self' ∧ str self' = str self ∧ len self' = len self ∧
   currentindex self' = currentindex self + Z.of_nat (length (word_of (rest self))).
Proof.
  intros Hwf. unfold smatcher_consume_word.
  destruct (Z.eqb_spec (currentindex self) (len self)) as [E|E].
  { exists self. assert (rest self = []) as -> by (unfold rest; by rewrite E, Z.sub_diag).
    cbn. split_and!; (done || lia). }
  assert (currentindex self < len self) as Hlt by (destruct Hwf; lia).
  destruct (rest_cons self Hwf Hlt) as (c & Hrd & Hrest & _). rewrite Hrd. cbn.
  destruct (isspace c) eqn:Hc.
  { exists self. rewrite Hrest. cbn. rewrite Hc. split_and!; (done || cbn; lia). }
  set (w := word_of (rest self)).
  assert (w ≠ []) as Hw by (unfold w; rewrite Hrest; cbn; by rewrite Hc).
  rewrite decide_False by done.
  destruct (loop_rule consume_word_step
     (λ '(n, x), smatcher_wf x ∧ str x = str self ∧ len x = len self ∧ 0 ≤ n ∧
        currentindex x = currentindex self + n ∧
        n + Z.of_nat (length (word_of (rest x))) = Z.of_nat (length w))
     (λ '(_, x), Z.to_nat (len x - currentindex x))
     (λ '(n, x), smatcher_wf x ∧ str x = str self ∧ len x = len self ∧
        currentindex x = currentindex self + n ∧ n = Z.of_nat (length w)))
    with (fuel := S (Z.to_nat (len self))) (x := (0, self)) as ([n x] & Hl & Hx).
  - intros [n x] (Hwfx & Hs & Hln & Hn & Hi & Hsum). pose proof (sm_index _ Hwf) as Hi0.
    unfold consume_word_step. destruct (Z.ltb_spec (currentindex x) (len x)) as [Hlx|Hlx].
    + destruct (rest_cons x Hwfx Hlx) as (d & Hrdx & Hrx & Hwx). rewrite Hrdx. cbn.
      rewrite Hrx in Hsum. cbn in Hsum.
      destruct (isspace d) eqn:Hd; rewrite ?Hd in Hsum; cbn; eexists; (split; [done|]).
      * split_and!; (done || cbn in Hsum; lia).
      * cbn in Hsum. destruct Hwfx as [Hix Hlx' Hmx].
        unfold advance in *. cbn [currentindex str len] in *.
        rewrite !u32_small in * by lia. split_and!; (done || lia).
    + eexists. split; [done|]. assert (rest x = []) as Hr.
      { unfold rest. replace (len x - currentindex x) with 0 by (destruct Hwfx; lia). done. }
      rewrite Hr in Hsum. cbn in Hsum. split_and!; (done || lia).
  - split_and!; try done; lia.
  - destruct Hwf. lia.
  - rewrite Hl. cbn. destruct Hx as (Hwfx & Hs & Hln & Hi & ->). exists x.
    split_and!; done.
Qed.

(** ** Properties *)

(** on C strings the comparison functions return zero exactly on equal
    strings (equal in their first [n] characters), [kstrlen] counts the
    characters before the terminator, and [kstrchr] ([kstrrchr]) returns the
    position of the first (last) occurrence of a character that is not the
    terminator, the null pointer exactly when it does not occur. *)
Theorem string_functions_correct s1 cs1 s2 cs2 n c :
  cstr s1 cs1 → cstr s2 cs2 → Z.of_nat (length cs1) < 2 ^ 32 → 0 ≤ n → c ≠ 0 →
  kstrlen s1 = Ok (Z.of_nat (length cs1)) ∧
  (∃ r, kstrcmp s1 s2 = Ok r ∧ (r = 0 ↔ cs1 = cs2)) ∧
  (∃ r, kstrncmp s1 s2 n = Ok r ∧ (r = 0 ↔ take (Z.to_nat n) cs1 = take (Z.to_nat n) cs2)) ∧
  (kstrchr s1 c = Ok None ∧ kstrrchr s1 c = Ok None ∧ c ∉ cs1 ∨
   ∃ i j, kstrchr s1 c = Ok (Some (Z.of_nat i)) ∧ kstrrchr s1 c = Ok (Some (Z.of_nat j)) ∧
     cs1 !! i = Some c ∧ c ∉ take i cs1 ∧ cs1 !! j = Some c ∧ c ∉ drop (S j) cs1).
Proof.
  intros H1 H2 Hl Hn Hc. split_and!.
  - by apply kstrlen_ok.
  - by apply kstrcmp_ok.
  - by apply kstrncmp_upto_ok.
  - unfold kstrchr, kstrrchr.
    destruct (kstrchr_from_ok 0 s1 cs1 c H1 Hc) as [[Hni E]|(a & b & Ha & Hni & E)],
      (kstrrchr_from_ok 0 None s1 cs1 c H1 Hc) as [[Hni' E']|(a' & b' & Ha' & Hni' & E')];
      rewrite E, E'.
    + by left.
    + subst. exfalso. set_solver.
    + subst. exfalso. set_solver.
    + right. exists (length a), (length a'). split_and!; try done.
      * rewrite Ha. by rewrite list_lookup_middle.
      * by rewrite Ha, take_app_length.
      * rewrite Ha'. by rewrite list_lookup_middle.
      * rewrite Ha', (cons_middle c a' b'), app_assoc.
        rewrite drop_app_length'; [done|]. rewrite length_app. cbn. lia.
Qed.

Lemma string_functions_correct_witness :
  let s1 := [97; 98; 97; 0; 5] in let s2 := [97; 99; 0] in
  kstrlen s1 = Ok 3 ∧
  (∃ r, kstrcmp s1 s2 = Ok r ∧ (r = 0 ↔ [97; 98; 97] = [97; 99])) ∧
  (∃ r, kstrncmp s1 s2 1 = Ok r ∧ (r = 0 ↔ [97] = [97])) ∧
  (kstrchr s1 97 = Ok None ∧ kstrrchr s1 97 = Ok None ∧ 97 ∉ [97; 98; 97] ∨
   ∃ i j, kstrchr s1 97 = Ok (Some (Z.of_nat i)) ∧ kstrrchr s1 97 = Ok (Some (Z.of_nat j)) ∧
     [97; 98; 97] !! i = Some 97 ∧ 97 ∉ take i [97; 98; 97] ∧
     [97; 98; 97] !! j = Some 97 ∧ 97 ∉ drop (S j) [97; 98; 97]).
Proof.
  apply (string_functions_correct [97; 98; 97; 0; 5] [97; 98; 97] [97; 99; 0] [97; 99] 1 97);
    [split; [set_solver|by eexists]|split; [set_solver|by eexists]|done..].
Defined.

(** a matcher with unconsumed text [rest] consumes a string exactly when
    [rest] starts with it, consumes it as a word exactly when in addition
    [rest] ends there or goes on with a white space, and
    [smatcher_consume_word] takes the longest prefix of [rest] without white
    space, failing exactly when that is empty; no operation moves past the end. *)
Theorem smatcher_consumes_prefixes self s cs :
  smatcher_wf self → cstr s cs → Z.of_nat (length cs) < 2 ^ 32 →
  smatcher_consume_str_if_match self s = Ok
    (if decide (cs `prefix_of` rest self)
     then (true, advance self (Z.of_nat (length cs))) else (false, self)) ∧
  smatcher_consume_word_if_match self s = Ok
    (if decide (cs `prefix_of` rest self) then
       if word_ends self cs then (true, advance self (Z.of_nat (length cs))) else (false, self)
     else (false, self)) ∧
  (∃ self', smatcher_consume_word self = Ok
     (if decide (word_of (rest self) = []) then None
      else Some (at_index self, Z.of_nat (length (word_of (rest self)))), self') ∧
    smatcher_wf self' ∧
    currentindex self' = currentindex self + Z.of_nat (length (word_of (rest self)))).
Proof.
  intros Hwf Hs Hl. split_and!.
  - by apply consume_str_ok.
  - by apply consume_word_if_match_ok.
  - destruct (consume_word_ok self Hwf) as (self' & E & Hw & _ & _ & Hi). by exists self'.
Qed.

(** "ab cd", at its start. *)
Definition demo_matcher : smatcher := Smatcher [97; 98; 32; 99; 100; 0] 5 0.

Lemma smatcher_consumes_prefixes_witness :
  smatcher_consume_str_if_match demo_matcher [97; 0] = Ok (true, advance demo_matcher 1) ∧
  smatcher_consume_word_if_match demo_matcher [97; 0] = Ok (false, demo_matcher) ∧
  (∃ self', smatcher_consume_word demo_matcher = Ok (Some (at_index demo_matcher, 2), self') ∧
    smatcher_wf self' ∧ currentindex self' = 2).
Proof.
  apply (smatcher_consumes_prefixes demo_matcher [97; 0] [97]);
    [by split|split; [set_solver|by eexists]|done].
Defined.

(** [smatcher_skip_whitespaces] does not look at the length of the text: on
    the slice "a " of "a  b" it moves past the end of the slice, and
    [smatcher_consume_str_if_match] then matches text outside of it, because
    its remaining-length computation wraps around. *)
Theorem smatcher_skip_leaves_slice :
  let text := [97; 32; 32; 98; 0] in
  ∃ self m0 m1 m2,
    smatcher_init text = Ok self ∧ smatcher_slice self 0 1 = Ok m0 ∧
    smatcher_consume_str_if_match m0 [97; 0] = Ok (true, m1) ∧
    smatcher_skip_whitespaces m1 = Ok m2 ∧
    len m2 = 2 ∧ currentindex m2 = 3 ∧
    ∃ m3, smatcher_consume_str_if_match m2 [98; 0] = Ok (true, m3) ∧ currentindex m3 = 4.
Proof. do 4 eexists. repeat (split; [vm_compute; reflexivity|]). eexists. by vm_compute. Qed.

(** [kstrcmp] subtracts characters as signed: a string whose first byte is
    0xc3 compares below "a", although 0xc3 is above 'a' as the unsigned
    characters the comparison is specified on. *)
Theorem kstrcmp_compares_signed_characters :
  let s := [s8 0xc3; 0] in let a := [97; 0] in
  ∃ r, kstrcmp s a = Ok r ∧ r < 0 ∧ u8 (s8 0xc3) > u8 97.
Proof. eexists. by vm_compute. Qed.
