(* ===== verification/Bst.v ===== *)
(** Self-balancing binary search trees (src/kernel/lib/bst.c,
    src/include/kernel/lib/bst.h): nodes with parent and child pointers, their
    heights and balance factors, insertion, removal and rotation. *)

From S2P Require Import Prelude.

(** ** Nodes and trees *)

Inductive BST_DIR := BST_DIR_LEFT | BST_DIR_RIGHT.

Definition opposite (dir : BST_DIR) : BST_DIR :=
  match dir with BST_DIR_LEFT => BST_DIR_RIGHT | BST_DIR_RIGHT => BST_DIR_LEFT end.

Record bst_node := BstNode {
  parent : Z; left : Z; right : Z; data : Z; key : Z; bf : Z; height : Z;
}.

Definition children (n : bst_node) (dir : BST_DIR) : Z :=
  match dir with BST_DIR_LEFT => left n | BST_DIR_RIGHT => right n end.

Definition with_parent (p : Z) (n : bst_node) : bst_node :=
  BstNode p (left n) (right n) (data n) (key n) (bf n) (height n).
Definition with_child (dir : BST_DIR) (c : Z) (n : bst_node) : bst_node :=
  match dir with
  | BST_DIR_LEFT => BstNode (parent n) c (right n) (data n) (key n) (bf n) (height n)
  | BST_DIR_RIGHT => BstNode (parent n) (left n) c (data n) (key n) (bf n) (height n)
  end.
Definition with_bf (b : Z) (n : bst_node) : bst_node :=
  BstNode (parent n) (left n) (right n) (data n) (key n) b (height n).
Definition with_height (h : Z) (n : bst_node) : bst_node :=
  BstNode (parent n) (left n) (right n) (data n) (key n) (bf n) h.
Definition with_data (d : Z) (n : bst_node) : bst_node :=
  BstNode (parent n) (left n) (right n) d (key n) (bf n) (height n).
Definition with_key (k : Z) (n : bst_node) : bst_node :=
  BstNode (parent n) (left n) (right n) (data n) k (bf n) (height n).

(** The root pointer, and the nodes by their addresses; 0 is the null
    pointer. *)
Record bst := Bst { root : Z; nodes : gmap Z bst_node }.

Definition node_at (a : Z) : M bst bst_node := λ s,
  match nodes s !! a with Some n => Ok (n, s) | None => Fault Bad_pointer end.
Definition modify (a : Z) (f : bst_node → bst_node) : M bst unit := λ s,
  match nodes s !! a with
  | Some n => Ok (tt, Bst (root s) (<[a := f n]> (nodes s)))
  | None => Fault Bad_pointer
  end.
Definition get_root : M bst Z := λ s, Ok (root s, s).
Definition set_root (r : Z) : M bst unit := λ s, Ok (tt, Bst r (nodes s)).

(** The iterations of a loop along the links of a tree; no path is longer
    than the number of nodes. *)
Definition fuel_of (s : bst) : nat := S (size (nodes s)).
Definition with_fuel {A} (f : nat → M bst A) : M bst A := λ s, f (fuel_of s) s.

(** ** Checking the tree *)

Definition CHECK_FLAG_NO_HEIGHT : Z := 1.
Definition CHECK_FLAG_NO_BF : Z := 2.

(** One more than the height of a child, or 0. *)
Definition height_via (height_of : Z → M bst Z) (child : Z) : M bst Z :=
  if negb (child =? 0) then h ← height_of child; mret (h + 1) else mret 0.

Fixpoint height_of_subtree (fuel : nat) (subtree_root : Z) : M bst Z :=
  match fuel with
  | O => throw No_fuel
  | S fuel =>
      n ← node_at subtree_root;
      lheight ← height_via (height_of_subtree fuel) (left n);
      rheight ← height_via (height_of_subtree fuel) (right n);
      mret (if lheight <? rheight then rheight else lheight)
  end.

Definition balence_factor (fuel : nat) (subtree_root : Z) : M bst Z :=
  n ← node_at subtree_root;
  lheight ← height_via (height_of_subtree fuel) (left n);
  rheight ← height_via (height_of_subtree fuel) (right n);
  mret (lheight - rheight).

Fixpoint check_subtree_from (fuel : nat) (root parent_node flags : Z) : M bst unit :=
  if root =? 0 then mret tt
  else match fuel with
  | O => throw No_fuel
  | S fuel =>
      n ← node_at root;
      failed ← (if negb (parent n =? parent_node) then
                  if negb (parent_node =? 0) then
                    _ ← node_at parent_node;
                    _ ← (if negb (parent n =? 0) then _ ← node_at (parent n); mret tt else mret tt);
                    mret true
                  else throw Assert_failed
                else mret false);
      failed ← (if Z.land flags CHECK_FLAG_NO_HEIGHT =? 0 then
                  expectedheight ← height_of_subtree (S fuel) root;
                  mret (failed || negb (height n =? expectedheight))
                else mret failed);
      failed ← (if Z.land flags CHECK_FLAG_NO_BF =? 0 then
                  expected_bf ← balence_factor (S fuel) root;
                  mret (failed || negb (bf n =? expected_bf))
                else mret failed);
      _ ← (if failed : bool then throw Panic else mret tt);
      _ ← check_subtree_from fuel (left n) root flags;
      check_subtree_from fuel (right n) root flags
  end.

Definition check_subtree (root parent_node flags : Z) : M bst unit :=
  with_fuel (λ fuel, check_subtree_from fuel root parent_node flags).

Definition check_tree (flags : Z) : M bst unit :=
  root ← get_root;
  check_subtree root 0 flags.

(** ** Walking the tree *)

(** [bst_min_of] and [bst_max_of]: as far as possible in a direction. *)
Fixpoint extreme_of (dir : BST_DIR) (fuel : nat) (result current : Z) : M bst Z :=
  if current =? 0 then mret result
  else match fuel with
  | O => throw No_fuel
  | S fuel => n ← node_at current; extreme_of dir fuel current (children n dir)
  end.
Definition bst_min_of (subtree_root : Z) : M bst Z :=
  with_fuel (λ fuel, extreme_of BST_DIR_LEFT fuel 0 subtree_root).
Definition bst_max_of (subtree_root : Z) : M bst Z :=
  with_fuel (λ fuel, extreme_of BST_DIR_RIGHT fuel 0 subtree_root).

Definition bst_min_of_tree : M bst Z := root ← get_root; bst_min_of root.
Definition bst_max_of_tree : M bst Z := root ← get_root; bst_max_of root.

Definition bst_dir_in_parent (node : Z) : M bst BST_DIR :=
  n ← node_at node;
  if parent n =? 0 then throw Panic
  else
    p ← node_at (parent n);
    if left p =? node then mret BST_DIR_LEFT
    else if right p =? node then mret BST_DIR_RIGHT
    else throw Panic.

(** The loops of [bst_successor] and [bst_predecessor] up to the first
    ancestor with a greater, or smaller, key. *)
Fixpoint climb_until (stop : Z → bool) (fuel : nat) (current : Z) : M bst Z :=
  if current =? 0 then mret 0
  else match fuel with
  | O => throw No_fuel
  | S fuel =>
      c ← node_at current;
      if stop (key c) then mret current else climb_until stop fuel (parent c)
  end.

Definition bst_successor (node : Z) : M bst Z :=
  n ← node_at node;
  if right n =? 0 then
    result ← with_fuel (λ fuel, climb_until (λ k, key n <? k) fuel (parent n));
    n ← node_at node;
    _ ← check_subtree node (parent n) 0;
    mret result
  else bst_min_of (right n).

Definition bst_predecessor (node : Z) : M bst Z :=
  n ← node_at node;
  if left n =? 0 then
    result ← with_fuel (λ fuel, climb_until (λ k, k <? key n) fuel (parent n));
    if negb (result =? 0) then
      n ← node_at node;
      _ ← check_subtree node (parent n) 0;
      mret result
    else bst_max_of (left n)
  else bst_max_of (left n).

Fixpoint find_from (fuel : nat) (k : Z) (current : Z) : M bst Z :=
  if current =? 0 then _ ← check_tree 0; mret 0
  else match fuel with
  | O => throw No_fuel
  | S fuel =>
      n ← node_at current;
      if k <? key n then find_from fuel k (left n)
      else if key n <? k then find_from fuel k (right n)
      else _ ← check_tree 0; mret current
  end.
Definition bst_find_node (k : Z) : M bst Z :=
  _ ← check_tree 0;
  root ← get_root;
  with_fuel (λ fuel, find_from fuel k root).

(** ** Heights and balance factors *)

(** The heights of the children of a node, from their nodes, plus one. *)
Definition child_height (c : Z) : M bst Z :=
  if negb (c =? 0) then n ← node_at c; mret (height n + 1) else mret 0.

Definition update_height (current : Z) : M bst unit :=
  n ← node_at current;
  lheight ← child_height (left n);
  rheight ← child_height (right n);
  modify current (with_height (if lheight <? rheight then rheight else lheight)).

Definition update_bf (current : Z) : M bst unit :=
  n ← node_at current;
  lheight ← child_height (left n);
  rheight ← child_height (right n);
  modify current (with_bf (lheight - rheight)).

(** A loop over a node and its ancestors. *)
Fixpoint each_ancestor (body : Z → M bst unit) (fuel : nat) (current : Z) : M bst unit :=
  if current =? 0 then mret tt
  else match fuel with
  | O => throw No_fuel
  | S fuel =>
      _ ← body current;
      n ← node_at current;
      each_ancestor body fuel (parent n)
  end.

Definition bst_recalculate_height (subtree_root : Z) : M bst unit :=
  n ← node_at subtree_root;
  _ ← check_subtree subtree_root (parent n) (Z.lor CHECK_FLAG_NO_HEIGHT CHECK_FLAG_NO_BF);
  _ ← with_fuel (λ fuel, each_ancestor update_height fuel subtree_root);
  n ← node_at subtree_root;
  check_subtree subtree_root (parent n) CHECK_FLAG_NO_BF.

Fixpoint update_bfs_to (last : Z) (fuel : nat) (current : Z) : M bst unit :=
  match fuel with
  | O => throw No_fuel
  | S fuel =>
      _ ← update_bf current;
      if current =? last then mret tt
      else
        current ← bst_successor current;
        _ ← massert (negb (current =? 0));
        update_bfs_to last fuel current
  end.

Definition bst_recalculate_bf (subtree_root : Z) : M bst unit :=
  n ← node_at subtree_root;
  _ ← check_subtree subtree_root (parent n) CHECK_FLAG_NO_BF;
  current ← bst_min_of subtree_root;
  last ← bst_max_of subtree_root;
  _ ← with_fuel (λ fuel, update_bfs_to last fuel current);
  n ← node_at subtree_root;
  _ ← with_fuel (λ fuel, each_ancestor update_bf fuel (parent n));
  n ← node_at subtree_root;
  check_subtree subtree_root (parent n) 0.

Fixpoint update_bfs (fuel : nat) (current : Z) : M bst unit :=
  if current =? 0 then mret tt
  else match fuel with
  | O => throw No_fuel
  | S fuel =>
      _ ← update_bf current;
      current ← bst_successor current;
      update_bfs fuel current
  end.

Definition bst_recalculate_bf_tree : M bst unit :=
  _ ← check_tree CHECK_FLAG_NO_BF;
  current ← bst_min_of_tree;
  _ ← with_fuel (λ fuel, update_bfs fuel current);
  check_tree 0.

(** ** Rotation and rebalancing *)

Definition bst_rotate (subtree_root : Z) (dir : BST_DIR) : M bst unit :=
  _ ← check_tree 0;
  let oppositedir := opposite dir in
  let node_a := subtree_root in
  a ← node_at node_a;
  let node_b := children a oppositedir in
  if node_b =? 0 then throw Panic
  else
    b ← node_at node_b;
    let node_c := children b dir in
    let node_p := parent a in
    _ ← (if negb (node_p =? 0) then
           d ← bst_dir_in_parent node_a;
           _ ← modify node_p (with_child d node_b);
           modify node_b (with_parent node_p)
         else
           _ ← modify node_b (with_parent 0);
           set_root node_b);
    _ ← modify node_b (with_child dir node_a);
    _ ← modify node_a (with_parent node_b);
    _ ← modify node_a (with_child oppositedir node_c);
    _ ← (if negb (node_c =? 0) then modify node_c (with_parent node_a) else mret tt);
    _ ← bst_recalculate_height node_a;
    _ ← bst_recalculate_bf node_b;
    check_tree 0.

(** One iteration of [bst_check_and_rebalence]. *)
Definition rebalence_at (current : Z) : M bst unit :=
  c ← node_at current;
  if 1 <? bf c then
    let child := left c in
    _ ← massert (negb (child =? 0));
    ch ← node_at child;
    _ ← (if bf ch <? 0 then bst_rotate child BST_DIR_LEFT else mret tt);
    bst_rotate current BST_DIR_RIGHT
  else if bf c <? -1 then
    let child := right c in
    _ ← massert (negb (child =? 0));
    ch ← node_at child;
    _ ← (if 0 <? bf ch then bst_rotate child BST_DIR_RIGHT else mret tt);
    bst_rotate current BST_DIR_LEFT
  else mret tt.

Fixpoint rebalence_up (fuel : nat) (current : Z) : M bst unit :=
  if current =? 0 then mret tt
  else match fuel with
  | O => throw No_fuel
  | S fuel =>
      c ← node_at current;
      let oldparent := parent c in
      _ ← rebalence_at current;
      _ ← massert (negb (current =? oldparent));
      rebalence_up fuel oldparent
  end.

Definition bst_check_and_rebalence (startnode : Z) : M bst unit :=
  _ ← check_tree 0;
  _ ← with_fuel (λ fuel, rebalence_up fuel startnode);
  check_tree 0.

(** ** Insertion *)

(** The loop down to where the key belongs: the parent there, and the
    direction. *)
Fixpoint insert_position (k : Z) (fuel : nat) (insertparent : Z) (childindex : BST_DIR) (current : Z) : M bst (Z * BST_DIR) :=
  if current =? 0 then mret (insertparent, childindex)
  else match fuel with
  | O => throw No_fuel
  | S fuel =>
      c ← node_at current;
      if k <? key c then insert_position k fuel current BST_DIR_LEFT (left c)
      else if key c <? k then insert_position k fuel current BST_DIR_RIGHT (right c)
      else throw Panic
  end.

Definition bst_insert_node_unbalenced (node k d : Z) : M bst unit :=
  _ ← check_tree 0;
  _ ← modify node (with_child BST_DIR_LEFT 0);
  _ ← modify node (with_child BST_DIR_RIGHT 0);
  _ ← modify node (with_bf 0);
  _ ← modify node (with_data d);
  _ ← modify node (with_key k);
  current ← get_root;
  if current =? 0 then
    _ ← set_root node;
    _ ← modify node (with_parent 0);
    check_tree 0
  else
    '(insertparent, childindex) ← with_fuel (λ fuel, insert_position k fuel 0 BST_DIR_LEFT current);
    _ ← modify insertparent (with_child childindex node);
    _ ← modify node (with_parent insertparent);
    _ ← (if negb (insertparent =? 0) then
           _ ← bst_recalculate_height insertparent;
           bst_recalculate_bf insertparent
         else mret tt);
    check_tree 0.

Definition bst_insert_node (node k d : Z) : M bst unit :=
  _ ← check_tree 0;
  _ ← bst_insert_node_unbalenced node k d;
  n ← node_at node;
  _ ← (if negb (parent n =? 0) then bst_check_and_rebalence (parent n) else mret tt);
  check_tree 0.

(** ** Removal *)

Definition remove_terminal_node (node : Z) : M bst unit :=
  n ← node_at node;
  if negb (parent n =? 0) then
    d ← bst_dir_in_parent node;
    modify (parent n) (with_child d 0)
  else
    r ← get_root;
    _ ← massert (r =? node);
    set_root 0.

(** [remove_node_with_left_child] and [remove_node_with_right_child]. *)
Definition remove_node_with_child (dir : BST_DIR) (node : Z) : M bst unit :=
  n ← node_at node;
  if negb (parent n =? 0) then
    d ← bst_dir_in_parent node;
    _ ← modify (parent n) (with_child d (children n dir));
    modify (children n dir) (with_parent (parent n))
  else
    _ ← modify (children n dir) (with_parent 0);
    r ← get_root;
    _ ← massert (r =? node);
    set_root (children n dir).

Definition remove_node_with_both_children (node : Z) : M bst unit :=
  n ← node_at node;
  replacement ← bst_max_of (left n);
  _ ← massert (negb (replacement =? 0));
  r ← node_at replacement;
  _ ← massert (negb (parent r =? 0));
  let old_parent := parent r in
  d ← bst_dir_in_parent replacement;
  _ ← modify (parent r) (with_child d 0);
  n ← node_at node;
  _ ← (if negb (parent n =? 0) then
         d ← bst_dir_in_parent node;
         modify (parent n) (with_child d replacement)
       else set_root replacement);
  n ← node_at node;
  _ ← modify replacement (with_parent (parent n));
  _ ← modify replacement (with_child BST_DIR_LEFT (left n));
  _ ← modify replacement (with_child BST_DIR_RIGHT (right n));
  r ← node_at replacement;
  _ ← (if negb (left r =? 0) then modify (left r) (with_parent replacement) else mret tt);
  _ ← (if negb (right r =? 0) then modify (right r) (with_parent replacement) else mret tt);
  _ ← (if negb (old_parent =? node) then bst_recalculate_height old_parent
       else bst_recalculate_height replacement);
  bst_recalculate_bf replacement.

Definition bst_remove_node_unbalenced (node : Z) : M bst unit :=
  _ ← check_tree 0;
  n ← node_at node;
  let parent_node := parent n in
  _ ← (if (left n =? 0) && (right n =? 0) then remove_terminal_node node
       else if negb (left n =? 0) && (right n =? 0) then remove_node_with_child BST_DIR_LEFT node
       else if (left n =? 0) && negb (right n =? 0) then remove_node_with_child BST_DIR_RIGHT node
       else remove_node_with_both_children node);
  _ ← (if negb (parent_node =? 0) then
         _ ← bst_recalculate_height parent_node;
         bst_recalculate_bf parent_node
       else mret tt);
  check_tree 0.

Definition bst_remove_node (node : Z) : M bst unit :=
  _ ← check_tree 0;
  _ ← bst_remove_node_unbalenced node;
  n ← node_at node;
  _ ← (if negb (parent n =? 0) then bst_check_and_rebalence (parent n) else mret tt);
  check_tree 0.
