(* ===== verification/BstTree.v ===== *)
(** Search trees and the stores that represent them: contexts, checks, walking
    in order, and the recalculation of heights and balance factors. *)
From stdpp Require Import sorting.
From S2P Require Import Prelude Bst.

(** * Trees and stores

    A [tree] is what a store represents; [Info]s list its nodes in order with
    the parent and the subtrees each must have. *)
Record cell := Cell { addr : Z; ckey : Z; cdata : Z }.
Inductive tree := E | T (l : tree) (c : cell) (r : tree).

Definition ptr (t : tree) : Z := match t with E => 0 | T _ c _ => addr c end.

(** The tree whose subtree in direction [d] is [t] and the other one [s]. *)
Definition mk (d : BST_DIR) (t : tree) (c : cell) (s : tree) : tree :=
  match d with BST_DIR_LEFT => T t c s | BST_DIR_RIGHT => T s c t end.

Fixpoint cells (t : tree) : list cell :=
  match t with E => [] | T l c r => cells l ++ c :: cells r end.

(** The height of a tree; a single node has height 0. *)
Fixpoint ht (t : tree) : Z :=
  match t with E => -1 | T l _ r => Z.max (ht l) (ht r) + 1 end.

Fixpoint avl (t : tree) : Prop :=
  match t with E => True | T l _ r => avl l ∧ avl r ∧ -1 ≤ ht l - ht r ≤ 1 end.

Definition sorted (t : tree) : Prop := StronglySorted Z.lt (ckey <$> cells t).

Record info := Info { iparent : Z; ileft : tree; icell : cell; iright : tree }.
Definition iaddr (i : info) : Z := addr (icell i).

Fixpoint infos (p : Z) (t : tree) : list info :=
  match t with E => [] | T l c r => infos (addr c) l ++ Info p l c r :: infos (addr c) r end.

Definition addrs (t : tree) : list Z := addr <$> cells t.

Definition linked (i : info) (n : bst_node) : Prop :=
  iaddr i ≠ 0 ∧ parent n = iparent i ∧ left n = ptr (ileft i) ∧ right n = ptr (iright i) ∧
  key n = ckey (icell i) ∧ data n = cdata (icell i).
Definition height_right (i : info) (n : bst_node) : Prop := height n = Z.max (ht (ileft i)) (ht (iright i)) + 1.
Definition bf_right (i : info) (n : bst_node) : Prop := bf n = ht (ileft i) - ht (iright i).

Abbreviation store := (gmap Z bst_node).

Definition holds (Q : info → bst_node → Prop) (m : store) (l : list info) : Prop :=
  ∀ i, i ∈ l → ∃ n, m !! iaddr i = Some n ∧ Q i n.

(** ** Contexts: a tree with a hole, from the hole up *)
Record frame := Fr { fdir : BST_DIR; fcell : cell; fsib : tree }.

Fixpoint plug (C : list frame) (t : tree) : tree :=
  match C with [] => t | f :: C => plug C (mk (fdir f) t (fcell f) (fsib f)) end.
Definition up (C : list frame) : Z := match C with [] => 0 | f :: _ => addr (fcell f) end.

Definition finfo (p : Z) (f : frame) (t : tree) : info :=
  match fdir f with
  | BST_DIR_LEFT => Info p t (fcell f) (fsib f)
  | BST_DIR_RIGHT => Info p (fsib f) (fcell f) t
  end.

(** The nodes of a context: those on the path, and those beside it. *)
Fixpoint path_infos (C : list frame) (t : tree) : list info :=
  match C with [] => [] | f :: C => finfo (up C) f t :: path_infos C (mk (fdir f) t (fcell f) (fsib f)) end.
Fixpoint side_infos (C : list frame) : list info :=
  match C with [] => [] | f :: C => infos (addr (fcell f)) (fsib f) ++ side_infos C end.

Fixpoint before (C : list frame) : list cell :=
  match C with
  | [] => []
  | f :: C => before C ++ match fdir f with BST_DIR_LEFT => [] | BST_DIR_RIGHT => cells (fsib f) ++ [fcell f] end
  end.
Fixpoint after (C : list frame) : list cell :=
  match C with
  | [] => []
  | f :: C => match fdir f with BST_DIR_LEFT => fcell f :: cells (fsib f) | BST_DIR_RIGHT => [] end ++ after C
  end.

Lemma opposite_involutive d : opposite (opposite d) = d.
Proof. by destruct d. Qed.

Lemma mk_opposite d t c s : mk (opposite d) t c s = mk d s c t.
Proof. by destruct d. Qed.

Lemma ptr_mk d t c s : ptr (mk d t c s) = addr c.
Proof. by destruct d. Qed.

Lemma ht_mk d t c s : ht (mk d t c s) = Z.max (ht t) (ht s) + 1.
Proof. destruct d; cbn; lia. Qed.

Lemma ht_ge t : -1 ≤ ht t.
Proof. induction t; cbn; lia. Qed.

Lemma infos_mk d p t c s :
  infos p (mk d t c s) ≡ₚ finfo p (Fr d c s) t :: infos (addr c) t ++ infos (addr c) s.
Proof.
  destruct d; cbn.
  - by rewrite Permutation_middle.
  - rewrite <- Permutation_middle. by rewrite Permutation_app_comm.
Qed.

Lemma infos_plug C t : infos 0 (plug C t) ≡ₚ infos (up C) t ++ path_infos C t ++ side_infos C.
Proof.
  revert t. induction C as [|f C IH]; intros t; [by rewrite app_nil_r|]. cbn [plug path_infos side_infos].
  rewrite IH. destruct f as [d c s]. cbn [fdir fcell fsib up]. rewrite infos_mk. solve_Permutation.
Qed.

Lemma cells_plug C t : cells (plug C t) = before C ++ cells t ++ after C.
Proof.
  revert t. induction C as [|[d c s] C IH]; intros t; [cbn; by rewrite app_nil_r|]. cbn [plug before after].
  rewrite IH. destruct d; cbn; by rewrite <- ?app_assoc.
Qed.

Lemma icells p t : icell <$> infos p t = cells t.
Proof. revert p. induction t as [|l IHl c r IHr]; intros p; [done|]. cbn. by rewrite fmap_app, IHl, fmap_cons, IHr. Qed.

Lemma iaddrs p t : iaddr <$> infos p t = addrs t.
Proof. unfold addrs. rewrite <- (icells p), <- list_fmap_compose. done. Qed.

(** ** Frames *)
Lemma holds_app Q m l l' : holds Q m (l ++ l') ↔ holds Q m l ∧ holds Q m l'.
Proof.
  unfold holds. split.
  - intros H. split; intros i Hi; apply H, elem_of_app; auto.
  - intros [H1 H2] i [Hi|Hi]%elem_of_app; auto.
Qed.

Lemma holds_cons Q m i l : holds Q m (i :: l) ↔ (∃ n, m !! iaddr i = Some n ∧ Q i n) ∧ holds Q m l.
Proof.
  unfold holds. split.
  - intros H. split; [apply H; by left|]. intros j Hj. apply H. by right.
  - intros [H1 H2] j [->|Hj]%elem_of_cons; auto.
Qed.

Lemma holds_nil Q m : holds Q m [].
Proof. by intros i ?%elem_of_nil. Qed.

#[export] Instance holds_Permutation Q m : Proper ((≡ₚ) ==> iff) (holds Q m).
Proof.
  intros l l' Hl. unfold holds. split; intros H i Hi; apply H; by (rewrite Hl || rewrite <- Hl).
Qed.

Lemma holds_frame Q m m' l : holds Q m l → (∀ a, a ∈ iaddr <$> l → m' !! a = m !! a) → holds Q m' l.
Proof.
  intros H Hm i Hi. destruct (H i Hi) as (n & Hn & HQ). exists n. split; [|done].
  rewrite Hm; [done|]. by apply list_elem_of_fmap_2.
Qed.

(** Changes of a field the predicate does not read. *)
Lemma holds_same {B} (f : bst_node → B) Q m m' l :
  (∀ i n n', f n = f n' → Q i n → Q i n') → (∀ a, f <$> m !! a = f <$> m' !! a) → holds Q m l → holds Q m' l.
Proof.
  intros HQ Hm H i Hi. destruct (H i Hi) as (n & Hn & Hq). specialize (Hm (iaddr i)). rewrite Hn in Hm. cbn in Hm.
  destruct (m' !! iaddr i) as [n'|]; [|done]. injection Hm as Hf. exists n'. split; [done|]. by eapply HQ.
Qed.

(** What links, keys and data are read from; with the height, or the balance
    factor. *)
Definition skel (n : bst_node) := (parent n, left n, right n, data n, key n).

Lemma linked_skel i n n' : skel n = skel n' → linked i n → linked i n'.
Proof. destruct n, n'. unfold skel, linked. cbn. intros [=]. naive_solver. Qed.

Lemma infos_in p t i : i ∈ infos p t → iaddr i ∈ addrs t.
Proof. intros Hi. rewrite <- (iaddrs p). by apply list_elem_of_fmap_2. Qed.

Lemma linked_size m p t : holds linked m (infos p t) → NoDup (addrs t) → (length (addrs t) ≤ size m)%nat.
Proof.
  intros H Hnd. rewrite <- (size_dom m), <- (size_list_to_set (C:=gset Z)) by done.
  apply subseteq_size. intros a Ha%elem_of_list_to_set. rewrite <- (iaddrs p) in Ha.
  apply list_elem_of_fmap in Ha as (i & -> & Hi). destruct (H i Hi) as (n & Hn & _). apply elem_of_dom. by eexists.
Qed.

Fixpoint depth (t : tree) : nat := match t with E => O | T l _ r => S (Nat.max (depth l) (depth r)) end.

Lemma depth_le t : (depth t ≤ length (addrs t))%nat.
Proof.
  unfold addrs. induction t as [|l IHl c r IHr]; cbn; [lia|]. rewrite fmap_app, length_app. cbn. lia.
Qed.

Lemma linked_null m p t : holds linked m (infos p t) → (ptr t =? 0) = match t with E => true | _ => false end.
Proof.
  destruct t as [|l c r]; [done|]. cbn [infos ptr]. rewrite holds_app, holds_cons.
  intros (_ & (n & _ & Hn & _) & _). by apply Z.eqb_neq.
Qed.

Lemma holds_T Q m p l c r : holds Q m (infos p (T l c r)) ↔
  (∃ n, m !! addr c = Some n ∧ Q (Info p l c r) n) ∧ holds Q m (infos (addr c) l) ∧ holds Q m (infos (addr c) r).
Proof. cbn. rewrite holds_app, holds_cons. cbn. naive_solver. Qed.

Lemma node_at_ok s a n : nodes s !! a = Some n → node_at a s = Ok (n, s).
Proof. intros H. unfold node_at. by rewrite H. Qed.

Lemma modify_ok s a f n : nodes s !! a = Some n → modify a f s = Ok (tt, Bst (root s) (<[a := f n]> (nodes s))).
Proof. intros H. unfold modify. by rewrite H. Qed.

(** ** Checking *)
Lemma height_via_ok s p t f : holds linked (nodes s) (infos p t) → (t ≠ E → f (ptr t) s = Ok (ht t, s)) →
  height_via f (ptr t) s = Ok (ht t + 1, s).
Proof.
  intros H Hf. unfold height_via. rewrite (linked_null _ _ _ H). destruct t; [done|]. cbn [negb].
  by rewrite (M_bind_step _ _ _ _ _ (Hf ltac:(done))).
Qed.

Lemma height_of_subtree_ok s fuel p t : holds linked (nodes s) (infos p t) → (depth t ≤ fuel)%nat → t ≠ E →
  height_of_subtree fuel (ptr t) s = Ok (ht t, s).
Proof.
  revert p t. induction fuel as [|fuel IH]; intros p [|l c r] H Hd Hne; try done; [cbn in Hd; lia|].
  apply holds_T in H as ((n & Hn & _ & _ & El & Er & _) & Hl & Hr). cbn in El, Er, Hd. cbn [ptr height_of_subtree].
  rewrite (M_bind_step _ _ _ n s) by by apply node_at_ok. rewrite El, Er.
  rewrite (M_bind_step _ _ _ _ _ (height_via_ok _ _ l _ Hl (IH _ _ Hl ltac:(lia)))).
  rewrite (M_bind_step _ _ _ _ _ (height_via_ok _ _ r _ Hr (IH _ _ Hr ltac:(lia)))).
  unfold mret, M_ret. do 2 f_equal. cbn. destruct (Z.ltb_spec (ht l + 1) (ht r + 1)); lia.
Qed.

Lemma balence_factor_ok s fuel p l c r : holds linked (nodes s) (infos p (T l c r)) → (depth (T l c r) ≤ fuel)%nat →
  balence_factor fuel (addr c) s = Ok (ht l - ht r, s).
Proof.
  intros H Hd. apply holds_T in H as ((n & Hn & _ & _ & El & Er & _) & Hl & Hr). cbn in El, Er, Hd. unfold balence_factor.
  rewrite (M_bind_step _ _ _ n s) by by apply node_at_ok. rewrite El, Er.
  rewrite (M_bind_step _ _ _ _ _ (height_via_ok _ _ l _ Hl (height_of_subtree_ok _ fuel _ _ Hl ltac:(lia)))).
  rewrite (M_bind_step _ _ _ _ _ (height_via_ok _ _ r _ Hr (height_of_subtree_ok _ fuel _ _ Hr ltac:(lia)))).
  unfold mret, M_ret. do 2 f_equal. lia.
Qed.

(** What a check with the given flags requires. *)
Definition checked (flags : Z) (m : store) (l : list info) : Prop :=
  holds linked m l ∧
  (Z.land flags CHECK_FLAG_NO_HEIGHT = 0 → holds height_right m l) ∧
  (Z.land flags CHECK_FLAG_NO_BF = 0 → holds bf_right m l).

Lemma checked_app flags m l l' : checked flags m (l ++ l') ↔ checked flags m l ∧ checked flags m l'.
Proof. unfold checked. rewrite !holds_app. naive_solver. Qed.

Lemma check_subtree_from_ok s flags fuel p t : checked flags (nodes s) (infos p t) → (depth t ≤ fuel)%nat →
  check_subtree_from fuel (ptr t) p flags s = Ok (tt, s).
Proof.
  revert p t. induction fuel as [|fuel IH]; intros p [|l c r] H Hd; try done; [cbn in Hd; lia|].
  pose proof H as (Hlink & Hh & Hb). pose proof Hlink as Hlink'.
  apply holds_T in Hlink' as ((n & Hn & Hq) & _). destruct Hq as (Hz & Ep & El & Er & _). cbn in Hz, Ep, El, Er.
  change (infos p (T l c r)) with (infos (addr c) l ++ [Info p l c r] ++ infos (addr c) r) in H.
  rewrite !checked_app in H. destruct H as (Hl & _ & Hr). cbn [depth] in Hd.
  cbn [ptr check_subtree_from]. destruct (Z.eqb_spec (addr c) 0); [done|].
  rewrite (M_bind_step _ _ _ n s) by by apply node_at_ok. rewrite Ep, Z.eqb_refl. cbn [negb].
  rewrite (M_bind_step _ _ _ false s) by done.
  rewrite (M_bind_step _ _ _ false s).
  2: { destruct (Z.eqb_spec (Z.land flags CHECK_FLAG_NO_HEIGHT) 0) as [E0|]; [|done].
    rewrite (M_bind_step _ _ _ _ _ (height_of_subtree_ok s (S fuel) p (T l c r) Hlink ltac:(cbn; lia) ltac:(done))).
    specialize (Hh E0). apply holds_T in Hh as ((n' & Hn' & Hq) & _). unfold height_right in Hq. cbn in Hn', Hq.
    simplify_eq. cbn [ht orb]. by rewrite Hq, Z.eqb_refl. }
  rewrite (M_bind_step _ _ _ false s).
  2: { destruct (Z.eqb_spec (Z.land flags CHECK_FLAG_NO_BF) 0) as [E0|]; [|done].
    rewrite (M_bind_step _ _ _ _ _ (balence_factor_ok s (S fuel) p l c r Hlink ltac:(cbn; lia))).
    specialize (Hb E0). apply holds_T in Hb as ((n' & Hn' & Hq) & _). unfold bf_right in Hq. cbn in Hn', Hq.
    simplify_eq. cbn [orb]. by rewrite Hq, Z.eqb_refl. }
  rewrite (M_bind_step _ _ _ tt s) by done. rewrite El, Er.
  rewrite (M_bind_step _ _ _ tt s) by (apply IH; [done|lia]). apply IH; [done|lia].
Qed.

Lemma fuel_enough s p t : holds linked (nodes s) (infos p t) → NoDup (addrs t) → (depth t < fuel_of s)%nat.
Proof. intros H Hnd. pose proof (linked_size _ _ _ H Hnd). pose proof (depth_le t). unfold fuel_of. lia. Qed.

Lemma check_subtree_ok s flags p t : checked flags (nodes s) (infos p t) → NoDup (addrs t) →
  check_subtree (ptr t) p flags s = Ok (tt, s).
Proof.
  intros H Hnd. apply check_subtree_from_ok; [done|]. pose proof (fuel_enough s p t (proj1 H) Hnd). lia.
Qed.

(** A tree a store represents, with the heights and balance factors. *)
Record represents (s : bst) (t : tree) : Prop := {
  rep_root : root s = ptr t;
  rep_nodup : NoDup (addrs t);
  rep_linked : holds linked (nodes s) (infos 0 t);
  rep_heights : holds height_right (nodes s) (infos 0 t);
  rep_bfs : holds bf_right (nodes s) (infos 0 t);
}.

Lemma represents_checked flags s t : represents s t → checked flags (nodes s) (infos 0 t).
Proof. intros []. by split. Qed.

Lemma check_tree_ok s t flags : represents s t → check_tree flags s = Ok (tt, s).
Proof.
  intros H. unfold check_tree, get_root. rewrite (M_bind_step _ _ _ (root s) s) by done.
  rewrite (rep_root _ _ H). apply check_subtree_ok; [by apply represents_checked|apply H].
Qed.

(** ** Walking *)
Lemma extreme_of_ok s d fuel p t result : holds linked (nodes s) (infos p t) → (depth t ≤ fuel)%nat →
  extreme_of d fuel result (ptr t) s =
    Ok (match d with BST_DIR_LEFT => default result (addr <$> head (cells t))
        | BST_DIR_RIGHT => default result (addr <$> last (cells t)) end, s).
Proof.
  revert p t result. induction fuel as [|fuel IH]; intros p [|l c r] result H Hd; try (by destruct d); [cbn in Hd; lia|].
  apply holds_T in H as ((n & Hn & Hz & _ & El & Er & _) & Hl & Hr). cbn in El, Er, Hz, Hd. cbn [ptr extreme_of].
  destruct (Z.eqb_spec (addr c) 0); [done|].
  rewrite (M_bind_step _ _ _ n s) by by apply node_at_ok. destruct d; cbn [children].
  - rewrite El, (IH _ l) by (done || lia). do 2 f_equal. cbn. by destruct (cells l).
  - rewrite Er, (IH _ r) by (done || lia). do 2 f_equal. cbn. rewrite last_app, last_cons.
    by destruct (last (cells r)).
Qed.

Lemma bst_min_of_ok s p t : holds linked (nodes s) (infos p t) → NoDup (addrs t) →
  bst_min_of (ptr t) s = Ok (default 0 (addr <$> head (cells t)), s).
Proof.
  intros H Hnd. pose proof (fuel_enough s p t H Hnd). apply (extreme_of_ok s BST_DIR_LEFT _ p t); [done|lia].
Qed.

Lemma bst_max_of_ok s p t : holds linked (nodes s) (infos p t) → NoDup (addrs t) →
  bst_max_of (ptr t) s = Ok (default 0 (addr <$> last (cells t)), s).
Proof.
  intros H Hnd. pose proof (fuel_enough s p t H Hnd). apply (extreme_of_ok s BST_DIR_RIGHT _ p t); [done|lia].
Qed.

(** The keys on the path to a hole are on the sides of the keys there. *)
Definition path_sorted (k : Z) (C : list frame) : Prop :=
  Forall (λ f, match fdir f with BST_DIR_LEFT => k < ckey (fcell f) | BST_DIR_RIGHT => ckey (fcell f) < k end) C.

Lemma sorted_app (l l' : list Z) : StronglySorted Z.lt (l ++ l') ↔
  StronglySorted Z.lt l ∧ StronglySorted Z.lt l' ∧ ∀ x y, x ∈ l → y ∈ l' → x < y.
Proof.
  induction l as [|a l IH]; cbn.
  { split; [intros H; split_and!; [constructor|done|by intros ?? ?%elem_of_nil]|by intros (_ & H & _)]. }
  split.
  - intros [Hs Hf]%StronglySorted_inv. apply IH in Hs as (H1 & H2 & H3). rewrite Forall_app, !Forall_forall in Hf.
    destruct Hf as [Hf1 Hf2]. split_and!; [constructor; [done|by apply Forall_forall]|done|].
    intros x y [->|Hx]%elem_of_cons Hy; [by apply Hf2|by apply H3].
  - intros ([H1 H2]%StronglySorted_inv & H3 & H4). constructor.
    + apply IH. split_and!; [done|done|]. intros x y Hx Hy. apply H4; [by right|done].
    + rewrite Forall_app. split; [done|]. apply Forall_forall. intros y Hy. apply H4; [by left|done].
Qed.

Lemma plug_path_sorted C t c : sorted (plug C t) → c ∈ cells t → path_sorted (ckey c) C.
Proof.
  unfold sorted. rewrite cells_plug, !fmap_app, !sorted_app. intros (_ & (_ & _ & Ha) & Hb) Hc.
  assert (∀ x, x ∈ before C → ckey x < ckey c) as Hbef.
  { intros x Hx. apply Hb; [by apply list_elem_of_fmap_2|]. apply elem_of_app. left. by apply list_elem_of_fmap_2. }
  assert (∀ x, x ∈ after C → ckey c < ckey x) as Haft.
  { intros x Hx. apply Ha; by apply list_elem_of_fmap_2. }
  clear Ha Hb Hc t. induction C as [|[d c' s] C IH]; [constructor|]. cbn in *. constructor.
  - destruct d; cbn.
    + apply Haft. by left.
    + apply Hbef. apply elem_of_app. right. apply elem_of_app. right. by left.
  - apply IH; intros x Hx; [apply Hbef|apply Haft]; apply elem_of_app; [by left|by right].
Qed.

Lemma length_plug C t : (length C + length (addrs t) ≤ length (addrs (plug C t)))%nat.
Proof.
  revert t. induction C as [|[d c s] C IH]; intros t; [done|]. cbn [plug fdir fcell fsib length].
  etrans; [|apply IH]. unfold addrs. destruct d; cbn; rewrite !length_fmap, length_app; cbn; lia.
Qed.

Lemma path_fuel s C t : holds linked (nodes s) (infos 0 (plug C t)) → NoDup (addrs (plug C t)) → (length C < fuel_of s)%nat.
Proof. intros H Hnd. pose proof (linked_size _ _ _ H Hnd). pose proof (length_plug C t). unfold fuel_of. lia. Qed.

Lemma linked_fields i n : linked i n → iaddr i ≠ 0 ∧ parent n = iparent i ∧ key n = ckey (icell i).
Proof. unfold linked. naive_solver. Qed.

Lemma finfo_fields p f t : iaddr (finfo p f t) = addr (fcell f) ∧ iparent (finfo p f t) = p ∧ icell (finfo p f t) = fcell f.
Proof. unfold finfo, iaddr. by destruct (fdir f). Qed.

Lemma path_cons Q m f C t : holds Q m (path_infos (f :: C) t) ↔
  (∃ n, m !! addr (fcell f) = Some n ∧ Q (finfo (up C) f t) n) ∧ holds Q m (path_infos C (mk (fdir f) t (fcell f) (fsib f))).
Proof. cbn [path_infos]. rewrite holds_cons. by rewrite (proj1 (finfo_fields _ _ _)). Qed.

Lemma climb_until_ok s k fuel C t : holds linked (nodes s) (path_infos C t) → path_sorted k C → (length C ≤ fuel)%nat →
  climb_until (λ k', k <? k') fuel (up C) s = Ok (default 0 (addr <$> head (after C)), s).
Proof.
  revert C t. induction fuel as [|fuel IH]; intros [|[d c sib] C] t H Hk Hf; try done; [cbn in Hf; lia|].
  apply path_cons in H as ((n & Hn & Hq) & H). apply linked_fields in Hq as (Hz & Ep & Ek).
  rewrite (proj1 (finfo_fields _ _ _)) in Hz. rewrite (proj1 (proj2 (finfo_fields _ _ _))) in Ep.
  rewrite (proj2 (proj2 (finfo_fields _ _ _))) in Ek. cbn [fcell fdir fsib] in *.
  apply Forall_cons in Hk as [Hk1 Hk2]. cbn in Hk1, Hf. cbn [up fcell climb_until].
  destruct (Z.eqb_spec (addr c) 0); [done|]. rewrite (M_bind_step _ _ _ n s) by by apply node_at_ok.
  rewrite Ek, Ep. destruct d; cbn [after fdir fcell fsib].
  - destruct (Z.ltb_spec k (ckey c)); [done|lia].
  - destruct (Z.ltb_spec k (ckey c)); [lia|]. cbn [app]. apply (IH C _ H Hk2). lia.
Qed.

(** Links, keys and data of a store for a whole tree. *)
Definition linked_tree (s : bst) (t : tree) : Prop :=
  root s = ptr t ∧ NoDup (addrs t) ∧ holds linked (nodes s) (infos 0 t).

Lemma linked_tree_plug s C t : linked_tree s (plug C t) →
  holds linked (nodes s) (infos (up C) t) ∧ holds linked (nodes s) (path_infos C t) ∧ holds linked (nodes s) (side_infos C) ∧
  NoDup (addrs t).
Proof.
  intros (_ & Hnd & H). rewrite infos_plug, !holds_app in H. destruct H as (H1 & H2 & H3). split_and!; try done.
  unfold addrs in *. rewrite cells_plug, !fmap_app in Hnd. apply NoDup_app in Hnd as (_ & _ & Hnd). by apply NoDup_app in Hnd as [? _].
Qed.

Lemma linked_tree_fuel s C t : linked_tree s (plug C t) → (length C < fuel_of s)%nat.
Proof. intros (_ & Hnd & H). by eapply path_fuel. Qed.

(** The successor of a node is the next one in order; the node must pass the
    check that is made on the way. *)
Lemma bst_successor_ok s C l c r : linked_tree s (plug C (T l c r)) → sorted (plug C (T l c r)) →
  (r = E → checked 0 (nodes s) (infos (up C) (T l c r))) →
  bst_successor (addr c) s = Ok (default 0 (addr <$> head (cells r ++ after C)), s).
Proof.
  intros Ht Hs Hc. destruct (linked_tree_plug _ _ _ Ht) as (H1 & H2 & _ & Hnd).
  pose proof (linked_tree_fuel _ _ _ Ht) as Hfuel. pose proof H1 as H1'.
  apply holds_T in H1' as ((n & Hn & Hz & Ep & El & Er & Ek & _) & _ & Hr). cbn in Hz, Ep, El, Er, Ek.
  unfold bst_successor. rewrite (M_bind_step _ _ _ n s) by by apply node_at_ok.
  rewrite Er, (linked_null _ _ _ Hr). destruct r as [|rl rc rr].
  - rewrite Ep, Ek. rewrite (M_bind_step _ _ _ (default 0 (addr <$> head (after C))) s).
    2: { apply (climb_until_ok s (ckey c) (fuel_of s) C _ H2); [|lia].
      apply (plug_path_sorted C (T l c E)); [done|]. apply elem_of_app. right. by left. }
    rewrite (M_bind_step _ _ _ n s) by by apply node_at_ok. rewrite Ep.
    rewrite (M_bind_step _ _ _ tt s); [done|]. apply (check_subtree_ok s 0 (up C) (T l c E)); [by apply Hc|done].
  - assert (NoDup (addrs (T rl rc rr))) as Hndr.
    { unfold addrs in *. change (cells (T l c ?r)) with (cells l ++ c :: cells r) in Hnd.
      rewrite fmap_app, fmap_cons in Hnd. apply NoDup_app in Hnd as (_ & _ & Hnd). by apply NoDup_cons in Hnd as [_ ?]. }
    rewrite (bst_min_of_ok s _ _ Hr Hndr). do 2 f_equal.
    destruct (cells (T rl rc rr)) eqn:E0; [|done]. cbn in E0. by apply app_nil in E0 as [_ ?].
Qed.

(** ** Updating heights and balance factors *)

Definition skel_h (n : bst_node) := (skel n, bf n).
Definition skel_b (n : bst_node) := (skel n, height n).

Lemma insert_same {B} (f : bst_node → B) (m : store) a n n' : m !! a = Some n → f n' = f n →
  ∀ x, f <$> m !! x = f <$> <[a := n']> m !! x.
Proof.
  intros Hn Hf x. destruct (decide (a = x)) as [<-|]; [|by rewrite lookup_insert_ne].
  rewrite lookup_insert_eq, Hn. cbn. by rewrite Hf.
Qed.

Lemma child_height_ok s p t : holds linked (nodes s) (infos p t) → holds height_right (nodes s) (infos p t) →
  child_height (ptr t) s = Ok (ht t + 1, s).
Proof.
  intros H Hh. unfold child_height. rewrite (linked_null _ _ _ H). destruct t as [|l c r]; [done|]. cbn [negb ptr].
  apply holds_T in Hh as ((n & Hn & Hq) & _). unfold height_right in Hq. cbn in Hn, Hq.
  rewrite (M_bind_step _ _ _ n s) by by apply node_at_ok. by rewrite Hq.
Qed.

Section update.
Context (s : bst) (p : Z) (l : tree) (c : cell) (r : tree) (n : bst_node).
Hypothesis Hn : nodes s !! addr c = Some n.
Hypothesis Hq : linked (Info p l c r) n.
Hypothesis Hl : holds linked (nodes s) (infos (addr c) l).
Hypothesis Hr : holds linked (nodes s) (infos (addr c) r).
Hypothesis Hhl : holds height_right (nodes s) (infos (addr c) l).
Hypothesis Hhr : holds height_right (nodes s) (infos (addr c) r).

Lemma update_height_ok :
  update_height (addr c) s = Ok (tt, Bst (root s) (<[addr c := with_height (ht (T l c r)) n]> (nodes s))).
Proof using All.
  destruct Hq as (_ & _ & El & Er & _). cbn in El, Er. unfold update_height.
  rewrite (M_bind_step _ _ _ n s) by by apply node_at_ok. rewrite El, Er.
  rewrite (M_bind_step _ _ _ _ _ (child_height_ok _ _ _ Hl Hhl)), (M_bind_step _ _ _ _ _ (child_height_ok _ _ _ Hr Hhr)).
  rewrite (modify_ok s _ _ n) by done. do 5 f_equal. cbn. destruct (Z.ltb_spec (ht l + 1) (ht r + 1)); lia.
Qed.

Lemma update_bf_ok :
  update_bf (addr c) s = Ok (tt, Bst (root s) (<[addr c := with_bf (ht l - ht r) n]> (nodes s))).
Proof using All.
  destruct Hq as (_ & _ & El & Er & _). cbn in El, Er. unfold update_bf.
  rewrite (M_bind_step _ _ _ n s) by by apply node_at_ok. rewrite El, Er.
  rewrite (M_bind_step _ _ _ _ _ (child_height_ok _ _ _ Hl Hhl)), (M_bind_step _ _ _ _ _ (child_height_ok _ _ _ Hr Hhr)).
  rewrite (modify_ok s _ _ n) by done. do 5 f_equal. lia.
Qed.
End update.

Lemma up_distinct f C t i : NoDup (addrs (plug (f :: C) t)) →
  i ∈ infos (addr (fcell f)) t ++ infos (addr (fcell f)) (fsib f) ++
      path_infos C (mk (fdir f) t (fcell f) (fsib f)) ++ side_infos C →
  iaddr i ≠ addr (fcell f).
Proof.
  intros Hnd Hi Heq. rewrite <- (iaddrs 0), infos_plug in Hnd. cbn [path_infos side_infos up] in Hnd.
  assert (infos (addr (fcell f)) t ++ (finfo (up C) f t :: path_infos C (mk (fdir f) t (fcell f) (fsib f))) ++
     infos (addr (fcell f)) (fsib f) ++ side_infos C ≡ₚ
     finfo (up C) f t :: infos (addr (fcell f)) t ++ infos (addr (fcell f)) (fsib f) ++
      path_infos C (mk (fdir f) t (fcell f) (fsib f)) ++ side_infos C) as Hp by solve_Permutation.
  rewrite Hp in Hnd. cbn [fmap list_fmap] in Hnd. apply NoDup_cons in Hnd as [Hn _]. apply Hn.
  rewrite (proj1 (finfo_fields _ _ _)). rewrite <- Heq at 1. by apply list_elem_of_fmap_2.
Qed.

(** *** A loop up the ancestors of a hole that makes a property right at each
    node. *)
Section ancestors.
Context (body : Z → M bst unit) {B : Type} (proj : bst_node → B) (Q K : info → bst_node → Prop).
Hypothesis linked_proj : ∀ i n n', proj n = proj n' → linked i n → linked i n'.
Hypothesis K_proj : ∀ i n n', proj n = proj n' → K i n → K i n'.
Hypothesis body_ok : ∀ s p l c r n, nodes s !! addr c = Some n → linked (Info p l c r) n →
  holds linked (nodes s) (infos (addr c) l ++ infos (addr c) r) →
  holds Q (nodes s) (infos (addr c) l ++ infos (addr c) r) →
  holds K (nodes s) (infos (addr c) l ++ infos (addr c) r) →
  ∃ n', body (addr c) s = Ok (tt, Bst (root s) (<[addr c := n']> (nodes s))) ∧ proj n' = proj n ∧ Q (Info p l c r) n'.

Lemma each_ancestor_ok fuel C t s : (length C ≤ fuel)%nat → NoDup (addrs (plug C t)) →
  holds linked (nodes s) (infos 0 (plug C t)) → holds K (nodes s) (infos 0 (plug C t)) →
  holds Q (nodes s) (infos (up C) t ++ side_infos C) →
  ∃ m', each_ancestor body fuel (up C) s = Ok (tt, Bst (root s) m') ∧
    (∀ a, proj <$> nodes s !! a = proj <$> m' !! a) ∧ holds Q m' (infos 0 (plug C t)).
Proof using All.
  revert C t s. induction fuel as [|fuel IH]; intros [|[d c sib] C] t s Hf Hnd Hlink HK HQ; [|cbn in Hf; lia|..].
  1,2: exists (nodes s); split; [by destruct s|]; split; [done|]; by rewrite app_nil_r in HQ.
  pose proof Hlink as Hlink'. pose proof HK as HK'. rewrite infos_plug, !holds_app in Hlink', HK'.
  destruct Hlink' as (Hlt & Hlp & Hls), HK' as (HKt & _ & HKs). rewrite path_cons in Hlp. cbn [fdir fcell fsib side_infos up] in *.
  rewrite holds_app in Hls, HKs. rewrite !holds_app in HQ. destruct Hlp as [(n & Hn & Hq) Hlp], HQ as (HQt & HQs & HQr).
  destruct Hls as [Hls Hlr], HKs as [HKs HKr].
  pose proof (up_distinct (Fr d c sib) C t) as Hdist. cbn [fdir fcell fsib] in Hdist.
  assert (∃ n', body (addr c) s = Ok (tt, Bst (root s) (<[addr c := n']> (nodes s))) ∧ proj n' = proj n ∧ Q (finfo (up C) (Fr d c sib) t) n')
    as (n' & Eb & Ep & Hq').
  { destruct d; cbn [finfo fdir fcell fsib] in *; (apply (body_ok s _ _ _ _ n); rewrite ?holds_app; done). }
  set (s1 := Bst (root s) (<[addr c := n']> (nodes s))) in *.
  assert (∀ a, proj <$> nodes s !! a = proj <$> nodes s1 !! a) as Hsame by by apply insert_same with n.
  assert (∀ l, (∀ i, i ∈ l → iaddr i ≠ addr c) → holds Q (nodes s) l → holds Q (nodes s1) l) as Hframe.
  { intros l Hl HQl. apply (holds_frame Q (nodes s)); [done|]. intros a Ha. cbn. rewrite lookup_insert_ne; [done|].
    apply list_elem_of_fmap in Ha as (i & -> & Hi). by apply not_eq_sym, Hl. }
  destruct (IH C (mk d t c sib) s1) as (m' & E1 & Hm & HQ').
  - cbn in Hf. lia.
  - exact Hnd.
  - by eapply holds_same.
  - by eapply holds_same.
  - rewrite holds_app, infos_mk, holds_cons. split; [split|].
    + exists n'. rewrite (proj1 (finfo_fields _ _ _)). cbn. by rewrite lookup_insert_eq.
    + apply Hframe; [|by apply holds_app]. intros i Hi. apply Hdist; [done|]. rewrite !elem_of_app in *. naive_solver.
    + apply Hframe; [|done]. intros i Hi. apply Hdist; [done|]. rewrite !elem_of_app. naive_solver.
  - exists m'. split; [|split; [|exact HQ']].
    + cbn [each_ancestor]. pose proof Hq as Hq0. apply linked_fields in Hq0 as (Hz & Epar & _).
      rewrite (proj1 (finfo_fields _ _ _)) in Hz. rewrite (proj1 (proj2 (finfo_fields _ _ _))) in Epar. cbn [fcell] in Hz.
      destruct (Z.eqb_spec (addr c) 0); [done|]. rewrite (M_bind_step _ _ _ _ _ Eb). fold s1.
      assert (nodes s1 !! addr c = Some n') as Hn' by apply lookup_insert_eq.
      rewrite (M_bind_step _ _ _ n' s1) by by apply node_at_ok.
      assert (linked (finfo (up C) (Fr d c sib) t) n') as Hln' by (apply (linked_proj _ n); [by rewrite Ep|done]).
      apply linked_fields in Hln' as (_ & Epar' & _). rewrite (proj1 (proj2 (finfo_fields _ _ _))) in Epar'. rewrite Epar'. done.
    + intros a. by rewrite Hsame.
Qed.
End ancestors.

Lemma holds_plug Q m C t : holds Q m (infos 0 (plug C t)) ↔
  holds Q m (infos (up C) t) ∧ holds Q m (path_infos C t) ∧ holds Q m (side_infos C).
Proof. by rewrite infos_plug, !holds_app. Qed.

(** [m'] has the links, keys and data of [s]. *)
Lemma linked_tree_same {B} (f : bst_node → B) s m' t : (∀ i n n', f n = f n' → linked i n → linked i n') →
  (∀ a, f <$> nodes s !! a = f <$> m' !! a) → linked_tree s t → linked_tree (Bst (root s) m') t.
Proof. intros Hf Hm (H1 & H2 & H3). split_and!; [done|done|]. by eapply holds_same. Qed.

Lemma linked_skel_h i n n' : skel_h n = skel_h n' → linked i n → linked i n'.
Proof. intros H. apply linked_skel. exact (f_equal fst H). Qed.
Lemma linked_skel_b i n n' : skel_b n = skel_b n' → linked i n → linked i n'.
Proof. intros H. apply linked_skel. exact (f_equal fst H). Qed.
Lemma bf_skel_h i n n' : skel_h n = skel_h n' → bf_right i n → bf_right i n'.
Proof. intros H%(f_equal snd). unfold bf_right. cbn in H. by rewrite H. Qed.
Lemma height_skel_b i n n' : skel_b n = skel_b n' → height_right i n → height_right i n'.
Proof. intros H%(f_equal snd). unfold height_right. cbn in H. by rewrite H. Qed.

Lemma height_ancestors_ok fuel C t s : (length C ≤ fuel)%nat → linked_tree s (plug C t) →
  holds height_right (nodes s) (infos (up C) t ++ side_infos C) →
  ∃ m', each_ancestor update_height fuel (up C) s = Ok (tt, Bst (root s) m') ∧
    (∀ a, skel_h <$> nodes s !! a = skel_h <$> m' !! a) ∧ holds height_right m' (infos 0 (plug C t)).
Proof.
  intros Hf (_ & Hnd & Hlink) HQ.
  apply (each_ancestor_ok update_height skel_h height_right (λ _ _, True)); try done; [apply linked_skel_h| |].
  - intros s0 p l c r n Hn Hq Hlr HQlr _. rewrite holds_app in Hlr, HQlr. destruct Hlr, HQlr.
    eexists. split; [by apply (update_height_ok s0 p l c r)|done].
  - intros i Hi. destruct (Hlink i Hi) as (n & Hn & _). by exists n.
Qed.

Lemma bf_ancestors_ok fuel C t s : (length C ≤ fuel)%nat → linked_tree s (plug C t) →
  holds height_right (nodes s) (infos 0 (plug C t)) → holds bf_right (nodes s) (infos (up C) t ++ side_infos C) →
  ∃ m', each_ancestor update_bf fuel (up C) s = Ok (tt, Bst (root s) m') ∧
    (∀ a, skel_b <$> nodes s !! a = skel_b <$> m' !! a) ∧ holds bf_right m' (infos 0 (plug C t)).
Proof.
  intros Hf (_ & Hnd & Hlink) Hh HQ.
  apply (each_ancestor_ok update_bf skel_b bf_right height_right); try done; [apply linked_skel_b|apply height_skel_b|].
  intros s0 p l c r n Hn Hq Hlr _ Hhlr. rewrite holds_app in Hlr, Hhlr. destruct Hlr, Hhlr.
  eexists. split; [by apply (update_bf_ok s0 p l c r)|done].
Qed.

Lemma node_of s C l c r : linked_tree s (plug C (T l c r)) →
  ∃ n, nodes s !! addr c = Some n ∧ linked (Info (up C) l c r) n ∧ node_at (addr c) s = Ok (n, s).
Proof.
  intros H. destruct (linked_tree_plug _ _ _ H) as (H1 & _). apply holds_T in H1 as ((n & Hn & Hq) & _).
  exists n. split_and!; [done|done|by apply node_at_ok].
Qed.

Lemma bst_recalculate_height_ok s C l c r : linked_tree s (plug C (T l c r)) →
  holds height_right (nodes s) (infos (addr c) l ++ infos (addr c) r ++ side_infos C) →
  ∃ m', bst_recalculate_height (addr c) s = Ok (tt, Bst (root s) m') ∧
    (∀ a, skel_h <$> nodes s !! a = skel_h <$> m' !! a) ∧ holds height_right m' (infos 0 (plug C (T l c r))).
Proof.
  intros Ht Hh. destruct (linked_tree_plug _ _ _ Ht) as (H1 & _ & _ & Hnd).
  destruct (node_of _ _ _ _ _ Ht) as (n & _ & Hq & En).
  destruct (height_ancestors_ok (fuel_of s) (Fr BST_DIR_LEFT c r :: C) l s) as (m' & E1 & Hm & HQ); [|done|done|].
  { pose proof (linked_tree_fuel s (Fr BST_DIR_LEFT c r :: C) l Ht). lia. }
  exists m'. split; [|by split]. cbn [up fcell] in E1.
  pose proof (linked_tree_same _ _ _ _ linked_skel_h Hm Ht) as Ht'.
  destruct (node_of _ _ _ _ _ Ht') as (n' & _ & Hq' & En'). destruct (linked_tree_plug _ _ _ Ht') as (H1' & _).
  unfold bst_recalculate_height. rewrite (M_bind_step _ _ _ _ _ En).
  apply linked_fields in Hq as (_ & -> & _), Hq' as (_ & Ep' & _). cbn [iparent] in *.
  rewrite (M_bind_step _ _ _ tt s) by (by apply (check_subtree_ok s _ _ (T l c r))).
  rewrite (M_bind_step _ _ _ tt (Bst (root s) m')) by exact E1.
  rewrite (M_bind_step _ _ _ _ _ En'). rewrite Ep'.
  apply (check_subtree_ok _ _ _ (T l c r)); [|done]. split_and!; [done| |done]. intros _. by apply (holds_plug _ _ C (T l c r)) in HQ as [? _].
Qed.

(** *** The nodes of a subtree in order *)
Lemma plug_app C' C t : plug (C' ++ C) t = plug C (plug C' t).
Proof. revert t. induction C' as [|f C' IH]; intros t; [done|]. cbn. apply IH. Qed.

Lemma after_app C' C : after (C' ++ C) = after C' ++ after C.
Proof. induction C' as [|f C' IH]; [done|]. cbn. by rewrite IH, app_assoc. Qed.

Lemma focus p t pre x post : infos p t = pre ++ x :: post →
  ∃ C' pre0, t = plug C' (T (ileft x) (icell x) (iright x)) ∧ pre = pre0 ++ infos (iaddr x) (ileft x) ∧
    icell <$> post = cells (iright x) ++ after C'.
Proof.
  revert p pre post. induction t as [|l IHl c r IHr]; intros p pre post H; [by apply app_cons_not_nil in H|].
  cbn in H. apply app_eq_inv in H as [(k & El & Ek)|(k & Epre & Ek)].
  - destruct k as [|y k]; [|injection Ek as <- ->].
    + injection Ek as -> ->. rewrite app_nil_r in El. subst pre. exists [], []. cbn.
      split; [done|]. split; [done|]. by rewrite icells, app_nil_r.
    + destruct (IHl _ _ _ El) as (C' & pre0 & -> & -> & E2). exists (C' ++ [Fr BST_DIR_LEFT c r]), pre0.
      rewrite plug_app, after_app. split; [done|]. split; [done|].
      rewrite fmap_app, fmap_cons, E2, icells, <- app_assoc. cbn. by rewrite app_nil_r.
  - destruct k as [|y k]; [|injection Ek as <- Er].
    + injection Ek as <- <-. rewrite app_nil_r in Epre. subst pre. exists [], []. cbn.
      split; [done|]. split; [done|]. by rewrite icells, app_nil_r.
    + destruct (IHr _ _ _ Er) as (C' & pre0 & -> & -> & E2). exists (C' ++ [Fr BST_DIR_RIGHT c l]), (infos (addr c) l ++ Info p l c (plug C' (T (ileft x) (icell x) (iright x))) :: pre0).
      rewrite plug_app, after_app. split; [done|]. split; [by rewrite Epre, <- app_assoc|].
      rewrite E2. cbn. by rewrite app_nil_r.
Qed.

Lemma NoDup_plug C t : NoDup (addrs (plug C t)) → NoDup (addrs t).
Proof.
  unfold addrs. rewrite cells_plug, !fmap_app. intros Hnd.
  apply NoDup_app in Hnd as (_ & _ & Hnd). by apply NoDup_app in Hnd as [? _].
Qed.

(** Nodes with the right balance factor, whatever their parent is. *)
Lemma bf_right_parent m p p' t : holds bf_right m (infos p t) → holds bf_right m (infos p' t).
Proof. destruct t as [|l c r]; [done|]. rewrite !holds_T. done. Qed.
Lemma height_right_parent m p p' t : holds height_right m (infos p t) → holds height_right m (infos p' t).
Proof. destruct t as [|l c r]; [done|]. rewrite !holds_T. done. Qed.

Section update_bfs.
Context (C : list frame) (t : tree).

(** From the node [x] on, with what is before it in order done. *)
Lemma update_bfs_to_ok fuel s pre x post lc : infos (up C) t = pre ++ x :: post → (length post < fuel)%nat →
  linked_tree s (plug C t) → sorted (plug C t) → holds height_right (nodes s) (infos 0 (plug C t)) →
  last (cells t) = Some lc → holds bf_right (nodes s) pre →
  ∃ m', update_bfs_to (addr lc) fuel (iaddr x) s = Ok (tt, Bst (root s) m') ∧
    (∀ a, skel_b <$> nodes s !! a = skel_b <$> m' !! a) ∧ (∀ a, a ∉ addrs t → m' !! a = nodes s !! a) ∧
    holds bf_right m' (infos (up C) t).
Proof using All.
  revert s pre x post. induction fuel as [|fuel IH]; intros s pre x post Einf Hfuel Htree Hsort Hh Hlast Hpre; [lia|].
  destruct (focus _ _ _ _ _ Einf) as (C' & pre0 & Et & Epre & Epost).
  destruct x as [xp l c r]. cbn [ileft icell iright] in *. unfold iaddr in *. cbn [icell] in *.
  assert (plug C t = plug (C' ++ C) (T l c r)) as Eplug by by rewrite plug_app, <- Et.
  assert (linked_tree s (plug (C' ++ C) (T l c r))) as Htree' by by rewrite <- Eplug.
  destruct (linked_tree_plug _ _ _ Htree') as (Hlk & _ & _ & Hnd). pose proof Hlk as Hlk'.
  apply holds_T in Hlk' as ((n & Hn & Hq) & Hll & Hlr). cbn in Hn.
  pose proof Hh as Hh'. rewrite Eplug in Hh'. apply holds_plug in Hh' as (Hh' & _ & _).
  apply holds_T in Hh' as (_ & Hhl & Hhr).
  pose proof (update_bf_ok s _ l c r n Hn Hq Hll Hlr Hhl Hhr) as Eu.
  set (s1 := Bst (root s) (<[addr c := with_bf (ht l - ht r) n]> (nodes s))) in *.
  assert (∀ a, skel_b <$> nodes s !! a = skel_b <$> nodes s1 !! a) as Hsame by by apply insert_same with n.
  pose proof (linked_tree_same _ _ _ _ linked_skel_b Hsame Htree) as Htree1. fold s1 in Htree1. change (Bst (root s) (nodes s1)) with s1 in Htree1.
  assert (holds height_right (nodes s1) (infos 0 (plug C t))) as Hh1 by (eapply holds_same; [apply height_skel_b|exact Hsame|done]).
  assert (NoDup (iaddr <$> pre ++ Info xp l c r :: post)) as Hnd1.
  { rewrite <- Einf, iaddrs. apply (NoDup_plug C). apply Htree. }
  rewrite fmap_app, fmap_cons in Hnd1. apply NoDup_app in Hnd1 as (_ & Hnd1 & Hnd2). apply NoDup_cons in Hnd2 as [Hnd2 Hnd3].
  assert (holds bf_right (nodes s1) (pre ++ [Info xp l c r])) as Hpre1.
  { apply holds_app. split.
    - apply (holds_frame _ (nodes s)); [done|]. intros a Ha. cbn. rewrite lookup_insert_ne; [done|].
      intros <-. apply (Hnd1 _ Ha). by left.
    - apply holds_cons. split; [|apply holds_nil]. exists (with_bf (ht l - ht r) n). split; [cbn; apply lookup_insert_eq|done]. }
  assert (addr c ∈ addrs t) as Hin.
  { rewrite <- (iaddrs (up C)), Einf. apply list_elem_of_fmap. exists (Info xp l c r). split; [done|]. apply elem_of_app. right. by left. }
  cbn [update_bfs_to]. rewrite (M_bind_step _ _ _ _ _ Eu).
  assert (cells t = (icell <$> pre) ++ c :: (icell <$> post)) as Ecells by by rewrite <- (icells (up C)), Einf, fmap_app, fmap_cons.
  rewrite Ecells, last_app, last_cons in Hlast. destruct post as [|y post].
  - cbn in Hlast. injection Hlast as <-. rewrite Z.eqb_refl.
    exists (nodes s1). split; [done|]. split; [exact Hsame|]. split.
    + intros a Ha. cbn. rewrite lookup_insert_ne; [done|]. intros <-. done.
    + by rewrite Einf.
  - assert (∃ lc', last (icell <$> y :: post) = Some lc') as [lc' Elast].
    { destruct (last (icell <$> y :: post)) eqn:E0; [by eexists|]. by apply last_None in E0. }
    rewrite Elast in Hlast. injection Hlast as ->.
    destruct (Z.eqb_spec (addr c) (addr lc)) as [Heq|_].
    { exfalso. apply Hnd2. unfold iaddr at 1. cbn [icell]. rewrite Heq. apply last_Some_elem_of in Elast. apply list_elem_of_fmap in Elast as (z & -> & Hz).
      apply list_elem_of_fmap. by exists z. }
    rewrite Eplug in Htree1, Hsort, Hh1. rewrite (M_bind_step _ _ _ (addr (icell y)) s1).
    2: { rewrite (bst_successor_ok s1 _ _ _ _ Htree1 Hsort).
      - do 3 f_equal. rewrite after_app, app_assoc, <- Epost. done.
      - intros ->. destruct (linked_tree_plug _ _ _ Htree1) as (Hlk1 & _). split; [done|]. split; intros _.
        + by apply holds_plug in Hh1 as [? _].
        + apply holds_T. subst pre. rewrite !holds_app, holds_cons in Hpre1. destruct Hpre1 as ((_ & Hl) & Hc & _).
          split_and!; [exact Hc|exact Hl|apply holds_nil]. }
    rewrite <- Eplug in Htree1, Hsort, Hh1.
    assert (addr (icell y) ≠ 0) as Hy.
    { destruct Htree as (_ & _ & Hlk0). apply holds_plug in Hlk0 as (Hlk0 & _). rewrite Einf in Hlk0.
      destruct (Hlk0 y) as (ny & _ & Hqy); [apply elem_of_app; right; right; by left|]. by apply linked_fields in Hqy as [? _]. }
    rewrite (M_bind_step _ _ _ tt s1).
    2: { unfold massert. by destruct (Z.eqb_spec (addr (icell y)) 0). }
    destruct (IH s1 (pre ++ [Info xp l c r]) y post) as (m' & E1 & Hm & Hout & HQ); try done.
    + by rewrite Einf, <- app_assoc.
    + cbn in Hfuel. lia.
    + rewrite Ecells, last_app, last_cons, Elast. done.
    + exists m'. split; [exact E1|]. split; [intros a; by rewrite Hsame|]. split; [|done].
      intros a Ha. rewrite Hout by done. cbn. rewrite lookup_insert_ne; [done|]. intros <-. done.
Qed.
End update_bfs.

Lemma skel_b_trans (m1 m2 m3 : store) : (∀ a, skel_b <$> m1 !! a = skel_b <$> m2 !! a) →
  (∀ a, skel_b <$> m2 !! a = skel_b <$> m3 !! a) → ∀ a, skel_b <$> m1 !! a = skel_b <$> m3 !! a.
Proof. intros H1 H2 a. by rewrite H1. Qed.

Lemma bst_recalculate_bf_ok s C l c r : let t := T l c r in linked_tree s (plug C t) → sorted (plug C t) →
  holds height_right (nodes s) (infos 0 (plug C t)) → holds bf_right (nodes s) (side_infos C) →
  ∃ m', bst_recalculate_bf (addr c) s = Ok (tt, Bst (root s) m') ∧
    (∀ a, skel_b <$> nodes s !! a = skel_b <$> m' !! a) ∧ holds bf_right m' (infos 0 (plug C t)).
Proof.
  intros t Htree Hsort Hh Hside. destruct (linked_tree_plug _ _ _ Htree) as (H1 & _ & _ & Hnd).
  destruct (node_of _ _ _ _ _ Htree) as (n & _ & Hq & En). apply linked_fields in Hq as (_ & Ep & _). cbn [iparent] in Ep.
  unfold bst_recalculate_bf. rewrite (M_bind_step _ _ _ _ _ En). rewrite Ep.
  rewrite (M_bind_step _ _ _ tt s).
  2: { apply (check_subtree_ok s _ _ t); [|done]. split_and!; [done| |done]. intros _. by apply holds_plug in Hh as [? _]. }
  rewrite (M_bind_step _ _ _ _ _ (bst_min_of_ok s _ t H1 Hnd)).
  rewrite (M_bind_step _ _ _ _ _ (bst_max_of_ok s _ t H1 Hnd)).
  assert (∃ x post, infos (up C) t = x :: post) as (x & post & Einf).
  { destruct (infos (up C) t) eqn:E0; [|by eauto]. by destruct (app_cons_not_nil _ _ _ (eq_sym E0)). }
  assert (cells t = icell x :: (icell <$> post)) as Ecells by by rewrite <- (icells (up C)), Einf.
  assert (∃ lc, last (cells t) = Some lc) as [lc Elast].
  { destruct (last (cells t)) eqn:E0; [by eexists|]. apply last_None in E0. congruence. }
  assert (default 0 (addr <$> head (cells t)) = iaddr x) as -> by by rewrite Ecells. rewrite Elast.
  destruct (update_bfs_to_ok C t (fuel_of s) s [] x post lc) as (m1 & E1 & Hm1 & Hout & HQ1); try done.
  { pose proof (linked_size _ _ _ H1 Hnd) as Hsz. rewrite <- (iaddrs (up C)), Einf in Hsz. cbn in Hsz.
    rewrite length_fmap in Hsz. unfold fuel_of. lia. }
  { apply holds_nil. }
  rewrite (M_bind_step _ _ _ tt (Bst (root s) m1)) by exact E1.
  set (s1 := Bst (root s) m1) in *.
  pose proof (linked_tree_same _ _ _ _ linked_skel_b Hm1 Htree) as Htree1. fold s1 in Htree1.
  assert (holds height_right (nodes s1) (infos 0 (plug C t))) as Hh1 by (eapply holds_same; [apply height_skel_b|exact Hm1|done]).
  destruct (node_of _ _ _ _ _ Htree1) as (n1 & _ & Hq1 & En1). apply linked_fields in Hq1 as (_ & Ep1 & _). cbn [iparent] in Ep1.
  rewrite (M_bind_step _ _ _ _ _ En1). rewrite Ep1.
  destruct (bf_ancestors_ok (fuel_of s1) C t s1) as (m2 & E2 & Hm2 & HQ2); [|done|done| |].
  { pose proof (linked_tree_fuel s1 C t Htree1). lia. }
  { apply holds_app. split; [done|]. apply (holds_frame _ (nodes s)); [done|]. intros a Ha. apply Hout. intros Hin.
    destruct Htree as (_ & Hnd0 & _). rewrite <- (iaddrs 0), infos_plug, !fmap_app in Hnd0.
    apply NoDup_app in Hnd0 as (_ & Hnd0 & _). rewrite iaddrs in Hnd0. apply (Hnd0 a Hin), elem_of_app. by right. }
  rewrite (M_bind_step _ _ _ tt (Bst (root s1) m2)) by exact E2. change (root s1) with (root s).
  pose proof (linked_tree_same _ _ _ _ linked_skel_b Hm2 Htree1) as Htree2. change (root s1) with (root s) in Htree2.
  destruct (node_of _ _ _ _ _ Htree2) as (n2 & _ & Hq2 & En2). apply linked_fields in Hq2 as (_ & Ep2 & _). cbn [iparent] in Ep2.
  rewrite (M_bind_step _ _ _ _ _ En2). rewrite Ep2.
  pose proof (skel_b_trans _ _ _ Hm1 Hm2) as Hm.
  exists m2. split; [|by split]. apply (check_subtree_ok _ _ _ t); [|done].
  destruct (linked_tree_plug _ _ _ Htree2) as (H2 & _). split; [done|]. split; intros _.
  - assert (holds height_right m2 (infos 0 (plug C t))) as Hh2 by (eapply holds_same; [apply height_skel_b|exact Hm|done]).
    by apply holds_plug in Hh2 as [? _].
  - by apply holds_plug in HQ2 as [? _].
Qed.
