(* ===== verification/BstCorrect.v ===== *)
(** Rotation, rebalancing, lookup, insertion and removal of search trees are
    correct. *)
From stdpp Require Import sorting.
From S2P Require Import Prelude Bst BstTree.

(** ** Changing links *)

Lemma modify_alter s a f : is_Some (nodes s !! a) → modify a f s = Ok (tt, Bst (root s) (alter f a (nodes s))).
Proof.
  intros [n Hn]. unfold modify. rewrite Hn. do 3 f_equal. apply map_eq. intros x.
  destruct (decide (a = x)) as [<-|]; [by rewrite lookup_insert_eq, lookup_alter_eq, Hn|by rewrite lookup_insert_ne, lookup_alter_ne].
Qed.

Lemma alter_is_Some f a b (m : store) : is_Some (alter f a m !! b) ↔ is_Some (m !! b).
Proof. rewrite lookup_alter_is_Some. done. Qed.

Lemma alter_frame Q m f a l : a ∉ iaddr <$> l → holds Q m l → holds Q (alter f a m) l.
Proof. intros Ha H. apply (holds_frame _ m); [done|]. intros x Hx. rewrite lookup_alter_ne; [done|]. by intros <-. Qed.

(** The heights and balance factors a change of links keeps. *)
Definition measures (n : bst_node) := (bf n, height n).

Lemma alter_same {B} (g : bst_node → B) (m : store) f a : (∀ n, g (f n) = g n) → ∀ x, g <$> m !! x = g <$> alter f a m !! x.
Proof.
  intros Hf x. destruct (decide (a = x)) as [<-|]; [|by rewrite lookup_alter_ne].
  rewrite lookup_alter_eq. destruct (m !! a); cbn; [by rewrite Hf|done].
Qed.

Lemma height_measures i n n' : measures n = measures n' → height_right i n → height_right i n'.
Proof. intros H%(f_equal snd). unfold height_right. cbn in H. by rewrite H. Qed.
Lemma bf_measures i n n' : measures n = measures n' → bf_right i n → bf_right i n'.
Proof. intros H%(f_equal fst). unfold bf_right. cbn in H. by rewrite H. Qed.

(** The link of the hole of a context, in the parent or in the root. *)
Definition relink_hole (C : list frame) (q : Z) (m : store) : store :=
  match C with [] => m | f :: _ => alter (with_child (fdir f) q) (addr (fcell f)) m end.

Definition reparent (p q : Z) (m : store) : store := if q =? 0 then m else alter (with_parent p) q m.

Lemma reparent_frame Q m p q l : q ∉ iaddr <$> l → holds Q m l → holds Q (reparent p q m) l.
Proof. intros Ha H. unfold reparent. destruct (q =? 0); [done|by apply alter_frame]. Qed.

Lemma relink_hole_frame Q m C q l : (C ≠ [] → up C ∉ iaddr <$> l) → holds Q m l → holds Q (relink_hole C q m) l.
Proof. intros Ha H. destruct C; [done|]. apply alter_frame; [by apply Ha|done]. Qed.

Lemma reparent_ok m p0 p t : holds linked m (infos p0 t) → NoDup (addrs t) → holds linked (reparent p (ptr t) m) (infos p t).
Proof.
  intros H Hnd. unfold reparent. rewrite (linked_null _ _ _ H). destruct t as [|l c r]; [done|].
  apply holds_T in H as ((n & Hn & Hq) & Hl & Hr). cbn in Hn. cbn [ptr].
  unfold addrs in Hnd. cbn in Hnd. rewrite fmap_app in Hnd. apply NoDup_app in Hnd as (_ & Hnd1 & Hnd2).
  apply NoDup_cons in Hnd2 as [Hnd2 _]. apply holds_T. split_and!.
  - exists (with_parent p n). rewrite lookup_alter_eq, Hn. split; [done|]. revert Hq. unfold linked. cbn. naive_solver.
  - apply alter_frame; [|done]. rewrite iaddrs. intros Hin. apply (Hnd1 _ Hin). by left.
  - apply alter_frame; [|done]. by rewrite iaddrs.
Qed.

Lemma path_linked_ptr m C t t' : ptr t = ptr t' → holds linked m (path_infos C t) → holds linked m (path_infos C t').
Proof.
  revert t t'. induction C as [|f C IH]; intros t t' Hp H; [done|]. apply path_cons in H as ((n & Hn & Hq) & H).
  apply path_cons. split; [|eapply IH; [|exact H]; by rewrite !ptr_mk].
  exists n. split; [done|]. revert Hq. unfold linked, finfo, iaddr. destruct (fdir f); cbn; by rewrite Hp.
Qed.

Lemma ptr_plug C t t' : ptr t = ptr t' ∨ C ≠ [] → ptr (plug C t) = ptr (plug C t').
Proof.
  revert t t'. induction C as [|f C IH]; intros t t' [Hp|Hne]; try done; cbn; apply IH; left; by rewrite !ptr_mk.
Qed.

Lemma path_addrs C t t' : iaddr <$> path_infos C t = iaddr <$> path_infos C t'.
Proof.
  revert t t'. induction C as [|f C IH]; intros t t'; [done|]. cbn [path_infos fmap list_fmap].
  rewrite !(proj1 (finfo_fields _ _ _)). f_equal. apply IH.
Qed.

Lemma path_relink m C t t' : NoDup (iaddr <$> path_infos C t) → holds linked m (path_infos C t) →
  holds linked (relink_hole C (ptr t') m) (path_infos C t').
Proof.
  destruct C as [|f C]; [done|]. intros Hnd H. apply path_cons in H as ((n & Hn & Hq) & H).
  cbn [path_infos fmap list_fmap] in Hnd. rewrite (proj1 (finfo_fields _ _ _)) in Hnd. apply NoDup_cons in Hnd as [Hnd _].
  apply path_cons. cbn [relink_hole]. split.
  - exists (with_child (fdir f) (ptr t') n). rewrite lookup_alter_eq, Hn. split; [done|]. revert Hq.
    unfold linked, finfo, iaddr. destruct (fdir f); cbn; naive_solver.
  - apply alter_frame; [by rewrite (path_addrs C _ (mk (fdir f) t (fcell f) (fsib f)))|].
    eapply path_linked_ptr; [|exact H]. by rewrite !ptr_mk.
Qed.

(** The addresses of a tree: those at the hole, on the path and beside it. *)
Lemma NoDup_pieces C t : NoDup (addrs (plug C t)) →
  NoDup (addrs t ++ (iaddr <$> path_infos C t) ++ (iaddr <$> side_infos C)).
Proof. intros H. rewrite <- (iaddrs 0), infos_plug, !fmap_app in H. by rewrite <- (iaddrs (up C)). Qed.

Lemma up_in_path C t : C ≠ [] → up C ∈ iaddr <$> path_infos C t.
Proof. destruct C; [done|]. intros _. cbn. rewrite (proj1 (finfo_fields _ _ _)). by left. Qed.

(** Another subtree [t'] in the place of [t], whose links are right but for
    that of the hole. *)
Lemma replace_hole m C t t' : NoDup (addrs (plug C t)) → holds linked m (path_infos C t) → holds linked m (side_infos C) →
  holds linked (relink_hole C (ptr t') m) (infos (up C) t') → holds linked (relink_hole C (ptr t') m) (infos 0 (plug C t')).
Proof.
  intros Hnd Hp Hs Ht. apply NoDup_pieces, NoDup_app in Hnd as (_ & _ & Hnd). apply NoDup_app in Hnd as (Hnd1 & Hnd2 & _).
  apply holds_plug. split_and!; [done|by eapply path_relink|].
  apply relink_hole_frame; [|done]. intros Hne. apply Hnd2. by apply up_in_path.
Qed.

(** ** Rotation *)

Lemma bst_dir_in_parent_ok s f C l c r : linked_tree s (plug (f :: C) (T l c r)) →
  bst_dir_in_parent (addr c) s = Ok (fdir f, s).
Proof.
  intros Ht. destruct (node_of _ _ _ _ _ Ht) as (n & _ & Hq & En). destruct Hq as (_ & Ep & _). cbn in Ep.
  destruct (linked_tree_plug _ _ _ Ht) as (_ & Hp & _). apply path_cons in Hp as ((np & Hnp & Hqp) & _).
  pose proof (linked_fields _ _ Hqp) as (Hz & _). rewrite (proj1 (finfo_fields _ _ _)) in Hz.
  unfold bst_dir_in_parent. rewrite (M_bind_step _ _ _ _ _ En). rewrite Ep.
  destruct (Z.eqb_spec (addr (fcell f)) 0); [done|]. rewrite (M_bind_step _ _ _ np s) by by apply node_at_ok.
  destruct f as [[|] pc sib]; cbn [fdir fcell fsib] in *; destruct Hqp as (_ & _ & El & Er & _); cbn in El, Er.
  - by rewrite El, Z.eqb_refl.
  - rewrite Er, Z.eqb_refl. destruct (Z.eqb_spec (left np) (addr c)) as [E0|]; [|done]. exfalso. rewrite El in E0.
    destruct Ht as (_ & Hnd & Hlk). apply (NoDup_plug C (T sib pc (T l c r))) in Hnd.
    unfold addrs in Hnd. cbn in Hnd. rewrite fmap_app, fmap_cons in Hnd. apply NoDup_app in Hnd as (_ & Hnd & _).
    destruct sib as [|sl sc sr]; cbn in E0.
    + apply (holds_plug linked _ C (T E pc (T l c r))) in Hlk as (Hlk & _). apply holds_T in Hlk as (_ & _ & Hlk).
      apply holds_T in Hlk as ((n1 & _ & Hq1) & _). by destruct Hq1 as [? _].
    + apply (Hnd (addr c)).
      * rewrite <- E0. apply list_elem_of_fmap_2, elem_of_app. right. by left.
      * right. rewrite fmap_app. apply elem_of_app. right. by left.
Qed.

Lemma ptr_in t : t ≠ E → ptr t ∈ addrs t.
Proof. destruct t as [|l c r]; [done|]. intros _. apply (list_elem_of_fmap_2 addr _ c), elem_of_app. right. by left. Qed.

Lemma ptr_null_or_in t : ptr t = 0 ∨ ptr t ∈ addrs t.
Proof. destruct t as [|l c r]; [by left|right]. by apply ptr_in. Qed.

Lemma addrs_mk d t c s : addrs (mk d t c s) ≡ₚ addr c :: addrs t ++ addrs s.
Proof. unfold addrs. destruct d; cbn; rewrite fmap_app; cbn; solve_Permutation. Qed.

Lemma holds_mk Q m d p t c s : holds Q m (infos p (mk d t c s)) ↔
  (∃ n, m !! addr c = Some n ∧ Q (finfo p (Fr d c s) t) n) ∧ holds Q m (infos (addr c) t) ∧ holds Q m (infos (addr c) s).
Proof. rewrite infos_mk, holds_cons, holds_app. by rewrite (proj1 (finfo_fields _ _ _)). Qed.

Lemma linked_mk d p t c s n : linked (finfo p (Fr d c s) t) n ↔
  addr c ≠ 0 ∧ parent n = p ∧ children n d = ptr t ∧ children n (opposite d) = ptr s ∧ key n = ckey c ∧ data n = cdata c.
Proof. unfold linked, finfo, iaddr. destruct d; cbn; naive_solver. Qed.

(** What distinctness of the pieces of a rotation amounts to. *)
Lemma distinct_pieces (a b : Z) (LX LY LZ LP LS : list Z) : NoDup (a :: LX ++ b :: LY ++ LZ ++ LP ++ LS) →
  a ≠ b ∧ (∀ x, x ∈ LX ∨ x ∈ LY ∨ x ∈ LZ ∨ x ∈ LP ∨ x ∈ LS → x ≠ a ∧ x ≠ b) ∧
  (∀ x, x ∈ LX ∨ x ∈ LZ ∨ x ∈ LP ∨ x ∈ LS → x ∉ LY) ∧
  (∀ x, x ∈ LX ∨ x ∈ LY ∨ x ∈ LZ ∨ x ∈ LS → x ∉ LP) ∧ NoDup LY ∧ NoDup LP.
Proof.
  rewrite NoDup_cons. intros [Ha H]. apply NoDup_app in H as (_ & HX & H). apply NoDup_cons in H as [Hb H].
  apply NoDup_app in H as (HndY & HY & H). apply NoDup_app in H as (_ & HZ & H). apply NoDup_app in H as (HndP & HP & _).
  rewrite elem_of_app, elem_of_cons, !elem_of_app in Ha. rewrite !elem_of_app in Hb.
  setoid_rewrite elem_of_cons in HX. setoid_rewrite elem_of_app in HX. setoid_rewrite elem_of_app in HX. setoid_rewrite elem_of_app in HX.
  setoid_rewrite elem_of_app in HY. setoid_rewrite elem_of_app in HY.
  setoid_rewrite elem_of_app in HZ.
  split_and!; naive_solver.
Qed.

Lemma holds_nonzero m' l x : holds linked m' l → x ∈ iaddr <$> l → x ≠ 0.
Proof. intros Hl (i & -> & Hi)%list_elem_of_fmap. destruct (Hl i Hi) as (n & _ & Hq). by destruct Hq as [? _]. Qed.

Section rotate.
Context (C : list frame) (d : BST_DIR) (X : tree) (a : cell) (Y : tree) (b : cell) (Z' : tree).
Let A := mk d X a (mk d Y b Z').
Let A' := mk d (mk d X a Y) b Z'.

Definition rotated (m : store) : store :=
  reparent (addr a) (ptr Y)
    (alter (with_child (opposite d) (ptr Y)) (addr a) (alter (with_parent (addr b)) (addr a)
      (alter (with_child d (addr a)) (addr b) (alter (with_parent (up C)) (addr b) (relink_hole C (addr b) m))))).

Context (m : store).
Hypothesis Hnd : NoDup (addrs (plug C A)).
Hypothesis H : holds linked m (infos 0 (plug C A)).

Lemma rotate_pieces : addr a ≠ addr b ∧
  (∀ x, x ∈ addrs X ∨ x ∈ addrs Y ∨ x ∈ addrs Z' ∨ x ∈ iaddr <$> path_infos C A ∨ x ∈ iaddr <$> side_infos C → x ≠ addr a ∧ x ≠ addr b) ∧
  (∀ x, x ∈ addrs X ∨ x ∈ addrs Z' ∨ x ∈ iaddr <$> path_infos C A ∨ x ∈ iaddr <$> side_infos C → x ∉ addrs Y) ∧
  (∀ x, x ∈ addrs X ∨ x ∈ addrs Y ∨ x ∈ addrs Z' ∨ x ∈ iaddr <$> side_infos C → x ∉ iaddr <$> path_infos C A) ∧
  NoDup (addrs Y) ∧ NoDup (iaddr <$> path_infos C A).
Proof using All.
  apply distinct_pieces. pose proof (NoDup_pieces _ _ Hnd) as Hpc. unfold A in Hpc. rewrite !addrs_mk in Hpc.
  cbn [app] in Hpc. rewrite <- app_assoc in Hpc. cbn [app] in Hpc. by rewrite <- !app_assoc in Hpc.
Qed.

Lemma rotate_linked : (∃ n, m !! addr a = Some n ∧ linked (finfo (up C) (Fr d a (mk d Y b Z')) X) n) ∧
  (∃ n, m !! addr b = Some n ∧ linked (finfo (addr a) (Fr d b Z') Y) n) ∧
  holds linked m (infos (addr a) X) ∧ holds linked m (infos (addr b) Y) ∧ holds linked m (infos (addr b) Z') ∧
  holds linked m (path_infos C A) ∧ holds linked m (side_infos C).
Proof using All.
  apply holds_plug in H as (HA & Hp & Hs). apply holds_mk in HA as (Ha & HX & HB). by apply holds_mk in HB as (Hb & HY & HZ).
Qed.

Lemma rotated_other x : x ≠ addr a → x ≠ addr b → x ∉ addrs Y → x ≠ 0 → (C ≠ [] → x ≠ up C) → rotated m !! x = m !! x.
Proof using All.
  intros Ha Hb HY H0 Hc. unfold rotated, reparent.
  assert (relink_hole C (addr b) m !! x = m !! x) as Hr.
  { destruct C as [|f C0]; [done|]. cbn. rewrite lookup_alter_ne; [done|]. by apply not_eq_sym, Hc. }
  destruct (Z.eqb_spec (ptr Y) 0) as [|HY0]; [|rewrite (lookup_alter_ne _ _ (ptr Y))].
  1,2: by do 4 (rewrite lookup_alter_ne by done).
  intros <-. apply HY, ptr_in. by intros ->.
Qed.

Lemma rotated_frame l : (∀ x, x ∈ iaddr <$> l → x ≠ addr a ∧ x ≠ addr b ∧ x ∉ addrs Y ∧ (C ≠ [] → x ≠ up C)) →
  holds linked m l → holds linked (rotated m) l.
Proof using All.
  intros Hl Hm. apply (holds_frame _ m); [done|]. intros x Hx. destruct (Hl x Hx) as (? & ? & ? & ?).
  apply rotated_other; try done. by eapply holds_nonzero.
Qed.

Lemma rotated_at_a n : m !! addr a = Some n →
  rotated m !! addr a = Some (with_child (opposite d) (ptr Y) (with_parent (addr b) n)).
Proof using All.
  intros Hn. destruct rotate_pieces as (Hab & Hne & _ & _). unfold rotated, reparent.
  assert (relink_hole C (addr b) m !! addr a = Some n) as Hr.
  { destruct C as [|f C0]; [done|]. cbn. rewrite lookup_alter_ne; [done|]. apply (Hne (addr (fcell f))).
    do 3 right. left. by apply (up_in_path (f :: C0)). }
  assert (ptr Y = 0 ∨ ptr Y ≠ addr a) as HY.
  { destruct (ptr_null_or_in Y); [by left|right]. apply Hne. right. by left. }
  destruct (Z.eqb_spec (ptr Y) 0); [|rewrite (lookup_alter_ne _ _ (ptr Y)) by naive_solver].
  1,2: by rewrite !lookup_alter_eq, !lookup_alter_ne, Hr by done.
Qed.

Lemma rotated_at_b n : m !! addr b = Some n →
  rotated m !! addr b = Some (with_child d (addr a) (with_parent (up C) n)).
Proof using All.
  intros Hn. destruct rotate_pieces as (Hab & Hne & _ & _). unfold rotated, reparent.
  assert (relink_hole C (addr b) m !! addr b = Some n) as Hr.
  { destruct C as [|f C0]; [done|]. cbn. rewrite lookup_alter_ne; [done|]. apply (Hne (addr (fcell f))).
    do 3 right. left. by apply (up_in_path (f :: C0)). }
  assert (ptr Y = 0 ∨ ptr Y ≠ addr b) as HY.
  { destruct (ptr_null_or_in Y); [by left|right]. apply Hne. right. by left. }
  destruct (Z.eqb_spec (ptr Y) 0); [|rewrite (lookup_alter_ne _ _ (ptr Y)) by naive_solver].
  1,2: by rewrite !lookup_alter_ne, !lookup_alter_eq, Hr by done.
Qed.

Lemma rotated_subtree : holds linked (rotated m) (infos (up C) A').
Proof using All.
  destruct rotate_pieces as (Hab & Hne & HneY & HneP & HndY & _).
  destruct rotate_linked as ((na & Hna & Hqa) & (nb & Hnb & Hqb) & HX & HY & HZ & Hp & _).
  apply linked_mk in Hqa as (Ha0 & Epa & Eda & Eoa & Eka & Edata), Hqb as (Hb0 & Epb & Edb & Eob & Ekb & Edatb).
  assert (∀ x, x ∈ addrs X ∨ x ∈ addrs Z' → x ≠ addr a ∧ x ≠ addr b ∧ x ∉ addrs Y ∧ (C ≠ [] → x ≠ up C)) as Hout.
  { intros x Hx. destruct (Hne x) as [? ?]; [naive_solver|]. split_and!; [done|done|apply HneY; naive_solver|].
    intros HC ->. apply (HneP (up C)); [naive_solver|by apply up_in_path]. }
  apply holds_mk. split; [|split; [apply holds_mk; split; [|split]|]].
  - eexists. split; [by apply rotated_at_b|]. apply linked_mk. rewrite ptr_mk. destruct d; cbn in *; by split_and!.
  - eexists. split; [by apply rotated_at_a|]. apply linked_mk. destruct d; cbn in *; by split_and!.
  - apply rotated_frame; [|done]. intros x Hx. rewrite iaddrs in Hx. apply Hout. by left.
  - apply (reparent_ok _ (addr b)); [|done].
    assert (∀ x, x ∈ iaddr <$> infos (addr b) Y → x ≠ addr a ∧ x ≠ addr b ∧ (C ≠ [] → x ≠ up C)) as HoutY.
    { intros x Hx. rewrite iaddrs in Hx. destruct (Hne x) as [? ?]; [naive_solver|]. split_and!; [done|done|].
      intros HC ->. apply (HneP (up C)); [naive_solver|by apply up_in_path]. }
    do 4 (apply alter_frame; [intros Hin; naive_solver|]). apply relink_hole_frame; [intros HC Hin; naive_solver|done].
  - apply rotated_frame; [|done]. intros x Hx. rewrite iaddrs in Hx. apply Hout. by right.
Qed.

Lemma rotated_linked : holds linked (rotated m) (infos 0 (plug C A')).
Proof using All.
  destruct rotate_pieces as (Hab & Hne & HneY & HneP & HndY & HndP).
  destruct rotate_linked as (_ & _ & _ & _ & _ & Hp & Hs).
  apply holds_plug. split_and!; [apply rotated_subtree| |].
  - apply (holds_frame _ (relink_hole C (addr b) m)).
    { replace (addr b) with (ptr A') by apply ptr_mk. by apply (path_relink m C A A'). }
    intros x Hx. rewrite (path_addrs C A' A) in Hx. destruct (Hne x) as [? ?]; [naive_solver|].
    assert (x ∉ addrs Y) as HxY by (apply HneY; naive_solver). pose proof (holds_nonzero _ _ _ Hp Hx).
    unfold rotated, reparent. destruct (Z.eqb_spec (ptr Y) 0) as [|HY0]; [|rewrite (lookup_alter_ne _ _ (ptr Y))].
    1,2: by do 4 (rewrite lookup_alter_ne by done).
    intros <-. apply HxY, ptr_in. by intros ->.
  - apply rotated_frame; [|done]. intros x Hx. destruct (Hne x) as [? ?]; [naive_solver|].
    split_and!; [done|done|apply HneY; naive_solver|]. intros HC ->. apply (HneP (up C)); [naive_solver|by apply up_in_path].
Qed.
End rotate.

Lemma recalculate_height_mk s C d t c u : linked_tree s (plug C (mk d t c u)) →
  holds height_right (nodes s) (infos (addr c) t ++ infos (addr c) u ++ side_infos C) →
  ∃ m', bst_recalculate_height (addr c) s = Ok (tt, Bst (root s) m') ∧
    (∀ a, skel_h <$> nodes s !! a = skel_h <$> m' !! a) ∧ holds height_right m' (infos 0 (plug C (mk d t c u))).
Proof.
  intros Ht Hh. destruct d; apply bst_recalculate_height_ok; try done. revert Hh. rewrite !holds_app. naive_solver.
Qed.

Lemma recalculate_bf_mk s C d t c u : linked_tree s (plug C (mk d t c u)) → sorted (plug C (mk d t c u)) →
  holds height_right (nodes s) (infos 0 (plug C (mk d t c u))) → holds bf_right (nodes s) (side_infos C) →
  ∃ m', bst_recalculate_bf (addr c) s = Ok (tt, Bst (root s) m') ∧
    (∀ a, skel_b <$> nodes s !! a = skel_b <$> m' !! a) ∧ holds bf_right m' (infos 0 (plug C (mk d t c u))).
Proof. destruct d; apply bst_recalculate_bf_ok. Qed.

Lemma represents_linked s t : represents s t → linked_tree s t.
Proof. intros []. done. Qed.

Lemma skel_h_skel (m m' : store) : (∀ a, skel_h <$> m !! a = skel_h <$> m' !! a) → ∀ a, skel <$> m !! a = skel <$> m' !! a.
Proof. intros H a. specialize (H a). apply (f_equal (fmap fst)) in H. by rewrite <- !option_fmap_compose in H. Qed.
Lemma skel_b_skel (m m' : store) : (∀ a, skel_b <$> m !! a = skel_b <$> m' !! a) → ∀ a, skel <$> m !! a = skel <$> m' !! a.
Proof. intros H a. specialize (H a). apply (f_equal (fmap fst)) in H. by rewrite <- !option_fmap_compose in H. Qed.

(** Recalculating the heights from one node on and the balance factors from
    an ancestor of it on makes a tree right whose links are. *)
Lemma recalculated s C1 d1 t1 c1 u1 C2 d2 t2 c2 u2 T0 : T0 = plug C1 (mk d1 t1 c1 u1) → T0 = plug C2 (mk d2 t2 c2 u2) →
  linked_tree s T0 → sorted T0 →
  holds height_right (nodes s) (infos (addr c1) t1 ++ infos (addr c1) u1 ++ side_infos C1) →
  holds bf_right (nodes s) (side_infos C2) →
  ∃ m', (_ ← bst_recalculate_height (addr c1); bst_recalculate_bf (addr c2)) s = Ok (tt, Bst (root s) m') ∧
    represents (Bst (root s) m') T0 ∧ (∀ a, skel <$> nodes s !! a = skel <$> m' !! a).
Proof.
  intros E1 E2 Ht Hs Hh Hb.
  destruct (recalculate_height_mk s C1 d1 t1 c1 u1) as (m1 & Eh & Hm1 & Hh1); [by rewrite <- E1|done|].
  pose proof (linked_tree_same _ _ _ _ linked_skel_h Hm1 Ht) as Ht1.
  destruct (recalculate_bf_mk (Bst (root s) m1) C2 d2 t2 c2 u2) as (m2 & Eb & Hm2 & Hb2).
  - by rewrite <- E2.
  - by rewrite <- E2.
  - by rewrite <- E2, E1.
  - eapply holds_same; [apply bf_skel_h|exact Hm1|done].
  - exists m2. split; [by rewrite (M_bind_step _ _ _ _ _ Eh)|]. split.
    + pose proof (linked_tree_same _ _ _ _ linked_skel_b Hm2 Ht1) as (? & ? & ?). split; try done.
      * eapply holds_same; [apply height_skel_b|exact Hm2|]. by rewrite E1.
      * by rewrite E2.
    + intros a. by rewrite (skel_h_skel _ _ Hm1), (skel_b_skel _ _ Hm2).
Qed.

Lemma cells_rotate d X a Y b Z' : cells (mk d (mk d X a Y) b Z') = cells (mk d X a (mk d Y b Z')).
Proof. destruct d; cbn; rewrite <- ?app_assoc; cbn; by rewrite <- ?app_assoc. Qed.

Lemma mk_T d t c u : ∃ l r, mk d t c u = T l c r.
Proof. destruct d; by eexists _, _. Qed.

Lemma sorted_cells t t' : cells t = cells t' → sorted t → sorted t'.
Proof. unfold sorted. by intros ->. Qed.

Lemma nodup_cells t t' : cells t = cells t' → NoDup (addrs t) → NoDup (addrs t').
Proof. unfold addrs. by intros ->. Qed.

Lemma modify_bind {A} s a f (k : unit → M bst A) : is_Some (nodes s !! a) →
  (modify a f ≫= k) s = k tt (Bst (root s) (alter f a (nodes s))).
Proof. intros H. by apply M_bind_step, modify_alter. Qed.

(** The links of a rotation. *)
Lemma rotate_links_ok s C d X a Y b Z' : represents s (plug C (mk d X a (mk d Y b Z'))) →
  ∃ na nb, node_at (addr a) s = Ok (na, s) ∧ children na (opposite d) = addr b ∧ addr b ≠ 0 ∧
    node_at (addr b) s = Ok (nb, s) ∧ children nb d = ptr Y ∧ parent na = up C ∧
    (if negb (up C =? 0) then
       d' ← bst_dir_in_parent (addr a); _ ← modify (up C) (with_child d' (addr b)); modify (addr b) (with_parent (up C))
     else _ ← modify (addr b) (with_parent 0); set_root (addr b)) s =
      Ok (tt, Bst (ptr (plug C (mk d (mk d X a Y) b Z'))) (alter (with_parent (up C)) (addr b) (relink_hole C (addr b) (nodes s)))).
Proof.
  intros Hrep. pose proof (rep_linked _ _ Hrep) as Hlk. pose proof (rep_nodup _ _ Hrep) as Hnd.
  destruct (rotate_linked C d X a Y b Z' (nodes s) Hnd Hlk) as ((na & Hna & Hqa) & (nb & Hnb & Hqb) & _ & _ & _ & Hp & _).
  apply linked_mk in Hqa as (Ha0 & Epa & Eda & Eoa & _), Hqb as (Hb0 & _ & Edb & _). rewrite ptr_mk in Eoa.
  exists na, nb. split_and!; try done; [by apply node_at_ok|by apply node_at_ok|].
  destruct C as [|f C].
  - cbn [up Z.eqb negb]. rewrite (M_bind_step _ _ _ _ _ (modify_alter _ _ _ (mk_is_Some _ _ Hnb))).
    unfold set_root. cbn [plug]. by rewrite ptr_mk.
  - destruct (mk_T d X a (mk d Y b Z')) as (l & r & Emk). rewrite Emk in *.
    apply path_cons in Hp as ((np & Hnp & Hqp) & _). apply linked_fields in Hqp as (Hz & _). rewrite (proj1 (finfo_fields _ _ _)) in Hz.
    cbn [up]. destruct (Z.eqb_spec (addr (fcell f)) 0); [done|]. cbn [negb].
    rewrite (M_bind_step _ _ _ _ _ (bst_dir_in_parent_ok s f C l a r (represents_linked _ _ Hrep))).
    rewrite (M_bind_step _ _ _ _ _ (modify_alter _ _ _ (mk_is_Some _ _ Hnp))).
    rewrite modify_alter by (apply alter_is_Some; by eexists). do 3 f_equal. cbn [root nodes relink_hole].
    rewrite (rep_root _ _ Hrep). apply ptr_plug. by right.
Qed.

Lemma bst_rotate_ok s C d X a Y b Z' : let A := mk d X a (mk d Y b Z') in let A' := mk d (mk d X a Y) b Z' in
  represents s (plug C A) → sorted (plug C A) →
  ∃ s', bst_rotate (addr a) d s = Ok (tt, s') ∧ represents s' (plug C A').
Proof.
  intros A A' Hrep Hsort. pose proof (rep_linked _ _ Hrep) as Hlk. pose proof (rep_nodup _ _ Hrep) as Hnd.
  assert (cells (plug C A') = cells (plug C A)) as Ec by (rewrite !cells_plug; do 2 f_equal; apply cells_rotate).
  destruct (rotate_links_ok s C d X a Y b Z' Hrep) as (na & nb & Ena & Eb & Hb0 & Enb & Ey & Ep & Elink).
  destruct (rotate_linked C d X a Y b Z' (nodes s) Hnd Hlk) as ((na' & Hna & _) & (nb' & Hnb & _) & HX & HY & HZ & Hp & Hs).
  unfold bst_rotate. rewrite (M_bind_step _ _ _ _ _ (check_tree_ok _ _ 0 Hrep)). rewrite (M_bind_step _ _ _ _ _ Ena).
  rewrite Eb. destruct (Z.eqb_spec (addr b) 0); [done|]. rewrite (M_bind_step _ _ _ _ _ Enb). rewrite Ey, Ep.
  rewrite (M_bind_step _ _ _ _ _ Elink). set (r' := ptr (plug C (mk d (mk d X a Y) b Z'))).
  assert (∀ x, is_Some (nodes s !! x) → is_Some (relink_hole C (addr b) (nodes s) !! x)) as Hrl.
  { intros x Hx. destruct C; [done|]. by apply alter_is_Some. }
  pose proof (Hrl _ (mk_is_Some _ _ Hnb)) as Hsb. pose proof (Hrl _ (mk_is_Some _ _ Hna)) as Hsa.
  do 3 (rewrite modify_bind by (cbn [nodes]; by rewrite ?alter_is_Some); cbn [root nodes]).
  set (s1 := Bst r' (rotated C d a Y b (nodes s))).
  rewrite (M_bind_step _ _ _ tt s1).
  2: { unfold s1, rotated, reparent. rewrite (linked_null _ _ _ HY). destruct Y as [|yl yc yr]; [done|]. cbn [negb].
    apply holds_T in HY as ((ny & Hny & _) & _). cbn in Hny.
    apply modify_alter. cbn [nodes]. rewrite !alter_is_Some. exact (Hrl _ (mk_is_Some _ _ Hny)). }
  assert (∀ x, measures <$> nodes s !! x = measures <$> nodes s1 !! x) as Hm.
  { intros x. cbn. unfold rotated, reparent, relink_hole. destruct (ptr Y =? 0), C as [|f C0];
      repeat (rewrite <- (alter_same measures) by (intros ?; by destruct d, (fdir f) || by destruct d)); done. }
  assert (linked_tree s1 (plug C A')) as Ht1.
  { split_and!; [done|by eapply nodup_cells|by apply rotated_linked]. }
  pose proof (rep_heights _ _ Hrep) as Hh. pose proof (rep_bfs _ _ Hrep) as Hb.
  apply holds_plug in Hh as (Hh & _ & Hhs), Hb as (_ & _ & Hbs).
  apply holds_mk in Hh as (_ & HhX & HhB). apply holds_mk in HhB as (_ & HhY & HhZ).
  destruct (recalculated s1 (Fr d b Z' :: C) d X a Y C d (mk d X a Y) b Z' (plug C A')) as (m2 & Er & Hrep2 & _); try done.
  - by eapply sorted_cells.
  - apply (holds_same measures _ (nodes s)); [apply height_measures|done|]. cbn [side_infos fcell fsib].
    rewrite !holds_app. split_and!; try done. by eapply height_right_parent.
  - by apply (holds_same measures _ (nodes s)); [apply bf_measures|..].
  - exists (Bst (root s1) m2). split; [|done]. apply M_bind_ok in Er as ([] & s2 & Eh & Ebf).
    rewrite (M_bind_step _ _ _ _ _ Eh), (M_bind_step _ _ _ _ _ Ebf). by apply check_tree_ok with (plug C A').
Qed.

(** ** Rebalancing *)

Lemma avl_mk d t c u : avl (mk d t c u) ↔ avl t ∧ avl u ∧ -1 ≤ ht t - ht u ≤ 1.
Proof. destruct d; cbn; naive_solver lia. Qed.

Lemma cells_mk d t t' c u u' : cells t = cells t' → cells u = cells u' → cells (mk d t c u) = cells (mk d t' c u').
Proof. intros H1 H2. destruct d; cbn; by rewrite H1, H2. Qed.

Lemma cells_plug_eq C t t' : cells t = cells t' → cells (plug C t) = cells (plug C t').
Proof. intros H. by rewrite !cells_plug, H. Qed.

Lemma not_empty d t : 0 ≤ ht t → ∃ t1 e t2, t = mk d t1 e t2.
Proof. destruct t as [|l c r]; cbn; [lia|]. intros _. destruct d; [by exists l, c, r|by exists r, c, l]. Qed.

(** A node [c] whose subtree in direction [d] is two higher than the other. *)
Lemma rebalance_heavy s C d t1 e t2 c u (inner : bool) :
  represents s (plug C (mk d (mk d t1 e t2) c u)) → sorted (plug C (mk d (mk d t1 e t2) c u)) →
  avl (mk d t1 e t2) → avl u → ht (mk d t1 e t2) = ht u + 2 → inner = (ht t1 <? ht t2) →
  ∃ s' t', (_ ← (if inner then bst_rotate (addr e) d else mret tt); bst_rotate (addr c) (opposite d)) s = Ok (tt, s') ∧
    represents s' (plug C t') ∧ cells t' = cells (mk d (mk d t1 e t2) c u) ∧ avl t' ∧ ht u + 2 ≤ ht t' ≤ ht u + 3.
Proof.
  intros Hrep Hsort Ht Hu Hht ->. apply avl_mk in Ht as (Ha1 & Ha2 & Hd). rewrite ht_mk in Hht. pose proof (ht_ge u).
  destruct (Z.ltb_spec (ht t1) (ht t2)) as [Hlt|Hge].
  - destruct (not_empty d t2) as (y1 & g & y2 & ->); [lia|]. rewrite ht_mk in Hlt, Hht, Hd.
    apply avl_mk in Ha2 as (Hy1 & Hy2 & Hdy).
    destruct (bst_rotate_ok s (Fr d c u :: C) d t1 e y1 g y2) as (s1 & E1 & Hrep1); [done|done|].
    cbn [plug fdir fcell fsib] in Hrep1.
    assert (cells (mk d (mk d (mk d t1 e y1) g y2) c u) = cells (mk d (mk d t1 e (mk d y1 g y2)) c u)) as Ec1.
    { apply cells_mk; [apply cells_rotate|done]. }
    rewrite <- (mk_opposite d u c), <- (mk_opposite d y2 g) in Hrep1.
    destruct (bst_rotate_ok s1 C (opposite d) u c y2 g (mk d t1 e y1)) as (s2 & E2 & Hrep2); [done| |].
    { eapply sorted_cells; [|exact Hsort]. apply cells_plug_eq. by rewrite !mk_opposite, Ec1. }
    rewrite !mk_opposite in Hrep2. exists s2, (mk d (mk d t1 e y1) g (mk d y2 c u)).
    rewrite (M_bind_step _ _ _ _ _ E1). split; [exact E2|]. split; [exact Hrep2|]. split.
    + rewrite <- Ec1. rewrite <- (mk_opposite d (mk d y2 c u)), <- (mk_opposite d u c y2), cells_rotate. by rewrite !mk_opposite.
    + rewrite !avl_mk, !ht_mk. pose proof (ht_ge y1). pose proof (ht_ge y2). split_and!; try done; lia.
  - rewrite <- (mk_opposite d u c), <- (mk_opposite d t2 e) in Hrep, Hsort.
    destruct (bst_rotate_ok s C (opposite d) u c t2 e t1) as (s2 & E2 & Hrep2); [done|done|].
    rewrite !mk_opposite in Hrep2. exists s2, (mk d t1 e (mk d t2 c u)).
    rewrite (M_bind_step _ _ _ tt s) by done. split; [exact E2|]. split; [exact Hrep2|]. split.
    + rewrite <- (mk_opposite d (mk d t2 c u)), <- (mk_opposite d u c t2), cells_rotate. by rewrite !mk_opposite.
    + rewrite !avl_mk, !ht_mk. split_and!; try done; lia.
Qed.

Lemma rep_bf s C l c r : represents s (plug C (T l c r)) →
  ∃ n, node_at (addr c) s = Ok (n, s) ∧ parent n = up C ∧ left n = ptr l ∧ right n = ptr r ∧ bf n = ht l - ht r.
Proof.
  intros H. destruct (node_of _ _ _ _ _ (represents_linked _ _ H)) as (n & Hn & Hq & En). exists n.
  pose proof (rep_bfs _ _ H) as Hb. apply holds_plug in Hb as (Hb & _). apply holds_T in Hb as ((n' & Hn' & Hb) & _).
  cbn in Hn'. simplify_eq. destruct Hq as (_ & ? & ? & ? & _). by split_and!.
Qed.

(** One step of rebalancing: the tree below keeps its nodes in order, is
    balanced, and loses at most one level. *)
Lemma rebalence_at_ok s C l c r : represents s (plug C (T l c r)) → sorted (plug C (T l c r)) →
  avl l → avl r → -2 ≤ ht l - ht r ≤ 2 →
  ∃ s' t', rebalence_at (addr c) s = Ok (tt, s') ∧ represents s' (plug C t') ∧ cells t' = cells (T l c r) ∧ avl t' ∧
    (ht t' = ht (T l c r) ∨ ht t' = ht (T l c r) - 1 ∧ (ht l - ht r = 2 ∨ ht l - ht r = -2)).
Proof.
  intros Hrep Hsort Hl Hr Hd. destruct (rep_bf _ _ _ _ _ Hrep) as (n & En & _ & El & Er & Eb).
  pose proof (ht_ge l). pose proof (ht_ge r).
  unfold rebalence_at. rewrite (M_bind_step _ _ _ _ _ En). rewrite Eb, El, Er.
  destruct (Z.ltb_spec 1 (ht l - ht r)) as [Hgt|Hle]; [|destruct (Z.ltb_spec (ht l - ht r) (-1)) as [Hlt|Hge]].
  - destruct (not_empty BST_DIR_LEFT l) as (t1 & e & t2 & ->); [lia|].
    destruct (rep_bf s (Fr BST_DIR_LEFT c r :: C) t1 e t2 Hrep) as (ne & Ene & _ & _ & _ & Ebe).
    assert (addr e ≠ 0) as He.
    { destruct (node_of s (Fr BST_DIR_LEFT c r :: C) t1 e t2 (represents_linked _ _ Hrep)) as (? & _ & Hq & _). apply Hq. }
    cbn [ptr mk]. rewrite (M_bind_step _ _ _ tt s) by (unfold massert; by destruct (Z.eqb_spec (addr e) 0)).
    rewrite (M_bind_step _ _ _ _ _ Ene). rewrite Ebe.
    destruct (rebalance_heavy s C BST_DIR_LEFT t1 e t2 c r (ht t1 - ht t2 <? 0)) as (s' & t' & E & Hrep' & Hc & Ha & Hh); try done.
    { change (mk BST_DIR_LEFT t1 e t2) with (T t1 e t2) in *. lia. }
    { destruct (Z.ltb_spec (ht t1 - ht t2) 0), (Z.ltb_spec (ht t1) (ht t2)); (done || lia). }
    exists s', t'. split; [exact E|]. split_and!; try done. change (mk BST_DIR_LEFT t1 e t2) with (T t1 e t2) in *. cbn [ht] in *. lia.
  - destruct (not_empty BST_DIR_RIGHT r) as (t1 & e & t2 & ->); [lia|].
    destruct (rep_bf s (Fr BST_DIR_RIGHT c l :: C) t2 e t1 Hrep) as (ne & Ene & _ & _ & _ & Ebe).
    assert (addr e ≠ 0) as He.
    { destruct (node_of s (Fr BST_DIR_RIGHT c l :: C) t2 e t1 (represents_linked _ _ Hrep)) as (? & _ & Hq & _). apply Hq. }
    cbn [ptr mk]. rewrite (M_bind_step _ _ _ tt s) by (unfold massert; by destruct (Z.eqb_spec (addr e) 0)).
    rewrite (M_bind_step _ _ _ _ _ Ene). rewrite Ebe.
    destruct (rebalance_heavy s C BST_DIR_RIGHT t1 e t2 c l (0 <? ht t2 - ht t1)) as (s' & t' & E & Hrep' & Hc & Ha & Hh); try done.
    { change (mk BST_DIR_RIGHT t1 e t2) with (T t2 e t1) in *. lia. }
    { destruct (Z.ltb_spec 0 (ht t2 - ht t1)), (Z.ltb_spec (ht t1) (ht t2)); (done || lia). }
    exists s', t'. split; [exact E|]. split_and!; try done. change (mk BST_DIR_RIGHT t1 e t2) with (T t2 e t1) in *. cbn [ht] in *. lia.
  - exists s, (T l c r). split_and!; [done|done|done|cbn; split_and!; (done || lia)|by left].
Qed.

(** The context of a hole that held a subtree of height [h]. *)
Fixpoint path_avl (C : list frame) (h : Z) : Prop :=
  match C with
  | [] => True
  | f :: C => avl (fsib f) ∧ -1 ≤ h - ht (fsib f) ≤ 1 ∧ path_avl C (Z.max h (ht (fsib f)) + 1)
  end.

Lemma avl_plug C t : avl (plug C t) ↔ avl t ∧ path_avl C (ht t).
Proof.
  revert t. induction C as [|f C IH]; intros t; cbn [plug path_avl]; [naive_solver|].
  rewrite IH, avl_mk, ht_mk. naive_solver.
Qed.

Lemma rebalence_up_ok fuel s C t h : (length C ≤ fuel)%nat → represents s (plug C t) → sorted (plug C t) →
  avl t → path_avl C h → -1 ≤ ht t - h ≤ 1 →
  ∃ s' t', rebalence_up fuel (up C) s = Ok (tt, s') ∧ represents s' t' ∧ cells t' = cells (plug C t) ∧ avl t'.
Proof.
  revert s C t h. induction fuel as [|fuel IH]; intros s [|[d c u] C] t h Hf Hrep Hsort Ht HC Hh; [|cbn in Hf; lia|..].
  1,2: by exists s, t.
  destruct HC as (Hu & Hb & HC). cbn [fsib plug fdir fcell] in *.
  destruct (mk_T d t c u) as (l & r & Emk). pose proof (ht_mk d t c u) as Hhm. rewrite Emk in *.
  assert (avl l ∧ avl r ∧ -2 ≤ ht l - ht r ≤ 2 ∧ (ht l - ht r = ht t - ht u ∨ ht l - ht r = ht u - ht t)) as (Hl & Hr & Hd & Hor).
  { destruct d; cbn in Emk; injection Emk as <- <-; split_and!; (done || lia). }
  destruct (rep_bf _ _ _ _ _ Hrep) as (n & En & Ep & _).
  destruct (rebalence_at_ok _ _ _ _ _ Hrep Hsort Hl Hr Hd) as (s1 & t1 & E1 & Hrep1 & Hc1 & Ha1 & Hh1).
  destruct (IH s1 C t1 (Z.max h (ht u) + 1)) as (s2 & t2 & E2 & Hrep2 & Hc2 & Ha2); try done.
  - cbn in Hf. lia.
  - eapply sorted_cells; [|exact Hsort]. by apply cells_plug_eq.
  - lia.
  - exists s2, t2. split; [|split_and!; [done|rewrite Hc2; by apply cells_plug_eq|done]].
    cbn [up fcell rebalence_up].
    destruct (node_of _ _ _ _ _ (represents_linked _ _ Hrep)) as (_ & _ & (Hz & _) & _). unfold iaddr in Hz. cbn in Hz.
    destruct (Z.eqb_spec (addr c) 0); [done|]. rewrite (M_bind_step _ _ _ _ _ En). rewrite Ep.
    rewrite (M_bind_step _ _ _ _ _ E1).
    destruct (Z.eqb_spec (addr c) (up C)) as [Heq|_]; [exfalso|exact E2].
    pose proof (NoDup_pieces _ _ (rep_nodup _ _ Hrep)) as Hnd. apply NoDup_app in Hnd as (_ & Hnd & _).
    assert (C ≠ []) as HC0 by (intros ->; by cbn in Heq).
    apply (Hnd (addr c)); [by apply (ptr_in (T l c r))|]. rewrite Heq. apply elem_of_app. left. by apply up_in_path.
Qed.

Lemma bst_check_and_rebalence_ok s C t h : C ≠ [] → represents s (plug C t) → sorted (plug C t) →
  avl t → path_avl C h → -1 ≤ ht t - h ≤ 1 →
  ∃ s' t', bst_check_and_rebalence (up C) s = Ok (tt, s') ∧ represents s' t' ∧ cells t' = cells (plug C t) ∧ avl t'.
Proof.
  intros _ Hrep Hsort Ht HC Hh. pose proof (linked_tree_fuel _ _ _ (represents_linked _ _ Hrep)).
  destruct (rebalence_up_ok (fuel_of s) s C t h) as (s' & t' & E1 & Hrep' & Hc & Ha); try done; [lia|].
  exists s', t'. split_and!; try done. unfold bst_check_and_rebalence.
  rewrite (M_bind_step _ _ _ _ _ (check_tree_ok _ _ 0 Hrep)).
  rewrite (M_bind_step _ _ _ tt s') by exact E1. by apply check_tree_ok with t'.
Qed.

(** ** Finding *)

(** The address of the cell with a key, or null. *)
Fixpoint lookup_key (k : Z) (l : list cell) : Z :=
  match l with [] => 0 | c :: l => if ckey c =? k then addr c else lookup_key k l end.

Lemma lookup_key_skip k l l' : (∀ x, x ∈ l → ckey x ≠ k) → lookup_key k (l ++ l') = lookup_key k l'.
Proof.
  induction l as [|c l IH]; intros H; [done|]. cbn. destruct (Z.eqb_spec (ckey c) k) as [E|]; [by destruct (H c); [by left|]|].
  apply IH. intros x Hx. apply H. by right.
Qed.

Lemma lookup_key_end k l l' : (∀ x, x ∈ l' → ckey x ≠ k) → lookup_key k (l ++ l') = lookup_key k l.
Proof.
  intros H. induction l as [|c l IH]; cbn; [|by rewrite IH].
  rewrite <- (app_nil_r l'), lookup_key_skip; done.
Qed.

Lemma sorted_T l c r : sorted (T l c r) → sorted l ∧ sorted r ∧
  (∀ x, x ∈ cells l → ckey x < ckey c) ∧ (∀ x, x ∈ cells r → ckey c < ckey x).
Proof.
  unfold sorted. cbn [cells]. rewrite fmap_app, fmap_cons, sorted_app. intros (Hl & [Hr Hcr]%StronglySorted_inv & Hlr).
  rewrite Forall_forall in Hcr. split_and!; try done.
  - intros x Hx. apply Hlr; [by apply list_elem_of_fmap_2|by left].
  - intros x Hx. by apply Hcr, list_elem_of_fmap_2.
Qed.

Lemma lookup_key_T k l c r : sorted (T l c r) →
  lookup_key k (cells (T l c r)) =
    if k <? ckey c then lookup_key k (cells l) else if ckey c <? k then lookup_key k (cells r) else addr c.
Proof.
  intros (_ & _ & Hlc & Hrc)%sorted_T. cbn [cells].
  destruct (Z.ltb_spec k (ckey c)) as [Hlt|Hge].
  - apply lookup_key_end. intros x [->|Hx]%elem_of_cons; [lia|]. apply Hrc in Hx. lia.
  - rewrite lookup_key_skip by (intros x Hx; apply Hlc in Hx; lia). cbn.
    destruct (Z.eqb_spec (ckey c) k), (Z.ltb_spec (ckey c) k); (done || lia).
Qed.

Lemma find_from_ok s t0 k fuel p t : represents s t0 → holds linked (nodes s) (infos p t) → (depth t ≤ fuel)%nat → sorted t →
  find_from fuel k (ptr t) s = Ok (lookup_key k (cells t), s).
Proof.
  intros Hrep. revert p t. induction fuel as [|fuel IH]; intros p [|l c r] H Hd Hs; [|cbn in Hd; lia|..].
  1,2: change ((_ ← check_tree 0; mret 0) s = Ok (0, s)); by rewrite (M_bind_step _ _ _ _ _ (check_tree_ok _ _ 0 Hrep)).
  rewrite lookup_key_T by done. apply sorted_T in Hs as (Hsl & Hsr & _).
  apply holds_T in H as ((n & Hn & Hz & _ & El & Er & Ek & _) & Hl & Hr). unfold iaddr in Hz. cbn in El, Er, Ek, Hz, Hd.
  cbn [ptr find_from]. destruct (Z.eqb_spec (addr c) 0); [done|].
  rewrite (M_bind_step _ _ _ n s) by by apply node_at_ok. rewrite Ek, El, Er.
  destruct (k <? ckey c); [apply (IH _ _ Hl); [lia|done]|].
  destruct (ckey c <? k); [apply (IH _ _ Hr); [lia|done]|].
  by rewrite (M_bind_step _ _ _ _ _ (check_tree_ok _ _ 0 Hrep)).
Qed.

(** ** Insertion *)

Lemma before_app C' C : before (C' ++ C) = before C ++ before C'.
Proof. induction C' as [|f C' IH]; [by rewrite app_nil_r|]. cbn. by rewrite IH, app_assoc. Qed.

Lemma insert_position_ok s k fuel p t ip ci : holds linked (nodes s) (infos p t) → (depth t ≤ fuel)%nat → sorted t →
  k ∉ ckey <$> cells t →
  ∃ C, t = plug C E ∧
    insert_position k fuel ip ci (ptr t) s =
      Ok (match C with [] => (ip, ci) | f :: _ => (addr (fcell f), fdir f) end, s) ∧
    (∀ x, x ∈ before C → ckey x < k) ∧ (∀ x, x ∈ after C → k < ckey x).
Proof.
  revert p t ip ci. induction fuel as [|fuel IH]; intros p [|l c r] ip ci H Hd Hs Hk; [|cbn in Hd; lia|..].
  1,2: exists []; cbn; split_and!; [done|done|by intros x ?%elem_of_nil|by intros x ?%elem_of_nil].
  apply sorted_T in Hs as (Hsl & Hsr & Hlc & Hrc).
  apply holds_T in H as ((n & Hn & Hz & _ & El & Er & Ek & _) & Hl & Hr). unfold iaddr in Hz. cbn in El, Er, Ek, Hz, Hd.
  cbn [cells] in Hk. rewrite fmap_app, fmap_cons, not_elem_of_app, not_elem_of_cons in Hk. destruct Hk as (Hkl & Hkc & Hkr).
  cbn [ptr insert_position]. destruct (Z.eqb_spec (addr c) 0); [done|].
  setoid_rewrite (M_bind_step _ _ _ n s); [|by apply node_at_ok]. rewrite Ek, El, Er.
  destruct (Z.ltb_spec k (ckey c)) as [Hlt|Hge]; [|destruct (Z.ltb_spec (ckey c) k) as [Hlt|]; [|lia]].
  - destruct (IH _ _ (addr c) BST_DIR_LEFT Hl ltac:(lia) Hsl Hkl) as (C & -> & E1 & Hb & Ha).
    exists (C ++ [Fr BST_DIR_LEFT c r]). rewrite plug_app, before_app, after_app. split; [done|].
    split; [rewrite E1; by destruct C|]. split; [done|]. cbn. rewrite app_nil_r.
    intros x [Hx|[->|Hx]%elem_of_cons]%elem_of_app; [by apply Ha|done|]. etrans; [exact Hlt|by apply Hrc].
  - destruct (IH _ _ (addr c) BST_DIR_RIGHT Hr ltac:(lia) Hsr Hkr) as (C & -> & E1 & Hb & Ha).
    exists (C ++ [Fr BST_DIR_RIGHT c l]). rewrite plug_app, before_app, after_app. split; [done|].
    split; [rewrite E1; by destruct C|]. cbn. rewrite app_nil_r. split; [|done].
    intros x [[Hx| ->%list_elem_of_singleton]%elem_of_app|Hx]%elem_of_app; [|done|by apply Hb]. etrans; [by apply Hlc|exact Hlt].
Qed.

Lemma insert_position_duplicate s k fuel p t ip ci : holds linked (nodes s) (infos p t) → (depth t ≤ fuel)%nat → sorted t →
  k ∈ ckey <$> cells t → insert_position k fuel ip ci (ptr t) s = Fault Panic.
Proof.
  revert p t ip ci. induction fuel as [|fuel IH]; intros p [|l c r] ip ci H Hd Hs Hk; try (by apply elem_of_nil in Hk); [cbn in Hd; lia|].
  apply sorted_T in Hs as (Hsl & Hsr & Hlc & Hrc).
  apply holds_T in H as ((n & Hn & Hz & _ & El & Er & Ek & _) & Hl & Hr). unfold iaddr in Hz. cbn in El, Er, Ek, Hz, Hd.
  cbn [cells] in Hk. rewrite fmap_app, fmap_cons, elem_of_app, elem_of_cons in Hk.
  cbn [ptr insert_position]. destruct (Z.eqb_spec (addr c) 0); [done|].
  rewrite (M_bind_step _ _ _ n s) by by apply node_at_ok. rewrite Ek, El, Er.
  assert (∀ x, x ∈ ckey <$> cells l → x < ckey c) as Hlc' by (intros x (y & -> & Hy)%list_elem_of_fmap; by apply Hlc).
  assert (∀ x, x ∈ ckey <$> cells r → ckey c < x) as Hrc' by (intros x (y & -> & Hy)%list_elem_of_fmap; by apply Hrc).
  destruct (Z.ltb_spec k (ckey c)) as [Hlt|Hge]; [|destruct (Z.ltb_spec (ckey c) k) as [Hlt|]; [|done]].
  - apply (IH _ _ _ _ Hl); [lia|done|]. destruct Hk as [Hk|[Hk|Hk]]; [done|lia|apply Hrc' in Hk; lia].
  - apply (IH _ _ _ _ Hr); [lia|done|]. destruct Hk as [Hk|[Hk|Hk]]; [apply Hlc' in Hk; lia|lia|done].
Qed.

Lemma plug_insert_sorted C c : sorted (plug C E) → (∀ x, x ∈ before C → ckey x < ckey c) → (∀ x, x ∈ after C → ckey c < ckey x) →
  sorted (plug C (T E c E)).
Proof.
  unfold sorted. rewrite !cells_plug. cbn. rewrite !fmap_app, fmap_cons, !sorted_app. intros (Hb & Ha & Hba) H1 H2.
  split_and!; [done| |].
  - constructor; [done|]. apply Forall_forall. intros y (x & -> & Hx)%list_elem_of_fmap. by apply H2.
  - intros x y Hx [->|Hy]%elem_of_cons; [|by apply Hba]. apply list_elem_of_fmap in Hx as (z & -> & Hz). by apply H1.
Qed.

(** The node to insert, with its fields set. *)
Definition blank (node k d : Z) (m : store) : store :=
  alter (with_key k) node (alter (with_data d) node (alter (with_bf 0) node
    (alter (with_child BST_DIR_RIGHT 0) node (alter (with_child BST_DIR_LEFT 0) node m)))).

Lemma blank_at node k d m n : m !! node = Some n → blank node k d m !! node = Some (BstNode (parent n) 0 0 d k 0 (height n)).
Proof. intros Hn. unfold blank. by rewrite !lookup_alter_eq, Hn. Qed.

Lemma blank_other node k d m x : x ≠ node → blank node k d m !! x = m !! x.
Proof. intros Hx. unfold blank. by rewrite !lookup_alter_ne by done. Qed.

Lemma blank_frame Q node k d m l : node ∉ iaddr <$> l → holds Q m l → holds Q (blank node k d m) l.
Proof. intros Hn H. apply (holds_frame _ m); [done|]. intros x Hx. apply blank_other. by intros ->. Qed.

Lemma set_blank {A} s node k d (f : M bst A) : is_Some (nodes s !! node) →
  (_ ← modify node (with_child BST_DIR_LEFT 0); _ ← modify node (with_child BST_DIR_RIGHT 0); _ ← modify node (with_bf 0);
   _ ← modify node (with_data d); _ ← modify node (with_key k); f) s = f (Bst (root s) (blank node k d (nodes s))).
Proof. intros Hn. do 5 (rewrite modify_bind by (cbn [nodes]; by rewrite ?alter_is_Some); cbn [root nodes]). done. Qed.

Section insert.
Context (s : bst) (C : list frame) (node k d : Z) (n0 : bst_node).
Let c := Cell node k d.
Hypothesis Hrep : represents s (plug C E).
Hypothesis Hsort : sorted (plug C (T E c E)).
Hypothesis Hnull : node ≠ 0.
Hypothesis Hfresh : node ∉ addrs (plug C E).
Hypothesis Hn0 : nodes s !! node = Some n0.
Hypothesis Hh0 : height n0 = 0.

(** The links after the node was put into its place. *)
Definition inserted : store := alter (with_parent (up C)) node (relink_hole C node (blank node k d (nodes s))).

Lemma fresh_pieces : (C ≠ [] → node ≠ up C) ∧ node ∉ iaddr <$> path_infos C E ∧ node ∉ iaddr <$> side_infos C.
Proof using All.
  assert (node ∉ iaddr <$> path_infos C E ∧ node ∉ iaddr <$> side_infos C) as [Hp Hs].
  { rewrite <- (iaddrs 0), infos_plug, !fmap_app, !not_elem_of_app in Hfresh. naive_solver. }
  split_and!; try done. intros HC ->. by apply Hp, up_in_path.
Qed.

Lemma inserted_linked : linked_tree (Bst (match C with [] => node | _ => root s end) inserted) (plug C (T E c E)).
Proof using All.
  destruct fresh_pieces as (Hup & Hp & Hs). pose proof (rep_nodup _ _ Hrep) as Hnd.
  pose proof (rep_linked _ _ Hrep) as Hlk. apply holds_plug in Hlk as (_ & Hlp & Hls).
  split_and!.
  - cbn. destruct C as [|f C0]; [done|]. rewrite (rep_root _ _ Hrep). apply ptr_plug. by right.
  - unfold addrs. rewrite cells_plug. cbn [cells app]. unfold addrs in Hnd, Hfresh. rewrite cells_plug in Hnd, Hfresh. cbn [cells app] in Hnd, Hfresh.
    rewrite <- Permutation_middle. cbn. apply NoDup_cons. done.
  - cbn [nodes]. unfold inserted.
    assert (alter (with_parent (up C)) node (relink_hole C node (blank node k d (nodes s))) =
      relink_hole C node (alter (with_parent (up C)) node (blank node k d (nodes s)))) as ->.
    { destruct C as [|f C0]; [done|]. cbn. apply alter_alter_ne. by apply Hup. }
    apply (replace_hole _ C E (T E c E)); [done|..].
    + apply alter_frame; [done|by apply blank_frame].
    + apply alter_frame; [done|by apply blank_frame].
    + cbn [infos app]. apply holds_cons. split; [|apply holds_nil].
      exists (BstNode (up C) 0 0 d k 0 (height n0)). split; [|by split_and!].
      change (relink_hole C node (alter (with_parent (up C)) node (blank node k d (nodes s))) !! node = Some (BstNode (up C) 0 0 d k 0 (height n0))).
      assert (relink_hole C node (alter (with_parent (up C)) node (blank node k d (nodes s))) !! node =
        alter (with_parent (up C)) node (blank node k d (nodes s)) !! node) as ->.
      { destruct C as [|f C0]; [done|]. cbn. apply lookup_alter_ne. by apply not_eq_sym, Hup. }
      by rewrite lookup_alter_eq, (blank_at _ _ _ _ _ Hn0).
Qed.

Lemma inserted_measures : ∀ x, x ≠ node → measures <$> nodes s !! x = measures <$> inserted !! x.
Proof using All.
  intros x Hx. unfold inserted. rewrite lookup_alter_ne by done. rewrite <- (blank_other node k d (nodes s) x Hx).
  destruct C as [|f C0]; [done|]. apply alter_same. intros n. by destruct (fdir f).
Qed.

Lemma measured_sides (Q : info → bst_node → Prop) l : (∀ i n n', measures n = measures n' → Q i n → Q i n') →
  node ∉ iaddr <$> l → holds Q (nodes s) l → holds Q inserted l.
Proof using All.
  intros HQ Hl H i Hi. destruct (H i Hi) as (n & Hn & Hq).
  assert (iaddr i ≠ node) as Hne by (intros <-; by apply Hl, list_elem_of_fmap_2).
  pose proof (inserted_measures (iaddr i) Hne) as Hm. rewrite Hn in Hm.
  destruct (inserted !! iaddr i) as [n'|]; [|done]. exists n'. split; [done|]. eapply HQ; [|done]. exact (inj Some _ _ Hm).
Qed.

Lemma inserted_heights : holds height_right inserted (infos (up C) (T E c E) ++ side_infos C).
Proof using All.
  destruct fresh_pieces as (Hup & Hp & Hs). cbn [infos app]. apply holds_cons. split.
  - exists (BstNode (up C) 0 0 d k 0 (height n0)). split; [|exact Hh0].
    unfold inserted. cbn. rewrite lookup_alter_eq.
    assert (relink_hole C node (blank node k d (nodes s)) !! node = blank node k d (nodes s) !! node) as ->.
    { destruct C as [|f C0]; [done|]. cbn. apply lookup_alter_ne. by apply not_eq_sym, Hup. }
    by rewrite (blank_at _ _ _ _ _ Hn0).
  - apply measured_sides; [apply height_measures|done|]. pose proof (rep_heights _ _ Hrep) as Hh. by apply holds_plug in Hh as (_ & _ & ?).
Qed.

Lemma inserted_represents : C = [] → represents (Bst node inserted) (T E c E).
Proof using All.
  intros HC. pose proof inserted_linked as (Hr & Hnd & Hlk). pose proof inserted_heights as Hh.
  unfold inserted in *. rewrite HC in *. cbn [plug up relink_hole side_infos] in *. rewrite app_nil_r in Hh. split; try done.
  apply holds_cons. split; [|apply holds_nil]. exists (BstNode 0 0 0 d k 0 (height n0)). split; [|done].
  cbn. by rewrite lookup_alter_eq, (blank_at _ _ _ _ _ Hn0).
Qed.
End insert.

Lemma bst_insert_node_unbalenced_ok s t node k d n0 : represents s t → sorted t → node ≠ 0 → node ∉ addrs t →
  nodes s !! node = Some n0 → height n0 = 0 → k ∉ ckey <$> cells t →
  ∃ s' C, t = plug C E ∧ bst_insert_node_unbalenced node k d s = Ok (tt, s') ∧
    represents s' (plug C (T E (Cell node k d) E)) ∧ sorted (plug C (T E (Cell node k d) E)).
Proof.
  intros Hrep Hsort Hnull Hfresh Hn0 Hh0 Hk. set (c := Cell node k d).
  set (s1 := Bst (root s) (blank node k d (nodes s))).
  assert (holds linked (nodes s1) (infos 0 t)) as Hl1.
  { apply blank_frame; [by rewrite iaddrs|apply Hrep]. }
  pose proof (fuel_enough s1 0 t Hl1 (rep_nodup _ _ Hrep)) as Hfuel.
  destruct (insert_position_ok s1 k (fuel_of s1) 0 t 0 BST_DIR_LEFT Hl1) as (C & -> & Epos & Hb & Ha); [lia|done|done|].
  assert (sorted (plug C (T E c E))) as Hsort' by by apply plug_insert_sorted.
  pose proof (inserted_linked s C node k d n0 Hrep Hsort' Hnull Hfresh Hn0 Hh0) as Ht'.
  pose proof (inserted_heights s C node k d n0 Hrep Hsort' Hnull Hfresh Hn0 Hh0) as Hh'.
  unfold bst_insert_node_unbalenced. rewrite (M_bind_step _ _ _ _ _ (check_tree_ok _ _ 0 Hrep)).
  cbn beta. rewrite (set_blank s node k d) by by eexists. fold s1. unfold get_root. rewrite (M_bind_step _ _ _ (root s) s1) by done.
  pose proof (rep_root _ _ Hrep) as Hroot. pose proof (rep_linked _ _ Hrep) as Hlk.
  rewrite Hroot, (linked_null _ _ _ Hlk). destruct C as [|f C0].
  - pose proof (inserted_represents s [] node k d n0 Hrep Hsort' Hnull Hfresh Hn0 Hh0 eq_refl) as Hrep'.
    exists (Bst node (inserted s [] node k d)), []. split; [done|]. split; [|by split].
    cbn [plug]. unfold set_root. rewrite (M_bind_step _ _ _ tt (Bst node (nodes s1))) by done.
    rewrite modify_bind by (apply mk_is_Some with (BstNode (parent n0) 0 0 d k 0 (height n0)); by apply blank_at).
    by apply check_tree_ok with (T E c E).
  - assert (∃ l c' r, plug (f :: C0) E = T l c' r) as (l & c' & r & Epl).
    { cbn [plug]. assert (∀ C t, t ≠ E → ∃ l c' r, plug C t = T l c' r) as Hpl; [|apply Hpl; by destruct (fdir f)].
      clear. induction C as [|g C IH]; intros t Ht; [destruct t; [done|by eauto]|]. cbn. apply IH. by destruct (fdir g). }
    assert (∃ np, nodes s1 !! addr (fcell f) = Some np ∧ addr (fcell f) ≠ 0) as (np & Hnp & Hz).
    { apply (holds_plug linked (nodes s1) (f :: C0) E) in Hl1 as (_ & Hp & _).
      apply path_cons in Hp as ((np & Hnp & Hq) & _). apply linked_fields in Hq as (Hz & _). rewrite (proj1 (finfo_fields _ _ _)) in Hz. by exists np. }
    cbn [fcell fdir] in Epos. rewrite Epl in Epos |- *. cbn [ptr] in Epos |- *.
    rewrite (M_bind_step _ _ _ (addr (fcell f), fdir f) s1) by exact Epos. cbn beta iota.
    rewrite modify_bind by by eexists. cbn [root nodes].
    rewrite modify_bind by (cbn [nodes]; rewrite alter_is_Some; eexists; by apply blank_at). cbn [root nodes].
    destruct (Z.eqb_spec (addr (fcell f)) 0); [done|]. cbn [negb].
    change (Bst (root s1) _) with (Bst (root s) (inserted s (f :: C0) node k d)).
    set (s2 := Bst (root s) (inserted s (f :: C0) node k d)) in *.
    destruct (recalculated s2 C0 (fdir f) (T E c E) (fcell f) (fsib f) C0 (fdir f) (T E c E) (fcell f) (fsib f) (plug (f :: C0) (T E c E)))
      as (m2 & Er & Hrep2 & _); try done.
    { destruct (fresh_pieces s (f :: C0) node k d n0 Hrep Hsort' Hnull Hfresh Hn0 Hh0) as (_ & _ & Hs).
      apply (measured_sides s (f :: C0) node k d n0 Hrep Hsort' Hnull Hfresh Hn0 Hh0); [apply bf_measures| |].
      - cbn [side_infos] in Hs. rewrite fmap_app, not_elem_of_app in Hs. by destruct Hs.
      - pose proof (rep_bfs _ _ Hrep) as Hbf. apply holds_plug in Hbf as (_ & _ & Hbf). cbn [side_infos] in Hbf. by apply holds_app in Hbf as [_ ?]. }
    exists (Bst (root s2) m2), (f :: C0). split; [by symmetry|]. split; [|by split].
    rewrite (M_bind_step _ _ _ _ _ Er). by apply check_tree_ok with (plug (f :: C0) (T E c E)).
Qed.

(** [bst_insert_node] of a fresh node with a new key into a balanced tree: no
    check fails, the node is added at its place in the order and the tree is
    balanced again.  A key that is there already is a panic. *)
Theorem bst_insert_node_correct s t node k d n0 (Hrep : represents s t) (Hsort : sorted t) (Havl : avl t)
  (Hnull : node ≠ 0) (Hfresh : node ∉ addrs t) (Hn0 : nodes s !! node = Some n0) (Hh0 : height n0 = 0) :
  (k ∉ ckey <$> cells t → ∃ s' t', bst_insert_node node k d s = Ok (tt, s') ∧ represents s' t' ∧ sorted t' ∧ avl t' ∧
     cells t' ≡ₚ Cell node k d :: cells t) ∧
  (k ∈ ckey <$> cells t → bst_insert_node node k d s = Fault Panic).
Proof.
  split.
  - intros Hk. destruct (bst_insert_node_unbalenced_ok s t node k d n0) as (s1 & C & -> & E1 & Hrep1 & Hsort1); try done.
    unfold bst_insert_node. rewrite (M_bind_step _ _ _ _ _ (check_tree_ok _ _ 0 Hrep)), (M_bind_step _ _ _ _ _ E1).
    destruct (rep_bf _ _ _ _ _ Hrep1) as (n & En & Ep & _). cbn [addr] in En. rewrite (M_bind_step _ _ _ _ _ En). rewrite Ep.
    apply avl_plug in Havl as [_ HC]. cbn [ht] in HC.
    assert (cells (plug C (T E (Cell node k d) E)) ≡ₚ Cell node k d :: cells (plug C E)) as Hperm.
    { rewrite !cells_plug. cbn. by rewrite Permutation_middle. }
    destruct C as [|f C].
    + exists s1, (T E (Cell node k d) E). cbn [up Z.eqb negb]. rewrite (M_bind_step _ _ _ tt s1) by done.
      split; [by apply check_tree_ok with (T E (Cell node k d) E)|]. split; [done|]. split; [done|]. split; [|done]. cbn. lia.
    + destruct (bst_check_and_rebalence_ok s1 (f :: C) (T E (Cell node k d) E) (-1)) as (s2 & t2 & E2 & Hrep2 & Hc2 & Ha2); try done; [cbn; lia..|].
      exists s2, t2. split; [|split_and!; [done|by eapply sorted_cells|done|by rewrite Hc2]].
      assert (up (f :: C) ≠ 0) as Hz.
      { pose proof (rep_linked _ _ Hrep1) as Hlk. apply holds_plug in Hlk as (_ & Hp & _).
        eapply holds_nonzero; [exact Hp|]. by apply up_in_path. }
      destruct (Z.eqb_spec (up (f :: C)) 0); [done|]. cbn [negb]. rewrite (M_bind_step _ _ _ _ _ E2).
      by apply check_tree_ok with t2.
  - intros Hk. unfold bst_insert_node, bst_insert_node_unbalenced.
    rewrite !(M_bind_step _ _ _ _ _ (check_tree_ok _ _ 0 Hrep)). unfold mbind at 1, M_bind at 1.
    rewrite (M_bind_step _ _ _ _ _ (check_tree_ok _ _ 0 Hrep)).
    cbn beta. rewrite (set_blank s node k d) by by eexists. set (s1 := Bst (root s) (blank node k d (nodes s))).
    unfold get_root. rewrite (M_bind_step _ _ _ (root s) s1) by done.
    assert (holds linked (nodes s1) (infos 0 t)) as Hl1 by (apply blank_frame; [by rewrite iaddrs|apply Hrep]).
    pose proof (fuel_enough s1 0 t Hl1 (rep_nodup _ _ Hrep)) as Hfuel.
    rewrite (rep_root _ _ Hrep), (linked_null _ _ _ (rep_linked _ _ Hrep)).
    destruct t as [|l c r]; [by apply elem_of_nil in Hk|]. unfold mbind at 1, M_bind at 1, with_fuel.
    by rewrite (insert_position_duplicate s1 k (fuel_of s1) 0 _ _ _ Hl1 ltac:(lia) Hsort Hk).
Qed.

(** ** Removal of a node with at most one child *)

Section remove.
Context (s : bst) (C : list frame) (l : tree) (c : cell) (r t' : tree).
Hypothesis Hrep : represents s (plug C (T l c r)).
Hypothesis Hone : l = E ∧ t' = r ∨ r = E ∧ t' = l.

Definition unlinked : store := reparent (up C) (ptr t') (relink_hole C (ptr t') (nodes s)).

Lemma remaining : cells t' = cells l ++ cells r ∧ (avl (T l c r) → avl t') ∧ ht t' = ht (T l c r) - 1 ∧
  holds linked (nodes s) (infos (addr c) t') ∧ holds height_right (nodes s) (infos (addr c) t') ∧
  holds bf_right (nodes s) (infos (addr c) t').
Proof using All.
  pose proof (rep_linked _ _ Hrep) as H1. pose proof (rep_heights _ _ Hrep) as H2. pose proof (rep_bfs _ _ Hrep) as H3.
  apply holds_plug in H1 as (H1 & _), H2 as (H2 & _), H3 as (H3 & _).
  apply holds_T in H1 as (_ & H1l & H1r), H2 as (_ & H2l & H2r), H3 as (_ & H3l & H3r).
  destruct Hone as [[-> ->]|[-> ->]]; cbn [cells ht avl app]; rewrite ?app_nil_r.
  - pose proof (ht_ge r). split_and!; try done; [naive_solver|lia].
  - pose proof (ht_ge l). split_and!; try done; [naive_solver|lia].
Qed.

Lemma remaining_addrs x : x ∈ addrs t' → x ∈ addrs (T l c r) ∧ x ≠ addr c.
Proof using All.
  pose proof (NoDup_plug _ _ (rep_nodup _ _ Hrep)) as Hnd. unfold addrs in *. cbn [cells] in *.
  rewrite fmap_app, fmap_cons in *. apply NoDup_app in Hnd as (_ & Hnd1 & Hnd2). apply NoDup_cons in Hnd2 as [Hnd2 _].
  rewrite elem_of_app, elem_of_cons. destruct Hone as [[_ ->]|[_ ->]]; intros Hx; split; auto.
  - by intros ->.
  - intros ->. apply (Hnd1 _ Hx). by left.
Qed.

(** The parent of the removed node, when there is one. *)
Lemma parent_of_removed f C0 : C = f :: C0 → addr (fcell f) ≠ 0 ∧ is_Some (nodes s !! addr (fcell f)) ∧
  bst_dir_in_parent (addr c) s = Ok (fdir f, s).
Proof using Hrep.
  intros ->. pose proof (represents_linked _ _ Hrep) as Ht. destruct (linked_tree_plug _ _ _ Ht) as (_ & Hp & _).
  apply path_cons in Hp as ((np & Hnp & Hq) & _). apply linked_fields in Hq as (Hz & _).
  rewrite (proj1 (finfo_fields _ _ _)) in Hz. split_and!; [done|by eexists|by eapply bst_dir_in_parent_ok].
Qed.

Lemma root_after : C ≠ [] → root s = ptr (plug C t').
Proof using Hrep. intros HC. rewrite (rep_root _ _ Hrep). apply ptr_plug. by right. Qed.

Section node.
Context (n : bst_node).
Hypothesis En : node_at (addr c) s = Ok (n, s).
Hypothesis Ep : parent n = up C.

Lemma remove_terminal_ok : t' = E → remove_terminal_node (addr c) s = Ok (tt, Bst (ptr (plug C t')) unlinked).
Proof using All.
  intros Et. pose proof parent_of_removed as Hpr. pose proof root_after as Hra. unfold remove_terminal_node, unlinked. rewrite (M_bind_step _ _ _ _ _ En). rewrite Ep, Et. destruct C as [|f C0] eqn:EC.
  - cbn [up Z.eqb negb]. unfold get_root. rewrite (M_bind_step _ _ _ (root s) s) by done.
    rewrite (rep_root _ _ Hrep). cbn [plug ptr]. by rewrite Z.eqb_refl.
  - destruct (Hpr f C0 eq_refl) as (Hz & Hs & Ed). cbn [up]. destruct (Z.eqb_spec (addr (fcell f)) 0); [done|]. cbn [negb].
    rewrite (M_bind_step _ _ _ _ _ Ed). rewrite modify_alter by done. cbn [relink_hole ptr]. unfold reparent. cbn [Z.eqb].
    do 3 f_equal. rewrite <- Et. by apply Hra.
Qed.

Lemma remove_child_ok d : children n d = ptr t' → t' ≠ E →
  remove_node_with_child d (addr c) s = Ok (tt, Bst (ptr (plug C t')) unlinked).
Proof using All.
  intros Ec Hne. pose proof parent_of_removed as Hpr. pose proof root_after as Hra. destruct remaining as (_ & _ & _ & Hlk & _). pose proof (linked_null _ _ _ Hlk) as Hnull.
  assert (is_Some (nodes s !! ptr t')) as Hst.
  { destruct t' as [|tl tc tr]; [done|]. apply holds_T in Hlk as ((nt & Hnt & _) & _). by eexists. }
  unfold remove_node_with_child, unlinked, reparent. rewrite (M_bind_step _ _ _ _ _ En). rewrite Ep, Ec, Hnull.
  destruct t' as [|tl tc tr] eqn:Et; [done|]. rewrite <- Et in *. destruct C as [|f C0] eqn:EC.
  - cbn [up Z.eqb negb]. rewrite modify_bind by done. unfold get_root.
    rewrite (M_bind_step _ _ _ (root s) (Bst (root s) (alter (with_parent 0) (ptr t') (nodes s)))) by done.
    rewrite (rep_root _ _ Hrep). cbn [plug ptr]. by rewrite Z.eqb_refl.
  - destruct (Hpr f C0 eq_refl) as (Hz & Hs & Ed). cbn [up]. destruct (Z.eqb_spec (addr (fcell f)) 0); [done|]. cbn [negb].
    rewrite (M_bind_step _ _ _ _ _ Ed). rewrite modify_bind by done. rewrite modify_alter by (cbn [nodes]; by apply alter_is_Some).
    cbn [relink_hole root nodes]. do 3 f_equal. by apply Hra.
Qed.

Lemma remove_links_ok : left n = ptr l → right n = ptr r →
  (if (left n =? 0) && (right n =? 0) then remove_terminal_node (addr c)
   else if negb (left n =? 0) && (right n =? 0) then remove_node_with_child BST_DIR_LEFT (addr c)
   else if (left n =? 0) && negb (right n =? 0) then remove_node_with_child BST_DIR_RIGHT (addr c)
   else remove_node_with_both_children (addr c)) s = Ok (tt, Bst (ptr (plug C t')) unlinked).
Proof using All.
  intros El Er. destruct remaining as (_ & _ & _ & Hlk & _). pose proof (linked_null _ _ _ Hlk) as Hnull.
  rewrite El, Er. pose proof remove_terminal_ok as Hterm. pose proof remove_child_ok as Hchild.
  destruct Hone as [[El0 Et]|[Er0 Et]].
  - rewrite El0, <- Et, Hnull. cbn [ptr Z.eqb negb andb]. destruct t' as [|tl tc tr] eqn:E0; [by apply Hterm|].
    apply Hchild; [|done]. cbn. by rewrite Er, <- Et.
  - rewrite Er0, <- Et, Hnull. cbn [ptr Z.eqb negb andb]. destruct t' as [|tl tc tr] eqn:E0; [by apply Hterm|].
    apply Hchild; [|done]. cbn. by rewrite El, <- Et.
Qed.
End node.

Lemma unlinked_measures x : measures <$> nodes s !! x = measures <$> unlinked !! x.
Proof using All.
  unfold unlinked, reparent, relink_hole. destruct (ptr t' =? 0), C as [|f C0];
    repeat (rewrite <- (alter_same measures) by (intros ?; done || by destruct (fdir f))); done.
Qed.

Lemma unlinked_linked : linked_tree (Bst (ptr (plug C t')) unlinked) (plug C t').
Proof using All.
  destruct remaining as (Ec & _ & _ & Hlt & _). pose proof (rep_nodup _ _ Hrep) as Hnd.
  pose proof (NoDup_pieces _ _ Hnd) as Hpc. apply NoDup_app in Hpc as (_ & Hpc1 & Hpc). apply NoDup_app in Hpc as (Hndp & Hpc2 & _).
  pose proof (rep_linked _ _ Hrep) as Hlk. apply holds_plug in Hlk as (_ & Hp & Hs).
  assert (∀ x, x ∈ addrs t' → x ∉ iaddr <$> path_infos C t' ∧ x ∉ iaddr <$> side_infos C ∧ (C ≠ [] → up C ≠ x)) as Hout.
  { intros x (Hx & _)%remaining_addrs. specialize (Hpc1 x Hx). rewrite not_elem_of_app in Hpc1.
    rewrite (path_addrs C t' (T l c r)). split_and!; [naive_solver|naive_solver|]. intros HC <-. by apply (proj1 Hpc1), up_in_path. }
  assert (∀ Q m l0, (ptr t' ≠ 0 → ptr t' ∉ iaddr <$> l0) → holds Q m l0 → holds Q (reparent (up C) (ptr t') m) l0) as Hrf.
  { intros Q m l0 Hl0 Hq. destruct (Z.eq_dec (ptr t') 0) as [E0|]; [unfold reparent; by rewrite E0|by apply reparent_frame; auto]. }
  assert (ptr t' ≠ 0 → ptr t' ∈ addrs t') as Hin by (intros ?; by destruct (ptr_null_or_in t')).
  split_and!; [done| |].
  - unfold addrs in *. rewrite cells_plug in *. rewrite Ec. cbn [cells] in Hnd. revert Hnd. rewrite !fmap_app, fmap_cons.
    rewrite <- !app_assoc, <- app_comm_cons. rewrite !Permutation_middle, !app_assoc. rewrite <- Permutation_middle.
    by intros [_ ?]%NoDup_cons.
  - cbn [nodes]. apply holds_plug. split_and!.
    + unfold unlinked. apply (reparent_ok _ (addr c)).
      * apply relink_hole_frame; [|done]. intros HC. rewrite iaddrs. intros Hup. by destruct (Hout _ Hup) as (_ & _ & []).
      * assert (NoDup (addrs (T l c r))) as Hnd' by (by eapply NoDup_plug). unfold addrs in Hnd' |- *. rewrite Ec. cbn [cells] in Hnd'.
        rewrite fmap_app, fmap_cons in Hnd'. rewrite fmap_app. rewrite <- Permutation_middle in Hnd'. by apply NoDup_cons in Hnd' as [_ ?].
    + apply Hrf; [intros H0; by destruct (Hout _ (Hin H0))|]. by apply (path_relink _ C (T l c r) t').
    + apply Hrf; [intros H0; by destruct (Hout _ (Hin H0)) as (_ & ? & _)|].
      apply relink_hole_frame; [|done]. intros HC. apply Hpc2. by apply up_in_path.
Qed.

Lemma unlinked_at : skel <$> unlinked !! addr c = skel <$> nodes s !! addr c.
Proof using All.
  unfold unlinked, reparent.
  assert (relink_hole C (ptr t') (nodes s) !! addr c = nodes s !! addr c) as Hr.
  { destruct C as [|f C0] eqn:EC; [done|]. cbn. apply lookup_alter_ne. intros Heq.
    pose proof (NoDup_pieces _ _ (rep_nodup _ _ Hrep)) as Hpc. apply NoDup_app in Hpc as (_ & Hpc & _).
    apply (Hpc (addr c)); [by apply (ptr_in (T l c r))|]. rewrite <- Heq. apply elem_of_app. left. by apply (up_in_path (f :: C0)). }
  destruct (Z.eqb_spec (ptr t') 0); [by rewrite Hr|]. rewrite lookup_alter_ne; [by rewrite Hr|].
  destruct (ptr_null_or_in t') as [|Hin]; [done|]. by apply remaining_addrs in Hin as [_ ?].
Qed.
End remove.

Lemma sorted_drop (l1 l2 : list Z) x : StronglySorted Z.lt (l1 ++ x :: l2) → StronglySorted Z.lt (l1 ++ l2).
Proof.
  rewrite !sorted_app. intros (H1 & [H2 _]%StronglySorted_inv & H3). split_and!; try done.
  intros y z Hy Hz. apply H3; [done|by right].
Qed.

Lemma plug_node C l c r : cells (plug C (T l c r)) = (before C ++ cells l) ++ c :: (cells r ++ after C).
Proof. rewrite cells_plug. cbn. by rewrite <- !app_assoc. Qed.

Lemma remaining_cells C l c r t' : cells t' = cells l ++ cells r →
  cells (plug C t') = (before C ++ cells l) ++ (cells r ++ after C) ∧ (sorted (plug C (T l c r)) → sorted (plug C t')).
Proof.
  intros Ec. assert (cells (plug C t') = (before C ++ cells l) ++ (cells r ++ after C)) as E by (rewrite cells_plug, Ec; by rewrite <- !app_assoc).
  split; [done|]. unfold sorted. rewrite E, plug_node. rewrite fmap_app, fmap_cons. intros Hs%sorted_drop. by rewrite fmap_app.
Qed.

(** A cell of a tree with the context it is in. *)
Lemma focus_cells t pre c post : cells t = pre ++ c :: post → ∃ C l r,
  t = plug C (T l c r) ∧ pre = before C ++ cells l ∧ post = cells r ++ after C.
Proof.
  intros H. rewrite <- (icells 0) in H. apply fmap_app_inv in H as (l1 & l2 & -> & E2 & Einf).
  symmetry in E2. apply fmap_cons_inv in E2 as (x & l3 & -> & -> & ->).
  destruct (focus _ _ _ _ _ Einf) as (C & pre0 & Et & Epre & Epost). exists C, (ileft x), (iright x).
  split; [done|]. pose proof (plug_node C (ileft x) (icell x) (iright x)) as E3.
  rewrite <- Et, <- (icells 0), Einf, fmap_app, fmap_cons, Epost in E3. split; [|done]. by apply app_inv_tail in E3.
Qed.

Lemma bst_remove_node_unbalenced_ok s C l c r t' : represents s (plug C (T l c r)) → sorted (plug C (T l c r)) →
  l = E ∧ t' = r ∨ r = E ∧ t' = l →
  ∃ s' n, bst_remove_node_unbalenced (addr c) s = Ok (tt, s') ∧ represents s' (plug C t') ∧
    node_at (addr c) s' = Ok (n, s') ∧ parent n = up C.
Proof.
  intros Hrep Hsort Hone. destruct (node_of _ _ _ _ _ (represents_linked _ _ Hrep)) as (n & Hn & (_ & Ep & El & Er & _) & En).
  cbn in Ep, El, Er. unfold bst_remove_node_unbalenced.
  rewrite (M_bind_step _ _ _ _ _ (check_tree_ok _ _ 0 Hrep)), (M_bind_step _ _ _ _ _ En).
  rewrite (M_bind_step _ _ _ _ _ (remove_links_ok s C l c r t' Hrep Hone n En Ep El Er)). rewrite Ep.
  set (s1 := Bst (ptr (plug C t')) (unlinked s C t')).
  pose proof (unlinked_linked s C l c r t' Hrep Hone) as Ht1. fold s1 in Ht1.
  pose proof (unlinked_measures s C l c r t' Hrep Hone) as Hm.
  pose proof (unlinked_at s C l c r t' Hrep Hone) as Hat.
  destruct (remaining s C l c r t' Hrep Hone) as (Ec & _ & _ & _ & Hht & Hbt).
  pose proof (rep_heights _ _ Hrep) as Hh. pose proof (rep_bfs _ _ Hrep) as Hb.
  apply holds_plug in Hh as (_ & _ & Hhs), Hb as (_ & _ & Hbs).
  assert (∀ s', (∀ a, skel <$> nodes s1 !! a = skel <$> nodes s' !! a) → ∃ n', node_at (addr c) s' = Ok (n', s') ∧ parent n' = up C) as Hend.
  { intros s' Hs'. specialize (Hs' (addr c)). cbn [nodes s1] in Hs'. rewrite Hat, Hn in Hs'. cbn in Hs'.
    destruct (nodes s' !! addr c) as [n'|] eqn:En'; [|done]. exists n'. split; [by apply node_at_ok|].
    apply (inj Some) in Hs'. rewrite <- Ep. by injection Hs'. }
  destruct C as [|f C].
  - cbn [up Z.eqb negb]. rewrite (M_bind_step _ _ _ tt s1) by done.
    assert (represents s1 t') as Hrep1.
    { destruct Ht1 as (? & ? & ?). split; try done.
      - apply (holds_same measures _ (nodes s)); [apply height_measures|done|by eapply height_right_parent].
      - apply (holds_same measures _ (nodes s)); [apply bf_measures|done|by eapply bf_right_parent]. }
    destruct (Hend s1) as (n' & En' & Ep'); [done|]. exists s1, n'. split; [by apply check_tree_ok with t'|done].
  - pose proof (proj2 (remaining_cells (f :: C) l c r t' Ec) Hsort) as Hsort1.
    destruct (recalculated s1 C (fdir f) t' (fcell f) (fsib f) C (fdir f) t' (fcell f) (fsib f) (plug (f :: C) t'))
      as (m2 & E2 & Hrep2 & Hsk); try done.
    + cbn [side_infos] in Hhs. apply holds_app in Hhs as [Hh1 Hh2].
      apply (holds_same measures _ (nodes s)); [apply height_measures|done|]. rewrite !holds_app. split_and!; try done.
      by eapply height_right_parent.
    + cbn [side_infos] in Hbs. apply holds_app in Hbs as [_ Hb2].
      by apply (holds_same measures _ (nodes s)); [apply bf_measures|..].
    + destruct (parent_of_removed s (f :: C) l c r Hrep f C eq_refl) as (Hz & _). cbn [up].
      destruct (Z.eqb_spec (addr (fcell f)) 0); [done|]. cbn [negb]. rewrite (M_bind_step _ _ _ _ _ E2).
      destruct (Hend (Bst (root s1) m2) Hsk) as (n' & En' & Ep'). exists (Bst (root s1) m2), n'.
      split; [by apply check_tree_ok with (plug (f :: C) t')|done].
Qed.

(** [bst_remove_node] of a node with at most one child: no check fails,
    exactly that node is taken out of the order, and the tree is balanced
    again. *)
Theorem bst_remove_node_correct s t pre c post n (Hrep : represents s t) (Hsort : sorted t) (Havl : avl t)
  (Hin : cells t = pre ++ c :: post) (Hn : nodes s !! addr c = Some n) (Hone : left n = 0 ∨ right n = 0) :
  ∃ s' t', bst_remove_node (addr c) s = Ok (tt, s') ∧ represents s' t' ∧ sorted t' ∧ avl t' ∧ cells t' = pre ++ post.
Proof.
  destruct (focus_cells _ _ _ _ Hin) as (C & l & r & -> & -> & ->).
  destruct (rep_bf _ _ _ _ _ Hrep) as (n' & En' & _ & El & Er & _). unfold node_at in En'. rewrite Hn in En'. injection En' as <-.
  pose proof (rep_linked _ _ Hrep) as Hlk. apply holds_plug in Hlk as (Hlk & _). apply holds_T in Hlk as (_ & Hl & Hr).
  assert (∃ t', l = E ∧ t' = r ∨ r = E ∧ t' = l) as (t' & Hor).
  { pose proof (linked_null _ _ _ Hl) as H1. pose proof (linked_null _ _ _ Hr) as H2. rewrite <- El in H1. rewrite <- Er in H2.
    destruct Hone as [H0|H0].
    - rewrite H0 in H1. exists r. left. by destruct l.
    - rewrite H0 in H2. exists l. right. by destruct r. }
  destruct (remaining s C l c r t' Hrep Hor) as (Ec & Ha & Hht & _).
  apply avl_plug in Havl as [Havl HC]. specialize (Ha Havl).
  destruct (remaining_cells C l c r t' Ec) as [Ecells Hsort']. specialize (Hsort' Hsort).
  destruct (bst_remove_node_unbalenced_ok s C l c r t' Hrep Hsort Hor) as (s1 & n1 & Erm & Hrep1 & En1 & Ep1).
  unfold bst_remove_node. rewrite (M_bind_step _ _ _ _ _ (check_tree_ok _ _ 0 Hrep)), (M_bind_step _ _ _ _ _ Erm), (M_bind_step _ _ _ _ _ En1).
  rewrite Ep1. destruct C as [|f C].
  - exists s1, t'. cbn [up Z.eqb negb]. rewrite (M_bind_step _ _ _ tt s1) by done.
    split; [by apply check_tree_ok with t'|]. by split_and!.
  - destruct (bst_check_and_rebalence_ok s1 (f :: C) t' (ht (T l c r))) as (s2 & t2 & E2 & Hrep2 & Hc2 & Ha2); try done; [lia|].
    destruct (parent_of_removed s (f :: C) l c r Hrep f C eq_refl) as (Hz & _). cbn [up].
    destruct (Z.eqb_spec (addr (fcell f)) 0); [done|]. cbn [negb]. cbn [up] in E2. rewrite (M_bind_step _ _ _ _ _ E2).
    exists s2, t2. split; [by apply check_tree_ok with t2|]. split; [done|]. split; [by eapply sorted_cells|]. split; [done|by rewrite Hc2, Ecells].
Qed.

(** [bst_find_node] returns the node with the key, or null when there is
    none, and changes nothing. *)
Theorem bst_find_node_correct s t k (Hrep : represents s t) (Hsort : sorted t) :
  bst_find_node k s = Ok (lookup_key k (cells t), s).
Proof.
  unfold bst_find_node. rewrite (M_bind_step _ _ _ _ _ (check_tree_ok _ _ 0 Hrep)).
  unfold get_root. rewrite (M_bind_step _ _ _ (root s) s) by done. rewrite (rep_root _ _ Hrep).
  pose proof (fuel_enough s 0 t (rep_linked _ _ Hrep) (rep_nodup _ _ Hrep)).
  apply (find_from_ok s t k (fuel_of s) 0 t); [done|apply Hrep|lia|done].
Qed.

(** ** An example *)

Definition c3 : cell := Cell 16 3 103.
Definition c5 : cell := Cell 32 5 105.
Definition c10 : cell := Cell 48 10 110.
Definition c15 : cell := Cell 64 15 115.
(** The tree of 10 with the children 5, whose left child is 3, and 15; the
    node at 80 is zeroed memory. *)
Definition demo_tree : tree := T (T (T E c3 E) c5 E) c10 (T E c15 E).
Definition demo_bst : bst := Bst 48 (list_to_map [
  (16, BstNode 32 0 0 103 3 0 0); (32, BstNode 48 16 0 105 5 1 1);
  (48, BstNode 0 32 64 110 10 1 2); (64, BstNode 48 0 0 115 15 0 0); (80, BstNode 0 0 0 0 0 0 0)]).

Ltac check_cells := let i := fresh in let Hi := fresh in intros i Hi; cbn in Hi;
  repeat (apply elem_of_cons in Hi as [->|Hi]; [eexists; split; [vm_compute; reflexivity|vm_compute; repeat split; discriminate || reflexivity]|]);
  by apply elem_of_nil in Hi.

Lemma demo_represents : represents demo_bst demo_tree.
Proof.
  split; [done|apply (bool_decide_unpack _); vm_compute; exact I|check_cells|check_cells|check_cells].
Qed.

Lemma demo_sorted : sorted demo_tree.
Proof. unfold sorted. cbn. repeat (constructor; try lia). Qed.

Lemma demo_avl : avl demo_tree.
Proof. cbn. repeat split; lia. Qed.

Lemma bst_insert_node_correct_witness : ∃ s' t', bst_insert_node 80 4 104 demo_bst = Ok (tt, s') ∧ represents s' t' ∧ avl t' ∧
  cells t' ≡ₚ [Cell 80 4 104; c3; c5; c10; c15].
Proof.
  destruct (proj1 (bst_insert_node_correct demo_bst demo_tree 80 4 104 (BstNode 0 0 0 0 0 0 0) demo_represents demo_sorted demo_avl
    ltac:(discriminate) ltac:(apply (bool_decide_unpack _); vm_compute; exact I) eq_refl eq_refl)
    ltac:(apply (bool_decide_unpack _); vm_compute; exact I)) as (s' & t' & H1 & H2 & _ & H3 & H4).
  exists s', t'. split; [exact H1|]. split; [exact H2|]. split; [exact H3|exact H4].
Defined.

Lemma bst_remove_node_correct_witness : ∃ s' t', bst_remove_node 64 demo_bst = Ok (tt, s') ∧ represents s' t' ∧ avl t' ∧
  cells t' = [c3; c5; c10].
Proof.
  destruct (bst_remove_node_correct demo_bst demo_tree [c3; c5; c10] c15 [] (BstNode 48 0 0 115 15 0 0) demo_represents demo_sorted demo_avl
    eq_refl eq_refl (or_introl eq_refl)) as (s' & t' & H1 & H2 & _ & H3 & H4).
  exists s', t'. split; [exact H1|]. split; [exact H2|]. split; [exact H3|exact H4].
Defined.

Lemma bst_find_node_correct_witness : bst_find_node 5 demo_bst = Ok (32, demo_bst).
Proof. exact (bst_find_node_correct demo_bst demo_tree 5 demo_represents demo_sorted). Defined.

(** A node with two children is replaced by the greatest one below its left
    child; the left subtree of that one is dropped: removing 10 loses 3, and
    no check notices. *)
Theorem remove_with_both_children_loses_nodes : ∃ s' t', bst_remove_node 48 demo_bst = Ok (tt, s') ∧ represents s' t' ∧
  cells demo_tree = [c3; c5; c10; c15] ∧ cells t' = [c5; c15] ∧ bst_find_node 3 s' = Ok (0, s').
Proof.
  set (s' := Bst 32 (list_to_map [
    (16, BstNode 32 0 0 103 3 0 0); (32, BstNode 0 0 64 105 5 (-1) 1);
    (48, BstNode 0 0 64 110 10 1 2); (64, BstNode 32 0 0 115 15 0 0); (80, BstNode 0 0 0 0 0 0 0)])).
  exists s', (T E c5 (T E c15 E)). split; [vm_compute; reflexivity|]. split.
  { split; [done|apply (bool_decide_unpack _); vm_compute; exact I|check_cells|check_cells|check_cells]. }
  split; [done|]. split; [done|]. vm_compute. reflexivity.
Qed.
