(* ===== verification/Queue.v ===== *)
(** Bounded queues in a ring buffer (src/kernel/lib/queue.c,
    src/include/kernel/lib/queue.h), and their refinement of FIFO lists. *)
From S2P Require Import Prelude StrUtil.

(** ** Data and operations *)

(** [buf] is the memory behind the pointer of that name, in bytes. *)
Record queue := Queue {
  buf : list Z;
  enqueue_index : Z; dequeue_index : Z; item_size : Z; cap : Z;
  last_was_enqueue : bool;
}.

Definition queue_init (b : list Z) (itemsize c : Z) : queue := Queue b 0 0 itemsize c false.

Definition queue_is_full (self : queue) : bool :=
  (enqueue_index self =? dequeue_index self) && last_was_enqueue self.

Definition queue_is_empty (self : queue) : bool :=
  (enqueue_index self =? dequeue_index self) && negb (last_was_enqueue self).

(** [x % self->cap]: a remainder by zero is undefined. *)
Definition mod_cap (self : queue) (x : Z) : res Z :=
  if cap self =? 0 then Fault Div_by_zero else Ok (x mod cap self).

Definition queue_enqueue (self : queue) (data : list Z) (itemsize : Z) : res (Z * queue) :=
  _ ← assert_ (itemsize =? item_size self);
  if queue_is_full self then Ok (- ENOMEM, self)
  else
    enqueueindex ← mod_cap self (u32 (enqueue_index self + 1));
    b ← vmemcpy (buf self) (u32 (enqueue_index self * itemsize)) data 0 itemsize;
    Ok (0, Queue b enqueueindex (dequeue_index self) (item_size self) (cap self) true).

(** The new contents of [out_buf], if an item was dequeued. *)
Definition queue_dequeue (out_buf : list Z) (self : queue) (itemsize : Z)
    : res (bool * list Z * queue) :=
  _ ← assert_ (itemsize =? item_size self);
  if queue_is_empty self then Ok (false, out_buf, self)
  else
    dequeueindex ← mod_cap self (u32 (dequeue_index self + 1));
    out ← vmemcpy out_buf 0 (buf self) (u32 (dequeue_index self * itemsize)) itemsize;
    Ok (true, out,
        Queue (buf self) (enqueue_index self) dequeueindex (item_size self) (cap self) false).

(** The offset in [buf] of the item at the head; [None] is the null pointer. *)
Definition queue_peek (self : queue) (itemsize : Z) : res (option Z) :=
  _ ← assert_ (itemsize =? item_size self);
  if queue_is_empty self then Ok None
  else Ok (Some (u32 (dequeue_index self * itemsize))).

(** ** Abstraction *)

Record queue_wf (self : queue) : Prop := {
  q_size : 0 < item_size self;
  q_cap : 0 < cap self;
  q_buf : Z.of_nat (length (buf self)) = cap self * item_size self;
  q_max : cap self * item_size self < 2 ^ 32;
  q_enq : 0 ≤ enqueue_index self < cap self;
  q_deq : 0 ≤ dequeue_index self < cap self;
}.

(** The number of items in the queue. *)
Definition count (self : queue) : Z :=
  if enqueue_index self =? dequeue_index self then
    if last_was_enqueue self then cap self else 0
  else (enqueue_index self - dequeue_index self) mod cap self.

Definition item (self : queue) (i : Z) : list Z :=
  take (Z.to_nat (item_size self)) (drop (Z.to_nat (i * item_size self)) (buf self)).

(** The items, from the head of the queue on. *)
Definition items (self : queue) : list (list Z) :=
  (λ i : nat, item self ((dequeue_index self + Z.of_nat i) mod cap self)) <$>
    seq 0 (Z.to_nat (count self)).

(** ** Index arithmetic *)

Lemma mod_once x c : 0 ≤ x < 2 * c → x mod c = if x <? c then x else x - c.
Proof.
  intros Hx. destruct (Z.ltb_spec x c).
  - by rewrite Z.mod_small by lia.
  - symmetry. apply (Z.mod_unique _ _ 1); lia.
Qed.

Lemma count_eq self : queue_wf self →
  count self =
    if enqueue_index self =? dequeue_index self then
      if last_was_enqueue self then cap self else 0
    else if dequeue_index self <? enqueue_index self
      then enqueue_index self - dequeue_index self
      else enqueue_index self - dequeue_index self + cap self.
Proof.
  intros [_ Hc _ _ He Hd]. unfold count. destruct (Z.eqb_spec (enqueue_index self) (dequeue_index self)); [done|].
  destruct (Z.ltb_spec (dequeue_index self) (enqueue_index self)).
  - by rewrite Z.mod_small by lia.
  - rewrite <- (Z.mod_add _ 1) by lia. rewrite Z.mod_small by lia. lia.
Qed.

Lemma index_in_buf self i : queue_wf self → 0 ≤ i < cap self →
  0 ≤ i * item_size self ∧ i * item_size self + item_size self ≤ Z.of_nat (length (buf self)) ∧
  u32 (i * item_size self) = i * item_size self.
Proof.
  intros [Hs Hc Hb Hm _ _] Hi. rewrite Hb.
  assert (i * item_size self + item_size self ≤ cap self * item_size self) by nia.
  split_and!; [nia|lia|]. apply u32_small. nia.
Qed.

Lemma item_read self i : queue_wf self → 0 ≤ i < cap self →
  mem_read (buf self) (i * item_size self) (item_size self) = Ok (item self i) ∧
  Z.of_nat (length (item self i)) = item_size self.
Proof.
  intros Hwf Hi. pose proof (index_in_buf self i Hwf Hi) as (H1 & H2 & _).
  pose proof (q_size _ Hwf). rewrite mem_read_ok by lia. split; [done|].
  unfold item. rewrite length_take, length_drop. lia.
Qed.

Lemma items_length self : length (items self) = Z.to_nat (count self).
Proof. unfold items. by rewrite length_fmap, length_seq. Qed.

Lemma items_lookup self i : (i < Z.to_nat (count self))%nat →
  items self !! i = Some (item self ((dequeue_index self + Z.of_nat i) mod cap self)).
Proof. intros Hi. unfold items. rewrite list_lookup_fmap, lookup_seq_lt by done. done. Qed.

Lemma queue_full_count self : queue_wf self →
  queue_is_full self = true ↔ count self = cap self.
Proof.
  intros Hwf. rewrite count_eq by done. destruct Hwf as [_ Hc _ _ He Hd]. unfold queue_is_full.
  destruct (Z.eqb_spec (enqueue_index self) (dequeue_index self)), (last_was_enqueue self);
    cbn; zcase; (split; (done || lia)).
Qed.

Lemma count_bounds self : queue_wf self → 0 ≤ count self ≤ cap self.
Proof.
  intros Hwf. pose proof (count_eq self Hwf) as ->. pose proof Hwf as [_ ? _ _ ? ?].
  zcase; destruct (last_was_enqueue self); lia.
Qed.

Lemma queue_empty_count self : queue_wf self →
  queue_is_empty self = true ↔ count self = 0.
Proof.
  intros Hwf. rewrite count_eq by done. destruct Hwf as [_ Hc _ _ He Hd]. unfold queue_is_empty.
  destruct (Z.eqb_spec (enqueue_index self) (dequeue_index self)), (last_was_enqueue self);
    cbn; zcase; (split; (done || lia)).
Qed.

Lemma queue_init_ok b itemsize c :
  0 < itemsize → 0 < c → Z.of_nat (length b) = c * itemsize → c * itemsize < 2 ^ 32 →
  queue_wf (queue_init b itemsize c) ∧ items (queue_init b itemsize c) = [].
Proof. intros. split; [split; cbn; (done || lia)|done]. Qed.

Lemma enqueue_ok self data :
  queue_wf self → Z.of_nat (length data) = item_size self →
  if queue_is_full self then queue_enqueue self data (item_size self) = Ok (- ENOMEM, self)
  else ∃ self', queue_enqueue self data (item_size self) = Ok (0, self') ∧
    queue_wf self' ∧ cap self' = cap self ∧ item_size self' = item_size self ∧
    items self' = items self ++ [data].
Proof.
  intros Hwf Hdata. pose proof (queue_full_count self Hwf) as Hfull.
  pose proof (count_eq self Hwf) as Hcount.
  unfold queue_enqueue. rewrite Z.eqb_refl. cbn.
  destruct (queue_is_full self) eqn:Ef; [done|].
  assert (Hncap : count self ≠ cap self) by (intros E; apply Hfull in E; done). clear Hfull.
  pose proof Hwf as [Hs Hc Hb Hm He Hd].
  destruct (index_in_buf self _ Hwf He) as (Ho1 & Ho2 & ->).
  assert (cap self < 2 ^ 32) by nia.
  unfold mod_cap. destruct (Z.eqb_spec (cap self) 0); [lia|]. cbn.
  rewrite (u32_small (enqueue_index self + 1)) by lia.
  unfold vmemcpy. rewrite mem_read_ok by lia. cbn.
  rewrite drop_0, take_ge by lia.
  destruct (mem_write (buf self) (enqueue_index self * item_size self) data) as [b|] eqn:Ew.
  2: { rewrite mem_write_ok in Ew by lia. done. }
  cbn. rewrite (mod_once (enqueue_index self + 1)) by lia. set (self' := Queue _ _ _ _ _ _).
  destruct (mem_write_read _ _ _ _ Ew) as [Hrd Hlen].
  assert (Hwf' : queue_wf self') by (split; cbn; try (done || lia); destruct (Z.ltb_spec (enqueue_index self + 1) (cap self)); lia).
  assert (Hcount' : count self' = count self + 1).
  { rewrite Hcount, count_eq by done. cbn.
    revert Hncap. rewrite Hcount. zcase; destruct (last_was_enqueue self); lia. }
  exists self'. split_and!; [done..|].
  assert (0 ≤ count self < cap self) as Hcb.
  { revert Hncap. rewrite Hcount. zcase; destruct (last_was_enqueue self); lia. }
  apply list_eq. intros i. destruct (lt_eq_lt_dec i (Z.to_nat (count self))) as [[Hi| ->]|Hi].
  - rewrite lookup_app_l by (rewrite items_length; lia).
    rewrite !items_lookup by lia. cbn. f_equal.
    set (k := (dequeue_index self + Z.of_nat i) mod cap self).
    assert (Hk : 0 ≤ k < cap self) by (apply Z.mod_pos_bound; lia).
    assert (k ≠ enqueue_index self) as Hke.
    { unfold k. rewrite mod_once by lia. revert Hi. rewrite Hcount.
      zcase; destruct (last_was_enqueue self); lia. }
    destruct (item_read self' k Hwf' Hk) as [Hr' _]. cbn in Hr'.
    rewrite (mem_write_read_other _ _ _ _ _ _ Ew) in Hr'.
    + destruct (item_read self k Hwf Hk) as [Hr _]. congruence.
    + rewrite Hdata. nia.
  - rewrite lookup_app_r by (rewrite items_length; lia).
    rewrite items_length, Nat.sub_diag. cbn. rewrite items_lookup by lia. cbn. f_equal.
    assert ((dequeue_index self + Z.of_nat (Z.to_nat (count self))) mod cap self = enqueue_index self) as ->.
    { rewrite mod_once by lia. rewrite Hcount. revert Hncap. rewrite Hcount.
      zcase; destruct (last_was_enqueue self); lia. }
    destruct (item_read self' (enqueue_index self) Hwf' He) as [Hr' _]. cbn in Hr'.
    rewrite <- Hdata in Hr' at 1. rewrite Hdata in Hr'.
    rewrite Hdata in Hrd. congruence.
  - rewrite !lookup_ge_None_2; [done| |].
    + rewrite length_app, items_length. cbn. lia.
    + rewrite items_length. lia.
Qed.

Lemma items_head self : queue_wf self → 0 < count self →
  items self = item self (dequeue_index self) :: drop 1 (items self).
Proof.
  intros Hwf Hc. pose proof (q_deq _ Hwf).
  assert (items self !! 0%nat = Some (item self (dequeue_index self))) as H0.
  { rewrite items_lookup by lia. do 2 f_equal. rewrite Z.mod_small; lia. }
  destruct (items self) as [|x xs]; [done|]. by injection H0 as ->.
Qed.

Lemma dequeue_ok self out :
  queue_wf self → item_size self ≤ Z.of_nat (length out) →
  match items self with
  | [] => queue_dequeue out self (item_size self) = Ok (false, out, self)
  | x :: xs => ∃ self',
      queue_dequeue out self (item_size self) =
        Ok (true, x ++ drop (Z.to_nat (item_size self)) out, self') ∧
      queue_wf self' ∧ cap self' = cap self ∧ item_size self' = item_size self ∧
      items self' = xs
  end.
Proof.
  intros Hwf Hout. pose proof (queue_empty_count self Hwf) as Hempty.
  pose proof (count_eq self Hwf) as Hcount.
  unfold queue_dequeue. rewrite Z.eqb_refl. cbn.
  destruct (queue_is_empty self) eqn:Ee.
  { assert (items self = []) as ->; [|done].
    apply nil_length_inv. rewrite items_length, (proj1 Hempty); done. }
  assert (Hn0 : count self ≠ 0) by (intros E; apply Hempty in E; done). clear Hempty.
  pose proof Hwf as [Hs Hc Hb Hm He Hd].
  assert (0 < count self ≤ cap self) as Hcb.
  { revert Hn0. rewrite Hcount. zcase; destruct (last_was_enqueue self); lia. }
  rewrite (items_head self Hwf) by lia.
  destruct (index_in_buf self _ Hwf Hd) as (Ho1 & Ho2 & ->).
  assert (cap self < 2 ^ 32) by nia.
  unfold mod_cap. destruct (Z.eqb_spec (cap self) 0); [lia|]. cbn.
  rewrite (u32_small (dequeue_index self + 1)) by lia.
  destruct (item_read self (dequeue_index self) Hwf Hd) as [Hr Hl].
  unfold vmemcpy. rewrite Hr. cbn. rewrite mem_write_ok by lia. cbn.
  rewrite (mod_once (dequeue_index self + 1)) by lia. set (self' := Queue _ _ _ _ _ _).
  assert (Hwf' : queue_wf self') by
    (split; cbn; try (done || lia); destruct (Z.ltb_spec (dequeue_index self + 1) (cap self)); lia).
  assert (Hcount' : count self' = count self - 1).
  { rewrite Hcount, count_eq by done. cbn.
    revert Hcb. rewrite Hcount. zcase; destruct (last_was_enqueue self); lia. }
  exists self'. split.
  { do 3 f_equal. replace (length (item self (dequeue_index self)))
      with (Z.to_nat (item_size self)) by lia. done. }
  split_and!; [done..|].
  apply list_eq. intros i. rewrite lookup_drop.
  destruct (decide (i < Z.to_nat (count self'))%nat) as [Hi|Hi].
  - rewrite !items_lookup by lia. do 2 f_equal. cbn.
    rewrite !mod_once by (destruct (Z.ltb_spec (dequeue_index self + 1) (cap self)); lia).
    zcase; lia.
  - rewrite !lookup_ge_None_2; [done| |]; rewrite items_length; lia.
Qed.

Lemma peek_ok self : queue_wf self →
  match items self with
  | [] => queue_peek self (item_size self) = Ok None
  | x :: _ => ∃ off, queue_peek self (item_size self) = Ok (Some off) ∧
      mem_read (buf self) off (item_size self) = Ok x
  end.
Proof.
  intros Hwf. pose proof (queue_empty_count self Hwf) as Hempty.
  unfold queue_peek. rewrite Z.eqb_refl. cbn.
  destruct (queue_is_empty self) eqn:Ee.
  { assert (items self = []) as ->; [|done].
    apply nil_length_inv. rewrite items_length, (proj1 Hempty); done. }
  assert (Hn0 : count self ≠ 0) by (intros E; apply Hempty in E; done).
  assert (0 < count self).
  { pose proof (count_eq self Hwf) as Hc. pose proof Hwf as [_ ? _ _ ? ?].
    revert Hn0. rewrite Hc. zcase; destruct (last_was_enqueue self); lia. }
  rewrite (items_head self Hwf) by done.
  pose proof (q_deq _ Hwf) as Hd. destruct (index_in_buf self _ Hwf Hd) as (_ & _ & ->).
  eexists. split; [done|]. by apply item_read.
Qed.

(** ** Properties *)

(** a queue over a buffer of [cap] items refines a FIFO list of at most
    [cap] items: enqueuing appends the item, or fails with -ENOMEM and changes
    nothing exactly when the queue holds [cap] items; dequeuing copies out and
    removes the first item, or returns false exactly when there is none; and
    peeking points at the first item. *)
Theorem queue_refines_fifo self data out :
  queue_wf self → Z.of_nat (length data) = item_size self →
  item_size self ≤ Z.of_nat (length out) →
  (if decide (Z.of_nat (length (items self)) = cap self)
   then queue_enqueue self data (item_size self) = Ok (- ENOMEM, self)
   else ∃ self', queue_enqueue self data (item_size self) = Ok (0, self') ∧
     queue_wf self' ∧ items self' = items self ++ [data]) ∧
  match items self with
  | [] => queue_dequeue out self (item_size self) = Ok (false, out, self) ∧
      queue_peek self (item_size self) = Ok None
  | x :: xs => (∃ self', queue_dequeue out self (item_size self) =
        Ok (true, x ++ drop (Z.to_nat (item_size self)) out, self') ∧
        queue_wf self' ∧ items self' = xs) ∧
      ∃ off, queue_peek self (item_size self) = Ok (Some off) ∧
        mem_read (buf self) off (item_size self) = Ok x
  end.
Proof.
  intros Hwf Hdata Hout.
  pose proof (enqueue_ok self data Hwf Hdata) as He.
  pose proof (dequeue_ok self out Hwf Hout) as Hd.
  pose proof (peek_ok self Hwf) as Hp.
  pose proof (queue_full_count self Hwf) as Hf.
  pose proof (count_bounds self Hwf) as [Hc _].
  assert (0 < cap self) by apply Hwf.
  split.
  - rewrite items_length. rewrite Z2Nat.id by done.
    case_decide as E.
    + rewrite (proj2 Hf E) in He. done.
    + destruct (queue_is_full self); [tauto|]. naive_solver.
  - destruct (items self); naive_solver.
Qed.

(** A queue of two-byte items with capacity 3 that has wrapped around. *)
Definition demo_queue : queue := Queue [1; 2; 3; 4; 5; 6] 1 2 2 3 true.

Lemma demo_queue_wf : queue_wf demo_queue.
Proof. by split. Defined.

Lemma queue_refines_fifo_witness :
  items demo_queue = [[5; 6]; [1; 2]] ∧
  (∃ self', queue_enqueue demo_queue [7; 8] 2 = Ok (0, self') ∧
     queue_wf self' ∧ items self' = [[5; 6]; [1; 2]; [7; 8]]) ∧
  (∃ self', queue_dequeue [0; 0; 9] demo_queue 2 = Ok (true, [5; 6; 9], self') ∧
        queue_wf self' ∧ items self' = [[1; 2]]) ∧
  ∃ off, queue_peek demo_queue 2 = Ok (Some off) ∧ mem_read (buf demo_queue) off 2 = Ok [5; 6].
Proof.
  split; [vm_compute; reflexivity|].
  exact (queue_refines_fifo demo_queue [7; 8] [0; 0; 9] demo_queue_wf eq_refl ltac:(discriminate)).
Defined.
