(* ===== verification/PathReader.v ===== *)
(** Path iteration (src/kernel/lib/pathreader.c,
    src/include/kernel/lib/pathreader.h): a path is read one name at a time. *)
From S2P Require Import Prelude StrUtil.

(** ** Data and operations *)

Definition SLASH : Z := 47.

Record path_reader := PathReader { remaining_path : list Z; name_buf : list Z }.

Definition pathreader_init (out : path_reader) (path : list Z) : path_reader :=
  PathReader path (name_buf out).

(** One iteration of the loop of [pathreader_next]; its result is the return
    value and, on success, the memory [*name_out] points to. *)
Definition pathreader_step (self : path_reader)
    : res (path_reader + (Z * option (list Z) * path_reader)) :=
  c ← rd (remaining_path self) 0;
  if c =? 0 then Ok (inr (- ENOENT, None, self))
  else
    nextslash ← kstrchr (remaining_path self) SLASH;
    let finish name self :=
      c ← rd name 0;
      if c =? 0 then Ok (inl self) else Ok (inr (0, Some name, self)) in
    match nextslash with
    | None =>
        eos ← kstrchr (remaining_path self) 0;
        match eos with
        | None => Fault Bad_pointer
        | Some n =>
            finish (remaining_path self)
              (PathReader (drop (Z.to_nat n) (remaining_path self)) (name_buf self))
        end
    | Some n =>
        if NAME_MAX <? n then Ok (inr (- ENAMETOOLONG, None, self))
        else
          b ← vmemcpy (name_buf self) 0 (remaining_path self) 0 n;
          b ← wr b n 0;
          finish b (PathReader (drop (Z.to_nat n + 1) (remaining_path self)) b)
    end.

Definition pathreader_next (self : path_reader) : res (Z * option (list Z) * path_reader) :=
  loop (S (length (remaining_path self))) pathreader_step self.

(** ** Specification: the components of a path *)

Fixpoint split_slash (cs : list Z) : list (list Z) :=
  match cs with
  | [] => [[]]
  | c :: cs' =>
      if c =? SLASH then [] :: split_slash cs'
      else match split_slash cs' with
           | p :: ps => (c :: p) :: ps
           | [] => [[c]]
           end
  end.

Definition components (cs : list Z) : list (list Z) :=
  filter (λ p, p ≠ []) (split_slash cs).

(** The C string at the start of an array. *)
Fixpoint cstr_of (s : list Z) : list Z :=
  match s with [] => [] | c :: s' => if c =? 0 then [] else c :: cstr_of s' end.

(** What a client that reads names until the reader fails has read. *)
Fixpoint read_all (fuel : nat) (self : path_reader) : res (list (list Z) * Z) :=
  match fuel with
  | O => Fault No_fuel
  | S fuel =>
      '(ret, name, self') ← pathreader_next self;
      match name with
      | None => Ok ([], ret)
      | Some name =>
          '(names, ret) ← read_all fuel self';
          Ok (cstr_of name :: names, ret)
      end
  end.

Lemma split_slash_none cs : SLASH ∉ cs → split_slash cs = [cs].
Proof.
  induction cs as [|c cs IH]; cbn; [done|]. intros Hn.
  destruct (Z.eqb_spec c SLASH) as [->|]; [set_solver|]. by rewrite IH by set_solver.
Qed.

Lemma split_slash_app pre post :
  SLASH ∉ pre → split_slash (pre ++ SLASH :: post) = pre :: split_slash post.
Proof.
  induction pre as [|c pre IH]; intros Hn; cbn; [done|].
  destruct (Z.eqb_spec c SLASH) as [->|]; [set_solver|]. by rewrite IH by set_solver.
Qed.

Lemma cstr_of_ok s cs : cstr s cs → cstr_of s = cs.
Proof.
  intros [Hz [tl ->]]. induction cs as [|c cs IH]; cbn; [done|].
  destruct (Z.eqb_spec c 0) as [->|]; [set_solver|]. f_equal. apply IH. set_solver.
Qed.

Lemma components_none cs : SLASH ∉ cs → cs ≠ [] → components cs = [cs].
Proof.
  intros Hn Hne. unfold components. rewrite split_slash_none by done.
  by rewrite filter_cons_True.
Qed.

Lemma components_app pre post :
  SLASH ∉ pre → components (pre ++ SLASH :: post) =
    if decide (pre = []) then components post else pre :: components post.
Proof.
  intros Hn. unfold components. rewrite split_slash_app by done.
  case_decide; [by rewrite filter_cons_False by tauto|by rewrite filter_cons_True].
Qed.

(** ** One call *)

(** A reader whose remaining path is the C string [cs]. *)
Definition reads (self : path_reader) (cs : list Z) : Prop :=
  cstr (remaining_path self) cs ∧ Z.of_nat (length (name_buf self)) = NAME_MAX + 1.

Lemma vmemcpy_prefix (b s cs : list Z) n :
  n = Z.of_nat (length cs) → n ≤ Z.of_nat (length b) →
  vmemcpy b 0 (cs ++ s) 0 n = Ok (cs ++ drop (length cs) b).
Proof.
  intros -> Hb. unfold vmemcpy. rewrite mem_read_ok by (rewrite ?length_app; lia). cbn.
  rewrite drop_0, Nat2Z.id, take_app_length. rewrite mem_write_ok by lia. done.
Qed.

(** The outcome of one call: the end of the path, a name that does not fit
    and is followed by a slash, or the first component. *)
Definition next_outcome (cs : list Z) (r : Z * option (list Z) * path_reader) : Prop :=
  match components cs with
  | [] => r.1 = (- ENOENT, None)
  | p :: ps =>
      (r.1 = (- ENAMETOOLONG, None) ∧ NAME_MAX < Z.of_nat (length p)) ∨
      ∃ name cs', r.1 = (0, Some name) ∧ cstr name p ∧ reads r.2 cs' ∧ components cs' = ps
  end.

Lemma pathreader_next_ok self cs :
  reads self cs → ∃ r, pathreader_next self = Ok r ∧ next_outcome cs r.
Proof.
  intros Hr. apply (loop_rule _ (λ x, ∃ cs', reads x cs' ∧ components cs' = components cs)
    (λ x, length (remaining_path x))).
  2: { by exists cs. }
  2: lia.
  clear self Hr. intros self (cs' & [[Hz [tl Hs]] Hb] & Hc).
  unfold pathreader_step, next_outcome. rewrite <- Hc. rewrite Hs.
  destruct cs' as [|c0 cs0] eqn:Ecs.
  { rewrite (rd_ok _ 0 0) by done. cbn. eexists. split; [done|]. done. }
  rewrite (rd_ok _ 0 c0) by done. cbn [mbind res_bind].
  destruct (Z.eqb_spec c0 0) as [->|Hc0]; [set_solver|].
  rewrite <- Ecs in *. assert (Hne : cs' ≠ []) by (by rewrite Ecs). clear c0 cs0 Hc0 Ecs.
  assert (Hcs : cstr (cs' ++ 0 :: tl) cs') by (split; [done|by eexists]).
  destruct (kstrchr_from_ok 0 _ _ SLASH Hcs) as [[Hn E]|(pre & post & -> & Hn & E)]; [done|..];
    unfold kstrchr; rewrite E; cbn [mbind res_bind].
  - (* the last name *)
    rewrite (kstrchr_from_nul 0 _ cs') by done. cbn [mbind res_bind].
    eexists. split; [done|]. rewrite components_none by done. right.
    exists (cs' ++ 0 :: tl), []. cbn [fst snd]. split_and!; try done.
    split; [|done]. split; [set_solver|]. exists tl.
    cbn [remaining_path]. by rewrite Z.add_0_l, Nat2Z.id, drop_app_length.
  - (* a name followed by a slash *)
    rewrite Z.add_0_l.
    rewrite components_app by done.
    destruct (Z.ltb_spec NAME_MAX (Z.of_nat (length pre))) as [Hlong|Hfit].
    { eexists. split; [done|]. rewrite decide_False by (intros ->; cbn in Hlong; unfold NAME_MAX in *; lia).
      by left. }
    rewrite <- app_assoc. rewrite vmemcpy_prefix by (unfold NAME_MAX in *; lia).
    cbn [mbind res_bind].
    assert (Hlen : length (pre ++ drop (length pre) (name_buf self)) = length (name_buf self)).
    { rewrite length_app, length_drop. unfold NAME_MAX in *. lia. }
    rewrite wr_ok by (rewrite Hlen; unfold NAME_MAX in *; lia). cbn [mbind res_bind].
    rewrite Nat2Z.id.
    assert (Hwr : ∃ x, <[length pre := 0]> (pre ++ drop (length pre) (name_buf self)) = pre ++ 0 :: x).
    { destruct (drop (length pre) (name_buf self)) as [|y x] eqn:Ed.
      - apply (f_equal length) in Ed. rewrite length_drop in Ed. cbn in Ed.
        unfold NAME_MAX in *. lia.
      - exists x. rewrite insert_app_r_alt by lia. by rewrite Nat.sub_diag. }
    assert (Hreads : reads (PathReader (drop (length pre + 1) (pre ++ (SLASH :: post) ++ 0 :: tl))
      (<[length pre := 0]> (pre ++ drop (length pre) (name_buf self)))) post).
    { split; [|cbn; rewrite length_insert, Hlen; done]. cbn [remaining_path].
      rewrite drop_app_add. cbn. split; [set_solver|by eexists]. }
    destruct Hwr as [x Hwr]. rewrite Hwr in Hreads |- *.
    destruct pre as [|c0 pre'] eqn:Epre.
    + rewrite (rd_ok _ 0 0) by done. cbn. eexists. split; [done|]. split; [by exists post|].
      cbn [remaining_path]. rewrite drop_0. lia.
    + rewrite (rd_ok _ 0 c0) by done. cbn [mbind res_bind].
      destruct (Z.eqb_spec c0 0) as [->|Hc0]; [set_solver|].
      eexists. split; [done|]. rewrite decide_False by done. right.
      exists ((c0 :: pre') ++ 0 :: x), post. cbn [fst snd]. split_and!; try done.
      split; [set_solver|by eexists].
Qed.

(** ** Reading a whole path *)

(** Reading goes through the components until the first one that does not fit
    and is not the last. *)
Lemma read_all_ok fuel self cs :
  reads self cs → (length (components cs) < fuel)%nat →
  ∃ names ret, read_all fuel self = Ok (names, ret) ∧ names `prefix_of` components cs ∧
    (names = components cs ∧ ret = - ENOENT ∨
     ret = - ENAMETOOLONG ∧ ∃ p, components cs !! length names = Some p ∧
       NAME_MAX < Z.of_nat (length p)).
Proof.
  revert self cs. induction fuel as [|fuel IH]; intros self cs Hr Hf; [lia|]. cbn.
  destruct (pathreader_next_ok self cs Hr) as ([[ret name] self'] & -> & Ho). cbn.
  unfold next_outcome in Ho. destruct (components cs) as [|p ps].
  { injection Ho as -> ->. eexists _, _. split; [done|]. split; [done|]. by left. }
  destruct Ho as [[[= -> ->] Hp]|(nm & cs' & [= -> ->] & Hnm & Hr' & <-)].
  { eexists _, _. split; [done|]. split; [apply prefix_nil|]. right. split; [done|]. by exists p. }
  destruct (IH self' cs' Hr') as (names & ret & -> & Hpre & Ho); [cbn in Hf; lia|]. cbn.
  rewrite (cstr_of_ok nm p) by done. eexists _, _. split; [done|]. split.
  { by apply prefix_cons. }
  destruct Ho as [[-> ->]|[-> Ho]]; [by left|]. by right.
Qed.

(** ** Properties *)

(** iterating [pathreader_next] from [pathreader_init] until it fails
    terminates and yields exactly the nonempty pieces of the path between
    slashes, in order, and ends with -ENOENT, provided that no piece is longer
    than NAME_MAX; otherwise it may stop early, with -ENAMETOOLONG, but only at
    a piece that is too long. *)
Theorem path_iteration_yields_components path cs out :
  cstr path cs → Z.of_nat (length (name_buf out)) = NAME_MAX + 1 →
  ∃ names ret,
    read_all (S (length (components cs))) (pathreader_init out path) = Ok (names, ret) ∧
    names `prefix_of` components cs ∧
    (Forall (λ p, Z.of_nat (length p) ≤ NAME_MAX) (components cs) →
       names = components cs ∧ ret = - ENOENT) ∧
    (names ≠ components cs → ret = - ENAMETOOLONG ∧
       ∃ p, components cs !! length names = Some p ∧ NAME_MAX < Z.of_nat (length p)).
Proof.
  intros Hp Hb.
  destruct (read_all_ok (S (length (components cs))) (pathreader_init out path) cs)
    as (names & ret & Hr & Hpre & Ho); [by split|lia|].
  exists names, ret. split_and!; [done|done| |].
  - intros Hall. destruct Ho as [?|[-> (p & Hlk & Hlong)]]; [done|].
    eapply Forall_lookup_1 in Hall; [|done]. cbn in Hall. lia.
  - intros Hne. destruct Ho as [[? _]|?]; [done|]. done.
Qed.

(** "//ab/c" *)
Lemma path_iteration_yields_components_witness :
  let path := [47; 47; 97; 98; 47; 99; 0] in
  let out := PathReader [] (replicate 256 0) in
  components [47; 47; 97; 98; 47; 99] = [[97; 98]; [99]] ∧
  ∃ names ret,
    read_all 3 (pathreader_init out path) = Ok (names, ret) ∧
    names `prefix_of` [[97; 98]; [99]] ∧
    (Forall (λ p, Z.of_nat (length p) ≤ NAME_MAX) [[97; 98]; [99]] →
       names = [[97; 98]; [99]] ∧ ret = - ENOENT) ∧
    (names ≠ [[97; 98]; [99]] → ret = - ENAMETOOLONG ∧
       ∃ p, [[97; 98]; [99]] !! length names = Some p ∧ NAME_MAX < Z.of_nat (length p)).
Proof.
  split; [vm_compute; reflexivity|].
  apply (path_iteration_yields_components [47; 47; 97; 98; 47; 99; 0] [47; 47; 97; 98; 47; 99]).
  - split; [set_solver|by eexists].
  - reflexivity.
Defined.

(** the limit on the length of a name is enforced only on names that are
    followed by a slash: for every length, a path that is one single name is
    accepted and its name handed out. *)
Theorem last_name_is_not_limited n out :
  let path := replicate (S n) 97 ++ [0] in
  pathreader_next (pathreader_init out path) =
    Ok (0, Some path, PathReader [0] (name_buf out)).
Proof.
  intros path. set (cs := replicate (S n) 97).
  assert (Hcs : cstr (cs ++ [0]) cs).
  { split; [|by eexists]. intros Hin. by apply elem_of_replicate in Hin as [? _]. }
  assert (Hn : SLASH ∉ cs) by (intros Hin; by apply elem_of_replicate in Hin as [? _]).
  assert (Hrd : rd path 0 = Ok 97) by (by apply rd_ok).
  assert (Hslash : kstrchr path SLASH = Ok None).
  { destruct (kstrchr_from_ok 0 _ cs SLASH Hcs) as [[_ E]|(pre & post & Heq & _)];
      [done|done|]. exfalso. apply Hn. rewrite Heq. set_solver. }
  assert (Hnul : kstrchr path 0 = Ok (Some (0 + Z.of_nat (length cs))))
    by (by apply kstrchr_from_nul).
  assert (Hdrop : drop (length cs) path = [0]) by (apply drop_app_length).
  clearbody path. unfold pathreader_next. rewrite loop_S.
  unfold pathreader_step, pathreader_init. cbn [remaining_path name_buf].
  rewrite Hrd. cbn [mbind res_bind]. rewrite Hslash. cbn [mbind res_bind]. rewrite Hnul. cbn [mbind res_bind].
  by rewrite Z.add_0_l, Nat2Z.id, Hdrop.
Qed.
