(* ===== verification/Arch.v ===== *)
(** The architecture interface the portable code uses: the interrupt flag
    (src/include/kernel/arch/interrupts.h, src/kernel/arch/i586/interrupts.c)
    and the page size (src/kernel/arch/i586/mmu.c). *)
From S2P Require Import Prelude.

Inductive ARCH_IRQSTATE := IRQSTATE_DISABLED | IRQSTATE_ENABLED.

#[export] Instance ARCH_IRQSTATE_eq_dec : EqDecision ARCH_IRQSTATE.
Proof. solve_decision. Defined.

(** The interrupt flag of EFLAGS is the only processor state. *)
Definition arch_irq_are_enabled (eflags_if : bool) : ARCH_IRQSTATE :=
  if eflags_if then IRQSTATE_ENABLED else IRQSTATE_DISABLED.

Definition arch_irq_enable (eflags_if : bool) : ARCH_IRQSTATE * bool :=
  (arch_irq_are_enabled eflags_if, true).

Definition arch_irq_disable (eflags_if : bool) : ARCH_IRQSTATE * bool :=
  (arch_irq_are_enabled eflags_if, false).

Definition arch_irq_restore (prev_state : ARCH_IRQSTATE) (eflags_if : bool) : bool :=
  match prev_state with
  | IRQSTATE_ENABLED => (arch_irq_enable eflags_if).2
  | IRQSTATE_DISABLED => eflags_if
  end.

Definition ASSERT_IRQ_DISABLED (eflags_if : bool) : res unit :=
  assert_ (negb (if decide (arch_irq_are_enabled eflags_if = IRQSTATE_ENABLED) then true else false)).

Definition ARCH_PAGESIZE : Z := 4096.

(** A section between [arch_irq_disable] and [arch_irq_restore] of what it
    returned leaves the interrupt flag as it was. *)
Lemma irq_section_restores eflags_if :
  arch_irq_restore (arch_irq_disable eflags_if).1 (arch_irq_disable eflags_if).2 = eflags_if.
Proof. by destruct eflags_if. Qed.
