(* ===== verification/HeapIface.v ===== *)
(** What the components that allocate promise and require of the kernel heap
    (src/include/kernel/mem/heap.h): an interface, so that their models do not
    depend on how the heap is implemented. *)
From S2P Require Import Prelude.

Definition HEAP_FLAG_ZEROMEMORY : Z := 1.

(** [heap_alloc] returns the null pointer, 0, when there is no memory. *)
Class HeapOps (H : Type) := {
  heap_alloc : Z → Z → M H Z;
  heap_free : Z → M H unit;
}.

Definition heap_calloc {H : Type} `{!HeapOps H} (size elements flags : Z) : M H Z :=
  if size =? 0 then throw Div_by_zero
  else if SIZE_MAX / size <? elements then mret 0
  else heap_alloc (u32 (size * elements)) flags.

(** A heap whose allocations succeed, whatever their size. *)
Class HeapSucceeds (H : Type) `{HeapOps H} : Prop :=
  heap_alloc_succeeds : ∀ size flags h, ∃ p h',
    heap_alloc size flags h = Ok (p, h') ∧ p ≠ 0.

(** A heap out of memory. *)
Class HeapExhausted (H : Type) `{HeapOps H} : Prop :=
  heap_alloc_fails : ∀ size flags h, ∃ h', heap_alloc size flags h = Ok (0, h').

(** An unbounded space, out of which blocks are cut one after the other; the
    state is their number. *)
Definition always_heap : HeapOps nat := {|
  heap_alloc size flags := λ h, Ok (16 * (Z.of_nat h + 1), S h);
  heap_free p := λ h, Ok (tt, h);
|}.

Lemma always_heap_succeeds : @HeapSucceeds nat always_heap.
Proof. intros size flags h. do 2 eexists. split; [reflexivity|lia]. Defined.

(** No memory at all: a heap that is exhausted. *)
Definition empty_heap : HeapOps unit := {|
  heap_alloc size flags := λ h, Ok (0, h);
  heap_free p := λ h, Ok (tt, h);
|}.

Lemma empty_heap_exhausted : @HeapExhausted unit empty_heap.
Proof. intros size flags h. by eexists. Defined.

(** What a client relies on when it frees memory as well: an allocation
    returns an address that is not in use, and leaves the others in use. *)
Class HeapLaws (H : Type) `{HeapOps H} := {
  in_use : H → Z → Prop;
  heap_null h : ¬ in_use h 0;
  heap_alloc_law size flags h : ∃ p h', heap_alloc size flags h = Ok (p, h') ∧
    (∀ a, in_use h a → in_use h' a) ∧ (p = 0 ∨ ¬ in_use h p ∧ in_use h' p);
  heap_free_law p h : p = 0 ∨ in_use h p → ∃ h', heap_free p h = Ok (tt, h') ∧
    ∀ a, a ≠ p → in_use h a → in_use h' a;
}.

(** A heap that gives out a bounded number of blocks: the state is the number
    of those given out, and of those left. *)
Definition bounded_heap : HeapOps (nat * nat) := {|
  heap_alloc size flags := λ '(used, more),
    match more with
    | O => Ok (0, (used, O))
    | S more => Ok (16 * (Z.of_nat used + 1), (S used, more))
    end;
  heap_free p := λ h, Ok (tt, h);
|}.

Definition bounded_heap_in_use (h : nat * nat) (a : Z) : Prop :=
  ∃ k, (k < h.1)%nat ∧ a = 16 * (Z.of_nat k + 1).

Lemma bounded_heap_alloc size flags (h : nat * nat) : ∃ p h',
  @heap_alloc _ bounded_heap size flags h = Ok (p, h') ∧
  (∀ a, bounded_heap_in_use h a → bounded_heap_in_use h' a) ∧
  (p = 0 ∨ ¬ bounded_heap_in_use h p ∧ bounded_heap_in_use h' p).
Proof.
  destruct h as [used [|more]].
  - exists 0, (used, O). split; [done|]. split; [done|by left].
  - exists (16 * (Z.of_nat used + 1)), (S used, more). split; [done|]. split.
    + intros a (k & Hk & ->). exists k. cbn in *. split; [lia|done].
    + right. split; [intros (k & Hk & Ha); cbn in *; lia|]. exists used. cbn. split; [lia|done].
Defined.

Definition bounded_heap_laws : @HeapLaws _ bounded_heap.
Proof.
  refine (@Build_HeapLaws _ bounded_heap bounded_heap_in_use _ bounded_heap_alloc _).
  - intros h (k & Hk & Ha). lia.
  - intros p h _. by exists h.
Defined.

Definition always_heap_in_use (h : nat) (a : Z) : Prop := ∃ k, (k < h)%nat ∧ a = 16 * (Z.of_nat k + 1).

Definition always_heap_laws : @HeapLaws _ always_heap.
Proof.
  refine (@Build_HeapLaws _ always_heap always_heap_in_use _ _ _).
  - intros h (k & Hk & Ha). lia.
  - intros size flags h. exists (16 * (Z.of_nat h + 1)), (S h). split; [done|]. split.
    + intros a (k & Hk & ->). exists k. split; [lia|done].
    + right. split; [intros (k & Hk & Ha); lia|]. exists h. split; [lia|done].
  - intros p h _. by exists h.
Defined.

Definition empty_heap_laws : @HeapLaws unit empty_heap.
Proof.
  refine (@Build_HeapLaws _ empty_heap (λ _ _, False) _ _ _).
  - intros h [].
  - intros size flags h. exists 0, h. split; [done|]. split; [done|by left].
  - intros p h _. exists h. split; [done|]. intros a _ [].
Defined.
