(* ===== verification/PmmIface.v ===== *)
(** What the components that use physical pages rely on
    (src/include/kernel/mem/pmm.h): an interface, so that their models do not
    depend on how the pages are managed. *)
From S2P Require Import Prelude Arch.

(** [page_alloc] is [pmm_alloc]: the address, or 0 when there is no memory, and
    the number of pages; [page_free] is [pmm_free]. *)
Class PmmOps (P : Type) := {
  page_alloc : Z → M P (Z * Z);
  page_free : Z → Z → M P unit;
}.

(** Single pages: those that can be handed out, and those that were. *)
Class PmmLaws (P : Type) `{PmmOps P} := {
  pages_ok : P → Prop;
  page_available : P → Z → Prop;
  page_owned : P → Z → Prop;
  page_owned_not_available p a : pages_ok p → page_owned p a → ¬ page_available p a;
  page_alloc_law p : pages_ok p → ∃ a n p', page_alloc 1 p = Ok ((a, n), p') ∧ pages_ok p' ∧
    (a = 0 ∧ p' = p ∨
     a ≠ 0 ∧ is_u32 a ∧ a mod ARCH_PAGESIZE = 0 ∧ page_available p a ∧ page_owned p' a ∧
     (∀ b, page_available p' b → page_available p b) ∧
     (∀ b, b ≠ a → page_owned p' b ↔ page_owned p b));
  page_free_law p a : pages_ok p → page_owned p a → ∃ p', page_free a 1 p = Ok (tt, p') ∧ pages_ok p' ∧
    (∀ b, page_available p' b → b = a ∨ page_available p b) ∧
    (∀ b, page_owned p' b ↔ page_owned p b ∧ b ≠ a);
}.

(** No page is available. *)
Class PmmExhausted (P : Type) `{PmmOps P} : Prop :=
  page_alloc_fails : ∀ p, ∃ n, page_alloc 1 p = Ok ((0, n), p).

(** The pages from 4 MiB on, handed out one after the other up to a limit, and
    never again: the state is their number and the list of those in use. *)
Definition bump_pages : PmmOps (nat * list Z) := {|
  page_alloc n := λ '(k, l),
    if (k <? 1000)%nat then
      let a := 2 ^ 22 + 4096 * Z.of_nat k in Ok ((a, n), (S k, a :: l))
    else Ok ((0, n), (k, l));
  page_free a n := λ '(k, l), Ok (tt, (k, filter (λ b, b ≠ a) l));
|}.

Definition bump_available (p : nat * list Z) (a : Z) : Prop :=
  2 ^ 22 + 4096 * Z.of_nat p.1 ≤ a.

Definition bump_pages_laws : @PmmLaws _ bump_pages.
Proof.
  refine (@Build_PmmLaws _ bump_pages (λ p, ∀ a, a ∈ p.2 → ¬ bump_available p a) bump_available (λ p a, a ∈ p.2) _ _ _).
  - intros p a Hp Ha. by apply Hp.
  - intros [k l] Hp. unfold page_alloc, bump_pages. destruct (Nat.ltb_spec k 1000).
    + eexists _, _, _. split; [done|]. unfold bump_available in *. cbn in *. split.
      { intros a [->|Ha]%elem_of_cons; [lia|]. specialize (Hp a Ha). lia. }
      right. split_and?; [lia|unfold is_u32; lia| |lia|by left| |].
      * unfold ARCH_PAGESIZE. dlia.
      * intros b Hb. lia.
      * intros b Hb. rewrite elem_of_cons. naive_solver.
    + eexists _, _, _. split; [done|]. split; [done|]. by left.
  - intros [k l] a Hp Ha. cbn in *. eexists. split; [done|]. cbn. split.
    + intros b [_ Hb]%list_elem_of_filter. by apply Hp.
    + split; [by right|]. intros b. rewrite list_elem_of_filter. naive_solver.
Defined.

(** No page at all. *)
Definition no_pages : PmmOps unit := {|
  page_alloc n := λ p, Ok ((0, n), p);
  page_free a n := λ p, Ok (tt, p);
|}.

Lemma no_pages_exhausted : @PmmExhausted unit no_pages.
Proof. intros p. by eexists. Defined.

Definition no_pages_laws : @PmmLaws unit no_pages.
Proof.
  refine (@Build_PmmLaws _ no_pages (λ _, True) (λ _ _, False) (λ _ _, False) _ _ _).
  - intros p a _ [].
  - intros p _. eexists _, _, _. split; [done|]. split; [done|]. by left.
  - intros p a _ [].
Defined.
