(* ===== verification/Mmu.v ===== *)
(** The memory management unit driver (src/kernel/arch/i586/mmu.c): the page
    directory and the page tables, which the kernel reaches through the last
    entry of the directory, and the translation lookaside buffer. *)
From S2P Require Import Prelude MiscMath Arch PmmIface.

(** ** Layout of addresses and entries *)

Definition ENTRY_BIT_MASK : Z := 0x3ff.
Definition PTE_BIT_OFFSET : Z := 12.
Definition PTE_BIT_MASK : Z := Z.shiftl ENTRY_BIT_MASK PTE_BIT_OFFSET.
Definition PDE_BIT_OFFSET : Z := 22.
Definition PDE_BIT_MASK : Z := Z.shiftl ENTRY_BIT_MASK PDE_BIT_OFFSET.

Definition MAKE_VIRTADDR (pde pte offset : Z) : Z :=
  u32 (Z.lor (Z.lor (Z.shiftl pde PDE_BIT_OFFSET) (Z.shiftl pte PTE_BIT_OFFSET)) offset).

Definition ARCHI586_MMU_COMMON_FLAG_P : Z := 1.
Definition ARCHI586_MMU_COMMON_FLAG_RW : Z := 2.
Definition ARCHI586_MMU_COMMON_FLAG_US : Z := 4.
Definition ARCHI586_MMU_COMMON_FLAG_PCD : Z := 16.
Definition ARCHI586_MMU_PAGE_SIZE : Z := 4096.
Definition ARCHI586_MMU_ENTRY_COUNT : Z := 1024.
Definition ARCHI586_MMU_KERNEL_PDE_START : Z := 768.
Definition ARCHI586_MMU_PAGEDIR_PDE : Z := 1023.
Definition ARCHI586_MMU_SCRATCH_PDE : Z := 1022.
Definition ARCHI586_MMU_SCRATCH_PTE : Z := 1023.

Definition MAP_PROT_READ : Z := 1.
Definition MAP_PROT_WRITE : Z := 2.
Definition MAP_PROT_NOCACHE : Z := 8.

Definition pde_index (ptr : Z) : Z := Z.shiftr (Z.land ptr PDE_BIT_MASK) PDE_BIT_OFFSET.
Definition pte_index (ptr : Z) : Z := Z.shiftr (Z.land ptr PTE_BIT_MASK) PTE_BIT_OFFSET.

(** The addresses of the directory and of the entries of the page tables in the
    recursive mapping: [&s_pagedir[pde]], [&s_pagetables[pde].entry[pte]]. *)
Definition PAGEDIR_PD_BASE : Z := MAKE_VIRTADDR ARCHI586_MMU_PAGEDIR_PDE ARCHI586_MMU_PAGEDIR_PDE 0.
Definition PAGEDIR_PT_BASE (pde : Z) : Z := MAKE_VIRTADDR ARCHI586_MMU_PAGEDIR_PDE pde 0.
Definition s_pagedir (pde : Z) : Z := u32 (PAGEDIR_PD_BASE + 4 * pde).
Definition s_pagetables (pde pte : Z) : Z :=
  u32 (PAGEDIR_PT_BASE 0 + (ARCHI586_MMU_PAGE_SIZE * pde + 4 * pte)).

Definition ARCH_KERNEL_SPACE_BASE : Z := MAKE_VIRTADDR ARCHI586_MMU_KERNEL_PDE_START 0 0.
Definition ARCH_SCRATCH_MAP_BASE : Z := MAKE_VIRTADDR ARCHI586_MMU_SCRATCH_PDE ARCHI586_MMU_SCRATCH_PTE 0.
Definition ARCH_KERNEL_VM_END : Z := ARCH_SCRATCH_MAP_BASE - 1.

(** A flag of an entry, and the physical page it points to. *)
Definition has (entry flag : Z) : bool := negb (Z.land entry flag =? 0).
Definition page_of (entry : Z) : Z := Z.land entry (not32 0xfff).

(** ** The machine *)

(** Physical memory by words, the page directory the processor uses, the
    translations it has cached (the entry of the page table by the number of
    the virtual page), the interrupt flag, and the page allocator. *)
Record mmu (P : Type) := Mmu {
  phys_mem : Z → Z; cr3 : Z; tlb : gmap Z Z; irq : bool; pages : P;
}.
Arguments Mmu {P}. Arguments phys_mem {P}. Arguments cr3 {P}. Arguments tlb {P}.
Arguments irq {P}. Arguments pages {P}.

Section Operations.
Context {P : Type} `{!PmmOps P}.
Local Abbreviation mmu := (mmu P).
Local Abbreviation MM A := (M mmu A).
Implicit Types m : mmu.

Definition store_word (a v : Z) (m : mmu) : mmu :=
  Mmu (λ a', if a' =? a then v else phys_mem m a') (cr3 m) (tlb m) (irq m) (pages m).
Definition with_tlb (t : gmap Z Z) (m : mmu) : mmu := Mmu (phys_mem m) (cr3 m) t (irq m) (pages m).
Definition with_pages (p : P) (m : mmu) : mmu := Mmu (phys_mem m) (cr3 m) (tlb m) (irq m) p.

(** What the processor does when the kernel accesses a virtual address: the two
    entries have to be present, and to allow the access (with CR0.WP the kernel
    is not allowed to write to pages that are read-only). *)
Definition allows (write : bool) (entry : Z) : bool :=
  has entry ARCHI586_MMU_COMMON_FLAG_P && (negb write || has entry ARCHI586_MMU_COMMON_FLAG_RW).

Definition translate (m : mmu) (write : bool) (va : Z) : option Z :=
  let pd_entry := phys_mem m (cr3 m + 4 * pde_index va) in
  if negb (allows write pd_entry) then None
  else
    let pt_entry := phys_mem m (page_of pd_entry + 4 * pte_index va) in
    if negb (allows write pt_entry) then None
    else Some (page_of pt_entry + Z.land va 0xfff).

Definition read_word (va : Z) : MM Z := λ m,
  match translate m false va with
  | Some a => Ok (phys_mem m a, m)
  | None => Fault Bad_pointer
  end.

Definition write_word (va v : Z) : MM unit := λ m,
  match translate m true va with
  | Some a => Ok (tt, store_word a v m)
  | None => Fault Bad_pointer
  end.

(** [invlpg], and reloading CR3. *)
Definition arch_mmu_flush_tlb_for (ptr : Z) : MM unit := λ m,
  Ok (tt, with_tlb (delete (Z.shiftr ptr 12) (tlb m)) m).
Definition arch_mmu_flush_tlb : MM unit := λ m, Ok (tt, with_tlb ∅ m).

(** ** Looking up translations *)

Definition arch_mmu_emulate (virtaddr flags : Z) (is_from_user : bool) : MM (Z + Z) :=
  let pde := pde_index virtaddr in
  let pte := pte_index virtaddr in
  let is_write := has flags MAP_PROT_WRITE in
  pd_entry ← read_word (s_pagedir pde);
  if negb (has pd_entry ARCHI586_MMU_COMMON_FLAG_P) then mret (inl (- EFAULT))
  else if negb (has pd_entry ARCHI586_MMU_COMMON_FLAG_RW) && is_write then mret (inl (- EPERM))
  else if negb (has pd_entry ARCHI586_MMU_COMMON_FLAG_US) && is_from_user then mret (inl (- EPERM))
  else
    pt_entry ← read_word (s_pagetables pde pte);
    if negb (has pt_entry ARCHI586_MMU_COMMON_FLAG_P) then mret (inl (- EFAULT))
    else if negb (has pt_entry ARCHI586_MMU_COMMON_FLAG_RW) && is_write then mret (inl (- EPERM))
    else if negb (has pt_entry ARCHI586_MMU_COMMON_FLAG_US) && is_from_user then mret (inl (- EPERM))
    else mret (inr (page_of pt_entry)).

Definition arch_mmu_virtual_to_physical (virt : Z) : MM (Z + Z) :=
  let pde := pde_index virt in
  let pte := pte_index virt in
  pd_entry ← read_word (s_pagedir pde);
  if negb (has pd_entry ARCHI586_MMU_COMMON_FLAG_P) then mret (inl (- EFAULT))
  else
    pt_entry ← read_word (s_pagetables pde pte);
    if negb (has pt_entry ARCHI586_MMU_COMMON_FLAG_P) then mret (inl (- EFAULT))
    else mret (inr (u32 (page_of pt_entry + Z.land virt 0xfff))).

(** ** Mapping *)

Definition ASSERT_ADDR_VALID (addr count : Z) : MM unit :=
  _ ← massert (negb (addr =? 0));
  _ ← massert (count <=? UINTPTR_MAX / ARCHI586_MMU_PAGE_SIZE);
  massert (negb (WILL_ADD_OVERFLOW addr (count * ARCHI586_MMU_PAGE_SIZE) UINTPTR_MAX)).

Definition assert_irq_disabled : MM unit := λ m, lift (ASSERT_IRQ_DISABLED (irq m)) m.

(** [pmm_alloc] of one page. *)
Definition alloc_page : MM Z := λ m,
  match page_alloc 1 (pages m) with
  | Ok ((a, _), p) => Ok (a, with_pages p m)
  | Fault f => Fault f
  end.

(** The parameter is a [uint8_t]. *)
Definition create_pd (pde : Z) : MM (Z + unit) :=
  let pde := u8 pde in
  addr ← alloc_page;
  if addr =? 0 then mret (inl (- ENOMEM))
  else
    _ ← write_word (s_pagedir pde)
          (Z.lor (Z.lor (Z.lor addr ARCHI586_MMU_COMMON_FLAG_P) ARCHI586_MMU_COMMON_FLAG_RW)
             ARCHI586_MMU_COMMON_FLAG_US);
    _ ← arch_mmu_flush_tlb_for (s_pagetables pde 0);
    _ ← for_ (seqZ 0 ARCHI586_MMU_ENTRY_COUNT) (λ pte, write_word (s_pagetables pde pte) 0);
    _ ← for_ (seqZ 0 ARCHI586_MMU_ENTRY_COUNT) (λ i, arch_mmu_flush_tlb_for (MAKE_VIRTADDR pde i 0));
    mret (inr tt).

(** The flags of an entry of a page table. *)
Definition flag_if (b : bool) (flag entry : Z) : Z := if b then Z.lor entry flag else entry.
Definition set_prot (flags : Z) (user_access : bool) (entry : Z) : Z :=
  flag_if user_access ARCHI586_MMU_COMMON_FLAG_US
    (flag_if (has flags MAP_PROT_NOCACHE) ARCHI586_MMU_COMMON_FLAG_PCD
      (flag_if (has flags MAP_PROT_WRITE) ARCHI586_MMU_COMMON_FLAG_RW entry)).

(** Whether an entry allows something that will not be allowed any more. *)
Definition loses_rights (oldpte flags : Z) (user_access : bool) : bool :=
  (has oldpte ARCHI586_MMU_COMMON_FLAG_RW && negb (has flags MAP_PROT_WRITE)) ||
  (has oldpte ARCHI586_MMU_COMMON_FLAG_US && negb user_access).

Definition map_single_page (virt phys flags : Z) (user_access : bool) : MM unit :=
  let pde := pde_index virt in
  let pte := pte_index virt in
  oldpte ← read_word (s_pagetables pde pte);
  let shouldflush := has oldpte ARCHI586_MMU_COMMON_FLAG_P &&
    (loses_rights oldpte flags user_access || negb (page_of oldpte =? phys)) in
  _ ← write_word (s_pagetables pde pte)
        (set_prot flags user_access (Z.lor phys ARCHI586_MMU_COMMON_FLAG_P));
  if shouldflush : bool then arch_mmu_flush_tlb_for virt else mret tt.

(** The address of the [i]th page from [base] on. *)
Definition nth_page (base i : Z) : Z := u32 (base + i * ARCHI586_MMU_PAGE_SIZE).

(** The error number of [create_pd] is in a variable of the loop that hides the
    one that is returned. *)
Definition arch_mmu_map (virt_base physbase page_count flags : Z) (user_access : bool) : MM Z :=
  _ ← assert_irq_disabled;
  _ ← ASSERT_ADDR_VALID virt_base page_count;
  _ ← ASSERT_ADDR_VALID physbase page_count;
  aligned ← lift (is_aligned physbase ARCHI586_MMU_PAGE_SIZE);
  _ ← massert aligned;
  if negb (has flags MAP_PROT_READ) then mret (- EPERM)
  else
    r ← for_try (seqZ 0 page_count) (λ i,
          let pde := pde_index (nth_page virt_base i) in
          pd_entry ← read_word (s_pagedir pde);
          if has pd_entry ARCHI586_MMU_COMMON_FLAG_P then mret (inr tt) else create_pd pde);
    match r with
    | inl _ => mret 0
    | inr _ =>
        _ ← for_ (seqZ 0 page_count) (λ i,
              map_single_page (nth_page virt_base i) (nth_page physbase i) flags user_access);
        mret 0
    end.

(** ** Changing the protection, unmapping *)

Definition check_presence (virt : Z) : MM (Z + unit) :=
  let pde := pde_index virt in
  let pte := pte_index virt in
  pd_entry ← read_word (s_pagedir pde);
  if negb (has pd_entry ARCHI586_MMU_COMMON_FLAG_P) then mret (inl (- EFAULT))
  else
    oldpte ← read_word (s_pagetables pde pte);
    if negb (has oldpte ARCHI586_MMU_COMMON_FLAG_P) then mret (inl (- EFAULT))
    else mret (inr tt).

(** The bits of an entry that stay: the address, and whether it is present. *)
Definition clear_prot (entry : Z) : Z :=
  Z.land entry (not32 (Z.land 0xfff (not32 ARCHI586_MMU_COMMON_FLAG_P))).

Definition remap_single_page (virt flags : Z) (user_access : bool) : MM unit :=
  let pde := pde_index virt in
  let pte := pte_index virt in
  oldpte ← read_word (s_pagetables pde pte);
  let should_flush := loses_rights oldpte flags user_access in
  _ ← write_word (s_pagetables pde pte) (set_prot flags user_access (clear_prot oldpte));
  if should_flush : bool then arch_mmu_flush_tlb_for virt else mret tt.

Definition arch_mmu_remap (virt_base page_count flags : Z) (user_access : bool) : MM Z :=
  _ ← assert_irq_disabled;
  _ ← ASSERT_ADDR_VALID virt_base page_count;
  if negb (has flags MAP_PROT_READ) then mret (- EPERM)
  else
    r ← for_try (seqZ 0 page_count) (λ i, check_presence (nth_page virt_base i));
    match r with
    | inl e => mret e
    | inr _ =>
        _ ← for_ (seqZ 0 page_count) (λ i, remap_single_page (nth_page virt_base i) flags user_access);
        mret 0
    end.

Definition unmap_single_page (virt : Z) : MM unit :=
  _ ← write_word (s_pagetables (pde_index virt) (pte_index virt)) 0;
  arch_mmu_flush_tlb_for virt.

(** The return value is [true]. *)
Definition arch_mmu_unmap (virt_base page_count : Z) : MM Z :=
  _ ← assert_irq_disabled;
  _ ← ASSERT_ADDR_VALID virt_base page_count;
  r ← for_try (seqZ 0 page_count) (λ i, check_presence (nth_page virt_base i));
  match r with
  | inl e => mret e
  | inr _ =>
      _ ← for_ (seqZ 0 page_count) (λ i, unmap_single_page (nth_page virt_base i));
      mret 1
  end.

Definition arch_mmu_scratch_map (physaddr : Z) (cache_inhibit : bool) : MM unit :=
  _ ← assert_irq_disabled;
  aligned ← lift (is_aligned physaddr ARCHI586_MMU_PAGE_SIZE);
  _ ← massert aligned;
  let pde := ARCHI586_MMU_SCRATCH_PDE in
  let pte := ARCHI586_MMU_SCRATCH_PTE in
  pd_entry ← read_word (s_pagedir pde);
  _ ← massert (has pd_entry ARCHI586_MMU_COMMON_FLAG_P);
  oldpte ← read_word (s_pagetables pde pte);
  let should_flush := has oldpte ARCHI586_MMU_COMMON_FLAG_P &&
    (has oldpte ARCHI586_MMU_COMMON_FLAG_US || negb (page_of oldpte =? physaddr)) in
  _ ← write_word (s_pagetables pde pte)
        (flag_if cache_inhibit ARCHI586_MMU_COMMON_FLAG_PCD
          (Z.lor (Z.lor physaddr ARCHI586_MMU_COMMON_FLAG_P) ARCHI586_MMU_COMMON_FLAG_RW));
  if should_flush : bool then arch_mmu_flush_tlb_for ARCH_SCRATCH_MAP_BASE else mret tt.

(** ** At boot; the variables are symbols of the linker. *)

Definition must_succeed_ret (ret : Z) : MM unit := massert (0 <=? ret).

(** The quotient of the difference of two symbols, which are declared as [int],
    by the size of a page: it counts in units of [int]. *)
Definition symbol_pages (first last : Z) : Z :=
  u32 (Z.quot (Z.quot (s32 (last - first)) 4) ARCHI586_MMU_PAGE_SIZE).

Definition archi586_mmu_write_protect_kernel_text (text_begin text_end : Z) : MM unit :=
  ret ← arch_mmu_remap text_begin (symbol_pages text_begin text_end) MAP_PROT_READ false;
  must_succeed_ret ret.

Definition arch_mmu_write_protect_after_early_init (ro_begin ro_end : Z) : MM unit :=
  ret ← arch_mmu_remap ro_begin (symbol_pages ro_begin ro_end) MAP_PROT_READ false;
  must_succeed_ret ret.

Definition archi586_mmu_init (stackbottomtrap kernel_vm_start : Z) : MM unit :=
  ret ← arch_mmu_unmap stackbottomtrap 1;
  _ ← must_succeed_ret ret;
  ret ← arch_mmu_unmap kernel_vm_start
          (u32 (ARCH_KERNEL_VM_END - kernel_vm_start + 1) / ARCHI586_MMU_PAGE_SIZE);
  must_succeed_ret ret.

End Operations.
