(* ===== verification/MmuSafe.v ===== *)
(** The invariant of the page tables, the map from virtual pages to entries
    they stand for, and what the operations of Mmu.v do to it. *)
From S2P Require Import Prelude MiscMath Arch PmmIface Mmu.

(** ** Arithmetic of addresses *)

Lemma land_shifted_mask x k : 0 ≤ k →
  Z.shiftr (Z.land x (Z.shiftl 0x3ff k)) k = (x / 2 ^ k) mod 1024.
Proof.
  intros Hk. rewrite Z.shiftr_land, Z.shiftr_shiftl_l, Z.sub_diag, Z.shiftl_0_r, Z.shiftr_div_pow2 by lia.
  change 0x3ff with (Z.ones 10). by rewrite Z.land_ones.
Qed.
Lemma pde_index_eq x : pde_index x = (x / 2 ^ 22) mod 1024.
Proof. by apply land_shifted_mask. Qed.
Lemma pte_index_eq x : pte_index x = (x / 2 ^ 12) mod 1024.
Proof. by apply land_shifted_mask. Qed.
Lemma offset_eq x : Z.land x 0xfff = x mod 4096.
Proof. change 0xfff with (Z.ones 12). by rewrite Z.land_ones. Qed.

Lemma make_virtaddr_eq pde pte : 0 ≤ pde < 1024 → 0 ≤ pte < 1024 →
  MAKE_VIRTADDR pde pte 0 = pde * 2 ^ 22 + pte * 4096.
Proof.
  intros Hd Ht. unfold MAKE_VIRTADDR. rewrite Z.lor_0_r. change PDE_BIT_OFFSET with 22. change PTE_BIT_OFFSET with 12.
  rewrite !Z.shiftl_mul_pow2 by lia.
  rewrite (lor_disjoint _ _ 22) by (try lia; apply Z.mod_mul; lia). apply u32_small. lia.
Qed.

Lemma s_pagedir_eq i : 0 ≤ i < 1024 → s_pagedir i = 0xfffff000 + 4 * i.
Proof. intros Hi. unfold s_pagedir. change PAGEDIR_PD_BASE with 0xfffff000. apply u32_small. lia. Qed.
Lemma s_pagetables_eq i j : 0 ≤ i < 1024 → 0 ≤ j < 1024 → s_pagetables i j = 0xffc00000 + 4096 * i + 4 * j.
Proof.
  intros Hi Hj. unfold s_pagetables. change (PAGEDIR_PT_BASE 0) with 0xffc00000. change ARCHI586_MMU_PAGE_SIZE with 4096.
  rewrite u32_small; lia.
Qed.

Lemma page_of_eq e : page_of e = 4096 * (e / 4096 mod 2 ^ 20).
Proof.
  unfold page_of. change (not32 0xfff) with (Z.shiftl (Z.ones 20) 12).
  assert (∀ x, Z.land e (Z.shiftl x 12) = Z.shiftl (Z.land (Z.shiftr e 12) x) 12) as ->.
  { intros x. apply Z.bits_inj'. intros n Hn. rewrite Z.land_spec, !Z.shiftl_spec by done.
    destruct (Z.ltb_spec n 12).
    - by rewrite !(Z.testbit_neg_r _ (n - 12)), andb_false_r by lia.
    - rewrite Z.land_spec, Z.shiftr_spec by lia. by rewrite Z.sub_add. }
  rewrite Z.land_ones, Z.shiftr_div_pow2, Z.shiftl_mul_pow2 by lia. apply Z.mul_comm.
Qed.
Lemma page_of_range e : 0 ≤ page_of e < 2 ^ 32 ∧ page_of e mod 4096 = 0.
Proof.
  rewrite page_of_eq. pose proof (Z.mod_pos_bound (e / 4096) (2 ^ 20) eq_refl).
  change (2 ^ 20) with 1048576 in *. change (2 ^ 32) with 4294967296. split; [lia|].
  rewrite Z.mul_comm. by apply Z.mod_mul.
Qed.
Lemma page_of_page a : is_u32 a → a mod 4096 = 0 → page_of a = a.
Proof. 
  unfold is_u32. change (2 ^ 32) with 4294967296. intros Ha Hm. rewrite page_of_eq. change (2 ^ 20) with 1048576. dlia.
Qed.


(** The virtual address of a page, and its indices. *)
Lemma virt_indices p off : 0 ≤ p < 2 ^ 20 → 0 ≤ off < 4096 →
  pde_index (4096 * p + off) = p / 1024 ∧ pte_index (4096 * p + off) = p mod 1024.
Proof.
  intros Hp Ho. rewrite pde_index_eq, pte_index_eq. change (2 ^ 22) with 4194304. change (2 ^ 12) with 4096.
  change (2 ^ 20) with 1048576 in Hp. dlia.
Qed.

(** Two words of page tables are the same only if tables and indices are. *)
Lemma word_inj e e' j j' : 0 ≤ j < 1024 → 0 ≤ j' < 1024 →
  page_of e + 4 * j = page_of e' + 4 * j' ↔ page_of e = page_of e' ∧ j = j'.
Proof. intros Hj Hj'. pose proof (page_of_range e). pose proof (page_of_range e'). dlia. Qed.

(** ** The map from virtual pages to entries *)
Section Tables.
Context {P : Type} `{!PmmOps P, !PmmLaws P}.
Local Abbreviation mmu := (mmu P).
Implicit Types m : mmu.

Definition present (e : Z) : Prop := has e ARCHI586_MMU_COMMON_FLAG_P = true.
Definition writable (e : Z) : Prop := has e ARCHI586_MMU_COMMON_FLAG_RW = true.
Definition user (e : Z) : Prop := has e ARCHI586_MMU_COMMON_FLAG_US = true.

Definition pd m (i : Z) : Z := phys_mem m (cr3 m + 4 * i).
Definition pt m (i j : Z) : Z := phys_mem m (page_of (pd m i) + 4 * j).

(** The entry of a page of the virtual address space, if it has a page table. *)
Definition entry m (p : Z) : option Z :=
  if has (pd m (p / 1024)) ARCHI586_MMU_COMMON_FLAG_P then Some (pt m (p / 1024) (p mod 1024)) else None.

Definition is_page (p : Z) : Prop := 0 ≤ p < 2 ^ 20.
Definition is_index (i : Z) : Prop := 0 ≤ i < 1024.

(** The last entry of the directory points to the directory itself; the tables
    are different pages, which are not available to the page allocator. *)
Record tables_wf m : Prop := {
  wf_cr3 : page_of (cr3 m) = cr3 m;
  wf_self : present (pd m 1023) ∧ page_of (pd m 1023) = cr3 m;
  wf_rw i : is_index i → present (pd m i) → writable (pd m i);
  wf_distinct i j : is_index i → is_index j → present (pd m i) → present (pd m j) →
    page_of (pd m i) = page_of (pd m j) → i = j;
  wf_not_available i : is_index i → present (pd m i) → ¬ page_available (pages m) (page_of (pd m i));
  wf_pages : pages_ok (pages m);
}.

(** What a cached entry allows is still allowed. *)
Definition still_allowed (cached now : Z) : Prop :=
  present cached ∧ present now ∧ page_of cached = page_of now ∧
  (writable cached → writable now) ∧ (user cached → user now).

Definition tlb_ok m : Prop :=
  ∀ p e, tlb m !! p = Some e → is_page p ∧ ∃ e', entry m p = Some e' ∧ still_allowed e e'.

Definition mmu_wf m : Prop := tables_wf m ∧ tlb_ok m.

(** The processor may cache the entry of a page at any time. *)
Definition tlb_fill (p : Z) m : mmu :=
  match entry m p with
  | Some e => if has e ARCHI586_MMU_COMMON_FLAG_P then with_tlb (<[p := e]> (tlb m)) m else m
  | None => m
  end.

(** Everything but the tables and the cache. *)
Definition same_rest m m' : Prop := cr3 m' = cr3 m ∧ irq m' = irq m ∧ pages m' = pages m.

Lemma present_allows w e : present e → (w = true → writable e) → allows w e = true.
Proof using Type.
  unfold allows, present, writable. intros -> Hw. destruct w; cbn; [by rewrite Hw|done].
Qed.

Lemma page_split p : is_page p → is_index (p / 1024) ∧ is_index (p mod 1024) ∧ p = 1024 * (p / 1024) + p mod 1024.
Proof using Type. unfold is_page, is_index. change (2 ^ 20) with 1048576. intros. dlia. Qed.
Lemma page_join i j : is_index i → is_index j → is_page (1024 * i + j) ∧ (1024 * i + j) / 1024 = i ∧ (1024 * i + j) mod 1024 = j.
Proof using Type. unfold is_page, is_index. change (2 ^ 20) with 1048576. intros. dlia. Qed.

Lemma is_index_last : is_index 1023.
Proof using Type. unfold is_index. lia. Qed.

Lemma translate_at m w p off : is_page p → 0 ≤ off < 4096 →
  translate m w (4096 * p + off) =
    if negb (allows w (pd m (p / 1024))) then None
    else if negb (allows w (pt m (p / 1024) (p mod 1024))) then None
    else Some (page_of (pt m (p / 1024) (p mod 1024)) + off).
Proof using Type.
  intros Hp Ho. unfold translate. destruct (virt_indices p off Hp Ho) as [-> ->]. rewrite offset_eq.
  replace ((4096 * p + off) mod 4096) with off by dlia. done.
Qed.

Lemma translate_window m w j : tables_wf m → is_index j → present (pd m j) → ∀ k, 0 ≤ k < 1024 →
  translate m w (0xffc00000 + 4096 * j + 4 * k) = Some (page_of (pd m j) + 4 * k).
Proof using Type.
  intros Hwf Hj Hpj k Hk. pose proof (page_join 1023 j is_index_last Hj) as (Hp & Hd & Hm).
  destruct (wf_self m Hwf) as [Hps Hself].
  replace (0xffc00000 + 4096 * j + 4 * k) with (4096 * (1024 * 1023 + j) + 4 * k) by lia.
  rewrite translate_at by (done || lia). rewrite Hd, Hm. unfold pt. rewrite Hself. fold (pd m j).
  rewrite !present_allows; [done|done|intros _; by apply (wf_rw m Hwf)|done|].
  intros _. apply (wf_rw m Hwf); [apply is_index_last|done].
Qed.

Lemma translate_pagedir m w i : tables_wf m → is_index i → translate m w (s_pagedir i) = Some (cr3 m + 4 * i).
Proof using Type.
  intros Hwf Hi. destruct (wf_self m Hwf) as [Hps Hself]. rewrite s_pagedir_eq by done.
  replace (0xfffff000 + 4 * i) with (0xffc00000 + 4096 * 1023 + 4 * i) by lia.
  rewrite (translate_window m w 1023) by (done || apply is_index_last). by rewrite Hself.
Qed.

Lemma translate_pagetable m w i j : tables_wf m → is_index i → is_index j → present (pd m i) →
  translate m w (s_pagetables i j) = Some (page_of (pd m i) + 4 * j).
Proof using Type.
  intros Hwf Hi Hj Hp. rewrite s_pagetables_eq by done. by apply translate_window.
Qed.

(** ** Reading *)

Lemma read_pagedir m i : tables_wf m → is_index i → read_word (s_pagedir i) m = Ok (pd m i, m).
Proof using Type. intros Hwf Hi. unfold read_word. by rewrite translate_pagedir. Qed.

Lemma read_pagetable m i j : tables_wf m → is_index i → is_index j → present (pd m i) →
  read_word (s_pagetables i j) m = Ok (pt m i j, m).
Proof using Type. intros Hwf Hi Hj Hp. unfold read_word. by rewrite translate_pagetable. Qed.

(** ** Writing an entry of a page table *)

Definition store_entry (p v : Z) m : mmu :=
  store_word (page_of (pd m (p / 1024)) + 4 * (p mod 1024)) v m.

(** A page that is mapped through a page table: its directory entry is there,
    and it is not in the window of the recursive mapping. *)
Definition has_table m (p : Z) : Prop := is_page p ∧ present (pd m (p / 1024)) ∧ p / 1024 ≠ 1023.

Lemma write_pagetable m p v : tables_wf m → is_page p → present (pd m (p / 1024)) →
  write_word (s_pagetables (p / 1024) (p mod 1024)) v m = Ok (tt, store_entry p v m).
Proof using Type.
  intros Hwf Hp Hpr. destruct (page_split p Hp) as (Hi & Hj & _). unfold write_word.
  by rewrite translate_pagetable.
Qed.

Lemma pd_store_entry m p v k : tables_wf m → has_table m p → is_index k → pd (store_entry p v m) k = pd m k.
Proof using Type.
  intros Hwf (Hp & Hpr & Hne) Hk. destruct (page_split p Hp) as (Hi & Hj & _).
  unfold pd, store_entry, store_word. cbn. fold (pd m k) (pd m (p / 1024)).
  destruct (Z.eqb_spec (cr3 m + 4 * k) (page_of (pd m (p / 1024)) + 4 * (p mod 1024))) as [E|]; [|done].
  destruct (wf_self m Hwf) as [Hps Hself]. rewrite <- Hself in E. apply word_inj in E as [E _]; [|done..].
  apply (wf_distinct m Hwf) in E; [congruence|apply is_index_last|done..].
Qed.

Lemma pt_store_entry m p v k l : tables_wf m → has_table m p → is_index k → is_index l → present (pd m k) →
  pt (store_entry p v m) k l = if decide (1024 * k + l = p) then v else pt m k l.
Proof using Type.
  intros Hwf Ht Hk Hl Hpk. pose proof Ht as (Hp & Hpr & Hne). destruct (page_split p Hp) as (Hi & Hj & Ep).
  unfold pt. rewrite (pd_store_entry m p v k) by done. unfold store_entry, store_word. cbn.
  fold (pd m (p / 1024)). destruct (Z.eqb_spec (page_of (pd m k) + 4 * l) (page_of (pd m (p / 1024)) + 4 * (p mod 1024))) as [E|E].
  - apply word_inj in E as [E ->]; [|done..]. apply (wf_distinct m Hwf) in E as ->; [|done..].
    by rewrite decide_True.
  - rewrite decide_False; [done|]. intros <-. destruct (page_join k l Hk Hl) as (_ & Ed & Em).
    rewrite Ed, Em in E. done.
Qed.

Lemma entry_store_entry m p v q : tables_wf m → has_table m p → is_page q →
  entry (store_entry p v m) q = if decide (q = p) then Some v else entry m q.
Proof using Type.
  intros Hwf Ht Hq. destruct (page_split q Hq) as (Hi & Hj & Eq). unfold entry.
  rewrite (pd_store_entry m p v) by done. destruct (has (pd m (q / 1024)) _) eqn:Hpr.
  - rewrite pt_store_entry by done. rewrite <- Eq. by case_decide.
  - rewrite decide_False; [done|]. intros ->. destruct Ht as (_ & Ht & _). unfold present in Ht. congruence.
Qed.

Lemma tables_wf_store_entry m p v : tables_wf m → has_table m p → tables_wf (store_entry p v m).
Proof using Type.
  intros Hwf Ht. pose proof (pd_store_entry m p v) as Hpd. pose proof is_index_last. split.
  - apply (wf_cr3 m Hwf).
  - rewrite Hpd by done. apply (wf_self m Hwf).
  - intros i Hi. rewrite Hpd by done. by apply (wf_rw m Hwf).
  - intros i j Hi Hj. rewrite !Hpd by done. by apply (wf_distinct m Hwf).
  - intros i Hi. rewrite Hpd by done. by apply (wf_not_available m Hwf).
  - apply (wf_pages m Hwf).
Qed.

Lemma has_table_store_entry m p v q : tables_wf m → has_table m p → has_table m q → has_table (store_entry p v m) q.
Proof using Type.
  intros Hwf Hp (Hq & Hpr & Hne). split; [done|]. destruct (page_split q Hq) as (Hi & _).
  by rewrite pd_store_entry.
Qed.

Lemma has_table_entry m p : has_table m p → entry m p = Some (pt m (p / 1024) (p mod 1024)).
Proof using Type. intros (_ & Hpr & _). unfold entry. by rewrite Hpr. Qed.

(** ** The cache *)

Definition flush (p : Z) m : mmu := with_tlb (delete p (tlb m)) m.

Lemma tlb_ok_flush m p : tlb_ok m → tlb_ok (flush p m).
Proof using Type. intros Hok q e Hq. cbn in Hq. apply lookup_delete_Some in Hq as [_ Hq]. by apply Hok. Qed.

Lemma tables_wf_with_tlb m t : tables_wf m → tables_wf (with_tlb t m).
Proof using Type. by intros []. Qed.

(** An entry may be changed without a flush when what a cached entry allows is
    still allowed. *)
Lemma tlb_ok_store_entry m p v : tables_wf m → has_table m p → tlb_ok m →
  (∀ e old, tlb m !! p = Some e → entry m p = Some old → still_allowed e old → still_allowed e v) →
  tlb_ok (store_entry p v m).
Proof using Type.
  intros Hwf Ht Hok Hv q e Hq. change (tlb (store_entry p v m)) with (tlb m) in Hq.
  destruct (Hok q e Hq) as (Hpq & e' & He' & Hst). split; [done|].
  rewrite entry_store_entry by done. case_decide as Ed; [subst q|by exists e'].
  exists v. split; [done|]. by eapply Hv.
Qed.

Lemma tlb_ok_store_flush m p v : tables_wf m → has_table m p → tlb_ok m → tlb_ok (flush p (store_entry p v m)).
Proof using Type.
  intros Hwf Ht Hok q e Hq. cbn in Hq. apply lookup_delete_Some in Hq as [Hne Hq].
  destruct (Hok q e Hq) as (Hpq & e' & He' & Hst). split; [done|]. exists e'. split; [|done].
  change (entry (store_entry p v m) q = Some e'). rewrite entry_store_entry by done. by rewrite decide_False by congruence.
Qed.

Lemma tlb_ok_fill m p : is_page p → tlb_ok m → tlb_ok (tlb_fill p m).
Proof using Type.
  intros Hp Hok q e. unfold tlb_fill. destruct (entry m p) as [e0|] eqn:E; [|apply Hok].
  destruct (has e0 _) eqn:Hpr; [|apply Hok]. cbn. intros [[<- <-]|[_ Hq]]%lookup_insert_Some; [|by apply Hok].
  split; [done|]. exists e0. split; [done|]. by split_and?.
Qed.
End Tables.
