(* ===== verification/MmuPages.v ===== *)
(** How the operations of Mmu.v change the entry of a single page, and create
    the page tables that are missing. *)
From S2P Require Import Prelude MiscMath Arch PmmIface Mmu MmuSafe.

(** ** Entries *)

Lemma has_bit e k : 0 ≤ k → has e (2 ^ k) = Z.testbit e k.
Proof.
  intros Hk. unfold has. destruct (Z.testbit e k) eqn:E.
  - destruct (Z.eqb_spec (Z.land e (2 ^ k)) 0) as [H0|]; [|done].
    apply (f_equal (λ x, Z.testbit x k)) in H0. rewrite Z.land_spec, Z.pow2_bits_true, Z.bits_0, E in H0 by done. done.
  - replace (Z.land e (2 ^ k)) with 0; [done|]. symmetry. apply Z.bits_inj'. intros n Hn.
    rewrite Z.land_spec, Z.bits_0, Z.pow2_bits_eqb by done. destruct (Z.eqb_spec k n) as [<-|]; [by rewrite E|].
    by rewrite andb_false_r.
Qed.
Lemma has_P e : has e ARCHI586_MMU_COMMON_FLAG_P = Z.testbit e 0.
Proof. by apply (has_bit e 0). Qed.
Lemma has_RW e : has e ARCHI586_MMU_COMMON_FLAG_RW = Z.testbit e 1.
Proof. by apply (has_bit e 1). Qed.
Lemma has_US e : has e ARCHI586_MMU_COMMON_FLAG_US = Z.testbit e 2.
Proof. by apply (has_bit e 2). Qed.
Lemma has_PCD e : has e ARCHI586_MMU_COMMON_FLAG_PCD = Z.testbit e 4.
Proof. by apply (has_bit e 4). Qed.

Lemma flag_if_bit b k e n : 0 ≤ k → 0 ≤ n →
  Z.testbit (flag_if b (2 ^ k) e) n = Z.testbit e n || b && (k =? n).
Proof.
  intros Hk Hn. unfold flag_if. destruct b; [|by rewrite orb_false_r].
  by rewrite Z.lor_spec, Z.pow2_bits_eqb.
Qed.

Lemma page_of_lor e f : 0 ≤ f < 4096 → page_of (Z.lor e f) = page_of e.
Proof.
  intros Hf. unfold page_of. rewrite Z.land_lor_distr_l. replace (Z.land f (not32 0xfff)) with 0; [apply Z.lor_0_r|].
  symmetry. apply Z.bits_inj'. intros n Hn. rewrite Z.land_spec, Z.bits_0.
  destruct (Z.ltb_spec n 12).
  - change (not32 0xfff) with (Z.shiftl (Z.ones 20) 12). rewrite Z.shiftl_spec, (Z.testbit_neg_r _ (n - 12)) by lia. apply andb_false_r.
  - rewrite <- (Z.mod_small f (2 ^ 12)), Z.mod_pow2_bits_high by lia. done.
Qed.
Lemma page_of_flag_if b f e : 0 ≤ f < 4096 → page_of (flag_if b f e) = page_of e.
Proof. intros Hf. unfold flag_if. destruct b; [by apply page_of_lor|done]. Qed.

(** The bits of an entry after [set_prot]. *)
Lemma set_prot_spec flags ua e :
  has (set_prot flags ua e) ARCHI586_MMU_COMMON_FLAG_P = has e ARCHI586_MMU_COMMON_FLAG_P ∧
  has (set_prot flags ua e) ARCHI586_MMU_COMMON_FLAG_RW = has e ARCHI586_MMU_COMMON_FLAG_RW || has flags MAP_PROT_WRITE ∧
  has (set_prot flags ua e) ARCHI586_MMU_COMMON_FLAG_US = has e ARCHI586_MMU_COMMON_FLAG_US || ua ∧
  has (set_prot flags ua e) ARCHI586_MMU_COMMON_FLAG_PCD = has e ARCHI586_MMU_COMMON_FLAG_PCD || has flags MAP_PROT_NOCACHE ∧
  page_of (set_prot flags ua e) = page_of e.
Proof.
  unfold set_prot. change ARCHI586_MMU_COMMON_FLAG_US with (2 ^ 2). change ARCHI586_MMU_COMMON_FLAG_RW with (2 ^ 1).
  change ARCHI586_MMU_COMMON_FLAG_PCD with (2 ^ 4). change ARCHI586_MMU_COMMON_FLAG_P with (2 ^ 0).
  rewrite !has_bit, !flag_if_bit, !page_of_flag_if by done. cbn [Z.eqb Pos.eqb].
  by rewrite !andb_false_r, !andb_true_r, !orb_false_r.
Qed.

(** The entry of a page that is mapped. *)
Definition mapping_entry (phys flags : Z) (ua : bool) : Z :=
  set_prot flags ua (Z.lor phys ARCHI586_MMU_COMMON_FLAG_P).

Lemma aligned_low_bits a n : a mod 4096 = 0 → 0 ≤ n < 12 → Z.testbit a n = false.
Proof. intros Ha Hn. rewrite <- (Z.mod_pow2_bits_low a 12) by lia. change (2 ^ 12) with 4096. rewrite Ha. apply Z.bits_0. Qed.

Lemma mapping_entry_spec phys flags ua : is_u32 phys → phys mod 4096 = 0 →
  has (mapping_entry phys flags ua) ARCHI586_MMU_COMMON_FLAG_P = true ∧
  has (mapping_entry phys flags ua) ARCHI586_MMU_COMMON_FLAG_RW = has flags MAP_PROT_WRITE ∧
  has (mapping_entry phys flags ua) ARCHI586_MMU_COMMON_FLAG_US = ua ∧
  has (mapping_entry phys flags ua) ARCHI586_MMU_COMMON_FLAG_PCD = has flags MAP_PROT_NOCACHE ∧
  page_of (mapping_entry phys flags ua) = phys.
Proof.
  intros Hu Ha. unfold mapping_entry. destruct (set_prot_spec flags ua (Z.lor phys ARCHI586_MMU_COMMON_FLAG_P)) as (-> & -> & -> & -> & ->).
  rewrite page_of_lor, page_of_page, !has_P, !has_RW, !has_US, !has_PCD, !Z.lor_spec by done.
  by rewrite !(aligned_low_bits phys) by (done || lia).
Qed.

Lemma clear_prot_bit e n : 0 ≤ n → Z.testbit (clear_prot e) n = Z.testbit e n && ((n =? 0) || (12 <=? n) && (n <? 32)).
Proof.
  intros Hn. unfold clear_prot. rewrite Z.land_spec. f_equal.
  change (not32 (Z.land 0xfff (not32 ARCHI586_MMU_COMMON_FLAG_P))) with (Z.lor 1 (Z.shiftl (Z.ones 20) 12)).
  rewrite Z.lor_spec, Z.shiftl_spec by done. change 1 with (2 ^ 0). rewrite Z.pow2_bits_eqb by done.
  rewrite Z.eqb_sym. f_equal. destruct (Z.leb_spec 12 n); [|by rewrite Z.testbit_neg_r by lia]. cbn [andb].
  destruct (Z.ltb_spec n 32); [by rewrite Z.ones_spec_low by lia|by rewrite Z.ones_spec_high by lia].
Qed.
Lemma clear_prot_spec e :
  has (clear_prot e) ARCHI586_MMU_COMMON_FLAG_P = has e ARCHI586_MMU_COMMON_FLAG_P ∧
  has (clear_prot e) ARCHI586_MMU_COMMON_FLAG_RW = false ∧ has (clear_prot e) ARCHI586_MMU_COMMON_FLAG_US = false ∧
  has (clear_prot e) ARCHI586_MMU_COMMON_FLAG_PCD = false ∧ page_of (clear_prot e) = page_of e.
Proof.
  rewrite !has_P, has_RW, has_US, has_PCD, !clear_prot_bit by done. cbn [Z.eqb Z.leb Z.compare Pos.compare Pos.compare_cont orb andb].
  rewrite andb_true_r, !andb_false_r. split_and!; try done.
  unfold page_of. apply Z.bits_inj'. intros n Hn. rewrite !Z.land_spec, clear_prot_bit by done.
  change (not32 0xfff) with (Z.shiftl (Z.ones 20) 12). rewrite Z.shiftl_spec by done.
  destruct (Z.leb_spec 12 n); [|by rewrite (Z.testbit_neg_r _ (n - 12)), !andb_false_r by lia].
  destruct (Z.ltb_spec n 32); [by rewrite orb_true_r, andb_true_r|].
  by rewrite Z.ones_spec_high, !andb_false_r by lia.
Qed.

(** ** Single pages *)
Section Pages.
Context {P : Type} `{!PmmOps P, !PmmLaws P}.
Local Abbreviation mmu := (mmu P).
Implicit Types m : mmu.

(** Store an entry, and flush the cache of its page or not. *)
Definition update (p v : Z) (fl : bool) m : mmu :=
  if fl then flush p (store_entry p v m) else store_entry p v m.

(** [m'] is [m] with the entries of some pages changed by [f]. *)
Record changed (f : Z → option Z) m m' : Prop := {
  changed_wf : mmu_wf m';
  changed_rest : same_rest m m';
  changed_pd k : is_index k → pd m' k = pd m k;
  changed_entry q : is_page q → entry m' q = match f q with Some v => Some v | None => entry m q end;
}.

Lemma changed_refl m : mmu_wf m → changed (λ _, None) m m.
Proof using Type. by split. Qed.

Lemma changed_trans f g m1 m2 m3 : changed f m1 m2 → changed g m2 m3 →
  changed (λ q, match g q with Some v => Some v | None => f q end) m1 m3.
Proof using Type.
  intros [_ (Hc1 & Hi1 & Hp1) Ht1 He1] [Hw2 (Hc2 & Hi2 & Hp2) Ht2 He2]. split; [done| | |].
  - unfold same_rest. split_and!; congruence.
  - intros k Hk. by rewrite Ht2, Ht1.
  - intros q Hq. rewrite He2, He1 by done. by destruct (g q).
Qed.

Lemma changed_tables f m m' q : changed f m m' → has_table m q → has_table m' q.
Proof using Type.
  intros Hc (Hq & Hpr & Hne). split; [done|]. destruct (page_split q Hq) as (Hk & _). by rewrite (changed_pd _ _ _ Hc).
Qed.

Lemma changed_ext f g m m' : (∀ q, is_page q → f q = g q) → changed f m m' → changed g m m'.
Proof using Type. intros Hfg [? ? ? He]. split; [done..|]. intros q Hq. rewrite <- Hfg by done. by apply He. Qed.

Lemma update_ok m p v fl : mmu_wf m → has_table m p →
  (fl = false → ∀ e old, entry m p = Some old → still_allowed e old → still_allowed e v) →
  changed (λ q, if decide (q = p) then Some v else None) m (update p v fl m).
Proof using Type.
  intros [Hwf Htlb] Ht Hv. split.
  - unfold update. destruct fl.
    + split; [by apply tables_wf_with_tlb, tables_wf_store_entry|by apply tlb_ok_store_flush].
    + split; [by apply tables_wf_store_entry|]. apply tlb_ok_store_entry; [done..|]. intros e old _. by apply Hv.
  - by destruct fl.
  - intros k Hk. rewrite <- (pd_store_entry m p v k) by done. by destruct fl.
  - intros q Hq. transitivity (entry (store_entry p v m) q); [by destruct fl|].
    rewrite entry_store_entry by done. by case_decide.
Qed.

(** How the operations do it. *)
Lemma update_eq m p off v fl : mmu_wf m → has_table m p → 0 ≤ off < 4096 →
  (_ ← write_word (s_pagetables (pde_index (4096 * p + off)) (pte_index (4096 * p + off))) v;
   if fl : bool then arch_mmu_flush_tlb_for (4096 * p + off) else mret tt) m = Ok (tt, update p v fl m).
Proof using Type.
  intros [Hwf _] (Hp & Hpr & _) Ho. destruct (virt_indices p off Hp Ho) as [-> ->].
  rewrite (M_bind_step _ _ _ _ _ (write_pagetable m p v Hwf Hp Hpr)). destruct fl; [|done].
  unfold arch_mmu_flush_tlb_for, update, flush. rewrite Z.shiftr_div_pow2 by done.
  by replace ((4096 * p + off) / 2 ^ 12) with p by (change (2 ^ 12) with 4096; dlia).
Qed.

Lemma read_entry m p off : mmu_wf m → has_table m p → 0 ≤ off < 4096 →
  ∃ e, entry m p = Some e ∧
    read_word (s_pagetables (pde_index (4096 * p + off)) (pte_index (4096 * p + off))) m = Ok (e, m).
Proof using Type.
  intros [Hwf _] Ht Ho. pose proof Ht as (Hp & Hpr & _). destruct (virt_indices p off Hp Ho) as [-> ->].
  destruct (page_split p Hp) as (Hi & Hj & _). eexists. split; [by apply has_table_entry|]. by apply read_pagetable.
Qed.

(** No right is lost when [loses_rights] says so. *)
Lemma still_allowed_update old e v flags ua : loses_rights old flags ua = false →
  present v → page_of v = page_of old → (has flags MAP_PROT_WRITE = true → writable v) → (ua = true → user v) →
  still_allowed e old → still_allowed e v.
Proof using Type.
  unfold loses_rights, still_allowed, writable, user, present. intros [HR HU]%orb_false_iff Hv Hpg Hw Hu (He & _ & Hp & Hrw & Hus).
  split_and?; [done|done|congruence| |].
  - intros H. apply Hrw in H. rewrite H in HR. apply Hw. by destruct (has flags _).
  - intros H. apply Hus in H. rewrite H in HU. apply Hu. by destruct ua.
Qed.

Lemma map_single_page_ok m p off phys flags ua : mmu_wf m → has_table m p → 0 ≤ off < 4096 →
  is_u32 phys → phys mod 4096 = 0 →
  wp (map_single_page (4096 * p + off) phys flags ua) m
    (λ _, changed (λ q, if decide (q = p) then Some (mapping_entry phys flags ua) else None) m).
Proof using Type.
  intros Hwf Ht Ho Hu Ha. unfold map_single_page. destruct (read_entry m p off Hwf Ht Ho) as (old & Hold & Hrd).
  apply wp_bind. exists old, m. split; [done|]. fold (mapping_entry phys flags ua).
  eexists tt, _. split; [by apply update_eq|]. apply update_ok; [done..|].
  destruct (mapping_entry_spec phys flags ua Hu Ha) as (HP & HW & HU & _ & Hpg).
  intros Hfl e old' Ho' Hst. rewrite Hold in Ho'. injection Ho' as <-.
  pose proof Hst as (_ & Hpr & _). unfold present in Hpr. rewrite Hpr in Hfl. cbn in Hfl.
  apply orb_false_iff in Hfl as [Hl Hpp]. apply negb_false_iff, Z.eqb_eq in Hpp.
  eapply still_allowed_update; [done|exact HP|congruence|unfold writable; by rewrite HW|unfold user; by rewrite HU|done].
Qed.

Lemma remap_single_page_ok m p off flags ua old : mmu_wf m → has_table m p → 0 ≤ off < 4096 → entry m p = Some old →
  wp (remap_single_page (4096 * p + off) flags ua) m
    (λ _, changed (λ q, if decide (q = p) then Some (set_prot flags ua (clear_prot old)) else None) m).
Proof using Type.
  intros Hwf Ht Ho Hold. unfold remap_single_page. destruct (read_entry m p off Hwf Ht Ho) as (old' & Ho' & Hrd).
  rewrite Hold in Ho'. injection Ho' as <-. apply wp_bind. exists old, m. split; [done|].
  eexists tt, _. split; [by apply update_eq|]. apply update_ok; [done..|].
  destruct (set_prot_spec flags ua (clear_prot old)) as (HP & HW & HU & _ & Hpg).
  destruct (clear_prot_spec old) as (CP & CW & CU & _ & Cpg). rewrite CP in HP. rewrite CW in HW. rewrite CU in HU. cbn in HW, HU.
  intros Hfl e old' Ho' Hst. rewrite Hold in Ho'. injection Ho' as <-. pose proof Hst as (_ & Hpr & _).
  eapply still_allowed_update; [done|unfold present in *; congruence|congruence|unfold writable; by rewrite HW|unfold user; by rewrite HU|done].
Qed.

Lemma unmap_single_page_ok m p off : mmu_wf m → has_table m p → 0 ≤ off < 4096 →
  wp (unmap_single_page (4096 * p + off)) m (λ _, changed (λ q, if decide (q = p) then Some 0 else None) m).
Proof using Type.
  intros Hwf Ht Ho. unfold unmap_single_page. eexists tt, _. split; [by apply (update_eq m p off 0 true)|].
  by apply update_ok.
Qed.
End Pages.

(** ** New page tables *)
Section Create.
Context {P : Type} `{!PmmOps P, !PmmLaws P}.
Local Abbreviation mmu := (mmu P).
Implicit Types m : mmu.

(** The directory entry of a new table. *)
Definition table_entry (a : Z) : Z :=
  Z.lor (Z.lor (Z.lor a ARCHI586_MMU_COMMON_FLAG_P) ARCHI586_MMU_COMMON_FLAG_RW) ARCHI586_MMU_COMMON_FLAG_US.

Lemma table_entry_spec a : is_u32 a → a mod 4096 = 0 →
  present (table_entry a) ∧ writable (table_entry a) ∧ page_of (table_entry a) = a.
Proof using Type.
  intros Hu Ha. unfold table_entry, present, writable. rewrite has_P, has_RW, !page_of_lor, page_of_page by done.
  by rewrite !Z.lor_spec, !(aligned_low_bits a) by (done || lia).
Qed.

(** The directory points to the page [a], which was available. *)
Definition with_table (i a : Z) (p : P) m : mmu := store_word (cr3 m + 4 * i) (table_entry a) (with_pages p m).

Record fresh_page (a : Z) (p : P) m : Prop := {
  fresh_u32 : is_u32 a; fresh_aligned : a mod 4096 = 0; fresh_nonzero : a ≠ 0;
  fresh_available : page_available (pages m) a; fresh_ok : pages_ok p; fresh_owned : page_owned p a;
  fresh_others b : page_available p b → page_available (pages m) b;
  fresh_kept b : b ≠ a → page_owned p b ↔ page_owned (pages m) b;
}.

Section WithTable.
Variables (i a : Z) (p : P) (m : mmu).
Hypotheses (Hwf : tables_wf m) (Hi : is_index i) (Hil : i ≠ 1023) (Ha : fresh_page a p m).

Lemma pd_with_table k : is_index k → pd (with_table i a p m) k = if decide (k = i) then table_entry a else pd m k.
Proof using Type.
  intros Hk. unfold pd, with_table, store_word. cbn.
  destruct (Z.eqb_spec (cr3 m + 4 * k) (cr3 m + 4 * i)); case_decide; (done || lia).
Qed.

Lemma tables_wf_with_table : tables_wf (with_table i a p m).
Proof using All.
  destruct (table_entry_spec a (fresh_u32 _ _ _ Ha) (fresh_aligned _ _ _ Ha)) as (Tp & Tw & Tpg).
  pose proof is_index_last.
  assert (∀ k, is_index k → present (pd m k) → page_of (pd m k) ≠ a) as Hold.
  { intros k Hk Hpk E. eapply (wf_not_available m Hwf); [exact Hk|exact Hpk|]. rewrite E. apply Ha. }
  split.
  - apply (wf_cr3 m Hwf).
  - rewrite pd_with_table, decide_False by congruence. apply (wf_self m Hwf).
  - intros k Hk. rewrite pd_with_table by done. case_decide; [done|]. by apply (wf_rw m Hwf).
  - intros j k Hj Hk. rewrite !pd_with_table by done. case_decide; case_decide; [congruence|..].
    + intros _ Hpk E. rewrite Tpg in E. by destruct (Hold k Hk Hpk).
    + intros Hpj _ E. rewrite Tpg in E. by destruct (Hold j Hj Hpj).
    + by apply (wf_distinct m Hwf).
  - intros k Hk. rewrite pd_with_table by done. cbn. case_decide.
    + intros _. rewrite Tpg. apply page_owned_not_available; apply Ha.
    + intros Hpk Hav%(fresh_others _ _ _ Ha). by eapply (wf_not_available m Hwf).
  - apply Ha.
Qed.

Hypothesis (Hnew : ¬ present (pd m i)).

Lemma pt_with_table k l : is_index k → is_index l → present (pd m k) → (k = 1023 → l ≠ i) →
  pt (with_table i a p m) k l = pt m k l.
Proof using Hwf Hi Hil Hnew.
  intros Hk Hl Hpk Hne. unfold pt. rewrite pd_with_table, decide_False by (done || congruence).
  unfold with_table, store_word. cbn. rewrite <- (wf_cr3 m Hwf).
  destruct (Z.eqb_spec (page_of (pd m k) + 4 * l) (page_of (cr3 m) + 4 * i)) as [E|]; [|done].
  apply word_inj in E as [E ->]; [|done..]. destruct (wf_self m Hwf) as [Hps Hself].
  rewrite (wf_cr3 m Hwf), <- Hself in E. apply (wf_distinct m Hwf) in E as ->; [|done|apply is_index_last|done..].
  by destruct (Hne eq_refl).
Qed.

Lemma entry_with_table q : has_table m q → entry (with_table i a p m) q = entry m q.
Proof using Hwf Hi Hil Hnew.
  intros (Hq & Hpr & Hne). destruct (page_split q Hq) as (Hk & Hl & _). unfold entry.
  rewrite pd_with_table, decide_False by (done || congruence). by rewrite pt_with_table.
Qed.

Lemma tlb_ok_with_table : tlb_ok m → tlb_ok (with_table i a p m).
Proof using Hwf Hi Hil Hnew.
  intros Hok q e Hq. change (tlb (with_table i a p m)) with (tlb m) in Hq. destruct (Hok q e Hq) as (Hpq & e' & He' & Hst).
  split; [done|]. exists e'. split; [|done]. destruct (page_split q Hpq) as (Hk & Hl & _). rewrite <- He'.
  unfold entry in *. destruct (has (pd m (q / 1024)) _) eqn:Hpr; [|done]. injection He' as <-.
  assert (q / 1024 ≠ i) by (intros <-; by apply Hnew).
  rewrite pd_with_table, decide_False, Hpr by done. f_equal. apply pt_with_table; [done..|].
  intros E1 E2. rewrite E1, E2 in Hst. destruct Hst as (_ & Hst & _). apply Hnew. unfold pt in Hst.
  destruct (wf_self m Hwf) as [_ Hself]. rewrite Hself in Hst. exact Hst.
Qed.

Lemma no_cached_entry : tlb_ok m → ∀ q, q / 1024 = i → tlb m !! q = None.
Proof using Hnew Hi Hil.
  intros Hok q Hq. destruct (tlb m !! q) as [e|] eqn:E; [|done]. destruct (Hok q e E) as (_ & e' & He' & _).
  unfold entry in He'. rewrite Hq in He'. destruct (has (pd m i) _) eqn:Hpr; [|done]. by destruct Hnew.
Qed.
End WithTable.

(** Zeroing the table: the state in which the first [n] entries are zero. *)
Record zeroing (i : Z) (m1 : mmu) (n : Z) m : Prop := {
  zeroing_wf : mmu_wf m;
  zeroing_rest : same_rest m1 m;
  zeroing_pd k : is_index k → pd m k = pd m1 k;
  zeroing_tlb q : q / 1024 = i → tlb m !! q = None;
  zeroing_entry q : is_page q → entry m q = if decide (q / 1024 = i ∧ q mod 1024 < n) then Some 0 else entry m1 q;
}.

Lemma zeroing_step i m1 n m : is_index i → i ≠ 1023 → present (pd m1 i) → is_index n → zeroing i m1 n m →
  wp (write_word (s_pagetables i n) 0) m (λ _, zeroing i m1 (n + 1)).
Proof using Type.
  intros Hi Hil Hpr Hn [[Hwf Htlb] Hrest Hpd Hnt He]. destruct (page_join i n Hi Hn) as (Hp & Ed & Em).
  assert (has_table m (1024 * i + n)) as Ht by (split; [done|]; by rewrite Ed, Hpd).
  eexists tt, _. split.
  { pose proof (write_pagetable m (1024 * i + n) 0 Hwf Hp (proj1 (proj2 Ht))) as Hw. by rewrite Ed, Em in Hw. }
  split.
  - split; [by apply tables_wf_store_entry|]. apply tlb_ok_store_entry; [done..|].
    intros e old He0. by rewrite Hnt in He0.
  - done.
  - intros k Hk. rewrite pd_store_entry by done. by apply Hpd.
  - apply Hnt.
  - intros q Hq. rewrite entry_store_entry, He by done. destruct (page_split q Hq) as (_ & _ & Eq).
    unfold is_index in *. repeat case_decide; naive_solver lia.
Qed.

(** A page is allocated; the page allocator has nothing left. *)
Definition alloc_step (p p' : P) : Prop := ∃ a n, a ≠ 0 ∧ page_alloc 1 p = Ok ((a, n), p').
Definition out_of_pages m : Prop := ∃ n, page_alloc 1 (pages m) = Ok ((0, n), pages m).

(** What creating a table leaves alone, and what it adds. *)
Record created (i : Z) m m' : Prop := {
  created_wf : mmu_wf m';
  created_cr3 : cr3 m' = cr3 m;
  created_irq : irq m' = irq m;
  created_pd k : is_index k → k ≠ i → pd m' k = pd m k;
  created_present : present (pd m' i);
  created_entry q : has_table m q → entry m' q = entry m q;
  created_zero q : is_page q → q / 1024 = i → entry m' q = Some 0;
  created_pages : alloc_step (pages m) (pages m');
}.

Lemma created_has_table i m m' q : ¬ present (pd m i) → created i m m' → has_table m q → has_table m' q.
Proof using Type.
  intros Hn Hc (Hq & Hpr & Hne). split; [done|]. destruct (page_split q Hq) as (Hk & _).
  rewrite (created_pd _ _ _ Hc); [done..|]. intros E. by rewrite E in Hpr.
Qed.

(** The cache is flushed for nothing: it has no entry of the new table. *)
Lemma flush_all_ok i m1 : is_index i → ∀ m n Q, zeroing i m1 n m → (∀ m', zeroing i m1 n m' → Q tt m') →
  wp (for_ (seqZ 0 ARCHI586_MMU_ENTRY_COUNT) (λ k, arch_mmu_flush_tlb_for (MAKE_VIRTADDR i k 0))) m Q.
Proof using Type.
  intros Hi m n Q Hz HQ. apply (wp_for_seqZ _ _ (λ _, zeroing i m1 n)); [done..| |done].
  intros k s Hk [[Hwf Htlb] Hrest Hpd Hnt He]. eexists tt, _. split; [reflexivity|].
  split; [split; [by apply tables_wf_with_tlb|by apply tlb_ok_flush]|done|done| |done].
  intros q Hq. cbn. apply lookup_delete_None. right. by apply Hnt.
Qed.

Lemma alloc_page_ok m : pages_ok (pages m) → wp alloc_page m (λ a m',
  a = 0 ∧ m' = m ∧ out_of_pages m ∨ ∃ p, m' = with_pages p m ∧ fresh_page a p m ∧ alloc_step (pages m) p).
Proof using Type.
  intros Hok. destruct (page_alloc_law (pages m) Hok) as (a & n & p & E & Hok' & Hout).
  exists a, (with_pages p m). unfold alloc_page. rewrite E. split; [done|].
  destruct Hout as [[-> ->]|(Ha & Hu & Hal & Hav & Hown & Hoth & Hkept)]; [left; split; [done|split; [by destruct m|by exists n]]|right].
  exists p. split; [done|]. split; [by split|by exists a, n].
Qed.

Lemma create_pd_ok m i : mmu_wf m → 0 ≤ i < 256 → ¬ present (pd m i) →
  wp (create_pd i) m (λ r m', match r with inl e => e = - ENOMEM ∧ m' = m ∧ out_of_pages m | inr _ => created i m m' end).
Proof using Type.
  intros [Hwf Htlb] Hi8 Hnew. assert (is_index i) as Hi by (unfold is_index; lia). unfold create_pd.
  assert (u8 i = i) as -> by (apply Z.mod_small; lia).
  apply wp_bind. eapply wp_mono; [by apply alloc_page_ok, wf_pages|].
  intros a m0 [(-> & -> & Hout)|(p & -> & Hfr & Hstep)]; [by apply wp_ret|].
  destruct (Z.eqb_spec a 0); [by destruct (fresh_nonzero _ _ _ Hfr)|].
  assert (i ≠ 1023) as Hil by lia.
  pose proof (tables_wf_with_table i a p m Hwf Hi Hil Hfr) as Hwf1. set (m1 := with_table i a p m) in *.
  assert (present (pd m1 i)) as Hpr.
  { unfold m1. rewrite pd_with_table, decide_True by done. apply table_entry_spec; apply Hfr. }
  apply wp_bind. eexists tt, m1. split.
  { unfold write_word. rewrite translate_pagedir; [done| |done].
    destruct Hwf. split; try done; [|by apply Hfr]. intros k Hk Hpk Hav. eapply wf_not_available; [done..|]. by apply Hfr. }
  apply wp_bind. eexists tt, _. split; [reflexivity|]. set (m2 := with_tlb _ m1).
  assert (zeroing i m1 0 m2) as Hz.
  { split; [|done|done| |].
    - split; [by apply tables_wf_with_tlb|]. apply tlb_ok_flush. by apply tlb_ok_with_table.
    - intros q Hq. cbn. apply lookup_delete_None. right. by eapply no_cached_entry.
    - intros q Hq. rewrite decide_False; [done|]. unfold is_page in Hq. destruct (page_split q Hq) as (_ & [? _] & _). lia. }
  apply wp_bind. apply (wp_for_seqZ _ _ (λ k, zeroing i m1 k)); [done|exact Hz|by intros; apply zeroing_step|].
  intros m3 Hz3. apply wp_bind. eapply flush_all_ok; [done|exact Hz3|]. intros m4 [Hwf4 (Hc4 & Hi4 & Hp4) Hpd4 Ht4 He4].
  apply wp_ret. split; [done|done|done| |by rewrite Hpd4| | |by rewrite Hp4].
  - intros k Hk Hne. rewrite Hpd4 by done. unfold m1. by rewrite pd_with_table, decide_False.
  - intros q Hq. pose proof Hq as (Hpq & Hpr' & Hne). rewrite He4, decide_False by (done || (intros [E _]; by rewrite E in Hpr')).
    by apply entry_with_table.
  - intros q Hq E. rewrite He4 by done. rewrite decide_True; [done|]. split; [done|]. by destruct (page_split q Hq) as (_ & [_ ?] & _).
Qed.
End Create.
