(* ===== verification/MmuCorrect.v ===== *)
(** The theorems about the memory management unit driver: the translations it
    looks up are those of the processor, mapping, protecting and unmapping
    change exactly the translations they should, and no right stays cached
    that was taken away. *)
From S2P Require Import Prelude MiscMath Arch PmmIface Mmu MmuSafe MmuPages.

Section Correct.
Context {P : Type} `{!PmmOps P, !PmmLaws P}.
Local Abbreviation mmu := (mmu P).
Implicit Types m : mmu.

(** ** Looking up translations *)

(** What the processor does for an access of a program: the two entries have to
    be present and to allow it. *)
Definition permits (write from_user : bool) (e : Z) : bool :=
  allows write e && (negb from_user || has e ARCHI586_MMU_COMMON_FLAG_US).

Definition program_access m (write from_user : bool) (va : Z) : option Z :=
  let pd_entry := pd m (pde_index va) in
  let pt_entry := pt m (pde_index va) (pte_index va) in
  if permits write from_user pd_entry && permits write from_user pt_entry then Some (page_of pt_entry) else None.

Lemma indices_range va : is_index (pde_index va) ∧ is_index (pte_index va).
Proof using Type.
  rewrite pde_index_eq, pte_index_eq. unfold is_index. split; by apply Z.mod_pos_bound.
Qed.

Lemma page_offset_range e va : 0 ≤ page_of e + Z.land va 0xfff < 2 ^ 32.
Proof using Type.
  rewrite offset_eq, page_of_eq. pose proof (Z.mod_pos_bound (e / 4096) (2 ^ 20) eq_refl).
  pose proof (Z.mod_pos_bound va 4096 eq_refl). change (2 ^ 20) with 1048576 in *. change (2 ^ 32) with 4294967296. lia.
Qed.

(** C10: looking up a translation gives what the processor does with the same
    address: [arch_mmu_virtual_to_physical] the physical address the kernel
    reads, or [-EFAULT] when it cannot; [arch_mmu_emulate] the page that an
    access of a program with these rights reaches, or an error exactly when it
    is not allowed, [-EFAULT] being for addresses that are not mapped. *)
Theorem lookups_agree_with_processor m va flags from_user : tables_wf m →
  arch_mmu_virtual_to_physical va m =
    Ok (match translate m false va with Some a => inr a | None => inl (- EFAULT) end, m) ∧
  ∃ r, arch_mmu_emulate va flags from_user m = Ok (r, m) ∧
    match program_access m (has flags MAP_PROT_WRITE) from_user va with
    | Some a => r = inr a
    | None => r = inl (- EPERM) ∨ r = inl (- EFAULT) ∧ translate m false va = None
    end.
Proof using Type.
  intros Hwf. destruct (indices_range va) as [Hi Hj].
  pose proof (read_pagedir m (pde_index va) Hwf Hi) as Hd.
  pose proof (read_pagetable m (pde_index va) (pte_index va) Hwf Hi Hj) as Ht.
  unfold arch_mmu_virtual_to_physical, arch_mmu_emulate, translate, program_access, permits, allows, present in *.
  fold (pd m (pde_index va)) (pt m (pde_index va) (pte_index va)). cbn [negb orb].
  split; rewrite (M_bind_step _ _ _ _ _ Hd); destruct (has (pd m _) ARCHI586_MMU_COMMON_FLAG_P) eqn:EP; cbn [negb andb];
    rewrite ?orb_true_r, ?andb_true_r; [|by eauto| |by eauto].
  - rewrite (M_bind_step _ _ _ _ _ (Ht eq_refl)). destruct (has (pt m _ _) ARCHI586_MMU_COMMON_FLAG_P); [|done]. cbn [negb].
    by rewrite u32_small by apply page_offset_range.
  - destruct (has (pd m _) ARCHI586_MMU_COMMON_FLAG_RW), (has flags MAP_PROT_WRITE), (has (pd m _) ARCHI586_MMU_COMMON_FLAG_US), from_user;
      cbn [negb andb orb]; eauto;
      rewrite (M_bind_step _ _ _ _ _ (Ht eq_refl));
      destruct (has (pt m _ _) ARCHI586_MMU_COMMON_FLAG_P), (has (pt m _ _) ARCHI586_MMU_COMMON_FLAG_RW), (has (pt m _ _) ARCHI586_MMU_COMMON_FLAG_US);
      cbn [negb andb orb]; eauto.
Qed.

(** ** Ranges of pages *)

(** The page of the address space that is mapped, if there is one. *)
Definition mapped m (p : Z) : option Z :=
  match entry m p with
  | Some e => if has e ARCHI586_MMU_COMMON_FLAG_P then Some e else None
  | None => None
  end.

(** Pages that are not in the window of the recursive mapping. *)
Definition is_user_page (p : Z) : Prop := 0 ≤ p < 1023 * 1024.
Lemma user_page_ok p : is_user_page p → is_page p ∧ p / 1024 ≠ 1023.
Proof using Type. unfold is_user_page, is_page. intros. change (2 ^ 20) with 1048576. dlia. Qed.

Record range_ok (base count : Z) : Prop := {
  range_base : 0 < base; range_count : 0 ≤ count; range_end : base + count * 4096 < 2 ^ 32;
}.

Lemma assert_addr_valid_ok base count m : range_ok base count → ASSERT_ADDR_VALID base count m = Ok (tt, m).
Proof using Type.
  intros [Hb Hc He]. unfold ASSERT_ADDR_VALID, WILL_ADD_OVERFLOW, mbind, M_bind, massert, UINTPTR_MAX, ARCHI586_MMU_PAGE_SIZE.
  change (2 ^ 32) with 4294967296 in *. rewrite u32_small by (change (2 ^ 32) with 4294967296; lia).
  change ((4294967296 - 1) / 4096) with 1048575.
  destruct (Z.eqb_spec base 0); [lia|]. destruct (Z.leb_spec count 1048575); [|lia].
  destruct (Z.ltb_spec (4294967296 - 1 - base) (count * 4096)); [lia|done].
Qed.

Lemma nth_page_eq base count i : range_ok base count → 0 ≤ i < count →
  nth_page base i = 4096 * (base / 4096 + i) + base mod 4096.
Proof using Type.
  intros [Hb Hc He] Hi. unfold nth_page, ARCHI586_MMU_PAGE_SIZE. rewrite u32_small; [dlia|].
  change (2 ^ 32) with 4294967296 in *. lia.
Qed.

Lemma assert_irq_ok m : irq m = false → assert_irq_disabled m = Ok (tt, m).
Proof using Type. intros Hi. unfold assert_irq_disabled. by rewrite Hi. Qed.

(** Entries on the pages of a range. *)
Definition on_range (p0 n : Z) (v : Z → Z) (q : Z) : option Z :=
  if decide (p0 ≤ q < p0 + n) then Some (v q) else None.

(** A loop that changes one page after the other. *)
Lemma for_pages_changed m base count v (f : Z → M mmu unit) : mmu_wf m → range_ok base count →
  (∀ i, 0 ≤ i < count → has_table m (base / 4096 + i)) →
  (∀ i s, 0 ≤ i < count → changed (on_range (base / 4096) i v) m s → mmu_wf s → has_table s (base / 4096 + i) →
     entry s (base / 4096 + i) = entry m (base / 4096 + i) →
     wp (f i) s (λ _, changed (λ q, if decide (q = base / 4096 + i) then Some (v (base / 4096 + i)) else None) s)) →
  wp (for_ (seqZ 0 count) f) m (λ _, changed (on_range (base / 4096) count v) m).
Proof using Type.
  intros Hwf Hr Ht Hf. apply (wp_for_seqZ _ _ (λ i, changed (on_range (base / 4096) i v) m)).
  - apply Hr.
  - eapply changed_ext; [|by apply changed_refl]. intros q _. unfold on_range. by rewrite decide_False by lia.
  - intros i s Hi Hs. eapply wp_mono.
    + apply (Hf i s Hi Hs); [apply Hs|by apply (changed_tables _ _ _ _ Hs), Ht|].
      rewrite (changed_entry _ _ _ Hs) by apply (Ht i Hi). unfold on_range. by rewrite decide_False by lia.
    + intros [] s' Hs'. eapply changed_ext; [|by eapply changed_trans]. intros q _. cbn. unfold on_range.
      repeat case_decide; subst; (done || lia).
  - done.
Qed.

Lemma changed_mapped m m' p0 n v q : changed (on_range p0 n v) m m' → is_page q →
  mapped m' q = if decide (p0 ≤ q < p0 + n)
    then (if has (v q) ARCHI586_MMU_COMMON_FLAG_P then Some (v q) else None) else mapped m q.
Proof using Type.
  intros Hc Hq. unfold mapped. rewrite (changed_entry _ _ _ Hc) by done. unfold on_range. by case_decide.
Qed.

(** ** Mapping *)

(** The pages of a range are reached through a table, or through one that
    [create_pd] can make. *)
Definition tables_possible m (p0 n : Z) : Prop :=
  ∀ p, p0 ≤ p < p0 + n → is_user_page p ∧ (present (pd m (p / 1024)) ∨ p / 1024 < 256).

(** The first loop: the tables of the first [i] pages are there. *)
Record tables_made (p0 i : Z) m s : Prop := {
  made_wf : mmu_wf s;
  made_cr3 : cr3 s = cr3 m;
  made_irq : irq s = irq m;
  made_kept q : has_table m q → has_table s q;
  made_new p : p0 ≤ p < p0 + i → has_table s p;
  made_mapped q : is_user_page q → mapped s q = mapped m q;
  made_pages : ∃ k, Z.of_nat k ≤ i ∧ nsteps alloc_step k (pages m) (pages s);
}.

(** The allocator had nothing left for a table, after fewer than [n] pages. *)
Definition pages_run_out (n : Z) m m' : Prop :=
  out_of_pages m' ∧ ∃ k, Z.of_nat k < n ∧ nsteps alloc_step k (pages m) (pages m').

Lemma create_step_ok m p0 n i va off s : tables_possible m p0 n → 0 ≤ i < n → va = 4096 * (p0 + i) + off → 0 ≤ off < 4096 →
  tables_made p0 i m s →
  wp (pd_entry ← read_word (s_pagedir (pde_index va));
      if has pd_entry ARCHI586_MMU_COMMON_FLAG_P then mret (inr tt) else create_pd (pde_index va)) s
    (λ r s', match r with
             | inl _ => tables_made p0 i m s' ∧ ¬ present (pd m ((p0 + i) / 1024)) ∧ out_of_pages s'
             | inr _ => tables_made p0 (i + 1) m s'
             end).
Proof using Type.
  intros Hpos Hi -> Ho Hs. destruct (Hpos (p0 + i) ltac:(lia)) as [Hu Hor]. destruct (user_page_ok _ Hu) as [Hp Hne].
  destruct (virt_indices (p0 + i) off Hp Ho) as [-> _]. destruct (page_split _ Hp) as (Hk & Hl & Ep).
  set (k := (p0 + i) / 1024) in *. pose proof (made_wf _ _ _ _ Hs) as Hwf.
  apply wp_bind. exists (pd s k), s. split; [by apply read_pagedir, Hk; apply Hwf|].
  destruct (has (pd s k) ARCHI586_MMU_COMMON_FLAG_P) eqn:Hpr.
  - apply wp_ret. destruct Hs as [? ? ? ? Hnew ? (n' & Hn & Hsteps)]. split; [done..| |done|exists n'; split; [lia|done]].
    intros p Hpp. destruct (decide (p = p0 + i)) as [->|]; [done|]. apply Hnew. lia.
  - assert (¬ present (pd s k)) as Hn by (unfold present; congruence).
    assert (¬ present (pd m k)) as Hnm.
    { intros Hm. assert (has_table m (p0 + i)) as Ht by done.
      apply (made_kept _ _ _ _ Hs) in Ht as (_ & Ht & _). by destruct Hn. }
    assert (k < 256) as Hk8 by (by destruct Hor).
    destruct Hk as [Hk0 Hk1].
    eapply wp_mono; [apply create_pd_ok; [done|lia|done]|]. intros [e|u] s'; [by intros (_ & -> & ?)|].
    intros Hc.
    pose proof (created_has_table k s s') as Hht. destruct Hs as [_ Hc3 Hir Hkept Hnew Hmap (n' & Hn' & Hsteps)]. split.
    + apply Hc.
    + by rewrite (created_cr3 _ _ _ Hc).
    + by rewrite (created_irq _ _ _ Hc).
    + auto.
    + intros p Hpp. destruct (decide (p = p0 + i)) as [->|]; [split; [done|split; [apply Hc|done]]|].
      apply Hht; [done..|]. apply Hnew. lia.
    + intros q Hq. rewrite <- Hmap by done. destruct (user_page_ok q Hq) as [Hqp Hqn]. unfold mapped.
      destruct (decide (present (pd s (q / 1024)))) as [Hqpr|Hqpr]; [by rewrite (created_entry _ _ _ Hc)|].
      unfold entry at 2. unfold present in Hqpr. apply not_true_is_false in Hqpr. rewrite Hqpr.
      destruct (decide (q / 1024 = k)) as [E|E]; [by rewrite (created_zero _ _ _ Hc)|].
      unfold entry. destruct (page_split q Hqp) as (Hqk & _). by rewrite (created_pd _ _ _ Hc), Hqpr.
    + exists (S n'). split; [lia|]. eapply nsteps_r; [exact Hsteps|apply Hc].
Qed.

Definition map_post m (virt phys count flags : Z) (ua : bool) (ret : Z) m' : Prop :=
    if has flags MAP_PROT_READ then
      ret = 0 ∧ mmu_wf m' ∧ cr3 m' = cr3 m ∧ irq m' = false ∧
      ((∀ q, is_user_page q → mapped m' q =
          if decide (virt / 4096 ≤ q < virt / 4096 + count)
          then Some (mapping_entry (phys + 4096 * (q - virt / 4096)) flags ua) else mapped m q) ∨
       (∀ q, is_user_page q → mapped m' q = mapped m q) ∧ pages_run_out count m m' ∧ ∃ p, virt / 4096 ≤ p < virt / 4096 + count ∧ ¬ present (pd m (p / 1024)))
    else ret = - EPERM ∧ m' = m.

Lemma arch_mmu_map_spec m virt phys count flags ua : mmu_wf m → irq m = false →
  range_ok virt count → range_ok phys count → phys mod 4096 = 0 → tables_possible m (virt / 4096) count →
  wp (arch_mmu_map virt phys count flags ua) m (map_post m virt phys count flags ua).
Proof using Type.
  intros Hwf Hirq Hv Hp Hal Hpos. unfold arch_mmu_map, map_post.
  apply wp_bind. eexists tt, m. split; [by apply assert_irq_ok|].
  apply wp_bind. eexists tt, m. split; [by apply assert_addr_valid_ok|].
  apply wp_bind. eexists tt, m. split; [by apply assert_addr_valid_ok|].
  apply wp_bind. eapply wp_lift; [by apply is_aligned_eq|]. change ARCHI586_MMU_PAGE_SIZE with 4096. rewrite Hal.
  apply wp_bind, wp_massert; [done|]. destruct (has flags MAP_PROT_READ); cbn [negb]; [|by apply wp_ret].
  set (p0 := virt / 4096) in *. pose proof (Z.mod_pos_bound virt 4096 eq_refl) as Hoff.
  apply wp_bind. apply (wp_for_try_seqZ _ _ (λ i s, tables_made p0 i m s)).
  - apply Hv.
  - split; try done; [intros p ?; lia|]. exists 0%nat. split; [lia|constructor].
  - intros i s Hi Hs. pose proof (nth_page_eq virt count i Hv Hi) as Hn. fold p0 in Hn.
    eapply wp_mono; [by eapply create_step_ok|]. intros [e|u] s'; [|done]. intros (Hs' & Hnp & Hout). apply wp_ret.
    split_and?; [done|by eapply made_wf|by eapply made_cr3|by rewrite (made_irq _ _ _ _ Hs')|right].
    split; [by eapply made_mapped|]. destruct (made_pages _ _ _ _ Hs') as (k & Hk & Hsteps).
    split; [split; [done|exists k; split; [lia|done]]|]. exists (p0 + i). split; [lia|done].
  - intros s Hs. set (v q := mapping_entry (phys + 4096 * (q - p0)) flags ua).
    apply wp_bind. eapply wp_mono; [apply (for_pages_changed s virt count v); [apply Hs|done|..]|].
    + intros i Hi. apply (made_new _ _ _ _ Hs). fold p0. lia.
    + intros i s' Hi _ Hs' Ht' _. rewrite (nth_page_eq virt count i Hv Hi). fold p0 in Ht' |- *.
      assert (nth_page phys i = phys + 4096 * (p0 + i - p0)) as -> by (rewrite (nth_page_eq phys count i Hp Hi); dlia).
      destruct Hp as [Hp1 Hp2 Hp3]. change (2 ^ 32) with 4294967296 in *.
      apply map_single_page_ok; [done..|unfold is_u32; change (2 ^ 32) with 4294967296; lia|dlia].
    + intros [] s' Hc. apply wp_ret. destruct (changed_rest _ _ _ Hc) as (Hc3 & Hir & _).
      split_and?; [done|apply Hc|by rewrite Hc3, (made_cr3 _ _ _ _ Hs)|by rewrite Hir, (made_irq _ _ _ _ Hs)|left].
      intros q Hq. destruct (user_page_ok q Hq) as [Hqp _]. rewrite (changed_mapped _ _ _ _ _ q Hc) by done. fold p0.
      case_decide as Hin; [|by apply Hs]. destruct Hp as [Hp1 Hp2 Hp3]. change (2 ^ 32) with 4294967296 in *.
      unfold v. destruct (mapping_entry_spec (phys + 4096 * (q - p0)) flags ua) as (-> & _);
        [unfold is_u32; change (2 ^ 32) with 4294967296; lia|dlia|done].
Qed.


(** ** Changing the protection, unmapping *)

Lemma check_presence_ok m p off : tables_wf m → is_page p → 0 ≤ off < 4096 →
  check_presence (4096 * p + off) m = Ok (match mapped m p with Some _ => inr tt | None => inl (- EFAULT) end, m).
Proof using Type.
  intros Hwf Hp Ho. unfold check_presence. destruct (virt_indices p off Hp Ho) as [-> ->].
  destruct (page_split p Hp) as (Hi & Hj & _). rewrite (M_bind_step _ _ _ _ _ (read_pagedir m _ Hwf Hi)).
  unfold mapped, entry. destruct (has (pd m _) _) eqn:E; [|done]. cbn [negb].
  rewrite (M_bind_step _ _ _ _ _ (read_pagetable m _ _ Hwf Hi Hj E)). by destruct (has (pt m _ _) _).
Qed.

Lemma mapped_entry m p e : mapped m p = Some e → entry m p = Some e ∧ present e ∧ present (pd m (p / 1024)).
Proof using Type.
  unfold mapped, entry, present. destruct (has (pd m _) _) eqn:E; [|done]. destruct (has (pt m _ _) _) eqn:E2; [|done].
  by intros [= <-].
Qed.

Definition range_below (base count : Z) : Prop := ∀ p, base / 4096 ≤ p < base / 4096 + count → is_user_page p.

(** The loop that checks that all pages are mapped. *)
Lemma check_range m base count Q : tables_wf m → range_ok base count → range_below base count →
  ((∃ p, base / 4096 ≤ p < base / 4096 + count ∧ mapped m p = None) → Q (inl (- EFAULT)) m) →
  ((∀ p, base / 4096 ≤ p < base / 4096 + count → has_table m p ∧ ∃ e, mapped m p = Some e) → Q (inr tt) m) →
  wp (for_try (seqZ 0 count) (λ i, check_presence (nth_page base i))) m Q.
Proof using Type.
  intros Hwf Hr Hb Hno Hyes. set (p0 := base / 4096) in *.
  apply (wp_for_try_seqZ _ _ (λ i s, s = m ∧ ∀ p, p0 ≤ p < p0 + i → has_table m p ∧ ∃ e, mapped m p = Some e)).
  - apply Hr.
  - split; [done|]. intros p ?. lia.
  - intros i s Hi [-> Hall]. rewrite (nth_page_eq base count i Hr Hi). fold p0.
    pose proof (Z.mod_pos_bound base 4096 eq_refl). destruct (user_page_ok (p0 + i)) as [Hp Hne]; [apply Hb; fold p0; lia|].
    eexists _, m. split; [by apply check_presence_ok|]. destruct (mapped m (p0 + i)) as [e|] eqn:E.
    + split; [done|]. intros p Hpp. destruct (decide (p = p0 + i)) as [->|]; [|apply Hall; lia].
      split; [|by eexists]. split; [done|]. split; [by eapply mapped_entry|done].
    + apply Hno. exists (p0 + i). split; [lia|done].
  - intros s [-> Hall]. by apply Hyes.
Qed.

Definition remap_post m (virt count flags : Z) (ua : bool) (ret : Z) m' : Prop :=
    if has flags MAP_PROT_READ then
      (ret = - EFAULT ∧ m' = m ∧ ∃ p, virt / 4096 ≤ p < virt / 4096 + count ∧ mapped m p = None) ∨
      (ret = 0 ∧ mmu_wf m' ∧ same_rest m m' ∧ ∀ q, is_user_page q →
        if decide (virt / 4096 ≤ q < virt / 4096 + count)
        then ∃ old new, mapped m q = Some old ∧ mapped m' q = Some new ∧ page_of new = page_of old ∧
          has new ARCHI586_MMU_COMMON_FLAG_RW = has flags MAP_PROT_WRITE ∧ has new ARCHI586_MMU_COMMON_FLAG_US = ua ∧
          has new ARCHI586_MMU_COMMON_FLAG_PCD = has flags MAP_PROT_NOCACHE
        else mapped m' q = mapped m q)
    else ret = - EPERM ∧ m' = m.

Lemma arch_mmu_remap_spec m virt count flags ua : mmu_wf m → irq m = false →
  range_ok virt count → range_below virt count →
  wp (arch_mmu_remap virt count flags ua) m (remap_post m virt count flags ua).
Proof using Type.
  intros Hwf Hirq Hv Hb. unfold arch_mmu_remap, remap_post.
  apply wp_bind. eexists tt, m. split; [by apply assert_irq_ok|].
  apply wp_bind. eexists tt, m. split; [by apply assert_addr_valid_ok|].
  destruct (has flags MAP_PROT_READ); cbn [negb]; [|by apply wp_ret].
  apply wp_bind. apply check_range; [apply Hwf|done|done|intros Hno; apply wp_ret; by left|].
  intros Hall. set (p0 := virt / 4096) in *. set (v q := match entry m q with Some e => set_prot flags ua (clear_prot e) | None => 0 end).
  apply wp_bind. eapply wp_mono; [apply (for_pages_changed m virt count v); [done|done|..]|].
  - intros i Hi. apply Hall. fold p0. lia.
  - intros i s Hi _ Hs Ht He. rewrite (nth_page_eq virt count i Hv Hi). fold p0 in Ht, He |- *.
    destruct (Hall (p0 + i)) as [_ [e Hme]]; [lia|]. apply mapped_entry in Hme as [Hme _]. unfold v. rewrite Hme.
    pose proof (Z.mod_pos_bound virt 4096 eq_refl). apply remap_single_page_ok; [done..|congruence].
  - intros [] s Hc. apply wp_ret. right. split; [done|]. split; [by eapply changed_wf|]. split; [by eapply changed_rest|].
    intros q Hq. destruct (user_page_ok q Hq) as [Hqp _]. rewrite (changed_mapped _ _ _ _ _ q Hc) by done. fold p0.
    case_decide as Hin; [|done]. destruct (Hall q Hin) as [_ [e Hme]]. pose proof Hme as (Hee & Hpr & _)%mapped_entry.
    unfold v. rewrite Hee. destruct (set_prot_spec flags ua (clear_prot e)) as (HP & HW & HU & HC & Hpg).
    destruct (clear_prot_spec e) as (CP & CW & CU & CC & Cpg). exists e, (set_prot flags ua (clear_prot e)).
    split; [done|]. rewrite HP, CP, HW, CW, HU, CU, HC, CC, Hpg, Cpg. unfold present in Hpr. by rewrite Hpr.
Qed.

(** changing the protection of a range: when all its pages are mapped, each
    keeps its physical page and gets exactly the rights asked for, without a
    right left in the cache; otherwise the result is [-EFAULT], and nothing
    changes. *)
Theorem arch_mmu_remap_correct m virt count flags ua : mmu_wf m → irq m = false →
  range_ok virt count → range_below virt count →
  wp (arch_mmu_remap virt count flags ua) m (λ ret m',
    if has flags MAP_PROT_READ then
      (ret = - EFAULT ∧ m' = m ∧ ∃ p, virt / 4096 ≤ p < virt / 4096 + count ∧ mapped m p = None) ∨
      (ret = 0 ∧ mmu_wf m' ∧ same_rest m m' ∧ ∀ q, is_user_page q →
        if decide (virt / 4096 ≤ q < virt / 4096 + count)
        then ∃ old new, mapped m q = Some old ∧ mapped m' q = Some new ∧ page_of new = page_of old ∧
          has new ARCHI586_MMU_COMMON_FLAG_RW = has flags MAP_PROT_WRITE ∧ has new ARCHI586_MMU_COMMON_FLAG_US = ua ∧
          has new ARCHI586_MMU_COMMON_FLAG_PCD = has flags MAP_PROT_NOCACHE
        else mapped m' q = mapped m q)
    else ret = - EPERM ∧ m' = m).
Proof using Type. apply arch_mmu_remap_spec. Qed.

Lemma symbol_pages_eq b e : b ≤ e → e - b < 2 ^ 31 → symbol_pages b e = (e - b) / 16384.
Proof using Type.
  clear. intros Hle Hlt. change (2 ^ 31) with 2147483648 in Hlt. unfold symbol_pages, u32, ARCHI586_MMU_PAGE_SIZE.
  rewrite s32_small by (change (2 ^ 31) with 2147483648; lia).
  rewrite Z.quot_div_nonneg, Z.quot_div_nonneg, Z.div_div by dlia. change (2 ^ 32) with 4294967296. dlia.
Qed.

(** protecting the kernel text: the difference of its bounds, which are
    declared as [int], counts in units of four bytes, so that of a text that is
    mapped only the first quarter becomes read-only, and the other three
    quarters stay as they are. *)
Theorem write_protect_covers_a_quarter m b e : mmu_wf m → irq m = false →
  b mod 4096 = 0 → 0 < b → b ≤ e → e < 2 ^ 32 → e - b < 2 ^ 31 →
  (∀ p, b / 4096 ≤ p < e / 4096 → is_user_page p ∧ is_Some (mapped m p)) →
  wp (archi586_mmu_write_protect_kernel_text b e) m (λ _ m', mmu_wf m' ∧ ∀ q, is_user_page q →
    if decide (b / 4096 ≤ q < b / 4096 + (e - b) / 16384)
    then ∃ new, mapped m' q = Some new ∧ ¬ writable new ∧ ¬ user new
    else mapped m' q = mapped m q).
Proof using Type.
  intros Hwf Hirq Hal Hb Hbe He Hlt Hall. unfold archi586_mmu_write_protect_kernel_text.
  rewrite symbol_pages_eq by done. assert (2 ^ 32 = 4294967296) as E32 by done.
  assert (∀ p, b / 4096 ≤ p < b / 4096 + (e - b) / 16384 → b / 4096 ≤ p < e / 4096) as Hin by dlia.
  apply wp_bind. eapply wp_mono; [apply arch_mmu_remap_spec; [done|done| |]|].
  - split; [lia|dlia|rewrite E32; dlia].
  - intros p Hp. by apply Hall, Hin.
  - intros ret m' Hpost. unfold remap_post in Hpost. change (has MAP_PROT_READ MAP_PROT_READ) with true in Hpost. cbv iota in Hpost.
    destruct Hpost as [(-> & -> & p & Hp & Hno)|(-> & Hwf' & _ & Hq)].
    + destruct (Hall p (Hin p Hp)) as [_ [x Hx]]. congruence.
    + eexists tt, m'. split; [done|]. split; [done|]. intros q Hu. specialize (Hq q Hu). case_decide; [|done].
      destruct Hq as (old & new & _ & Hnew & _ & HW & HU & _). exists new. split; [done|].
      unfold writable, user. by rewrite HW, HU.
Qed.

Definition unmap_post m (virt count : Z) (ret : Z) m' : Prop :=
    (ret = - EFAULT ∧ m' = m ∧ ∃ p, virt / 4096 ≤ p < virt / 4096 + count ∧ mapped m p = None) ∨
    (ret = 1 ∧ mmu_wf m' ∧ same_rest m m' ∧ ∀ q, is_user_page q →
      if decide (virt / 4096 ≤ q < virt / 4096 + count)
      then (∃ old, mapped m q = Some old) ∧ mapped m' q = None ∧ tlb m' !! q = None
      else mapped m' q = mapped m q).

Lemma arch_mmu_unmap_spec m virt count : mmu_wf m → irq m = false →
  range_ok virt count → range_below virt count →
  wp (arch_mmu_unmap virt count) m (unmap_post m virt count).
Proof using Type.
  intros Hwf Hirq Hv Hb. unfold arch_mmu_unmap, unmap_post.
  apply wp_bind. eexists tt, m. split; [by apply assert_irq_ok|].
  apply wp_bind. eexists tt, m. split; [by apply assert_addr_valid_ok|].
  apply wp_bind. apply check_range; [apply Hwf|done|done|intros Hno; apply wp_ret; by left|].
  intros Hall. set (p0 := virt / 4096) in *.
  apply wp_bind. eapply wp_mono; [apply (for_pages_changed m virt count (λ _, 0)); [done|done|..]|].
  - intros i Hi. apply Hall. fold p0. lia.
  - intros i s Hi _ Hs Ht He. rewrite (nth_page_eq virt count i Hv Hi). fold p0 in Ht, He |- *.
    pose proof (Z.mod_pos_bound virt 4096 eq_refl). by apply unmap_single_page_ok.
  - intros [] s Hc. apply wp_ret. right. pose proof (changed_wf _ _ _ Hc) as [_ Htlb].
    split; [done|]. split; [by eapply changed_wf|]. split; [by eapply changed_rest|].
    intros q Hq. destruct (user_page_ok q Hq) as [Hqp _]. pose proof (changed_mapped _ _ _ _ _ q Hc Hqp) as Hm. fold p0 in Hm.
    case_decide as Hin; [|done]. destruct (Hall q Hin) as [_ Hme]. split; [done|]. split; [done|].
    destruct (tlb s !! q) as [e|] eqn:E; [|done]. destruct (Htlb q e E) as (_ & e' & He' & (_ & Hpr & _)).
    unfold mapped in Hm. rewrite He' in Hm. unfold present in Hpr. by rewrite Hpr in Hm.
Qed.

(** C14: unmapping a range: when all its pages are mapped none of them is
    afterwards, and none stays in the cache, every other page being as it was;
    otherwise the result is [-EFAULT], and nothing changes. *)
Theorem arch_mmu_unmap_correct m virt count : mmu_wf m → irq m = false →
  range_ok virt count → range_below virt count →
  wp (arch_mmu_unmap virt count) m (λ ret m',
    (ret = - EFAULT ∧ m' = m ∧ ∃ p, virt / 4096 ≤ p < virt / 4096 + count ∧ mapped m p = None) ∨
    (ret = 1 ∧ mmu_wf m' ∧ same_rest m m' ∧ ∀ q, is_user_page q →
      if decide (virt / 4096 ≤ q < virt / 4096 + count)
      then (∃ old, mapped m q = Some old) ∧ mapped m' q = None ∧ tlb m' !! q = None
      else mapped m' q = mapped m q)).
Proof using Type. apply arch_mmu_unmap_spec. Qed.

(** ** One page at a time *)

Definition one (q v : Z) : Z → option Z := λ q', if decide (q' = q) then Some v else None.

Lemma one_page_ok q : is_user_page q → q ≠ 0 → range_ok (4096 * q) 1 ∧ 4096 * q / 4096 = q.
Proof using Type.
  unfold is_user_page. intros Hq H0. split; [split; change (2 ^ 32) with 4294967296; lia|dlia].
Qed.

Lemma changed_one_mapped m m' q v q' : changed (one q v) m m' → is_page q' →
  mapped m' q' = if decide (q' = q) then (if has v ARCHI586_MMU_COMMON_FLAG_P then Some v else None) else mapped m q'.
Proof using Type.
  intros Hc Hq. unfold mapped. rewrite (changed_entry _ _ _ Hc) by done. unfold one. by case_decide.
Qed.

Lemma changed_on_range_one p0 v m m' : changed (on_range p0 1 v) m m' → changed (one p0 (v p0)) m m'.
Proof using Type.
  apply changed_ext. intros q _. unfold on_range, one. repeat case_decide; subst; (done || lia).
Qed.

Lemma map_one_ok m q phys flags ua : mmu_wf m → irq m = false → has_table m q → is_user_page q → q ≠ 0 →
  range_ok phys 1 → phys mod 4096 = 0 → has flags MAP_PROT_READ = true →
  wp (arch_mmu_map (4096 * q) phys 1 flags ua) m (λ ret m', ret = 0 ∧ changed (one q (mapping_entry phys flags ua)) m m').
Proof using Type.
  intros Hwf Hirq Ht Hu H0 Hp Hal Hfl. destruct (one_page_ok q Hu H0) as [Hv Eq]. unfold arch_mmu_map.
  apply wp_bind. eexists tt, m. split; [by apply assert_irq_ok|].
  apply wp_bind. eexists tt, m. split; [by apply assert_addr_valid_ok|].
  apply wp_bind. eexists tt, m. split; [by apply assert_addr_valid_ok|].
  apply wp_bind. eapply wp_lift; [by apply is_aligned_eq|]. change ARCHI586_MMU_PAGE_SIZE with 4096. rewrite Hal.
  apply wp_bind, wp_massert; [done|]. rewrite Hfl. cbn [negb].
  assert (is_u32 phys) as Hpu by (destruct Hp; unfold is_u32; lia).
  assert (nth_page (4096 * q) 0 = 4096 * q + 0) as En by (rewrite (nth_page_eq _ 1) by (done || lia); rewrite Eq; dlia).
  assert (nth_page phys 0 = phys) as Ep by (unfold nth_page; rewrite Z.mul_0_l, Z.add_0_r; by apply u32_small).
  pose proof Ht as (Hq & Hpr & _). destruct (page_split q Hq) as (Hk & _). change (seqZ 0 1) with [0]. cbn [for_try for_].
  apply wp_bind. eexists (inr tt), m. split.
  { rewrite En. destruct (virt_indices q 0 Hq) as [-> _]; [lia|].
    rewrite (M_bind_step _ _ m (inr tt) m); [done|]. rewrite (M_bind_step _ _ _ _ _ (read_pagedir m _ (proj1 Hwf) Hk)).
    unfold present in Hpr. by rewrite Hpr. }
  apply wp_bind, wp_bind. rewrite En, Ep. eapply wp_mono; [by apply map_single_page_ok|].
  intros [] m' Hc. apply wp_ret, wp_ret. by split.
Qed.

Lemma unmap_one_ok m q e : mmu_wf m → irq m = false → is_user_page q → q ≠ 0 → mapped m q = Some e →
  wp (arch_mmu_unmap (4096 * q) 1) m (λ ret m', ret = 1 ∧ changed (one q 0) m m').
Proof using Type.
  intros Hwf Hirq Hu H0 Hm. destruct (one_page_ok q Hu H0) as [Hv Eq]. unfold arch_mmu_unmap.
  destruct (user_page_ok q Hu) as [Hq Hne]. destruct (mapped_entry m q e Hm) as (_ & _ & Hpr).
  apply wp_bind. eexists tt, m. split; [by apply assert_irq_ok|].
  apply wp_bind. eexists tt, m. split; [by apply assert_addr_valid_ok|].
  assert (nth_page (4096 * q) 0 = 4096 * q + 0) as En by (rewrite (nth_page_eq _ 1) by (done || lia); rewrite Eq; dlia).
  change (seqZ 0 1) with [0]. cbn [for_try for_]. rewrite En.
  apply wp_bind, wp_bind. eexists _, m. split; [apply check_presence_ok; [apply Hwf|done|lia]|]. rewrite Hm. apply wp_ret.
  apply wp_bind, wp_bind. eapply wp_mono; [by apply unmap_single_page_ok|].
  intros [] m' Hc. apply wp_ret, wp_ret. by split.
Qed.

Lemma mapping_entry_PCD phys cache : flag_if cache ARCHI586_MMU_COMMON_FLAG_PCD
    (Z.lor (Z.lor phys ARCHI586_MMU_COMMON_FLAG_P) ARCHI586_MMU_COMMON_FLAG_RW) =
  mapping_entry phys (if cache then Z.lor MAP_PROT_WRITE MAP_PROT_NOCACHE else MAP_PROT_WRITE) false.
Proof using Type. by destruct cache. Qed.

(** The entry of the scratch page is stored, and its cached translation is
    flushed if it could still be used. *)
Lemma arch_mmu_scratch_map_eq m phys cache : mmu_wf m → irq m = false → is_u32 phys → phys mod 4096 = 0 →
  present (pd m ARCHI586_MMU_SCRATCH_PDE) →
  ∃ fl, arch_mmu_scratch_map phys cache m = Ok (tt, update (ARCH_SCRATCH_MAP_BASE / 4096)
      (mapping_entry phys (if cache then Z.lor MAP_PROT_WRITE MAP_PROT_NOCACHE else MAP_PROT_WRITE) false) fl m) ∧
    changed (λ q, if decide (q = ARCH_SCRATCH_MAP_BASE / 4096)
      then Some (mapping_entry phys (if cache then Z.lor MAP_PROT_WRITE MAP_PROT_NOCACHE else MAP_PROT_WRITE) false) else None) m
      (update (ARCH_SCRATCH_MAP_BASE / 4096)
        (mapping_entry phys (if cache then Z.lor MAP_PROT_WRITE MAP_PROT_NOCACHE else MAP_PROT_WRITE) false) fl m).
Proof using Type.
  intros Hwf Hirq Hu Hal Hpr. unfold arch_mmu_scratch_map.
  rewrite (M_bind_step _ _ m tt m) by (by apply assert_irq_ok).
  rewrite (M_bind_step _ _ m true m) by (unfold lift; rewrite is_aligned_eq by done; change ARCHI586_MMU_PAGE_SIZE with 4096; by rewrite Hal).
  rewrite (M_bind_step _ _ m tt m) by done. set (p := ARCH_SCRATCH_MAP_BASE / 4096).
  rewrite (M_bind_step _ _ m (pd m ARCHI586_MMU_SCRATCH_PDE) m)
    by (apply read_pagedir; [apply Hwf|]; unfold is_index, ARCHI586_MMU_SCRATCH_PDE; lia).
  rewrite (M_bind_step _ _ m tt m) by (unfold massert; by rewrite Hpr).
  assert (has_table m p) as Ht by (split; [by split|by split]).
  destruct (read_entry m p 0 Hwf Ht) as (old & Hold & Hrd); [done|]. rewrite (M_bind_step _ _ _ _ _ Hrd).
  rewrite mapping_entry_PCD. set (fl := if cache then _ else _).
  eexists. split; [apply (update_eq m p 0); done|]. apply update_ok; [done..|].
  destruct (mapping_entry_spec phys fl false Hu Hal) as (HP & HW & HU & _ & Hpg).
  intros Hfl e old' Ho' Hst. rewrite Hold in Ho'. injection Ho' as <-.
  pose proof Hst as (_ & Hpo & _). unfold present in Hpo. rewrite Hpo in Hfl. cbn in Hfl.
  apply orb_false_iff in Hfl as [Hl Hpp]. apply negb_false_iff, Z.eqb_eq in Hpp.
  assert (has fl MAP_PROT_WRITE = true) as Hflw by (by destruct cache).
  eapply (still_allowed_update old e _ fl false); [|exact HP|congruence|intros _; unfold writable; by rewrite HW|done|done].
  unfold loses_rights. by rewrite Hflw, Hl, andb_false_r.
Qed.

Lemma arch_mmu_scratch_map_ok m phys cache : mmu_wf m → irq m = false → is_u32 phys → phys mod 4096 = 0 →
  present (pd m ARCHI586_MMU_SCRATCH_PDE) →
  wp (arch_mmu_scratch_map phys cache) m (λ _, changed (λ q,
    if decide (q = ARCH_SCRATCH_MAP_BASE / 4096)
    then Some (mapping_entry phys (if cache then Z.lor MAP_PROT_WRITE MAP_PROT_NOCACHE else MAP_PROT_WRITE) false) else None) m).
Proof using Type.
  intros Hwf Hirq Hu Hal Hpr. destruct (arch_mmu_scratch_map_eq m phys cache Hwf Hirq Hu Hal Hpr) as (fl & Heq & Hc).
  by eexists _, _.
Qed.

(** ** Any sequence of operations *)

(** The calls the kernel makes, with interrupts disabled, on pages outside of
    the window of the recursive mapping; and the processor caching the entry of
    a page, which it may do at any time. *)
Inductive mmu_step (m : mmu) : mmu → Prop :=
  | step_map virt phys count flags ua ret m' :
      range_ok virt count → range_ok phys count → phys mod 4096 = 0 → tables_possible m (virt / 4096) count →
      arch_mmu_map virt phys count flags ua m = Ok (ret, m') → mmu_step m m'
  | step_remap virt count flags ua ret m' :
      range_ok virt count → range_below virt count →
      arch_mmu_remap virt count flags ua m = Ok (ret, m') → mmu_step m m'
  | step_unmap virt count ret m' :
      range_ok virt count → range_below virt count →
      arch_mmu_unmap virt count m = Ok (ret, m') → mmu_step m m'
  | step_scratch_map phys cache m' :
      is_u32 phys → phys mod 4096 = 0 → present (pd m ARCHI586_MMU_SCRATCH_PDE) →
      arch_mmu_scratch_map phys cache m = Ok (tt, m') → mmu_step m m'
  | step_fill p : is_page p → mmu_step m (tlb_fill p m)
  | step_flush p : mmu_step m (with_tlb (delete p (tlb m)) m).
End Correct.

(** A result that satisfies what [wp] says of it. *)
Lemma wp_ok {S A} (x : M S A) s Q a s' : wp x s Q → x s = Ok (a, s') → Q a s'.
Proof. intros (b & s1 & -> & HQ). by intros [= <- <-]. Qed.

Section Reachable.
Context {P : Type} `{!PmmOps P, !PmmLaws P}.
Local Abbreviation mmu := (mmu P).
Implicit Types m : mmu.


Lemma mmu_step_wf m m' : mmu_step m m' → mmu_wf m → irq m = false → mmu_wf m' ∧ irq m' = false.
Proof using Type.
  intros Hs Hwf Hirq. pose proof Hwf as [Ht Htlb].
  destruct Hs as [virt phys count flags ua ret m' H1 H2 H3 H4 E|virt count flags ua ret m' H1 H2 E|virt count ret m' H1 H2 E|phys cache m' H1 H2 H3 E|p Hp|p].
  - apply (wp_ok _ _ _ _ _ (arch_mmu_map_spec m virt phys count flags ua Hwf Hirq H1 H2 H3 H4)) in E. unfold map_post in E.
    destruct (has flags MAP_PROT_READ); [by destruct E as (_ & ? & _ & ? & _)|by destruct E as [_ ->]].
  - apply (wp_ok _ _ _ _ _ (arch_mmu_remap_spec m virt count flags ua Hwf Hirq H1 H2)) in E. unfold remap_post in E.
    destruct (has flags MAP_PROT_READ); [|by destruct E as [_ ->]].
    destruct E as [(_ & -> & _)|(_ & ? & (_ & ? & _) & _)]; [done|]. split; [done|congruence].
  - apply (wp_ok _ _ _ _ _ (arch_mmu_unmap_spec m virt count Hwf Hirq H1 H2)) in E. unfold unmap_post in E.
    destruct E as [(_ & -> & _)|(_ & ? & (_ & ? & _) & _)]; [done|]. split; [done|congruence].
  - apply (wp_ok _ _ _ _ _ (arch_mmu_scratch_map_ok m phys cache Hwf Hirq H1 H2 H3)) in E.
    split; [by eapply changed_wf|]. destruct (changed_rest _ _ _ E) as (_ & ? & _). congruence.
  - split; [split|].
    + unfold tlb_fill. destruct (entry m p) as [e|]; [|done]. destruct (has e _); [by apply tables_wf_with_tlb|done].
    + by apply tlb_ok_fill.
    + unfold tlb_fill. destruct (entry m p) as [e|]; [|done]. by destruct (has e _).
  - split; [|done]. split; [by apply tables_wf_with_tlb|by apply tlb_ok_flush].
Qed.

(** C13: whatever sequence of mapping, protecting and unmapping pages, and
    whichever entries the processor caches in between, a cached translation
    leads to the page that is mapped now, and allows nothing that is not
    allowed now: the driver flushes whatever it has to. *)
Theorem no_stale_rights m s p e : mmu_wf m → irq m = false → rtc mmu_step m s → tlb s !! p = Some e →
  ∃ now, mapped s p = Some now ∧ page_of e = page_of now ∧ (writable e → writable now) ∧ (user e → user now).
Proof using Type.
  intros Hwf Hirq Hs Hp. assert (mmu_wf s ∧ irq s = false) as [[_ Htlb] _].
  { clear Hp. induction Hs as [|m1 m2 m3 Hstep _ IH]; [done|].
    destruct (mmu_step_wf m1 m2 Hstep Hwf Hirq). by apply IH. }
  destruct (Htlb p e Hp) as (_ & now & Hnow & (_ & Hpr & Hpg & Hw & Hu)). exists now. split; [|done].
  unfold mapped. rewrite Hnow. unfold present in Hpr. by rewrite Hpr.
Qed.

(** ** Where it goes wrong *)

(** The first loop of [arch_mmu_map] on the first page, once the assertions hold. *)
Lemma arch_mmu_map_first m virt phys count flags ua : tables_wf m → irq m = false → has flags MAP_PROT_READ = true →
  range_ok virt count → range_ok phys count → phys mod 4096 = 0 → 0 < count → is_user_page (virt / 4096) →
  let k := virt / 4096 / 1024 in ¬ present (pd m k) →
  match create_pd k m with
  | Ok (inl _, s) => arch_mmu_map virt phys count flags ua m = Ok (0, s)
  | Ok (inr _, s) => count = 1 → arch_mmu_map virt phys count flags ua m =
      (_ ← map_single_page (4096 * (virt / 4096) + virt mod 4096) (nth_page phys 0) flags ua; mret 0) s
  | Fault f => arch_mmu_map virt phys count flags ua m = Fault f
  end.
Proof using Type.
  intros Hwf Hirq Hfl Hv Hp Hal Hc Hup k Hnp. destruct (user_page_ok _ Hup) as [Hpg _].
  destruct (page_split _ Hpg) as (Hi & _). unfold present in Hnp. apply not_true_is_false in Hnp.
  assert (nth_page virt 0 = 4096 * (virt / 4096) + virt mod 4096) as Hn by (rewrite (nth_page_eq virt count 0 Hv) by lia; lia).
  assert (∀ A (f : Z → M mmu A), (pd_entry ← read_word (s_pagedir (pde_index (nth_page virt 0))); f pd_entry) m = f (pd m k) m) as Hrd.
  { intros A f. apply M_bind_step. rewrite Hn. destruct (virt_indices (virt / 4096) (virt mod 4096) Hpg) as [-> _];
      [by apply Z.mod_pos_bound|]. by apply read_pagedir. }
  assert (pde_index (nth_page virt 0) = k) as Hk.
  { rewrite Hn. by destruct (virt_indices (virt / 4096) (virt mod 4096) Hpg) as [-> _]; [apply Z.mod_pos_bound|]. }
  set (f i := pd_entry ← read_word (s_pagedir (pde_index (nth_page virt i)));
              if has pd_entry ARCHI586_MMU_COMMON_FLAG_P then mret (inr tt) else create_pd (pde_index (nth_page virt i))).
  assert (f 0 m = create_pd k m) as Hf by (unfold f; by rewrite Hrd, Hnp, Hk).
  assert (arch_mmu_map virt phys count flags ua m =
    (r ← for_try (seqZ 0 count) f;
     match r with
     | inl _ => mret 0
     | inr _ => _ ← for_ (seqZ 0 count) (λ i, map_single_page (nth_page virt i) (nth_page phys i) flags ua); mret 0
     end) m) as ->.
  { unfold arch_mmu_map. rewrite (M_bind_step _ _ _ _ _ (assert_irq_ok m Hirq)).
    rewrite (M_bind_step _ _ _ _ _ (assert_addr_valid_ok virt count m Hv)), (M_bind_step _ _ _ _ _ (assert_addr_valid_ok phys count m Hp)).
    rewrite (M_bind_step _ _ m true m) by (unfold lift; rewrite is_aligned_eq by done; change ARCHI586_MMU_PAGE_SIZE with 4096; by rewrite Hal).
    by rewrite (M_bind_step (massert true) _ m tt m eq_refl), Hfl. }
  rewrite (seqZ_cons 0 count) by done. cbn [for_try]. clearbody f. unfold mbind, M_bind.
  rewrite Hf. destruct (create_pd k m) as [[[e|[]] s]|e]; [done| |done]. intros ->.
  change (seqZ (Z.succ 0) (Z.pred 1)) with (@nil Z). cbn [for_try for_]. rewrite Hn. unfold mbind, M_bind, mret, M_ret.
  by destruct (map_single_page _ _ _ _ s) as [[[] s']|e].
Qed.

Lemma create_pd_fails `{!PmmExhausted P} m k : create_pd k m = Ok (inl (- ENOMEM), m).
Proof using Type.
  unfold create_pd. cbv zeta. rewrite (M_bind_step alloc_page _ m 0 m); [done|].
  unfold alloc_page. destruct (page_alloc_fails (pages m)) as [n ->]. by destruct m.
Qed.

(** without memory for a page table the call reports success, having done
    nothing: the error number is in a variable that hides the one returned. *)
Theorem arch_mmu_map_hides_out_of_memory `{!PmmExhausted P} m virt phys count flags ua :
  tables_wf m → irq m = false → has flags MAP_PROT_READ = true →
  range_ok virt count → range_ok phys count → phys mod 4096 = 0 → 0 < count →
  range_below virt count → ¬ present (pd m (virt / 4096 / 1024)) →
  arch_mmu_map virt phys count flags ua m = Ok (0, m) ∧ mapped m (virt / 4096) = None.
Proof using Type.
  intros Hwf Hirq Hfl Hv Hp Hal Hc Hb Hnp. assert (is_user_page (virt / 4096)) as Hu by (apply Hb; lia). split.
  - pose proof (arch_mmu_map_first m virt phys count flags ua Hwf Hirq Hfl Hv Hp Hal Hc Hu Hnp) as Hf.
    cbv zeta in Hf. rewrite create_pd_fails in Hf. exact Hf.
  - unfold mapped, entry. unfold present in Hnp. apply not_true_is_false in Hnp. by rewrite Hnp.
Qed.

(** Without a page table, the access to its window faults. *)
Lemma read_pagetable_absent m i j : tables_wf m → is_index i → is_index j → ¬ present (pd m i) →
  read_word (s_pagetables i j) m = Fault Bad_pointer.
Proof using Type.
  intros Hwf Hi Hj Hn. unfold present in Hn. apply not_true_is_false in Hn.
  unfold read_word. rewrite s_pagetables_eq by done.
  pose proof (page_join 1023 i is_index_last Hi) as (Hp & Hd & Hm). destruct (wf_self m Hwf) as [Hps Hself].
  replace (0xffc00000 + 4096 * i + 4 * j) with (4096 * (1024 * 1023 + i) + 4 * j) by lia.
  unfold is_index in Hj. rewrite translate_at by (done || lia). rewrite Hd, Hm. unfold pt. rewrite Hself. fold (pd m i).
  rewrite present_allows by done. cbn [negb]. unfold allows. by rewrite Hn.
Qed.

(** Creating a table for an index changes the entry of its low 8 bits. *)
Lemma create_pd_truncates m k a p n : tables_wf m → is_index k → 256 ≤ k →
  page_alloc 1 (pages m) = Ok ((a, n), p) → a ≠ 0 →
  wp (create_pd k) m (λ r s, r = inr tt ∧ tables_wf s ∧ pd s k = pd m k).
Proof using Type.
  intros Hwf Hk Hk8 Ha Hne. destruct (page_alloc_law (pages m) (wf_pages m Hwf)) as (a' & n' & p' & E & Hok & Hout).
  rewrite Ha in E. injection E as <- <- <-. destruct Hout as [[? _]|(_ & Hu & Hal & Hav & Hown & Hoth & Hkept)]; [done|].
  assert (fresh_page a p m) as Hfr by done. unfold create_pd. set (j := u8 k).
  assert (0 ≤ j < 256) as Hj by (by apply Z.mod_pos_bound). assert (is_index j) as Hji by (unfold is_index; lia).
  pose proof (tables_wf_with_table j a p m Hwf Hji ltac:(lia) Hfr) as Hwf1. set (m1 := with_table j a p m) in *.
  assert (present (pd m1 j)) as Hpr.
  { unfold m1. rewrite pd_with_table, decide_True by done. apply table_entry_spec; apply Hfr. }
  apply wp_bind. exists a, (with_pages p m). split; [unfold alloc_page; by rewrite Ha|].
  destruct (Z.eqb_spec a 0); [done|]. apply wp_bind. exists tt, m1. split.
  { unfold write_word. change (translate (with_pages p m)) with (translate m). by rewrite translate_pagedir. }
  apply wp_bind. eexists tt, _. split; [reflexivity|].
  apply wp_bind. apply (wp_for_seqZ _ _ (λ _ s, tables_wf s ∧ ∀ i, is_index i → pd s i = pd m1 i)); [done|by split; [apply tables_wf_with_tlb|]|..].
  - intros l s Hl [Hs Hpd]. destruct (page_join j l Hji Hl) as (Hp & Ed & Em).
    assert (has_table s (1024 * j + l)) as Ht by (split; [done|split; [by rewrite Ed, Hpd|rewrite Ed; lia]]).
    eexists tt, _. split.
    { pose proof (write_pagetable s (1024 * j + l) 0 Hs Hp (proj1 (proj2 Ht))) as Hw. by rewrite Ed, Em in Hw. }
    split; [by apply tables_wf_store_entry|]. intros i Hi. rewrite pd_store_entry by done. by apply Hpd.
  - intros s [Hs Hpd]. apply wp_bind.
    apply (wp_for_seqZ _ _ (λ _ s, tables_wf s ∧ ∀ i, is_index i → pd s i = pd m1 i)); [done|done|..].
    + intros l s' _ [Hs' Hpd']. eexists tt, _. split; [reflexivity|]. split; [by apply tables_wf_with_tlb|done].
    + intros s' [Hs' Hpd']. apply wp_ret. split; [done|]. split; [done|]. rewrite Hpd' by done.
      unfold m1. rewrite pd_with_table, decide_False by (done || lia). done.
Qed.

(** the index of the directory entry is cut to 8 bits when a table is
    created: mapping a page from 1 GiB on that has no table yet puts the new
    table elsewhere, and then accesses one that is not there. *)
Theorem arch_mmu_map_faults_above_1GiB m virt phys flags ua a p n :
  tables_wf m → irq m = false → has flags MAP_PROT_READ = true →
  range_ok virt 1 → range_ok phys 1 → phys mod 4096 = 0 → range_below virt 1 → 2 ^ 30 ≤ virt →
  ¬ present (pd m (virt / 4096 / 1024)) → page_alloc 1 (pages m) = Ok ((a, n), p) → a ≠ 0 →
  arch_mmu_map virt phys 1 flags ua m = Fault Bad_pointer.
Proof using Type.
  intros Hwf Hirq Hfl Hv Hp Hal Hb Hhi Hnp Ha Hne. assert (is_user_page (virt / 4096)) as Hu by (apply Hb; lia).
  destruct (user_page_ok _ Hu) as [Hpg _]. destruct (page_split _ Hpg) as (Hi & Hj & _).
  pose proof (arch_mmu_map_first m virt phys 1 flags ua Hwf Hirq Hfl Hv Hp Hal ltac:(lia) Hu Hnp) as Hf.
  set (k := virt / 4096 / 1024) in *.
  assert (256 ≤ k) as Hk8 by (unfold k; change (2 ^ 30) with 1073741824 in Hhi; dlia).
  destruct (create_pd_truncates m k a p n Hwf Hi Hk8 Ha Hne) as (r & s & Hcr & -> & Hs & Hpd).
  rewrite Hcr in Hf. rewrite Hf by done. unfold map_single_page, mbind, M_bind.
  destruct (virt_indices (virt / 4096) (virt mod 4096) Hpg) as [-> ->]; [by apply Z.mod_pos_bound|]. fold k.
  rewrite (read_pagetable_absent s k) by (done || by rewrite Hpd). done.
Qed.

End Reachable.
