(* ===== verification/MmuBoot.v ===== *)
(** The page tables the kernel starts with (src/kernel/arch/i586/asm/entry.S):
    they satisfy the invariant, and the theorems about the driver apply to
    them. *)
From S2P Require Import Prelude MiscMath Arch PmmIface Mmu MmuSafe MmuPages MmuCorrect.

(** The lower 4 MiB are mapped to themselves, and the addresses from 3 GiB on to
    physical memory from the start of the kernel; the places of the tables and
    of the kernel are an example. *)
Definition PAGING_FLAGS : Z := 3.
Definition boot_pagedir : Z := 0x102000.
Definition lower2mpagetable : Z := 0x103000.
Definition kernelpagetable : Z := 0x104000.
Definition physaddr_kernel_begin : Z := 0x203000.

Definition boot_dir_entry (i : Z) : Z :=
  if i =? 0 then Z.lor lower2mpagetable PAGING_FLAGS
  else if i <? ARCHI586_MMU_KERNEL_PDE_START then 0
  else if i =? ARCHI586_MMU_PAGEDIR_PDE then Z.lor boot_pagedir PAGING_FLAGS
  else Z.lor (kernelpagetable + ARCHI586_MMU_PAGE_SIZE * (i - ARCHI586_MMU_KERNEL_PDE_START)) PAGING_FLAGS.

Definition boot_word (a : Z) : Z :=
  if (boot_pagedir <=? a) && (a <? boot_pagedir + 4096) then boot_dir_entry ((a - boot_pagedir) / 4)
  else if (lower2mpagetable <=? a) && (a <? lower2mpagetable + 4096) then
    Z.lor (4096 * ((a - lower2mpagetable) / 4)) PAGING_FLAGS
  else if (kernelpagetable <=? a) && (a <? kernelpagetable + 4096 * 255) then
    Z.lor (physaddr_kernel_begin + 4096 * ((a - kernelpagetable) / 4)) PAGING_FLAGS
  else 0.

#[local] Existing Instances bump_pages bump_pages_laws.

Definition boot_mmu : mmu (nat * list Z) := Mmu boot_word boot_pagedir ∅ false (0%nat, []).

Lemma boot_pd i : is_index i → pd boot_mmu i = boot_dir_entry i.
Proof.
  unfold is_index. intros Hi. unfold pd, boot_mmu, boot_word. cbn [phys_mem cr3].
  destruct (Z.leb_spec boot_pagedir (boot_pagedir + 4 * i)); [|lia].
  destruct (Z.ltb_spec (boot_pagedir + 4 * i) (boot_pagedir + 4096)); [|lia]. cbn [andb].
  f_equal. unfold boot_pagedir. dlia.
Qed.

Lemma boot_entry_spec a : is_u32 a → a mod 4096 = 0 →
  present (Z.lor a PAGING_FLAGS) ∧ writable (Z.lor a PAGING_FLAGS) ∧ page_of (Z.lor a PAGING_FLAGS) = a.
Proof.
  intros Hu Ha. unfold present, writable. rewrite has_P, has_RW, page_of_lor, page_of_page, !Z.lor_spec by (done || (unfold PAGING_FLAGS; lia)).
  by rewrite !(aligned_low_bits a) by (done || lia).
Qed.

(** The table an entry of the directory points to. *)
Definition boot_table (i : Z) : Z :=
  if i =? 0 then lower2mpagetable else if i =? 1023 then boot_pagedir else kernelpagetable + 4096 * (i - 768).

Lemma boot_pd_spec i : is_index i → present (pd boot_mmu i) →
  (i = 0 ∨ 768 ≤ i) ∧ writable (pd boot_mmu i) ∧ page_of (pd boot_mmu i) = boot_table i.
Proof.
  intros Hi. rewrite boot_pd by done. unfold boot_dir_entry, boot_table, is_index in *.
  change ARCHI586_MMU_KERNEL_PDE_START with 768. change ARCHI586_MMU_PAGEDIR_PDE with 1023. change ARCHI586_MMU_PAGE_SIZE with 4096.
  destruct (Z.eqb_spec i 0) as [->|]; [intros _; split; [by left|by apply boot_entry_spec]|].
  destruct (Z.ltb_spec i 768); [done|]. intros _. split; [by right|].
  destruct (Z.eqb_spec i 1023); [by apply boot_entry_spec|].
  apply boot_entry_spec; unfold is_u32, kernelpagetable; change (2 ^ 32) with 4294967296; dlia.
Qed.

Lemma boot_mmu_wf : mmu_wf boot_mmu.
Proof.
  split; [|by intros p e He].
  assert (present (pd boot_mmu 1023)) as Hlast by (by rewrite boot_pd by (unfold is_index; lia)).
  split.
  - done.
  - split; [done|]. by apply boot_pd_spec; [unfold is_index; lia|].
  - intros i Hi Hp. by apply boot_pd_spec.
  - intros i j Hi Hj Hp Hq. destruct (boot_pd_spec i Hi Hp) as (Ci & _ & ->). destruct (boot_pd_spec j Hj Hq) as (Cj & _ & ->).
    unfold boot_table, is_index, lower2mpagetable, boot_pagedir, kernelpagetable in *. zcase; lia.
  - intros i Hi Hp. destruct (boot_pd_spec i Hi Hp) as (Ci & _ & ->). cbn. unfold bump_available. cbn.
    unfold boot_table, is_index, lower2mpagetable, boot_pagedir, kernelpagetable in *. zcase; lia.
  - intros a Ha. by apply not_elem_of_nil in Ha.
Qed.

Lemma in_user_range base count : 0 ≤ base → base + 4096 * count ≤ 0xffc00000 → range_below base count.
Proof. intros H0 H1 p Hp. unfold is_user_page. dlia. Qed.


Lemma lookups_agree_with_processor_witness :
  arch_mmu_virtual_to_physical 0xc0001234 boot_mmu =
    Ok (match translate boot_mmu false 0xc0001234 with Some a => inr a | None => inl (- EFAULT) end, boot_mmu) ∧
  ∃ r, arch_mmu_emulate 0xc0001234 1 true boot_mmu = Ok (r, boot_mmu) ∧
    match program_access boot_mmu (has 1 MAP_PROT_WRITE) true 0xc0001234 with
    | Some a => r = inr a
    | None => r = inl (- EPERM) ∨ r = inl (- EFAULT) ∧ translate boot_mmu false 0xc0001234 = None
    end.
Proof. apply (lookups_agree_with_processor boot_mmu 0xc0001234 1 true). apply boot_mmu_wf. Defined.



Lemma arch_mmu_remap_correct_witness :
  wp (arch_mmu_remap 0xc0000000 2 1 false) boot_mmu (remap_post boot_mmu 0xc0000000 2 1 false).
Proof.
  apply (arch_mmu_remap_correct boot_mmu 0xc0000000 2 1 false).
  - apply boot_mmu_wf.
  - reflexivity.
  - split; reflexivity || discriminate.
  - apply in_user_range; discriminate.
Defined.

(** A text of eight pages at the start of the kernel. *)
Lemma write_protect_covers_a_quarter_witness :
  wp (archi586_mmu_write_protect_kernel_text 0xc0000000 0xc0008000) boot_mmu (λ _ m', mmu_wf m' ∧ ∀ q, is_user_page q →
    if decide (0xc0000000 / 4096 ≤ q < 0xc0000000 / 4096 + (0xc0008000 - 0xc0000000) / 16384)
    then ∃ new, mapped m' q = Some new ∧ ¬ writable new ∧ ¬ user new
    else mapped m' q = mapped boot_mmu q).
Proof.
  apply (write_protect_covers_a_quarter boot_mmu 0xc0000000 0xc0008000).
  - apply boot_mmu_wf.
  - reflexivity.
  - reflexivity.
  - reflexivity.
  - discriminate.
  - reflexivity.
  - reflexivity.
  - intros p Hp. split; [apply (in_user_range 0xc0000000 8); [done|done|exact Hp]|].
    assert (p ∈ seqZ 0xc0000 8) as Hin by (apply elem_of_seqZ; exact Hp).
    clear Hp; revert p Hin. apply Forall_forall. repeat (apply Forall_cons; split; [eexists; reflexivity|]). apply Forall_nil_2.
Defined.

Lemma arch_mmu_unmap_correct_witness :
  wp (arch_mmu_unmap 0xc0000000 2) boot_mmu (unmap_post boot_mmu 0xc0000000 2).
Proof.
  apply (arch_mmu_unmap_correct boot_mmu 0xc0000000 2).
  - apply boot_mmu_wf.
  - reflexivity.
  - split; reflexivity || discriminate.
  - apply in_user_range; discriminate.
Defined.

(** The first page of the kernel, in the cache. *)
Lemma no_stale_rights_witness : ∃ now,
  mapped (tlb_fill 0xc0000 boot_mmu) 0xc0000 = Some now ∧ page_of 0x203003 = page_of now ∧
  (writable 0x203003 → writable now) ∧ (user 0x203003 → user now).
Proof.
  apply (no_stale_rights boot_mmu (tlb_fill 0xc0000 boot_mmu) 0xc0000 0x203003).
  - apply boot_mmu_wf.
  - reflexivity.
  - eapply rtc_once. apply step_fill. unfold is_page. split; [discriminate|reflexivity].
  - vm_compute. reflexivity.
Defined.

Lemma arch_mmu_map_faults_above_1GiB_witness : arch_mmu_map 0x40000000 0x800000 1 3 true boot_mmu = Fault Bad_pointer.
Proof.
  apply (arch_mmu_map_faults_above_1GiB boot_mmu 0x40000000 0x800000 3 true (2 ^ 22) (1%nat, [2 ^ 22]) 1).
  - apply boot_mmu_wf.
  - reflexivity.
  - reflexivity.
  - split; reflexivity || discriminate.
  - split; reflexivity || discriminate.
  - reflexivity.
  - apply in_user_range; discriminate.
  - discriminate.
  - discriminate.
  - reflexivity.
  - discriminate.
Defined.

(** The same tables, with no page left. *)
#[local] Existing Instances no_pages no_pages_laws no_pages_exhausted.

Definition full_mmu : mmu unit := Mmu boot_word boot_pagedir ∅ false tt.

Lemma full_mmu_wf : tables_wf full_mmu.
Proof.
  destruct boot_mmu_wf as [[Hc Hs Hr Hd _ _] _]. split; [exact Hc|exact Hs|exact Hr|exact Hd| |done].
  intros i Hi Hp [].
Defined.

Lemma arch_mmu_map_hides_out_of_memory_witness :
  arch_mmu_map 0x4000000 0x800000 2 3 true full_mmu = Ok (0, full_mmu) ∧ mapped full_mmu (0x4000000 / 4096) = None.
Proof.
  apply (arch_mmu_map_hides_out_of_memory full_mmu 0x4000000 0x800000 2 3 true).
  - apply full_mmu_wf.
  - reflexivity.
  - reflexivity.
  - split; reflexivity || discriminate.
  - split; reflexivity || discriminate.
  - reflexivity.
  - reflexivity.
  - apply in_user_range; discriminate.
  - discriminate.
Defined.
