(* ===== verification/PString.v ===== *)
(** Access to physical memory (src/kernel/lib/pstring.c): the kernel maps one
    page after the other at the scratch address, and copies through it. *)
From S2P Require Import Prelude MiscMath Arch PmmIface Mmu MmuSafe MmuPages MmuCorrect MmuBoot.

Section Operations.
Context {P : Type} `{!PmmOps P}.
Local Abbreviation mmu := (mmu P).
Local Abbreviation MM A := (M mmu A).
Implicit Types m : mmu.

(** ** Bytes: physical memory is a memory of words, the first byte of a word
    being its lowest *)

Definition word_byte (w k : Z) : Z := w / 2 ^ (8 * k) mod 2 ^ 8.
Definition set_word_byte (w k v : Z) : Z := w + 2 ^ (8 * k) * (u8 v - word_byte w k).

Definition phys_byte m (a : Z) : Z := word_byte (phys_mem m (a - a mod 4)) (a mod 4).
Definition store_byte (a v : Z) m : mmu :=
  store_word (a - a mod 4) (set_word_byte (phys_mem m (a - a mod 4)) (a mod 4) v) m.

(** Reading and writing [n] bytes from a virtual address on: [vmemcpy] and
    [vmemset] through the scratch page. *)
Definition read_byte (va : Z) : MM Z := λ m,
  match translate m false va with Some a => Ok (phys_byte m a, m) | None => Fault Bad_pointer end.
Definition write_byte (va v : Z) : MM unit := λ m,
  match translate m true va with Some a => Ok (tt, store_byte a v m) | None => Fault Bad_pointer end.

Fixpoint read_bytes (va : Z) (n : nat) : MM (list Z) :=
  match n with
  | O => mret []
  | S n => b ← read_byte va; bs ← read_bytes (va + 1) n; mret (b :: bs)
  end.
Fixpoint write_bytes (va : Z) (bs : list Z) : MM unit :=
  match bs with
  | [] => mret tt
  | b :: bs => _ ← write_byte va b; write_bytes (va + 1) bs
  end.

Definition with_irq (i : bool) m : mmu := Mmu (phys_mem m) (cr3 m) (tlb m) i (pages m).
Definition irq_disable : MM ARCH_IRQSTATE := λ m,
  let '(prev, i) := arch_irq_disable (irq m) in Ok (prev, with_irq i m).
Definition irq_restore (prev : ARCH_IRQSTATE) : MM unit := λ m, Ok (tt, with_irq (arch_irq_restore prev (irq m)) m).

(** ** The loop over the pages of a range

    Its variables are [i], [srcpage] and [offset], and what [f] makes of
    [dest_byte]. *)
Definition page_step {X} (f : Z → Z → Z → Z → X → MM X) (len : Z) (x : Z * Z * Z * X) : MM (Z * Z * Z * X + X) :=
  let '(i, page, offset, dest) := x in
  if negb (i <? len) then mret (inr dest)
  else
    let maxlen := u32 (ARCH_PAGESIZE - offset) in
    let copylen := u32 (len - i) in
    let copylen := if maxlen <? copylen then maxlen else copylen in
    dest ← f page offset i copylen dest;
    mret (inl (u32 (i + copylen), u32 (page + ARCH_PAGESIZE), 0, dest)).

Definition for_pages {X} (f : Z → Z → Z → Z → X → MM X) (start len : Z) (dest : X) : MM X :=
  page ← lift (align_down start ARCH_PAGESIZE);
  loop_m (3 + Z.to_nat (len / ARCH_PAGESIZE)) (page_step f len) (0, page, u32 (start - page), dest).

(** The bytes that are stored at [dest]. *)
Definition pmemcpy_in (src len : Z) (cache_inhibit : bool) : MM (list Z) :=
  prev_interrupts ← irq_disable;
  dest ← for_pages (λ srcpage offset i copylen dest,
    _ ← arch_mmu_scratch_map srcpage cache_inhibit;
    bs ← read_bytes (ARCH_SCRATCH_MAP_BASE + offset) (Z.to_nat copylen);
    mret (dest ++ bs)) src len [];
  _ ← irq_restore prev_interrupts;
  mret dest.

Definition pmemcpy_out (dest : Z) (src : list Z) (len : Z) (cache_inhibit : bool) : MM unit :=
  prev_interrupts ← irq_disable;
  _ ← for_pages (λ destpage offset i copylen _,
    _ ← arch_mmu_scratch_map destpage cache_inhibit;
    write_bytes (ARCH_SCRATCH_MAP_BASE + offset) (take (Z.to_nat copylen) (drop (Z.to_nat i) src))) dest len tt;
  irq_restore prev_interrupts.

Definition pmemset (dest byte len : Z) (cache_inhibit : bool) : MM unit :=
  prev_interrupts ← irq_disable;
  _ ← for_pages (λ destpage offset i copylen _,
    _ ← arch_mmu_scratch_map destpage cache_inhibit;
    write_bytes (ARCH_SCRATCH_MAP_BASE + offset) (replicate (Z.to_nat copylen) (u8 byte))) dest len tt;
  irq_restore prev_interrupts.

(** ** Single values, the lowest byte first *)

Definition value_of (bs : list Z) : Z := foldr (λ b v, b + 2 ^ 8 * v) 0 bs.
Definition ppeek8 (at_ : Z) (cache_inhibit : bool) : MM Z := bs ← pmemcpy_in at_ 1 cache_inhibit; mret (value_of bs).
Definition ppeek16 (at_ : Z) (cache_inhibit : bool) : MM Z := bs ← pmemcpy_in at_ 2 cache_inhibit; mret (value_of bs).
Definition ppeek32 (at_ : Z) (cache_inhibit : bool) : MM Z := bs ← pmemcpy_in at_ 4 cache_inhibit; mret (value_of bs).
Definition ppoke8 (to val : Z) (cache_inhibit : bool) : MM unit := pmemcpy_out to (le_bytes 1 val) 1 cache_inhibit.
Definition ppoke16 (to val : Z) (cache_inhibit : bool) : MM unit := pmemcpy_out to (le_bytes 2 val) 2 cache_inhibit.
Definition ppoke32 (to val : Z) (cache_inhibit : bool) : MM unit := pmemcpy_out to (le_bytes 4 val) 4 cache_inhibit.

Definition pmemcpy (dest src len : Z) (cache_inhibit : bool) : MM unit :=
  for_ (seqZ 0 len) (λ i,
    b ← ppeek8 (u32 (src + i)) cache_inhibit;
    ppoke8 (u32 (dest + i)) b cache_inhibit).

(** ** The loop *)

Lemma for_pages_ok {X} (f : Z → Z → Z → Z → X → MM X) start len x m (I : Z → X → mmu → Prop) Q :
  is_u32 start → 0 ≤ len → start + len ≤ 2 ^ 32 → len < 2 ^ 32 →
  (∀ page offset i n x m, 0 ≤ i → 0 < n → i + n ≤ len → page mod 4096 = 0 → is_u32 page → 0 ≤ offset →
    offset + n ≤ 4096 → page + offset = start + i → I i x m → wp (f page offset i n x) m (λ x', I (i + n) x')) →
  I 0 x m → (∀ x' m', I len x' m' → Q x' m') → wp (for_pages f start len x) m Q.
Proof using Type.
  unfold is_u32. change (2 ^ 32) with 4294967296. intros Hs Hl Hsl Hl32 Hf HI HQ. unfold for_pages, ARCH_PAGESIZE.
  apply wp_bind. eapply wp_lift; [by apply align_down_eq|].
  apply (wp_loop _ (λ '(i, page, offset, x) m, 0 ≤ i ≤ len ∧ I i x m ∧
      (i = len ∨ page mod 4096 = 0 ∧ is_u32 page ∧ 0 ≤ offset < 4096 ∧ page + offset = start + i ∧ (i = 0 ∨ offset = 0)))
    (λ '(i, page, offset, x), Z.to_nat ((len - i + offset + 4095) / 4096))); [| |].
  - intros [[[i page] offset] d] m' (Hi & HIi & Hp). unfold page_step. destruct (Z.ltb_spec i len) as [Hlt|Hge]; cbn [negb].
    2:{ apply wp_ret. assert (i = len) as -> by lia. by apply HQ. }
    destruct Hp as [|(Hal & Hpu & Ho & Heq & Hz)]; [lia|]. unfold is_u32 in Hpu. change (2 ^ 32) with 4294967296 in Hpu.
    unfold ARCH_PAGESIZE. rewrite (u32_small (4096 - offset)), (u32_small (len - i)) by (change (2 ^ 32) with 4294967296; lia).
    set (n := if 4096 - offset <? len - i then 4096 - offset else len - i).
    assert (n = Z.min (4096 - offset) (len - i)) as Hn by (subst n; zcase; lia). clearbody n.
    apply wp_bind. eapply wp_mono; [apply (Hf page offset i n d m'); try done; lia|].
    intros d' m2 HI2. apply wp_ret. rewrite (u32_small (i + n)) by (change (2 ^ 32) with 4294967296; lia).
    split; [|apply Z2Nat.inj_lt; dlia]. split; [lia|]. split; [done|].
    destruct (decide (i + n = len)) as [|Hne]; [by left|]. right.
    assert (page + 4096 = start + (i + n)) as Hnext by lia.
    unfold is_u32. rewrite u32_small by (change (2 ^ 32) with 4294967296; lia). change (2 ^ 32) with 4294967296.
    split_and!; [dlia|lia|lia|lia|lia|lia|by right].
  - split; [lia|]. split; [done|]. right. unfold is_u32. change (2 ^ 32) with 4294967296.
    rewrite u32_small by (change (2 ^ 32) with 4294967296; dlia). split_and!; [dlia|dlia|dlia|dlia|dlia|lia|by left].
  - cbn. rewrite u32_small by (change (2 ^ 32) with 4294967296; dlia). apply Nat2Z.inj_lt. dlia.
Qed.

(** ** Bytes and words *)

Lemma word_byte_set w k v j : 0 ≤ k < 4 → 0 ≤ j < 4 →
  word_byte (set_word_byte w k v) j = if decide (j = k) then u8 v else word_byte w j.
Proof using Type.
  intros Hk Hj. unfold set_word_byte, word_byte, u8. change (2 ^ 8) with 256. pose proof (Z.mod_pos_bound v 256 eq_refl).
  set (x := v mod 256) in *. clearbody x.
  assert (j = 0 ∨ j = 1 ∨ j = 2 ∨ j = 3) as Hj4 by lia. assert (k = 0 ∨ k = 1 ∨ k = 2 ∨ k = 3) as Hk4 by lia.
  destruct Hj4 as [->|[->|[->| ->]]], Hk4 as [->|[->|[->| ->]]]; cbn [decide]; case_decide; try lia;
    change (8 * 0) with 0; change (8 * 1) with 8; change (8 * 2) with 16; change (8 * 3) with 24;
    change (2 ^ 0) with 1; change (2 ^ 8) with 256; change (2 ^ 16) with 65536; change (2 ^ 24) with 16777216; dlia.
Qed.

Lemma phys_byte_store a v m b : phys_byte (store_byte a v m) b = if decide (b = a) then u8 v else phys_byte m b.
Proof using Type.
  unfold phys_byte, store_byte, store_word. cbn [phys_mem].
  pose proof (Z.mod_pos_bound a 4 eq_refl). pose proof (Z.mod_pos_bound b 4 eq_refl).
  destruct (Z.eqb_spec (b - b mod 4) (a - a mod 4)) as [E|E].
  - rewrite word_byte_set by done. rewrite E. destruct (decide (b = a)) as [->|Hne]; [by rewrite decide_True|].
    rewrite decide_False by lia. done.
  - rewrite decide_False; [done|]. by intros ->.
Qed.
End Operations.

(** ** The scratch page *)
Section Correct.
Context {P : Type} `{!PmmOps P, !PmmLaws P}.
Local Abbreviation mmu := (mmu P).
Implicit Types m : mmu.

(** The word that holds the entry of the scratch page. *)
Definition scratch_word m : Z := page_of (pd m ARCHI586_MMU_SCRATCH_PDE) + 4 * ARCHI586_MMU_SCRATCH_PTE.

(** The page tables are well formed and the one of the scratch page is there. *)
Definition scratch_ready m : Prop := mmu_wf m ∧ present (pd m ARCHI586_MMU_SCRATCH_PDE).

(** The words of the page directory and of the page tables. *)
Definition is_table_word m (a : Z) : Prop :=
  ∃ k, is_index k ∧ present (pd m k) ∧ page_of (pd m k) ≤ a < page_of (pd m k) + 4096.

(** What stays the same: the tables but for the scratch page. *)
Record same_tables m m' : Prop := SameTables {
  st_ready : scratch_ready m';
  st_pd k : is_index k → pd m' k = pd m k;
  st_entry q : is_page q → q ≠ ARCH_SCRATCH_MAP_BASE / 4096 → entry m' q = entry m q;
  st_rest : cr3 m' = cr3 m ∧ pages m' = pages m;
}.

Lemma same_tables_refl m : scratch_ready m → same_tables m m.
Proof using Type. by constructor. Qed.
Lemma same_tables_trans m1 m2 m3 : same_tables m1 m2 → same_tables m2 m3 → same_tables m1 m3.
Proof using Type.
  intros [_ Hp1 He1 (Hc1 & Hg1)] [Hr2 Hp2 He2 (Hc2 & Hg2)]. constructor; [done| | |split; congruence].
  - intros k Hk. by rewrite Hp2, Hp1.
  - intros q Hq Hne. by rewrite He2, He1.
Qed.
Lemma same_tables_word m m' a : same_tables m m' → is_table_word m' a ↔ is_table_word m a.
Proof using Type.
  intros [_ Hp _ _]. unfold is_table_word. split; intros (k & Hk & Hpr & Ha); exists k; (split; [done|]).
  - by rewrite Hp in Hpr, Ha.
  - by rewrite Hp.
Qed.
Lemma scratch_index : is_index ARCHI586_MMU_SCRATCH_PDE.
Proof using Type. unfold is_index, ARCHI586_MMU_SCRATCH_PDE. lia. Qed.
Lemma same_tables_scratch m m' : same_tables m m' → scratch_word m' = scratch_word m.
Proof using Type. intros [_ Hp _ _]. unfold scratch_word. by rewrite Hp by apply scratch_index. Qed.

Lemma scratch_map_ok m page cache : scratch_ready m → irq m = false → is_u32 page → page mod 4096 = 0 →
  wp (arch_mmu_scratch_map page cache) m (λ _ m', same_tables m m' ∧ irq m' = false ∧
    (∀ a, a ≠ scratch_word m → phys_mem m' a = phys_mem m a) ∧
    ∀ w o, 0 ≤ o < 4096 → translate m' w (ARCH_SCRATCH_MAP_BASE + o) = Some (page + o)).
Proof using Type.
  intros [Hwf Hpr] Hirq Hu Hal.
  destruct (arch_mmu_scratch_map_eq m page cache Hwf Hirq Hu Hal Hpr) as (fl & Heq & Hc).
  set (v := mapping_entry page _ false) in *. set (m' := update _ v fl m) in *. exists tt, m'. split; [done|].
  assert (same_tables m m') as Hst.
  { constructor.
    - split; [by apply (changed_wf _ _ _ Hc)|]. by rewrite (changed_pd _ _ _ Hc) by apply scratch_index.
    - apply (changed_pd _ _ _ Hc).
    - intros q Hq Hne. rewrite (changed_entry _ _ _ Hc) by done. by case_decide.
    - by destruct (changed_rest _ _ _ Hc) as (? & _ & ?). }
  split; [done|]. split; [by destruct (changed_rest _ _ _ Hc) as (_ & -> & _)|]. split.
  - intros a Ha. subst m'. unfold update. assert (phys_mem (store_entry (ARCH_SCRATCH_MAP_BASE / 4096) v m) a = phys_mem m a) as Hs.
    { unfold store_entry, store_word. cbn [phys_mem]. by destruct (Z.eqb_spec a (page_of (pd m (ARCH_SCRATCH_MAP_BASE / 4096 / 1024)) + 4 * (ARCH_SCRATCH_MAP_BASE / 4096 mod 1024))). }
    by destruct fl.
  - intros w o Ho. change ARCH_SCRATCH_MAP_BASE with (4096 * (ARCH_SCRATCH_MAP_BASE / 4096)).
    rewrite translate_at by done.
    assert (entry m' (ARCH_SCRATCH_MAP_BASE / 4096) = Some v) as He.
    { rewrite (changed_entry _ _ _ Hc) by done. by rewrite decide_True. }
    unfold entry in He. destruct (has (pd m' _) _) eqn:Hp'; [|done]. injection He as He. rewrite He.
    destruct (mapping_entry_spec page (if cache then Z.lor MAP_PROT_WRITE MAP_PROT_NOCACHE else MAP_PROT_WRITE) false Hu Hal)
      as (HP & HW & _ & _ & Hpg). fold v in HP, HW, Hpg.
    rewrite !present_allows; [by rewrite Hpg|done| |done|].
    + intros _. unfold writable. rewrite HW. by destruct cache.
    + intros _. apply (wf_rw m'); [apply (st_ready _ _ Hst)|apply scratch_index|done].
Qed.

(** ** Reading and writing through it *)

Lemma read_bytes_ok n : ∀ va a m, (∀ k, 0 ≤ k < Z.of_nat n → translate m false (va + k) = Some (a + k)) →
  read_bytes va n m = Ok (phys_byte m <$> seqZ a (Z.of_nat n), m).
Proof using Type.
  induction n as [|n IH]; intros va a m Ht; [done|]. cbn [read_bytes].
  rewrite (M_bind_step _ _ m (phys_byte m a) m).
  2:{ unfold read_byte. specialize (Ht 0 ltac:(lia)). rewrite !Z.add_0_r in Ht. by rewrite Ht. }
  rewrite (M_bind_step _ _ _ _ _ (IH (va + 1) (a + 1) m ltac:(intros k Hk; rewrite <- !Z.add_assoc; apply Ht; lia))).
  rewrite Nat2Z.inj_succ, (seqZ_cons a) by lia. cbn. unfold mret, M_ret. by rewrite Z.add_1_r, Z.pred_succ.
Qed.

Lemma store_outside m a v : mmu_wf m → ¬ is_table_word m a →
  mmu_wf (store_word a v m) ∧ (∀ k, is_index k → pd (store_word a v m) k = pd m k) ∧
  (∀ q, is_page q → entry (store_word a v m) q = entry m q).
Proof using Type.
  intros [Hwf Htlb] Ha. destruct (wf_self m Hwf) as [Hps Hself].
  assert (∀ k, is_index k → pd (store_word a v m) k = pd m k) as Hpd.
  { intros k Hk. unfold pd, store_word. cbn [phys_mem cr3]. destruct (Z.eqb_spec (cr3 m + 4 * k) a) as [<-|]; [|done].
    destruct Ha. exists 1023. split; [apply is_index_last|]. rewrite Hself. unfold is_index in Hk. split; [done|lia]. }
  assert (∀ i j, is_index i → is_index j → present (pd m i) → pt (store_word a v m) i j = pt m i j) as Hpt.
  { intros i j Hi Hj Hp. unfold pt. rewrite Hpd by done. unfold store_word. cbn [phys_mem].
    destruct (Z.eqb_spec (page_of (pd m i) + 4 * j) a) as [<-|]; [|done].
    destruct Ha. exists i. unfold is_index in *. split_and!; (done || lia). }
  assert (∀ q, is_page q → entry (store_word a v m) q = entry m q) as Hen.
  { intros q Hq. destruct (page_split q Hq) as (Hi & Hj & _). unfold entry. rewrite Hpd by done.
    destruct (has (pd m (q / 1024)) _) eqn:Hp; [|done]. by rewrite Hpt. }
  split; [|done]. split.
  - destruct Hwf as [H1 H2 H3 H4 H5 H6]. constructor; try done.
    + by rewrite Hpd by apply is_index_last.
    + intros i Hi. rewrite Hpd by done. by apply H3.
    + intros i j Hi Hj. rewrite !Hpd by done. by apply H4.
    + intros i Hi. rewrite Hpd by done. by apply H5.
  - intros q e Hq. destruct (Htlb q e Hq) as (Hp & e' & He' & Hs). split; [done|]. exists e'. by rewrite Hen.
Qed.

Definition scratch_maps m (page : Z) : Prop :=
  ∀ w o, 0 ≤ o < 4096 → translate m w (ARCH_SCRATCH_MAP_BASE + o) = Some (page + o).

Lemma store_keeps_scratch m page a v : scratch_ready m → ¬ is_table_word m a → scratch_maps m page →
  scratch_maps (store_word a v m) page.
Proof using Type.
  intros [Hwf Hpr] Ha Hm w o Ho. rewrite <- (Hm w o Ho). destruct (store_outside m a v Hwf Ha) as (_ & Hpd & Hen).
  change ARCH_SCRATCH_MAP_BASE with (4096 * (ARCH_SCRATCH_MAP_BASE / 4096)). rewrite !translate_at by done.
  rewrite Hpd by apply scratch_index.
  specialize (Hen (ARCH_SCRATCH_MAP_BASE / 4096) ltac:(done)). unfold entry in Hen.
  rewrite Hpd in Hen by apply scratch_index.
  destruct (has (pd m (ARCH_SCRATCH_MAP_BASE / 4096 / 1024)) _) eqn:E.
  - apply (inj Some) in Hen. by rewrite Hen.
  - exfalso. change (ARCH_SCRATCH_MAP_BASE / 4096 / 1024) with ARCHI586_MMU_SCRATCH_PDE in E. unfold present in Hpr. by rewrite Hpr in E.
Qed.

(** Bytes [a], ..., [a + length bs - 1] of physical memory are [bs]. *)
Definition patched (a : Z) (bs : list Z) m (b : Z) : Z :=
  if decide (a ≤ b < a + Z.of_nat (length bs)) then u8 (default 0 (bs !! Z.to_nat (b - a))) else phys_byte m b.

Lemma write_bytes_ok bs : ∀ o page m, scratch_ready m → scratch_maps m page → 0 ≤ o → o + Z.of_nat (length bs) ≤ 4096 →
  page mod 4096 = 0 →
  (∀ k, 0 ≤ k < Z.of_nat (length bs) → ¬ is_table_word m (page + o + k)) →
  wp (write_bytes (ARCH_SCRATCH_MAP_BASE + o) bs) m (λ _ m', same_tables m m' ∧ irq m' = irq m ∧ scratch_maps m' page ∧
    ∀ b, phys_byte m' b = patched (page + o) bs m b).
Proof using Type.
  induction bs as [|x bs IH]; intros o page m Hr Hm Ho Hl Hal Hout; cbn [write_bytes length] in *.
  - apply wp_ret. split; [by apply same_tables_refl|]. split; [done|]. split; [done|].
    intros b. unfold patched. cbn. by rewrite decide_False by lia.
  - apply wp_bind. eexists tt, (store_byte (page + o) x m). split.
    { unfold write_byte. by rewrite Hm by lia. }
    assert (¬ is_table_word m (page + o - (page + o) mod 4)) as Hnt.
    { intros (k & Hk & Hp & Ha). apply (Hout 0); [lia|]. exists k. split; [done|]. split; [done|].
      pose proof (page_of_range (pd m k)) as [_ Hpm]. rewrite Z.add_0_r. dlia. }
    set (m1 := store_byte (page + o) x m) in *.
    destruct (store_outside m _ (set_word_byte (phys_mem m (page + o - (page + o) mod 4)) ((page + o) mod 4) x) (proj1 Hr) Hnt)
      as (Hwf1 & Hpd1 & Hen1).
    assert (same_tables m m1) as Hst1.
    { constructor; [|exact Hpd1|intros q Hq _; by apply Hen1|done].
      split; [done|]. unfold m1, store_byte. rewrite Hpd1 by apply scratch_index. apply Hr. }
    rewrite <- Z.add_assoc. eapply wp_mono.
    { apply (IH (o + 1) page m1); [apply Hst1|by apply store_keeps_scratch|lia|lia|done|].
      intros k Hk. rewrite (same_tables_word m m1) by done. replace (page + (o + 1) + k) with (page + o + (k + 1)) by lia.
      apply Hout. lia. }
    intros [] m' (Hst' & Hi' & Hm' & Hb'). split; [by eapply same_tables_trans|]. split; [done|]. split; [done|].
    intros b. rewrite Hb'. unfold patched. cbn [length]. unfold m1 at 1. rewrite phys_byte_store.
    destruct (decide (b = page + o)) as [->|Hne].
    + rewrite decide_False by lia. rewrite decide_True by lia. by rewrite Z.sub_diag.
    + destruct (decide (page + (o + 1) ≤ b < page + (o + 1) + Z.of_nat (length bs))).
      * rewrite decide_True by lia. replace (Z.to_nat (b - (page + o))) with (S (Z.to_nat (b - (page + (o + 1))))) by lia. done.
      * by rewrite decide_False by lia.
Qed.

(** ** The functions *)

(** A range of bytes apart from the entry of the scratch page, and one apart
    from all page tables. *)
Definition off_scratch m (start len : Z) : Prop := ∀ a, start ≤ a < start + len → a - a mod 4 ≠ scratch_word m.
Definition off_tables m (start len : Z) : Prop := ∀ a, start ≤ a < start + len → ¬ is_table_word m a.
Definition in_memory (start len : Z) : Prop := 0 ≤ start < 2 ^ 32 ∧ 0 ≤ len < 2 ^ 32 ∧ start + len ≤ 2 ^ 32.

(** What is read, and what is not written, is as before. *)
Definition same_memory m m' : Prop := ∀ a, a ≠ scratch_word m → phys_mem m' a = phys_mem m a.

Lemma same_memory_byte m m' a : same_memory m m' → a - a mod 4 ≠ scratch_word m → phys_byte m' a = phys_byte m a.
Proof using Type. intros Hs Ha. unfold phys_byte. by rewrite Hs. Qed.

Lemma scratch_word_is_table m : scratch_ready m → is_table_word m (scratch_word m).
Proof using Type.
  intros [_ Hp]. exists ARCHI586_MMU_SCRATCH_PDE. split; [apply scratch_index|]. split; [done|].
  unfold scratch_word, ARCHI586_MMU_SCRATCH_PTE. lia.
Qed.

Lemma off_tables_scratch m start len : scratch_ready m → off_tables m start len → off_scratch m start len.
Proof using Type.
  intros Hr Ho a Ha E. apply (Ho a Ha). destruct (scratch_word_is_table m Hr) as (k & Hk & Hp & Hw).
  exists k. split; [done|]. split; [done|]. pose proof (page_of_range (pd m k)) as [_ Hpm]. rewrite <- E in Hw. dlia.
Qed.

(** A section between [arch_irq_disable] and [arch_irq_restore]. *)
Lemma with_irq_tables i m : scratch_ready m → same_tables m (with_irq i m).
Proof using Type. intros [[[? ? ? ? ? ?] ?] ?]. constructor; [split; [split; [by constructor|done]|done]|done..]. Qed.

Lemma irq_section {A} (f : M mmu A) m (Q : A → mmu → Prop) : scratch_ready m →
  wp f (with_irq false m) (λ x m', irq m' = false ∧ ∀ i, Q x (with_irq i m')) →
  wp (prev ← irq_disable; x ← f; _ ← irq_restore prev; mret x) m (λ x m', irq m' = irq m ∧ Q x m').
Proof using Type.
  intros Hr Hf. apply wp_bind. exists (arch_irq_are_enabled (irq m)), (with_irq false m). split; [done|].
  apply wp_bind. eapply wp_mono; [exact Hf|]. intros x m' [Hi HQ]. apply wp_bind. eexists tt, _. split; [done|].
  apply wp_ret. rewrite Hi. split; [by destruct (irq m)|]. apply HQ.
Qed.

Lemma pmemcpy_in_ok m src len cache : scratch_ready m → in_memory src len → off_scratch m src len →
  wp (pmemcpy_in src len cache) m (λ bs m', irq m' = irq m ∧
    bs = phys_byte m <$> seqZ src len ∧ same_tables m m' ∧ same_memory m m').
Proof using Type.
  intros Hr (Hs & Hl & Hsl) Hoff. unfold pmemcpy_in. apply irq_section; [done|].
  pose proof (with_irq_tables false m Hr) as H0.
  eapply wp_mono; [apply (for_pages_ok _ src len [] _ (λ i bs m', bs = phys_byte m <$> seqZ src i ∧
    same_tables m m' ∧ irq m' = false ∧ same_memory m m') (λ bs m', bs = phys_byte m <$> seqZ src len ∧
    same_tables m m' ∧ irq m' = false ∧ same_memory m m')); try done; try lia|].
  - intros page offset i n bs m' Hi Hn Hin Hal Hpu Ho Hon Heq (-> & Hst & Hirq & Hmem). apply wp_bind.
    eapply wp_mono; [apply scratch_map_ok; [apply Hst|done..]|].
    intros [] m1 (Hst1 & Hirq1 & Hmem1 & Htr). rewrite (same_tables_scratch m m') in Hmem1 by done.
    assert (same_memory m m1) as Hmem' by (intros a Ha; by rewrite Hmem1, Hmem).
    apply wp_bind. eexists _, m1. split.
    { apply read_bytes_ok with (a := page + offset). intros k Hk. rewrite <- !Z.add_assoc. apply Htr. lia. }
    apply wp_ret. split; [|split; [by eapply same_tables_trans|done]].
    rewrite Z2Nat.id, Heq by lia. rewrite seqZ_app, fmap_app by lia. f_equal.
    apply list_fmap_ext. intros k x Hx. apply lookup_seqZ in Hx.
    apply (same_memory_byte m); [done|]. apply Hoff. lia.
  - intros bs m' (-> & Hst & Hirq & Hmem). split; [done|]. intros j. split; [done|]. split; [|done].
    eapply same_tables_trans; [exact Hst|]. apply with_irq_tables, Hst.
Qed.

(** The bytes from [dest] on are [src], and the rest of memory but for the entry
    of the scratch page is as before. *)
Definition stored m (dest : Z) (src : list Z) m' : Prop :=
  ∀ b, b - b mod 4 ≠ scratch_word m → phys_byte m' b = patched dest src m b.

Lemma patched_app m m' a b bs bs' : stored m a bs m' → b = a + Z.of_nat (length bs) → ∀ c,
  c - c mod 4 ≠ scratch_word m → patched b bs' m' c = patched a (bs ++ bs') m c.
Proof using Type.
  intros Hs -> c Hc. unfold patched at 1. specialize (Hs c Hc). unfold patched in *. rewrite length_app.
  destruct (decide (a + Z.of_nat (length bs) ≤ c < a + Z.of_nat (length bs) + Z.of_nat (length bs'))).
  - rewrite decide_True by lia. rewrite lookup_app_r by lia. do 3 f_equal. lia.
  - rewrite Hs. destruct (decide (a ≤ c < a + Z.of_nat (length bs))).
    + rewrite decide_True by lia. by rewrite lookup_app_l by lia.
    + by rewrite decide_False by lia.
Qed.

(** A loop that writes [src], part by part. *)
Lemma write_loop_ok m dest (src : list Z) cache (part : Z → Z → list Z) : scratch_ready m → irq m = false →
  in_memory dest (Z.of_nat (length src)) → off_tables m dest (Z.of_nat (length src)) →
  (∀ i n, 0 ≤ i → 0 < n → i + n ≤ Z.of_nat (length src) → part i n = take (Z.to_nat n) (drop (Z.to_nat i) src)) →
  wp (for_pages (λ page offset i n _,
      _ ← arch_mmu_scratch_map page cache; write_bytes (ARCH_SCRATCH_MAP_BASE + offset) (part i n))
    dest (Z.of_nat (length src)) tt) m
    (λ _ m', irq m' = false ∧ same_tables m m' ∧ stored m dest src m').
Proof using Type.
  intros Hr Hirq (Hd & Hl & Hdl) Hoff Hpart.
  apply (for_pages_ok _ dest _ tt _ (λ i _ m', irq m' = false ∧ same_tables m m' ∧ stored m dest (take (Z.to_nat i) src) m'));
    try done; try lia.
  - intros page offset i n _ m' Hi Hn Hin Hal Hpu Ho Hon Heq (Hirq' & Hst & Hmem). apply wp_bind.
    eapply wp_mono; [apply scratch_map_ok; [apply Hst|done..]|].
    intros [] m1 (Hst1 & Hirq1 & Hmem1 & Htr). rewrite (same_tables_scratch m m') in Hmem1 by done.
    assert (length (part i n) = Z.to_nat n) as Hlen.
    { rewrite Hpart by lia. rewrite length_take, length_drop. lia. }
    assert (same_tables m m1) as Hst2 by (by eapply same_tables_trans).
    eapply wp_mono; [apply (write_bytes_ok (part i n) offset page m1)|].
    + apply Hst2.
    + exact Htr.
    + done.
    + rewrite Hlen. lia.
    + done.
    + intros k Hk. rewrite (same_tables_word m m1) by done. apply Hoff. rewrite Hlen in Hk. lia.
    + intros [] m2 (Hst3 & Hirq2 & _ & Hb). split; [by rewrite Hirq2|]. split; [by eapply same_tables_trans|].
      intros c Hc. rewrite Hb. assert (stored m dest (take (Z.to_nat i) src) m1) as Hst4.
      { intros b Hb'. rewrite <- Hmem by done. unfold phys_byte. by rewrite Hmem1. }
      rewrite (patched_app m m1 dest (page + offset) (take (Z.to_nat i) src) (part i n) Hst4); [|rewrite length_take; lia|done].
      f_equal. rewrite Hpart, take_take_drop by lia. f_equal. lia.
  - split; [done|]. split; [by apply same_tables_refl|]. intros b Hb. unfold patched. change (take (Z.to_nat 0) src) with (@nil Z). cbn [length]. by rewrite decide_False by lia.
  - intros _ m' (Hirq' & Hst & Hmem). split; [done|]. split; [done|]. by rewrite Nat2Z.id, firstn_all in Hmem.
Qed.

Lemma irq_section_unit (f : M mmu unit) m (Q : mmu → Prop) :
  wp f (with_irq false m) (λ _ m', irq m' = false ∧ ∀ i, Q (with_irq i m')) →
  wp (prev ← irq_disable; _ ← f; irq_restore prev) m (λ _ m', irq m' = irq m ∧ Q m').
Proof using Type.
  intros Hf. apply wp_bind. exists (arch_irq_are_enabled (irq m)), (with_irq false m). split; [done|].
  apply wp_bind. eapply wp_mono; [exact Hf|]. intros [] m' [Hi HQ]. eexists tt, _. split; [done|].
  rewrite Hi. split; [by destruct (irq m)|]. apply HQ.
Qed.

Lemma irq_off_tables m start len i : off_tables m start len → off_tables (with_irq i m) start len.
Proof using Type. done. Qed.

Lemma stored_irq m dest src m' i j : stored (with_irq i m) dest src m' → stored m dest src (with_irq j m').
Proof using Type. done. Qed.

Lemma write_section m dest (src : list Z) cache (part : Z → Z → list Z) : scratch_ready m →
  in_memory dest (Z.of_nat (length src)) → off_tables m dest (Z.of_nat (length src)) →
  (∀ i n, 0 ≤ i → 0 < n → i + n ≤ Z.of_nat (length src) → part i n = take (Z.to_nat n) (drop (Z.to_nat i) src)) →
  wp (prev ← irq_disable;
      _ ← for_pages (λ page offset i n _,
        _ ← arch_mmu_scratch_map page cache; write_bytes (ARCH_SCRATCH_MAP_BASE + offset) (part i n))
        dest (Z.of_nat (length src)) tt;
      irq_restore prev) m
    (λ _ m', irq m' = irq m ∧ same_tables m m' ∧ stored m dest src m').
Proof using Type.
  intros Hr Hin Hoff Hpart. apply irq_section_unit. pose proof (with_irq_tables false m Hr) as H0.
  eapply wp_mono; [apply write_loop_ok; [apply H0|done|done|by apply irq_off_tables|done]|].
  intros [] m' (Hirq & Hst & Hb). split; [done|]. intros j. split; [|by eapply stored_irq].
  eapply same_tables_trans; [exact H0|]. eapply same_tables_trans; [exact Hst|]. apply with_irq_tables, Hst.
Qed.

Lemma pmemcpy_out_ok m dest src cache : scratch_ready m → in_memory dest (Z.of_nat (length src)) →
  off_tables m dest (Z.of_nat (length src)) →
  wp (pmemcpy_out dest src (Z.of_nat (length src)) cache) m (λ _ m', irq m' = irq m ∧ same_tables m m' ∧ stored m dest src m').
Proof using Type. intros Hr Hin Hoff. by apply write_section. Qed.

Lemma pmemset_ok m dest byte len cache : scratch_ready m → in_memory dest len → off_tables m dest len →
  wp (pmemset dest byte len cache) m (λ _ m', irq m' = irq m ∧ same_tables m m' ∧
    stored m dest (replicate (Z.to_nat len) (u8 byte)) m').
Proof using Type.
  intros Hr Hin Hoff. assert (Z.of_nat (length (replicate (Z.to_nat len) (u8 byte))) = len) as Hl.
  { rewrite length_replicate. destruct Hin as (_ & ? & _). lia. }
  pose proof (write_section m dest (replicate (Z.to_nat len) (u8 byte)) cache
    (λ _ n, replicate (Z.to_nat n) (u8 byte)) Hr) as Hw. rewrite Hl in Hw. apply Hw; [done..|].
  intros i n Hi Hn Hin'. rewrite drop_replicate, take_replicate. f_equal. lia.
Qed.

(** C12: What is copied to physical memory is read back from it, whether it crosses
    pages or not: [pmemcpy_out] changes the bytes of the destination and nothing
    else but the entry of the scratch page, [pmemcpy_in] then returns those
    bytes, and both leave the mappings and the interrupt flag as they were. *)
Theorem pmemcpy_roundtrip (m : mmu) (dest : Z) (src : list Z) (cache : bool) :
  scratch_ready m → in_memory dest (Z.of_nat (length src)) → off_tables m dest (Z.of_nat (length src)) →
  Forall is_u8 src →
  ∃ m1 m2, pmemcpy_out dest src (Z.of_nat (length src)) cache m = Ok (tt, m1) ∧
    irq m1 = irq m ∧ same_tables m m1 ∧ stored m dest src m1 ∧
    pmemcpy_in dest (Z.of_nat (length src)) cache m1 = Ok (src, m2) ∧
    irq m2 = irq m ∧ same_tables m1 m2 ∧ same_memory m1 m2.
Proof using Type.
  intros Hr Hin Hoff Hu. destruct (pmemcpy_out_ok m dest src cache Hr Hin Hoff) as ([] & m1 & H1 & Hi1 & Hst1 & Hb1).
  pose proof (off_tables_scratch m _ _ Hr Hoff) as Hos.
  destruct (pmemcpy_in_ok m1 dest (Z.of_nat (length src)) cache) as (bs & m2 & H2 & Hi2 & -> & Hst2 & Hm2).
  - apply Hst1.
  - done.
  - intros a Ha. rewrite (same_tables_scratch m m1) by done. by apply Hos.
  - exists m1, m2. split_and!; try done; [|congruence]. rewrite H2. do 2 f_equal. apply list_eq. intros i.
    rewrite list_lookup_fmap. destruct (decide (i < length src)%nat) as [Hi|Hi].
    + rewrite lookup_seqZ_lt by lia. destruct (lookup_lt_is_Some_2 src i Hi) as [x Hx].
      rewrite Hx. cbn. f_equal. rewrite Hb1 by (apply Hos; lia). unfold patched. rewrite decide_True by lia.
      replace (Z.to_nat (dest + Z.of_nat i - dest)) with i by lia. rewrite Hx. cbn. unfold u8.
      pose proof (Forall_lookup_1 _ _ _ _ Hu Hx) as Hx'. unfold is_u8 in Hx'. by apply Z.mod_small.
    + rewrite lookup_seqZ_ge by lia. by rewrite lookup_ge_None_2 by lia.
Qed.
End Correct.

(** Five bytes across a page boundary, with the page tables the kernel starts
    with. *)
#[local] Existing Instances bump_pages bump_pages_laws.

Lemma boot_scratch_ready : scratch_ready boot_mmu.
Proof.
  split; [exact boot_mmu_wf|]. unfold present. rewrite boot_pd by (unfold is_index, ARCHI586_MMU_SCRATCH_PDE; lia). done.
Qed.

Lemma boot_off_tables start len : 0x203000 ≤ start → off_tables boot_mmu start len.
Proof.
  intros Hs a Ha (k & Hk & Hp & Hw). destruct (boot_pd_spec k Hk Hp) as (Hk' & _ & E). rewrite E in Hw.
  unfold boot_table, is_index, lower2mpagetable, boot_pagedir, kernelpagetable in *.
  destruct (Z.eqb_spec k 0); [lia|]. destruct (Z.eqb_spec k 1023); lia.
Qed.

Lemma pmemcpy_roundtrip_witness : ∃ m1 m2,
  pmemcpy_out 0x300ffe [1; 2; 3; 4; 255] 5 false boot_mmu = Ok (tt, m1) ∧ phys_byte m1 0x301000 = 3 ∧
  pmemcpy_in 0x300ffe 5 false m1 = Ok ([1; 2; 3; 4; 255], m2).
Proof.
  assert (Forall is_u8 [1; 2; 3; 4; 255]) as Hu by (repeat constructor; unfold is_u8; lia).
  destruct (pmemcpy_roundtrip boot_mmu 0x300ffe [1; 2; 3; 4; 255] false boot_scratch_ready
    ltac:(unfold in_memory; cbn; lia) (boot_off_tables 0x300ffe 5 ltac:(lia)) Hu)
    as (m1 & m2 & H1 & _ & _ & Hb & H2 & _).
  exists m1, m2. split; [exact H1|]. split; [|exact H2]. rewrite Hb; [reflexivity|].
  intros E. pose proof (boot_off_tables 0x301000 1 ltac:(lia) 0x301000 ltac:(lia)) as Hnt. apply Hnt.
  destruct (scratch_word_is_table boot_mmu boot_scratch_ready) as (k & Hk). rewrite <- E in Hk. exists k. exact Hk.
Defined.
