(* ===== verification/Vmm.v ===== *)
(** The virtual memory manager (src/kernel/mem/vmm.c,
    src/include/kernel/mem/vmm.h), as it is compiled with [NEW_VMM]: the free
    regions of an address space are a list of objects; what is allocated is
    committed page by page, by the page fault handler. *)
From S2P Require Import Prelude MiscMath Bitmap CList Arch HeapIface PmmIface Mmu.

(** ** Data *)

(** The node of the lists is the first field of an object: it is in the store
    of the nodes, under the address of the object. *)
Record vmm_object := VmmObject {
  address_space : Z; start : Z; end_ : Z; phys_base : Z; mapflags : Z;
}.

Record uncommited_object := UncommitedObject { object : Z; committed_bitmap : bitmap }.

Record vmm_address_space := VmmAddressSpace {
  object_list : clist; uncommited_objects : clist; is_user : bool;
}.

Definition VMM_PHYSADDR_NOMAP : Z := 2 ^ 32 - 1.
Definition SIZEOF_VMM_OBJECT : Z := 32.
Definition SIZEOF_UNCOMMITED_OBJECT : Z := 24.

Definition with_start (a : Z) (o : vmm_object) : vmm_object :=
  VmmObject (address_space o) a (end_ o) (phys_base o) (mapflags o).
Definition with_end (a : Z) (o : vmm_object) : vmm_object :=
  VmmObject (address_space o) (start o) a (phys_base o) (mapflags o).
Definition with_bitmap (b : bitmap) (u : uncommited_object) : uncommited_object :=
  UncommitedObject (object u) b.
Definition with_object_list (l : clist) (a : vmm_address_space) : vmm_address_space :=
  VmmAddressSpace l (uncommited_objects a) (is_user a).
Definition with_uncommited (l : clist) (a : vmm_address_space) : vmm_address_space :=
  VmmAddressSpace (object_list a) l (is_user a).

(** Memory: the nodes of the lists, the objects by their address, the address
    spaces, whether that of the kernel is initialised, the heap, and the
    machine. *)
Record vmm (H P : Type) := Vmm {
  list_nodes : nodes;
  objects : gmap Z vmm_object;
  uobjects : gmap Z uncommited_object;
  spaces : gmap Z vmm_address_space;
  initialized : bool;
  heap : H;
  machine : mmu P;
}.
Arguments Vmm {H P}. Arguments list_nodes {H P}. Arguments objects {H P}. Arguments uobjects {H P}.
Arguments spaces {H P}. Arguments initialized {H P}. Arguments heap {H P}. Arguments machine {H P}.

Section Operations.
Context {H P : Type} `{!HeapOps H, !PmmOps P}.
Local Abbreviation vmm := (vmm H P).
Local Abbreviation VM A := (M vmm A).
Implicit Types s : vmm.

(** The static variable of [vmm_get_kernel_address_space], and a symbol of the
    linker. *)
Context (kernel_address_space ARCH_KERNEL_VM_START : Z).

(** ** Access to the memory *)

Definition with_list_nodes (n : nodes) s : vmm :=
  Vmm n (objects s) (uobjects s) (spaces s) (initialized s) (heap s) (machine s).
Definition with_objects (o : gmap Z vmm_object) s : vmm :=
  Vmm (list_nodes s) o (uobjects s) (spaces s) (initialized s) (heap s) (machine s).
Definition with_uobjects (u : gmap Z uncommited_object) s : vmm :=
  Vmm (list_nodes s) (objects s) u (spaces s) (initialized s) (heap s) (machine s).
Definition with_spaces (a : gmap Z vmm_address_space) s : vmm :=
  Vmm (list_nodes s) (objects s) (uobjects s) a (initialized s) (heap s) (machine s).
Definition with_initialized (b : bool) s : vmm :=
  Vmm (list_nodes s) (objects s) (uobjects s) (spaces s) b (heap s) (machine s).
Definition with_heap (h : H) s : vmm :=
  Vmm (list_nodes s) (objects s) (uobjects s) (spaces s) (initialized s) h (machine s).
Definition with_machine (m : mmu P) s : vmm :=
  Vmm (list_nodes s) (objects s) (uobjects s) (spaces s) (initialized s) (heap s) m.

Definition update (f : vmm → vmm) : VM unit := λ s, Ok (tt, f s).

Definition in_nodes {A} (op : M nodes A) : VM A := λ s,
  match op (list_nodes s) with Ok (a, n) => Ok (a, with_list_nodes n s) | Fault f => Fault f end.
Definition in_heap {A} (op : M H A) : VM A := λ s,
  match op (heap s) with Ok (a, h) => Ok (a, with_heap h s) | Fault f => Fault f end.
Definition in_mmu {A} (op : M (mmu P) A) : VM A := λ s,
  match op (machine s) with Ok (a, m) => Ok (a, with_machine m s) | Fault f => Fault f end.

Definition read_object (p : Z) : VM vmm_object := λ s,
  match objects s !! p with Some o => Ok (o, s) | None => Fault Bad_pointer end.
Definition modify_object (p : Z) (f : vmm_object → vmm_object) : VM unit := λ s,
  match objects s !! p with Some o => Ok (tt, with_objects (<[p := f o]> (objects s)) s) | None => Fault Bad_pointer end.
Definition read_uobject (p : Z) : VM uncommited_object := λ s,
  match uobjects s !! p with Some u => Ok (u, s) | None => Fault Bad_pointer end.
Definition write_uobject (p : Z) (u : uncommited_object) : VM unit := λ s,
  match uobjects s !! p with
  | Some _ => Ok (tt, with_uobjects (<[p := u]> (uobjects s)) s)
  | None => Fault Bad_pointer
  end.
Definition read_space (p : Z) : VM vmm_address_space := λ s,
  match spaces s !! p with Some a => Ok (a, s) | None => Fault Bad_pointer end.
Definition write_space (p : Z) (a : vmm_address_space) : VM unit := λ s,
  match spaces s !! p with
  | Some _ => Ok (tt, with_spaces (<[p := a]> (spaces s)) s)
  | None => Fault Bad_pointer
  end.

(** [heap_free] of an object of either kind: it can no longer be accessed. *)
Definition free (p : Z) : VM unit :=
  _ ← in_heap (heap_free p);
  update (λ s, Vmm (delete p (list_nodes s)) (delete p (objects s)) (delete p (uobjects s))
                 (spaces s) (initialized s) (heap s) (machine s)).

(** The next pointer of a node. *)
Definition next_of (p : Z) : VM Z := n ← in_nodes (load p); mret (next n).

(** A list has at most as many nodes as the store. *)
Definition list_fuel : VM nat := λ s, Ok (S (size (list_nodes s)), s).

Definition update_list (sp : Z) (get : vmm_address_space → clist) (set : clist → vmm_address_space → vmm_address_space)
    (op : clist → M nodes clist) : VM unit :=
  a ← read_space sp;
  l ← in_nodes (op (get a));
  write_space sp (set l a).
Definition update_object_list (sp : Z) := update_list sp object_list with_object_list.
Definition update_uncommited (sp : Z) := update_list sp uncommited_objects with_uncommited.

(** ** Free regions *)

Definition vmm_get_object_size (o : vmm_object) : Z := u32 (u32 (end_ o - start o) + 1).

Definition take_object (self object : Z) : VM Z :=
  _ ← update_object_list self (λ l, list_remove_node l object);
  mret object.

(** The first region with at least so many pages, or the null pointer. *)
Definition take_object_with_min_size (self page_count : Z) : VM Z :=
  _ ← massert (negb (page_count =? 0));
  a ← read_space self;
  _ ← massert (negb (front (object_list a) =? NULL));
  fuel ← list_fuel;
  loop_m fuel (λ object_node,
    if object_node =? NULL then mret (inr NULL)
    else
      n ← in_nodes (load object_node);
      _ ← massert (negb (data n =? NULL));
      o ← read_object (data n);
      object_page_count ← lift (size_to_blocks (vmm_get_object_size o) ARCH_PAGESIZE);
      if object_page_count <? page_count then nx ← next_of object_node; mret (inl nx)
      else
        result ← take_object self (data n);
        mret (inr result)) (front (object_list a)).

(** The object stays on the list. *)
Definition take_object_including (self start_ end0 : Z) : VM Z :=
  page_count ← lift (size_to_blocks (u32 (u32 (end0 - start_) + 1)) ARCH_PAGESIZE);
  _ ← massert (negb (page_count =? 0));
  if u32 (UINTPTR_MAX - start_) <? u32 (page_count * ARCH_PAGESIZE) then mret NULL
  else
    let end1 := u32 (start_ + u32 (page_count * ARCH_PAGESIZE - 1)) in
    a ← read_space self;
    fuel ← list_fuel;
    loop_m fuel (λ object_node,
      if object_node =? NULL then mret (inr NULL)
      else
        n ← in_nodes (load object_node);
        _ ← massert (negb (data n =? NULL));
        o ← read_object (data n);
        if (start_ <? start o) || (end_ o <? start_) || (end1 <? start o) || (end_ o <? end1)
        then nx ← next_of object_node; mret (inl nx)
        else mret (inr (data n))) (front (object_list a)).

(** The loop of [add_object_to_address_space]: the last region of the list that
    ends before the address. *)
Definition find_insert_after (self start_ : Z) : VM Z :=
  a ← read_space self;
  fuel ← list_fuel;
  loop_m fuel (λ '(object_node, insert_after),
    if object_node =? NULL then mret (inr insert_after)
    else
      n ← in_nodes (load object_node);
      old_object ← in_nodes (list_get_data_or_null (data n));
      o ← read_object old_object;
      nx ← next_of object_node;
      mret (inl (nx, if end_ o <? start_ then old_object else insert_after))) (front (object_list a), NULL).

Definition add_object_to_address_space (self object : Z) : VM bool :=
  o ← read_object object;
  aligned ← lift (is_aligned (vmm_get_object_size o) ARCH_PAGESIZE);
  _ ← massert aligned;
  insert_after ← find_insert_after self (start o);
  if insert_after =? NULL then
    _ ← update_object_list self (λ l, list_insert_back l object object);
    mret true
  else
    nx ← next_of insert_after;
    next_object ← in_nodes (list_get_data_or_null nx);
    bad ← (if negb (next_object =? NULL) then n ← read_object next_object; mret (start n <? end_ o)
           else mret false);
    if bad : bool then mret true
    else
      _ ← update_object_list self (λ l, list_insert_after l insert_after object object);
      mret true.

(** ** Objects *)

Definition create_object (self start_ end0 phys mapflags_ : Z) : VM Z :=
  object ← in_heap (heap_alloc SIZEOF_VMM_OBJECT HEAP_FLAG_ZEROMEMORY);
  if object =? NULL then mret NULL
  else
    _ ← update (λ s,
          with_objects (<[object := VmmObject self start_ end0 phys mapflags_]> (objects s))
            (with_list_nodes (<[object := ListNode 0 0 0]> (list_nodes s)) s));
    mret object.

Definition create_uncommited_object (object page_count : Z) : VM Z :=
  wordcount ← lift (bitmap_needed_word_count page_count);
  uobject ← in_heap (heap_alloc (u32 (SIZEOF_UNCOMMITED_OBJECT + u32 (wordcount * 4))) HEAP_FLAG_ZEROMEMORY);
  if uobject =? NULL then mret NULL
  else
    b ← lift (bitmap_set_bits (Bitmap (replicate (Z.to_nat wordcount) 0) wordcount) 0 page_count);
    _ ← update (λ s,
          with_uobjects (<[uobject := UncommitedObject object b]> (uobjects s))
            (with_list_nodes (<[uobject := ListNode 0 0 0]> (list_nodes s)) s));
    mret uobject.

Definition find_object_in_uncommited (self ptr : Z) : VM Z :=
  page_base ← lift (align_ptr_down ptr ARCH_PAGESIZE);
  a ← read_space self;
  fuel ← list_fuel;
  loop_m fuel (λ object_node,
    if object_node =? NULL then mret (inr NULL)
    else
      n ← in_nodes (load object_node);
      _ ← massert (negb (data n =? NULL));
      u ← read_uobject (data n);
      o ← read_object (object u);
      if (start o <=? page_base) && (page_base <=? end_ o) then mret (inr (data n))
      else nx ← next_of object_node; mret (inl nx)) (front (uncommited_objects a)).

(** ** Address spaces *)

Definition vmm_init_address_space (out start_ end0 : Z) (is_user_ : bool) : VM bool :=
  _ ← update (λ s, with_spaces (<[out := VmmAddressSpace list_init list_init is_user_]> (spaces s)) s);
  object ← create_object out start_ end0 VMM_PHYSADDR_NOMAP 0;
  if object =? NULL then _ ← free object; mret false
  else
    added ← add_object_to_address_space out object;
    if negb added then _ ← free object; mret false else mret true.

Definition vmm_deinit_address_space (self : Z) : VM unit :=
  fuel ← list_fuel;
  loop_m fuel (λ _ : unit,
    a ← read_space self;
    '(object_node, l) ← in_nodes (list_remove_front (object_list a));
    _ ← write_space self (with_object_list l a);
    if object_node =? NULL then mret (inr tt)
    else
      n ← in_nodes (load object_node);
      _ ← free (data n);
      mret (inl tt)) tt.

Definition vmm_get_kernel_address_space : VM Z :=
  s ← get;
  if initialized s then mret kernel_address_space
  else
    ok ← vmm_init_address_space kernel_address_space ARCH_KERNEL_VM_START ARCH_KERNEL_VM_END false;
    if negb ok then throw Panic
    else
      _ ← update (with_initialized true);
      mret kernel_address_space.

Definition vmm_get_address_space_of (ptr : Z) : VM Z :=
  if (ARCH_KERNEL_VM_START <=? ptr) && (ptr <=? ARCH_KERNEL_VM_END) then vmm_get_kernel_address_space
  else mret NULL.

(** ** Allocation *)

Definition assert_phys_base (phys : Z) : VM unit :=
  if negb (phys =? VMM_PHYSADDR_NOMAP) then
    aligned ← lift (is_aligned phys ARCH_PAGESIZE);
    massert aligned
  else mret tt.

(** Putting a region back whose bounds were changed, unless it is empty. *)
Definition put_back (self object : Z) : VM unit :=
  o ← read_object object;
  if end_ o <? start o then free object
  else _ ← add_object_to_address_space self object; mret tt.

(** The new object takes the front of a region. *)
Definition split_region (newobject oldobject newsize : Z) : VM unit :=
  old ← read_object oldobject;
  _ ← modify_object newobject (with_start (start old));
  _ ← modify_object newobject (λ n, with_end (u32 (u32 (start n + newsize) - 1)) n);
  modify_object oldobject (with_start (u32 (start old + newsize))).

Definition vmm_alloc_object (self phys size flags : Z) : VM Z :=
  page_count ← lift (size_to_blocks size ARCH_PAGESIZE);
  _ ← assert_phys_base phys;
  newobject ← create_object self 0 0 phys flags;
  uobject ← create_uncommited_object newobject page_count;
  oldobject ← take_object_with_min_size self page_count;
  if (newobject =? NULL) || (oldobject =? NULL) then
    _ ← free uobject;
    _ ← free oldobject;
    _ ← free newobject;
    mret newobject
  else
    _ ← split_region newobject oldobject (u32 (page_count * ARCH_PAGESIZE));
    _ ← put_back self oldobject;
    _ ← update_uncommited self (λ l, list_insert_back l uobject uobject);
    mret newobject.

Definition irq_disable : VM ARCH_IRQSTATE := in_mmu (λ m,
  let '(prev, i) := arch_irq_disable (irq m) in
  Ok (prev, Mmu (phys_mem m) (cr3 m) (tlb m) i (pages m))).
Definition irq_restore (prev : ARCH_IRQSTATE) : VM unit := in_mmu (λ m,
  Ok (tt, Mmu (phys_mem m) (cr3 m) (tlb m) (arch_irq_restore prev (irq m)) (pages m))).

(** What [vmm_alloc_object_at] does between disabling and restoring the
    interrupts. *)
Definition alloc_object_at (self virt_base phys size flags : Z) : VM Z :=
  _ ← massert (negb (virt_base =? 0));
  page_count ← lift (size_to_blocks size ARCH_PAGESIZE);
  _ ← assert_phys_base phys;
  aligned ← lift (is_aligned virt_base ARCH_PAGESIZE);
  _ ← massert (negb aligned);
  if SIZE_MAX / ARCH_PAGESIZE <? page_count then mret NULL
  else
    let actualsize := u32 (ARCH_PAGESIZE * page_count) in
    if u32 (UINTPTR_MAX - virt_base) <? actualsize then mret NULL
    else
      let end0 := u32 (u32 (virt_base + actualsize) - 1) in
      newobject ← create_object self 0 0 phys flags;
      rightobject ← create_object self 0 0 VMM_PHYSADDR_NOMAP 0;
      uobject ← create_uncommited_object newobject page_count;
      let fail_oom lobject :=
        _ ← free uobject; _ ← free newobject; _ ← free lobject; _ ← free rightobject; mret NULL in
      if (newobject =? NULL) || (rightobject =? NULL) || (uobject =? NULL) then fail_oom NULL
      else
        lobject ← take_object_including self virt_base end0;
        if lobject =? NULL then fail_oom NULL
        else
          l ← read_object lobject;
          let old_end := end_ l in
          let newsize := u32 (page_count * ARCH_PAGESIZE) in
          _ ← modify_object newobject (with_start virt_base);
          _ ← modify_object newobject (λ n, with_end (u32 (u32 (start n + newsize) - 1)) n);
          _ ← modify_object lobject (with_end (u32 (virt_base - 1)));
          _ ← modify_object rightobject (with_start (u32 (virt_base + newsize)));
          _ ← modify_object rightobject (with_end old_end);
          _ ← put_back self lobject;
          _ ← put_back self rightobject;
          _ ← update_uncommited self (λ l, list_insert_back l uobject uobject);
          mret newobject.

Definition vmm_alloc_object_at (self virt_base phys size flags : Z) : VM Z :=
  prev_interrupts ← irq_disable;
  newobject ← alloc_object_at self virt_base phys size flags;
  _ ← irq_restore prev_interrupts;
  mret newobject.

Definition vmm_alloc (self size flags : Z) : VM Z := vmm_alloc_object self VMM_PHYSADDR_NOMAP size flags.
Definition vmm_alloc_at (self virt_base size flags : Z) : VM Z :=
  vmm_alloc_object_at self virt_base VMM_PHYSADDR_NOMAP size flags.
Definition vmm_map_mem (self phys size flags : Z) : VM Z :=
  _ ← massert (negb (phys =? VMM_PHYSADDR_NOMAP));
  vmm_alloc_object self phys size flags.
Definition vmm_map_memory_at (self virt_base phys size flags : Z) : VM Z :=
  _ ← massert (negb (phys =? VMM_PHYSADDR_NOMAP));
  vmm_alloc_object_at self virt_base phys size flags.

Definition vmm_ezmap (base size : Z) : VM Z :=
  let offset := base mod ARCH_PAGESIZE in
  let pagebase := base - offset in
  let actualsize := u32 (size + offset) in
  self ← vmm_get_kernel_address_space;
  object ← vmm_map_mem self pagebase actualsize (Z.lor MAP_PROT_READ MAP_PROT_WRITE);
  if object =? NULL then throw Panic
  else o ← read_object object; mret (u32 (start o + offset)).

(** ** Freeing *)

(** [pmm_free] of one page. *)
Definition free_page (physaddr : Z) : M (mmu P) unit := λ m,
  match page_free physaddr 1 (pages m) with Ok (_, p) => Ok (tt, with_pages p m) | Fault f => Fault f end.

(** One page of an object: free and unmap it if it is committed. *)
Definition release_page (phys ptr : Z) : VM unit :=
  r ← in_mmu (arch_mmu_virtual_to_physical ptr);
  match r with
  | inl _ => mret tt
  | inr physaddr =>
      _ ← (if phys =? VMM_PHYSADDR_NOMAP then in_mmu (free_page physaddr) else mret tt);
      ret ← in_mmu (arch_mmu_unmap ptr 1);
      if ret <? 0 then throw Panic else mret tt
  end.

(** What [vmm_free] does with the bitmap of the object, and with its pages. *)
Definition release_uobject (o : vmm_object) : VM unit :=
  uobject ← find_object_in_uncommited (address_space o) (start o);
  if negb (uobject =? NULL) then
    _ ← update_uncommited (address_space o) (λ l, list_remove_node l uobject);
    free uobject
  else mret tt.

Definition release_pages (o : vmm_object) : VM unit :=
  loop_m (2 + Z.to_nat ((end_ o - start o) / ARCH_PAGESIZE)) (λ ptr,
    if ptr <=? end_ o then
      _ ← release_page (phys_base o) ptr;
      mret (inl (u32 (ptr + ARCH_PAGESIZE)))
    else mret (inr tt)) (start o).

Definition vmm_free (object : Z) : VM unit :=
  prev_interrupts ← irq_disable;
  o ← read_object object;
  _ ← release_uobject o;
  _ ← release_pages o;
  _ ← add_object_to_address_space (address_space o) object;
  irq_restore prev_interrupts.

(** ** Page faults *)

Definition commit_page (uobject page_base : Z) : VM unit :=
  u ← read_uobject uobject;
  o ← read_object (object u);
  let page_index := s32 (u32 (page_base - start o) / ARCH_PAGESIZE) in
  uncommited ← lift (bitmap_is_bit_set (committed_bitmap u) page_index);
  if negb uncommited then throw Panic
  else
    b ← lift (bitmap_clear_bit (committed_bitmap u) page_index);
    _ ← write_uobject uobject (with_bitmap b u);
    physaddr ← (if negb (phys_base o =? VMM_PHYSADDR_NOMAP)
                then mret (u32 (phys_base o + u32 (page_index * ARCH_PAGESIZE)))
                else
                  physaddr ← in_mmu alloc_page;
                  if physaddr =? 0 then throw Panic else mret physaddr);
    a ← read_space (address_space o);
    ret ← in_mmu (arch_mmu_map page_base physaddr 1 (mapflags o) (is_user a));
    if ret <? 0 then throw Panic
    else
      first ← lift (bitmap_find_first_set_bit b 0);
      if first <? 0 then
        _ ← update_uncommited (address_space o) (λ l, list_remove_node l uobject);
        free uobject
      else mret tt.

(** A fault that is not handled stops the kernel. *)
Definition vmm_page_fault (ptr : Z) (was_present was_write was_user : bool) : VM unit :=
  page_base ← lift (align_ptr_down ptr ARCH_PAGESIZE);
  r ← in_mmu (arch_mmu_emulate ptr (if was_write then Z.lor MAP_PROT_READ MAP_PROT_WRITE else MAP_PROT_READ) was_user);
  match r with
  | inr _ => in_mmu (arch_mmu_flush_tlb_for ptr)
  | inl _ =>
      if was_present then throw Panic
      else if page_base =? 0 then throw Panic
      else
        address_space ← vmm_get_address_space_of page_base;
        if address_space =? NULL then throw Panic
        else
          uobject ← find_object_in_uncommited address_space ptr;
          if uobject =? NULL then throw Panic else commit_page uobject page_base
  end.

End Operations.
