(* ===== verification/VmmLists.v ===== *)
(** The two lists of an address space in the memory of the virtual memory
    manager: what Vmm.v does to them, as operations on sequences of objects,
    and the objects that are on neither. *)
From S2P Require Import Prelude MiscMath Bitmap CList Arch HeapIface PmmIface Mmu Vmm.

(** The data of a node is the address of the object, which is that of the node. *)
Definition selves (l : list Z) : list (Z * Z) := (λ p, (p, p)) <$> l.
Definition head_or_null (l : list Z) : Z := match l with [] => NULL | p :: _ => p end.

Lemma addrs_selves l : addrs (selves l) = l.
Proof. unfold selves. rewrite <- list_fmap_compose. apply list_fmap_id. Qed.
Lemma selves_app l1 l2 : selves (l1 ++ l2) = selves l1 ++ selves l2.
Proof. apply fmap_app. Qed.
Lemma first_or_selves l : first_or NULL (selves l) = head_or_null l.
Proof. by destruct l. Qed.

Lemma dll_frame st st' l xs : (∀ p, p ∈ addrs xs → st' !! p = st !! p) → dll st l xs → dll st' l xs.
Proof. intros Hf [? ? ? ? Hs]. split; [done..|]. by apply (dlseg_frame st). Qed.

Lemma dlseg_node st b xs a p : dlseg st b xs a → p ∈ addrs xs → is_Some (st !! p).
Proof.
  revert b. induction xs as [|[q e] xs IH]; intros b; cbn; [by intros _ ?%not_elem_of_nil|].
  intros [Hq Hs] [->|Hp]%elem_of_cons; [by eexists|by eapply IH].
Qed.

Section Lists.
Context {H P : Type} `{!HeapOps H, !HeapLaws H, !PmmOps P}.
Local Abbreviation vmm := (vmm H P).
Implicit Types s : vmm.

(** The free regions [fs] and the uncommitted objects [us] of a space, front
    first; [ls] are objects that are on neither list. *)
Record lists_ok s (sp : Z) (a : vmm_address_space) (fs us ls : list Z) : Prop := {
  lk_space : spaces s !! sp = Some a;
  lk_free : dll (list_nodes s) (object_list a) (selves fs);
  lk_uncommited : dll (list_nodes s) (uncommited_objects a) (selves us);
  lk_nodup : NoDup (fs ++ us ++ ls);
  lk_nodes p : p ∈ fs ++ us ++ ls → is_Some (list_nodes s !! p);
  lk_heap p : p ∈ fs ++ us ++ ls → in_use (heap s) p;
}.

Lemma lists_ok_perm s sp a fs us ls ls' : ls ≡ₚ ls' → lists_ok s sp a fs us ls → lists_ok s sp a fs us ls'.
Proof using Type.
  intros Hp [Hs Hf Hu Hnd Hn Hh]. split; [done..| | |].
  - by rewrite <- Hp.
  - intros p. rewrite <- Hp. apply Hn.
  - intros p. rewrite <- Hp. apply Hh.
Qed.

Lemma lists_not_null s sp a fs us ls p : lists_ok s sp a fs us ls → p ∈ fs ++ us ++ ls → p ≠ NULL.
Proof using Type. intros Hl Hp ->. by eapply heap_null, (lk_heap _ _ _ _ _ _ Hl). Qed.

(** Only the links are changed. *)
Definition relinked (sp : Z) (a : vmm_address_space) (n : nodes) s : vmm :=
  with_spaces (<[sp := a]> (spaces s)) (with_list_nodes n s).

Lemma relinked_relinked sp a n a' n' s : relinked sp a' n' (relinked sp a n s) = relinked sp a' n' s.
Proof using Type. unfold relinked, with_spaces, with_list_nodes. cbn. by rewrite insert_insert_eq. Qed.

(** Changing one of the lists, with nodes that become part of it or leave it. *)
Lemma relink_free s sp a fs us ls l' n fs' ls' ps :
  lists_ok s sp a fs us ls → dll n l' (selves fs') → frame ps (list_nodes s) n →
  (∀ p, p ∈ ps → p ∈ fs') → fs' ++ ls' ≡ₚ fs ++ ls →
  lists_ok (relinked sp (with_object_list l' a) n s) sp (with_object_list l' a) fs' us ls'.
Proof using Type.
  intros [Hs Hf Hu Hnd Hn Hh] Hd Hfr Hps Hperm. assert (fs' ++ us ++ ls' ≡ₚ fs ++ us ++ ls) as Hall.
  { by rewrite !(Permutation_app_swap_app _ us), Hperm. }
  assert (NoDup (fs' ++ us ++ ls')) as Hnd' by (by rewrite Hall).
  assert (∀ p, p ∈ us ++ ls' → n !! p = list_nodes s !! p) as Hout.
  { intros p Hp. apply Hfr. intros Hin%Hps. apply NoDup_app in Hnd' as (_ & Hdis & _). by apply (Hdis p). }
  split; cbn; [by rewrite lookup_insert_eq|done| |done| |].
  - eapply dll_frame; [|done]. intros p. rewrite addrs_selves. intros Hp. apply Hout. set_solver.
  - intros p [Hp|Hp]%elem_of_app.
    + eapply dlseg_node; [by apply Hd|by rewrite addrs_selves].
    + rewrite Hout by done. apply Hn. rewrite <- Hall. set_solver.
  - intros p. rewrite Hall. apply Hh.
Qed.

Lemma relink_uncommited s sp a fs us ls l' n us' ls' ps :
  lists_ok s sp a fs us ls → dll n l' (selves us') → frame ps (list_nodes s) n →
  (∀ p, p ∈ ps → p ∈ us') → us' ++ ls' ≡ₚ us ++ ls →
  lists_ok (relinked sp (with_uncommited l' a) n s) sp (with_uncommited l' a) fs us' ls'.
Proof using Type.
  intros [Hs Hf Hu Hnd Hn Hh] Hd Hfr Hps Hperm. assert (fs ++ us' ++ ls' ≡ₚ fs ++ us ++ ls) as Hall by (by rewrite Hperm).
  assert (NoDup (fs ++ us' ++ ls')) as Hnd' by (by rewrite Hall).
  assert (∀ p, p ∈ fs ++ ls' → n !! p = list_nodes s !! p) as Hout.
  { intros p Hp. apply Hfr. intros Hin%Hps. apply NoDup_app in Hnd' as (_ & Hdis & (_ & Hdis' & _)%NoDup_app).
    apply elem_of_app in Hp as [Hp|Hp]; [apply (Hdis p Hp); set_solver|by apply (Hdis' p)]. }
  split; cbn; [by rewrite lookup_insert_eq| |done|done| |].
  - eapply dll_frame; [|done]. intros p. rewrite addrs_selves. intros Hp. apply Hout. set_solver.
  - intros p Hp. destruct (decide (p ∈ us')) as [Hin|Hnin].
    + eapply dlseg_node; [by apply Hd|by rewrite addrs_selves].
    + rewrite Hout by set_solver. apply Hn. by rewrite <- Hall.
  - intros p. rewrite Hall. apply Hh.
Qed.

(** A node on no list is fresh. *)
Lemma fresh_for_free s sp a fs us ls p : lists_ok s sp a fs us (p :: ls) → fresh (list_nodes s) p (selves fs).
Proof using Type.
  intros Hl. unfold fresh. split; [|split].
  - apply (lk_nodes _ _ _ _ _ _ Hl). set_solver.
  - rewrite addrs_selves. intros Hin. pose proof (lk_nodup _ _ _ _ _ _ Hl) as (_ & Hdis & _)%NoDup_app.
    apply (Hdis p Hin). set_solver.
  - eapply lists_not_null; [done|set_solver].
Qed.
Lemma fresh_for_uncommited s sp a fs us ls p : lists_ok s sp a fs us (p :: ls) → fresh (list_nodes s) p (selves us).
Proof using Type.
  intros Hl. unfold fresh. split; [|split].
  - apply (lk_nodes _ _ _ _ _ _ Hl). set_solver.
  - rewrite addrs_selves. intros Hin. pose proof (lk_nodup _ _ _ _ _ _ Hl) as (_ & _ & (_ & Hdis & _)%NoDup_app)%NoDup_app.
    apply (Hdis p Hin). set_solver.
  - eapply lists_not_null; [done|set_solver].
Qed.

Lemma update_object_list_eq s sp a op l' n : spaces s !! sp = Some a → op (object_list a) (list_nodes s) = Ok (l', n) →
  update_object_list sp op s = Ok (tt, relinked sp (with_object_list l' a) n s).
Proof using Type.
  intros Ha Hop. unfold update_object_list, update_list, read_space, in_nodes, write_space, mbind, M_bind.
  rewrite Ha, Hop. cbn. by rewrite Ha.
Qed.
Lemma update_uncommited_eq s sp a op l' n : spaces s !! sp = Some a → op (uncommited_objects a) (list_nodes s) = Ok (l', n) →
  update_uncommited sp op s = Ok (tt, relinked sp (with_uncommited l' a) n s).
Proof using Type.
  intros Ha Hop. unfold update_uncommited, update_list, read_space, in_nodes, write_space, mbind, M_bind.
  rewrite Ha, Hop. cbn. by rewrite Ha.
Qed.

(** ** Moving objects between the lists *)

Lemma take_object_ok s sp a f1 p f2 us ls : lists_ok s sp a (f1 ++ p :: f2) us ls →
  ∃ l' n, take_object sp p s = Ok (p, relinked sp (with_object_list l' a) n s) ∧
    lists_ok (relinked sp (with_object_list l' a) n s) sp (with_object_list l' a) (f1 ++ f2) us (p :: ls).
Proof using Type.
  intros Hl. pose proof (lk_free _ _ _ _ _ _ Hl) as Hd. rewrite selves_app in Hd.
  destruct (remove_node_ok _ _ _ _ _ _ Hd) as (l' & n & Hr & Hd' & Hfr). exists l', n. split.
  - unfold take_object. by rewrite (M_bind_step _ _ _ _ _ (update_object_list_eq s sp a _ _ _ (lk_space _ _ _ _ _ _ Hl) Hr)).
  - eapply relink_free; [done|by rewrite selves_app|done| |].
    + intros q. rewrite <- fmap_app, <- selves_app, addrs_selves. done.
    + rewrite <- !(assoc_L (++)). by rewrite (Permutation_middle f2 ls p).
Qed.

Lemma insert_free_back_ok s sp a fs us p ls : lists_ok s sp a fs us (p :: ls) →
  ∃ l' n, update_object_list sp (λ l, list_insert_back l p p) s = Ok (tt, relinked sp (with_object_list l' a) n s) ∧
    lists_ok (relinked sp (with_object_list l' a) n s) sp (with_object_list l' a) (fs ++ [p]) us ls.
Proof using Type.
  intros Hl. destruct (insert_back_ok _ _ _ p p (lk_free _ _ _ _ _ _ Hl) (fresh_for_free _ _ _ _ _ _ _ Hl)) as (l' & n & Hr & Hd & Hfr).
  exists l', n. split; [by apply update_object_list_eq; [apply Hl|]|].
  eapply relink_free; [done|by rewrite selves_app|done| |by rewrite <- (assoc_L (++))].
  intros q. rewrite addrs_selves. set_solver.
Qed.

Lemma insert_free_after_ok s sp a f1 q f2 us p ls : lists_ok s sp a (f1 ++ q :: f2) us (p :: ls) →
  ∃ l' n, update_object_list sp (λ l, list_insert_after l q p p) s = Ok (tt, relinked sp (with_object_list l' a) n s) ∧
    lists_ok (relinked sp (with_object_list l' a) n s) sp (with_object_list l' a) (f1 ++ q :: p :: f2) us ls.
Proof using Type.
  intros Hl. pose proof (lk_free _ _ _ _ _ _ Hl) as Hd. pose proof (fresh_for_free _ _ _ _ _ _ _ Hl) as Hfresh.
  rewrite selves_app in Hd, Hfresh.
  destruct (insert_after_ok _ _ (selves f1) q q (selves f2) p p Hd Hfresh) as (l' & n & Hr & Hd' & Hfr).
  exists l', n. split; [by apply update_object_list_eq; [apply Hl|]|].
  eapply relink_free; [done|by rewrite selves_app|done| |].
  - intros r. replace (selves f1 ++ (q, q) :: selves f2) with (selves (f1 ++ q :: f2)) by (by rewrite selves_app). rewrite addrs_selves. set_solver.
  - rewrite <- !(assoc_L (++)). cbn. by rewrite (Permutation_middle f2 ls p).
Qed.

Lemma insert_uncommited_back_ok s sp a fs us p ls : lists_ok s sp a fs us (p :: ls) →
  ∃ l' n, update_uncommited sp (λ l, list_insert_back l p p) s = Ok (tt, relinked sp (with_uncommited l' a) n s) ∧
    lists_ok (relinked sp (with_uncommited l' a) n s) sp (with_uncommited l' a) fs (us ++ [p]) ls.
Proof using Type.
  intros Hl. destruct (insert_back_ok _ _ _ p p (lk_uncommited _ _ _ _ _ _ Hl) (fresh_for_uncommited _ _ _ _ _ _ _ Hl)) as (l' & n & Hr & Hd & Hfr).
  exists l', n. split; [by apply update_uncommited_eq; [apply Hl|]|].
  eapply relink_uncommited; [done|by rewrite selves_app|done| |by rewrite <- (assoc_L (++))].
  intros q. rewrite addrs_selves. set_solver.
Qed.

Lemma remove_uncommited_ok s sp a fs u1 p u2 ls : lists_ok s sp a fs (u1 ++ p :: u2) ls →
  ∃ l' n, update_uncommited sp (λ l, list_remove_node l p) s = Ok (tt, relinked sp (with_uncommited l' a) n s) ∧
    lists_ok (relinked sp (with_uncommited l' a) n s) sp (with_uncommited l' a) fs (u1 ++ u2) (p :: ls).
Proof using Type.
  intros Hl. pose proof (lk_uncommited _ _ _ _ _ _ Hl) as Hd. rewrite selves_app in Hd.
  destruct (remove_node_ok _ _ _ _ _ _ Hd) as (l' & n & Hr & Hd' & Hfr). exists l', n. split.
  - apply update_uncommited_eq; [apply Hl|done].
  - eapply relink_uncommited; [done|by rewrite selves_app|done| |].
    + intros q. rewrite <- fmap_app, <- selves_app, addrs_selves. done.
    + rewrite <- !(assoc_L (++)). by rewrite (Permutation_middle u2 ls p).
Qed.

(** ** Walking over a list *)

Lemma free_front s sp a fs us ls : lists_ok s sp a fs us ls → front (object_list a) = head_or_null fs.
Proof using Type. intros Hl. rewrite <- first_or_selves. apply (lk_free _ _ _ _ _ _ Hl). Qed.
Lemma uncommited_front s sp a fs us ls : lists_ok s sp a fs us ls → front (uncommited_objects a) = head_or_null us.
Proof using Type. intros Hl. rewrite <- first_or_selves. apply (lk_uncommited _ _ _ _ _ _ Hl). Qed.

Lemma free_node s sp a f1 p f2 us ls : lists_ok s sp a (f1 ++ p :: f2) us ls →
  ∃ b, list_nodes s !! p = Some (ListNode (head_or_null f2) b p).
Proof using Type.
  intros Hl. pose proof (lk_free _ _ _ _ _ _ Hl) as Hd. rewrite selves_app in Hd.
  apply dll_split in Hd as (_ & Hp & _). rewrite first_or_selves in Hp. by eexists.
Qed.
Lemma uncommited_node s sp a fs u1 p u2 ls : lists_ok s sp a fs (u1 ++ p :: u2) ls →
  ∃ b, list_nodes s !! p = Some (ListNode (head_or_null u2) b p).
Proof using Type.
  intros Hl. pose proof (lk_uncommited _ _ _ _ _ _ Hl) as Hd. rewrite selves_app in Hd.
  apply dll_split in Hd as (_ & Hp & _). rewrite first_or_selves in Hp. by eexists.
Qed.

Lemma load_node_eq s p n : list_nodes s !! p = Some n → in_nodes (load p) s = Ok (n, s).
Proof using Type. intros Hp. unfold in_nodes, load. rewrite Hp. by destruct s. Qed.
Lemma next_of_eq s p n : list_nodes s !! p = Some n → next_of p s = Ok (next n, s).
Proof using Type. intros Hp. unfold next_of. by rewrite (M_bind_step _ _ _ _ _ (load_node_eq s p n Hp)). Qed.

(** The fuel is enough for either list. *)
Lemma list_fuel_ok s sp a fs us ls (l : list Z) : lists_ok s sp a fs us ls → NoDup l → (∀ p, p ∈ l → p ∈ fs ++ us ++ ls) →
  (length l < S (size (list_nodes s)))%nat.
Proof using Type.
  intros Hl Hnd Hin. apply le_n_S. rewrite <- (size_list_to_set (C := gset Z) l Hnd), <- (size_dom (D := gset Z)).
  apply subseteq_size. intros p Hp%elem_of_list_to_set. apply elem_of_dom, (lk_nodes _ _ _ _ _ _ Hl). by apply Hin.
Qed.

(** ** The heap *)

Lemma lists_ok_heap s sp a fs us ls h : lists_ok s sp a fs us ls → (∀ p, in_use (heap s) p → in_use h p) →
  lists_ok (with_heap h s) sp a fs us ls.
Proof using Type. intros [? ? ? ? ? Hh] Hin. split; cbn; [done..|]. intros p Hp. by apply Hin, Hh. Qed.

Lemma lists_ok_new s sp a fs us ls h p n : lists_ok s sp a fs us ls → (∀ p, in_use (heap s) p → in_use h p) →
  ¬ in_use (heap s) p → in_use h p →
  lists_ok (with_list_nodes (<[p := n]> (list_nodes s)) (with_heap h s)) sp a fs us (p :: ls).
Proof using Type.
  intros [Hs Hf Hu Hnd Hn Hh] Hin Hnew Hp. assert (p ∉ fs ++ us ++ ls) as Hout by (intros Hi%Hh; done).
  split; cbn; [done| | | | |].
  - eapply dll_frame; [|done]. intros q. rewrite addrs_selves. intros Hq. apply lookup_insert_ne. set_solver.
  - eapply dll_frame; [|done]. intros q. rewrite addrs_selves. intros Hq. apply lookup_insert_ne. set_solver.
  - rewrite !(assoc_L (++)), <- Permutation_middle, <- (assoc_L (++)). by apply NoDup_cons.
  - intros q Hq. destruct (decide (q = p)) as [->|]; [by rewrite lookup_insert_eq|].
    rewrite lookup_insert_ne by done. apply Hn. set_solver.
  - intros q Hq. destruct (decide (q = p)) as [->|]; [done|]. apply Hin, Hh. set_solver.
Qed.

Definition forget (p : Z) s : vmm :=
  Vmm (delete p (list_nodes s)) (delete p (objects s)) (delete p (uobjects s))
    (spaces s) (initialized s) (heap s) (machine s).

Lemma free_ok s sp a fs us p ls : lists_ok s sp a fs us (p :: ls) →
  ∃ h, free p s = Ok (tt, with_heap h (forget p s)) ∧ lists_ok (with_heap h (forget p s)) sp a fs us ls.
Proof using Type.
  intros [Hs Hf Hu Hnd Hn Hh]. destruct (heap_free_law p (heap s)) as (h & E & Hin); [right; apply Hh; set_solver|].
  exists h. split.
  - unfold free, in_heap, update, mbind, M_bind. by rewrite E.
  - rewrite (assoc_L (++)), <- Permutation_middle, <- (assoc_L (++)) in Hnd. apply NoDup_cons in Hnd as [Hout Hnd].
    split; cbn; [done| | |done| |].
    + eapply dll_frame; [|done]. intros q. rewrite addrs_selves. intros Hq. apply lookup_delete_ne. set_solver.
    + eapply dll_frame; [|done]. intros q. rewrite addrs_selves. intros Hq. apply lookup_delete_ne. set_solver.
    + intros q Hq. rewrite lookup_delete_ne by set_solver. apply Hn. set_solver.
    + intros q Hq. apply Hin; [set_solver|]. apply Hh. set_solver.
Qed.
End Lists.
