(* ===== verification/VmmRegions.v ===== *)
(** The regions of an address space: their geometry, and the operations of
    Vmm.v that look for a region, take it off the list of the free ones and
    put it back. *)
From S2P Require Import Prelude MiscMath Bitmap CList Arch HeapIface PmmIface Mmu Vmm VmmLists.

(** ** Geometry *)

Definition first_page (o : vmm_object) : Z := start o / 4096.
Definition npages (o : vmm_object) : Z := (end_ o - start o + 1) / 4096.

(** A region is a range of whole pages. *)
Record object_wf (o : vmm_object) : Prop := {
  wf_start : start o mod 4096 = 0;
  wf_end : (end_ o + 1) mod 4096 = 0;
  wf_positive : 0 < start o;
  wf_ordered : start o ≤ end_ o;
  wf_limit : end_ o < 2 ^ 32 - 1;
}.

Lemma object_wf_eq o : object_wf o →
  start o = 4096 * first_page o ∧ end_ o = 4096 * (first_page o + npages o) - 1 ∧
  0 < first_page o ∧ 0 < npages o ∧ first_page o + npages o < 2 ^ 20.
Proof.
  intros [Hs He Hp Ho Hl]. unfold first_page, npages. change (2 ^ 20) with 1048576. change (2 ^ 32) with 4294967296 in Hl. dlia.
Qed.

Lemma vmm_get_object_size_eq o : object_wf o → vmm_get_object_size o = 4096 * npages o.
Proof.
  intros Hwf. destruct (object_wf_eq o Hwf) as (Es & Ee & H0 & Hn & Hl). change (2 ^ 20) with 1048576 in Hl.
  unfold vmm_get_object_size. rewrite !(u32_small) by (rewrite ?u32_small; change (2 ^ 32) with 4294967296; lia). lia.
Qed.

Lemma page_blocks n : size_to_blocks (4096 * n) ARCH_PAGESIZE = Ok n.
Proof.
  unfold size_to_blocks, ARCH_PAGESIZE. cbn [Z.eqb negb assert_ mbind res_bind].
  rewrite (Z.mul_comm 4096 n), Z.mod_mul, Z.div_mul by done. done.
Qed.

(** The pages of an object, and of several. *)
Definition opages (o : vmm_object) : list Z := seqZ (first_page o) (npages o).
Definition pages_at (os : gmap Z vmm_object) (p : Z) : list Z :=
  match os !! p with Some o => opages o | None => [] end.
Definition region_pages (os : gmap Z vmm_object) (l : list Z) : list Z := l ≫= pages_at os.

Lemma elem_of_opages o q : q ∈ opages o ↔ first_page o ≤ q < first_page o + npages o.
Proof. apply elem_of_seqZ. Qed.

Lemma object_page_wf o a : object_wf o → start o ≤ a ≤ end_ o ↔ a / 4096 ∈ opages o.
Proof. intros Hwf. rewrite elem_of_opages. destruct (object_wf_eq o Hwf) as (-> & -> & _). dlia. Qed.

Lemma region_pages_app os l1 l2 : region_pages os (l1 ++ l2) = region_pages os l1 ++ region_pages os l2.
Proof. apply bind_app. Qed.

Lemma elem_of_region_pages os l q : q ∈ region_pages os l ↔ ∃ p o, p ∈ l ∧ os !! p = Some o ∧ q ∈ opages o.
Proof.
  unfold region_pages. rewrite list_elem_of_bind. unfold pages_at. split.
  - intros (p & Hq & Hp). destruct (os !! p) as [o|] eqn:E; [by exists p, o|by apply elem_of_nil in Hq].
  - intros (p & o & Hp & E & Hq). exists p. by rewrite E.
Qed.

#[export] Instance region_pages_perm os : Proper ((≡ₚ) ==> (≡ₚ)) (region_pages os).
Proof. intros l1 l2 Hl. unfold region_pages. by rewrite Hl. Qed.

(** Changes of objects that are not among those looked at. *)
Lemma region_pages_ext os os' l : (∀ p, p ∈ l → os' !! p = os !! p) → region_pages os' l = region_pages os l.
Proof.
  intros Hp. induction l as [|p l IH]; [done|]. unfold region_pages in *. cbn. f_equal.
  - unfold pages_at. by rewrite Hp by set_solver.
  - apply IH. intros q Hq. apply Hp. set_solver.
Qed.

(** Two regions of a list without common pages. *)
Lemma region_pages_disjoint os p o l : NoDup (region_pages os (p :: l)) → os !! p = Some o →
  ∀ p' o' q, p' ∈ l → os !! p' = Some o' → q ∈ opages o → q ∈ opages o' → False.
Proof.
  intros Hnd Hp p' o' q Hp' E Hq Hq'. change (p :: l) with ([p] ++ l) in Hnd. rewrite region_pages_app in Hnd.
  apply NoDup_app in Hnd as (_ & Hdis & _). apply (Hdis q); apply elem_of_region_pages; [exists p, o|exists p', o'];
    (split; [set_solver|done]).
Qed.

Lemma disjoint_order o o' : object_wf o → object_wf o' → (∀ q, q ∈ opages o → q ∈ opages o' → False) →
  start o ≤ end_ o' → end_ o < start o'.
Proof.
  intros Hwf Hwf' Hdis Hle. destruct (object_wf_eq o Hwf) as (Es & Ee & _ & Hn & _). destruct (object_wf_eq o' Hwf') as (Es' & Ee' & _ & Hn' & _).
  destruct (Z.lt_ge_cases (end_ o) (start o')) as [|Hge]; [done|exfalso].
  apply (Hdis (Z.max (first_page o) (first_page o'))); apply elem_of_opages; lia.
Qed.

Section Regions.
Context {H P : Type} `{!HeapOps H, !HeapLaws H, !PmmOps P}.
Local Abbreviation vmm := (vmm H P).
Implicit Types s : vmm.

Definition has_object s (p : Z) (o : vmm_object) : Prop := objects s !! p = Some o ∧ object_wf o.

Lemma read_object_eq s p o : objects s !! p = Some o → read_object p s = Ok (o, s).
Proof using Type. intros Hp. unfold read_object. by rewrite Hp. Qed.
Lemma read_space_eq s sp a fs us ls : lists_ok s sp a fs us ls → read_space sp s = Ok (a, s).
Proof using Type. intros Hl. unfold read_space. by rewrite (lk_space _ _ _ _ _ _ Hl). Qed.
Lemma list_fuel_eq s : list_fuel s = Ok (S (size (list_nodes s)), s).
Proof using Type. done. Qed.

(** ** Looking for a region by its size *)

Section TakeMin.
Context (sp n : Z) (us ls : list Z).

Definition take_min_step : Z → M vmm (Z + Z) := λ object_node,
  if object_node =? NULL then mret (inr NULL)
  else
    n0 ← in_nodes (load object_node);
    _ ← massert (negb (data n0 =? NULL));
    o ← read_object (data n0);
    object_page_count ← lift (size_to_blocks (vmm_get_object_size o) ARCH_PAGESIZE);
    if object_page_count <? n then nx ← next_of object_node; mret (inl nx)
    else
      result ← take_object sp (data n0);
      mret (inr result).

Lemma take_min_step_eq s a f1 p f2 o : lists_ok s sp a (f1 ++ p :: f2) us ls → has_object s p o →
  take_min_step p s =
    if npages o <? n then Ok (inl (head_or_null f2), s)
    else match take_object sp p s with Ok (r, s') => Ok (inr r, s') | Fault f => Fault f end.
Proof using Type.
  intros Hl [Ho Hwf]. destruct (free_node _ _ _ _ _ _ _ _ Hl) as [b Hp].
  assert (p ≠ NULL) as Hnn by (eapply lists_not_null; [done|set_solver]). unfold take_min_step.
  destruct (Z.eqb_spec p NULL); [done|]. rewrite (M_bind_step _ _ _ _ _ (load_node_eq s p _ Hp)). cbn [data].
  destruct (Z.eqb_spec p NULL); [done|]. cbn [negb]. rewrite (M_bind_step _ _ s tt s) by done.
  rewrite (M_bind_step _ _ _ _ _ (read_object_eq s p o Ho)), vmm_get_object_size_eq by done.
  rewrite (M_bind_step _ _ s (npages o) s) by (unfold lift; by rewrite page_blocks).
  destruct (npages o <? n).
  - by rewrite (M_bind_step _ _ _ _ _ (next_of_eq s p _ Hp)).
  - unfold mbind, M_bind. by destruct (take_object sp p s) as [[r s']|].
Qed.

Definition too_small s (p : Z) : Prop := ∃ o, has_object s p o ∧ npages o < n.

Lemma take_min_walk s a f0 f1 f2 fuel : lists_ok s sp a (f0 ++ f1 ++ f2) us ls → (∀ p, p ∈ f1 → too_small s p) →
  (length (f1 ++ f2) < fuel)%nat → ∃ fuel', (length f2 < fuel')%nat ∧
  loop_m fuel take_min_step (head_or_null (f1 ++ f2)) s = loop_m fuel' take_min_step (head_or_null f2) s.
Proof using Type.
  revert f0 fuel. induction f1 as [|p f1 IH]; intros f0 fuel Hl Hsmall Hfuel; [by exists fuel|].
  destruct fuel as [|fuel]; [cbn in Hfuel; lia|]. destruct (Hsmall p) as (o & Ho & Hn); [set_solver|].
  destruct (IH (f0 ++ [p]) fuel) as (fuel' & Hf' & E).
  - by rewrite <- (assoc_L (++)).
  - intros p' Hp'. apply Hsmall. set_solver.
  - cbn in Hfuel. lia.
  - exists fuel'. split; [done|]. rewrite <- E. cbn [app head_or_null].
    assert (take_min_step p s = Ok (inl (head_or_null (f1 ++ f2)), s)) as Hs; [|by rewrite (loop_m_step _ _ _ _ _ _ Hs)].
    rewrite (take_min_step_eq s a f0 p (f1 ++ f2) o) by done. by rewrite (proj2 (Z.ltb_lt _ _) Hn).
Qed.
End TakeMin.

Lemma take_object_with_min_size_eq s sp a fs us ls n : lists_ok s sp a fs us ls → n ≠ 0 → fs ≠ [] →
  take_object_with_min_size sp n s = loop_m (S (size (list_nodes s))) (take_min_step sp n) (head_or_null fs) s.
Proof using Type.
  intros Hl Hn Hne. unfold take_object_with_min_size. destruct (Z.eqb_spec n 0); [done|]. cbn [negb].
  rewrite (M_bind_step _ _ s tt s) by done. rewrite (M_bind_step _ _ _ _ _ (read_space_eq _ _ _ _ _ _ Hl)).
  rewrite (free_front _ _ _ _ _ _ Hl). destruct fs as [|p fs]; [done|]. cbn [head_or_null].
  destruct (Z.eqb_spec p NULL) as [E|]; [by apply (lists_not_null _ _ _ _ _ _ p Hl) in E; set_solver|].
  done.
Qed.

(** Every region is too small. *)
Lemma take_min_none s sp a fs us ls n : lists_ok s sp a fs us ls → n ≠ 0 → fs ≠ [] →
  (∀ p, p ∈ fs → too_small n s p) → take_object_with_min_size sp n s = Ok (NULL, s).
Proof using Type.
  intros Hl Hn Hne Hsmall. rewrite (take_object_with_min_size_eq _ _ _ _ _ _ _ Hl Hn Hne).
  destruct (take_min_walk sp n us ls s a [] fs [] (S (size (list_nodes s)))) as (fuel & Hf & E).
  - by rewrite app_nil_r.
  - done.
  - rewrite app_nil_r. eapply list_fuel_ok; [done| |set_solver]. pose proof (lk_nodup _ _ _ _ _ _ Hl) as Hnd.
    by apply NoDup_app in Hnd as [? _].
  - rewrite app_nil_r in E. rewrite E. destruct fuel as [|fuel]; [cbn in Hf; lia|]. done.
Qed.

(** The first region that is large enough is taken off the list. *)
Lemma take_min_found s sp a f1 p f2 o us ls n : lists_ok s sp a (f1 ++ p :: f2) us ls → n ≠ 0 →
  (∀ p, p ∈ f1 → too_small n s p) → has_object s p o → n ≤ npages o →
  ∃ l' nn, take_object_with_min_size sp n s = Ok (p, relinked sp (with_object_list l' a) nn s) ∧
    lists_ok (relinked sp (with_object_list l' a) nn s) sp (with_object_list l' a) (f1 ++ f2) us (p :: ls).
Proof using Type.
  intros Hl Hn Hsmall Ho Hle. assert (f1 ++ p :: f2 ≠ []) as Hne by (by destruct f1).
  rewrite (take_object_with_min_size_eq _ _ _ _ _ _ _ Hl Hn Hne).
  destruct (take_min_walk sp n us ls s a [] f1 (p :: f2) (S (size (list_nodes s)))) as (fuel & Hf & ->); [done..| |].
  - eapply list_fuel_ok; [done| |set_solver]. pose proof (lk_nodup _ _ _ _ _ _ Hl) as Hnd. by apply NoDup_app in Hnd as [? _].
  - destruct fuel as [|fuel]; [cbn in Hf; lia|].
    destruct (take_object_ok s sp a f1 p f2 us ls Hl) as (l' & nn & E & Hl'). exists l', nn. split; [|done].
    assert (take_min_step sp n p s = Ok (inr p, relinked sp (with_object_list l' a) nn s)) as Hs;
      [|by rewrite (loop_m_step _ _ _ _ _ _ Hs)].
    rewrite (take_min_step_eq sp n us ls s a f1 p f2 o) by done.
    destruct (Z.ltb_spec (npages o) n); [lia|]. by rewrite E.
Qed.

(** ** Putting a region back *)

(** The last region of a list that ends before an address. *)
Definition last_before (os : gmap Z vmm_object) (a0 ia : Z) (l : list Z) : Z :=
  foldl (λ ia p, match os !! p with Some o => if end_ o <? a0 then p else ia | None => ia end) ia l.

Lemma last_before_spec os a0 l : (∀ p, p ∈ l → is_Some (os !! p)) →
  (last_before os a0 NULL l = NULL ∧ ∀ p o, p ∈ l → os !! p = Some o → a0 ≤ end_ o) ∨
  ∃ l1 r l2, last_before os a0 NULL l = r ∧ l = l1 ++ r :: l2 ∧ ∀ p o, p ∈ l2 → os !! p = Some o → a0 ≤ end_ o.
Proof using Type.
  induction l as [|p l IH] using rev_ind; intros Hos; [left; split; [done|set_solver]|].
  unfold last_before. rewrite foldl_app. cbn. fold (last_before os a0 NULL l).
  destruct (Hos p) as [o Ho]; [set_solver|]. rewrite Ho. destruct (Z.ltb_spec (end_ o) a0).
  - right. exists l, p, []. split; [done|]. split; [done|set_solver].
  - destruct IH as [[E Hall]|(l1 & r & l2 & E & -> & Hall)]; [intros q Hq; apply Hos; set_solver|left|right].
    + split; [done|]. intros q o' Hq E'. apply elem_of_app in Hq as [Hq|Hq]; [by eapply Hall|].
      apply list_elem_of_singleton in Hq as ->. congruence.
    + exists l1, r, (l2 ++ [p]). split; [done|]. split; [by rewrite <- (assoc_L (++))|].
      intros q o' Hq E'. apply elem_of_app in Hq as [Hq|Hq]; [by eapply Hall|].
      apply list_elem_of_singleton in Hq as ->. congruence.
Qed.

Definition find_after_step (a0 : Z) : Z * Z → M vmm (Z * Z + Z) := λ '(object_node, insert_after),
  if object_node =? NULL then mret (inr insert_after)
  else
    n ← in_nodes (load object_node);
    old_object ← in_nodes (list_get_data_or_null (data n));
    o ← read_object old_object;
    nx ← next_of object_node;
    mret (inl (nx, if end_ o <? a0 then old_object else insert_after)).

(** A node whose data is its own address. *)
Lemma get_data_eq s p nx b : p ≠ NULL → list_nodes s !! p = Some (ListNode nx b p) →
  in_nodes (list_get_data_or_null p) s = Ok (p, s).
Proof using Type.
  intros Hnn Hp. unfold in_nodes, list_get_data_or_null. destruct (Z.eqb_spec p NULL); [done|].
  rewrite (M_bind_step _ _ _ _ _ (load_eq _ _ _ Hp)). cbn [data]. destruct (Z.eqb_spec p NULL); [done|]. by destruct s.
Qed.

Lemma find_after_step_eq s p nx b o a0 ia : p ≠ NULL → list_nodes s !! p = Some (ListNode nx b p) → objects s !! p = Some o →
  find_after_step a0 (p, ia) s = Ok (inl (nx, if end_ o <? a0 then p else ia), s).
Proof using Type.
  intros Hnn Hp Ho. unfold find_after_step. destruct (Z.eqb_spec p NULL); [done|].
  rewrite (M_bind_step _ _ _ _ _ (load_node_eq s p _ Hp)). cbn [data].
  rewrite (M_bind_step _ _ _ _ _ (get_data_eq s p _ _ Hnn Hp)).
  by rewrite (M_bind_step _ _ _ _ _ (read_object_eq s p o Ho)), (M_bind_step _ _ _ _ _ (next_of_eq s p _ Hp)).
Qed.

Lemma find_insert_after_walk s sp a f1 f2 us ls a0 ia fuel : lists_ok s sp a (f1 ++ f2) us ls →
  (∀ p, p ∈ f2 → is_Some (objects s !! p)) → (length f2 < fuel)%nat →
  loop_m fuel (find_after_step a0) (head_or_null f2, ia) s = Ok (last_before (objects s) a0 ia f2, s).
Proof using Type.
  revert f1 ia fuel. induction f2 as [|p f2 IH]; intros f1 ia fuel Hl Hos Hfuel; (destruct fuel as [|fuel]; [cbn in Hfuel; lia|]).
  { done. }
  destruct (Hos p) as [o Ho]; [set_solver|]. destruct (free_node _ _ _ _ _ _ _ _ Hl) as [b Hp].
  assert (p ≠ NULL) as Hnn by (eapply lists_not_null; [done|set_solver]).
  rewrite (loop_m_step _ _ _ _ _ _ (find_after_step_eq s p _ b o a0 ia Hnn Hp Ho)).
  rewrite (IH (f1 ++ [p])); [|by rewrite <- (assoc_L (++))|intros q Hq; apply Hos; set_solver|cbn in Hfuel; lia].
  cbn [last_before foldl]. by rewrite Ho.
Qed.

Lemma find_insert_after_ok s sp a fs us ls a0 : lists_ok s sp a fs us ls → (∀ p, p ∈ fs → is_Some (objects s !! p)) →
  find_insert_after sp a0 s = Ok (last_before (objects s) a0 NULL fs, s).
Proof using Type.
  intros Hl Hos. unfold find_insert_after. rewrite (M_bind_step _ _ _ _ _ (read_space_eq _ _ _ _ _ _ Hl)).
  rewrite (M_bind_step _ _ _ _ _ (list_fuel_eq s)), (free_front _ _ _ _ _ _ Hl).
  apply (find_insert_after_walk s sp a [] fs us ls); [done|done|].
  eapply list_fuel_ok; [done| |set_solver]. pose proof (lk_nodup _ _ _ _ _ _ Hl) as Hnd. by apply NoDup_app in Hnd as [? _].
Qed.

(** A region that has no page in common with the free ones is put back: the
    test for a bad insertion never succeeds. *)
Lemma add_object_ok s sp a fs us p o ls : lists_ok s sp a fs us (p :: ls) → has_object s p o →
  (∀ q, q ∈ fs → ∃ o', has_object s q o' ∧ ∀ i, i ∈ opages o → i ∈ opages o' → False) →
  ∃ l' n fs', add_object_to_address_space sp p s = Ok (true, relinked sp (with_object_list l' a) n s) ∧
    lists_ok (relinked sp (with_object_list l' a) n s) sp (with_object_list l' a) fs' us ls ∧ fs' ≡ₚ p :: fs.
Proof using Type.
  intros Hl [Ho Hwf] Hfs. assert (∀ q, q ∈ fs → is_Some (objects s !! q)) as Hos.
  { intros q Hq. destruct (Hfs q Hq) as (o' & [? _] & _). by eexists. }
  unfold add_object_to_address_space. rewrite (M_bind_step _ _ _ _ _ (read_object_eq s p o Ho)), vmm_get_object_size_eq by done.
  rewrite (M_bind_step _ _ s true s).
  2: { unfold lift. rewrite is_aligned_eq by done. change ARCH_PAGESIZE with 4096. by rewrite Z.mul_comm, Z.mod_mul. }
  rewrite (M_bind_step _ _ s tt s) by done.
  rewrite (M_bind_step _ _ _ _ _ (find_insert_after_ok s sp a fs us (p :: ls) _ Hl Hos)).
  destruct (last_before_spec (objects s) (start o) fs Hos) as [[-> _]|(l1 & r & l2 & -> & -> & Hafter)].
  { destruct (insert_free_back_ok _ _ _ _ _ _ _ Hl) as (l' & n & E & Hl'). exists l', n, (fs ++ [p]). cbn [Z.eqb NULL].
    rewrite (M_bind_step _ _ _ _ _ E). split; [done|]. split; [done|]. by rewrite Permutation_app_comm. }
  destruct (free_node _ _ _ _ _ _ _ _ Hl) as [b Hr].
  assert (r ≠ NULL) as Hrn by (eapply lists_not_null; [done|set_solver]). destruct (Z.eqb_spec r NULL); [done|].
  rewrite (M_bind_step _ _ _ _ _ (next_of_eq s r _ Hr)). cbn [next].
  destruct (insert_free_after_ok _ _ _ _ _ _ _ _ _ Hl) as (l' & n' & E & Hl'). exists l', n', (l1 ++ r :: p :: l2).
  assert (l1 ++ r :: p :: l2 ≡ₚ p :: l1 ++ r :: l2) as Hperm by (by rewrite !(Permutation_middle l1), (perm_swap p r)).
  destruct l2 as [|q l2]; cbn [head_or_null].
  { rewrite (M_bind_step _ _ s NULL s) by (by destruct s). rewrite (M_bind_step _ _ s false s) by done.
    rewrite (M_bind_step _ _ _ _ _ E). done. }
  assert (l1 ++ r :: q :: l2 = (l1 ++ [r]) ++ q :: l2) as El by (by rewrite <- (assoc_L (++))).
  destruct (free_node s sp a (l1 ++ [r]) q l2 us (p :: ls)) as [b' Hq]; [by rewrite <- El|].
  assert (q ≠ NULL) as Hqn by (eapply lists_not_null; [done|set_solver]).
  destruct (Hfs q) as (o' & [Ho' Hwf'] & Hdis); [set_solver|].
  rewrite (M_bind_step _ _ _ _ _ (get_data_eq s q _ _ Hqn Hq)).
  destruct (Z.eqb_spec q NULL); [done|]. cbn [negb].
  rewrite (M_bind_step _ _ s false s).
  2: { rewrite (M_bind_step _ _ _ _ _ (read_object_eq s q o' Ho')). unfold mret, M_ret. do 2 f_equal.
       apply Z.ltb_ge. enough (end_ o < start o') by lia. apply disjoint_order; [done..|]. eapply Hafter; [|done]. set_solver. }
  rewrite (M_bind_step _ _ _ _ _ E). done.
Qed.

(** ** Creating objects *)

(** The bitmap of an object none of whose pages are committed. *)
Lemma all_uncommited_ok n : 0 ≤ n < 2 ^ 20 → ∃ wc b, bitmap_needed_word_count n = Ok wc ∧ 0 ≤ wc ≤ 2 ^ 15 ∧
  bitmap_set_bits (Bitmap (replicate (Z.to_nat wc) 0) wc) 0 n = Ok b ∧ bitmap_wf b ∧ n ≤ word_count b * BITS_PER_WORD ∧
  ∀ i, bit b i = bool_decide (0 ≤ i < n).
Proof using Type.
  clear. intros Hn. change (2 ^ 20) with 1048576 in Hn. change (2 ^ 15) with 32768. set (wc := (n + 31) / 32).
  assert (0 ≤ wc ≤ 32768 ∧ n ≤ wc * 32) as [Hwc Hle] by (unfold wc; dlia).
  set (b0 := Bitmap (replicate (Z.to_nat wc) 0) wc).
  assert (bitmap_wf b0) as Hwf0.
  { split; cbn; [rewrite length_replicate; lia|by apply Forall_replicate|]. change (2 ^ 31) with 2147483648. unfold BITS_PER_WORD. lia. }
  destruct (set_bits_ok b0 0 n Hwf0) as (b & Hb & Hwf & Hwcb & Hbits); [done|lia|change (2 ^ 32) with 4294967296; lia|].
  exists wc, b. split.
  { unfold bitmap_needed_word_count. rewrite size_to_blocks_eq by done. do 2 f_equal. unfold BITS_PER_WORD. lia. }
  split; [done|]. split; [done|]. split; [done|]. split; [by rewrite Hwcb|]. intros i. rewrite Hbits.
  assert (bit b0 i = false) as ->.
  { unfold bit. cbn. destruct (Z.leb_spec 0 i); [|done]. cbn. destruct (replicate _ _ !! _) as [w|] eqn:E; [|done].
    apply lookup_replicate in E as [-> _]. apply Z.bits_0. }
  change (word_count b0) with wc. unfold BITS_PER_WORD. case_bool_decide; zcase; cbn; (done || lia).
Qed.

Definition new_object (p : Z) (o : vmm_object) (h : H) s : vmm :=
  with_objects (<[p := o]> (objects s)) (with_list_nodes (<[p := ListNode 0 0 0]> (list_nodes s)) (with_heap h s)).

Lemma create_object_ok s sp a fs us ls sp' st en ph fl : lists_ok s sp a fs us ls →
  wp (create_object sp' st en ph fl) s (λ p s', ∃ h, heap_alloc SIZEOF_VMM_OBJECT HEAP_FLAG_ZEROMEMORY (heap s) = Ok (p, h) ∧
    (p = NULL ∧ s' = with_heap h s ∧ lists_ok s' sp a fs us ls ∨
     p ≠ NULL ∧ s' = new_object p (VmmObject sp' st en ph fl) h s ∧ lists_ok s' sp a fs us (p :: ls) ∧ p ∉ fs ++ us ++ ls)).
Proof using Type.
  intros Hl. destruct (heap_alloc_law SIZEOF_VMM_OBJECT HEAP_FLAG_ZEROMEMORY (heap s)) as (p & h & E & Hkeep & Hp).
  unfold create_object. apply wp_bind. exists p, (with_heap h s). split; [unfold in_heap; by rewrite E|].
  destruct (Z.eqb_spec p NULL) as [->|Hnn].
  - apply wp_ret. exists h. split; [done|]. left. split; [done|]. split; [done|]. by apply lists_ok_heap.
  - destruct Hp as [?|[Hnew Hin]]; [done|]. eexists p, _. split; [reflexivity|]. exists h. split; [done|]. right.
    split; [done|]. split; [done|]. split.
    + destruct (lists_ok_new s sp a fs us ls h p (ListNode 0 0 0) Hl Hkeep Hnew Hin). by split.
    + intros Hi. by apply Hnew, (lk_heap _ _ _ _ _ _ Hl).
Qed.

Definition new_uobject (p : Z) (u : uncommited_object) (h : H) s : vmm :=
  with_uobjects (<[p := u]> (uobjects s)) (with_list_nodes (<[p := ListNode 0 0 0]> (list_nodes s)) (with_heap h s)).

Lemma create_uncommited_object_ok s sp a fs us ls obj n : lists_ok s sp a fs us ls → 0 ≤ n < 2 ^ 20 →
  wp (create_uncommited_object obj n) s (λ p s', ∃ size h, heap_alloc size HEAP_FLAG_ZEROMEMORY (heap s) = Ok (p, h) ∧
   (p = NULL ∧ s' = with_heap h s ∧ lists_ok s' sp a fs us ls ∨
    p ≠ NULL ∧ ∃ b, s' = new_uobject p (UncommitedObject obj b) h s ∧ lists_ok s' sp a fs us (p :: ls) ∧ p ∉ fs ++ us ++ ls ∧
      bitmap_wf b ∧ n ≤ word_count b * BITS_PER_WORD ∧ ∀ i, bit b i = bool_decide (0 ≤ i < n))).
Proof using Type.
  intros Hl Hn. destruct (all_uncommited_ok n Hn) as (wc & b & Ewc & Hwc & Eb & Hb). unfold create_uncommited_object.
  apply wp_bind. eapply wp_lift; [done|].
  set (size := u32 (SIZEOF_UNCOMMITED_OBJECT + u32 (wc * 4))).
  destruct (heap_alloc_law size HEAP_FLAG_ZEROMEMORY (heap s)) as (p & h & E & Hkeep & Hp).
  apply wp_bind. exists p, (with_heap h s). split; [unfold in_heap; by rewrite E|].
  destruct (Z.eqb_spec p NULL) as [->|Hnn].
  - apply wp_ret. exists size, h. split; [done|]. left. split; [done|]. split; [done|]. by apply lists_ok_heap.
  - destruct Hp as [?|[Hnew Hin]]; [done|]. apply wp_bind. eapply wp_lift; [done|]. eexists p, _. split; [reflexivity|].
    exists size, h. split; [done|]. right. split; [done|]. exists b. split; [done|]. split; [|split; [|done]].
    + destruct (lists_ok_new s sp a fs us ls h p (ListNode 0 0 0) Hl Hkeep Hnew Hin). by split.
    + intros Hi. by apply Hnew, (lk_heap _ _ _ _ _ _ Hl).
Qed.

(** ** Looking for an uncommitted object by its address *)

Definition has_uobject s (u : Z) (uo : uncommited_object) (o : vmm_object) : Prop :=
  uobjects s !! u = Some uo ∧ objects s !! object uo = Some o.

Definition find_uncommited_step (page_base : Z) : Z → M vmm (Z + Z) := λ object_node,
  if object_node =? NULL then mret (inr NULL)
  else
    n ← in_nodes (load object_node);
    _ ← massert (negb (data n =? NULL));
    u ← read_uobject (data n);
    o ← read_object (object u);
    if (start o <=? page_base) && (page_base <=? end_ o) then mret (inr (data n))
    else nx ← next_of object_node; mret (inl nx).

Definition covers (page_base : Z) (o : vmm_object) : bool := (start o <=? page_base) && (page_base <=? end_ o).

Lemma find_uncommited_step_eq s u nx b uo o pb : u ≠ NULL → list_nodes s !! u = Some (ListNode nx b u) → has_uobject s u uo o →
  find_uncommited_step pb u s = Ok (if covers pb o then inr u else inl nx, s).
Proof using Type.
  intros Hnn Hp [Hu Ho]. unfold find_uncommited_step. destruct (Z.eqb_spec u NULL); [done|].
  rewrite (M_bind_step _ _ _ _ _ (load_node_eq s u _ Hp)). cbn [data]. destruct (Z.eqb_spec u NULL); [done|].
  cbn [negb]. rewrite (M_bind_step _ _ s tt s) by done. rewrite (M_bind_step _ _ s uo s) by (unfold read_uobject; by rewrite Hu).
  rewrite (M_bind_step _ _ _ _ _ (read_object_eq s _ o Ho)). fold (covers pb o). destruct (covers pb o); [done|].
  by rewrite (M_bind_step _ _ _ _ _ (next_of_eq s u _ Hp)).
Qed.

(** The first object of the list that covers the page. *)
Fixpoint first_covering s (pb : Z) (us : list Z) : Z :=
  match us with
  | [] => NULL
  | u :: us =>
      match uobjects s !! u ≫= λ uo, objects s !! object uo with
      | Some o => if covers pb o then u else first_covering s pb us
      | None => NULL
      end
  end.

Lemma find_uncommited_walk s sp a fs u1 u2 ls pb fuel : lists_ok s sp a fs (u1 ++ u2) ls →
  (∀ u, u ∈ u2 → ∃ uo o, has_uobject s u uo o) → (length u2 < fuel)%nat →
  loop_m fuel (find_uncommited_step pb) (head_or_null u2) s = Ok (first_covering s pb u2, s).
Proof using Type.
  revert u1 fuel. induction u2 as [|u u2 IH]; intros u1 fuel Hl Hus Hfuel; (destruct fuel as [|fuel]; [cbn in Hfuel; lia|]).
  { done. }
  destruct (Hus u) as (uo & o & Hu); [set_solver|]. destruct (uncommited_node _ _ _ _ _ _ _ _ Hl) as [b Hp].
  assert (u ≠ NULL) as Hnn by (eapply lists_not_null; [done|set_solver]).
  rewrite (loop_m_step _ _ _ _ _ _ (find_uncommited_step_eq s u _ b uo o pb Hnn Hp Hu)).
  cbn [first_covering]. destruct Hu as [Hu Ho]. rewrite Hu. cbn. rewrite Ho. destruct (covers pb o); [done|].
  rewrite (IH (u1 ++ [u])); [done|by rewrite <- (assoc_L (++))|intros q Hq; apply Hus; set_solver|cbn in Hfuel; lia].
Qed.

Lemma find_object_in_uncommited_eq s sp a fs us ls ptr : lists_ok s sp a fs us ls →
  (∀ u, u ∈ us → ∃ uo o, has_uobject s u uo o) →
  find_object_in_uncommited sp ptr s = Ok (first_covering s (ptr - ptr mod 4096) us, s).
Proof using Type.
  intros Hl Hus. unfold find_object_in_uncommited.
  rewrite (M_bind_step _ _ s (ptr - ptr mod 4096) s) by done.
  rewrite (M_bind_step _ _ _ _ _ (read_space_eq _ _ _ _ _ _ Hl)).
  rewrite (M_bind_step _ _ _ _ _ (list_fuel_eq s)), (uncommited_front _ _ _ _ _ _ Hl).
  apply (find_uncommited_walk s sp a fs [] us ls); [done|done|].
  eapply list_fuel_ok; [done| |set_solver]. pose proof (lk_nodup _ _ _ _ _ _ Hl) as (_ & _ & Hnd)%NoDup_app.
  by apply NoDup_app in Hnd as [? _].
Qed.

Lemma first_covering_none s pb us : (∀ u, u ∈ us → ∃ uo o, has_uobject s u uo o ∧ covers pb o = false) →
  first_covering s pb us = NULL.
Proof using Type.
  induction us as [|u us IH]; intros Hus; [done|]. cbn. destruct (Hus u) as (uo & o & [-> Ho] & Hc); [set_solver|].
  cbn. rewrite Ho, Hc. apply IH. intros q Hq. apply Hus. set_solver.
Qed.

Lemma first_covering_some s pb u1 u u2 uo o : (∀ u, u ∈ u1 → ∃ uo o, has_uobject s u uo o ∧ covers pb o = false) →
  has_uobject s u uo o → covers pb o = true → first_covering s pb (u1 ++ u :: u2) = u.
Proof using Type.
  induction u1 as [|v u1 IH]; intros Hus [Hu Ho] Hc; cbn; [by rewrite Hu; cbn; rewrite Ho, Hc|].
  destruct (Hus v) as (vo & o' & [-> Ho'] & Hc'); [set_solver|]. cbn. rewrite Ho', Hc'.
  apply IH; [|by split|done]. intros q Hq. apply Hus. set_solver.
Qed.
End Regions.
