(* ===== verification/VmmInv.v ===== *)
(** The invariant of the virtual memory manager: the free and the allocated
    regions of an address space partition its pages, and a page is mapped
    exactly when it is allocated and committed. Allocation keeps it. *)
From S2P Require Import Prelude MiscMath Bitmap CList Arch HeapIface PmmIface.
From S2P Require Import Mmu MmuSafe MmuPages MmuCorrect Vmm VmmLists VmmRegions.

Section Invariant.
Context {H P : Type} `{!HeapOps H, !HeapLaws H, !PmmOps P, !PmmLaws P}.
Local Abbreviation vmm := (vmm H P).
Implicit Types s : vmm.

(** Every page from [lo] on belongs to exactly one region: those of [fs] are
    free, those of [live] are allocated. *)
Record regions_ok s (sp lo cnt : Z) (fs live : list Z) : Prop := {
  rg_objects p : p ∈ fs ++ live → ∃ o, has_object s p o ∧ address_space o = sp;
  rg_pages : region_pages (objects s) (fs ++ live) ≡ₚ seqZ lo cnt;
}.

(** The bitmap of an allocated object, as long as a page is not committed. *)
Record uobject_ok (live : list Z) (uo : uncommited_object) (o : vmm_object) : Prop := {
  uo_live : object uo ∈ live;
  uo_bitmap : bitmap_wf (committed_bitmap uo);
  uo_long : npages o ≤ word_count (committed_bitmap uo) * BITS_PER_WORD;
  uo_bits i : bit (committed_bitmap uo) i = true → 0 ≤ i < npages o;
}.
Record uncommited_ok s (live us : list Z) : Prop := {
  uc_objects u : u ∈ us → ∃ uo o, has_uobject s u uo o ∧ uobject_ok live uo o;
  uc_unique u u' uo uo' : u ∈ us → u' ∈ us → uobjects s !! u = Some uo → uobjects s !! u' = Some uo' →
    object uo = object uo' → u = u';
}.

(** A page of an allocated object that is not committed. *)
Definition uncommited s (us : list Z) (q : Z) : Prop :=
  ∃ u uo o, u ∈ us ∧ has_uobject s u uo o ∧ bit (committed_bitmap uo) (q - first_page o) = true.

(** A page that was committed with a physical page of the page allocator. *)
Definition backed s (live : list Z) (q pa : Z) : Prop :=
  ∃ p o e, p ∈ live ∧ objects s !! p = Some o ∧ phys_base o = VMM_PHYSADDR_NOMAP ∧ q ∈ opages o ∧
    mapped (machine s) q = Some e ∧ page_of e = pa.

Definition not_table (m : mmu P) (pa : Z) : Prop := ∀ i, is_index i → present (pd m i) → page_of (pd m i) ≠ pa.

(** The physical memory an object can be mapped to. *)
Definition phys_ok (phys n : Z) : Prop :=
  phys = VMM_PHYSADDR_NOMAP ∨ phys mod 4096 = 0 ∧ 0 < phys ∧ phys + n * 4096 < 2 ^ 32.

Record machine_ok s (lo cnt : Z) (ua : bool) (fs live us : list Z) : Prop := {
  mc_wf : mmu_wf (machine s);
  mc_table q : lo ≤ q < lo + cnt → has_table (machine s) q;
  mc_none q : lo ≤ q < lo + cnt →
    mapped (machine s) q = None ↔ q ∈ region_pages (objects s) fs ∨ uncommited s us q;
  mc_entry p o q e : p ∈ live → objects s !! p = Some o → q ∈ opages o → mapped (machine s) q = Some e →
    ∃ pa, is_u32 pa ∧ pa mod 4096 = 0 ∧ e = mapping_entry pa (mapflags o) ua ∧
      (phys_base o ≠ VMM_PHYSADDR_NOMAP → pa = phys_base o + 4096 * (q - first_page o));
  mc_owned q pa : backed s live q pa → page_owned (pages (machine s)) pa ∧ not_table (machine s) pa;
  mc_distinct q q' pa : backed s live q pa → backed s live q' pa → q = q';
  mc_phys p o : p ∈ live → objects s !! p = Some o → phys_ok (phys_base o) (npages o);
}.

Record vmm_ok s (sp : Z) (a : vmm_address_space) (lo cnt : Z) (fs live us : list Z) : Prop := {
  ok_lists : lists_ok s sp a fs us live;
  ok_regions : regions_ok s sp lo cnt fs live;
  ok_uncommited : uncommited_ok s live us;
  ok_machine : machine_ok s lo cnt (is_user a) fs live us;
}.

Lemma vmm_ok_object s sp a lo cnt fs live us p : vmm_ok s sp a lo cnt fs live us → p ∈ fs ++ live →
  ∃ o, has_object s p o ∧ address_space o = sp.
Proof using Type. intros Hok. apply (ok_regions _ _ _ _ _ _ _ _ Hok). Qed.

Lemma vmm_ok_nodup s sp a lo cnt fs live us : vmm_ok s sp a lo cnt fs live us →
  NoDup (region_pages (objects s) (fs ++ live)).
Proof using Type. intros Hok. rewrite (rg_pages _ _ _ _ _ _ (ok_regions _ _ _ _ _ _ _ _ Hok)). apply NoDup_seqZ. Qed.

Lemma vmm_ok_page s sp a lo cnt fs live us p o q : vmm_ok s sp a lo cnt fs live us → p ∈ fs ++ live →
  objects s !! p = Some o → q ∈ opages o → lo ≤ q < lo + cnt.
Proof using Type.
  intros Hok Hp Ho Hq. apply elem_of_seqZ. rewrite <- (rg_pages _ _ _ _ _ _ (ok_regions _ _ _ _ _ _ _ _ Hok)).
  apply elem_of_region_pages. by exists p, o.
Qed.

(** Two regions do not overlap. *)
Lemma vmm_ok_disjoint s sp a lo cnt fs live us p o p' o' q : vmm_ok s sp a lo cnt fs live us →
  p ∈ fs ++ live → p' ∈ fs ++ live → objects s !! p = Some o → objects s !! p' = Some o' →
  q ∈ opages o → q ∈ opages o' → p = p'.
Proof using Type.
  intros Hok Hp Hp' Ho Ho' Hq Hq'. destruct (decide (p = p')) as [|Hne]; [done|exfalso].
  apply list_elem_of_split in Hp as (l1 & l2 & El). pose proof (vmm_ok_nodup _ _ _ _ _ _ _ _ Hok) as Hnd.
  rewrite El in Hnd. rewrite <- Permutation_middle in Hnd.
  eapply (region_pages_disjoint _ p o); [done|done| |done|done|done]. rewrite El in Hp'. set_solver.
Qed.

(** The same for allocated objects. *)
Lemma live_page s sp a lo cnt fs live us p o q : vmm_ok s sp a lo cnt fs live us → p ∈ live →
  objects s !! p = Some o → q ∈ opages o → lo ≤ q < lo + cnt.
Proof using Type. intros Hok Hp. apply (vmm_ok_page _ _ _ _ _ _ _ _ _ _ _ Hok). set_solver. Qed.
Lemma live_disjoint s sp a lo cnt fs live us p o p' o' q : vmm_ok s sp a lo cnt fs live us →
  p ∈ live → p' ∈ live → objects s !! p = Some o → objects s !! p' = Some o' →
  q ∈ opages o → q ∈ opages o' → p = p'.
Proof using Type. intros Hok Hp Hp'. apply (vmm_ok_disjoint _ _ _ _ _ _ _ _ _ _ _ _ _ Hok); set_solver. Qed.
(** A page of an allocated object is not free. *)
Lemma live_not_free s sp a lo cnt fs live us p o q : vmm_ok s sp a lo cnt fs live us → p ∈ live →
  objects s !! p = Some o → q ∈ opages o → q ∉ region_pages (objects s) fs.
Proof using Type.
  intros Hok Hp Ho Hq (p' & o' & Hp' & Ho' & Hq')%elem_of_region_pages.
  assert (p' = p) as -> by (apply (vmm_ok_disjoint _ _ _ _ _ _ _ _ p' o' p o q Hok); (done || set_solver)).
  pose proof (lk_nodup _ _ _ _ _ _ (ok_lists _ _ _ _ _ _ _ _ Hok)) as (_ & Hd & _)%NoDup_app. apply (Hd p Hp'). set_solver.
Qed.

Lemma in_region s sp a lo cnt fs live us p o : vmm_ok s sp a lo cnt fs live us → p ∈ fs ++ live →
  objects s !! p = Some o → lo ≤ first_page o ∧ first_page o + npages o ≤ lo + cnt.
Proof using Type.
  intros Hok Hp Ho. destruct (vmm_ok_object _ _ _ _ _ _ _ _ _ Hok Hp) as (o' & [Ho' Hwf] & _).
  rewrite Ho in Ho'. injection Ho' as <-. destruct (object_wf_eq o Hwf) as (_ & _ & _ & Hn & _).
  pose proof (vmm_ok_page _ _ _ _ _ _ _ _ p o (first_page o) Hok Hp Ho) as H1.
  pose proof (vmm_ok_page _ _ _ _ _ _ _ _ p o (first_page o + npages o - 1) Hok Hp Ho) as H2.
  rewrite elem_of_opages in H1, H2. lia.
Qed.

Lemma lists_ok_objects s sp a fs us ls os : lists_ok s sp a fs us ls → lists_ok (with_objects os s) sp a fs us ls.
Proof using Type. by intros []. Qed.
Lemma lists_ok_uobjects s sp a fs us ls us' : lists_ok s sp a fs us ls → lists_ok (with_uobjects us' s) sp a fs us ls.
Proof using Type. by intros []. Qed.
Lemma lists_ok_machine s sp a fs us ls m : lists_ok s sp a fs us ls → lists_ok (with_machine m s) sp a fs us ls.
Proof using Type. by intros []. Qed.

(** ** Putting back what is left of a region *)

Lemma put_back_ok s sp a fs us p o ls : lists_ok s sp a fs us (p :: ls) → objects s !! p = Some o →
  end_ o < start o ∨ object_wf o ∧ (∀ q, q ∈ fs → ∃ o', has_object s q o' ∧ ∀ i, i ∈ opages o → i ∈ opages o' → False) →
  wp (put_back sp p) s (λ _ s', ∃ a' fs', lists_ok s' sp a' fs' us ls ∧ is_user a' = is_user a ∧ machine s' = machine s ∧
    if decide (end_ o < start o)
    then fs' = fs ∧ objects s' = delete p (objects s) ∧ uobjects s' = delete p (uobjects s)
    else fs' ≡ₚ p :: fs ∧ objects s' = objects s ∧ uobjects s' = uobjects s).
Proof using Type.
  intros Hl Ho Hcase. unfold put_back. apply wp_bind. exists o, s. split; [by apply read_object_eq|].
  destruct (Z.ltb_spec (end_ o) (start o)) as [Hlt|Hge].
  - destruct (free_ok s sp a fs us p ls Hl) as (h & E & Hl'). eexists tt, _. split; [done|]. exists a, fs.
    rewrite decide_True by done. done.
  - destruct Hcase as [?|[Hwf Hdis]]; [lia|].
    destruct (add_object_ok s sp a fs us p o ls Hl ltac:(by split) Hdis) as (l' & n & fs' & E & Hl' & Hperm).
    apply wp_bind. eexists true, _. split; [done|]. apply wp_ret. exists (with_object_list l' a), fs'.
    rewrite decide_False by lia. done.
Qed.
End Invariant.
