(* ===== verification/VmmAlloc.v ===== *)
(** Allocating virtual memory: [vmm_alloc_object] takes the first region that
    is large enough, splits it, and keeps the invariant. *)
From S2P Require Import Prelude MiscMath Bitmap CList Arch HeapIface PmmIface.
From S2P Require Import Mmu MmuSafe MmuPages MmuCorrect Vmm VmmLists VmmRegions VmmInv.

Section Alloc.
Context {H P : Type} `{!HeapOps H, !HeapLaws H, !PmmOps P, !PmmLaws P}.
Local Abbreviation vmm := (vmm H P).
Implicit Types s : vmm.

(** The two parts of a region: the new object, and what is left. *)
Definition front_part (sp : Z) (o : vmm_object) (n phys flags : Z) : vmm_object :=
  VmmObject sp (start o) (start o + 4096 * n - 1) phys flags.
Definition rest_part (o : vmm_object) (n : Z) : vmm_object := with_start (start o + 4096 * n) o.

Lemma front_part_ok sp o n phys flags : object_wf o → 0 < n ≤ npages o →
  object_wf (front_part sp o n phys flags) ∧ first_page (front_part sp o n phys flags) = first_page o ∧
  npages (front_part sp o n phys flags) = n.
Proof using Type.
  clear. intros Hwf Hn. destruct (object_wf_eq o Hwf) as (Es & Ee & H0 & _ & Hl). change (2 ^ 20) with 1048576 in Hl.
  unfold first_page at 1 2, npages at 1. cbn. rewrite Es. split; [|dlia].
  split; cbn; change (2 ^ 32) with 4294967296; dlia.
Qed.

Lemma rest_part_ok o n : object_wf o → 0 < n < npages o →
  object_wf (rest_part o n) ∧ opages o = seqZ (first_page o) n ++ opages (rest_part o n).
Proof using Type.
  clear. intros Hwf Hn. destruct (object_wf_eq o Hwf) as (Es & Ee & H0 & _ & Hl). change (2 ^ 20) with 1048576 in Hl.
  assert (first_page (rest_part o n) = first_page o + n ∧ npages (rest_part o n) = npages o - n) as [E1 E2].
  { unfold first_page at 1, npages at 1, rest_part, with_start. cbn. dlia. }
  split.
  - unfold rest_part, with_start. split; cbn; change (2 ^ 32) with 4294967296; dlia.
  - unfold opages. rewrite E1, E2. replace (npages o) with (n + (npages o - n)) at 1 by lia. apply seqZ_app; lia.
Qed.

(** ** The memory after an allocation *)
Section After.
Context (s s' : vmm) (sp : Z) (a a' : vmm_address_space) (lo cnt : Z) (f1 : list Z) (p : Z) (f2 fs' live us : list Z).
Context (o : vmm_object) (n phys flags new u : Z) (b : bitmap).
Local Abbreviation fs := (f1 ++ p :: f2).
Local Abbreviation newo := (front_part sp o n phys flags).
Hypothesis Hok : vmm_ok s sp a lo cnt fs live us.
Hypothesis Ho : objects s !! p = Some o.
Hypothesis Hn : 0 < n ≤ npages o.
Hypothesis Hphys : phys_ok phys n.
Hypothesis Hnew : new ∉ fs ++ us ++ live.
Hypothesis Hu : u ∉ fs ++ us ++ new :: live.
Hypothesis Hl' : lists_ok s' sp a' fs' (us ++ [u]) (new :: live).
Hypothesis Hua : is_user a' = is_user a.
Hypothesis Hm : machine s' = machine s.
Hypothesis Hobj : ∀ q, q ≠ p → q ≠ new → objects s' !! q = objects s !! q.
Hypothesis Hobjnew : objects s' !! new = Some newo.
Hypothesis Hleft : if decide (n = npages o) then fs' = f1 ++ f2
  else fs' ≡ₚ p :: f1 ++ f2 ∧ objects s' !! p = Some (rest_part o n).
Hypothesis Huobj : ∀ v, v ≠ p → v ≠ u → uobjects s' !! v = uobjects s !! v.
Hypothesis Huobjnew : uobjects s' !! u = Some (UncommitedObject new b).
Hypothesis Hb : bitmap_wf b.
Hypothesis Hblen : n ≤ word_count b * BITS_PER_WORD.
Hypothesis Hbits : ∀ i, bit b i = bool_decide (0 ≤ i < n).

Lemma after_region_wf : object_wf o ∧ address_space o = sp.
Proof using All.
  destruct (vmm_ok_object _ _ _ _ _ _ _ _ p Hok) as (o' & [Ho' Hwf] & Hsp); [set_solver|].
  rewrite Ho in Ho'. by injection Ho' as <-.
Qed.

Lemma after_pages : opages newo = seqZ (first_page o) n.
Proof using All.
  destruct (front_part_ok sp o n phys flags (proj1 after_region_wf) Hn) as (_ & E1 & E2). unfold opages. by rewrite E1, E2.
Qed.

(** The other objects are as before. *)
Lemma after_other q : q ∈ f1 ++ f2 ++ live → objects s' !! q = objects s !! q.
Proof using All.
  intros Hq. apply Hobj; [|set_solver]. intros ->. pose proof (lk_nodup _ _ _ _ _ _ (ok_lists _ _ _ _ _ _ _ _ Hok)) as Hnd.
  rewrite <- (assoc_L (++)) in Hnd. cbn in Hnd. rewrite <- Permutation_middle in Hnd. apply NoDup_cons in Hnd as [Hnd _]. set_solver.
Qed.

Lemma after_free_pages : region_pages (objects s) fs ≡ₚ opages newo ++ region_pages (objects s') fs'.
Proof using All.
  pose proof after_region_wf as [Hwf _]. rewrite after_pages, <- Permutation_middle. change (p :: f1 ++ f2) with ([p] ++ f1 ++ f2). rewrite region_pages_app.
  assert (region_pages (objects s) [p] = opages o) as ->.
  { unfold region_pages. cbn. unfold pages_at. by rewrite Ho, app_nil_r. }
  assert (region_pages (objects s) (f1 ++ f2) = region_pages (objects s') (f1 ++ f2)) as ->.
  { apply region_pages_ext. intros q Hq. symmetry. apply after_other. set_solver. }
  pose proof Hleft as HL. destruct (decide (n = npages o)) as [E|E].
  - rewrite HL, E. done.
  - destruct HL as [Hperm Hp]. rewrite Hperm. destruct (rest_part_ok o n Hwf ltac:(lia)) as [_ ->].
    rewrite <- (assoc_L (++)). f_equiv. change (p :: f1 ++ f2) with ([p] ++ f1 ++ f2). rewrite (region_pages_app _ [p]). f_equiv.
    unfold region_pages. cbn. unfold pages_at. by rewrite Hp, app_nil_r.
Qed.

Lemma after_live_pages : region_pages (objects s') live = region_pages (objects s) live.
Proof using All. apply region_pages_ext. intros q Hq. apply after_other. set_solver. Qed.

Lemma after_regions : regions_ok s' sp lo cnt fs' (new :: live).
Proof using All.
  destruct after_region_wf as [Hwf Hsp]. split.
  - intros q Hq. assert (q ∈ f1 ++ f2 ++ live → ∃ o0, has_object s' q o0 ∧ address_space o0 = sp) as Hother.
    { intros Hin. destruct (vmm_ok_object _ _ _ _ _ _ _ _ q Hok) as (oq & [Hoq Hwq] & Hspq); [set_solver|].
      exists oq. split; [|done]. split; [|done]. by rewrite after_other. }
    destruct (decide (q = new)) as [->|Hqn].
    { exists newo. split; [|done]. split; [done|]. by apply front_part_ok. }
    pose proof Hleft as HL. destruct (decide (n = npages o)) as [E|E]; [rewrite HL in Hq; apply Hother; set_solver|].
    destruct HL as [Hperm Hp]. rewrite Hperm in Hq.
    destruct (decide (q = p)) as [->|]; [|apply Hother; set_solver].
    exists (rest_part o n). split; [|done]. split; [done|]. apply rest_part_ok; [done|lia].
  - rewrite <- (rg_pages _ _ _ _ _ _ (ok_regions _ _ _ _ _ _ _ _ Hok)).
    rewrite (region_pages_app _ fs), after_free_pages, <- after_live_pages, (region_pages_app _ fs').
    rewrite <- (assoc_L (++)), (Permutation_app_swap_app (opages newo)). f_equiv.
    unfold region_pages. cbn. unfold pages_at at 1. by rewrite Hobjnew.
Qed.

(** The uncommitted objects there were are as before. *)
Lemma after_has_uobject v uo ov : v ∈ us → has_uobject s v uo ov → uobject_ok live uo ov → has_uobject s' v uo ov.
Proof using All.
  intros Hv [Hvu Hvo] Hvok. pose proof (lk_nodup _ _ _ _ _ _ (ok_lists _ _ _ _ _ _ _ _ Hok)) as (_ & Hdis & _)%NoDup_app.
  split.
  - rewrite Huobj; [done| |set_solver]. intros ->. apply (Hdis p); set_solver.
  - rewrite after_other; [done|]. pose proof (uo_live _ _ _ Hvok). set_solver.
Qed.

Lemma after_uncommited_ok : uncommited_ok s' (new :: live) (us ++ [u]).
Proof using All.
  pose proof (ok_uncommited _ _ _ _ _ _ _ _ Hok) as [Huo Huniq].
  assert (∀ v, v ∈ us → uobjects s' !! v = uobjects s !! v) as Hsame.
  { intros v Hv. destruct (Huo v Hv) as (uo & ov & Hvo & Hvok). destruct (after_has_uobject v uo ov Hv Hvo Hvok) as [-> _].
    symmetry. apply Hvo. }
  assert (∀ v uo, v ∈ us → uobjects s !! v = Some uo → object uo ≠ new) as Hneq.
  { intros v uo Hv E Heq. destruct (Huo v Hv) as (uo' & ov & [E' _] & Hvok). rewrite E in E'. injection E' as <-.
    apply Hnew. rewrite <- Heq. pose proof (uo_live _ _ _ Hvok). set_solver. }
  split.
  - intros v [Hv|Hv%list_elem_of_singleton]%elem_of_app.
    + destruct (Huo v Hv) as (uo & ov & Hvo & Hvok). exists uo, ov. split; [by apply after_has_uobject|].
      destruct Hvok. split; [set_solver|done..].
    + subst v. exists (UncommitedObject new b), newo. split; [by split|].
      destruct (front_part_ok sp o n phys flags (proj1 after_region_wf) Hn) as (_ & _ & E2).
      split; cbn [object committed_bitmap]; [set_solver|done|by rewrite E2|]. intros i. rewrite Hbits, E2. by intros ?%bool_decide_eq_true.
  - intros v v' uo uo' [Hv|Hv%list_elem_of_singleton]%elem_of_app [Hv'|Hv'%list_elem_of_singleton]%elem_of_app; subst; try done.
    + rewrite !Hsame by done. by apply Huniq.
    + rewrite Hsame, Huobjnew by done. intros E [= <-] Heq. by destruct (Hneq v uo Hv E).
    + rewrite Huobjnew, Hsame by done. intros [= <-] E Heq. by destruct (Hneq v' uo' Hv' E).
Qed.

Lemma after_uncommited q : uncommited s' (us ++ [u]) q ↔ uncommited s us q ∨ q ∈ opages newo.
Proof using All.
  pose proof (ok_uncommited _ _ _ _ _ _ _ _ Hok) as [Huo _].
  destruct (front_part_ok sp o n phys flags (proj1 after_region_wf) Hn) as (_ & E1 & E2).
  rewrite elem_of_opages, E1, E2. split.
  - intros (v & uo & ov & [Hv|Hv%list_elem_of_singleton]%elem_of_app & Hvo & Hbit).
    + left. destruct (Huo v Hv) as (uo' & ov' & Hvo' & Hvok). exists v, uo', ov'. split; [done|]. split; [done|].
      destruct (after_has_uobject v uo' ov' Hv Hvo' Hvok) as [Eu Eo]. destruct Hvo as [Eu' Eo'].
      rewrite Eu in Eu'. injection Eu' as <-. rewrite Eo in Eo'. by injection Eo' as <-.
    + subst v. right. destruct Hvo as [Eu Eo]. rewrite Huobjnew in Eu. injection Eu as <-. cbn [object] in Eo. rewrite Hobjnew in Eo. injection Eo as <-.
      cbn [committed_bitmap] in Hbit. rewrite Hbits, E1 in Hbit. apply bool_decide_eq_true in Hbit. lia.
  - intros [(v & uo & ov & Hv & Hvo & Hbit)|Hq].
    + destruct (Huo v Hv) as (uo' & ov' & [Eu Eo] & Hvok). destruct Hvo as [Eu' Eo']. rewrite Eu in Eu'. injection Eu' as <-.
      rewrite Eo in Eo'. injection Eo' as <-. exists v, uo', ov'. split; [set_solver|]. split; [|done].
      by apply after_has_uobject; [|split|].
    + exists u, (UncommitedObject new b), newo. split; [set_solver|]. split; [by split|]. cbn [committed_bitmap].
      rewrite Hbits, E1. apply bool_decide_eq_true. lia.
Qed.

Lemma after_new_unmapped q : q ∈ opages newo → mapped (machine s) q = None ∧ lo ≤ q < lo + cnt.
Proof using All.
  intros Hq. assert (q ∈ region_pages (objects s) fs) as Hin by (rewrite after_free_pages; set_solver).
  assert (lo ≤ q < lo + cnt) as Hr.
  { apply elem_of_seqZ. rewrite <- (rg_pages _ _ _ _ _ _ (ok_regions _ _ _ _ _ _ _ _ Hok)), region_pages_app. set_solver. }
  split; [|done]. apply (mc_none _ _ _ _ _ _ _ (ok_machine _ _ _ _ _ _ _ _ Hok)); [done|by left].
Qed.

Lemma after_backed q pa : backed s' (new :: live) q pa → backed s live q pa.
Proof using All.
  intros (p' & o' & e & Hp' & Ho' & Hph & Hq & He & Hpa). rewrite Hm in He. apply elem_of_cons in Hp' as [->|Hp'].
  - rewrite Hobjnew in Ho'. injection Ho' as <-. destruct (after_new_unmapped q Hq) as [E _]. congruence.
  - exists p', o', e. rewrite after_other in Ho' by set_solver. done.
Qed.

Lemma after_machine : machine_ok s' lo cnt (is_user a') fs' (new :: live) (us ++ [u]).
Proof using All.
  pose proof (ok_machine _ _ _ _ _ _ _ _ Hok) as [Mwf Mt Mn Me Mo Md Mp]. split.
  - by rewrite Hm.
  - rewrite Hm. done.
  - intros q Hq. rewrite Hm, Mn, after_uncommited, after_free_pages by done. set_solver.
  - rewrite Hm, Hua. intros p' o' q e [->|Hp']%elem_of_cons Ho' Hq He.
    + rewrite Hobjnew in Ho'. injection Ho' as <-. destruct (after_new_unmapped q Hq) as [E _]. congruence.
    + rewrite after_other in Ho' by set_solver. by eapply Me.
  - intros q pa Hq%after_backed. rewrite Hm. by eapply Mo.
  - intros q q' pa Hq%after_backed Hq'%after_backed. by eapply Md.
  - intros p' o' [->|Hp']%elem_of_cons Ho'.
    + rewrite Hobjnew in Ho'. injection Ho' as <-. destruct (front_part_ok sp o n phys flags (proj1 after_region_wf) Hn) as (_ & _ & ->). done.
    + rewrite after_other in Ho' by set_solver. by eapply Mp.
Qed.

Lemma after_ok : vmm_ok s' sp a' lo cnt fs' (new :: live) (us ++ [u]).
Proof using All. split; [done|apply after_regions|apply after_uncommited_ok|apply after_machine]. Qed.
End After.

(** ** Running the allocation *)

Lemma modify_object_eq s p f o : objects s !! p = Some o →
  modify_object p f s = Ok (tt, with_objects (<[p := f o]> (objects s)) s).
Proof using Type. intros Ho. unfold modify_object. by rewrite Ho. Qed.

Lemma assert_phys_base_ok s phys n : phys_ok phys n → assert_phys_base phys s = Ok (tt, s).
Proof using Type.
  intros Hp. unfold assert_phys_base. destruct (Z.eqb_spec phys VMM_PHYSADDR_NOMAP) as [|Hne]; [done|]. cbn [negb].
  destruct Hp as [?|[Hal _]]; [done|]. unfold lift. rewrite (M_bind_step _ _ s true s); [done|].
  rewrite is_aligned_eq by done. change ARCH_PAGESIZE with 4096. by rewrite Hal.
Qed.

(** Splitting a region that is off the list: the memory before what is left is
    put back. *)
Lemma split_region_ok s new p o n sp phys flags : objects s !! p = Some o → object_wf o → new ≠ p → 0 < n ≤ npages o →
  objects s !! new = Some (VmmObject sp 0 0 phys flags) →
  ∃ os, split_region new p (u32 (n * ARCH_PAGESIZE)) s = Ok (tt, with_objects os s) ∧
    os !! p = Some (rest_part o n) ∧ os !! new = Some (front_part sp o n phys flags) ∧
    ∀ q, q ≠ p → q ≠ new → os !! q = objects s !! q.
Proof using Type.
  intros Ho Hwf Hne Hn Hnew. destruct (object_wf_eq o Hwf) as (Es & Ee & H0 & _ & Hl). change (2 ^ 20) with 1048576 in Hl.
  assert (u32 (n * ARCH_PAGESIZE) = 4096 * n) as -> by (unfold ARCH_PAGESIZE; rewrite u32_small; change (2 ^ 32) with 4294967296; lia).
  assert (u32 (start o + 4096 * n) = start o + 4096 * n) as E1 by (rewrite u32_small; change (2 ^ 32) with 4294967296; lia).
  assert (u32 (start o + 4096 * n - 1) = start o + 4096 * n - 1) as E2 by (rewrite u32_small; change (2 ^ 32) with 4294967296; lia).
  eexists. split.
  - unfold split_region. rewrite (M_bind_step _ _ _ _ _ (read_object_eq s p o Ho)).
    rewrite (M_bind_step _ _ _ _ _ (modify_object_eq _ _ _ _ Hnew)).
    erewrite (M_bind_step _ _ _ tt); [|apply modify_object_eq; cbn; by rewrite lookup_insert_eq].
    erewrite modify_object_eq; [|cbn; by rewrite !lookup_insert_ne, Ho by done]. reflexivity.
  - cbn. rewrite E1, E2. split; [by rewrite lookup_insert_eq|]. split.
    + rewrite lookup_insert_ne by done. by rewrite lookup_insert_eq.
    + intros q Hqp Hqn. by rewrite !lookup_insert_ne.
Qed.

(** What the allocation establishes. *)
Definition alloc_post s (sp lo cnt : Z) (o : vmm_object) (fs fs1 live us : list Z) (n phys flags : Z) (new : Z) (s' : vmm) : Prop :=
  new ∉ fs ++ us ++ live ∧ ∃ a' fs' u,
    vmm_ok s' sp a' lo cnt fs' (new :: live) (us ++ [u]) ∧
    objects s' !! new = Some (front_part sp o n phys flags) ∧
    (∀ q, q ∈ live → objects s' !! q = objects s !! q) ∧
    (if decide (n = npages o) then fs' = fs1 else fs' ≡ₚ fs) ∧
    machine s' = machine s ∧
    ∀ q, first_page o ≤ q < first_page o + n → uncommited s' (us ++ [u]) q.

(** The allocation from the point where the region is off the list. *)
Lemma alloc_tail_ok s sp a f1 f2 us p u new live o n phys flags :
  lists_ok s sp a (f1 ++ f2) us (p :: u :: new :: live) → objects s !! p = Some o → object_wf o → 0 < n ≤ npages o →
  objects s !! new = Some (VmmObject sp 0 0 phys flags) →
  (∀ q, q ∈ f1 ++ f2 → ∃ o', has_object s q o' ∧ ∀ i, i ∈ opages o → i ∈ opages o' → False) →
  wp (_ ← split_region new p (u32 (n * ARCH_PAGESIZE));
      _ ← put_back sp p;
      _ ← update_uncommited sp (λ l, list_insert_back l u u);
      mret new) s (λ r s', r = new ∧ ∃ a' fs', lists_ok s' sp a' fs' (us ++ [u]) (new :: live) ∧
    is_user a' = is_user a ∧ machine s' = machine s ∧ (∀ q, q ≠ p → q ≠ new → objects s' !! q = objects s !! q) ∧
    objects s' !! new = Some (front_part sp o n phys flags) ∧
    (if decide (n = npages o) then fs' = f1 ++ f2 else fs' ≡ₚ p :: f1 ++ f2 ∧ objects s' !! p = Some (rest_part o n)) ∧
    ∀ v, v ≠ p → uobjects s' !! v = uobjects s !! v).
Proof using Type.
  intros Hl Ho Hwf Hn Hnew Hdis. destruct (object_wf_eq o Hwf) as (Es & Ee & _ & _ & _).
  assert (new ≠ p) as Hne.
  { pose proof (lk_nodup _ _ _ _ _ _ Hl) as (_ & _ & (_ & _ & Hnd)%NoDup_app)%NoDup_app. apply NoDup_cons in Hnd as [Hnd _]. set_solver. }
  destruct (split_region_ok s new p o n sp phys flags Ho Hwf Hne Hn Hnew) as (os & E & Hp' & Hnew' & Hos).
  apply wp_bind. exists tt, (with_objects os s). split; [done|]. apply wp_bind.
  assert (end_ (rest_part o n) < start (rest_part o n) ↔ n = npages o) as Hempty by (cbn; lia).
  assert (∀ q, q ∈ f1 ++ f2 → q ≠ p ∧ q ≠ new) as Hother.
  { pose proof (lk_nodup _ _ _ _ _ _ Hl) as (_ & Hd & _)%NoDup_app. intros q Hq. split; intros ->; apply (Hd _ Hq); set_solver. }
  eapply wp_mono; [apply (put_back_ok _ sp a (f1 ++ f2) us p (rest_part o n) (u :: new :: live)); [by apply lists_ok_objects|done|]|].
  - destruct (decide (n = npages o)) as [?|Hnn]; [left; by apply Hempty|right].
    destruct (rest_part_ok o n Hwf ltac:(lia)) as [Hwf' Epages]. split; [done|]. intros q Hq.
    destruct (Hdis q Hq) as (o' & [Ho' Hwo'] & Hd). destruct (Hother q Hq). exists o'. split.
    + split; [|done]. cbn. by rewrite Hos.
    + intros i Hi. apply Hd. rewrite Epages. set_solver.
  - intros [] s1 (a1 & fs1 & Hl1 & Hua1 & Hm1 & Hres).
    destruct (insert_uncommited_back_ok _ _ _ _ _ _ _ Hl1) as (l' & nn & E2 & Hl2). apply wp_bind. eexists tt, _. split; [done|].
    apply wp_ret. split; [done|]. exists (with_uncommited l' a1), fs1. split; [done|]. split; [done|]. split; [done|].
    case_decide as Hlt; destruct Hres as (Hfs1 & Hobj1 & Huobj1); cbn [relinked with_spaces with_list_nodes objects uobjects];
      rewrite Hobj1, Huobj1.
    + rewrite decide_True by (by apply Hempty). split_and?; [|by rewrite lookup_delete_ne|done|].
      * intros q Hqp Hqn. rewrite lookup_delete_ne by done. by apply Hos.
      * intros v Hv. by rewrite lookup_delete_ne.
    + rewrite decide_False by (by rewrite <- Hempty). by split_and?.
Qed.

Lemma heap_never_fails `{!HeapSucceeds H} size flags (h h' : H) p : heap_alloc size flags h = Ok (p, h') → p ≠ NULL.
Proof using Type. destruct (heap_alloc_succeeds size flags h) as (q & h'' & E & Hq). rewrite E. by intros [= <- _]. Qed.

(** The parts of an allocation before and after it is known which region it
    takes. *)
Lemma alloc_object_ok `{!HeapSucceeds H} s sp a lo cnt f1 p f2 live us o n phys flags size :
  vmm_ok s sp a lo cnt (f1 ++ p :: f2) live us → size_to_blocks size ARCH_PAGESIZE = Ok n → phys_ok phys n →
  (∀ q, q ∈ f1 → too_small n s q) → objects s !! p = Some o → 0 < n ≤ npages o →
  wp (vmm_alloc_object sp phys size flags) s
    (alloc_post s sp lo cnt o (f1 ++ p :: f2) (f1 ++ f2) live us n phys flags).
Proof using Type.
  intros Hok Hsize Hphys Hsmall Ho Hn. pose proof (ok_lists _ _ _ _ _ _ _ _ Hok) as Hl.
  destruct (vmm_ok_object _ _ _ _ _ _ _ _ p Hok) as (o' & [Ho' Hwf] & _); [set_solver|].
  rewrite Ho in Ho'. injection Ho' as <-. destruct (object_wf_eq o Hwf) as (_ & _ & H0 & _ & Hlim).
  unfold vmm_alloc_object. apply wp_bind. eapply wp_lift; [done|].
  apply wp_bind. exists tt, s. split; [by eapply assert_phys_base_ok|].
  apply wp_bind. eapply wp_mono; [by apply create_object_ok|]. intros new s1 (h1 & Ealloc & Hcase).
  apply heap_never_fails in Ealloc. destruct Hcase as [[? _]|(_ & -> & Hl1 & Hnew)]; [done|].
  apply wp_bind. eapply wp_mono; [apply create_uncommited_object_ok; [done|lia]|]. intros u s2 (usize & h2 & Ealloc' & Hcase).
  apply heap_never_fails in Ealloc'. destruct Hcase as [[? _]|(_ & b & -> & Hl2 & Hu & Hb & Hblen & Hbits)]; [done|].
  set (s2 := new_uobject _ _ _ _) in *.
  assert (p ≠ new) as Hpn by set_solver.
  assert (∀ q o0, q ∈ f1 ++ p :: f2 → has_object s q o0 → has_object s2 q o0) as Hkeep.
  { intros q o0 Hq [Hq1 Hq2]. split; [|done]. cbn. rewrite lookup_insert_ne; [done|]. set_solver. }
  destruct (take_min_found s2 sp a f1 p f2 o us (u :: new :: live) n Hl2) as (l3 & n3 & E3 & Hl3).
  { lia. } { intros q Hq. destruct (Hsmall q Hq) as (oq & Hoq & Hlt). exists oq. split; [|done]. apply Hkeep; [set_solver|done]. }
  { apply Hkeep; [set_solver|done]. } { lia. }
  apply wp_bind. exists p, (relinked sp (with_object_list l3 a) n3 s2). split; [done|].
  destruct (Z.eqb_spec new NULL); [done|].
  pose proof (lists_not_null _ _ _ _ _ _ p Hl ltac:(set_solver)) as Hp0. destruct (Z.eqb_spec p NULL); [done|]. cbn [orb].
  assert (objects s2 !! p = Some o) as Ho2 by (apply (Hkeep p); [set_solver|by split]).
  eapply wp_mono; [apply (alloc_tail_ok _ sp (with_object_list l3 a) f1 f2 us p u new live o n phys flags); [done|done|done|done| |]|].
  - cbn. by rewrite lookup_insert_eq.
  - intros q Hq. destruct (vmm_ok_object _ _ _ _ _ _ _ _ q Hok) as (oq & Hoq & _); [set_solver|].
    exists oq. split; [apply (Hkeep q); [set_solver|done]|]. intros i Hi Hi'.
    assert (p = q) as <- by (eapply (vmm_ok_disjoint s); [done|set_solver|set_solver|done|apply Hoq|done|done]).
    pose proof (lk_nodup _ _ _ _ _ _ Hl3) as (_ & Hdis & _)%NoDup_app. apply (Hdis p Hq). set_solver.
  - intros r s' (-> & a' & fs' & Hl' & Hua & Hm & Hobj & Hobjnew & Hleft & Huobj).
    split; [done|]. exists a', fs', u.
    assert (∀ q, q ≠ p → q ≠ new → objects s' !! q = objects s !! q) as Hobj'.
    { intros q Hqp Hqn. rewrite Hobj by done. cbn. by apply lookup_insert_ne. }
    assert (uobjects s' !! u = Some (UncommitedObject new b)) as Hu'.
    { rewrite Huobj by set_solver. cbn. by rewrite lookup_insert_eq. }
    assert (∀ v, v ≠ p → v ≠ u → uobjects s' !! v = uobjects s !! v) as Huobj'.
    { intros v Hvp Hvu. rewrite Huobj by done. cbn. by apply lookup_insert_ne. }
    split_and?.
    + by eapply (after_ok s s' sp a a' lo cnt f1 p f2 fs' live us o n phys flags new u b).
    + done.
    + intros q Hq. by eapply (after_other s s' sp a a' lo cnt f1 p f2 fs' live us o n phys flags new u b); [..|set_solver].
    + case_decide; [done|]. destruct Hleft as [-> _]. by rewrite Permutation_middle.
    + done.
    + intros q Hq. eapply (after_uncommited s s' sp a a' lo cnt f1 p f2 fs' live us o n phys flags new u b); [done..|].
      right. rewrite elem_of_opages. destruct (front_part_ok sp o n phys flags Hwf Hn) as (_ & -> & ->). done.
Qed.
End Alloc.
