(* ===== verification/VmmFault.v ===== *)
(** The page fault handler of the virtual memory manager: it commits exactly
    the page that was accessed, and keeps the invariant. *)
From S2P Require Import Prelude MiscMath Bitmap CList Arch HeapIface PmmIface.
From S2P Require Import Mmu MmuSafe MmuPages MmuCorrect Vmm VmmLists VmmRegions VmmInv.

Section Fault.
Context {H P : Type} `{!HeapOps H, !HeapLaws H, !PmmOps P, !PmmLaws P}.
Local Abbreviation vmm := (vmm H P).
Implicit Types s : vmm.

(** ** The machine *)

Lemma emulate_unmapped (m : mmu P) q off flags ua : mmu_wf m → is_page q → 0 ≤ off < 4096 → mapped m q = None →
  ∃ e, arch_mmu_emulate (4096 * q + off) flags ua m = Ok (inl e, m).
Proof using Type.
  intros [Hwf _] Hq Ho Hm. unfold arch_mmu_emulate. destruct (virt_indices q off Hq Ho) as [-> ->].
  destruct (page_split q Hq) as (Hi & Hj & _). rewrite (M_bind_step _ _ _ _ _ (read_pagedir m _ Hwf Hi)).
  unfold mapped, entry in Hm. destruct (has (pd m _) ARCHI586_MMU_COMMON_FLAG_P) eqn:E; [|by eexists]. cbn [negb].
  destruct (negb _ && _); [by eexists|]. destruct (negb _ && _); [by eexists|].
  rewrite (M_bind_step _ _ _ _ _ (read_pagetable m _ _ Hwf Hi Hj E)).
  destruct (has (pt m _ _) ARCHI586_MMU_COMMON_FLAG_P); [done|by eexists].
Qed.

Lemma mmu_wf_fresh (m : mmu P) pa p : mmu_wf m → fresh_page pa p m → mmu_wf (with_pages p m).
Proof using Type.
  intros [Hwf Htlb] Hf. split; [|done]. destruct Hwf. split; try done; [|by apply Hf].
  intros i Hi Hpr Hav. eapply wf_not_available; [exact Hi|exact Hpr|]. by apply Hf.
Qed.

(** Where the physical page of a page comes from. *)
Definition commit_source (m : mmu P) (o : vmm_object) (q pa : Z) : Prop :=
  if decide (phys_base o = VMM_PHYSADDR_NOMAP)
  then ∃ n p', page_alloc 1 (pages m) = Ok ((pa, n), p') ∧ pa ≠ 0 ∧ pa + 4096 < 2 ^ 32
  else pa = phys_base o + 4096 * (q - first_page o).

(** The machine with the page taken from the allocator. *)
Definition page_taken (m : mmu P) (o : vmm_object) (q pa : Z) (m1 : mmu P) : Prop :=
  if decide (phys_base o = VMM_PHYSADDR_NOMAP)
  then ∃ p', m1 = with_pages p' m ∧ fresh_page pa p' m
  else m1 = m ∧ pa = phys_base o + 4096 * (q - first_page o).

Lemma page_taken_wf m o q pa m1 : mmu_wf m → page_taken m o q pa m1 →
  mmu_wf m1 ∧ irq m1 = irq m ∧ (∀ i, pd m1 i = pd m i) ∧ (∀ i, entry m1 i = entry m i) ∧
  (∀ q, has_table m q → has_table m1 q) ∧ (∀ q, mapped m1 q = mapped m q).
Proof using Type.
  intros Hwf Ht. unfold page_taken in Ht. case_decide; [|by destruct Ht as [-> _]].
  destruct Ht as (p' & -> & Hf). split; [by eapply mmu_wf_fresh|]. done.
Qed.

(** ** The memory after a page was committed *)
Section After.
Context (s s' : vmm) (sp : Z) (a a' : vmm_address_space) (lo cnt : Z) (fs live u1 u2 us' : list Z) (u : Z).
Context (uo : uncommited_object) (o : vmm_object) (q pa : Z) (b : bitmap) (m1 : mmu P).
Local Abbreviation us := (u1 ++ u :: u2).
Hypothesis Hok : vmm_ok s sp a lo cnt fs live us.
Hypothesis Hu : has_uobject s u uo o.
Hypothesis Huok : uobject_ok live uo o.
Hypothesis Hq : q ∈ opages o.
Hypothesis Hbit : bit (committed_bitmap uo) (q - first_page o) = true.
Hypothesis Hb : bits_updated (committed_bitmap uo) b (q - first_page o) 1 false.
Hypothesis Htaken : page_taken (machine s) o q pa m1.
Hypothesis Hpa : is_u32 pa ∧ pa mod 4096 = 0.
Hypothesis Hm : changed (one q (mapping_entry pa (mapflags o) (is_user a))) m1 (machine s').
Hypothesis Hl' : lists_ok s' sp a' fs us' live.
Hypothesis Hua : is_user a' = is_user a.
Hypothesis Hobj : ∀ p, p ≠ u → objects s' !! p = objects s !! p.
Hypothesis Huobj : ∀ v, v ≠ u → uobjects s' !! v = uobjects s !! v.
Hypothesis Hus : us' = us ∧ uobjects s' !! u = Some (with_bitmap b uo) ∨ us' = u1 ++ u2 ∧ ∀ i, bit b i = false.

Lemma commit_not_u p : p ∈ fs ++ live → p ≠ u.
Proof using All.
  clear -Hok. intros Hp ->. pose proof (lk_nodup _ _ _ _ _ _ (ok_lists _ _ _ _ _ _ _ _ Hok)) as Hnd.
  rewrite (Permutation_app_swap_app fs us live) in Hnd. apply NoDup_app in Hnd as (_ & Hd & _). apply (Hd u); set_solver.
Qed.

Lemma commit_object p : p ∈ fs ++ live → objects s' !! p = objects s !! p.
Proof using All. intros Hp. by apply Hobj, commit_not_u. Qed.

Lemma commit_regions : regions_ok s' sp lo cnt fs live.
Proof using All.
  pose proof (ok_regions _ _ _ _ _ _ _ _ Hok) as [Ho Hpages]. split.
  - intros p Hp. destruct (Ho p Hp) as (o' & [Ho' Hwf] & Hsp). exists o'. split; [|done]. split; [|done]. by rewrite commit_object.
  - rewrite (region_pages_ext (objects s)); [done|]. intros p Hp. by apply commit_object.
Qed.

Lemma commit_nodup : NoDup us.
Proof using All.
  pose proof (lk_nodup _ _ _ _ _ _ (ok_lists _ _ _ _ _ _ _ _ Hok)) as (_ & _ & Hnd)%NoDup_app. by apply NoDup_app in Hnd as [? _].
Qed.

(** The bitmaps, and which page is still not committed. *)
Lemma commit_bit i : bit b i = if decide (i = q - first_page o) then false else bit (committed_bitmap uo) i.
Proof using All.
  destruct Hb as (_ & _ & Hbits). rewrite Hbits. apply elem_of_opages in Hq. pose proof (uo_long _ _ _ Huok).
  case_decide as E.
  - subst i. destruct (Z.leb_spec (q - first_page o) (q - first_page o)), (Z.ltb_spec (q - first_page o) (q - first_page o + 1)),
      (Z.ltb_spec (q - first_page o) (word_count (committed_bitmap uo) * BITS_PER_WORD)); (done || lia).
  - destruct (Z.leb_spec (q - first_page o) i), (Z.ltb_spec i (q - first_page o + 1)); (done || lia).
Qed.

Lemma commit_has_uobject v vo ov : v ∈ us' → v ≠ u → has_uobject s v vo ov → uobject_ok live vo ov → has_uobject s' v vo ov.
Proof using All.
  intros Hv Hne [Ev Eo] Hvok. split; [by rewrite Huobj|]. rewrite commit_object; [done|]. pose proof (uo_live _ _ _ Hvok). set_solver.
Qed.

Lemma commit_us v : v ∈ us' → v ∈ us ∧ (v = u → uobjects s' !! u = Some (with_bitmap b uo)).
Proof using All.
  intros Hv. pose proof commit_nodup as Hnd. rewrite <- Permutation_middle in Hnd. apply NoDup_cons in Hnd as [Hout _].
  destruct Hus as [[-> Hb']|[-> _]]; [done|]. split; [set_solver|]. intros ->. done.
Qed.

Lemma commit_uobject_ok : uobject_ok live (with_bitmap b uo) o ∧ objects s' !! object (with_bitmap b uo) = Some o.
Proof using All.
  destruct Huok as [Hlive Hwf Hlong Hbits]. destruct Hb as (Hwfb & Hwc & _). destruct Hu as [_ Ho]. split.
  - split; cbn; [done|done|by rewrite Hwc|]. intros i. rewrite commit_bit. case_decide; [done|]. apply Hbits.
  - cbn. rewrite commit_object; [done|set_solver].
Qed.

Lemma commit_uncommited_ok : uncommited_ok s' live us'.
Proof using All.
  pose proof (ok_uncommited _ _ _ _ _ _ _ _ Hok) as [Huo Huniq].
  assert (∀ v vo, v ∈ us' → uobjects s' !! v = Some vo → ∃ vo', uobjects s !! v = Some vo' ∧ object vo' = object vo) as Hback.
  { intros v vo Hv Ev. destruct (decide (v = u)) as [->|Hne]; [|rewrite Huobj in Ev by done; by eexists].
    destruct (commit_us u Hv) as [_ E]. rewrite E in Ev by done. injection Ev as <-. exists uo. split; [apply Hu|done]. }
  split.
  - intros v Hv. destruct (commit_us v Hv) as [Hin Hvu]. destruct (decide (v = u)) as [->|Hne].
    + exists (with_bitmap b uo), o. destruct commit_uobject_ok. split; [split; [by apply Hvu|done]|done].
    + destruct (Huo v Hin) as (vo & ov & Hvo & Hvok). exists vo, ov. split; [by apply commit_has_uobject|done].
  - intros v v' vo vo' Hv Hv' Ev Ev' Heq. destruct (Hback v vo Hv Ev) as (w & Ew & Hw), (Hback v' vo' Hv' Ev') as (w' & Ew' & Hw').
    apply (Huniq v v' w w'); [by apply commit_us|by apply commit_us|done|done|congruence].
Qed.

Lemma commit_uncommited r : lo ≤ r < lo + cnt → uncommited s' us' r ↔ uncommited s us r ∧ r ≠ q.
Proof using All.
  intros Hr. pose proof (ok_uncommited _ _ _ _ _ _ _ _ Hok) as [Huo Huniq]. destruct Hu as [Eu Eo]. destruct commit_uobject_ok as [_ Eo'].
  split.
  - intros (v & vo & ov & Hv & [Ev Eov] & Hbv). destruct (commit_us v Hv) as [Hin Hvu]. destruct (decide (v = u)) as [->|Hne].
    + rewrite Hvu in Ev by done. injection Ev as <-. rewrite Eo' in Eov. injection Eov as <-. cbn in Hbv. rewrite commit_bit in Hbv.
      case_decide as E; [done|]. split; [|intros ->; by apply E]. exists u, uo, o. split; [done|]. by split.
    + destruct (Huo v Hin) as (vo' & ov' & [Ev' Eov'] & Hvok). rewrite Huobj in Ev by done. rewrite Ev in Ev'. injection Ev' as <-.
      rewrite commit_object in Eov by (pose proof (uo_live _ _ _ Hvok); set_solver). rewrite Eov in Eov'. injection Eov' as <-.
      split; [exists v, vo, ov; done|]. intros ->. destruct Hne.
      assert (q ∈ opages ov) as Hqv by (apply elem_of_opages; pose proof (uo_bits _ _ _ Hvok _ Hbv); lia).
      pose proof (uo_live _ _ _ Hvok). pose proof (uo_live _ _ _ Huok).
      assert (object vo = object uo) as Ho by (by eapply (live_disjoint s)).
      apply (Huniq v u vo uo); [done|set_solver|done..].
  - intros [(v & vo & ov & Hv & [Ev Eov] & Hbv) Hne]. destruct (decide (v = u)) as [->|Hvu].
    + rewrite Eu in Ev. injection Ev as <-. rewrite Eo in Eov. injection Eov as <-.
      assert (bit b (r - first_page o) = true) as Hbr by (rewrite commit_bit; case_decide; [lia|done]).
      destruct Hus as [[-> Eu']|[_ Hz]]; [|by rewrite Hz in Hbr]. exists u, (with_bitmap b uo), o. split; [set_solver|]. by split.
    + destruct (Huo v Hv) as (vo' & ov' & [Ev' Eov'] & Hvok). rewrite Ev in Ev'. injection Ev' as <-. rewrite Eov in Eov'. injection Eov' as <-.
      assert (v ∈ us') as Hv' by (destruct Hus as [[-> _]|[-> _]]; set_solver).
      exists v, vo, ov. split; [done|]. split; [by apply commit_has_uobject|done].
Qed.

(** The pages: only the one that was accessed is mapped now, and not before. *)
Lemma commit_page_range : is_page q ∧ lo ≤ q < lo + cnt ∧ mapped (machine s) q = None.
Proof using All.
  pose proof (uo_live _ _ _ Huok) as Hlive. destruct Hu as [Eu Eo].
  assert (lo ≤ q < lo + cnt) as Hr by (by eapply (live_page s)).
  pose proof (ok_machine _ _ _ _ _ _ _ _ Hok) as HM. split; [by apply (mc_table _ _ _ _ _ _ _ HM)|]. split; [done|].
  apply (mc_none _ _ _ _ _ _ _ HM); [done|right]. exists u, uo, o. split; [set_solver|]. by split.
Qed.

Lemma commit_mapped r : is_page r →
  mapped (machine s') r = if decide (r = q) then Some (mapping_entry pa (mapflags o) (is_user a)) else mapped (machine s) r.
Proof using All.
  intros Hr. destruct (page_taken_wf _ _ _ _ _ (mc_wf _ _ _ _ _ _ _ (ok_machine _ _ _ _ _ _ _ _ Hok)) Htaken) as (_ & _ & _ & _ & _ & <-).
  rewrite (changed_one_mapped _ _ _ _ _ Hm) by done. case_decide; [|done].
  by destruct (mapping_entry_spec pa (mapflags o) (is_user a) (proj1 Hpa) (proj2 Hpa)) as (-> & _).
Qed.

Lemma commit_backed r pa' : backed s' live r pa' → if decide (r = q) then phys_base o = VMM_PHYSADDR_NOMAP ∧ pa' = pa else backed s live r pa'.
Proof using All.
  intros (p & op & e & Hp & Ep & Hph & Hr & He & Hpe). rewrite commit_object in Ep by set_solver.
  assert (lo ≤ r < lo + cnt) as Hrr by (by eapply (live_page s)).
  assert (is_page r) as Hrp by (by apply (mc_table _ _ _ _ _ _ _ (ok_machine _ _ _ _ _ _ _ _ Hok))).
  rewrite commit_mapped in He by done. case_decide as E; [|exists p, op, e; done]. subst r. injection He as <-.
  destruct (mapping_entry_spec pa (mapflags o) (is_user a) (proj1 Hpa) (proj2 Hpa)) as (_ & _ & _ & _ & Epa).
  pose proof (uo_live _ _ _ Huok). destruct Hu as [Eu Eo].
  assert (p = object uo) as -> by (by eapply (live_disjoint s)).
  rewrite Eo in Ep. injection Ep as <-. split; [done|congruence].
Qed.

(** The physical page was available, so it is neither in use nor a table. *)
Lemma commit_new_page : phys_base o = VMM_PHYSADDR_NOMAP →
  page_owned (pages (machine s')) pa ∧ not_table (machine s') pa ∧
  ∀ r pa', backed s live r pa' → pa' ≠ pa ∧ page_owned (pages (machine s')) pa' .
Proof using All.
  intros Hph. pose proof Htaken as Ht. unfold page_taken in Ht. rewrite decide_True in Ht by done. destruct Ht as (p' & E1 & Hf).
  destruct (changed_rest _ _ _ Hm) as (_ & _ & Epages). rewrite Epages. rewrite E1. cbn [pages with_pages].
  pose proof (ok_machine _ _ _ _ _ _ _ _ Hok) as [[Hwf _] _ _ _ Mo _ _]. split; [apply Hf|]. split.
  - intros i Hi. rewrite (changed_pd _ _ _ Hm), E1 by done. change (pd (with_pages p' (machine s)) i) with (pd (machine s) i).
    intros Hpr E. eapply (wf_not_available _ Hwf); [exact Hi|exact Hpr|]. rewrite E. apply Hf.
  - intros r pa' Hr. destruct (Mo r pa' Hr) as [Hown _].
    assert (pa' ≠ pa) as Hne.
    { intros ->. eapply page_owned_not_available; [apply (wf_pages _ Hwf)|done|]. apply Hf. }
    split; [done|]. by apply (fresh_kept _ _ _ Hf).
Qed.

Lemma commit_old_pages r pa' : backed s live r pa' → page_owned (pages (machine s')) pa' ∧ not_table (machine s') pa'.
Proof using All.
  intros Hr. pose proof (ok_machine _ _ _ _ _ _ _ _ Hok) as [Hwf _ _ _ Mo _ _]. destruct (Mo r pa' Hr) as [Hown Hnt]. split.
  - destruct (decide (phys_base o = VMM_PHYSADDR_NOMAP)) as [Hph|Hph]; [by eapply commit_new_page|].
    pose proof Htaken as Ht. unfold page_taken in Ht. rewrite decide_False in Ht by done. destruct Ht as [E1 _].
    destruct (changed_rest _ _ _ Hm) as (_ & _ & ->). by rewrite E1.
  - destruct (page_taken_wf _ _ _ _ _ Hwf Htaken) as (_ & _ & Epd & _). intros i Hi. rewrite (changed_pd _ _ _ Hm), Epd by done. by apply Hnt.
Qed.

Lemma commit_machine : machine_ok s' lo cnt (is_user a') fs live us'.
Proof using All.
  pose proof (ok_machine _ _ _ _ _ _ _ _ Hok) as [Mwf Mt Mn Me Mo Md Mp].
  destruct (page_taken_wf _ _ _ _ _ Mwf Htaken) as (_ & _ & _ & _ & Htab & _). destruct commit_page_range as (Hqp & Hqr & _).
  assert (∀ r, lo ≤ r < lo + cnt → is_page r) as Hpage by (intros r Hr; by apply Mt). split.
  - apply Hm.
  - intros r Hr. eapply changed_tables; [done|]. by apply Htab, Mt.
  - intros r Hr. rewrite commit_mapped, commit_uncommited by auto. rewrite (region_pages_ext (objects s)) by (intros p Hp; apply commit_object; set_solver).
    case_decide as E; [|rewrite Mn by done; tauto]. subst r. split; [done|]. intros [Hfree|[_ ?]]; [|done].
    destruct Hu as [_ Eo]. exfalso. eapply (live_not_free s); [done|apply Huok|done|done|done].
  - intros p op r e Hp Ep Hr He. rewrite commit_object in Ep by set_solver.
    assert (lo ≤ r < lo + cnt) as Hrr by (by eapply (live_page s)).
    rewrite commit_mapped, Hua in * by auto. case_decide as E; [|by eapply Me]. subst r. injection He as <-.
    pose proof (uo_live _ _ _ Huok) as Hlive. destruct Hu as [_ Eo].
    assert (p = object uo) as -> by (by eapply (live_disjoint s)).
    rewrite Eo in Ep. injection Ep as <-. exists pa. split; [apply Hpa|]. split; [apply Hpa|]. split; [done|]. intros Hph.
    pose proof Htaken as Ht. unfold page_taken in Ht. rewrite decide_False in Ht by done. apply Ht.
  - intros r pa' Hr%commit_backed. case_decide; [destruct Hr as [? ->]; split; by apply commit_new_page|by eapply commit_old_pages].
  - intros r r' pa' Hr%commit_backed Hr'%commit_backed. destruct (decide (r = q)), (decide (r' = q)); [congruence| | |by eapply Md].
    + destruct Hr as [Hph ->]. destruct (commit_new_page Hph) as (_ & _ & Hn). by destruct (Hn r' pa Hr').
    + destruct Hr' as [Hph ->]. destruct (commit_new_page Hph) as (_ & _ & Hn). by destruct (Hn r pa Hr).
  - intros p op Hp Ep. rewrite commit_object in Ep by set_solver. by eapply Mp.
Qed.

Lemma commit_ok : vmm_ok s' sp a' lo cnt fs live us'.
Proof using All. split; [done|apply commit_regions|apply commit_uncommited_ok|apply commit_machine]. Qed.
End After.

(** ** Running the handler *)

Lemma in_mmu_ok {A} (op : M (mmu P) A) s Q R : wp op (machine s) Q → (∀ r m, Q r m → R r (with_machine m s)) → wp (in_mmu op) s R.
Proof using Type.
  intros (r & m & E & HQ) HR. exists r, (with_machine m s). unfold in_mmu. rewrite E. split; [done|]. by apply HR.
Qed.

(** Where the physical page comes from. *)
Lemma take_page_ok s o q pa idx (Q : Z → vmm → Prop) : mmu_wf (machine s) → commit_source (machine s) o q pa →
  phys_ok (phys_base o) (npages o) → q ∈ opages o → idx = q - first_page o →
  (∀ m1, page_taken (machine s) o q pa m1 → range_ok pa 1 → pa mod 4096 = 0 → Q pa (with_machine m1 s)) →
  wp (if negb (phys_base o =? VMM_PHYSADDR_NOMAP)
      then mret (u32 (phys_base o + u32 (idx * ARCH_PAGESIZE)))
      else physaddr ← in_mmu alloc_page; if physaddr =? 0 then throw Panic else mret physaddr) s Q.
Proof using Type.
  intros Hwf Hsrc Hphys Hq -> HQ. unfold commit_source in Hsrc. unfold page_taken in HQ. apply elem_of_opages in Hq.
  destruct (Z.eqb_spec (phys_base o) VMM_PHYSADDR_NOMAP) as [E|E]; cbn [negb].
  - rewrite decide_True in Hsrc by done. destruct Hsrc as (n & p' & Ha & Hpa & Hlim).
    destruct (page_alloc_law (pages (machine s)) (wf_pages _ (proj1 Hwf))) as (pa' & n' & p'' & E' & Hok' & Hout).
    rewrite Ha in E'. injection E' as <- <- <-. destruct Hout as [[? _]|(_ & Hu & Hal & Hav & Hown & Hoth & Hkept)]; [done|].
    apply wp_bind. exists pa, (with_machine (with_pages p' (machine s)) s). split; [unfold in_mmu, alloc_page; by rewrite Ha|].
    destruct (Z.eqb_spec pa 0); [done|]. apply wp_ret. apply HQ; [|split; unfold is_u32 in Hu; lia|done].
    rewrite decide_True by done. exists p'. split; [done|]. by split.
  - rewrite decide_False in Hsrc by done. destruct Hphys as [?|(Hal & Hpos & Hlim)]; [done|]. change (2 ^ 32) with 4294967296 in *.
    apply wp_ret. unfold ARCH_PAGESIZE. rewrite !u32_small by (rewrite ?u32_small; change (2 ^ 32) with 4294967296; lia).
    replace (phys_base o + (q - first_page o) * 4096) with pa by lia. destruct s. apply HQ; [by rewrite decide_False| |subst; dlia].
    split; change (2 ^ 32) with 4294967296; lia.
Qed.

(** What the handler establishes. *)
Definition fault_post s (sp lo cnt : Z) (a : vmm_address_space) (fs live us : list Z) (o : vmm_object) (q pa : Z) (s' : vmm) : Prop :=
  ∃ a' us', vmm_ok s' sp a' lo cnt fs live us' ∧ is_user a' = is_user a ∧
    (∀ p, p ∈ fs ++ live → objects s' !! p = objects s !! p) ∧
    mapped (machine s') q = Some (mapping_entry pa (mapflags o) (is_user a)) ∧
    ∀ r, lo ≤ r < lo + cnt →
      (uncommited s' us' r ↔ uncommited s us r ∧ r ≠ q) ∧ (r ≠ q → mapped (machine s') r = mapped (machine s) r).

Lemma fault_post_intro s s' sp a a' lo cnt fs live u1 u2 us' u uo o q pa b m1 :
  vmm_ok s sp a lo cnt fs live (u1 ++ u :: u2) → has_uobject s u uo o → uobject_ok live uo o → q ∈ opages o →
  bit (committed_bitmap uo) (q - first_page o) = true → bits_updated (committed_bitmap uo) b (q - first_page o) 1 false →
  page_taken (machine s) o q pa m1 → is_u32 pa ∧ pa mod 4096 = 0 →
  changed (one q (mapping_entry pa (mapflags o) (is_user a))) m1 (machine s') →
  lists_ok s' sp a' fs us' live → is_user a' = is_user a →
  (∀ p, p ≠ u → objects s' !! p = objects s !! p) → (∀ v, v ≠ u → uobjects s' !! v = uobjects s !! v) →
  us' = u1 ++ u :: u2 ∧ uobjects s' !! u = Some (with_bitmap b uo) ∨ us' = u1 ++ u2 ∧ (∀ i, bit b i = false) →
  fault_post s sp lo cnt a fs live (u1 ++ u :: u2) o q pa s'.
Proof using Type.
  intros Hok Hu Huok Hq Hbit Hb Htaken Hpa Hm Hl' Hua Hobj Huobj Hus. exists a', us'.
  pose proof (commit_ok s s' sp a a' lo cnt fs live u1 u2 us' u uo o q pa b m1) as H1.
  pose proof (commit_object s s' sp a a' lo cnt fs live u1 u2 us' u uo o q pa b m1) as H2.
  pose proof (commit_mapped s s' sp a a' lo cnt fs live u1 u2 us' u uo o q pa b m1) as H3.
  pose proof (commit_uncommited s s' sp a a' lo cnt fs live u1 u2 us' u uo o q pa b m1) as H4.
  pose proof (commit_page_range s s' sp a a' lo cnt fs live u1 u2 us' u uo o q pa b m1) as H5.
  destruct H5 as (Hqp & Hqr & _); [done..|].
  split; [by apply H1|]. split; [done|]. split; [by apply H2|].
  split; [rewrite H3 by done; by rewrite decide_True|]. intros r Hr. split; [by apply H4|]. intros Hne.
  assert (is_page r) by (by apply (mc_table _ _ _ _ _ _ _ (ok_machine _ _ _ _ _ _ _ _ Hok))).
  rewrite H3 by done. by rewrite decide_False.
Qed.

Lemma page_index_eq o q : object_wf o → q ∈ opages o → s32 (u32 (4096 * q - start o) / ARCH_PAGESIZE) = q - first_page o.
Proof using Type.
  clear. intros Hwf Hq%elem_of_opages. destruct (object_wf_eq o Hwf) as (-> & _ & H0 & Hn & Hl). change (2 ^ 20) with 1048576 in Hl.
  unfold ARCH_PAGESIZE. rewrite u32_small by (change (2 ^ 32) with 4294967296; lia).
  rewrite s32_small; [dlia|]. change (2 ^ 31) with 2147483648. dlia.
Qed.

Lemma commit_page_ok s sp a lo cnt fs live u1 u u2 uo o q pa :
  vmm_ok s sp a lo cnt fs live (u1 ++ u :: u2) → has_uobject s u uo o → uobject_ok live uo o → q ∈ opages o →
  bit (committed_bitmap uo) (q - first_page o) = true → irq (machine s) = false → has (mapflags o) MAP_PROT_READ = true →
  commit_source (machine s) o q pa →
  wp (commit_page u (4096 * q)) s (λ _, fault_post s sp lo cnt a fs live (u1 ++ u :: u2) o q pa).
Proof using Type.
  intros Hok Hu Huok Hq Hbit Hirq Hfl Hsrc. pose proof Hu as [Eu Eo]. pose proof (ok_machine _ _ _ _ _ _ _ _ Hok) as HM.
  pose proof (ok_lists _ _ _ _ _ _ _ _ Hok) as Hl. pose proof (uo_live _ _ _ Huok) as Hlive.
  destruct (vmm_ok_object _ _ _ _ _ _ _ _ (object uo) Hok) as (o' & [Eo' Hwf] & Hsp); [set_solver|]. rewrite Eo in Eo'. injection Eo' as <-.
  assert (lo ≤ q < lo + cnt) as Hr by (by eapply (live_page s)). pose proof (mc_table _ _ _ _ _ _ _ HM q Hr) as Ht.
  set (idx := q - first_page o) in *.
  assert (0 ≤ idx < word_count (committed_bitmap uo) * BITS_PER_WORD) as Hidx.
  { pose proof (uo_bits _ _ _ Huok _ Hbit). pose proof (uo_long _ _ _ Huok). lia. }
  unfold commit_page. apply wp_bind. exists uo, s. split; [unfold read_uobject; by rewrite Eu|].
  apply wp_bind. exists o, s. split; [by apply read_object_eq|]. rewrite page_index_eq by done. fold idx.
  apply wp_bind. eapply wp_lift; [by apply is_bit_set_ok; [apply Huok|]|]. rewrite Hbit. cbn [negb].
  destruct (clear_bit_ok (committed_bitmap uo) idx (uo_bitmap _ _ _ Huok) Hidx) as (b & Eb & Hb).
  apply wp_bind. eapply wp_lift; [done|].
  set (s1 := with_uobjects (<[u := with_bitmap b uo]> (uobjects s)) s).
  apply wp_bind. exists tt, s1. split; [unfold write_uobject; by rewrite Eu|].
  apply wp_bind. apply (take_page_ok s1 o q pa idx); [apply HM|done|by eapply (mc_phys _ _ _ _ _ _ _ HM)|done|done|].
  intros m1 Htaken Hrange Hal. destruct (page_taken_wf _ _ _ _ _ (mc_wf _ _ _ _ _ _ _ HM) Htaken) as (Hwf1 & Hirq1 & _ & _ & Htab & _).
  apply wp_bind. exists a, (with_machine m1 s1). split.
  { unfold read_space. cbn. by rewrite Hsp, (lk_space _ _ _ _ _ _ Hl). }
  apply wp_bind. eapply in_mmu_ok.
  { apply map_one_ok; [done|cbn; by rewrite Hirq1|by apply Htab| | |done|done|done].
    - destruct Ht as ([? ?] & _ & ?). unfold is_user_page. change (2 ^ 20) with 1048576 in *. dlia.
    - apply elem_of_opages in Hq. destruct (object_wf_eq o Hwf) as (_ & _ & ? & _). lia. }
  intros ret m2 [-> Hm]. cbn [Z.ltb Z.compare].
  change (with_machine m2 (with_machine m1 s1)) with (with_machine m2 s1). set (s2 := with_machine m2 s1).
  assert (is_u32 pa ∧ pa mod 4096 = 0) as Hpa by (destruct Hrange; unfold is_u32; split; [lia|done]).
  destruct (find_first_set_bit_ok b 0) as (first & Ef & Hfirst); [apply Hb|done|].
  apply wp_bind. eapply wp_lift; [done|].
  assert (lists_ok s2 sp a fs (u1 ++ u :: u2) live) as Hl2 by (by apply lists_ok_machine, lists_ok_uobjects).
  assert (∀ v, v ≠ u → uobjects s2 !! v = uobjects s !! v) as Huobj by (intros v Hv; cbn; by apply lookup_insert_ne).
  destruct (Z.ltb_spec first 0) as [Hneg|Hpos].
  - destruct (remove_uncommited_ok s2 sp a fs u1 u u2 live Hl2) as (l' & nn & E & Hl3).
    destruct (free_ok _ _ _ _ _ _ _ Hl3) as (h & Ef' & Hl4). rewrite Hsp. apply wp_bind. eexists tt, _. split; [exact E|].
    eexists tt, _. split; [exact Ef'|].
    eapply (fault_post_intro s _ sp a (with_uncommited l' a) lo cnt fs live u1 u2 (u1 ++ u2) u uo o q pa b m1);
      [done..| | |right; split; [done|]].
    + intros p Hp. cbn. by apply lookup_delete_ne.
    + intros v Hv. cbn. rewrite lookup_delete_ne by done. by apply Huobj.
    + intros i. destruct Hfirst as [[_ Hz]|(? & _)]; [|lia]. destruct (Z.leb_spec 0 i); [by apply Hz|].
      unfold bit. destruct (Z.leb_spec 0 i); [lia|done].
  - apply wp_ret. eapply (fault_post_intro s _ sp a a lo cnt fs live u1 u2 (u1 ++ u :: u2) u uo o q pa b m1);
      [done..|left; split; [done|]]. cbn. by rewrite lookup_insert_eq.
Qed.

Lemma translate_mapped (m : mmu P) q off w e : tables_wf m → is_page q → 0 ≤ off < 4096 → mapped m q = Some e →
  (w = true → writable e) → translate m w (4096 * q + off) = Some (page_of e + off).
Proof using Type.
  intros Hwf Hq Ho Hm Hw. rewrite translate_at by done. destruct (mapped_entry m q e Hm) as (He & Hpr & Hpd).
  destruct (page_split q Hq) as (Hi & _). unfold entry, present in He, Hpd. rewrite Hpd in He. injection He as ->.
  rewrite !present_allows; [done|done|done|done|]. intros _. by apply (wf_rw m Hwf).
Qed.

(** The object on the list of the uncommitted ones that the page belongs to. *)
Lemma uncommited_split s sp a lo cnt fs live us p o q : vmm_ok s sp a lo cnt fs live us → p ∈ live → objects s !! p = Some o →
  q ∈ opages o → uncommited s us q →
  ∃ u1 u u2 uo, us = u1 ++ u :: u2 ∧ has_uobject s u uo o ∧ uobject_ok live uo o ∧ object uo = p ∧
    bit (committed_bitmap uo) (q - first_page o) = true ∧ first_covering s (4096 * q) us = u.
Proof using Type.
  intros Hok Hp Ho Hq (u & uo & o' & Hu & [Eu Eo] & Hbit). pose proof (ok_uncommited _ _ _ _ _ _ _ _ Hok) as [Huo Huniq].
  destruct (Huo u Hu) as (uo' & o'' & [Eu' Eo'] & Huok). rewrite Eu in Eu'. injection Eu' as <-. rewrite Eo in Eo'. injection Eo' as <-.
  assert (∀ v vo ov, v ∈ us → has_uobject s v vo ov → uobject_ok live vo ov → q ∈ opages ov → v = u) as Honly.
  { intros v vo ov Hv [Ev Eov] Hvok Hqv. apply (Huniq v u vo uo); [done..|]. eapply (live_disjoint s _ _ _ _ _ _ _ _ ov _ o' q Hok);
      [apply Hvok|apply Huok|done|done|done|]. apply elem_of_opages. pose proof (uo_bits _ _ _ Huok _ Hbit). lia. }
  assert (object uo = p) as Ep.
  { eapply (live_disjoint s _ _ _ _ _ _ _ _ o' _ o q Hok); [apply Huok|done|done|done| |done].
    apply elem_of_opages. pose proof (uo_bits _ _ _ Huok _ Hbit). lia. }
  rewrite Ep, Ho in Eo. injection Eo as <-. destruct (list_elem_of_split us u Hu) as (u1 & u2 & Eus). exists u1, u, u2, uo.
  assert (∀ v, v ∈ live → ∀ ov, objects s !! v = Some ov → covers (4096 * q) ov = true → q ∈ opages ov) as Hcov.
  { intros v Hv ov Eov Hc. destruct (vmm_ok_object _ _ _ _ _ _ _ _ v Hok) as (ov' & [Eov' Hwf] & _); [set_solver|].
    rewrite Eov in Eov'. injection Eov' as <-. replace q with (4096 * q / 4096) by dlia. apply object_page_wf; [done|].
    unfold covers in Hc. apply andb_true_iff in Hc as [?%Z.leb_le ?%Z.leb_le]. done. }
  split; [done|]. split; [split; [done|by rewrite Ep]|]. split; [done|]. split; [done|]. split; [done|].
  rewrite Eus. apply (first_covering_some s _ u1 u u2 uo o); [|split; [done|by rewrite Ep]|].
  - intros v Hv. assert (v ∈ us) as Hvus by (rewrite Eus; set_solver). destruct (Huo v Hvus) as (vo & ov & Hvo & Hvok).
    exists vo, ov. split; [done|]. destruct (covers (4096 * q) ov) eqn:Hc; [|done]. exfalso.
    assert (v = u) as -> by (eapply Honly; [done|done|done|]; eapply Hcov; [apply Hvok|apply Hvo|done]).
    pose proof (lk_nodup _ _ _ _ _ _ (ok_lists _ _ _ _ _ _ _ _ Hok)) as (_ & _ & Hnd)%NoDup_app. rewrite Eus in Hnd.
    apply NoDup_app in Hnd as [Hnd _]. rewrite <- Permutation_middle in Hnd. apply NoDup_cons in Hnd as [Hout _]. set_solver.
  - destruct (vmm_ok_object _ _ _ _ _ _ _ _ p Hok) as (o' & [Eo' Hwf] & _); [set_solver|]. rewrite Ho in Eo'. injection Eo' as <-.
    unfold covers. destruct (proj2 (object_page_wf o (4096 * q) Hwf)) as [H1 H2]; [by replace (4096 * q / 4096) with q by dlia|].
    apply andb_true_iff. by split; apply Z.leb_le.
Qed.

Lemma vmm_page_fault_ok s sp vm_start a lo cnt fs live us ptr was_write was_user p o pa :
  vmm_ok s sp a lo cnt fs live us → sp ≠ NULL → initialized s = true → irq (machine s) = false →
  vm_start mod 4096 = 0 → vm_start ≤ ptr ≤ ARCH_KERNEL_VM_END →
  p ∈ live → objects s !! p = Some o → ptr / 4096 ∈ opages o → uncommited s us (ptr / 4096) →
  has (mapflags o) MAP_PROT_READ = true → commit_source (machine s) o (ptr / 4096) pa →
  wp (vmm_page_fault sp vm_start ptr false was_write was_user) s (λ _, fault_post s sp lo cnt a fs live us o (ptr / 4096) pa).
Proof using Type.
  intros Hok Hsp Hinit Hirq Hvm Hptr Hp Ho Hq Hun Hfl Hsrc. set (q := ptr / 4096) in *.
  pose proof (ok_machine _ _ _ _ _ _ _ _ Hok) as HM. assert (lo ≤ q < lo + cnt) as Hr by (by eapply (live_page s)).
  assert (is_page q) as Hqp by (by apply (mc_table _ _ _ _ _ _ _ HM)).
  destruct (vmm_ok_object _ _ _ _ _ _ _ _ p Hok) as (o' & [Eo' Hwf] & _); [set_solver|]. rewrite Ho in Eo'. injection Eo' as <-.
  assert (ptr - ptr mod 4096 = 4096 * q) as Ebase by (unfold q; dlia).
  unfold vmm_page_fault. apply wp_bind. exists (4096 * q), s. split.
  { unfold lift, align_ptr_down, ARCH_PAGESIZE. cbn. by rewrite Ebase. }
  assert (mapped (machine s) q = None) as Hnone by (apply (mc_none _ _ _ _ _ _ _ HM); [done|by right]).
  destruct (emulate_unmapped (machine s) q (ptr mod 4096) (if was_write then Z.lor MAP_PROT_READ MAP_PROT_WRITE else MAP_PROT_READ) was_user)
    as [e He]; [apply HM|done|by apply Z.mod_pos_bound|done|].
  replace (4096 * q + ptr mod 4096) with ptr in He by (unfold q; dlia).
  apply wp_bind. eexists _, s. split; [unfold in_mmu; rewrite He; by destruct s|]. cbn iota.
  assert (4096 * q ≠ 0) as Hq0.
  { apply elem_of_opages in Hq. destruct (object_wf_eq o Hwf) as (_ & _ & ? & _). lia. }
  destruct (Z.eqb_spec (4096 * q) 0); [done|].
  apply wp_bind. exists sp, s. split.
  { unfold vmm_get_address_space_of. destruct (Z.leb_spec vm_start (4096 * q)) as [_|]; [|unfold q in *; dlia].
    destruct (Z.leb_spec (4096 * q) ARCH_KERNEL_VM_END) as [_|]; [|unfold q in *; dlia]. cbn [andb].
    unfold vmm_get_kernel_address_space. rewrite (M_bind_step get _ s s s) by done. by rewrite Hinit. }
  destruct (Z.eqb_spec sp NULL); [done|].
  destruct (uncommited_split s sp a lo cnt fs live us p o q Hok Hp Ho Hq Hun) as (u1 & u & u2 & uo & -> & Hu & Huok & _ & Hbit & Hfirst).
  apply wp_bind. exists u, s. split.
  { rewrite (find_object_in_uncommited_eq s sp a fs (u1 ++ u :: u2) live); [by rewrite Ebase, Hfirst|apply Hok|].
    intros v Hv. destruct (uc_objects _ _ _ (ok_uncommited _ _ _ _ _ _ _ _ Hok) v Hv) as (vo & ov & ? & _). by exists vo, ov. }
  pose proof (lists_not_null _ _ _ _ _ _ u (ok_lists _ _ _ _ _ _ _ _ Hok) ltac:(set_solver)). destruct (Z.eqb_spec u NULL); [done|].
  by eapply commit_page_ok.
Qed.

(** The physical page is a page. *)
Lemma commit_source_page s sp a lo cnt fs live us p o q pa : vmm_ok s sp a lo cnt fs live us → p ∈ live → objects s !! p = Some o →
  q ∈ opages o → commit_source (machine s) o q pa → is_u32 pa ∧ pa mod 4096 = 0.
Proof using Type.
  intros Hok Hp Ho Hq%elem_of_opages Hsrc. pose proof (ok_machine _ _ _ _ _ _ _ _ Hok) as HM. unfold commit_source in Hsrc. case_decide as Hph.
  - destruct Hsrc as (n & p' & Ha & Hpa & Hlim).
    destruct (page_alloc_law (pages (machine s)) (wf_pages _ (proj1 (mc_wf _ _ _ _ _ _ _ HM)))) as (pa' & n' & p'' & E' & Hok' & Hout).
    rewrite Ha in E'. injection E' as <- <- <-. by destruct Hout as [[? _]|(_ & Hu & Hal & _)].
  - destruct (mc_phys _ _ _ _ _ _ _ HM p o Hp Ho) as [?|(Hal & Hpos & Hlim)]; [done|]. subst pa. unfold is_u32.
    change (2 ^ 32) with 4294967296 in *. split; [lia|dlia].
Qed.
End Fault.
