(* ===== verification/VmmFree.v ===== *)
(** Freeing virtual memory: [vmm_free] unmaps the pages of an object, gives the
    physical pages it was committed with back, and puts its region back on the
    list of the free ones. *)
From S2P Require Import Prelude MiscMath Bitmap CList Arch HeapIface PmmIface.
From S2P Require Import Mmu MmuSafe MmuPages MmuCorrect Vmm VmmLists VmmRegions VmmInv VmmFault.

Section Free.
Context {H P : Type} `{!HeapOps H, !HeapLaws H, !PmmOps P, !PmmLaws P}.
Local Abbreviation vmm := (vmm H P).
Implicit Types s : vmm.

(** ** One page *)

Lemma virtual_to_physical_page (m : mmu P) q : mmu_wf m → is_page q →
  arch_mmu_virtual_to_physical (4096 * q) m =
    Ok (match mapped m q with Some e => inr (page_of e) | None => inl (- EFAULT) end, m).
Proof using Type.
  intros [Hwf _] Hq. replace (4096 * q) with (4096 * q + 0) by lia. unfold arch_mmu_virtual_to_physical.
  destruct (virt_indices q 0 Hq) as [-> ->]; [lia|]. rewrite offset_eq. replace ((4096 * q + 0) mod 4096) with 0 by dlia.
  destruct (page_split q Hq) as (Hi & Hj & _). rewrite (M_bind_step _ _ _ _ _ (read_pagedir m _ Hwf Hi)).
  unfold mapped, entry. destruct (has (pd m _) ARCHI586_MMU_COMMON_FLAG_P) eqn:E; [|done]. cbn [negb].
  rewrite (M_bind_step _ _ _ _ _ (read_pagetable m _ _ Hwf Hi Hj E)).
  destruct (has (pt m _ _) ARCHI586_MMU_COMMON_FLAG_P); [|done]. cbn [negb]. rewrite Z.add_0_r, u32_small by apply page_of_range. done.
Qed.

Lemma mmu_wf_freed (m : mmu P) pa p' : mmu_wf m → not_table m pa → pages_ok p' →
  (∀ b, page_available p' b → b = pa ∨ page_available (pages m) b) → mmu_wf (with_pages p' m).
Proof using Type.
  intros [Hwf Htlb] Hnt Hok Hav. split; [|done]. destruct Hwf. split; try done.
  intros i Hi Hpr [E|Hb]%Hav; [by apply (Hnt i Hi Hpr)|]. by eapply wf_not_available.
Qed.

(** The machine [m], after the pages of [o] from its first one up to [k] were
    released, which were mapped in [m0]. *)
Definition freed_by (m0 : mmu P) (o : vmm_object) (k b : Z) : Prop :=
  phys_base o = VMM_PHYSADDR_NOMAP ∧
  ∃ r e, first_page o ≤ r < first_page o + k ∧ mapped m0 r = Some e ∧ page_of e = b.

Record released (m0 : mmu P) (o : vmm_object) (k : Z) (m : mmu P) : Prop := {
  rl_wf : mmu_wf m;
  rl_irq : irq m = irq m0;
  rl_pd i : is_index i → pd m i = pd m0 i;
  rl_mapped r : is_page r → mapped m r = if decide (first_page o ≤ r < first_page o + k) then None else mapped m0 r;
  rl_owned b : page_owned (pages m) b ↔ page_owned (pages m0) b ∧ ¬ freed_by m0 o k b;
}.

(** What the machine has to satisfy before. *)
Record releasable (m0 : mmu P) (o : vmm_object) : Prop := {
  ra_wf : mmu_wf m0;
  ra_irq : irq m0 = false;
  ra_page r : r ∈ opages o → is_user_page r ∧ r ≠ 0;
  ra_owned r e : phys_base o = VMM_PHYSADDR_NOMAP → r ∈ opages o → mapped m0 r = Some e →
    page_owned (pages m0) (page_of e) ∧ not_table m0 (page_of e);
  ra_distinct r r' e e' : phys_base o = VMM_PHYSADDR_NOMAP → r ∈ opages o → r' ∈ opages o →
    mapped m0 r = Some e → mapped m0 r' = Some e' → page_of e = page_of e' → r = r';
}.

Lemma released_none m0 o k m : released m0 o k m → 0 ≤ k → is_page (first_page o + k) → mapped m (first_page o + k) = None →
  released m0 o (k + 1) m.
Proof using Type.
  intros [Hwf Hirq Hpd Hm Hown] Hk Hq Hnone. rewrite Hm, decide_False in Hnone by (done || lia). split; [done|done|done| |].
  - intros r Hr. rewrite Hm by done. destruct (decide (r = first_page o + k)) as [->|Hne].
    + by rewrite decide_False, decide_True by lia.
    + repeat case_decide; (done || lia).
  - intros b. rewrite Hown. unfold freed_by. split; intros [Hb Hn]; (split; [done|]); intros [Hph (r & e & Hr & He & Hpa)]; apply Hn;
      (split; [done|]).
    + exists r, e. split; [|done]. destruct (decide (r = first_page o + k)) as [->|]; [congruence|lia].
    + exists r, e. split; [lia|done].
Qed.

Lemma released_one m0 o k m m1 m2 e : releasable m0 o → released m0 o k m → first_page o + k ∈ opages o → 0 ≤ k →
  mapped m (first_page o + k) = Some e →
  mmu_wf m1 → irq m1 = irq m → (∀ i, pd m1 i = pd m i) → (∀ r, mapped m1 r = mapped m r) →
  (∀ b, page_owned (pages m1) b ↔ page_owned (pages m) b ∧ ¬ (phys_base o = VMM_PHYSADDR_NOMAP ∧ b = page_of e)) →
  changed (one (first_page o + k) 0) m1 m2 → released m0 o (k + 1) m2.
Proof using Type.
  intros Hra [Hwf Hirq Hpd Hm Hown] Hq Hk He Hwf1 Hirq1 Hpd1 Hm1 Hown1 Hc. destruct (changed_rest _ _ _ Hc) as (_ & Hirq2 & Hpages2).
  assert (is_page (first_page o + k)) as Hqp by (apply user_page_ok, (ra_page _ _ Hra); done).
  rewrite Hm, decide_False in He by (done || lia). split.
  - apply Hc.
  - by rewrite Hirq2, Hirq1.
  - intros i Hi. by rewrite (changed_pd _ _ _ Hc), Hpd1, Hpd.
  - intros r Hr. rewrite (changed_one_mapped _ _ _ _ _ Hc), Hm1, Hm by done. cbn. repeat case_decide; (done || lia).
  - intros b. rewrite Hpages2, Hown1, Hown. unfold freed_by. split.
    + intros [[Hb Hn] Hn']. split; [done|]. intros [Hph (r & e' & Hr & He' & Hpa)].
      destruct (decide (r = first_page o + k)) as [->|]; [apply Hn'; split; [done|congruence]|].
      apply Hn. split; [done|]. exists r, e'. split; [lia|done].
    + intros [Hb Hn]. split; [split; [done|]|].
      * intros [Hph (r & e' & Hr & He' & Hpa)]. apply Hn. split; [done|]. exists r, e'. split; [lia|done].
      * intros [Hph ->]. apply Hn. split; [done|]. exists (first_page o + k), e. split; [lia|done].
Qed.

Lemma release_page_ok s m0 o k : releasable m0 o → released m0 o k (machine s) → 0 ≤ k < npages o →
  wp (release_page (phys_base o) (4096 * (first_page o + k))) s (λ _ s', ∃ m, s' = with_machine m s ∧ released m0 o (k + 1) m).
Proof using Type.
  intros Hra Hrl Hk. set (q := first_page o + k). assert (q ∈ opages o) as Hq by (apply elem_of_opages; unfold q; lia).
  destruct (ra_page _ _ Hra q Hq) as [Hu H0]. destruct (user_page_ok q Hu) as [Hqp _].
  unfold release_page. apply wp_bind. eexists _, s. split.
  { unfold in_mmu. rewrite (virtual_to_physical_page (machine s) q (rl_wf _ _ _ _ Hrl) Hqp). by destruct s. }
  destruct (mapped (machine s) q) as [e|] eqn:He; last first.
  { apply wp_ret. exists (machine s). split; [by destruct s|]. apply released_none; (done || lia). }
  assert (mapped m0 q = Some e) as He0 by (rewrite (rl_mapped _ _ _ _ Hrl), decide_False in He by (done || lia); done).
  destruct (Z.eqb_spec (phys_base o) VMM_PHYSADDR_NOMAP) as [Hph|Hph].
  - destruct (ra_owned _ _ Hra q e Hph Hq He0) as [Hown Hnt].
    assert (page_owned (pages (machine s)) (page_of e)) as Hown'.
    { apply (rl_owned _ _ _ _ Hrl). split; [done|]. intros (_ & r & e' & Hr & He' & Hpa).
      assert (r = q) as -> by (eapply (ra_distinct _ _ Hra); [done| |done|done|done|done]; apply elem_of_opages; lia). lia. }
    destruct (page_free_law (pages (machine s)) (page_of e) (wf_pages _ (proj1 (rl_wf _ _ _ _ Hrl))) Hown') as (p' & Ef & Hok' & Hav & Hown2).
    apply wp_bind. exists tt, (with_machine (with_pages p' (machine s)) s). split; [unfold in_mmu, free_page; by rewrite Ef|].
    assert (mmu_wf (with_pages p' (machine s))) as Hwf1.
    { eapply mmu_wf_freed; [apply Hrl| |done|done]. intros i Hi. rewrite (rl_pd _ _ _ _ Hrl) by done. by apply Hnt. }
    apply wp_bind. eapply in_mmu_ok.
    { apply (unmap_one_ok (with_pages p' (machine s)) q e); [done| |done|done|done]. cbn. by rewrite (rl_irq _ _ _ _ Hrl), (ra_irq _ _ Hra). }
    intros ret m2 [-> Hc]. apply wp_ret. exists m2. split; [done|].
    eapply (released_one m0 o k (machine s)); [done|done|done|lia|done|exact Hwf1|done|done|done| |done].
    intros b. cbn. rewrite Hown2. naive_solver.
  - apply wp_bind. exists tt, s. split; [done|]. apply wp_bind. eapply in_mmu_ok.
    { apply (unmap_one_ok (machine s) q e); [apply Hrl| |done|done|done]. by rewrite (rl_irq _ _ _ _ Hrl), (ra_irq _ _ Hra). }
    intros ret m2 [-> Hc]. apply wp_ret. exists m2. split; [done|].
    eapply (released_one m0 o k (machine s)); [done|done|done|lia|done|apply Hrl|done|done|done| |done]. naive_solver.
Qed.

(** ** All pages of an object *)

Lemma release_loop_ok s o : releasable (machine s) o → object_wf o →
  wp (release_pages o) s
     (λ _ s', ∃ m, s' = with_machine m s ∧ released (machine s) o (npages o) m).
Proof using Type.
  intros Hra Hwf. destruct (object_wf_eq o Hwf) as (Es & Ee & H0 & Hn & Hl). change (2 ^ 20) with 1048576 in Hl.
  apply (wp_loop _ (λ ptr s', ∃ k m, 0 ≤ k ≤ npages o ∧ ptr = 4096 * (first_page o + k) ∧ s' = with_machine m s ∧ released (machine s) o k m)
    (λ ptr, Z.to_nat (first_page o + npages o - ptr / 4096))).
  - intros ptr s' (k & m & Hk & -> & -> & Hrl). destruct (Z.leb_spec (4096 * (first_page o + k)) (end_ o)).
    + apply wp_bind. eapply wp_mono; [apply (release_page_ok (with_machine m s) (machine s) o k); [done|done|lia]|].
      intros [] s2 (m2 & -> & Hrl2). apply wp_ret. split.
      * exists (k + 1), m2. split; [lia|]. split; [|done].
        unfold ARCH_PAGESIZE. rewrite u32_small; change (2 ^ 32) with 4294967296; lia.
      * unfold ARCH_PAGESIZE. rewrite u32_small by (change (2 ^ 32) with 4294967296; lia). dlia.
    + apply wp_ret. assert (k = npages o) as -> by lia. by exists m.
  - exists 0, (machine s). split; [lia|]. split; [lia|]. split; [by destruct s|]. split; [apply Hra|done|done| |].
    + intros r _. by rewrite decide_False by lia.
    + intros b. unfold freed_by. split; [|by intros []]. intros Hb. split; [done|]. intros (_ & r & e & Hr & _). lia.
  - unfold ARCH_PAGESIZE. rewrite Es, Ee. dlia.
Qed.

(** ** The memory after an object was freed *)
Section After.
Context (s s' : vmm) (sp : Z) (a a' : vmm_address_space) (lo cnt : Z) (fs fs' l1 : list Z) (p : Z) (l2 us us' : list Z) (o : vmm_object).
Local Abbreviation live := (l1 ++ p :: l2).
Hypothesis Hok : vmm_ok s sp a lo cnt fs live us.
Hypothesis Ho : objects s !! p = Some o.
Hypothesis Hl' : lists_ok s' sp a' fs' us' (l1 ++ l2).
Hypothesis Hua : is_user a' = is_user a.
Hypothesis Hfs : fs' ≡ₚ p :: fs.
Hypothesis Hobj : ∀ q, q ∈ fs ++ live → objects s' !! q = objects s !! q.
Hypothesis Huobj : ∀ v, v ∈ us' → uobjects s' !! v = uobjects s !! v.
Hypothesis Hus : ∀ v, v ∈ us' ↔ v ∈ us ∧ ∀ uo, uobjects s !! v = Some uo → object uo ≠ p.
Hypothesis Hwf : mmu_wf (machine s').
Hypothesis Hpd : ∀ i, is_index i → pd (machine s') i = pd (machine s) i.
Hypothesis Hm : ∀ r, is_page r → mapped (machine s') r = if decide (r ∈ opages o) then None else mapped (machine s) r.
Hypothesis Hown : ∀ b, page_owned (pages (machine s')) b ↔ page_owned (pages (machine s)) b ∧ ¬ freed_by (machine s) o (npages o) b.

Lemma freed_objects : fs' ++ l1 ++ l2 ≡ₚ fs ++ live.
Proof using Hfs. clear -Hfs. rewrite Hfs, <- (Permutation_middle l1). by rewrite <- Permutation_middle. Qed.

Lemma freed_object q : q ∈ fs' ++ l1 ++ l2 → objects s' !! q = objects s !! q.
Proof using Hfs Hobj. clear -Hfs Hobj. rewrite freed_objects. apply Hobj. Qed.

Lemma freed_regions : regions_ok s' sp lo cnt fs' (l1 ++ l2).
Proof using All.
  pose proof (ok_regions _ _ _ _ _ _ _ _ Hok) as [Hos Hpages]. split.
  - intros q Hq. pose proof Hq as Hq'. rewrite freed_objects in Hq'. destruct (Hos q Hq') as (oq & [Eq Hwq] & Hsp).
    exists oq. split; [|done]. split; [|done]. by rewrite freed_object.
  - rewrite (region_pages_ext (objects s)) by (intros q Hq; by apply freed_object). by rewrite freed_objects.
Qed.

Lemma freed_has_uobject v vo ov : v ∈ us' → has_uobject s v vo ov → uobject_ok live vo ov →
  has_uobject s' v vo ov ∧ uobject_ok (l1 ++ l2) vo ov.
Proof using All.
  intros Hv [Ev Eov] [Hlive Hbm Hlong Hbits]. apply Hus in Hv as Hv'. destruct Hv' as [_ Hne]. pose proof (Hne vo Ev).
  assert (object vo ∈ l1 ++ l2) as Hin by set_solver. split; [|by split].
  split; [by rewrite Huobj|]. rewrite Hobj; [done|set_solver].
Qed.

Lemma freed_uncommited_ok : uncommited_ok s' (l1 ++ l2) us'.
Proof using All.
  pose proof (ok_uncommited _ _ _ _ _ _ _ _ Hok) as [Huo Huniq]. split.
  - intros v Hv. apply Hus in Hv as Hv'. destruct (Huo v (proj1 Hv')) as (vo & ov & Hvo & Hvok). exists vo, ov.
    by apply freed_has_uobject.
  - intros v v' vo vo' Hv Hv'. rewrite !Huobj by done. apply Hus in Hv as [Hv _]. apply Hus in Hv' as [Hv' _]. by apply Huniq.
Qed.

Lemma freed_uncommited r : uncommited s' us' r ↔ uncommited s us r ∧ r ∉ opages o.
Proof using All.
  pose proof (ok_uncommited _ _ _ _ _ _ _ _ Hok) as [Huo _]. split.
  - intros (v & vo & ov & Hv & [Ev Eov] & Hbv). apply Hus in Hv as Hv'. destruct Hv' as [Hvus Hne].
    destruct (Huo v Hvus) as (vo' & ov' & Hvo' & Hvok). destruct (freed_has_uobject v vo' ov' Hv Hvo' Hvok) as [[Ev2 Eov2] _].
    rewrite Ev2 in Ev. injection Ev as <-. rewrite Eov2 in Eov. injection Eov as <-. split; [by exists v, vo', ov'|].
    intros Hr. apply (Hne vo'); [apply Hvo'|].
    eapply (live_disjoint s); [done|apply Hvok| |apply Hvo'|done| |done]; [set_solver|].
    apply elem_of_opages. pose proof (uo_bits _ _ _ Hvok _ Hbv). lia.
  - intros [(v & vo & ov & Hv & Hvo & Hbv) Hr]. destruct (Huo v Hv) as (vo' & ov' & Hvo' & Hvok).
    destruct Hvo as [Ev Eov], Hvo' as [Ev' Eov']. rewrite Ev in Ev'. injection Ev' as <-. rewrite Eov in Eov'. injection Eov' as <-.
    assert (v ∈ us') as Hv'.
    { apply Hus. split; [done|]. intros vo' Ev' E. rewrite Ev in Ev'. injection Ev' as <-. rewrite E, Ho in Eov. injection Eov as <-.
      apply Hr, elem_of_opages. pose proof (uo_bits _ _ _ Hvok _ Hbv). lia. }
    exists v, vo, ov. split; [done|]. split; [|done]. by apply freed_has_uobject.
Qed.

Lemma freed_other q oq r : q ∈ l1 ++ l2 → objects s !! q = Some oq → r ∈ opages oq → r ∉ opages o.
Proof using All.
  intros Hq Eq Hr Hr'. assert (q = p) as -> by (eapply (live_disjoint s); [done| | |done|done|done|done]; set_solver).
  pose proof (lk_nodup _ _ _ _ _ _ (ok_lists _ _ _ _ _ _ _ _ Hok)) as (_ & _ & (_ & _ & Hnd)%NoDup_app)%NoDup_app.
  rewrite <- Permutation_middle in Hnd. by apply NoDup_cons in Hnd as [? _].
Qed.

Lemma freed_page r : lo ≤ r < lo + cnt → is_page r.
Proof using All. intros Hr. by apply (mc_table _ _ _ _ _ _ _ (ok_machine _ _ _ _ _ _ _ _ Hok)). Qed.

Lemma freed_backed r pa : backed s' (l1 ++ l2) r pa → backed s live r pa ∧ r ∉ opages o.
Proof using All.
  intros (q & oq & e & Hq & Eq & Hph & Hr & He & Hpa). rewrite Hobj in Eq by set_solver.
  pose proof (freed_other q oq r Hq Eq Hr) as Hno. split; [|done].
  assert (is_page r) by (apply freed_page; eapply (live_page s); [done| |done|done]; set_solver).
  rewrite Hm, decide_False in He by done. exists q, oq, e. split; [set_solver|done].
Qed.

Lemma freed_machine : machine_ok s' lo cnt (is_user a') fs' (l1 ++ l2) us'.
Proof using All.
  pose proof (ok_machine _ _ _ _ _ _ _ _ Hok) as [Mwf Mt Mn Me Mo Md Mp]. split.
  - done.
  - intros r Hr. destruct (Mt r Hr) as (Hrp & Hpr & Hne). split; [done|]. split; [|done].
    destruct (page_split r Hrp) as (Hi & _). by rewrite Hpd.
  - intros r Hr. rewrite Hm, freed_uncommited by (by apply freed_page).
    assert (r ∈ region_pages (objects s') fs' ↔ r ∈ opages o ∨ r ∈ region_pages (objects s) fs) as ->.
    { rewrite (region_pages_ext (objects s)) by (intros q Hq; apply freed_object; set_solver). rewrite Hfs.
      change (p :: fs) with ([p] ++ fs). rewrite region_pages_app, elem_of_app. f_equiv.
      unfold region_pages. cbn. unfold pages_at. by rewrite Ho, app_nil_r. }
    case_decide; [naive_solver|]. rewrite Mn by done. tauto.
  - intros q oq r e Hq Eq Hr He. rewrite Hobj in Eq by set_solver. rewrite Hua. pose proof (freed_other q oq r Hq Eq Hr) as Hno.
    assert (is_page r) by (apply freed_page; eapply (live_page s); [done| |done|done]; set_solver).
    rewrite Hm, decide_False in He by done. eapply Me; [|done..]. set_solver.
  - intros r pa Hr. destruct (freed_backed r pa Hr) as [Hb Hno]. destruct (Mo r pa Hb) as [Hpo Hnt]. split.
    + apply Hown. split; [done|]. intros (Hph & r' & e & Hr' & He & Hpa). apply Hno.
      assert (r = r') as -> by (apply (Md r r' pa Hb); exists p, o, e; (split; [set_solver|]); split_and!; try done; by apply elem_of_opages).
      by apply elem_of_opages.
    + intros i Hi. rewrite Hpd by done. by apply Hnt.
  - intros r r' pa [Hr _]%freed_backed [Hr' _]%freed_backed. by eapply Md.
  - intros q oq Hq Eq. rewrite Hobj in Eq by set_solver. eapply Mp; [|done]. set_solver.
Qed.

Lemma freed_ok : vmm_ok s' sp a' lo cnt fs' (l1 ++ l2) us'.
Proof using All. split; [done|apply freed_regions|apply freed_uncommited_ok|apply freed_machine]. Qed.
End After.

(** ** Running the call *)

(** What is left on the list of the uncommitted objects, and the memory, once
    that of an object is removed. *)
Definition unc_removed s (p : Z) (us us' : list Z) s' : Prop :=
  (∀ q, q ∉ us → objects s' !! q = objects s !! q) ∧ (∀ v, v ∈ us' → uobjects s' !! v = uobjects s !! v) ∧
  (∀ v, v ∈ us' ↔ v ∈ us ∧ ∀ uo, uobjects s !! v = Some uo → object uo ≠ p) ∧ machine s' = machine s.

Lemma covers_own s sp a lo cnt fs live us p o v vo ov : vmm_ok s sp a lo cnt fs live us → p ∈ live → objects s !! p = Some o →
  has_uobject s v vo ov → uobject_ok live vo ov → covers (start o) ov = true ↔ object vo = p.
Proof using Type.
  intros Hok Hp Ho [Ev Eov] Hvok. pose proof (uo_live _ _ _ Hvok) as Hlive.
  destruct (vmm_ok_object _ _ _ _ _ _ _ _ p Hok) as (o' & [Eo' Hwf] & _); [set_solver|]. rewrite Ho in Eo'. injection Eo' as <-.
  destruct (vmm_ok_object _ _ _ _ _ _ _ _ (object vo) Hok) as (o' & [Eo' Hwfv] & _); [set_solver|]. rewrite Eov in Eo'. injection Eo' as <-.
  destruct (object_wf_eq o Hwf) as (Es & Ee & _ & Hn & _).
  assert (covers (start o) ov = true ↔ first_page o ∈ opages ov) as ->.
  { unfold covers. rewrite andb_true_iff, !Z.leb_le, (object_page_wf ov) by done. fold (first_page o). done. }
  split.
  - intros Hin. eapply (live_disjoint s); [done..|]. apply elem_of_opages. lia.
  - intros E. rewrite E, Ho in Eov. injection Eov as <-. apply elem_of_opages. lia.
Qed.

Lemma remove_uobject_ok s sp a lo cnt fs l1 p l2 us o : vmm_ok s sp a lo cnt fs (l1 ++ p :: l2) us → objects s !! p = Some o →
  wp (release_uobject o) s
    (λ _ s', ∃ a' us', lists_ok s' sp a' fs us' (p :: l1 ++ l2) ∧ is_user a' = is_user a ∧ unc_removed s p us us' s').
Proof using Type.
  intros Hok Ho. pose proof (ok_uncommited _ _ _ _ _ _ _ _ Hok) as [Huo Huniq]. unfold release_uobject.
  destruct (vmm_ok_object _ _ _ _ _ _ _ _ p Hok) as (o0 & [Eo0 Hwf] & Hsp); [set_solver|]. rewrite Ho in Eo0. injection Eo0 as <-.
  rewrite Hsp. pose proof (ok_lists _ _ _ _ _ _ _ _ Hok) as Hl.
  assert (lists_ok s sp a fs us (p :: l1 ++ l2)) as Hlp by (eapply lists_ok_perm; [symmetry; apply Permutation_middle|done]).
  assert (start o - start o mod 4096 = start o) as Est.
  { rewrite (wf_start _ Hwf). lia. }
  assert (p ∈ l1 ++ p :: l2) as Hp by set_solver.
  apply wp_bind. eexists _, s. split.
  { apply (find_object_in_uncommited_eq s sp a fs us (l1 ++ p :: l2)); [done|]. intros v Hv. destruct (Huo v Hv) as (vo & ov & ? & _). by exists vo, ov. }
  rewrite Est. destruct (decide (Exists (λ u, object <$> uobjects s !! u = Some p) us)) as [(u & Hu & (uo & Eu & Eup)%fmap_Some)%Exists_exists|Hno];
    [symmetry in Eup|].
  - destruct (list_elem_of_split us u Hu) as (u1 & u2 & ->).
    assert (NoDup (u1 ++ u :: u2)) as Hnd.
    { pose proof (lk_nodup _ _ _ _ _ _ Hl) as (_ & _ & Hnd)%NoDup_app. by apply NoDup_app in Hnd as [? _]. }
    rewrite <- Permutation_middle in Hnd. apply NoDup_cons in Hnd as [Hout Hnd].
    assert (first_covering s (start o) (u1 ++ u :: u2) = u) as ->.
    { destruct (Huo u Hu) as (uo' & ou & [Eu' Eou] & Huok). rewrite Eu in Eu'. injection Eu' as <-.
      apply (first_covering_some s _ u1 u u2 uo ou); [|by split|by eapply covers_own].
      intros v Hv. destruct (Huo v) as (vo & ov & Hvo & Hvok); [set_solver|]. exists vo, ov. split; [done|].
      destruct (covers (start o) ov) eqn:Hc; [|done]. exfalso. apply Hout.
      assert (object vo = p) as Evp by (by eapply covers_own). assert (v = u) as ->; [|set_solver].
      apply (Huniq v u vo uo); [set_solver|done|apply Hvo|done|congruence]. }
    pose proof (lists_not_null _ _ _ _ _ _ u Hl ltac:(set_solver)). destruct (Z.eqb_spec u NULL); [done|]. cbn [negb].
    destruct (remove_uncommited_ok s sp a fs u1 u u2 _ Hlp) as (l' & nn & E & Hl3).
    destruct (free_ok _ _ _ _ _ _ _ Hl3) as (h & Ef & Hl4). apply wp_bind. eexists tt, _. split; [exact E|].
    eexists tt, _. split; [exact Ef|]. exists (with_uncommited l' a), (u1 ++ u2). split; [done|]. split; [done|].
    split; [intros q Hq; cbn; apply lookup_delete_ne; set_solver|].
    split; [intros v Hv; cbn; apply lookup_delete_ne; set_solver|]. split; [|done]. intros v. split.
    + intros Hv. split; [set_solver|]. intros vo Ev Evp.
      assert (v = u) as -> by (apply (Huniq v u vo uo); [set_solver|done|done|done|congruence]). done.
    + intros [Hv Hne]. assert (v ≠ u) by (intros ->; by apply (Hne uo)). set_solver.
  - rewrite (first_covering_none s (start o) us).
    { apply wp_ret. exists a, us. split; [done|]. split; [done|]. split; [done|]. split; [done|]. split; [|done]. intros v.
      split; [|by intros [? _]]. intros Hv. split; [done|]. intros vo Ev Evp. apply Hno, Exists_exists. exists v. split; [done|]. by rewrite Ev, <- Evp. }
    intros v Hv. destruct (Huo v Hv) as (vo & ov & Hvo & Hvok). exists vo, ov. split; [done|].
    destruct (covers (start o) ov) eqn:Hc; [|done]. exfalso. apply Hno, Exists_exists. exists v. split; [done|].
    assert (object vo = p) as <- by (by eapply covers_own). destruct Hvo as [-> _]. done.
Qed.

(** The machine with another interrupt flag. *)
Definition with_irq (i : bool) (m : mmu P) : mmu P := Mmu (phys_mem m) (cr3 m) (tlb m) i (pages m).
Lemma mmu_wf_irq m i : mmu_wf m → mmu_wf (with_irq i m).
Proof using Type. intros [[] ?]. done. Qed.

Lemma vmm_ok_irq s sp a lo cnt fs live us i : vmm_ok s sp a lo cnt fs live us →
  vmm_ok (with_machine (with_irq i (machine s)) s) sp a lo cnt fs live us.
Proof using Type.
  intros [Hl [] [] []]. split; [by apply lists_ok_machine|by split|by split|]. split; [by apply mmu_wf_irq|done..].
Qed.

Lemma object_releasable s sp a lo cnt fs live us p o : vmm_ok s sp a lo cnt fs live us → p ∈ live → objects s !! p = Some o →
  releasable (with_irq false (machine s)) o.
Proof using Type.
  intros Hok Hp Ho. pose proof (ok_machine _ _ _ _ _ _ _ _ Hok) as HM.
  destruct (vmm_ok_object _ _ _ _ _ _ _ _ p Hok) as (o' & [Eo' Hwf] & _); [set_solver|]. rewrite Ho in Eo'. injection Eo' as <-.
  assert (∀ r e, phys_base o = VMM_PHYSADDR_NOMAP → r ∈ opages o → mapped (machine s) r = Some e → backed s live r (page_of e)) as Hb.
  { intros r e Hph Hr He. by exists p, o, e. }
  split.
  - apply mmu_wf_irq, HM.
  - done.
  - intros r Hr. assert (lo ≤ r < lo + cnt) as Hrr by (by eapply (live_page s)). apply (mc_table _ _ _ _ _ _ _ HM) in Hrr as ([? ?] & _ & ?).
    apply elem_of_opages in Hr. destruct (object_wf_eq o Hwf) as (_ & _ & ? & _). split; [|lia].
    unfold is_user_page. change (2 ^ 20) with 1048576 in *. dlia.
  - intros r e Hph Hr He. apply (mc_owned _ _ _ _ _ _ _ HM r). by apply Hb.
  - intros r r' e e' Hph Hr Hr' He He' E. apply (mc_distinct _ _ _ _ _ _ _ HM r r' (page_of e)); [by apply Hb|rewrite E; by apply Hb].
Qed.

(** What the call establishes. *)
Definition free_post s (sp lo cnt : Z) (a : vmm_address_space) (fs live' us : list Z) (p : Z) (o : vmm_object) s' : Prop :=
  ∃ a' fs' us', vmm_ok s' sp a' lo cnt fs' live' us' ∧ is_user a' = is_user a ∧ fs' ≡ₚ p :: fs ∧
    irq (machine s') = irq (machine s) ∧
    (∀ q, q ∈ fs ++ p :: live' → objects s' !! q = objects s !! q) ∧
    (∀ r, lo ≤ r < lo + cnt →
      mapped (machine s') r = (if decide (r ∈ opages o) then None else mapped (machine s) r) ∧
      (uncommited s' us' r ↔ uncommited s us r ∧ r ∉ opages o)) ∧
    ∀ b, page_owned (pages (machine s')) b ↔ page_owned (pages (machine s)) b ∧
      ¬ (phys_base o = VMM_PHYSADDR_NOMAP ∧ ∃ r e, r ∈ opages o ∧ mapped (machine s) r = Some e ∧ page_of e = b).

Lemma free_post_intro s s' sp a a' lo cnt fs fs' l1 p l2 us us' o m i :
  vmm_ok s sp a lo cnt fs (l1 ++ p :: l2) us → objects s !! p = Some o → lists_ok s' sp a' fs' us' (l1 ++ l2) →
  is_user a' = is_user a → fs' ≡ₚ p :: fs → (∀ q, q ∈ fs ++ l1 ++ p :: l2 → objects s' !! q = objects s !! q) →
  (∀ v, v ∈ us' → uobjects s' !! v = uobjects s !! v) →
  (∀ v, v ∈ us' ↔ v ∈ us ∧ ∀ uo, uobjects s !! v = Some uo → object uo ≠ p) →
  released (with_irq false (machine s)) o (npages o) m → machine s' = with_irq i m → i = irq (machine s) →
  free_post s sp lo cnt a fs (l1 ++ l2) us p o s'.
Proof using Type.
  intros Hok Ho Hl' Hua Hfs Hobj Huobj Hus [Rwf _ Rpd Rm Rown] Em Hi.
  assert (mmu_wf (machine s')) as Hwf by (rewrite Em; by apply mmu_wf_irq).
  assert (∀ j, is_index j → pd (machine s') j = pd (machine s) j) as Hpd by (rewrite Em; exact Rpd).
  assert (∀ r, is_page r → mapped (machine s') r = if decide (r ∈ opages o) then None else mapped (machine s) r) as Hm.
  { intros r Hr. rewrite Em. change (mapped (with_irq i m) r) with (mapped m r). rewrite Rm by done.
    pose proof (elem_of_opages o r). repeat case_decide; (done || tauto). }
  assert (∀ b, page_owned (pages (machine s')) b ↔ page_owned (pages (machine s)) b ∧ ¬ freed_by (machine s) o (npages o) b) as Hown
    by (rewrite Em; exact Rown).
  exists a', fs', us'. split; [by eapply freed_ok|]. split; [done|]. split; [done|]. split; [by rewrite Em|].
  split; [intros q Hq; apply Hobj; by rewrite <- (Permutation_middle l1) |]. split.
  - intros r Hr. split; [|by eapply freed_uncommited]. apply Hm.
    by apply (mc_table _ _ _ _ _ _ _ (ok_machine _ _ _ _ _ _ _ _ Hok)).
  - intros b. rewrite Hown. unfold freed_by. by setoid_rewrite elem_of_opages.
Qed.

Lemma vmm_free_ok s sp a lo cnt fs l1 p l2 us o : vmm_ok s sp a lo cnt fs (l1 ++ p :: l2) us → objects s !! p = Some o →
  wp (vmm_free p) s (λ _, free_post s sp lo cnt a fs (l1 ++ l2) us p o).
Proof using Type.
  intros Hok Ho. destruct (vmm_ok_object _ _ _ _ _ _ _ _ p Hok) as (o' & [Eo' Hwf] & Hsp); [set_solver|]. rewrite Ho in Eo'. injection Eo' as <-.
  assert (p ∈ l1 ++ p :: l2) as Hp by set_solver. pose proof (object_releasable _ _ _ _ _ _ _ _ _ _ Hok Hp Ho) as Hra.
  set (s1 := with_machine (with_irq false (machine s)) s).
  assert (vmm_ok s1 sp a lo cnt fs (l1 ++ p :: l2) us) as Hok1.
  { by apply vmm_ok_irq. }
  unfold vmm_free. apply wp_bind. eexists _, s1. split; [reflexivity|].
  apply wp_bind. exists o, s1. split; [by apply read_object_eq|]. rewrite Hsp.
  apply wp_bind. eapply wp_mono; [by apply (remove_uobject_ok s1 sp a lo cnt fs l1 p l2 us o)|].
  intros [] s2 (a2 & us' & Hl2 & Hua2 & Hobj2 & Huobj2 & Hus2 & Hm2).
  apply wp_bind. eapply wp_mono; [apply (release_loop_ok s2 o); [by rewrite Hm2|done]|]. intros [] s3 (m3 & -> & Hrl). rewrite Hm2 in Hrl.
  assert (∀ q, q ∈ fs ++ l1 ++ p :: l2 → objects s2 !! q = objects s !! q) as Hobj.
  { intros q Hq. apply Hobj2. intros Hqu. pose proof (lk_nodup _ _ _ _ _ _ (ok_lists _ _ _ _ _ _ _ _ Hok)) as Hnd.
    rewrite (Permutation_app_swap_app fs) in Hnd. apply NoDup_app in Hnd as (_ & Hd & _). by apply (Hd q). }
  apply wp_bind. edestruct (add_object_ok (with_machine m3 s2) sp a2 fs us' p o (l1 ++ l2)) as (l' & nn & fs' & E & Hl4 & Hperm).
  { by apply lists_ok_machine. } { split; [|done]. cbn. rewrite Hobj; [done|set_solver]. }
  { intros q Hq. destruct (vmm_ok_object _ _ _ _ _ _ _ _ q Hok) as (oq & [Eoq Hwq] & _); [set_solver|].
    exists oq. split; [split; [|done]; cbn; rewrite Hobj; [done|set_solver]|]. intros i Hi Hi'.
    eapply (live_not_free s _ _ _ _ _ _ _ p o i Hok Hp Ho Hi). apply elem_of_region_pages. by exists q, oq. }
  eexists true, _. split; [exact E|]. eexists tt, _. split; [reflexivity|].
  set (s4 := relinked sp (with_object_list l' a2) nn (with_machine m3 s2)) in *.
  match goal with |- free_post _ _ _ _ _ _ _ _ _ _ ?st => set (s5 := st) end.
  assert (lists_ok s5 sp (with_object_list l' a2) fs' us' (l1 ++ l2)) as Hl5 by (by apply lists_ok_machine).
  eapply (free_post_intro s s5 sp a (with_object_list l' a2) lo cnt fs fs' l1 p l2 us us' o m3 (irq (machine s)));
    [done..| |done]. unfold s5, with_irq. f_equal. cbn.
  destruct (irq (machine s)); [done|]. cbn. by rewrite (rl_irq _ _ _ _ Hrl).
Qed.
End Free.
