(* ===== verification/VmmErrors.v ===== *)
(** What the virtual memory manager does when it cannot allocate: no region is
    large enough, the heap is out of memory, or the address is given by the
    caller. *)
From S2P Require Import Prelude MiscMath Bitmap CList Arch HeapIface PmmIface.
From S2P Require Import Mmu MmuSafe MmuPages MmuCorrect Vmm VmmLists VmmRegions VmmInv VmmAlloc.

Section Errors.
Context {H P : Type} `{!HeapOps H, !HeapLaws H, !PmmOps P, !PmmLaws P}.
Local Abbreviation vmm := (vmm H P).
Implicit Types s : vmm.

(** The invariant is about the objects on the lists and those allocated. *)
Lemma vmm_ok_ext s s' sp a lo cnt fs live us : vmm_ok s sp a lo cnt fs live us → lists_ok s' sp a fs us live →
  (∀ p, p ∈ fs ++ live → objects s' !! p = objects s !! p) → (∀ u, u ∈ us → uobjects s' !! u = uobjects s !! u) →
  machine s' = machine s → vmm_ok s' sp a lo cnt fs live us.
Proof using Type.
  intros Hok Hl Hobj Huobj Hm. destruct Hok as [_ [Ro Rp] [Uo Uu] HM].
  assert (∀ u uo o, u ∈ us → uobject_ok live uo o → has_uobject s' u uo o ↔ has_uobject s u uo o) as Hhas.
  { intros u uo o Hu Huok. pose proof (uo_live _ _ _ Huok). unfold has_uobject. rewrite Huobj, Hobj by set_solver. done. }
  assert (∀ u uo o, u ∈ us → has_uobject s' u uo o → has_uobject s u uo o ∧ uobject_ok live uo o) as Hback.
  { intros u uo o Hu [Eu Eo]. destruct (Uo u Hu) as (uo' & o' & Huo' & Huok). pose proof Huo' as [Eu' Eo'].
    rewrite Huobj, Eu' in Eu by done. injection Eu as <-. pose proof (uo_live _ _ _ Huok).
    rewrite Hobj, Eo' in Eo by set_solver. by injection Eo as <-. }
  assert (∀ q, uncommited s' us q ↔ uncommited s us q) as Hunc.
  { intros q. split; intros (u & uo & o & Hu & Huo & Hbit).
    - exists u, uo, o. split; [done|]. split; [|done]. by apply Hback.
    - destruct (Uo u Hu) as (uo' & o' & Huo' & Huok). pose proof Huo as [Eu Eo]. pose proof Huo' as [Eu' Eo'].
      rewrite Eu in Eu'. injection Eu' as <-. rewrite Eo in Eo'. injection Eo' as <-.
      exists u, uo, o. split; [done|]. split; [|done]. by apply Hhas. }
  assert (∀ q pa, backed s' live q pa → backed s live q pa) as Hb.
  { intros q pa (p & o & e & Hp & Eo & Hrest). exists p, o, e. rewrite Hobj in Eo by set_solver. by rewrite <- Hm. }
  split; [done| | |].
  - split; [|by rewrite (region_pages_ext (objects s))]. intros p Hp. destruct (Ro p Hp) as (o & [Eo Hwf] & Hsp).
    exists o. split; [|done]. split; [|done]. by rewrite Hobj.
  - split.
    + intros u Hu. destruct (Uo u Hu) as (uo & o & Huo & Huok). exists uo, o. split; [by apply Hhas|done].
    + intros u u' uo uo' Hu Hu'. rewrite !Huobj by done. by apply Uu.
  - destruct HM as [Mwf Mt Mn Me Mo Md Mp]. split; try (by rewrite Hm).
    + intros q Hq. rewrite Hm, Hunc, (region_pages_ext (objects s)); [by apply Mn|]. intros p Hp. apply Hobj. set_solver.
    + intros p o q e Hp Eo. rewrite Hobj in Eo by set_solver. rewrite Hm. by apply (Me p).
    + intros q pa Hq%Hb. rewrite Hm. by apply (Mo q).
    + intros q q' pa Hq%Hb Hq'%Hb. by eapply Md.
    + intros p o Hp Eo. rewrite Hobj in Eo by set_solver. by apply (Mp p).
Qed.

Lemma free_null_ok s sp a fs us ls : lists_ok s sp a fs us ls →
  ∃ h, free NULL s = Ok (tt, with_heap h (forget NULL s)) ∧ lists_ok (with_heap h (forget NULL s)) sp a fs us ls.
Proof using Type.
  intros Hl. pose proof (lists_not_null _ _ _ _ _ _ NULL Hl) as Hnn. destruct Hl as [Hs Hf Hu Hnd Hn Hh].
  destruct (heap_free_law NULL (heap s)) as (h & E & Hin); [by left|].
  exists h. split; [unfold free, in_heap, update, mbind, M_bind; by rewrite E|].
  assert (∀ q, q ∈ fs ++ us ++ ls → q ≠ NULL) as Hne by (intros q Hq ->; by apply Hnn).
  split; cbn; [done| | |done| |].
  - eapply dll_frame; [|done]. intros q. rewrite addrs_selves. intros Hq. apply lookup_delete_ne. symmetry. apply Hne. set_solver.
  - eapply dll_frame; [|done]. intros q. rewrite addrs_selves. intros Hq. apply lookup_delete_ne. symmetry. apply Hne. set_solver.
  - intros q Hq. rewrite lookup_delete_ne by (symmetry; by apply Hne). by apply Hn.
  - intros q Hq. apply Hin; [by apply Hne|]. by apply Hh.
Qed.

(** No region is large enough: the new object is freed, and its address
    returned. *)
Lemma alloc_no_fit_ok `{!HeapSucceeds H} s sp a lo cnt fs live us n phys flags size :
  vmm_ok s sp a lo cnt fs live us → size_to_blocks size ARCH_PAGESIZE = Ok n → 0 < n < 2 ^ 20 → phys_ok phys n →
  fs ≠ [] → (∀ q, q ∈ fs → too_small n s q) →
  wp (vmm_alloc_object sp phys size flags) s (λ new s', new ≠ NULL ∧ objects s' !! new = None ∧ vmm_ok s' sp a lo cnt fs live us).
Proof using Type.
  intros Hok Hsize Hn Hphys Hne Hsmall. pose proof (ok_lists _ _ _ _ _ _ _ _ Hok) as Hl.
  unfold vmm_alloc_object. apply wp_bind. eapply wp_lift; [done|].
  apply wp_bind. exists tt, s. split; [by eapply assert_phys_base_ok|].
  apply wp_bind. eapply wp_mono; [by apply create_object_ok|]. intros new s1 (h1 & Ealloc & Hcase).
  apply heap_never_fails in Ealloc. destruct Hcase as [[? _]|(_ & -> & Hl1 & Hnew)]; [done|].
  apply wp_bind. eapply wp_mono; [apply create_uncommited_object_ok; [done|lia]|]. intros u s2 (usize & h2 & Ealloc' & Hcase).
  apply heap_never_fails in Ealloc'. destruct Hcase as [[? _]|(_ & b & -> & Hl2 & Hu & _)]; [done|].
  set (s2 := new_uobject _ _ _ _) in *.
  assert (take_object_with_min_size sp n s2 = Ok (NULL, s2)) as Etake.
  { apply (take_min_none s2 sp a fs us (u :: new :: live)); [done|lia|done|]. intros q Hq. destruct (Hsmall q Hq) as (o & [Eo Hwf] & Hlt).
    exists o. split; [|done]. split; [|done]. cbn. rewrite lookup_insert_ne; [done|]. set_solver. }
  apply wp_bind. exists NULL, s2. split; [done|]. rewrite orb_true_r.
  destruct (free_ok s2 sp a fs us u (new :: live) Hl2) as (h3 & E3 & Hl3).
  destruct (free_null_ok _ sp a fs us (new :: live) Hl3) as (h4 & E4 & Hl4).
  destruct (free_ok _ sp a fs us new live Hl4) as (h5 & E5 & Hl5).
  apply wp_bind. eexists tt, _. split; [exact E3|]. apply wp_bind. eexists tt, _. split; [exact E4|].
  apply wp_bind. eexists tt, _. split; [exact E5|]. apply wp_ret. split; [done|]. split; [cbn; by rewrite lookup_delete_eq|].
  eapply vmm_ok_ext; [done|done| | |done].
  - intros q Hq. pose proof (lists_not_null _ _ _ _ _ _ q Hl ltac:(set_solver)). cbn.
    rewrite !lookup_delete_ne by set_solver. apply lookup_insert_ne. set_solver.
  - intros q Hq. pose proof (lists_not_null _ _ _ _ _ _ q Hl ltac:(set_solver)). cbn.
    rewrite !lookup_delete_ne by set_solver. apply lookup_insert_ne. set_solver.
Qed.

(** The whole address space is allocated: the call does not return. *)
Lemma alloc_full_fails `{!HeapSucceeds H} s sp a lo cnt live us n phys flags size :
  vmm_ok s sp a lo cnt [] live us → size_to_blocks size ARCH_PAGESIZE = Ok n → 0 < n < 2 ^ 20 → phys_ok phys n →
  vmm_alloc_object sp phys size flags s = Fault Assert_failed.
Proof using Type.
  intros Hok Hsize Hn Hphys. pose proof (ok_lists _ _ _ _ _ _ _ _ Hok) as Hl. unfold vmm_alloc_object.
  rewrite (M_bind_step _ _ s n s) by (unfold lift; by rewrite Hsize).
  rewrite (M_bind_step _ _ _ _ _ (assert_phys_base_ok s phys n Hphys)).
  destruct (create_object_ok s sp a [] us live sp 0 0 phys flags Hl) as (new & s1 & E1 & h1 & Ealloc & Hcase).
  apply heap_never_fails in Ealloc. destruct Hcase as [[? _]|(_ & -> & Hl1 & Hnew)]; [done|].
  rewrite (M_bind_step _ _ _ _ _ E1).
  destruct (create_uncommited_object_ok _ sp a [] us _ new n Hl1) as (u & s2 & E2 & usize & h2 & Ealloc' & Hcase); [lia|].
  apply heap_never_fails in Ealloc'. destruct Hcase as [[? _]|(_ & b & -> & Hl2 & _)]; [done|].
  rewrite (M_bind_step _ _ _ _ _ E2). set (s2 := new_uobject _ _ _ _) in *.
  unfold mbind at 1, M_bind at 1. assert (take_object_with_min_size sp n s2 = Fault Assert_failed) as ->; [|done].
  unfold take_object_with_min_size. destruct (Z.eqb_spec n 0); [lia|]. cbn [negb].
  rewrite (M_bind_step _ _ s2 tt s2) by done. rewrite (M_bind_step _ _ _ _ _ (read_space_eq _ _ _ _ _ _ Hl2)).
  by rewrite (free_front _ _ _ _ _ _ Hl2).
Qed.

(** The heap is out of memory: the region that would be split is freed with the
    rest, and no longer on the list. *)
Lemma alloc_exhausted_ok `{!HeapExhausted H} s sp a lo cnt f1 p f2 live us o n phys flags size :
  vmm_ok s sp a lo cnt (f1 ++ p :: f2) live us → size_to_blocks size ARCH_PAGESIZE = Ok n → phys_ok phys n →
  (∀ q, q ∈ f1 → too_small n s q) → objects s !! p = Some o → 0 < n ≤ npages o →
  wp (vmm_alloc_object sp phys size flags) s (λ r s', r = NULL ∧ objects s' !! p = None ∧
    ∃ a', lists_ok s' sp a' (f1 ++ f2) us live).
Proof using Type.
  intros Hok Hsize Hphys Hsmall Ho Hn. pose proof (ok_lists _ _ _ _ _ _ _ _ Hok) as Hl.
  destruct (vmm_ok_object _ _ _ _ _ _ _ _ p Hok) as (o' & [Ho' Hwf] & _); [set_solver|].
  rewrite Ho in Ho'. injection Ho' as <-. destruct (object_wf_eq o Hwf) as (_ & _ & Hfirst & _ & Hlim).
  unfold vmm_alloc_object. apply wp_bind. eapply wp_lift; [done|].
  apply wp_bind. exists tt, s. split; [by eapply assert_phys_base_ok|].
  apply wp_bind. eapply wp_mono; [by apply create_object_ok|]. intros new s1 (h1 & Ealloc & Hcase).
  destruct (heap_alloc_fails SIZEOF_VMM_OBJECT HEAP_FLAG_ZEROMEMORY (heap s)) as (h & E). rewrite E in Ealloc. injection Ealloc as <- ->.
  destruct Hcase as [(_ & -> & Hl1)|[? _]]; [|done].
  apply wp_bind. eapply wp_mono; [apply create_uncommited_object_ok; [done|lia]|]. intros u s2 (usize & h2 & Ealloc' & Hcase).
  destruct (heap_alloc_fails usize HEAP_FLAG_ZEROMEMORY (heap (with_heap h1 s))) as (h' & E'). rewrite E' in Ealloc'. injection Ealloc' as <- ->.
  destruct Hcase as [(_ & -> & Hl2)|[? _]]; [|done].
  destruct (take_min_found (with_heap h2 (with_heap h1 s)) sp a f1 p f2 o us live n) as (l3 & n3 & E3 & Hl3); [done|lia|done|done|lia|].
  apply wp_bind. exists p, (relinked sp (with_object_list l3 a) n3 (with_heap h2 (with_heap h1 s))). split; [done|]. cbn [Z.eqb NULL orb].
  destruct (free_null_ok _ _ _ _ _ _ Hl3) as (h4 & E4 & Hl4). destruct (free_ok _ _ _ _ _ _ _ Hl4) as (h5 & E5 & Hl5).
  destruct (free_null_ok _ _ _ _ _ _ Hl5) as (h6 & E6 & Hl6).
  apply wp_bind. eexists tt, _. split; [exact E4|]. apply wp_bind. eexists tt, _. split; [exact E5|].
  apply wp_bind. eexists tt, _. split; [exact E6|]. apply wp_ret. split; [done|]. split; [|by exists (with_object_list l3 a)].
  cbn. pose proof (lists_not_null _ _ _ _ _ _ p Hl ltac:(set_solver)). rewrite lookup_delete_ne by done. by rewrite lookup_delete_eq.
Qed.

(** ** Allocation at an address *)

(** The address has not to be aligned, so the left part of a region that is
    split there is not a number of pages: putting it back fails. *)
Lemma put_back_unaligned s sp p o : objects s !! p = Some o → is_u32 (end_ o - start o + 1) → start o ≤ end_ o →
  (end_ o - start o + 1) mod 4096 ≠ 0 → put_back sp p s = Fault Assert_failed.
Proof using Type.
  intros Ho Hu Hle Hmod. unfold put_back. rewrite (M_bind_step _ _ _ _ _ (read_object_eq s p o Ho)).
  destruct (Z.ltb_spec (end_ o) (start o)); [lia|]. unfold mbind at 1, M_bind at 1.
  unfold add_object_to_address_space. rewrite (M_bind_step _ _ _ _ _ (read_object_eq s p o Ho)).
  unfold is_u32 in Hu. change (2 ^ 32) with 4294967296 in Hu.
  assert (vmm_get_object_size o = end_ o - start o + 1) as ->.
  { unfold vmm_get_object_size. rewrite (u32_small (end_ o - start o)) by (change (2 ^ 32) with 4294967296; lia).
    apply u32_small. change (2 ^ 32) with 4294967296. lia. }
  rewrite (M_bind_step _ _ s false s); [done|]. unfold lift. rewrite is_aligned_eq by done.
  destruct (Z.eqb_spec ((end_ o - start o + 1) mod ARCH_PAGESIZE) 0); [done|done].
Qed.

(** The search for a region that includes an address changes nothing. *)
Definition including_step (st en : Z) : Z → M vmm (Z + Z) := λ object_node,
  if object_node =? NULL then mret (inr NULL)
  else
    n ← in_nodes (load object_node);
    _ ← massert (negb (data n =? NULL));
    o ← read_object (data n);
    if (st <? start o) || (end_ o <? st) || (en <? start o) || (end_ o <? en)
    then nx ← next_of object_node; mret (inl nx)
    else mret (inr (data n)).

Lemma including_step_eq s p nx b o st en : p ≠ NULL → list_nodes s !! p = Some (ListNode nx b p) → objects s !! p = Some o →
  including_step st en p s =
    Ok (if (st <? start o) || (end_ o <? st) || (en <? start o) || (end_ o <? en) then inl nx else inr p, s).
Proof using Type.
  intros Hnn Hp Ho. unfold including_step. destruct (Z.eqb_spec p NULL); [done|].
  rewrite (M_bind_step _ _ _ _ _ (load_node_eq s p _ Hp)). cbn [data]. destruct (Z.eqb_spec p NULL); [done|].
  cbn [negb]. rewrite (M_bind_step _ _ s tt s) by done. rewrite (M_bind_step _ _ _ _ _ (read_object_eq s p o Ho)).
  destruct (_ || _); [|done]. by rewrite (M_bind_step _ _ _ _ _ (next_of_eq s p _ Hp)).
Qed.

Lemma including_walk s sp a f1 f2 us ls st en r s' fuel : lists_ok s sp a (f1 ++ f2) us ls →
  (∀ p, p ∈ f2 → ∃ o, has_object s p o) → loop_m fuel (including_step st en) (head_or_null f2) s = Ok (r, s') →
  s' = s ∧ (r = NULL ∨ ∃ o, r ∈ f2 ∧ has_object s r o ∧ start o ≤ st ≤ end_ o).
Proof using Type.
  revert f1 fuel. induction f2 as [|p f2 IH]; intros f1 fuel Hl Hos E; (destruct fuel as [|fuel]; [done|]).
  { injection E as <- <-. split; [done|by left]. }
  destruct (free_node _ _ _ _ _ _ _ _ Hl) as [b Hp].
  pose proof (lists_not_null _ _ _ _ _ _ p Hl ltac:(set_solver)) as Hnn. destruct (Hos p) as (o & Ho & Hwf); [set_solver|].
  cbn [head_or_null] in E. rewrite (loop_m_step _ _ _ _ _ _ (including_step_eq s p _ b o st en Hnn Hp Ho)) in E.
  destruct (_ || _) eqn:Hc.
  - destruct (IH (f1 ++ [p]) fuel) as [-> Hr]; [by rewrite <- (assoc_L (++))|intros q Hq; apply Hos; set_solver|done|].
    split; [done|]. destruct Hr as [->|(o' & Hr & Ho')]; [by left|right]. exists o'. split; [set_solver|done].
  - injection E as <- <-. split; [done|right]. exists o. split; [set_solver|]. split; [by split|].
    rewrite !orb_false_iff, !Z.ltb_ge in Hc. lia.
Qed.

Lemma take_object_including_ok s sp a fs us ls st en r s' : lists_ok s sp a fs us ls →
  (∀ p, p ∈ fs → ∃ o, has_object s p o) → take_object_including sp st en s = Ok (r, s') →
  s' = s ∧ (r = NULL ∨ ∃ o, r ∈ fs ∧ has_object s r o ∧ start o ≤ st ≤ end_ o).
Proof using Type.
  intros Hl Hos. unfold take_object_including. intros (n & s1 & E1 & E)%M_bind_ok.
  assert (s1 = s) as -> by (unfold lift in E1; by destruct (size_to_blocks _ _); simplify_eq).
  apply M_bind_ok in E as ([] & s2 & E2 & E). unfold massert in E2. destruct (negb (n =? 0)); [|done]. injection E2 as <-.
  destruct (_ <? _) in E; [injection E as <- <-; split; [done|by left]|]. cbv zeta in E.
  rewrite (M_bind_step _ _ _ _ _ (read_space_eq _ _ _ _ _ _ Hl)), (M_bind_step _ _ _ _ _ (list_fuel_eq s)), (free_front _ _ _ _ _ _ Hl) in E.
  by apply (including_walk s sp a [] fs us ls) in E.
Qed.

(** When the region is found, taking it apart fails. *)
Lemma split_at_fails s sp new right p o phys flags virt newsize uobject : objects s !! p = Some o → object_wf o →
  objects s !! new = Some (VmmObject sp 0 0 phys flags) → objects s !! right = Some (VmmObject sp 0 0 VMM_PHYSADDR_NOMAP 0) →
  new ≠ p → right ≠ p → new ≠ right → start o ≤ virt ≤ end_ o → virt mod 4096 ≠ 0 →
  (_ ← modify_object new (with_start virt);
   _ ← modify_object new (λ n, with_end (u32 (u32 (start n + newsize) - 1)) n);
   _ ← modify_object p (with_end (u32 (virt - 1)));
   _ ← modify_object right (with_start (u32 (virt + newsize)));
   _ ← modify_object right (with_end (end_ o));
   _ ← put_back sp p;
   _ ← put_back sp right;
   _ ← update_uncommited sp (λ l, list_insert_back l uobject uobject);
   mret new) s = Fault Assert_failed.
Proof using Type.
  intros Ho Hwf Hnew Hright Hnp Hrp Hnr Hvirt Hmod. destruct Hwf as [Hs He Hp Hle Hlim]. change (2 ^ 32) with 4294967296 in Hlim.
  rewrite (M_bind_step _ _ _ _ _ (modify_object_eq s new _ _ Hnew)).
  erewrite (M_bind_step _ _ _ tt); [|apply modify_object_eq; cbn; by rewrite lookup_insert_eq].
  erewrite (M_bind_step _ _ _ tt); [|apply modify_object_eq; cbn; by rewrite !lookup_insert_ne by done].
  erewrite (M_bind_step _ _ _ tt); [|apply modify_object_eq; cbn; by rewrite !lookup_insert_ne by done].
  erewrite (M_bind_step _ _ _ tt); [|apply modify_object_eq; cbn; by rewrite lookup_insert_eq].
  unfold mbind at 1, M_bind at 1. erewrite put_back_unaligned; [done| | | |].
  - cbn. rewrite !(lookup_insert_ne _ right p) by done. by rewrite lookup_insert_eq.
  - cbn. rewrite u32_small by (change (2 ^ 32) with 4294967296; lia). unfold is_u32. change (2 ^ 32) with 4294967296. lia.
  - cbn. rewrite u32_small by (change (2 ^ 32) with 4294967296; lia). dlia.
  - cbn. rewrite u32_small by (change (2 ^ 32) with 4294967296; lia). dlia.
Qed.

(** The end of the calls that fail. *)
Lemma four_frees_null p1 p2 p3 p4 s r s' :
  (_ ← free p1; _ ← free p2; _ ← free p3; _ ← free p4; mret NULL) s = Ok (r, s') → r = NULL.
Proof using Type.
  intros (? & ? & _ & (? & ? & _ & (? & ? & _ & (? & ? & _ & E)%M_bind_ok)%M_bind_ok)%M_bind_ok)%M_bind_ok.
  by injection E as <- _.
Qed.

Lemma lift_ok {A} (x : res A) s v s' : lift x s = Ok (v, s') → x = Ok v ∧ s' = s.
Proof using Type. unfold lift. destruct x; by intros [= <- <-]. Qed.
Lemma massert_ok (b : bool) s u s' : massert b s = Ok (u, s') → b = true ∧ s' = s.
Proof using Type. unfold massert. destruct b; [|done]. by intros [= <- <-]. Qed.
Lemma assert_phys_base_same phys s u s' : assert_phys_base phys s = Ok (u, s') → s' = s.
Proof using Type.
  unfold assert_phys_base. destruct (negb _); [|by intros [= <- <-]].
  intros (al & s1 & [_ ->]%lift_ok & [_ ->]%massert_ok)%M_bind_ok. done.
Qed.

Lemma alloc_object_at_null s sp a lo cnt fs live us virt phys size flags r s' :
  vmm_ok s sp a lo cnt fs live us → is_u32 size → alloc_object_at sp virt phys size flags s = Ok (r, s') → r = NULL.
Proof using Type.
  intros Hok Hsize. pose proof (ok_lists _ _ _ _ _ _ _ _ Hok) as Hl. unfold alloc_object_at.
  intros (? & ? & [_ ->]%massert_ok & E)%M_bind_ok. apply M_bind_ok in E as (n & ? & [En ->]%lift_ok & E).
  apply M_bind_ok in E as (? & ? & ->%assert_phys_base_same & E). apply M_bind_ok in E as (al & ? & [Eal ->]%lift_ok & E).
  rewrite is_aligned_eq in Eal by done. injection Eal as <-.
  apply M_bind_ok in E as (? & ? & [Hmod%negb_true_iff%Z.eqb_neq ->]%massert_ok & E).
  destruct (Z.ltb_spec (SIZE_MAX / ARCH_PAGESIZE) n) as [|Hn]; [by injection E as <- _|]. cbv zeta in E.
  destruct (_ <? _); [by injection E as <- _|].
  assert (0 ≤ n < 2 ^ 20) as Hn'.
  { rewrite size_to_blocks_eq in En by done. injection En as <-. unfold is_u32, SIZE_MAX, ARCH_PAGESIZE in *.
    change (2 ^ 32) with 4294967296 in *. change (2 ^ 20) with 1048576. dlia. }
  apply M_bind_ok in E as (new & s1 & E1 & E). apply M_bind_ok in E as (right & s2 & E2 & E). apply M_bind_ok in E as (u & s3 & E3 & E).
  destruct (Z.eqb_spec new NULL) as [->|Hnew0]; [by apply four_frees_null in E|].
  destruct (Z.eqb_spec right NULL) as [->|Hright0]; [by apply four_frees_null in E|].
  destruct (Z.eqb_spec u NULL) as [->|Hu0]; [by apply four_frees_null in E|]. cbn [orb] in E.
  destruct (wp_ok _ _ _ _ _ (create_object_ok s sp a fs us live sp 0 0 phys flags Hl) E1) as (h1 & _ & [[? _]|(_ & -> & Hl1 & Hnew)]); [done|].
  destruct (wp_ok _ _ _ _ _ (create_object_ok _ sp a fs us _ sp 0 0 VMM_PHYSADDR_NOMAP 0 Hl1) E2) as (h2 & _ & [[? _]|(_ & -> & Hl2 & Hright)]); [done|].
  destruct (wp_ok _ _ _ _ _ (create_uncommited_object_ok _ sp a fs us _ new n Hl2 Hn') E3)
    as (usz & h3 & _ & [[? _]|(_ & b & -> & Hl3 & Hu & _)]); [done|].
  apply M_bind_ok in E as (p & s4 & E4 & E). set (s3 := new_uobject _ _ _ _) in *.
  assert (∀ q, q ∈ fs → ∃ o, has_object s3 q o) as Hos.
  { intros q Hq. destruct (vmm_ok_object _ _ _ _ _ _ _ _ q Hok) as (o & [Eo Hwf] & _); [set_solver|]. exists o. split; [|done].
    cbn. rewrite !lookup_insert_ne; [done|set_solver|set_solver]. }
  destruct (take_object_including_ok _ _ _ _ _ _ _ _ _ _ Hl3 Hos E4) as [-> [->|(o & Hp & [Ho Hwf] & Hvirt)]];
    [by apply four_frees_null in E|].
  destruct (Z.eqb_spec p NULL) as [->|]; [by apply four_frees_null in E|].
  rewrite (M_bind_step _ _ _ _ _ (read_object_eq s3 p o Ho)) in E.
  erewrite (split_at_fails s3 sp new right p o phys flags virt) in E; [done|done|done| | |set_solver|set_solver| |done|done].
  - cbn. rewrite lookup_insert_ne, lookup_insert_eq; [done|set_solver].
  - cbn. by rewrite lookup_insert_eq.
  - set_solver.
Qed.
End Errors.
