(* ===== verification/VmmDeinit.v ===== *)
(** The end of an address space: what [vmm_deinit_address_space] frees. *)
From S2P Require Import Prelude MiscMath Bitmap CList Arch HeapIface PmmIface.
From S2P Require Import Mmu MmuSafe MmuPages MmuCorrect Vmm VmmLists VmmRegions VmmInv.

Section Deinit.
Context {H P : Type} `{!HeapOps H, !HeapLaws H, !PmmOps P, !PmmLaws P}.
Local Abbreviation vmm := (vmm H P).
Implicit Types s : vmm.

(** One turn of the loop. *)
Definition deinit_step (self : Z) : unit → M vmm (unit + unit) := λ _,
  a ← read_space self;
  '(object_node, l) ← in_nodes (list_remove_front (object_list a));
  _ ← write_space self (with_object_list l a);
  if object_node =? NULL then mret (inr tt)
  else
    n ← in_nodes (load object_node);
    _ ← free (data n);
    mret (inl tt).

Lemma read_space_ok s sp a : spaces s !! sp = Some a → read_space sp s = Ok (a, s).
Proof using Type. unfold read_space. by intros ->. Qed.

Lemma write_space_relinked s sp a n : is_Some (spaces s !! sp) → write_space sp a (with_list_nodes n s) = Ok (tt, relinked sp a n s).
Proof using Type. intros [a0 Ha]. unfold write_space. cbn. by rewrite Ha. Qed.

(** The last turn: the list is empty. *)
Lemma deinit_step_empty s sp a us ls : lists_ok s sp a [] us ls → ∃ a' s', deinit_step sp tt s = Ok (inr tt, s') ∧
  lists_ok s' sp a' [] us ls ∧ objects s' = objects s ∧ uobjects s' = uobjects s ∧ machine s' = machine s.
Proof using Type.
  intros Hl. pose proof (remove_front_ok _ _ _ (lk_free _ _ _ _ _ _ Hl)) as E. cbn in E.
  unfold deinit_step. rewrite (M_bind_step _ _ _ _ _ (read_space_ok s sp a (lk_space _ _ _ _ _ _ Hl))).
  erewrite (M_bind_step _ _ s (NULL, object_list a)); [|unfold in_nodes; by rewrite E].
  rewrite (M_bind_step _ _ _ _ _ (write_space_relinked s sp (with_object_list (object_list a) a) (list_nodes s) (mk_is_Some _ _ (lk_space _ _ _ _ _ _ Hl)))).
  eexists _, _. split; [reflexivity|]. split; [|done].
  eapply (relink_free s); [done|by apply (lk_free _ _ _ _ _ _ Hl)|done| |done]. by intros p Hp%not_elem_of_nil.
Qed.

(** A turn that frees the first region. *)
Lemma deinit_step_first s sp a p fs us ls : lists_ok s sp a (p :: fs) us ls → ∃ a' s', deinit_step sp tt s = Ok (inl tt, s') ∧
  lists_ok s' sp a' fs us ls ∧ objects s' = delete p (objects s) ∧ uobjects s' = delete p (uobjects s) ∧ machine s' = machine s.
Proof using Type.
  intros Hl. pose proof (remove_front_ok _ _ _ (lk_free _ _ _ _ _ _ Hl)) as E. cbn in E.
  destruct E as (l' & n & E & Hd & Hfr). change ((λ p, (p, p)) <$> fs) with (selves fs) in *.
  unfold deinit_step. rewrite (M_bind_step _ _ _ _ _ (read_space_ok s sp a (lk_space _ _ _ _ _ _ Hl))).
  erewrite (M_bind_step _ _ s (p, l')); [|unfold in_nodes; by rewrite E].
  rewrite (M_bind_step _ _ _ _ _ (write_space_relinked s sp (with_object_list l' a) n (mk_is_Some _ _ (lk_space _ _ _ _ _ _ Hl)))).
  assert (lists_ok (relinked sp (with_object_list l' a) n s) sp (with_object_list l' a) fs us (p :: ls)) as Hl'.
  { eapply relink_free; [done|done|done| |by rewrite <- Permutation_middle]. intros q. by rewrite addrs_selves. }
  pose proof (lists_not_null _ _ _ _ _ _ p Hl ltac:(set_solver)) as Hnn. destruct (Z.eqb_spec p NULL); [done|].
  destruct (free_node s sp a [] p fs us ls Hl) as [b Hp].
  assert (list_nodes (relinked sp (with_object_list l' a) n s) !! p = Some (ListNode (head_or_null fs) b p)) as Hp'.
  { cbn. rewrite Hfr; [done|]. rewrite addrs_selves. pose proof (lk_nodup _ _ _ _ _ _ Hl) as Hnd. apply NoDup_cons in Hnd as [Hnd _]. set_solver. }
  rewrite (M_bind_step _ _ _ _ _ (load_node_eq _ p _ Hp')). cbn [data].
  destruct (free_ok _ sp _ fs us p ls Hl') as (h & Ef & Hl2). rewrite (M_bind_step _ _ _ _ _ Ef).
  eexists _, _. split; [reflexivity|]. by split.
Qed.

(** The regions [fs] are freed, one after the other. *)
Lemma deinit_ok s sp a fs us ls : lists_ok s sp a fs us ls → wp (vmm_deinit_address_space sp) s (λ _ s', ∃ a',
  lists_ok s' sp a' [] us ls ∧ (∀ p, objects s' !! p = if decide (p ∈ fs) then None else objects s !! p) ∧
  (∀ p, p ∈ us → uobjects s' !! p = uobjects s !! p) ∧ machine s' = machine s).
Proof using Type.
  intros Hl. unfold vmm_deinit_address_space. apply wp_bind. exists (S (size (list_nodes s))), s. split; [done|].
  pose proof (list_fuel_ok s sp a fs us ls fs Hl (proj1 (proj1 (NoDup_app _ _) (lk_nodup _ _ _ _ _ _ Hl))) ltac:(set_solver)) as Hfuel.
  revert Hfuel. generalize (S (size (list_nodes s))) as fuel. revert s a Hl.
  induction fs as [|p fs IH]; intros s a Hl fuel Hfuel; (destruct fuel as [|fuel]; [lia|]).
  - destruct (deinit_step_empty s sp a us ls Hl) as (a' & s' & E & Hl' & Ho & Hu & Hm).
    exists tt, s'. split; [by apply (loop_m_step fuel (deinit_step sp) tt s (inr tt))|]. exists a'. rewrite Ho, Hu. split; [done|].
    split; [|done]. intros p. by rewrite decide_False by set_solver.
  - destruct (deinit_step_first s sp a p fs us ls Hl) as (a' & s' & E & Hl' & Ho & Hu & Hm).
    destruct (IH s' a' Hl' fuel ltac:(cbn in Hfuel; lia)) as ([] & s2 & E2 & a2 & Hl2 & Ho2 & Hu2 & Hm2).
    exists tt, s2. split; [by etrans; [by apply (loop_m_step fuel (deinit_step sp) tt s (inl tt) s' E)|]|]. exists a2. split; [done|].
    split; [|split; [|by rewrite Hm2]].
    + intros q. rewrite Ho2, Ho. destruct (decide (q ∈ fs)); [by rewrite decide_True by set_solver|].
      destruct (decide (q = p)) as [->|]; [by rewrite lookup_delete_eq, decide_True by set_solver|].
      by rewrite lookup_delete_ne, decide_False by set_solver.
    + intros q Hq. rewrite Hu2, Hu by done. apply lookup_delete_ne. pose proof (lk_nodup _ _ _ _ _ _ Hl) as (Hnd & _)%NoDup_cons. set_solver.
Qed.
End Deinit.
