(* ===== verification/VmmCorrect.v ===== *)
(** The properties of the virtual memory manager: its operations, and any
    sequence of them. *)
From S2P Require Import Prelude MiscMath Bitmap CList Arch HeapIface PmmIface.
From S2P Require Import Mmu MmuSafe MmuPages MmuCorrect Vmm VmmLists VmmRegions VmmInv VmmAlloc VmmFault VmmFree VmmErrors VmmDeinit.

Section Correct.
Context {H P : Type} `{!HeapOps H, !HeapLaws H, !PmmOps P, !PmmLaws P}.
Local Abbreviation vmm := (vmm H P).
Implicit Types s : vmm.

(** ** A new address space *)

(** All pages of a range have a page table, and none is mapped. *)
Definition range_unmapped (m : mmu P) (lo cnt : Z) : Prop :=
  mmu_wf m ∧ ∀ q, lo ≤ q < lo + cnt → has_table m q ∧ mapped m q = None.

Lemma vmm_init_ok `{!HeapSucceeds H} s out st en ua :
  let o := VmmObject out st en VMM_PHYSADDR_NOMAP 0 in object_wf o → range_unmapped (machine s) (first_page o) (npages o) →
  wp (vmm_init_address_space out st en ua) s (λ ok s', ok = true ∧ machine s' = machine s ∧ initialized s' = initialized s ∧
    ∃ a p, vmm_ok s' out a (first_page o) (npages o) [p] [] [] ∧ is_user a = ua ∧ objects s' !! p = Some o).
Proof using Type.
  intros o Hwf [Hm Hun]. unfold vmm_init_address_space. apply wp_bind. eexists tt, _. split; [reflexivity|].
  set (a0 := VmmAddressSpace list_init list_init ua). set (s1 := with_spaces _ s).
  assert (lists_ok s1 out a0 [] [] []) as Hl.
  { split; cbn; [by rewrite lookup_insert_eq| | |by constructor|set_solver|set_solver];
      (split; cbn; [done|done|by constructor|set_solver|done]). }
  apply wp_bind. eapply wp_mono; [by apply create_object_ok|]. intros p s2 (h & Ealloc & Hcase).
  apply heap_never_fails in Ealloc. destruct Hcase as [[? _]|(_ & -> & Hl2 & _)]; [done|].
  destruct (Z.eqb_spec p NULL); [done|]. fold o in Hl2 |- *. set (s2 := new_object p o h s1) in *.
  destruct (add_object_ok s2 out a0 [] [] p o [] Hl2) as (l' & nn & fs & E & Hl3 & Hperm).
  { split; [|done]. cbn. by rewrite lookup_insert_eq. } { set_solver. }
  apply Permutation_singleton_r in Hperm as ->.
  apply wp_bind. eexists true, _. split; [exact E|]. apply wp_ret. split; [done|]. split; [done|]. split; [done|].
  exists (with_object_list l' a0), p. split; [|split; [done|cbn; by rewrite lookup_insert_eq]].
  assert (objects s2 !! p = Some o) as Ho by (cbn; by rewrite lookup_insert_eq).
  assert (region_pages (objects s2) [p] = opages o) as Epages.
  { unfold region_pages. cbn -[objects]. unfold pages_at. by rewrite Ho, app_nil_r. }
  split; [done| | |].
  - split; [|change (region_pages (objects s2) [p] ≡ₚ seqZ (first_page o) (npages o)); by rewrite Epages].
    intros q Hq. apply list_elem_of_singleton in Hq as ->. exists o. split; [by split|done].
  - split; set_solver.
  - split; [done|by apply Hun| |set_solver|..|set_solver].
    + intros q Hq. split; [|intros _; by apply Hun]. intros _. left. change (q ∈ region_pages (objects s2) [p]).
      rewrite Epages. by apply elem_of_opages.
    + intros q pa (? & ? & ? & ? & _). set_solver.
    + intros q q' pa (? & ? & ? & ? & _). set_solver.
Qed.

(** ** Allocation *)

(** A search of the list from the front. *)
Lemma first_fit s n fs : (∀ p, p ∈ fs → ∃ o, has_object s p o) →
  (∀ p, p ∈ fs → too_small n s p) ∨
  ∃ f1 p f2 o, fs = f1 ++ p :: f2 ∧ (∀ q, q ∈ f1 → too_small n s q) ∧ has_object s p o ∧ n ≤ npages o.
Proof using Type.
  induction fs as [|p fs IH]; intros Hos; [left; set_solver|]. destruct (Hos p) as [o Ho]; [set_solver|].
  destruct (Z.lt_ge_cases (npages o) n).
  - destruct IH as [Hall|(f1 & q & f2 & oq & -> & Hsmall & Hq & Hle)]; [intros q Hq; apply Hos; set_solver|left|right].
    + intros q [->|Hq]%elem_of_cons; [by exists o|by apply Hall].
    + exists (p :: f1), q, f2, oq. split; [done|]. split; [|done]. intros r [->|Hr]%elem_of_cons; [by exists o|by apply Hsmall].
  - right. exists [], p, fs, o. split; [done|]. split; [set_solver|done].
Qed.

(** C6: allocating virtual memory takes the front of the first free region that is
    large enough: the new object is a range of pages no other object has, none
    of which is mapped and all of which are uncommitted; the rest of the region
    stays free, and nothing else changes. *)
Theorem vmm_alloc_object_correct `{!HeapSucceeds H} s sp a lo cnt f1 p f2 live us o n phys flags size :
  vmm_ok s sp a lo cnt (f1 ++ p :: f2) live us → size_to_blocks size ARCH_PAGESIZE = Ok n → phys_ok phys n →
  (∀ q, q ∈ f1 → too_small n s q) → objects s !! p = Some o → 0 < n ≤ npages o →
  wp (vmm_alloc_object sp phys size flags) s (λ new s', new ∉ (f1 ++ p :: f2) ++ us ++ live ∧ ∃ a' fs' u,
    vmm_ok s' sp a' lo cnt fs' (new :: live) (us ++ [u]) ∧
    objects s' !! new = Some (VmmObject sp (start o) (start o + 4096 * n - 1) phys flags) ∧
    (∀ q, q ∈ live → objects s' !! q = objects s !! q) ∧
    (if decide (n = npages o) then fs' = f1 ++ f2 else fs' ≡ₚ f1 ++ p :: f2) ∧
    machine s' = machine s ∧
    ∀ q, first_page o ≤ q < first_page o + n → uncommited s' (us ++ [u]) q).
Proof using Type. apply alloc_object_ok. Qed.

(** when no free region is large enough, the call returns the address of an
    object that it has just freed, instead of the null pointer; the lists are
    as they were. *)
Theorem vmm_alloc_returns_freed_object `{!HeapSucceeds H} s sp a lo cnt fs live us n phys flags size :
  vmm_ok s sp a lo cnt fs live us → size_to_blocks size ARCH_PAGESIZE = Ok n → 0 < n < 2 ^ 20 → phys_ok phys n →
  fs ≠ [] → (∀ q, q ∈ fs → too_small n s q) →
  wp (vmm_alloc_object sp phys size flags) s (λ r s', r ≠ NULL ∧ objects s' !! r = None ∧ vmm_ok s' sp a lo cnt fs live us).
Proof using Type. apply alloc_no_fit_ok. Qed.

(** when the heap is out of memory, the call returns the null pointer, but it
    has freed the region it took off the list: the addresses are lost. *)
Theorem vmm_alloc_loses_region `{!HeapExhausted H} s sp a lo cnt f1 p f2 live us o n phys flags size :
  vmm_ok s sp a lo cnt (f1 ++ p :: f2) live us → size_to_blocks size ARCH_PAGESIZE = Ok n → phys_ok phys n →
  (∀ q, q ∈ f1 → too_small n s q) → objects s !! p = Some o → 0 < n ≤ npages o →
  wp (vmm_alloc_object sp phys size flags) s (λ r s', r = NULL ∧ objects s' !! p = None ∧
    ∃ a', lists_ok s' sp a' (f1 ++ f2) us live).
Proof using Type. apply alloc_exhausted_ok. Qed.

(** allocating at an address never succeeds: an aligned address fails an
    assertion, and one that is not aligned splits a region into parts that are
    not whole pages, which fails another. *)
Theorem vmm_alloc_object_at_never_succeeds s sp a lo cnt fs live us virt phys size flags r s' :
  vmm_ok s sp a lo cnt fs live us → is_u32 size →
  vmm_alloc_object_at sp virt phys size flags s = Ok (r, s') → r = NULL.
Proof using Type.
  intros Hok Hsize. unfold vmm_alloc_object_at.
  assert (irq_disable s = Ok (arch_irq_are_enabled (irq (machine s)), with_machine (with_irq false (machine s)) s)) as E1 by done.
  rewrite (M_bind_step _ _ _ _ _ E1). intros (r0 & s2 & E2 & (? & ? & _ & E3)%M_bind_ok)%M_bind_ok.
  injection E3 as <- _. eapply alloc_object_at_null; [by apply vmm_ok_irq|done|exact E2].
Qed.

(** ** Page faults and freeing *)

(** C7: the first access to a page of an allocated object commits exactly that
    page: it is mapped to a new physical page, or to that of the memory that
    the object maps, with the rights of the object, the access succeeds when
    it is repeated, and no other page changes. *)
Theorem vmm_page_fault_commits s sp vm_start a lo cnt fs live us ptr was_write was_user p o pa :
  vmm_ok s sp a lo cnt fs live us → sp ≠ NULL → initialized s = true → irq (machine s) = false →
  vm_start mod 4096 = 0 → vm_start ≤ ptr ≤ ARCH_KERNEL_VM_END →
  p ∈ live → objects s !! p = Some o → ptr / 4096 ∈ opages o → uncommited s us (ptr / 4096) →
  has (mapflags o) MAP_PROT_READ = true → commit_source (machine s) o (ptr / 4096) pa →
  wp (vmm_page_fault sp vm_start ptr false was_write was_user) s (λ _ s', ∃ a' us',
    vmm_ok s' sp a' lo cnt fs live us' ∧ is_user a' = is_user a ∧
    (∀ q, q ∈ fs ++ live → objects s' !! q = objects s !! q) ∧
    (∀ w, (w = true → has (mapflags o) MAP_PROT_WRITE = true) → translate (machine s') w ptr = Some (pa + ptr mod 4096)) ∧
    ∀ r, lo ≤ r < lo + cnt →
      (uncommited s' us' r ↔ uncommited s us r ∧ r ≠ ptr / 4096) ∧
      (r ≠ ptr / 4096 → mapped (machine s') r = mapped (machine s) r)).
Proof using Type.
  intros Hok Hsp Hinit Hirq Hvm Hptr Hp Ho Hq Hun Hfl Hsrc.
  eapply wp_mono; [by apply (vmm_page_fault_ok s sp vm_start a lo cnt fs live us ptr was_write was_user p o pa)|].
  intros [] s' (a' & us' & Hok' & Hua & Hobj & Hmap & Hrest). exists a', us'. split; [done|]. split; [done|]. split; [done|].
  split; [|done]. intros w Hw. pose proof (ok_machine _ _ _ _ _ _ _ _ Hok') as HM.
  assert (lo ≤ ptr / 4096 < lo + cnt) as Hr by (by eapply (live_page s)).
  assert (is_u32 pa ∧ pa mod 4096 = 0) as [Hpu Hpal] by (by eapply (commit_source_page s)).
  destruct (mapping_entry_spec pa (mapflags o) (is_user a) Hpu Hpal) as (_ & HW & _ & _ & Epa).
  replace ptr with (4096 * (ptr / 4096) + ptr mod 4096) at 1 by dlia.
  erewrite translate_mapped; [by rewrite Epa|apply HM|by apply (mc_table _ _ _ _ _ _ _ HM)|by apply Z.mod_pos_bound|done|].
  intros Hwt. unfold writable. rewrite HW. by apply Hw.
Qed.

(** C8: freeing an object unmaps all its pages, gives back exactly the physical
    pages it was committed with, and makes its region free again; nothing else
    changes, the interrupt flag included. *)
Theorem vmm_free_correct s sp a lo cnt fs l1 p l2 us o :
  vmm_ok s sp a lo cnt fs (l1 ++ p :: l2) us → objects s !! p = Some o →
  wp (vmm_free p) s (λ _ s', ∃ a' fs' us', vmm_ok s' sp a' lo cnt fs' (l1 ++ l2) us' ∧ is_user a' = is_user a ∧
    fs' ≡ₚ p :: fs ∧ irq (machine s') = irq (machine s) ∧
    (∀ q, q ∈ fs ++ p :: l1 ++ l2 → objects s' !! q = objects s !! q) ∧
    (∀ r, lo ≤ r < lo + cnt →
      mapped (machine s') r = (if decide (r ∈ opages o) then None else mapped (machine s) r) ∧
      (uncommited s' us' r ↔ uncommited s us r ∧ r ∉ opages o)) ∧
    ∀ b, page_owned (pages (machine s')) b ↔ page_owned (pages (machine s)) b ∧
      ¬ (phys_base o = VMM_PHYSADDR_NOMAP ∧ ∃ r e, r ∈ opages o ∧ mapped (machine s) r = Some e ∧ page_of e = b)).
Proof using Type. apply vmm_free_ok. Qed.

(** destroying an address space terminates; it frees every free region, and
    nothing else: what is allocated stays allocated and mapped, and so do the
    bitmaps of the pages that are not committed. *)
Theorem vmm_deinit_frees_regions s sp a lo cnt fs live us : vmm_ok s sp a lo cnt fs live us →
  wp (vmm_deinit_address_space sp) s (λ _ s', ∃ a', lists_ok s' sp a' [] us live ∧
    (∀ p, objects s' !! p = if decide (p ∈ fs) then None else objects s !! p) ∧
    (∀ u, u ∈ us → uobjects s' !! u = uobjects s !! u) ∧ machine s' = machine s).
Proof using Type. intros Hok. apply (deinit_ok s sp a fs us live), Hok. Qed.
End Correct.

(** ** Any sequence of operations *)
Section Runs.
Context {H P : Type} `{!HeapOps H, !HeapLaws H, !HeapSucceeds H, !PmmOps P, !PmmLaws P}.
Local Abbreviation vmm := (vmm H P).
Implicit Types s : vmm.
Context (sp vm_start lo cnt : Z).

(** The calls on an address space, with the objects that are allocated: an
    allocation, which may return an object or not; the first access to a page,
    which the processor reports with interrupts disabled; and a call of
    [vmm_free]. *)
Inductive vmm_step : vmm * list Z → vmm * list Z → Prop :=
  | step_alloc s live phys size flags n r s' :
      size_to_blocks size ARCH_PAGESIZE = Ok n → 0 < n < 2 ^ 20 → phys_ok phys n →
      vmm_alloc_object sp phys size flags s = Ok (r, s') →
      vmm_step (s, live) (s', if decide (objects s' !! r = None) then live else r :: live)
  | step_fault s live p o ptr was_write was_user pa s' :
      initialized s = true → p ∈ live → objects s !! p = Some o → ptr / 4096 ∈ opages o → mapped (machine s) (ptr / 4096) = None →
      vm_start ≤ ptr ≤ ARCH_KERNEL_VM_END → has (mapflags o) MAP_PROT_READ = true → commit_source (machine s) o (ptr / 4096) pa →
      vmm_page_fault sp vm_start ptr false was_write was_user (with_machine (with_irq false (machine s)) s) = Ok (tt, s') →
      vmm_step (s, live) (with_machine (with_irq (irq (machine s)) (machine s')) s', live)
  | step_free s l1 p l2 s' : vmm_free p s = Ok (tt, s') → vmm_step (s, l1 ++ p :: l2) (s', l1 ++ l2).

Definition consistent s (live : list Z) : Prop := ∃ a fs us, vmm_ok s sp a lo cnt fs live us.

Lemma alloc_step_consistent s live phys size flags n r s' : consistent s live →
  size_to_blocks size ARCH_PAGESIZE = Ok n → 0 < n < 2 ^ 20 → phys_ok phys n →
  vmm_alloc_object sp phys size flags s = Ok (r, s') →
  consistent s' (if decide (objects s' !! r = None) then live else r :: live).
Proof using All.
  intros (a & fs & us & Hok) Hsize Hn Hphys E.
  destruct (first_fit s n fs) as [Hall|(f1 & p & f2 & o & -> & Hsmall & [Ho Hwf] & Hle)].
  - intros q Hq. destruct (vmm_ok_object _ _ _ _ _ _ _ _ q Hok) as (o & Ho & _); [set_solver|]. by exists o.
  - destruct fs as [|p fs].
    { rewrite (alloc_full_fails s sp a lo cnt live us n phys flags size Hok Hsize Hn Hphys) in E. done. }
    destruct (wp_ok _ _ _ _ _ (alloc_no_fit_ok s sp a lo cnt (p :: fs) live us n phys flags size Hok Hsize Hn Hphys ltac:(done) Hall) E)
      as (_ & Hnone & Hok'). rewrite decide_True by done. by exists a, (p :: fs), us.
  - destruct (wp_ok _ _ _ _ _ (alloc_object_ok s sp a lo cnt f1 p f2 live us o n phys flags size Hok Hsize Hphys Hsmall Ho ltac:(lia)) E)
      as (_ & a' & fs' & u & Hok' & Hnew & _). rewrite decide_False by congruence. by exists a', fs', (us ++ [u]).
Qed.

Lemma fault_step_consistent s live p o ptr was_write was_user pa s' : sp ≠ NULL → vm_start mod 4096 = 0 → consistent s live →
  initialized s = true → p ∈ live → objects s !! p = Some o → ptr / 4096 ∈ opages o → mapped (machine s) (ptr / 4096) = None →
  vm_start ≤ ptr ≤ ARCH_KERNEL_VM_END → has (mapflags o) MAP_PROT_READ = true → commit_source (machine s) o (ptr / 4096) pa →
  vmm_page_fault sp vm_start ptr false was_write was_user (with_machine (with_irq false (machine s)) s) = Ok (tt, s') →
  consistent (with_machine (with_irq (irq (machine s)) (machine s')) s') live.
Proof using All.
  intros Hsp Hvm (a & fs & us & Hok) Hinit Hp Ho Hq Hnone Hptr Hfl Hsrc E.
  pose proof (vmm_ok_irq _ _ _ _ _ _ _ _ false Hok) as Hok1.
  assert (uncommited s us (ptr / 4096)) as Hun.
  { apply (mc_none _ _ _ _ _ _ _ (ok_machine _ _ _ _ _ _ _ _ Hok)) in Hnone as [Hfree|]; [|done|by eapply (live_page s)].
    exfalso. by eapply (live_not_free s). }
  destruct (wp_ok _ _ _ _ _ (vmm_page_fault_ok _ sp vm_start a lo cnt fs live us ptr was_write was_user p o pa Hok1 Hsp Hinit eq_refl Hvm
    Hptr Hp Ho Hq Hun Hfl Hsrc) E) as (a' & us' & Hok' & _). exists a', fs, us'. by apply vmm_ok_irq.
Qed.

Lemma step_consistent c c' : sp ≠ NULL → vm_start mod 4096 = 0 → vmm_step c c' → consistent c.1 c.2 → consistent c'.1 c'.2.
Proof using All.
  intros Hsp Hvm Hstep Hc. destruct Hstep as [| |s l1 p l2 s' E]; cbn [fst snd] in *.
  - by eapply alloc_step_consistent.
  - by eapply fault_step_consistent.
  - destruct Hc as (a & fs & us & Hok). destruct (vmm_ok_object _ _ _ _ _ _ _ _ p Hok) as (o & [Ho _] & _); [set_solver|].
    destruct (wp_ok _ _ _ _ _ (vmm_free_ok s sp a lo cnt fs l1 p l2 us o Hok Ho) E) as (a' & fs' & us' & Hok' & _).
    by exists a', fs', us'.
Qed.

(** C9: whatever sequence of allocations, first accesses and frees runs on an
    address space: no two allocated objects overlap, and no two of their pages
    were committed with the same physical page. *)
Theorem vmm_objects_stay_apart s live s' live' : sp ≠ NULL → vm_start mod 4096 = 0 → consistent s live →
  rtc vmm_step (s, live) (s', live') →
  (∀ p p' o o', p ∈ live' → p' ∈ live' → objects s' !! p = Some o → objects s' !! p' = Some o' → p ≠ p' →
     end_ o < start o' ∨ end_ o' < start o) ∧
  (∀ q q' pa, backed s' live' q pa → backed s' live' q' pa → q = q').
Proof using All.
  intros Hsp Hvm Hc Hrun. assert (consistent s' live') as (a & fs & us & Hok).
  { change (consistent (s', live').1 (s', live').2). change (consistent (s, live).1 (s, live).2) in Hc.
    induction Hrun as [|c1 c2 c3 Hstep _ IH]; [done|]. by eapply IH, step_consistent. }
  split; [|apply (mc_distinct _ _ _ _ _ _ _ (ok_machine _ _ _ _ _ _ _ _ Hok))].
  intros p p' o o' Hp Hp' Ho Ho' Hne.
  destruct (vmm_ok_object _ _ _ _ _ _ _ _ p Hok) as (o1 & [E Hwf] & _); [set_solver|]. rewrite Ho in E. injection E as <-.
  destruct (vmm_ok_object _ _ _ _ _ _ _ _ p' Hok) as (o1 & [E Hwf'] & _); [set_solver|]. rewrite Ho' in E. injection E as <-.
  destruct (Z.lt_ge_cases (end_ o') (start o)) as [|Hge]; [by right|left].
  apply disjoint_order; [done..| |lia]. intros q Hq Hq'. apply Hne. by eapply (live_disjoint s').
Qed.
End Runs.
