(* ===== verification/Buddy.v ===== *)
(** Buddy trees: what the bitmap of a page pool stands for.

    A tree of height [h] describes [2 ^ h] pages: [Free] and [Used] are blocks
    of all of them, [Split] halves them.  The file defines allocation and
    deallocation on trees, and shows that they undo each other, independently
    of how a tree is represented. *)
From S2P Require Import Prelude.

Inductive btree := Free | Used | Split (l r : btree).

#[export] Instance btree_eq_dec : EqDecision btree.
Proof. solve_decision. Defined.

(** A path from the root: [false] goes left. *)
Abbreviation path := (list bool).

Fixpoint subtree (t : btree) (p : path) {struct p} : option btree :=
  match p, t with
  | [], _ => Some t
  | b :: p, Split l r => subtree (if b : bool then r else l) p
  | _ :: _, _ => None
  end.

(** [t] with the subtree at [p] replaced. *)
Fixpoint replace (t : btree) (p : path) (s : btree) {struct p} : btree :=
  match p, t with
  | [], _ => s
  | b :: p, Split l r => if b : bool then Split l (replace r p s) else Split (replace l p s) r
  | _ :: _, _ => t
  end.

(** Is the block at [p] available? *)
Fixpoint avail (t : btree) (p : path) {struct p} : bool :=
  match p, t with
  | [], Free => true
  | b :: p, Split l r => avail (if b : bool then r else l) p
  | _, _ => false
  end.

(** A tree fits in [h] levels of splitting. *)
Fixpoint fits (h : nat) (t : btree) {struct t} : Prop :=
  match t, h with
  | Split l r, S h => fits h l ∧ fits h r
  | Split _ _, O => False
  | _, _ => True
  end.

(** No two buddies are both available: they have been merged. *)
Fixpoint merged (t : btree) : Prop :=
  match t with
  | Split l r => ¬ (l = Free ∧ r = Free) ∧ merged l ∧ merged r
  | _ => True
  end.

(** ** Operations *)

(** The tree of a free block out of which the leftmost block [d] levels down
    was taken. *)
Fixpoint taken (d : nat) : btree :=
  match d with O => Used | S d => Split (taken d) Free end.

Definition join (l r : btree) : btree :=
  match l, r with Free, Free => Free | _, _ => Split l r end.
#[global] Arguments join : simpl never.

(** Give the used block at [p] back, merging buddies on the way up. *)
Fixpoint give_back (t : btree) (p : path) {struct p} : option btree :=
  match p, t with
  | [], Used => Some Free
  | b :: p, Split l r =>
      if b : bool then r' ← give_back r p; Some (join l r')
      else l' ← give_back l p; Some (join l' r)
  | _, _ => None
  end.

(** ** Pages *)

(** The state of page [i] of a tree of height [h]: is it in a used block? *)
Fixpoint page_used (h : nat) (t : btree) (i : Z) {struct t} : bool :=
  match t, h with
  | Used, _ => true
  | Free, _ => false
  | Split l r, S h =>
      if i <? 2 ^ Z.of_nat h then page_used h l i else page_used h r (i - 2 ^ Z.of_nat h)
  | Split _ _, O => false
  end.

(** The number of the block at the end of a path among those of its level. *)
Fixpoint block_no (p : path) : Z :=
  match p with
  | [] => 0
  | b :: p => (if b : bool then 2 ^ Z.of_nat (length p) else 0) + block_no p
  end.

(** ** Paths *)

Lemma subtree_app t p q :
  subtree t (p ++ q) = (s ← subtree t p; subtree s q).
Proof.
  revert t. induction p as [|b p IH]; intros t; cbn; [done|].
  destruct t as [| |l r]; [done..|]. by destruct b.
Qed.

Lemma replace_app t p q s u :
  subtree t p = Some u → replace t (p ++ q) s = replace t p (replace u q s).
Proof.
  revert t. induction p as [|b p IH]; intros t; cbn; [naive_solver|].
  destruct t as [| |l r]; [done..|]. intros Hs. destruct b; f_equal; by apply IH.
Qed.

Lemma replace_same t p u : subtree t p = Some u → replace t p u = t.
Proof.
  revert t. induction p as [|b p IH]; intros t; cbn; [naive_solver|].
  destruct t as [| |l r]; [done..|]. intros Hs. destruct b; f_equal; by apply IH.
Qed.

Lemma subtree_replace t p u s : subtree t p = Some u → subtree (replace t p s) p = Some s.
Proof.
  revert t. induction p as [|b p IH]; intros t; cbn; [done|].
  destruct t as [| |l r]; [done..|]. intros Hs. destruct b; by apply IH.
Qed.

Lemma replace_replace t p s s' : replace (replace t p s) p s' = replace t p s'.
Proof.
  revert t. induction p as [|b p IH]; intros t; cbn; [done|].
  destruct t as [| |l r]; [done..|]. destruct b; cbn; f_equal; apply IH.
Qed.

Lemma avail_free t p : avail t p = true → subtree t p = Some Free.
Proof.
  revert t. induction p as [|b p IH]; intros [| |l r]; cbn; try done. apply IH.
Qed.

Lemma avail_app t p q u : subtree t p = Some u → avail t (p ++ q) = avail u q.
Proof.
  revert t. induction p as [|b p IH]; intros t; cbn; [naive_solver|].
  destruct t as [| |l r]; [done..|]. intros Hs. destruct b; by apply IH.
Qed.

(** Replacing a subtree changes the availability of no block outside of it. *)
Lemma avail_replace t p u s q :
  subtree t p = Some u → ¬ p `prefix_of` q → avail (replace t p s) q = avail t q.
Proof.
  revert t q. induction p as [|b p IH]; intros t q; cbn.
  { intros _ []. apply prefix_nil. }
  destruct t as [| |l r]; [done..|]. intros Hs Hq.
  destruct q as [|c q]; [by destruct b|].
  destruct b, c; cbn; try done; apply IH; try done; intros Hp; apply Hq; by apply prefix_cons.
Qed.

Lemma fits_subtree h t p u : fits h t → subtree t p = Some u →
  (length p ≤ h)%nat ∧ fits (h - length p) u.
Proof.
  revert h t. induction p as [|b p IH]; intros h t; cbn.
  { intros Hf [= <-]. rewrite Nat.sub_0_r. split; [lia|done]. }
  destruct t as [| |l r]; [done..|]. destruct h as [|h]; [done|]. intros [Hl Hr] Hs.
  destruct b; (edestruct IH as [? ?]; [|exact Hs|]; [eassumption|]); (split; [lia|done]).
Qed.

Lemma fits_replace h t p u s :
  fits h t → subtree t p = Some u → fits (h - length p) s → fits h (replace t p s).
Proof.
  revert h t. induction p as [|b p IH]; intros h t; cbn.
  { intros _ _. by rewrite Nat.sub_0_r. }
  destruct t as [| |l r]; [done..|]. destruct h as [|h]; [done|]. intros [Hl Hr] Hs Hf.
  destruct b; split; try done; by eapply IH.
Qed.

Lemma fits_taken d h : (d ≤ h)%nat → fits h (taken d).
Proof.
  revert h. induction d as [|d IH]; intros h Hd; cbn; [done|].
  destruct h as [|h]; [lia|]. cbn. split; [apply IH; lia|done].
Qed.

Lemma merged_subtree t p u : merged t → subtree t p = Some u → merged u.
Proof.
  revert t. induction p as [|b p IH]; intros t; cbn; [naive_solver|].
  destruct t as [| |l r]; [done..|]. intros (_ & Hl & Hr). by destruct b; apply IH.
Qed.

Lemma merged_taken d : merged (taken d).
Proof. induction d as [|d IH]; cbn; [done|]. split_and!; [|done..]. intros [E _]. by destruct d. Qed.

(** Replacing by a tree that is not [Free] keeps a tree merged. *)
Lemma merged_replace t p u s :
  merged t → subtree t p = Some u → merged s → s ≠ Free → merged (replace t p s).
Proof.
  intros Ht Hs Hms Hne.
  enough (merged (replace t p s) ∧ replace t p s ≠ Free) by tauto.
  revert t Ht Hs. induction p as [|b p IH]; intros t; cbn; [done|].
  destruct t as [| |l r]; [done..|]. intros (Hn & Hl & Hr) Hs.
  destruct b; cbn; (edestruct IH as [Hm Hf]; [|exact Hs|]; [eassumption|]); naive_solver.
Qed.

Lemma taken_not_free d : taken d ≠ Free.
Proof. by destruct d. Qed.

(** ** Giving back *)

Lemma join_not_free l r : ¬ (l = Free ∧ r = Free) → join l r = Split l r.
Proof. destruct l, r; naive_solver. Qed.

Lemma give_back_taken d : give_back (taken d) (replicate d false) = Some Free.
Proof. induction d as [|d IH]; cbn; [done|]. by rewrite IH. Qed.

(** Giving back what was just taken out of a free block of a merged tree
    restores the tree. *)
Lemma give_back_replace t p s q :
  merged t → subtree t p = Some Free → give_back s q = Some Free →
  give_back (replace t p s) (p ++ q) = Some t.
Proof.
  revert t. induction p as [|b p IH]; intros t; cbn.
  { by intros _ [= ->]. }
  destruct t as [| |l r]; [done..|]. intros (Hn & Hl & Hr) Hs Hg.
  destruct b; rewrite IH by done; cbn; by rewrite join_not_free.
Qed.

(** Giving back from the bottom: when the buddy is available, the parent
    becomes the block to give back ... *)
Lemma give_back_snoc_merge t p (b : bool) l r :
  subtree t p = Some (Split l r) →
  (if b then r else l) = Used → (if b then l else r) = Free →
  give_back t (p ++ [b]) = give_back (replace t p Used) p.
Proof.
  revert t. induction p as [|c p IH]; intros t; cbn.
  { intros [= ->] Hu Hf. destruct b; subst; done. }
  destruct t as [| |l' r']; [done..|]. intros Hs Hu Hf. destruct c; by rewrite IH.
Qed.

(** ... and when it is not, the block is free and nothing else changes. *)
Lemma give_back_snoc_stop t p (b : bool) l r :
  subtree t p = Some (Split l r) →
  (if b then r else l) = Used → (if b then l else r) ≠ Free →
  give_back t (p ++ [b]) = Some (replace t (p ++ [b]) Free).
Proof.
  revert t. induction p as [|c p IH]; intros t; cbn.
  { intros [= ->] Hu Hf. destruct b; subst; cbn; by rewrite join_not_free by tauto. }
  destruct t as [| |l' r']; [done..|]. intros Hs Hu Hf.
  assert (Hne : ∀ u, subtree u p = Some (Split l r) → replace u (p ++ [b]) Free ≠ Free).
  { intros u Hu'. destruct p as [|e p]; cbn in *.
    - injection Hu' as ->. by destruct b.
    - destruct u; [done..|]. by destruct e. }
  destruct c; rewrite IH by done; cbn; rewrite join_not_free; naive_solver.
Qed.

(** Giving back keeps a tree merged. *)
Lemma merged_join l r : merged l → merged r → merged (join l r).
Proof. unfold join. destruct l, r; cbn; naive_solver. Qed.

Lemma give_back_merged t p t' : merged t → give_back t p = Some t' → merged t'.
Proof.
  revert t t'. induction p as [|b p IH]; intros t t'; cbn.
  { destruct t; [done| |done]. intros _ [= <-]. done. }
  destruct t as [| |l r]; [done..|]. intros (Hn & Hl & Hr).
  destruct b; [destruct (give_back r p) eqn:E|destruct (give_back l p) eqn:E]; cbn; try done;
    intros [= <-]; apply merged_join; eauto.
Qed.

(** ** Pages of blocks *)

Lemma block_no_bounds p : 0 ≤ block_no p < 2 ^ Z.of_nat (length p).
Proof.
  induction p as [|b p IH]; cbn [block_no length]; [done|].
  rewrite Nat2Z.inj_succ, Z.pow_succ_r by lia. destruct b; lia.
Qed.

Lemma block_no_snoc p b : block_no (p ++ [b]) = 2 * block_no p + (if b : bool then 1 else 0).
Proof.
  induction p as [|c p IH]; cbn [block_no app]; [by destruct b|].
  rewrite IH, length_app. cbn [length]. rewrite Nat2Z.inj_add.
  change (Z.of_nat 1) with 1. rewrite Z.pow_add_r by lia. destruct c, b; lia.
Qed.

(** Is page [i] in the block at [p] of a tree of height [h]? *)
Definition in_block (h : nat) (p : path) (i : Z) : Prop :=
  block_no p * 2 ^ Z.of_nat (h - length p) ≤ i < (block_no p + 1) * 2 ^ Z.of_nat (h - length p).

Lemma in_block_cons h b p i : (length p ≤ h)%nat →
  in_block (S h) (b :: p) i ↔ in_block h p (i - (if b : bool then 2 ^ Z.of_nat h else 0)).
Proof.
  intros Hp. unfold in_block. cbn [block_no length Nat.sub].
  assert (2 ^ Z.of_nat h = 2 ^ Z.of_nat (length p) * 2 ^ Z.of_nat (h - length p)) as E.
  { rewrite <- Z.pow_add_r by lia. f_equal. lia. }
  destruct b; nia.
Qed.

Lemma in_block_range h p i : (length p ≤ h)%nat → in_block h p i → 0 ≤ i < 2 ^ Z.of_nat h.
Proof.
  intros Hp Hi. unfold in_block in Hi. pose proof (block_no_bounds p).
  assert (2 ^ Z.of_nat h = 2 ^ Z.of_nat (length p) * 2 ^ Z.of_nat (h - length p)) as E.
  { rewrite <- Z.pow_add_r by lia. f_equal. lia. }
  assert (0 < 2 ^ Z.of_nat (h - length p)) by (apply Z.pow_pos_nonneg; lia). nia.
Qed.

(** Pages outside of a replaced subtree keep their state; those inside get
    the state the new subtree gives them. *)
Lemma page_used_replace h t p u s i :
  fits h t → subtree t p = Some u → 0 ≤ i < 2 ^ Z.of_nat h →
  (¬ in_block h p i → page_used h (replace t p s) i = page_used h t i) ∧
  (in_block h p i → page_used h t i =
       page_used (h - length p) u (i - block_no p * 2 ^ Z.of_nat (h - length p)) ∧
     page_used h (replace t p s) i =
       page_used (h - length p) s (i - block_no p * 2 ^ Z.of_nat (h - length p))).
Proof.
  revert h t i. induction p as [|b p IH]; intros h t i; cbn [subtree replace].
  { intros _ [= ->] Hi. rewrite Nat.sub_0_r. cbn [block_no]. rewrite Z.mul_0_l, Z.sub_0_r.
    split; [|done]. intros Hn. destruct Hn. unfold in_block. cbn. rewrite Nat.sub_0_r. lia. }
  destruct t as [| |l r]; [done..|]. destruct h as [|h]; [done|]. intros [Hl Hr] Hs Hi.
  rewrite Nat2Z.inj_succ, Z.pow_succ_r in Hi by lia.
  assert (Hfit : (length p ≤ h)%nat) by (destruct b; [destruct (fits_subtree h r p u)|destruct (fits_subtree h l p u)]; done).
  rewrite in_block_cons by done.
  assert (Hblk : block_no (b :: p) * 2 ^ Z.of_nat (S h - length (b :: p)) =
    (if b then 2 ^ Z.of_nat h else 0) + block_no p * 2 ^ Z.of_nat (h - length p)).
  { cbn [block_no length Nat.sub].
    assert (2 ^ Z.of_nat h = 2 ^ Z.of_nat (length p) * 2 ^ Z.of_nat (h - length p)) as E.
    { rewrite <- Z.pow_add_r by lia. f_equal. lia. }
    destruct b; nia. }
  rewrite Hblk, Z.sub_add_distr. cbn [length Nat.sub].
  destruct b; cbn [page_used]; destruct (Z.ltb_spec i (2 ^ Z.of_nat h)).
  - split; [done|]. intros Hin%in_block_range; [lia|done].
  - apply IH; (done || lia).
  - rewrite !Z.sub_0_r. apply IH; (done || lia).
  - rewrite !Z.sub_0_r. split; [done|]. intros Hin%in_block_range; [lia|done].
Qed.

(** A taken block is the leftmost of its size. *)
Lemma page_used_taken d h i : (d ≤ h)%nat → 0 ≤ i < 2 ^ Z.of_nat h →
  page_used h (taken d) i = (i <? 2 ^ Z.of_nat (h - d)).
Proof.
  revert h i. induction d as [|d IH]; intros h i Hd Hi; cbn [taken page_used].
  { rewrite Nat.sub_0_r. by destruct (Z.ltb_spec i (2 ^ Z.of_nat h)); [|lia]. }
  destruct h as [|h]; [lia|]. cbn [page_used Nat.sub].
  assert (2 ^ Z.of_nat (h - d) ≤ 2 ^ Z.of_nat h) by (apply Z.pow_le_mono_r; lia).
  destruct (Z.ltb_spec i (2 ^ Z.of_nat h)).
  - apply IH; lia.
  - destruct (Z.ltb_spec i (2 ^ Z.of_nat (h - d))); [lia|done].
Qed.

Lemma block_no_app_left p d : block_no (p ++ replicate d false) = block_no p * 2 ^ Z.of_nat d.
Proof.
  induction p as [|b p IH]; cbn [app block_no].
  - rewrite Z.mul_0_l. induction d as [|d IH]; cbn [replicate block_no]; [done|]. by rewrite IH.
  - rewrite IH, length_app, length_replicate, Nat2Z.inj_add, Z.pow_add_r by lia. destruct b; lia.
Qed.

(** Taking a block out of a free one uses the pages of the block, which were
    all unused, and no others. *)
Lemma taken_pages h t p d i :
  fits h t → subtree t p = Some Free → (length p + d ≤ h)%nat → 0 ≤ i < 2 ^ Z.of_nat h →
  let q := p ++ replicate d false in
  (in_block h q i → page_used h t i = false ∧ page_used h (replace t p (taken d)) i = true) ∧
  (¬ in_block h q i → page_used h (replace t p (taken d)) i = page_used h t i).
Proof.
  intros Hf Hs Hd Hi q.
  destruct (page_used_replace h t p Free (taken d) i Hf Hs Hi) as [Hout Hin].
  assert (Hq : in_block h q i ↔ in_block h p i ∧
    i - block_no p * 2 ^ Z.of_nat (h - length p) < 2 ^ Z.of_nat (h - length p - d)).
  { unfold in_block, q. rewrite block_no_app_left, length_app, length_replicate.
    replace (h - (length p + d))%nat with (h - length p - d)%nat by lia.
    assert (2 ^ Z.of_nat (h - length p) = 2 ^ Z.of_nat d * 2 ^ Z.of_nat (h - length p - d)) as E.
    { rewrite <- Z.pow_add_r by lia. f_equal. lia. }
    assert (0 < 2 ^ Z.of_nat (h - length p - d)) by (apply Z.pow_pos_nonneg; lia).
    assert (1 ≤ 2 ^ Z.of_nat d) by (pose proof (Z.pow_pos_nonneg 2 (Z.of_nat d)); lia).
    rewrite E. split; [intros; split; nia|]. intros; nia. }
  rewrite Hq. split.
  - intros [Hp Hlt]. destruct (Hin Hp) as [-> ->]. split; [done|].
    rewrite page_used_taken; [by apply Z.ltb_lt|lia|]. unfold in_block in Hp. lia.
  - intros Hn. destruct (Z.lt_ge_cases i (block_no p * 2 ^ Z.of_nat (h - length p))) as [Hlt|Hge];
      [apply Hout; unfold in_block; lia|].
    destruct (Z.lt_ge_cases i ((block_no p + 1) * 2 ^ Z.of_nat (h - length p))) as [Hlt|Hge'];
      [|apply Hout; unfold in_block; lia].
    assert (Hp : in_block h p i) by (unfold in_block; lia).
    destruct (Hin Hp) as [-> ->]. rewrite page_used_taken; [|lia|unfold in_block in Hp; lia].
    cbn. apply Z.ltb_ge. destruct (Z.lt_ge_cases
      (i - block_no p * 2 ^ Z.of_nat (h - length p)) (2 ^ Z.of_nat (h - length p - d))); tauto.
Qed.

(** ** Numbering of the blocks: level after level, from left to right *)

Definition index (p : path) : Z := 2 ^ Z.of_nat (length p) - 1 + block_no p.

(** The path to block number [b] of level [l]. *)
Fixpoint path_of (l : nat) (b : Z) : path :=
  match l with
  | O => []
  | S l => (2 ^ Z.of_nat l <=? b) ::
      path_of l (if 2 ^ Z.of_nat l <=? b then b - 2 ^ Z.of_nat l else b)
  end.

Lemma length_path_of l b : length (path_of l b) = l.
Proof. revert b. induction l as [|l IH]; intros b; cbn; [done|]. by rewrite IH. Qed.

Lemma block_no_path_of l b : 0 ≤ b < 2 ^ Z.of_nat l → block_no (path_of l b) = b.
Proof.
  revert b. induction l as [|l IH]; intros b Hb; cbn [path_of block_no].
  { cbn in Hb. lia. }
  rewrite Nat2Z.inj_succ, Z.pow_succ_r in Hb by lia. rewrite length_path_of.
  destruct (Z.leb_spec (2 ^ Z.of_nat l) b); rewrite IH; lia.
Qed.

Lemma block_no_inj p q : length p = length q → block_no p = block_no q → p = q.
Proof.
  revert q. induction p as [|b p IH]; intros [|c q]; cbn [length block_no]; try done.
  intros [= Hl] Hb. rewrite Hl in Hb.
  pose proof (block_no_bounds p) as Hp. pose proof (block_no_bounds q) as Hq. rewrite Hl in Hp.
  destruct b, c; try lia; f_equal; apply IH; (done || lia).
Qed.

Lemma index_bounds p :
  2 ^ Z.of_nat (length p) - 1 ≤ index p < 2 ^ (Z.of_nat (length p) + 1) - 1.
Proof.
  unfold index. pose proof (block_no_bounds p). rewrite Z.pow_add_r by lia. lia.
Qed.

Lemma index_inj p q : index p = index q → p = q.
Proof.
  intros E. pose proof (index_bounds p). pose proof (index_bounds q).
  assert (length p = length q) as Hl.
  { destruct (lt_eq_lt_dec (length p) (length q)) as [[Hlt|?]|Hlt]; [|done|];
      exfalso.
    - assert (2 ^ (Z.of_nat (length p) + 1) ≤ 2 ^ Z.of_nat (length q))
        by (apply Z.pow_le_mono_r; lia). lia.
    - assert (2 ^ (Z.of_nat (length q) + 1) ≤ 2 ^ Z.of_nat (length p))
        by (apply Z.pow_le_mono_r; lia). lia. }
  apply block_no_inj; [done|]. unfold index in E. rewrite Hl in E. lia.
Qed.

Lemma index_lt_levels h p : (length p ≤ h)%nat → 0 ≤ index p < 2 ^ (Z.of_nat h + 1) - 1.
Proof.
  intros Hp. pose proof (index_bounds p).
  assert (2 ^ (Z.of_nat (length p) + 1) ≤ 2 ^ (Z.of_nat h + 1)) by (apply Z.pow_le_mono_r; lia).
  assert (1 ≤ 2 ^ Z.of_nat (length p)) by (pose proof (Z.pow_pos_nonneg 2 (Z.of_nat (length p))); lia).
  lia.
Qed.

(** The neighbor of the block at the end of a path. *)
Lemma index_neighbor p (b : bool) :
  index (p ++ [negb b]) = if block_no (p ++ [b]) mod 2 =? 0
    then index (p ++ [b]) + 1 else index (p ++ [b]) - 1.
Proof.
  unfold index. rewrite !length_app, !block_no_snoc. cbn [length].
  destruct b; cbn [negb].
  - replace ((2 * block_no p + 1) mod 2) with 1; [cbn; lia|].
    rewrite Z.mul_comm, Z.add_comm, Z.mod_add by lia. done.
  - replace ((2 * block_no p + 0) mod 2) with 0; [cbn; lia|].
    rewrite Z.add_0_r, Z.mul_comm, Z.mod_mul by lia. done.
Qed.

(** ** Availability after replacing *)

Lemma avail_replace_below t p u s r :
  subtree t p = Some u → avail (replace t p s) (p ++ r) = avail s r.
Proof. intros Hs. by apply avail_app, (subtree_replace t p u). Qed.

Lemma prefix_dec (p q : path) : (∃ r, q = p ++ r) ∨ ¬ p `prefix_of` q.
Proof. destruct (decide (p `prefix_of` q)) as [[r ->]|]; [left; by exists r|by right]. Qed.

(** Marking one block: [replace] between trees that agree below it. *)
Lemma avail_replace_leaf t p u s q :
  subtree t p = Some u → (∀ r, r ≠ [] → avail s r = avail u r) →
  avail (replace t p s) q = if decide (q = p) then avail s [] else avail t q.
Proof.
  intros Hs Hr. destruct (prefix_dec p q) as [[r ->]|Hn].
  - rewrite (avail_replace_below _ _ u) by done. case_decide as E.
    + rewrite <- (app_nil_r p) in E at 2. by apply app_inv_head in E as ->.
    + rewrite Hr; [by rewrite (avail_app t p r u)|]. intros ->. by rewrite app_nil_r in E.
  - rewrite (avail_replace t p u) by done. rewrite decide_False; [done|].
    intros ->. by apply Hn.
Qed.

Lemma subtree_taken d : subtree (taken d) (replicate d false) = Some Used.
Proof. induction d as [|d IH]; cbn; done. Qed.

(** Splitting the used block of [taken d] once more. *)
Lemma replace_taken d :
  replace (taken d) (replicate d false) (Split Used Free) = taken (S d).
Proof. induction d as [|d IH]; [done|]. cbn in *. by rewrite IH. Qed.

Lemma replace_taken_at t p d u :
  subtree t p = Some u →
  replace (replace t p (taken d)) (p ++ replicate d false) (Split Used Free) =
    replace t p (taken (S d)).
Proof.
  intros Hs. rewrite (replace_app _ p _ _ (taken d)) by (by eapply subtree_replace).
  by rewrite replace_taken, replace_replace.
Qed.

Lemma subtree_taken_at t p d u :
  subtree t p = Some u →
  subtree (replace t p (taken d)) (p ++ replicate d false) = Some Used.
Proof.
  intros Hs. rewrite subtree_app, (subtree_replace _ _ u) by done. cbn. apply subtree_taken.
Qed.

Lemma give_back_used t p t' : give_back t p = Some t' → subtree t p = Some Used.
Proof.
  revert t t'. induction p as [|b p IH]; intros t t'; cbn; [by destruct t|].
  destruct t as [| |l r]; [done..|].
  destruct b; [destruct (give_back r p) eqn:E|destruct (give_back l p) eqn:E]; cbn; try done; eauto.
Qed.

Lemma give_back_is_Some t p : subtree t p = Some Used → is_Some (give_back t p).
Proof.
  revert t. induction p as [|b p IH]; intros t; cbn; [by intros [= ->]|].
  destruct t as [| |l r]; [done..|]. intros Hs.
  destruct b; destruct (IH _ Hs) as [x ->]; by eexists.
Qed.

Lemma fits_join h l r : fits h l → fits h r → fits (S h) (join l r).
Proof. unfold join. destruct l, r; cbn; naive_solver. Qed.

Lemma give_back_fits h t p t' : fits h t → give_back t p = Some t' → fits h t'.
Proof.
  revert h t t'. induction p as [|b p IH]; intros h t t'; cbn.
  { destruct t; [done| |done]. intros _ [= <-]. done. }
  destruct t as [| |l r]; [done..|]. destruct h as [|h]; [done|]. intros [Hl Hr].
  destruct b; [destruct (give_back r p) eqn:E|destruct (give_back l p) eqn:E]; cbn; try done;
    intros [= <-]; apply fits_join; eauto.
Qed.

(** ** Completeness: in a merged tree, unused pages make available blocks *)

Lemma unused_free h t :
  fits h t → merged t → (∀ i, 0 ≤ i < 2 ^ Z.of_nat h → page_used h t i = false) → t = Free.
Proof.
  revert h. induction t as [| |l IHl r IHr]; intros h Hf Hm Hu; [done| |].
  - specialize (Hu 0). cbn in Hu. discriminate Hu. split; [lia|]. apply Z.pow_pos_nonneg; lia.
  - destruct h as [|h]; [done|]. destruct Hf as [Hfl Hfr], Hm as (Hn & Hml & Hmr).
    destruct Hn. rewrite Nat2Z.inj_succ, Z.pow_succ_r in Hu by lia. split.
    + apply (IHl h); [done..|]. intros i Hi. specialize (Hu i ltac:(lia)). cbn in Hu.
      destruct (Z.ltb_spec i (2 ^ Z.of_nat h)); [done|lia].
    + apply (IHr h); [done..|]. intros i Hi. specialize (Hu (i + 2 ^ Z.of_nat h) ltac:(lia)).
      cbn in Hu. destruct (Z.ltb_spec (i + 2 ^ Z.of_nat h) (2 ^ Z.of_nat h)); [lia|].
      by rewrite Z.add_simpl_r in Hu.
Qed.

(** A block all of whose pages are unused is part of an available block. *)
Lemma unused_block_avail h t q :
  fits h t → merged t → (length q ≤ h)%nat →
  (∀ i, in_block h q i → page_used h t i = false) →
  ∃ p, p `prefix_of` q ∧ avail t p = true.
Proof.
  revert h t. induction q as [|b q IH]; intros h t Hf Hm Hq Hu.
  - exists []. split; [done|]. rewrite (unused_free h t); [done..|].
    intros i Hi. apply Hu. unfold in_block. cbn. rewrite Nat.sub_0_r. lia.
  - destruct t as [| |l r].
    + exists []. split; [apply prefix_nil|done].
    + exfalso. cbn in Hq. specialize (Hu (block_no (b :: q) * 2 ^ Z.of_nat (h - length (b :: q)))).
      cbn in Hu. discriminate Hu. unfold in_block. cbn.
      pose proof (Z.pow_pos_nonneg 2 (Z.of_nat (h - S (length q)))). lia.
    + destruct h as [|h]; [done|]. destruct Hf as [Hfl Hfr], Hm as (_ & Hml & Hmr). cbn in Hq.
      assert (Hlen : (length q ≤ h)%nat) by lia.
      destruct (IH h (if b then r else l)) as (p & Hp & Ha); [by destruct b..|done| |].
      * intros i Hi. specialize (Hu (i + if b then 2 ^ Z.of_nat h else 0)).
        rewrite in_block_cons, Z.add_simpl_r in Hu by done. specialize (Hu Hi).
        apply in_block_range in Hi; [|done]. cbn in Hu. destruct b.
        -- destruct (Z.ltb_spec (i + 2 ^ Z.of_nat h) (2 ^ Z.of_nat h)); [lia|].
           by rewrite Z.add_simpl_r in Hu.
        -- rewrite Z.add_0_r in Hu. by destruct (Z.ltb_spec i (2 ^ Z.of_nat h)); [|lia].
      * exists (b :: p). split; [by apply prefix_cons|done].
Qed.

(** Marking the right half of a used block as available. *)
Lemma avail_replace_split t c q :
  subtree t c = Some Used →
  avail (replace t c (Split Used Free)) q = if decide (q = c ++ [true]) then true else avail t q.
Proof.
  intros Hs. destruct (prefix_dec c q) as [[r ->]|Hn].
  - rewrite (avail_replace_below _ _ Used) by done. rewrite (avail_app t c r Used) by done.
    case_decide as E.
    + apply app_inv_head in E as ->. done.
    + destruct r as [|[] [|]]; done.
  - rewrite (avail_replace t c Used) by done. rewrite decide_False; [done|].
    intros ->. apply Hn. by apply prefix_app_r.
Qed.

(** Marking a block and its buddy, both leaves, as parts of a used block. *)
Lemma avail_replace_merge t p l r q :
  subtree t p = Some (Split l r) → (∀ s, avail (Split l r) s = true → ∃ b, s = [b]) →
  avail (replace t p Used) q =
    if decide (∃ b, q = p ++ [b]) then false else avail t q.
Proof.
  intros Hs Hl. destruct (prefix_dec p q) as [[s ->]|Hn].
  - rewrite (avail_replace_below _ _ (Split l r)) by done. rewrite (avail_app t p s (Split l r)) by done.
    case_decide as E; [by destruct s|].
    destruct (avail (Split l r) s) eqn:Ha; [|by destruct s].
    destruct (Hl s Ha) as [b ->]. destruct E. by exists b.
  - rewrite (avail_replace t p (Split l r)) by done. rewrite decide_False; [done|].
    intros [b ->]. apply Hn. by apply prefix_app_r.
Qed.

(** Every bit number of the levels numbers a block. *)
Lemma index_surj L j : 0 ≤ j < 2 ^ (Z.of_nat L + 1) - 1 → ∃ p, (length p ≤ L)%nat ∧ index p = j.
Proof.
  intros Hj. pose proof (Z.log2_spec (j + 1) ltac:(lia)) as Hlog.
  pose proof (Z.log2_nonneg (j + 1)).
  assert (Z.log2 (j + 1) < Z.of_nat L + 1) by (apply Z.log2_lt_pow2; lia).
  rewrite <- Z.add_1_r, Z.pow_add_r in Hlog by lia.
  exists (path_of (Z.to_nat (Z.log2 (j + 1))) (j - (2 ^ Z.log2 (j + 1) - 1))).
  unfold index. rewrite length_path_of, block_no_path_of; rewrite Z2Nat.id by lia; lia.
Qed.

(** Giving a block back makes its pages unused, and changes no others. *)
Lemma page_used_join h l r i :
  fits h l → fits h r → page_used (S h) (join l r) i = page_used (S h) (Split l r) i.
Proof. intros. unfold join. destruct l, r; try done. cbn. by destruct (_ <? _). Qed.

Lemma give_back_pages h t p t' i :
  fits h t → give_back t p = Some t' → 0 ≤ i < 2 ^ Z.of_nat h →
  (in_block h p i → page_used h t i = true ∧ page_used h t' i = false) ∧
  (¬ in_block h p i → page_used h t' i = page_used h t i).
Proof.
  revert h t t' i. induction p as [|b p IH]; intros h t t' i Hf Hg Hi; cbn in Hg.
  - destruct t; [done| |done]. injection Hg as <-. split; [done|]. intros Hn. destruct Hn.
    unfold in_block. cbn. rewrite Nat.sub_0_r. lia.
  - destruct t as [| |l r]; [done..|]. destruct h as [|h]; [done|]. destruct Hf as [Hl Hr].
    assert (∃ x, give_back (if b then r else l) p = Some x ∧
      t' = if b then join l x else join x r) as (x & Hx & ->).
    { destruct b; [destruct (give_back r p)|destruct (give_back l p)]; naive_solver. }
    assert (Hfx : fits h x) by (eapply give_back_fits; [|exact Hx]; by destruct b).
    assert (Hp : (length p ≤ h)%nat).
    { apply give_back_used in Hx. destruct (fits_subtree h (if b then r else l) p Used); [by destruct b|done..]. }
    rewrite in_block_cons by done. rewrite Nat2Z.inj_succ, Z.pow_succ_r in Hi by lia.
    destruct b; rewrite page_used_join by done; cbn [page_used];
      destruct (Z.ltb_spec i (2 ^ Z.of_nat h)).
    + split; [|done]. intros Hin%in_block_range; [lia|done].
    + apply IH; (done || lia).
    + rewrite Z.sub_0_r. apply IH; (done || lia).
    + rewrite Z.sub_0_r. split; [|done]. intros Hin%in_block_range; [lia|done].
Qed.
