(* ===== verification/Pmm.v ===== *)
(** The physical page allocator (src/kernel/mem/pmm.c): pools managed by buddy
    allocation in a bitmap.  The bitmap of a pool represents a buddy tree
    ([represents]); allocation and deallocation refine the operations of
    Buddy.v. *)
From S2P Require Import Prelude MiscMath Bitmap Arch HeapIface Buddy.

(** ** Data *)

(** The list of the pools, linked by [nextpool] from [s_firstpool] on, is a
    list.  [level_count] is a field the code never assigns. *)
Record pagepool := Pagepool {
  bm : bitmap; base_addr : Z; page_count : Z; level_count : Z;
}.

Definition with_bitmap (pool : pagepool) (b : bitmap) : pagepool :=
  Pagepool b (base_addr pool) (page_count pool) (level_count pool).

Definition SIZEOF_PAGEPOOL : Z := 24.
Definition PHYSICALPTR_NULL : Z := 0.

(** ** Level arithmetic *)

(** Pages, levels and bits of the largest pool that [n] pages have room for. *)
Definition calculate_pagepool_sizes (n : Z) : res (Z * Z * Z) :=
  loop (S (Z.to_nat n)) (λ '(current, result, levels, bits),
    if 1 <? current then
      Ok (inl (current / 2, u32 (result * 2), u32 (levels + 1), u32 (bits + current)))
    else Ok (inr (result, levels, bits))) (n, 1, 1, 1).

Definition bit_indices_range_for_level (level : Z) : res (Z * Z) :=
  loop (S (Z.to_nat level)) (λ '(currentlevel, blockinlevel, bitoffset),
    if currentlevel <? level then
      Ok (inl (currentlevel + 1, s32 (blockinlevel * 2), s32 (bitoffset + blockinlevel)))
    else Ok (inr (bitoffset, s32 (bitoffset + blockinlevel - 1)))) (0, 1, 0).

Definition bit_index_for_pagepool_block (level block : Z) : res Z :=
  '(start, end_) ← bit_indices_range_for_level level;
  _ ← assert_ (block <? u32 (end_ - start + 1));
  Ok (s32 (start + block)).

Definition block_size_to_pagepool_level (pool : pagepool) (size : Z) : res Z :=
  loop (S (Z.to_nat (page_count pool))) (λ '(currentlevel, sizeperblock),
    if size <? sizeperblock then Ok (inl (u32 (currentlevel + 1), sizeperblock / 2))
    else Ok (inr currentlevel)) (0, page_count pool).

(** The least power of two that is at least [n], or [None] when it does not
    fit in a [size_t]. *)
Definition round_block_size (n : Z) : res (option Z) :=
  loop 33 (λ block_size,
    if block_size <? n then
      if SIZE_MAX / 2 <? block_size then Ok (inr None)
      else Ok (inl (u32 (block_size * 2)))
    else Ok (inr (Some block_size))) 1.

(** ** Allocation *)

(** Look for an available block at [found_level], then at lower levels. *)
Definition find_block_step (pool : pagepool) (found_level : Z) : res (Z + option (Z * Z)) :=
  '(bit_start, bit_end) ← bit_indices_range_for_level found_level;
  found_at ← bitmap_find_set_bits (bm pool) bit_start 1;
  if (0 <=? found_at) && (found_at <=? bit_end)
  then Ok (inr (Some (found_level, u32 (found_at - bit_start))))
  else if found_level =? 0 then Ok (inr None)
  else Ok (inl (found_level - 1)).

Definition find_block (pool : pagepool) (wanted_level : Z) : res (option (Z * Z)) :=
  loop (S (Z.to_nat wanted_level)) (find_block_step pool) wanted_level.

(** Split the block down to [wanted_level]; the result is the new bitmap and
    the index of the block at [wanted_level]. *)
Definition split_step (wanted_level : Z)
    : Z * Z * bitmap → res (Z * Z * bitmap + Z * bitmap) := λ '(currentlevel, index, b),
  if currentlevel <? wanted_level then
    bit_index ← bit_index_for_pagepool_block currentlevel index;
    b ← bitmap_clear_bit b bit_index;
    bit_index ← bit_index_for_pagepool_block (currentlevel + 1) (u32 (index * 2 + 1));
    b ← bitmap_set_bit b bit_index;
    Ok (inl (currentlevel + 1, u32 (index * 2), b))
  else Ok (inr (index, b)).

Definition split_block (wanted_level found_level found_block_index : Z) (b : bitmap)
    : res (Z * bitmap) :=
  loop (S (Z.to_nat wanted_level)) (split_step wanted_level) (found_level, found_block_index, b).

(** The result is the address of the block (or the null address), the value
    left in [*page_count_inout], and the pool. *)
Definition alloc_from_pool (pool : pagepool) (page_count_inout : Z) : res (Z * Z * pagepool) :=
  _ ← assert_ (negb (page_count_inout =? 0));
  block_size ← round_block_size page_count_inout;
  match block_size with
  | None => Ok (PHYSICALPTR_NULL, page_count_inout, pool)
  | Some block_size =>
      if page_count pool <? block_size then Ok (PHYSICALPTR_NULL, page_count_inout, pool)
      else
        wanted_level ← block_size_to_pagepool_level pool block_size;
        found ← find_block pool wanted_level;
        match found with
        | None => Ok (PHYSICALPTR_NULL, block_size, pool)
        | Some (found_level, found_block_index) =>
            '(index, b) ← split_block wanted_level found_level found_block_index (bm pool);
            bit_index ← bit_index_for_pagepool_block wanted_level index;
            b ← bitmap_clear_bit b bit_index;
            Ok (u32 (base_addr pool + u32 (block_size * index * ARCH_PAGESIZE)), block_size,
                with_bitmap pool b)
        end
  end.

(** ** Deallocation *)

(** Mark a block as available, and merge it with its neighbor as long as that
    is available too. *)
Definition free_step : Z * Z * bitmap → res (Z * Z * bitmap + bitmap) := λ '(level, index, b),
  bit_index ← bit_index_for_pagepool_block level index;
  already ← bitmap_is_bit_set b bit_index;
  if already : bool then Fault Panic (* double free *)
  else
    b ← bitmap_set_bit b bit_index;
    if level =? 0 then Ok (inr b)
    else
      let neighbor_bit_index := if index mod 2 =? 0 then bit_index + 1 else bit_index - 1 in
      neighbor ← bitmap_is_bit_set b neighbor_bit_index;
      if negb neighbor then Ok (inr b)
      else
        b ← bitmap_clear_bit b bit_index;
        b ← bitmap_clear_bit b neighbor_bit_index;
        Ok (inl (level - 1, index / 2, b)).

Definition free_from_pool (pool : pagepool) (ptr n : Z) : res pagepool :=
  if ptr =? 0 then Ok pool
  else if (ptr <? base_addr pool) ||
      (u32 (base_addr pool + u32 (ARCH_PAGESIZE * page_count pool)) <?
       u32 (ptr + u32 (ARCH_PAGESIZE * n))) then Fault Panic
  else
    block_size ← round_block_size n;
    match block_size with
    | None => Fault Panic
    | Some block_size =>
        if page_count pool <? block_size then Fault Panic
        else
          let unit := u32 (block_size * ARCH_PAGESIZE) in
          if unit =? 0 then Fault Div_by_zero
          else
            let index := u32 (ptr - base_addr pool) / unit in
            level ← block_size_to_pagepool_level pool block_size;
            _ ← assert_ (u32 (ptr - base_addr pool) mod unit =? 0);
            b ← loop (S (Z.to_nat level)) free_step (level, index, bm pool);
            Ok (with_bitmap pool b)
    end.

(** ** The pools *)

Record pmm := Pmm { s_firstpool : list pagepool; eflags_if : bool }.

Fixpoint alloc_from_pools (pools : list pagepool) (n : Z) : res (Z * Z * list pagepool) :=
  match pools with
  | [] => Ok (PHYSICALPTR_NULL, n, [])
  | pool :: rest =>
      '(result, newpage_count, pool') ← alloc_from_pool pool n;
      if negb (result =? PHYSICALPTR_NULL) then Ok (result, newpage_count, pool' :: rest)
      else
        '(result, n', rest') ← alloc_from_pools rest n;
        Ok (result, n', pool' :: rest')
  end.

Definition pmm_alloc (page_count_inout : Z) : M pmm (Z * Z) := λ s,
  _ ← assert_ (negb (page_count_inout =? 0));
  let '(prev_interrupts, irq) := arch_irq_disable (eflags_if s) in
  '(result, n, pools) ← alloc_from_pools (s_firstpool s) page_count_inout;
  Ok ((result, n), Pmm pools (arch_irq_restore prev_interrupts irq)).

(** [None]: no pool contains the address. *)
Fixpoint free_from_pools (pools : list pagepool) (ptr n : Z) : res (list pagepool) :=
  match pools with
  | [] => Fault Panic
  | pool :: rest =>
      let pool_data_start := base_addr pool in
      let pool_data_end := u32 (pool_data_start + u32 (u32 (ARCH_PAGESIZE * page_count pool) - 1)) in
      if (ptr <? pool_data_start) || (pool_data_end <? ptr) then
        rest' ← free_from_pools rest ptr n;
        Ok (pool :: rest')
      else
        let end_ := u32 (ptr + u32 (u32 (ARCH_PAGESIZE * n) - 1)) in
        if (end_ <=? pool_data_start) || (pool_data_end <? end_) then Fault Panic
        else
          pool' ← free_from_pool pool ptr n;
          Ok (pool' :: rest)
  end.

Definition pmm_free (ptr n : Z) : M pmm unit := λ s,
  if (ptr =? 0) || (n =? 0) then Ok (tt, s)
  else
    let '(prev_interrupts, irq) := arch_irq_disable (eflags_if s) in
    pools ← free_from_pools (s_firstpool s) ptr n;
    Ok (tt, Pmm pools (arch_irq_restore prev_interrupts irq)).

Definition pmm_get_total_mem_size (s : pmm) : res Z :=
  let n := foldl (λ n pool, u32 (n + page_count pool)) 0 (s_firstpool s) in
  _ ← assert_ (n <=? SIZE_MAX / ARCH_PAGESIZE);
  Ok (u32 (n * ARCH_PAGESIZE)).

(** The metadata of each pool comes from the heap; a failed allocation is
    tried again, with nothing changed. *)
Section register.
Context {H : Type} `{!HeapOps H}.

Definition register_step : Z * Z * list pagepool * H → res (Z * Z * list pagepool * H + list pagepool * H) :=
  λ '(current, remaining, pools, h),
  if negb (remaining =? 0) then
    '(poolpage_count, level_count, bit_count) ← calculate_pagepool_sizes remaining;
    word_count ← bitmap_needed_word_count bit_count;
    let metadatasize := u32 (u32 (word_count * 4) + SIZEOF_PAGEPOOL) in
    '(p, h) ← heap_alloc metadatasize HEAP_FLAG_ZEROMEMORY h;
    if p =? 0 then Ok (inl (current, remaining, pools, h))
    else
      _ ← assert_ (current mod ARCH_PAGESIZE =? 0);
      b ← bitmap_set_bit (Bitmap (replicate (Z.to_nat word_count) 0) word_count) 0;
      let pool := Pagepool b current poolpage_count 0 in
      Ok (inl (u32 (current + u32 (ARCH_PAGESIZE * poolpage_count)),
               u32 (remaining - poolpage_count), pool :: pools, h))
  else Ok (inr (pools, h)).

Definition pmm_register_mem (fuel : nat) (base n : Z) : M (pmm * H) unit := λ '(s, h),
  _ ← assert_ (negb (base =? 0));
  '(pools, h) ← loop fuel register_step (base, n, s_firstpool s, h);
  Ok (tt, (Pmm pools (eflags_if s), h)).
End register.

(** ** Level arithmetic, proved *)

Lemma pow2_pos k : 0 ≤ k → 0 < 2 ^ k.
Proof. intros. by apply Z.pow_pos_nonneg. Qed.
#[export] Hint Resolve pow2_pos : kernel.

Lemma pow2_le a b : 0 ≤ a ≤ b → 2 ^ a ≤ 2 ^ b.
Proof. intros. apply Z.pow_le_mono_r; lia. Qed.

Lemma pow2_S k : 0 ≤ k → 2 ^ (k + 1) = 2 * 2 ^ k.
Proof. intros. rewrite Z.pow_add_r; lia. Qed.

Lemma bit_indices_ok level :
  0 ≤ level ≤ 29 →
  bit_indices_range_for_level level = Ok (2 ^ level - 1, 2 ^ (level + 1) - 2).
Proof.
  intros Hl. unfold bit_indices_range_for_level.
  destruct (loop_rule (λ '(currentlevel, blockinlevel, bitoffset),
      if currentlevel <? level then
        Ok (inl (currentlevel + 1, s32 (blockinlevel * 2), s32 (bitoffset + blockinlevel)))
      else Ok (inr (bitoffset, s32 (bitoffset + blockinlevel - 1))))
    (λ '(c, bl, off), 0 ≤ c ≤ level ∧ bl = 2 ^ c ∧ off = 2 ^ c - 1)
    (λ '(c, _, _), Z.to_nat (level - c))
    (λ r, r = (2 ^ level - 1, 2 ^ (level + 1) - 2))
    ) with (fuel := S (Z.to_nat level)) (x := (0, 1, 0)) as (r & -> & ->); [|lia|lia|done].
  intros [[c bl] off] (Hc & -> & ->).
  pose proof (pow2_pos c ltac:(lia)). pose proof (pow2_le c 29 ltac:(lia)).
  destruct (Z.ltb_spec c level); eexists; (split; [done|]).
  - pose proof (pow2_le c 28 ltac:(lia)).
    cbn beta iota. rewrite pow2_S by lia. rewrite !s32_small by lia. split_and!; lia.
  - replace c with level in * by lia. rewrite pow2_S, s32_small by lia. f_equal. lia.
Qed.

Lemma bit_index_ok level block :
  0 ≤ level ≤ 29 → 0 ≤ block < 2 ^ level →
  bit_index_for_pagepool_block level block = Ok (2 ^ level - 1 + block).
Proof.
  intros Hl Hb. unfold bit_index_for_pagepool_block. rewrite bit_indices_ok by done. cbn.
  pose proof (pow2_le level 29 ltac:(lia)). rewrite pow2_S by lia.
  rewrite u32_small by lia. unfold assert_.
  destruct (Z.ltb_spec block (2 * 2 ^ level - 2 - (2 ^ level - 1) + 1)); [|lia]. cbn.
  rewrite s32_small by lia. f_equal.
Qed.

Lemma block_size_to_level_ok pool L k :
  page_count pool = 2 ^ L → 0 ≤ k ≤ L → L ≤ 29 →
  block_size_to_pagepool_level pool (2 ^ k) = Ok (L - k).
Proof.
  intros Hp Hk HL. unfold block_size_to_pagepool_level. rewrite Hp.
  pose proof (Z.pow_gt_lin_r 2 L ltac:(lia) ltac:(lia)) as Hlin.
  destruct (loop_rule (λ '(currentlevel, sizeperblock),
      if 2 ^ k <? sizeperblock then Ok (inl (u32 (currentlevel + 1), sizeperblock / 2))
      else Ok (inr currentlevel))
    (λ '(c, s), 0 ≤ c ≤ L - k ∧ s = 2 ^ (L - c)) (λ '(c, _), Z.to_nat (L - k - c))
    (λ r, r = L - k)) with (fuel := S (Z.to_nat (2 ^ L))) (x := (0, 2 ^ L)) as (r & -> & ->);
    [| |lia|done].
  2: { rewrite Z.sub_0_r. split; [lia|done]. }
  intros [c s] (Hc & ->).
  destruct (Z.ltb_spec (2 ^ k) (2 ^ (L - c))) as [Hlt|Hge]; eexists; (split; [done|]).
  - apply Z.pow_lt_mono_r_iff in Hlt; [|lia..]. rewrite u32_small by lia.
    split; [|lia]. split; [lia|]. replace (L - c) with (L - (c + 1) + 1) by lia.
    rewrite pow2_S by lia. rewrite Z.mul_comm, Z.div_mul by lia. done.
  - apply Z.pow_le_mono_r_iff in Hge; cbn; lia.
Qed.

Lemma round_block_size_ok n :
  0 < n ≤ 2 ^ 31 → round_block_size n = Ok (Some (2 ^ Z.log2_up n)).
Proof.
  intros Hn. unfold round_block_size.
  assert (Hup : 0 ≤ Z.log2_up n ≤ 31).
  { split; [apply Z.log2_up_nonneg|]. transitivity (Z.log2_up (2 ^ 31)); [apply Z.log2_up_le_mono; lia|].
    by rewrite Z.log2_up_pow2. }
  assert (Hle : ∀ j, 0 ≤ j → 2 ^ j < n ↔ j < Z.log2_up n)
    by (intros; apply Z.log2_up_lt_pow2; lia).
  destruct (loop_rule (λ block_size,
      if block_size <? n then
        if SIZE_MAX / 2 <? block_size then Ok (inr None)
        else Ok (inl (u32 (block_size * 2)))
      else Ok (inr (Some block_size)))
    (λ b, ∃ j, b = 2 ^ j ∧ 0 ≤ j ≤ Z.log2_up n) (λ b, Z.to_nat (Z.log2_up n - Z.log2 b))
    (λ r, r = Some (2 ^ Z.log2_up n))) with (fuel := 33%nat) (x := 1) as (r & -> & ->); [| | |done].
  - intros b (j & -> & Hj). destruct (Z.ltb_spec (2 ^ j) n) as [Hlt|Hge].
    + apply Hle in Hlt; [|lia]. pose proof (pow2_le (j + 1) 31 ltac:(lia)) as Hb.
      pose proof (pow2_pos j ltac:(lia)). rewrite pow2_S in Hb by lia.
      destruct (Z.ltb_spec (SIZE_MAX / 2) (2 ^ j)) as [Hm|_]; [|eexists; split; [done|]].
      * exfalso. destruct (Z.eq_dec j 31) as [->|]; [lia|].
        pose proof (pow2_le j 30 ltac:(lia)). change (SIZE_MAX / 2) with 2147483647 in Hm. lia.
      * rewrite u32_small by lia. rewrite Z.mul_comm, <- pow2_S by lia.
        rewrite !Z.log2_pow2 by lia. split; [exists (j + 1); split; [done|lia]|lia].
    + eexists. split; [done|]. do 2 f_equal. destruct (Z.lt_ge_cases j (Z.log2_up n)) as [Hj'|]; [|lia].
      apply Hle in Hj'; lia.
  - exists 0. split; [done|lia].
  - cbn. lia.
Qed.

Lemma round_block_size_none n : 2 ^ 31 < n < 2 ^ 32 → round_block_size n = Ok None.
Proof.
  intros Hn. unfold round_block_size.
  destruct (loop_rule (λ block_size,
      if block_size <? n then
        if SIZE_MAX / 2 <? block_size then Ok (inr None)
        else Ok (inl (u32 (block_size * 2)))
      else Ok (inr (Some block_size)))
    (λ b, ∃ j, b = 2 ^ j ∧ 0 ≤ j ≤ 31) (λ b, Z.to_nat (31 - Z.log2 b))
    (λ r, r = None)) with (fuel := 33%nat) (x := 1) as (r & -> & ->); [| | |done].
  - intros b (j & -> & Hj). pose proof (pow2_le j 31 ltac:(lia)).
    destruct (Z.ltb_spec (2 ^ j) n); [|lia].
    destruct (Z.ltb_spec (SIZE_MAX / 2) (2 ^ j)) as [Hm|Hm]; eexists; (split; [done|]); [done|].
    destruct (Z.eq_dec j 31) as [->|]; [done|].
    rewrite Z.mul_comm, <- pow2_S by lia.
    assert (j ≤ 30) by lia. pose proof (pow2_le (j + 1) 31 ltac:(lia)).
    pose proof (pow2_pos (j + 1) ltac:(lia)).
    rewrite u32_small by lia. rewrite !Z.log2_pow2 by lia. split; [exists (j + 1); split; [done|lia]|lia].
  - exists 0. split; [done|lia].
  - cbn. lia.
Qed.

(** ** What the bitmap of a pool represents *)

(** The bit of each block of the levels up to [L] is given by [f]; no other
    bit is set. *)
Record holds (b : bitmap) (L : nat) (f : path → bool) : Prop := {
  holds_wf : bitmap_wf b;
  holds_room : 2 ^ (Z.of_nat L + 1) - 1 ≤ word_count b * BITS_PER_WORD;
  holds_bit p : (length p ≤ L)%nat → bit b (index p) = f p;
  holds_rest j : 2 ^ (Z.of_nat L + 1) - 1 ≤ j → bit b j = false;
}.

Lemma holds_ext b L f g :
  holds b L f → (∀ p, (length p ≤ L)%nat → f p = g p) → holds b L g.
Proof. intros [] Hfg. split; try done. intros p Hp. rewrite <- Hfg; auto. Qed.

Lemma holds_index_bounds b L f p : holds b L f → (length p ≤ L)%nat →
  0 ≤ index p < word_count b * BITS_PER_WORD.
Proof. intros [] Hp. pose proof (index_lt_levels L p Hp). lia. Qed.

Lemma holds_update b b' L f p v :
  holds b L f → (length p ≤ L)%nat → bits_updated b b' (index p) 1 v →
  holds b' L (λ q, if decide (q = p) then v else f q).
Proof.
  intros Hh Hp (Hwf & Hwc & Hb). pose proof (holds_index_bounds b L f p Hh Hp).
  pose proof (index_lt_levels L p Hp). destruct Hh.
  split; [done|by rewrite Hwc| |].
  - intros q Hq. rewrite Hb. case_decide as E; subst.
    + destruct (Z.leb_spec (index p) (index p)), (Z.ltb_spec (index p) (index p + 1)),
        (Z.ltb_spec (index p) (word_count b * BITS_PER_WORD)); (done || lia).
    + destruct (Z.leb_spec (index p) (index q)), (Z.ltb_spec (index q) (index p + 1)); cbn; auto.
      assert (index q = index p) as E'%index_inj by lia. done.
  - intros j Hj. rewrite Hb. destruct (Z.leb_spec (index p) j), (Z.ltb_spec j (index p + 1)); cbn; auto. lia.
Qed.

Lemma holds_set b L f p : holds b L f → (length p ≤ L)%nat →
  ∃ b', bitmap_set_bit b (index p) = Ok b' ∧ word_count b' = word_count b ∧
    holds b' L (λ q, if decide (q = p) then true else f q).
Proof.
  intros Hh Hp. destruct (set_bit_ok b (index p)) as (b' & -> & Hu);
    [apply Hh|by eapply holds_index_bounds|].
  exists b'. split_and!; [done|apply Hu|by eapply holds_update].
Qed.

Lemma holds_clear b L f p : holds b L f → (length p ≤ L)%nat →
  ∃ b', bitmap_clear_bit b (index p) = Ok b' ∧ word_count b' = word_count b ∧
    holds b' L (λ q, if decide (q = p) then false else f q).
Proof.
  intros Hh Hp. destruct (clear_bit_ok b (index p)) as (b' & -> & Hu);
    [apply Hh|by eapply holds_index_bounds|].
  exists b'. split_and!; [done|apply Hu|by eapply holds_update].
Qed.

Lemma holds_is_set b L f p : holds b L f → (length p ≤ L)%nat →
  bitmap_is_bit_set b (index p) = Ok (f p).
Proof.
  intros Hh Hp. rewrite is_bit_set_ok; [|apply Hh|by eapply holds_index_bounds].
  f_equal. by apply Hh.
Qed.

Lemma bit_index_path p : (length p ≤ 29)%nat →
  bit_index_for_pagepool_block (Z.of_nat (length p)) (block_no p) = Ok (index p).
Proof. intros. apply bit_index_ok; [lia|apply block_no_bounds]. Qed.

Lemma holds_inj b b' L f :
  holds b L f → holds b' L f → word_count b = word_count b' → b = b'.
Proof.
  intros Hh Hh' Hwc. apply bitmap_ext; [apply Hh|apply Hh'|done|]. intros j.
  destruct (Z.lt_ge_cases j 0); [by rewrite !bit_neg|].
  destruct (Z.lt_ge_cases j (2 ^ (Z.of_nat L + 1) - 1)).
  - destruct (index_surj L j) as (p & Hp & <-); [lia|]. by rewrite (holds_bit _ _ _ Hh), (holds_bit _ _ _ Hh').
  - by rewrite (holds_rest _ _ _ Hh), (holds_rest _ _ _ Hh').
Qed.

(** ** Finding a block *)

(** The first available block of a level, if any, is where the first set bit
    from the first bit of the level on is. *)
Lemma level_first_run b L t l r :
  holds b L (avail t) → (l ≤ L)%nat → first_run b (2 ^ Z.of_nat l - 1) 1 r →
  (0 ≤ r ≤ 2 ^ (Z.of_nat l + 1) - 2 ∧ ∃ p, length p = l ∧ index p = r ∧ avail t p = true ∧
     ∀ q, length q = l → block_no q < block_no p → avail t q = false) ∨
  (¬ (0 ≤ r ≤ 2 ^ (Z.of_nat l + 1) - 2) ∧ ∀ q, length q = l → avail t q = false).
Proof.
  intros Hh Hl Hr.
  assert (Hno : ∀ q, length q = l → (∀ s, 2 ^ Z.of_nat l - 1 ≤ s ≤ index q → ¬ run b s 1) →
    avail t q = false).
  { intros q Hq Hs. destruct (avail t q) eqn:E; [|done]. exfalso.
    pose proof (index_bounds q) as Hi. rewrite Hq in Hi.
    apply (Hs (index q)); [lia|]. intros j Hj. replace j with (index q) by lia.
    rewrite (holds_bit _ _ _ Hh) by lia. done. }
  destruct Hr as [[-> Hr]|(Hge & Hrun & Hr)].
  { right. split; [lia|]. intros q Hq. apply Hno; [done|]. intros s Hs. apply Hr. lia. }
  destruct (decide (r ≤ 2 ^ (Z.of_nat l + 1) - 2)) as [Hle|Hgt].
  - left. pose proof (pow2_pos (Z.of_nat l) ltac:(lia)). rewrite pow2_S in Hle by lia.
    split; [rewrite pow2_S; lia|].
    exists (path_of l (r - (2 ^ Z.of_nat l - 1))).
    assert (Hb : block_no (path_of l (r - (2 ^ Z.of_nat l - 1))) = r - (2 ^ Z.of_nat l - 1))
      by (apply block_no_path_of; lia).
    assert (Hi : index (path_of l (r - (2 ^ Z.of_nat l - 1))) = r)
      by (unfold index; rewrite length_path_of, Hb; lia).
    split_and!; [by rewrite length_path_of|done| |].
    + rewrite <- (holds_bit _ _ _ Hh), Hi by (rewrite length_path_of; lia). apply Hrun. lia.
    + intros q Hq Hlt. apply Hno; [done|]. intros s Hs. apply Hr. unfold index in Hs. rewrite Hq in Hs. lia.
  - right. split; [lia|]. intros q Hq. apply Hno; [done|]. intros s Hs. apply Hr.
    pose proof (index_bounds q) as Hi. rewrite Hq in Hi. lia.
Qed.

(** What [find_block] looks for: an available block as small as possible, the
    leftmost of them. *)
Definition best_block (t : btree) (wanted : nat) (p : path) : Prop :=
  (length p ≤ wanted)%nat ∧ avail t p = true ∧
  (∀ q, (length p < length q ≤ wanted)%nat → avail t q = false) ∧
  (∀ q, length q = length p → block_no q < block_no p → avail t q = false).

Lemma find_block_ok pool L t wanted :
  holds (bm pool) L (avail t) → (wanted ≤ L)%nat → (L ≤ 28)%nat →
  ∃ r, find_block pool (Z.of_nat wanted) = Ok r ∧
    match r with
    | None => ∀ p, (length p ≤ wanted)%nat → avail t p = false
    | Some (l, i) => ∃ p, l = Z.of_nat (length p) ∧ i = block_no p ∧ best_block t wanted p
    end.
Proof.
  intros Hh Hw HL. unfold find_block. apply (loop_rule _
    (λ l, ∃ n, l = Z.of_nat n ∧ (n ≤ wanted)%nat ∧
       ∀ q, (n < length q ≤ wanted)%nat → avail t q = false) Z.to_nat); [|naive_solver lia|lia].
  intros l (n & -> & Hn & Hlow). unfold find_block_step. rewrite bit_indices_ok by lia. cbn.
  pose proof (pow2_pos (Z.of_nat n) ltac:(lia)) as Hpos.
  pose proof (pow2_le (Z.of_nat n + 1) 29 ltac:(lia)) as Hmax.
  destruct (find_set_bits_ok (bm pool) (2 ^ Z.of_nat n - 1) 1) as (r & -> & Hr); [apply Hh|lia..|]. cbn.
  destruct (level_first_run (bm pool) L t n r Hh ltac:(lia) Hr) as [(Hin & p & Hp & Hi & Ha & Hl)|(Hout & Hnone)].
  - destruct (Z.leb_spec 0 r), (Z.leb_spec r (2 ^ (Z.of_nat n + 1) - 2)); try lia. cbn.
    eexists. split; [done|]. exists p. rewrite <- Hi. unfold index. rewrite Hp.
    pose proof (block_no_bounds p) as Hb. rewrite Hp in Hb. rewrite pow2_S in Hmax by lia.
    rewrite u32_small by lia.
    split_and!; [done|lia|]. unfold best_block. rewrite Hp. split_and!; (done || lia).
  - assert (((0 <=? r) && (r <=? 2 ^ (Z.of_nat n + 1) - 2)) = false) as ->
      by (destruct (Z.leb_spec 0 r), (Z.leb_spec r (2 ^ (Z.of_nat n + 1) - 2)); (done || lia)).
    assert (Hlow' : ∀ q, (n ≤ length q ≤ wanted)%nat → avail t q = false).
    { intros q Hq. destruct (decide (length q = n)); [auto|apply Hlow; lia]. }
    destruct (Z.eqb_spec (Z.of_nat n) 0); eexists; (split; [done|]); cbn.
    + intros q Hq. apply Hlow'. lia.
    + split; [|lia]. exists (n - 1)%nat. split_and!; [lia..|]. intros q Hq. apply Hlow'. lia.
Qed.

(** ** Splitting *)

(** The bits while the free block at [p] is being split down to [cur p j]:
    those of the tree with [cur p j] taken out, the bit of [cur p j] itself
    still to be cleared. *)
Definition cur (p : path) (j : nat) : path := p ++ replicate j false.

Definition splitting (b : bitmap) (L : nat) (t : btree) (p : path) (j : nat) : Prop :=
  ∃ f, holds b L f ∧ ∀ r, r ≠ cur p j → f r = avail (replace t p (taken j)) r.

Lemma length_cur p j : length (cur p j) = (length p + j)%nat.
Proof. unfold cur. by rewrite length_app, length_replicate. Qed.

Lemma cur_S p j : cur p (S j) = cur p j ++ [false].
Proof. unfold cur. by rewrite replicate_S_end, app_assoc. Qed.

Lemma splitting_0 b L t p :
  holds b L (avail t) → subtree t p = Some Free → splitting b L t p 0.
Proof.
  intros Hh Hs. exists (avail t). split; [done|]. unfold cur. cbn. rewrite app_nil_r. intros r Hr.
  rewrite (avail_replace_leaf t p Free) by (try done; by intros [|[] ?]). by rewrite decide_False.
Qed.

Lemma splitting_clear b L t p j :
  splitting b L t p j → subtree t p = Some Free → (length p + j ≤ L)%nat →
  ∃ b', bitmap_clear_bit b (index (cur p j)) = Ok b' ∧ word_count b' = word_count b ∧
    holds b' L (avail (replace t p (taken j))).
Proof.
  intros (f & Hf & Hfr) Hs Hj.
  destruct (holds_clear _ _ _ (cur p j) Hf) as (b2 & -> & Hwc & Hb2); [by rewrite length_cur|].
  exists b2. split_and!; [done..|]. eapply holds_ext; [done|]. intros r _. cbn.
  case_decide as E; [|auto]. subst r. unfold cur.
  rewrite <- (app_nil_r (p ++ _)). by rewrite (avail_app _ _ [] Used) by (by eapply subtree_taken_at).
Qed.

Lemma split_step_ok wanted b L t p j :
  splitting b L t p j → subtree t p = Some Free → (L ≤ 28)%nat →
  (length p + j < wanted ≤ L)%nat →
  ∃ b', split_step (Z.of_nat wanted) (Z.of_nat (length p + j), block_no (cur p j), b) =
      Ok (inl (Z.of_nat (length p + S j), block_no (cur p (S j)), b')) ∧
    word_count b' = word_count b ∧ splitting b' L t p (S j).
Proof.
  intros Hsp Hs HL Hj. unfold split_step.
  destruct (Z.ltb_spec (Z.of_nat (length p + j)) (Z.of_nat wanted)); [|lia].
  rewrite <- length_cur, bit_index_path by (rewrite length_cur; lia). cbn.
  destruct (splitting_clear b L t p j) as (b2 & -> & Hwc2 & Hb2); [done..|lia|]. cbn.
  pose proof (block_no_bounds (cur p j)) as Hb. rewrite length_cur in Hb.
  pose proof (pow2_le (Z.of_nat (length p + j)) 28 ltac:(lia)).
  rewrite !u32_small by lia.
  replace (Z.of_nat (length (cur p j)) + 1) with (Z.of_nat (length (cur p j ++ [true])))
    by (rewrite length_app; cbn; lia).
  rewrite (Z.mul_comm _ 2), <- (block_no_snoc (cur p j) true).
  rewrite bit_index_path by (rewrite length_app, length_cur; cbn; lia). cbn.
  destruct (holds_set _ _ _ (cur p j ++ [true]) Hb2) as (b3 & -> & Hwc3 & Hb3);
    [rewrite length_app, length_cur; cbn; lia|]. cbn.
  exists b3. rewrite length_app, length_cur, cur_S, block_no_snoc, Z.add_0_r. cbn.
  split_and!; [do 4 f_equal; lia|congruence|]. eexists. split; [exact Hb3|].
  intros r _. cbv beta. rewrite <- (replace_taken_at _ _ _ _ Hs).
  by rewrite avail_replace_split by (by eapply subtree_taken_at).
Qed.

Lemma split_block_ok b L t p wanted :
  holds b L (avail t) → (length p ≤ wanted ≤ L)%nat → (L ≤ 28)%nat → avail t p = true →
  let q := cur p (wanted - length p) in
  ∃ b1, split_block (Z.of_nat wanted) (Z.of_nat (length p)) (block_no p) b = Ok (block_no q, b1) ∧
    ∃ b2, bitmap_clear_bit b1 (index q) = Ok b2 ∧ word_count b2 = word_count b ∧
      holds b2 L (avail (replace t p (taken (wanted - length p)))).
Proof.
  intros Hh Hw HL Ha q. pose proof (avail_free _ _ Ha) as Hs. unfold split_block.
  destruct (loop_rule (split_step (Z.of_nat wanted))
    (λ '(l, i, b'), ∃ j, l = Z.of_nat (length p + j) ∧ (length p + j ≤ wanted)%nat ∧
       i = block_no (cur p j) ∧ word_count b' = word_count b ∧ splitting b' L t p j)
    (λ '(l, _, _), Z.to_nat (Z.of_nat wanted - l))
    (λ '(i, b'), i = block_no q ∧ word_count b' = word_count b ∧
       splitting b' L t p (wanted - length p)))
    with (fuel := S (Z.to_nat (Z.of_nat wanted))) (x := (Z.of_nat (length p), block_no p, b))
    as ([i b1] & -> & -> & Hwc & Hsp); [|..].
  - intros [[l i] b'] (j & -> & Hj & -> & Hwc & Hsp). destruct (decide (length p + j < wanted)%nat).
    + destruct (split_step_ok wanted b' L t p j) as (b3 & -> & Hwc3 & Hsp3); [done..|lia|].
      eexists. split; [done|]. cbn beta iota. split; [|lia]. exists (S j).
      split_and!; [done|lia|done|congruence|done].
    + unfold split_step. destruct (Z.ltb_spec (Z.of_nat (length p + j)) (Z.of_nat wanted)); [lia|].
      eexists. split; [done|]. cbn. unfold q. by replace (wanted - length p)%nat with j by lia.
  - exists 0%nat. rewrite Nat.add_0_r. split_and!; [done|lia| |done|by apply splitting_0].
    unfold cur. cbn. by rewrite app_nil_r.
  - lia.
  - eexists. split; [done|].
    destruct (splitting_clear b1 L t p (wanted - length p)) as (b2 & Hb & Hwc2 & Hb2); [done..|lia|].
    exists b2. split_and!; [exact Hb|congruence|done].
Qed.

(** ** Pools *)

(** A pool of [2 ^ L] pages whose bitmap represents the buddy tree [t]. *)
Record pool_wf (pool : pagepool) (L : nat) (t : btree) : Prop := {
  pool_pages : page_count pool = 2 ^ Z.of_nat L;
  pool_base : 0 < base_addr pool;
  pool_end : base_addr pool + ARCH_PAGESIZE * 2 ^ Z.of_nat L < 2 ^ 32;
  pool_fits : fits L t;
  pool_merged : merged t;
  pool_holds : holds (bm pool) L (avail t);
  pool_aligned : base_addr pool mod ARCH_PAGESIZE = 0;
}.

Lemma pool_levels pool L t : pool_wf pool L t → (L ≤ 19)%nat ∧ 0 < 2 ^ Z.of_nat L ≤ 2 ^ 19.
Proof.
  intros [_ Hb He _ _ _]. unfold ARCH_PAGESIZE in He.
  assert (Z.of_nat L < 20). { apply (Z.pow_lt_mono_r_iff 2); [lia..|]. change (2 ^ 20) with 1048576. lia. }
  split; [lia|]. split; [apply pow2_pos; lia|apply pow2_le; lia].
Qed.

(** The address of the block at [q]. *)
Definition block_addr (pool : pagepool) (L : nat) (q : path) : Z :=
  base_addr pool + ARCH_PAGESIZE * (2 ^ Z.of_nat (L - length q) * block_no q).

Lemma block_pages L q : (length q ≤ L)%nat →
  0 ≤ 2 ^ Z.of_nat (L - length q) * block_no q ∧
  2 ^ Z.of_nat (L - length q) * (block_no q + 1) ≤ 2 ^ Z.of_nat L.
Proof.
  intros Hq. pose proof (block_no_bounds q). pose proof (pow2_pos (Z.of_nat (L - length q)) ltac:(lia)).
  assert (2 ^ Z.of_nat L = 2 ^ Z.of_nat (L - length q) * 2 ^ Z.of_nat (length q)) as ->.
  { rewrite <- Z.pow_add_r by lia. f_equal. lia. }
  nia.
Qed.

Lemma log2_up_ge n : 0 < n → n ≤ 2 ^ Z.log2_up n.
Proof. intros. destruct (Z.eq_dec n 1) as [->|]; [done|]. apply Z.log2_up_spec. lia. Qed.

(** A request of [n] pages is for a block of [2 ^ order n]. *)
Definition order (n : Z) : nat := Z.to_nat (Z.log2_up n).

Lemma order_Z n : Z.of_nat (order n) = Z.log2_up n.
Proof. unfold order. pose proof (Z.log2_up_nonneg n). lia. Qed.

Lemma pool_wf_replace pool L t b p d :
  pool_wf pool L t → avail t p = true → (length p + d ≤ L)%nat →
  holds b L (avail (replace t p (taken d))) →
  pool_wf (with_bitmap pool b) L (replace t p (taken d)).
Proof.
  intros [] Ha%avail_free Hd Hb. split; try done.
  - eapply fits_replace; [done..|]. apply fits_taken. lia.
  - eapply merged_replace; [done..|apply merged_taken|apply taken_not_free].
Qed.

Lemma order_pow2 k : order (2 ^ Z.of_nat k) = k.
Proof. unfold order. rewrite Z.log2_up_pow2; lia. Qed.

Lemma order_pow2_range k : (k < 32)%nat → 0 < 2 ^ Z.of_nat k < 2 ^ 32.
Proof. intros. split; [apply pow2_pos; lia|apply Z.pow_lt_mono_r; lia]. Qed.

(** What an allocation of [n] pages does to a pool that stands for [t]: the
    result, and the tree the pool stands for then. *)
Inductive pool_alloc (pool : pagepool) (L : nat) (t : btree) (n : Z) : Z * Z * pagepool → btree → Prop :=
  | pool_too_small n' : (L < order n)%nat → pool_alloc pool L t n (PHYSICALPTR_NULL, n', pool) t
  | pool_full n' : (order n ≤ L)%nat → (∀ p, (length p + order n ≤ L)%nat → avail t p = false) →
      pool_alloc pool L t n (PHYSICALPTR_NULL, n', pool) t
  | pool_alloc_block p d b : best_block t (L - order n) p → (length p + d + order n = L)%nat →
      word_count b = word_count (bm pool) →
      pool_wf (with_bitmap pool b) L (replace t p (taken d)) →
      pool_alloc pool L t n
        (block_addr pool L (cur p d), 2 ^ Z.of_nat (order n), with_bitmap pool b)
        (replace t p (taken d)).

Lemma alloc_from_pool_ok pool L t n :
  pool_wf pool L t → 0 < n < 2 ^ 32 →
  ∃ r t', alloc_from_pool pool n = Ok r ∧ pool_alloc pool L t n r t'.
Proof.
  intros Hwf Hn. destruct (pool_levels _ _ _ Hwf) as [HL Hpages].
  pose proof Hwf as [Hpc Hbase Hend _ _ Hh]. unfold ARCH_PAGESIZE in Hend.
  unfold alloc_from_pool. destruct (Z.eqb_spec n 0); [lia|]. cbn.
  destruct (Z.le_gt_cases n (2 ^ 31)) as [Hn31|Hn31].
  2: { rewrite round_block_size_none by lia. cbn. do 2 eexists. split; [done|]. apply pool_too_small.
       apply (Z.log2_up_lt_pow2 n 31) in Hn31; [|lia..]. pose proof (order_Z n). lia. }
  rewrite round_block_size_ok by lia. cbn. rewrite Hpc, <- order_Z.
  destruct (Z.ltb_spec (2 ^ Z.of_nat L) (2 ^ Z.of_nat (order n))) as [Hlt|Hge].
  { do 2 eexists. split; [done|]. apply pool_too_small.
    apply Z.pow_lt_mono_r_iff in Hlt; lia. }
  apply Z.pow_le_mono_r_iff in Hge; [|lia..].
  rewrite (block_size_to_level_ok pool (Z.of_nat L)) by (done || lia). cbn.
  replace (Z.of_nat L - Z.of_nat (order n)) with (Z.of_nat (L - order n)) by lia.
  destruct (find_block_ok pool L t (L - order n)) as ([[l i]|] & -> & Hf); [done|lia..| |]; cbn.
  2: { do 2 eexists. split; [done|]. apply pool_full; [lia|]. intros. apply Hf. lia. }
  destruct Hf as (p & -> & -> & Hbest). pose proof Hbest as (Hlen & Ha & _).
  set (d := (L - order n - length p)%nat).
  assert (Hq : length (cur p d) = (L - order n)%nat) by (rewrite length_cur; lia).
  destruct (split_block_ok (bm pool) L t p (L - order n)) as (b1 & -> & b2 & Hclr & Hwc & Hb2);
    [done|lia|lia|done|]. cbn. fold d in Hclr, Hb2 |- *.
  rewrite <- Hq. rewrite bit_index_path by (rewrite Hq; lia). cbn. rewrite Hclr. cbn.
  destruct (block_pages L (cur p d)) as [Hb0 Hb1]; [lia|]. rewrite Hq in Hb0, Hb1.
  replace (L - (L - order n))%nat with (order n) in * by lia.
  pose proof (pow2_pos (Z.of_nat (order n)) ltac:(lia)).
  unfold ARCH_PAGESIZE. rewrite (u32_small (_ * _ * _)) by lia. rewrite u32_small by lia.
  do 2 eexists. split; [done|].
  replace (base_addr pool + _) with (block_addr pool L (cur p d)).
  2: { unfold block_addr. rewrite Hq. replace (L - (L - order n))%nat with (order n) by lia.
       unfold ARCH_PAGESIZE. lia. }
  apply pool_alloc_block; [done|lia|done|]. apply pool_wf_replace; try done. lia.
Qed.

(** ** Giving a block back *)

(** Clearing the bits of two leaves makes them part of a used block. *)
Lemma merged_bits t p (c : bool) l r q :
  subtree t p = Some (Split l r) → (if c then r else l) = Used → (if c then l else r) = Free →
  (if decide (q = p ++ [negb c]) then false
   else if decide (q = p ++ [c]) then false
   else if decide (q = p ++ [c]) then true else avail t q) = avail (replace t p Used) q.
Proof.
  intros Hs Hu Hf. rewrite (avail_replace_merge t p l r); [|done|].
  - destruct (decide (∃ b, q = p ++ [b])) as [[b ->]|Hn].
    + repeat case_decide; try done. destruct b, c; done.
    + repeat case_decide; try done; naive_solver.
  - intros [|b u]; [done|]. cbn. destruct b, c; subst; destruct u; naive_solver.
Qed.

Lemma free_step_ok b L t p t' :
  holds b L (avail t) → (length p ≤ L)%nat → (L ≤ 28)%nat → give_back t p = Some t' →
  ∃ y, free_step (Z.of_nat (length p), block_no p, b) = Ok y ∧
    match y with
    | inr b' => word_count b' = word_count b ∧ holds b' L (avail t')
    | inl (l, i, b') => ∃ p0 t0, l = Z.of_nat (length p0) ∧ i = block_no p0 ∧
        S (length p0) = length p ∧ word_count b' = word_count b ∧
        holds b' L (avail t0) ∧ give_back t0 p0 = Some t'
    end.
Proof.
  intros Hh Hp HL Hg. pose proof (give_back_used _ _ _ Hg) as Hs.
  unfold free_step. rewrite bit_index_path by lia. cbn.
  rewrite (holds_is_set _ _ _ _ Hh Hp). cbn.
  assert (avail t p = false) as ->.
  { rewrite <- (app_nil_r p). by rewrite (avail_app _ _ [] Used). }
  destruct (holds_set _ _ _ _ Hh Hp) as (b1 & -> & Hwc1 & Hb1). cbn.
  assert (Hfree : ∀ q, avail (replace t p Free) q = if decide (q = p) then true else avail t q).
  { intros q. rewrite (avail_replace_leaf t p Used) by (try done; by intros [|[] ?]). done. }
  destruct p as [|c p0 _] using rev_ind.
  { cbn. eexists. split; [done|]. cbn. split; [done|].
    cbn in Hg. destruct t; try done. injection Hg as <-.
    eapply holds_ext; [exact Hb1|]. intros q _. symmetry. exact (Hfree q). }
  rewrite subtree_app in Hs. destruct (subtree t p0) as [s|] eqn:Hp0; [|done]. cbn in Hs.
  destruct s as [| |l r]; [done..|].
  assert (Hsib : avail t (p0 ++ [negb c]) = match (if c then l else r) with Free => true | _ => false end).
  { rewrite (avail_app _ _ _ _ Hp0). cbn. by destruct c. }
  assert (Hlen : (length (p0 ++ [negb c]) ≤ L)%nat) by (rewrite length_app in *; done).
  rewrite length_app. cbn [length]. destruct (Z.eqb_spec (Z.of_nat (length p0 + 1)) 0); [lia|].
  rewrite <- index_neighbor, (holds_is_set _ _ _ _ Hb1 Hlen). cbn.
  rewrite decide_False by (intros E; apply app_inj_2 in E as [_ E]; [|done]; by destruct c).
  rewrite Hsib. destruct (decide ((if c then l else r) = Free)) as [Hf|Hnf].
  - rewrite Hf. cbn.
    destruct (holds_clear _ _ _ _ Hb1 Hp) as (b2 & -> & Hwc2 & Hb2). cbn.
    destruct (holds_clear _ _ _ _ Hb2 Hlen) as (b3 & -> & Hwc3 & Hb3). cbn.
    eexists. split; [done|]. exists p0, (replace t p0 Used). split_and!; [lia| |lia|congruence| |].
    + rewrite block_no_snoc, Z.mul_comm. destruct c; [by rewrite Z.div_add_l, Z.add_0_r by lia|].
      by rewrite Z.add_0_r, Z.div_mul by lia.
    + eapply holds_ext; [exact Hb3|]. intros q _. cbv beta.
      apply (merged_bits t p0 c l r q); [done|by injection Hs|done].
    + by rewrite <- (give_back_snoc_merge t p0 c l r) by (try done; by injection Hs).
  - assert (match (if c then l else r) with Free => true | _ => false end = false) as ->
      by (destruct (if c then l else r); done).
    cbn. eexists. split; [done|]. cbn. split; [done|].
    rewrite (give_back_snoc_stop t p0 c l r) in Hg by (try done; by injection Hs). injection Hg as <-.
    eapply holds_ext; [exact Hb1|]. intros q _. symmetry. exact (Hfree q).
Qed.

Lemma free_loop_ok b L t p t' :
  holds b L (avail t) → (length p ≤ L)%nat → (L ≤ 28)%nat → give_back t p = Some t' →
  ∃ b', loop (S (length p)) free_step (Z.of_nat (length p), block_no p, b) = Ok b' ∧
    word_count b' = word_count b ∧ holds b' L (avail t').
Proof.
  intros Hh Hp HL Hg. apply (loop_rule _
    (λ '(l, i, b'), ∃ p0 t0, l = Z.of_nat (length p0) ∧ i = block_no p0 ∧ (length p0 ≤ L)%nat ∧
       word_count b' = word_count b ∧ holds b' L (avail t0) ∧ give_back t0 p0 = Some t')
    (λ '(l, _, _), Z.to_nat l)); [| |lia].
  - intros [[l i] b'] (p0 & t0 & -> & -> & Hp0 & Hwc & Hh0 & Hg0).
    destruct (free_step_ok b' L t0 p0 t') as (y & -> & Hy); [done..|].
    eexists. split; [done|]. destruct y as [[[l i] b2]|b2].
    + destruct Hy as (p1 & t1 & -> & -> & Hlen & Hwc1 & Hh1 & Hg1). split; [|lia].
      exists p1, t1. split_and!; try done; [lia|congruence].
    + destruct Hy as [Hwc2 Hh2]. split; [congruence|done].
  - exists p, t. by split_and!.
Qed.

(** Past its checks, [free_from_pool] is the loop on the block. *)
Lemma free_from_pool_loop pool L t q n :
  pool_wf pool L t → 0 < n < 2 ^ 32 → (length q + order n = L)%nat →
  free_from_pool pool (block_addr pool L q) n =
    (b ← loop (S (length q)) free_step (Z.of_nat (length q), block_no q, bm pool);
     Ok (with_bitmap pool b)).
Proof.
  intros Hwf Hn Hq. destruct (pool_levels _ _ _ Hwf) as [HL Hpages].
  pose proof Hwf as [Hpc Hbase Hend Hfit Hm Hh]. unfold ARCH_PAGESIZE in Hend.
  destruct (block_pages L q) as [Hb0 Hb1]; [lia|]. pose proof (log2_up_ge n ltac:(lia)) as Hle.
  unfold free_from_pool, block_addr. rewrite <- order_Z in Hle.
  replace (L - length q)%nat with (order n) in * by lia.
  pose proof (pow2_pos (Z.of_nat (order n)) ltac:(lia)) as Hpos.
  set (x := 2 ^ Z.of_nat (order n)) in *. rewrite Hpc. unfold ARCH_PAGESIZE.
  rewrite (u32_small (4096 * 2 ^ _)), (u32_small (4096 * n)), !u32_small by lia.
  destruct (Z.eqb_spec (base_addr pool + 4096 * (x * block_no q)) 0); [lia|].
  destruct (Z.ltb_spec (base_addr pool + 4096 * (x * block_no q)) (base_addr pool)); [lia|].
  destruct (Z.ltb_spec (base_addr pool + 4096 * 2 ^ Z.of_nat L)
    (base_addr pool + 4096 * (x * block_no q) + 4096 * n)); [lia|]. cbn.
  rewrite round_block_size_ok, <- order_Z by lia. fold x. cbn.
  destruct (Z.ltb_spec (2 ^ Z.of_nat L) x); [lia|].
  rewrite (u32_small (x * 4096)) by lia. destruct (Z.eqb_spec (x * 4096) 0); [lia|].
  assert (block_size_to_pagepool_level pool x = Ok (Z.of_nat (length q))) as ->.
  { unfold x. rewrite (block_size_to_level_ok pool (Z.of_nat L)) by (done || lia). f_equal. lia. }
  cbn.
  replace (base_addr pool + 4096 * (x * block_no q) - base_addr pool) with (block_no q * (x * 4096)) by lia.
  rewrite ?(u32_small (block_no q * _)), Z.mod_mul, Z.div_mul by lia. by rewrite Nat2Z.id.
Qed.

Lemma free_from_pool_ok pool L t q n t' :
  pool_wf pool L t → 0 < n < 2 ^ 32 → (length q + order n = L)%nat → give_back t q = Some t' →
  ∃ b', free_from_pool pool (block_addr pool L q) n = Ok (with_bitmap pool b') ∧
    word_count b' = word_count (bm pool) ∧ pool_wf (with_bitmap pool b') L t'.
Proof.
  intros Hwf Hn Hq Hg. destruct (pool_levels _ _ _ Hwf) as [HL _].
  rewrite (free_from_pool_loop pool L t) by done.
  pose proof Hwf as [Hpc Hbase Hend Hfit Hm Hh].
  destruct (free_loop_ok (bm pool) L t q t') as (b' & -> & Hwc & Hb'); [done|lia|lia|done|].
  exists b'. split_and!; [done..|]. split; try done.
  - by eapply give_back_fits.
  - by eapply give_back_merged.
Qed.

(** Freeing a block that is available itself is caught. *)
Lemma free_from_pool_available pool L t q n :
  pool_wf pool L t → 0 < n < 2 ^ 32 → (length q + order n = L)%nat → avail t q = true →
  free_from_pool pool (block_addr pool L q) n = Fault Panic.
Proof.
  intros Hwf Hn Hq Ha. destruct (pool_levels _ _ _ Hwf) as [HL _].
  rewrite (free_from_pool_loop pool L t) by done. rewrite loop_S. unfold free_step.
  rewrite bit_index_path by lia. cbn.
  rewrite (holds_is_set _ L (avail t)) by (try apply Hwf; lia). by rewrite Ha.
Qed.

(** Allocating and giving back restores the pool, bit for bit. *)
Lemma pool_alloc_free pool L t n a n' pool' t' :
  pool_wf pool L t → pool_alloc pool L t n (a, n', pool') t' →
  a ≠ PHYSICALPTR_NULL →
  free_from_pool pool' a n' = Ok pool.
Proof.
  intros Hwf Hal Ha. destruct (pool_levels _ _ _ Hwf) as [HL _].
  inversion Hal as [| |p d b Hbest Hd Hwc Hwf']; subst a n' pool' t'; [done..|].
  destruct Hbest as (Hlen & Hav & _). pose proof (avail_free _ _ Hav) as Hs.
  destruct (free_from_pool_ok (with_bitmap pool b) L (replace t p (taken d)) (cur p d)
    (2 ^ Z.of_nat (order n)) t) as (b' & Hf & Hwc2 & Hwf2); [done| | | |].
  - apply order_pow2_range. lia.
  - rewrite length_cur, order_pow2. lia.
  - apply give_back_replace; [apply Hwf|done|apply give_back_taken].
  - change (block_addr (with_bitmap pool b) L (cur p d)) with (block_addr pool L (cur p d)) in Hf.
    rewrite Hf. f_equal. destruct pool as [b0 ba pc lc]. unfold with_bitmap in *. cbn in *. f_equal.
    apply (holds_inj _ _ L (avail t)); [apply Hwf2|apply Hwf|congruence].
Qed.

(** ** The list of pools *)

Definition pool_limit (pool : pagepool) : Z := base_addr pool + ARCH_PAGESIZE * page_count pool.

Definition disjoint_pools (p q : pagepool) : Prop :=
  pool_limit p ≤ base_addr q ∨ pool_limit q ≤ base_addr p.

(** Each pool stands for a tree, and no two pools overlap. *)
Inductive pools_wf : list pagepool → list (nat * btree) → Prop :=
  | pools_nil : pools_wf [] []
  | pools_cons pool L t pools ts :
      pool_wf pool L t → Forall (disjoint_pools pool) pools → pools_wf pools ts →
      pools_wf (pool :: pools) ((L, t) :: ts).

(** Is the physical address [x] in a page of the pools? In a used page? *)
Definition in_pool (pool : pagepool) (x : Z) : Prop := base_addr pool ≤ x < pool_limit pool.

Definition managed (pools : list pagepool) (x : Z) : Prop := Exists (λ pool, in_pool pool x) pools.

Definition page_of (pool : pagepool) (x : Z) : Z := (x - base_addr pool) / ARCH_PAGESIZE.

Fixpoint used (pools : list pagepool) (ts : list (nat * btree)) (x : Z) {struct ts} : Prop :=
  match pools, ts with
  | pool :: pools, (L, t) :: ts =>
      in_pool pool x ∧ page_used L t (page_of pool x) = true ∨ used pools ts x
  | _, _ => False
  end.

(** No aligned block of [order n] is unused. *)
Definition no_block (n : Z) (L : nat) (t : btree) : Prop :=
  ∀ q, (length q + order n = L)%nat → ∃ i, in_block L q i ∧ page_used L t i = true.

Inductive pools_alloc (n : Z) :
    list pagepool → list (nat * btree) → Z * Z * list pagepool → list (nat * btree) → Prop :=
  | alloc_none : pools_alloc n [] [] (PHYSICALPTR_NULL, n, []) []
  | alloc_here pool L t pools ts a n' pool' t' :
      pool_wf pool L t → a ≠ PHYSICALPTR_NULL → pool_alloc pool L t n (a, n', pool') t' →
      pools_alloc n (pool :: pools) ((L, t) :: ts) (a, n', pool' :: pools) ((L, t') :: ts)
  | alloc_next pool L t pools ts a n' pools' ts' :
      pool_wf pool L t → no_block n L t → Forall (disjoint_pools pool) pools →
      pools_alloc n pools ts (a, n', pools') ts' →
      pools_alloc n (pool :: pools) ((L, t) :: ts) (a, n', pool :: pools') ((L, t) :: ts').

Lemma avail_no_block L t n :
  fits L t → merged t → (∀ p, (length p + order n ≤ L)%nat → avail t p = false) → no_block n L t.
Proof.
  intros Hf Hm Ha q Hq.
  destruct (decide (Exists (λ i, page_used L t i = true)
    (seqZ (block_no q * 2 ^ Z.of_nat (L - length q)) (2 ^ Z.of_nat (L - length q))))) as [He|Hn].
  - apply Exists_exists in He as (i & Hi%elem_of_seqZ & Hu). exists i. split; [|done].
    unfold in_block. lia.
  - exfalso. destruct (unused_block_avail L t q) as (p & [s ->] & Hp); [done..|lia| |].
    + intros i Hi. destruct (page_used L t i) eqn:E; [|done]. destruct Hn. apply Exists_exists.
      exists i. split; [|done]. apply elem_of_seqZ. unfold in_block in Hi. lia.
    + rewrite Ha in Hp; [done|]. rewrite length_app in Hq. lia.
Qed.

Lemma pool_alloc_null pool L t n n' pool' t' :
  pool_wf pool L t → pool_alloc pool L t n (PHYSICALPTR_NULL, n', pool') t' →
  pool' = pool ∧ t' = t ∧ no_block n L t.
Proof.
  intros Hwf Hal. inversion Hal as [? HL| |p d b Hbest Hd ? ? Ha]; subst.
  - split_and!; try done. intros q Hq. lia.
  - split_and!; try done. apply avail_no_block; [apply Hwf|apply Hwf|done].
  - exfalso. destruct (block_pages (length p + d + order n) (cur p d)); [rewrite length_cur; lia|].
    unfold block_addr, PHYSICALPTR_NULL, ARCH_PAGESIZE in Ha. pose proof (pool_base _ _ _ Hwf). lia.
Qed.

Lemma alloc_from_pools_ok pools ts n :
  pools_wf pools ts → 0 < n < 2 ^ 32 →
  ∃ r ts', alloc_from_pools pools n = Ok r ∧ pools_alloc n pools ts r ts'.
Proof.
  intros Hwf Hn. induction Hwf as [|pool L t pools ts Hp Hd _ IH]; cbn.
  { do 2 eexists. split; [done|constructor]. }
  destruct (alloc_from_pool_ok pool L t n) as ([[a n'] pool'] & t' & -> & Hal); [done..|]. cbn.
  destruct (Z.eqb_spec a PHYSICALPTR_NULL) as [->|Ha]; cbn.
  - destruct (pool_alloc_null _ _ _ _ _ _ _ Hp Hal) as (-> & -> & Hno).
    destruct IH as ([[a2 n2] pools'] & ts' & -> & Hpa). do 2 eexists. split; [done|]. by constructor.
  - do 2 eexists. split; [done|]. by constructor.
Qed.

(** ** The addresses of blocks *)

Definition block_size_at (L : nat) (q : path) : Z := ARCH_PAGESIZE * 2 ^ Z.of_nat (L - length q).

Lemma in_block_addr pool L q x :
  in_block L q (page_of pool x) ↔
  block_addr pool L q ≤ x < block_addr pool L q + block_size_at L q.
Proof.
  unfold in_block, page_of, block_addr, block_size_at, ARCH_PAGESIZE.
  set (y := 2 ^ Z.of_nat (L - length q)).
  assert (∀ m, m ≤ (x - base_addr pool) / 4096 ↔ 4096 * m ≤ x - base_addr pool) as H1 by (intros; dlia).
  assert (∀ m, (x - base_addr pool) / 4096 < m ↔ x - base_addr pool < 4096 * m) as H2 by (intros; dlia).
  rewrite H1, H2. lia.
Qed.

Lemma page_of_bounds pool L t x :
  pool_wf pool L t → in_pool pool x → 0 ≤ page_of pool x < 2 ^ Z.of_nat L.
Proof.
  intros Hwf [H1 H2]. unfold pool_limit in H2. rewrite (pool_pages _ _ _ Hwf) in H2.
  unfold page_of, ARCH_PAGESIZE in *. dlia.
Qed.

Lemma block_addr_bounds pool L t q :
  pool_wf pool L t → (length q ≤ L)%nat →
  base_addr pool ≤ block_addr pool L q ∧
  block_addr pool L q + block_size_at L q ≤ pool_limit pool ∧
  block_addr pool L q mod ARCH_PAGESIZE = 0.
Proof.
  intros Hwf Hq. destruct (block_pages L q Hq). unfold block_addr, block_size_at, pool_limit.
  rewrite (pool_pages _ _ _ Hwf). pose proof (pool_aligned _ _ _ Hwf).
  unfold ARCH_PAGESIZE in *. split_and!; [lia|lia|].
  rewrite Z.mul_comm, Z.mod_add by done. done.
Qed.

(** An allocation out of a pool, in terms of addresses. *)
Lemma pool_alloc_pages pool L t n a n' pool' t' :
  pool_wf pool L t → 0 < n → pool_alloc pool L t n (a, n', pool') t' → a ≠ PHYSICALPTR_NULL →
  n' = 2 ^ Z.of_nat (order n) ∧ (∃ b, pool' = with_bitmap pool b) ∧ pool_wf pool' L t' ∧
  a mod ARCH_PAGESIZE = 0 ∧ base_addr pool ≤ a ∧ a + ARCH_PAGESIZE * n' ≤ pool_limit pool ∧
  ∀ x, in_pool pool x →
    (a ≤ x < a + ARCH_PAGESIZE * n' →
       page_used L t (page_of pool x) = false ∧ page_used L t' (page_of pool x) = true) ∧
    (¬ a ≤ x < a + ARCH_PAGESIZE * n' → page_used L t' (page_of pool x) = page_used L t (page_of pool x)).
Proof.
  intros Hwf Hn Hal Ha. inversion Hal as [| |p d b Hbest Hd Hwc Hwf']; subst a n' pool' t'; [done..|].
  destruct (block_addr_bounds pool L t (cur p d) Hwf) as (Hb1 & Hb2 & Hal'); [rewrite length_cur; lia|].
  assert (Hsz : block_size_at L (cur p d) = ARCH_PAGESIZE * 2 ^ Z.of_nat (order n))
    by (unfold block_size_at; rewrite length_cur; do 3 f_equal; lia).
  rewrite Hsz in Hb2. split_and!; try done; [by eexists|]. intros x Hx.
  destruct Hbest as (_ & Hav%avail_free & _).
  destruct (taken_pages L t p d (page_of pool x)) as [Hin Hout];
    [apply Hwf|done|lia|by eapply page_of_bounds|].
  fold (cur p d) in Hin, Hout. rewrite in_block_addr, Hsz in Hin, Hout. done.
Qed.

(** ** Allocation out of the list of pools *)

Lemma disjoint_with_bitmap pool b p :
  disjoint_pools (with_bitmap pool b) p ↔ disjoint_pools pool p.
Proof. done. Qed.

Lemma disjoint_pools_sym p q : disjoint_pools p q → disjoint_pools q p.
Proof. unfold disjoint_pools. lia. Qed.

Lemma used_managed pools ts x : used pools ts x → managed pools x.
Proof.
  unfold managed. revert pools. induction ts as [|[L t] ts IH]; intros [|pool pools]; cbn; try done.
  intros [[H _]|H]; [by left|right; auto].
Qed.

Lemma disjoint_not_managed pool pools x :
  Forall (disjoint_pools pool) pools → in_pool pool x → ¬ managed pools x.
Proof.
  intros Hd Hx Hm. unfold managed in Hm. apply Exists_exists in Hm as (p & Hp & Hpx).
  rewrite Forall_forall in Hd. specialize (Hd p Hp). unfold disjoint_pools, in_pool in *. lia.
Qed.

(** What the allocation of [n] pages at [a], rounded up to [n'], does. *)
Record alloc_effect (n a n' : Z) pools ts pools' ts' : Prop := {
  effect_pages : n' = 2 ^ Z.log2_up n;
  effect_aligned : a mod ARCH_PAGESIZE = 0;
  effect_managed x : a ≤ x < a + ARCH_PAGESIZE * n' → managed pools x;
  effect_fresh x : a ≤ x < a + ARCH_PAGESIZE * n' → ¬ used pools ts x;
  effect_used x : used pools' ts' x ↔ used pools ts x ∨ a ≤ x < a + ARCH_PAGESIZE * n';
}.

Lemma pools_alloc_effect n pools ts a n' pools' ts' :
  pools_wf pools ts → 0 < n → pools_alloc n pools ts (a, n', pools') ts' →
  a ≠ PHYSICALPTR_NULL → alloc_effect n a n' pools ts pools' ts'.
Proof.
  intros Hwf Hn Hal Ha. remember (a, n', pools') as r eqn:E. revert Hwf pools' E.
  induction Hal as [|pool L t pools ts a0 n0 pool' t' Hp Ha0 Hpa|pool L t pools ts a0 n0 pools0 ts0 Hp Hno Hd _ IH];
    intros Hwf pools'' E; injection E as E1 E2 E3; subst pools''; [by subst a|subst a0 n0..].
  - destruct (pool_alloc_pages _ _ _ _ _ _ _ _ Hp Hn Hpa Ha) as (-> & [b ->] & Hwf' & Hal & Hb1 & Hb2 & Hx).
    set (len := ARCH_PAGESIZE * 2 ^ Z.of_nat (order n)) in *.
    assert (Hin : ∀ x, a ≤ x < a + len → in_pool pool x) by (unfold in_pool; lia).
    inversion Hwf as [|? ? ? ? ? _ Hdis]; subst. split; [by rewrite order_Z|done|..].
    + intros x Hr. left. auto.
    + intros x Hr. cbn. intros [[_ Hu]|Hu%used_managed].
      * destruct (Hx x (Hin x Hr)) as [Hx1 _]. destruct (Hx1 Hr); congruence.
      * by eapply disjoint_not_managed; [exact Hdis|apply Hin|].
    + intros x. cbn. change (in_pool (with_bitmap pool b) x) with (in_pool pool x).
      change (page_of (with_bitmap pool b) x) with (page_of pool x).
      destruct (decide (a ≤ x < a + len)) as [Hr|Hr].
      * destruct (Hx x (Hin x Hr)) as [Hx1 _]. destruct (Hx1 Hr). naive_solver.
      * split; [|intros [[[Hi Hu]|Hu]|?]; [|by right|done]].
        -- intros [[Hi Hu]|Hu]; [|by left; right]. left. left. split; [done|].
           by rewrite <- (proj2 (Hx x Hi) Hr).
        -- left. split; [done|]. by rewrite (proj2 (Hx x Hi) Hr).
  - inversion Hwf as [|? ? ? ? ? _ _ Hwf2]; subst.
    destruct (IH Hwf2 _ eq_refl) as [H1 H2 H3 H4 H5]. split; [done|done|..].
    + intros x Hr. right. by apply H3.
    + intros x Hr. cbn. intros [[Hi _]|Hu]; [|by eapply H4].
      eapply disjoint_not_managed; [exact Hd|exact Hi|by apply H3].
    + intros x. cbn. rewrite H5. tauto.
Qed.

Lemma pools_alloc_wf n pools ts r ts' :
  pools_wf pools ts → 0 < n → pools_alloc n pools ts r ts' →
  pools_wf r.2 ts' ∧ ∀ p, Forall (disjoint_pools p) pools → Forall (disjoint_pools p) r.2.
Proof.
  intros Hwf Hn Hal. revert Hwf.
  induction Hal as [|pool L t pools ts a n' pool' t' Hp Ha Hpa|pool L t pools ts a n' pools' ts' Hp Hno Hd _ IH];
    intros Hwf; cbn; [split; [constructor|done]| |].
  - destruct (pool_alloc_pages _ _ _ _ _ _ _ _ Hp Hn Hpa Ha) as (_ & [b ->] & Hwf' & _).
    inversion Hwf; subst. split; [by constructor|]. intros p Hf. inversion Hf; subst. by constructor.
  - inversion Hwf; subst. destruct IH as [Hw Hdis]; [done|]. cbn in *. split.
    + constructor; auto.
    + intros p Hf. inversion Hf; subst. constructor; auto.
Qed.

Lemma pools_alloc_null n pools ts n' pools' ts' :
  pools_alloc n pools ts (PHYSICALPTR_NULL, n', pools') ts' →
  pools' = pools ∧ ts' = ts ∧ Forall (λ '(L, t), no_block n L t) ts.
Proof.
  intros Hal. remember (PHYSICALPTR_NULL, n', pools') as r eqn:E. revert pools' E.
  induction Hal as [| |pool L t pools ts a0 n0 pools0 ts0 Hp Hno Hd _ IH]; intros pools'' E; injection E; intros; subst; try done.
  destruct (IH pools0 eq_refl) as (-> & -> & ?). split_and!; [done..|]. by constructor.
Qed.

(** ** Freeing into the list of pools *)

(** The used block at [q] of one of the pools, of the size [n] is rounded up
    to, is given back. *)
Inductive pools_free (n : Z) (a : Z) :
    list pagepool → list (nat * btree) → list pagepool → list (nat * btree) → Prop :=
  | free_here pool L t pools ts q t' pool' :
      pool_wf pool L t → a = block_addr pool L q → (length q + order n = L)%nat →
      give_back t q = Some t' → free_from_pool pool a n = Ok pool' →
      pools_free n a (pool :: pools) ((L, t) :: ts) (pool' :: pools) ((L, t') :: ts)
  | free_next pool L t pools ts pools' ts' :
      pool_wf pool L t → Forall (disjoint_pools pool) pools →
      pools_free n a pools ts pools' ts' →
      pools_free n a (pool :: pools) ((L, t) :: ts) (pool :: pools') ((L, t) :: ts').

Lemma pools_free_in n a pools ts pools' ts' :
  pools_free n a pools ts pools' ts' → Exists (λ p, in_pool p a) pools.
Proof.
  induction 1 as [pool L t pools ts q t' pool' Hp -> Hq Hg Hf|]; [left|by right].
  destruct (block_addr_bounds pool L t q Hp) as (H1 & H2 & _); [lia|].
  unfold in_pool, block_size_at, ARCH_PAGESIZE in *.
  pose proof (pow2_pos (Z.of_nat (L - length q)) ltac:(lia)). lia.
Qed.

Lemma pools_free_in_range n a pools ts pools' ts' x :
  pools_free n a pools ts pools' ts' → a ≤ x < a + ARCH_PAGESIZE * 2 ^ Z.log2_up n → managed pools x.
Proof.
  intros Hpf Hx. induction Hpf as [pool L t pools ts q t' pool' Hp -> Hq Hg Hf|]; [left|by right].
  destruct (block_addr_bounds pool L t q Hp) as (H1 & H2 & _); [lia|].
  unfold in_pool, block_size_at in *. rewrite <- order_Z in Hx.
  replace (L - length q)%nat with (order n) in * by lia. lia.
Qed.

Lemma free_from_pools_here pool L t q n pools :
  pool_wf pool L t → 0 < n → (length q + order n = L)%nat →
  free_from_pools (pool :: pools) (block_addr pool L q) n =
    (pool' ← free_from_pool pool (block_addr pool L q) n; Ok (pool' :: pools)).
Proof.
  intros Hp Hn Hq. cbn.
  destruct (block_addr_bounds pool L t q Hp) as (H1 & H2 & _); [lia|].
  destruct (pool_levels _ _ _ Hp) as [HL Hpg].
  pose proof (pool_pages _ _ _ Hp) as Hpc. pose proof (pool_end _ _ _ Hp). pose proof (pool_base _ _ _ Hp).
  unfold pool_limit, block_size_at in *. rewrite Hpc in *. pose proof (log2_up_ge n Hn) as Hle.
  rewrite <- order_Z in Hle. replace (L - length q)%nat with (order n) in * by lia.
  unfold ARCH_PAGESIZE in *. rewrite (u32_small (4096 * 2 ^ _)), (u32_small (4096 * n)) by lia.
  rewrite (u32_small (4096 * _ - 1)), (u32_small (4096 * n - 1)), !u32_small by lia.
  destruct (Z.ltb_spec (block_addr pool L q) (base_addr pool)); [lia|].
  destruct (Z.ltb_spec (base_addr pool + (4096 * 2 ^ Z.of_nat L - 1)) (block_addr pool L q)); [lia|]. cbn.
  destruct (Z.leb_spec (block_addr pool L q + (4096 * n - 1)) (base_addr pool)); [lia|].
  by destruct (Z.ltb_spec (base_addr pool + (4096 * 2 ^ Z.of_nat L - 1))
    (block_addr pool L q + (4096 * n - 1))); [lia|].
Qed.

Lemma free_from_pools_next pool L t a n pools :
  pool_wf pool L t → Forall (disjoint_pools pool) pools → managed pools a →
  free_from_pools (pool :: pools) a n =
    (pools' ← free_from_pools pools a n; Ok (pool :: pools')).
Proof.
  intros Hp Hd Hin. cbn. apply Exists_exists in Hin as (p & Hpin & Ha).
  rewrite Forall_forall in Hd. specialize (Hd p Hpin).
  destruct (pool_levels _ _ _ Hp) as [HL Hpg]. unfold disjoint_pools, in_pool, pool_limit in *.
  pose proof (pool_pages _ _ _ Hp) as Hpc. pose proof (pool_end _ _ _ Hp). pose proof (pool_base _ _ _ Hp).
  rewrite Hpc in *. unfold ARCH_PAGESIZE in *.
  rewrite (u32_small (4096 * 2 ^ _)) by lia. rewrite (u32_small (4096 * _ - 1)), u32_small by lia.
  destruct (Z.ltb_spec a (base_addr pool)), (Z.ltb_spec (base_addr pool + (4096 * 2 ^ Z.of_nat L - 1)) a);
    cbn; done || lia.
Qed.

Lemma free_from_pools_ok n a pools ts pools' ts' :
  0 < n → pools_free n a pools ts pools' ts' → free_from_pools pools a n = Ok pools'.
Proof.
  intros Hn. induction 1 as [pool L t pools ts q t' pool' Hp -> Hq Hg Hf|pool L t pools ts pools' ts' Hp Hd Hpf IH].
  - rewrite (free_from_pools_here pool L t) by done. by rewrite Hf.
  - rewrite (free_from_pools_next pool L t), IH; try done. by eapply pools_free_in.
Qed.

(** What was allocated can be freed, which restores the pools. *)
Lemma pools_alloc_free n pools ts a n' pools' ts' :
  pools_wf pools ts → 0 < n → pools_alloc n pools ts (a, n', pools') ts' → a ≠ PHYSICALPTR_NULL →
  pools_free n' a pools' ts' pools ts.
Proof.
  intros Hwf Hn Hal Ha. remember (a, n', pools') as r eqn:E. revert Hwf pools' E.
  induction Hal as [|pool L t pools ts a0 n0 pool' t' Hp Ha0 Hpa|pool L t pools ts a0 n0 pools0 ts0 Hp Hno Hd Hpa IH];
    intros Hwf pools'' E; injection E as E1 E2 E3; subst pools''; [by subst a|subst a0 n0..].
  - pose proof (pool_alloc_free _ _ _ _ _ _ _ _ Hp Hpa Ha) as Hf.
    destruct (pool_alloc_pages _ _ _ _ _ _ _ _ Hp Hn Hpa Ha) as (_ & _ & Hwf' & _).
    inversion Hpa as [| |p d b Hbest Hd Hwc _]; subst a n' pool' t'; [done..|].
    eapply (free_here _ _ _ _ _ _ _ (cur p d)); [done|done| | |done].
    + rewrite order_pow2, length_cur. lia.
    + destruct Hbest as (_ & Hav%avail_free & _).
      apply give_back_replace; [apply Hp|done|apply give_back_taken].
  - inversion Hwf; subst. constructor; [done| |by apply IH].
    by apply (pools_alloc_wf n pools ts (a, n', pools0) ts0).
Qed.

Lemma pools_free_effect n a pools ts pools' ts' :
  pools_wf pools ts → 0 < n < 2 ^ 32 → pools_free n a pools ts pools' ts' →
  pools_wf pools' ts' ∧ (∀ p, Forall (disjoint_pools p) pools → Forall (disjoint_pools p) pools') ∧
  ∀ x, used pools' ts' x ↔ used pools ts x ∧ ¬ a ≤ x < a + ARCH_PAGESIZE * 2 ^ Z.log2_up n.
Proof.
  intros Hwf Hn Hpf. revert Hwf. induction Hpf as
    [pool L t pools ts q t' pool' Hp -> Hq Hg Hf|pool L t pools ts pools' ts' Hp Hd Hpf IH]; intros Hwf.
  - destruct (free_from_pool_ok pool L t q n t') as (b' & Hf' & _ & Hwf'); [done..|].
    rewrite Hf in Hf'. injection Hf' as ->. inversion Hwf as [|? ? ? ? ? _ Hdis Hws]; subst.
    destruct (block_addr_bounds pool (length q + order n) t q Hp) as (H1 & H2 & _); [lia|].
    split; [by constructor|]. split.
    { intros p Hdp. inversion Hdp; subst. by constructor. }
    intros x. assert (Hsz : block_size_at (length q + order n) q = ARCH_PAGESIZE * 2 ^ Z.log2_up n).
    { unfold block_size_at. rewrite <- order_Z. do 3 f_equal. lia. }
    cbn. change (in_pool (with_bitmap pool b') x) with (in_pool pool x).
    change (page_of (with_bitmap pool b') x) with (page_of pool x). rewrite <- Hsz in *.
    assert (Hno : block_addr pool (length q + order n) q ≤ x <
      block_addr pool (length q + order n) q + block_size_at (length q + order n) q → ¬ used pools ts x).
    { intros Hr Hu%used_managed. eapply disjoint_not_managed; [exact Hdis| |exact Hu]. unfold in_pool. lia. }
    destruct (decide (in_pool pool x)) as [Hx|Hx]; [|unfold in_pool in Hx; split; [|tauto]].
    2: { intros [[? _]|Hu]; [tauto|]. split; [tauto|]. unfold in_pool in *. lia. }
    destruct (give_back_pages _ t q t' (page_of pool x) (pool_fits _ _ _ Hp) Hg) as [Hin Hout];
      [by eapply page_of_bounds|].
    rewrite in_block_addr in Hin, Hout.
    destruct (decide (block_addr pool (length q + order n) q ≤ x <
      block_addr pool (length q + order n) q + block_size_at (length q + order n) q)) as [Hr|Hr].
    + destruct (Hin Hr) as [_ ->]. naive_solver.
    + rewrite (Hout Hr). tauto.
  - inversion Hwf; subst. destruct IH as (Hws & Hdd & Hu); [done|]. split_and!.
    + constructor; auto.
    + intros p Hdp. inversion Hdp; subst. constructor; auto.
    + intros x. cbn. rewrite Hu. split; [|tauto]. intros [[Hi ?]|?]; [|tauto].
      split; [tauto|]. intros Hr. apply pools_free_in_range with (x := x) in Hpf; [|done..].
      by eapply disjoint_not_managed.
Qed.

(** ** Registration *)

(** A bitmap of zeros with its first bit set stands for one free block. *)
Lemma zeros_bit wc j : bit (Bitmap (replicate (Z.to_nat wc) 0) wc) j = false.
Proof.
  unfold bit. cbn. destruct (0 <=? j); [cbn|done].
  destruct (replicate _ _ !! _) as [w|] eqn:E; [|done].
  apply lookup_replicate in E as [-> _]. apply Z.bits_0.
Qed.

Lemma fresh_holds wc L :
  2 ^ (Z.of_nat L + 1) - 1 ≤ wc * BITS_PER_WORD < 2 ^ 31 →
  ∃ b, bitmap_set_bit (Bitmap (replicate (Z.to_nat wc) 0) wc) 0 = Ok b ∧ holds b L (avail Free).
Proof.
  intros Hwc. unfold BITS_PER_WORD in Hwc. pose proof (pow2_pos (Z.of_nat L) ltac:(lia)).
  rewrite pow2_S in Hwc by lia.
  assert (Hwf : bitmap_wf (Bitmap (replicate (Z.to_nat wc) 0) wc)).
  { split; cbn; [rewrite length_replicate; lia| |unfold BITS_PER_WORD; lia].
    apply Forall_replicate. done. }
  destruct (set_bit_ok _ 0 Hwf) as (b & Hb & Hwf' & Hwc' & Hbits); [cbn; unfold BITS_PER_WORD; lia|].
  exists b. split; [done|]. cbn in Hwc'. split; [done|..].
  - rewrite Hwc', pow2_S by lia. unfold BITS_PER_WORD. lia.
  - intros p Hp. rewrite Hbits, zeros_bit. cbn. unfold BITS_PER_WORD.
    pose proof (index_bounds p). pose proof (pow2_pos (Z.of_nat (length p)) ltac:(lia)).
    destruct p as [|c p]; [change (index []) with 0; cbn; destruct (Z.ltb_spec 0 (wc * 32)); [done|lia]|].
    pose proof (pow2_le 1 (Z.of_nat (length (c :: p))) ltac:(cbn; lia)).
    destruct (Z.ltb_spec (index (c :: p)) (0 + 1)); [lia|]. by rewrite andb_false_r.
  - intros j Hj. rewrite pow2_S in Hj by lia. rewrite Hbits, zeros_bit.
    destruct (Z.ltb_spec j (0 + 1)); [lia|]. by rewrite andb_false_r.
Qed.

Lemma pool_sizes_ok n :
  0 < n < 2 ^ 30 → ∃ bits, calculate_pagepool_sizes n = Ok (2 ^ Z.log2 n, Z.log2 n + 1, bits) ∧
    2 ^ (Z.log2 n + 1) - 1 ≤ bits ≤ 2 * n + 1.
Proof.
  intros Hn. unfold calculate_pagepool_sizes. pose proof (Z.log2_nonneg n) as H0.
  assert (Hlog : Z.log2 n < 30) by (apply Z.log2_lt_pow2; lia).
  set (K := Z.log2 n) in *.
  destruct (loop_rule (λ '(current, result, levels, bits),
    if 1 <? current then
      Ok (inl (current / 2, u32 (result * 2), u32 (levels + 1), u32 (bits + current)))
    else Ok (inr (result, levels, bits)))
    (λ '(c, r, l, b), ∃ j, 0 ≤ j ≤ K ∧ 2 ^ (K - j) ≤ c < 2 * 2 ^ (K - j) ∧ r = 2 ^ j ∧ l = j + 1 ∧
       2 * 2 ^ K - 2 * 2 ^ (K - j) + 1 ≤ b ≤ 2 * n + 1 - 2 * (c - 1))
    (λ '(c, _, _, _), Z.to_nat c)
    (λ '(r, l, b), r = 2 ^ K ∧ l = K + 1 ∧ 2 * 2 ^ K - 1 ≤ b ≤ 2 * n + 1))
    with (fuel := S (Z.to_nat n)) (x := (n, 1, 1, 1)) as ([[r l] b] & -> & -> & -> & Hb).
  - intros [[[c r] l] b] (j & Hj & Hc & -> & -> & Hb).
    pose proof (pow2_le j 29 ltac:(lia)). pose proof (pow2_pos j ltac:(lia)).
    pose proof (pow2_le (K - j) K ltac:(lia)).
    destruct (Z.ltb_spec 1 c); eexists; (split; [done|]); cbn beta iota.
    + rewrite !u32_small by lia. split; [|dlia]. exists (j + 1).
      assert (j < K). { destruct (Z.eq_dec j K) as [->|]; [|lia]. rewrite Z.sub_diag in Hc. lia. }
      replace (K - j) with (K - (j + 1) + 1) in Hc, Hb by lia. rewrite pow2_S in Hc, Hb by lia.
      rewrite pow2_S by lia. split_and!; dlia.
    + pose proof (pow2_pos (K - j) ltac:(lia)).
      assert (K - j = 0) as HKj.
      { destruct (Z.eq_dec (K - j) 0); [done|]. pose proof (pow2_le 1 (K - j) ltac:(lia)). lia. }
      rewrite HKj in *. replace K with j in * by lia. split_and!; lia.
  - pose proof (Z.log2_spec n ltac:(lia)) as Hs. fold K in Hs. rewrite <- Z.add_1_r, pow2_S in Hs by lia.
    exists 0. rewrite Z.sub_0_r. split_and!; try done; lia.
  - lia.
  - exists b. rewrite pow2_S by lia. split; [done|lia].
Qed.

#[local] Arguments bitmap_needed_word_count : simpl never.

(** The pools registered so far, of the pages from [base] on, [remaining] of
    which are left: the invariant of the loop of [pmm_register_mem]. *)
Section registered.
Context (base n : Z) (pools0 : list pagepool) (ts0 : list (nat * btree)).

Record registered (current remaining : Z) (pools : list pagepool) : Prop := {
  reg_current : current = base + ARCH_PAGESIZE * (n - remaining);
  reg_remaining : 0 ≤ remaining ≤ n;
  reg_apart : Forall (λ p, pool_limit p ≤ current ∨ base + ARCH_PAGESIZE * n ≤ base_addr p) pools;
  reg_wf : ∃ ts, pools_wf pools ts ∧ ∀ x, used pools ts x ↔ used pools0 ts0 x;
  reg_managed x : managed pools x ↔ managed pools0 x ∨ base ≤ x < current;
  reg_total : foldr (λ p m, page_count p + m) 0 pools =
    foldr (λ p m, page_count p + m) 0 pools0 + (n - remaining);
}.

(** Registering one more pool of [2 ^ L] pages. *)
Lemma registered_cons current remaining pools L b :
  0 < base → base mod ARCH_PAGESIZE = 0 → base + ARCH_PAGESIZE * n < 2 ^ 32 →
  registered current remaining pools → 2 ^ Z.of_nat L ≤ remaining →
  holds b L (avail Free) →
  registered (current + ARCH_PAGESIZE * 2 ^ Z.of_nat L) (remaining - 2 ^ Z.of_nat L)
    (Pagepool b current (2 ^ Z.of_nat L) 0 :: pools).
Proof using.
  intros Hbase Hal Hfit [Hc Hr Ha (ts & Hwf & Hu) Hm Ht] HL Hb. pose proof (pow2_pos (Z.of_nat L) ltac:(lia)).
  unfold ARCH_PAGESIZE in *. set (pool := Pagepool b current (2 ^ Z.of_nat L) 0).
  assert (Hpool : pool_wf pool L Free).
  { split; cbn; try done; unfold ARCH_PAGESIZE; [lia|lia|]. rewrite Hc.
    rewrite Z.mul_comm, Z.mod_add by done. done. }
  split; unfold ARCH_PAGESIZE; [lia|lia|..].
  - constructor; [left; cbn; unfold pool_limit; cbn; unfold ARCH_PAGESIZE; lia|].
    eapply Forall_impl; [exact Ha|]. cbn. intros p ?. lia.
  - exists ((L, Free) :: ts). split.
    + constructor; [done| |done]. eapply Forall_impl; [exact Ha|]. cbn.
      unfold disjoint_pools, pool_limit, ARCH_PAGESIZE. cbn. intros p ?. lia.
    + intros x. cbn. rewrite Hu. split; [|tauto]. intros [[_ ?]|?]; done.
  - intros x. unfold managed in *. rewrite Exists_cons, Hm.
    change (in_pool pool x) with (current ≤ x < current + 4096 * 2 ^ Z.of_nat L).
    split; [intros [?|[?|?]]; [right; lia|by left|right; lia]|intros [?|?]; [by right; left|]].
    destruct (decide (x < current)); [right; right; lia|left; lia].
  - cbn. rewrite Ht. lia.
Qed.

Context {H : Type} `{!HeapOps H} `{!HeapSucceeds H}.

Lemma register_step_ok current remaining pools h :
  0 < base → base mod ARCH_PAGESIZE = 0 → base + ARCH_PAGESIZE * n < 2 ^ 32 →
  registered current remaining pools →
  ∃ y, register_step (current, remaining, pools, h) = Ok y ∧
    match y with
    | inl (current', remaining', pools', _) =>
        registered current' remaining' pools' ∧ 2 * remaining' < remaining
    | inr (pools', _) => remaining = 0 ∧ pools' = pools
    end.
Proof using All.
  intros Hbase Hal Hfit Hreg. pose proof Hreg as [Hc Hr _ _ _ _]. unfold ARCH_PAGESIZE in Hc, Hfit.
  unfold register_step. destruct (Z.eqb_spec remaining 0) as [->|Hne]; cbn.
  { eexists. split; [done|]. done. }
  destruct (pool_sizes_ok remaining) as (bits & -> & Hbits); [lia|]. cbn.
  unfold bitmap_needed_word_count. rewrite size_to_blocks_eq by done. cbn.
  set (wc := (bits + BITS_PER_WORD - 1) / BITS_PER_WORD).
  destruct (heap_alloc_succeeds (u32 (u32 (wc * 4) + SIZEOF_PAGEPOOL)) HEAP_FLAG_ZEROMEMORY h)
    as (p & h' & -> & Hp).
  cbn. destruct (Z.eqb_spec p 0); [done|].
  destruct (Z.eqb_spec (current mod ARCH_PAGESIZE) 0) as [_|Hn].
  2: { destruct Hn. unfold ARCH_PAGESIZE in *. rewrite Hc, Z.mul_comm, Z.mod_add by done. done. }
  cbn. pose proof (Z.log2_spec remaining ltac:(lia)) as Hlog. pose proof (Z.log2_nonneg remaining).
  rewrite <- Z.add_1_r, pow2_S in Hlog by lia.
  destruct (fresh_holds wc (Z.to_nat (Z.log2 remaining))) as (b & -> & Hb).
  { unfold wc, BITS_PER_WORD. rewrite Z2Nat.id by lia. dlia. }
  cbn. unfold ARCH_PAGESIZE. rewrite (u32_small (4096 * _)), !u32_small by lia. eexists. split; [done|].
  split; [|lia]. rewrite <- (Z2Nat.id (Z.log2 remaining)) by lia.
  apply registered_cons; try done. rewrite Z2Nat.id; lia.
Qed.
End registered.

(** Reaching the pool in the middle of the list. *)
Lemma pools_wf_middle pools1 pool pools2 ts1 L t ts2 :
  pools_wf (pools1 ++ pool :: pools2) (ts1 ++ (L, t) :: ts2) → length ts1 = length pools1 →
  pool_wf pool L t ∧ ∀ n a pools2' ts2',
    pools_free n a (pool :: pools2) ((L, t) :: ts2) pools2' ts2' →
    pools_free n a (pools1 ++ pool :: pools2) (ts1 ++ (L, t) :: ts2) (pools1 ++ pools2') (ts1 ++ ts2').
Proof.
  revert ts1. induction pools1 as [|p pools1 IH]; intros [|[L1 t1] ts1]; cbn; try done.
  { intros Hwf _. inversion Hwf; subst. done. }
  intros Hwf [= Hlen]. inversion Hwf as [|? ? ? ? ? Hp Hd Hws]; subst.
  destruct (IH ts1 Hws Hlen) as [Hpw Hf]. split; [done|]. intros. constructor; auto.
Qed.

Lemma block_in_pool pool L t q :
  pool_wf pool L t → (length q ≤ L)%nat → in_pool pool (block_addr pool L q).
Proof.
  intros Hp Hq. destruct (block_addr_bounds pool L t q Hp Hq) as (H1 & H2 & _).
  unfold in_pool, block_size_at, ARCH_PAGESIZE in *.
  pose proof (pow2_pos (Z.of_nat (L - length q)) ltac:(lia)). lia.
Qed.

Lemma free_from_pools_skip pools1 pool pools2 ts1 L t ts2 a n :
  pools_wf (pools1 ++ pool :: pools2) (ts1 ++ (L, t) :: ts2) → length ts1 = length pools1 →
  in_pool pool a →
  free_from_pools (pools1 ++ pool :: pools2) a n =
    (pools' ← free_from_pools (pool :: pools2) a n; Ok (pools1 ++ pools')).
Proof.
  revert ts1. induction pools1 as [|p pools1 IH]; intros [|[L1 t1] ts1] Hwf Hlen Ha; try done.
  { cbn [app]. by destruct (free_from_pools (pool :: pools2) a n). }
  cbn [app] in *. inversion Hwf as [|? ? ? ? ? Hp Hd Hws]; subst. injection Hlen as Hlen.
  rewrite (free_from_pools_next p L1 t1) by (try done; apply Exists_app; right; by left).
  rewrite (IH ts1) by done. by destruct (free_from_pools (pool :: pools2) a n).
Qed.

Lemma free_avail t q : subtree t q = Some Free → avail t q = true.
Proof. intros Hs. rewrite <- (app_nil_r q). by rewrite (avail_app _ _ [] Free). Qed.

(** ** Properties *)

(** A pool of four unused pages at 1 MiB, for the witnesses. *)
Definition sample_pool : pagepool := Pagepool (Bitmap [1] 1) 1048576 4 0.

Lemma sample_pool_wf : pools_wf [sample_pool] [(2%nat, Free)].
Proof.
  constructor; [|constructor|constructor]. split; try done.
  destruct (fresh_holds 1 2) as (b & Hb & Hh); [done|].
  vm_compute in Hb. injection Hb as <-. done.
Qed.

(** The same pool with the first two pages in use. *)
Definition half_used_pool : pagepool := Pagepool (Bitmap [4] 1) 1048576 4 0.

Lemma half_used_pool_wf : pools_wf [half_used_pool] [(2%nat, Split Used Free)].
Proof.
  constructor; [|constructor|constructor]. split; try done.
  { cbn. naive_solver. }
  destruct (fresh_holds 1 2) as (b & Hb & Hh); [done|]. vm_compute in Hb. injection Hb as <-.
  destruct (holds_clear _ _ _ [] Hh) as (b1 & Hb1 & _ & Hh1); [cbn; lia|].
  vm_compute in Hb1. injection Hb1 as <-.
  destruct (holds_set _ _ _ [true] Hh1) as (b2 & Hb2 & _ & Hh2); [cbn; lia|].
  vm_compute in Hb2. injection Hb2 as <-.
  eapply holds_ext; [exact Hh2|]. intros [|[] [|? ?]] _; done.
Qed.

Lemma pmm_alloc_ok (s : pmm) (ts : list (nat * btree)) (n : Z) :
  pools_wf (s_firstpool s) ts → 0 < n < 2 ^ 32 →
  ∃ a n' s' ts', pmm_alloc n s = Ok ((a, n'), s') ∧ pools_alloc n (s_firstpool s) ts (a, n', s_firstpool s') ts' ∧
    pools_wf (s_firstpool s') ts' ∧ eflags_if s' = eflags_if s ∧
    (a ≠ PHYSICALPTR_NULL → n ≤ n' ∧ alloc_effect n a n' (s_firstpool s) ts (s_firstpool s') ts') ∧
    (a = PHYSICALPTR_NULL → s' = s ∧ ts' = ts ∧ Forall (λ '(L, t), no_block n L t) ts).
Proof.
  intros Hwf Hn. unfold pmm_alloc.
  destruct (Z.eqb_spec n 0); [lia|]. cbn.
  destruct (alloc_from_pools_ok (s_firstpool s) ts n) as ([[a n'] pools'] & ts' & -> & Hal); [done..|].
  exists a, n'. eexists _, ts'. split; [done|]. cbn.
  destruct (pools_alloc_wf _ _ _ _ _ Hwf (proj1 Hn) Hal) as [Hwf' _].
  split_and!; [done|done|apply irq_section_restores| |].
  - intros Ha. pose proof (pools_alloc_effect _ _ _ _ _ _ _ Hwf (proj1 Hn) Hal Ha) as He.
    split; [|done]. rewrite (effect_pages _ _ _ _ _ _ _ He). apply log2_up_ge. lia.
  - intros ->. destruct (pools_alloc_null _ _ _ _ _ _ Hal) as (-> & -> & Hno).
    split_and!; [|done..]. destruct s as [pools irq]. cbn. f_equal. apply irq_section_restores.
Qed.

(** C1: [pmm_alloc] of [n] pages terminates.  When it succeeds it returns the
    page-aligned address of [2 ^ log2_up n] contiguous pages of the pools, none
    of which was in use, marks exactly these as used, and keeps the pools well
    formed; it returns the null address only if no pool has an aligned block of
    that size all of whose pages are unused, and then changes nothing.  The
    interrupt flag is what it was. *)
Theorem pmm_alloc_correct (s : pmm) (ts : list (nat * btree)) (n : Z) :
  pools_wf (s_firstpool s) ts → 0 < n < 2 ^ 32 →
  ∃ a n' s' ts', pmm_alloc n s = Ok ((a, n'), s') ∧
    pools_wf (s_firstpool s') ts' ∧ eflags_if s' = eflags_if s ∧
    (a ≠ PHYSICALPTR_NULL →
       n ≤ n' ∧ alloc_effect n a n' (s_firstpool s) ts (s_firstpool s') ts') ∧
    (a = PHYSICALPTR_NULL →
       s' = s ∧ ts' = ts ∧ Forall (λ '(L, t), no_block n L t) ts).
Proof.
  intros Hwf Hn. destruct (pmm_alloc_ok s ts n Hwf Hn) as (a & n' & s' & ts' & E & _ & Hrest).
  by exists a, n', s', ts'.
Qed.

Lemma pmm_alloc_correct_witness :
  pools_wf (s_firstpool (Pmm [sample_pool] true)) [(2%nat, Free)] ∧ 0 < 2 < 2 ^ 32 ∧
  ∃ a n' s' ts', pmm_alloc 2 (Pmm [sample_pool] true) = Ok ((a, n'), s') ∧
    pools_wf (s_firstpool s') ts' ∧ eflags_if s' = eflags_if (Pmm [sample_pool] true) ∧
    (a ≠ PHYSICALPTR_NULL →
       2 ≤ n' ∧ alloc_effect 2 a n' (s_firstpool (Pmm [sample_pool] true)) [(2%nat, Free)] (s_firstpool s') ts') ∧
    (a = PHYSICALPTR_NULL →
       s' = Pmm [sample_pool] true ∧ ts' = [(2%nat, Free)] ∧ Forall (λ '(L, t), no_block 2 L t) [(2%nat, Free)]).
Proof.
  split; [exact sample_pool_wf|]. split; [done|].
  apply pmm_alloc_correct; [exact sample_pool_wf|done].
Defined.

(** C2: freeing what [pmm_alloc] returned, with the page count it reported,
    restores the allocator exactly: every bit of every pool, blocks merged. *)
Theorem pmm_alloc_free_roundtrip (s s' : pmm) (ts : list (nat * btree)) (n a n' : Z) :
  pools_wf (s_firstpool s) ts → 0 < n < 2 ^ 32 →
  pmm_alloc n s = Ok ((a, n'), s') → a ≠ PHYSICALPTR_NULL →
  pmm_free a n' s' = Ok (tt, s).
Proof.
  intros Hwf Hn. unfold pmm_alloc. destruct (Z.eqb_spec n 0); [lia|]. cbn.
  destruct (alloc_from_pools_ok (s_firstpool s) ts n) as ([[a2 n2] pools'] & ts' & -> & Hal); [done..|].
  cbn. intros [= -> -> <-] Ha.
  pose proof (pools_alloc_effect _ _ _ _ _ _ _ Hwf (proj1 Hn) Hal Ha) as [Hn' _ _ _ _].
  pose proof (pools_alloc_free _ _ _ _ _ _ _ Hwf (proj1 Hn) Hal Ha) as Hf.
  assert (0 < n') by (rewrite Hn'; apply pow2_pos, Z.log2_up_nonneg).
  unfold pmm_free, PHYSICALPTR_NULL in *.
  destruct (Z.eqb_spec a 0); [done|]. destruct (Z.eqb_spec n' 0); [lia|]. cbn.
  rewrite (free_from_pools_ok n' a pools' ts' (s_firstpool s) ts ltac:(done) Hf). cbn.
  destruct s as [pools []]; done.
Qed.

Lemma pmm_alloc_free_roundtrip_witness :
  ∃ s', pmm_alloc 1 (Pmm [sample_pool] true) = Ok ((1048576, 1), s') ∧
  pmm_free 1048576 1 s' = Ok (tt, Pmm [sample_pool] true).
Proof.
  eexists. split; [vm_compute; reflexivity|].
  apply (pmm_alloc_free_roundtrip (Pmm [sample_pool] true) _ [(2%nat, Free)] 1);
    [exact sample_pool_wf|done|vm_compute; reflexivity|done].
Defined.

(** C30: freeing a used block of a pool, whatever was allocated and freed
    before, makes exactly its pages unused and keeps the pools well formed;
    freeing a block that is available panics. *)
Theorem pmm_free_correct (irq : bool) pools1 pool pools2 ts1 L t ts2 (q : path) (n : Z) :
  let pools := pools1 ++ pool :: pools2 in
  let a := block_addr pool L q in
  pools_wf pools (ts1 ++ (L, t) :: ts2) → length ts1 = length pools1 →
  0 < n < 2 ^ 32 → (length q + order n = L)%nat →
  (subtree t q = Some Used → ∃ pools' ts', pmm_free a n (Pmm pools irq) = Ok (tt, Pmm pools' irq) ∧
     pools_wf pools' ts' ∧
     ∀ x, used pools' ts' x ↔
       used pools (ts1 ++ (L, t) :: ts2) x ∧ ¬ a ≤ x < a + ARCH_PAGESIZE * 2 ^ Z.log2_up n) ∧
  (subtree t q = Some Free → pmm_free a n (Pmm pools irq) = Fault Panic).
Proof.
  intros pools a Hwf Hlen Hn Hq. destruct (pools_wf_middle _ _ _ _ _ _ _ Hwf Hlen) as [Hp Hskip].
  assert (Ha : in_pool pool a) by (eapply block_in_pool; [done|lia]).
  assert (Hfree : pmm_free a n (Pmm pools irq) =
    (pools' ← free_from_pools pools a n; Ok (tt, Pmm pools' irq))).
  { unfold pmm_free, in_pool in *. pose proof (pool_base _ _ _ Hp).
    destruct (Z.eqb_spec a 0); [lia|]. destruct (Z.eqb_spec n 0); [lia|]. cbn.
    destruct (free_from_pools pools a n); [by destruct irq|done]. }
  rewrite Hfree. split.
  - intros Hu. destruct (give_back_is_Some t q Hu) as [t' Hg].
    destruct (free_from_pool_ok pool L t q n t') as (b & Hf & _ & Hwf'); [done..|].
    assert (Hpf : pools_free n a pools (ts1 ++ (L, t) :: ts2) (pools1 ++ with_bitmap pool b :: pools2) (ts1 ++ (L, t') :: ts2)).
    { apply Hskip. by eapply free_here. }
    rewrite (free_from_pools_ok n a _ _ _ _ ltac:(lia) Hpf).
    destruct (pools_free_effect _ _ _ _ _ _ Hwf Hn Hpf) as (Hws & _ & Hus).
    do 2 eexists. split; [done|]. by split.
  - intros Hfr. unfold pools. rewrite (free_from_pools_skip pools1 pool pools2 ts1 L t ts2 a n) by done.
    unfold a. rewrite (free_from_pools_here pool L t) by (done || lia).
    rewrite (free_from_pool_available pool L t) by (try done; by apply free_avail). done.
Qed.

Lemma pmm_free_correct_witness :
  (∃ pools' ts', pmm_free 1048576 2 (Pmm [half_used_pool] true) = Ok (tt, Pmm pools' true) ∧
     pools_wf pools' ts' ∧
     ∀ x, used pools' ts' x ↔ used [half_used_pool] [(2%nat, Split Used Free)] x ∧
       ¬ 1048576 ≤ x < 1048576 + ARCH_PAGESIZE * 2 ^ Z.log2_up 2) ∧
  pmm_free 1056768 2 (Pmm [half_used_pool] true) = Fault Panic.
Proof.
  split.
  - apply (pmm_free_correct true [] half_used_pool [] [] 2 (Split Used Free) [] [false] 2);
      [exact half_used_pool_wf|done..].
  - apply (pmm_free_correct true [] half_used_pool [] [] 2 (Split Used Free) [] [true] 2);
      [exact half_used_pool_wf|done..].
Defined.

Lemma pmm_register_mem_ok {H : Type} `{!HeapOps H} `{!HeapSucceeds H}
    (s : pmm) (ts : list (nat * btree)) (h : H) (base n : Z) (fuel : nat) :
  pools_wf (s_firstpool s) ts → 0 < base → 0 ≤ n → base mod ARCH_PAGESIZE = 0 →
  base + ARCH_PAGESIZE * n < 2 ^ 32 → (Z.to_nat n < fuel)%nat →
  Forall (λ p, pool_limit p ≤ base ∨ base + ARCH_PAGESIZE * n ≤ base_addr p) (s_firstpool s) →
  ∃ pools' h' ts', pmm_register_mem fuel base n (s, h) = Ok (tt, (Pmm pools' (eflags_if s), h')) ∧
    pools_wf pools' ts' ∧
    (∀ x, managed pools' x ↔ managed (s_firstpool s) x ∨ base ≤ x < base + ARCH_PAGESIZE * n) ∧
    (∀ x, used pools' ts' x ↔ used (s_firstpool s) ts x) ∧
    foldr (λ p m, page_count p + m) 0 pools' =
      foldr (λ p m, page_count p + m) 0 (s_firstpool s) + n.
Proof.
  intros Hwf Hbase Hn Hal Hfit Hfuel Hapart. unfold pmm_register_mem.
  destruct (Z.eqb_spec base 0); [lia|]. cbn.
  destruct (loop_rule register_step
    (λ '(c, r, ps, _), registered base n (s_firstpool s) ts c r ps)
    (λ '(_, r, _, _), Z.to_nat r)
    (λ '(ps, _), ∃ c, registered base n (s_firstpool s) ts c 0 ps))
    with (fuel := fuel) (x := (base, n, s_firstpool s, h)) as ([ps h'] & -> & c & Hreg); [| |done|].
  - intros [[[c r] ps] h0] Hreg.
    destruct (register_step_ok base n (s_firstpool s) ts c r ps h0) as (y & -> & Hy); [done..|].
    eexists. split; [done|]. destruct y as [[[[c' r'] ps'] h']|[ps' h']].
    + destruct Hy as [Hreg' Hlt]. split; [done|]. pose proof (reg_remaining _ _ _ _ _ _ _ Hreg'). lia.
    + destruct Hy as [-> ->]. by exists c.
  - split; [lia|lia|done|by exists ts| |lia]. intros x. split; [by left|intros [?|?]; [done|lia]].
  - destruct Hreg as [-> _ _ (ts' & Hws & Hu) Hm Ht]. exists ps, h', ts'. split; [done|].
    split_and!; [done| |done|by rewrite Ht, Z.sub_0_r]. intros x. by rewrite Hm, Z.sub_0_r.
Qed.

(** [pmm_register_mem], given memory for its metadata, terminates and
    turns [n] pages into well-formed pools that cover exactly these pages, all
    of them unused, and leaves the pools there were as they are. *)
Theorem pmm_register_mem_covers {H : Type} `{!HeapOps H} `{!HeapSucceeds H}
    (s : pmm) (ts : list (nat * btree)) (h : H) (base n : Z) (fuel : nat) :
  pools_wf (s_firstpool s) ts → 0 < base → 0 ≤ n → base mod ARCH_PAGESIZE = 0 →
  base + ARCH_PAGESIZE * n < 2 ^ 32 → (Z.to_nat n < fuel)%nat →
  Forall (λ p, pool_limit p ≤ base ∨ base + ARCH_PAGESIZE * n ≤ base_addr p) (s_firstpool s) →
  ∃ pools' h' ts', pmm_register_mem fuel base n (s, h) = Ok (tt, (Pmm pools' (eflags_if s), h')) ∧
    pools_wf pools' ts' ∧
    (∀ x, managed pools' x ↔ managed (s_firstpool s) x ∨ base ≤ x < base + ARCH_PAGESIZE * n) ∧
    (∀ x, used pools' ts' x ↔ used (s_firstpool s) ts x) ∧
    foldr (λ p m, page_count p + m) 0 pools' =
      foldr (λ p m, page_count p + m) 0 (s_firstpool s) + n.
Proof. by apply pmm_register_mem_ok. Qed.

Lemma pmm_register_mem_covers_witness :
  @HeapSucceeds nat always_heap ∧
  ∃ pools' h' ts', @pmm_register_mem nat always_heap 12 1048576 11 (Pmm [] false, 0%nat) =
      Ok (tt, (Pmm pools' false, h')) ∧
    pools_wf pools' ts' ∧
    (∀ x, managed pools' x ↔ managed [] x ∨ 1048576 ≤ x < 1048576 + ARCH_PAGESIZE * 11) ∧
    (∀ x, used pools' ts' x ↔ used [] [] x) ∧
    foldr (λ p m, page_count p + m) 0 pools' = foldr (λ p m, page_count p + m) 0 [] + 11.
Proof.
  split; [exact always_heap_succeeds|].
  apply (@pmm_register_mem_covers nat always_heap always_heap_succeeds (Pmm [] false) []);
    try done; try lia; constructor.
Defined.

(** when the heap has no memory left for the metadata of the pools,
    [pmm_register_mem] never returns: it asks again and again, and no amount
    of fuel is enough. *)
Theorem pmm_register_mem_diverges {H : Type} `{!HeapOps H} `{!HeapExhausted H}
    (s : pmm) (h : H) (base n : Z) (fuel : nat) :
  0 < base → 0 < n < 2 ^ 20 → pmm_register_mem fuel base n (s, h) = Fault No_fuel.
Proof.
  intros Hbase Hn. unfold pmm_register_mem. destruct (Z.eqb_spec base 0); [lia|]. cbn.
  enough (loop fuel register_step (base, n, s_firstpool s, h) = Fault No_fuel) as -> by done.
  revert h. induction fuel as [|fuel IH]; intros h; [done|]. rewrite loop_S. unfold register_step at 1.
  destruct (Z.eqb_spec n 0); [lia|]. cbn [negb].
  destruct (pool_sizes_ok n) as (bits & -> & _); [lia|]. cbn.
  unfold bitmap_needed_word_count. rewrite size_to_blocks_eq by done. cbn.
  edestruct heap_alloc_fails as (h' & ->). cbn. apply IH.
Qed.

Lemma pmm_register_mem_diverges_witness :
  @HeapExhausted unit empty_heap ∧
  @pmm_register_mem unit empty_heap 100 1048576 11 (Pmm [] false, tt) = Fault No_fuel.
Proof.
  split; [exact empty_heap_exhausted|].
  apply (@pmm_register_mem_diverges unit empty_heap empty_heap_exhausted); done.
Defined.

(** a double free is caught only while the block has not been merged with
    its buddy: a second free of a merged block goes through, after which two
    allocations return the same page. *)
Theorem pmm_double_free_undetected :
  ∃ s1 s2 s3 s4 s5,
    pmm_alloc 1 (Pmm [sample_pool] true) = Ok ((1048576, 1), s1) ∧
    pmm_free 1048576 1 s1 = Ok (tt, s2) ∧
    pmm_free 1048576 1 s2 = Ok (tt, s3) ∧
    pmm_alloc 1 s3 = Ok ((1048576, 1), s4) ∧
    pmm_alloc 1 s4 = Ok ((1048576, 1), s5).
Proof. do 5 eexists. do 4 (split; [vm_compute; reflexivity|]). vm_compute. reflexivity. Qed.
