(* ===== verification/PmmPages.v ===== *)
(** The physical page allocator as its clients see it, which take and return
    single pages (PmmIface.v): two sets of pages, those that are available and
    those that are owned. *)
From S2P Require Import Prelude MiscMath Bitmap Arch HeapIface PmmIface Buddy Pmm.

(** ** Used blocks as single pages *)

(** A used block is in no way different from its two halves being used. *)
Fixpoint expand (h : nat) (t : btree) {struct h} : btree :=
  match h, t with
  | S h, Used => Split (expand h Used) (expand h Used)
  | S h, Split l r => Split (expand h l) (expand h r)
  | _, _ => t
  end.

Lemma expand_fits h t : fits h t → fits h (expand h t).
Proof. revert t. induction h as [|h IH]; intros [| |l r]; cbn; try done; intros; split; apply IH; naive_solver. Qed.

Lemma expand_free h t : expand h t = Free ↔ t = Free.
Proof. by destruct h, t. Qed.

Lemma expand_merged h t : merged t → merged (expand h t).
Proof.
  revert t. induction h as [|h IH]; intros [| |l r]; cbn; try done.
  - intros _. rewrite !expand_free. split; [by intros []|]. split; by apply IH.
  - rewrite !expand_free. intros (? & ? & ?). split; [done|]. split; by apply IH.
Qed.

Lemma avail_used p : avail Used p = false.
Proof. by destruct p. Qed.

Lemma expand_avail h t p : avail (expand h t) p = avail t p.
Proof.
  revert t p. induction h as [|h IH]; intros [| |l r] [|b p]; cbn; try done; [|by destruct b]. destruct b; by rewrite IH, avail_used.
Qed.

Lemma expand_page_used h t i : page_used h (expand h t) i = page_used h t i.
Proof.
  revert t i. induction h as [|h IH]; intros [| |l r] i; cbn; try done; rewrite !IH; [|done].
  destruct h; by case_match.
Qed.

(** A used page of such a tree is a block of its own. *)
Lemma expand_subtree h t i : fits h t → page_used h t i = true → subtree (expand h t) (path_of h i) = Some Used.
Proof.
  revert t i. induction h as [|h IH]; intros [| |l r] i Hf Hu; cbn in *; try done.
  - destruct (2 ^ Z.of_nat h <=? i); apply IH; by destruct h.
  - destruct (Z.leb_spec (2 ^ Z.of_nat h) i), (Z.ltb_spec i (2 ^ Z.of_nat h)); try lia; apply IH; naive_solver.
Qed.

(** The bits of the bitmap determine which pages are used. *)
Lemma page_used_unique h t t' i : fits h t → fits h t' → (∀ p, (length p ≤ h)%nat → avail t p = avail t' p) →
  page_used h t i = page_used h t' i.
Proof.
  revert t t' i. induction h as [|h IH]; intros t t' i Hf Hf' Hav.
  - specialize (Hav [] ltac:(done)). by destruct t, t'.
  - assert (∀ b p, (length p ≤ h)%nat → avail t (b :: p) = avail t' (b :: p)) as Hsub.
    { intros b p Hp. apply Hav. cbn. lia. }
    specialize (Hav [] ltac:(cbn; lia)).
    destruct t as [| |l r], t' as [| |l' r']; cbn in *; try done; case_match; try done.
    + rewrite <- (IH Used l'); [by destruct h|by destruct h|naive_solver|]. intros p Hp. rewrite avail_used. by apply (Hsub false).
    + rewrite <- (IH Used r'); [by destruct h|by destruct h|naive_solver|]. intros p Hp. rewrite avail_used. by apply (Hsub true).
    + rewrite (IH l Used); [by destruct h|naive_solver|by destruct h|]. intros p Hp. rewrite avail_used. by apply (Hsub false).
    + rewrite (IH r Used); [by destruct h|naive_solver|by destruct h|]. intros p Hp. rewrite avail_used. by apply (Hsub true).
    + apply IH; [naive_solver..|]. apply (Hsub false).
    + apply IH; [naive_solver..|]. apply (Hsub true).
Qed.

Lemma pool_level_unique pool L t L' t' : pool_wf pool L t → pool_wf pool L' t' → L = L'.
Proof.
  intros Hp Hp'. pose proof (pool_pages _ _ _ Hp). pose proof (pool_pages _ _ _ Hp').
  apply Nat2Z.inj, (Z.pow_inj_r 2); [lia..|congruence].
Qed.

Lemma used_unique pools ts ts' x : pools_wf pools ts → pools_wf pools ts' → used pools ts x ↔ used pools ts' x.
Proof.
  intros Hwf. revert ts'. induction Hwf as [|pool L t pools ts Hp _ _ IH]; intros ts' Hwf'; inversion Hwf' as [|? L' t' ? ts2 Hp' _ Hws]; subst; [done|].
  assert (L' = L) as -> by by eapply pool_level_unique. cbn. rewrite (IH ts2 Hws).
  rewrite (page_used_unique L t t'); [done|apply Hp|apply Hp'|].
  intros p Hlen. by rewrite <- (holds_bit _ _ _ (pool_holds _ _ _ Hp)), <- (holds_bit _ _ _ (pool_holds _ _ _ Hp')).
Qed.

Lemma expand_pool_wf pool L t : pool_wf pool L t → pool_wf pool L (expand L t).
Proof.
  intros []. split; [done..|by apply expand_fits|by apply expand_merged| |done].
  eapply holds_ext; [done|]. intros p _. by rewrite expand_avail.
Qed.

(** A used page can be given back on its own. *)
Lemma pools_free_page pools ts a : pools_wf pools ts → a mod ARCH_PAGESIZE = 0 → used pools ts a →
  ∃ pools2 ts1 ts2, pools_wf pools ts1 ∧ (∀ x, used pools ts1 x ↔ used pools ts x) ∧ pools_free 1 a pools ts1 pools2 ts2.
Proof.
  intros Hwf Ha. induction Hwf as [|pool L t pools ts Hp Hd Hws IH]; cbn; [done|]. intros [[Hin Hu]|Hu].
  - set (q := path_of L (page_of pool a)). destruct (page_of_bounds pool L t a Hp Hin) as [H0 H1].
    assert (length q + order 1 = L)%nat as Hq by (unfold q; rewrite length_path_of; apply Nat.add_0_r).
    assert (a = block_addr pool L q) as Eq.
    { unfold block_addr, q. rewrite length_path_of, Nat.sub_diag, block_no_path_of by done. unfold page_of.
      pose proof (pool_aligned _ _ _ Hp). unfold ARCH_PAGESIZE in *. destruct Hin. dlia. }
    destruct (give_back_is_Some (expand L t) q) as [t' Hg]; [apply expand_subtree; [apply Hp|done]|].
    destruct (free_from_pool_ok pool L (expand L t) q 1 t') as (b & Hf & _); [by apply expand_pool_wf|done|done|done|].
    exists (with_bitmap pool b :: pools), ((L, expand L t) :: ts), ((L, t') :: ts). split; [|split].
    + constructor; [by apply expand_pool_wf|done|done].
    + intros x. cbn. by rewrite expand_page_used.
    + eapply (free_here 1 a pool L (expand L t) pools ts q); [by apply expand_pool_wf|done|done|done|by rewrite Eq].
  - destruct (IH Hu) as (pools2 & ts1 & ts2 & Hwf1 & Hiff & Hf). exists (pool :: pools2), ((L, t) :: ts1), ((L, t) :: ts2).
    split; [by constructor|]. split; [|by constructor]. intros x. cbn. by rewrite Hiff.
Qed.

(** ** The pools keep their addresses *)

Definition same_range (p q : pagepool) : Prop := base_addr p = base_addr q ∧ page_count p = page_count q.

Lemma managed_same_range pools pools' x : Forall2 same_range pools pools' → managed pools x ↔ managed pools' x.
Proof.
  unfold managed. induction 1 as [|p q pools pools' [Hb Hc] _ IH]; [done|].
  rewrite !Exists_cons, IH. unfold in_pool, pool_limit. by rewrite Hb, Hc.
Qed.

Lemma same_range_refl pools : Forall2 same_range pools pools.
Proof. by induction pools; constructor. Qed.

Lemma pools_alloc_range n pools ts a n' pools' ts' : pools_alloc n pools ts (a, n', pools') ts' → Forall2 same_range pools pools'.
Proof.
  remember (a, n', pools') as r eqn:E. intros Hal. revert a n' pools' E.
  induction Hal as [|pool L t pools ts a0 n0 pool' t' Hp Ha Hpa|pool L t pools ts a0 n0 pools0 ts0 Hp Hno Hd Hpa IH];
    intros a n' pools' E; simplify_eq; [done| |constructor; [done|by eapply IH]].
  constructor; [|apply same_range_refl]. by inversion Hpa.
Qed.

Lemma pools_free_range n a pools ts pools' ts' : 0 < n < 2 ^ 32 → pools_free n a pools ts pools' ts' → Forall2 same_range pools pools'.
Proof.
  intros Hn. induction 1 as [pool L t pools ts q t' pool' Hp -> Hq Hg Hf|]; [|by constructor].
  constructor; [|apply same_range_refl].
  destruct (free_from_pool_ok pool L t q n t') as (b & Hf' & _); [done..|]. rewrite Hf in Hf'. by injection Hf' as ->.
Qed.

(** ** Two sets of pages *)

Lemma no_page_available pools ts b : pools_wf pools ts → Forall (λ '(L, t), no_block 1 L t) ts → managed pools b → used pools ts b.
Proof.
  unfold managed. induction 1 as [|pool L t pools ts Hp _ _ IH]; rewrite ?Exists_nil, ?Exists_cons; [done|].
  intros [Hno Hall]%Forall_cons [Hin|Hm]; cbn; [left|right; by apply IH]. split; [done|].
  destruct (page_of_bounds pool L t b Hp Hin) as [H0 H1].
  destruct (Hno (path_of L (page_of pool b))) as (i & Hi & Hu); [rewrite length_path_of; apply Nat.add_0_r|].
  unfold in_block in Hi. rewrite length_path_of, Nat.sub_diag, block_no_path_of in Hi by done. by replace i with (page_of pool b) in Hu by lia.
Qed.


Definition pmm_ok (p : pmm) : Prop := ∃ ts, pools_wf (s_firstpool p) ts.
Definition available (p : pmm) (a : Z) : Prop :=
  a mod ARCH_PAGESIZE = 0 ∧ managed (s_firstpool p) a ∧ ∃ ts, pools_wf (s_firstpool p) ts ∧ ¬ used (s_firstpool p) ts a.
Definition owned (p : pmm) (a : Z) : Prop :=
  a mod ARCH_PAGESIZE = 0 ∧ ∃ ts, pools_wf (s_firstpool p) ts ∧ used (s_firstpool p) ts a.

Lemma available_iff p ts a : pools_wf (s_firstpool p) ts →
  available p a ↔ a mod ARCH_PAGESIZE = 0 ∧ managed (s_firstpool p) a ∧ ¬ used (s_firstpool p) ts a.
Proof.
  intros Hwf. unfold available. split; [|intros (? & ? & ?); split; [done|]; split; [done|]; by exists ts]. intros (? & ? & ts' & Hwf' & Hn). by rewrite (used_unique _ ts ts').
Qed.
Lemma owned_iff p ts a : pools_wf (s_firstpool p) ts → owned p a ↔ a mod ARCH_PAGESIZE = 0 ∧ used (s_firstpool p) ts a.
Proof.
  intros Hwf. unfold owned. split; [|intros (? & ?); split; [done|]; by exists ts]. intros (? & ts' & Hwf' & Hn). by rewrite (used_unique _ ts ts').
Qed.

Lemma managed_u32 pools ts a : pools_wf pools ts → managed pools a → 0 < a < 2 ^ 32.
Proof.
  unfold managed. induction 1 as [|pool L t pools ts Hp _ _ IH]; rewrite ?Exists_nil, ?Exists_cons; [done|].
  intros [Hin|]; [|by apply IH]. pose proof (pool_base _ _ _ Hp). pose proof (pool_end _ _ _ Hp).
  unfold in_pool, pool_limit in Hin. rewrite (pool_pages _ _ _ Hp) in Hin. lia.
Qed.

(** The address of a page is the only one of its addresses that is aligned. *)
Lemma in_page a b : a mod ARCH_PAGESIZE = 0 → b mod ARCH_PAGESIZE = 0 → a ≤ b < a + ARCH_PAGESIZE * 1 ↔ b = a.
Proof. unfold ARCH_PAGESIZE. intros. dlia. Qed.

Lemma pmm_take_page_ok p : pmm_ok p → ∃ a n p', pmm_alloc 1 p = Ok ((a, n), p') ∧ pmm_ok p' ∧
  (a = PHYSICALPTR_NULL ∧ p' = p ∧ (∀ b, ¬ available p b) ∨
   a ≠ PHYSICALPTR_NULL ∧ n = 1 ∧ available p a ∧
   ∀ b, (available p' b ↔ available p b ∧ b ≠ a) ∧ (owned p' b ↔ owned p b ∨ b = a)).
Proof.
  intros [ts Hwf]. destruct (pmm_alloc_ok p ts 1 Hwf) as (a & n & p' & ts' & E & Hal & Hwf' & _ & Hsome & Hnone); [done|].
  pose proof (pools_alloc_range _ _ _ _ _ _ _ Hal) as Hrange. clear Hal.
  exists a, n, p'. split; [done|]. split; [by exists ts'|]. destruct (decide (a = PHYSICALPTR_NULL)) as [->|Ha].
  - left. destruct (Hnone eq_refl) as (-> & -> & Hno). split; [done|]. split; [done|].
    intros b (_ & Hm & Hu)%(available_iff p ts); [|done]. by apply Hu, no_page_available.
  - right. destruct (Hsome Ha) as [_ [En Hal Hman Hfresh Hused]]. assert (n = 1) as -> by done.
    split; [done|]. split; [done|]. assert (a ≤ a < a + ARCH_PAGESIZE * 1) as Hin by (unfold ARCH_PAGESIZE; lia).
    split; [apply (available_iff p ts); [done|]; by auto|]. intros b.
    rewrite (available_iff p' ts'), (available_iff p ts), (owned_iff p' ts'), (owned_iff p ts), Hused by done.
    rewrite (managed_same_range _ _ b Hrange). pose proof (in_page a b Hal). destruct (decide (b = a)) as [->|]; tauto.
Qed.

Lemma pmm_give_page_ok p a : pmm_ok p → owned p a → ∃ p', pmm_free a 1 p = Ok (tt, p') ∧ pmm_ok p' ∧
  ∀ b, (available p' b ↔ available p b ∨ b = a) ∧ (owned p' b ↔ owned p b ∧ b ≠ a).
Proof.
  intros _ (Hal & ts & Hwf & Hu). destruct (pools_free_page _ _ _ Hwf Hal Hu) as (pools2 & ts1 & ts2 & Hwf1 & Hiff & Hf).
  pose proof (managed_u32 _ _ a Hwf (used_managed _ _ _ Hu)) as Ha.
  destruct (pools_free_effect 1 a _ _ _ _ Hwf1 ltac:(done) Hf) as (Hwf2 & _ & Hused).
  pose proof (pools_free_range 1 a _ _ _ _ ltac:(done) Hf) as Hrange.
  exists (Pmm pools2 (eflags_if p)). split; [|split; [by exists ts2|]].
  - unfold pmm_free. destruct (Z.eqb_spec a 0); [lia|]. cbn [orb Z.eqb].
    rewrite (free_from_pools_ok 1 a _ _ _ _ ltac:(done) Hf). by destruct p as [pools []].
  - intros b. rewrite (available_iff (Pmm pools2 _) ts2), (available_iff p ts), (owned_iff (Pmm pools2 _) ts2), (owned_iff p ts) by done.
    cbn [s_firstpool]. rewrite Hused, Hiff, (managed_same_range _ _ b Hrange). pose proof (in_page a b Hal) as Hp.
    change (2 ^ Z.log2_up 1) with 1. pose proof (used_managed _ _ _ Hu) as Hm. rewrite (managed_same_range _ _ a Hrange) in Hm.
    destruct (decide (b = a)) as [->|]; [|tauto]. tauto.
Qed.

(** ** The interface *)

#[export] Instance pmm_pages : PmmOps pmm := {| page_alloc := pmm_alloc; page_free := pmm_free |}.

#[export] Instance pmm_pages_laws : PmmLaws pmm.
Proof.
  refine (Build_PmmLaws _ _ pmm_ok available owned _ _ _).
  - intros p a _ (_ & ts & Hwf & Hu) (_ & _ & Hn)%(available_iff p ts); done.
  - intros p Hp. destruct (pmm_take_page_ok p Hp) as (a & n & p' & E & Hp' & Hcase). exists a, n, p'. split; [done|]. split; [done|].
    destruct Hcase as [(-> & -> & _)|(Ha & _ & Hav & Hall)]; [by left|right]. pose proof Hav as (Hal & Hm & ts & Hwf & _).
    split; [done|]. split; [split; pose proof (managed_u32 _ _ a Hwf Hm); lia|]. split; [done|]. split; [done|].
    split; [apply Hall; by right|]. split; intros b; [|intros Hb]; specialize (Hall b); tauto.
  - intros p a Hp Ha. destruct (pmm_give_page_ok p a Hp Ha) as (p' & E & Hp' & Hall). exists p'. split; [done|]. split; [done|].
    split; intros b; specialize (Hall b); tauto.
Defined.

(** The pages of an allocator, as two sets. *)
Record page_view (p : pmm) (A O : gset Z) : Prop := {
  view_ok : pmm_ok p;
  view_available a : a ∈ A ↔ available p a;
  view_owned a : a ∈ O ↔ owned p a;
}.

(** C31: to a client that takes and returns single pages the allocator is two sets:
    taking a page moves one that is available to those that are owned, and
    returns the null address only when there is none; returning a page that is
    owned moves it back. *)
Theorem pmm_refines_page_sets p (A O : gset Z) : page_view p A O →
  (∃ a n p', pmm_alloc 1 p = Ok ((a, n), p') ∧
    if decide (A = ∅) then a = PHYSICALPTR_NULL ∧ p' = p
    else a ∈ A ∧ n = 1 ∧ page_view p' (A ∖ {[a]}) (O ∪ {[a]})) ∧
  ∀ a, a ∈ O → ∃ p', pmm_free a 1 p = Ok (tt, p') ∧ page_view p' (A ∪ {[a]}) (O ∖ {[a]}).
Proof.
  intros [Hp HA HO]. split.
  - destruct (pmm_take_page_ok p Hp) as (a & n & p' & E & Hp' & Hcase). exists a, n, p'. split; [done|].
    destruct Hcase as [(-> & -> & Hno)|(_ & -> & Hav & Hall)]; case_decide as HE.
    + done.
    + apply set_choose_L in HE as [b Hb%HA]. by apply Hno in Hb.
    + apply HA in Hav. set_solver.
    + split; [by apply HA|]. split; [done|]. split; [done|..]; intros b; specialize (Hall b);
        rewrite ?elem_of_union, ?elem_of_difference, ?elem_of_singleton, ?HA, ?HO; tauto.
  - intros a Ha%HO. destruct (pmm_give_page_ok p a Hp Ha) as (p' & E & Hp' & Hall). exists p'. split; [done|].
    split; [done|..]; intros b; specialize (Hall b);
      rewrite ?elem_of_union, ?elem_of_difference, ?elem_of_singleton, ?HA, ?HO; tauto.
Qed.

(** Four pages of a pool. *)
Lemma sample_page_view : page_view (Pmm [sample_pool] true) {[0x100000; 0x101000; 0x102000; 0x103000]} ∅.
Proof.
  split; [by exists [(2%nat, Free)]; apply sample_pool_wf|..]; intros a.
  - rewrite (available_iff (Pmm [sample_pool] true) _ a sample_pool_wf). cbn [s_firstpool]. unfold managed. rewrite Exists_cons, Exists_nil.
    unfold in_pool, pool_limit, ARCH_PAGESIZE. cbn [sample_pool base_addr page_count used page_used].
    rewrite !elem_of_union, !elem_of_singleton. split; [intros Ha; split; [by destruct Ha as [[[->| ->]| ->]| ->]|]; split; [left; lia|naive_solver]|].
    intros (Hal & [Hr|[]] & _). assert (a = 4096 * (a / 4096)) as -> by dlia. assert (256 ≤ a / 4096 < 260) by dlia. lia.
  - rewrite (owned_iff (Pmm [sample_pool] true) _ a sample_pool_wf). cbn. set_solver.
Qed.

Lemma pmm_refines_page_sets_witness : ∃ a n p', pmm_alloc 1 (Pmm [sample_pool] true) = Ok ((a, n), p') ∧
  if decide (({[0x100000; 0x101000; 0x102000; 0x103000]} : gset Z) = ∅) then a = PHYSICALPTR_NULL ∧ p' = Pmm [sample_pool] true
  else a ∈ ({[0x100000; 0x101000; 0x102000; 0x103000]} : gset Z) ∧ n = 1 ∧
    page_view p' ({[0x100000; 0x101000; 0x102000; 0x103000]} ∖ {[a]}) (∅ ∪ {[a]}).
Proof.
  apply (pmm_refines_page_sets (Pmm [sample_pool] true) {[0x100000; 0x101000; 0x102000; 0x103000]} ∅).
  exact sample_page_view.
Defined.
