(* ===== verification/VmmBoot.v ===== *)
(** The virtual memory manager on the page tables the kernel starts with: the
    theorems about its operations apply to the kernel's address space once it
    has been created, and to an object allocated in it. *)
From S2P Require Import Prelude MiscMath Bitmap CList Arch HeapIface PmmIface.
From S2P Require Import Buddy Pmm PmmPages Mmu MmuSafe MmuPages MmuCorrect MmuBoot Vmm VmmLists VmmRegions VmmInv VmmAlloc VmmFault VmmFree VmmErrors VmmCorrect.

#[local] Existing Instances always_heap always_heap_laws always_heap_succeeds.

(** The state after a call, if it returns. *)
Definition after {S A} (m : M S A) (s : S) : S := match m s with Ok (_, s') => s' | Fault _ => s end.

Lemma after_eq {S A} (m : M S A) s a s' : m s = Ok (a, s') → after m s = s'.
Proof. unfold after. by intros ->. Qed.

Definition returns {S A} (m : M S A) (s : S) : bool := match m s with Ok _ => true | Fault _ => false end.

Lemma returns_ok {S A} (m : M S A) s : returns m s = true → ∃ a, m s = Ok (a, after m s).
Proof. unfold returns, after. destruct (m s) as [[a s']|]; [by exists a|done]. Qed.

(** The page allocator is the kernel's own, with 1000 pages from 4 MiB on. *)
Definition kernel_pages : pmm := (after (pmm_register_mem 1001 0x400000 1000) (Pmm [] true, 0%nat)).1.

Lemma kernel_pages_ok : pmm_ok kernel_pages ∧ ∀ a, available kernel_pages a → 0x400000 ≤ a.
Proof.
  destruct (pmm_register_mem_ok (Pmm [] true) [] 0%nat 0x400000 1000 1001) as (pools & h & ts & E & Hwf & Hm & _);
    [constructor|done..|lia|by constructor|].
  unfold kernel_pages. rewrite (after_eq _ _ _ _ E). split; [by exists ts|].
  intros a (_ & [Hn|Ha]%Hm & _); [by apply Exists_nil in Hn|lia].
Qed.

Lemma kernel_first_page : pmm_alloc 1 kernel_pages = Ok ((0x7e0000, 1), after (pmm_alloc 1) kernel_pages).
Proof. vm_compute. reflexivity. Qed.

(** The kernel occupies the first 4 MiB of its part of the address space; the
    tables of the rest are there, and empty except for the last page, which is not
    part of the kernel's address space. *)
Definition kernel_word (a : Z) : Z :=
  if (kernelpagetable + 4096 <=? a) && (a <? kernelpagetable + 4096 * 255 - 4) then 0 else boot_word a.
Definition kernel_mmu : mmu pmm := Mmu kernel_word boot_pagedir ∅ false kernel_pages.
Definition kernel_vm_start : Z := 0xd0000000.

Lemma kernel_pd i : is_index i → pd kernel_mmu i = pd boot_mmu i.
Proof.
  unfold is_index, pd, kernel_word. intros Hi. cbn. unfold kernel_word.
  destruct (Z.leb_spec (kernelpagetable + 4096) (boot_pagedir + 4 * i)); [|done].
  unfold kernelpagetable, boot_pagedir in *. lia.
Qed.

Lemma kernel_mmu_wf : mmu_wf kernel_mmu.
Proof.
  split; [|by intros p e He]. destruct boot_mmu_wf as [[Hc [Hl Hs] Hr Hd _ _] _].
  assert (is_index 1023) as Hlast by (unfold is_index; lia).
  split.
  - done.
  - rewrite kernel_pd by done. by split.
  - intros i Hi. rewrite kernel_pd by done. by apply Hr.
  - intros i j Hi Hj. rewrite !kernel_pd by done. by apply Hd.
  - intros i Hi. rewrite kernel_pd by done. intros Hp Hav. apply kernel_pages_ok in Hav.
    destruct (boot_pd_spec i Hi Hp) as (Hi' & _ & E). rewrite E in Hav.
    unfold boot_table, is_index, lower2mpagetable, boot_pagedir, kernelpagetable in *. zcase; lia.
  - apply kernel_pages_ok.
Qed.

Definition kernel_region : vmm_object := VmmObject 5 kernel_vm_start ARCH_KERNEL_VM_END VMM_PHYSADDR_NOMAP 0.

Lemma kernel_region_wf : object_wf kernel_region.
Proof. by split. Qed.

Lemma kernel_range_unmapped : range_unmapped kernel_mmu (first_page kernel_region) (npages kernel_region).
Proof.
  split; [apply kernel_mmu_wf|].
  change (first_page kernel_region) with 0xd0000. change (npages kernel_region) with 195583. intros q Hq.
  assert (is_index (q / 1024) ∧ 832 ≤ q / 1024 < 1023) as [Hi Hlim] by (unfold is_index; dlia).
  assert (present (pd kernel_mmu (q / 1024)) ∧ page_of (pd kernel_mmu (q / 1024)) = kernelpagetable + 4096 * (q / 1024 - 768)) as [Hp Hpage].
  { rewrite kernel_pd, boot_pd by done. unfold boot_dir_entry.
    change ARCHI586_MMU_KERNEL_PDE_START with 768. change ARCHI586_MMU_PAGEDIR_PDE with 1023. change ARCHI586_MMU_PAGE_SIZE with 4096.
    destruct (Z.eqb_spec (q / 1024) 0); [lia|]. destruct (Z.ltb_spec (q / 1024) 768); [lia|]. destruct (Z.eqb_spec (q / 1024) 1023); [lia|].
    destruct (boot_entry_spec (kernelpagetable + 4096 * (q / 1024 - 768))) as (? & _ & ?); [| |by split];
      unfold is_u32, kernelpagetable; change (2 ^ 32) with 4294967296; dlia. }
  split; [split; [unfold is_page; change (2 ^ 20) with 1048576; lia|split; [done|lia]]|].
  unfold mapped, entry, pt. rewrite Hp, Hpage. cbn [phys_mem kernel_mmu]. unfold kernel_word.
  destruct (Z.leb_spec (kernelpagetable + 4096) (kernelpagetable + 4096 * (q / 1024 - 768) + 4 * (q mod 1024))); [|dlia].
  destruct (Z.ltb_spec (kernelpagetable + 4096 * (q / 1024 - 768) + 4 * (q mod 1024)) (kernelpagetable + 4096 * 255 - 4)); [done|dlia].
Qed.

(** ** The kernel's address space *)

Definition no_space : vmm nat pmm := Vmm ∅ ∅ ∅ ∅ false 0%nat kernel_mmu.

Definition kernel_vmm : vmm nat pmm := after (vmm_get_kernel_address_space 5 kernel_vm_start) no_space.
#[local] Abbreviation lo := (first_page kernel_region).
#[local] Abbreviation cnt := (npages kernel_region).

Lemma kernel_vmm_ok : ∃ a p, vmm_ok kernel_vmm 5 a lo cnt [p] [] [] ∧ objects kernel_vmm !! p = Some kernel_region.
Proof.
  destruct (vmm_init_ok no_space 5 kernel_vm_start ARCH_KERNEL_VM_END false kernel_region_wf kernel_range_unmapped)
    as (ok & s' & E & -> & _ & _ & a & p & Hok & _ & Hp).
  exists a, p. assert (kernel_vmm = with_initialized true s') as ->.
  { apply (after_eq _ _ 5). unfold vmm_get_kernel_address_space. cbn [mbind M_bind get no_space initialized].
    unfold mbind, M_bind. cbn -[vmm_init_address_space]. by rewrite E. }
  split; [|done]. apply (vmm_ok_ext s'); [done| |done..]. by destruct (ok_lists _ _ _ _ _ _ _ _ Hok).
Qed.

(** A region of two pages is taken from the only free region. *)
Lemma vmm_alloc_object_correct_witness : ∃ a p o, vmm_ok kernel_vmm 5 a lo cnt ([] ++ p :: []) [] [] ∧
  wp (vmm_alloc_object 5 VMM_PHYSADDR_NOMAP 5000 3) kernel_vmm (λ new s', new ∉ ([] ++ p :: []) ++ [] ++ [] ∧ ∃ a' fs' u,
    vmm_ok s' 5 a' lo cnt fs' [new] ([] ++ [u]) ∧
    objects s' !! new = Some (VmmObject 5 (start o) (start o + 4096 * 2 - 1) VMM_PHYSADDR_NOMAP 3) ∧
    (∀ q, q ∈ [] → objects s' !! q = objects kernel_vmm !! q) ∧
    (if decide (2 = npages o) then fs' = [] ++ [] else fs' ≡ₚ [] ++ p :: []) ∧
    machine s' = machine kernel_vmm ∧
    ∀ q, first_page o ≤ q < first_page o + 2 → uncommited s' ([] ++ [u]) q).
Proof.
  destruct kernel_vmm_ok as (a & p & Hok & Hp). exists a, p, kernel_region. split; [exact Hok|].
  apply (vmm_alloc_object_correct kernel_vmm 5 a lo cnt [] p [] [] [] kernel_region 2 VMM_PHYSADDR_NOMAP 3 5000).
  - exact Hok.
  - reflexivity.
  - left. reflexivity.
  - intros q Hq. by apply not_elem_of_nil in Hq.
  - exact Hp.
  - split; [reflexivity|discriminate].
Defined.

(** No region has room for 0xfff00 pages. *)
Lemma vmm_alloc_returns_freed_object_witness : ∃ a p, vmm_ok kernel_vmm 5 a lo cnt [p] [] [] ∧
  wp (vmm_alloc_object 5 VMM_PHYSADDR_NOMAP 0xfff00000 3) kernel_vmm
    (λ r s', r ≠ NULL ∧ objects s' !! r = None ∧ vmm_ok s' 5 a lo cnt [p] [] []).
Proof.
  destruct kernel_vmm_ok as (a & p & Hok & Hp). exists a, p. split; [exact Hok|].
  apply (vmm_alloc_returns_freed_object kernel_vmm 5 a lo cnt [p] [] [] 0xfff00 VMM_PHYSADDR_NOMAP 3 0xfff00000).
  - exact Hok.
  - reflexivity.
  - split; reflexivity.
  - left. reflexivity.
  - discriminate.
  - intros q Hq. apply list_elem_of_singleton in Hq as ->. exists kernel_region. split; [by split|reflexivity].
Defined.

(** ** An allocated object *)

Definition allocated_vmm : vmm nat pmm := after (vmm_alloc_object 5 VMM_PHYSADDR_NOMAP 5000 3) kernel_vmm.
Definition new_object_address : Z := 32.
Definition new_region : vmm_object := VmmObject 5 kernel_vm_start (kernel_vm_start + 8191) VMM_PHYSADDR_NOMAP 3.

Lemma allocated_eq : vmm_alloc_object 5 VMM_PHYSADDR_NOMAP 5000 3 kernel_vmm = Ok (new_object_address, allocated_vmm).
Proof.
  unfold allocated_vmm, after.
  assert (match vmm_alloc_object 5 VMM_PHYSADDR_NOMAP 5000 3 kernel_vmm with Ok (r, _) => r | Fault _ => NULL end = new_object_address)
    as E by (vm_compute; reflexivity).
  assert (returns (vmm_alloc_object 5 VMM_PHYSADDR_NOMAP 5000 3) kernel_vmm = true) as Hr by (vm_compute; reflexivity).
  unfold returns in Hr. by destruct (vmm_alloc_object _ _ _ _ _) as [[r s']|]; [rewrite E|].
Qed.

Lemma allocated_vmm_ok : initialized allocated_vmm = true ∧ machine allocated_vmm = kernel_mmu ∧
  objects allocated_vmm !! new_object_address = Some new_region ∧
  ∃ a fs us, vmm_ok allocated_vmm 5 a lo cnt fs [new_object_address] us ∧ ∀ q, q ∈ opages new_region → uncommited allocated_vmm us q.
Proof.
  split; [by vm_compute|]. destruct kernel_vmm_ok as (a & p & Hok & Hp).
  destruct (alloc_object_ok kernel_vmm 5 a lo cnt [] p [] [] [] kernel_region 2 VMM_PHYSADDR_NOMAP 3 5000)
    as (new & s' & E & _ & a' & fs' & u & Hok' & Ho & _ & _ & Hm & Hun); [done|done|by left|set_solver|done|by split|].
  rewrite allocated_eq in E. injection E as <- <-.
  split; [by rewrite Hm|]. split; [by rewrite Ho|].
  exists a', fs', ([] ++ [u]). split; [done|]. intros q Hq%elem_of_opages. apply Hun. exact Hq.
Qed.

(** Its second page is committed with the page that the allocator gives first. *)
Lemma vmm_page_fault_commits_witness : ∃ a fs us, vmm_ok allocated_vmm 5 a lo cnt fs [new_object_address] us ∧
  wp (vmm_page_fault 5 kernel_vm_start 0xd0001234 false true false) allocated_vmm (λ _ s', ∃ a' us',
    vmm_ok s' 5 a' lo cnt fs [new_object_address] us' ∧ is_user a' = is_user a ∧
    (∀ q, q ∈ fs ++ [new_object_address] → objects s' !! q = objects allocated_vmm !! q) ∧
    (∀ w, (w = true → has (mapflags new_region) MAP_PROT_WRITE = true) →
       translate (machine s') w 0xd0001234 = Some (0x7e0000 + 0xd0001234 mod 4096)) ∧
    ∀ r, lo ≤ r < lo + cnt →
      (uncommited s' us' r ↔ uncommited allocated_vmm us r ∧ r ≠ 0xd0001234 / 4096) ∧
      (r ≠ 0xd0001234 / 4096 → mapped (machine s') r = mapped (machine allocated_vmm) r)).
Proof.
  destruct allocated_vmm_ok as (Hinit & Hm & Ho & a & fs & us & Hok & Hun). exists a, fs, us. split; [exact Hok|].
  apply (vmm_page_fault_commits allocated_vmm 5 kernel_vm_start a lo cnt fs [new_object_address] us 0xd0001234 true false
    new_object_address new_region (0x7e0000)).
  - exact Hok.
  - discriminate.
  - exact Hinit.
  - rewrite Hm. reflexivity.
  - reflexivity.
  - split; discriminate.
  - by apply list_elem_of_singleton.
  - exact Ho.
  - apply elem_of_opages. split; [discriminate|reflexivity].
  - apply Hun, elem_of_opages. split; [discriminate|reflexivity].
  - reflexivity.
  - rewrite Hm. exists 1, (after (pmm_alloc 1) kernel_pages). split; [exact kernel_first_page|]. split; [discriminate|reflexivity].
Defined.

Lemma vmm_free_correct_witness : ∃ a fs us, vmm_ok allocated_vmm 5 a lo cnt fs ([] ++ [new_object_address]) us ∧
  wp (vmm_free new_object_address) allocated_vmm (λ _ s', ∃ a' fs' us', vmm_ok s' 5 a' lo cnt fs' ([] ++ []) us' ∧ is_user a' = is_user a ∧
    fs' ≡ₚ new_object_address :: fs ∧ irq (machine s') = irq (machine allocated_vmm) ∧
    (∀ q, q ∈ fs ++ new_object_address :: [] ++ [] → objects s' !! q = objects allocated_vmm !! q) ∧
    (∀ r, lo ≤ r < lo + cnt →
      mapped (machine s') r = (if decide (r ∈ opages new_region) then None else mapped (machine allocated_vmm) r) ∧
      (uncommited s' us' r ↔ uncommited allocated_vmm us r ∧ r ∉ opages new_region)) ∧
    ∀ b, page_owned (pages (machine s')) b ↔ page_owned (pages (machine allocated_vmm)) b ∧
      ¬ (phys_base new_region = VMM_PHYSADDR_NOMAP ∧
         ∃ r e, r ∈ opages new_region ∧ mapped (machine allocated_vmm) r = Some e ∧ page_of e = b)).
Proof.
  destruct allocated_vmm_ok as (_ & _ & Ho & a & fs & us & Hok & _). exists a, fs, us. split; [exact Hok|].
  apply (vmm_free_correct allocated_vmm 5 a lo cnt fs [] new_object_address [] us new_region).
  - exact Hok.
  - exact Ho.
Defined.

Lemma vmm_deinit_frees_regions_witness : ∃ fs us : list Z, wp (vmm_deinit_address_space 5) allocated_vmm (λ _ s', ∃ a',
  lists_ok s' 5 a' [] us [new_object_address] ∧
  (∀ p, objects s' !! p = if decide (p ∈ fs) then None else objects allocated_vmm !! p) ∧
  (∀ u, u ∈ us → uobjects s' !! u = uobjects allocated_vmm !! u) ∧ machine s' = machine allocated_vmm).
Proof.
  destruct allocated_vmm_ok as (_ & _ & _ & a & fs & us & Hok & _). exists fs, us.
  apply (vmm_deinit_frees_regions allocated_vmm 5 a lo cnt fs [new_object_address] us).
  exact Hok.
Defined.

(** Below the address space there is no region to take. *)
Lemma vmm_alloc_object_at_never_succeeds_witness : ∃ r s',
  vmm_alloc_object_at 5 0x1001 VMM_PHYSADDR_NOMAP 4096 3 allocated_vmm = Ok (r, s') ∧ r = NULL.
Proof.
  destruct allocated_vmm_ok as (_ & _ & _ & a & fs & us & Hok & _).
  destruct (returns_ok (vmm_alloc_object_at 5 0x1001 VMM_PHYSADDR_NOMAP 4096 3) allocated_vmm) as (r & E); [vm_compute; reflexivity|].
  eexists r, _. split; [exact E|].
  eapply (vmm_alloc_object_at_never_succeeds allocated_vmm 5 a lo cnt fs [new_object_address] us 0x1001 VMM_PHYSADDR_NOMAP 4096 3).
  - exact Hok.
  - split; [discriminate|reflexivity].
  - exact E.
Defined.

(** ** A run *)

(** The second page of the object that is allocated is accessed, and the object
    is freed. *)
Definition faulting_vmm : vmm nat pmm := with_machine (with_irq false (machine allocated_vmm)) allocated_vmm.
Definition committed_vmm : vmm nat pmm :=
  with_machine (with_irq (irq (machine allocated_vmm)) (machine (after (vmm_page_fault 5 kernel_vm_start 0xd0001234 false true false) faulting_vmm)))
    (after (vmm_page_fault 5 kernel_vm_start 0xd0001234 false true false) faulting_vmm).

Lemma allocated_step : vmm_step 5 kernel_vm_start (kernel_vmm, []) (allocated_vmm, [new_object_address]).
Proof.
  pose proof (step_alloc 5 kernel_vm_start kernel_vmm [] VMM_PHYSADDR_NOMAP 5000 3 2 new_object_address allocated_vmm
    eq_refl ltac:(done) ltac:(by left) allocated_eq) as Hstep.
  rewrite decide_False in Hstep; [done|]. destruct allocated_vmm_ok as (_ & _ & -> & _). done.
Qed.

Lemma committed_step : vmm_step 5 kernel_vm_start (allocated_vmm, [new_object_address]) (committed_vmm, [new_object_address]).
Proof.
  destruct allocated_vmm_ok as (Hinit & Hm & Ho & _).
  destruct (returns_ok (vmm_page_fault 5 kernel_vm_start 0xd0001234 false true false) faulting_vmm) as ([] & E); [vm_compute; reflexivity|].
  eapply (step_fault 5 kernel_vm_start allocated_vmm [new_object_address] new_object_address new_region 0xd0001234 true false (0x7e0000)).
  - exact Hinit.
  - by apply list_elem_of_singleton.
  - exact Ho.
  - apply elem_of_opages. split; [discriminate|reflexivity].
  - rewrite Hm. reflexivity.
  - split; discriminate.
  - reflexivity.
  - rewrite Hm. exists 1, (after (pmm_alloc 1) kernel_pages). split; [exact kernel_first_page|]. split; [discriminate|reflexivity].
  - exact E.
Qed.

Lemma vmm_objects_stay_apart_witness : rtc (vmm_step 5 kernel_vm_start) (kernel_vmm, []) (committed_vmm, [new_object_address]) ∧
  (∀ p p' o o', p ∈ [new_object_address] → p' ∈ [new_object_address] → objects committed_vmm !! p = Some o →
     objects committed_vmm !! p' = Some o' → p ≠ p' → end_ o < start o' ∨ end_ o' < start o) ∧
  (∀ q q' pa, backed committed_vmm [new_object_address] q pa → backed committed_vmm [new_object_address] q' pa → q = q').
Proof.
  assert (rtc (vmm_step 5 kernel_vm_start) (kernel_vmm, []) (committed_vmm, [new_object_address])) as Hrun.
  { eapply rtc_l; [apply allocated_step|]. apply rtc_once, committed_step. }
  split; [exact Hrun|]. apply (vmm_objects_stay_apart 5 kernel_vm_start lo cnt kernel_vmm [] committed_vmm [new_object_address]).
  - discriminate.
  - reflexivity.
  - destruct kernel_vmm_ok as (a & p & Hok & _). exists a, [p], []. exact Hok.
  - exact Hrun.
Defined.

(** ** A heap out of memory *)

(** The blocks that were allocated are in use, and no more can be. *)
Definition spent_heap : HeapOps nat := {|
  heap_alloc size flags := λ h, Ok (0, h);
  heap_free p := λ h, Ok (tt, h);
|}.
Definition spent_heap_laws : @HeapLaws nat spent_heap.
Proof.
  refine (@Build_HeapLaws _ spent_heap always_heap_in_use _ _ _).
  - intros h (k & Hk & Ha). lia.
  - intros size flags h. exists 0, h. split; [done|]. split; [done|by left].
  - intros p h _. by exists h.
Defined.
Lemma spent_heap_exhausted : @HeapExhausted nat spent_heap.
Proof. intros size flags h. by exists h. Defined.

Lemma vmm_ok_spent s sp a l c fs live us : vmm_ok s sp a l c fs live us →
  @vmm_ok _ _ spent_heap spent_heap_laws _ _ s sp a l c fs live us.
Proof.
  intros [[] [] [] []]. split; by split.
Qed.

#[local] Existing Instances spent_heap spent_heap_laws spent_heap_exhausted.

Lemma vmm_alloc_loses_region_witness : ∃ a p o, vmm_ok kernel_vmm 5 a lo cnt ([] ++ p :: []) [] [] ∧
  wp (vmm_alloc_object 5 VMM_PHYSADDR_NOMAP 5000 3) kernel_vmm (λ r s', r = NULL ∧ objects s' !! p = None ∧
    ∃ a', lists_ok s' 5 a' ([] ++ []) [] []) ∧ objects kernel_vmm !! p = Some o ∧ npages o = 195583.
Proof.
  destruct kernel_vmm_ok as (a & p & Hok%vmm_ok_spent & Hp). exists a, p, kernel_region. split; [exact Hok|].
  split; [|split; [exact Hp|reflexivity]].
  apply (vmm_alloc_loses_region kernel_vmm 5 a lo cnt [] p [] [] [] kernel_region 2 VMM_PHYSADDR_NOMAP 3 5000).
  - exact Hok.
  - reflexivity.
  - left. reflexivity.
  - intros q Hq. by apply not_elem_of_nil in Hq.
  - exact Hp.
  - split; [reflexivity|discriminate].
Defined.
