(* ===== verification/BootInfo.v ===== *)
(** The memory map of the boot loader (src/kernel/arch/i586/bootinfo.c): which
    regions of physical memory are handed to the page allocator. *)
From S2P Require Import Prelude MiscMath Arch HeapIface PmmIface Mmu MmuSafe MmuBoot PString Buddy Pmm PmmPages.

(** ** Regions *)

Record mem_region := MemRegion { base : Z; len : Z }.

Definition exclude_region (addr len exclude_addr exclude_len : Z) : mem_region * mem_region :=
  let start := addr in
  let end_ := u32 (start + len) in
  let exclude_start := exclude_addr in
  let exclude_end := u32 (exclude_start + exclude_len) in
  if (end_ <=? exclude_start) || (exclude_end <=? start) then (MemRegion start len, MemRegion 0 0)
  else
    let end_ := if UINTPTR_MAX - start <? len then UINTPTR_MAX else end_ in
    let exclude_end := if u32 (UINTPTR_MAX - exclude_len) <? exclude_start then UINTPTR_MAX else exclude_end in
    (if start <? exclude_start then MemRegion start (u32 (exclude_start - start)) else MemRegion 0 0,
     if exclude_end <? end_ then MemRegion exclude_end (u32 (end_ - exclude_end)) else MemRegion 0 0).

Inductive ADDRLIMIT_RESULT := ADDRLIMIT_RESULT_IGNORE | ADDRLIMIT_RESULT_WARN | ADDRLIMIT_RESULT_OK.

Definition UINT32_MAX : Z := 2 ^ 32 - 1.

(** The result and the address and length it stores. *)
Definition limit_to_32bit_addr (addr len : Z) : ADDRLIMIT_RESULT * Z * Z :=
  let first_addr := addr in
  let last_addr := u64 (u64 (addr + len) - 1) in
  if UINT32_MAX <? first_addr then (ADDRLIMIT_RESULT_IGNORE, 0, 0)
  else
    let outside_32bit := UINT32_MAX <? last_addr in
    let last_addr := if outside_32bit then UINT32_MAX else last_addr in
    (if outside_32bit then ADDRLIMIT_RESULT_WARN else ADDRLIMIT_RESULT_OK,
     u32 first_addr, u32 (u64 (u64 (last_addr - first_addr) + 1))).

(** [struct multiboot_mmap_entry], as it lies in memory. *)
Record mmap_entry := MmapEntry { e_size : Z; e_addr : Z; e_len : Z; e_type : Z }.
Definition MMAP_ENTRY_SIZE : Z := 24.
Definition MULTIBOOT_MEMORY_AVAILABLE : Z := 1.
Definition mmap_entry_of (bytes : list Z) : mmap_entry :=
  MmapEntry (value_of (take 4 bytes)) (value_of (take 8 (drop 4 bytes)))
            (value_of (take 8 (drop 12 bytes))) (value_of (take 4 (drop 20 bytes))).

Section Boot.
Variables (ARCHI586_KERNEL_PHYSICAL_ADDRESS_BEGIN ARCHI586_KERNEL_PHYSICAL_ADDRESS_END : Z).

Definition REGIONS_TO_EXCLUDE : list mem_region :=
  [MemRegion 0x0 0x100000;
   MemRegion ARCHI586_KERNEL_PHYSICAL_ADDRESS_BEGIN ARCHI586_KERNEL_PHYSICAL_ADDRESS_END].
Definition EXCLUDE_COUNT : nat := 2.
Definition MAX_RESULT_REGIONS : nat := 2 ^ EXCLUDE_COUNT.

(** One entry of [result_regions], which is the list of the entries in use. *)
Definition exclude_from_entry (exclude : mem_region) (j : Z) : M (list mem_region) unit := λ rs,
  r ← rd rs j;
  if len r =? 0 then Ok (tt, rs)
  else
    let '(r1, r2) := exclude_region (base r) (len r) (base exclude) (len exclude) in
    if negb (len r1 =? 0) && negb (len r2 =? 0) then
      rs ← wr rs j r1;
      _ ← assert_ (Z.of_nat (length rs) <? Z.of_nat MAX_RESULT_REGIONS);
      Ok (tt, rs ++ [r2])
    else if negb (len r1 =? 0) then rs ← wr rs j r1; Ok (tt, rs)
    else if negb (len r2 =? 0) then rs ← wr rs j r2; Ok (tt, rs)
    else rs ← wr rs j (MemRegion 0 0); Ok (tt, rs).

Definition exclude_from_all (exclude : mem_region) : M (list mem_region) unit := λ rs,
  for_ (seqZ 0 (Z.of_nat (length rs))) (exclude_from_entry exclude) rs.

Definition exclude_regions (addr len : Z) : res (list mem_region) :=
  '(_, rs) ← for_ REGIONS_TO_EXCLUDE exclude_from_all [MemRegion addr len];
  Ok rs.

(** ** Registration *)

Context {H : Type} `{!HeapOps H}.

(** The page allocator of the memory management unit, with the heap that its
    bitmaps come from. *)
#[export] Instance pmm_heap_pages : PmmOps (pmm * H) := {|
  page_alloc n := λ '(s, h), '(r, s) ← page_alloc n s; Ok (r, (s, h));
  page_free a n := λ '(s, h), '(r, s) ← page_free a n s; Ok (r, (s, h));
|}.
Local Abbreviation MM A := (M (mmu (pmm * H)) A).

Definition in_pages {A} (f : M (pmm * H) A) : MM A := λ m,
  '(a, p) ← f (pages m); Ok (a, with_pages p m).

(** Each page that is registered is at most one step of the allocator. *)
Definition register_region (addr len : Z) : MM unit :=
  let '(addr, len) :=
    if negb (addr mod ARCH_PAGESIZE =? 0) then
      let incr := ARCH_PAGESIZE - addr mod ARCH_PAGESIZE in (u32 (addr + incr), u32 (len - incr))
    else (addr, len) in
  let page_count := len / ARCH_PAGESIZE in
  if page_count =? 0 then mret tt
  else in_pages (pmm_register_mem (S (Z.to_nat page_count)) addr page_count).

Definition process_entry (entry : mmap_entry) : MM unit :=
  match limit_to_32bit_addr (e_addr entry) (e_len entry) with
  | (ADDRLIMIT_RESULT_IGNORE, _, _) => mret tt
  | (_, addr, limited) =>
      if negb (e_type entry =? MULTIBOOT_MEMORY_AVAILABLE) then mret tt
      else
        result_regions ← lift (exclude_regions addr limited);
        for_ result_regions (λ r, register_region (base r) (len r))
  end.

(** The state of the loop is [readlen] and [entryaddr]. *)
Definition mem_map_step (mmaplen : Z) (x : Z * Z) : MM (Z * Z + unit) :=
  let '(readlen, entryaddr) := x in
  if negb (readlen <? mmaplen) then mret (inr tt)
  else
    bytes ← pmemcpy_in entryaddr MMAP_ENTRY_SIZE false;
    let entry := mmap_entry_of bytes in
    let totalsize := u32 (4 + e_size entry) in
    _ ← process_entry entry;
    mret (inl (u32 (readlen + totalsize), u32 (entryaddr + totalsize))).

Definition process_mem_map (mmaplen mmapaddr : Z) : MM unit :=
  loop_m (S (Z.to_nat mmaplen)) (mem_map_step mmaplen) (0, mmapaddr).
End Boot.

(** ** Excluding regions *)

Definition in_region (r : mem_region) (x : Z) : bool := (base r <=? x) && (x <? base r + len r).

(** The page of an address is inside of a region, all of it. *)
Definition page_inside (r : mem_region) (x : Z) : bool :=
  (base r <=? 4096 * (x / 4096)) && (4096 * (x / 4096) + 4096 <=? base r + len r).

(** How many regions of a list contain the page of an address. *)
Definition cover (rs : list mem_region) (x : Z) : Z :=
  foldr (λ r n, (if page_inside r x then 1 else 0) + n) 0 rs.

(** Regions of whole pages that end below 4 GiB. *)
Definition page_region (r : mem_region) : Prop :=
  0 ≤ base r ∧ 0 ≤ len r ∧ base r + len r < 2 ^ 32 ∧ base r mod 4096 = 0 ∧ len r mod 4096 = 0.

(** Regions of any addresses that end below 4 GiB, and not within a partial
    page that they start in. *)
Definition fair_region (r : mem_region) : Prop :=
  0 ≤ base r ∧ 0 ≤ len r ∧ base r + len r < 2 ^ 32 ∧ (base r mod 4096 = 0 ∨ 4096 - base r mod 4096 ≤ len r).

Lemma page_region_inside e x : page_region e → in_region e x = page_inside e x.
Proof.
  unfold page_region, in_region, page_inside. intros (_ & _ & _ & Hb & Hl). apply Z.div_exact in Hb, Hl; [|done..].
  pose proof (Z.div_mod x 4096 ltac:(done)). pose proof (Z.mod_pos_bound x 4096 eq_refl).
  generalize dependent (base e / 4096). generalize dependent (len e / 4096). intros l -> b ->. zcase; cbn; done || lia.
Qed.

Ltac region_case :=
  eexists _, _; split; [done|]; cbn [base len foldr]; split_and!;
  first [lia | done | left; done | dlia |
    intros x; generalize (x / 4096); intros q; zcase; cbn; lia].

Lemma exclude_region_ok r e : fair_region r → page_region e → 0 < len r →
  ∃ r1 r2, exclude_region (base r) (len r) (base e) (len e) = (r1, r2) ∧ fair_region r1 ∧ fair_region r2 ∧
    ∀ x, cover [r1; r2] x = if in_region e x then 0 else cover [r] x.
Proof.
  intros Hfair Hpage. setoid_rewrite (page_region_inside e _ Hpage). revert Hfair Hpage.
  unfold page_region, fair_region, exclude_region, cover, page_inside, UINTPTR_MAX. change (2 ^ 32) with 4294967296.
  intros (Hb & Hl & Hr & Hbm) (He & Hel & Her & Hem & Helm) Hpos.
  apply Z.div_exact in Hem, Helm; [|done..]. set (k := base e / 4096) in *. set (l := len e / 4096) in *. clearbody k l.
  rewrite !(u32_small (_ + _)), (u32_small (_ - len e)) by (change (2 ^ 32) with 4294967296; lia).
  destruct (Z.leb_spec (base r + len r) (base e)); [|destruct (Z.leb_spec (base e + len e) (base r))]; cbn [orb].
  - region_case.
  - region_case.
  - destruct (Z.ltb_spec (4294967296 - 1 - base r) (len r)); [lia|].
    destruct (Z.ltb_spec (4294967296 - 1 - len e) (base e)); [lia|].
    destruct (Z.ltb_spec (base r) (base e)), (Z.ltb_spec (base e + len e) (base r + len r));
      rewrite ?(u32_small (base e - base r)), ?(u32_small (base r + len r - (base e + len e)))
        by (change (2 ^ 32) with 4294967296; lia); region_case.
Qed.

Lemma cover_app rs rs' x : cover (rs ++ rs') x = cover rs x + cover rs' x.
Proof. induction rs as [|r rs IH]; unfold cover in *; cbn; [done|]. lia. Qed.
Lemma cover_nonneg rs x : 0 ≤ cover rs x.
Proof. induction rs as [|r rs IH]; unfold cover in *; cbn; [done|]. case_match; lia. Qed.
Lemma cover_insert rs k r a x : rs !! k = Some r → cover (<[k := a]> rs) x + cover [r] x = cover rs x + cover [a] x.
Proof.
  revert k. induction rs as [|r' rs IH]; intros [|k] Hk; [done..| |].
  - injection Hk as ->. change (<[O := a]> (r :: rs)) with (a :: rs). unfold cover. cbn -[in_region]. lia.
  - specialize (IH k Hk). change (<[S k := a]> (r' :: rs)) with (r' :: <[k := a]> rs). unfold cover in *. cbn -[in_region] in *. lia.
Qed.
Lemma cover_drop rs k r x : rs !! k = Some r → cover (drop k rs) x = cover [r] x + cover (drop (S k) rs) x.
Proof. intros Hk. rewrite (drop_S rs r k Hk). unfold cover. cbn -[in_region]. lia. Qed.

Section Exclude.
Variables (e : mem_region).
Hypothesis He : page_region e.

(** After the first [k] of the entries [rs0]. *)
Record excluded (rs0 : list mem_region) (k : Z) (rs : list mem_region) : Prop := Excluded {
  ex_length : Z.of_nat (length rs0) ≤ Z.of_nat (length rs) ≤ Z.of_nat (length rs0) + k;
  ex_pages : Forall fair_region rs;
  ex_rest j : k ≤ Z.of_nat j < Z.of_nat (length rs0) → rs !! j = rs0 !! j;
  ex_cover x : cover rs x = if in_region e x then cover (drop (Z.to_nat k) rs0) x else cover rs0 x;
}.

Lemma replace_entry rs0 k rs r a tl : 0 ≤ k < Z.of_nat (length rs0) → excluded rs0 k rs → rs !! Z.to_nat k = Some r →
  Forall fair_region (a :: tl) → (length tl ≤ 1)%nat →
  (∀ x, cover (a :: tl) x = if in_region e x then 0 else cover [r] x) →
  excluded rs0 (k + 1) (<[Z.to_nat k := a]> rs ++ tl).
Proof using Type.
  intros Hk [Hl Hp Hrest Hc] Hr [Ha Htl]%Forall_cons Hlen Hcov.
  assert (rs0 !! Z.to_nat k = Some r) as Hr0 by (rewrite <- Hrest by lia; done).
  constructor.
  - rewrite length_app, length_insert. lia.
  - apply Forall_app. split; [by apply Forall_insert|done].
  - intros j Hj. rewrite lookup_app_l by (rewrite length_insert; lia). rewrite list_lookup_insert_ne by lia.
    apply Hrest. lia.
  - intros x. rewrite cover_app. pose proof (cover_insert rs _ r a x Hr) as Hi. specialize (Hcov x). specialize (Hc x).
    pose proof (cover_drop rs0 _ r x Hr0) as Hd. replace (S (Z.to_nat k)) with (Z.to_nat (k + 1)) in Hd by lia.
    change (cover (a :: tl) x) with (cover ([a] ++ tl) x) in Hcov. rewrite cover_app in Hcov.
    destruct (in_region e x); lia.
Qed.

Lemma empty_cover r x : len r = 0 → cover [r] x = 0.
Proof using Type. intros Hl. unfold cover, page_inside. cbn. zcase; cbn; lia. Qed.

Lemma zero_region : fair_region (MemRegion 0 0).
Proof using Type. unfold fair_region. cbn. change (2 ^ 32) with 4294967296. split_and!; [lia..|by left]. Qed.

Lemma exclude_from_entry_ok rs0 k rs : (length rs0 ≤ 2)%nat → 0 ≤ k < Z.of_nat (length rs0) → excluded rs0 k rs →
  wp (exclude_from_entry e k) rs (λ _, excluded rs0 (k + 1)).
Proof using He.
  intros H2 Hk Hex. pose proof (ex_length _ _ _ Hex) as Hl.
  destruct (lookup_lt_is_Some_2 rs (Z.to_nat k)) as [r Hr]; [lia|].
  pose proof (Forall_lookup_1 _ _ _ _ (ex_pages _ _ _ Hex) Hr) as Hpr.
  unfold exclude_from_entry, wp. rewrite (rd_ok rs k r) by (lia || done). unfold mbind, res_bind.
  assert (∀ a, wr rs k a = Ok (<[Z.to_nat k := a]> rs)) as Hwr by (intros a; apply wr_ok; lia).
  destruct (Z.eqb_spec (len r) 0) as [Hz|Hz].
  - eexists _, _. split; [done|]. rewrite <- (list_insert_id rs (Z.to_nat k) r Hr), <- (app_nil_r (<[_ := _]> _)).
    apply (replace_entry rs0 k rs r); try done; [by constructor|cbn; lia|].
    intros x. rewrite (empty_cover r x Hz). by case_match.
  - destruct (exclude_region_ok r e Hpr He) as (r1 & r2 & -> & Hp1 & Hp2 & Hcov); [destruct Hpr; lia|].
    change (cover [r1; r2]) with (λ x, cover ([r1] ++ [r2]) x) in Hcov. cbv beta in Hcov. setoid_rewrite cover_app in Hcov.
    destruct (Z.eqb_spec (len r1) 0) as [E1|E1], (Z.eqb_spec (len r2) 0) as [E2|E2]; cbn [negb andb]; rewrite Hwr.
    + eexists _, _. split; [done|]. rewrite <- (app_nil_r (<[_ := _]> _)).
      apply (replace_entry rs0 k rs r); try done; [repeat constructor; apply zero_region|cbn; lia|].
      intros x. rewrite <- Hcov, (empty_cover r1), (empty_cover r2) by done. by apply empty_cover.
    + eexists _, _. split; [done|]. rewrite <- (app_nil_r (<[_ := _]> _)).
      apply (replace_entry rs0 k rs r); try done; [by constructor|cbn; lia|].
      intros x. rewrite <- Hcov, (empty_cover r1) by done. done.
    + eexists _, _. split; [done|]. rewrite <- (app_nil_r (<[_ := _]> _)).
      apply (replace_entry rs0 k rs r); try done; [by constructor|cbn; lia|].
      intros x. rewrite <- Hcov, (empty_cover r2) by done. lia.
    + assert (assert_ (Z.of_nat (length (<[Z.to_nat k := r1]> rs)) <? Z.of_nat MAX_RESULT_REGIONS) = Ok tt) as ->.
      { unfold assert_. rewrite length_insert. change (Z.of_nat MAX_RESULT_REGIONS) with 4. zcase; [done|lia]. }
      eexists _, _. split; [done|].
      apply (replace_entry rs0 k rs r); try done; [by repeat (apply Forall_cons_2; [done|]); apply Forall_nil_2|].
      intros x. rewrite <- Hcov. cbn. lia.
Qed.

Lemma exclude_from_all_ok rs : (length rs ≤ 2)%nat → Forall fair_region rs →
  wp (exclude_from_all e) rs (λ _ rs', (length rs' ≤ 2 * length rs)%nat ∧ Forall fair_region rs' ∧
    ∀ x, cover rs' x = if in_region e x then 0 else cover rs x).
Proof using He.
  intros Hl Hp. unfold exclude_from_all.
  eapply wp_mono; [apply (wp_for_seqZ _ _ (excluded rs) _ (λ _, excluded rs (Z.of_nat (length rs))))|]; [lia|..].
  - constructor; [lia|done|done|]. intros x. cbn. rewrite drop_0. by case_match.
  - intros k s Hk Hs. by apply exclude_from_entry_ok.
  - done.
  - intros _ rs' [Hl' Hp' _ Hc]. split; [lia|]. split; [done|]. intros x. rewrite Hc, drop_ge by lia. done.
Qed.
End Exclude.

Lemma exclude_regions_ok kbegin kend addr len : fair_region (MemRegion addr len) → page_region (MemRegion kbegin kend) →
  ∃ rs, exclude_regions kbegin kend addr len = Ok rs ∧ Forall fair_region rs ∧
    ∀ x, cover rs x = if (x <? 0x100000) || in_region (MemRegion kbegin kend) x then 0 else cover [MemRegion addr len] x.
Proof.
  intros Hp Hk. unfold exclude_regions, REGIONS_TO_EXCLUDE. cbn [for_].
  assert (page_region (MemRegion 0 0x100000)) as H0 by (unfold page_region; cbn; split_and!; done || lia).
  destruct (exclude_from_all_ok _ H0 [MemRegion addr len]) as ([] & rs1 & H1 & Hl1 & Hp1 & Hc1); [cbn; lia|by constructor|].
  destruct (exclude_from_all_ok _ Hk rs1) as ([] & rs2 & H2 & Hl2 & Hp2 & Hc2); [cbn in Hl1; lia|done|].
  exists rs2. rewrite (M_bind_step _ _ _ _ _ H1), (M_bind_step _ _ _ _ _ H2). split; [done|]. split; [done|].
  intros x. rewrite Hc2, Hc1. destruct (in_region (MemRegion kbegin kend) x); [by rewrite orb_true_r|].
  rewrite orb_false_r. unfold in_region. cbn -[cover]. destruct (Z.leb_spec 0 x); [done|].
  destruct Hp as [Hb _]. cbn [base] in Hb. unfold cover, page_inside. cbn. change 1048576 with 0x100000. zcase; cbn; done || dlia.
Qed.

(** A region that reaches 4 GiB: its end is 0, and nothing is excluded. *)
Lemma exclude_regions_top kbegin kend addr : page_region (MemRegion kbegin kend) → 0 < addr < 2 ^ 32 →
  exclude_regions kbegin kend addr (2 ^ 32 - addr) = Ok [MemRegion addr (2 ^ 32 - addr)].
Proof.
  intros (Hk & _) Ha. cbn [base] in Hk. assert (∀ e, 0 ≤ base e → exclude_from_all e [MemRegion addr (2 ^ 32 - addr)] = Ok (tt, [MemRegion addr (2 ^ 32 - addr)])) as H.
  { intros e He. unfold exclude_from_all. change (seqZ 0 (Z.of_nat (length [MemRegion addr (2 ^ 32 - addr)]))) with [0]. cbn [for_].
    assert (exclude_from_entry e 0 [MemRegion addr (2 ^ 32 - addr)] = Ok (tt, [MemRegion addr (2 ^ 32 - addr)])) as E.
    { unfold exclude_from_entry. rewrite (rd_ok _ 0 (MemRegion addr (2 ^ 32 - addr))) by done. unfold mbind, res_bind. cbn [base len].
      destruct (Z.eqb_spec (2 ^ 32 - addr) 0); [lia|]. unfold exclude_region.
      replace (addr + (2 ^ 32 - addr)) with (2 ^ 32) by lia. change (u32 (2 ^ 32)) with 0.
      destruct (Z.leb_spec 0 (base e)); [|lia]. cbn [orb len]. by destruct (Z.eqb_spec (2 ^ 32 - addr) 0); [lia|]. }
    by rewrite (M_bind_step _ _ _ _ _ E). }
  unfold exclude_regions, REGIONS_TO_EXCLUDE. cbn [for_]. rewrite (M_bind_step _ _ _ _ _ (H (MemRegion 0 0x100000) ltac:(done))).
  by rewrite (M_bind_step _ _ _ _ _ (H (MemRegion kbegin kend) Hk)).
Qed.

(** ** Registering regions *)

(** The invariant of the page tables depends only on the words of the tables,
    and on the pages that are available. *)
Lemma mmu_wf_transport {P P'} `{!PmmOps P, !PmmLaws P, !PmmOps P', !PmmLaws P'} (m : mmu P) (m' : mmu P') :
  mmu_wf m → cr3 m' = cr3 m → tlb m' = tlb m → (∀ a, is_table_word m a → phys_mem m' a = phys_mem m a) →
  pages_ok (pages m') →
  (∀ k, is_index k → present (pd m k) → ¬ page_available (pages m') (Mmu.page_of (pd m k))) →
  mmu_wf m' ∧ ∀ k, is_index k → pd m' k = pd m k.
Proof.
  intros [[H1 H2 H3 H4 H5 H6] Htlb] Hcr Ht Hmem Hok Hav.
  assert (∀ k, is_index k → pd m' k = pd m k) as Hpd.
  { intros k Hk. unfold pd. rewrite Hcr. apply Hmem. exists 1023. destruct H2 as [Hp Hs].
    split; [apply is_index_last|]. rewrite Hs. unfold is_index in Hk. split; [done|lia]. }
  assert (∀ q, is_page q → entry m' q = entry m q) as Hen.
  { intros q Hq. destruct (page_split q Hq) as (Hi & Hj & _). unfold entry. rewrite Hpd by done.
    destruct (has (pd m (q / 1024)) _) eqn:Hp; [|done]. f_equal. unfold pt. rewrite Hpd by done. apply Hmem.
    exists (q / 1024). split; [done|]. split; [done|]. unfold is_index in Hj. lia. }
  split; [|done]. split.
  - constructor; [by rewrite Hcr| | | | |done].
    + rewrite Hpd, Hcr by apply is_index_last. done.
    + intros i Hi. rewrite Hpd by done. by apply H3.
    + intros i j Hi Hj. rewrite !Hpd by done. by apply H4.
    + intros i Hi. rewrite Hpd by done. by apply Hav.
  - intros q e Hq. rewrite Ht in Hq. destruct (Htlb q e Hq) as (Hp & e' & He' & Hs). split; [done|]. exists e'. by rewrite Hen.
Qed.

Section Register.
Context {H : Type} `{!HeapOps H, !HeapSucceeds H}.
Local Abbreviation mmu := (mmu (pmm * H)).
Implicit Types m : mmu.

#[export] Instance pmm_heap_laws : PmmLaws (pmm * H).
Proof using Type.
  refine (Build_PmmLaws _ _ (λ p, pmm_ok p.1) (λ p, available p.1) (λ p, owned p.1) _ _ _).
  - intros [s h] a. apply (@page_owned_not_available pmm _ pmm_pages_laws s a).
  - intros [s h] Hp. destruct (@page_alloc_law pmm _ pmm_pages_laws s Hp) as (a & n & s' & Ha & Hp' & Hcase). exists a, n, (s', h).
    cbn [page_alloc pmm_heap_pages]. rewrite Ha. split; [done|]. split; [done|].
    destruct Hcase as [[-> ->]|Hcase]; [by left|by right].
  - intros [s h] a Hp Ho. destruct (@page_free_law pmm _ pmm_pages_laws s a Hp Ho) as (s' & Hf & Hp' & Hcase). exists (s', h).
    cbn [page_free pmm_heap_pages]. rewrite Hf. done.
Defined.

Definition is_managed m (x : Z) : Prop := managed (s_firstpool (pages m).1) x.

(** No page table is in a region. *)
Definition tables_outside m (r : mem_region) : Prop :=
  ∀ k, is_index k → present (pd m k) → page_inside r (Mmu.page_of (pd m k)) = false.

Lemma pools_apart pools ts b n : pools_wf pools ts → 0 < n →
  (∀ x, b ≤ x < b + 4096 * n → ¬ managed pools x) →
  Forall (λ p, pool_limit p ≤ b ∨ b + ARCH_PAGESIZE * n ≤ base_addr p) pools.
Proof using Type.
  intros Hwf Hn. induction Hwf as [|pool L t pools ts Hp _ _ IH]; intros Hx; [done|]. constructor.
  - pose proof (pool_pages _ _ _ Hp) as Hpg. pose proof (pow2_pos (Z.of_nat L) ltac:(lia)).
    unfold pool_limit, ARCH_PAGESIZE. destruct (Z.le_gt_cases (base_addr pool + 4096 * page_count pool) b); [by left|].
    destruct (Z.le_gt_cases (b + 4096 * n) (base_addr pool)); [by right|]. exfalso.
    apply (Hx (Z.max b (base_addr pool))); [lia|]. unfold managed. rewrite Exists_cons. left.
    unfold in_pool, pool_limit, ARCH_PAGESIZE. lia.
  - apply IH. intros x Hr Hm. apply (Hx x Hr). unfold managed. rewrite Exists_cons. by right.
Qed.

(** The whole pages of a region. *)
Lemma whole_pages r : fair_region r → ∃ b n, 0 ≤ b ∧ 0 ≤ n ∧ b mod 4096 = 0 ∧ (0 < n → b + 4096 * n < 2 ^ 32) ∧
  (∀ m, register_region (base r) (len r) m = if n =? 0 then Ok (tt, m) else in_pages (pmm_register_mem (S (Z.to_nat n)) b n) m) ∧
  ∀ x, page_inside r x = true ↔ b ≤ x < b + 4096 * n.
Proof using Type.
  unfold fair_region, page_inside, register_region. change ARCH_PAGESIZE with 4096. change (2 ^ 32) with 4294967296.
  intros (Hb & Hl & Hend & Hr). set (m := base r mod 4096) in *. pose proof (Z.mod_pos_bound (base r) 4096 eq_refl) as Hm. fold m in Hm.
  assert (base r = 4096 * (base r / 4096) + m) as Eb by (apply Z.div_mod; done). set (k := base r / 4096) in *. clearbody k m.
  assert (∀ b l, 0 ≤ l → ∀ x, (4096 * b ≤ 4096 * (x / 4096) ∧ 4096 * (x / 4096) + 4096 ≤ 4096 * b + l) ↔ 4096 * b ≤ x < 4096 * b + 4096 * (l / 4096)) as Hin.
  { intros b l H0 x. split; intros; dlia. }
  destruct (Z.eqb_spec m 0) as [E|E]; cbn [negb].
  - exists (4096 * k), (len r / 4096). rewrite Z.mul_comm at 2. rewrite Z_mod_mult. split_and!; try done; try dlia.
    + intros s. replace (4096 * k) with (base r) by lia. by destruct (len r / 4096 =? 0).
    + intros x. rewrite <- (Hin k (len r) Hl x), andb_true_iff, !Z.leb_le. replace (4096 * k) with (base r) by lia. done.
  - assert (4096 - m ≤ len r) as Hlen by (by destruct Hr). exists (4096 * (k + 1)), ((len r - (4096 - m)) / 4096).
    rewrite Z.mul_comm at 2. rewrite Z_mod_mult. split_and!; try done; try dlia.
    + intros s. rewrite (u32_small (len r - _)) by (change (2 ^ 32) with 4294967296; lia).
      destruct (Z.eqb_spec ((len r - (4096 - m)) / 4096) 0); [done|].
      rewrite (u32_small (base r + _)) by (change (2 ^ 32) with 4294967296; dlia). by replace (base r + (4096 - m)) with (4096 * (k + 1)) by lia.
    + intros x. rewrite <- (Hin (k + 1) (len r - (4096 - m)) ltac:(lia) x), andb_true_iff, !Z.leb_le.
      generalize (x / 4096). intros q. lia.
Qed.

Lemma register_region_ok m r : scratch_ready m → fair_region r →
  (∀ x, page_inside r x = true → 0 < x ∧ ¬ is_managed m x) → tables_outside m r →
  wp (register_region (base r) (len r)) m (λ _ m', scratch_ready m' ∧
    (∀ k, is_index k → pd m' k = pd m k) ∧ phys_mem m' = phys_mem m ∧
    ∀ x, is_managed m' x ↔ is_managed m x ∨ page_inside r x = true).
Proof using HeapSucceeds0.
  intros [Hwf Hpr] Hfair Hnew Htab. destruct (whole_pages r Hfair) as (b & n & Hb & Hn & Hbm & Hend & Ereg & Hin).
  unfold wp. setoid_rewrite Ereg. setoid_rewrite Hin. clear Ereg. destruct (Z.eqb_spec n 0) as [->|Hnz].
  - eexists _, _. split; [done|]. split; [done|]. split; [done|]. split; [done|]. intros x. split; [by left|intros [|]; [done|lia]].
  - destruct (pages m) as [s h] eqn:Hpages. pose proof (wf_pages m (proj1 Hwf)) as Hok. rewrite Hpages in Hok.
    destruct Hok as [ts Hts]. cbn [fst] in Hts.
    assert (∀ x, b ≤ x < b + 4096 * n → 0 < x ∧ ¬ managed (s_firstpool s) x) as Hnew'.
    { intros x Hx%Hin. destruct (Hnew x Hx) as [Hx0 Hm]. split; [done|]. unfold is_managed in Hm. by rewrite Hpages in Hm. }
    destruct (pmm_register_mem_ok s ts h b n (S (Z.to_nat n))) as (pools' & h' & ts' & Hreg & Hwf' & Hman & Hused & _);
      [done|apply (Hnew' b); lia|lia|done|unfold ARCH_PAGESIZE; lia|lia|apply (pools_apart _ ts); [done|lia|intros x Hx; by apply Hnew']|].
    exists tt, (with_pages (Pmm pools' (eflags_if s), h') m). split.
    { unfold in_pages. rewrite Hpages. unfold mbind, res_bind. by rewrite Hreg. }
    destruct (mmu_wf_transport m (with_pages (Pmm pools' (eflags_if s), h') m)) as [Hwf2 Hpd]; try done.
    { by exists ts'. }
    { intros k Hk Hp Hav. apply (wf_not_available m (proj1 Hwf) k Hk Hp). rewrite Hpages.
      apply (available_iff (Pmm pools' (eflags_if s)) ts' _ Hwf') in Hav as (Hal & Hm & Hu).
      apply (available_iff s ts _ Hts). cbn [s_firstpool] in *. split; [done|]. split; [|by rewrite <- Hused].
      apply Hman in Hm as [Hm|Hm]; [done|]. apply Hin in Hm. by rewrite (Htab k Hk Hp) in Hm. }
    split; [split; [done|by rewrite Hpd by apply scratch_index]|]. split; [done|]. split; [done|].
    intros x. unfold is_managed. cbn [pages with_pages fst s_firstpool]. by rewrite Hman, Hpages.
Qed.

Lemma register_regions_ok rs : ∀ m, scratch_ready m → Forall fair_region rs → (∀ x, cover rs x ≤ 1) →
  (∀ x, 0 < cover rs x → 0 < x ∧ ¬ is_managed m x) →
  (∀ k, is_index k → present (pd m k) → cover rs (Mmu.page_of (pd m k)) = 0) →
  wp (for_ rs (λ r, register_region (base r) (len r))) m (λ _ m', scratch_ready m' ∧
    (∀ k, is_index k → pd m' k = pd m k) ∧ phys_mem m' = phys_mem m ∧
    ∀ x, is_managed m' x ↔ is_managed m x ∨ 0 < cover rs x).
Proof using HeapSucceeds0.
  induction rs as [|r rs IH]; intros m Hr Hrs H1 Hnew Htab.
  - apply wp_ret. split_and!; try done. intros x. unfold cover. cbn. split; [by left|]. intros [|]; [done|lia].
  - apply Forall_cons in Hrs as [Hpr Hrs].
    assert (∀ x, cover (r :: rs) x = (if page_inside r x then 1 else 0) + cover rs x) as Hcons by done.
    pose proof (λ x, cover_nonneg rs x) as Hnn. cbn [for_]. apply wp_bind.
    eapply wp_mono; [apply (register_region_ok m r Hr Hpr)|].
    + intros x Hx. apply Hnew. rewrite Hcons, Hx. specialize (Hnn x). lia.
    + intros k Hk Hp. specialize (Htab k Hk Hp). rewrite Hcons in Htab. specialize (Hnn (Mmu.page_of (pd m k))).
      destruct (page_inside r _); [lia|done].
    + intros [] m1 (Hr1 & Hpd1 & Hm1 & Hman1). eapply wp_mono; [apply (IH m1 Hr1 Hrs)|].
      * intros x. specialize (H1 x). rewrite Hcons in H1. destruct (page_inside r x); lia.
      * intros x Hx. specialize (H1 x). rewrite Hcons in H1. destruct (Hnew x) as [Hx0 Hnm].
        { rewrite Hcons. destruct (page_inside r x); lia. }
        split; [done|]. rewrite Hman1. intros [Hm|Hin]; [done|]. rewrite Hin in H1. lia.
      * intros k Hk. rewrite Hpd1 by done. intros Hp. specialize (Htab k Hk Hp). rewrite Hcons in Htab.
        specialize (Hnn (Mmu.page_of (pd m k))). destruct (page_inside r _); lia.
      * intros [] m2 (Hr2 & Hpd2 & Hm2 & Hman2). split; [done|]. split; [intros k Hk; by rewrite Hpd2, Hpd1|].
        split; [by rewrite Hm2|]. intros x. rewrite Hman2, Hman1, Hcons. specialize (Hnn x).
        destruct (page_inside r x).
        -- assert (0 < 1 + cover rs x) by lia. split; [by right|]. intros _. left. by right.
        -- rewrite Z.add_0_l. split; [intros [[|]|]; [by left|discriminate|by right]|intros [|]; [by left; left|by right]].
Qed.

(** *** The entries of the memory map *)

(** The addresses below 4 GiB of the pages that an entry says are available,
    all of the page. *)
Definition usable (e : mmap_entry) (x : Z) : bool :=
  (e_type e =? MULTIBOOT_MEMORY_AVAILABLE) && (x <? 2 ^ 32) && page_inside (MemRegion (e_addr e) (e_len e)) x.

(** The fields have their width; available memory begins at 4 GiB or later, or
    ends below 4 GiB and not within a partial page that it begins in. *)
Definition entry_ok (e : mmap_entry) : Prop :=
  0 ≤ e_addr e < 2 ^ 64 ∧ 0 ≤ e_len e < 2 ^ 64 ∧ 0 ≤ e_type e < 2 ^ 32 ∧ 20 ≤ e_size e < 2 ^ 31 ∧
  (e_type e = MULTIBOOT_MEMORY_AVAILABLE → 2 ^ 32 ≤ e_addr e ∨ fair_region (MemRegion (e_addr e) (e_len e))).

Lemma limit_below addr len : 0 ≤ addr → 0 ≤ len → addr + len < 2 ^ 32 →
  ∃ r, r ≠ ADDRLIMIT_RESULT_IGNORE ∧ limit_to_32bit_addr addr len = (r, addr, len).
Proof using Type.
  change (2 ^ 32) with 4294967296. intros Ha Hl Hal. unfold limit_to_32bit_addr, UINT32_MAX. change (2 ^ 32 - 1) with 4294967295.
  destruct (Z.ltb_spec 4294967295 addr); [lia|]. rewrite (u32_small addr) by (change (2 ^ 32) with 4294967296; lia).
  unfold u64. rewrite (Z.mod_small (addr + len)) by lia.
  destruct (decide (addr + len = 0)) as [E|E].
  - assert (addr = 0) as -> by lia. assert (len = 0) as -> by lia. eexists. split; [|reflexivity]. done.
  - rewrite (Z.mod_small (addr + len - 1)) by lia. destruct (Z.ltb_spec 4294967295 (addr + len - 1)); [lia|].
    eexists. split; [|f_equal]; [done|]. replace ((addr + len - 1 - addr) mod 2 ^ 64 + 1) with ((len - 1) mod 2 ^ 64 + 1) by (do 2 f_equal; lia).
    rewrite Zplus_mod_idemp_l, Z.sub_add, Z.mod_small by lia. apply u32_small. change (2 ^ 32) with 4294967296. lia.
Qed.

(** What reaches 4 GiB is cut off there. *)
Lemma limit_clamps addr len : 0 < addr < 2 ^ 32 → 2 ^ 32 ≤ addr + len ≤ 2 ^ 64 →
  ∃ r, r ≠ ADDRLIMIT_RESULT_IGNORE ∧ limit_to_32bit_addr addr len = (r, addr, 2 ^ 32 - addr).
Proof using Type.
  unfold limit_to_32bit_addr, UINT32_MAX, u64. change (2 ^ 32) with 4294967296. change (2 ^ 64) with 18446744073709551616.
  intros Ha Hl. destruct (Z.ltb_spec (4294967296 - 1) addr); [lia|]. rewrite (u32_small addr) by (change (2 ^ 32) with 4294967296; lia).
  rewrite Zminus_mod_idemp_l, (Z.mod_small (addr + len - 1)) by lia.
  destruct (Z.ltb_spec (4294967296 - 1) (addr + len - 1)).
  - exists ADDRLIMIT_RESULT_WARN. split; [done|]. f_equal. rewrite !Z.mod_small by (rewrite ?Z.mod_small; lia).
    rewrite u32_small by (change (2 ^ 32) with 4294967296; lia). lia.
  - exists ADDRLIMIT_RESULT_OK. split; [done|]. f_equal. rewrite !Z.mod_small by (rewrite ?Z.mod_small; lia).
    rewrite u32_small by (change (2 ^ 32) with 4294967296; lia). lia.
Qed.

Section Map.
Variables (kbegin kend : Z).
Hypothesis Hkernel : page_region (MemRegion kbegin kend).

Definition is_excluded (x : Z) : bool := (x <? 0x100000) || in_region (MemRegion kbegin kend) x.

(** What stays the same while memory is registered. *)
Record boot_same m m' : Prop := BootSame {
  bs_ready : scratch_ready m';
  bs_pd k : is_index k → pd m' k = pd m k;
  bs_mem a : a ≠ scratch_word m → phys_mem m' a = phys_mem m a;
}.

Lemma boot_same_trans m1 m2 m3 : boot_same m1 m2 → boot_same m2 m3 → boot_same m1 m3.
Proof using Type.
  intros [_ Hp1 Hm1] [Hr2 Hp2 Hm2]. constructor; [done|intros k Hk; by rewrite Hp2, Hp1|].
  intros a Ha. rewrite Hm2, Hm1; [done..|]. unfold scratch_word in *. by rewrite Hp1 by apply scratch_index.
Qed.

(** The page tables are not in memory that is handed out. *)
Definition tables_excluded m : Prop := ∀ k, is_index k → present (pd m k) → is_excluded (Mmu.page_of (pd m k)) = true.

Lemma boot_same_excluded m m' : boot_same m m' → tables_excluded m → tables_excluded m'.
Proof using Type. intros [_ Hp _] Ht k Hk. rewrite Hp by done. by apply Ht. Qed.

Lemma process_entry_ok e m : entry_ok e → scratch_ready m → tables_excluded m →
  (∀ x, usable e x = true → ¬ is_managed m x) →
  wp (process_entry kbegin kend e) m (λ _ m', boot_same m m' ∧
    ∀ x, is_managed m' x ↔ is_managed m x ∨ (usable e x && negb (is_excluded x)) = true).
Proof using Hkernel HeapSucceeds0.
  intros (Ha & Hl & Ht & _ & Hreg) Hr Htab Hnew.
  assert ((∀ x, (usable e x && negb (is_excluded x)) = false) →
    wp (mret tt) m (λ _ m', boot_same m m' ∧
    ∀ x, is_managed m' x ↔ is_managed m x ∨ (usable e x && negb (is_excluded x)) = true)) as Hnone.
  { intros Hno. apply wp_ret. split; [by constructor|]. intros x. rewrite Hno. split; [by left|]. by intros [|]. }
  unfold process_entry. destruct (Z.eqb_spec (e_type e) MULTIBOOT_MEMORY_AVAILABLE) as [Hty|Hty]; cbn [negb].
  2:{ assert (∀ x, (usable e x && negb (is_excluded x)) = false) as Hno.
      { intros x. unfold usable. by destruct (Z.eqb_spec (e_type e) MULTIBOOT_MEMORY_AVAILABLE). }
      destruct (limit_to_32bit_addr _ _) as [[[| |] a] l]; by apply Hnone. }
  destruct (Hreg Hty) as [Hfar|Hpr].
  - assert (limit_to_32bit_addr (e_addr e) (e_len e) = (ADDRLIMIT_RESULT_IGNORE, 0, 0)) as ->.
    { unfold limit_to_32bit_addr, UINT32_MAX. by destruct (Z.ltb_spec (2 ^ 32 - 1) (e_addr e)); [|lia]. }
    apply Hnone. intros x. unfold usable, page_inside. cbn [base len].
    destruct (Z.ltb_spec x (2 ^ 32)); [|by rewrite andb_false_r]. destruct (Z.leb_spec (e_addr e) (4096 * (x / 4096))); [dlia|].
    by rewrite andb_false_r.
  - pose proof Hpr as (Hb0 & Hl0 & Hend & _). cbn [base len] in *.
    destruct (limit_below (e_addr e) (e_len e) Hb0 Hl0 Hend) as (r & Hrne & ->).
    destruct (exclude_regions_ok kbegin kend _ _ Hpr Hkernel) as (rs & Hrs & Hp & Hcov).
    assert (∀ x, cover rs x = if usable e x && negb (is_excluded x) then 1 else 0) as Hcov'.
    { intros x. rewrite Hcov. fold (is_excluded x). destruct (is_excluded x); [by rewrite andb_false_r|].
      rewrite andb_true_r. unfold usable, cover. cbn [foldr]. rewrite Hty. cbn [Z.eqb andb].
      destruct (page_inside (MemRegion (e_addr e) (e_len e)) x) eqn:Hin; [|by rewrite andb_false_r].
      assert (x < 2 ^ 32) as Hx by (revert Hin; unfold page_inside; cbn [base len]; zcase; cbn; done || dlia).
      by destruct (Z.ltb_spec x (2 ^ 32)); [|lia]. }
    assert (wp (result_regions ← lift (exclude_regions kbegin kend (e_addr e) (e_len e));
      for_ result_regions (λ r, register_region (base r) (len r))) m (λ _ m', boot_same m m' ∧
      ∀ x, is_managed m' x ↔ is_managed m x ∨ (usable e x && negb (is_excluded x)) = true)) as Hdo.
    2:{ by destruct r. }
    apply wp_bind, (wp_lift _ rs); [done|]. eapply wp_mono; [apply register_regions_ok; try done|].
    + intros x. rewrite Hcov'. case_match; lia.
    + intros x. rewrite Hcov'. destruct (usable e x && negb (is_excluded x)) eqn:E; [|lia]. intros _.
      apply andb_prop in E as [Hu Hne]. split; [|by apply Hnew].
      unfold is_excluded in Hne. destruct (Z.ltb_spec x 0x100000); [done|lia].
    + intros k Hk Hp'. rewrite Hcov', (Htab k Hk Hp'). by rewrite andb_false_r.
    + intros [] m' (Hr' & Hpd & Hmem & Hman). split; [constructor; [done|done|by rewrite Hmem]|].
      intros x. rewrite Hman, Hcov'. destruct (usable e x && negb (is_excluded x)); [|split; intros [|]; [by left|lia|by left|discriminate]].
      split; intros _; by right.
Qed.

(** *** The memory map in memory *)

Definition entry_bytes (e : mmap_entry) (extra : list Z) : list Z :=
  le_bytes 4 (e_size e) ++ le_bytes 8 (e_addr e) ++ le_bytes 8 (e_len e) ++ le_bytes 4 (e_type e) ++ extra.
Definition map_bytes (es : list (mmap_entry * list Z)) : list Z := concat ((λ '(e, extra), entry_bytes e extra) <$> es).

(** An entry may be longer than what the kernel knows of it. *)
Definition stored_entry_ok (e : mmap_entry * list Z) : Prop :=
  entry_ok e.1 ∧ e_size e.1 = 20 + Z.of_nat (length e.2).

Definition usable_count (es : list (mmap_entry * list Z)) (x : Z) : Z :=
  foldr (λ e n, (if usable e.1 x then 1 else 0) + n) 0 es.

Lemma value_of_le n v : 0 ≤ v < 2 ^ (8 * Z.of_nat n) → value_of (le_bytes n v) = v.
Proof using Type.
  revert v. induction n as [|n IH]; intros v Hv; [cbn in *; lia|]. cbn [le_bytes value_of foldr].
  fold (value_of (le_bytes n (v / 256))). rewrite IH.
  - change (2 ^ 8) with 256. dlia.
  - replace (8 * Z.of_nat (S n)) with (8 + 8 * Z.of_nat n) in Hv by lia. rewrite Z.pow_add_r in Hv by lia.
    change (2 ^ 8) with 256 in Hv. split; [dlia|]. apply Z.div_lt_upper_bound; lia.
Qed.

Lemma entry_decoded e extra : entry_ok e → mmap_entry_of (take 24 (entry_bytes e extra)) = e.
Proof using Type.
  intros (Ha & Hl & Ht & Hs & _). unfold mmap_entry_of, entry_bytes.
  change (2 ^ 32) with (2 ^ (8 * Z.of_nat 4)) in Ht. change (2 ^ 64) with (2 ^ (8 * Z.of_nat 8)) in Ha, Hl.
  assert (0 ≤ e_size e < 2 ^ (8 * Z.of_nat 4)) as Hs' by (change (2 ^ (8 * Z.of_nat 4)) with (2 * 2 ^ 31); lia).
  destruct e as [size addr len type]. cbn [e_size e_addr e_len e_type] in *.
  transitivity (MmapEntry (value_of (le_bytes 4 size)) (value_of (le_bytes 8 addr)) (value_of (le_bytes 8 len)) (value_of (le_bytes 4 type)));
    [reflexivity|]. by rewrite !value_of_le.
Qed.

Lemma map_entry_length e : stored_entry_ok e → Z.of_nat (length (entry_bytes e.1 e.2)) = 4 + e_size e.1 ∧
  24 ≤ Z.of_nat (length (entry_bytes e.1 e.2)).
Proof using Type. intros [(_ & _ & _ & Hs & _) He]. unfold entry_bytes. rewrite !length_app, !length_le_bytes. lia. Qed.

(** The map lies at an address; it is not where the scratch page is entered. *)
Definition map_at m (a : Z) (es : list (mmap_entry * list Z)) : Prop :=
  0 ≤ a ∧ a + Z.of_nat (length (map_bytes es)) < 2 ^ 32 ∧ off_scratch m a (Z.of_nat (length (map_bytes es))) ∧
  phys_byte m <$> seqZ a (Z.of_nat (length (map_bytes es))) = map_bytes es.

Lemma map_at_cons m a e es : stored_entry_ok e → map_at m a (e :: es) → map_at m (a + Z.of_nat (length (entry_bytes e.1 e.2))) es ∧
  in_memory a 24 ∧ off_scratch m a 24 ∧ phys_byte m <$> seqZ a 24 = take 24 (entry_bytes e.1 e.2).
Proof using Type.
  intros He (Ha & Hin & Hoff & Hb). destruct e as [e extra]. destruct (map_entry_length _ He) as [Hl H24]. cbn [fst snd] in *.
  unfold map_bytes in *. cbn [fmap list_fmap concat] in *. set (eb := entry_bytes e extra) in *.
  set (rest := concat _) in *. rewrite length_app, Nat2Z.inj_add in *. unfold in_memory in *.
  change (2 ^ 32) with 4294967296 in *. rewrite (seqZ_app a) in Hb by lia. rewrite fmap_app in Hb.
  apply app_inj_1 in Hb as [Hb1 Hb2]; [|by rewrite length_fmap, length_seqZ, Nat2Z.id].
  split.
  - unfold map_at, map_bytes. fold rest. change (2 ^ 32) with 4294967296. split; [lia|]. split; [lia|].
    split; [intros x Hx; apply Hoff; lia|done].
  - unfold is_u32. change (2 ^ 32) with 4294967296. split; [lia|]. split; [intros x Hx; apply Hoff; lia|].
    rewrite <- Hb1. replace (Z.of_nat (length eb)) with (24 + (Z.of_nat (length eb) - 24)) by lia.
    rewrite (seqZ_app a 24), fmap_app by lia. rewrite take_app_length'; [done|]. by rewrite length_fmap, length_seqZ.
Qed.

Lemma usable_count_cons e es x : usable_count (e :: es) x = (if usable e.1 x then 1 else 0) + usable_count es x.
Proof using Type. done. Qed.
Lemma usable_count_nonneg es x : 0 ≤ usable_count es x.
Proof using Type. induction es as [|e es IH]; [done|]. rewrite usable_count_cons. case_match; lia. Qed.

Lemma boot_same_scratch m m' : boot_same m m' → scratch_word m' = scratch_word m.
Proof using Type. intros [_ Hp _]. unfold scratch_word. by rewrite Hp by apply scratch_index. Qed.

(** The map stays where it is while memory is registered. *)
Lemma map_at_same m m' a es : boot_same m m' → map_at m a es → map_at m' a es.
Proof using Type.
  intros Hs (Ha & Hl & Hoff & Hb). pose proof (boot_same_scratch _ _ Hs) as Hsw. split; [done|]. split; [done|]. split.
  - intros x Hx. rewrite Hsw. by apply Hoff.
  - rewrite <- Hb at 2. apply list_fmap_ext. intros k x Hx. apply lookup_seqZ in Hx. unfold phys_byte.
    rewrite (bs_mem _ _ Hs); [done|]. apply Hoff. lia.
Qed.

Lemma map_bytes_length e es : length (map_bytes (e :: es)) = (length (entry_bytes e.1 e.2) + length (map_bytes es))%nat.
Proof using Type. destruct e. unfold map_bytes. cbn. by rewrite length_app. Qed.

(** Reading an entry keeps everything but the entry of the scratch page. *)
Lemma read_entry_ok m a e es : scratch_ready m → stored_entry_ok e → map_at m a (e :: es) →
  wp (pmemcpy_in a MMAP_ENTRY_SIZE false) m (λ bytes m', mmap_entry_of bytes = e.1 ∧ boot_same m m' ∧ pages m' = pages m).
Proof using Type.
  intros Hr He Hat. destruct (map_at_cons m a e es He Hat) as (_ & Hin & Hoff & Hb).
  eapply wp_mono; [apply (pmemcpy_in_ok m a 24 false Hr Hin Hoff)|].
  intros bytes m' (_ & -> & Hst & Hmem). rewrite Hb, entry_decoded by apply He. split; [done|].
  split; [|apply (st_rest _ _ Hst)]. constructor; [apply Hst|apply (st_pd _ _ Hst)|done].
Qed.

Definition registers es m m' : Prop := boot_same m m' ∧
  ∀ x, is_managed m' x ↔ is_managed m x ∨ 0 < usable_count es x ∧ is_excluded x = false.

Lemma mem_map_loop_ok mmaplen es : mmaplen < 2 ^ 32 → ∀ readlen a m fuel, Forall stored_entry_ok es → scratch_ready m →
  tables_excluded m → map_at m a es → 0 ≤ readlen → readlen + Z.of_nat (length (map_bytes es)) = mmaplen →
  (∀ x, usable_count es x ≤ 1) → (∀ x, 0 < usable_count es x → ¬ is_managed m x) → (length es < fuel)%nat →
  wp (loop_m fuel (mem_map_step kbegin kend mmaplen) (readlen, a)) m (λ _ m', registers es m m').
Proof using Hkernel HeapSucceeds0.
  intros Hmax. induction es as [|e es IH]; intros readlen a m [|fuel] Hes Hr Htab Hat Hrl Hlen H1 Hnew Hfuel; try (cbn [length] in Hfuel; lia).
  - eexists tt, m. split.
    { rewrite (loop_m_step fuel _ _ m (inr tt) m); [done|]. unfold mem_map_step. cbn [length map_bytes fmap list_fmap concat] in Hlen.
      by destruct (Z.ltb_spec readlen mmaplen); [lia|]. }
    split; [by constructor|]. intros x. split; [by left|]. intros [|[Hc _]]; [done|]. cbn in Hc. lia.
  - apply Forall_cons in Hes as [He Hes]. destruct (map_entry_length e He) as [Hel H24].
    rewrite map_bytes_length, Nat2Z.inj_add in Hlen. destruct (map_at_cons m a e es He Hat) as (Hat' & _).
    assert (wp (mem_map_step kbegin kend mmaplen (readlen, a)) m (λ y m1, y = inl (readlen + (4 + e_size e.1), a + (4 + e_size e.1)) ∧
      boot_same m m1 ∧ ∀ x, is_managed m1 x ↔ is_managed m x ∨ (usable e.1 x && negb (is_excluded x)) = true)) as Hstep.
    { unfold mem_map_step. destruct (Z.ltb_spec readlen mmaplen); [|lia]. cbn [negb]. apply wp_bind.
      eapply wp_mono; [by eapply read_entry_ok|]. intros bytes m1 (-> & Hs1 & Hp1). apply wp_bind.
      eapply wp_mono; [apply process_entry_ok; [apply He|apply Hs1|by eapply boot_same_excluded|]|].
      - intros x Hu. unfold is_managed. rewrite Hp1. apply Hnew. rewrite usable_count_cons, Hu.
        pose proof (usable_count_nonneg es x). lia.
      - intros [] m2 [Hs2 Hman]. apply wp_ret. destruct Hat as (Ha0 & Hlim & _).
        rewrite map_bytes_length, Nat2Z.inj_add in Hlim. change (2 ^ 32) with 4294967296 in *.
        rewrite (u32_small (4 + _)), !u32_small by (change (2 ^ 32) with 4294967296; lia). split; [done|].
        split; [by eapply boot_same_trans|]. intros x. rewrite Hman. unfold is_managed. by rewrite Hp1. }
    destruct Hstep as (y & m1 & Heq & -> & Hs1 & Hman1). unfold wp. rewrite (loop_m_step fuel _ _ _ _ _ Heq).
    eapply wp_mono; [apply (IH _ _ m1 fuel)|]; [done|apply Hs1|by eapply boot_same_excluded| |lia|lia|..].
    + rewrite Hel in Hat'. by eapply map_at_same.
    + intros x. specialize (H1 x). rewrite usable_count_cons in H1. case_match; lia.
    + intros x Hx. specialize (H1 x). specialize (Hnew x). rewrite usable_count_cons in *.
      rewrite Hman1. destruct (usable e.1 x); [lia|]. intros [Hm|]; [|done]. apply Hnew; [lia|done].
    + cbn [length] in Hfuel. lia.
    + intros [] m' [Hs' Hman']. split; [by eapply boot_same_trans|]. intros x. rewrite Hman', Hman1, usable_count_cons.
      pose proof (usable_count_nonneg es x).
      destruct (usable e.1 x), (is_excluded x); cbn [negb andb]; intuition (done || lia).
Qed.

(** An entry that goes up to 4 GiB or beyond is registered up to 4 GiB, without
    its last incomplete page; its end is 0 as a 32-bit number, and nothing is
    excluded from it. *)
Lemma process_entry_clamps e m : e_type e = MULTIBOOT_MEMORY_AVAILABLE → 0 < e_addr e < 2 ^ 32 → 2 ^ 32 ≤ e_addr e + e_len e ≤ 2 ^ 64 →
  process_entry kbegin kend e m = register_region (e_addr e) (2 ^ 32 - e_addr e) m.
Proof using Hkernel.
  intros Ht Ha Hl. destruct (limit_clamps _ _ Ha Hl) as (r & Hr & Hlim). unfold process_entry. rewrite Hlim, Ht. cbn [Z.eqb negb].
  assert ((result_regions ← lift (exclude_regions kbegin kend (e_addr e) (2 ^ 32 - e_addr e));
    for_ result_regions (λ r, register_region (base r) (len r))) m = register_region (e_addr e) (2 ^ 32 - e_addr e) m) as <-; [|by destruct r].
  rewrite exclude_regions_top by done.
  destruct (register_region (e_addr e) (2 ^ 32 - e_addr e) m) as [[[] m']|f] eqn:E; unfold mbind, M_bind, lift; cbn;
    unfold mbind, M_bind; by rewrite E.
Qed.

(** C15: Reading the memory map hands the page allocator exactly the pages that the
    map says are available, all of the page, below 4 GiB, less the first MiB and
    less the region that is excluded for the kernel; each is registered once, the
    pages that were there before stay, the page tables are untouched, and no other
    memory changes. The available entries may begin and end within a page, but end
    below 4 GiB and not within the partial page they begin in, or they begin
    beyond 4 GiB ([entry_ok]). An entry that goes up to 4 GiB or beyond is
    registered from its begin up to 4 GiB, with nothing excluded. *)
Theorem process_mem_map_registers m mmapaddr (es : list (mmap_entry * list Z)) :
  scratch_ready m → tables_excluded m → Forall stored_entry_ok es → map_at m mmapaddr es →
  (∀ x, usable_count es x ≤ 1) → (∀ x, 0 < usable_count es x → ¬ is_managed m x) →
  (∃ m', process_mem_map kbegin kend (Z.of_nat (length (map_bytes es))) mmapaddr m = Ok (tt, m') ∧ boot_same m m' ∧
    ∀ x, is_managed m' x ↔ is_managed m x ∨ 0 < usable_count es x ∧ is_excluded x = false) ∧
  ∀ e m, e_type e = MULTIBOOT_MEMORY_AVAILABLE → 0 < e_addr e < 2 ^ 32 → 2 ^ 32 ≤ e_addr e + e_len e ≤ 2 ^ 64 →
    process_entry kbegin kend e m = register_region (e_addr e) (2 ^ 32 - e_addr e) m.
Proof using Hkernel HeapSucceeds0.
  intros Hr Htab Hes Hat H1 Hnew. split; [|intros; by apply process_entry_clamps].
  destruct (mem_map_loop_ok (Z.of_nat (length (map_bytes es))) es) with (readlen := 0) (a := mmapaddr) (m := m)
    (fuel := S (Z.to_nat (Z.of_nat (length (map_bytes es))))) as ([] & m' & Hl & Hreg); try done; try lia.
  - destruct Hat as (? & ? & _). lia.
  - rewrite Nat2Z.id. clear -Hes. induction Hes as [|e es He _ IH]; [cbn; lia|]. rewrite map_bytes_length.
    destruct (map_entry_length e He). cbn [length]. lia.
  - exists m'. split; [exact Hl|exact Hreg].
Qed.
End Map.
End Register.

(** The page tables the kernel starts with, with a memory map of four entries
    stored below them, and no page registered yet: the available memory begins
    and ends within pages. *)
#[local] Existing Instances always_heap always_heap_succeeds bump_pages bump_pages_laws.

Definition loader_map : list (mmap_entry * list Z) :=
  [(MmapEntry 20 0 0x3ff800 1, []); (MmapEntry 22 0xfffc0000 0x40000 2, [7; 7]);
   (MmapEntry 20 0x400400 0x2000 1, []); (MmapEntry 20 0x100000000 0x80000000 1, [])].
Definition loader_word (a : Z) : Z :=
  if (0x9000 <=? a) && (a <? 0x9064) then value_of (take 4 (drop (Z.to_nat (a - 0x9000)) (map_bytes loader_map)))
  else boot_word a.
Definition loader_mmu : mmu (pmm * nat) := Mmu loader_word boot_pagedir ∅ false (Pmm [] false, 0%nat).

Lemma loader_wf : mmu_wf loader_mmu ∧ ∀ k, is_index k → pd loader_mmu k = pd boot_mmu k.
Proof.
  apply (mmu_wf_transport boot_mmu loader_mmu boot_mmu_wf); try done.
  - intros a (k & Hk & Hp & Ha). destruct (boot_pd_spec k Hk Hp) as (Hk' & _ & E). rewrite E in Ha.
    unfold loader_mmu, loader_word. cbn [phys_mem]. unfold boot_table, is_index, lower2mpagetable, boot_pagedir, kernelpagetable in *.
    destruct (Z.leb_spec 0x9000 a), (Z.ltb_spec a 0x9064); try done. exfalso.
    destruct (Z.eqb_spec k 0); [lia|]. destruct (Z.eqb_spec k 1023); lia.
  - exists []. constructor.
  - intros k Hk Hp (_ & Hm & _). by apply Exists_nil in Hm.
Qed.

Lemma loader_ready : scratch_ready loader_mmu.
Proof.
  destruct loader_wf as [Hwf Hpd]. split; [exact Hwf|]. rewrite Hpd by apply scratch_index. apply boot_scratch_ready.
Qed.

Lemma loader_map_at : map_at loader_mmu 0x9000 loader_map.
Proof.
  split; [lia|]. split; [done|]. split; [|by vm_compute].
  intros x Hx E. change (Z.of_nat (length (map_bytes loader_map))) with 98 in Hx.
  assert (0x104000 ≤ scratch_word loader_mmu).
  { unfold scratch_word. rewrite (proj2 loader_wf) by apply scratch_index.
    destruct (boot_pd_spec ARCHI586_MMU_SCRATCH_PDE scratch_index) as (_ & _ & ->); [apply boot_scratch_ready|]. by vm_compute. }
  rewrite <- E in *. dlia.
Qed.

Lemma loader_tables_excluded : tables_excluded 0x100000 0x110000 loader_mmu.
Proof.
  intros k Hk Hp. rewrite (proj2 loader_wf) in * by done. destruct (boot_pd_spec k Hk Hp) as (Hk' & _ & ->).
  unfold is_excluded, in_region, boot_table, is_index, lower2mpagetable, boot_pagedir, kernelpagetable in *. cbn [base len].
  destruct (Z.eqb_spec k 0); [done|]. destruct (Z.eqb_spec k 1023); [done|]. zcase; done || lia.
Qed.

Lemma loader_map_once x : usable_count loader_map x = if (0 <=? x) && (x <? 0x3ff000) || (0x401000 <=? x) && (x <? 0x402000) then 1 else 0.
Proof.
  unfold loader_map. rewrite !usable_count_cons. unfold usable, page_inside, MULTIBOOT_MEMORY_AVAILABLE. cbn [e_type e_addr e_len base len fst usable_count foldr].
  cbn [Z.eqb Pos.eqb andb]. change (2 ^ 32) with 4294967296. zcase; cbn [andb orb]; done || dlia.
Qed.

Lemma process_mem_map_registers_witness : ∃ m', process_mem_map 0x100000 0x110000 98 0x9000 loader_mmu = Ok (tt, m') ∧
  (∀ x, is_managed m' x ↔ 0x210000 ≤ x < 0x3ff000 ∨ 0x401000 ≤ x < 0x402000) ∧
  process_entry 0x100000 0x110000 (MmapEntry 20 0xfffff400 0x80000000 1) loader_mmu = Ok (tt, loader_mmu).
Proof.
  assert (page_region (MemRegion 0x100000 0x110000)) as Hk by (unfold page_region; cbn; split_and!; done || lia).
  assert (Forall stored_entry_ok loader_map) as Hes.
  { unfold loader_map, stored_entry_ok, entry_ok, fair_region. repeat constructor; cbn [fst e_addr e_len e_type e_size]; try done;
      intros _; (by left) || right; cbn [base len]; split_and!; try done; (by left) || by right. }
  assert (∀ x, usable_count loader_map x ≤ 1) as H1 by (intros x; rewrite loader_map_once; case_match; lia).
  destruct (process_mem_map_registers 0x100000 0x110000 Hk loader_mmu 0x9000 loader_map loader_ready loader_tables_excluded Hes
    loader_map_at H1 ltac:(by intros x _ Hm; apply Exists_nil in Hm)) as [(m' & Hp & _ & Hman) Hcl].
  change (Z.of_nat (length (map_bytes loader_map))) with 98 in Hp.
  exists m'. split; [exact Hp|]. clear Hp. split; [|by rewrite (Hcl (MmapEntry 20 0xfffff400 0x80000000 1) loader_mmu)].
  intros x. rewrite Hman, loader_map_once. unfold is_managed, is_excluded, in_region. cbn [pages loader_mmu fst s_firstpool base len].
  split.
  - intros [Hm|[Hu He]]; [by apply Exists_nil in Hm|]. revert Hu He. zcase; cbn; done || lia.
  - intros Hx. right. zcase; cbn; done || lia.
Defined.

(** ** What the code does not do *)

(** The second region to exclude has the end of the kernel as its length: what
    follows the kernel is lost. *)
Lemma excluded_beyond_kernel :
  exclude_regions 0x100000 0x300000 0x100000 0x700000 = Ok [MemRegion 0x400000 0x400000].
Proof. reflexivity. Qed.

(** Memory up to 4 GiB: the end of the region is 0, and nothing is excluded from
    it. *)
Lemma nothing_excluded_up_to_4GiB :
  limit_to_32bit_addr 0x100000 0x100000000 = (ADDRLIMIT_RESULT_WARN, 0x100000, 0xfff00000) ∧
  exclude_regions 0x100000 0x300000 0x100000 0xfff00000 = Ok [MemRegion 0x100000 0xfff00000].
Proof. split; reflexivity. Qed.

(** All 4 GiB: the length is 0 and nothing is registered. *)
Lemma four_GiB_is_nothing : limit_to_32bit_addr 0 0x100000000 = (ADDRLIMIT_RESULT_OK, 0, 0).
Proof. reflexivity. Qed.

(** A region that ends in its first, partial page: its length wraps. *)
Lemma short_region_wraps : register_region (H := nat) 0x100400 0x200 =
  in_pages (pmm_register_mem (S (Z.to_nat 1048575)) 0x101000 1048575).
Proof. reflexivity. Qed.
