(* ===== verification/Heap.v ===== *)
(** The kernel heap (src/kernel/mem/heap.c): pools of 64-byte blocks with a
    bitmap each, allocations with a header in front and poison bytes behind. *)
From S2P Require Import Prelude MiscMath Bitmap Arch HeapIface.

(** ** Layout on the i586: [max_align_t] is 16 bytes aligned *)
Definition ALIGNOF_MAX_ALIGN_T : Z := 16.
Definition SIZEOF_POOL_HEADER : Z := 48. (* also the offset of heapdata *)
Definition SIZEOF_ALLOC_HEADER : Z := 32. (* also the offset of data *)
Definition BLOCK_SIZE : Z := 64.
Definition POISONVALUES : list Z := [233; 41; 243; 251; 215; 103; 170; 90].
Definition SIZEOF_POISONVALUES : Z := Z.of_nat (length POISONVALUES).
Definition INITIAL_HEAP_SIZE : Z := 1024 * 1024 * 2.

Record pool_header := PoolHeader {
  pool_addr : Z;
  blockpool : Z;
  blockbitmap : bitmap;
  block_count : Z;
  usedblock_count : Z;
  page_count : Z;
}.

Record alloc_header := AllocHeader { pool : Z; alloc_block_count : Z; size : Z }.

(** The variables of heap.c; the headers of the allocations by address, and
    the other bytes of memory. *)
Record kheap := KHeap {
  s_free_block_count : Z;
  s_heap_pool_list : list pool_header;
  s_alloc_list : list Z;
  headers : gmap Z alloc_header;
  memory : Z → Z;
  s_initial_heap_initialized : bool;
  eflags_if : bool;
}.

Definition with_free_block_count (n : Z) (s : kheap) : kheap :=
  KHeap n (s_heap_pool_list s) (s_alloc_list s) (headers s) (memory s) (s_initial_heap_initialized s) (eflags_if s).
Definition with_pools (ps : list pool_header) (s : kheap) : kheap :=
  KHeap (s_free_block_count s) ps (s_alloc_list s) (headers s) (memory s) (s_initial_heap_initialized s) (eflags_if s).
Definition with_allocs (l : list Z) (m : gmap Z alloc_header) (s : kheap) : kheap :=
  KHeap (s_free_block_count s) (s_heap_pool_list s) l m (memory s) (s_initial_heap_initialized s) (eflags_if s).
Definition with_memory (m : Z → Z) (s : kheap) : kheap :=
  KHeap (s_free_block_count s) (s_heap_pool_list s) (s_alloc_list s) (headers s) m (s_initial_heap_initialized s) (eflags_if s).
Definition with_if (b : bool) (s : kheap) : kheap :=
  KHeap (s_free_block_count s) (s_heap_pool_list s) (s_alloc_list s) (headers s) (memory s) (s_initial_heap_initialized s) b.

Definition modify (f : kheap → kheap) : M kheap unit := λ s, Ok (tt, f s).

Definition irq_disable : M kheap ARCH_IRQSTATE := λ s,
  let '(prev, b) := arch_irq_disable (eflags_if s) in Ok (prev, with_if b s).
Definition irq_restore (prev : ARCH_IRQSTATE) : M kheap unit :=
  modify (λ s, with_if (arch_irq_restore prev (eflags_if s)) s).

(** ** Memory *)

Definition fill (addr n v : Z) (m : Z → Z) : Z → Z :=
  λ a, if (addr <=? a) && (a <? addr + n) then v else m a.
Definition copy (dest src n : Z) (m : Z → Z) : Z → Z :=
  λ a, if (dest <=? a) && (a <? dest + n) then m (a - dest + src) else m a.
Definition store (addr : Z) (bytes : list Z) (m : Z → Z) : Z → Z :=
  λ a, if addr <=? a then default (m a) (bytes !! Z.to_nat (a - addr)) else m a.

(** The blocks of the allocation at [alloc]: writes by the allocator must stay
    inside of them. *)
Definition in_allocation (alloc addr n : Z) : M kheap unit := λ s,
  match headers s !! alloc with
  | None => Fault Bad_pointer
  | Some h =>
      if (alloc <=? addr) && (addr + n <=? alloc + alloc_block_count h * BLOCK_SIZE) then Ok (tt, s)
      else Fault Out_of_bounds
  end.

(** [vmemset] of [n] bytes of the allocation at [alloc]. *)
Definition vmemset (alloc addr v n : Z) : M kheap unit :=
  _ ← in_allocation alloc addr n;
  modify (λ s, with_memory (fill addr n v (memory s)) s).

Section heap.
(** Whether [arch_mmu_virtual_to_physical] finds a page, and where
    [s_initial_heap_memory] is. *)
Context (mapped : Z → bool) (s_initial_heap_memory : Z).

(** ** Checking for overflows *)

(** The address of the poison bytes. *)
Definition poison_addr (alloc size : Z) : Z := u32 (alloc + SIZEOF_ALLOC_HEADER + size).

Definition poison_intact (m : Z → Z) (addr : Z) : bool :=
  forallb (λ '(i, v), m (u32 (addr + i)) =? v) (imap (λ i v, (Z.of_nat i, v)) POISONVALUES).

(** The loop of [__heap_check_overflow]; the result is [die]. *)
Fixpoint any_corrupted (allocs : list Z) (s : kheap) : res bool :=
  match allocs with
  | [] => Ok false
  | alloc :: allocs =>
      corrupted ← (if alloc =? 0 then Ok true
        else if negb (mapped alloc) then Ok true
        else
          match headers s !! alloc with
          | None => Fault Bad_pointer
          | Some h => Ok (negb (poison_intact (memory s) (poison_addr alloc (size h))))
          end);
      die ← any_corrupted allocs s;
      Ok (corrupted || die)
  end.

Definition heap_check_overflow : M kheap unit :=
  prev_interrupts ← irq_disable;
  s ← get;
  die ← lift (any_corrupted (s_alloc_list s) s);
  if die : bool then throw Panic else irq_restore prev_interrupts.

(** ** Allocation *)

Definition byte_count_for_block_count (n : Z) : Z :=
  u32 (u32 (BLOCK_SIZE * n) - (SIZEOF_ALLOC_HEADER + SIZEOF_POISONVALUES)).
Definition actual_alloc_size (size : Z) : Z := u32 (size + SIZEOF_ALLOC_HEADER + SIZEOF_POISONVALUES).

(** The loops that assert that bits are set, or clear. *)
Fixpoint assert_bits (expected : bool) (b : bitmap) (i : Z) (n : nat) : res unit :=
  match n with
  | O => Ok tt
  | S n =>
      v ← bitmap_is_bit_set b i;
      _ ← assert_ (Bool.eqb v expected);
      assert_bits expected b (i + 1) n
  end.

Definition pool_at (a : Z) (ps : list pool_header) : option pool_header :=
  snd <$> list_find (λ p, pool_addr p = a) ps.
Definition update_pool (a : Z) (f : pool_header → pool_header) (ps : list pool_header) : list pool_header :=
  (λ p, if pool_addr p =? a then f p else p) <$> ps.

Definition set_blocks (b : bitmap) (used : Z) (p : pool_header) : pool_header :=
  PoolHeader (pool_addr p) (blockpool p) b (block_count p) used (page_count p).

Definition alloc_from_pool (self : pool_header) (size : Z) : M kheap Z :=
  s ← get;
  _ ← lift (ASSERT_IRQ_DISABLED (eflags_if s));
  if size =? 0 then mret 0
  else if SIZE_MAX - SIZEOF_ALLOC_HEADER <? size then mret 0
  else
    block_count ← lift (size_to_blocks (actual_alloc_size size) BLOCK_SIZE);
    block_index ← lift (bitmap_find_set_bits (blockbitmap self) 0 block_count);
    if block_index <? 0 then mret 0
    else
      _ ← lift (assert_bits true (blockbitmap self) block_index (Z.to_nat block_count));
      b ← lift (bitmap_clear_bits (blockbitmap self) block_index block_count);
      _ ← lift (assert_bits false b block_index (Z.to_nat block_count));
      let alloc_off := u32 (block_index * BLOCK_SIZE) in
      aligned ← lift (is_aligned alloc_off ALIGNOF_MAX_ALIGN_T);
      _ ← massert aligned;
      let alloc := u32 (blockpool self + alloc_off) in
      _ ← modify (λ s, with_pools
            (update_pool (pool_addr self) (λ p, set_blocks b (u32 (usedblock_count p + block_count)) p)
               (s_heap_pool_list s)) s);
      _ ← modify (λ s, with_allocs (s_alloc_list s)
            (<[alloc := AllocHeader (pool_addr self) block_count size]> (headers s)) s);
      s ← get;
      _ ← massert (block_count <=? s_free_block_count s);
      _ ← modify (λ s, with_free_block_count (s_free_block_count s - block_count) s);
      let data := alloc + SIZEOF_ALLOC_HEADER in
      _ ← vmemset alloc data 144 size;
      _ ← in_allocation alloc (data + size) SIZEOF_POISONVALUES;
      _ ← modify (λ s, with_memory (store (data + size) POISONVALUES (memory s)) s);
      _ ← modify (λ s, with_allocs (s_alloc_list s ++ [alloc]) (headers s) s);
      _ ← heap_check_overflow;
      mret data.

(** ** Pools *)

(** [add_mem]: the loop takes pages off until they fit. *)
Fixpoint fit_pages (fuel : nat) (memsize page_count : Z) : res Z :=
  match fuel with
  | O => Fault No_fuel
  | S fuel => if memsize <? u32 (page_count * ARCH_PAGESIZE) then fit_pages fuel memsize (page_count - 1) else Ok page_count
  end.

Definition add_mem (mem memsize : Z) : M kheap pool_header :=
  s ← get;
  _ ← lift (ASSERT_IRQ_DISABLED (eflags_if s));
  max_block_count ← lift (size_to_blocks memsize BLOCK_SIZE);
  word_count ← lift (bitmap_needed_word_count max_block_count);
  let metadata_size := u32 (SIZEOF_POOL_HEADER + word_count * 4) in
  let maxsize := u32 (metadata_size + u32 (max_block_count * BLOCK_SIZE)) in
  page_count ← lift (size_to_blocks maxsize ARCH_PAGESIZE);
  page_count ← lift (fit_pages (S (Z.to_nat page_count)) memsize page_count);
  totalblock_count ← lift (size_to_blocks (u32 (page_count * ARCH_PAGESIZE)) BLOCK_SIZE);
  word_count ← lift (bitmap_needed_word_count totalblock_count);
  let bitmapsize := u32 (word_count * 4) in
  let bitmapsize := u32 (bitmapsize + (ALIGNOF_MAX_ALIGN_T - bitmapsize mod ALIGNOF_MAX_ALIGN_T)) in
  let totalsize := u32 (totalblock_count * BLOCK_SIZE) in
  let maxpoolsize := u32 (totalsize - bitmapsize - SIZEOF_POOL_HEADER) in
  let poolblock_count := maxpoolsize / BLOCK_SIZE in
  let poolstart := u32 (mem + SIZEOF_POOL_HEADER + bitmapsize) in
  _ ← massert (poolstart mod ALIGNOF_MAX_ALIGN_T =? 0);
  b ← lift (bitmap_set_bits (Bitmap (replicate (Z.to_nat word_count) 0) word_count) 0 poolblock_count);
  let pool := PoolHeader mem poolstart b poolblock_count 0 page_count in
  _ ← modify (λ s, KHeap (u32 (s_free_block_count s + poolblock_count)) (s_heap_pool_list s ++ [pool])
        (s_alloc_list s) (headers s) (memory s) true (eflags_if s));
  mret pool.

(** ** The interface *)

Fixpoint alloc_from_pools (pools : list pool_header) (size : Z) : M kheap Z :=
  match pools with
  | [] => mret 0
  | pool :: pools =>
      result ← alloc_from_pool pool size;
      if negb (result =? 0) then mret result else alloc_from_pools pools size
  end.

Definition kheap_alloc (size flags : Z) : M kheap Z :=
  let actualsize := actual_alloc_size size in
  actualblock_count ← lift (size_to_blocks actualsize BLOCK_SIZE);
  if size =? 0 then mret 0
  else if SIZE_MAX - SIZEOF_ALLOC_HEADER <? size then mret 0
  else
    prev_interrupts ← irq_disable;
    _ ← heap_check_overflow;
    s ← get;
    _ ← (if negb (s_initial_heap_initialized s)
         then _ ← add_mem s_initial_heap_memory INITIAL_HEAP_SIZE; mret tt
         else mret tt);
    s ← get;
    result ← (if actualblock_count <? s_free_block_count s then alloc_from_pools (s_heap_pool_list s) size
              else mret 0);
    _ ← heap_check_overflow;
    _ ← irq_restore prev_interrupts;
    _ ← (if negb (Z.land flags HEAP_FLAG_ZEROMEMORY =? 0) then
           if result =? 0 then throw Bad_pointer
           else vmemset (result - SIZEOF_ALLOC_HEADER) result 0 size
         else mret tt);
    mret result.

Definition alloc_header_of (ptr : Z) : Z :=
  if (ptr =? 0) || negb (ptr mod ALIGNOF_MAX_ALIGN_T =? 0) || (ptr <? SIZEOF_ALLOC_HEADER) then 0
  else ptr - SIZEOF_ALLOC_HEADER.

Definition read_header (alloc : Z) : M kheap alloc_header := λ s,
  match headers s !! alloc with Some h => Ok (h, s) | None => Fault Bad_pointer end.

Definition kheap_free (ptr : Z) : M kheap unit :=
  if ptr =? 0 then mret tt
  else
    prev_interrupts ← irq_disable;
    let alloc := alloc_header_of ptr in
    _ ← heap_check_overflow;
    h ← read_header alloc; (* list_remove_node follows the links of the header *)
    _ ← modify (λ s, with_allocs (filter (λ a, a ≠ alloc) (s_alloc_list s)) (headers s) s);
    if alloc =? 0 then throw Panic
    else if pool h =? 0 then throw Panic
    else
      s ← get;
      match pool_at (pool h) (s_heap_pool_list s) with
      | None => throw Bad_pointer
      | Some p =>
          let poolstartaddr := blockpool p in
          let poolendaddr := u32 (poolstartaddr + u32 (block_count p * BLOCK_SIZE)) in
          let allocendaddr := u32 (alloc + u32 (alloc_block_count h * BLOCK_SIZE)) in
          if (ptr <? poolstartaddr) || (poolendaddr <=? ptr) then throw Panic
          else if (allocendaddr <=? poolstartaddr) || (poolendaddr <? allocendaddr) then throw Panic
          else if usedblock_count p <? alloc_block_count h then throw Panic
          else
            let blockindex := u32 (alloc - poolstartaddr) / BLOCK_SIZE in
            b ← lift (bitmap_set_bits (blockbitmap p) blockindex (alloc_block_count h));
            _ ← modify (λ s, with_pools
                  (update_pool (pool h) (set_blocks b (usedblock_count p - alloc_block_count h)) (s_heap_pool_list s)) s);
            _ ← modify (λ s, with_free_block_count (u32 (s_free_block_count s + alloc_block_count h)) s);
            _ ← vmemset alloc alloc 111 (alloc_block_count h * BLOCK_SIZE);
            _ ← modify (λ s, with_allocs (s_alloc_list s) (delete alloc (headers s)) s);
            _ ← heap_check_overflow;
            irq_restore prev_interrupts
      end.

Definition kheap_realloc (ptr newsize flags : Z) : M kheap Z :=
  if ptr =? 0 then kheap_alloc newsize flags
  else
    prev_interrupts ← irq_disable;
    let alloc := alloc_header_of ptr in
    _ ← heap_check_overflow;
    if alloc =? 0 then throw Panic
    else
      h ← read_header alloc;
      let copysize := if newsize <? size h then newsize else size h in
      newmem ← kheap_alloc newsize flags;
      if newmem =? 0 then _ ← irq_restore prev_interrupts; mret newmem
      else
        _ ← in_allocation (newmem - SIZEOF_ALLOC_HEADER) newmem copysize;
        _ ← modify (λ s, with_memory (copy newmem ptr copysize (memory s)) s);
        _ ← kheap_free ptr;
        _ ← irq_restore prev_interrupts;
        mret newmem.

Definition kheap_calloc (size elements flags : Z) : M kheap Z :=
  if size =? 0 then throw Div_by_zero
  else if SIZE_MAX / size <? elements then mret 0
  else kheap_alloc (u32 (size * elements)) flags.

Definition kheap_realloc_array (ptr newsize newelements flags : Z) : M kheap Z :=
  if newsize =? 0 then throw Div_by_zero
  else if SIZE_MAX / newsize <? newelements then mret 0
  else kheap_realloc ptr (u32 (newsize * newelements)) flags.

(** The kernel heap as an implementation of the interface of HeapIface.v. *)
#[export] Instance kernel_heap : HeapOps kheap := {| heap_alloc := kheap_alloc; heap_free := kheap_free |}.
End heap.

(** ** Well-formed heaps *)

#[local] Arguments poison_intact : simpl never.
#[local] Arguments poison_addr : simpl never.
#[local] Arguments actual_alloc_size : simpl never.
#[local] Arguments heap_check_overflow : simpl never.
#[local] Arguments u32 : simpl never.

Definition pool_end (p : pool_header) : Z := blockpool p + block_count p * BLOCK_SIZE.
Definition in_pool (p : pool_header) (a : Z) : Prop := blockpool p ≤ a < pool_end p.

(** The number of blocks that are available. *)
Fixpoint count (f : Z → bool) (n : nat) : Z :=
  match n with O => 0 | S n => count f n + (if f (Z.of_nat n) then 1 else 0) end.
Definition free_blocks (p : pool_header) : Z := count (bit (blockbitmap p)) (Z.to_nat (block_count p)).

Record pool_ok (p : pool_header) : Prop := {
  pool_bitmap : bitmap_wf (blockbitmap p);
  pool_addr0 : pool_addr p ≠ 0;
  pool_start : 0 < blockpool p ∧ blockpool p mod ALIGNOF_MAX_ALIGN_T = 0;
  pool_size : 0 ≤ block_count p ∧ pool_end p < 2 ^ 32;
  pool_bits i : bit (blockbitmap p) i = true → i < block_count p;
  pool_words : block_count p ≤ word_count (blockbitmap p) * BITS_PER_WORD;
  pool_used : usedblock_count p = block_count p - free_blocks p;
}.

Definition alloc_end (a : Z) (h : alloc_header) : Z := a + alloc_block_count h * BLOCK_SIZE.

Record alloc_ok (pools : list pool_header) (a : Z) (h : alloc_header) : Prop := {
  alloc_pool : ∃ p i, p ∈ pools ∧ pool_addr p = pool h ∧ a = blockpool p + i * BLOCK_SIZE ∧ 0 ≤ i ∧
    i + alloc_block_count h ≤ block_count p ∧
    ∀ j, i ≤ j < i + alloc_block_count h → bit (blockbitmap p) j = false;
  alloc_blocks : 0 < alloc_block_count h;
  alloc_size : 0 ≤ size h ∧ size h + SIZEOF_ALLOC_HEADER + SIZEOF_POISONVALUES ≤ alloc_block_count h * BLOCK_SIZE;
}.

Definition total_blocks (ps : list pool_header) : Z := foldr (λ p n, block_count p + n) 0 ps.
Definition total_free (ps : list pool_header) : Z := foldr (λ p n, free_blocks p + n) 0 ps.

Record wf (s : kheap) : Prop := {
  wf_init : s_initial_heap_initialized s = true;
  wf_pools : Forall pool_ok (s_heap_pool_list s);
  wf_pool_addrs : NoDup (pool_addr <$> s_heap_pool_list s);
  wf_pools_disjoint p q a : p ∈ s_heap_pool_list s → q ∈ s_heap_pool_list s → in_pool p a → in_pool q a →
    pool_addr p = pool_addr q;
  wf_nodup : NoDup (s_alloc_list s);
  wf_allocs a : a ∈ s_alloc_list s ↔ is_Some (headers s !! a);
  wf_headers a h : headers s !! a = Some h → alloc_ok (s_heap_pool_list s) a h;
  wf_disjoint a h a' h' : headers s !! a = Some h → headers s !! a' = Some h' → a ≠ a' →
    alloc_end a h ≤ a' ∨ alloc_end a' h' ≤ a;
  wf_free : s_free_block_count s = total_free (s_heap_pool_list s);
  wf_free_max : total_blocks (s_heap_pool_list s) < 2 ^ 32;
}.

(** Every allocation still has its poison bytes, and is mapped. *)
Definition intact (mapped : Z → bool) (s : kheap) : Prop := ∀ a h, headers s !! a = Some h →
  mapped a = true ∧ poison_intact (memory s) (poison_addr a (size h)) = true.

Lemma with_if_twice b b' s : with_if b (with_if b' s) = with_if b s.
Proof. done. Qed.

Lemma with_if_same s : with_if (eflags_if s) s = s.
Proof. by destruct s. Qed.

Lemma alloc_pos s a h : wf s → headers s !! a = Some h → 0 < a.
Proof.
  intros Hwf Ha. destruct (alloc_pool _ _ _ (wf_headers _ Hwf a h Ha)) as (p & i & Hp & _ & -> & Hi & _).
  pose proof (wf_pools _ Hwf) as Hps. rewrite Forall_forall in Hps. destruct (pool_start _ (Hps p Hp)).
  unfold BLOCK_SIZE. lia.
Qed.

(** *** Checking for overflows *)
Lemma any_corrupted_ok mapped s l : wf s → (∀ a, a ∈ l → is_Some (headers s !! a)) →
  ∃ die, any_corrupted mapped l s = Ok die ∧
    (die = false ↔ ∀ a h, a ∈ l → headers s !! a = Some h →
       mapped a = true ∧ poison_intact (memory s) (poison_addr a (size h)) = true).
Proof.
  intros Hwf. induction l as [|a l IH]; intros Hl.
  { exists false. split; [done|]. split; [|done]. intros _ a h Ha. by apply elem_of_nil in Ha. }
  destruct IH as (die & E & Hdie); [intros; apply Hl; by right|].
  destruct (Hl a) as [h Hh]; [by left|]. pose proof (alloc_pos s a h Hwf Hh).
  cbn [any_corrupted]. destruct (Z.eqb_spec a 0); [lia|]. rewrite Hh.
  set (ok := mapped a && poison_intact (memory s) (poison_addr a (size h))).
  assert ((if negb (mapped a) then Ok true else Ok (negb (poison_intact (memory s) (poison_addr a (size h))))) = Ok (negb ok)) as ->.
  { unfold ok. by destruct (mapped a). }
  unfold mbind, res_bind. rewrite E. exists (negb ok || die). split; [done|].
  rewrite orb_false_iff, negb_false_iff, Hdie. unfold ok. rewrite andb_true_iff. split.
  - intros [Hok Hall] a' h' [->|Ha']%elem_of_cons Hh'; [|by eapply Hall].
    assert (h' = h) as -> by congruence. done.
  - intros Hall. split; [apply (Hall a h); [by left|done]|]. intros a' h' Ha'. apply Hall. by right.
Qed.

Lemma check_overflow_ok mapped s : wf s → intact mapped s → heap_check_overflow mapped s = Ok (tt, s).
Proof.
  intros Hwf Hi. unfold heap_check_overflow, irq_disable, get, lift, mbind, M_bind. cbn.
  destruct (any_corrupted_ok mapped (with_if false s) (s_alloc_list s)) as (die & E & Hdie).
  { destruct Hwf. by split. }
  { intros a Ha. by apply (wf_allocs _ Hwf). }
  rewrite E. replace die with false; [|symmetry; apply Hdie; intros a h _ Ha; by apply Hi].
  unfold irq_restore, modify. cbn. do 2 f_equal. destruct s; cbn. unfold with_if. cbn. f_equal. by destruct eflags_if0.
Qed.

Lemma check_overflow_panics mapped s a h : wf s → headers s !! a = Some h →
  poison_intact (memory s) (poison_addr a (size h)) = false → heap_check_overflow mapped s = Fault Panic.
Proof.
  intros Hwf Ha Hp. unfold heap_check_overflow, irq_disable, get, lift, mbind, M_bind. cbn.
  destruct (any_corrupted_ok mapped (with_if false s) (s_alloc_list s)) as (die & E & Hdie).
  { destruct Hwf. by split. }
  { intros a' Ha'. by apply (wf_allocs _ Hwf). }
  rewrite E. destruct die; [done|]. destruct Hdie as [Hall _].
  destruct (Hall eq_refl a h) as [_ Hp']; [|done|]; [|cbn in Hp'; congruence].
  apply (wf_allocs _ Hwf). by eexists.
Qed.

(** *** Counting blocks *)
Lemma count_updated f f' i m (v : bool) n :
  (∀ j, f' j = if (i <=? j) && (j <? i + m) then v else f j) →
  (∀ j, i ≤ j < i + m → f j = negb v) → 0 ≤ i → 0 ≤ m →
  count f' n = count f n + (if v then 1 else -1) * Z.max 0 (Z.min m (Z.of_nat n - i)).
Proof.
  intros Hf' Hf Hi Hm. induction n as [|n IH]; [cbn; destruct v; lia|]. cbn [count]. rewrite IH, Hf'.
  destruct (Z.leb_spec i (Z.of_nat n)), (Z.ltb_spec (Z.of_nat n) (i + m)); cbn [andb]; [rewrite Hf by lia|..];
    destruct v; cbn [negb]; try destruct (f (Z.of_nat n)); lia.
Qed.

Lemma count_range f n : 0 ≤ count f n ≤ Z.of_nat n.
Proof. induction n as [|n IH]; cbn [count]; [lia|]. destruct (f (Z.of_nat n)); lia. Qed.

Lemma count_run f i m n : (∀ j, i ≤ j < i + m → f j = true) → 0 ≤ i → 0 ≤ m → i + m ≤ Z.of_nat n → m ≤ count f n.
Proof.
  intros Hf Hi Hm Hn. set (f' j := if (i <=? j) && (j <? i + m) then false else f j).
  pose proof (count_updated f f' i m false n ltac:(done) Hf Hi Hm) as E. pose proof (count_range f' n). lia.
Qed.

Lemma count_none f i m n : (∀ j, i ≤ j < i + m → f j = false) → 0 ≤ i → 0 ≤ m → i + m ≤ Z.of_nat n →
  count f n + m ≤ Z.of_nat n.
Proof.
  intros Hf Hi Hm Hn. set (f' j := if (i <=? j) && (j <? i + m) then true else f j).
  pose proof (count_updated f f' i m true n ltac:(done) Hf Hi Hm) as E. pose proof (count_range f' n). lia.
Qed.

(** *** Pools *)
Lemma pool_at_in ps p : NoDup (pool_addr <$> ps) → p ∈ ps → pool_at (pool_addr p) ps = Some p.
Proof.
  intros Hnd [i Hi]%list_elem_of_lookup_1. unfold pool_at.
  assert (list_find (λ q, pool_addr q = pool_addr p) ps = Some (i, p)) as ->; [|done].
  apply list_find_Some. split_and!; [done|done|]. intros j q Hj Hlt Heq.
  assert (i = j); [|lia]. eapply (NoDup_lookup (pool_addr <$> ps)); [done| |];
    rewrite list_lookup_fmap; [by rewrite Hi|by rewrite Hj, <- Heq].
Qed.

Lemma pool_unique ps p q : NoDup (pool_addr <$> ps) → p ∈ ps → q ∈ ps → pool_addr p = pool_addr q → p = q.
Proof.
  intros Hnd Hp Hq E. pose proof (pool_at_in _ _ Hnd Hp) as E1. rewrite E, (pool_at_in _ _ Hnd Hq) in E1. congruence.
Qed.

Lemma update_pool_addrs a f ps : (∀ p, pool_addr (f p) = pool_addr p) → pool_addr <$> update_pool a f ps = pool_addr <$> ps.
Proof.
  intros Hf. unfold update_pool. rewrite <- list_fmap_compose. apply list_fmap_ext. intros ? p _. cbn.
  destruct (pool_addr p =? a); [apply Hf|done].
Qed.

Lemma elem_of_update_pool a f ps q : q ∈ update_pool a f ps ↔
  ∃ p, p ∈ ps ∧ q = if pool_addr p =? a then f p else p.
Proof. unfold update_pool. rewrite list_elem_of_fmap. split; intros (p & ? & ?); exists p; auto. Qed.

Lemma total_free_update ps p f : NoDup (pool_addr <$> ps) → p ∈ ps →
  total_free (update_pool (pool_addr p) f ps) = total_free ps - free_blocks p + free_blocks (f p).
Proof.
  induction ps as [|q ps IH]; [by intros _ ?%elem_of_nil|]. cbn [fmap list_fmap].
  intros [Hn Hnd]%NoDup_cons Hp. cbn [update_pool fmap list_fmap total_free foldr].
  apply elem_of_cons in Hp as [->|Hp].
  - rewrite Z.eqb_refl.
    assert (update_pool (pool_addr q) f ps = ps) as Hu.
    { unfold update_pool. rewrite <- (list_fmap_id ps) at 2. apply list_fmap_ext.
      intros ? p1 Hp1%list_elem_of_lookup_2. destruct (Z.eqb_spec (pool_addr p1) (pool_addr q)) as [E|]; [|done].
      destruct Hn. rewrite <- E. by apply list_elem_of_fmap_2. }
    unfold update_pool in Hu. rewrite Hu. unfold total_free. lia.
  - destruct (Z.eqb_spec (pool_addr q) (pool_addr p)) as [E|].
    { destruct Hn. rewrite E. by apply list_elem_of_fmap_2. }
    specialize (IH Hnd Hp). unfold total_free, update_pool in IH. lia.
Qed.

Lemma free_blocks_nonneg p : 0 ≤ free_blocks p.
Proof. apply count_range. Qed.

Lemma total_blocks_update ps a f : (∀ p, block_count (f p) = block_count p) →
  total_blocks (update_pool a f ps) = total_blocks ps.
Proof.
  intros Hf. induction ps as [|p ps IH]; [done|]. unfold total_blocks, update_pool in *. cbn. rewrite IH.
  destruct (pool_addr p =? a); [by rewrite Hf|done].
Qed.

Lemma total_free_le_blocks ps : Forall pool_ok ps → total_free ps ≤ total_blocks ps.
Proof.
  induction 1 as [|p ps Hp _ IH]; [cbn; lia|]. unfold total_free, total_blocks in *. cbn.
  destruct (pool_size _ Hp). pose proof (count_range (bit (blockbitmap p)) (Z.to_nat (block_count p))).
  unfold free_blocks in *. lia.
Qed.

Lemma free_blocks_le_total ps p : p ∈ ps → free_blocks p ≤ total_free ps.
Proof.
  induction ps as [|q ps IH]; [by intros ?%elem_of_nil|]. cbn.
  assert (0 ≤ foldr (λ p n, free_blocks p + n) 0 ps) as Hnn.
  { clear. induction ps as [|q ps IH]; cbn; [lia|]. pose proof (free_blocks_nonneg q). lia. }
  pose proof (free_blocks_nonneg q). intros [->|Hp]%elem_of_cons; [lia|]. specialize (IH Hp). unfold total_free in IH. lia.
Qed.

(** *** Poison bytes *)
Lemma poison_intact_iff m a : poison_intact m a = true ↔ ∀ i v, POISONVALUES !! i = Some v → m (u32 (a + Z.of_nat i)) = v.
Proof.
  unfold poison_intact. rewrite forallb_forall. split.
  - intros Hall i v Hi. specialize (Hall (Z.of_nat i, v)). apply Z.eqb_eq, Hall.
    apply list_elem_of_In. apply list_elem_of_lookup. exists i. by rewrite list_lookup_imap, Hi.
  - intros Hall [j v] Hin. apply list_elem_of_In, list_elem_of_lookup in Hin as [i Hi].
    rewrite list_lookup_imap in Hi. apply fmap_Some in Hi as (v' & Hv & [= -> ->]). apply Z.eqb_eq. by apply Hall.
Qed.

Lemma poison_index i v : POISONVALUES !! i = Some v → (i < 8)%nat.
Proof. intros Hi%lookup_lt_Some. exact Hi. Qed.

(** The poison bytes of an allocation lie in its blocks, behind the data. *)
Lemma poison_in_alloc ps a h i v : Forall pool_ok ps → alloc_ok ps a h → POISONVALUES !! i = Some v →
  u32 (poison_addr a (size h) + Z.of_nat i) = a + 32 + size h + Z.of_nat i ∧
  a + 32 + size h + Z.of_nat i < alloc_end a h ∧ 0 < a ∧ alloc_end a h < 2 ^ 32.
Proof.
  intros Hps [(p & j & Hp & _ & Ea & Hj & Hjb & _) Hb [Hs1 Hs2]] Hi%poison_index.
  rewrite Forall_forall in Hps. destruct (Hps p Hp) as [_ _ [H1 _] [H2 H3] _ _ _]. subst a.
  unfold alloc_end, pool_end, poison_addr, SIZEOF_ALLOC_HEADER, BLOCK_SIZE in *.
  change SIZEOF_POISONVALUES with 8 in Hs2.
  rewrite (u32_small (_ + 32 + _)) by lia. rewrite u32_small by lia. lia.
Qed.

Lemma intact_same mapped s s' : wf s → intact mapped s →
  (∀ a h, headers s' !! a = Some h → headers s !! a = Some h) →
  (∀ a h b, headers s' !! a = Some h → a ≤ b < alloc_end a h → memory s' b = memory s b) →
  intact mapped s'.
Proof.
  intros Hwf Hi Hh Hm a h Ha. destruct (Hi a h (Hh _ _ Ha)) as [H1 H2]. split; [done|].
  rewrite poison_intact_iff in *. intros i v Hv. rewrite <- (H2 i v Hv).
  destruct (poison_in_alloc _ a h i v (wf_pools _ Hwf) (wf_headers _ Hwf a h (Hh _ _ Ha)) Hv) as (-> & Hlt & _).
  apply (Hm a h); [done|]. pose proof (alloc_size _ _ _ (wf_headers _ Hwf a h (Hh _ _ Ha))).
  unfold SIZEOF_ALLOC_HEADER, SIZEOF_POISONVALUES in *. lia.
Qed.

(** ** Allocation *)

Definition blocks_needed (size : Z) : Z := (size + SIZEOF_ALLOC_HEADER + SIZEOF_POISONVALUES + BLOCK_SIZE - 1) / BLOCK_SIZE.

Lemma blocks_needed_eq n : 0 ≤ n ≤ SIZE_MAX - 40 →
  size_to_blocks (actual_alloc_size n) BLOCK_SIZE = Ok (blocks_needed n) ∧
  n + 40 ≤ blocks_needed n * BLOCK_SIZE < n + 40 + 64 ∧ 0 < blocks_needed n.
Proof.
  intros Hn. unfold actual_alloc_size, blocks_needed, SIZE_MAX, SIZEOF_ALLOC_HEADER, BLOCK_SIZE in *.
  change SIZEOF_POISONVALUES with 8. rewrite u32_small by lia. rewrite size_to_blocks_eq by done.
  split; [done|]. dlia.
Qed.

(** The state after the blocks from [i] on of pool [p] were allocated, its
    bitmap being [b] then. *)
Definition alloc_state (s : kheap) (p : pool_header) (b : bitmap) (i n : Z) : kheap :=
  let bc := blocks_needed n in
  let a := blockpool p + i * BLOCK_SIZE in
  KHeap (s_free_block_count s - bc)
    (update_pool (pool_addr p) (λ q, set_blocks b (u32 (usedblock_count q + bc)) q) (s_heap_pool_list s))
    (s_alloc_list s ++ [a]) (<[a := AllocHeader (pool_addr p) bc n]> (headers s))
    (store (a + 32 + n) POISONVALUES (fill (a + 32) n 144 (memory s)))
    (s_initial_heap_initialized s) (eflags_if s).

Lemma fill_other addr n v m b : ¬ (addr ≤ b < addr + n) → fill addr n v m b = m b.
Proof. intros Hb. unfold fill. destruct (Z.leb_spec addr b), (Z.ltb_spec b (addr + n)); (done || lia). Qed.
Lemma fill_in addr n v m b : addr ≤ b < addr + n → fill addr n v m b = v.
Proof. intros Hb. unfold fill. destruct (Z.leb_spec addr b), (Z.ltb_spec b (addr + n)); (done || lia). Qed.
Lemma store_other addr l m b : ¬ (addr ≤ b < addr + Z.of_nat (length l)) → store addr l m b = m b.
Proof.
  intros Hb. unfold store. destruct (Z.leb_spec addr b); [|done]. by rewrite lookup_ge_None_2 by lia.
Qed.
Lemma store_in addr l m i v : l !! i = Some v → store addr l m (addr + Z.of_nat i) = v.
Proof.
  intros Hi. unfold store. destruct (Z.leb_spec addr (addr + Z.of_nat i)); [|lia].
  by replace (Z.to_nat (addr + Z.of_nat i - addr)) with i by lia; rewrite Hi.
Qed.

Lemma assert_bits_ok v b i n : bitmap_wf b → 0 ≤ i → i + Z.of_nat n ≤ word_count b * BITS_PER_WORD →
  (∀ j, i ≤ j < i + Z.of_nat n → bit b j = v) → assert_bits v b i n = Ok tt.
Proof.
  intros Hwf. revert i. induction n as [|n IH]; intros i Hi Hn Hb; [done|]. cbn [assert_bits].
  rewrite is_bit_set_ok by (done || lia). rewrite (Hb i) by lia. unfold mbind, res_bind.
  rewrite eqb_reflx. cbn. apply IH; [lia|lia|]. intros j Hj. apply Hb. lia.
Qed.

Section alloc.
Context (s : kheap) (p : pool_header) (n : Z).
Hypothesis Hwf : wf s.
Hypothesis Hp : p ∈ s_heap_pool_list s.
Hypothesis Hn : 0 < n ≤ SIZE_MAX - 40.

Lemma p_ok : pool_ok p.
Proof using All. pose proof (wf_pools _ Hwf) as Hps. rewrite Forall_forall in Hps. by apply Hps. Qed.

Section found.
Context (i : Z) (b : bitmap).
Hypothesis Hi : 0 ≤ i.
Hypothesis Hrun : run (blockbitmap p) i (blocks_needed n).
Hypothesis Hb : bits_updated (blockbitmap p) b i (blocks_needed n) false.

Lemma needed_pos : n + 40 ≤ blocks_needed n * 64 ∧ 0 < blocks_needed n.
Proof using All. destruct (blocks_needed_eq n) as (_ & H1 & H2); [lia|]. unfold BLOCK_SIZE in *. lia. Qed.

Lemma run_fits : i + blocks_needed n ≤ block_count p.
Proof using All.
  destruct needed_pos as [_ H]. specialize (Hrun (i + blocks_needed n - 1) ltac:(lia)).
  apply (pool_bits _ p_ok) in Hrun. lia.
Qed.

Lemma new_bit j : bit b j = if (i <=? j) && (j <? i + blocks_needed n) then false else bit (blockbitmap p) j.
Proof using All.
  destruct Hb as (_ & _ & Hbit). rewrite Hbit. pose proof run_fits. pose proof (pool_words _ p_ok).
  destruct (Z.leb_spec i j), (Z.ltb_spec j (i + blocks_needed n)), (Z.ltb_spec j (word_count (blockbitmap p) * BITS_PER_WORD)); (done || lia).
Qed.

Lemma new_count : count (bit b) (Z.to_nat (block_count p)) = free_blocks p - blocks_needed n.
Proof using All.
  pose proof run_fits. destruct needed_pos as [_ Hpos].
  rewrite (count_updated (bit (blockbitmap p)) (bit b) i (blocks_needed n) false); [|exact new_bit|exact Hrun|done|lia].
  unfold free_blocks. destruct (pool_size _ p_ok). lia.
Qed.

Lemma free_enough : blocks_needed n ≤ free_blocks p.
Proof using All.
  pose proof run_fits. destruct needed_pos as [_ Hpos]. destruct (pool_size _ p_ok).
  apply (count_run _ i); [exact Hrun|done|lia|lia].
Qed.

Lemma used_new : u32 (usedblock_count p + blocks_needed n) = usedblock_count p + blocks_needed n.
Proof using All.
  pose proof free_enough. pose proof (pool_used _ p_ok). destruct (pool_size _ p_ok) as [H1 H2].
  destruct (pool_start _ p_ok). destruct needed_pos. pose proof (free_blocks_nonneg p).
  assert (free_blocks p ≤ block_count p).
  { unfold free_blocks. pose proof (count_range (bit (blockbitmap p)) (Z.to_nat (block_count p))). lia. }
  apply u32_small. unfold pool_end, BLOCK_SIZE in *. lia.
Qed.

Let a := blockpool p + i * BLOCK_SIZE.
Let h := AllocHeader (pool_addr p) (blocks_needed n) n.

Lemma a_bounds : 0 < a ∧ alloc_end a h ≤ pool_end p ∧ pool_end p < 2 ^ 32 ∧ blockpool p ≤ a ∧ (a + 32) mod 16 = 0.
Proof using All.
  pose proof run_fits. destruct (pool_start _ p_ok) as [H1 H2], (pool_size _ p_ok) as [H3 H4].
  unfold a, h, alloc_end, pool_end, BLOCK_SIZE, ALIGNOF_MAX_ALIGN_T in *. cbn. split_and!; dlia.
Qed.

(** The new blocks belong to no other allocation. *)
Lemma new_disjoint a' h' : headers s !! a' = Some h' → alloc_end a h ≤ a' ∨ alloc_end a' h' ≤ a.
Proof using All.
  intros Ha'. pose proof a_bounds as (Ha1 & Ha2 & Ha3 & Ha4 & _).
  destruct (wf_headers _ Hwf a' h' Ha') as [(q & i' & Hq & Hqp & Ea' & Hi' & Hbnd & Hclear) Hpos' _].
  destruct needed_pos as [_ Hpos].
  destruct (decide (pool_addr q = pool_addr p)) as [E|E].
  - assert (q = p) as -> by (eapply pool_unique; [apply Hwf|done..]).
    destruct (decide (alloc_end a h ≤ a')); [by left|]. destruct (decide (alloc_end a' h' ≤ a)); [by right|]. exfalso.
    unfold alloc_end, a, h, BLOCK_SIZE in *. cbn in *.
    specialize (Hclear (Z.max i i') ltac:(lia)). rewrite Hrun in Hclear by lia. done.
  - destruct (decide (alloc_end a h ≤ a')); [by left|]. destruct (decide (alloc_end a' h' ≤ a)); [by right|]. exfalso.
    apply E. apply (wf_pools_disjoint _ Hwf q p (Z.max a a')); [done|done|..];
      unfold in_pool, pool_end, alloc_end, a, h, BLOCK_SIZE in *; cbn in *; lia.
Qed.

Lemma new_fresh : headers s !! a = None.
Proof using All.
  destruct (headers s !! a) as [h'|] eqn:E; [|done]. destruct (new_disjoint a h' E) as [H|H].
  - destruct needed_pos. unfold alloc_end, h, BLOCK_SIZE in H. cbn in H. lia.
  - pose proof (alloc_blocks _ _ _ (wf_headers _ Hwf a h' E)). unfold alloc_end, BLOCK_SIZE in H. lia.
Qed.

Lemma alloc_ok_update a' h' : headers s !! a' = Some h' →
  alloc_ok (update_pool (pool_addr p) (λ q, set_blocks b (u32 (usedblock_count q + blocks_needed n)) q) (s_heap_pool_list s)) a' h'.
Proof using All.
  intros Ha'. destruct (wf_headers _ Hwf a' h' Ha') as [(q & i' & Hq & Hqp & Ea' & Hi' & Hbnd & Hclear) Hpos' Hsz].
  split; [|done|done].
  exists (if pool_addr q =? pool_addr p then set_blocks b (u32 (usedblock_count q + blocks_needed n)) q else q), i'.
  split_and!; [apply elem_of_update_pool; by exists q|by destruct (_ =? _)|by destruct (_ =? _)|done|by destruct (_ =? _)|].
  intros j Hj. destruct (Z.eqb_spec (pool_addr q) (pool_addr p)) as [E|]; [|by apply Hclear].
  assert (q = p) as -> by (eapply pool_unique; [apply Hwf|done..]). cbn. rewrite new_bit.
  destruct ((i <=? j) && (j <? i + blocks_needed n)); [done|by apply Hclear].
Qed.

Lemma wf_alloc_state : wf (alloc_state s p b i n).
Proof using All.
  pose proof a_bounds as (Ha1 & Ha2 & Ha3 & Ha4 & _). pose proof run_fits as Hfit. destruct needed_pos as [Hsz Hpos].
  pose proof new_fresh as Hfresh. pose proof p_ok as Hpok.
  assert (total_free (s_heap_pool_list (alloc_state s p b i n)) = total_free (s_heap_pool_list s) - blocks_needed n) as Htot.
  { cbn. rewrite total_free_update by (done || apply Hwf). unfold free_blocks at 2. cbn. rewrite new_count. lia. }
  split; rewrite ?Htot; cbn [alloc_state s_initial_heap_initialized s_heap_pool_list s_alloc_list headers s_free_block_count].
  - apply Hwf.
  - apply Forall_forall. intros q' Hq'. apply elem_of_update_pool in Hq' as (q & Hq & ->).
    pose proof (wf_pools _ Hwf) as Hps. rewrite Forall_forall in Hps. specialize (Hps q Hq).
    destruct (Z.eqb_spec (pool_addr q) (pool_addr p)) as [E|]; [|done].
    assert (q = p) as -> by (eapply pool_unique; [apply Hwf|done..]). destruct Hps. destruct Hb as (Hbwf & Hwc & _).
    split; cbn; try done.
    + intros j. rewrite new_bit. destruct ((i <=? j) && (j <? i + blocks_needed n)); [done|]. apply pool_bits0.
    + by rewrite Hwc.
    + unfold free_blocks. cbn. rewrite new_count, used_new. rewrite pool_used0. lia.
  - rewrite update_pool_addrs; [apply Hwf|done].
  - intros q1 q2 x Hq1 Hq2. apply elem_of_update_pool in Hq1 as (q1' & Hq1 & ->), Hq2 as (q2' & Hq2 & ->).
    intros Hx1 Hx2. assert (pool_addr q1' = pool_addr q2') as E.
    { apply (wf_pools_disjoint _ Hwf q1' q2' x); [done|done|revert Hx1; by destruct (pool_addr q1' =? _)|revert Hx2; by destruct (pool_addr q2' =? _)]. }
    by destruct (pool_addr q1' =? _), (pool_addr q2' =? _).
  - apply NoDup_app. split_and!; [apply Hwf| |apply NoDup_singleton].
    intros x Hx ->%list_elem_of_singleton. apply (wf_allocs _ Hwf) in Hx as [? Hx]. fold a in Hx. congruence.
  - intros x. rewrite elem_of_app, list_elem_of_singleton, (wf_allocs _ Hwf), lookup_insert_is_Some. fold a.
    destruct (decide (a = x)) as [<-|]; [split; [by left|by right]|]. naive_solver.
  - intros a' h'. fold a. rewrite lookup_insert_Some. intros [[<- <-]|[_ Ha']]; [|by apply alloc_ok_update].
    split; cbn.
    + exists (set_blocks b (u32 (usedblock_count p + blocks_needed n)) p), i. split_and!; try done.
      * apply elem_of_update_pool. exists p. by rewrite Z.eqb_refl.
      * cbn. intros j Hj. rewrite new_bit. destruct (Z.leb_spec i j), (Z.ltb_spec j (i + blocks_needed n)); (done || lia).
    + done.
    + unfold SIZEOF_ALLOC_HEADER, BLOCK_SIZE. change SIZEOF_POISONVALUES with 8. lia.
  - intros a1 h1 a2 h2. fold a. rewrite !lookup_insert_Some.
    intros [[<- <-]|[_ H1]] [[<- <-]|[_ H2]] Hne; [done|by apply new_disjoint| |by eapply wf_disjoint].
    destruct (new_disjoint a1 h1 H1); [by right|by left].
  - rewrite (wf_free _ Hwf). done.
  - rewrite total_blocks_update by done. apply Hwf.
Qed.

Lemma alloc_memory_other x : ¬ (a ≤ x < alloc_end a h) → memory (alloc_state s p b i n) x = memory s x.
Proof using All.
  intros Hx. destruct needed_pos as [Hsz Hpos]. cbn. fold a.
  rewrite store_other, fill_other; [done|..]; unfold alloc_end, h, BLOCK_SIZE in *; cbn in *; lia.
Qed.

Lemma alloc_memory_data x : a + 32 ≤ x < a + 32 + n → memory (alloc_state s p b i n) x = 144.
Proof using All. intros Hx. cbn. fold a. rewrite store_other, fill_in; [done|lia|cbn; lia]. Qed.

Lemma intact_alloc_state mapped : intact mapped s → mapped a = true → intact mapped (alloc_state s p b i n).
Proof using All.
  intros Hint Hm a' h' Ha'. cbn in Ha'. fold a h in Ha'. rewrite lookup_insert_Some in Ha'.
  destruct Ha' as [[<- <-]|[Hne Ha']].
  - split; [done|]. apply poison_intact_iff. intros j v Hj.
    destruct (poison_in_alloc _ a h j v (wf_pools _ wf_alloc_state)) as (E & _); [|done|].
    { apply (wf_headers _ wf_alloc_state). cbn. fold a. apply lookup_insert_eq. }
    change (size h) with n in *. rewrite E. cbn. fold a. by apply store_in.
  - destruct (Hint a' h' Ha') as [H1 H2]. split; [done|]. rewrite poison_intact_iff in *. intros j v Hj.
    rewrite <- (H2 j v Hj).
    destruct (poison_in_alloc _ a' h' j v (wf_pools _ Hwf) (wf_headers _ Hwf a' h' Ha') Hj) as (-> & Hlt & _).
    apply alloc_memory_other. pose proof (alloc_size _ _ _ (wf_headers _ Hwf a' h' Ha')).
    destruct (new_disjoint a' h' Ha'); unfold SIZEOF_ALLOC_HEADER, SIZEOF_POISONVALUES in *; lia.
Qed.
End found.
End alloc.

Lemma in_allocation_ok s a h addr n : headers s !! a = Some h → a ≤ addr → addr + n ≤ alloc_end a h →
  in_allocation a addr n s = Ok (tt, s).
Proof.
  intros Ha H1 H2. unfold in_allocation. rewrite Ha. unfold alloc_end in H2.
  destruct (Z.leb_spec a addr), (Z.leb_spec (addr + n) (a + alloc_block_count h * BLOCK_SIZE)); (done || lia).
Qed.

Lemma vmemset_ok s a h addr v n : headers s !! a = Some h → a ≤ addr → addr + n ≤ alloc_end a h →
  vmemset a addr v n s = Ok (tt, with_memory (fill addr n v (memory s)) s).
Proof. intros. unfold vmemset, mbind, M_bind. by rewrite (in_allocation_ok s a h). Qed.

Section interface.
Context (mapped : Z → bool).

(** The pools are mapped. *)
Definition all_mapped (s : kheap) : Prop := ∀ p a, p ∈ s_heap_pool_list s → in_pool p a → mapped a = true.

Lemma pool_alloc_ok s p n : wf s → intact mapped s → all_mapped s → p ∈ s_heap_pool_list s →
  0 < n ≤ SIZE_MAX - 40 → eflags_if s = false →
  (∃ i b, 0 ≤ i ∧ run (blockbitmap p) i (blocks_needed n) ∧
     bits_updated (blockbitmap p) b i (blocks_needed n) false ∧
     alloc_from_pool mapped p n s = Ok (blockpool p + i * BLOCK_SIZE + 32, alloc_state s p b i n)) ∨
  ((∀ q, 0 ≤ q → ¬ run (blockbitmap p) q (blocks_needed n)) ∧ alloc_from_pool mapped p n s = Ok (0, s)).
Proof using.
  intros Hwf Hint Hmap Hp Hn Hif. remember (alloc_from_pool mapped p n s) as X eqn:EX. revert EX.
  pose proof (p_ok s p n Hwf Hp Hn) as Hpok. destruct (blocks_needed_eq n) as (Ebn & _ & Hpos); [lia|].
  unfold alloc_from_pool, get, lift, massert, mbind, M_bind. rewrite Hif.
  change (ASSERT_IRQ_DISABLED false) with (Ok tt). cbn beta iota.
  destruct (Z.eqb_spec n 0); [lia|]. destruct (Z.ltb_spec (SIZE_MAX - SIZEOF_ALLOC_HEADER) n); [unfold SIZEOF_ALLOC_HEADER in *; lia|].
  rewrite Ebn. destruct (find_set_bits_ok (blockbitmap p) 0 (blocks_needed n)) as (i & Ei & Hi); [apply Hpok|lia..|].
  rewrite Ei. destruct Hi as [[-> Hno]|(Hi & Hrun & _)].
  { cbn. intros ->. right. by split. }
  destruct (Z.ltb_spec i 0); [lia|].
  pose proof (pool_bitmap _ Hpok) as Hbwf.
  destruct (run_in_bounds _ _ _ Hbwf Hpos Hrun) as [_ Hbnd]. pose proof (wf_max _ Hbwf) as Hmax.
  destruct (clear_bits_ok (blockbitmap p) i (blocks_needed n)) as (b & Eb & Hb); [done|lia..|].
  pose proof (run_fits s p n Hwf Hp Hn i b Hi Hrun Hb) as Hfit.
  pose proof (wf_alloc_state s p n Hwf Hp Hn i b Hi Hrun Hb) as Hwf'.
  pose proof (free_enough s p n Hwf Hp Hn i b Hi Hrun Hb) as Hen.
  pose proof (a_bounds s p n Hwf Hp Hn i b Hi Hrun Hb) as (Ha1 & Ha2 & Ha3 & Ha4 & Ha5).
  pose proof (needed_pos s p n Hwf Hp Hn i b Hi Hrun Hb) as [Hsz _].
  pose proof (intact_alloc_state s p n Hwf Hp Hn i b Hi Hrun Hb mapped Hint) as Hint'.
  rewrite assert_bits_ok by (try done; try lia; intros j Hj; apply Hrun; lia). rewrite Eb.
  rewrite (assert_bits_ok false b).
  2: apply Hb. 2: done. 2: { destruct Hb as (_ & -> & _). lia. }
  2: { intros j Hj. destruct Hb as (_ & _ & ->). destruct (Z.leb_spec i j), (Z.ltb_spec j (i + blocks_needed n)), (Z.ltb_spec j (word_count (blockbitmap p) * BITS_PER_WORD)); (done || lia). }
  rewrite (u32_small (i * BLOCK_SIZE)) by (unfold alloc_end, pool_end, BLOCK_SIZE in *; destruct (pool_start _ Hpok); cbn in *; lia).
  rewrite is_aligned_eq by done.
  destruct (Z.eqb_spec (i * BLOCK_SIZE mod ALIGNOF_MAX_ALIGN_T) 0) as [_|Hal]; [|unfold BLOCK_SIZE, ALIGNOF_MAX_ALIGN_T in Hal; dlia].
  rewrite (u32_small (blockpool p + i * BLOCK_SIZE)) by (unfold alloc_end, BLOCK_SIZE in *; cbn in *; lia).
  set (a := blockpool p + i * BLOCK_SIZE) in *. set (h := AllocHeader (pool_addr p) (blocks_needed n) n) in *.
  unfold modify. cbn [with_pools with_allocs s_free_block_count s_heap_pool_list s_alloc_list headers].
  assert (blocks_needed n ≤ s_free_block_count s) as Hfree.
  { rewrite (wf_free _ Hwf). pose proof (free_blocks_le_total _ _ Hp). lia. }
  destruct (Z.leb_spec (blocks_needed n) (s_free_block_count s)) as [_|]; [|lia].
  assert (alloc_end a h = a + blocks_needed n * 64) as Hend by done.
  rewrite (vmemset_ok _ a h); [|cbn; apply lookup_insert_eq|unfold SIZEOF_ALLOC_HEADER; lia|unfold SIZEOF_ALLOC_HEADER; lia].
  rewrite (in_allocation_ok _ a h); [|cbn; apply lookup_insert_eq|unfold SIZEOF_ALLOC_HEADER; lia|unfold SIZEOF_ALLOC_HEADER; change SIZEOF_POISONVALUES with 8; lia].
  cbn [with_free_block_count with_pools with_allocs with_memory s_free_block_count s_heap_pool_list s_alloc_list headers memory s_initial_heap_initialized eflags_if].
  change SIZEOF_ALLOC_HEADER with 32. intros EX. left. exists i, b. split_and!; [done..|].
  change (X = Ok (a + 32, alloc_state s p b i n)). rewrite EX.
  assert (heap_check_overflow mapped (alloc_state s p b i n) = Ok (tt, alloc_state s p b i n)) as Ec.
  { apply check_overflow_ok; [done|]. apply Hint'. apply (Hmap p); [done|].
    unfold in_pool, alloc_end, BLOCK_SIZE in *. lia. }
  match goal with |- context [heap_check_overflow mapped ?s2] => change s2 with (alloc_state s p b i n) end.
  by rewrite Ec.
Qed.

Lemma wf_with_if s b : wf s → wf (with_if b s).
Proof using. intros []. by split. Qed.

Lemma pools_alloc_ok s ps n : wf s → intact mapped s → all_mapped s → (∀ p, p ∈ ps → p ∈ s_heap_pool_list s) →
  0 < n ≤ SIZE_MAX - 40 → eflags_if s = false →
  (∃ p i b, p ∈ s_heap_pool_list s ∧ 0 ≤ i ∧ run (blockbitmap p) i (blocks_needed n) ∧
     bits_updated (blockbitmap p) b i (blocks_needed n) false ∧
     alloc_from_pools mapped ps n s = Ok (blockpool p + i * BLOCK_SIZE + 32, alloc_state s p b i n)) ∨
  ((∀ p q, p ∈ ps → 0 ≤ q → ¬ run (blockbitmap p) q (blocks_needed n)) ∧ alloc_from_pools mapped ps n s = Ok (0, s)).
Proof using.
  intros Hwf Hint Hmap Hps Hn Hif. induction ps as [|p ps IH].
  { right. split; [|done]. by intros p q ?%elem_of_nil. }
  cbn [alloc_from_pools]. unfold mbind, M_bind.
  destruct (pool_alloc_ok s p n Hwf Hint Hmap (Hps p ltac:(by left)) Hn Hif) as [(i & b & Hi & Hrun & Hb & ->)|[Hno ->]].
  - left. exists p, i, b. assert (p ∈ s_heap_pool_list s) as Hp by (apply Hps; by left).
    pose proof (a_bounds s p n Hwf Hp Hn i b Hi Hrun Hb) as (Ha1 & _).
    destruct (Z.eqb_spec (blockpool p + i * BLOCK_SIZE + 32) 0); [lia|]. by split_and!.
  - destruct IH as [Hf|[Hno' E]]; [intros; apply Hps; by right|left; done|right].
    split; [|done]. intros p' q [->|Hp']%elem_of_cons; [by apply Hno|by apply Hno'].
Qed.

(** The memory with the data of a fresh allocation zeroed if the flags ask
    for it. *)
Definition zeroed (flags a n : Z) (s : kheap) : kheap :=
  if Z.land flags HEAP_FLAG_ZEROMEMORY =? 0 then s else with_memory (fill (a + 32) n 0 (memory s)) s.

Lemma check_overflow_if s b : wf s → intact mapped s → heap_check_overflow mapped (with_if b s) = Ok (tt, with_if b s).
Proof using. intros Hwf Hint. apply check_overflow_ok; [by apply wf_with_if|done]. Qed.

Lemma kheap_alloc_ok ih s n flags : wf s → intact mapped s → all_mapped s → 0 < n ≤ SIZE_MAX - 40 →
  (∃ p i b, p ∈ s_heap_pool_list s ∧ 0 ≤ i ∧ run (blockbitmap p) i (blocks_needed n) ∧
     bits_updated (blockbitmap p) b i (blocks_needed n) false ∧ blocks_needed n < s_free_block_count s ∧
     kheap_alloc mapped ih n flags s =
       Ok (blockpool p + i * BLOCK_SIZE + 32, zeroed flags (blockpool p + i * BLOCK_SIZE) n (alloc_state s p b i n))) ∨
  ((s_free_block_count s ≤ blocks_needed n ∨
    ∀ p q, p ∈ s_heap_pool_list s → 0 ≤ q → ¬ run (blockbitmap p) q (blocks_needed n)) ∧
   kheap_alloc mapped ih n flags s =
     if Z.land flags HEAP_FLAG_ZEROMEMORY =? 0 then Ok (0, s) else Fault Bad_pointer).
Proof using.
  intros Hwf Hint Hmap Hn. remember (kheap_alloc mapped ih n flags s) as X eqn:EX. revert EX.
  destruct (blocks_needed_eq n) as (Ebn & _ & Hpos); [lia|].
  unfold kheap_alloc, irq_disable, lift, get, mbind at 1, M_bind at 1. rewrite Ebn.
  destruct (Z.eqb_spec n 0); [lia|]. destruct (Z.ltb_spec (SIZE_MAX - SIZEOF_ALLOC_HEADER) n); [unfold SIZEOF_ALLOC_HEADER in *; lia|].
  unfold mbind, M_bind. cbn. rewrite check_overflow_if by done. cbn. rewrite (wf_init _ Hwf). cbn.
  assert (∀ s2, with_if (arch_irq_restore (arch_irq_are_enabled (eflags_if s)) false) s2 = with_if (eflags_if s) s2) as Hirq.
  { intros s2. f_equal. by destruct (eflags_if s). }
  assert (∀ P, X = (if Z.land flags HEAP_FLAG_ZEROMEMORY =? 0 then Ok (0, s) else Fault Bad_pointer) → P →
    P ∧ X = (if Z.land flags HEAP_FLAG_ZEROMEMORY =? 0 then Ok (0, s) else Fault Bad_pointer)) as Hnone by done.
  destruct (Z.ltb_spec (blocks_needed n) (s_free_block_count s)) as [Hlt|Hge].
  - destruct (pools_alloc_ok (with_if false s) (s_heap_pool_list s) n) as [(p & i & b & Hp & Hi & Hrun & Hb & ->)|[Hno ->]]; try done.
    { by apply wf_with_if. }
    + cbn in Hp. change (alloc_state (with_if false s) p b i n) with (with_if false (alloc_state s p b i n)).
      pose proof (a_bounds s p n Hwf Hp Hn i b Hi Hrun Hb) as (Ha1 & Ha2 & Ha3 & Ha4 & Ha5).
      pose proof (needed_pos s p n Hwf Hp Hn i b Hi Hrun Hb) as [Hsz _].
      rewrite check_overflow_if.
      2: by eapply wf_alloc_state. 2: { eapply intact_alloc_state; try done. apply (Hmap p); [done|]. unfold in_pool, alloc_end, BLOCK_SIZE in *. cbn in *. lia. }
      unfold irq_restore, modify. cbn -[alloc_state BLOCK_SIZE]. rewrite Hirq.
      assert (with_if (eflags_if s) (with_if false (alloc_state s p b i n)) = alloc_state s p b i n) as -> by done.
      intros EX. left. exists p, i, b. split_and!; [done..|]. rewrite EX. clear EX. unfold zeroed.
      destruct (Z.land flags HEAP_FLAG_ZEROMEMORY =? 0); [done|]. cbn -[alloc_state BLOCK_SIZE].
      destruct (Z.eqb_spec (blockpool p + i * BLOCK_SIZE + 32) 0); [lia|].
      change SIZEOF_ALLOC_HEADER with 32. replace (blockpool p + i * BLOCK_SIZE + 32 - 32) with (blockpool p + i * BLOCK_SIZE) by lia.
      rewrite (vmemset_ok _ _ (AllocHeader (pool_addr p) (blocks_needed n) n)); [done|cbn; apply lookup_insert_eq|lia|].
      unfold alloc_end, BLOCK_SIZE. cbn. lia.
    + rewrite check_overflow_if by done. unfold irq_restore, modify. cbn. rewrite Hirq, with_if_twice, with_if_same.
      intros EX. right. split; [by right|]. rewrite EX. by destruct (Z.land flags HEAP_FLAG_ZEROMEMORY =? 0).
  - unfold mret, M_ret. rewrite check_overflow_if by done. unfold irq_restore, modify. cbn. rewrite Hirq, with_if_twice, with_if_same.
    intros EX. right. split; [by left|]. rewrite EX. by destruct (Z.land flags HEAP_FLAG_ZEROMEMORY =? 0).
Qed.
End interface.

(** ** Deallocation *)
Definition free_state (s : kheap) (p : pool_header) (b : bitmap) (a : Z) (h : alloc_header) : kheap :=
  let bc := alloc_block_count h in
  KHeap (s_free_block_count s + bc)
    (update_pool (pool_addr p) (set_blocks b (usedblock_count p - bc)) (s_heap_pool_list s))
    (filter (λ x, x ≠ a) (s_alloc_list s)) (delete a (headers s)) (fill a (bc * BLOCK_SIZE) 111 (memory s))
    (s_initial_heap_initialized s) (eflags_if s).

Section free.
Context (s : kheap) (a : Z) (h : alloc_header) (p : pool_header) (i : Z) (b : bitmap).
Hypothesis Hwf : wf s.
Hypothesis Ha : headers s !! a = Some h.
Hypothesis Hp : p ∈ s_heap_pool_list s.
Hypothesis Hpool : pool_addr p = pool h.
Hypothesis Hai : a = blockpool p + i * BLOCK_SIZE.
Hypothesis Hi : 0 ≤ i.
Hypothesis Hfit : i + alloc_block_count h ≤ block_count p.
Hypothesis Hclear : ∀ j, i ≤ j < i + alloc_block_count h → bit (blockbitmap p) j = false.
Hypothesis Hb : bits_updated (blockbitmap p) b i (alloc_block_count h) true.

Lemma bc_pos : 0 < alloc_block_count h.
Proof using All. apply (alloc_blocks _ _ _ (wf_headers _ Hwf a h Ha)). Qed.

Lemma fp_ok : pool_ok p.
Proof using All. pose proof (wf_pools _ Hwf) as Hps. rewrite Forall_forall in Hps. by apply Hps. Qed.

Lemma freed_bit j : bit b j = if (i <=? j) && (j <? i + alloc_block_count h) then true else bit (blockbitmap p) j.
Proof using All.
  destruct Hb as (_ & _ & Hbit). rewrite Hbit. pose proof (pool_words _ fp_ok).
  destruct (Z.leb_spec i j), (Z.ltb_spec j (i + alloc_block_count h)), (Z.ltb_spec j (word_count (blockbitmap p) * BITS_PER_WORD)); (done || lia).
Qed.

Lemma freed_count : count (bit b) (Z.to_nat (block_count p)) = free_blocks p + alloc_block_count h.
Proof using All.
  pose proof bc_pos. destruct (pool_size _ fp_ok).
  rewrite (count_updated (bit (blockbitmap p)) (bit b) i (alloc_block_count h) true); [|exact freed_bit|exact Hclear|done|lia].
  unfold free_blocks. lia.
Qed.

Lemma used_enough : alloc_block_count h ≤ usedblock_count p ≤ block_count p.
Proof using All.
  pose proof bc_pos. destruct (pool_size _ fp_ok). rewrite (pool_used _ fp_ok).
  pose proof (count_none (bit (blockbitmap p)) i (alloc_block_count h) (Z.to_nat (block_count p)) Hclear Hi) as Hn.
  pose proof (free_blocks_nonneg p). unfold free_blocks in *. lia.
Qed.

Lemma alloc_ok_free a' h' : headers s !! a' = Some h' → a' ≠ a →
  alloc_ok (update_pool (pool_addr p) (set_blocks b (usedblock_count p - alloc_block_count h)) (s_heap_pool_list s)) a' h'.
Proof using All.
  intros Ha' Hne. destruct (wf_headers _ Hwf a' h' Ha') as [(q & i' & Hq & Hqp & Ea' & Hi' & Hbnd & Hcl) Hpos' Hsz].
  split; [|done|done]. exists (if pool_addr q =? pool_addr p then set_blocks b (usedblock_count p - alloc_block_count h) q else q), i'.
  split_and!; [apply elem_of_update_pool; by exists q|by destruct (_ =? _)|by destruct (_ =? _)|done|by destruct (_ =? _)|].
  intros j Hj. destruct (Z.eqb_spec (pool_addr q) (pool_addr p)) as [E|]; [|by apply Hcl].
  assert (q = p) as -> by (eapply pool_unique; [apply Hwf|done..]). cbn. rewrite freed_bit, (Hcl j) by done.
  destruct (Z.leb_spec i j), (Z.ltb_spec j (i + alloc_block_count h)); try done. exfalso.
  destruct (wf_disjoint _ Hwf a h a' h' Ha Ha') as [Hd|Hd]; [congruence|..];
    unfold alloc_end, BLOCK_SIZE in *; lia.
Qed.

Lemma total_free_freed : total_free (s_heap_pool_list (free_state s p b a h)) = total_free (s_heap_pool_list s) + alloc_block_count h.
Proof using All.
  cbn. rewrite total_free_update by (done || apply Hwf). unfold free_blocks at 2. cbn. rewrite freed_count. lia.
Qed.

Lemma wf_free_state : wf (free_state s p b a h).
Proof using All.
  pose proof total_free_freed as Htot. pose proof used_enough as Hue.
  split; rewrite ?Htot; cbn [free_state s_initial_heap_initialized s_heap_pool_list s_alloc_list headers s_free_block_count].
  - apply Hwf.
  - apply Forall_forall. intros q' Hq'. apply elem_of_update_pool in Hq' as (q & Hq & ->).
    pose proof (wf_pools _ Hwf) as Hps. rewrite Forall_forall in Hps. specialize (Hps q Hq).
    destruct (Z.eqb_spec (pool_addr q) (pool_addr p)) as [E|]; [|done].
    assert (q = p) as -> by (eapply pool_unique; [apply Hwf|done..]). destruct Hps. destruct Hb as (Hbwf & Hwc & _).
    split; cbn; try done.
    + intros j. rewrite freed_bit. destruct (Z.leb_spec i j), (Z.ltb_spec j (i + alloc_block_count h)); cbn [andb]; try apply pool_bits0. lia.
    + by rewrite Hwc.
    + unfold free_blocks. cbn. rewrite freed_count. rewrite pool_used0. lia.
  - rewrite update_pool_addrs; [apply Hwf|done].
  - intros q1 q2 x Hq1 Hq2. apply elem_of_update_pool in Hq1 as (q1' & Hq1 & ->), Hq2 as (q2' & Hq2 & ->).
    intros Hx1 Hx2. assert (pool_addr q1' = pool_addr q2') as E.
    { apply (wf_pools_disjoint _ Hwf q1' q2' x); [done|done|revert Hx1; by destruct (pool_addr q1' =? _)|revert Hx2; by destruct (pool_addr q2' =? _)]. }
    by destruct (pool_addr q1' =? _), (pool_addr q2' =? _).
  - apply NoDup_filter, Hwf.
  - intros x. rewrite list_elem_of_filter, (wf_allocs _ Hwf), lookup_delete_is_Some. split; intros [? ?]; split; congruence || done.
  - intros a' h' [Hne Ha']%lookup_delete_Some. by apply alloc_ok_free.
  - intros a1 h1 a2 h2 [_ H1]%lookup_delete_Some [_ H2]%lookup_delete_Some. by apply (wf_disjoint _ Hwf).
  - by rewrite (wf_free _ Hwf).
  - rewrite total_blocks_update by done. apply Hwf.
Qed.

Lemma intact_free_state mapped : intact mapped s → intact mapped (free_state s p b a h).
Proof using All.
  intros Hint. apply (intact_same _ s); [done|done|..]; cbn.
  - by intros a' h' [_ ?]%lookup_delete_Some.
  - intros a' h' x [Hne Ha']%lookup_delete_Some Hx. apply fill_other.
    destruct (wf_disjoint _ Hwf a h a' h' Ha Ha'); [congruence|..]; unfold alloc_end, BLOCK_SIZE in *; lia.
Qed.
End free.

Section interface_free.
Context (mapped : Z → bool).

Lemma alloc_header_of_ok s a h : wf s → headers s !! a = Some h → alloc_header_of (a + 32) = a.
Proof using All.
  intros Hwf Ha. pose proof (alloc_pos s a h Hwf Ha).
  destruct (alloc_pool _ _ _ (wf_headers _ Hwf a h Ha)) as (p & i & Hp & _ & Ea & _).
  pose proof (wf_pools _ Hwf) as Hps. rewrite Forall_forall in Hps. destruct (pool_start _ (Hps p Hp)) as [_ Hal].
  unfold alloc_header_of. change SIZEOF_ALLOC_HEADER with 32.
  destruct (Z.eqb_spec (a + 32) 0); [lia|]. destruct (Z.ltb_spec (a + 32) 32); [lia|].
  destruct (Z.eqb_spec ((a + 32) mod ALIGNOF_MAX_ALIGN_T) 0) as [|Hne]; [cbn; lia|].
  destruct Hne. unfold ALIGNOF_MAX_ALIGN_T, BLOCK_SIZE in *. subst a. dlia.
Qed.

Lemma kheap_free_ok s a h : wf s → intact mapped s → headers s !! a = Some h →
  ∃ p i b, p ∈ s_heap_pool_list s ∧ pool_addr p = pool h ∧ a = blockpool p + i * BLOCK_SIZE ∧
    bits_updated (blockbitmap p) b i (alloc_block_count h) true ∧
    kheap_free mapped (a + 32) s = Ok (tt, free_state s p b a h) ∧
    wf (free_state s p b a h) ∧ intact mapped (free_state s p b a h).
Proof using All.
  intros Hwf Hint Ha. pose proof (alloc_pos s a h Hwf Ha) as Hpos.
  destruct (wf_headers _ Hwf a h Ha) as [(p & i & Hp & Hpool & Eai & Hi & Hfit & Hclear) Hbc Hsz].
  pose proof (wf_pools _ Hwf) as Hps. rewrite Forall_forall in Hps. specialize (Hps p Hp) as Hpok.
  destruct (pool_size _ Hpok) as [Hc1 Hc2]. destruct (pool_start _ Hpok) as [Hst _].
  pose proof (wf_max _ (pool_bitmap _ Hpok)) as Hmax. pose proof (pool_words _ Hpok).
  destruct (set_bits_ok (blockbitmap p) i (alloc_block_count h)) as (b & Eb & Hb); [apply Hpok|lia..|].
  pose proof (wf_free_state s a h p i b Hwf Ha Hp Hpool Eai Hi Hfit Hclear Hb) as Hwf'.
  pose proof (intact_free_state s a h p i b Hwf Ha Hp Hpool Eai Hi Hfit Hclear Hb mapped Hint) as Hint'.
  pose proof (used_enough s a h p i b Hwf Ha Hp Hpool Eai Hi Hfit Hclear Hb) as Hused.
  exists p, i, b. split_and!; try done.
  unfold kheap_free. destruct (Z.eqb_spec (a + 32) 0); [lia|].
  unfold irq_disable, mbind, M_bind. cbn -[BLOCK_SIZE free_state kheap_free].
  rewrite check_overflow_if by done. rewrite (alloc_header_of_ok s a h) by done.
  unfold read_header. cbn -[BLOCK_SIZE free_state]. rewrite Ha.
  destruct (Z.eqb_spec a 0); [lia|].
  destruct (Z.eqb_spec (pool h) 0) as [E0|_]; [by rewrite <- Hpool in E0; destruct (pool_addr0 _ Hpok)|].
  unfold get. cbn -[BLOCK_SIZE free_state pool_at]. rewrite <- Hpool.
  change (s_heap_pool_list (with_allocs _ _ _)) with (s_heap_pool_list s). rewrite (pool_at_in _ p) by (done || apply Hwf).
  unfold alloc_end, pool_end in *.
  rewrite (u32_small (block_count p * BLOCK_SIZE)) by (unfold BLOCK_SIZE in *; lia).
  rewrite (u32_small (blockpool p + _)) by (unfold BLOCK_SIZE in *; lia).
  rewrite (u32_small (alloc_block_count h * BLOCK_SIZE)) by (unfold BLOCK_SIZE in *; lia).
  rewrite (u32_small (a + _)) by (unfold BLOCK_SIZE in *; lia).
  change SIZEOF_ALLOC_HEADER with 32 in *. change SIZEOF_POISONVALUES with 8 in *.
  destruct (Z.ltb_spec (a + 32) (blockpool p)); [unfold BLOCK_SIZE in *; lia|].
  destruct (Z.leb_spec (blockpool p + block_count p * BLOCK_SIZE) (a + 32)); [unfold BLOCK_SIZE in *; lia|].
  destruct (Z.leb_spec (a + alloc_block_count h * BLOCK_SIZE) (blockpool p)); [unfold BLOCK_SIZE in *; lia|].
  destruct (Z.ltb_spec (blockpool p + block_count p * BLOCK_SIZE) (a + alloc_block_count h * BLOCK_SIZE)); [unfold BLOCK_SIZE in *; lia|].
  destruct (Z.ltb_spec (usedblock_count p) (alloc_block_count h)); [lia|]. cbn [orb].
  assert (u32 (a - blockpool p) / BLOCK_SIZE = i) as ->.
  { rewrite u32_small by (unfold BLOCK_SIZE in *; lia). rewrite Eai. unfold BLOCK_SIZE in *. dlia. }
  unfold lift. rewrite Eb. unfold modify. cbn -[BLOCK_SIZE free_state].
  assert (u32 (s_free_block_count s + alloc_block_count h) = s_free_block_count s + alloc_block_count h) as ->.
  { pose proof (total_free_freed s a h p i b Hwf Ha Hp Hpool Eai Hi Hfit Hclear Hb) as Htot.
    pose proof (total_free_le_blocks _ (wf_pools _ Hwf')). pose proof (wf_free_max _ Hwf').
    pose proof (wf_free _ Hwf). apply u32_small. pose proof (count_range (bit (blockbitmap p)) 0).
    assert (0 ≤ total_free (s_heap_pool_list s)); [|lia].
    clear. induction (s_heap_pool_list s) as [|q l IH]; cbn; [lia|]. pose proof (free_blocks_nonneg q). unfold total_free in IH. lia. }
  rewrite (vmemset_ok _ a h) by (done || (unfold alloc_end; lia)). cbn -[BLOCK_SIZE free_state].
  match goal with |- context [heap_check_overflow mapped ?s2] => change s2 with (with_if false (free_state s p b a h)) end.
  rewrite check_overflow_if by done. unfold irq_restore, modify. do 2 f_equal.
  unfold with_if, free_state. cbn. destruct (eflags_if s); reflexivity.
Qed.
End interface_free.

(** ** The interface is correct *)

Lemma wf_with_memory m s : wf s → wf (with_memory m s).
Proof. intros []. by split. Qed.

Lemma zeroed_header flags a n s' : headers (zeroed flags a n s') = headers s'.
Proof. unfold zeroed. by destruct (_ =? _). Qed.

Lemma zeroed_other flags a n s' x : ¬ (a + 32 ≤ x < a + 32 + n) → memory (zeroed flags a n s') x = memory s' x.
Proof. intros Hx. unfold zeroed. destruct (_ =? _); [done|]. cbn. by apply fill_other. Qed.

Lemma zeroed_data flags a n s' x : a + 32 ≤ x < a + 32 + n →
  memory (zeroed flags a n s') x = if Z.land flags HEAP_FLAG_ZEROMEMORY =? 0 then memory s' x else 0.
Proof. intros Hx. unfold zeroed. destruct (_ =? _); [done|]. cbn. by apply fill_in. Qed.

Section correct.
Context (mapped : Z → bool).

(** Between calls: the heap is well formed, no allocation is corrupted, and
    the pools are mapped. *)
Definition ready (s : kheap) : Prop := wf s ∧ intact mapped s ∧ all_mapped mapped s.

Lemma ready_with_memory m s : ready s →
  (∀ a h x, headers s !! a = Some h → a + 32 + size h ≤ x < alloc_end a h → m x = memory s x) →
  ready (with_memory m s).
Proof using All.
  intros (Hwf & Hint & Hmap) Hm. split_and!; [by apply wf_with_memory| |done].
  intros a h Ha. destruct (Hint a h Ha) as [H1 H2]. split; [done|].
  rewrite poison_intact_iff in *. intros i v Hv. rewrite <- (H2 i v Hv).
  destruct (poison_in_alloc _ a h i v (wf_pools _ Hwf) (wf_headers _ Hwf a h Ha) Hv) as (-> & Hlt & _).
  apply (Hm a h); [done|]. pose proof (alloc_size _ _ _ (wf_headers _ Hwf a h Ha)). lia.
Qed.

Lemma all_mapped_update s s' a f : (∀ p, block_count (f p) = block_count p ∧ blockpool (f p) = blockpool p) →
  s_heap_pool_list s' = update_pool a f (s_heap_pool_list s) → all_mapped mapped s → all_mapped mapped s'.
Proof using All.
  intros Hf E Hmap p x Hp Hx. rewrite E in Hp. apply elem_of_update_pool in Hp as (q & Hq & ->).
  apply (Hmap q x Hq). unfold in_pool, pool_end in *. destruct (Hf q) as [E1 E2].
  destruct (pool_addr q =? a); [by rewrite E1, E2 in Hx|done].
Qed.

Section ready_alloc.
Context (s : kheap) (p : pool_header) (b : bitmap) (i n flags : Z).
Hypothesis Hs : ready s.
Hypothesis Hp : p ∈ s_heap_pool_list s.
Hypothesis Hn : 0 < n ≤ SIZE_MAX - 40.
Hypothesis Hi : 0 ≤ i.
Hypothesis Hrun : run (blockbitmap p) i (blocks_needed n).
Hypothesis Hb : bits_updated (blockbitmap p) b i (blocks_needed n) false.
Let a := blockpool p + i * BLOCK_SIZE.
Let h := AllocHeader (pool_addr p) (blocks_needed n) n.

Lemma ready_alloc_state : ready (alloc_state s p b i n).
Proof using Hs Hp Hn Hi Hrun Hb.
  destruct Hs as (Hwf & Hint & Hmap).
  pose proof (a_bounds s p n Hwf Hp Hn i b Hi Hrun Hb) as (Ha1 & Ha2 & _ & Ha4 & _).
  pose proof (needed_pos s p n Hwf Hp Hn i b Hi Hrun Hb) as [_ Hpos].
  split_and!.
  - by apply wf_alloc_state.
  - apply intact_alloc_state; try done. apply (Hmap p); [done|].
    unfold in_pool, alloc_end, BLOCK_SIZE in *. cbn in *. lia.
  - eapply all_mapped_update; [|reflexivity|done]. done.
Qed.

Lemma ready_zeroed : ready (zeroed flags a n (alloc_state s p b i n)).
Proof using All.
  pose proof ready_alloc_state as Hr. unfold zeroed. destruct (_ =? _); [done|].
  apply ready_with_memory; [done|]. intros a' h' x Ha' Hx. apply fill_other.
  destruct Hs as (Hwf & _). pose proof (needed_pos s p n Hwf Hp Hn i b Hi Hrun Hb) as [Hsz _].
  cbn in Ha'. fold a h in Ha'. rewrite lookup_insert_Some in Ha'. destruct Ha' as [[<- <-]|[_ Ha']].
  - cbn in Hx. lia.
  - pose proof (new_disjoint s p n Hwf Hp Hn i b Hi Hrun Hb a' h' Ha') as Hd.
    pose proof (alloc_size _ _ _ (wf_headers _ Hwf a' h' Ha')).
    fold a h in Hd. unfold alloc_end, BLOCK_SIZE, SIZEOF_ALLOC_HEADER, SIZEOF_POISONVALUES in *. cbn in Hd, Hx. lia.
Qed.
End ready_alloc.

(** The allocation at [a] in [s'] is new: its blocks lie in a pool and apart
    from every allocation there was, those are unchanged, and its data is
    filled. *)
Record allocated (s s' : kheap) (a n flags : Z) : Prop := {
  allocated_aligned : a mod ALIGNOF_MAX_ALIGN_T = 0 ∧ 0 < a;
  allocated_header : ∃ h, headers s' = <[a - 32 := h]> (headers s) ∧ headers s !! (a - 32) = None ∧
    size h = n ∧ a + n + 8 ≤ alloc_end (a - 32) h;
  allocated_pool : ∃ p, p ∈ s_heap_pool_list s ∧ ∀ x, a - 32 ≤ x < a + n + 8 → in_pool p x;
  allocated_disjoint a' h' : headers s !! a' = Some h' → a + n + 8 ≤ a' ∨ alloc_end a' h' ≤ a - 32;
  allocated_others a' h' x : headers s !! a' = Some h' → a' ≤ x < alloc_end a' h' → memory s' x = memory s x;
  allocated_data x : a ≤ x < a + n →
    memory s' x = if Z.land flags HEAP_FLAG_ZEROMEMORY =? 0 then 144 else 0;
  allocated_if : eflags_if s' = eflags_if s;
}.

Lemma alloc_state_allocated s p b i n flags : ready s → p ∈ s_heap_pool_list s → 0 < n ≤ SIZE_MAX - 40 → 0 ≤ i →
  run (blockbitmap p) i (blocks_needed n) → bits_updated (blockbitmap p) b i (blocks_needed n) false →
  allocated s (zeroed flags (blockpool p + i * BLOCK_SIZE) n (alloc_state s p b i n))
    (blockpool p + i * BLOCK_SIZE + 32) n flags.
Proof using All.
  intros (Hwf & _ & _) Hp Hn Hi Hrun Hb.
  pose proof (a_bounds s p n Hwf Hp Hn i b Hi Hrun Hb) as (Ha1 & Ha2 & Ha3 & Ha4 & Ha5).
  pose proof (needed_pos s p n Hwf Hp Hn i b Hi Hrun Hb) as [Hsz Hpos].
  pose proof (new_disjoint s p n Hwf Hp Hn i b Hi Hrun Hb) as Hd.
  pose proof (new_fresh s p n Hwf Hp Hn i b Hi Hrun Hb) as Hfresh.
  set (a := blockpool p + i * BLOCK_SIZE) in *. set (h := AllocHeader (pool_addr p) (blocks_needed n) n) in *.
  assert (alloc_end a h = a + blocks_needed n * 64) as Hend by done.
  split; rewrite ?Z.add_simpl_r.
  - split; [done|lia].
  - exists h. rewrite zeroed_header. split_and!; [done|done|done|lia].
  - exists p. split; [done|]. intros x Hx. unfold in_pool. lia.
  - intros a' h' Ha'. destruct (Hd a' h' Ha'); lia.
  - intros a' h' x Ha' Hx. rewrite zeroed_other.
    2: { pose proof (alloc_size _ _ _ (wf_headers _ Hwf a' h' Ha')). destruct (Hd a' h' Ha'); lia. }
    apply (alloc_memory_other s p n Hwf Hp Hn i b Hi Hrun Hb). fold a h. destruct (Hd a' h' Ha'); lia.
  - intros x Hx. rewrite zeroed_data by lia. destruct (_ =? _); [|done].
    apply (alloc_memory_data s p n Hwf Hp Hn i b Hi Hrun Hb). exact Hx.
  - unfold zeroed. by destruct (_ =? _).
Qed.

(** No pool has room for [n] bytes, or there are too few blocks. *)
Definition no_room (s : kheap) (n : Z) : Prop :=
  s_free_block_count s ≤ blocks_needed n ∨
  ∀ p q, p ∈ s_heap_pool_list s → 0 ≤ q → ¬ run (blockbitmap p) q (blocks_needed n).

(** C3: [heap_alloc] of a well-formed heap either returns a
    16-byte aligned address whose [n] bytes lie in a pool, apart from every
    other allocation with its header and poison bytes, filled with 0x90 or
    with zeroes as the flags ask, and leaves the other allocations' contents
    alone and the heap well formed; or, when no run of blocks is long enough
    or no block would be left, it changes nothing and returns null - unless
    the memory was to be zeroed, when it writes through the null pointer. *)
Theorem kheap_alloc_correct ih s n flags (Hs : ready s) (Hn : 0 < n ≤ SIZE_MAX - 40) :
  (∃ a s', kheap_alloc mapped ih n flags s = Ok (a, s') ∧ ready s' ∧ allocated s s' a n flags) ∨
  (no_room s n ∧ kheap_alloc mapped ih n flags s =
     if Z.land flags HEAP_FLAG_ZEROMEMORY =? 0 then Ok (0, s) else Fault Bad_pointer).
Proof using All.
  destruct Hs as (Hwf & Hint & Hmap) eqn:E. clear E.
  destruct (kheap_alloc_ok mapped ih s n flags Hwf Hint Hmap Hn) as [(p & i & b & Hp & Hi & Hrun & Hb & _ & ->)|]; [|by right].
  left. do 2 eexists. split; [done|]. split; [by apply ready_zeroed|by apply alloc_state_allocated].
Qed.

(** C4: [heap_free] of an allocation of a well-formed heap
    returns, takes exactly that allocation out, gives its blocks back, fills
    them with 0x6f, and leaves every other byte, the other allocations and
    the interrupt flag alone and the heap well formed. *)
Theorem kheap_free_correct s a h (Hs : ready s) (Ha : headers s !! a = Some h) :
  ∃ s', kheap_free mapped (a + 32) s = Ok (tt, s') ∧ ready s' ∧
    headers s' = delete a (headers s) ∧ s_free_block_count s' = s_free_block_count s + alloc_block_count h ∧
    eflags_if s' = eflags_if s ∧
    ∀ x, memory s' x = if (a <=? x) && (x <? alloc_end a h) then 111 else memory s x.
Proof using All.
  destruct Hs as (Hwf & Hint & Hmap).
  destruct (kheap_free_ok mapped s a h Hwf Hint Ha) as (p & i & b & _ & _ & _ & _ & E & Hwf' & Hint').
  exists (free_state s p b a h). split; [done|]. split; [|done].
  split_and!; [done|done|]. eapply all_mapped_update; [|reflexivity|done]. done.
Qed.

Lemma update_pool_same ps p f : NoDup (pool_addr <$> ps) → p ∈ ps → f p = p → update_pool (pool_addr p) f ps = ps.
Proof using.
  intros Hnd Hp Hf. unfold update_pool. rewrite <- (list_fmap_id ps) at 2. apply list_fmap_ext.
  intros ? q Hq%list_elem_of_lookup_2. destruct (Z.eqb_spec (pool_addr q) (pool_addr p)) as [E|]; [|done].
  assert (q = p) as -> by (by eapply pool_unique). done.
Qed.

Lemma update_pool_twice ps a f g : (∀ p, pool_addr (f p) = pool_addr p) →
  update_pool a g (update_pool a f ps) = update_pool a (λ p, g (f p)) ps.
Proof using.
  intros Hf. unfold update_pool. rewrite <- list_fmap_compose. apply list_fmap_ext. intros ? p _. cbn.
  destruct (pool_addr p =? a) eqn:E; [by rewrite Hf, E|by rewrite E].
Qed.

Lemma filter_others (l : list Z) a : a ∉ l → filter (λ x, x ≠ a) l = l.
Proof using.
  induction l as [|x l IH]; [done|]. intros [Hne Hl]%not_elem_of_cons.
  rewrite filter_cons_True by congruence. by rewrite IH.
Qed.

(** Freeing what was just allocated. *)
Lemma free_alloc_state s p b i n p' i' b' : wf s → p ∈ s_heap_pool_list s → 0 < n ≤ SIZE_MAX - 40 → 0 ≤ i →
  run (blockbitmap p) i (blocks_needed n) → bits_updated (blockbitmap p) b i (blocks_needed n) false →
  let a := blockpool p + i * BLOCK_SIZE in
  let s1 := alloc_state s p b i n in
  p' ∈ s_heap_pool_list s1 → pool_addr p' = pool_addr p → a = blockpool p' + i' * BLOCK_SIZE →
  bits_updated (blockbitmap p') b' i' (blocks_needed n) true →
  ∀ h, alloc_block_count h = blocks_needed n → with_memory (memory s) (free_state s1 p' b' a h) = s.
Proof using.
  intros Hwf Hp Hn Hi Hrun Hb a s1 Hp' Epp Ea Hb' h Hh.
  pose proof (used_new s p n Hwf Hp Hn i b Hi Hrun Hb) as Hused.
  pose proof (new_bit s p n Hwf Hp Hn i b Hi Hrun Hb) as Hbit.
  pose proof (new_fresh s p n Hwf Hp Hn i b Hi Hrun Hb) as Hfresh. fold a in Hfresh.
  pose proof (needed_pos s p n Hwf Hp Hn i b Hi Hrun Hb) as [_ Hpos].
  apply elem_of_update_pool in Hp' as (q & Hq & E).
  assert (q = p) as ->.
  { eapply pool_unique; [apply Hwf|done..|]. rewrite <- Epp, E. by destruct (_ =? _). }
  rewrite Z.eqb_refl in E. subst p'. cbn in Ea, Hb'.
  assert (i' = i) as -> by (unfold a, BLOCK_SIZE in Ea; lia).
  unfold with_memory, free_state, s1. cbn -[update_pool]. rewrite Hh, Z.sub_add. fold a.
  destruct s as [fbc ps l hs m ini ei]. cbn -[update_pool] in *. f_equal.
  - rewrite update_pool_twice by done. apply update_pool_same; [apply Hwf|done|].
    rewrite !Hused, Z.add_simpl_r. unfold set_blocks. cbn.
    assert (b' = blockbitmap p) as ->; [|by destruct p].
    destruct Hb' as (Hwf1 & Hwc1 & Hbit1). pose proof (pool_bitmap _ (p_ok _ p n Hwf Hp Hn)) as Hbwf.
    apply bitmap_ext; [done|done|rewrite Hwc1; apply Hb|]. intros j. rewrite Hbit1, Hbit.
    destruct Hb as (_ & -> & _).
    destruct (Z.leb_spec i j), (Z.ltb_spec j (i + blocks_needed n)); cbn [andb]; try done.
    rewrite (Hrun j) by lia.
    destruct (run_in_bounds _ _ _ Hbwf Hpos Hrun) as [_ Hbnd].
    by destruct (Z.ltb_spec j (word_count (blockbitmap p) * BITS_PER_WORD)); [|lia].
  - rewrite filter_app. cbn. rewrite decide_False by (intros Hne; by apply Hne).
    rewrite app_nil_r. apply filter_others. intros Hx.
    apply (wf_allocs _ Hwf) in Hx as [? Hx]. cbn in Hx. congruence.
  - by apply delete_insert_id.
Qed.

(** [heap_free] undoes [heap_alloc]: but for the bytes of
    memory the heap is as it was before, bit for bit in its bitmaps. *)
Theorem kheap_alloc_free ih s n flags a s1 (Hs : ready s) (Hn : 0 < n ≤ SIZE_MAX - 40)
  (Halloc : kheap_alloc mapped ih n flags s = Ok (a, s1)) (Ha : a ≠ 0) :
  ∃ s2, kheap_free mapped a s1 = Ok (tt, s2) ∧ with_memory (memory s) s2 = s.
Proof using All.
  destruct Hs as (Hwf & Hint & Hmap) eqn:Es. clear Es.
  destruct (kheap_alloc_ok mapped ih s n flags Hwf Hint Hmap Hn) as [(p & i & b & Hp & Hi & Hrun & Hb & _ & E)|[_ E]];
    rewrite E in Halloc; [|destruct (_ =? _); [by injection Halloc as <- _|done]].
  injection Halloc as <- <-.
  set (h := AllocHeader (pool_addr p) (blocks_needed n) n).
  set (a := blockpool p + i * BLOCK_SIZE) in *. set (s1 := zeroed flags a n (alloc_state s p b i n)).
  destruct (ready_zeroed s p b i n flags Hs Hp Hn Hi Hrun Hb) as (Hwf1 & Hint1 & _).
  assert (headers s1 !! a = Some h) as Hh.
  { unfold s1. rewrite zeroed_header. cbn. apply lookup_insert_eq. }
  destruct (kheap_free_ok mapped s1 a h Hwf1 Hint1 Hh) as (p' & i' & b' & Hp' & Epp & Ea & Hb' & Ef & _).
  exists (free_state s1 p' b' a h). split; [exact Ef|].
  assert (s_heap_pool_list s1 = s_heap_pool_list (alloc_state s p b i n)) as Eps by (unfold s1, zeroed; by destruct (_ =? _)).
  rewrite Eps in Hp'.
  rewrite <- (free_alloc_state s p b i n p' i' b' Hwf Hp Hn Hi Hrun Hb Hp' Epp Ea Hb' h eq_refl) at 2.
  unfold s1, zeroed. by destruct (_ =? _).
Qed.

(** A write past the end of an allocation - a poison byte that is no longer
    there - makes the next [heap_alloc], [heap_free] or [heap_realloc] panic. *)
Theorem heap_overflow_detected ih s a h n flags ptr (Hwf : wf s) (Ha : headers s !! a = Some h)
  (Hover : poison_intact (memory s) (poison_addr a (size h)) = false) (Hn : 0 < n ≤ SIZE_MAX - 40) (Hptr : ptr ≠ 0) :
  kheap_alloc mapped ih n flags s = Fault Panic ∧
  kheap_free mapped ptr s = Fault Panic ∧
  kheap_realloc mapped ih ptr n flags s = Fault Panic.
Proof using All.
  assert (heap_check_overflow mapped (with_if false s) = Fault Panic) as Ec.
  { apply (check_overflow_panics _ _ a h); [by apply wf_with_if|done|done]. }
  destruct (blocks_needed_eq n) as (Ebn & _); [lia|].
  split_and!.
  - unfold kheap_alloc, lift, mbind, M_bind. rewrite Ebn. destruct (Z.eqb_spec n 0); [lia|].
    destruct (Z.ltb_spec (SIZE_MAX - SIZEOF_ALLOC_HEADER) n); [unfold SIZEOF_ALLOC_HEADER in *; lia|].
    cbn. by rewrite Ec.
  - unfold kheap_free. destruct (Z.eqb_spec ptr 0); [done|]. unfold mbind, M_bind. cbn. by rewrite Ec.
  - unfold kheap_realloc. destruct (Z.eqb_spec ptr 0); [done|]. unfold mbind, M_bind. cbn. by rewrite Ec.
Qed.

Lemma ready_with_if s v : ready s → ready (with_if v s).
Proof using. intros (Hwf & Hint & Hmap). split_and!; [by apply wf_with_if|done|done]. Qed.

Lemma copied_ready s s1 p n flags src k : wf s → ready s1 → allocated s s1 p n flags → 0 ≤ k ≤ n →
  ready (with_memory (copy p src k (memory s1)) s1) ∧
  (∀ x, ¬ (p ≤ x < p + k) → memory (with_memory (copy p src k (memory s1)) s1) x = memory s1 x) ∧
  (∀ a1 h1, headers s !! a1 = Some h1 → alloc_end a1 h1 ≤ p - 32 ∨ p + n + 8 ≤ a1).
Proof using.
  intros Hwf Hr1 Hal Hk. destruct (allocated_header _ _ _ _ _ Hal) as (h' & Eh & _ & Hsz' & _).
  assert (∀ x, ¬ (p ≤ x < p + k) → copy p src k (memory s1) x = memory s1 x) as Hm.
  { intros x Hx. unfold copy. destruct (Z.leb_spec p x), (Z.ltb_spec x (p + k)); (done || lia). }
  assert (∀ a1 h1, headers s !! a1 = Some h1 → alloc_end a1 h1 ≤ p - 32 ∨ p + n + 8 ≤ a1) as Hd.
  { intros a1 h1 H1. destruct (allocated_disjoint _ _ _ _ _ Hal a1 h1 H1); [by right|by left]. }
  split_and!; [|exact Hm|exact Hd]. apply ready_with_memory; [done|]. intros a1 h1 x H1 Hx. apply Hm. rewrite Eh in H1.
  apply lookup_insert_Some in H1 as [[<- <-]|[_ H1]]; [lia|].
  pose proof (alloc_size _ _ _ (wf_headers _ Hwf a1 h1 H1)) as Hsz.
  unfold SIZEOF_ALLOC_HEADER, SIZEOF_POISONVALUES in Hsz. destruct (Hd a1 h1 H1); unfold alloc_end in *; lia.
Qed.

(** C5: [heap_realloc] of an allocation returns a new allocation
    that starts with the bytes of the old one, as many as both have, and frees
    the old one; when there is no room it changes nothing and returns null -
    unless the memory was to be zeroed. *)
Theorem kheap_realloc_keeps ih s a h n flags (Hs : ready s) (Ha : headers s !! a = Some h) (Hn : 0 < n ≤ SIZE_MAX - 40) :
  (∃ p s' h', kheap_realloc mapped ih (a + 32) n flags s = Ok (p, s') ∧ ready s' ∧ eflags_if s' = eflags_if s ∧
     headers s' = delete a (<[p - 32 := h']> (headers s)) ∧ headers s !! (p - 32) = None ∧ size h' = n ∧
     (∀ x, 0 ≤ x < Z.min n (size h) → memory s' (p + x) = memory s (a + 32 + x)) ∧
     (∀ a1 h1 x, a1 ≠ a → headers s !! a1 = Some h1 → a1 ≤ x < alloc_end a1 h1 → memory s' x = memory s x)) ∨
  (no_room s n ∧ kheap_realloc mapped ih (a + 32) n flags s =
     if Z.land flags HEAP_FLAG_ZEROMEMORY =? 0 then Ok (0, s) else Fault Bad_pointer).
Proof using All.
  destruct Hs as (Hwf & Hint & Hmap) eqn:Es. clear Es. pose proof (alloc_pos s a h Hwf Ha) as Hpos.
  pose proof (alloc_size _ _ _ (wf_headers _ Hwf a h Ha)) as Hsz.
  remember (kheap_realloc mapped ih (a + 32) n flags s) as X eqn:EX. revert EX.
  unfold kheap_realloc. destruct (Z.eqb_spec (a + 32) 0); [lia|].
  unfold irq_disable, mbind, M_bind. cbn -[BLOCK_SIZE kheap_free kheap_alloc].
  rewrite check_overflow_if by done. rewrite (alloc_header_of_ok mapped s a h) by done.
  destruct (Z.eqb_spec a 0); [lia|]. unfold read_header. cbn -[BLOCK_SIZE kheap_free kheap_alloc]. rewrite Ha.
  set (k := if n <? size h then n else size h).
  assert (k = Z.min n (size h)) as Ek by (unfold k; destruct (Z.ltb_spec n (size h)); lia). clearbody k.
  set (s0 := with_if false s). assert (ready s0) as Hs0 by by apply ready_with_if.
  destruct Hs0 as (Hwf0 & Hint0 & Hmap0) eqn:Es. clear Es.
  destruct (kheap_alloc_ok mapped ih s0 n flags Hwf0 Hint0 Hmap0 Hn) as [(p & i & b & Hp & Hi & Hrun & Hb & _ & E)|[Hno E]].
  - rewrite E. pose proof (alloc_state_allocated s0 p b i n flags Hs0 Hp Hn Hi Hrun Hb) as Hal.
    pose proof (ready_zeroed s0 p b i n flags Hs0 Hp Hn Hi Hrun Hb) as Hr1.
    set (p' := blockpool p + i * BLOCK_SIZE + 32) in *.
    set (s1 := zeroed flags (blockpool p + i * BLOCK_SIZE) n (alloc_state s0 p b i n)) in *. clearbody p' s1.
    destruct (allocated_header _ _ _ _ _ Hal) as (h' & Eh & Hfr & Hsz' & Hend).
    destruct (allocated_aligned _ _ _ _ _ Hal) as [_ Hp0].
    assert (a ≠ p' - 32) as Hne by (intros ->; cbn in Hfr; congruence).
    destruct (Z.eqb_spec p' 0); [lia|]. change SIZEOF_ALLOC_HEADER with 32 in *. change SIZEOF_POISONVALUES with 8 in *.
    rewrite (in_allocation_ok _ _ h'); [|by rewrite Eh, lookup_insert_eq|lia|lia].
    unfold modify.
    set (s2 := with_memory (copy p' (a + 32) k (memory s1)) s1).
    destruct (copied_ready s0 s1 p' n flags (a + 32) k Hwf0 Hr1 Hal ltac:(lia)) as (Hr2 & Hm2 & Hd). fold s2 in Hr2, Hm2.
    assert (headers s2 !! a = Some h) as Ha2 by (cbn; rewrite Eh, lookup_insert_ne by done; exact Ha).
    destruct Hr2 as (Hwf2 & Hint2 & Hmap2).
    destruct (kheap_free_ok mapped s2 a h Hwf2 Hint2 Ha2) as (q & j & b2 & _ & _ & _ & _ & Ef & Hwf3 & Hint3).
    rewrite Ef. unfold irq_restore, modify, mret, M_ret. intros EX. left.
    exists p', (with_if (eflags_if s) (free_state s2 q b2 a h)), h'.
    assert (eflags_if s1 = false) as Hei by (by rewrite (allocated_if _ _ _ _ _ Hal)).
    split_and!.
    + rewrite EX. do 2 f_equal. unfold with_if. cbn. rewrite Hei. by destruct (eflags_if s).
    + apply ready_with_if. split_and!; [done|done|]. eapply all_mapped_update; [|reflexivity|exact Hmap2]. done.
    + done.
    + cbn. by rewrite Eh.
    + exact Hfr.
    + done.
    + intros x Hx. cbn. rewrite fill_other.
      2: { destruct (Hd a h Ha); unfold alloc_end in *; lia. }
      unfold copy. destruct (Z.leb_spec p' (p' + x)), (Z.ltb_spec (p' + x) (p' + k)); try lia. cbn.
      replace (p' + x - p' + (a + 32)) with (a + 32 + x) by lia.
      rewrite (allocated_others _ _ _ _ _ Hal a h); [done|done|unfold alloc_end; lia].
    + intros a1 h1 x Hne1 H1 Hx. cbn. rewrite fill_other.
      2: { destruct (wf_disjoint _ Hwf a h a1 h1 Ha H1); [congruence|..]; unfold alloc_end in *; lia. }
      change (memory s2 x = memory s x). rewrite Hm2; [by rewrite (allocated_others _ _ _ _ _ Hal a1 h1)|].
      pose proof (alloc_size _ _ _ (wf_headers _ Hwf a1 h1 H1)). destruct (Hd a1 h1 H1); lia.
  - rewrite E. intros EX. right. split; [exact Hno|]. rewrite EX.
    destruct (_ =? 0); [|done]. cbn. unfold s0, irq_restore, modify. cbn.
    do 2 f_equal. destruct s as [? ? ? ? ? ? []]; done.
Qed.
End correct.

(** ** The initial heap *)

(** The variables of heap.c when the kernel starts. *)
Definition boot_heap (m : Z → Z) (ei : bool) : kheap := KHeap 0 [] [] ∅ m false ei.

Definition zero_bitmap (n : nat) : bitmap := Bitmap (replicate n 0) (Z.of_nat n).

Lemma zero_bitmap_wf n : Z.of_nat n * BITS_PER_WORD < 2 ^ 31 → bitmap_wf (zero_bitmap n).
Proof.
  intros Hn. split; cbn; [by rewrite length_replicate| |done].
  apply Forall_replicate. unfold is_u32. lia.
Qed.

Lemma zero_bitmap_bit n j : bit (zero_bitmap n) j = false.
Proof.
  unfold bit. destruct (0 <=? j); [|done]. cbn.
  destruct (replicate n 0 !! Z.to_nat (j / BITS_PER_WORD)) as [w|] eqn:E; [|done].
  apply lookup_replicate in E as [-> _]. apply Z.bits_0.
Qed.

Lemma count_all f n : (∀ j, 0 ≤ j < Z.of_nat n → f j = true) → count f n = Z.of_nat n.
Proof. induction n as [|n IH]; intros Hf; [done|]. cbn [count]. rewrite IH, Hf; [lia|lia|]. intros; apply Hf; lia. Qed.

Definition initial_state (ih : Z) (b : bitmap) (m : Z → Z) (ei : bool) : kheap :=
  KHeap 32703 [PoolHeader ih (ih + 4160) b 32703 0 512] [] ∅ m true ei.

Lemma initial_aligned a : a mod 16 = 0 → (a + 4160) mod ALIGNOF_MAX_ALIGN_T = 0.
Proof. intros. unfold ALIGNOF_MAX_ALIGN_T. dlia. Qed.

Section initial.
Context (mapped : Z → bool) (ih : Z) (m : Z → Z).
Hypothesis Hih : 0 < ih ∧ ih mod 16 = 0 ∧ ih + INITIAL_HEAP_SIZE < 2 ^ 32.
Hypothesis Hmapped : ∀ a, ih ≤ a < ih + INITIAL_HEAP_SIZE → mapped a = true.

Lemma add_mem_initial : ∃ b, bits_updated (zero_bitmap 1024) b 0 32703 true ∧
  add_mem ih INITIAL_HEAP_SIZE (boot_heap m false) = Ok (PoolHeader ih (ih + 4160) b 32703 0 512, initial_state ih b m false).
Proof using All.
  destruct (set_bits_ok (zero_bitmap 1024) 0 32703) as (b & Eb & Hb); [by apply zero_bitmap_wf|done..|].
  exists b. split; [exact Hb|]. destruct Hih as (H1 & H2 & H3).
  unfold add_mem, get, lift, massert, mbind, M_bind. change (ASSERT_IRQ_DISABLED _) with (Ok tt).
  change (size_to_blocks INITIAL_HEAP_SIZE BLOCK_SIZE) with (Ok 32768). cbn beta iota.
  change (bitmap_needed_word_count 32768) with (Ok 1024). cbn beta iota.
  change (size_to_blocks (u32 (u32 (SIZEOF_POOL_HEADER + 1024 * 4) + u32 (32768 * BLOCK_SIZE))) ARCH_PAGESIZE) with (Ok 514). cbn beta iota.
  change (fit_pages (S (Z.to_nat 514)) INITIAL_HEAP_SIZE 514) with (Ok 512). cbn beta iota.
  change (size_to_blocks (u32 (512 * ARCH_PAGESIZE)) BLOCK_SIZE) with (Ok 32768). cbn beta iota.
  change (bitmap_needed_word_count 32768) with (Ok 1024). cbn beta iota zeta.
  change (u32 (u32 (1024 * 4) + (ALIGNOF_MAX_ALIGN_T - u32 (1024 * 4) mod ALIGNOF_MAX_ALIGN_T))) with 4112.
  change (u32 (u32 (32768 * BLOCK_SIZE) - 4112 - SIZEOF_POOL_HEADER) / BLOCK_SIZE) with 32703.
  change (Bitmap (replicate (Z.to_nat 1024) 0) 1024) with (zero_bitmap 1024).
  unfold SIZEOF_POOL_HEADER, INITIAL_HEAP_SIZE in *. rewrite u32_small by lia.
  replace (ih + 48 + 4112) with (ih + 4160) by lia.
  rewrite (proj2 (Z.eqb_eq ((ih + 4160) mod ALIGNOF_MAX_ALIGN_T) 0) (initial_aligned _ H2)).
  rewrite Eb. reflexivity.
Qed.

Lemma initial_pool_ok b : bitmap_wf b → word_count b = word_count (zero_bitmap 1024) →
  (∀ j, bit b j = (0 <=? j) && (j <? 32703)) → count (bit b) (Z.to_nat 32703) = 32703 →
  pool_ok (PoolHeader ih (ih + 4160) b 32703 0 512).
Proof using All.
  intros Hwf Hwc Hbit' Hcount. destruct Hih as (H1 & H2 & H3). unfold INITIAL_HEAP_SIZE in H3.
  split; unfold free_blocks, pool_end; cbn [blockbitmap pool_addr blockpool block_count usedblock_count].
  - exact Hwf.
  - lia.
  - split; [lia|by apply initial_aligned].
  - unfold BLOCK_SIZE. lia.
  - intros j. rewrite Hbit'. destruct (Z.ltb_spec j 32703); [lia|by rewrite andb_false_r].
  - rewrite Hwc. unfold BITS_PER_WORD, zero_bitmap, word_count. lia.
  - rewrite Hcount. lia.
Qed.

Lemma initial_state_ready b ei : bits_updated (zero_bitmap 1024) b 0 32703 true → ready mapped (initial_state ih b m ei).
Proof using All.
  intros (Hwf & Hwc & Hbit). destruct Hih as (H1 & H2 & H3).
  assert (∀ j, bit b j = (0 <=? j) && (j <? 32703)) as Hbit'.
  { intros j. rewrite Hbit, zero_bitmap_bit, Z.add_0_l. cbn [word_count zero_bitmap].
    destruct (Z.leb_spec 0 j), (Z.ltb_spec j 32703), (Z.ltb_spec j (Z.of_nat 1024 * BITS_PER_WORD)); try done.
    unfold BITS_PER_WORD in *. lia. }
  assert (count (bit b) (Z.to_nat 32703) = 32703) as Hcount.
  { rewrite count_all; [lia|]. intros j Hj. rewrite Hbit'.
    destruct (Z.leb_spec 0 j), (Z.ltb_spec j 32703); (done || lia). }
  unfold INITIAL_HEAP_SIZE in *. split_and!; [split| |]; cbn [s_heap_pool_list s_alloc_list headers s_free_block_count initial_state].
  - done.
  - constructor; [|constructor]. apply (initial_pool_ok b Hwf Hwc Hbit' Hcount).
  - apply NoDup_singleton.
  - by intros p q a ->%list_elem_of_singleton ->%list_elem_of_singleton.
  - constructor.
  - intros a. rewrite lookup_empty. split; intros H; [apply elem_of_nil in H; destruct H|destruct H as [h H]; discriminate H].
  - intros a h Ha. by rewrite lookup_empty in Ha.
  - intros a h a' h' Ha. by rewrite lookup_empty in Ha.
  - unfold total_free. cbn [foldr]. unfold free_blocks. cbn [blockbitmap block_count]. rewrite Hcount. lia.
  - unfold total_blocks. cbn [foldr block_count]. lia.
  - intros a h Ha. change ((∅ : gmap Z alloc_header) !! a = Some h) in Ha; by rewrite lookup_empty in Ha.
  - intros p a ->%list_elem_of_singleton. unfold in_pool, pool_end, BLOCK_SIZE. cbn [blockpool block_count]. intros Ha. apply Hmapped. lia.
Qed.

(** The first [heap_alloc] of the kernel makes the initial
    heap: 32703 blocks of the two megabytes are left beside the bookkeeping,
    and every allocation that leaves a block is served. *)
Theorem first_heap_alloc n flags ei (Hn : 0 < n) (Hroom : blocks_needed n < 32703) :
  ∃ a s b, kheap_alloc mapped ih n flags (boot_heap m ei) = Ok (a, s) ∧ ready mapped s ∧
    allocated (initial_state ih b m ei) s a n flags ∧ s_free_block_count s = 32703 - blocks_needed n.
Proof using All.
  destruct add_mem_initial as (b & Hb & Eadd). pose proof (initial_state_ready b ei Hb) as Hr.
  assert (0 < n ≤ SIZE_MAX - 40) as Hn'.
  { unfold blocks_needed, SIZEOF_ALLOC_HEADER, BLOCK_SIZE in Hroom. change SIZEOF_POISONVALUES with 8 in Hroom. unfold SIZE_MAX. split; [lia|]. dlia. }
  assert (kheap_alloc mapped ih n flags (boot_heap m ei) = kheap_alloc mapped ih n flags (initial_state ih b m ei)) as ->.
  { unfold kheap_alloc, lift, mbind, M_bind. destruct (blocks_needed_eq n) as (-> & _ & _); [lia|].
    destruct (Z.eqb_spec n 0); [lia|]. destruct (Z.ltb_spec (SIZE_MAX - SIZEOF_ALLOC_HEADER) n); [unfold SIZEOF_ALLOC_HEADER in *; lia|].
    cbn -[add_mem initial_state INITIAL_HEAP_SIZE alloc_from_pools]. change (with_if false (boot_heap m ei)) with (boot_heap m false).
    change (heap_check_overflow mapped (boot_heap m false)) with (Ok ((), boot_heap m false)). cbn -[add_mem initial_state INITIAL_HEAP_SIZE alloc_from_pools].
    rewrite Eadd. rewrite (check_overflow_if mapped _ false) by apply Hr. done. }
  destruct Hr as (Hwf & Hint & Hmap) eqn:E. clear E.
  destruct (kheap_alloc_ok mapped ih _ n flags Hwf Hint Hmap Hn') as [(p & i & b' & Hp & Hi & Hrun & Hb' & _ & ->)|[Hno _]].
  - do 2 eexists. exists b. split; [done|]. split; [by apply ready_zeroed|]. split; [by eapply alloc_state_allocated|].
    unfold zeroed. by destruct (_ =? _).
  - exfalso. destruct (blocks_needed_eq n) as (_ & _ & Hpos); [lia|]. destruct Hno as [Hno|Hno].
    + cbn [s_free_block_count initial_state] in Hno. lia.
    + apply (Hno (PoolHeader ih (ih + 4160) b 32703 0 512) 0); [by left|done|]. cbn [blockbitmap].
      intros j Hj. destruct Hb as (_ & _ & Hbit). rewrite Hbit. cbn [word_count zero_bitmap].
      unfold BITS_PER_WORD. destruct (Z.leb_spec 0 j), (Z.ltb_spec j (0 + 32703)), (Z.ltb_spec j (Z.of_nat 1024 * 32)); (done || lia).
Qed.
End initial.

(** ** A small heap *)

Definition small_pool (used : Z) (words : list Z) : pool_header := PoolHeader 4096 8192 (Bitmap words 1) 4 used 1.
(** A pool of four blocks, and the same with an allocation of ten bytes in
    the first block. *)
Definition small_heap : kheap := KHeap 4 [small_pool 0 [15]] [] ∅ (λ _, 0) true true.
Definition small_heap_used : kheap := alloc_state small_heap (small_pool 0 [15]) (Bitmap [14] 1) 0 10.

Lemma small_bits w j : 0 ≤ w < 16 → bit (Bitmap [w] 1) j = true → 0 ≤ j < 4.
Proof.
  intros Hw. unfold bit, BITS_PER_WORD. destruct (Z.leb_spec 0 j); [|done]. cbn.
  destruct (Z.to_nat (j / 32)) as [|k] eqn:E; [|done]. cbn. intros Hj. split; [done|].
  assert (j < 32) by dlia. rewrite Z.mod_small in Hj by lia.
  destruct (Z.lt_ge_cases j 4); [done|]. apply Z.testbit_true in Hj; [|lia].
  pose proof (Z.pow_le_mono_r 2 4 j). rewrite Z.div_small in Hj by lia. done.
Qed.

Lemma small_heap_ready : ready (λ _, true) small_heap.
Proof.
  split_and!; [split| |done]; cbn [s_heap_pool_list s_alloc_list headers s_free_block_count small_heap]; try done.
  - constructor; [|constructor]. split; try done.
    + split; [done| |done]. constructor; [done|constructor].
    + intros j Hj. apply (small_bits 15) in Hj; [cbn; lia|done].
  - apply NoDup_singleton.
  - by intros p q a ->%list_elem_of_singleton ->%list_elem_of_singleton.
  - constructor.
  - intros a. rewrite lookup_empty. split; [by intros ?%elem_of_nil|by intros [??]].
Qed.

Lemma small_run : run (blockbitmap (small_pool 0 [15])) 0 (blocks_needed 10).
Proof. intros j Hj. assert (j = 0) as -> by (change (blocks_needed 10) with 1 in Hj; lia). reflexivity. Qed.

Lemma small_updated : bits_updated (blockbitmap (small_pool 0 [15])) (Bitmap [14] 1) 0 (blocks_needed 10) false.
Proof.
  split_and!; [split; [done|constructor; [done|constructor]|done]|done|]. change (blocks_needed 10) with 1. intros j.
  destruct (decide (j = 0)) as [->|]; [reflexivity|].
  destruct (decide (j = 1)) as [->|]; [reflexivity|].
  destruct (decide (j = 2)) as [->|]; [reflexivity|].
  destruct (decide (j = 3)) as [->|]; [reflexivity|].
  destruct (bit (Bitmap [14] 1) j) eqn:E1; [apply (small_bits 14) in E1; lia|].
  destruct (bit (blockbitmap (small_pool 0 [15])) j) eqn:E2; [apply (small_bits 15) in E2; lia|].
  by destruct (_ && _).
Qed.

Lemma small_heap_used_ready : ready (λ _, true) small_heap_used.
Proof.
  apply ready_alloc_state; [apply small_heap_ready|by left|done|done|apply small_run|apply small_updated].
Qed.

Lemma kheap_alloc_correct_witness :
  (∃ a s', kheap_alloc (λ _, true) 0 10 0 small_heap = Ok (a, s') ∧ a = 8224 ∧ ready (λ _, true) s' ∧
     allocated small_heap s' a 10 0).
Proof.
  destruct (kheap_alloc_correct (λ _, true) 0 small_heap 10 0 small_heap_ready) as [(a & s' & E & H1 & H2)|[_ E]].
  - split; [reflexivity|discriminate].
  - exists a, s'. split; [exact E|]. split; [|split; [exact H1|exact H2]].
    revert E. generalize s' as s''. intros s'' E.
    assert (match kheap_alloc (λ _, true) 0 10 0 small_heap with Ok (a, _) => a | Fault _ => 0 end = 8224) as E2
      by (vm_compute; reflexivity).
    rewrite E in E2. exact E2.
  - exfalso. assert (match kheap_alloc (λ _, true) 0 10 0 small_heap with Ok (a, _) => a | Fault _ => 0 end = 8224) as E2
      by (vm_compute; reflexivity).
    rewrite E in E2. discriminate E2.
Defined.

Lemma kheap_free_correct_witness : ∃ s', kheap_free (λ _, true) (8192 + 32) small_heap_used = Ok (tt, s') ∧
  ready (λ _, true) s' ∧ headers s' = delete 8192 (headers small_heap_used) ∧ s_free_block_count s' = 3 + 1.
Proof.
  destruct (kheap_free_correct (λ _, true) small_heap_used 8192 (AllocHeader 4096 1 10) small_heap_used_ready eq_refl)
    as (s' & E & H1 & H2 & H3 & _).
  exists s'. split; [exact E|]. split; [exact H1|]. split; [exact H2|exact H3].
Defined.

Lemma kheap_alloc_free_witness : ∃ s1 s2, kheap_alloc (λ _, true) 0 10 0 small_heap = Ok (8224, s1) ∧
  kheap_free (λ _, true) 8224 s1 = Ok (tt, s2) ∧ with_memory (λ _, 0) s2 = small_heap.
Proof.
  destruct (kheap_alloc (λ _, true) 0 10 0 small_heap) as [[a s1]|] eqn:E; [|exfalso; vm_compute in E; discriminate E].
  assert (a = 8224) as ->.
  { assert (match kheap_alloc (λ _, true) 0 10 0 small_heap with Ok (a, _) => a | Fault _ => 0 end = 8224) as E2
      by (vm_compute; reflexivity).
    rewrite E in E2. exact E2. }
  destruct (kheap_alloc_free (λ _, true) 0 small_heap 10 0 8224 s1 small_heap_ready ltac:(split; [reflexivity|discriminate]) E
    ltac:(discriminate)) as (s2 & E2 & H2).
  exists s1, s2. split; [reflexivity|]. split; [exact E2|exact H2].
Defined.

(** The allocation of [small_heap_used] with its first poison byte cleared. *)
Definition overrun_heap : kheap := with_memory (fill (8224 + 10) 1 0 (memory small_heap_used)) small_heap_used.

Lemma heap_overflow_detected_witness : kheap_free (λ _, true) 8224 overrun_heap = Fault Panic.
Proof.
  apply (proj1 (proj2 (heap_overflow_detected (λ _, true) 0 overrun_heap 8192 (AllocHeader 4096 1 10) 10 0 8224
    (wf_with_memory _ _ (proj1 small_heap_used_ready)) eq_refl eq_refl
    ltac:(split; [reflexivity|discriminate]) ltac:(discriminate)))).
Defined.

Lemma kheap_realloc_keeps_witness : ∃ p s', kheap_realloc (λ _, true) 0 (8192 + 32) 20 0 small_heap_used = Ok (p, s') ∧
  ready (λ _, true) s' ∧ ∀ x, 0 ≤ x < 10 → memory s' (p + x) = memory small_heap_used (8192 + 32 + x).
Proof.
  destruct (kheap_realloc_keeps (λ _, true) 0 small_heap_used 8192 (AllocHeader 4096 1 10) 20 0
    small_heap_used_ready eq_refl ltac:(split; [reflexivity|discriminate])) as [(p & s' & h' & E & H1 & _ & _ & _ & _ & H2 & _)|[_ E]].
  - exists p, s'. split; [exact E|]. split; [exact H1|exact H2].
  - exfalso. assert (match kheap_realloc (λ _, true) 0 (8192 + 32) 20 0 small_heap_used with Ok (a, _) => a | Fault _ => 0 end ≠ 0) as E2
      by (vm_compute; discriminate).
    apply E2. rewrite E. reflexivity.
Defined.

Lemma first_heap_alloc_witness : ∃ a s b, kheap_alloc (λ _, true) 1048576 100 0 (boot_heap (λ _, 0) true) = Ok (a, s) ∧
  ready (λ _, true) s ∧ allocated (initial_state 1048576 b (λ _, 0) true) s a 100 0 ∧ s_free_block_count s = 32703 - 3.
Proof.
  exact (first_heap_alloc (λ _, true) 1048576 (λ _, 0) (conj eq_refl (conj eq_refl eq_refl)) (λ _ _, eq_refl)
    100 0 true eq_refl eq_refl).
Defined.

(** The guard of [heap_alloc] leaves out the poison bytes: sizes of nearly
    4 GiB wrap to a few bytes, one block is taken, and filling the "data" of
    it runs over everything behind. *)
Lemma wrapping_size_overruns n flags : 2 ^ 32 - 39 ≤ n ≤ 2 ^ 32 - 33 →
  kheap_alloc (λ _, true) 0 n flags small_heap = Fault Out_of_bounds.
Proof.
  intros Hn. assert (n ∈ [4294967257; 4294967258; 4294967259; 4294967260; 4294967261; 4294967262; 4294967263]) as Hin.
  { rewrite !elem_of_cons. lia. }
  rewrite !elem_of_cons in Hin. clear Hn.
  destruct Hin as [->|[->|[->|[->|[->|[->|[->|Hin]]]]]]]; [reflexivity..|by apply elem_of_nil in Hin].
Qed.

(** The last free block is never given out: [heap_alloc] wants more free
    blocks than it takes. *)
Lemma last_block_refused : kheap_alloc (λ _, true) 0 200 0 small_heap = Ok (0, small_heap).
Proof. reflexivity. Qed.
