(* ===== verification/Kbd.v ===== *)
(** Keyboards (src/kernel/io/kbd.c, src/include/kernel/io/kbd.h): the state of
    the keys, the lock and modifier flags, and the queue of key events. *)
From S2P Require Import Prelude StrUtil Arch Queue.

(** ** Keys *)

Inductive KBD_KEY :=
  | KBD_KEY_INVALID | KBD_KEY_ESCAPE | KBD_KEY_F1 | KBD_KEY_F2 | KBD_KEY_F3 | KBD_KEY_F4
  | KBD_KEY_F5 | KBD_KEY_F6 | KBD_KEY_F7 | KBD_KEY_F8 | KBD_KEY_F9 | KBD_KEY_F10 | KBD_KEY_F11
  | KBD_KEY_F12 | KBD_KEY_PRINT_SCREEN | KBD_KEY_SCROLL_LOCK | KBD_KEY_PAUSE
  | KBD_KEY_BACK_TICK | KBD_KEY_1 | KBD_KEY_2 | KBD_KEY_3 | KBD_KEY_4 | KBD_KEY_5 | KBD_KEY_6
  | KBD_KEY_7 | KBD_KEY_8 | KBD_KEY_9 | KBD_KEY_0 | KBD_KEY_MINUS | KBD_KEY_EQUALS
  | KBD_KEY_BACKSPACE | KBD_KEY_TAB | KBD_KEY_Q | KBD_KEY_W | KBD_KEY_E | KBD_KEY_R | KBD_KEY_T
  | KBD_KEY_Y | KBD_KEY_U | KBD_KEY_I | KBD_KEY_O | KBD_KEY_P | KBD_KEY_OPEN_BRACKET
  | KBD_KEY_CLOSE_BRACKET | KBD_KEY_BASKSLASH | KBD_KEY_CAPS_LOCK | KBD_KEY_A | KBD_KEY_S
  | KBD_KEY_D | KBD_KEY_F | KBD_KEY_G | KBD_KEY_H | KBD_KEY_J | KBD_KEY_K | KBD_KEY_L
  | KBD_KEY_SEMICOLON | KBD_KEY_QUOTE | KBD_KEY_ENTER | KBD_KEY_LSHIFT | KBD_KEY_Z | KBD_KEY_X
  | KBD_KEY_C | KBD_KEY_V | KBD_KEY_B | KBD_KEY_N | KBD_KEY_M | KBD_KEY_COMMA | KBD_KEY_DOT
  | KBD_KEY_SLASH | KBD_KEY_RSHIFT | KBD_KEY_LCTRL | KBD_KEY_LSUPER | KBD_KEY_LALT
  | KBD_KEY_SPACE | KBD_KEY_RALT | KBD_KEY_RSUPER | KBD_KEY_MENU | KBD_KEY_RCTRL
  | KBD_KEY_INSERT | KBD_KEY_DELETE | KBD_KEY_HOME | KBD_KEY_END | KBD_KEY_PAGE_UP
  | KBD_KEY_PAGE_DOWN | KBD_KEY_UP | KBD_KEY_DOWN | KBD_KEY_LEFT | KBD_KEY_RIGHT
  | KBD_KEY_NUM_LOCK | KBD_KEY_NUMPAD_DIV | KBD_KEY_NUMPAD_MUL | KBD_KEY_NUMPAD_SUB
  | KBD_KEY_NUMPAD_7 | KBD_KEY_NUMPAD_8 | KBD_KEY_NUMPAD_9 | KBD_KEY_NUMPAD_4
  | KBD_KEY_NUMPAD_5 | KBD_KEY_NUMPAD_6 | KBD_KEY_NUMPAD_ADD | KBD_KEY_NUMPAD_1
  | KBD_KEY_NUMPAD_2 | KBD_KEY_NUMPAD_3 | KBD_KEY_NUMPAD_0 | KBD_KEY_NUMPAD_POINT
  | KBD_KEY_NUMPAD_ENTER.

(** The enumerators in order; a key is its position. *)
Definition all_keys : list KBD_KEY := [
  KBD_KEY_INVALID; KBD_KEY_ESCAPE; KBD_KEY_F1; KBD_KEY_F2; KBD_KEY_F3; KBD_KEY_F4; KBD_KEY_F5;
  KBD_KEY_F6; KBD_KEY_F7; KBD_KEY_F8; KBD_KEY_F9; KBD_KEY_F10; KBD_KEY_F11; KBD_KEY_F12;
  KBD_KEY_PRINT_SCREEN; KBD_KEY_SCROLL_LOCK; KBD_KEY_PAUSE; KBD_KEY_BACK_TICK; KBD_KEY_1;
  KBD_KEY_2; KBD_KEY_3; KBD_KEY_4; KBD_KEY_5; KBD_KEY_6; KBD_KEY_7; KBD_KEY_8; KBD_KEY_9;
  KBD_KEY_0; KBD_KEY_MINUS; KBD_KEY_EQUALS; KBD_KEY_BACKSPACE; KBD_KEY_TAB; KBD_KEY_Q;
  KBD_KEY_W; KBD_KEY_E; KBD_KEY_R; KBD_KEY_T; KBD_KEY_Y; KBD_KEY_U; KBD_KEY_I; KBD_KEY_O;
  KBD_KEY_P; KBD_KEY_OPEN_BRACKET; KBD_KEY_CLOSE_BRACKET; KBD_KEY_BASKSLASH; KBD_KEY_CAPS_LOCK;
  KBD_KEY_A; KBD_KEY_S; KBD_KEY_D; KBD_KEY_F; KBD_KEY_G; KBD_KEY_H; KBD_KEY_J; KBD_KEY_K;
  KBD_KEY_L; KBD_KEY_SEMICOLON; KBD_KEY_QUOTE; KBD_KEY_ENTER; KBD_KEY_LSHIFT; KBD_KEY_Z;
  KBD_KEY_X; KBD_KEY_C; KBD_KEY_V; KBD_KEY_B; KBD_KEY_N; KBD_KEY_M; KBD_KEY_COMMA; KBD_KEY_DOT;
  KBD_KEY_SLASH; KBD_KEY_RSHIFT; KBD_KEY_LCTRL; KBD_KEY_LSUPER; KBD_KEY_LALT; KBD_KEY_SPACE;
  KBD_KEY_RALT; KBD_KEY_RSUPER; KBD_KEY_MENU; KBD_KEY_RCTRL; KBD_KEY_INSERT; KBD_KEY_DELETE;
  KBD_KEY_HOME; KBD_KEY_END; KBD_KEY_PAGE_UP; KBD_KEY_PAGE_DOWN; KBD_KEY_UP; KBD_KEY_DOWN;
  KBD_KEY_LEFT; KBD_KEY_RIGHT; KBD_KEY_NUM_LOCK; KBD_KEY_NUMPAD_DIV; KBD_KEY_NUMPAD_MUL;
  KBD_KEY_NUMPAD_SUB; KBD_KEY_NUMPAD_7; KBD_KEY_NUMPAD_8; KBD_KEY_NUMPAD_9; KBD_KEY_NUMPAD_4;
  KBD_KEY_NUMPAD_5; KBD_KEY_NUMPAD_6; KBD_KEY_NUMPAD_ADD; KBD_KEY_NUMPAD_1; KBD_KEY_NUMPAD_2;
  KBD_KEY_NUMPAD_3; KBD_KEY_NUMPAD_0; KBD_KEY_NUMPAD_POINT; KBD_KEY_NUMPAD_ENTER
].

Definition key_code (key : KBD_KEY) : Z :=
  match key with
  | KBD_KEY_INVALID => 0 | KBD_KEY_ESCAPE => 1 | KBD_KEY_F1 => 2 | KBD_KEY_F2 => 3
  | KBD_KEY_F3 => 4 | KBD_KEY_F4 => 5 | KBD_KEY_F5 => 6 | KBD_KEY_F6 => 7 | KBD_KEY_F7 => 8
  | KBD_KEY_F8 => 9 | KBD_KEY_F9 => 10 | KBD_KEY_F10 => 11 | KBD_KEY_F11 => 12
  | KBD_KEY_F12 => 13 | KBD_KEY_PRINT_SCREEN => 14 | KBD_KEY_SCROLL_LOCK => 15
  | KBD_KEY_PAUSE => 16 | KBD_KEY_BACK_TICK => 17 | KBD_KEY_1 => 18 | KBD_KEY_2 => 19
  | KBD_KEY_3 => 20 | KBD_KEY_4 => 21 | KBD_KEY_5 => 22 | KBD_KEY_6 => 23 | KBD_KEY_7 => 24
  | KBD_KEY_8 => 25 | KBD_KEY_9 => 26 | KBD_KEY_0 => 27 | KBD_KEY_MINUS => 28
  | KBD_KEY_EQUALS => 29 | KBD_KEY_BACKSPACE => 30 | KBD_KEY_TAB => 31 | KBD_KEY_Q => 32
  | KBD_KEY_W => 33 | KBD_KEY_E => 34 | KBD_KEY_R => 35 | KBD_KEY_T => 36 | KBD_KEY_Y => 37
  | KBD_KEY_U => 38 | KBD_KEY_I => 39 | KBD_KEY_O => 40 | KBD_KEY_P => 41
  | KBD_KEY_OPEN_BRACKET => 42 | KBD_KEY_CLOSE_BRACKET => 43 | KBD_KEY_BASKSLASH => 44
  | KBD_KEY_CAPS_LOCK => 45 | KBD_KEY_A => 46 | KBD_KEY_S => 47 | KBD_KEY_D => 48
  | KBD_KEY_F => 49 | KBD_KEY_G => 50 | KBD_KEY_H => 51 | KBD_KEY_J => 52 | KBD_KEY_K => 53
  | KBD_KEY_L => 54 | KBD_KEY_SEMICOLON => 55 | KBD_KEY_QUOTE => 56 | KBD_KEY_ENTER => 57
  | KBD_KEY_LSHIFT => 58 | KBD_KEY_Z => 59 | KBD_KEY_X => 60 | KBD_KEY_C => 61
  | KBD_KEY_V => 62 | KBD_KEY_B => 63 | KBD_KEY_N => 64 | KBD_KEY_M => 65 | KBD_KEY_COMMA => 66
  | KBD_KEY_DOT => 67 | KBD_KEY_SLASH => 68 | KBD_KEY_RSHIFT => 69 | KBD_KEY_LCTRL => 70
  | KBD_KEY_LSUPER => 71 | KBD_KEY_LALT => 72 | KBD_KEY_SPACE => 73 | KBD_KEY_RALT => 74
  | KBD_KEY_RSUPER => 75 | KBD_KEY_MENU => 76 | KBD_KEY_RCTRL => 77 | KBD_KEY_INSERT => 78
  | KBD_KEY_DELETE => 79 | KBD_KEY_HOME => 80 | KBD_KEY_END => 81 | KBD_KEY_PAGE_UP => 82
  | KBD_KEY_PAGE_DOWN => 83 | KBD_KEY_UP => 84 | KBD_KEY_DOWN => 85 | KBD_KEY_LEFT => 86
  | KBD_KEY_RIGHT => 87 | KBD_KEY_NUM_LOCK => 88 | KBD_KEY_NUMPAD_DIV => 89
  | KBD_KEY_NUMPAD_MUL => 90 | KBD_KEY_NUMPAD_SUB => 91 | KBD_KEY_NUMPAD_7 => 92
  | KBD_KEY_NUMPAD_8 => 93 | KBD_KEY_NUMPAD_9 => 94 | KBD_KEY_NUMPAD_4 => 95
  | KBD_KEY_NUMPAD_5 => 96 | KBD_KEY_NUMPAD_6 => 97 | KBD_KEY_NUMPAD_ADD => 98
  | KBD_KEY_NUMPAD_1 => 99 | KBD_KEY_NUMPAD_2 => 100 | KBD_KEY_NUMPAD_3 => 101
  | KBD_KEY_NUMPAD_0 => 102 | KBD_KEY_NUMPAD_POINT => 103 | KBD_KEY_NUMPAD_ENTER => 104
  end.

Definition KBD_KEY_COUNT : Z := 105.

Lemma all_keys_code k : all_keys !! Z.to_nat (key_code k) = Some k.
Proof. by destruct k. Qed.

#[export] Instance key_code_inj : Inj (=) (=) key_code.
Proof.
  intros k1 k2 E. pose proof (all_keys_code k1) as H1. rewrite E, all_keys_code in H1.
  by injection H1.
Qed.

#[export] Instance KBD_KEY_eq_dec : EqDecision KBD_KEY.
Proof.
  refine (λ k1 k2, match decide (key_code k1 = key_code k2) with
    | left E => left (inj key_code _ _ E) | right N => right (λ E, N (f_equal key_code E)) end).
Defined.

Lemma key_code_range k : 0 ≤ key_code k < KBD_KEY_COUNT.
Proof. destruct k; by split. Qed.

#[global] Arguments key_code : simpl never.

(** ** The keymap *)

Definition KBD_FLAG_LOCK_CAPS : Z := Z.shiftl 1 0.
Definition KBD_FLAG_LOCK_NUM : Z := Z.shiftl 1 1.
Definition KBD_FLAG_LOCK_SCROLL : Z := Z.shiftl 1 2.
Definition KBD_FLAG_MOD_LSHIFT : Z := Z.shiftl 1 8.
Definition KBD_FLAG_MOD_RSHIFT : Z := Z.shiftl 1 9.
Definition KBD_FLAG_MOD_LCTRL : Z := Z.shiftl 1 10.
Definition KBD_FLAG_MOD_RCTRL : Z := Z.shiftl 1 11.
Definition KBD_FLAG_MOD_LALT : Z := Z.shiftl 1 12.
Definition KBD_FLAG_MOD_RALT : Z := Z.shiftl 1 13.
Definition KBD_FLAG_MOD_LSUPER : Z := Z.shiftl 1 14.
Definition KBD_FLAG_MOD_RSUPER : Z := Z.shiftl 1 15.
Definition KBD_FLAG_MOD_SHIFT : Z := Z.lor KBD_FLAG_MOD_LSHIFT KBD_FLAG_MOD_RSHIFT.

Definition KEYMAP_FLAG_SHIFT : Z := Z.shiftl 1 0.
Definition KEYMAP_FLAG_CAPSLOCK : Z := Z.shiftl 1 1.
Definition KEYMAP_FLAG_NUMLOCK : Z := Z.shiftl 1 2.

(** [chr] and [chralt] are character codes. *)
Record keymapentry := Keymapentry { key_alt : KBD_KEY; chr : Z; chralt : Z; flags : Z }.

Definition KEY_NOCHAR : keymapentry := Keymapentry KBD_KEY_INVALID 0 0 0.
Definition KEY_CHAR (c : Z) : keymapentry := Keymapentry KBD_KEY_INVALID c c 0.
Definition KEY_CHAR_WITH_SHIFT (c calt : Z) : keymapentry :=
  Keymapentry KBD_KEY_INVALID c calt KEYMAP_FLAG_SHIFT.
Definition KEY_CHAR_WITH_CAPSLOCK (c calt : Z) : keymapentry :=
  Keymapentry KBD_KEY_INVALID c calt (Z.lor KEYMAP_FLAG_SHIFT KEYMAP_FLAG_CAPSLOCK).
Definition KEY_CHAR_WITH_NUMLOCK (numlock_off_k : KBD_KEY) (c : Z) : keymapentry :=
  Keymapentry numlock_off_k c c KEYMAP_FLAG_NUMLOCK.

Definition KEYMAP (key : KBD_KEY) : keymapentry :=
  match key with
  | KBD_KEY_INVALID => Keymapentry KBD_KEY_INVALID 0 0 0
  | KBD_KEY_ESCAPE => KEY_NOCHAR
  | KBD_KEY_F1 => KEY_NOCHAR
  | KBD_KEY_F2 => KEY_NOCHAR
  | KBD_KEY_F3 => KEY_NOCHAR
  | KBD_KEY_F4 => KEY_NOCHAR
  | KBD_KEY_F5 => KEY_NOCHAR
  | KBD_KEY_F6 => KEY_NOCHAR
  | KBD_KEY_F7 => KEY_NOCHAR
  | KBD_KEY_F8 => KEY_NOCHAR
  | KBD_KEY_F9 => KEY_NOCHAR
  | KBD_KEY_F10 => KEY_NOCHAR
  | KBD_KEY_F11 => KEY_NOCHAR
  | KBD_KEY_F12 => KEY_NOCHAR
  | KBD_KEY_PRINT_SCREEN => KEY_NOCHAR
  | KBD_KEY_SCROLL_LOCK => KEY_NOCHAR
  | KBD_KEY_PAUSE => KEY_NOCHAR
  | KBD_KEY_BACK_TICK => KEY_CHAR_WITH_SHIFT 96 126
  | KBD_KEY_1 => KEY_CHAR_WITH_SHIFT 49 33
  | KBD_KEY_2 => KEY_CHAR_WITH_SHIFT 50 64
  | KBD_KEY_3 => KEY_CHAR_WITH_SHIFT 51 35
  | KBD_KEY_4 => KEY_CHAR_WITH_SHIFT 52 36
  | KBD_KEY_5 => KEY_CHAR_WITH_SHIFT 53 37
  | KBD_KEY_6 => KEY_CHAR_WITH_SHIFT 54 94
  | KBD_KEY_7 => KEY_CHAR_WITH_SHIFT 55 38
  | KBD_KEY_8 => KEY_CHAR_WITH_SHIFT 56 42
  | KBD_KEY_9 => KEY_CHAR_WITH_SHIFT 57 40
  | KBD_KEY_0 => KEY_CHAR_WITH_SHIFT 48 41
  | KBD_KEY_MINUS => KEY_CHAR_WITH_SHIFT 45 95
  | KBD_KEY_EQUALS => KEY_CHAR_WITH_SHIFT 61 43
  | KBD_KEY_BACKSPACE => KEY_CHAR 8
  | KBD_KEY_TAB => KEY_CHAR 9
  | KBD_KEY_Q => KEY_CHAR_WITH_CAPSLOCK 113 81
  | KBD_KEY_W => KEY_CHAR_WITH_CAPSLOCK 119 87
  | KBD_KEY_E => KEY_CHAR_WITH_CAPSLOCK 101 69
  | KBD_KEY_R => KEY_CHAR_WITH_CAPSLOCK 114 82
  | KBD_KEY_T => KEY_CHAR_WITH_CAPSLOCK 116 84
  | KBD_KEY_Y => KEY_CHAR_WITH_CAPSLOCK 121 89
  | KBD_KEY_U => KEY_CHAR_WITH_CAPSLOCK 117 85
  | KBD_KEY_I => KEY_CHAR_WITH_CAPSLOCK 105 73
  | KBD_KEY_O => KEY_CHAR_WITH_CAPSLOCK 111 79
  | KBD_KEY_P => KEY_CHAR_WITH_CAPSLOCK 112 80
  | KBD_KEY_OPEN_BRACKET => KEY_CHAR_WITH_SHIFT 91 123
  | KBD_KEY_CLOSE_BRACKET => KEY_CHAR_WITH_SHIFT 93 125
  | KBD_KEY_BASKSLASH => KEY_CHAR_WITH_SHIFT 92 124
  | KBD_KEY_CAPS_LOCK => KEY_NOCHAR
  | KBD_KEY_A => KEY_CHAR_WITH_CAPSLOCK 97 65
  | KBD_KEY_S => KEY_CHAR_WITH_CAPSLOCK 115 83
  | KBD_KEY_D => KEY_CHAR_WITH_CAPSLOCK 100 68
  | KBD_KEY_F => KEY_CHAR_WITH_CAPSLOCK 102 70
  | KBD_KEY_G => KEY_CHAR_WITH_CAPSLOCK 103 71
  | KBD_KEY_H => KEY_CHAR_WITH_CAPSLOCK 104 72
  | KBD_KEY_J => KEY_CHAR_WITH_CAPSLOCK 106 74
  | KBD_KEY_K => KEY_CHAR_WITH_CAPSLOCK 107 75
  | KBD_KEY_L => KEY_CHAR_WITH_CAPSLOCK 108 76
  | KBD_KEY_SEMICOLON => KEY_CHAR_WITH_SHIFT 59 58
  | KBD_KEY_QUOTE => KEY_CHAR_WITH_SHIFT 39 34
  | KBD_KEY_ENTER => KEY_CHAR 10
  | KBD_KEY_LSHIFT => KEY_NOCHAR
  | KBD_KEY_Z => KEY_CHAR_WITH_CAPSLOCK 122 90
  | KBD_KEY_X => KEY_CHAR_WITH_CAPSLOCK 120 88
  | KBD_KEY_C => KEY_CHAR_WITH_CAPSLOCK 99 67
  | KBD_KEY_V => KEY_CHAR_WITH_CAPSLOCK 118 86
  | KBD_KEY_B => KEY_CHAR_WITH_CAPSLOCK 98 66
  | KBD_KEY_N => KEY_CHAR_WITH_CAPSLOCK 110 78
  | KBD_KEY_M => KEY_CHAR_WITH_CAPSLOCK 109 77
  | KBD_KEY_COMMA => KEY_CHAR_WITH_SHIFT 44 60
  | KBD_KEY_DOT => KEY_CHAR_WITH_SHIFT 46 62
  | KBD_KEY_SLASH => KEY_CHAR_WITH_SHIFT 47 63
  | KBD_KEY_RSHIFT => KEY_NOCHAR
  | KBD_KEY_LCTRL => KEY_NOCHAR
  | KBD_KEY_LSUPER => KEY_NOCHAR
  | KBD_KEY_LALT => KEY_NOCHAR
  | KBD_KEY_SPACE => KEY_CHAR 32
  | KBD_KEY_RALT => KEY_NOCHAR
  | KBD_KEY_RSUPER => KEY_NOCHAR
  | KBD_KEY_MENU => KEY_NOCHAR
  | KBD_KEY_RCTRL => KEY_NOCHAR
  | KBD_KEY_INSERT => KEY_NOCHAR
  | KBD_KEY_DELETE => KEY_NOCHAR
  | KBD_KEY_HOME => KEY_NOCHAR
  | KBD_KEY_END => KEY_NOCHAR
  | KBD_KEY_PAGE_UP => KEY_NOCHAR
  | KBD_KEY_PAGE_DOWN => KEY_NOCHAR
  | KBD_KEY_UP => KEY_NOCHAR
  | KBD_KEY_DOWN => KEY_NOCHAR
  | KBD_KEY_LEFT => KEY_NOCHAR
  | KBD_KEY_RIGHT => KEY_NOCHAR
  | KBD_KEY_NUM_LOCK => KEY_NOCHAR
  | KBD_KEY_NUMPAD_MUL => KEY_CHAR 42
  | KBD_KEY_NUMPAD_DIV => KEY_CHAR 47
  | KBD_KEY_NUMPAD_SUB => KEY_CHAR 45
  | KBD_KEY_NUMPAD_7 => KEY_CHAR_WITH_NUMLOCK KBD_KEY_HOME 55
  | KBD_KEY_NUMPAD_8 => KEY_CHAR_WITH_NUMLOCK KBD_KEY_UP 56
  | KBD_KEY_NUMPAD_9 => KEY_CHAR_WITH_NUMLOCK KBD_KEY_PAGE_UP 57
  | KBD_KEY_NUMPAD_4 => KEY_CHAR_WITH_NUMLOCK KBD_KEY_LEFT 52
  | KBD_KEY_NUMPAD_5 => KEY_CHAR_WITH_NUMLOCK KBD_KEY_INVALID 53
  | KBD_KEY_NUMPAD_6 => KEY_CHAR_WITH_NUMLOCK KBD_KEY_RIGHT 54
  | KBD_KEY_NUMPAD_ADD => KEY_CHAR 43
  | KBD_KEY_NUMPAD_1 => KEY_CHAR_WITH_NUMLOCK KBD_KEY_END 49
  | KBD_KEY_NUMPAD_2 => KEY_CHAR_WITH_NUMLOCK KBD_KEY_DOWN 50
  | KBD_KEY_NUMPAD_3 => KEY_CHAR_WITH_NUMLOCK KBD_KEY_PAGE_DOWN 51
  | KBD_KEY_NUMPAD_0 => KEY_CHAR_WITH_NUMLOCK KBD_KEY_INSERT 48
  | KBD_KEY_NUMPAD_POINT => KEY_CHAR 46
  | KBD_KEY_NUMPAD_ENTER => KEY_CHAR 10
  end.

(** ** State *)

Record kbd_key_event := Event { key : KBD_KEY; ev_chr : Z; is_down : bool }.

(** The event as the queue holds it: the key as a little-endian [int], the
    character, the bit field and two bytes of padding. *)
Definition SIZEOF_EVENT : Z := 8.
Definition encode_event (e : kbd_key_event) : list Z :=
  [key_code (key e); 0; 0; 0; ev_chr e; if is_down e then 1 else 0; 0; 0].

Definition EVENT_QUEUE_CAP : Z := 500.

(** [s_event_queue] is [None] until [event_queue] has initialised it. *)
Record kbd := Kbd {
  s_event_queue : option queue;
  s_keyboard_list : list Z;
  s_flags : Z;
  s_keysdown : list bool;
  eflags_if : bool;
}.

Definition with_flags (f : Z) (s : kbd) : kbd :=
  Kbd (s_event_queue s) (s_keyboard_list s) f (s_keysdown s) (eflags_if s).
Definition with_keysdown (l : list bool) (s : kbd) : kbd :=
  Kbd (s_event_queue s) (s_keyboard_list s) (s_flags s) l (eflags_if s).
Definition with_queue (q : queue) (s : kbd) : kbd :=
  Kbd (Some q) (s_keyboard_list s) (s_flags s) (s_keysdown s) (eflags_if s).
Definition with_irq (b : bool) (s : kbd) : kbd :=
  Kbd (s_event_queue s) (s_keyboard_list s) (s_flags s) (s_keysdown s) b.

Definition initial_kbd (irq : bool) : kbd :=
  Kbd None [] 0 (replicate (Z.to_nat KBD_KEY_COUNT) false) irq.

(** Does [flags & mask] count as true? *)
Definition has_flag (fl mask : Z) : bool := negb (Z.land fl mask =? 0).

(** ** Operations

    [updateleds] is the operation of that name of the keyboard drivers, whose
    state is [D]. *)
Section kbd.
Context {D : Type} (updateleds : Z → bool → bool → bool → M D Z).

Fixpoint update_each_led (devices : list Z) (scroll caps num : bool) (d : D) : res D :=
  match devices with
  | [] => Ok d
  | device :: devices =>
      _ ← assert_ (negb (device =? 0));
      '(_, d) ← updateleds device scroll caps num d;
      update_each_led devices scroll caps num d
  end.

Definition update_leds : M (kbd * D) unit := λ '(s, d),
  _ ← ASSERT_IRQ_DISABLED (eflags_if s);
  d ← update_each_led (s_keyboard_list s)
    (has_flag (s_flags s) KBD_FLAG_LOCK_SCROLL) (has_flag (s_flags s) KBD_FLAG_LOCK_CAPS)
    (has_flag (s_flags s) KBD_FLAG_LOCK_NUM) d;
  Ok (tt, (s, d)).

Definition event_queue (s : kbd) : queue :=
  match s_event_queue s with
  | Some q => q
  | None => queue_init (replicate (Z.to_nat (SIZEOF_EVENT * EVENT_QUEUE_CAP)) 0)
      SIZEOF_EVENT EVENT_QUEUE_CAP
  end.

(** A full queue drops the event. *)
Definition enqueue_event (event : kbd_key_event) (s : kbd) : res kbd :=
  let '(prev_interrupts, irq) := arch_irq_disable (eflags_if s) in
  '(ret, q) ← queue_enqueue (event_queue s) (encode_event event) SIZEOF_EVENT;
  Ok (with_irq (arch_irq_restore prev_interrupts irq) (with_queue q s)).

Definition kbd_pull_event (out : list Z) (s : kbd) : res (bool * list Z * kbd) :=
  let '(prev_interrupts, irq) := arch_irq_disable (eflags_if s) in
  '(result, out, q) ← queue_dequeue out (event_queue s) SIZEOF_EVENT;
  Ok (result, out, with_irq (arch_irq_restore prev_interrupts irq) (with_queue q s)).

(** The key to report and its character. *)
Definition report (key : KBD_KEY) (fl : Z) : KBD_KEY * Z :=
  let entry := KEYMAP key in
  if has_flag (flags entry) KEYMAP_FLAG_NUMLOCK && negb (has_flag fl KBD_FLAG_LOCK_NUM)
  then (key_alt entry, 0)
  else if (has_flag (flags entry) KEYMAP_FLAG_CAPSLOCK && has_flag fl KBD_FLAG_LOCK_CAPS) ||
          (has_flag (flags entry) KEYMAP_FLAG_SHIFT && has_flag fl KBD_FLAG_MOD_SHIFT)
  then (key, chralt entry)
  else (key, chr entry).

Definition enqueue_report (key : KBD_KEY) (down : bool) (s : kbd) : res kbd :=
  let '(key_to_report, c) := report key (s_flags s) in
  if negb (key_code key_to_report =? key_code KBD_KEY_INVALID)
  then enqueue_event (Event key_to_report c down) s
  else Ok s.

Definition clear_flag (f : Z) (s : kbd) : kbd := with_flags (Z.land (s_flags s) (not32 f)) s.

Definition kbd_key_released (key : KBD_KEY) (s : kbd) : res kbd :=
  let s := match key with
    | KBD_KEY_LSHIFT => clear_flag KBD_FLAG_MOD_LSHIFT s
    | KBD_KEY_RSHIFT => clear_flag KBD_FLAG_MOD_RSHIFT s
    | KBD_KEY_LCTRL => clear_flag KBD_FLAG_MOD_LCTRL s
    | KBD_KEY_RCTRL => clear_flag KBD_FLAG_MOD_RCTRL s
    | KBD_KEY_LALT => clear_flag KBD_FLAG_MOD_LALT s
    | KBD_KEY_RALT => clear_flag KBD_FLAG_MOD_RALT s
    | KBD_KEY_LSUPER => clear_flag KBD_FLAG_MOD_LSUPER s
    | KBD_KEY_RSUPER => clear_flag KBD_FLAG_MOD_RSUPER s
    | _ => s
    end in
  down ← rd (s_keysdown s) (key_code key);
  if negb down then Ok s
  else
    keysdown ← wr (s_keysdown s) (key_code key) false;
    enqueue_report key false (with_keysdown keysdown s).

Fixpoint release_each_key (keys : list KBD_KEY) (except : KBD_KEY) (s : kbd) : res kbd :=
  match keys with
  | [] => Ok s
  | key :: keys =>
      if key_code key =? key_code except then release_each_key keys except s
      else
        down ← rd (s_keysdown s) (key_code key);
        s ← (if down : bool then kbd_key_released key s else Ok s);
        release_each_key keys except s
  end.

(** The loop starts at key 1. *)
Definition release_all_keys_except (except : KBD_KEY) (s : kbd) : res kbd :=
  _ ← ASSERT_IRQ_DISABLED (eflags_if s);
  release_each_key (tail all_keys) except s.

(** Run an operation that does not involve the drivers. *)
Definition on_kbd (f : kbd → res kbd) : M (kbd * D) unit := λ '(s, d), s ← f s; Ok (tt, (s, d)).

Definition set_flag (f : Z) : M (kbd * D) unit :=
  on_kbd (λ s, Ok (with_flags (Z.lor (s_flags s) f) s)).
Definition toggle_flag (f : Z) : M (kbd * D) unit :=
  on_kbd (λ s, Ok (with_flags (Z.lxor (s_flags s) f) s)).

Definition press_flags (key : KBD_KEY) : M (kbd * D) unit :=
  match key with
  | KBD_KEY_LSHIFT => set_flag KBD_FLAG_MOD_LSHIFT
  | KBD_KEY_RSHIFT => set_flag KBD_FLAG_MOD_RSHIFT
  | KBD_KEY_LCTRL => set_flag KBD_FLAG_MOD_LCTRL
  | KBD_KEY_RCTRL => set_flag KBD_FLAG_MOD_RCTRL
  | KBD_KEY_LALT => set_flag KBD_FLAG_MOD_LALT
  | KBD_KEY_RALT => set_flag KBD_FLAG_MOD_RALT
  | KBD_KEY_LSUPER => set_flag KBD_FLAG_MOD_LSUPER
  | KBD_KEY_RSUPER => set_flag KBD_FLAG_MOD_RSUPER
  | KBD_KEY_CAPS_LOCK => _ ← toggle_flag KBD_FLAG_LOCK_CAPS; update_leds
  | KBD_KEY_NUM_LOCK =>
      _ ← toggle_flag KBD_FLAG_LOCK_NUM;
      _ ← update_leds;
      on_kbd (release_all_keys_except KBD_KEY_NUM_LOCK)
  | KBD_KEY_SCROLL_LOCK => _ ← toggle_flag KBD_FLAG_LOCK_SCROLL; update_leds
  | _ => mret tt
  end.

Definition kbd_key_pressed (key : KBD_KEY) : M (kbd * D) unit :=
  _ ← press_flags key;
  on_kbd (λ s,
    keysdown ← wr (s_keysdown s) (key_code key) true;
    enqueue_report key true (with_keysdown keysdown s)).
End kbd.

(** ** Events in the queue *)

(** [evs] are the events waiting, first to last. *)
Definition events (s : kbd) (evs : list kbd_key_event) : Prop :=
  items (event_queue s) = encode_event <$> evs.

Record event_queue_wf (q : queue) : Prop := {
  evq_wf : queue_wf q;
  evq_size : item_size q = SIZEOF_EVENT;
  evq_cap : cap q = EVENT_QUEUE_CAP;
}.

Lemma initial_queue_wf s : s_event_queue s = None →
  event_queue_wf (event_queue s) ∧ items (event_queue s) = [].
Proof.
  intros E. unfold event_queue. rewrite E. split; [|done]. split; [|done..].
  by split.
Qed.

(** The event at the end of the queue, if there is room for it. *)
Definition push (evs : list kbd_key_event) (e : kbd_key_event) : list kbd_key_event :=
  if decide (Z.of_nat (length evs) < EVENT_QUEUE_CAP) then evs ++ [e] else evs.

Lemma with_irq_restore s :
  with_irq (arch_irq_restore (arch_irq_disable (eflags_if s)).1 (arch_irq_disable (eflags_if s)).2) s = s.
Proof. destruct s as [? ? ? ? []]; done. Qed.

Lemma enqueue_event_ok s evs e :
  event_queue_wf (event_queue s) → events s evs →
  ∃ q, enqueue_event e s = Ok (with_queue q s) ∧ event_queue_wf q ∧
    items q = encode_event <$> push evs e.
Proof.
  intros [Hwf Hsz Hcap] Hev. unfold enqueue_event. cbn [arch_irq_disable].
  pose proof (enqueue_ok (event_queue s) (encode_event e) Hwf) as He. rewrite Hsz in He.
  specialize (He eq_refl). pose proof (queue_full_count (event_queue s) Hwf) as Hfull.
  pose proof (items_length (event_queue s)) as Hlen. rewrite Hev, length_fmap in Hlen.
  rewrite Hcap in Hfull. unfold push.
  pose proof (count_bounds (event_queue s) Hwf) as Hc.
  destruct (queue_is_full (event_queue s)) eqn:E.
  - rewrite He. cbn. exists (event_queue s). split; [by destruct s as [? ? ? ? []]|]. split; [done|].
    rewrite decide_False; [done|]. rewrite (proj1 Hfull) in Hlen by done. rewrite Hlen. done.
  - destruct He as (q & -> & Hq & Hcp & Hs & Hi). cbn. exists q.
    split; [by destruct s as [? ? ? ? []]|]. split; [by split; congruence|].
    rewrite Hi, Hev. rewrite decide_True; [by rewrite fmap_app|].
    assert (count (event_queue s) ≠ EVENT_QUEUE_CAP) by (intros Hx; discriminate (proj2 Hfull Hx)).
    rewrite Hcap in Hc. lia.
Qed.

(** ** Modifiers *)

(** The bit of [s_flags] of a modifier key. *)
Definition mod_bit (k : KBD_KEY) : option Z :=
  match k with
  | KBD_KEY_LSHIFT => Some 8 | KBD_KEY_RSHIFT => Some 9
  | KBD_KEY_LCTRL => Some 10 | KBD_KEY_RCTRL => Some 11
  | KBD_KEY_LALT => Some 12 | KBD_KEY_RALT => Some 13
  | KBD_KEY_LSUPER => Some 14 | KBD_KEY_RSUPER => Some 15
  | _ => None
  end.

(** The bit of a lock key. *)
Definition lock_bit (k : KBD_KEY) : option Z :=
  match k with
  | KBD_KEY_CAPS_LOCK => Some 0 | KBD_KEY_NUM_LOCK => Some 1 | KBD_KEY_SCROLL_LOCK => Some 2
  | _ => None
  end.

Definition down (s : kbd) (k : KBD_KEY) : Prop := s_keysdown s !! Z.to_nat (key_code k) = Some true.

(** The flags after a press and after a release of a key. *)
Definition flags_pressed (k : KBD_KEY) (f : Z) : Z :=
  match mod_bit k, lock_bit k with
  | Some b, _ => Z.lor f (Z.shiftl 1 b)
  | None, Some b => Z.lxor f (Z.shiftl 1 b)
  | None, None => f
  end.

Definition flags_released (k : KBD_KEY) (f : Z) : Z :=
  match mod_bit k with Some b => Z.land f (not32 (Z.shiftl 1 b)) | None => f end.

Lemma mod_bit_range k b : mod_bit k = Some b → 8 ≤ b ≤ 15.
Proof. destruct k; cbn; naive_solver lia. Qed.
Lemma lock_bit_range k b : lock_bit k = Some b → 0 ≤ b ≤ 2 ∧ mod_bit k = None.
Proof. destruct k; cbn; naive_solver lia. Qed.
Lemma mod_bit_inj k1 k2 b : mod_bit k1 = Some b → mod_bit k2 = Some b → k1 = k2.
Proof. destruct k1; cbn; try done; intros [= <-]; destruct k2; cbn; done. Qed.

Lemma testbit_shiftl1 b j : 0 ≤ b → 0 ≤ j → Z.testbit (Z.shiftl 1 b) j = (j =? b).
Proof.
  intros Hb Hj. rewrite Z.shiftl_1_l, Z.pow2_bits_eqb by done. apply Z.eqb_sym.
Qed.

Lemma flags_pressed_bit k f b j : 0 ≤ j → mod_bit k = Some b →
  Z.testbit (flags_pressed k f) j = (j =? b) || Z.testbit f j.
Proof.
  intros Hj Hb. unfold flags_pressed. rewrite Hb. apply mod_bit_range in Hb.
  rewrite Z.lor_spec, testbit_shiftl1 by lia. apply orb_comm.
Qed.

Lemma flags_pressed_lock k f b j : 0 ≤ j → lock_bit k = Some b →
  Z.testbit (flags_pressed k f) j = xorb (Z.testbit f j) (j =? b).
Proof.
  intros Hj Hb. unfold flags_pressed. apply lock_bit_range in Hb as Hr. destruct Hr as [Hr Hm].
  rewrite Hm, Hb, Z.lxor_spec, testbit_shiftl1 by lia. done.
Qed.

Lemma flags_released_bit k f b j : 0 ≤ j < 32 → mod_bit k = Some b →
  Z.testbit (flags_released k f) j = negb (j =? b) && Z.testbit f j.
Proof.
  intros Hj Hb. unfold flags_released. rewrite Hb. apply mod_bit_range in Hb.
  rewrite Z.land_spec, not32_testbit, testbit_shiftl1 by lia. apply andb_comm.
Qed.

(** ** The invariant *)

(** The modifier flags say which modifier keys are down. *)
Record kbd_wf (s : kbd) : Prop := {
  kbd_keys : Z.of_nat (length (s_keysdown s)) = KBD_KEY_COUNT;
  kbd_queue : event_queue_wf (event_queue s);
  kbd_mods k b : mod_bit k = Some b → Z.testbit (s_flags s) b = true ↔ down s k;
}.

Lemma rd_keysdown s k : kbd_wf s → ∃ b : bool, rd (s_keysdown s) (key_code k) = Ok b ∧ (b = true ↔ down s k).
Proof.
  intros Hwf. pose proof (key_code_range k).
  destruct (rd_Some (s_keysdown s) (key_code k)) as (b & Hl & Hr); [by rewrite (kbd_keys _ Hwf)|].
  exists b. split; [done|]. unfold down. rewrite Hl. naive_solver.
Qed.

Lemma wr_keysdown s k b : kbd_wf s →
  wr (s_keysdown s) (key_code k) b = Ok (<[Z.to_nat (key_code k) := b]> (s_keysdown s)).
Proof. intros Hwf. apply wr_ok. rewrite (kbd_keys _ Hwf). apply key_code_range. Qed.

Lemma down_insert (l : list bool) k k' b :
  Z.of_nat (length l) = KBD_KEY_COUNT →
  <[Z.to_nat (key_code k) := b]> l !! Z.to_nat (key_code k') = Some true ↔
  if decide (k' = k) then b = true else l !! Z.to_nat (key_code k') = Some true.
Proof.
  intros Hl. pose proof (key_code_range k). pose proof (key_code_range k').
  case_decide as E.
  - subst. rewrite list_lookup_insert_eq by lia. naive_solver.
  - rewrite list_lookup_insert_ne; [done|]. intros E'. apply E, (inj key_code). lia.
Qed.

(** Changing the state and the flag of a key alike keeps the invariant. *)
Lemma kbd_wf_update s s' k b :
  kbd_wf s → event_queue_wf (event_queue s') →
  s_keysdown s' = <[Z.to_nat (key_code k) := b]> (s_keysdown s) →
  (∀ k' m, mod_bit k' = Some m → Z.testbit (s_flags s') m = true ↔
     if decide (k' = k) then b = true else down s k') →
  kbd_wf s'.
Proof.
  intros Hwf Hq Hk Hf. split; [by rewrite Hk, length_insert; apply Hwf|done|].
  intros k' m Hm. unfold down. rewrite Hk, down_insert by apply Hwf. by rewrite Hf.
Qed.

(** What key events leave alone. *)
Definition same_env (s s' : kbd) : Prop :=
  s_keyboard_list s' = s_keyboard_list s ∧ eflags_if s' = eflags_if s.

Lemma same_env_trans s1 s2 s3 : same_env s1 s2 → same_env s2 s3 → same_env s1 s3.
Proof. unfold same_env. intros [] []. split; congruence. Qed.

(** The event a key reports under the given flags, if any. *)
Definition reported (k : KBD_KEY) (f : Z) (is_down : bool) (evs : list kbd_key_event) : list kbd_key_event :=
  let '(k', c) := report k f in
  if decide (k' = KBD_KEY_INVALID) then evs else push evs (Event k' c is_down).

Lemma enqueue_report_ok k b s evs :
  event_queue_wf (event_queue s) → events s evs →
  ∃ s', enqueue_report k b s = Ok s' ∧ event_queue_wf (event_queue s') ∧
    events s' (reported k (s_flags s) b evs) ∧
    s_flags s' = s_flags s ∧ s_keysdown s' = s_keysdown s ∧ same_env s s'.
Proof.
  intros Hq Hev. unfold enqueue_report, reported. destruct (report k (s_flags s)) as [k' c].
  destruct (Z.eqb_spec (key_code k') (key_code KBD_KEY_INVALID)) as [E|E]; cbn [negb].
  - apply (inj key_code) in E as ->. rewrite decide_True by done. exists s. by split_and!.
  - rewrite decide_False by naive_solver.
    destruct (enqueue_event_ok s evs (Event k' c b) Hq Hev) as (q & -> & Hq' & Hi).
    eexists. split; [done|]. by split_and!.
Qed.

(** ** Releasing *)

Lemma released_flags_eq k s :
  kbd_key_released k s =
    (down ← rd (s_keysdown s) (key_code k);
     if negb down then Ok (with_flags (flags_released k (s_flags s)) s)
     else
       keysdown ← wr (s_keysdown s) (key_code k) false;
       enqueue_report k false (with_keysdown keysdown (with_flags (flags_released k (s_flags s)) s))).
Proof. destruct s, k; reflexivity. Qed.

Lemma flags_released_mods k s : kbd_wf s →
  ∀ k' m, mod_bit k' = Some m →
    Z.testbit (flags_released k (s_flags s)) m = true ↔ if decide (k' = k) then false = true else down s k'.
Proof.
  intros Hwf k' m Hm. pose proof (mod_bit_range _ _ Hm). destruct (mod_bit k) as [n|] eqn:Hn.
  - rewrite (flags_released_bit k _ n) by (done || lia). case_decide as E.
    + subst. assert (m = n) as -> by congruence. by rewrite Z.eqb_refl.
    + destruct (Z.eqb_spec m n) as [->|]; [by destruct E; eapply mod_bit_inj|]. cbn. by apply Hwf.
  - unfold flags_released. rewrite Hn. rewrite decide_False by naive_solver. by apply Hwf.
Qed.

(** Releasing a key that is down reports it under the new flags. *)
Lemma released_down s k evs : kbd_wf s → events s evs → down s k →
  ∃ s', kbd_key_released k s = Ok s' ∧ kbd_wf s' ∧
    s_flags s' = flags_released k (s_flags s) ∧
    s_keysdown s' = <[Z.to_nat (key_code k) := false]> (s_keysdown s) ∧
    events s' (reported k (flags_released k (s_flags s)) false evs) ∧ same_env s s'.
Proof.
  intros Hwf Hev Hd. rewrite released_flags_eq.
  destruct (rd_keysdown s k Hwf) as (b & -> & Hb). cbn. rewrite (proj2 Hb Hd). cbn.
  rewrite wr_keysdown by done. cbn.
  destruct (enqueue_report_ok k false (with_keysdown (<[Z.to_nat (key_code k):=false]> (s_keysdown s))
    (with_flags (flags_released k (s_flags s)) s)) evs) as (s' & -> & Hq & Hev' & Hf & Hk & He).
  { apply Hwf. }
  { done. }
  exists s'. split_and!; try done; [|apply He..].
  eapply (kbd_wf_update s s' k false); [done..|]. rewrite Hf. cbn. by apply flags_released_mods.
Qed.

(** Releasing a key that is not down reports nothing. *)
Lemma released_up s k : kbd_wf s → ¬ down s k →
  kbd_key_released k s = Ok (with_flags (flags_released k (s_flags s)) s) ∧
  kbd_wf (with_flags (flags_released k (s_flags s)) s).
Proof.
  intros Hwf Hd. rewrite released_flags_eq.
  destruct (rd_keysdown s k Hwf) as (b & -> & Hb). cbn. destruct b; [tauto|]. cbn. split; [done|].
  split; [apply Hwf|apply Hwf|]. intros k' m Hm. cbn.
  rewrite (flags_released_mods k s Hwf k' m Hm).
  case_decide as E; [subst|done]. split; [done|]. intros H. by destruct Hd.
Qed.

(** Releasing every key: none but the excepted one is down in the end. *)
Lemma release_each_ok keys except s evs : kbd_wf s → events s evs →
  ∃ s' evs', release_each_key keys except s = Ok s' ∧ kbd_wf s' ∧ events s' evs' ∧ same_env s s' ∧
    ∀ k, down s' k ↔ down s k ∧ (k = except ∨ k ∉ keys).
Proof.
  revert s evs. induction keys as [|k keys IH]; intros s evs Hwf Hev; cbn.
  { exists s, evs. split_and!; try done. intros k. pose proof (not_elem_of_nil k). tauto. }
  destruct (Z.eqb_spec (key_code k) (key_code except)) as [E|E].
  { apply (inj key_code) in E as ->. destruct (IH s evs Hwf Hev) as (s' & evs' & -> & Hw & He & Hs & Hd).
    exists s', evs'. split_and!; try done. intros k. rewrite Hd, not_elem_of_cons.
    clear. destruct (decide (k = except)); tauto. }
  destruct (rd_keysdown s k Hwf) as (b & -> & Hb). cbn. destruct b; cbn.
  - destruct (released_down s k evs Hwf Hev) as (s1 & -> & Hw1 & _ & Hk1 & He1 & Hs1); [by apply Hb|]. cbn.
    destruct (IH s1 _ Hw1 He1) as (s' & evs' & -> & Hw & He & Hs & Hd). exists s', evs'.
    split_and!; [done..|by apply (same_env_trans s s1)|].
    intros k'. rewrite Hd. unfold down at 1. rewrite Hk1, down_insert by apply Hwf.
    rewrite not_elem_of_cons. unfold down. clear - E. case_decide; subst; [|tauto].
    split; [intros [[=] _]|]. intros [_ [->|[[] _]]]; done.
  - destruct (IH s evs Hwf Hev) as (s' & evs' & -> & Hw & He & Hs & Hd).
    exists s', evs'. split_and!; try done. intros k'. rewrite Hd, not_elem_of_cons.
    assert (¬ down s k) by (intros H; by apply Hb in H). clear - H E.
    destruct (decide (k' = k)) as [->|]; tauto.
Qed.

(** ** Pressing *)
Section pressing.
Context {D : Type} (updateleds : Z → bool → bool → bool → M D Z).

Lemma press_flags_eq k s d :
  s_keyboard_list s = [] → eflags_if s = false → k ≠ KBD_KEY_NUM_LOCK →
  press_flags updateleds k (s, d) = Ok (tt, (with_flags (flags_pressed k (s_flags s)) s, d)).
Proof.
  intros Hl Hi Hk. destruct s as [q l f kd irq]. cbn in Hl, Hi. subst. destruct k; try done.
Qed.

Lemma flags_pressed_mods k s : kbd_wf s →
  ∀ k' m, mod_bit k' = Some m →
    Z.testbit (flags_pressed k (s_flags s)) m = true ↔ if decide (k' = k) then true = true else down s k'.
Proof.
  intros Hwf k' m Hm. pose proof (mod_bit_range _ _ Hm).
  destruct (mod_bit k) as [n|] eqn:Hn; [|destruct (lock_bit k) as [n|] eqn:Hlk].
  - rewrite (flags_pressed_bit k _ n) by (done || lia). case_decide as E.
    + subst. assert (m = n) as -> by congruence. by rewrite Z.eqb_refl.
    + destruct (Z.eqb_spec m n) as [->|]; [by destruct E; eapply mod_bit_inj|]. cbn. by apply Hwf.
  - rewrite (flags_pressed_lock k _ n) by (done || lia). apply lock_bit_range in Hlk as Hr.
    destruct (Z.eqb_spec m n); [lia|]. rewrite xorb_false_r, decide_False by naive_solver. by apply Hwf.
  - unfold flags_pressed. rewrite Hn, Hlk, decide_False by naive_solver. by apply Hwf.
Qed.

Lemma pressed_ok k s evs d :
  kbd_wf s → events s evs → s_keyboard_list s = [] → eflags_if s = false → k ≠ KBD_KEY_NUM_LOCK →
  ∃ s', kbd_key_pressed updateleds k (s, d) = Ok (tt, (s', d)) ∧ kbd_wf s' ∧
    s_flags s' = flags_pressed k (s_flags s) ∧
    s_keysdown s' = <[Z.to_nat (key_code k) := true]> (s_keysdown s) ∧
    events s' (reported k (flags_pressed k (s_flags s)) true evs) ∧ same_env s s'.
Proof.
  intros Hwf Hev Hl Hi Hk. unfold kbd_key_pressed.
  rewrite (M_bind_step _ _ _ _ _ (press_flags_eq k s d Hl Hi Hk)). unfold on_kbd. cbn.
  rewrite wr_keysdown by done. cbn.
  destruct (enqueue_report_ok k true (with_keysdown (<[Z.to_nat (key_code k):=true]> (s_keysdown s))
    (with_flags (flags_pressed k (s_flags s)) s)) evs) as (s' & -> & Hq & Hev' & Hf & Hkd & He);
    [apply Hwf|done|]. cbn.
  exists s'. split_and!; try done; [|apply He..].
  eapply (kbd_wf_update s s' k true); [done..|]. rewrite Hf. cbn. by apply flags_pressed_mods.
Qed.

(** Num Lock releases every other key first. *)
Lemma pressed_num_lock s evs d :
  kbd_wf s → events s evs → s_keyboard_list s = [] → eflags_if s = false →
  ∃ s' evs', kbd_key_pressed updateleds KBD_KEY_NUM_LOCK (s, d) = Ok (tt, (s', d)) ∧ kbd_wf s' ∧
    events s' evs' ∧ same_env s s' ∧
    ∀ k, down s' k ↔ k = KBD_KEY_NUM_LOCK ∨ k = KBD_KEY_INVALID ∧ down s k.
Proof.
  intros Hwf Hev Hl Hi. unfold kbd_key_pressed, press_flags.
  set (s1 := with_flags (flags_pressed KBD_KEY_NUM_LOCK (s_flags s)) s).
  assert (Hw1 : kbd_wf s1).
  { split; [apply Hwf|apply Hwf|]. intros k b Hb. unfold s1. cbn [s_flags with_flags].
    rewrite (flags_pressed_mods KBD_KEY_NUM_LOCK s Hwf k b Hb).
    by rewrite decide_False by (intros ->; discriminate Hb). }
  assert (toggle_flag KBD_FLAG_LOCK_NUM (s, d) = Ok (tt, (s1, d))) as E1 by done.
  assert (update_leds updateleds (s1, d) = Ok (tt, (s1, d))) as E2.
  { unfold update_leds. cbn. rewrite Hl. unfold ASSERT_IRQ_DISABLED. cbn. by rewrite Hi. }
  destruct (release_each_ok (tail all_keys) KBD_KEY_NUM_LOCK s1 evs Hw1 Hev) as (s2 & evs2 & E3 & Hw2 & Hev2 & Hs2 & Hd2).
  assert (on_kbd (D:=D) (release_all_keys_except KBD_KEY_NUM_LOCK) (s1, d) = Ok (tt, (s2, d))) as E4.
  { unfold on_kbd, release_all_keys_except, ASSERT_IRQ_DISABLED.
    change (eflags_if s1) with (eflags_if s). rewrite Hi. change (assert_ _) with (Ok tt).
    unfold mbind, res_bind. by rewrite E3. }
  unfold mbind, M_bind. rewrite E1, E2, E4. unfold on_kbd. cbn.
  rewrite wr_keysdown by done. cbn.
  destruct (enqueue_report_ok KBD_KEY_NUM_LOCK true (with_keysdown (<[Z.to_nat (key_code KBD_KEY_NUM_LOCK):=true]> (s_keysdown s2)) s2) evs2)
    as (s' & -> & Hq & Hev' & Hf & Hkd & He); [apply Hw2|done|]. cbn.
  exists s'. eexists. split; [done|].
  assert (Hw' : kbd_wf s').
  { eapply (kbd_wf_update s2 s' KBD_KEY_NUM_LOCK true); [done..|]. rewrite Hf. cbn.
    intros k' m Hm. rewrite decide_False by (intros ->; discriminate Hm). by apply Hw2. }
  split_and!; [done|exact Hev'| |].
  - exact (same_env_trans s s2 s' Hs2 He).
  - intros k. unfold down at 1. rewrite Hkd. cbn. rewrite down_insert by apply Hw2.
    case_decide as E; [by subst; tauto|]. fold (down s2 k). rewrite Hd2.
    assert (k ∉ tail all_keys ↔ k = KBD_KEY_INVALID) as ->.
    { split; [|intros ->; by apply (bool_decide_unpack _)].
      intros Hn. pose proof (all_keys_code k) as Hk. destruct (Z.to_nat (key_code k)) as [|i] eqn:Ek.
      - by injection Hk.
      - destruct Hn. apply list_elem_of_lookup. by exists i. }
    change (down s1 k) with (down s k). tauto.
Qed.
End pressing.

(** ** Pulling events *)

Lemma pull_event_ok s evs out : kbd_wf s → events s evs → Z.of_nat (length out) = SIZEOF_EVENT →
  ∃ q, kbd_pull_event out s =
      Ok (match evs with [] => (false, out, with_queue q s) | e :: _ => (true, encode_event e, with_queue q s) end) ∧
    kbd_wf (with_queue q s) ∧ events (with_queue q s) (tail evs).
Proof.
  intros Hwf Hev Hout. destruct (kbd_queue _ Hwf) as [Hq Hsz Hcap].
  unfold kbd_pull_event. cbn [arch_irq_disable].
  pose proof (dequeue_ok (event_queue s) out Hq) as Hd. rewrite Hsz, Hev in Hd.
  assert (Hs : ∀ q, with_irq (arch_irq_restore (arch_irq_are_enabled (eflags_if s)) false) (with_queue q s) = with_queue q s)
    by (intros; by destruct s as [? ? ? ? []]).
  specialize (Hd ltac:(lia)). destruct evs as [|e evs]; cbn [fmap list_fmap] in Hd.
  - rewrite Hd. cbn. exists (event_queue s). rewrite Hs. split_and!; [done| |done].
    split; [apply Hwf|apply Hwf|apply Hwf].
  - destruct Hd as (q & -> & Hq' & Hc' & Hs' & Hi'). cbn. exists q. rewrite Hs.
    rewrite (nil_length_inv (drop _ out)) by (rewrite length_drop, <- Hout; lia).
    split_and!; [done| |done]. split; [apply Hwf| |apply Hwf].
    change (event_queue (with_queue q s)) with q. split; [done|congruence..].
Qed.

(** ** Properties *)

(** What reaches the keyboard: interrupt handlers press and release keys with
    interrupts disabled, and readers pull events. *)
Inductive kbd_op := Press (k : KBD_KEY) | Release (k : KBD_KEY) | Pull.

Definition run_op {D} (updateleds : Z → bool → bool → bool → M D Z) (op : kbd_op) : M (kbd * D) unit :=
  match op with
  | Press k => kbd_key_pressed updateleds k
  | Release k => on_kbd (kbd_key_released k)
  | Pull => on_kbd (λ s, '(_, _, s) ← kbd_pull_event (replicate 8 0) s; Ok s)
  end.

Fixpoint run_ops {D} (updateleds : Z → bool → bool → bool → M D Z) (ops : list kbd_op) : M (kbd * D) unit :=
  match ops with
  | [] => mret tt
  | op :: ops => _ ← run_op updateleds op; run_ops updateleds ops
  end.

Lemma initial_kbd_wf irq : kbd_wf (initial_kbd irq) ∧ events (initial_kbd irq) [].
Proof.
  destruct (initial_queue_wf (initial_kbd irq) eq_refl) as [Hq Hi]. split; [|done].
  split; [done|done|]. intros k b Hb. cbn. rewrite Z.bits_0. split; [done|].
  unfold down. intros [[=] _]%lookup_replicate.
Qed.

Lemma run_op_ok {D} (updateleds : Z → bool → bool → bool → M D Z) op s evs d :
  kbd_wf s → events s evs → s_keyboard_list s = [] → eflags_if s = false →
  ∃ s' evs', run_op updateleds op (s, d) = Ok (tt, (s', d)) ∧ kbd_wf s' ∧ events s' evs' ∧ same_env s s'.
Proof.
  intros Hwf Hev Hl Hi. destruct op as [k|k|]; cbn [run_op].
  - destruct (decide (k = KBD_KEY_NUM_LOCK)) as [->|Hk].
    + destruct (pressed_num_lock updateleds s evs d) as (s' & evs' & H1 & H2 & H3 & H4 & _); eauto 10.
    + destruct (pressed_ok updateleds k s evs d) as (s' & H1 & H2 & _ & _ & H3 & H4); eauto 10.
  - unfold on_kbd. destruct (rd_keysdown s k Hwf) as (b & _ & Hb). destruct b.
    + destruct (released_down s k evs) as (s' & -> & H2 & _ & _ & H3 & H4); [done|done|by apply Hb|].
      cbn. eauto 10.
    + destruct (released_up s k Hwf) as [-> H2]; [by intros H%Hb|]. cbn. do 2 eexists. by split_and!.
  - destruct (pull_event_ok s evs (replicate 8 0) Hwf Hev eq_refl) as (q & Hp & Hw & He).
    unfold on_kbd. rewrite Hp. destruct evs as [|e evs]; cbn; do 2 eexists; by split_and!.
Qed.

(** whatever keys are pressed and released and whenever events are pulled,
    nothing faults, the modifier flags say exactly which modifier keys are
    down, and the LED operation of a driver is never called: no driver is ever
    in the list of keyboards. *)
Theorem kbd_reachable {D} (updateleds : Z → bool → bool → bool → M D Z) (ops : list kbd_op) (d : D) :
  ∃ s evs, run_ops updateleds ops (initial_kbd false, d) = Ok (tt, (s, d)) ∧
    kbd_wf s ∧ events s evs ∧ s_keyboard_list s = [] ∧
    ∀ k b, mod_bit k = Some b → Z.testbit (s_flags s) b = true ↔ down s k.
Proof.
  enough (∀ s evs, kbd_wf s → events s evs → s_keyboard_list s = [] → eflags_if s = false →
    ∃ s' evs', run_ops updateleds ops (s, d) = Ok (tt, (s', d)) ∧ kbd_wf s' ∧ events s' evs' ∧
      s_keyboard_list s' = []) as H.
  { destruct (initial_kbd_wf false) as [Hw He].
    destruct (H _ _ Hw He eq_refl eq_refl) as (s & evs & H1 & H2 & H3 & H4).
    exists s, evs. split_and!; try done. apply H2. }
  induction ops as [|op ops IH]; intros s evs Hwf Hev Hl Hi; cbn; [by eauto 10|].
  destruct (run_op_ok updateleds op s evs d) as (s1 & evs1 & H1 & H2 & H3 & [H4 H5]); [done..|].
  rewrite (M_bind_step _ _ _ _ _ H1). apply (IH s1 evs1); congruence.
Qed.

(** The letter keys and their characters. *)
Definition letter_keys : list (KBD_KEY * Z) := [
  (KBD_KEY_A, 97); (KBD_KEY_B, 98); (KBD_KEY_C, 99); (KBD_KEY_D, 100); (KBD_KEY_E, 101);
  (KBD_KEY_F, 102); (KBD_KEY_G, 103); (KBD_KEY_H, 104); (KBD_KEY_I, 105); (KBD_KEY_J, 106);
  (KBD_KEY_K, 107); (KBD_KEY_L, 108); (KBD_KEY_M, 109); (KBD_KEY_N, 110); (KBD_KEY_O, 111);
  (KBD_KEY_P, 112); (KBD_KEY_Q, 113); (KBD_KEY_R, 114); (KBD_KEY_S, 115); (KBD_KEY_T, 116);
  (KBD_KEY_U, 117); (KBD_KEY_V, 118); (KBD_KEY_W, 119); (KBD_KEY_X, 120); (KBD_KEY_Y, 121);
  (KBD_KEY_Z, 122)
].

Lemma letter_report f :
  Forall (λ '(k, c), report k f =
    (k, if has_flag f KBD_FLAG_LOCK_CAPS || has_flag f KBD_FLAG_MOD_SHIFT then c - 32 else c)) letter_keys.
Proof.
  repeat constructor; unfold report; cbn -[has_flag];
    (destruct (has_flag f KBD_FLAG_LOCK_CAPS), (has_flag f KBD_FLAG_MOD_SHIFT); reflexivity).
Qed.

(** pressing a key other than Num Lock reports it once, with its character
    under the new flags, and releasing it reports it once if it was down and
    not at all otherwise; a letter is a capital exactly when Caps Lock is on or
    Shift is down; and events are pulled in the order they were reported. *)
Theorem kbd_events_exact {D} (updateleds : Z → bool → bool → bool → M D Z) s evs (d : D) k out :
  kbd_wf s → events s evs → s_keyboard_list s = [] → eflags_if s = false →
  Z.of_nat (length out) = SIZEOF_EVENT →
  (k ≠ KBD_KEY_NUM_LOCK →
   ∃ s', kbd_key_pressed updateleds k (s, d) = Ok (tt, (s', d)) ∧ down s' k ∧
     s_flags s' = flags_pressed k (s_flags s) ∧
     events s' (reported k (flags_pressed k (s_flags s)) true evs)) ∧
  (∃ s', kbd_key_released k s = Ok s' ∧ ¬ down s' k ∧
     (down s k → events s' (reported k (s_flags s') false evs)) ∧ (¬ down s k → events s' evs)) ∧
  Forall (λ '(k, c), report k (s_flags s) =
    (k, if has_flag (s_flags s) KBD_FLAG_LOCK_CAPS || has_flag (s_flags s) KBD_FLAG_MOD_SHIFT
        then c - 32 else c)) letter_keys ∧
  (∃ b out' s', kbd_pull_event out s = Ok (b, out', s') ∧ events s' (tail evs) ∧
     match evs with [] => b = false ∧ out' = out | e :: _ => b = true ∧ out' = encode_event e end).
Proof.
  intros Hwf Hev Hl Hi Hout. split_and!.
  - intros Hk. destruct (pressed_ok updateleds k s evs d) as (s' & H1 & _ & H2 & H3 & H4 & _); [done..|].
    exists s'. split_and!; try done. unfold down. rewrite H3, down_insert by apply Hwf. by rewrite decide_True.
  - destruct (rd_keysdown s k Hwf) as (b & _ & Hb). destruct b.
    + destruct (released_down s k evs) as (s' & H1 & _ & H2 & H3 & H4 & _); [done|done|by apply Hb|].
      exists s'. split_and!; try done; [|by rewrite H2|by intros []; apply Hb].
      unfold down. rewrite H3, down_insert by apply Hwf. by rewrite decide_True.
    + destruct (released_up s k Hwf) as [H1 _]; [by intros H%Hb|].
      eexists. split; [exact H1|]. split_and!; [by intros H%Hb|by intros H%Hb|done].
  - apply letter_report.
  - destruct (pull_event_ok s evs out Hwf Hev Hout) as (q & H1 & _ & H2).
    destruct evs as [|e evs]; do 3 eexists; (split; [exact H1|]); by split_and!.
Qed.

Lemma kbd_events_exact_witness :
  ∃ s', kbd_key_pressed (D:=unit) (λ _ _ _ _, mret 0) KBD_KEY_A (initial_kbd false, tt) = Ok (tt, (s', tt)) ∧
    down s' KBD_KEY_A ∧ s_flags s' = 0 ∧ events s' [Event KBD_KEY_A 97 true].
Proof.
  destruct (initial_kbd_wf false) as [Hw He].
  exact (proj1 (kbd_events_exact (D:=unit) (λ _ _ _ _, mret 0) (initial_kbd false) [] tt KBD_KEY_A
    (replicate 8 0) Hw He eq_refl eq_refl eq_refl) ltac:(discriminate)).
Defined.

(** The events of the queue after some operations on a fresh keyboard. *)
Definition events_after (ops : list kbd_op) : res (list (list Z)) :=
  '(_, (s, _)) ← run_ops (D:=unit) (λ _ _ _ _, mret 0) ops (initial_kbd false, tt);
  Ok (items (event_queue s)).

(** the numpad keys report the navigation keys when Num Lock is off, but
    Num Lock toggles its flag before it releases the keys that are down: the
    release of the digit is reported, and that of the navigation key never is. *)
Theorem num_lock_leaves_keys_stuck :
  Forall (λ '(k, alt),
    (KEYMAP k).(key_alt) = alt ∧
    events_after [Press k; Press KBD_KEY_NUM_LOCK; Release k] =
      Ok (encode_event <$> [Event alt 0 true; Event k (KEYMAP k).(chr) false;
                            Event KBD_KEY_NUM_LOCK 0 true]))
  [(KBD_KEY_NUMPAD_7, KBD_KEY_HOME); (KBD_KEY_NUMPAD_8, KBD_KEY_UP);
   (KBD_KEY_NUMPAD_9, KBD_KEY_PAGE_UP); (KBD_KEY_NUMPAD_4, KBD_KEY_LEFT);
   (KBD_KEY_NUMPAD_6, KBD_KEY_RIGHT); (KBD_KEY_NUMPAD_1, KBD_KEY_END);
   (KBD_KEY_NUMPAD_2, KBD_KEY_DOWN); (KBD_KEY_NUMPAD_3, KBD_KEY_PAGE_DOWN);
   (KBD_KEY_NUMPAD_0, KBD_KEY_INSERT)].
Proof. repeat constructor; vm_compute; reflexivity. Qed.
