(* ===== verification/Ps2kbd.v ===== *)
(** The PS/2 keyboard driver (src/kernel/dev/ps2kbd.c): the decoder of scancode
    set 2, a state machine fed one byte at a time, and the queue of commands
    sent to the keyboard. *)
From S2P Require Import Prelude Arch HeapIface Kbd.

(** ** Interfaces *)

(** Where decoded keys go: [kbd_key_pressed] and [kbd_key_released]. *)
Class KeyOps (K : Type) := {
  key_pressed_op : KBD_KEY → M K unit;
  key_released_op : KBD_KEY → M K unit;
}.

(** The stream of the port the keyboard is attached to: [stream_put_char]. *)
Class PortOps (P : Type) := stream_put_char : Z → M P Z.

(** ** Data *)

Inductive INPUTSTATE :=
  | INPUTSTATE_DEFAULT
  | INPUTSTATE_WAITING_RESPONSEDATA
  | INPUTSTATE_WAITING_E0EXT
  | INPUTSTATE_WAITING_E1EXT1
  | INPUTSTATE_WAITING_E1EXT2
  | INPUTSTATE_WAITING_NORMALRELEASE
  | INPUTSTATE_WAITING_E0RELEASE
  | INPUTSTATE_WAITING_E1RELEASE1
  | INPUTSTATE_WAITING_E1RELEASE2.

#[export] Instance INPUTSTATE_eq_dec : EqDecision INPUTSTATE.
Proof. solve_decision. Defined.

Definition MAX_RESEND_COUNT : Z := 3.

Definition CMD_SETLEDS : Z := 0xed.
Definition CMD_ECHO : Z := 0xee.
Definition CMD_SCANCODESET : Z := 0xf0.
Definition PS2_RESPONSE_ACK : Z := 0xfa.
Definition PS2_RESPONSE_RESEND : Z := 0xfe.

Inductive CMDSTATE :=
  | CMDSTATE_QUEUED
  | CMDSTATE_WAITINGRESPONSE
  | CMDSTATE_SUCCESS
  | CMDSTATE_FAILED.

#[export] Instance CMDSTATE_eq_dec : EqDecision CMDSTATE.
Proof. solve_decision. Defined.

Record cmd_context := Cmd {
  cmd_state : CMDSTATE;
  noretry : bool; async : bool;
  responsedata : Z;
  cmdbyte : Z; resendcount : Z; needdata : bool;
}.

Definition with_cmd_state (st : CMDSTATE) (c : cmd_context) : cmd_context :=
  Cmd st (noretry c) (async c) (responsedata c) (cmdbyte c) (resendcount c) (needdata c).
Definition with_responsedata (b : Z) (c : cmd_context) : cmd_context :=
  Cmd (cmd_state c) (noretry c) (async c) b (cmdbyte c) (resendcount c) (needdata c).
Definition with_resendcount (n : Z) (c : cmd_context) : cmd_context :=
  Cmd (cmd_state c) (noretry c) (async c) (responsedata c) (cmdbyte c) n (needdata c).

Definition FLAG_FAKELSHIFT_DOWN : Z := Z.shiftl 1 0.
Definition FLAG_FAKENUMPADMUL_DOWN : Z := Z.shiftl 1 1.
Definition FLAG_FAKELCTRL_DOWN : Z := Z.shiftl 1 2.
Definition FLAG_FAKENUMLOCK_DOWN : Z := Z.shiftl 1 3.

(** [cmd_queue] holds pointers to commands, the front of the list first. *)
Record kbdcontext := Ctx {
  input_state : INPUTSTATE;
  cmd_queue : list Z;
  kflags : Z;
  keybytes : list Z;
  next_key_byte_index : Z;
}.

Definition with_input_state (st : INPUTSTATE) (c : kbdcontext) : kbdcontext :=
  Ctx st (cmd_queue c) (kflags c) (keybytes c) (next_key_byte_index c).
Definition with_cmd_queue (q : list Z) (c : kbdcontext) : kbdcontext :=
  Ctx (input_state c) q (kflags c) (keybytes c) (next_key_byte_index c).
Definition with_kflags (f : Z) (c : kbdcontext) : kbdcontext :=
  Ctx (input_state c) (cmd_queue c) f (keybytes c) (next_key_byte_index c).
Definition with_keybytes (l : list Z) (n : Z) (c : kbdcontext) : kbdcontext :=
  Ctx (input_state c) (cmd_queue c) (kflags c) l n.

(** A zeroed context in the default state. *)
Definition initial_ctx : kbdcontext := Ctx INPUTSTATE_DEFAULT [] 0 (replicate 8 0) 0.

(** ** The keymaps *)

Definition KEYMAP_DEFAULT_entries : list (Z * KBD_KEY) := [
  (0x76, KBD_KEY_ESCAPE); (0x05, KBD_KEY_F1); (0x06, KBD_KEY_F2); (0x04, KBD_KEY_F3);
  (0x0c, KBD_KEY_F4); (0x03, KBD_KEY_F5); (0x0b, KBD_KEY_F6); (0x83, KBD_KEY_F7);
  (0x0a, KBD_KEY_F8); (0x01, KBD_KEY_F9); (0x09, KBD_KEY_F10); (0x78, KBD_KEY_F11);
  (0x07, KBD_KEY_F12); (0x7e, KBD_KEY_SCROLL_LOCK); (0x0e, KBD_KEY_BACK_TICK);
  (0x16, KBD_KEY_1); (0x1e, KBD_KEY_2); (0x26, KBD_KEY_3); (0x25, KBD_KEY_4);
  (0x2e, KBD_KEY_5); (0x36, KBD_KEY_6); (0x3d, KBD_KEY_7); (0x3e, KBD_KEY_8);
  (0x46, KBD_KEY_9); (0x45, KBD_KEY_0); (0x4e, KBD_KEY_MINUS); (0x55, KBD_KEY_EQUALS);
  (0x66, KBD_KEY_BACKSPACE); (0x0d, KBD_KEY_TAB); (0x15, KBD_KEY_Q); (0x1d, KBD_KEY_W);
  (0x24, KBD_KEY_E); (0x2d, KBD_KEY_R); (0x2c, KBD_KEY_T); (0x35, KBD_KEY_Y);
  (0x3c, KBD_KEY_U); (0x43, KBD_KEY_I); (0x44, KBD_KEY_O); (0x4d, KBD_KEY_P);
  (0x54, KBD_KEY_OPEN_BRACKET); (0x5b, KBD_KEY_CLOSE_BRACKET); (0x5d, KBD_KEY_BASKSLASH);
  (0x58, KBD_KEY_CAPS_LOCK); (0x1c, KBD_KEY_A); (0x1b, KBD_KEY_S); (0x23, KBD_KEY_D);
  (0x2b, KBD_KEY_F); (0x34, KBD_KEY_G); (0x33, KBD_KEY_H); (0x3b, KBD_KEY_J);
  (0x42, KBD_KEY_K); (0x4b, KBD_KEY_L); (0x4c, KBD_KEY_SEMICOLON); (0x52, KBD_KEY_QUOTE);
  (0x5a, KBD_KEY_ENTER); (0x12, KBD_KEY_LSHIFT); (0x1a, KBD_KEY_Z); (0x22, KBD_KEY_X);
  (0x21, KBD_KEY_C); (0x2a, KBD_KEY_V); (0x32, KBD_KEY_B); (0x31, KBD_KEY_N);
  (0x3a, KBD_KEY_M); (0x41, KBD_KEY_COMMA); (0x49, KBD_KEY_DOT); (0x4a, KBD_KEY_SLASH);
  (0x59, KBD_KEY_RSHIFT); (0x14, KBD_KEY_LCTRL); (0x11, KBD_KEY_LALT); (0x29, KBD_KEY_SPACE);
  (0x77, KBD_KEY_NUM_LOCK); (0x7c, KBD_KEY_NUMPAD_MUL); (0x7b, KBD_KEY_NUMPAD_SUB);
  (0x6c, KBD_KEY_NUMPAD_7); (0x75, KBD_KEY_NUMPAD_8); (0x7d, KBD_KEY_NUMPAD_9);
  (0x6b, KBD_KEY_NUMPAD_4); (0x73, KBD_KEY_NUMPAD_5); (0x74, KBD_KEY_NUMPAD_6);
  (0x79, KBD_KEY_NUMPAD_ADD); (0x69, KBD_KEY_NUMPAD_1); (0x72, KBD_KEY_NUMPAD_2);
  (0x7a, KBD_KEY_NUMPAD_3); (0x70, KBD_KEY_NUMPAD_0); (0x71, KBD_KEY_NUMPAD_POINT)
].

Definition KEYMAP_E0_entries : list (Z * KBD_KEY) := [
  (0x1f, KBD_KEY_LSUPER); (0x11, KBD_KEY_RALT); (0x27, KBD_KEY_RSUPER); (0x2f, KBD_KEY_MENU);
  (0x14, KBD_KEY_RCTRL); (0x70, KBD_KEY_INSERT); (0x71, KBD_KEY_DELETE); (0x6c, KBD_KEY_HOME);
  (0x69, KBD_KEY_END); (0x7d, KBD_KEY_PAGE_UP); (0x7a, KBD_KEY_PAGE_DOWN); (0x75, KBD_KEY_UP);
  (0x72, KBD_KEY_DOWN); (0x6b, KBD_KEY_LEFT); (0x74, KBD_KEY_RIGHT);
  (0x4a, KBD_KEY_NUMPAD_DIV); (0x5a, KBD_KEY_NUMPAD_ENTER)
].

(** The elements an initialiser leaves out are zero. *)
Definition keymap_lookup (entries : list (Z * KBD_KEY)) (byte : Z) : KBD_KEY :=
  match list_find (λ '(b, _), b = byte) entries with
  | Some (_, (_, k)) => k
  | None => KBD_KEY_INVALID
  end.

Definition KEYMAP_DEFAULT : Z → KBD_KEY := keymap_lookup KEYMAP_DEFAULT_entries.
Definition KEYMAP_E0 : Z → KBD_KEY := keymap_lookup KEYMAP_E0_entries.

(** ** The driver *)
Section driver.
Context {K P H : Type} `{!KeyOps K} `{!PortOps P} `{!HeapOps H}.

(** The context of the keyboard, the commands that are allocated, and the
    components the driver calls. *)
Record drv := Drv {
  ctx : kbdcontext;
  cmds : gmap Z cmd_context;
  keys : K; port : P; heap : H;
}.

Definition with_ctx (c : kbdcontext) (s : drv) : drv := Drv c (cmds s) (keys s) (port s) (heap s).
Definition with_cmds (m : gmap Z cmd_context) (s : drv) : drv := Drv (ctx s) m (keys s) (port s) (heap s).

Definition modify_ctx (f : kbdcontext → kbdcontext) : M drv unit :=
  λ s, Ok (tt, with_ctx (f (ctx s)) s).
Definition on_keys (m : M K unit) : M drv unit := λ s,
  '(_, k) ← m (keys s); Ok (tt, Drv (ctx s) (cmds s) k (port s) (heap s)).
Definition on_port {A} (m : M P A) : M drv A := λ s,
  '(a, p) ← m (port s); Ok (a, Drv (ctx s) (cmds s) (keys s) p (heap s)).
Definition on_heap {A} (m : M H A) : M drv A := λ s,
  '(a, h) ← m (heap s); Ok (a, Drv (ctx s) (cmds s) (keys s) (port s) h).

Definition load_cmd (p : Z) : M drv cmd_context := λ s,
  match cmds s !! p with Some c => Ok (c, s) | None => Fault Bad_pointer end.
Definition modify_cmd (p : Z) (f : cmd_context → cmd_context) : M drv unit := λ s,
  match cmds s !! p with
  | Some c => Ok (tt, with_cmds (<[p := f c]> (cmds s)) s)
  | None => Fault Bad_pointer
  end.
Definition free_cmd (p : Z) : M drv unit :=
  _ ← (λ s, Ok (tt, with_cmds (delete p (cmds s)) s) : res (unit * drv));
  on_heap (heap_free p).

(** [ctx->cmd_queue.back] *)
Definition back_cmd : M drv (option Z) := λ s, Ok (last (cmd_queue (ctx s)), s).

(** *** Commands *)

Definition cmd_finished (finalstate : CMDSTATE) : M drv unit :=
  back ← back_cmd;
  match back with
  | None => throw Assert_failed
  | Some cmd =>
      _ ← modify_ctx (λ c, with_cmd_queue (removelast (cmd_queue c)) c);
      _ ← modify_cmd cmd (with_cmd_state finalstate);
      c ← load_cmd cmd;
      _ ← (if async c then free_cmd cmd else mret tt);
      back ← back_cmd;
      match back with
      | None => mret tt
      | Some cmd =>
          _ ← modify_cmd cmd (with_cmd_state CMDSTATE_WAITINGRESPONSE);
          c ← load_cmd cmd;
          ret ← on_port (stream_put_char (cmdbyte c));
          if ret <? 0 then modify_cmd cmd (with_cmd_state CMDSTATE_FAILED) else mret tt
      end
  end.

(** Run [f] on the command the keyboard is to respond to, if it waits for a
    response; otherwise only a message is printed. *)
Definition with_waiting_cmd (f : Z → cmd_context → M drv unit) : M drv unit :=
  back ← back_cmd;
  match back with
  | None => mret tt
  | Some cmd =>
      c ← load_cmd cmd;
      if decide (cmd_state c = CMDSTATE_WAITINGRESPONSE) then f cmd c else mret tt
  end.

Definition ack_received : M drv unit :=
  with_waiting_cmd (λ _ c,
    if needdata c then modify_ctx (with_input_state INPUTSTATE_WAITING_RESPONSEDATA)
    else cmd_finished CMDSTATE_SUCCESS).

Definition resend_received : M drv unit :=
  with_waiting_cmd (λ cmd c,
    if (0 <? resendcount c) && negb (noretry c) then
      _ ← modify_cmd cmd (with_resendcount (u8 (resendcount c - 1)));
      ret ← on_port (stream_put_char (cmdbyte c));
      if ret <? 0 then modify_cmd cmd (with_cmd_state CMDSTATE_FAILED) else mret tt
    else cmd_finished CMDSTATE_FAILED).

Definition echo_received : M drv unit :=
  with_waiting_cmd (λ _ c,
    if cmdbyte c =? CMD_ECHO then cmd_finished CMDSTATE_SUCCESS else mret tt).

(** With no command in the queue the state stays as it is. *)
Definition response_byte_received (byte : Z) : M drv unit :=
  back ← back_cmd;
  match back with
  | None => mret tt
  | Some _ =>
      _ ← with_waiting_cmd (λ cmd _,
        _ ← modify_cmd cmd (with_responsedata byte);
        cmd_finished CMDSTATE_SUCCESS);
      modify_ctx (with_input_state INPUTSTATE_DEFAULT)
  end.

(** *** Scancodes *)

(** It prints the bytes received so far. *)
Definition report_bad_scancode : M drv unit := λ s,
  let n := next_key_byte_index (ctx s) in
  if (1 <=? n) && (n <=? 8) then Ok (tt, s) else Fault Assert_failed.

Definition key_pressed (key : KBD_KEY) : M drv unit :=
  if decide (key = KBD_KEY_INVALID) then report_bad_scancode else on_keys (key_pressed_op key).

Definition key_released (key : KBD_KEY) : M drv unit :=
  if decide (key = KBD_KEY_INVALID) then report_bad_scancode else on_keys (key_released_op key).

Definition set_kflag (f : Z) : M drv unit := modify_ctx (λ c, with_kflags (Z.lor (kflags c) f) c).
Definition clear_kflag (f : Z) : M drv unit :=
  modify_ctx (λ c, with_kflags (Z.land (kflags c) (not32 f)) c).

Definition check_press (flagmask : Z) (key : KBD_KEY) : M drv unit := λ s,
  if Z.land (kflags (ctx s)) flagmask =? flagmask then key_pressed key s else Ok (tt, s).
Definition check_release (flagmask : Z) (key : KBD_KEY) : M drv unit := λ s,
  if Z.land (kflags (ctx s)) flagmask =? 0 then key_released key s else Ok (tt, s).

Definition check_printscreen_press : M drv unit :=
  check_press (Z.lor FLAG_FAKELSHIFT_DOWN FLAG_FAKENUMPADMUL_DOWN) KBD_KEY_PRINT_SCREEN.
Definition check_printscreen_release : M drv unit :=
  check_release (Z.lor FLAG_FAKELSHIFT_DOWN FLAG_FAKENUMPADMUL_DOWN) KBD_KEY_PRINT_SCREEN.
Definition check_pause_press : M drv unit :=
  check_press (Z.lor FLAG_FAKELCTRL_DOWN FLAG_FAKENUMLOCK_DOWN) KBD_KEY_PAUSE.
Definition check_pause_release : M drv unit :=
  check_release (Z.lor FLAG_FAKELCTRL_DOWN FLAG_FAKENUMLOCK_DOWN) KBD_KEY_PAUSE.

Definition set_state (st : INPUTSTATE) : M drv unit := modify_ctx (with_input_state st).

Definition e0_ext_received (byte : Z) : M drv unit :=
  _ ← set_state INPUTSTATE_DEFAULT;
  if byte =? 0xf0 then set_state INPUTSTATE_WAITING_E0RELEASE
  else if byte =? 0x12 then _ ← set_kflag FLAG_FAKELSHIFT_DOWN; check_printscreen_press
  else if byte =? 0x7c then _ ← set_kflag FLAG_FAKENUMPADMUL_DOWN; check_printscreen_press
  else key_pressed (KEYMAP_E0 byte).

Definition e0_release_received (byte : Z) : M drv unit :=
  _ ← set_state INPUTSTATE_DEFAULT;
  if byte =? 0x12 then _ ← clear_kflag FLAG_FAKELSHIFT_DOWN; check_printscreen_release
  else if byte =? 0x7c then _ ← clear_kflag FLAG_FAKENUMPADMUL_DOWN; check_printscreen_release
  else key_released (KEYMAP_E0 byte).

Definition e1_ext1_received (byte : Z) : M drv unit :=
  _ ← set_state INPUTSTATE_WAITING_E1EXT2;
  if byte =? 0xf0 then set_state INPUTSTATE_WAITING_E1RELEASE1
  else if byte =? 0x14 then set_kflag FLAG_FAKELCTRL_DOWN
  else if byte =? 0x77 then set_kflag FLAG_FAKENUMLOCK_DOWN
  else mret tt.

Definition e1_release1_received (byte : Z) : M drv unit :=
  _ ← set_state INPUTSTATE_WAITING_E1EXT2;
  if byte =? 0x14 then clear_kflag FLAG_FAKELCTRL_DOWN
  else if byte =? 0x77 then clear_kflag FLAG_FAKENUMLOCK_DOWN
  else mret tt.

Definition e1_ext2_received (byte : Z) : M drv unit :=
  _ ← set_state INPUTSTATE_DEFAULT;
  if byte =? 0xf0 then set_state INPUTSTATE_WAITING_E1RELEASE2
  else if byte =? 0x14 then _ ← set_kflag FLAG_FAKELCTRL_DOWN; check_pause_press
  else if byte =? 0x77 then _ ← set_kflag FLAG_FAKENUMLOCK_DOWN; check_pause_press
  else report_bad_scancode.

Definition e1_release2_received (byte : Z) : M drv unit :=
  _ ← set_state INPUTSTATE_DEFAULT;
  if byte =? 0x14 then _ ← clear_kflag FLAG_FAKELCTRL_DOWN; check_pause_release
  else if byte =? 0x77 then _ ← clear_kflag FLAG_FAKENUMLOCK_DOWN; check_pause_release
  else report_bad_scancode.

Definition normal_release_received (byte : Z) : M drv unit :=
  _ ← set_state INPUTSTATE_DEFAULT;
  key_released (KEYMAP_DEFAULT byte).

Definition scancode_first_byte_received (byte : Z) : M drv unit :=
  if byte =? 0xe0 then set_state INPUTSTATE_WAITING_E0EXT
  else if byte =? 0xe1 then set_state INPUTSTATE_WAITING_E1EXT1
  else if byte =? 0xf0 then set_state INPUTSTATE_WAITING_NORMALRELEASE
  else key_pressed (KEYMAP_DEFAULT byte).

(** Store the byte; an index past the end of [keybytes] is out of bounds. *)
Definition store_key_byte (byte : Z) : M drv unit := λ s,
  let c := ctx s in
  let i := if decide (input_state c = INPUTSTATE_DEFAULT) then 0 else next_key_byte_index c in
  bytes ← wr (keybytes c) i byte;
  Ok (tt, with_ctx (with_keybytes bytes (u8 (i + 1)) c) s).

Definition ps2_op_bytereceived (byte : Z) : M drv unit :=
  _ ← store_key_byte byte;
  if byte =? PS2_RESPONSE_ACK then ack_received
  else if byte =? PS2_RESPONSE_RESEND then resend_received
  else if byte =? CMD_ECHO then echo_received
  else λ s,
    match input_state (ctx s) with
    | INPUTSTATE_WAITING_RESPONSEDATA => response_byte_received byte s
    | INPUTSTATE_WAITING_E0EXT => e0_ext_received byte s
    | INPUTSTATE_WAITING_E0RELEASE => e0_release_received byte s
    | INPUTSTATE_WAITING_E1EXT1 => e1_ext1_received byte s
    | INPUTSTATE_WAITING_E1RELEASE1 => e1_release1_received byte s
    | INPUTSTATE_WAITING_E1EXT2 => e1_ext2_received byte s
    | INPUTSTATE_WAITING_E1RELEASE2 => e1_release2_received byte s
    | INPUTSTATE_WAITING_NORMALRELEASE => normal_release_received byte s
    | INPUTSTATE_DEFAULT => scancode_first_byte_received byte s
    end.

Fixpoint bytes_received (bytes : list Z) : M drv unit :=
  match bytes with
  | [] => mret tt
  | b :: bytes => _ ← ps2_op_bytereceived b; bytes_received bytes
  end.

(** *** Requests

    [arrivals] are the bytes the keyboard sends while a request waits: each of
    them is an interrupt between two tests of the command's state.  A request
    that waits with no more bytes to come waits forever. *)
Fixpoint wait_cmd (cmd : Z) (arrivals : list Z) {struct arrivals} : M drv (list Z) :=
  c ← load_cmd cmd;
  if decide (cmd_state c = CMDSTATE_SUCCESS ∨ cmd_state c = CMDSTATE_FAILED) then mret arrivals
  else
    match arrivals with
    | [] => throw No_fuel
    | b :: arrivals => _ ← ps2_op_bytereceived b; wait_cmd cmd arrivals
    end.

Definition SIZEOF_CMD_CONTEXT : Z := 24.

(** The result is the return value, [*result_out], and the bytes still to
    arrive. *)
Definition request_cmd (result_out : bool) (cmdbyte : Z) (noretry async : bool) (arrivals : list Z)
    : M drv (Z * Z * list Z) :=
  _ ← massert (negb async || (async && negb result_out));
  cmd ← on_heap (heap_alloc SIZEOF_CMD_CONTEXT HEAP_FLAG_ZEROMEMORY);
  if cmd =? 0 then _ ← on_heap (heap_free cmd); mret (- ENOMEM, 0, arrivals)
  else
    s ← get;
    let isqueueempty := match cmd_queue (ctx s) with [] => true | _ => false end in
    let st := if isqueueempty then CMDSTATE_WAITINGRESPONSE else CMDSTATE_QUEUED in
    _ ← put (with_cmds (<[cmd := Cmd st noretry async 0 cmdbyte MAX_RESEND_COUNT result_out]> (cmds s)) s);
    _ ← modify_ctx (λ c, with_cmd_queue (cmd :: cmd_queue c) c);
    ret ← (if isqueueempty then on_port (stream_put_char cmdbyte) else mret 0);
    if ret <? 0 then mret (ret, 0, arrivals)
    else if negb async then
      arrivals ← wait_cmd cmd arrivals;
      c ← load_cmd cmd;
      if decide (cmd_state c = CMDSTATE_FAILED) then
        _ ← free_cmd cmd;
        mret (- EIO, 0, arrivals)
      else
        _ ← free_cmd cmd;
        mret (ret, if needdata c then responsedata c else 0, arrivals)
    else mret (ret, 0, arrivals).

Definition echo (async : bool) (arrivals : list Z) : M drv (Z * list Z) :=
  '(ret, _, arrivals) ← request_cmd false CMD_ECHO false async arrivals;
  mret (ret, arrivals).

Definition LED_SCROLL : Z := Z.shiftl 1 0.
Definition LED_NUM : Z := Z.shiftl 1 1.
Definition LED_CAPS : Z := Z.shiftl 1 2.

(** A command followed by its data, which is not sent again. *)
Definition two_requests (result_out : bool) (cmdbyte data : Z) (async : bool) (arrivals : list Z)
    : M drv (Z * Z * list Z) :=
  '(ret, _, arrivals) ← request_cmd false cmdbyte false async arrivals;
  if ret <? 0 then mret (ret, 0, arrivals)
  else request_cmd result_out data true async arrivals.

Definition setledstate (leds : Z) (async : bool) (arrivals : list Z) : M drv (Z * Z * list Z) :=
  two_requests false CMD_SETLEDS leds async arrivals.

Definition get_scancode_set (arrivals : list Z) : M drv (Z * Z * list Z) :=
  two_requests true CMD_SCANCODESET 0 false arrivals.

Definition set_scancode_set (set : Z) (async : bool) (arrivals : list Z) : M drv (Z * Z * list Z) :=
  _ ← massert (negb (set =? 0));
  two_requests false CMD_SCANCODESET set async arrivals.

Definition kbd_op_updateleds (scroll caps num : bool) (arrivals : list Z) : M drv (Z * Z * list Z) :=
  let led_state := Z.lor (Z.lor (if scroll then LED_SCROLL else 0) (if caps then LED_CAPS else 0))
                         (if num then LED_NUM else 0) in
  setledstate led_state true arrivals.
End driver.

Arguments drv K P H : clear implicits.
Arguments Drv {K P H}.

(** ** Recorders: what the driver passes on, in order *)

Definition key_log : Type := list (KBD_KEY * bool).

#[export] Instance key_log_ops : KeyOps key_log := {|
  key_pressed_op k := λ l, Ok (tt, l ++ [(k, true)]);
  key_released_op k := λ l, Ok (tt, l ++ [(k, false)]);
|}.

(** A port that accepts every byte. *)
Definition log_port : PortOps (list Z) := λ b l, Ok (0, l ++ [b]).

(** ** Scancode set 2

    What a keyboard sends, written down from the keyboard's side (the IBM PC/AT
    and PS/2 keyboard reference, US layout), not from the tables of the
    driver. *)

(** The make code of a key. *)
Definition make_code (key : KBD_KEY) : list Z :=
  match key with
  | KBD_KEY_INVALID => []
  (* the function keys *)
  | KBD_KEY_F9 => [0x01] | KBD_KEY_F5 => [0x03] | KBD_KEY_F3 => [0x04] | KBD_KEY_F1 => [0x05]
  | KBD_KEY_F2 => [0x06] | KBD_KEY_F12 => [0x07] | KBD_KEY_F10 => [0x09] | KBD_KEY_F8 => [0x0a]
  | KBD_KEY_F6 => [0x0b] | KBD_KEY_F4 => [0x0c] | KBD_KEY_F11 => [0x78] | KBD_KEY_F7 => [0x83]
  (* the main block, column by column *)
  | KBD_KEY_TAB => [0x0d] | KBD_KEY_BACK_TICK => [0x0e]
  | KBD_KEY_LALT => [0x11] | KBD_KEY_LSHIFT => [0x12] | KBD_KEY_LCTRL => [0x14]
  | KBD_KEY_Q => [0x15] | KBD_KEY_1 => [0x16]
  | KBD_KEY_Z => [0x1a] | KBD_KEY_S => [0x1b] | KBD_KEY_A => [0x1c] | KBD_KEY_W => [0x1d]
  | KBD_KEY_2 => [0x1e]
  | KBD_KEY_C => [0x21] | KBD_KEY_X => [0x22] | KBD_KEY_D => [0x23] | KBD_KEY_E => [0x24]
  | KBD_KEY_4 => [0x25] | KBD_KEY_3 => [0x26]
  | KBD_KEY_SPACE => [0x29] | KBD_KEY_V => [0x2a] | KBD_KEY_F => [0x2b] | KBD_KEY_T => [0x2c]
  | KBD_KEY_R => [0x2d] | KBD_KEY_5 => [0x2e]
  | KBD_KEY_N => [0x31] | KBD_KEY_B => [0x32] | KBD_KEY_H => [0x33] | KBD_KEY_G => [0x34]
  | KBD_KEY_Y => [0x35] | KBD_KEY_6 => [0x36]
  | KBD_KEY_M => [0x3a] | KBD_KEY_J => [0x3b] | KBD_KEY_U => [0x3c] | KBD_KEY_7 => [0x3d]
  | KBD_KEY_8 => [0x3e]
  | KBD_KEY_COMMA => [0x41] | KBD_KEY_K => [0x42] | KBD_KEY_I => [0x43] | KBD_KEY_O => [0x44]
  | KBD_KEY_0 => [0x45] | KBD_KEY_9 => [0x46]
  | KBD_KEY_DOT => [0x49] | KBD_KEY_SLASH => [0x4a] | KBD_KEY_L => [0x4b]
  | KBD_KEY_SEMICOLON => [0x4c] | KBD_KEY_P => [0x4d] | KBD_KEY_MINUS => [0x4e]
  | KBD_KEY_QUOTE => [0x52] | KBD_KEY_OPEN_BRACKET => [0x54] | KBD_KEY_EQUALS => [0x55]
  | KBD_KEY_CAPS_LOCK => [0x58] | KBD_KEY_RSHIFT => [0x59] | KBD_KEY_ENTER => [0x5a]
  | KBD_KEY_CLOSE_BRACKET => [0x5b] | KBD_KEY_BASKSLASH => [0x5d] | KBD_KEY_BACKSPACE => [0x66]
  (* the number pad *)
  | KBD_KEY_NUMPAD_1 => [0x69] | KBD_KEY_NUMPAD_4 => [0x6b] | KBD_KEY_NUMPAD_7 => [0x6c]
  | KBD_KEY_NUMPAD_0 => [0x70] | KBD_KEY_NUMPAD_POINT => [0x71] | KBD_KEY_NUMPAD_2 => [0x72]
  | KBD_KEY_NUMPAD_5 => [0x73] | KBD_KEY_NUMPAD_6 => [0x74] | KBD_KEY_NUMPAD_8 => [0x75]
  | KBD_KEY_ESCAPE => [0x76] | KBD_KEY_NUM_LOCK => [0x77]
  | KBD_KEY_NUMPAD_ADD => [0x79] | KBD_KEY_NUMPAD_3 => [0x7a] | KBD_KEY_NUMPAD_SUB => [0x7b]
  | KBD_KEY_NUMPAD_MUL => [0x7c] | KBD_KEY_NUMPAD_9 => [0x7d] | KBD_KEY_SCROLL_LOCK => [0x7e]
  (* the keys the enhanced keyboard added share codes with the older keys *)
  | KBD_KEY_RALT => [0xe0; 0x11] | KBD_KEY_RCTRL => [0xe0; 0x14] | KBD_KEY_LSUPER => [0xe0; 0x1f]
  | KBD_KEY_RSUPER => [0xe0; 0x27] | KBD_KEY_MENU => [0xe0; 0x2f]
  | KBD_KEY_NUMPAD_DIV => [0xe0; 0x4a] | KBD_KEY_NUMPAD_ENTER => [0xe0; 0x5a]
  | KBD_KEY_END => [0xe0; 0x69] | KBD_KEY_LEFT => [0xe0; 0x6b] | KBD_KEY_HOME => [0xe0; 0x6c]
  | KBD_KEY_INSERT => [0xe0; 0x70] | KBD_KEY_DELETE => [0xe0; 0x71] | KBD_KEY_DOWN => [0xe0; 0x72]
  | KBD_KEY_RIGHT => [0xe0; 0x74] | KBD_KEY_UP => [0xe0; 0x75] | KBD_KEY_PAGE_DOWN => [0xe0; 0x7a]
  | KBD_KEY_PAGE_UP => [0xe0; 0x7d]
  (* a left shift and a multiplication no one typed; Pause is a left control
     and a Num Lock, pressed and released at once *)
  | KBD_KEY_PRINT_SCREEN => [0xe0; 0x12; 0xe0; 0x7c]
  | KBD_KEY_PAUSE => [0xe1; 0x14; 0x77; 0xe1; 0xf0; 0x14; 0xf0; 0x77]
  end.

(** The break code puts 0xf0 before the last byte; Print Screen lets go of its
    two keys in the reverse order, and Pause sends nothing when it is let go. *)
Definition break_code (key : KBD_KEY) : list Z :=
  match key with
  | KBD_KEY_PRINT_SCREEN => [0xe0; 0xf0; 0x7c; 0xe0; 0xf0; 0x12]
  | KBD_KEY_PAUSE => []
  | _ =>
      match make_code key with
      | [b] => [0xf0; b]
      | [e0; b] => [e0; 0xf0; b]
      | _ => []
      end
  end.

(** The bytes sent when a key goes down ([true]) or up. *)
Definition scancode (ev : KBD_KEY * bool) : list Z :=
  if ev.2 then make_code ev.1 else break_code ev.1.

(** Whether Print Screen is down, after an event. *)
Definition print_screen_after (ps : bool) (ev : KBD_KEY * bool) : bool :=
  if decide (ev.1 = KBD_KEY_PRINT_SCREEN) then ev.2 else ps.

(** The events that are reported for an event: Pause is let go as soon as it
    is pressed, and a Print Screen that is pressed or let go again is
    reported for both of its keys. *)
Definition reported (ps : bool) (ev : KBD_KEY * bool) : list (KBD_KEY * bool) :=
  if decide (ev.1 = KBD_KEY_PAUSE) then
    if ev.2 then [(KBD_KEY_PAUSE, true); (KBD_KEY_PAUSE, false)] else []
  else if decide (ev.1 = KBD_KEY_PRINT_SCREEN) then if eqb ps ev.2 then [ev; ev] else [ev]
  else [ev].

Section decoder.
Context {P H : Type} `{!PortOps P} `{!HeapOps H}.

(** The driver between two key events, [ps] telling whether Print Screen is
    down. *)
Record idle (ps : bool) (s : drv key_log P H) : Prop := {
  idle_state : input_state (ctx s) = INPUTSTATE_DEFAULT;
  idle_flags : kflags (ctx s) =
    if ps then Z.lor FLAG_FAKELSHIFT_DOWN FLAG_FAKENUMPADMUL_DOWN else 0;
  idle_bytes : length (keybytes (ctx s)) = 8%nat;
}.

Lemma decode_one ev ps (s : drv key_log P H) :
  idle ps s → ev.1 ≠ KBD_KEY_INVALID →
  ∃ s', bytes_received (scancode ev) s = Ok (tt, s') ∧ idle (print_screen_after ps ev) s' ∧
    keys s' = keys s ++ reported ps ev ∧ cmds s' = cmds s ∧ port s' = port s ∧ heap s' = heap s ∧
    cmd_queue (ctx s') = cmd_queue (ctx s).
Proof.
  intros [Hst Hf Hb] Hk. destruct s as [[ist q f kb n] cm ks po he]. cbn in Hst, Hf, Hb. subst ist f.
  destruct kb as [|b0 [|b1 [|b2 [|b3 [|b4 [|b5 [|b6 [|b7 [|]]]]]]]]]; try discriminate Hb.
  destruct ev as [k b]. cbn [fst] in Hk.
  destruct k; [by destruct Hk|..];
    destruct b, ps; eexists; (split; [vm_compute; reflexivity|];
    split; [by split|]; split_and!; cbn [keys cmds port heap ctx cmd_queue];
    first [reflexivity | exact (eq_sym (app_nil_r ks)) | exact (eq_sym (app_assoc ks [_] [_]))]).
Qed.

Lemma bytes_received_app bs1 bs2 (s : drv key_log P H) :
  bytes_received (bs1 ++ bs2) s =
    match bytes_received bs1 s with Ok (_, s') => bytes_received bs2 s' | Fault e => Fault e end.
Proof.
  revert s. induction bs1 as [|b bs1 IH]; intros s; [done|]. cbn [app bytes_received].
  unfold mbind, M_bind. destruct (ps2_op_bytereceived b s) as [[[] s']|e]; [apply IH|done].
Qed.

(** The bytes the state machine is stored at, in each state. *)
Definition index_range (st : INPUTSTATE) (n : Z) : Prop :=
  match st with
  | INPUTSTATE_DEFAULT => True
  | INPUTSTATE_WAITING_RESPONSEDATA => False
  | INPUTSTATE_WAITING_E0EXT | INPUTSTATE_WAITING_E1EXT1 | INPUTSTATE_WAITING_NORMALRELEASE => n = 1
  | INPUTSTATE_WAITING_E0RELEASE | INPUTSTATE_WAITING_E1RELEASE1 => n = 2
  | INPUTSTATE_WAITING_E1EXT2 => 2 ≤ n ≤ 3
  | INPUTSTATE_WAITING_E1RELEASE2 => 3 ≤ n ≤ 4
  end.

Record decoding (s : drv key_log P H) : Prop := {
  dec_bytes : length (keybytes (ctx s)) = 8%nat;
  dec_index : index_range (input_state (ctx s)) (next_key_byte_index (ctx s));
}.

(** Not a response to a command. *)
Definition scancode_byte (b : Z) : Prop :=
  b ≠ PS2_RESPONSE_ACK ∧ b ≠ PS2_RESPONSE_RESEND ∧ b ≠ CMD_ECHO.

Lemma key_event_ok (s : drv key_log P H) k :
  1 ≤ next_key_byte_index (ctx s) ≤ 8 →
  (∃ s', key_pressed k s = Ok (tt, s') ∧ ctx s' = ctx s) ∧
  (∃ s', key_released k s = Ok (tt, s') ∧ ctx s' = ctx s) ∧
  (∃ s', report_bad_scancode s = Ok (tt, s') ∧ ctx s' = ctx s).
Proof.
  intros Hn. unfold key_pressed, key_released, report_bad_scancode.
  case_decide; cbn; destruct (Z.leb_spec 1 (next_key_byte_index (ctx s))),
    (Z.leb_spec (next_key_byte_index (ctx s)) 8); try lia; cbn; split_and!; eexists; (split; [reflexivity|done]).
Qed.

(** What a handler leaves: [st], and the bytes as they are. *)
Definition handled (s s' : drv key_log P H) (st : INPUTSTATE) : Prop :=
  input_state (ctx s') = st ∧ keybytes (ctx s') = keybytes (ctx s) ∧
  next_key_byte_index (ctx s') = next_key_byte_index (ctx s).

Lemma event_in_state (f : M (drv key_log P H) unit) (s0 s : drv key_log P H) st :
  (∃ s', f s = Ok (tt, s') ∧ ctx s' = ctx s) → handled s0 s st →
  ∃ s', f s = Ok (tt, s') ∧ handled s0 s' st.
Proof. intros (s' & -> & E) Hh. exists s'. split; [done|]. unfold handled. by rewrite E. Qed.

(** Run a handler: case analysis on the byte, then either a key event or
    nothing happens in the new state. *)
Ltac run_handler Hn :=
  cbv [set_state modify_ctx set_kflag clear_kflag check_printscreen_press check_printscreen_release
    check_pause_press check_pause_release check_press check_release mbind M_bind mret M_ret with_ctx
    with_input_state with_kflags];
  cbn [ctx cmds keys port heap input_state cmd_queue kflags keybytes next_key_byte_index];
  repeat match goal with |- context [?a =? ?b] => destruct (a =? b) end;
  let finish H := let s2 := fresh "s2" in let E := fresh "E" in
    destruct H as (s2 & -> & E); exists s2; eexists; unfold handled; rewrite E;
    split_and!; [reflexivity..|set_solver] in
  match goal with
  | |- context [Ok (tt, ?s') = Ok _] => exists s'; eexists; unfold handled; split_and!; [reflexivity..|set_solver]
  | |- context [key_pressed ?k ?s'] => finish (proj1 (key_event_ok s' k Hn))
  | |- context [key_released ?k ?s'] => finish (proj1 (proj2 (key_event_ok s' k Hn)))
  | |- context [report_bad_scancode ?s'] => finish (proj2 (proj2 (key_event_ok s' KBD_KEY_INVALID Hn)))
  end.

(** Any handler of a scancode byte: it selects a new state, and perhaps a key
    event. *)
Lemma dispatch_ok b (s : drv key_log P H) :
  1 ≤ next_key_byte_index (ctx s) ≤ 8 → input_state (ctx s) ≠ INPUTSTATE_WAITING_RESPONSEDATA →
  ∃ s' st, match input_state (ctx s) with
    | INPUTSTATE_WAITING_RESPONSEDATA => response_byte_received b s
    | INPUTSTATE_WAITING_E0EXT => e0_ext_received b s
    | INPUTSTATE_WAITING_E0RELEASE => e0_release_received b s
    | INPUTSTATE_WAITING_E1EXT1 => e1_ext1_received b s
    | INPUTSTATE_WAITING_E1RELEASE1 => e1_release1_received b s
    | INPUTSTATE_WAITING_E1EXT2 => e1_ext2_received b s
    | INPUTSTATE_WAITING_E1RELEASE2 => e1_release2_received b s
    | INPUTSTATE_WAITING_NORMALRELEASE => normal_release_received b s
    | INPUTSTATE_DEFAULT => scancode_first_byte_received b s
    end = Ok (tt, s') ∧ handled s s' st ∧
    match input_state (ctx s) with
    | INPUTSTATE_DEFAULT => st ∈ [INPUTSTATE_DEFAULT; INPUTSTATE_WAITING_E0EXT;
        INPUTSTATE_WAITING_E1EXT1; INPUTSTATE_WAITING_NORMALRELEASE]
    | INPUTSTATE_WAITING_E0EXT => st ∈ [INPUTSTATE_DEFAULT; INPUTSTATE_WAITING_E0RELEASE]
    | INPUTSTATE_WAITING_E1EXT1 => st ∈ [INPUTSTATE_WAITING_E1EXT2; INPUTSTATE_WAITING_E1RELEASE1]
    | INPUTSTATE_WAITING_E1RELEASE1 => st ∈ [INPUTSTATE_WAITING_E1EXT2]
    | INPUTSTATE_WAITING_E1EXT2 => st ∈ [INPUTSTATE_DEFAULT; INPUTSTATE_WAITING_E1RELEASE2]
    | _ => st ∈ [INPUTSTATE_DEFAULT]
    end.
Proof.
  intros Hn Hst. destruct s as [[ist q f kb n] cm ks po he]. cbn in Hn, Hst |- *.
  destruct ist; try done.
  - unfold scancode_first_byte_received. run_handler Hn.
  - unfold e0_ext_received. run_handler Hn.
  - unfold e1_ext1_received. run_handler Hn.
  - unfold e1_ext2_received. run_handler Hn.
  - unfold normal_release_received. run_handler Hn.
  - unfold e0_release_received. run_handler Hn.
  - unfold e1_release1_received. run_handler Hn.
  - unfold e1_release2_received. run_handler Hn.
Qed.
Lemma decoding_step b (s : drv key_log P H) : decoding s → scancode_byte b →
  ∃ s', ps2_op_bytereceived b s = Ok (tt, s') ∧ decoding s'.
Proof.
  intros [Hb Hi] (H1 & H2 & H3).
  unfold ps2_op_bytereceived, store_key_byte, mbind, M_bind, res_bind. cbv beta zeta.
  set (i := if decide (input_state (ctx s) = INPUTSTATE_DEFAULT) then 0 else next_key_byte_index (ctx s)).
  assert (Hr : 0 ≤ i ≤ 4 ∧ (input_state (ctx s) ≠ INPUTSTATE_DEFAULT → i = next_key_byte_index (ctx s))
    ∧ (input_state (ctx s) = INPUTSTATE_DEFAULT → i = 0)).
  { unfold i. case_decide as E; [split; [lia|done]|]. split; [|done].
    destruct (input_state (ctx s)); cbn in Hi; done || lia. }
  rewrite wr_ok by (rewrite Hb; lia).
  set (s1 := with_ctx _ s).
  destruct (Z.eqb_spec b PS2_RESPONSE_ACK); [done|].
  destruct (Z.eqb_spec b PS2_RESPONSE_RESEND); [done|].
  destruct (Z.eqb_spec b CMD_ECHO); [done|].
  assert (Hn1 : next_key_byte_index (ctx s1) = i + 1) by (cbn; unfold u8; rewrite Z.mod_small; lia).
  destruct (dispatch_ok b s1) as (s' & st & -> & (Hst & Hkb & Hn) & Hcase);
    [lia|cbn; intros E; rewrite E in Hi; done|].
  exists s'. split; [done|]. split.
  - rewrite Hkb. cbn. by rewrite length_insert.
  - rewrite Hn, Hn1. subst st. change (input_state (ctx s1)) with (input_state (ctx s)) in Hcase.
    destruct Hr as (Hr & Hne & Heq). rewrite ?elem_of_cons in Hcase. clearbody i s1.
    destruct (input_state (ctx s)); cbn in Hi; try done;
      first [specialize (Heq eq_refl)|specialize (Hne ltac:(discriminate))];
      rewrite ?elem_of_cons, elem_of_nil in Hcase;
      destruct_or!; try done; rewrite Hcase; cbn; lia || done.
Qed.
End decoder.

(** ** Properties *)

(** Whether Print Screen is down after all of [evs], and what is reported for
    them. *)
Fixpoint print_screen_at_end (ps : bool) (evs : list (KBD_KEY * bool)) : bool :=
  match evs with
  | [] => ps
  | ev :: evs => print_screen_at_end (print_screen_after ps ev) evs
  end.
Fixpoint all_reported (ps : bool) (evs : list (KBD_KEY * bool)) : list (KBD_KEY * bool) :=
  match evs with
  | [] => []
  | ev :: evs => reported ps ev ++ all_reported (print_screen_after ps ev) evs
  end.

(** C32: whatever keys of a keyboard go down and up, in any order, the bytes
    the keyboard sends for them in scancode set 2 ([make_code] and
    [break_code], the codes of the keyboard itself) are decoded to these
    events and no others, in their order: a press of Pause is reported as a
    press and a release, for Pause sends nothing when it is let go, and a Print
    Screen that is pressed while it is down, or let go while it is up, is
    reported twice. The driver is then between two events again, and the
    commands in progress are left alone. *)
Theorem scancode_roundtrip {P H} `{!PortOps P} `{!HeapOps H}
    (evs : list (KBD_KEY * bool)) ps (s : drv key_log P H) :
  idle ps s → Forall (λ ev, ev.1 ≠ KBD_KEY_INVALID) evs →
  ∃ s', bytes_received (concat (scancode <$> evs)) s = Ok (tt, s') ∧
    idle (print_screen_at_end ps evs) s' ∧
    keys s' = keys s ++ all_reported ps evs ∧ cmds s' = cmds s ∧ port s' = port s ∧
    cmd_queue (ctx s') = cmd_queue (ctx s).
Proof.
  intros Hi Hev. revert ps s Hi. induction Hev as [|ev evs Hk _ IH]; intros ps s Hi.
  { exists s. by rewrite app_nil_r. }
  destruct (decode_one ev ps s Hi Hk) as (s1 & Hb & Hi1 & Hk1 & Hc1 & Hp1 & _ & Hq1).
  destruct (IH _ s1 Hi1) as (s2 & Hb2 & Hi2 & Hk2 & Hc2 & Hp2 & Hq2).
  exists s2. cbn [fmap list_fmap concat]. rewrite bytes_received_app, Hb.
  split_and!; [done..| | | |]; try congruence. cbn [all_reported]. by rewrite Hk2, Hk1, <-app_assoc.
Qed.

(** A driver with nothing to do. *)
Definition fresh_driver : drv key_log (list Z) nat := Drv initial_ctx ∅ [] [] 0%nat.

Lemma scancode_roundtrip_witness :
  let _ := log_port in let _ := always_heap in
  let evs := [(KBD_KEY_A, true); (KBD_KEY_PRINT_SCREEN, true); (KBD_KEY_A, false);
              (KBD_KEY_S, true); (KBD_KEY_UP, true); (KBD_KEY_PAUSE, true); (KBD_KEY_PAUSE, false);
              (KBD_KEY_PRINT_SCREEN, false); (KBD_KEY_LEFT, true)] in
  concat (scancode <$> evs) =
    [0x1c; 0xe0; 0x12; 0xe0; 0x7c; 0xf0; 0x1c; 0x1b; 0xe0; 0x75;
     0xe1; 0x14; 0x77; 0xe1; 0xf0; 0x14; 0xf0; 0x77;
     0xe0; 0xf0; 0x7c; 0xe0; 0xf0; 0x12; 0xe0; 0x6b] ∧
  ∃ s', bytes_received (concat (scancode <$> evs)) fresh_driver = Ok (tt, s') ∧
    idle false s' ∧ keys s' = evs ∧ cmds s' = ∅ ∧ port s' = [] ∧ cmd_queue (ctx s') = [].
Proof.
  intros ? ? evs. split; [reflexivity|].
  exact (@scancode_roundtrip _ _ log_port always_heap evs false fresh_driver ltac:(by split)
    ltac:(repeat constructor; discriminate)).
Defined.

(** every key has a make code, and no byte of a scancode is a response byte. *)
Theorem every_key_has_a_scancode :
  Forall (λ key, make_code key ≠ [] ∧ ∀ down, Forall scancode_byte (scancode (key, down)))
    (tail all_keys).
Proof.
  assert (Forall (λ key, make_code key ≠ [] ∧
    ∀ down, forallb (λ b, negb ((b =? 0xfa) || (b =? 0xfe) || (b =? 0xee))) (scancode (key, down)) = true)
    (tail all_keys)) as E by (repeat constructor; try discriminate; intros []; reflexivity).
  eapply Forall_impl; [exact E|]. intros k [? Hb]. split; [done|]. intros down. specialize (Hb down).
  rewrite forallb_forall in Hb. apply Forall_forall. intros b Hin%list_elem_of_In.
  specialize (Hb b Hin). apply negb_true_iff in Hb. apply orb_false_iff in Hb as [[Ha Hf]%orb_false_iff He].
  unfold scancode_byte. split_and!; by apply Z.eqb_neq.
Qed.

(** no sequence of scancode bytes, however malformed, stops the driver or
    makes it write past the end of the bytes it keeps. *)
Theorem decoder_total {P H} `{!PortOps P} `{!HeapOps H} (bytes : list Z) (s : drv key_log P H) :
  decoding s → Forall scancode_byte bytes →
  ∃ s', bytes_received bytes s = Ok (tt, s') ∧ decoding s'.
Proof.
  intros Hd Hb. revert s Hd. induction Hb as [|b bytes Hb _ IH]; intros s Hd; [by exists s|].
  destruct (decoding_step b s Hd Hb) as (s1 & E & Hd1). cbn [bytes_received].
  rewrite (M_bind_step _ _ _ _ _ E). by apply IH.
Qed.

Lemma decoder_total_witness :
  let _ := log_port in let _ := always_heap in
  ∃ s', bytes_received [0xe1; 0xe1; 0xe1; 0xf0; 0x00] fresh_driver = Ok (tt, s') ∧ decoding s'.
Proof.
  intros ? ?. apply (@decoder_total _ _ log_port always_heap _ fresh_driver).
  - by split.
  - repeat constructor; discriminate.
Defined.

(** response bytes inside of a scancode sequence do not end it, so that
    enough of them make the driver write past the end of the eight bytes it
    keeps: a keyboard can do that with nine bytes. *)
Theorem response_bytes_overflow {P H} `{!PortOps P} `{!HeapOps H} (s : drv key_log P H) :
  input_state (ctx s) = INPUTSTATE_DEFAULT → cmd_queue (ctx s) = [] → length (keybytes (ctx s)) = 8%nat →
  bytes_received (0xe0 :: replicate 8 PS2_RESPONSE_ACK) s = Fault Out_of_bounds.
Proof.
  intros Hst Hq Hb. destruct s as [[ist q f kb n] cm ks po he]. cbn in Hst, Hq, Hb. subst.
  destruct kb as [|b0 [|b1 [|b2 [|b3 [|b4 [|b5 [|b6 [|b7 [|]]]]]]]]]; try discriminate Hb.
  vm_compute. reflexivity.
Qed.

Lemma response_bytes_overflow_witness :
  let _ := log_port in let _ := always_heap in
  bytes_received (0xe0 :: replicate 8 PS2_RESPONSE_ACK) fresh_driver = Fault Out_of_bounds.
Proof. intros ? ?. by apply (@response_bytes_overflow _ _ log_port always_heap). Defined.

(** ** The command protocol *)

(** Waiting for the response to the command at [p], alone in the queue, with
    [sent] what was sent so far. *)
Record waiting {H} (p : Z) (c : cmd_context) (sent : list Z) (s : drv key_log (list Z) H) : Prop := {
  wait_state : input_state (ctx s) = INPUTSTATE_DEFAULT;
  wait_bytes : length (keybytes (ctx s)) = 8%nat;
  wait_queue : cmd_queue (ctx s) = [p];
  wait_cmds : cmds s = {[p := c]};
  wait_port : port s = sent;
  wait_cmd_state : cmd_state c = CMDSTATE_WAITINGRESPONSE;
}.

Section protocol.
#[local] Existing Instances log_port always_heap.

Lemma store_byte_ok b (s : drv key_log (list Z) nat) :
  input_state (ctx s) = INPUTSTATE_DEFAULT → length (keybytes (ctx s)) = 8%nat →
  store_key_byte b s = Ok (tt, with_ctx (with_keybytes (<[0%nat := b]> (keybytes (ctx s))) 1 (ctx s)) s).
Proof.
  intros Hst Hb. unfold store_key_byte. rewrite decide_True by done. rewrite wr_ok by lia. done.
Qed.

Lemma resend_again p c sent s :
  waiting p c sent s → 0 < resendcount c < 256 → noretry c = false →
  ∃ s', ps2_op_bytereceived PS2_RESPONSE_RESEND s = Ok (tt, s') ∧
    waiting p (with_resendcount (resendcount c - 1) c) (sent ++ [cmdbyte c]) s' ∧
    keys s' = keys s ∧ heap s' = heap s.
Proof.
  intros [Hst Hb Hq Hc Hp Hcs] Hr Hn. unfold ps2_op_bytereceived.
  rewrite (M_bind_step _ _ _ _ _ (store_byte_ok _ s Hst Hb)). cbn.
  destruct s as [[ist q f kb n] cm ks po he]. cbn in *. subst.
  unfold resend_received, with_waiting_cmd, back_cmd, load_cmd, modify_cmd, on_port, mbind, M_bind, with_cmds.
  cbn. rewrite lookup_singleton_eq, decide_True, Hn by done.
  destruct (Z.ltb_spec 0 (resendcount c)); [|lia]. cbn. rewrite lookup_singleton_eq. cbn.
  eexists. split; [done|]. split; [|done]. split; cbn; try done; [by rewrite length_insert|].
  rewrite insert_singleton_eq. f_equal. unfold u8. by rewrite Z.mod_small by lia.
Qed.
(** A command that is finished: it is out of the queue, not yet freed. *)
Record finished (p : Z) (st : CMDSTATE) (want_data : bool) (data : Z) (sent : list Z) (s : drv key_log (list Z) nat) : Prop := {
  fin_state : input_state (ctx s) = INPUTSTATE_DEFAULT;
  fin_bytes : length (keybytes (ctx s)) = 8%nat;
  fin_queue : cmd_queue (ctx s) = [];
  fin_cmds : ∃ c, cmds s = {[p := c]} ∧ cmd_state c = st ∧ needdata c = want_data ∧
    (want_data = true → responsedata c = data);
  fin_port : port s = sent;
}.

Ltac open_driver s :=
  destruct s as [[ist q f kb n] cm ks po he]; cbn in *; subst;
  unfold ack_received, resend_received, response_byte_received, cmd_finished, with_waiting_cmd, back_cmd, load_cmd,
    modify_cmd, modify_ctx, free_cmd, on_port, on_heap, mret, M_ret, mbind, M_bind, with_cmds, with_ctx.

Lemma ack_finishes p c sent s :
  waiting p c sent s → async c = false → needdata c = false →
  ∃ s', ps2_op_bytereceived PS2_RESPONSE_ACK s = Ok (tt, s') ∧
    finished p CMDSTATE_SUCCESS false 0 sent s' ∧ keys s' = keys s ∧ heap s' = heap s.
Proof.
  intros [Hst Hb Hq Hc Hp Hcs] Ha Hn. unfold ps2_op_bytereceived.
  rewrite (M_bind_step _ _ _ _ _ (store_byte_ok _ s Hst Hb)). cbn. open_driver s.
  cbn. rewrite lookup_singleton_eq, decide_True, Hn by done. cbn.
  rewrite !lookup_singleton_eq. cbn. rewrite insert_singleton_eq, lookup_singleton_eq. cbn. rewrite Ha. cbn.
  eexists. split; [done|]. split; [|done]. split; cbn; try done; [by rewrite length_insert|].
  eexists. by split_and!.
Qed.

Lemma data_finishes p c sent s v :
  waiting p c sent s → async c = false → needdata c = true → scancode_byte v →
  ∃ s1 s', ps2_op_bytereceived PS2_RESPONSE_ACK s = Ok (tt, s1) ∧
    ps2_op_bytereceived v s1 = Ok (tt, s') ∧
    load_cmd p s1 = Ok (c, s1) ∧
    finished p CMDSTATE_SUCCESS true v sent s' ∧ keys s' = keys s ∧ heap s' = heap s.
Proof.
  intros [Hst Hb Hq Hc Hp Hcs] Ha Hn (H1 & H2 & H3). unfold ps2_op_bytereceived at 1.
  rewrite (M_bind_step _ _ _ _ _ (store_byte_ok _ s Hst Hb)). cbn. open_driver s.
  cbn. rewrite lookup_singleton_eq, decide_True, Hn by done. cbn.
  do 2 eexists. split; [done|]. unfold ps2_op_bytereceived, store_key_byte, mbind, M_bind, res_bind. cbn.
  rewrite decide_False by done. rewrite wr_ok by (rewrite length_insert; lia). cbn.
  destruct (Z.eqb_spec v PS2_RESPONSE_ACK); [done|].
  destruct (Z.eqb_spec v PS2_RESPONSE_RESEND); [done|].
  destruct (Z.eqb_spec v CMD_ECHO); [done|].
  unfold ack_received, resend_received, response_byte_received, cmd_finished, with_waiting_cmd, back_cmd, load_cmd,
    modify_cmd, modify_ctx, free_cmd, on_port, on_heap, mret, M_ret, mbind, M_bind, with_cmds, with_ctx.
  cbn. rewrite lookup_singleton_eq, decide_True by done.
  repeat (progress (cbn; rewrite ?insert_singleton_eq, ?lookup_singleton_eq, ?Ha)).
  split; [done|]. split; [done|]. split; [|done]. split; cbn; try done; [by rewrite !length_insert|].
  eexists. by split_and!.
Qed.

Lemma resend_finishes p c sent s :
  waiting p c sent s → async c = false → resendcount c = 0 →
  ∃ s', ps2_op_bytereceived PS2_RESPONSE_RESEND s = Ok (tt, s') ∧
    finished p CMDSTATE_FAILED (needdata c) (responsedata c) sent s' ∧ keys s' = keys s ∧ heap s' = heap s.
Proof.
  intros [Hst Hb Hq Hc Hp Hcs] Ha Hr. unfold ps2_op_bytereceived.
  rewrite (M_bind_step _ _ _ _ _ (store_byte_ok _ s Hst Hb)). cbn. open_driver s.
  cbn. rewrite lookup_singleton_eq, decide_True, Hr by done. cbn.
  rewrite !lookup_singleton_eq. cbn. rewrite insert_singleton_eq, lookup_singleton_eq. cbn. rewrite Ha. cbn.
  eexists. split; [done|]. split; [|done]. split; cbn; try done; [by rewrite length_insert|].
  eexists. by split_and!.
Qed.

(** Up to as many resends as are left, the request goes on waiting. *)
Lemma wait_resends n p c sent s arrivals :
  waiting p c sent s → (Z.of_nat n ≤ resendcount c < 256) → noretry c = false →
  ∃ s', wait_cmd p (replicate n PS2_RESPONSE_RESEND ++ arrivals) s = wait_cmd p arrivals s' ∧
    waiting p (with_resendcount (resendcount c - Z.of_nat n) c) (sent ++ replicate n (cmdbyte c)) s' ∧
    keys s' = keys s ∧ heap s' = heap s.
Proof.
  revert c sent s. induction n as [|n IH]; intros c sent s Hw Hn Hnr.
  { exists s. split_and!; try done. cbn. rewrite app_nil_r, Z.sub_0_r. by destruct c. }
  destruct (resend_again p c sent s Hw) as (s1 & Hs1 & Hw1 & Hk1 & Hh1); [lia|done|].
  destruct (IH _ _ s1 Hw1) as (s2 & Hs2 & Hw2 & Hk2 & Hh2); [cbn; lia|done|].
  exists s2. split_and!; [|..]; try congruence.
  - rewrite <- Hs2. cbn [replicate app wait_cmd]. pose proof Hw as [_ _ _ Hc _ Hcs].
    assert (load_cmd p s = Ok (c, s)) as E by (unfold load_cmd; rewrite Hc; by rewrite lookup_singleton_eq).
    rewrite (M_bind_step _ _ _ _ _ E), decide_False by (rewrite Hcs; naive_solver).
    by rewrite (M_bind_step _ _ _ _ _ Hs1).
  - cbn in Hw2. rewrite <- app_assoc in Hw2. cbn in Hw2.
    replace (resendcount c - Z.of_nat (S n)) with (resendcount c - 1 - Z.of_nat n) by lia. exact Hw2.
Qed.

Lemma wait_step p c sent s b s1 arrivals :
  waiting p c sent s → ps2_op_bytereceived b s = Ok (tt, s1) →
  wait_cmd p (b :: arrivals) s = wait_cmd p arrivals s1.
Proof.
  intros [_ _ _ Hc _ Hcs] Hb. cbn [wait_cmd].
  assert (load_cmd p s = Ok (c, s)) as E by (unfold load_cmd; rewrite Hc; by rewrite lookup_singleton_eq).
  rewrite (M_bind_step _ _ _ _ _ E), decide_False by (rewrite Hcs; naive_solver).
  by rewrite (M_bind_step _ _ _ _ _ Hb).
Qed.

Lemma wait_finished p st nd r sent s arrivals :
  finished p st nd r sent s → st = CMDSTATE_SUCCESS ∨ st = CMDSTATE_FAILED →
  wait_cmd p arrivals s = Ok (arrivals, s).
Proof.
  intros [_ _ _ (c & Hc & Hcs & _) _] Hst.
  assert (load_cmd p s = Ok (c, s)) as E by (unfold load_cmd; rewrite Hc; by rewrite lookup_singleton_eq).
  destruct arrivals as [|b arr]; cbn [wait_cmd]; rewrite (M_bind_step _ _ _ _ _ E);
    rewrite decide_True by (by rewrite Hcs); done.
Qed.

(** The response to a command, and the data if it asks for some. *)
Lemma ack_or_data p c sent s rest data :
  waiting p c sent s → async c = false → scancode_byte data →
  ∃ s', wait_cmd p ((PS2_RESPONSE_ACK :: (if needdata c then [data] else [])) ++ rest) s = Ok (rest, s') ∧
    finished p CMDSTATE_SUCCESS (needdata c) (if needdata c then data else 0) sent s' ∧ keys s' = keys s.
Proof.
  intros Hw Ha Hd. destruct (needdata c) eqn:Hn; cbn [app].
  - destruct (data_finishes p c sent s data Hw Ha Hn Hd) as (s1 & s' & H1 & H2 & H3 & H4 & H5 & _).
    exists s'. split_and!; [|done..]. rewrite (wait_step _ _ _ _ _ _ _ Hw H1). cbn [wait_cmd].
    rewrite (M_bind_step _ _ _ _ _ H3). pose proof Hw as [_ _ _ _ _ Hcs].
    rewrite decide_False by (rewrite Hcs; naive_solver). rewrite (M_bind_step _ _ _ _ _ H2).
    eapply wait_finished; [exact H4|by left].
  - destruct (ack_finishes p c sent s Hw Ha Hn) as (s' & H1 & H2 & H3 & _).
    exists s'. split_and!; [|done..]. rewrite (wait_step _ _ _ _ _ _ _ Hw H1).
    eapply wait_finished; [exact H2|by left].
Qed.

(** A driver with no command in progress. *)
Record no_command (sent : list Z) (s : drv key_log (list Z) nat) : Prop := {
  nc_state : input_state (ctx s) = INPUTSTATE_DEFAULT;
  nc_bytes : length (keybytes (ctx s)) = 8%nat;
  nc_queue : cmd_queue (ctx s) = [];
  nc_cmds : cmds s = ∅;
  nc_port : port s = sent;
}.

(** What the keyboard sends when it takes a command after [n] resends, with a
    byte of data if the command asks for one. *)
Definition response (n : nat) (want_data : bool) (data : Z) : list Z :=
  replicate n PS2_RESPONSE_RESEND ++ PS2_RESPONSE_ACK :: (if want_data then [data] else []).

(** The request up to the loop that waits. *)
Lemma request_starts result_out b arrivals sent s :
  no_command sent s → ∃ p s1,
    request_cmd result_out b false false arrivals s =
      (arr ← wait_cmd p arrivals;
       c ← load_cmd p;
       if decide (cmd_state c = CMDSTATE_FAILED) then _ ← free_cmd p; mret (- EIO, 0, arr)
       else _ ← free_cmd p; mret (0, if needdata c then responsedata c else 0, arr)) s1 ∧
    waiting p (Cmd CMDSTATE_WAITINGRESPONSE false false 0 b MAX_RESEND_COUNT result_out) (sent ++ [b]) s1 ∧
    keys s1 = keys s.
Proof.
  intros [Hst Hb Hq Hc Hp]. destruct s as [[ist q f kb n] cm ks po he]. cbn in *. subst.
  exists (16 * (Z.of_nat he + 1)). eexists. split.
  - unfold request_cmd, massert, on_heap, get, put, modify_ctx, on_port, mbind, M_bind, mret, M_ret. cbn [negb andb orb].
    unfold res_bind. cbn [heap heap_alloc always_heap].
    destruct (Z.eqb_spec (16 * (Z.of_nat he + 1)) 0); [lia|]. cbn. reflexivity.
  - split; [|done]. by split.
Qed.

(** The request after the loop that waits. *)
Lemma request_ends p st nd r sent s (arr : list Z) :
  finished p st nd r sent s → ∃ s',
    (c ← load_cmd p;
     if decide (cmd_state c = CMDSTATE_FAILED) then _ ← free_cmd p; mret (- EIO, 0, arr)
     else _ ← free_cmd p; mret (0, if needdata c then responsedata c else 0, arr)) s =
    Ok (if decide (st = CMDSTATE_FAILED) then (- EIO, 0, arr) else (0, if nd then r else 0, arr), s') ∧
    no_command sent s' ∧ keys s' = keys s.
Proof.
  intros [Hst Hb Hq (c & Hc & Hcs & Hnd & Hr) Hp]. destruct s as [[ist q f kb n] cm ks po he]. cbn in *. subst.
  assert (load_cmd p (Drv (Ctx INPUTSTATE_DEFAULT [] f kb n) {[p := c]} ks sent he) = Ok (c, _)) as E
    by (unfold load_cmd; cbn; by rewrite lookup_singleton_eq).
  rewrite (M_bind_step _ _ _ _ _ E).
  eexists (Drv (Ctx INPUTSTATE_DEFAULT [] f kb n) (delete p {[p := c]}) ks sent he).
  split; [|split; [split; try done; cbn; apply delete_singleton_eq|done]].
  unfold free_cmd, on_heap, mbind, M_bind, mret, M_ret. case_decide; cbn; [done|].
  destruct (needdata c); [by rewrite Hr|done].
Qed.

(** a request the keyboard acknowledges after at most three resends
    returns 0 and the byte of data it asked for, having sent the command once
    more per resend; a fourth resend fails it with [-EIO]; and either way the
    command is freed and the driver is ready for the next one.  A keyboard that
    never answers leaves it waiting forever. *)
Theorem request_cmd_protocol (result_out : bool) (b data : Z) (n : nat) (rest sent : list Z)
    (s : drv key_log (list Z) nat) :
  no_command sent s → scancode_byte data →
  ((n ≤ 3)%nat → ∃ s',
     request_cmd result_out b false false (response n result_out data ++ rest) s =
       Ok ((0, if result_out then data else 0, rest), s') ∧
     no_command (sent ++ replicate (S n) b) s' ∧ keys s' = keys s) ∧
  (∃ s', request_cmd result_out b false false (replicate 4 PS2_RESPONSE_RESEND ++ rest) s =
       Ok ((- EIO, 0, rest), s') ∧
     no_command (sent ++ replicate 4 b) s' ∧ keys s' = keys s) ∧
  request_cmd result_out b false false [] s = Fault No_fuel.
Proof.
  intros Hnc Hdata. split_and!.
  - intros Hn. destruct (request_starts result_out b (response n result_out data ++ rest) sent s Hnc)
      as (p & s1 & -> & Hw & Hk1). unfold response. rewrite <- app_assoc.
    destruct (wait_resends n p _ _ s1 ((PS2_RESPONSE_ACK :: (if result_out then [data] else [])) ++ rest) Hw)
      as (s2 & Hs2 & Hw2 & Hk2 & _); [cbn; unfold MAX_RESEND_COUNT; lia|done|].
    destruct (ack_or_data p _ _ s2 rest data Hw2) as (s3 & Hs3 & Hf3 & Hk3); [done..|].
    cbn [needdata with_resendcount] in Hs3, Hf3.
    destruct (request_ends p _ _ _ _ s3 rest Hf3) as (s' & Hs' & Hnc' & Hk').
    exists s'. rewrite (M_bind_step _ _ _ rest s3) by (rewrite Hs2; exact Hs3).
    rewrite Hs'. rewrite decide_False by done. split; [by destruct result_out|].
    rewrite <- app_assoc in Hnc'. cbn in Hnc'. split; [exact Hnc'|congruence].
  - destruct (request_starts result_out b (replicate 4 PS2_RESPONSE_RESEND ++ rest) sent s Hnc)
      as (p & s1 & -> & Hw & Hk1). change (replicate 4 PS2_RESPONSE_RESEND ++ rest) with
      (replicate 3 PS2_RESPONSE_RESEND ++ PS2_RESPONSE_RESEND :: rest).
    destruct (wait_resends 3 p _ _ s1 (PS2_RESPONSE_RESEND :: rest) Hw) as (s2 & Hs2 & Hw2 & Hk2 & _); [done|done|].
    destruct (resend_finishes p _ _ s2 Hw2) as (s3 & Hs3 & Hf3 & Hk3 & _); [done..|].
    destruct (request_ends p _ _ _ _ s3 rest Hf3) as (s' & Hs' & Hnc' & Hk').
    exists s'. rewrite (M_bind_step _ _ _ rest s3).
    + rewrite Hs'. split; [done|]. rewrite <- app_assoc in Hnc'. split; [exact Hnc'|congruence].
    + rewrite Hs2, (wait_step _ _ _ _ _ _ _ Hw2 Hs3). eapply wait_finished; [exact Hf3|by right].
  - destruct (request_starts result_out b [] sent s Hnc) as (p & s1 & -> & Hw & _).
    pose proof Hw as [_ _ _ Hc _ _]. cbn [wait_cmd]. unfold mbind at 1, M_bind at 1.
    assert (load_cmd p s1 = Ok (_, s1)) as E by (unfold load_cmd; rewrite Hc; by rewrite lookup_singleton_eq).
    rewrite (M_bind_step _ _ _ _ _ E). done.
Qed.

Lemma request_cmd_protocol_witness :
  ∃ s', request_cmd true 0xf2 false false [0xfe; 0xfa; 0x41; 0x1c] fresh_driver = Ok ((0, 0x41, [0x1c]), s') ∧
    no_command [0xf2; 0xf2] s' ∧ keys s' = [].
Proof.
  exact (proj1 (request_cmd_protocol true 0xf2 0x41 1 [0x1c] [] fresh_driver ltac:(by split) ltac:(by split)) ltac:(lia)).
Defined.
End protocol.

(** A port that accepts only its first byte. *)
Definition failing_port : PortOps Z := λ b n, Ok (if n =? 0 then 0 else - EIO, n + 1).

(** when a resend cannot be sent the command is marked as failed but left
    in the queue, and the request then frees it: the next response from the
    keyboard dereferences the freed command. *)
Theorem failed_resend_leaves_dangling_command :
  let _ := failing_port in let _ := always_heap in
  let s : drv key_log Z nat := Drv initial_ctx ∅ [] 0 0%nat in
  ∃ p s1, request_cmd false CMD_ECHO false false [PS2_RESPONSE_RESEND] s = Ok ((- EIO, 0, []), s1) ∧
    cmd_queue (ctx s1) = [p] ∧ cmds s1 = ∅ ∧
    ps2_op_bytereceived PS2_RESPONSE_ACK s1 = Fault Bad_pointer.
Proof.
  intros. do 2 eexists. split; [vm_compute; reflexivity|]. split_and!; vm_compute; reflexivity.
Qed.
