(* ===== verification/Stream.v ===== *)
(** Formatted output to streams (src/kernel/io/stream.c) and to buffers
    (src/kernel/lib/libc/stdio.c). *)
From S2P Require Import Prelude Arch StrUtil.

(** ** Streams *)

(** The [write] operation of a stream, for one byte: the length written, or a
    negative error. *)
Class StreamOps (S : Type) := stream_write : Z → M S Z.

(** Computations that may return early from the enclosing function, with a
    negative value: [inr]. *)
Definition X (S A : Type) : Type := S → res ((A + Z) * S).

#[export] Instance X_ret S : MRet (X S) := λ A a s, Ok (inl a, s).
#[export] Instance X_bind S : MBind (X S) := λ A B f m s,
  match m s with
  | Ok (inl a, s') => f a s'
  | Ok (inr e, s') => Ok (inr e, s')
  | Fault e => Fault e
  end.

Definition from_res {S A} (m : res A) : X S A :=
  λ s, match m with Ok a => Ok (inl a, s) | Fault e => Fault e end.

(** The value the function returns. *)
Definition returns {S} (m : X S Z) : M S Z := λ s,
  '(r, s) ← m s; Ok (match r with inl n => s32 n | inr e => e end, s).

(** ** Numbers

    The largest power of the base that is at most the number (or 1). *)
Definition top_divisor (base i : Z) : res Z :=
  loop 33 (λ '(divisor, current),
    if negb (current / base =? 0) then Ok (inl (u32 (divisor * base), current / base))
    else Ok (inr divisor)) (1, u32 i).

Definition count_divisors (base divisor : Z) : res Z :=
  loop 33 (λ '(divisor, len),
    if negb (divisor =? 0) then Ok (inl (divisor / base, u32 (len + 1))) else Ok (inr len)) (divisor, 0).

Definition measure_dec_unsigned (i : Z) : res Z :=
  let i := u32 i in
  divisor ← top_divisor 10 i;
  count_divisors 10 divisor.

Definition negate64 (i : Z) : res Z :=
  if i =? - 2 ^ 63 then Fault Signed_overflow else Ok (- i).

Definition measure_dec_signed (i : Z) : res Z :=
  if i <? 0 then
    i ← negate64 i;
    len ← measure_dec_unsigned i;
    Ok (u32 (1 + len))
  else measure_dec_unsigned i.

Definition measurehex (i : Z) : res Z :=
  let i := u32 i in
  divisor ← top_divisor 16 i;
  count_divisors 16 divisor.

Section stream.
Context {S : Type} `{!StreamOps S}.

Definition stream_put_char (c : Z) : M S Z :=
  result ← stream_write (u8 c);
  if result <? 0 then mret result
  else _ ← massert (negb (result =? 0)); mret result.

(** Put a character, and return early on an error. *)
Definition put (c : Z) : X S Z := λ s,
  '(ret, s) ← stream_put_char c s;
  Ok (if ret <? 0 then inr ret else inl ret, s).

(** Put the digits from that of [divisor] down. *)
Fixpoint put_digits (fuel : nat) (base : Z) (digit_char : Z → Z) (i divisor written_count : Z) : X S Z :=
  match fuel with
  | O => from_res (Fault No_fuel)
  | Datatypes.S fuel =>
      if negb (divisor =? 0) then
        _ ← put (digit_char (i / divisor mod base));
        put_digits fuel base digit_char i (divisor / base) (u32 (written_count + 1))
      else mret written_count
  end.

Definition print_dec_unsigned (i : Z) : X S Z :=
  divisor ← from_res (top_divisor 10 i);
  put_digits 33 10 (λ digit, 48 + digit) i divisor 0.

Definition print_dec_signed (i : Z) : X S Z :=
  if i <? 0 then
    _ ← put 45;
    i ← from_res (negate64 i);
    result ← print_dec_unsigned i;
    mret (u32 (1 + result))
  else print_dec_unsigned i.

Definition print_hex (i : Z) (uppercase : bool) : X S Z :=
  let a := if uppercase then 65 else 97 in
  divisor ← from_res (top_divisor 16 i);
  put_digits 33 16 (λ digit, if digit <? 10 then 48 + digit else a + (digit - 10)) i divisor 0.

(** A null string is printed as "<null>". *)
Definition null_string : list Z := [60; 110; 117; 108; 108; 62].

Fixpoint put_chars (s : list Z) (written_count : Z) : X S Z :=
  match s with
  | [] => mret written_count
  | c :: s => _ ← put c; put_chars s (u32 (written_count + 1))
  end.

Definition stream_put_string (s : option (list Z)) : X S Z :=
  put_chars (default null_string s) 0.

(** ** Formats *)

Inductive LENMOD :=
  | LENMOD_INT | LENMOD_CHAR | LENMOD_SHORT | LENMOD_LONG | LENMOD_LONG_LONG
  | LENMOD_INTMAX | LENMOD_SIZE | LENMOD_PTRDIFF.

Record spec := Spec { alternate : bool; minwidth_present : bool; padchar : Z; minwidth : Z }.

(** [fmtflag]: each function leaves off at the first character that is not
    its own. *)
Fixpoint fmtflag (fmt : list Z) (sp : spec) {struct fmt} : list Z * spec :=
  match fmt with
  | c :: rest =>
      if c =? 35 then fmtflag rest (Spec true (minwidth_present sp) (padchar sp) (minwidth sp))
      else if c =? 48 then fmtflag rest (Spec (alternate sp) (minwidth_present sp) 48 (minwidth sp))
      else (fmt, sp)
  | [] => (fmt, sp)
  end.

Fixpoint fmtminwidth (fmt : list Z) (sp : spec) {struct fmt} : list Z * spec :=
  match fmt with
  | c :: rest =>
      if (48 <=? c) && (c <=? 57) then
        fmtminwidth rest (Spec (alternate sp) true (padchar sp) (u32 (u32 (minwidth sp * 10) + (c - 48))))
      else (fmt, sp)
  | [] => (fmt, sp)
  end.

Definition fmtlenmod (fmt : list Z) : list Z * LENMOD :=
  match fmt with
  | c :: rest =>
      if c =? 104 then
        match rest with
        | c2 :: rest2 => if c2 =? 104 then (rest2, LENMOD_CHAR) else (rest, LENMOD_SHORT)
        | [] => (rest, LENMOD_SHORT)
        end
      else if c =? 108 then
        match rest with
        | c2 :: rest2 => if c2 =? 108 then (rest2, LENMOD_LONG_LONG) else (rest, LENMOD_LONG)
        | [] => (rest, LENMOD_LONG)
        end
      else if c =? 106 then (rest, LENMOD_INTMAX)
      else if c =? 122 then (rest, LENMOD_SIZE)
      else (fmt, LENMOD_INT)
  | [] => (fmt, LENMOD_INT)
  end.

(** ** Arguments

    The variable arguments are 32-bit words; a 64-bit one takes two of them,
    the low word first. *)
Definition va_word (ap : list Z) : res (Z * list Z) :=
  match ap with w :: ap => Ok (w, ap) | [] => Fault Out_of_bounds end.
Definition va_word64 (ap : list Z) : res (Z * list Z) :=
  '(lo, ap) ← va_word ap;
  '(hi, ap) ← va_word ap;
  Ok (lo + hi * 2 ^ 32, ap).

Definition va_signed (lenmod : LENMOD) (ap : list Z) : res (Z * list Z) :=
  match lenmod with
  | LENMOD_CHAR | LENMOD_SHORT | LENMOD_INT | LENMOD_LONG | LENMOD_PTRDIFF =>
      '(w, ap) ← va_word ap; Ok (s32 w, ap)
  | LENMOD_LONG_LONG | LENMOD_INTMAX => '(w, ap) ← va_word64 ap; Ok (s64 w, ap)
  | LENMOD_SIZE => '(w, ap) ← va_word ap; Ok (w, ap)
  end.

(** A [ptrdiff_t] is sign-extended to [uintmax_t]. *)
Definition va_unsigned (lenmod : LENMOD) (ap : list Z) : res (Z * list Z) :=
  match lenmod with
  | LENMOD_CHAR | LENMOD_SHORT | LENMOD_INT | LENMOD_LONG | LENMOD_SIZE => va_word ap
  | LENMOD_LONG_LONG | LENMOD_INTMAX => va_word64 ap
  | LENMOD_PTRDIFF => '(w, ap) ← va_word ap; Ok (u64 (s32 w), ap)
  end.

(** The memory [%s] reads: the string at an address. *)
Context (string_at : Z → res (list Z)).

Fixpoint pad (n : nat) (padchar written_count : Z) : X S Z :=
  match n with
  | O => mret written_count
  | Datatypes.S n => ret ← put padchar; pad n padchar (u32 (written_count + ret))
  end.

Definition pad_to (sp : spec) (measureresult written_count : Z) : X S Z :=
  pad (Z.to_nat (minwidth sp - measureresult)) (padchar sp) written_count.

(** [doformat]: the conversion [c]; the result is the new count and the
    arguments left. *)
Definition doformat (c : Z) (sp : spec) (lenmod : LENMOD) (ap : list Z) (written_count : Z)
    : X S (Z * list Z) :=
  if c =? 99 (* c *) then
    '(v, ap) ← from_res (va_word ap);
    _ ← put (s8 v);
    mret (u32 (written_count + 1), ap)
  else if c =? 115 (* s *) then
    '(p, ap) ← from_res (va_word ap);
    s ← from_res (if p =? 0 then Ok None else s ← string_at p; Ok (Some s));
    ret ← stream_put_string s;
    mret (u32 (written_count + ret), ap)
  else if c =? 100 (* d *) then
    '(val, ap) ← from_res (va_signed lenmod ap);
    written_count ← (if minwidth_present sp then
        measureresult ← from_res (measure_dec_signed val);
        pad_to sp measureresult written_count
      else mret written_count);
    ret ← print_dec_signed val;
    mret (u32 (written_count + ret), ap)
  else if c =? 117 (* u *) then
    '(val, ap) ← from_res (va_unsigned lenmod ap);
    written_count ← (if minwidth_present sp then
        measureresult ← from_res (measure_dec_unsigned val);
        pad_to sp measureresult written_count
      else mret written_count);
    ret ← print_dec_unsigned val;
    mret (u32 (written_count + ret), ap)
  else if (c =? 120) || (c =? 88) (* x, X *) then
    let isuppercase := c =? 88 in
    '(val, ap) ← from_res (va_unsigned lenmod ap);
    measureresult ← from_res (if minwidth_present sp then
        n ← measurehex val;
        Ok (if alternate sp then u32 (n + 2) else n)
      else Ok 0);
    written_count ← (if alternate sp then
        ret ← stream_put_string (Some (if isuppercase then [48; 88] else [48; 120]));
        mret (u32 (written_count + ret))
      else mret written_count);
    written_count ← (if minwidth_present sp then pad_to sp measureresult written_count
                     else mret written_count);
    ret ← print_hex val isuppercase;
    mret (u32 (written_count + ret), ap)
  else if c =? 112 (* p *) then
    '(p, ap) ← from_res (va_word ap);
    ret ← stream_put_string (Some [48; 120]);
    let written_count := u32 (written_count + ret) in
    ret ← print_hex p false;
    mret (u32 (written_count + ret), ap)
  else
    ret ← put c;
    mret (u32 (written_count + ret), ap).

(** [percentorchar]: the fuel is one more than the length of the format. *)
Fixpoint percentorchar (fuel : nat) (fmt : list Z) (ap : list Z) (written_count : Z) : X S Z :=
  match fuel with
  | O => from_res (Fault No_fuel)
  | Datatypes.S fuel =>
      match fmt with
      | [] => mret written_count
      | c :: fmt =>
          if c =? 37 then
            let '(fmt, sp) := fmtflag fmt (Spec false false 32 0) in
            let '(fmt, sp) := fmtminwidth fmt sp in
            let '(fmt, lenmod) := fmtlenmod fmt in
            match fmt with
            | [] => mret written_count
            | c :: fmt =>
                '(written_count, ap) ← doformat c sp lenmod ap written_count;
                percentorchar fuel fmt ap written_count
            end
          else
            _ ← put c;
            percentorchar fuel fmt ap (u32 (written_count + 1))
      end
  end.

Definition stream_vprintf (fmt ap : list Z) : M S Z :=
  returns (percentorchar (Datatypes.S (length fmt)) fmt ap 0).
End stream.

(** ** Numerals *)

(** The number of digits of [i], less one. *)
Fixpoint log_b (fuel : nat) (base i : Z) : nat :=
  match fuel with
  | O => O
  | S fuel => if i <? base then O else S (log_b fuel base (i / base))
  end.

Definition top (base i : Z) : nat := log_b 32 base i.

#[global] Arguments top : simpl never.

(** The digits of [i] from that of [base ^ k] down. *)
Fixpoint digits (base : Z) (k : nat) (i : Z) : list Z :=
  i / base ^ Z.of_nat k mod base ::
  match k with O => [] | S k => digits base k i end.

Definition numeral (base i : Z) : list Z := digits base (top base i) i.

Definition value (base : Z) (ds : list Z) : Z := foldl (λ v d, v * base + d) 0 ds.

Lemma log_b_spec fuel base i :
  2 ≤ base → 0 ≤ i < base ^ Z.of_nat fuel → (fuel ≠ 0)%nat →
  i < base ^ (Z.of_nat (log_b fuel base i) + 1) ∧
  (log_b fuel base i = O ∨ base ^ Z.of_nat (log_b fuel base i) ≤ i) ∧ (log_b fuel base i < fuel)%nat.
Proof.
  intros Hb. revert i. induction fuel as [|fuel IH]; intros i Hi Hf; [done|]. cbn [log_b].
  destruct (Z.ltb_spec i base).
  { change (Z.of_nat 0 + 1) with 1. rewrite Z.pow_1_r. split_and!; [done|by left|lia]. }
  rewrite Nat2Z.inj_succ, Z.pow_succ_r in Hi by lia.
  assert (0 ≤ i / base < base ^ Z.of_nat fuel) as Hd.
  { split; [apply Z.div_pos; lia|apply Z.div_lt_upper_bound; lia]. }
  assert (fuel ≠ 0)%nat. { intros ->. cbn in Hd. assert (1 ≤ i / base) by (apply Z.div_le_lower_bound; lia). lia. }
  destruct (IH _ Hd) as (H1 & H2 & H3); [done|]. pose proof (Z.div_mod i base ltac:(lia)).
  pose proof (Z.mod_pos_bound i base ltac:(lia)).
  split_and!; [| |lia].
  - rewrite Nat2Z.inj_succ. replace (Z.succ (Z.of_nat (log_b fuel base (i / base))) + 1)
      with (Z.succ (Z.of_nat (log_b fuel base (i / base)) + 1)) by lia.
    rewrite Z.pow_succ_r by lia. nia.
  - right. rewrite Nat2Z.inj_succ, Z.pow_succ_r by lia. destruct H2 as [H2|H2]; [rewrite H2|nia].
    rewrite Z.pow_0_r. lia.
Qed.

Lemma pow_base_mono base : 2 ≤ base → 2 ^ 32 ≤ base ^ 32.
Proof. intros. apply Z.pow_le_mono_l. lia. Qed.

Lemma top_spec base i : 2 ≤ base → 0 ≤ i < 2 ^ 32 →
  i < base ^ (Z.of_nat (top base i) + 1) ∧ (top base i = O ∨ base ^ Z.of_nat (top base i) ≤ i) ∧
  (top base i < 32)%nat.
Proof.
  intros Hb Hi. apply log_b_spec; [done| |done]. pose proof (pow_base_mono base Hb).
  change (Z.of_nat 32) with 32. lia.
Qed.

Lemma value_app base ds d : value base (ds ++ [d]) = value base ds * base + d.
Proof. unfold value. by rewrite foldl_app. Qed.

Lemma foldl_value base ds v :
  foldl (λ v d, v * base + d) v ds = v * base ^ Z.of_nat (length ds) + value base ds.
Proof.
  revert v. induction ds as [|d ds IH]; intros v.
  { cbn [foldl length]. unfold value. cbn [foldl]. change (Z.of_nat 0) with 0. lia. }
  cbn [foldl length]. rewrite IH. unfold value at 2. cbn [foldl]. rewrite IH.
  rewrite Nat2Z.inj_succ, Z.pow_succ_r by lia. lia.
Qed.

Lemma length_digits base k i : length (digits base k i) = S k.
Proof. induction k as [|k IH]; [done|]. cbn [digits length]. by rewrite IH. Qed.

Lemma value_digits base k i : 2 ≤ base → 0 ≤ i →
  value base (digits base k i) = i mod base ^ (Z.of_nat k + 1).
Proof.
  intros Hb Hi. induction k as [|k IH].
  { cbn [digits]. unfold value. cbn [foldl]. change (Z.of_nat 0 + 1) with 1. change (Z.of_nat 0) with 0.
    rewrite Z.pow_0_r, Z.div_1_r, Z.pow_1_r. lia. }
  cbn [digits]. unfold value. cbn [foldl]. rewrite foldl_value, length_digits, IH.
  set (m := base ^ Z.of_nat (S k)). rewrite Nat2Z.inj_succ. unfold Z.succ.
  replace (Z.of_nat k + 1) with (Z.of_nat (S k)) by lia. fold m.
  rewrite Z.pow_add_r, Z.pow_1_r by lia. fold m.
  assert (0 < m) by (apply Z.pow_pos_nonneg; lia).
  rewrite Z.rem_mul_r by lia. lia.
Qed.

Lemma digits_range base k i : 0 < base → Forall (λ d, 0 ≤ d < base) (digits base k i).
Proof.
  intros Hb. induction k as [|k IH]; cbn [digits]; constructor; try done; by apply Z.mod_pos_bound.
Qed.

(** The numeral of a number below [2 ^ 32]: its value, and no leading zero. *)
Lemma numeral_spec base i : 2 ≤ base → 0 ≤ i < 2 ^ 32 →
  value base (numeral base i) = i ∧ Forall (λ d, 0 ≤ d < base) (numeral base i) ∧
  (numeral base i = [0] ∨ ∃ d ds, numeral base i = d :: ds ∧ d ≠ 0).
Proof.
  intros Hb Hi. destruct (top_spec base i Hb Hi) as (H1 & H2 & _). unfold numeral. split_and!.
  - rewrite value_digits by lia. apply Z.mod_small. lia.
  - apply digits_range. lia.
  - destruct (top base i) as [|k].
    + cbn [digits]. change (Z.of_nat 0 + 1) with 1 in H1. rewrite Z.pow_1_r in H1. change (Z.of_nat 0) with 0.
      rewrite Z.pow_0_r, Z.div_1_r, Z.mod_small by lia.
      destruct (decide (i = 0)) as [->|]; [by left|right; by do 2 eexists].
    + right. do 2 eexists. split; [reflexivity|]. destruct H2 as [|H2]; [done|].
      rewrite Z.pow_add_r, Z.pow_1_r in H1 by lia.
      assert (1 ≤ i / base ^ Z.of_nat (S k)).
      { apply Z.div_le_lower_bound; [apply Z.pow_pos_nonneg; lia|lia]. }
      rewrite Z.mod_small; [lia|]. split; [lia|].
      apply Z.div_lt_upper_bound; [apply Z.pow_pos_nonneg; lia|lia].
Qed.

(** ** The loops over the digits *)

Lemma top_unique base i j : 2 ≤ base → 0 ≤ i < 2 ^ 32 →
  i < base ^ (Z.of_nat j + 1) → (j = O ∨ base ^ Z.of_nat j ≤ i) → j = top base i.
Proof.
  intros Hb Hi H1 H2. destruct (top_spec base i Hb Hi) as (H3 & H4 & _).
  destruct (lt_eq_lt_dec j (top base i)) as [[Hlt|]|Hlt]; [exfalso|done|exfalso].
  - destruct H4 as [H4|H4]; [lia|].
    assert (base ^ (Z.of_nat j + 1) ≤ base ^ Z.of_nat (top base i)) by (apply Z.pow_le_mono_r; lia). lia.
  - destruct H2 as [H2|H2]; [lia|].
    assert (base ^ (Z.of_nat (top base i) + 1) ≤ base ^ Z.of_nat j) by (apply Z.pow_le_mono_r; lia). lia.
Qed.

Lemma top_divisor_ok base i : 2 ≤ base → 0 ≤ i < 2 ^ 32 →
  top_divisor base i = Ok (base ^ Z.of_nat (top base i)).
Proof.
  intros Hb Hi. unfold top_divisor. rewrite u32_small by done.
  destruct (loop_rule (λ '(divisor, current),
    if negb (current / base =? 0) then Ok (inl (u32 (divisor * base), current / base))
    else Ok (inr divisor))
    (λ '(d, c), ∃ j, d = base ^ Z.of_nat j ∧ c = i / d ∧ (j = O ∨ d ≤ i))
    (λ '(d, c), S (top base c))
    (λ d, d = base ^ Z.of_nat (top base i))) with (fuel := 33%nat) (x := (1, i)) as (r & -> & ->); [| | |done].
  - intros [d c] (j & -> & -> & Hj). pose proof (Z.pow_pos_nonneg base (Z.of_nat j) ltac:(lia) ltac:(lia)) as Hp.
    rewrite Z.div_div by lia.
    assert (Hd1 : base ^ Z.of_nat j * base = base ^ (Z.of_nat j + 1)) by (rewrite Z.pow_add_r, Z.pow_1_r; lia).
    rewrite Hd1. assert (Hq : 0 ≤ i / base ^ (Z.of_nat j + 1)) by (apply Z.div_pos; lia).
    destruct (Z.eqb_spec (i / base ^ (Z.of_nat j + 1)) 0) as [E|E]; cbn; eexists; (split; [done|]).
    + f_equal. f_equal. apply top_unique; try done. by apply Z.div_small_iff in E; lia.
    + assert (base ^ (Z.of_nat j + 1) ≤ i).
      { destruct (Z.le_gt_cases (base ^ (Z.of_nat j + 1)) i); [done|]. destruct E. apply Z.div_small. lia. }
      cbn beta iota. rewrite u32_small by lia. split.
      * exists (S j). rewrite Nat2Z.inj_succ. split_and!; [done..|by right].
      * assert (Hc : 0 ≤ i / base ^ Z.of_nat j < 2 ^ 32).
        { split; [apply Z.div_pos; lia|]. apply Z.div_lt_upper_bound; nia. }
        assert (Hdd : i / base ^ (Z.of_nat j + 1) = i / base ^ Z.of_nat j / base) by (by rewrite Z.div_div, Hd1 by lia).
        assert (top base (i / base ^ Z.of_nat j) = S (top base (i / base ^ (Z.of_nat j + 1)))) as ->; [|lia].
        symmetry. set (c := i / base ^ Z.of_nat j) in *. rewrite Hdd.
        assert (Hcb : 0 ≤ c / base < 2 ^ 32).
        { split; [apply Z.div_pos; lia|]. apply Z.div_lt_upper_bound; nia. }
        destruct (top_spec base (c / base) Hb Hcb) as (H3 & H4 & _).
        pose proof (Z.div_mod c base ltac:(lia)). pose proof (Z.mod_pos_bound c base ltac:(lia)).
        apply top_unique; [done|done| |right].
        -- rewrite Nat2Z.inj_succ. unfold Z.succ. rewrite Z.pow_add_r, Z.pow_1_r by lia. nia.
        -- rewrite Nat2Z.inj_succ, Z.pow_succ_r by lia.
           destruct H4 as [H4|H4]; [rewrite H4, Z.pow_0_r|nia].
           rewrite Hdd in E. assert (1 ≤ c / base) by lia. nia.
  - exists O. rewrite Z.pow_0_r, Z.div_1_r. split_and!; [done..|by left].
  - destruct (top_spec base i Hb Hi) as (_ & _ & ?). lia.
Qed.

Lemma count_divisors_ok base k : 2 ≤ base → (k < 32)%nat →
  count_divisors base (base ^ Z.of_nat k) = Ok (Z.of_nat k + 1).
Proof.
  intros Hb Hk. unfold count_divisors.
  destruct (loop_rule (λ '(divisor, len),
    if negb (divisor =? 0) then Ok (inl (divisor / base, u32 (len + 1))) else Ok (inr len))
    (λ '(d, len), (∃ j, (j ≤ k)%nat ∧ d = base ^ Z.of_nat j ∧ len = Z.of_nat (k - j)) ∨ d = 0 ∧ len = Z.of_nat k + 1)
    (λ '(d, len), Z.to_nat (Z.of_nat k + 1 - len)) (λ len, len = Z.of_nat k + 1))
    with (fuel := 33%nat) (x := (base ^ Z.of_nat k, 0)) as (r & -> & ->); [| | |done].
  - intros [d len] [(j & Hj & -> & ->)|[-> ->]].
    + pose proof (Z.pow_pos_nonneg base (Z.of_nat j) ltac:(lia) ltac:(lia)).
      destruct (Z.eqb_spec (base ^ Z.of_nat j) 0); [lia|]. cbn. eexists. split; [done|].
      rewrite u32_small by lia. split; [|lia].
      destruct j as [|j]; [right|left].
      * rewrite Z.pow_0_r, Z.div_small by lia. split; [done|lia].
      * exists j. rewrite Nat2Z.inj_succ, Z.pow_succ_r, Z.mul_comm, Z.div_mul by lia. split_and!; lia.
    + cbn. by eexists.
  - left. exists k. split_and!; [lia|done|lia].
  - lia.
Qed.

Lemma measure_ok base i : 2 ≤ base → 0 ≤ i < 2 ^ 32 →
  (divisor ← top_divisor base i; count_divisors base divisor) = Ok (Z.of_nat (length (numeral base i))).
Proof.
  intros Hb Hi. rewrite top_divisor_ok by done. cbn. rewrite count_divisors_ok by (try done; by apply top_spec).
  unfold numeral. rewrite length_digits. f_equal. lia.
Qed.

(** ** Printing, into a log of the bytes *)

#[export] Instance log_stream : StreamOps (list Z) := λ c l, Ok (1, l ++ [c]).

Lemma put_log c l : put c l = Ok (inl 1, l ++ [u8 c]).
Proof. done. Qed.

Lemma put_step {B} c l (f : Z → X (list Z) B) : (put c ≫= f) l = f 1 (l ++ [u8 c]).
Proof. done. Qed.

Lemma put_digits_ok fuel base dc i k w l : 2 ≤ base → (k + 1 < fuel)%nat →
  put_digits fuel base dc i (base ^ Z.of_nat k) w l =
    Ok (inl (u32 (w + Z.of_nat k + 1)), l ++ ((λ d, u8 (dc d)) <$> digits base k i)).
Proof.
  intros Hb. revert fuel w l. induction k as [|k IH]; intros fuel w l Hf; (destruct fuel as [|fuel]; [lia|]);
    cbn [put_digits].
  - change (Z.of_nat 0) with 0. rewrite Z.pow_0_r. cbn [Z.eqb negb]. rewrite put_step.
    destruct fuel as [|fuel]; [lia|]. cbn [put_digits]. rewrite (Z.div_small 1) by lia. cbn [Z.eqb negb digits fmap list_fmap].
    change (Z.of_nat 0) with 0. rewrite Z.pow_0_r, Z.add_0_r. done.
  - pose proof (Z.pow_pos_nonneg base (Z.of_nat (S k)) ltac:(lia) ltac:(lia)).
    destruct (Z.eqb_spec (base ^ Z.of_nat (S k)) 0); [lia|]. cbn [negb]. rewrite put_step.
    replace (base ^ Z.of_nat (S k) / base) with (base ^ Z.of_nat k)
      by (rewrite Nat2Z.inj_succ, Z.pow_succ_r, Z.mul_comm, Z.div_mul; lia).
    rewrite IH by lia. cbn [digits fmap list_fmap]. rewrite <- app_assoc. cbn [app].
    do 3 f_equal. unfold u32. rewrite <- Z.add_assoc, Zplus_mod_idemp_l. f_equal. lia.
Qed.

Definition dec_char (d : Z) : Z := 48 + d.
Definition hex_char (uppercase : bool) (d : Z) : Z :=
  if d <? 10 then 48 + d else (if uppercase then 65 else 97) + (d - 10).

Definition dec (i : Z) : list Z := dec_char <$> numeral 10 i.
Definition hex (uppercase : bool) (i : Z) : list Z := hex_char uppercase <$> numeral 16 i.

(** The last digits of [v], as many as the low 32 bits of [v] have: all of
    them when [v] fits in 32 bits. *)
Definition last_digits (base v : Z) : list Z :=
  (λ j, v / base ^ Z.of_nat j mod base) <$> reverse (seq 0 (length (numeral base (u32 v)))).

Definition udec (v : Z) : list Z := dec_char <$> last_digits 10 v.
Definition uhex (uppercase : bool) (v : Z) : list Z := hex_char uppercase <$> last_digits 16 v.

Lemma digits_last base k i :
  digits base k i = (λ j, i / base ^ Z.of_nat j mod base) <$> reverse (seq 0 (S k)).
Proof.
  induction k as [|k IH]; [done|]. rewrite seq_S, reverse_snoc, fmap_cons, Nat.add_0_l, <- IH. done.
Qed.

Lemma last_digits_ok base v : last_digits base v = digits base (top base (u32 v)) v.
Proof. unfold last_digits, numeral. by rewrite length_digits, digits_last. Qed.

Lemma last_digits_small base v : 0 ≤ v < 2 ^ 32 → last_digits base v = numeral base v.
Proof. intros Hv. rewrite last_digits_ok, u32_small by done. done. Qed.

Lemma u8_small x : 0 ≤ x < 256 → u8 x = x.
Proof. intros. unfold u8. by rewrite Z.mod_small. Qed.

Lemma print_digits_ok base (dc : Z → Z) i l : 2 ≤ base → (∀ d, 0 ≤ d < base → 0 ≤ dc d < 256) →
  (divisor ← from_res (top_divisor base i); put_digits 33 base dc i divisor 0 : X (list Z) Z) l =
  Ok (inl (Z.of_nat (length (dc <$> last_digits base i))), l ++ (dc <$> last_digits base i)).
Proof.
  intros Hb Hdc. destruct (top_spec base (u32 i) Hb (u32_range i)) as (_ & _ & Ht).
  replace (top_divisor base i) with (top_divisor base (u32 i))
    by (unfold top_divisor; by rewrite (u32_small (u32 i)) by apply u32_range).
  rewrite top_divisor_ok by (done || apply u32_range). unfold mbind, X_bind. cbn [from_res].
  rewrite put_digits_ok by (done || lia). rewrite last_digits_ok, length_fmap, length_digits.
  rewrite u32_small by lia. do 3 f_equal; [lia|]. apply list_fmap_ext. intros ? d Hd.
  pose proof (digits_range base (top base (u32 i)) i ltac:(lia)) as Hr. rewrite Forall_lookup in Hr.
  apply u8_small, Hdc, (Hr _ _ Hd).
Qed.

Lemma print_dec_unsigned_ok i l :
  print_dec_unsigned i l = Ok (inl (Z.of_nat (length (udec i))), l ++ udec i).
Proof. apply (print_digits_ok 10 dec_char); [done|]. unfold dec_char. lia. Qed.

Lemma print_hex_ok i up l :
  print_hex i up l = Ok (inl (Z.of_nat (length (uhex up i))), l ++ uhex up i).
Proof.
  apply (print_digits_ok 16 (hex_char up)); [done|]. intros d Hd. unfold hex_char.
  destruct (Z.ltb_spec d 10), up; lia.
Qed.

(** ** Directives

    A format as a list of characters and of directives, with the arguments
    these are given: the characters that stand for each, and what it prints. *)
Inductive modifier := M_none | M_hh | M_h | M_l | M_ll | M_j | M_z.

Inductive conversion :=
  | C_char (w : Z)
  | C_str (p : Z) (s : list Z)
  | C_dec (v : Z)
  | C_uns (v : Z)
  | C_hex (upper : bool) (v : Z)
  | C_ptr (p : Z)
  | C_other (c : Z).

Inductive piece :=
  | P_lit (c : Z)
  | P_dir (alt zero : bool) (width : option Z) (m : modifier) (k : conversion).

Definition flag_chars (alt zero : bool) : list Z :=
  (if alt then [35] else []) ++ (if zero then [48] else []).
Definition width_chars (width : option Z) : list Z :=
  match width with Some n => dec n | None => [] end.

Definition modifier_chars (m : modifier) : list Z :=
  match m with
  | M_none => [] | M_hh => [104; 104] | M_h => [104] | M_l => [108] | M_ll => [108; 108]
  | M_j => [106] | M_z => [122]
  end.

(** The arguments of 64 bits. *)
Definition wide (m : modifier) : bool := match m with M_ll | M_j => true | _ => false end.

(** An argument with the value [v], as the caller passes it. *)
Definition words (m : modifier) (v : Z) : list Z :=
  if wide m then [v mod 2 ^ 32; v / 2 ^ 32 mod 2 ^ 32] else [v mod 2 ^ 32].

(** The character of a conversion, and the arguments it takes. *)
Definition conv_char (k : conversion) : Z :=
  match k with
  | C_char _ => 99 | C_str _ _ => 115 | C_dec _ => 100 | C_uns _ => 117
  | C_hex upper _ => if upper then 88 else 120
  | C_ptr _ => 112
  | C_other c => c
  end.

Definition conv_args (m : modifier) (k : conversion) : list Z :=
  match k with
  | C_char w | C_str w _ | C_ptr w => [w]
  | C_dec v | C_uns v | C_hex _ v => words m v
  | C_other _ => []
  end.

Definition fmt_of (p : piece) : list Z :=
  match p with
  | P_lit c => [c]
  | P_dir alt zero width m k =>
      37 :: flag_chars alt zero ++ width_chars width ++ modifier_chars m ++ [conv_char k]
  end.

Definition args_of (p : piece) : list Z :=
  match p with P_lit _ => [] | P_dir _ _ _ m k => conv_args m k end.

(** The padding in front of [len] characters. *)
Definition padding (zero : bool) (width : option Z) (len : Z) : list Z :=
  match width with
  | Some n => replicate (Z.to_nat (n - len)) (if zero then 48 else 32)
  | None => []
  end.

Definition sdec (v : Z) : list Z := if v <? 0 then 45 :: udec (- v) else udec v.

Definition hex_prefix (alt upper : bool) : list Z :=
  if alt then [48; if upper then 88 else 120] else [].

Definition conv_out (alt zero : bool) (width : option Z) (k : conversion) : list Z :=
  match k with
  | C_char w => [u8 w]
  | C_str p s => if p =? 0 then null_string else s
  | C_dec v => padding zero width (Z.of_nat (length (sdec v))) ++ sdec v
  | C_uns v => padding zero width (Z.of_nat (length (udec v))) ++ udec v
  | C_hex upper v =>
      hex_prefix alt upper ++
      padding zero width (Z.of_nat (length (hex_prefix alt upper ++ uhex upper v))) ++ uhex upper v
  | C_ptr p => [48; 120] ++ uhex false p
  | C_other c => [c]
  end.

Definition out_of (p : piece) : list Z :=
  match p with P_lit c => [c] | P_dir alt zero width _ k => conv_out alt zero width k end.

Definition valid_width (width : option Z) : Prop :=
  match width with Some n => 0 < n < 2 ^ 32 | None => True end.

(** The values a [%d] and a [%u] or [%x] can be given: a [size_t] is unsigned
    to [%zd] too; the least 64-bit number cannot be negated. *)
Definition signed_value (m : modifier) (v : Z) : Prop :=
  match m with
  | M_ll | M_j => - 2 ^ 63 < v < 2 ^ 63
  | M_z => 0 ≤ v < 2 ^ 32
  | _ => - 2 ^ 31 ≤ v < 2 ^ 31
  end.
Definition unsigned_value (m : modifier) (v : Z) : Prop :=
  if wide m then 0 ≤ v < 2 ^ 64 else 0 ≤ v < 2 ^ 32.

(** Characters that are no part of what comes before a conversion. *)
Definition conv_start (c : Z) : Prop := 0 < c < 256 ∧ c ≠ 35 ∧ (c < 48 ∨ 57 < c) ∧ c ∉ [104; 106; 108; 122].

Definition valid_conv (string_at : Z → res (list Z)) (m : modifier) (k : conversion) : Prop :=
  match k with
  | C_char w => is_u32 w
  | C_str p s => is_u32 p ∧ (p ≠ 0 → string_at p = Ok s ∧ Forall is_u8 s)
  | C_dec v => signed_value m v
  | C_uns v | C_hex _ v => unsigned_value m v
  | C_ptr p => is_u32 p
  | C_other c => conv_start c ∧ c ∉ [99; 115; 100; 117; 120; 88; 112]
  end.

Definition valid_piece (string_at : Z → res (list Z)) (p : piece) : Prop :=
  match p with
  | P_lit c => 0 < c < 256 ∧ c ≠ 37
  | P_dir _ _ width m k => valid_width width ∧ valid_conv string_at m k
  end.

(** *** Parsing *)

Definition present (width : option Z) : bool := match width with Some _ => true | None => false end.

(** What the flags and the width of a directive are parsed to. *)
Definition spec_of (alt zero : bool) (width : option Z) : spec :=
  Spec alt (present width) (if zero then 48 else 32) (default 0 width).


Lemma dec_digit i : 0 ≤ i < 2 ^ 32 → Forall (λ c, 48 ≤ c ≤ 57) (dec i).
Proof.
  intros Hi. destruct (numeral_spec 10 i ltac:(done) Hi) as (_ & Hr & _). unfold dec.
  apply Forall_fmap. eapply Forall_impl; [exact Hr|]. cbn. unfold dec_char. lia.
Qed.

Lemma dec_head i : 0 < i < 2 ^ 32 → ∃ c cs, dec i = c :: cs ∧ 49 ≤ c ≤ 57.
Proof.
  intros Hi. destruct (numeral_spec 10 i ltac:(done) ltac:(lia)) as (Hv & Hr & [E|(d & ds & E & Hd)]).
  - rewrite E in Hv. cbn in Hv. lia.
  - unfold dec. rewrite E. cbn. do 2 eexists. split; [done|]. rewrite E in Hr.
    inversion Hr; subst. unfold dec_char. lia.
Qed.

Lemma fmtminwidth_digits ds rest sp :
  Forall (λ d, 0 ≤ d < 10) ds → 0 ≤ minwidth sp →
  (match rest with c :: _ => c < 48 ∨ 57 < c | [] => True end) →
  foldl (λ v d, v * 10 + d) (minwidth sp) ds < 2 ^ 32 →
  fmtminwidth ((dec_char <$> ds) ++ rest) sp =
    (rest, match ds with
      | [] => sp
      | _ => Spec (alternate sp) true (padchar sp) (foldl (λ v d, v * 10 + d) (minwidth sp) ds)
      end).
Proof.
  intros Hds. revert sp. induction Hds as [|d ds Hd Hds IH]; intros sp Hm Hrest Hv.
  - cbn. destruct rest as [|c rest]; [done|]. cbn.
    destruct (Z.leb_spec 48 c), (Z.leb_spec c 57); cbn; done || lia.
  - cbn [fmap list_fmap app fmtminwidth]. unfold dec_char at 1 2.
    destruct (Z.leb_spec 48 (48 + d)), (Z.leb_spec (48 + d) 57); try lia. cbn [andb].
    cbn [foldl] in Hv. rewrite foldl_value in Hv.
    assert (0 ≤ value 10 ds).
    { clear - Hds. unfold value. assert (∀ v, 0 ≤ v → 0 ≤ foldl (λ v d, v * 10 + d) v ds) as H; [|by apply H].
      induction Hds as [|d ds Hd _ IH]; intros v Hv; [done|]. cbn. apply IH. lia. }
    pose proof (Z.pow_pos_nonneg 10 (Z.of_nat (length ds)) ltac:(lia) ltac:(lia)).
    assert (minwidth sp * 10 + d < 2 ^ 32) by nia.
    rewrite (u32_small (minwidth sp * 10)) by lia. unfold dec_char.
    replace (minwidth sp * 10 + (48 + d - 48)) with (minwidth sp * 10 + d) by lia.
    rewrite u32_small by lia. rewrite IH; cbn; [|lia|done|by rewrite foldl_value].
    destruct ds; done.
Qed.

Definition lenmod_of (m : modifier) : LENMOD :=
  match m with
  | M_none => LENMOD_INT | M_hh => LENMOD_CHAR | M_h => LENMOD_SHORT | M_l => LENMOD_LONG
  | M_ll => LENMOD_LONG_LONG | M_j => LENMOD_INTMAX | M_z => LENMOD_SIZE
  end.

Lemma conv_start_ok string_at m k : valid_conv string_at m k → conv_start (conv_char k).
Proof.
  unfold conv_start. destruct k as [| | | |[] ?| |c]; cbn [valid_conv conv_char]; intros Hk;
    try (rewrite !not_elem_of_cons, elem_of_nil; lia).
  apply Hk.
Qed.

Lemma fmtlenmod_ok m c rest : conv_start c →
  fmtlenmod (modifier_chars m ++ c :: rest) = (c :: rest, lenmod_of m).
Proof.
  intros (_ & _ & _ & Hc). rewrite !not_elem_of_cons in Hc. destruct Hc as (? & ? & ? & ? & _).
  destruct m; cbn [modifier_chars app fmtlenmod lenmod_of Z.eqb Pos.eqb]; try done;
    destruct (Z.eqb_spec c 104), (Z.eqb_spec c 108), (Z.eqb_spec c 106), (Z.eqb_spec c 122); (done || lia).
Qed.

(** What follows the width does not belong to it. *)
Lemma modifier_head m c rest : conv_start c →
  ∃ c' cs, modifier_chars m ++ c :: rest = c' :: cs ∧ c' ≠ 35 ∧ (c' < 48 ∨ 57 < c').
Proof.
  intros (_ & ? & ? & _). destruct m; cbn; do 2 eexists; (split; [reflexivity|lia]).
Qed.

(** What is parsed of a directive up to its conversion. *)
Lemma parse_spec alt zero width m c rest :
  valid_width width → conv_start c →
  (let '(fmt, sp) := fmtflag (flag_chars alt zero ++ width_chars width ++ modifier_chars m ++ c :: rest)
     (Spec false false 32 0) in
   let '(fmt, sp) := fmtminwidth fmt sp in
   let '(fmt, lenmod) := fmtlenmod fmt in (fmt, sp, lenmod)) =
  (c :: rest, spec_of alt zero width, lenmod_of m).
Proof.
  intros Hw Hc. pose proof (fmtlenmod_ok m c rest Hc) as Hlen.
  destruct (modifier_head m c rest Hc) as (c' & cs & Em & Hc'). rewrite Em in *.
  assert (Hflag : ∀ cs sp, (match cs with c :: _ => c ≠ 35 ∧ c ≠ 48 | [] => True end) → fmtflag cs sp = (cs, sp)).
  { intros [|c2 cs2] sp Hcs; [done|]. cbn. by destruct (Z.eqb_spec c2 35), (Z.eqb_spec c2 48); try tauto. }
  assert (Hf : fmtflag (flag_chars alt zero ++ width_chars width ++ c' :: cs) (Spec false false 32 0) =
    (width_chars width ++ c' :: cs, Spec alt false (if zero then 48 else 32) 0)).
  { assert (H : match width_chars width ++ c' :: cs with c :: _ => c ≠ 35 ∧ c ≠ 48 | [] => True end).
    { destruct width as [n|]; cbn; [|lia]. destruct (dec_head n Hw) as (c2 & cs2 & -> & ?). cbn. lia. }
    destruct alt, zero; cbn [flag_chars app fmtflag Z.eqb Pos.eqb alternate minwidth_present padchar minwidth];
      by apply Hflag. }
  rewrite Hf. destruct width as [n|].
  - cbn [width_chars default]. cbn in Hw.
    destruct (numeral_spec 10 n ltac:(done) ltac:(lia)) as (Hv & Hr & _). unfold dec.
    rewrite fmtminwidth_digits; [|done|cbn; lia|cbn; lia|]; cbn [minwidth alternate padchar];
      fold (value 10 (numeral 10 n)); [|rewrite Hv; lia].
    rewrite Hv. destruct (numeral 10 n) eqn:E; [cbn in Hv; lia|]. by rewrite Hlen.
  - cbn [width_chars app].
    rewrite (fmtminwidth_digits [] (c' :: cs)); [|done|cbn; lia|cbn; lia|cbn; lia]. by rewrite Hlen.
Qed.

(** *** Printing *)

Lemma put_chars_ok s w l : 0 ≤ w < 2 ^ 32 → Forall is_u8 s →
  put_chars s w l = Ok (inl (u32 (w + Z.of_nat (length s))), l ++ s).
Proof.
  intros Hw Hs. revert w l Hw. induction Hs as [|c s Hc Hs IH]; intros w l Hw; cbn [put_chars].
  - cbn [length]. change (Z.of_nat 0) with 0. by rewrite Z.add_0_r, app_nil_r, u32_small.
  - rewrite put_step, u8_small by done. rewrite IH by (apply u32_range). rewrite <- app_assoc. cbn [app length].
    do 3 f_equal. unfold u32. rewrite Zplus_mod_idemp_l. f_equal. lia.
Qed.

Lemma pad_ok n c w l : 0 ≤ w < 2 ^ 32 → 0 ≤ c < 256 →
  pad n c w l = Ok (inl (u32 (w + Z.of_nat n)), l ++ replicate n c).
Proof.
  intros Hw Hc. revert w l Hw. induction n as [|n IH]; intros w l Hw; cbn [pad].
  - change (Z.of_nat 0) with 0. by rewrite Z.add_0_r, app_nil_r, u32_small.
  - rewrite put_step, u8_small by done. rewrite IH by (apply u32_range). rewrite <- app_assoc. cbn [app replicate].
    do 3 f_equal. unfold u32. rewrite Zplus_mod_idemp_l. f_equal. lia.
Qed.

Lemma u32_add_l x y : u32 (u32 x + y) = u32 (x + y).
Proof. unfold u32. by rewrite Zplus_mod_idemp_l. Qed.

Lemma s32_range w : - 2 ^ 31 ≤ s32 w < 2 ^ 31.
Proof. unfold s32. pose proof (Z.mod_pos_bound (w + 2 ^ 31) (2 ^ 32) ltac:(lia)). lia. Qed.

Lemma last_digits_length base v : 2 ≤ base → 1 ≤ Z.of_nat (length (last_digits base v)) ≤ 32.
Proof.
  intros Hb. rewrite last_digits_ok, length_digits. destruct (top_spec base (u32 v) Hb (u32_range v)). lia.
Qed.
Lemma udec_length v : 1 ≤ Z.of_nat (length (udec v)) ≤ 32.
Proof. unfold udec. rewrite length_fmap. by apply last_digits_length. Qed.
Lemma uhex_length up v : 1 ≤ Z.of_nat (length (uhex up v)) ≤ 32.
Proof. unfold uhex. rewrite length_fmap. by apply last_digits_length. Qed.

Lemma measure_digits base (dc : Z → Z) i : 2 ≤ base →
  (divisor ← top_divisor base (u32 i); count_divisors base divisor) =
  Ok (Z.of_nat (length (dc <$> last_digits base i))).
Proof.
  intros Hb. rewrite measure_ok by (done || apply u32_range).
  by rewrite last_digits_ok, length_fmap; unfold numeral; rewrite !length_digits.
Qed.

Lemma measure_dec_unsigned_ok i : measure_dec_unsigned i = Ok (Z.of_nat (length (udec i))).
Proof. by apply (measure_digits 10 dec_char). Qed.

Lemma measurehex_ok up i : measurehex i = Ok (Z.of_nat (length (uhex up i))).
Proof. by apply (measure_digits 16 (hex_char up)). Qed.

Lemma negate64_ok v : - 2 ^ 63 < v → negate64 v = Ok (- v).
Proof. intros Hv. unfold negate64. destruct (Z.eqb_spec v (- 2 ^ 63)); [lia|done]. Qed.

Lemma measure_dec_signed_ok v : - 2 ^ 63 < v →
  measure_dec_signed v = Ok (Z.of_nat (length (sdec v))).
Proof.
  intros Hv. unfold measure_dec_signed, sdec. destruct (Z.ltb_spec v 0); [|apply measure_dec_unsigned_ok].
  rewrite negate64_ok by lia. cbn -[measure_dec_unsigned udec]. rewrite measure_dec_unsigned_ok.
  cbn -[udec]. pose proof (udec_length (- v)). rewrite u32_small by lia. f_equal. lia.
Qed.

Lemma print_dec_signed_ok v l : - 2 ^ 63 < v →
  print_dec_signed v l = Ok (inl (Z.of_nat (length (sdec v))), l ++ sdec v).
Proof.
  intros Hv. unfold print_dec_signed, sdec. destruct (Z.ltb_spec v 0); [|apply print_dec_unsigned_ok].
  rewrite put_step. unfold mbind at 1, X_bind at 1. rewrite negate64_ok by lia. cbn [from_res].
  unfold mbind, X_bind. rewrite print_dec_unsigned_ok. unfold mret, X_ret.
  pose proof (udec_length (- v)). rewrite u32_small by lia.
  rewrite <- app_assoc. cbn [app length]. do 3 f_equal. lia.
Qed.

(** The arguments, as they are read. *)
Lemma va_signed_ok m v ap : signed_value m v → va_signed (lenmod_of m) (words m v ++ ap) = Ok (v, ap).
Proof.
  intros Hv. destruct m; cbn in Hv |- *; do 2 f_equal; unfold s32, s64; dlia.
Qed.

Lemma va_unsigned_ok m v ap :
  unsigned_value m v → va_unsigned (lenmod_of m) (words m v ++ ap) = Ok (v, ap).
Proof. intros Hv. destruct m; cbn in Hv |- *; do 2 f_equal; dlia. Qed.

Lemma signed_value_bounds m v : signed_value m v → - 2 ^ 63 < v.
Proof. destruct m; cbn; lia. Qed.

(** The padding of a directive, printed. *)
Lemma pad_width_ok alt (zero : bool) (width : option Z) len w l : 0 ≤ w < 2 ^ 32 →
  (if present width
    then pad_to (spec_of alt zero width) len w
    else (mret w : X (list Z) Z)) l =
  Ok (inl (u32 (w + Z.of_nat (length (padding zero width len)))), l ++ padding zero width len).
Proof.
  intros Hw. destruct width as [n|]; cbn [padding].
  - unfold pad_to, spec_of. cbn [present minwidth padchar default]. rewrite pad_ok by (done || by destruct zero).
    by rewrite length_replicate.
  - cbn. by rewrite Z.add_0_r, app_nil_r, u32_small.
Qed.

(** *** One directive *)
Section pieces.
Context (string_at : Z → res (list Z)).

Lemma X_bind_ok {A B} (m : X (list Z) A) (f : A → X (list Z) B) l a l' :
  m l = Ok (inl a, l') → (m ≫= f) l = f a l'.
Proof. intros E. unfold mbind, X_bind. by rewrite E. Qed.

Lemma doformat_number (print : Z → X (list Z) Z) (measure : Z → res Z) (show : Z → list Z)
    alt zero width v w l (ap : list Z) :
  0 ≤ w < 2 ^ 32 → measure v = Ok (Z.of_nat (length (show v))) →
  (∀ l, print v l = Ok (inl (Z.of_nat (length (show v))), l ++ show v)) →
  (w ← (if present width then
          m ← from_res (measure v); pad_to (spec_of alt zero width) m w
        else (mret w : X (list Z) Z));
   ret ← print v;
   (mret (u32 (w + ret), ap) : X (list Z) (Z * list Z))) l =
  Ok (inl (u32 (w + Z.of_nat (length (padding zero width (Z.of_nat (length (show v))) ++ show v))), ap),
      l ++ padding zero width (Z.of_nat (length (show v))) ++ show v).
Proof.
  intros Hw Hm Hp. rewrite Hm. unfold mbind at 1, X_bind at 1.
  pose proof (pad_width_ok alt zero width (Z.of_nat (length (show v))) w l Hw) as E.
  assert ((if present width then
          m ← from_res (Ok (Z.of_nat (length (show v)))); pad_to (spec_of alt zero width) m w
        else (mret w : X (list Z) Z)) l =
    (if present width then pad_to (spec_of alt zero width) (Z.of_nat (length (show v))) w
     else (mret w : X (list Z) Z)) l) as -> by (by destruct width).
  rewrite E. rewrite (X_bind_ok _ _ _ _ _ (Hp _)). unfold mret, X_ret.
  rewrite u32_add_l, length_app, <- app_assoc. do 5 f_equal. lia.
Qed.

Lemma string_prefix_ok (upper : bool) w (l : list Z) : 0 ≤ w < 2 ^ 32 →
  (ret ← stream_put_string (Some (if upper then [48; 88] else [48; 120])); mret (u32 (w + ret)) : X (list Z) Z) l =
  Ok (inl (u32 (w + 2)), l ++ [48; if upper then 88 else 120]).
Proof.
  intros Hw. unfold stream_put_string. cbn [default].
  erewrite X_bind_ok by (apply put_chars_ok; [lia|destruct upper; repeat constructor; done]).
  by destruct upper.
Qed.

Lemma doformat_ok alt zero width m k ap w l :
  valid_conv string_at m k → 0 ≤ w < 2 ^ 32 →
  doformat string_at (conv_char k) (spec_of alt zero width) (lenmod_of m) (conv_args m k ++ ap) w l =
    Ok (inl (u32 (w + Z.of_nat (length (conv_out alt zero width k))), ap), l ++ conv_out alt zero width k).
Proof.
  intros Hv Hw. destruct k as [v|p s|v|v|up v|p|c]; unfold doformat;
    cbn [conv_char Z.eqb Pos.eqb orb conv_args app].
  - rewrite (X_bind_ok _ _ l (v, ap) l) by done. rewrite put_step. cbn [conv_out].
    replace (u8 (s8 v)) with (u8 v); [done|]. unfold u8, s8. dlia.
  - destruct Hv as [Hp Hs]. rewrite (X_bind_ok _ _ l (p, ap) l) by done. cbn [conv_out].
    destruct (Z.eqb_spec p 0) as [->|Hne].
    + rewrite (X_bind_ok _ _ l None l) by done. unfold stream_put_string. cbn [default].
      erewrite X_bind_ok by (apply put_chars_ok; [lia|repeat constructor; done]). done.
    + destruct (Hs Hne) as [Hsa Hb]. rewrite (X_bind_ok _ _ l (Some s) l) by (cbn; by rewrite Hsa).
      unfold stream_put_string. cbn [default]. erewrite X_bind_ok by (apply put_chars_ok; [lia|done]).
      unfold mret, X_ret. rewrite Z.add_0_l. do 4 f_equal. unfold u32. by rewrite Zplus_mod_idemp_r.
  - rewrite va_signed_ok by done.
    rewrite (X_bind_ok _ _ l (v, ap) l) by done. cbn [minwidth_present spec_of conv_out].
    apply signed_value_bounds in Hv. cbn [conv_out].
    apply (doformat_number print_dec_signed measure_dec_signed sdec); [done|by apply measure_dec_signed_ok|].
    intros. by apply print_dec_signed_ok.
  - rewrite va_unsigned_ok by done.
    rewrite (X_bind_ok _ _ l (v, ap) l) by done. cbn [minwidth_present spec_of conv_out].
    apply (doformat_number print_dec_unsigned measure_dec_unsigned udec);
      [done|by apply measure_dec_unsigned_ok|]. intros. by apply print_dec_unsigned_ok.
  - pose proof (uhex_length up v) as Hlen.
    assert (Hconv : (if up then 88 else 120) =? 99 = false ∧ (if up then 88 else 120) =? 115 = false ∧
      (if up then 88 else 120) =? 100 = false ∧ (if up then 88 else 120) =? 117 = false ∧
      (((if up then 88 else 120) =? 120) || ((if up then 88 else 120) =? 88)) = true ∧
      ((if up then 88 else 120) =? 88) = up) by (by destruct up).
    destruct Hconv as (-> & -> & -> & -> & -> & ->). cbn zeta. rewrite va_unsigned_ok by done.
    rewrite (X_bind_ok _ _ l (v, ap) l) by done. cbn [minwidth_present alternate spec_of conv_out].
    rewrite (X_bind_ok _ _ l (if present width then Z.of_nat (length (hex_prefix alt up ++ uhex up v)) else 0) l).
    2: { destruct width as [n|]; [|done]. cbn [present]. rewrite (measurehex_ok up). destruct alt; cbn -[uhex u32 Z.add]; [|done].
         rewrite u32_small by lia. do 3 f_equal. lia. }
    set (prefix := hex_prefix alt up).
    rewrite (X_bind_ok _ _ l (u32 (w + Z.of_nat (length prefix))) (l ++ prefix)).
    2: { unfold prefix, hex_prefix. destruct alt; [rewrite string_prefix_ok by done; done|].
         cbn. by rewrite Z.add_0_r, app_nil_r, u32_small. }
    set (len := Z.of_nat (length (prefix ++ uhex up v))).
    rewrite (X_bind_ok _ _ _ _ _ (pad_width_ok alt zero width (if present width then len else 0)
      (u32 (w + Z.of_nat (length prefix))) (l ++ prefix) (u32_range _))).
    replace (padding zero width (if present width then len else 0)) with (padding zero width len) by (by destruct width).
    rewrite (X_bind_ok _ _ _ _ _ (print_hex_ok v up _)). unfold mret, X_ret.
    rewrite u32_add_l, <- Z.add_assoc, u32_add_l, !length_app, <- !app_assoc. do 5 f_equal. lia.
  - rewrite (X_bind_ok _ _ l (p, ap) l) by done. unfold stream_put_string. cbn [default].
    erewrite X_bind_ok by (apply put_chars_ok; [lia|repeat constructor; done]).
    cbn zeta. rewrite (X_bind_ok _ _ _ _ _ (print_hex_ok p false _)). unfold mret, X_ret.
    rewrite u32_add_l. cbn [conv_out length app]. rewrite <- app_assoc. cbn [app]. do 5 f_equal.
    change (u32 (0 + Z.of_nat (length (id [48; 120])))) with 2. lia.
  - destruct Hv as [(Hc & _) Hn]. rewrite !not_elem_of_cons in Hn. destruct Hn as (? & ? & ? & ? & ? & ? & ? & _).
    rewrite !(proj2 (Z.eqb_neq _ _)) by done. cbn [orb conv_out length].
    rewrite put_step, u8_small by lia. done.
Qed.
(** One piece of a format. *)
Lemma piece_ok p fuel fmt ap w l :
  valid_piece string_at p → 0 ≤ w < 2 ^ 32 →
  percentorchar string_at (S fuel) (fmt_of p ++ fmt) (args_of p ++ ap) w l =
    percentorchar string_at fuel fmt ap (u32 (w + Z.of_nat (length (out_of p)))) (l ++ out_of p).
Proof.
  intros Hv Hw. destruct p as [c|alt zero width m k].
  - cbn [fmt_of args_of app out_of length percentorchar]. destruct Hv as [Hc Hne].
    destruct (Z.eqb_spec c 37); [done|]. rewrite put_step, u8_small by lia. done.
  - destruct Hv as [Hwd Hk]. pose proof (conv_start_ok _ _ _ Hk) as Hc.
    cbn [fmt_of args_of out_of]. rewrite <- app_comm_cons, <- !app_assoc. cbn [app percentorchar Z.eqb Pos.eqb].
    pose proof (parse_spec alt zero width m (conv_char k) fmt Hwd Hc) as Hps.
    destruct (fmtflag _ _) as [f1 sp1]. destruct (fmtminwidth f1 sp1) as [f2 sp2].
    destruct (fmtlenmod f2) as [f3 lm]. injection Hps as -> -> ->.
    by rewrite (X_bind_ok _ _ _ _ _ (doformat_ok alt zero width m k ap w l Hk Hw)).
Qed.

Lemma fmt_of_length p : (1 ≤ length (fmt_of p))%nat.
Proof. destruct p; cbn; lia. Qed.

Lemma pieces_ok ps fuel l w :
  Forall (valid_piece string_at) ps → 0 ≤ w < 2 ^ 32 → (length (concat (fmt_of <$> ps)) < fuel)%nat →
  ∀ ap, percentorchar string_at fuel (concat (fmt_of <$> ps)) (concat (args_of <$> ps) ++ ap) w l =
    Ok (inl (u32 (w + Z.of_nat (length (concat (out_of <$> ps))))), l ++ concat (out_of <$> ps)).
Proof.
  intros Hv Hw Hf ap. revert fuel l w Hw Hf. induction Hv as [|p ps Hp _ IH]; intros fuel l w Hw Hf.
  - destruct fuel as [|fuel]; [cbn in Hf; lia|]. cbn. by rewrite Z.add_0_r, app_nil_r, u32_small.
  - rewrite !fmap_cons in *. cbn [concat] in *. destruct fuel as [|fuel]; [lia|]. rewrite <- !app_assoc.
    rewrite piece_ok by done. pose proof (fmt_of_length p). rewrite length_app in Hf.
    rewrite IH; [|apply u32_range|lia].
    rewrite u32_add_l, length_app, <- app_assoc. do 4 f_equal. lia.
Qed.
End pieces.

(** ** Properties *)

(** C38: [stream_vprintf] prints a format of any number of characters and
    directives as their outputs in order, and returns the number of characters.
    A directive has the flags # and 0, a width, one of the length modifiers
    none, hh, h, l, ll, j and z, and a conversion. [%c] prints the character,
    [%s] the string (or "<null>"); [%d], [%u], [%x] and [%X] print the numeral
    of their argument, of 64 bits with ll and j and of 32 bits with the other
    modifiers (hh and h do not narrow it), padded on the left to the width
    with blanks, or zeros with the 0 flag (in front of the minus sign of [%d],
    and after the 0x of the # flag); [%p] prints 0x and the numeral; any other
    character, [%] as well, is printed as it is. The numeral is exact if the
    number, less its sign, is below 2^32; of a greater one only as many digits
    are printed as its low 32 bits have, the last ones. *)
Theorem vprintf_renders (string_at : Z → res (list Z)) (ps : list piece) (ap l : list Z) :
  Forall (valid_piece string_at) ps → Z.of_nat (length (concat (out_of <$> ps))) < 2 ^ 31 →
  stream_vprintf string_at (concat (fmt_of <$> ps)) (concat (args_of <$> ps) ++ ap) l =
    Ok (Z.of_nat (length (concat (out_of <$> ps))), l ++ concat (out_of <$> ps)).
Proof.
  intros Hv Hl. unfold stream_vprintf, returns. rewrite pieces_ok by (done || lia). cbn -[concat].
  rewrite u32_small, s32_small by lia. done.
Qed.

(** printf("%c=%05d, %#lx|%4zu %llx%llx\n", 'k', -42, 255, 7, 4294967295, 4294967298) *)
Lemma vprintf_renders_witness :
  stream_vprintf (λ _, Fault Bad_pointer)
    [37; 99; 61; 37; 48; 53; 100; 44; 32; 37; 35; 108; 120; 124; 37; 52; 122; 117; 32;
     37; 108; 108; 120; 37; 108; 108; 120; 10]
    [107; 4294967254; 255; 7; 4294967295; 0; 2; 1] [] =
  Ok (29, [107; 61; 48; 48; 45; 52; 50; 44; 32; 48; 120; 102; 102; 124; 32; 32; 32; 55; 32;
           102; 102; 102; 102; 102; 102; 102; 102; 50; 10]).
Proof.
  pose proof (vprintf_renders (λ _, Fault Bad_pointer)
    [P_dir false false None M_none (C_char 107); P_lit 61; P_dir false true (Some 5) M_none (C_dec (-42));
     P_lit 44; P_lit 32; P_dir true false None M_l (C_hex false 255); P_lit 124;
     P_dir false false (Some 4) M_z (C_uns 7); P_lit 32;
     P_dir false false None M_ll (C_hex false 4294967295);
     P_dir false false None M_ll (C_hex false 4294967298); P_lit 10] [] []
    ltac:(repeat constructor; discriminate) ltac:(vm_compute; reflexivity)) as H.
  vm_compute in H. exact H.
Defined.

(** the numerals printed: [dec i] and [hex i] have the value [i], and no
    leading zero unless they are a single one. *)
Theorem numerals_correct (base i : Z) :
  base = 10 ∨ base = 16 → 0 ≤ i < 2 ^ 32 →
  value base (numeral base i) = i ∧ Forall (λ d, 0 ≤ d < base) (numeral base i) ∧
  (numeral base i = [0] ∨ ∃ d ds, numeral base i = d :: ds ∧ d ≠ 0) ∧
  top_divisor base i = Ok (base ^ Z.of_nat (length (numeral base i) - 1)).
Proof.
  intros Hb Hi. assert (2 ≤ base) as Hb2 by (destruct Hb; lia).
  destruct (numeral_spec base i Hb2 Hi) as (H1 & H2 & H3). split_and!; [done..|].
  rewrite top_divisor_ok by done. unfold numeral. rewrite length_digits. do 3 f_equal. lia.
Qed.

Lemma numerals_correct_witness :
  value 10 [5; 0; 7] = 507 ∧ top_divisor 10 507 = Ok 100.
Proof.
  destruct (numerals_correct 10 507 ltac:(by left) ltac:(done)) as (_ & _ & _ & H). split; [reflexivity|exact H].
Defined.

(** a 64-bit number is printed by only as many digits as its low 32 bits
    have: [%llu] of [2 ^ 32 + 7] prints 3, its last digit, and [%llx] of
    [2 ^ 32] prints 0. *)
Theorem long_long_truncated (string_at : Z → res (list Z)) (hi lo : Z) :
  is_u32 hi → is_u32 lo →
  ∃ ds, stream_vprintf string_at [37; 108; 108; 117] [lo; hi] [] =
      Ok (Z.of_nat (length ds), dec_char <$> ds) ∧
    length ds = length (dec lo) ∧
    value 10 ds = (lo + hi * 2 ^ 32) mod 10 ^ Z.of_nat (length (dec lo)).
Proof.
  intros Hhi Hlo. exists (digits 10 (top 10 lo) (lo + hi * 2 ^ 32)).
  destruct (top_spec 10 lo ltac:(done) Hlo) as (_ & _ & Ht).
  assert (Hlen : length (dec lo) = S (top 10 lo)) by (unfold dec, numeral; by rewrite length_fmap, length_digits).
  rewrite length_digits, Hlen. split_and!; [|done|].
  2: { rewrite value_digits by (unfold is_u32 in *; lia). do 2 f_equal. lia. }
  unfold stream_vprintf, returns.
  change (percentorchar string_at _ _ _ _ _) with
    (('(w, ap) ← doformat string_at 117 (spec_of false false None) LENMOD_LONG_LONG [lo; hi] 0;
      percentorchar string_at 4 [] ap w) []).
  set (val := lo + hi * 2 ^ 32).
  assert (doformat string_at 117 (spec_of false false None) LENMOD_LONG_LONG [lo; hi] 0 [] =
    (ret ← print_dec_unsigned val; mret (u32 (0 + ret), []) : X (list Z) (Z * list Z)) []) as E by reflexivity.
  assert (print_dec_unsigned val [] =
    Ok (inl (Z.of_nat (S (top 10 lo))), dec_char <$> digits 10 (top 10 lo) val)) as E2.
  { unfold print_dec_unsigned. replace (top_divisor 10 val) with (top_divisor 10 lo).
    2: { assert (u32 val = u32 lo) as Hu by (unfold val, u32; by rewrite Z.mod_add).
         unfold top_divisor. by rewrite Hu. }
    rewrite (top_divisor_ok 10 lo) by done. unfold mbind, X_bind. cbn [from_res].
    rewrite put_digits_ok by (done || lia). rewrite u32_small by lia. do 3 f_equal; [lia|].
    apply list_fmap_ext. intros ? d Hd.
    pose proof (digits_range 10 (top 10 lo) val ltac:(lia)) as Hr. rewrite Forall_lookup in Hr.
    specialize (Hr _ _ Hd). unfold dec_char. apply u8_small. lia. }
  rewrite (X_bind_ok _ _ _ _ _ E2) in E. unfold mret, X_ret in E.
  rewrite (X_bind_ok _ _ _ _ _ E). cbn -[top digits Z.of_nat].
  rewrite u32_small by lia. rewrite s32_small by lia. done.
Qed.

Lemma long_long_truncated_witness :
  ∃ ds, stream_vprintf (λ _, Fault Bad_pointer) [37; 108; 108; 117] [7; 1] [] =
      Ok (Z.of_nat (length ds), dec_char <$> ds) ∧
    length ds = length (dec 7) ∧ value 10 ds = 4294967303 mod 10 ^ Z.of_nat (length (dec 7)).
Proof. apply (long_long_truncated (λ _, Fault Bad_pointer) 1 7); by split. Defined.

(** ** vsnprintf *)

(** The buffer from [dest] on; [remaininglen] is a [size_t]. *)
Record vsnprintf_stream := VSN { buffer : list Z; dest : Z; remaininglen : Z }.

(** [vsnprintf_stream_op_write] of one byte: the byte, if there is room, and a
    null character behind it. *)
Definition vsnprintf_stream_op_write : StreamOps vsnprintf_stream := λ c s,
  let writelen := if remaininglen s <? 1 then remaininglen s else 1 in
  b ← (if writelen =? 0 then Ok (buffer s) else wr (buffer s) (dest s) c);
  b ← wr b (dest s + writelen) 0;
  Ok (writelen, VSN b (dest s + writelen) (u32 (remaininglen s - writelen))).

#[export] Existing Instance vsnprintf_stream_op_write.

Definition vsnprintf (string_at : Z → res (list Z)) (str : list Z) (size : Z) (fmt ap : list Z)
    : res (Z * list Z) :=
  _ ← assert_ (size <=? INT_MAX);
  '(ret, s) ← stream_vprintf string_at fmt ap (VSN str 0 (u32 (size - 1)));
  Ok (ret, buffer s).

Definition vsprintf (string_at : Z → res (list Z)) (str : list Z) (fmt ap : list Z) : res (Z * list Z) :=
  vsnprintf string_at str SIZE_MAX fmt ap.

(** ** A buffer and a log, side by side *)
Section simulation.
Context (str : list Z) (size : Z).
Hypothesis Hsize : 1 ≤ size ≤ INT_MAX.
Hypothesis Hstr : size ≤ Z.of_nat (length str).

(** The buffer after [l] was printed to it. *)
Definition printed (l : list Z) : list Z :=
  match l with [] => str | _ => l ++ 0 :: drop (S (length l)) str end.

Definition sim (l : list Z) (s : vsnprintf_stream) : Prop :=
  Z.of_nat (length l) < size ∧
  s = VSN (printed l) (Z.of_nat (length l)) (size - 1 - Z.of_nat (length l)).

(** [m2] does on the buffer what [m1] does on the log, as long as there is
    room, and stops at a failed assertion otherwise. *)
Record R {A} (m1 : X (list Z) A) (m2 : X vsnprintf_stream A) : Prop := {
  R_mono l a l' : m1 l = Ok (a, l') → (length l ≤ length l')%nat;
  R_sim l s a l' : sim l s → m1 l = Ok (a, l') →
    if decide (Z.of_nat (length l') < size)
    then ∃ s', m2 s = Ok (a, s') ∧ sim l' s'
    else m2 s = Fault Assert_failed;
}.

Lemma R_ret {A} (a : A) : R (mret a) (mret a).
Proof using.
  split; [by intros ? ? ? [= <- <-]|]. intros l s a' l' Hs [= <- <-].
  rewrite decide_True by apply Hs. by exists s.
Qed.

Lemma R_from_res {A} (m : res A) : R (from_res m) (from_res m).
Proof using.
  destruct m as [a|e]; [apply R_ret|]. split; done.
Qed.

Lemma R_bind {A B} (m1 : X (list Z) A) m2 (f1 : A → X (list Z) B) f2 :
  R m1 m2 → (∀ a, R (f1 a) (f2 a)) → R (m1 ≫= f1) (m2 ≫= f2).
Proof using.
  intros [Hmm Hms] Hf. split.
  - intros l b l2. unfold mbind, X_bind. destruct (m1 l) as [[[a|err] l1]|e] eqn:E1; [| |done].
    + intros E2%Hf. apply Hmm in E1. lia.
    + intros [= <- <-]. by eapply Hmm.
  - intros l s b l2 Hs. unfold mbind, X_bind. destruct (m1 l) as [[a l1]|e] eqn:E1; [|done].
    specialize (Hms l s a l1 Hs E1). destruct a as [a|err].
    + intros E2. destruct (decide (Z.of_nat (length l1) < size)).
      * destruct Hms as (s1 & -> & Hs1). by apply (R_sim _ _ (Hf a) l1 s1).
      * rewrite Hms. apply Hf in E2. by rewrite decide_False by lia.
    + intros [= <- <-]. case_decide; [|by rewrite Hms]. destruct Hms as (s1 & -> & Hs1). by exists s1.
Qed.

Lemma printed_shape l : Z.of_nat (length l) < size →
  ∃ t0, printed l = l ++ t0 :: drop (S (length l)) str.
Proof using All.
  intros Hl. destruct l as [|c0 l]; [|by exists 0]. cbn [printed app length drop].
  destruct str as [|a rest]; [cbn in *; lia|]. by exists a.
Qed.

Lemma length_printed l : Z.of_nat (length l) < size → length (printed l) = length str.
Proof using All.
  intros Hl. destruct (printed_shape l Hl) as [t0 ->]. rewrite length_app. cbn [length]. rewrite length_drop. lia.
Qed.

Lemma printed_snoc l c : Z.of_nat (length l) + 1 < size →
  <[S (length l) := 0]> (<[length l := c]> (printed l)) = printed (l ++ [c]).
Proof using All.
  intros Hl. destruct (printed_shape l) as [t0 ->]; [lia|].
  destruct (drop (S (length l)) str) as [|t1 rest] eqn:E.
  { pose proof (f_equal length E) as E'. rewrite length_drop in E'. cbn in E'. lia. }
  assert (drop (S (S (length l))) str = rest) as Hrest.
  { assert (drop 1 (drop (S (length l)) str) = drop (S (S (length l))) str) as <-
      by (rewrite drop_drop; f_equal; lia). by rewrite E. }
  rewrite insert_app_r_alt by lia. rewrite Nat.sub_diag. cbn [insert list_insert].
  rewrite insert_app_r_alt by lia. replace (S (length l) - length l)%nat with 1%nat by lia. cbn [insert list_insert].
  unfold printed. destruct (l ++ [c]) as [|x xs] eqn:El; [by destruct l|]. rewrite <- El.
  rewrite <- app_assoc, length_app. cbn [length app]. replace (length l + 1)%nat with (S (length l)) by lia.
  by rewrite Hrest.
Qed.

Lemma R_put c : R (put c) (put c).
Proof using All.
  split; [intros l a l' [= <- <-]; rewrite length_app; lia|].
  intros l s a l' [Hl ->] [= <- <-]. rewrite length_app. cbn [length].
  unfold put, stream_put_char, stream_write, vsnprintf_stream_op_write, mbind, M_bind, res_bind.
  cbn [remaininglen dest buffer].
  destruct (Z.ltb_spec (size - 1 - Z.of_nat (length l)) 1) as [Hlt|Hge].
  - replace (size - 1 - Z.of_nat (length l)) with 0 by lia. cbn [Z.eqb].
    rewrite wr_ok by (rewrite length_printed; lia). rewrite decide_False by lia. done.
  - cbn [Z.eqb]. rewrite wr_ok by (rewrite length_printed; lia).
    rewrite wr_ok by (rewrite length_insert, length_printed; lia). cbn. rewrite decide_True by lia.
    eexists. split; [done|]. split; [rewrite length_app; cbn; lia|]. rewrite length_app. cbn [length].
    rewrite u32_small by (unfold INT_MAX in *; lia). rewrite Nat2Z.id.
    replace (Z.to_nat (Z.of_nat (length l) + 1)) with (S (length l)) by lia.
    rewrite printed_snoc by lia. f_equal; lia.
Qed.

Lemma R_ext {A} (m1 m1' : X (list Z) A) m2 m2' :
  R m1 m2 → (∀ l, m1' l = m1 l) → (∀ s, m2' s = m2 s) → R m1' m2'.
Proof using.
  intros [H1 H2] E1 E2. split; [intros l a l'|intros l s a l' Hs]; rewrite E1; [apply H1|].
  rewrite E2. by apply H2.
Qed.

Create HintDb sim.
Hint Resolve R_ret R_from_res R_put : sim.

(** Follow the structure of a computation. *)
Ltac follow := repeat first
  [ apply R_bind; [|intros ?]
  | match goal with
    | |- R (if ?b then _ else _) _ => destruct b
    | |- R (match ?x with _ => _ end) _ => destruct x
    | |- R (let '(_, _) := ?x in _) _ => destruct x
    end
  | solve [auto with sim] ].

Lemma R_put_digits fuel base dc i d w : R (put_digits fuel base dc i d w) (put_digits fuel base dc i d w).
Proof using All. revert d w. induction fuel as [|fuel IH]; intros d w; cbn [put_digits]; follow; apply IH. Qed.
Hint Resolve R_put_digits : sim.

Lemma R_print_dec_unsigned i : R (print_dec_unsigned i) (print_dec_unsigned i).
Proof using All. unfold print_dec_unsigned. follow. Qed.
Hint Resolve R_print_dec_unsigned : sim.

Lemma R_print_dec_signed i : R (print_dec_signed i) (print_dec_signed i).
Proof using All. unfold print_dec_signed. follow. Qed.
Hint Resolve R_print_dec_signed : sim.

Lemma R_print_hex i up : R (print_hex i up) (print_hex i up).
Proof using All. unfold print_hex. follow. Qed.
Hint Resolve R_print_hex : sim.

Lemma R_put_chars s w : R (put_chars s w) (put_chars s w).
Proof using All. revert w. induction s as [|c s IH]; intros w; cbn [put_chars]; follow; apply IH. Qed.

Lemma R_put_string s : R (stream_put_string s) (stream_put_string s).
Proof using All. apply R_put_chars. Qed.
Hint Resolve R_put_string : sim.

Lemma R_pad n c w : R (pad n c w) (pad n c w).
Proof using All. revert w. induction n as [|n IH]; intros w; cbn [pad]; follow; apply IH. Qed.

Lemma R_pad_to sp m w : R (pad_to sp m w) (pad_to sp m w).
Proof using All. apply R_pad. Qed.
Hint Resolve R_pad_to : sim.

Lemma R_doformat string_at c sp lm ap w :
  R (doformat string_at c sp lm ap w) (doformat string_at c sp lm ap w).
Proof using All. unfold doformat. follow. Qed.
Hint Resolve R_doformat : sim.

Lemma R_percentorchar string_at fuel fmt ap w :
  R (percentorchar string_at fuel fmt ap w) (percentorchar string_at fuel fmt ap w).
Proof using All.
  revert fmt ap w. induction fuel as [|fuel IH]; intros fmt ap w; cbn [percentorchar]; follow; apply IH.
Qed.
End simulation.

(** [vsnprintf] prints to its buffer exactly what the format prints to a
    stream that takes everything, followed by a null character and the rest of
    the buffer unchanged, if this fits in [size] characters. If it does not fit
    the kernel stops at a failed assertion instead of truncating the output;
    and if nothing is printed, not even the null character is written.
    [vsprintf] always fails an assertion. *)
Theorem vsnprintf_correct (string_at : Z → res (list Z)) (str : list Z) (size : Z) (fmt ap : list Z)
    (r : Z) (out : list Z) :
  1 ≤ size ≤ INT_MAX → size ≤ Z.of_nat (length str) →
  stream_vprintf string_at fmt ap [] = Ok (r, out) →
  vsnprintf string_at str size fmt ap =
    (if decide (Z.of_nat (length out) < size)
     then Ok (r, match out with [] => str | _ => out ++ 0 :: drop (S (length out)) str end)
     else Fault Assert_failed) ∧
  vsprintf string_at str fmt ap = Fault Assert_failed.
Proof.
  intros Hsize Hstr E. split; [|done]. unfold vsnprintf.
  destruct (Z.leb_spec size INT_MAX); [|lia]. cbn [assert_].
  unfold stream_vprintf, returns, mbind, res_bind in *.
  destruct (percentorchar string_at (S (length fmt)) fmt ap 0 ([] : list Z)) as [[a l]|] eqn:Ep; [|done].
  injection E as <- <-.
  pose proof (R_sim _ _ _ _ (R_percentorchar str size Hsize Hstr string_at (S (length fmt)) fmt ap 0)
    [] (VSN str 0 (u32 (size - 1))) a l) as Hsim.
  ospecialize (Hsim _ Ep).
  { split; [cbn; lia|]. rewrite u32_small by (unfold INT_MAX in *; lia). f_equal. cbn. lia. }
  destruct (decide (Z.of_nat (length l) < size)) as [Hl|Hl].
  - destruct Hsim as (s & -> & _ & ->). done.
  - by rewrite Hsim.
Qed.

Lemma vsnprintf_correct_witness :
  vsnprintf (λ _, Fault Bad_pointer) [9; 9; 9; 9] 3 [120; 37; 100] [7] = Ok (2, [120; 55; 0; 9]) ∧
  vsnprintf (λ _, Fault Bad_pointer) [9; 9; 9; 9] 3 [120; 37; 100] [42] = Fault Assert_failed.
Proof.
  split.
  - apply (vsnprintf_correct (λ _, Fault Bad_pointer) [9; 9; 9; 9] 3 [120; 37; 100] [7] 2 [120; 55]); by vm_compute.
  - apply (vsnprintf_correct (λ _, Fault Bad_pointer) [9; 9; 9; 9] 3 [120; 37; 100] [42] 3 [120; 52; 50]); by vm_compute.
Defined.
