(* ===== verification/Sched.v ===== *)
(** Threads, mutexes and the scheduler (src/kernel/tasks/thread.c,
    src/kernel/tasks/mutex.c, src/kernel/tasks/sched.c). The intrusive lists of
    queues and of threads are sequences, front first: CList.v proves that the
    list operations refine those used here. *)
From S2P Require Import Prelude Arch HeapIface.

(** ** Data *)

Record source_location := SourceLocation { filename : Z; function : Z; line : Z }.

Record mutex := Mutex { locksource : source_location; locked : bool }.

(** What a thread does when it is switched to: a new thread enters its main
    function, with EFLAGS 0; the others return from the [thread_switch] they
    called, in [sched_schedule] or in the [sched_wait_mutex] of a
    [__mutex_lock], with the interrupt states these saved. *)
Inductive context :=
  | Fresh
  | In_schedule (prev_interrupts : ARCH_IRQSTATE)
  | In_mutex_lock (mutex : Z) (prev_interrupts prev_interrupts_lock : ARCH_IRQSTATE).

Record thread := Thread {
  arch_thread : Z;
  saved : context;
  waitingmutex : Z;
  desired_locksource : source_location;
  priority : Z;
  shutdown : bool;
}.

Record run_queue := RunQueue {
  node : Z;
  queue_priority : Z;
  opportunities : Z;
  queue_threads : list Z;
}.

(** Memory: the variables of sched.c, the threads and mutexes by address, the
    interrupt flag and the heap. *)
Record sched (H : Type) := Sched {
  s_queues : list run_queue;
  s_current_queue_node : Z;
  s_runningthread : Z;
  s_mutexwaitthreads : list Z;
  threads : gmap Z thread;
  mutexes : gmap Z mutex;
  eflags_if : bool;
  heap : H;
}.
Arguments Sched {H}.
Arguments s_queues {H}.
Arguments s_current_queue_node {H}.
Arguments s_runningthread {H}.
Arguments s_mutexwaitthreads {H}.
Arguments threads {H}.
Arguments mutexes {H}.
Arguments eflags_if {H}.
Arguments heap {H}.

Definition BOOT_THREAD_PRIORITY : Z := 20.
Definition SIZEOF_SCHED_QUEUE : Z := 28.
Definition SIZEOF_THREAD : Z := 36.

(** ** Queues *)

(** The queue at an address, and writing to it. *)
Definition queue_at (a : Z) (qs : list run_queue) : option run_queue :=
  snd <$> list_find (λ q, node q = a) qs.
Definition update_queue (a : Z) (f : run_queue → run_queue) (qs : list run_queue) : list run_queue :=
  (λ q, if node q =? a then f q else q) <$> qs.

Definition set_opportunities (n : Z) (q : run_queue) : run_queue :=
  RunQueue (node q) (queue_priority q) n (queue_threads q).
Definition set_queue_threads (ts : list Z) (q : run_queue) : run_queue :=
  RunQueue (node q) (queue_priority q) (opportunities q) ts.

(** The loop of [get_queue]: the queue with the priority, or the node to
    insert a new one after. *)
Fixpoint search_queue (priority : Z) (qs : list run_queue) : Z * Z :=
  match qs with
  | [] => (0, 0)
  | q :: rest =>
      if queue_priority q =? priority then (node q, 0)
      else
        match rest with
        | [] => (0, node q)
        | next_queue :: _ =>
            if (queue_priority q <? priority) && (priority <? queue_priority next_queue) then (0, node q)
            else search_queue priority rest
        end
  end.

Fixpoint insert_queue_after (after : Z) (q : run_queue) (qs : list run_queue) : list run_queue :=
  match qs with
  | [] => []
  | q0 :: rest => if node q0 =? after then q0 :: q :: rest else q0 :: insert_queue_after after q rest
  end.

(** [reset_queues]: 1 for the first queue, 2 for the second, ... *)
Fixpoint reset_queues (opportunities : Z) (qs : list run_queue) : list run_queue :=
  match qs with
  | [] => []
  | q :: rest => set_opportunities opportunities q :: reset_queues (u32 (opportunities + 1)) rest
  end.

(** The list from the node [a] on. *)
Fixpoint from_node (a : Z) (qs : list run_queue) : list run_queue :=
  match qs with
  | [] => []
  | q :: rest => if node q =? a then qs else from_node a rest
  end.

(** The inner loop of [pick_next_queue]. *)
Fixpoint next_with_opportunity (current : Z) (qs : list run_queue) : list run_queue :=
  match qs with
  | [] => []
  | q :: rest =>
      if negb (current =? 0) && (node q =? current) then next_with_opportunity current rest
      else if negb (opportunities q =? 0) && negb (bool_decide (queue_threads q = [])) then qs
      else next_with_opportunity current rest
  end.

(** [pick_next_queue] on the queues and the current one: the queue picked,
    which becomes the current one, and the queues. *)
Definition pick_next_queue (current : Z) (qs : list run_queue) : option (Z * list run_queue) :=
  let nodes := if negb (current =? 0) then from_node current qs else [] in
  let nodes := next_with_opportunity current nodes in
  let nodes := match nodes with [] => qs | _ => nodes end in
  let nodes := next_with_opportunity current nodes in
  let take q qs := (node q, update_queue (node q) (λ q, set_opportunities (u32 (opportunities q - 1)) q) qs) in
  match nodes with
  | q :: _ => Some (take q qs)
  | [] => match qs with [] => None | q :: _ => Some (take q (reset_queues 1 qs)) end
  end.

(** ** Access to the memory *)
Section operations.
Context {H : Type} `{!HeapOps H}.
Implicit Types (s : sched H).

Definition with_queues (qs : list run_queue) s : sched H :=
  Sched qs (s_current_queue_node s) (s_runningthread s) (s_mutexwaitthreads s) (threads s)
    (mutexes s) (eflags_if s) (heap s).
Definition with_current (a : Z) s : sched H :=
  Sched (s_queues s) a (s_runningthread s) (s_mutexwaitthreads s) (threads s)
    (mutexes s) (eflags_if s) (heap s).
Definition with_running (t : Z) s : sched H :=
  Sched (s_queues s) (s_current_queue_node s) t (s_mutexwaitthreads s) (threads s)
    (mutexes s) (eflags_if s) (heap s).
Definition with_waiters (ts : list Z) s : sched H :=
  Sched (s_queues s) (s_current_queue_node s) (s_runningthread s) ts (threads s)
    (mutexes s) (eflags_if s) (heap s).
Definition with_threads (m : gmap Z thread) s : sched H :=
  Sched (s_queues s) (s_current_queue_node s) (s_runningthread s) (s_mutexwaitthreads s) m
    (mutexes s) (eflags_if s) (heap s).
Definition with_mutexes (m : gmap Z mutex) s : sched H :=
  Sched (s_queues s) (s_current_queue_node s) (s_runningthread s) (s_mutexwaitthreads s) (threads s)
    m (eflags_if s) (heap s).
Definition with_if (b : bool) s : sched H :=
  Sched (s_queues s) (s_current_queue_node s) (s_runningthread s) (s_mutexwaitthreads s) (threads s)
    (mutexes s) b (heap s).
Definition with_heap (h : H) s : sched H :=
  Sched (s_queues s) (s_current_queue_node s) (s_runningthread s) (s_mutexwaitthreads s) (threads s)
    (mutexes s) (eflags_if s) h.

Definition modify (f : sched H → sched H) : M (sched H) unit := λ s, Ok (tt, f s).

Definition read_thread (t : Z) : M (sched H) thread := λ s,
  match threads s !! t with Some th => Ok (th, s) | None => Fault Bad_pointer end.
Definition write_thread (t : Z) (f : thread → thread) : M (sched H) unit :=
  th ← read_thread t;
  modify (λ s, with_threads (<[t := f th]> (threads s)) s).

Definition read_mutex (m : Z) : M (sched H) mutex := λ s,
  match mutexes s !! m with Some mx => Ok (mx, s) | None => Fault Bad_pointer end.
Definition write_mutex (m : Z) (mx : mutex) : M (sched H) unit :=
  _ ← read_mutex m;
  modify (λ s, with_mutexes (<[m := mx]> (mutexes s)) s).

Definition on_heap {A} (f : M H A) : M (sched H) A := λ s,
  '(a, h) ← f (heap s); Ok (a, with_heap h s).

Definition irq_disable : M (sched H) ARCH_IRQSTATE := λ s,
  let '(prev, b) := arch_irq_disable (eflags_if s) in Ok (prev, with_if b s).
Definition irq_restore (prev : ARCH_IRQSTATE) : M (sched H) unit :=
  modify (λ s, with_if (arch_irq_restore prev (eflags_if s)) s).

(** ** Mutexes *)

(** [mutex_init], on memory at [m]. *)
Definition mutex_init (m : Z) : M (sched H) unit :=
  modify (λ s, with_mutexes (<[m := Mutex (SourceLocation 0 0 0) false]> (mutexes s)) s).

Definition mutex_try_lock (self : Z) (loc : source_location) : M (sched H) bool :=
  mx ← read_mutex self;
  if locked mx then mret false
  else _ ← write_mutex self (Mutex loc true); mret true.

Definition mutex_unlock (self : Z) : M (sched H) unit :=
  write_mutex self (Mutex (SourceLocation 0 0 0) false).

(** ** Threads *)

Definition set_waitingmutex (m : Z) (th : thread) : thread :=
  Thread (arch_thread th) (saved th) m (desired_locksource th) (priority th) (shutdown th).
Definition set_desired_locksource (loc : source_location) (th : thread) : thread :=
  Thread (arch_thread th) (saved th) (waitingmutex th) loc (priority th) (shutdown th).
Definition set_saved (c : context) (th : thread) : thread :=
  Thread (arch_thread th) c (waitingmutex th) (desired_locksource th) (priority th) (shutdown th).
Definition set_priority (p : Z) (th : thread) : thread :=
  Thread (arch_thread th) (saved th) (waitingmutex th) (desired_locksource th) p (shutdown th).
Definition set_shutdown (th : thread) : thread :=
  Thread (arch_thread th) (saved th) (waitingmutex th) (desired_locksource th) (priority th) true.

(** [thread_create]; [arch_thread_size] is the size of the stack and saved
    stack pointer that [arch_thread_create] allocates. *)
Definition thread_create (arch_thread_size : Z) : M (sched H) Z :=
  thread ← on_heap (heap_alloc SIZEOF_THREAD HEAP_FLAG_ZEROMEMORY);
  if thread =? 0 then mret 0
  else
    arch_thread ← on_heap (heap_alloc arch_thread_size 0);
    if arch_thread =? 0 then
      _ ← on_heap (heap_free arch_thread);
      _ ← on_heap (heap_free thread);
      mret 0
    else
      _ ← modify (λ s, with_threads
            (<[thread := Thread arch_thread Fresh 0 (SourceLocation 0 0 0) 0 false]> (threads s)) s);
      mret thread.

Definition thread_delete (thread : Z) : M (sched H) unit :=
  if thread =? 0 then mret tt
  else
    th ← read_thread thread;
    _ ← on_heap (heap_free (arch_thread th));
    _ ← on_heap (heap_free thread);
    modify (λ s, with_threads (delete thread (threads s)) s).

(** ** The scheduler *)

Definition alloc_queue (insert_after priority : Z) : M (sched H) Z :=
  resultqueue ← on_heap (heap_alloc SIZEOF_SCHED_QUEUE HEAP_FLAG_ZEROMEMORY);
  if resultqueue =? 0 then mret 0
  else
    let q := RunQueue resultqueue priority 0 [] in
    _ ← modify (λ s, with_queues (if insert_after =? 0 then q :: s_queues s
                                  else insert_queue_after insert_after q (s_queues s)) s);
    mret resultqueue.

Definition get_queue (priority : Z) : M (sched H) Z :=
  s ← get;
  let should_insert_front :=
    match s_queues s with q :: _ => priority <? queue_priority q | [] => false end in
  let '(result_queue, insert_after) :=
    if should_insert_front then (0, 0) else search_queue priority (s_queues s) in
  if negb (result_queue =? 0) then mret result_queue else alloc_queue insert_after priority.

(** The loop of [pick_next_task_from_mutex_waitlist]: the first waiting thread
    whose mutex can be locked. *)
Fixpoint pick_waiter (ts : list Z) : M (sched H) Z :=
  match ts with
  | [] => mret 0
  | t :: ts =>
      thread ← read_thread t;
      _ ← massert (negb (waitingmutex thread =? 0));
      success ← mutex_try_lock (waitingmutex thread) (desired_locksource thread);
      if success : bool then
        _ ← modify (λ s, with_waiters (filter (λ t', t' ≠ t) (s_mutexwaitthreads s)) s);
        _ ← (if shutdown thread then mutex_unlock (waitingmutex thread) else mret tt);
        _ ← write_thread t (set_waitingmutex 0);
        mret t
      else pick_waiter ts
  end.

Definition pick_next_task_from_mutex_waitlist : M (sched H) Z :=
  s ← get; pick_waiter (s_mutexwaitthreads s).

(** [pick_next_queue] and [list_remove_back] of its threads. *)
Definition pick_ready : M (sched H) Z :=
  s ← get;
  match pick_next_queue (s_current_queue_node s) (s_queues s) with
  | None => mret 0
  | Some (a, qs) =>
      _ ← modify (λ s, with_current a (with_queues qs s));
      match queue_at a qs with
      | None => throw Bad_pointer
      | Some q =>
          match last (queue_threads q) with
          | None => mret 0
          | Some t =>
              _ ← modify (λ s, with_queues
                    (update_queue a (set_queue_threads (take (length (queue_threads q) - 1) (queue_threads q)))
                       (s_queues s)) s);
              mret t
          end
      end
  end.

(** The loop of [pick_next_task]: threads that are shutting down are deleted
    on the way. *)
Fixpoint pick_live (fuel : nat) : M (sched H) Z :=
  match fuel with
  | O => throw No_fuel
  | S fuel =>
      result ← pick_next_task_from_mutex_waitlist;
      result ← (if result =? 0 then pick_ready else mret result);
      if result =? 0 then mret 0
      else
        thread ← read_thread result;
        if shutdown thread then _ ← thread_delete result; pick_live fuel
        else mret result
  end.

Definition pick_next_task : M (sched H) Z :=
  prev_interrupts ← irq_disable;
  s ← get;
  result ← pick_live (S (size (threads s)));
  _ ← irq_restore prev_interrupts;
  mret result.

(** [thread_switch], and what the thread switched to does before it returns
    to its own code. *)
Definition thread_switch (from : Z) (from_context : context) (to : Z) : M (sched H) unit :=
  _ ← write_thread from (set_saved from_context);
  thread ← read_thread to;
  match saved thread with
  | Fresh => modify (with_if false)
  | In_schedule prev_interrupts =>
      _ ← modify (with_if false);
      irq_restore prev_interrupts
  | In_mutex_lock m prev_interrupts prev_interrupts_lock =>
      _ ← modify (with_if false);
      _ ← irq_restore prev_interrupts;
      mx ← read_mutex m;
      _ ← massert (locked mx);
      irq_restore prev_interrupts_lock
  end.

(** [sched_wait_mutex], called by a [__mutex_lock] that saved
    [prev_interrupts_lock]. *)
Definition sched_wait_mutex (m : Z) (loc : source_location) (prev_interrupts_lock : ARCH_IRQSTATE)
    : M (sched H) unit :=
  mx ← read_mutex m;
  _ ← massert (locked mx);
  prev_interrupts ← irq_disable;
  s ← get;
  _ ← write_thread (s_runningthread s) (set_desired_locksource loc);
  nextthread ← pick_next_task;
  if nextthread =? 0 then throw Hang
  else
    s ← get;
    let oldthread := s_runningthread s in
    _ ← massert (negb (oldthread =? 0));
    th ← read_thread oldthread;
    _ ← massert (waitingmutex th =? 0);
    _ ← write_thread oldthread (set_waitingmutex m);
    _ ← modify (λ s, with_waiters (oldthread :: s_mutexwaitthreads s) s);
    _ ← massert (negb (nextthread =? oldthread));
    _ ← modify (with_running nextthread);
    thread_switch oldthread (In_mutex_lock m prev_interrupts prev_interrupts_lock) nextthread.

Definition mutex_lock (self : Z) (loc : source_location) : M (sched H) unit :=
  _ ← massert (negb (self =? 0));
  prev_interrupts ← irq_disable;
  success ← mutex_try_lock self loc;
  if success : bool then
    irq_restore prev_interrupts
  else sched_wait_mutex self loc prev_interrupts.

Definition sched_queue (t : Z) : M (sched H) Z :=
  prev_interrupts ← irq_disable;
  thread ← read_thread t;
  queue ← get_queue (priority thread);
  ret ← (if queue =? 0 then mret (- ENOMEM)
         else
           _ ← modify (λ s, with_queues
                 (update_queue queue (λ q, set_queue_threads (t :: queue_threads q) q) (s_queues s)) s);
           mret 0);
  _ ← irq_restore prev_interrupts;
  mret ret.

Definition sched_schedule : M (sched H) unit :=
  prev_interrupts ← irq_disable;
  nextthread ← pick_next_task;
  if nextthread =? 0 then irq_restore prev_interrupts
  else
    s ← get;
    let oldthread := s_runningthread s in
    _ ← massert (negb (oldthread =? 0));
    _ ← sched_queue oldthread;
    _ ← massert (negb (nextthread =? oldthread));
    _ ← modify (with_running nextthread);
    thread_switch oldthread (In_schedule prev_interrupts) nextthread.

Definition sched_init_boot_thread (arch_thread_size : Z) : M (sched H) unit :=
  s ← get;
  _ ← massert (s_runningthread s =? 0);
  t ← thread_create arch_thread_size;
  _ ← modify (with_running t);
  _ ← massert (negb (t =? 0));
  write_thread t (set_priority BOOT_THREAD_PRIORITY).
End operations.

(** ** Queues: what [pick_next_queue] selects *)

Lemma queue_at_Some a qs q : queue_at a qs = Some q → q ∈ qs ∧ node q = a.
Proof.
  unfold queue_at. intros Hq. apply fmap_Some in Hq as ([i q'] & (Hl & Hn & _)%list_find_Some & ->).
  split; [by apply list_elem_of_lookup_2 in Hl|done].
Qed.

Lemma queue_at_lookup qs i q : NoDup (node <$> qs) → qs !! i = Some q → queue_at (node q) qs = Some q.
Proof.
  intros Hnd Hi. unfold queue_at.
  assert (list_find (λ q0, node q0 = node q) qs = Some (i, q)) as ->; [|done].
  apply list_find_Some. split_and!; [done|done|]. intros j q' Hj Hlt Heq.
  assert (i = j); [|lia]. eapply (NoDup_lookup (node <$> qs)); [done| |];
    rewrite list_lookup_fmap; [by rewrite Hi|by rewrite Hj, <- Heq].
Qed.

Lemma queue_at_in qs q : NoDup (node <$> qs) → q ∈ qs → queue_at (node q) qs = Some q.
Proof. intros Hnd [i Hi]%list_elem_of_lookup_1. by eapply queue_at_lookup. Qed.

(** A queue that can be selected while [current] is the current one. *)
Definition eligible (current : Z) (q : run_queue) : Prop :=
  node q ≠ current ∧ opportunities q ≠ 0 ∧ queue_threads q ≠ [].

Lemma next_with_opportunity_spec current qs : Forall (λ q, node q ≠ 0) qs →
  match next_with_opportunity current qs with
  | [] => Forall (λ q, ¬ eligible current q) qs
  | q :: rest => eligible current q ∧ ∃ skipped, qs = skipped ++ q :: rest ∧
      Forall (λ q, ¬ eligible current q) skipped
  end.
Proof.
  induction 1 as [|q qs Hq _ IH]; [constructor|]. cbn [next_with_opportunity].
  assert (¬ eligible current q →
    match next_with_opportunity current qs with
    | [] => Forall (λ q, ¬ eligible current q) (q :: qs)
    | q' :: rest => eligible current q' ∧ ∃ skipped, q :: qs = skipped ++ q' :: rest ∧
        Forall (λ q, ¬ eligible current q) skipped
    end) as Hskip.
  { intros Hn. destruct (next_with_opportunity current qs) as [|q' rest]; [by constructor|].
    destruct IH as (He & sk & -> & Hsk). split; [done|]. exists (q :: sk). split; [done|by constructor]. }
  destruct (Z.eqb_spec (node q) current) as [Hc|Hc].
  - destruct (Z.eqb_spec current 0); [congruence|]. cbn [negb andb]. apply Hskip. by intros [? _].
  - rewrite andb_false_r. destruct (Z.eqb_spec (opportunities q) 0) as [Ho|Ho]; cbn [negb andb].
    { apply Hskip. by intros (_ & ? & _). }
    case_bool_decide as Ht; cbn [negb andb].
    { apply Hskip. by intros (_ & _ & ?). }
    split; [done|]. by exists [].
Qed.

Lemma from_node_suffix a qs : ∃ before, qs = before ++ from_node a qs.
Proof.
  induction qs as [|q qs [b IH]]; [by exists []|]. cbn. destruct (node q =? a); [by exists []|].
  exists (q :: b). by rewrite IH at 1.
Qed.

Lemma next_with_opportunity_idem current qs :
  next_with_opportunity current (next_with_opportunity current qs) = next_with_opportunity current qs.
Proof.
  induction qs as [|q qs IH]; [done|]. cbn.
  destruct (negb (current =? 0) && (node q =? current)) eqn:E1; [done|].
  destruct (negb (opportunities q =? 0) && negb (bool_decide (queue_threads q = []))) eqn:E2; [|done].
  cbn. by rewrite E1, E2.
Qed.

Definition take_opportunity (q : run_queue) : run_queue := set_opportunities (u32 (opportunities q - 1)) q.

(** [pick_next_queue] selects an eligible queue if there is one; otherwise it
    resets the opportunities and selects the first queue. *)
Lemma pick_next_queue_spec current qs : Forall (λ q, node q ≠ 0) qs →
  match pick_next_queue current qs with
  | None => qs = []
  | Some (a, qs') =>
      (∃ q, q ∈ qs ∧ eligible current q ∧ a = node q ∧ qs' = update_queue a take_opportunity qs) ∨
      (Forall (λ q, ¬ eligible current q) qs ∧ ∃ q rest, qs = q :: rest ∧ a = node q ∧
        qs' = update_queue a take_opportunity (reset_queues 1 qs))
  end.
Proof.
  intros Hn. unfold pick_next_queue.
  set (nodes := if negb (current =? 0) then from_node current qs else []).
  assert (∃ before, qs = before ++ nodes) as [before Hb].
  { unfold nodes. destruct (negb (current =? 0)); [apply from_node_suffix|]. exists qs. by rewrite app_nil_r. }
  assert (Forall (λ q, node q ≠ 0) nodes) as Hn'. { rewrite Hb in Hn. by apply Forall_app in Hn as [_ ?]. }
  clearbody nodes. pose proof (next_with_opportunity_spec current nodes Hn') as H1.
  pose proof (next_with_opportunity_spec current qs Hn) as H2.
  destruct (next_with_opportunity current nodes) as [|q rest] eqn:E.
  - destruct (next_with_opportunity current qs) as [|q rest].
    + destruct qs as [|q qs]; [done|]. right. split; [done|]. by exists q, qs.
    + left. destruct H2 as (He & sk & -> & _). exists q. split_and!; [set_solver|done..].
  - rewrite <- E, next_with_opportunity_idem, E. left. destruct H1 as (He & sk & Hq & _).
    exists q. split_and!; [rewrite Hb, Hq; set_solver|done..].
Qed.

(** ** Fairness of the queues *)

Record queues_ok (qs : list run_queue) : Prop := {
  queues_nodes : NoDup (node <$> qs);
  queues_node0 : Forall (λ q, node q ≠ 0) qs;
  queues_opportunities i q : qs !! i = Some q → 0 ≤ opportunities q ≤ Z.of_nat i + 1;
  queues_length : Z.of_nat (length qs) < 2 ^ 31;
}.

(** What other code may do to the queues between two selections: queue and
    remove threads. *)
Definition same_queues (qs qs' : list run_queue) : Prop :=
  (λ q, (node q, queue_priority q, opportunities q)) <$> qs =
  (λ q, (node q, queue_priority q, opportunities q)) <$> qs'.

Definition sum_opportunities (qs : list run_queue) : Z := foldr (λ q n, opportunities q + n) 0 qs.

Lemma lookup_reset_queues n qs i : 0 ≤ n → n + Z.of_nat (length qs) < 2 ^ 32 →
  reset_queues n qs !! i = set_opportunities (n + Z.of_nat i) <$> qs !! i.
Proof.
  revert n i. induction qs as [|q qs IH]; intros n i Hn Hl; [done|]. cbn [reset_queues length] in *.
  destruct i as [|i]; cbn; [by rewrite Z.add_0_r|].
  rewrite u32_small by lia. rewrite IH by lia. by replace (n + 1 + Z.of_nat i) with (n + Z.of_nat (S i)) by lia.
Qed.

Lemma reset_queues_sum n qs : 0 ≤ n → n + Z.of_nat (length qs) < 2 ^ 32 →
  2 * sum_opportunities (reset_queues n qs) = Z.of_nat (length qs) * (2 * n + Z.of_nat (length qs) - 1).
Proof.
  revert n. induction qs as [|q qs IH]; intros n Hn Hl; [cbn; lia|].
  cbn [reset_queues length sum_opportunities foldr opportunities set_opportunities] in *.
  rewrite u32_small by lia. specialize (IH (n + 1) ltac:(lia) ltac:(lia)).
  unfold sum_opportunities in IH. lia.
Qed.

Lemma nodes_reset_queues n qs : node <$> reset_queues n qs = node <$> qs.
Proof. revert n. induction qs as [|q qs IH]; intros n; [done|]. cbn. by rewrite IH. Qed.

Lemma nodes_update_queue a f qs : (∀ q, node (f q) = node q) → node <$> update_queue a f qs = node <$> qs.
Proof.
  intros Hf. unfold update_queue. rewrite <- list_fmap_compose. apply list_fmap_ext.
  intros ? q _. cbn. destruct (node q =? a); [apply Hf|done].
Qed.

Lemma lookup_update_queue a f qs i :
  update_queue a f qs !! i = (λ q, if node q =? a then f q else q) <$> qs !! i.
Proof. apply list_lookup_fmap. Qed.

Lemma Forall_nodes (P : Z → Prop) qs : Forall (λ q, P (node q)) qs ↔ Forall P (node <$> qs).
Proof. by rewrite Forall_fmap. Qed.

Lemma reset_queues_ok qs : queues_ok qs → queues_ok (reset_queues 1 qs).
Proof.
  intros [Hnd Hn0 _ Hlen].
  assert (length (reset_queues 1 qs) = length qs) as Hl.
  { rewrite <- (length_fmap node), nodes_reset_queues. by rewrite length_fmap. }
  split; [by rewrite nodes_reset_queues| | |by rewrite Hl].
  - apply (Forall_nodes (λ a, a ≠ 0)). rewrite nodes_reset_queues. by apply (Forall_nodes (λ a, a ≠ 0)).
  - intros i q. rewrite lookup_reset_queues by lia. intros (q0 & _ & ->)%fmap_Some. cbn. lia.
Qed.

Lemma take_opportunity_ok a qs : queues_ok qs →
  (∀ q, q ∈ qs → node q = a → opportunities q ≠ 0) → queues_ok (update_queue a take_opportunity qs).
Proof.
  intros [Hnd Hn0 Ho Hlen] Ha. split.
  - by rewrite nodes_update_queue.
  - apply (Forall_nodes (λ a, a ≠ 0)). rewrite nodes_update_queue by done. by apply (Forall_nodes (λ a, a ≠ 0)).
  - intros i q. rewrite lookup_update_queue. intros (q0 & Hi & ->)%fmap_Some. specialize (Ho _ _ Hi).
    pose proof (lookup_lt_Some _ _ _ Hi).
    destruct (Z.eqb_spec (node q0) a) as [Heq|]; [|done].
    specialize (Ha _ (list_elem_of_lookup_2 _ _ _ Hi) Heq). cbn. rewrite u32_small by lia. lia.
  - unfold update_queue. by rewrite length_fmap.
Qed.

Lemma take_opportunity_sum qs q : NoDup (node <$> qs) → q ∈ qs → 0 < opportunities q < 2 ^ 32 →
  sum_opportunities (update_queue (node q) take_opportunity qs) = sum_opportunities qs - 1.
Proof.
  induction qs as [|q0 qs IH]; [by intros _ ?%not_elem_of_nil|].
  cbn [fmap list_fmap]. intros [Hnin Hnd]%NoDup_cons Hq Ho. cbn [update_queue fmap list_fmap sum_opportunities foldr].
  destruct (Z.eqb_spec (node q0) (node q)) as [Heq|Hne].
  - assert (q0 = q) as ->.
    { apply elem_of_cons in Hq as [->|Hq]; [done|]. exfalso. apply Hnin. rewrite Heq.
      apply list_elem_of_fmap. by exists q. }
    assert (update_queue (node q) take_opportunity qs = qs) as Hu.
    { unfold update_queue. rewrite <- (list_fmap_id qs) at 2. apply list_fmap_ext.
      intros ? q1 Hq1%list_elem_of_lookup_2. destruct (Z.eqb_spec (node q1) (node q)); [|done].
      exfalso. apply Hnin. apply list_elem_of_fmap. by exists q1. }
    unfold update_queue in Hu. rewrite Hu. unfold take_opportunity at 1. cbn [opportunities set_opportunities].
    rewrite u32_small by lia. lia.
  - apply elem_of_cons in Hq as [->|Hq]; [done|]. specialize (IH Hnd Hq Ho).
    unfold update_queue, sum_opportunities in IH. lia.
Qed.

Lemma same_queues_lookup qs qs' i q : same_queues qs qs' → qs !! i = Some q →
  ∃ q', qs' !! i = Some q' ∧ node q' = node q ∧ opportunities q' = opportunities q.
Proof.
  intros Hs Hi. apply (f_equal (λ l, l !! i)) in Hs. rewrite !list_lookup_fmap, Hi in Hs. cbn in Hs.
  destruct (qs' !! i) as [q'|]; [|done]. injection Hs as H1 H2 H3. by exists q'.
Qed.

Lemma same_queues_sym qs qs' : same_queues qs qs' → same_queues qs' qs.
Proof. done. Qed.

Lemma same_queues_nodes qs qs' : same_queues qs qs' → node <$> qs = node <$> qs'.
Proof. intros Hs%(f_equal (fmap (λ x, x.1.1))). by rewrite <- !list_fmap_compose in Hs. Qed.

Lemma same_queues_sum qs qs' : same_queues qs qs' → sum_opportunities qs' = sum_opportunities qs.
Proof.
  revert qs'. induction qs as [|q qs IH]; intros [|q' qs'] Hs; try done.
  injection Hs as H1 H2 H3 Hs. cbn. rewrite H3. f_equal. by apply IH.
Qed.

Lemma same_queues_ok qs qs' : same_queues qs qs' → queues_ok qs → queues_ok qs'.
Proof.
  intros Hs [Hnd Hn0 Ho Hlen]. pose proof (same_queues_nodes _ _ Hs) as Hn. split.
  - by rewrite <- Hn.
  - apply (Forall_nodes (λ a, a ≠ 0)). rewrite <- Hn. by apply (Forall_nodes (λ a, a ≠ 0)).
  - intros i q' Hi. destruct (same_queues_lookup _ _ _ _ (same_queues_sym _ _ Hs) Hi) as (q & Hq & _ & <-).
    by apply Ho.
  - by rewrite <- (length_fmap node qs'), <- Hn, length_fmap.
Qed.

(** [n] selections in a row, none of which selects the queue [a], although it
    always has threads. *)
Inductive unserved (a : Z) : nat → Z → list run_queue → Prop :=
  | unserved_0 current qs : unserved a 0 current qs
  | unserved_S n current qs b qs1 qs2 :
      (∃ q, q ∈ qs ∧ node q = a ∧ queue_threads q ≠ []) →
      pick_next_queue current qs = Some (b, qs1) → b ≠ a →
      same_queues qs1 qs2 → unserved a n b qs2 → unserved a (S n) current qs.

Definition has_opportunity (a : Z) (qs : list run_queue) : Prop :=
  ∃ q, q ∈ qs ∧ node q = a ∧ opportunities q ≠ 0.

Lemma has_opportunity_same a qs qs' : same_queues qs qs' → has_opportunity a qs → has_opportunity a qs'.
Proof.
  intros Hs (q & [i Hi]%list_elem_of_lookup_1 & <- & Ho).
  destruct (same_queues_lookup _ _ _ _ Hs Hi) as (q' & Hi' & Hn & Ho'). exists q'.
  split_and!; [by eapply list_elem_of_lookup_2|done|congruence].
Qed.

Lemma has_opportunity_take a b qs : a ≠ b → has_opportunity a qs →
  has_opportunity a (update_queue b take_opportunity qs).
Proof.
  intros Hab (q & Hq & <- & Ho). exists q. split_and!; [|done..].
  apply list_elem_of_fmap. exists q. split; [|done]. destruct (Z.eqb_spec (node q) b); [done|done].
Qed.

Lemma queues_ok_opportunities qs q : queues_ok qs → q ∈ qs → 0 ≤ opportunities q < 2 ^ 32.
Proof.
  intros Hok [i Hi]%list_elem_of_lookup_1. pose proof (queues_opportunities _ Hok _ _ Hi).
  pose proof (queues_length _ Hok). apply lookup_lt_Some in Hi. lia.
Qed.

Lemma queues_ok_unique qs q q' : queues_ok qs → q ∈ qs → q' ∈ qs → node q = node q' → q = q'.
Proof.
  intros Hok H1 H2 Hn. pose proof (queue_at_in _ _ (queues_nodes _ Hok) H1) as E1.
  pose proof (queue_at_in _ _ (queues_nodes _ Hok) H2) as E2. congruence.
Qed.

(** One selection: of an eligible queue, or after a reset. *)
Lemma pick_step a current qs b qs1 : queues_ok qs → pick_next_queue current qs = Some (b, qs1) →
  queues_ok qs1 ∧
  ((∃ q, q ∈ qs ∧ eligible current q ∧ b = node q ∧
      sum_opportunities qs1 = sum_opportunities qs - 1 ∧
      (a ≠ b → has_opportunity a qs → has_opportunity a qs1)) ∨
   (Forall (λ q, ¬ eligible current q) qs ∧
      2 * sum_opportunities qs1 = Z.of_nat (length qs) * (Z.of_nat (length qs) + 1) - 2 ∧
      (a ≠ b → a ∈ node <$> qs → has_opportunity a qs1))).
Proof.
  intros Hok E. pose proof (pick_next_queue_spec current qs (queues_node0 _ Hok)) as Hs. rewrite E in Hs.
  destruct Hs as [(q & Hq & He & -> & ->)|(Hne & q & rest & Hqs & -> & ->)].
  - pose proof (queues_ok_opportunities _ _ Hok Hq) as Ho. destruct He as (He1 & He2 & He3).
    split; [|left; exists q; split_and!; try done].
    + apply take_opportunity_ok; [done|]. intros q' Hq' Hn. by rewrite (queues_ok_unique qs q' q).
    + apply take_opportunity_sum; [apply Hok|done|lia].
    + apply has_opportunity_take.
  - pose proof (reset_queues_ok _ Hok) as Hok'. pose proof (queues_length _ Hok) as Hlen.
    assert (set_opportunities 1 q ∈ reset_queues 1 qs) as Hq by (rewrite Hqs; by left).
    split; [|right; split_and!; [done| |]].
    + apply take_opportunity_ok; [done|]. intros q' Hq' Hn.
      by rewrite (queues_ok_unique _ q' (set_opportunities 1 q) Hok').
    + assert (Hsum := take_opportunity_sum _ _ (queues_nodes _ Hok') Hq ltac:(cbn; lia)).
      cbn [node set_opportunities] in Hsum. rewrite Hsum.
      pose proof (reset_queues_sum 1 qs ltac:(lia) ltac:(lia)). nia.
    + intros Hab Ha. apply has_opportunity_take; [done|].
      rewrite <- (nodes_reset_queues 1) in Ha. apply list_elem_of_fmap in Ha as (q' & -> & Hq').
      exists q'. split_and!; [done..|]. apply list_elem_of_lookup in Hq' as [i Hi].
      rewrite lookup_reset_queues in Hi by lia. apply fmap_Some in Hi as (? & _ & ->). cbn. lia.
Qed.

Lemma sum_nonneg qs : queues_ok qs → 0 ≤ sum_opportunities qs.
Proof.
  intros Hok. assert (Forall (λ q, 0 ≤ opportunities q) qs) as HF.
  { apply Forall_forall. intros q Hq. pose proof (queues_ok_opportunities _ _ Hok Hq). lia. }
  clear Hok. induction HF; cbn in *; unfold sum_opportunities in *; lia.
Qed.

Lemma sum_bound n qs : (∀ i q, qs !! i = Some q → 0 ≤ opportunities q ≤ n + Z.of_nat i) →
  2 * sum_opportunities qs ≤ Z.of_nat (length qs) * (2 * n + Z.of_nat (length qs) - 1).
Proof.
  revert n. induction qs as [|q qs IH]; intros n Ho; [cbn; lia|].
  pose proof (Ho O q eq_refl) as H0. specialize (IH (n + 1)). cbn [sum_opportunities foldr length].
  unfold sum_opportunities in IH. enough (2 * foldr (λ q n, opportunities q + n) 0 qs ≤
    Z.of_nat (length qs) * (2 * (n + 1) + Z.of_nat (length qs) - 1)) by lia.
  apply IH. intros i q' Hi. specialize (Ho (S i) q' Hi). lia.
Qed.

(** Until the next reset: a queue with an opportunity is selected before. *)
Lemma unserved_until_reset a n current qs : queues_ok qs → unserved a n current qs →
  current ≠ a → has_opportunity a qs → Z.of_nat n ≤ sum_opportunities qs.
Proof.
  intros Hok Hu. revert Hok. induction Hu as [current qs|n current qs b qs1 qs2 Hne E Hb Hs Hu IH]; intros Hok Hc Ho.
  { pose proof (sum_nonneg _ Hok). lia. }
  destruct (pick_step a _ _ _ _ Hok E) as (Hok1 & [(q & Hq & He & -> & Hsum & Hkeep)|(Hnone & _)]).
  - specialize (IH (same_queues_ok _ _ Hs Hok1) Hb). rewrite (same_queues_sum _ _ Hs) in IH.
    ospecialize (IH _); [eapply has_opportunity_same; [done|by apply Hkeep]|]. lia.
  - exfalso. destruct Hne as (q & Hq & Hn & Ht), Ho as (q' & Hq' & Hn' & Ho').
    rewrite (queues_ok_unique qs q' q Hok) in Ho' by congruence.
    rewrite Forall_forall in Hnone. apply (Hnone _ Hq). split_and!; congruence.
Qed.

Lemma unserved_bound a n current qs : queues_ok qs → unserved a n current qs →
  2 * Z.of_nat n ≤ 2 * sum_opportunities qs + Z.of_nat (length qs) * (Z.of_nat (length qs) + 1).
Proof.
  intros Hok Hu. revert Hok. induction Hu as [current qs|n current qs b qs1 qs2 Hne E Hb Hs Hu IH]; intros Hok.
  { pose proof (sum_nonneg _ Hok). nia. }
  destruct (pick_step a _ _ _ _ Hok E) as (Hok1 & [(q & Hq & He & -> & Hsum & _)|(_ & Hsum & Hop)]).
  - specialize (IH (same_queues_ok _ _ Hs Hok1)). rewrite (same_queues_sum _ _ Hs) in IH.
    assert (length qs2 = length qs) as Hl; [|rewrite Hl in IH; lia].
    rewrite <- (length_fmap node qs2), <- (same_queues_nodes _ _ Hs), length_fmap.
    pose proof (pick_next_queue_spec current qs (queues_node0 _ Hok)) as Hsp. rewrite E in Hsp.
    destruct Hsp as [(? & _ & _ & _ & ->)|(? & ? & ? & -> & _ & ->)];
      rewrite <- (length_fmap node), nodes_update_queue, ?nodes_reset_queues, length_fmap by done; done.
  - pose proof (unserved_until_reset a n b qs2 (same_queues_ok _ _ Hs Hok1) Hu ltac:(done)) as Hn.
    rewrite (same_queues_sum _ _ Hs) in Hn. pose proof (sum_nonneg _ Hok).
    ospecialize (Hn _).
    { eapply has_opportunity_same; [done|]. apply Hop; [done|]. destruct Hne as (q & Hq & <- & _).
      apply list_elem_of_fmap. by exists q. }
    lia.
Qed.

(** no queue starves: whatever threads are queued and removed in between,
    a queue that always has a ready thread is selected by [pick_next_queue] at
    least once in k * (k + 1) + 1 selections, k being the number of queues. *)
Theorem pick_next_queue_fair (a : Z) (n : nat) (current : Z) (qs : list run_queue) :
  queues_ok qs → unserved a n current qs →
  Z.of_nat n ≤ Z.of_nat (length qs) * (Z.of_nat (length qs) + 1).
Proof.
  intros Hok Hu. pose proof (unserved_bound a n current qs Hok Hu).
  pose proof (sum_bound 1 qs) as Hs. ospecialize (Hs _); [|lia].
  intros i q Hi. pose proof (queues_opportunities _ Hok i q Hi). lia.
Qed.

Lemma pick_next_queue_fair_witness :
  queues_ok [RunQueue 16 0 1 [1]; RunQueue 32 20 0 [2]] ∧ (2 ≤ 2 * (2 + 1))%Z.
Proof.
  assert (queues_ok [RunQueue 16 0 1 [1]; RunQueue 32 20 0 [2]]) as Hok.
  { split; [by apply (bool_decide_unpack _)|by repeat constructor| |done]. intros [|[|i]] q [= <-]; cbn; lia. }
  split; [done|].
  apply (pick_next_queue_fair 32 2 0 [RunQueue 16 0 1 [1]; RunQueue 32 20 0 [2]] Hok).
  apply (unserved_S 32 1 0 _ 16 [RunQueue 16 0 0 [1]; RunQueue 32 20 0 [2]] [RunQueue 16 0 0 [1; 3]; RunQueue 32 20 0 [2]]);
    [|by vm_compute|done|done|].
  { exists (RunQueue 32 20 0 [2]). split; [right; by left|done]. }
  apply (unserved_S 32 0 16 _ 16 [RunQueue 16 0 0 [1; 3]; RunQueue 32 20 2 [2]] [RunQueue 16 0 0 [1]; RunQueue 32 20 2 [2]]);
    [|by vm_compute|done|done|constructor].
  exists (RunQueue 32 20 0 [2]). split; [right; by left|done].
Defined.

