(* ===== verification/SchedInv.v ===== *)
(** The invariant of the scheduler of Sched.v, its preservation by every
    operation, and mutual exclusion of its mutexes. *)
From stdpp Require Import sorting.
From Stdlib Require Import Sorted.
From S2P Require Import Prelude Arch HeapIface Sched.

(** ** The invariant *)
Section invariant.
Context {H : Type} `{!HeapOps H} `{!HeapLaws H}.
(** Whether threads may get lost, which they may when the heap is exhausted,
    and the threads the scheduler was given to run. *)
Context (L : Prop) (J : Z → Prop).
Implicit Types (s : sched H).

Definition ready (qs : list run_queue) : list Z := qs ≫= queue_threads.
#[local] Arguments ready : simpl never.

(** The contexts of the threads that are not waiting for a mutex. *)
Definition ready_context (c : context) : Prop :=
  match c with In_mutex_lock _ _ _ => False | _ => True end.

Definition waiting_ok (mx : gmap Z mutex) (th : thread) : Prop :=
  is_Some (mx !! waitingmutex th) ∧ ∃ p p', saved th = In_mutex_lock (waitingmutex th) p p'.

(** The memory blocks of the queues and the threads are distinct and in use. *)
Record heap_ok (nodes : list Z) (archs : gmap Z Z) (h : H) : Prop := {
  heap_nodes a : a ∈ nodes → in_use h a ∧ archs !! a = None ∧ ∀ t b, archs !! t = Some b → b ≠ a;
  heap_threads t b : archs !! t = Some b → in_use h t ∧ in_use h b ∧ archs !! b = None;
  heap_archs t t' b : archs !! t = Some b → archs !! t' = Some b → t = t';
}.

(** [E] are the threads that are neither waiting nor ready but still known to
    the scheduler: the running one, and the one it is about to switch to. *)
Record Inv (E : list Z) s : Prop := {
  I_sorted : StronglySorted Z.lt (queue_priority <$> s_queues s);
  I_queue_priority : Forall (λ p, -128 ≤ p ≤ 127) (queue_priority <$> s_queues s);
  I_nodes : NoDup (node <$> s_queues s);
  I_current : s_current_queue_node s = 0 ∨ s_current_queue_node s ∈ node <$> s_queues s;
  I_opportunities i q : s_queues s !! i = Some q → 0 ≤ opportunities q ≤ Z.of_nat i + 1;
  I_places : NoDup (E ++ s_mutexwaitthreads s ++ ready (s_queues s));
  I_alive t : t ∈ E ++ s_mutexwaitthreads s ++ ready (s_queues s) → is_Some (threads s !! t);
  I_joined t : t ∈ E ++ s_mutexwaitthreads s ++ ready (s_queues s) → J t;
  I_ready q t th : q ∈ s_queues s → t ∈ queue_threads q → threads s !! t = Some th →
    queue_priority q = priority th ∧ (t = s_runningthread s ∨ ready_context (saved th));
  I_waiting t th : t ∈ s_mutexwaitthreads s → threads s !! t = Some th → waiting_ok (mutexes s) th;
  I_others t th : threads s !! t = Some th → t ∉ s_mutexwaitthreads s → waitingmutex th = 0;
  I_priorities t th : threads s !! t = Some th → -128 ≤ priority th ≤ 127;
  I_mutex0 : mutexes s !! 0 = None;
  I_accounted t th : threads s !! t = Some th →
    t ∉ E ++ s_mutexwaitthreads s ++ ready (s_queues s) → L ∨ saved th = Fresh ∧ ¬ J t;
  I_heap : heap_ok (node <$> s_queues s) (arch_thread <$> threads s) (heap s);
}.

Lemma sorted_length lo hi (ps : list Z) : lo ≤ hi + 1 →
  StronglySorted Z.lt ps → Forall (λ p, lo ≤ p ≤ hi) ps → Z.of_nat (length ps) ≤ hi + 1 - lo.
Proof using.
  revert lo. induction ps as [|p ps IH]; intros lo Hlo Hs Hf; [cbn; lia|].
  apply StronglySorted_cons in Hs as [Hlt Hs]. apply Forall_cons in Hf as [Hp Hf].
  specialize (IH (p + 1)). cbn [length]. ospecialize (IH _ Hs _); [lia| |lia].
  rewrite Forall_forall in *. intros p' Hp'. specialize (Hlt _ Hp'). specialize (Hf _ Hp'). lia.
Qed.

Lemma Inv_node0 E s : Inv E s → Forall (λ q, node q ≠ 0) (s_queues s).
Proof using.
  intros HI. apply Forall_forall. intros q Hq H0.
  destruct (heap_nodes _ _ _ (I_heap _ _ HI) (node q)) as [Hu _]; [apply list_elem_of_fmap; by exists q|].
  rewrite H0 in Hu. by apply heap_null in Hu.
Qed.

Lemma Inv_thread0 E s : Inv E s → threads s !! 0 = None.
Proof using.
  intros HI. destruct (threads s !! 0) as [th|] eqn:Et; [|done]. exfalso.
  destruct (heap_threads _ _ _ (I_heap _ _ HI) 0 (arch_thread th)) as [Hu _]; [by rewrite lookup_fmap, Et|].
  by apply heap_null in Hu.
Qed.

Lemma Inv_queues_ok E s : Inv E s → queues_ok (s_queues s).
Proof using.
  intros HI. split; [apply HI|by eapply Inv_node0|apply HI|].
  pose proof (sorted_length (-128) 127 _ ltac:(lia) (I_sorted _ _ HI) (I_queue_priority _ _ HI)) as Hl.
  rewrite length_fmap in Hl. lia.
Qed.

Lemma Inv_current_nonnull E s t th : Inv E s → threads s !! t = Some th → t ≠ 0.
Proof using. intros HI Ht ->. by rewrite (Inv_thread0 _ _ HI) in Ht. Qed.

(** Writing to a thread. *)
Lemma Inv_write_thread E s t th th' : Inv E s → threads s !! t = Some th →
  t ∈ E ++ s_mutexwaitthreads s ++ ready (s_queues s) ∨ saved th' = saved th →
  arch_thread th' = arch_thread th → -128 ≤ priority th' ≤ 127 →
  (t ∈ s_mutexwaitthreads s → waiting_ok (mutexes s) th') →
  (t ∉ s_mutexwaitthreads s → waitingmutex th' = 0) →
  (∀ q, q ∈ s_queues s → t ∈ queue_threads q →
     queue_priority q = priority th' ∧ (t = s_runningthread s ∨ ready_context (saved th'))) →
  Inv E (with_threads (<[t := th']> (threads s)) s).
Proof using.
  intros HI Ht HE Ha Hp Hw Ho Hr.
  assert (arch_thread <$> <[t:=th']> (threads s) = arch_thread <$> threads s) as Harch.
  { rewrite fmap_insert, Ha. apply insert_id. by rewrite lookup_fmap, Ht. }
  destruct HI. split; cbn; try done.
  - intros t' Ht'. destruct (decide (t' = t)) as [->|]; [by rewrite lookup_insert_eq|].
    rewrite lookup_insert_ne by done. by apply I_alive0.
  - intros q t' th1 Hq Hqt. rewrite lookup_insert_Some. intros [[<- <-]|[Hne Ht1]]; [by apply Hr|by eapply I_ready0].
  - intros t' th1 Ht'. rewrite lookup_insert_Some. intros [[<- <-]|[Hne Ht1]]; [by apply Hw|by eapply I_waiting0].
  - intros t' th1. rewrite lookup_insert_Some. intros [[<- <-]|[Hne Ht1]] Hn; [by apply Ho|by eapply I_others0].
  - intros t' th1. rewrite lookup_insert_Some. intros [[<- <-]|[Hne Ht1]]; [done|by eapply I_priorities0].
  - intros t' th1. rewrite lookup_insert_Some. intros [[<- <-]|[Hne Ht1]] Hn; [|by eapply I_accounted0].
    destruct HE as [Hin| ->]; [done|by eapply I_accounted0].
  - by rewrite Harch.
Qed.

(** The interrupt flag and the state of a mutex do not matter. *)
Lemma Inv_with_if E s b : Inv E s → Inv E (with_if b s).
Proof using. by intros []; split. Qed.

Lemma Inv_write_mutex E s m mx : Inv E s → m ≠ 0 → Inv E (with_mutexes (<[m := mx]> (mutexes s)) s).
Proof using.
  intros HI Hm. destruct HI. split; cbn; try done.
  - intros t th Ht Hth. destruct (I_waiting0 t th Ht Hth) as [[mx' Hs] Hc]. split; [|done].
    destruct (decide (waitingmutex th = m)) as [->|]; [rewrite lookup_insert_eq|rewrite lookup_insert_ne by done]; by eexists.
  - by rewrite lookup_insert_ne.
Qed.
Definition is_locked s (m : Z) : bool :=
  match mutexes s !! m with Some mx => locked mx | None => false end.

(** The mutex a thread holds when it is switched to. *)
Definition resume_mutex (c : context) : option Z :=
  match c with In_mutex_lock m _ _ => Some m | _ => None end.

(** What selecting a thread leaves alone; [om] is the mutex that is locked for
    the thread selected. *)
Record frame (E : list Z) s s' (om : option Z) : Prop := {
  F_running : s_runningthread s' = s_runningthread s;
  F_if : eflags_if s' = eflags_if s;
  F_threads t : t ∈ E → threads s' !! t = threads s !! t;
  F_mutexes m : is_Some (mutexes s' !! m) ↔ is_Some (mutexes s !! m);
  F_locked m : is_locked s' m = (is_locked s m || bool_decide (om = Some m));
  F_new m : om = Some m → is_locked s m = false;
}.

Lemma frame_refl E s : frame E s s None.
Proof using. split; try done. intros m. by rewrite bool_decide_eq_false_2, orb_false_r. Qed.

Lemma frame_trans E s s1 s2 om : frame E s s1 None → frame E s1 s2 om → frame E s s2 om.
Proof using.
  intros HA HB. destruct HA, HB. assert (∀ m, is_locked s1 m = is_locked s m) as Hl.
  { intros m. by rewrite F_locked0, bool_decide_eq_false_2, orb_false_r. }
  split; try congruence.
  - intros t Ht. by rewrite F_threads1, F_threads0.
  - intros m. by rewrite F_mutexes1, F_mutexes0.
  - intros m Hm. rewrite <- Hl. by apply F_new1.
Qed.

Lemma frame_weaken E E' s s' om : (∀ t, t ∈ E → t ∈ E') → frame E' s s' om → frame E s s' om.
Proof using. intros HE []. split; auto. Qed.

(** The thread selected: not waiting any more, with the mutex it was waiting
    for locked unless it is shutting down. *)
Definition selected s s' (r : Z) (E : list Z) : Prop :=
  ∃ th, threads s' !! r = Some th ∧ waitingmutex th = 0 ∧
    frame E s s' (if shutdown th then None else resume_mutex (saved th)).

Lemma I_nodup_E E s t : Inv E s → t ∈ E → t ∉ s_mutexwaitthreads s ∧ t ∉ ready (s_queues s).
Proof using.
  intros HI Ht. pose proof (I_places _ _ HI) as Hnd. apply NoDup_app in Hnd as (_ & Hd & _).
  specialize (Hd _ Ht). rewrite elem_of_app in Hd. tauto.
Qed.

Lemma elem_of_ready t qs : t ∈ ready qs ↔ ∃ q, q ∈ qs ∧ t ∈ queue_threads q.
Proof using. clear. unfold ready. rewrite list_elem_of_bind. naive_solver. Qed.

Lemma filter_ne_Permutation (t : Z) l : NoDup l → t ∈ l → l ≡ₚ t :: filter (λ t', t' ≠ t) l.
Proof using. clear J.
  intros Hnd Ht. apply NoDup_Permutation; [done| |].
  - apply NoDup_cons. rewrite list_elem_of_filter. split; [tauto|by apply NoDup_filter].
  - intros x. rewrite elem_of_cons, list_elem_of_filter. destruct (decide (x = t)) as [->|]; tauto.
Qed.

Lemma pick_waiter_ok E s ts : Inv E s → (∀ t, t ∈ ts → t ∈ s_mutexwaitthreads s) →
  ∃ r s', pick_waiter ts s = Ok (r, s') ∧
    ((r = 0 ∧ s' = s ∧ ∀ t th, t ∈ ts → threads s !! t = Some th → is_locked s (waitingmutex th) = true) ∨
     (r ∈ s_mutexwaitthreads s ∧ r ≠ 0 ∧ Inv (r :: E) s' ∧ selected s s' r E ∧
       size (threads s') = size (threads s))).
Proof using.
  intros HI. induction ts as [|t ts IH]; intros Hts.
  { exists 0, s. split; [done|]. left. split_and!; [done..|]. by intros ? ? ?%not_elem_of_nil. }
  assert (t ∈ s_mutexwaitthreads s) as Htw by (apply Hts; by left).
  destruct (I_alive _ _ HI t) as [th Hth]; [rewrite !elem_of_app; tauto|].
  destruct (I_waiting _ _ HI _ _ Htw Hth) as [[mx Hmx] (p & p' & Hsv)].
  assert (waitingmutex th ≠ 0) as Hm0. { intros E0. rewrite E0, (I_mutex0 _ _ HI) in Hmx. done. }
  cbn [pick_waiter]. unfold mbind, M_bind, read_thread at 1, massert. rewrite Hth.
  destruct (Z.eqb_spec (waitingmutex th) 0) as [|_]; [done|]. cbn [negb].
  unfold mutex_try_lock, mbind, M_bind, read_mutex at 1. rewrite Hmx.
  destruct (locked mx) eqn:Hlk.
  { unfold mret, M_ret. cbn beta iota.
    destruct IH as (r & s' & -> & Hr); [intros; apply Hts; by right|]. exists r, s'. split; [done|].
    destruct Hr as [(-> & -> & Hall)|Hr]; [left|by right]. split_and!; [done..|].
    intros t' th' [->|Ht']%elem_of_cons Hth'; [|by eapply Hall].
    assert (th' = th) as -> by congruence. unfold is_locked. by rewrite Hmx. }
  clear IH.
  set (mx1 := Mutex (desired_locksource th) true).
  set (mx2 := if shutdown th then Mutex (SourceLocation 0 0 0) false else mx1).
  set (s2 := with_threads (<[t := set_waitingmutex 0 th]> (threads s))
    (with_mutexes (<[waitingmutex th := mx2]> (mutexes s))
      (with_waiters (filter (λ t', t' ≠ t) (s_mutexwaitthreads s)) s))).
  exists t, s2. split.
  { unfold write_mutex, mbind, M_bind, read_mutex at 1. rewrite Hmx. cbn.
    unfold s2, mx2. destruct (shutdown th); cbn.
    - unfold mutex_unlock, write_mutex, mbind, M_bind, read_mutex. cbn. rewrite lookup_insert_eq. cbn.
      unfold write_thread, mbind, M_bind, read_thread. cbn. rewrite Hth. cbn.
      unfold with_threads, with_mutexes, with_waiters. cbn. by rewrite insert_insert_eq.
    - unfold write_thread, mbind, M_bind, read_thread. cbn. by rewrite Hth. }
  assert (t ≠ 0) as Ht0 by (by eapply Inv_current_nonnull).
  subst s2. right. split_and!; [done..| | |].
  - assert (NoDup (s_mutexwaitthreads s)) as Hnd.
    { pose proof (I_places _ _ HI) as Hnd. apply NoDup_app in Hnd as (_ & _ & Hnd). by apply NoDup_app in Hnd as [? _]. }
    assert (E ++ s_mutexwaitthreads s ++ ready (s_queues s) ≡ₚ
      (t :: E) ++ filter (λ t', t' ≠ t) (s_mutexwaitthreads s) ++ ready (s_queues s)) as Hperm.
    { etrans; [apply Permutation_app_head, Permutation_app_tail, (filter_ne_Permutation t); done|].
      cbn. symmetry. apply Permutation_middle. }
    assert (t ∉ ready (s_queues s)) as Htr.
    { pose proof (I_places _ _ HI) as Hnd2. apply NoDup_app in Hnd2 as (_ & _ & Hnd2).
      apply NoDup_app in Hnd2 as (_ & Hd & _). by apply Hd. }
    destruct HI. split; cbn -[app]; try done.
    + by rewrite <- Hperm.
    + intros t'. rewrite <- Hperm. intros Ht'. destruct (decide (t' = t)) as [->|]; [rewrite lookup_insert_eq; by eexists|].
      rewrite lookup_insert_ne by done. by apply I_alive0.
    + intros t'. rewrite <- Hperm. apply I_joined0.
    + intros q t' th1 Hq Hqt. rewrite lookup_insert_Some. intros [[<- _]|[_ ?]]; [|by eapply I_ready0].
      destruct Htr. apply elem_of_ready. by exists q.
    + intros t' th1 [Hne Ht']%list_elem_of_filter. rewrite lookup_insert_ne by done. intros Ht1.
      destruct (I_waiting0 _ _ Ht' Ht1) as [[mx' Hs] Hc]. split; [|done].
      destruct (decide (waitingmutex th1 = waitingmutex th)) as [->|]; [rewrite lookup_insert_eq|rewrite lookup_insert_ne by done]; by eexists.
    + intros t' th1. rewrite lookup_insert_Some, list_elem_of_filter. intros [[<- <-]|[Hne Ht1]]; [done|].
      intros Hn. eapply I_others0; [done|]. intros ?. apply Hn. by split.
    + intros t' th1. rewrite lookup_insert_Some. intros [[<- <-]|[Hne Ht1]]; [by apply (I_priorities0 t th)|by eapply I_priorities0].
    + by rewrite lookup_insert_ne.
    + intros t' th1. rewrite lookup_insert_Some, <- Hperm. intros [[<- <-]|[Hne Ht1]] Hn; [|by eapply I_accounted0].
      by apply (I_accounted0 t th).
    + assert (arch_thread <$> <[t:=set_waitingmutex 0 th]> (threads s) = arch_thread <$> threads s) as ->; [|done].
      rewrite fmap_insert. apply insert_id. by rewrite lookup_fmap, Hth.
  - exists (set_waitingmutex 0 th). split_and!; [cbn; by rewrite lookup_insert_eq|done|]. split; try done.
    + intros t' Ht'. cbn. rewrite lookup_insert_ne; [done|]. intros <-.
      by destruct (I_nodup_E _ _ _ HI Ht').
    + intros m. cbn. rewrite lookup_insert_is_Some. destruct (decide (waitingmutex th = m)) as [<-|]; [|tauto].
      split; intros; [by eexists|by left].
    + intros m. unfold is_locked. cbn. destruct (decide (waitingmutex th = m)) as [<-|Hne].
      * rewrite lookup_insert_eq, Hmx, Hlk, Hsv. unfold mx2. destruct (shutdown th); cbn; [done|].
        by rewrite bool_decide_eq_true_2.
      * rewrite lookup_insert_ne by done. rewrite Hsv, bool_decide_eq_false_2, orb_false_r; [done|].
        destruct (shutdown th); cbn; [done|]. congruence.
    + intros m. cbn. rewrite Hsv. destruct (shutdown th); cbn; [done|]. intros [= <-]. unfold is_locked. by rewrite Hmx.
  - cbn. rewrite <- !size_dom, dom_insert_lookup_L; [done|by eexists].
Qed.

(** Changing the queues. *)
Lemma ready_same qs qs' : queue_threads <$> qs = queue_threads <$> qs' → ready qs = ready qs'.
Proof using.
  revert qs'. induction qs as [|q qs IH]; intros [|q' qs'] E; try done. injection E as E1 E2.
  unfold ready in *. cbn. rewrite E1. f_equal. by apply IH.
Qed.

Lemma ready_update a q f ts qs : NoDup (node <$> qs) → q ∈ qs → node q = a → f q = set_queue_threads ts q →
  ∃ rest, ready qs ≡ₚ queue_threads q ++ rest ∧ ready (update_queue a f qs) ≡ₚ ts ++ rest.
Proof using.
  intros Hnd Hq <- Hf. apply list_elem_of_split in Hq as (l1 & l2 & ->).
  rewrite fmap_app, fmap_cons in Hnd. apply NoDup_app in Hnd as (_ & Hd1 & [Hd2 _]%NoDup_cons).
  assert (∀ l, node q ∉ node <$> l → update_queue (node q) f l = l) as Hu.
  { intros l Hl. unfold update_queue. rewrite <- (list_fmap_id l) at 2. apply list_fmap_ext.
    intros i q' Hi%list_elem_of_lookup_2. destruct (Z.eqb_spec (node q') (node q)) as [Heq|]; [|done].
    destruct Hl. rewrite <- Heq. by apply list_elem_of_fmap_2. }
  exists (ready l1 ++ ready l2). unfold ready, update_queue in *. rewrite fmap_app, fmap_cons, !bind_app.
  rewrite (Hu l2) by done. rewrite (Hu l1).
  2: { intros Hin. apply (Hd1 _ Hin). by left. }
  rewrite Z.eqb_refl, Hf. cbn [mbind list_bind queue_threads set_queue_threads].
  split; apply Permutation_app_swap_app.
Qed.

Lemma Inv_same_threads E s current qs : Inv E s →
  (λ q, (node q, queue_priority q, queue_threads q)) <$> qs =
  (λ q, (node q, queue_priority q, queue_threads q)) <$> s_queues s →
  queues_ok qs → current = 0 ∨ current ∈ node <$> qs →
  Inv E (with_current current (with_queues qs s)).
Proof using.
  intros HI Heq Hok Hc.
  assert (∀ A (f : Z * Z * list Z → A), (λ q, f (node q, queue_priority q, queue_threads q)) <$> qs =
    (λ q, f (node q, queue_priority q, queue_threads q)) <$> s_queues s) as Hf.
  { intros A f. apply (f_equal (fmap f)) in Heq. by rewrite <- !list_fmap_compose in Heq. }
  assert (ready qs = ready (s_queues s)) as Hr.
  { apply ready_same. exact (Hf _ (λ x, x.2)). }
  pose proof (Hf _ (λ x, x.1.1)) as Hn. pose proof (Hf _ (λ x, x.1.2)) as Hp. cbn in Hn, Hp.
  change (node <$> qs = node <$> s_queues s) in Hn.
  change (queue_priority <$> qs = queue_priority <$> s_queues s) in Hp.
  destruct HI. split; cbn; rewrite ?Hn, ?Hp, ?Hr; try done.
  - by rewrite <- Hn.
  - apply Hok.
  - intros q t th Hq Ht Hth. apply list_elem_of_lookup in Hq as [i Hi].
    apply (f_equal (λ l, l !! i)) in Heq. rewrite !list_lookup_fmap, Hi in Heq. cbn in Heq.
    destruct (s_queues s !! i) as [q'|] eqn:Hi'; [|done]. injection Heq as E1 E2 E3.
    rewrite E2. apply (I_ready0 q' t th); [by eapply list_elem_of_lookup_2|by rewrite <- E3|done].
Qed.

Lemma Inv_queue_threads E E' s a q f ts : Inv E s → q ∈ s_queues s → node q = a →
  (∀ q, node (f q) = node q ∧ queue_priority (f q) = queue_priority q ∧ opportunities (f q) = opportunities q) →
  f q = set_queue_threads ts q →
  E' ++ ts ≡ₚ E ++ queue_threads q →
  (∀ t th, t ∈ ts → threads s !! t = Some th →
     queue_priority q = priority th ∧ (t = s_runningthread s ∨ ready_context (saved th))) →
  Inv E' (with_queues (update_queue a f (s_queues s)) s).
Proof using.
  intros HI Hq Ha Hf Hfq HE Hts. subst a.
  destruct (ready_update _ q f ts _ (I_nodes _ _ HI) Hq eq_refl Hfq) as (rest & Hr1 & Hr2).
  assert (E' ++ s_mutexwaitthreads s ++ ready (update_queue (node q) f (s_queues s)) ≡ₚ
    E ++ s_mutexwaitthreads s ++ ready (s_queues s)) as Hperm.
  { rewrite Hr1, Hr2, !(Permutation_app_swap_app (s_mutexwaitthreads s)), !(app_assoc E), !(app_assoc E').
    by rewrite HE. }
  assert (node <$> update_queue (node q) f (s_queues s) = node <$> s_queues s) as Hn.
  { apply nodes_update_queue. intros q'. apply Hf. }
  assert (queue_priority <$> update_queue (node q) f (s_queues s) = queue_priority <$> s_queues s) as Hp.
  { unfold update_queue. rewrite <- list_fmap_compose. apply list_fmap_ext.
    intros ? q' _. cbn. destruct (node q' =? node q); [apply Hf|done]. }
  pose proof (Inv_queues_ok _ _ HI) as Hok.
  destruct HI. split; cbn; rewrite ?Hn, ?Hp; try done.
  - intros i q'. rewrite lookup_update_queue. intros (q0 & Hi & ->)%fmap_Some.
    apply I_opportunities0 in Hi. destruct (node q0 =? node q); [|done].
    destruct (Hf q0) as (_ & _ & ->). done.
  - by rewrite Hperm.
  - intros t. rewrite Hperm. apply I_alive0.
  - intros t. rewrite Hperm. apply I_joined0.
  - intros q' t th Hq' Ht Hth. apply list_elem_of_fmap in Hq' as (q0 & -> & Hq0).
    destruct (Z.eqb_spec (node q0) (node q)) as [Heq|]; [|by eapply I_ready0].
    assert (q0 = q) as -> by (by eapply queues_ok_unique).
    destruct (Hf q) as (_ & -> & _). apply Hts; [|done]. by rewrite Hfq in Ht.
  - intros t th. rewrite Hperm. apply I_accounted0.
Qed.

Lemma pick_next_queue_same current qs a qs' : Forall (λ q, node q ≠ 0) qs →
  pick_next_queue current qs = Some (a, qs') →
  (λ q, (node q, queue_priority q, queue_threads q)) <$> qs' =
  (λ q, (node q, queue_priority q, queue_threads q)) <$> qs ∧ a ∈ node <$> qs.
Proof using.
  intros Hn E. pose proof (pick_next_queue_spec current qs Hn) as Hs. rewrite E in Hs.
  assert (∀ a l, (λ q, (node q, queue_priority q, queue_threads q)) <$> update_queue a take_opportunity l =
    (λ q, (node q, queue_priority q, queue_threads q)) <$> l) as Hu.
  { intros b l. unfold update_queue. rewrite <- list_fmap_compose. apply list_fmap_ext.
    intros ? q _. cbn. by destruct (node q =? b). }
  destruct Hs as [(q & Hq & _ & -> & ->)|(_ & q & rest & -> & -> & ->)]; rewrite Hu.
  - split; [done|by apply list_elem_of_fmap_2].
  - split; [|by left]. generalize (q :: rest). generalize 1 at 1. clear.
    intros n l. revert n. induction l as [|q l IH]; intros n; [done|]. cbn. by rewrite IH.
Qed.

(** [pick_ready]: null when the queue selected is empty. *)
Lemma pick_ready_ok E s : Inv E s → ∃ r s', pick_ready s = Ok (r, s') ∧ frame E s s' None ∧
  threads s' = threads s ∧
  ((r = 0 ∧ Inv E s') ∨
   (r ∈ ready (s_queues s) ∧ r ≠ 0 ∧ Inv (r :: E) s')).
Proof using.
  intros HI. unfold pick_ready, get, mbind, M_bind.
  destruct (pick_next_queue (s_current_queue_node s) (s_queues s)) as [[a qs]|] eqn:Ep.
  2: { exists 0, s. split_and!; [done|apply frame_refl|done|by left]. }
  destruct (pick_next_queue_same _ _ _ _ (Inv_node0 _ _ HI) Ep) as [Hsame Ha].
  destruct (pick_step 0 _ _ _ _ (Inv_queues_ok _ _ HI) Ep) as [Hok _].
  assert (node <$> qs = node <$> s_queues s) as Hn.
  { pose proof (f_equal (fmap (λ x, x.1.1)) Hsame) as Hn. by rewrite <- !list_fmap_compose in Hn. }
  assert (ready qs = ready (s_queues s)) as Hr.
  { apply ready_same. pose proof (f_equal (fmap snd) Hsame) as Hb. by rewrite <- !list_fmap_compose in Hb. }
  rewrite <- Hn in Ha. set (s1 := with_current a (with_queues qs s)).
  assert (Inv E s1) as HI1 by (apply Inv_same_threads; auto).
  assert (frame E s s1 None) as HF.
  { split; try done. intros m. by rewrite bool_decide_eq_false_2, orb_false_r. }
  cbn [modify]. unfold modify. fold s1.
  apply list_elem_of_fmap in Ha as (q & -> & Hq). rewrite (queue_at_in _ _ (queues_nodes _ Hok) Hq).
  destruct (last (queue_threads q)) as [t|] eqn:El.
  2: { exists 0, s1. split_and!; [done..|by left]. }
  apply last_Some in El as [ts Hts].
  assert (t ∈ ready qs) as Htr. { apply elem_of_ready. exists q. rewrite Hts. split; [done|set_solver]. }
  destruct (I_alive _ _ HI1 t) as [th Hth]. { cbn. rewrite !elem_of_app. tauto. }
  cbn. eexists _, _. split_and!; [done|by destruct HF; split|done|]. right.
  split_and!; [by rewrite <- Hr|by eapply (Inv_current_nonnull _ s)|].
  apply (Inv_queue_threads E (t :: E) s1 (node q) q _ ts); [done..| | |].
  - unfold set_queue_threads. do 2 f_equal. rewrite Hts, length_app. cbn. rewrite Nat.add_sub. by rewrite take_app_length.
  - rewrite Hts. cbn. rewrite <- Permutation_cons_append. by rewrite Permutation_middle.
  - intros t' th' Ht'. apply (I_ready _ _ HI1 q t' th'); [done|]. rewrite Hts. apply elem_of_app. by left.
Qed.

Lemma heap_ok_delete nodes archs h1 h2 t b : heap_ok nodes archs h1 → archs !! t = Some b →
  (∀ a, a ≠ b → a ≠ t → in_use h1 a → in_use h2 a) → heap_ok nodes (delete t archs) h2.
Proof using.
  intros [Hn Ht Ha] Htb Hu. split.
  - intros a Hin. destruct (Hn a Hin) as (H1 & H2 & H3). split_and!.
    + apply Hu; [|congruence|done]. intros ->. by apply (H3 t b).
    + rewrite lookup_delete_None. by right.
    + intros t' b' [_ Htb']%lookup_delete_Some. by eapply H3.
  - intros t' b' [Hne Htb']%lookup_delete_Some. destruct (Ht _ _ Htb') as (H1 & H2 & H3), (Ht _ _ Htb) as (_ & _ & H4).
    split_and!; [apply Hu; [congruence|done|done]| |rewrite lookup_delete_None; by right].
    apply Hu; [|congruence|done]. intros ->. destruct Hne. by eapply Ha.
  - intros t' t'' b' [_ H1]%lookup_delete_Some [_ H2]%lookup_delete_Some. by eapply Ha.
Qed.

Lemma thread_delete_ok E s t th : Inv (t :: E) s → threads s !! t = Some th →
  ∃ s', thread_delete t s = Ok (tt, s') ∧ Inv E s' ∧ frame E s s' None ∧
    threads s' = delete t (threads s) ∧ s_mutexwaitthreads s' = s_mutexwaitthreads s ∧
    s_queues s' = s_queues s.
Proof using.
  intros HI Hth. assert (t ≠ 0) as Ht0 by (by eapply Inv_current_nonnull).
  pose proof (I_heap _ _ HI) as Hh.
  assert ((arch_thread <$> threads s) !! t = Some (arch_thread th)) as Harch by (by rewrite lookup_fmap, Hth).
  destruct (heap_threads _ _ _ Hh _ _ Harch) as (Hu1 & Hu2 & Hu3).
  unfold thread_delete. destruct (Z.eqb_spec t 0) as [|_]; [done|].
  unfold read_thread, mbind, M_bind, on_heap. rewrite Hth. cbn.
  destruct (heap_free_law (arch_thread th) (heap s)) as (h1 & -> & Hf1); [by right|]. cbn.
  destruct (heap_free_law t h1) as (h2 & -> & Hf2).
  { right. apply Hf1; [congruence|done]. }
  cbn. eexists. split; [done|].
  assert (t ∉ E ++ s_mutexwaitthreads s ++ ready (s_queues s)) as Htn.
  { pose proof (I_places _ _ HI) as Hnd. cbn in Hnd. by apply NoDup_cons in Hnd as [? _]. }
  assert (heap_ok (node <$> s_queues s) (arch_thread <$> delete t (threads s)) h2) as Hh2.
  { rewrite fmap_delete. eapply heap_ok_delete; [done..|]. intros a Ha1 Ha2 Ha. apply Hf2; [done|]. by apply Hf1. }
  split_and!; try done.
  - destruct HI. split; cbn -[app]; try done.
    + cbn in I_places0. by apply NoDup_cons in I_places0 as [_ ?].
    + intros t' Ht'. rewrite lookup_delete_ne by congruence. apply I_alive0. by right.
    + intros t' Ht'. apply I_joined0. by right.
    + intros q t' th' Hq Ht' [_ ?]%lookup_delete_Some. by eapply I_ready0.
    + intros t' th' Ht' [_ ?]%lookup_delete_Some. by eapply I_waiting0.
    + intros t' th' [_ ?]%lookup_delete_Some. by apply I_others0.
    + intros t' th' [_ ?]%lookup_delete_Some. by eapply I_priorities0.
    + intros t' th' [Hne ?]%lookup_delete_Some Hn. eapply I_accounted0; [done|]. cbn. rewrite elem_of_cons. intros [|]; congruence.
  - split; try done.
    + intros t' Ht'. cbn. rewrite lookup_delete_ne; [done|]. intros ->. apply Htn. apply elem_of_app. by left.
    + intros m. by rewrite bool_decide_eq_false_2, orb_false_r.
Qed.

(** [pick_next_task]: the null pointer, or a live thread that is taken off its
    queue or off the waiting threads, in the latter case with its mutex
    locked. *)
Definition picked s s' (r : Z) (E : list Z) : Prop :=
  (r = 0 ∧ Inv E s' ∧ frame E s s' None) ∨
  (r ≠ 0 ∧ Inv (r :: E) s' ∧ ∃ th, threads s' !! r = Some th ∧ waitingmutex th = 0 ∧
     shutdown th = false ∧ frame E s s' (resume_mutex (saved th))).

Lemma picked_trans E s s1 s2 r : frame E s s1 None → picked s1 s2 r E → picked s s2 r E.
Proof using.
  intros HF [(-> & HI & HF')|(Hr & HI & th & Hth & Hw & Hs & HF')]; [left|right].
  - split_and!; [done..|by eapply frame_trans].
  - split_and!; [done..|]. exists th. split_and!; [done..|]. by eapply frame_trans.
Qed.

(** One iteration: the waiting threads, then the queues. *)
Lemma pick_once_ok E s : Inv E s → s_runningthread s ∈ E →
  ∃ r s', (result ← pick_next_task_from_mutex_waitlist;
           if result =? 0 then pick_ready else mret result) s = Ok (r, s') ∧
    ((r = 0 ∧ Inv E s' ∧ frame E s s' None) ∨
     (r ≠ 0 ∧ Inv (r :: E) s' ∧ selected s s' r E ∧ size (threads s') = size (threads s))).
Proof using.
  intros HI HE. unfold pick_next_task_from_mutex_waitlist, get, mbind, M_bind.
  destruct (pick_waiter_ok E s (s_mutexwaitthreads s) HI) as (r & s1 & -> & Hw); [done|].
  destruct Hw as [(-> & -> & _)|(_ & Hr0 & HI1 & Hsel & Hsz)].
  2: { destruct (Z.eqb_spec r 0); [done|]. exists r, s1. split; [done|]. by right. }
  cbn [Z.eqb]. destruct (pick_ready_ok E s HI) as (r & s2 & -> & HF & Hth & Hr).
  exists r, s2. split; [done|]. destruct Hr as [(-> & HI2)|(Hrr & Hr0 & HI2)]; [by left|right].
  destruct (I_alive _ _ HI2 r) as [th Hr]; [by left|].
  assert (r ∉ s_mutexwaitthreads s2) as Hnw by (eapply I_nodup_E; [done|by left]).
  assert (r ∉ E) as HrE.
  { pose proof (I_places _ _ HI2) as Hnd. cbn in Hnd. apply NoDup_cons in Hnd as [Hn _]. rewrite elem_of_app in Hn. tauto. }
  split_and!; [done..| |by rewrite Hth]. exists th. split_and!; [done|by eapply I_others|].
  destruct (shutdown th); [done|]. rewrite Hth in Hr. apply elem_of_ready in Hrr as (q & Hq & Ht).
  destruct (I_ready _ _ HI q r th Hq Ht Hr) as [_ [->|Hc]]; [done|].
  by destruct (saved th).
Qed.

Lemma M_bind_assoc {A B C} (m : M (sched H) A) (f : A → M (sched H) B) (g : B → M (sched H) C) s :
  (m ≫= λ a, f a ≫= g) s = ((m ≫= f) ≫= g) s.
Proof using. unfold mbind, M_bind. by destruct (m s) as [[]|]. Qed.

Lemma pick_live_ok E fuel s : Inv E s → s_runningthread s ∈ E → (size (threads s) < fuel)%nat →
  ∃ r s', pick_live fuel s = Ok (r, s') ∧ picked s s' r E.
Proof using.
  revert s. induction fuel as [|fuel IH]; intros s HI HE Hfuel; [lia|]. cbn [pick_live].
  rewrite M_bind_assoc. destruct (pick_once_ok E s HI HE) as (r & s1 & E1 & Hr).
  rewrite (M_bind_step _ _ _ _ _ E1). destruct Hr as [(-> & HI1 & HF)|(Hr0 & HI1 & (th & Hth & Hw & HF) & Hsz)].
  { exists 0, s1. split; [done|by left]. }
  destruct (Z.eqb_spec r 0) as [|_]; [done|].
  unfold read_thread, mbind at 1, M_bind at 1. rewrite Hth. destruct (shutdown th) eqn:Hs.
  2: { exists r, s1. split; [done|]. right. split_and!; [done..|]. by exists th. }
  destruct (thread_delete_ok E s1 r th HI1 Hth) as (s2 & E2 & HI2 & HF2 & Hdel & _).
  rewrite (M_bind_step _ _ _ _ _ E2).
  assert (frame E s s2 None) as HF' by (by eapply frame_trans).
  destruct (IH s2 HI2) as (r' & s' & -> & Hp).
  - by rewrite (F_running _ _ _ _ HF').
  - rewrite Hdel, map_size_delete_Some by (by eexists).
    assert (size (threads s1) ≠ 0%nat); [|lia]. intros ?%map_size_empty_inv. by rewrite H0 in Hth.
  - exists r', s'. split; [done|]. by eapply picked_trans.
Qed.

Lemma pick_next_task_ok E s : Inv E s → s_runningthread s ∈ E →
  ∃ r s', pick_next_task s = Ok (r, s') ∧ picked s s' r E.
Proof using.
  intros HI HE. unfold pick_next_task, irq_disable, get, mbind, M_bind. cbn.
  destruct (pick_live_ok E (S (size (threads s))) (with_if false s)) as (r & s' & E1 & Hp);
    [by apply Inv_with_if|done|cbn; lia|]. cbn in E1. rewrite E1. cbn. eexists _, _. split; [done|].
  set (prev := arch_irq_restore _ _).
  assert (prev = eflags_if s) as Hprev.
  { unfold prev. destruct Hp as [(_ & _ & HF)|(_ & _ & th & _ & _ & _ & HF)]; rewrite (F_if _ _ _ _ HF);
      apply irq_section_restores. }
  destruct Hp as [(-> & HI' & HF)|(Hr & HI' & th & Hth & Hw & Hs & HF)]; [left|right].
  - split_and!; [done|by apply Inv_with_if|]. destruct HF. by split.
  - split_and!; [done|by apply Inv_with_if|]. exists th. split_and!; [done..|]. destruct HF. by split.
Qed.

(** Finding or making the queue of a priority. *)
Lemma heap_ok_mono nodes archs h h' : heap_ok nodes archs h → (∀ a, in_use h a → in_use h' a) → heap_ok nodes archs h'.
Proof using.
  intros [Hn Ht Ha] Hu. split; [|intros t b Hb; destruct (Ht t b Hb) as (?&?&?); auto|done].
  intros a Hin. destruct (Hn a Hin) as (?&?&?). auto.
Qed.

Lemma Inv_with_heap E s h' : Inv E s → (∀ a, in_use (heap s) a → in_use h' a) → Inv E (with_heap h' s).
Proof using. intros HI Hu. destruct HI. split; cbn; try done. by eapply heap_ok_mono. Qed.

Lemma Inv_insert_queue E s h' p l1 l2 prio : Inv E s → s_queues s = l1 ++ l2 →
  ¬ in_use (heap s) p → in_use h' p → (∀ a, in_use (heap s) a → in_use h' a) → -128 ≤ prio ≤ 127 →
  Forall (λ q, queue_priority q < prio) l1 → Forall (λ q, prio < queue_priority q) l2 →
  Inv E (with_queues (l1 ++ RunQueue p prio 0 [] :: l2) (with_heap h' s)).
Proof using.
  intros HI Hqs Hp Hp' Hu Hprio Hl1 Hl2.
  assert (ready (l1 ++ RunQueue p prio 0 [] :: l2) = ready (s_queues s)) as Hr.
  { rewrite Hqs. unfold ready. by rewrite !bind_app. }
  assert (p ∉ node <$> s_queues s) as Hpn.
  { intros Hin. by destruct (heap_nodes _ _ _ (I_heap _ _ HI) _ Hin) as [? _]. }
  assert (node <$> (l1 ++ RunQueue p prio 0 [] :: l2) ≡ₚ p :: (node <$> s_queues s)) as Hn.
  { rewrite Hqs, !fmap_app, fmap_cons. cbn. by rewrite Permutation_middle. }
  destruct HI. split; cbn; rewrite ?Hr; try done.
  - rewrite fmap_app, fmap_cons. rewrite Hqs, fmap_app in I_sorted0.
    apply StronglySorted_app in I_sorted0 as (Hx & Hs1 & Hs2).
    apply StronglySorted_app. split_and!; [|done|].
    + intros x1 x2 Hx1 Hx2. apply elem_of_cons in Hx2 as [->|Hx2]; [|by apply Hx].
      apply list_elem_of_fmap in Hx1 as (q & -> & Hq). rewrite Forall_forall in Hl1. by apply Hl1.
    + apply StronglySorted_cons. split; [|done]. rewrite Forall_fmap. done.
  - rewrite fmap_app, fmap_cons, Forall_app, Forall_cons. rewrite Hqs, fmap_app, Forall_app in I_queue_priority0.
    by destruct I_queue_priority0.
  - rewrite Hn. by apply NoDup_cons.
  - rewrite Hn. destruct I_current0 as [|]; [by left|right]. by right.
  - intros i q. rewrite lookup_app_Some, Hqs in *. intros [Hi|[Hl Hi]].
    + apply I_opportunities0. by apply lookup_app_l_Some.
    + destruct (i - length l1)%nat as [|j] eqn:Ej; cbn in Hi; [injection Hi as <-; cbn; lia|].
      assert ((l1 ++ l2) !! (length l1 + j)%nat = Some q) as Hj by (rewrite lookup_app_r by lia; by replace (length l1 + j - length l1)%nat with j by lia).
      apply I_opportunities0 in Hj. lia.
  - intros q t th Hq Ht. apply elem_of_app in Hq as [Hq|[->|Hq]%elem_of_cons]; [|by apply elem_of_nil in Ht|];
      (eapply I_ready0; [rewrite Hqs; apply elem_of_app; eauto|done]).
  - destruct (heap_ok_mono _ _ _ _ I_heap0 Hu) as [H1 H2 H3]. split; [|done|done].
    intros a. rewrite Hn, elem_of_cons. intros [->|Ha]; [|by apply H1].
    split_and!; [done| |].
    + destruct ((arch_thread <$> threads s) !! p) as [b|] eqn:E1; [|done].
      by destruct (heap_threads _ _ _ I_heap0 _ _ E1) as [? _].
    + intros t b Hb ->. by destruct (heap_threads _ _ _ I_heap0 _ _ Hb) as (_ & ? & _).
Qed.

Lemma search_queue_spec prio qs : StronglySorted Z.lt (queue_priority <$> qs) →
  match qs with q :: _ => queue_priority q ≤ prio | [] => True end →
  (∃ q, q ∈ qs ∧ queue_priority q = prio ∧ search_queue prio qs = (node q, 0)) ∨
  (qs = [] ∧ search_queue prio qs = (0, 0)) ∨
  (∃ l1 q l2, qs = l1 ++ q :: l2 ∧ search_queue prio qs = (0, node q) ∧
     Forall (λ q, queue_priority q < prio) (l1 ++ [q]) ∧ Forall (λ q, prio < queue_priority q) l2).
Proof using.
  induction qs as [|q qs IH]; intros Hs Hle; [by right; left|]. rewrite fmap_cons in Hs.
  apply StronglySorted_cons in Hs as [Hlt Hs]. rewrite Forall_fmap in Hlt. cbn [search_queue].
  destruct (Z.eqb_spec (queue_priority q) prio) as [He|He].
  { left. exists q. split_and!; [by left|done..]. }
  destruct qs as [|nq qs].
  { right; right. exists [], q, []. split_and!; [done|done| |done]. cbn. constructor; [lia|done]. }
  destruct (Z.ltb_spec (queue_priority q) prio); [|lia].
  destruct (Z.ltb_spec prio (queue_priority nq)) as [Hn|Hn]; cbn [andb].
  - right; right. exists [], q, (nq :: qs). split_and!; [done|done| |].
    + cbn. constructor; [lia|done].
    + constructor; [done|]. rewrite fmap_cons in Hs. apply StronglySorted_cons in Hs as [Hlt' _].
      rewrite Forall_fmap in Hlt'. eapply Forall_impl; [exact Hlt'|]. cbn. intros q' Hq'. lia.
  - destruct (IH Hs Hn) as [(q' & Hq' & Hp & E1)|[(E0 & _)|(l1 & q' & l2 & E1 & E2 & Hf1 & Hf2)]].
    + left. exists q'. split_and!; [by right|done|done].
    + done.
    + right; right. exists (q :: l1), q', l2. rewrite E1. split_and!; [done| | |done].
      * by rewrite <- E1.
      * cbn. constructor; [lia|done].
Qed.

Lemma insert_queue_after_spec q new l1 l2 : NoDup (node <$> (l1 ++ q :: l2)) →
  insert_queue_after (node q) new (l1 ++ q :: l2) = l1 ++ q :: new :: l2.
Proof using.
  induction l1 as [|q0 l1 IH]; cbn; intros [Hn Hnd]%NoDup_cons; [by rewrite Z.eqb_refl|].
  destruct (Z.eqb_spec (node q0) (node q)) as [Heq|]; [|by rewrite IH].
  destruct Hn. rewrite fmap_app, fmap_cons, Heq. apply elem_of_app. right. by left.
Qed.

(** What the operations on queues leave alone. *)
Record queue_frame s s' : Prop := {
  QF_running : s_runningthread s' = s_runningthread s;
  QF_waiters : s_mutexwaitthreads s' = s_mutexwaitthreads s;
  QF_threads : threads s' = threads s;
  QF_mutexes : mutexes s' = mutexes s;
  QF_if : eflags_if s' = eflags_if s;
}.

(** Either the heap is known to have memory, or threads may get lost. *)
Context (HL : L ∨ HeapSucceeds H).

Lemma alloc_queue_ok E s after prio l1 l2 : Inv E s → s_queues s = l1 ++ l2 → -128 ≤ prio ≤ 127 →
  Forall (λ q, queue_priority q < prio) l1 → Forall (λ q, prio < queue_priority q) l2 →
  (∀ q, (if after =? 0 then q :: s_queues s else insert_queue_after after q (s_queues s)) = l1 ++ q :: l2) →
  ∃ r s', alloc_queue after prio s = Ok (r, s') ∧ Inv E s' ∧ queue_frame s s' ∧
    ((r = 0 ∧ L) ∨ ∃ q, q ∈ s_queues s' ∧ node q = r ∧ r ≠ 0 ∧ queue_priority q = prio).
Proof using HL.
  intros HI Hqs Hprio Hl1 Hl2 Hins. unfold alloc_queue, on_heap, mbind, M_bind.
  destruct (heap_alloc_law SIZEOF_SCHED_QUEUE HEAP_FLAG_ZEROMEMORY (heap s)) as (p & h' & Ea & Hu & Hp).
  rewrite Ea. cbn. destruct (Z.eqb_spec p 0) as [->|Hp0].
  - exists 0, (with_heap h' s). split_and!; [done|by apply Inv_with_heap|done|]. left. split; [done|].
    destruct HL as [|Hsucc]; [done|]. destruct (Hsucc SIZEOF_SCHED_QUEUE HEAP_FLAG_ZEROMEMORY (heap s)) as (p & h2 & E2 & Hne).
    congruence.
  - destruct Hp as [|[Hp Hp']]; [done|]. unfold modify. cbn. rewrite Hins.
    eexists _, _. split_and!; [done|by apply Inv_insert_queue|done|]. right. exists (RunQueue p prio 0 []).
    split_and!; [|done..]. cbn. apply elem_of_app. right. by left.
Qed.

Lemma get_queue_ok E s prio : Inv E s → -128 ≤ prio ≤ 127 →
  ∃ r s', get_queue prio s = Ok (r, s') ∧ Inv E s' ∧ queue_frame s s' ∧
    ((r = 0 ∧ L) ∨ ∃ q, q ∈ s_queues s' ∧ node q = r ∧ r ≠ 0 ∧ queue_priority q = prio).
Proof using HL.
  intros HI Hprio. unfold get_queue, get, mbind, M_bind.
  destruct (match s_queues s with q :: _ => prio <? queue_priority q | [] => false end) eqn:Ef.
  - apply (alloc_queue_ok E s 0 prio [] (s_queues s)); try done.
    pose proof (I_sorted _ _ HI) as Hs. destruct (s_queues s) as [|q qs]; [done|].
    apply Z.ltb_lt in Ef. rewrite fmap_cons in Hs. apply StronglySorted_cons in Hs as [Hlt _]. rewrite Forall_fmap in Hlt.
    constructor; [done|]. eapply Forall_impl; [exact Hlt|]. cbn. lia.
  - destruct (search_queue_spec prio (s_queues s) (I_sorted _ _ HI)) as [(q & Hq & Hp & ->)|[(E0 & ->)|(l1 & q & l2 & Eqs & -> & Hl1 & Hl2)]].
    + destruct (s_queues s); [done|]. by apply Z.ltb_ge in Ef.
    + assert (node q ≠ 0) as Hn. { pose proof (Inv_node0 _ _ HI) as Hf. rewrite Forall_forall in Hf. by apply Hf. }
      destruct (Z.eqb_spec (node q) 0); [done|]. exists (node q), s. split_and!; [done..|]. right. by exists q.
    + apply (alloc_queue_ok E s 0 prio [] []); try done. by rewrite E0.
    + assert (node q ≠ 0) as Hn.
      { pose proof (Inv_node0 _ _ HI) as Hf. rewrite Forall_forall in Hf. apply Hf. rewrite Eqs. apply elem_of_app. right. by left. }
      apply (alloc_queue_ok E s (node q) prio (l1 ++ [q]) l2); try done.
      * by rewrite <- app_assoc.
      * intros new. destruct (Z.eqb_spec (node q) 0); [done|]. rewrite Eqs, insert_queue_after_spec by (rewrite <- Eqs; apply HI).
        by rewrite <- app_assoc.
Qed.

(** Queueing a thread. *)
Lemma sched_queue_ok E s t th : Inv (t :: E) s → threads s !! t = Some th →
  (t = s_runningthread s ∨ ready_context (saved th)) →
  ∃ ret s', sched_queue t s = Ok (ret, s') ∧ queue_frame s s' ∧
    ((ret = 0 ∧ Inv E s' ∧ t ∈ ready (s_queues s')) ∨ (ret = - ENOMEM ∧ L ∧ Inv (t :: E) s')).
Proof using HL.
  intros HI Hth Hc. unfold sched_queue, irq_disable, read_thread, mbind, M_bind. cbn. rewrite Hth. cbn.
  assert (Inv (t :: E) (with_if false s)) as HI0 by (by apply Inv_with_if).
  destruct (get_queue_ok (t :: E) _ (priority th) HI0) as (r & s1 & Eg & HI1 & HF & Hr).
  { by eapply I_priorities. }
  rewrite Eg. destruct Hr as [(-> & Hlost)|(q & Hq & <- & Hr0 & Hp)].
  - cbn. eexists _, _. split; [done|]. split.
    + destruct HF. split; try done. cbn. rewrite QF_if0. apply irq_section_restores.
    + right. split_and!; [done..|by apply Inv_with_if].
  - destruct (Z.eqb_spec (node q) 0); [done|]. cbn. eexists _, _. split; [done|]. split.
    + destruct HF. split; try done. cbn. rewrite QF_if0. apply irq_section_restores.
    + left. split; [done|].
      assert (Inv E (with_queues (update_queue (node q) (λ q, set_queue_threads (t :: queue_threads q) q) (s_queues s1)) s1)) as HI2.
      { apply (Inv_queue_threads (t :: E) E s1 (node q) q _ (t :: queue_threads q)); try done.
        - cbn. by rewrite Permutation_middle.
        - intros t' th' [->|Ht']%elem_of_cons Hth'; [|by eapply I_ready].
          rewrite (QF_threads _ _ HF) in Hth'. cbn in Hth'. assert (th' = th) as -> by congruence.
          by rewrite (QF_running _ _ HF). }
      split; [by apply Inv_with_if|]. cbn. apply elem_of_ready.
      exists (set_queue_threads (t :: queue_threads q) q). split; [|by left].
      unfold update_queue. apply list_elem_of_fmap. exists q. by rewrite Z.eqb_refl.
Qed.

(** ** Switching threads *)

Lemma Inv_Permutation E E' s : E ≡ₚ E' → Inv E s → Inv E' s.
Proof using.
  intros HE HI. destruct HI. split; try done.
  - by rewrite <- HE.
  - intros t. rewrite <- HE. apply I_alive0.
  - intros t. rewrite <- HE. apply I_joined0.
  - intros t th. rewrite <- HE. apply I_accounted0.
Qed.

Lemma Inv_drop E s t : L → Inv (t :: E) s → Inv E s.
Proof using.
  intros Hlost HI. destruct HI. split; try done.
  - cbn in I_places0. by apply NoDup_cons in I_places0 as [_ ?].
  - intros t' Ht'. apply I_alive0. by right.
  - intros t' Ht'. apply I_joined0. by right.
  - intros. by left.
Qed.

Lemma Inv_with_running E s r : Inv E s →
  (∀ th, threads s !! s_runningthread s = Some th → s_runningthread s ∈ ready (s_queues s) → ready_context (saved th)) →
  Inv E (with_running r s).
Proof using.
  intros HI Hc. destruct HI. split; cbn; try done.
  intros q t th Hq Ht Hth. destruct (I_ready0 q t th Hq Ht Hth) as [Hp [->|Hr]]; split; [done| |done|by right].
  right. apply Hc; [done|]. apply elem_of_ready. by exists q.
Qed.

(** The running thread starts to wait for a mutex, and [r] runs. *)
Lemma Inv_wait s r th m loc prev prev' : Inv [r; s_runningthread s] s → threads s !! s_runningthread s = Some th →
  is_Some (mutexes s !! m) →
  Inv [r] (with_running r (with_waiters (s_runningthread s :: s_mutexwaitthreads s)
    (with_threads (<[s_runningthread s :=
       Thread (arch_thread th) (In_mutex_lock m prev prev') m loc (priority th) (shutdown th)]> (threads s)) s))).
Proof using HL.
  intros HI Hth Hm. set (run := s_runningthread s) in *.
  assert ([r; run] ++ s_mutexwaitthreads s ++ ready (s_queues s) ≡ₚ
    [r] ++ (run :: s_mutexwaitthreads s) ++ ready (s_queues s)) as Hperm by done.
  assert (run ∉ ready (s_queues s) ∧ run ∉ s_mutexwaitthreads s) as [Hr Hw].
  { destruct (I_nodup_E _ _ run HI); [right; by left|done]. }
  destruct HI. split; cbn -[app]; try done.
  - intros t. rewrite <- Hperm. intros Ht. destruct (decide (t = run)) as [->|]; [rewrite lookup_insert_eq; by eexists|].
    rewrite lookup_insert_ne by done. by apply I_alive0.
  - intros q t th' Hq Ht. rewrite lookup_insert_Some. intros [[<- _]|[Hne Hth']].
    { destruct Hr. apply elem_of_ready. by exists q. }
    destruct (I_ready0 q t th' Hq Ht Hth') as [Hp [->|]]; [done|split; [done|by right]].
  - intros t th' Ht. rewrite lookup_insert_Some. intros [[<- <-]|[Hne Hth']].
    + split; [done|]. by exists prev, prev'.
    + apply elem_of_cons in Ht as [->|Ht]; [done|]. by eapply I_waiting0.
  - intros t th'. rewrite lookup_insert_Some, elem_of_cons. intros [[<- _]|[Hne Hth']] Hn; [tauto|].
    apply I_others0 with t; tauto.
  - intros t th'. rewrite lookup_insert_Some. intros [[<- <-]|[Hne Hth']]; [by apply (I_priorities0 run th)|by eapply I_priorities0].
  - intros t th'. rewrite lookup_insert_Some, <- Hperm. intros [[<- <-]|[Hne Hth']] Hn; [|by eapply I_accounted0].
    destruct Hn. right. by left.
  - assert (arch_thread <$> <[run:=Thread (arch_thread th) (In_mutex_lock m prev prev') m loc (priority th) (shutdown th)]> (threads s)
      = arch_thread <$> threads s) as ->; [|done].
    rewrite fmap_insert. apply insert_id. by rewrite lookup_fmap, Hth.
Qed.

Lemma thread_switch_ok old c n s th nth : threads s !! old = Some th → threads s !! n = Some nth → n ≠ old →
  (∀ m, resume_mutex (saved nth) = Some m → is_locked s m = true) →
  ∃ b, thread_switch old c n s = Ok (tt, with_if b (with_threads (<[old := set_saved c th]> (threads s)) s)).
Proof using.
  intros Hth Hn Hne Hm. unfold thread_switch, write_thread, read_thread, mbind, M_bind. cbn. rewrite Hth. cbn.
  rewrite lookup_insert_ne by done. rewrite Hn.
  destruct (saved nth) as [|prev|m prev prev']; cbn; [by eexists..|].
  specialize (Hm m eq_refl). unfold is_locked in Hm. unfold read_mutex, mbind, M_bind. cbn.
  destruct (mutexes s !! m) as [mx|] eqn:Em; [|done]. unfold massert. rewrite Hm. cbn. by eexists.
Qed.

(** What a call that may switch threads does to the mutexes: it locks that of
    the thread switched to, if it was waiting for one. *)
Definition switches s s' : Prop :=
  (s_runningthread s' = s_runningthread s ∧ ∀ m, is_locked s' m = is_locked s m) ∨
  (s_runningthread s' ≠ s_runningthread s ∧ ∃ th, threads s' !! s_runningthread s' = Some th ∧
    (∀ m, is_locked s' m = (is_locked s m || bool_decide (resume_mutex (saved th) = Some m))) ∧
    (∀ m, resume_mutex (saved th) = Some m → is_locked s m = false)).

Definition Good s : Prop := Inv [s_runningthread s] s.

Lemma Good_running s : Good s → ∃ th, threads s !! s_runningthread s = Some th ∧ waitingmutex th = 0 ∧
  s_runningthread s ≠ 0 ∧ s_runningthread s ∉ s_mutexwaitthreads s ∧ s_runningthread s ∉ ready (s_queues s).
Proof using.
  intros HI. destruct (I_alive _ _ HI (s_runningthread s)) as [th Hth]; [by left|].
  destruct (I_nodup_E _ _ (s_runningthread s) HI) as [Hw Hr]; [by left|].
  exists th. split_and!; [done|by eapply I_others|by eapply Inv_current_nonnull|done|done].
Qed.

(** The thread picked is not the running one. *)
Lemma Inv_two_ne r t s : Inv [r; t] s → r ≠ t.
Proof using.
  intros HI ->. pose proof (I_places _ _ HI) as Hnd. cbn in Hnd. apply NoDup_cons in Hnd as [Hn _].
  apply Hn. by left.
Qed.

Lemma sched_schedule_ok s : Good s → ∃ s', sched_schedule s = Ok (tt, s') ∧ Good s' ∧ switches s s'.
Proof using HL.
  intros HG. destruct (Good_running s HG) as (th & Hth & Hw & H0 & Hnw & Hnr).
  unfold sched_schedule, irq_disable, get, mbind, M_bind. cbn.
  destruct (pick_next_task_ok [s_runningthread s] (with_if false s)) as (r & s1 & E1 & Hp);
    [by apply Inv_with_if|by left|]. cbn in E1. rewrite E1.
  destruct Hp as [(-> & HI1 & HF)|(Hr0 & HI1 & nth & Hn & Hnw0 & Hns & HF)].
  { cbn. eexists. split; [done|].
    assert (s_runningthread s1 = s_runningthread s) as Hrun by apply HF. split.
    - unfold Good. cbn. rewrite Hrun. by apply Inv_with_if.
    - left. split; [done|]. intros m. destruct HF. unfold is_locked in *. cbn in *. rewrite F_locked0.
      by rewrite bool_decide_eq_false_2, orb_false_r. }
  destruct (Z.eqb_spec r 0) as [|_]; [done|].
  assert (s_runningthread s1 = s_runningthread s) as Hrun by apply HF.
  assert (threads s1 !! s_runningthread s = Some th) as Hth1 by (rewrite (F_threads _ _ _ _ HF); [done|by left]).
  pose proof (Inv_two_ne _ _ _ HI1) as Hne.
  rewrite Hrun. unfold massert. destruct (Z.eqb_spec (s_runningthread s) 0) as [|_]; [done|]. cbn [negb].
  destruct (sched_queue_ok [r] s1 (s_runningthread s) th) as (ret & s2 & E2 & HQ & Hq).
  { eapply Inv_Permutation; [|exact HI1]. apply Permutation_swap. }
  { done. } { by left. }
  rewrite E2. destruct (Z.eqb_spec r (s_runningthread s)) as [|_]; [done|]. cbn [negb].
  destruct (thread_switch_ok (s_runningthread s) (In_schedule (arch_irq_disable (eflags_if s)).1) r (with_running r s2) th nth)
    as [b Eb].
  { cbn. by rewrite (QF_threads _ _ HQ). } { cbn. by rewrite (QF_threads _ _ HQ). } { done. }
  { intros m Hm. unfold is_locked. cbn. rewrite (QF_mutexes _ _ HQ). fold (is_locked s1 m).
    rewrite (F_locked _ _ _ _ HF), bool_decide_eq_true_2 by done. apply orb_true_r. }
  cbn in Eb. rewrite Eb. eexists. split; [done|].
  set (th' := set_saved (In_schedule (arch_irq_disable (eflags_if s)).1) th).
  assert (Inv [r] (with_threads (<[s_runningthread s := th']> (threads s2)) s2)) as HI3.
  { assert (threads s2 !! s_runningthread s = Some th) as Hth2 by (by rewrite (QF_threads _ _ HQ)).
    destruct Hq as [(_ & HI2 & Hin)|(_ & Hlost & HI2)].
    - apply (Inv_write_thread _ _ _ th); try done.
      + left. apply elem_of_app. right. apply elem_of_app. by right.
      + by apply (I_priorities _ _ HI2 (s_runningthread s) th).
      + intros Hin'. exfalso. pose proof (I_places _ _ HI2) as Hnd. apply NoDup_app in Hnd as (_ & _ & Hnd).
        apply NoDup_app in Hnd as (_ & Hd & _). by apply (Hd _ Hin').
      + intros q Hq Ht. split; [by eapply (I_ready _ _ HI2 q _ th)|by right].
    - apply (Inv_drop _ _ (s_runningthread s) Hlost). apply (Inv_write_thread _ _ _ th); try done.
      + left. by left.
      + by apply (I_priorities _ _ HI2 (s_runningthread s) th).
      + intros Hin'. exfalso. by destruct (I_nodup_E _ _ (s_runningthread s) HI2) as [? _]; [by left|].
      + intros q Hq Ht. split; [by eapply (I_ready _ _ HI2 q _ th)|by right]. }
  split.
  - assert (Inv [r] (with_running r (with_threads (<[s_runningthread s := th']> (threads s2)) s2))) as HI4; [|exact (Inv_with_if _ _ b HI4)].
    apply Inv_with_running; [done|].
    cbn. rewrite (QF_running _ _ HQ), Hrun, lookup_insert_eq. by intros th2 [= <-] _.
  - right. cbn. split; [done|]. exists nth. split_and!.
    + by rewrite lookup_insert_ne, (QF_threads _ _ HQ).
    + intros m. unfold is_locked. cbn. rewrite (QF_mutexes _ _ HQ). apply (F_locked _ _ _ _ HF m).
    + intros m Hm. apply (F_new _ _ _ _ HF m Hm).
Qed.

Lemma sched_wait_mutex_ok s m loc prev : Good s → is_locked s m = true →
  (∃ s', sched_wait_mutex m loc prev s = Ok (tt, s') ∧ Good s' ∧ switches s s' ∧
     s_runningthread s' ≠ s_runningthread s) ∨
  sched_wait_mutex m loc prev s = Fault Hang.
Proof using HL.
  intros HG Hlk. destruct (Good_running s HG) as (th & Hth & Hw & H0 & Hnw & Hnr).
  unfold is_locked in Hlk. destruct (mutexes s !! m) as [mx|] eqn:Em; [|done].
  remember (sched_wait_mutex m loc prev s) as X eqn:EX. revert EX.
  unfold sched_wait_mutex, read_mutex at 1, massert, irq_disable, get, mbind, M_bind. rewrite Em, Hlk. cbn.
  unfold write_thread at 1, read_thread at 1, mbind, M_bind. cbn. rewrite Hth. cbn.
  set (s0 := with_threads _ _).
  assert (Inv [s_runningthread s] s0) as HI0.
  { apply (Inv_write_thread _ (with_if false s) (s_runningthread s) th); try done; [by apply Inv_with_if|by right|by apply (I_priorities _ _ HG (s_runningthread s) th)|].
    intros q Hq Ht. destruct Hnr. apply elem_of_ready. by exists q. }
  destruct (pick_next_task_ok [s_runningthread s] s0) as (r & s1 & -> & Hp); [done|by left|].
  destruct Hp as [(-> & HI1 & HF)|(Hr0 & HI1 & nth & Hn & Hnw0 & Hns & HF)]; [intros EX; by right|].
  destruct (Z.eqb_spec r 0) as [|_]; [done|].
  assert (s_runningthread s1 = s_runningthread s) as Hrun by apply HF.
  assert (threads s1 !! s_runningthread s = Some (set_desired_locksource loc th)) as Hth1.
  { rewrite (F_threads _ _ _ _ HF) by (by left). cbn. by rewrite lookup_insert_eq. }
  pose proof (Inv_two_ne _ _ _ HI1) as Hne. rewrite Hrun.
  destruct (Z.eqb_spec (s_runningthread s) 0) as [|_]; [done|]. cbn [negb].
  unfold read_thread at 1. rewrite Hth1. cbn [waitingmutex set_desired_locksource]. rewrite Hw. cbn [Z.eqb].
  unfold write_thread at 1, read_thread at 1, mbind, M_bind. rewrite Hth1. cbn.
  destruct (Z.eqb_spec r (s_runningthread s)) as [|_]; [done|]. cbn [negb].
  set (s2 := with_running r _).
  set (c := In_mutex_lock m _ prev).
  destruct (thread_switch_ok (s_runningthread s) c r s2 (set_waitingmutex m (set_desired_locksource loc th)) nth) as [b Eb].
  { cbn. by rewrite lookup_insert_eq. } { cbn. by rewrite lookup_insert_ne. } { done. }
  { intros m' Hm. change (is_locked s1 m' = true).
    rewrite (F_locked _ _ _ _ HF), bool_decide_eq_true_2 by done. apply orb_true_r. }
  rewrite Eb. intros ->. left. eexists. split; [done|]. split_and!.
  - assert (is_Some (mutexes s1 !! m)) as Hm1. { apply (F_mutexes _ _ _ _ HF). cbn. by rewrite Em. }
    rewrite <- Hrun in HI1, Hth1.
    pose proof (Inv_wait s1 r _ m loc (arch_irq_disable (eflags_if s)).1 prev HI1 Hth1 Hm1) as HI3.
    rewrite Hrun in HI3. unfold Good. cbn. rewrite insert_insert_eq. exact (Inv_with_if _ _ b HI3).
  - right. cbn. split; [done|]. exists nth. split_and!.
    + by rewrite !lookup_insert_ne.
    + intros m'. apply (F_locked _ _ _ _ HF m').
    + intros m' Hm'. apply (F_new _ _ _ _ HF m' Hm').
  - done.
Qed.

Lemma is_locked_write s m mx m' : is_locked (with_mutexes (<[m := mx]> (mutexes s)) s) m' =
  if decide (m' = m) then locked mx else is_locked s m'.
Proof using HL.
  unfold is_locked. cbn. case_decide as Hm; [by rewrite Hm, lookup_insert_eq|by rewrite lookup_insert_ne].
Qed.

(** Locking: at once, or by switching to another thread; without another
    thread, the kernel hangs. *)
Lemma mutex_lock_ok s m loc : Good s → is_Some (mutexes s !! m) →
  (∃ s', mutex_lock m loc s = Ok (tt, s') ∧ Good s' ∧
     ((is_locked s m = false ∧ s_runningthread s' = s_runningthread s ∧
         ∀ m', is_locked s' m' = if decide (m' = m) then true else is_locked s m') ∨
      (is_locked s m = true ∧ s_runningthread s' ≠ s_runningthread s ∧ switches s s'))) ∨
  (is_locked s m = true ∧ mutex_lock m loc s = Fault Hang).
Proof using HL.
  intros HG [mx Em]. assert (m ≠ 0) as Hm0. { intros ->. by rewrite (I_mutex0 _ _ HG) in Em. }
  remember (mutex_lock m loc s) as X eqn:EX. revert EX.
  unfold mutex_lock, massert, irq_disable, mutex_try_lock, read_mutex, mbind, M_bind.
  destruct (Z.eqb_spec m 0) as [|_]; [done|]. cbn. rewrite Em.
  destruct (locked mx) eqn:Hlk; cbn.
  - assert (is_locked s m = true) as Hl by (unfold is_locked; by rewrite Em).
    destruct (sched_wait_mutex_ok (with_if false s) m loc (arch_irq_are_enabled (eflags_if s))) as [(s' & -> & HG' & Hsw & Hr)|Hf].
    + exact (Inv_with_if _ _ false HG).
    + exact Hl.
    + intros ->. left. exists s'. split_and!; [done..|]. right. by split_and!.
    + intros ->. right. by split.
  - assert (is_locked s m = false) as Hl by (unfold is_locked; by rewrite Em).
    unfold write_mutex, read_mutex, mbind, M_bind. cbn. rewrite Em. cbn. intros ->. left. eexists. split; [done|]. split.
    + apply Inv_with_if. exact (Inv_write_mutex _ _ m (Mutex loc true) (Inv_with_if _ _ false HG) Hm0).
    + left. split_and!; [done..|]. intros m'. exact (is_locked_write s m (Mutex loc true) m').
Qed.

Lemma mutex_try_lock_ok s m loc : Good s → is_Some (mutexes s !! m) →
  ∃ s', mutex_try_lock m loc s = Ok (negb (is_locked s m), s') ∧ Good s' ∧
    s_runningthread s' = s_runningthread s ∧
    ∀ m', is_locked s' m' = if decide (m' = m) then true else is_locked s m'.
Proof using HL.
  intros HG [mx Em]. assert (m ≠ 0) as Hm0. { intros ->. by rewrite (I_mutex0 _ _ HG) in Em. }
  unfold mutex_try_lock, read_mutex, mbind, M_bind, is_locked at 1. rewrite Em.
  destruct (locked mx) eqn:Hlk.
  - exists s. split_and!; [done..|]. intros m'. case_decide as Hm; [|done]. subst. unfold is_locked. by rewrite Em.
  - unfold write_mutex, read_mutex, mbind, M_bind. cbn. rewrite Em. cbn. eexists. split; [done|].
    split_and!; [by apply Inv_write_mutex|done|]. intros m'. exact (is_locked_write s m (Mutex loc true) m').
Qed.

Lemma mutex_unlock_ok s m : Good s → is_Some (mutexes s !! m) →
  ∃ s', mutex_unlock m s = Ok (tt, s') ∧ Good s' ∧ s_runningthread s' = s_runningthread s ∧
    ∀ m', is_locked s' m' = if decide (m' = m) then false else is_locked s m'.
Proof using HL.
  intros HG [mx Em]. assert (m ≠ 0) as Hm0. { intros ->. by rewrite (I_mutex0 _ _ HG) in Em. }
  unfold mutex_unlock, write_mutex, read_mutex, mbind, M_bind. rewrite Em. cbn. eexists. split; [done|].
  split_and!; [by apply Inv_write_mutex|done|]. intros m'. exact (is_locked_write s m _ m').
Qed.

Lemma mutex_init_ok s m : Good s → m ≠ 0 →
  ∃ s', mutex_init m s = Ok (tt, s') ∧ Good s' ∧ s_runningthread s' = s_runningthread s ∧
    ∀ m', is_locked s' m' = if decide (m' = m) then false else is_locked s m'.
Proof using HL.
  intros HG Hm0. eexists. split; [done|].
  split_and!; [by apply Inv_write_mutex|done|]. intros m'. exact (is_locked_write s m _ m').
Qed.

(** Creating a thread. *)
Lemma heap_ok_insert nodes archs h h' t b : heap_ok nodes archs h →
  (∀ a, in_use h a → in_use h' a) → t ≠ b → in_use h' t → in_use h' b → ¬ in_use h t → ¬ in_use h b →
  heap_ok nodes (<[t := b]> archs) h'.
Proof using HL.
  intros Hok Hu Htb Ht Hb Hnt Hnb. destruct (heap_ok_mono _ _ _ _ Hok Hu) as [H1 H2 H3].
  assert (∀ a, in_use h a → t ≠ a ∧ b ≠ a) as Hne by (intros a Ha; split; congruence).
  split.
  - intros a Ha. destruct (H1 a Ha) as (Ha1 & Ha2 & Ha3).
    destruct (Hne a) as [??]; [by apply (heap_nodes _ _ _ Hok a)|].
    split_and!; [done|by rewrite lookup_insert_ne|].
    intros t' b'. rewrite lookup_insert_Some. intros [[<- <-]|[_ Hb']]; [done|by eapply Ha3].
  - intros t' b'. rewrite lookup_insert_Some. intros [[<- <-]|[Htt Hb']].
    + split_and!; [done..|]. rewrite lookup_insert_ne by done. destruct (archs !! b) as [b'|] eqn:Eb; [|done].
      by destruct (heap_threads _ _ _ Hok _ _ Eb) as [? _].
    + destruct (H2 _ _ Hb') as (?&?&?). split_and!; [done..|].
      rewrite lookup_insert_ne; [done|]. apply (Hne b'). by apply (heap_threads _ _ _ Hok _ _ Hb').
  - intros t' t'' b'. rewrite !lookup_insert_Some. intros [[<- <-]|[_ E1]] [[<- E2]|[_ E2]]; [done| | |by eapply H3].
    + destruct (heap_threads _ _ _ Hok _ _ E2) as (_ & ? & _). done.
    + subst. by destruct (heap_threads _ _ _ Hok _ _ E1) as (_ & ? & _).
Qed.

Lemma Inv_new_thread E s h' t b : Inv E s → (∀ t, J t → is_Some (threads s !! t)) → (∀ a, in_use (heap s) a → in_use h' a) → t ≠ b →
  in_use h' t → in_use h' b → ¬ in_use (heap s) t → ¬ in_use (heap s) b →
  Inv E (with_threads (<[t := Thread b Fresh 0 (SourceLocation 0 0 0) 0 false]> (threads s)) (with_heap h' s)).
Proof using HL.
  intros HI HJ Hu Htb Ht Hb Hnt Hnb.
  assert (threads s !! t = None) as Hnew.
  { destruct (threads s !! t) as [th|] eqn:Et; [|done].
    destruct (heap_threads _ _ _ (I_heap _ _ HI) t (arch_thread th)) as [? _]; [by rewrite lookup_fmap, Et|done]. }
  assert (∀ t', is_Some (threads s !! t') → t' ≠ t) as Hne. { intros t' [? ?] ->. congruence. }
  destruct HI. split; cbn; try done.
  - intros t' Ht'. rewrite lookup_insert_ne by (symmetry; by apply Hne, I_alive0). by apply I_alive0.
  - intros q t' th Hq Ht'. rewrite lookup_insert_Some. intros [[<- _]|[_ ?]]; [|by eapply I_ready0].
    destruct (Hne t); [|done]. apply I_alive0. rewrite !elem_of_app, elem_of_ready. right. right. by exists q.
  - intros t' th Ht'. rewrite lookup_insert_Some. intros [[<- _]|[_ ?]]; [|by eapply I_waiting0].
    destruct (Hne t); [|done]. apply I_alive0. rewrite !elem_of_app. tauto.
  - intros t' th. rewrite lookup_insert_Some. intros [[<- <-]|[_ ?]]; [done|by apply I_others0].
  - intros t' th. rewrite lookup_insert_Some. intros [[<- <-]|[_ ?]]; [done|by eapply I_priorities0].
  - intros t' th. rewrite lookup_insert_Some. intros [[<- <-]|[_ ?]] Hn; [|by eapply I_accounted0].
    right. split; [done|]. by intros ?%HJ%Hne.
  - rewrite fmap_insert. by eapply heap_ok_insert.
Qed.

Lemma thread_create_ok E s size : Inv E s → (∀ t, J t → is_Some (threads s !! t)) → ∃ t s', thread_create size s = Ok (t, s') ∧ Inv E s' ∧
  s_runningthread s' = s_runningthread s ∧ mutexes s' = mutexes s ∧
  s_mutexwaitthreads s' = s_mutexwaitthreads s ∧ s_queues s' = s_queues s ∧
  (t = 0 ∨ threads s !! t = None ∧ ∃ th, threads s' !! t = Some th ∧ saved th = Fresh).
Proof using HL.
  intros HI HJ. unfold thread_create, on_heap, mbind, M_bind.
  destruct (heap_alloc_law SIZEOF_THREAD HEAP_FLAG_ZEROMEMORY (heap s)) as (t & h1 & Ea & Hu1 & Ht). rewrite Ea. cbn.
  destruct (Z.eqb_spec t 0) as [->|Ht0].
  { eexists _, _. split_and!; [done|by apply Inv_with_heap|done..|by left]. }
  destruct Ht as [|[Hnt Ht]]; [done|].
  destruct (heap_alloc_law size 0 h1) as (b & h2 & Eb & Hu2 & Hb). cbn [heap with_heap]. rewrite Eb. cbn.
  destruct (Z.eqb_spec b 0) as [->|Hb0].
  - destruct (heap_free_law 0 h2) as (h3 & E3 & Hu3); [by left|]. cbn [heap with_heap]. rewrite E3. cbn.
    destruct (heap_free_law t h3) as (h4 & E4 & Hu4); [right; apply Hu3; auto|]. cbn [heap with_heap]. rewrite E4. cbn.
    eexists _, _. split_and!; [done| |done..|by left].
    apply (Inv_with_heap _ s); [done|]. intros a Ha. apply Hu4; [congruence|]. apply Hu3; [|auto].
    intros ->. by apply heap_null in Ha.
  - destruct Hb as [|[Hnb Hb]]; [done|]. eexists _, _. split; [done|]. split_and!; [|done..|right].
    + apply (Inv_new_thread _ s); try done; auto; congruence.
    + split; [|eexists; cbn; by rewrite lookup_insert_eq].
      destruct (threads s !! t) as [th|] eqn:Et; [|done].
      destruct (heap_threads _ _ _ (I_heap _ _ HI) t (arch_thread th)) as [? _]; [by rewrite lookup_fmap, Et|done].
Qed.

(** ** Threads outside of the scheduler *)

Lemma Inv_remove E s t : Inv (t :: E) s → (∀ th, threads s !! t = Some th → L ∨ saved th = Fresh ∧ ¬ J t) → Inv E s.
Proof using.
  intros HI Ht. destruct HI. split; try done.
  - cbn in I_places0. by apply NoDup_cons in I_places0 as [_ ?].
  - intros t' Ht'. apply I_alive0. by right.
  - intros t' Ht'. apply I_joined0. by right.
  - intros t' th Hth Hn. destruct (decide (t' = t)) as [->|Hne]; [by apply Ht|].
    eapply I_accounted0; [done|]. by intros [?|?]%elem_of_cons.
Qed.

Lemma places_not E s t : t ∉ E ++ s_mutexwaitthreads s ++ ready (s_queues s) →
  t ∉ E ∧ t ∉ s_mutexwaitthreads s ∧ t ∉ ready (s_queues s).
Proof using. rewrite !elem_of_app. clear. tauto. Qed.

Lemma set_priority_ok s t p th : Good s → threads s !! t = Some th → -128 ≤ p ≤ 127 →
  t ∉ [s_runningthread s] ++ s_mutexwaitthreads s ++ ready (s_queues s) →
  Good (with_threads (<[t := set_priority p th]> (threads s)) s).
Proof using.
  intros HG Hth Hp Ht%places_not. destruct Ht as (_ & Hw & Hr).
  apply (Inv_write_thread _ s t th); try done.
  - by right.
  - intros _. by eapply (I_others _ _ HG t th).
  - intros q Hq Ht. destruct Hr. apply elem_of_ready. by exists q.
Qed.

Lemma set_shutdown_ok s t th : Good s → threads s !! t = Some th →
  Good (with_threads (<[t := set_shutdown th]> (threads s)) s).
Proof using.
  intros HG Hth. apply (Inv_write_thread _ s t th); try done.
  - by right.
  - by apply (I_priorities _ _ HG t th).
  - intros Hw. by apply (I_waiting _ _ HG t th Hw Hth).
  - intros Hw. by eapply (I_others _ _ HG t th).
  - intros q Hq Ht. by eapply (I_ready _ _ HG q t th).
Qed.

End invariant.

(** ** Giving threads to the scheduler *)
Section joining.
Context {H : Type} `{!HeapOps H} `{!HeapLaws H} (L : Prop).
Implicit Types (s : sched H) (J : Z → Prop).

(** Which threads the scheduler was given matters as long as they exist. *)
Lemma Inv_joined J J' E s : Inv L J E s → (∀ t, is_Some (threads s !! t) → J t ↔ J' t) → Inv L J' E s.
Proof using.
  intros HI HJ. destruct HI. split; try done.
  - intros t Ht. apply HJ; auto.
  - intros t th Hth Hn. rewrite <- HJ by (by eexists). by apply I_accounted0.
Qed.

Definition joins (t : Z) J : Z → Prop := λ t', t' = t ∨ J t'.

Lemma Inv_add J E s t : Inv L J E s → is_Some (threads s !! t) →
  t ∉ E ++ s_mutexwaitthreads s ++ ready (s_queues s) → Inv L (joins t J) (t :: E) s.
Proof using.
  intros HI Hth Ht. destruct HI. split; try done.
  - cbn. by apply NoDup_cons.
  - intros t' [->|Ht']%elem_of_cons; [done|by apply I_alive0].
  - intros t' [->|Ht']%elem_of_cons; [by left|right; by apply I_joined0].
  - intros t' th Hth' Hn. rewrite <- app_comm_cons, elem_of_cons in Hn.
    destruct (I_accounted0 t' th Hth') as [|[??]]; [tauto|by left|right]. split; [done|].
    intros [|]; tauto.
Qed.

Context (HL : L ∨ HeapSucceeds H).

Lemma boot_ok size b h s : sched_init_boot_thread size (Sched [] 0 0 [] ∅ ∅ b h) = Ok (tt, s) →
  Good L (λ t, t = s_runningthread s) s ∧ mutexes s = ∅ ∧ is_Some (threads s !! s_runningthread s).
Proof using All.
  assert (Inv L (λ _, False) [] (Sched [] 0 0 [] ∅ ∅ b h)) as HI0.
  { split; cbn; try done; try (by left); try (intros; set_solver); [constructor..|].
    split; [set_solver|intros t b0; by rewrite fmap_empty, lookup_empty|intros t t' b0; by rewrite fmap_empty, lookup_empty]. }
  unfold sched_init_boot_thread, get, massert, mbind, M_bind. cbn.
  destruct (thread_create_ok L _ HL [] _ size HI0) as (t & s1 & -> & HI1 & Hrun & Hmx & Hws & Hqs & Ht); [done|]. cbn.
  destruct (Z.eqb_spec t 0) as [->|Ht0]; [done|]. cbn.
  destruct Ht as [|(_ & th & Hth & Hf)]; [done|].
  unfold write_thread, read_thread, mbind, M_bind. cbn. rewrite Hth. cbn. intros [= <-].
  split; [|split; [done|cbn; rewrite lookup_insert_eq; by eexists]].
  cbn in Hws, Hqs, Hmx, Hrun |- *.
  assert (Inv L (λ t', t' = t) [t] s1) as HI2.
  { apply (Inv_joined (joins t (λ _, False))); [|unfold joins; tauto].
    apply Inv_add; [done|by eexists|rewrite Hws, Hqs; by apply not_elem_of_nil]. }
  assert (Inv L (λ t', t' = t) [t] (with_threads (<[t := set_priority BOOT_THREAD_PRIORITY th]> (threads s1)) s1)) as HI3.
  { apply (Inv_write_thread _ _ _ s1 t th); try done.
    - by right.
    - intros Hw. rewrite Hws in Hw. by apply elem_of_nil in Hw.
    - intros _. by eapply (I_others _ _ _ _ HI1 t th); [|rewrite Hws; apply not_elem_of_nil].
    - intros q Hq. rewrite Hqs in Hq. by apply elem_of_nil in Hq. }
  apply (Inv_with_running _ _ _ _ t) in HI3; [exact HI3|].
  cbn. intros th' _ Hr. rewrite Hqs in Hr. by apply elem_of_nil in Hr.
Qed.
End joining.
