(* ===== verification/SchedSafety.v ===== *)
(** What the scheduler guarantees under every sequence of operations: safety,
    mutual exclusion, and what becomes of the threads. *)
From S2P Require Import Prelude Arch HeapIface Sched SchedInv.

Lemma singleton_filter (t : Z) hs : (length hs ≤ 1)%nat → t ∈ hs → filter (λ t', t' ≠ t) hs = [].
Proof.
  destruct hs as [|t' [|]]; intros Hl Ht; [done| |cbn in Hl; lia]. apply list_elem_of_singleton in Ht as ->.
  by rewrite filter_cons_False by tauto.
Qed.

Section safety.
Context {H : Type} `{!HeapOps H} `{!HeapLaws H}.
Implicit Types (s : sched H).

(** The operations other code calls, each made by the running thread or, the
    scheduling, by its timer interrupt. *)
Inductive op :=
  | Op_thread_create (size : Z)
  | Op_thread_delete (t : Z)
  | Op_set_priority (t p : Z)
  | Op_set_shutdown (t : Z)
  | Op_sched_queue (t : Z)
  | Op_sched_schedule
  | Op_mutex_init (m : Z)
  | Op_mutex_lock (m : Z) (loc : source_location)
  | Op_mutex_try_lock (m : Z) (loc : source_location)
  | Op_mutex_unlock (m : Z).

(** The result is the mutex the caller holds when the call returns to it. *)
Definition run (o : op) : M (sched H) (option Z) :=
  match o with
  | Op_thread_create size => _ ← thread_create size; mret None
  | Op_thread_delete t => _ ← thread_delete t; mret None
  | Op_set_priority t p => _ ← write_thread t (set_priority p); mret None
  | Op_set_shutdown t => _ ← write_thread t set_shutdown; mret None
  | Op_sched_queue t => _ ← sched_queue t; mret None
  | Op_sched_schedule => _ ← sched_schedule; mret None
  | Op_mutex_init m => _ ← mutex_init m; mret None
  | Op_mutex_lock m loc => _ ← mutex_lock m loc; mret (Some m)
  | Op_mutex_try_lock m loc => b ← mutex_try_lock m loc; mret (if b : bool then Some m else None)
  | Op_mutex_unlock m => _ ← mutex_unlock m; mret None
  end.

Definition places s : list Z := s_runningthread s :: s_mutexwaitthreads s ++ ready (s_queues s).

(** Memory; the threads that hold each mutex: those that acquired it and have
    not released it since; and the threads the scheduler was given to run, by
    [sched_init_boot_thread] and [sched_queue], and that have not been deleted
    since. *)
Record world := World { mem : sched H; holders : Z → list Z; joined : list Z }.

(** The thread that runs after an operation acquired a mutex if it called
    [mutex_lock] or [mutex_try_lock] and it returned to it, or if it was
    switched to inside of [mutex_lock]. *)
Definition acquired (r : option Z) s s' : option Z :=
  if s_runningthread s' =? s_runningthread s then r
  else match threads s' !! s_runningthread s' with Some th => resume_mutex (saved th) | None => None end.

Definition released (o : op) (t m : Z) (hs : list Z) : list Z :=
  match o with
  | Op_mutex_unlock m' => if decide (m = m') then filter (λ t', t' ≠ t) hs else hs
  | _ => hs
  end.

Definition joining (o : op) (ts : list Z) : list Z :=
  match o with Op_sched_queue t => t :: ts | _ => ts end.

Definition after (o : op) (r : option Z) (w : world) s' : world :=
  World s'
    (λ m,
      let hs := released o (s_runningthread (mem w)) m (holders w m) in
      if decide (acquired r (mem w) s' = Some m) then s_runningthread s' :: hs else hs)
    (filter (λ t, is_Some (threads s' !! t)) (joining o (joined w))).

(** The rules callers obey: threads are queued once, threads are only deleted
    and given a priority while the scheduler does not know them, and a mutex is
    unlocked by a thread that holds it and not reinitialised while it is
    locked. *)
Definition allowed (o : op) (w : world) : Prop :=
  let s := mem w in
  match o with
  | Op_thread_create _ | Op_sched_schedule => True
  | Op_thread_delete t => is_Some (threads s !! t) ∧ t ∉ places s
  | Op_set_priority t p => is_Some (threads s !! t) ∧ t ∉ places s ∧ -128 ≤ p ≤ 127
  | Op_set_shutdown t => is_Some (threads s !! t)
  | Op_sched_queue t => t ∉ places s ∧ ∃ th, threads s !! t = Some th ∧ saved th = Fresh
  | Op_mutex_init m => m ≠ 0 ∧ is_locked s m = false
  | Op_mutex_lock m _ | Op_mutex_try_lock m _ => is_Some (mutexes s !! m)
  | Op_mutex_unlock m => s_runningthread s ∈ holders w m
  end.

Inductive reachable : world → Prop :=
  | reachable_boot size b h s :
      sched_init_boot_thread size (Sched [] 0 0 [] ∅ ∅ b h) = Ok (tt, s) →
      reachable (World s (λ _, []) [s_runningthread s])
  | reachable_step o r w s' : reachable w → allowed o w → run o (mem w) = Ok (r, s') → reachable (after o r w s').

Definition exclusive w : Prop := ∀ m,
  (is_locked (mem w) m = true ↔ holders w m ≠ []) ∧ (length (holders w m) ≤ 1)%nat.

(** Running a sequence of operations, as far as they are allowed and return. *)
Definition allowedb (o : op) (w : world) : bool :=
  let s := mem w in
  match o with
  | Op_thread_create _ | Op_sched_schedule => true
  | Op_thread_delete t => bool_decide (is_Some (threads s !! t)) && bool_decide (t ∉ places s)
  | Op_set_priority t p =>
      bool_decide (is_Some (threads s !! t)) && bool_decide (t ∉ places s) && bool_decide (-128 ≤ p ≤ 127)
  | Op_set_shutdown t => bool_decide (is_Some (threads s !! t))
  | Op_sched_queue t => bool_decide (t ∉ places s) &&
      match threads s !! t with Some th => match saved th with Fresh => true | _ => false end | None => false end
  | Op_mutex_init m => bool_decide (m ≠ 0) && negb (is_locked s m)
  | Op_mutex_lock m _ | Op_mutex_try_lock m _ => bool_decide (is_Some (mutexes s !! m))
  | Op_mutex_unlock m => bool_decide (s_runningthread s ∈ holders w m)
  end.

Lemma allowedb_allowed o w : allowedb o w = true → allowed o w.
Proof using.
  destruct o; cbn; intros Ha; repeat match goal with
    | Hb : _ && _ = true |- _ => apply andb_true_iff in Hb as [? ?]
    | Hb : bool_decide _ = true |- _ => apply bool_decide_eq_true in Hb
    | Hb : negb _ = true |- _ => apply negb_true_iff in Hb
    end; auto.
  split; [done|]. destruct (threads (mem w) !! t) as [th|]; [|done].
  exists th. split; [done|]. by destruct (saved th).
Qed.

Fixpoint execute (os : list op) (w : world) : world :=
  match os with
  | [] => w
  | o :: os =>
      if allowedb o w then
        match run o (mem w) with
        | Ok (r, s') => execute os (after o r w s')
        | Fault _ => w
        end
      else w
  end.

Lemma reachable_execute os w : reachable w → reachable (execute os w).
Proof using.
  revert w. induction os as [|o os IH]; intros w Hw; [done|]. cbn.
  destruct (allowedb o w) eqn:Ha; [|done]. destruct (run o (mem w)) as [[r s']|] eqn:E; [|done].
  apply IH. eapply reachable_step; [done|by apply allowedb_allowed|done].
Qed.

Section lost.
Context (L : Prop) (HL : L ∨ HeapSucceeds H).

(** What an operation does to the state and the mutexes. *)
Definition effect (o : op) (w : world) (r : option Z) s' : Prop :=
  Good L (λ t, t ∈ joining o (joined w)) s' ∧
  (∀ m, acquired r (mem w) s' = Some m → is_locked (mem w) m = false) ∧
  (match o with Op_mutex_unlock _ => acquired r (mem w) s' = None | _ => True end) ∧
  (∀ m, is_locked s' m =
     match o with
     | Op_mutex_unlock m' => if decide (m = m') then false else is_locked (mem w) m
     | _ => is_locked (mem w) m || bool_decide (acquired r (mem w) s' = Some m)
     end).

Lemma acquired_same r s s' : s_runningthread s' = s_runningthread s → acquired r s s' = r.
Proof using. intros E. unfold acquired. by rewrite E, Z.eqb_refl. Qed.

(** An operation that neither switches threads nor touches the mutexes. *)
Lemma effect_plain o w s' : (match o with Op_mutex_unlock _ => False | _ => True end) →
  Good L (λ t, t ∈ joining o (joined w)) s' → s_runningthread s' = s_runningthread (mem w) → (∀ m, is_locked s' m = is_locked (mem w) m) →
  effect o w None s'.
Proof using.
  intros Ho HG Hr Hm. split; [done|]. rewrite acquired_same by done. split; [done|]. split; [by destruct o|].
  intros m. rewrite bool_decide_eq_false_2, orb_false_r by done. rewrite Hm. by destruct o.
Qed.

(** An operation by which the caller acquires a mutex. *)
Lemma effect_acquire o w m s' : (match o with Op_mutex_unlock _ => False | _ => True end) →
  Good L (λ t, t ∈ joining o (joined w)) s' → s_runningthread s' = s_runningthread (mem w) → is_locked (mem w) m = false →
  (∀ m', is_locked s' m' = if decide (m' = m) then true else is_locked (mem w) m') →
  effect o w (Some m) s'.
Proof using.
  intros Ho HG Hr Hl Hm. split; [done|]. rewrite acquired_same by done. split; [by intros m' [= <-]|]. split; [by destruct o|].
  intros m'. rewrite Hm. assert ((if decide (m' = m) then true else is_locked (mem w) m') =
    (is_locked (mem w) m' || bool_decide (Some m = Some m'))) as ->; [|by destruct o].
  case_decide as E; [by rewrite E, bool_decide_eq_true_2, orb_true_r|].
  by rewrite bool_decide_eq_false_2, orb_false_r by congruence.
Qed.

Lemma effect_switches o w r s' : (match o with Op_mutex_unlock _ => False | _ => True end) →
  Good L (λ t, t ∈ joining o (joined w)) s' → switches (mem w) s' → (s_runningthread s' = s_runningthread (mem w) → r = None) →
  effect o w r s'.
Proof using.
  intros Ho HG Hsw Hr. split; [done|]. destruct Hsw as [[E Hl]|(Hne & th & Hth & Hl & Hnew)].
  - rewrite acquired_same by done. rewrite (Hr E). split; [done|]. split; [by destruct o|].
    intros m. rewrite bool_decide_eq_false_2, orb_false_r by done. rewrite Hl. by destruct o.
  - assert (acquired r (mem w) s' = resume_mutex (saved th)) as ->.
    { unfold acquired. destruct (Z.eqb_spec (s_runningthread s') (s_runningthread (mem w))); [done|]. by rewrite Hth. }
    split; [done|]. split; [by destruct o|]. intros m. rewrite Hl. by destruct o.
Qed.

Abbreviation known w := (λ t, t ∈ joined w).

Lemma Inv_place w t : Good L (known w) (mem w) → is_Some (threads (mem w) !! t) → t ∉ places (mem w) →
  Inv L (λ t', t' ∈ t :: joined w) [t; s_runningthread (mem w)] (mem w).
Proof using.
  intros HG Hth Ht. eapply Inv_joined; [by apply Inv_add|].
  intros t' _. unfold joins. by rewrite elem_of_cons.
Qed.

Lemma run_thread_ok o w : Good L (known w) (mem w) → (∀ t, t ∈ joined w → is_Some (threads (mem w) !! t)) →
  allowed o w →
  match o with
  | Op_thread_create _ | Op_thread_delete _ | Op_set_priority _ _ | Op_set_shutdown _ | Op_sched_queue _
  | Op_sched_schedule => True
  | _ => False
  end → ∃ r s', run o (mem w) = Ok (r, s') ∧ effect o w r s'.
Proof using HL.
  intros HG HJ Hal Ho. set (s := mem w) in *.
  destruct o as [size|t|t p|t|t| |m|m loc|m loc|m]; try done; clear Ho; cbn [run allowed] in *; fold s in Hal.
  - destruct (thread_create_ok L _ HL _ s size HG HJ) as (t & s' & E & HI & Hrun & Hmx & _).
    rewrite (M_bind_step _ _ _ _ _ E). eexists _, _. split; [done|]. apply effect_plain; try done.
    + unfold Good. by rewrite Hrun.
    + intros m. unfold is_locked. by rewrite Hmx.
  - destruct Hal as [Halive Ht]. pose proof (Inv_place w t HG Halive Ht) as HI. destruct Halive as [th Hth].
    destruct (thread_delete_ok L _ _ s t th HI Hth) as (s' & E & HI' & HF & Hdel & _).
    rewrite (M_bind_step _ _ _ _ _ E). eexists _, _. split; [done|]. apply effect_plain; try done.
    + unfold Good. rewrite (F_running _ _ _ _ HF). eapply Inv_joined; [exact HI'|].
      intros t'. rewrite Hdel, lookup_delete_is_Some, elem_of_cons. cbn. intros [Hne _]. clear -Hne. naive_solver.
    + by rewrite (F_running _ _ _ _ HF).
    + intros m. by rewrite (F_locked _ _ _ _ HF), bool_decide_eq_false_2, orb_false_r.
  - destruct Hal as ([th Hth] & Ht & Hp). unfold write_thread, read_thread, mbind, M_bind. rewrite Hth. cbn.
    eexists _, _. split; [done|]. apply effect_plain; [done|by apply set_priority_ok|done|done].
  - destruct Hal as [th Hth]. unfold write_thread, read_thread, mbind, M_bind. rewrite Hth. cbn.
    eexists _, _. split; [done|]. apply effect_plain; [done|by apply set_shutdown_ok|done|done].
  - destruct Hal as (Ht & th & Hth & Hf). pose proof (Inv_place w t HG (mk_is_Some _ _ Hth) Ht) as HI.
    destruct (sched_queue_ok L _ HL _ s t th HI Hth) as (ret & s' & E & HQ & Hq); [right; by rewrite Hf|].
    rewrite (M_bind_step _ _ _ _ _ E). eexists _, _. split; [done|].
    apply effect_plain; [done| |apply HQ|intros m; unfold is_locked; by rewrite (QF_mutexes _ _ HQ)].
    unfold Good. rewrite (QF_running _ _ HQ).
    destruct Hq as [(_ & HI' & _)|(_ & Hlost & HI')]; [done|]. eapply Inv_remove; [done|]. by left.
  - destruct (sched_schedule_ok L _ HL s HG) as (s' & E & HG' & Hsw).
    rewrite (M_bind_step _ _ _ _ _ E). eexists _, _. split; [done|]. by apply effect_switches.
Qed.

Lemma run_ok o w : Good L (known w) (mem w) → (∀ t, t ∈ joined w → is_Some (threads (mem w) !! t)) →
  exclusive w → allowed o w →
  (∃ r s', run o (mem w) = Ok (r, s') ∧ effect o w r s') ∨
  (∃ m loc, o = Op_mutex_lock m loc ∧ is_locked (mem w) m = true ∧ run o (mem w) = Fault Hang).
Proof using HL.
  intros HG HJ Hex Hal. pose proof (run_thread_ok o w HG HJ Hal) as Hthread.
  destruct o as [size|t|t p|t|t| |m|m loc|m loc|m]; try (left; by apply Hthread); clear Hthread;
    cbn [run allowed] in *; set (s := mem w) in *.
  - left. destruct Hal as [Hm Hl]. destruct (mutex_init_ok L _ HL s m HG Hm) as (s' & E & HG' & Hr & Hlk).
    rewrite (M_bind_step _ _ _ _ _ E). eexists _, _. split; [done|]. apply effect_plain; [done..|].
    intros m'. rewrite Hlk. case_decide as E'; [|done]. by rewrite E'.
  - destruct (mutex_lock_ok L _ HL s m loc HG Hal) as [(s' & E & HG' & Hs)|[Hl E]].
    2: { right. exists m, loc. split_and!; [done..|]. unfold mbind, M_bind. by rewrite E. }
    left. rewrite (M_bind_step _ _ _ _ _ E). eexists _, _. split; [done|].
    destruct Hs as [(Hl & Hr & Hlk)|(Hl & Hr & Hsw)]; [by apply effect_acquire|by apply effect_switches].
  - left. destruct (mutex_try_lock_ok L _ HL s m loc HG Hal) as (s' & E & HG' & Hr & Hlk).
    rewrite (M_bind_step _ _ _ _ _ E). eexists _, _. split; [done|].
    destruct (is_locked s m) eqn:Hl; cbn [negb]; [|by apply effect_acquire].
    apply effect_plain; [done..|]. intros m'. rewrite Hlk. case_decide as E'; [by rewrite E'|done].
  - left. assert (is_Some (mutexes s !! m)) as Hm.
    { destruct (Hex m) as [[_ Hl] _]. assert (is_locked s m = true) as Hlk.
      { apply Hl. intros E. rewrite E in Hal. by apply elem_of_nil in Hal. }
      unfold is_locked in Hlk. destruct (mutexes s !! m); [by eexists|done]. }
    destruct (mutex_unlock_ok L _ HL s m HG Hm) as (s' & E & HG' & Hr & Hlk).
    rewrite (M_bind_step _ _ _ _ _ E). eexists _, _. split; [done|]. split; [done|].
    by rewrite acquired_same.
Qed.

Lemma exclusive_after o w r s' : exclusive w → allowed o w → effect o w r s' → exclusive (after o r w s').
Proof using.
  intros Hex Hal (_ & Hnew & Hun & Hlk) m. destruct (Hex m) as [Hiff Hlen]. cbn [mem holders after].
  specialize (Hnew m). rewrite Hlk. clear Hlk.
  assert (match o with Op_mutex_unlock _ => True | _ =>
    released o (s_runningthread (mem w)) m (holders w m) = holders w m end) as Hrel by (by destruct o).
  assert (acquired r (mem w) s' = Some m → holders w m = []) as Hfree.
  { intros E. destruct (holders w m); [done|]. destruct Hiff as [_ Hl]. rewrite Hnew in Hl by done. assert (false = true) as [=] by (by apply Hl). }
  destruct o as [| | | | | | | | |m']; rewrite ?Hrel.
  10: { rewrite Hun, !(decide_False (P := None = Some m)) by done. cbn [released allowed] in *. destruct (decide (m = m')) as [->|]; [|done].
    rewrite singleton_filter by done. cbn. split; [by split|lia]. }
  all: case_decide as E.
  all: try (rewrite Hfree by done; rewrite bool_decide_eq_true_2, orb_true_r by done; cbn; split; [done|lia]).
  all: rewrite bool_decide_eq_false_2, orb_false_r by done; done.
Qed.

Lemma reachable_ok w : reachable w →
  Good L (known w) (mem w) ∧ (∀ t, t ∈ joined w → is_Some (threads (mem w) !! t)) ∧ exclusive w.
Proof using HL.
  induction 1 as [size b h s Hb|o r w s' Hw (HG & HJ & Hex) Hal E].
  - destruct (boot_ok L HL size b h s Hb) as (HG & Hm & Hth). split_and!.
    + eapply Inv_joined; [exact HG|]. intros t _. cbn. by rewrite list_elem_of_singleton.
    + intros t ->%list_elem_of_singleton. done.
    + intros m. cbn. unfold is_locked. rewrite Hm, lookup_empty. split; [done|lia].
  - destruct (run_ok o w HG HJ Hex Hal) as [(r' & s2 & E2 & Heff)|(m & loc & _ & _ & E2)]; [|congruence].
    rewrite E in E2. injection E2 as <- <-. split_and!; [|by intros t [? _]%list_elem_of_filter|by apply exclusive_after].
    eapply Inv_joined; [apply Heff|]. intros t Ht. cbn. rewrite list_elem_of_filter. tauto.
Qed.
End lost.

(** C33: the scheduler is safe: from booting on, whatever operations the threads
    and the timer interrupt perform in whatever order, and whether or not the
    heap has memory, no assertion fails and no dangling pointer is followed. The
    one way an operation does not return is that a thread locks a mutex that is
    locked and the scheduler finds no other thread to run. *)
Theorem sched_operations_safe (w : world) (o : op) : reachable w → allowed o w →
  (∃ r s', run o (mem w) = Ok (r, s')) ∨
  (∃ m loc, o = Op_mutex_lock m loc ∧ is_locked (mem w) m = true ∧ run o (mem w) = Fault Hang).
Proof using Type*.
  intros Hw Hal. destruct (reachable_ok True (or_introl I) w Hw) as (HG & HJ & Hex).
  destruct (run_ok True (or_introl I) o w HG HJ Hex Hal) as [(r & s' & E & _)|Hl]; [left; by exists r, s'|by right].
Qed.

(** C34: mutual exclusion: at any time at most one thread holds a mutex, that is
    has returned, or been switched to, from a successful lock of it and has not
    unlocked it since; and the mutex is marked as locked exactly then. *)
Theorem mutual_exclusion (w : world) (m : Z) : reachable w →
  (length (holders w m) ≤ 1)%nat ∧ (is_locked (mem w) m = true ↔ holders w m ≠ []).
Proof using Type*.
  intros Hw. destruct (reachable_ok True (or_introl I) w Hw) as (_ & _ & Hex). destruct (Hex m). by split.
Qed.

(** C35: at any time no thread is at two places, and as long as the heap has
    memory every thread the scheduler was given to run, by
    [sched_init_boot_thread] and [sched_queue], and that was not deleted since,
    is at exactly one: it is the running one, or waits for a mutex, and then is
    blocked on exactly that, or is ready in the queue of its priority; these
    queues are in the order of their priorities, one for each. No other thread
    is at any of these places, and no memory of a deleted thread is referred
    to. (Without memory for a queue the thread to be queued, even a preempted
    one, is at no place at all: [preempted_thread_lost].) *)
Theorem threads_have_one_place (w : world) : reachable w →
  let s := mem w in
  NoDup (places s) ∧
  (∀ t, t ∈ places s → t ∈ joined w ∧ is_Some (threads s !! t)) ∧
  (HeapSucceeds H → ∀ t, t ∈ joined w → t ∈ places s) ∧
  (∀ t th, threads s !! t = Some th →
     if decide (t ∈ s_mutexwaitthreads s)
     then is_Some (mutexes s !! waitingmutex th) ∧ resume_mutex (saved th) = Some (waitingmutex th)
     else waitingmutex th = 0) ∧
  (∀ q t th, q ∈ s_queues s → t ∈ queue_threads q → threads s !! t = Some th → queue_priority q = priority th) ∧
  Sorted.StronglySorted Z.lt (queue_priority <$> s_queues s).
Proof using Type*.
  intros Hw s. destruct (reachable_ok True (or_introl I) w Hw) as (HG & HJ & _).
  split_and!; [apply (I_places _ _ _ _ HG)| | | | |apply (I_sorted _ _ _ _ HG)].
  - intros t Ht. split; [by apply (I_joined _ _ _ _ HG)|by apply (I_alive _ _ _ _ HG)].
  - intros Hs t Ht. destruct (reachable_ok False (or_intror Hs) w Hw) as (HG' & _ & _).
    destruct (decide (t ∈ places s)) as [|Hn]; [done|]. destruct (HJ t Ht) as [th Hth].
    by destruct (I_accounted _ _ _ _ HG' t th Hth Hn) as [|[_ ?]].
  - intros t th Hth. case_decide as Ht; [|by apply (I_others _ _ _ _ HG t th)].
    destruct (I_waiting _ _ _ _ HG t th Ht Hth) as [Hm (p & p' & ->)]. by split.
  - intros q t th Hq Ht Hth. by apply (I_ready _ _ _ _ HG q t th).
Qed.
End safety.

(** ** Examples *)

(** A booted kernel with the given heap. *)
Definition booted {H} `{!HeapOps H} (h : H) : world (H := H) :=
  match sched_init_boot_thread 36 (Sched [] 0 0 [] ∅ ∅ true h) with
  | Ok (_, s) => World s (λ _, []) [s_runningthread s]
  | Fault _ => World (Sched [] 0 0 [] ∅ ∅ true h) (λ _, []) []
  end.

Lemma booted_reachable {H} `{!HeapOps H} (h : H) :
  is_ok (sched_init_boot_thread 36 (Sched [] 0 0 [] ∅ ∅ true h)) → reachable (booted h).
Proof.
  intros [[[] s] E]. unfold booted. rewrite E. by eapply reachable_boot.
Qed.

#[local] Existing Instance always_heap.
#[local] Existing Instance always_heap_laws.

(** The boot thread, 16, locks the mutex 8 and is interrupted; the thread 48,
    of another priority, runs and waits for the mutex; then the thread 80, of the
    priority of the boot thread, runs. *)
Definition loc0 : source_location := SourceLocation 0 0 0.
Definition two_waiting : list op :=
  [Op_thread_create 36; Op_thread_create 36; Op_set_priority 80 20; Op_sched_queue 48; Op_sched_queue 80;
   Op_mutex_init 8; Op_mutex_lock 8 loc0; Op_sched_schedule; Op_mutex_lock 8 loc0].

Lemma two_waiting_reachable : reachable (execute two_waiting (booted O)).
Proof. apply reachable_execute, booted_reachable. by eexists. Qed.

Lemma sched_operations_safe_witness :
  let w := execute two_waiting (booted O) in
  reachable w ∧
  ((∃ r s', run Op_sched_schedule (mem w) = Ok (r, s')) ∨
   (∃ m loc, Op_sched_schedule = Op_mutex_lock m loc ∧ is_locked (mem w) m = true ∧
      run Op_sched_schedule (mem w) = Fault Hang)).
Proof.
  split; [exact two_waiting_reachable|].
  exact (sched_operations_safe (execute two_waiting (booted O)) Op_sched_schedule two_waiting_reachable I).
Defined.

Lemma mutual_exclusion_witness :
  holders (execute two_waiting (booted O)) 8 = [16] ∧
  (length (holders (execute two_waiting (booted O)) 8) ≤ 1)%nat.
Proof.
  split; [by vm_compute|].
  exact (proj1 (mutual_exclusion (execute two_waiting (booted O)) 8 two_waiting_reachable)).
Defined.

Lemma threads_have_one_place_witness :
  let w := execute two_waiting (booted O) in
  places (mem w) = [80; 48; 16] ∧ joined w = [80; 48; 16] ∧
  NoDup (places (mem w)) ∧ ∀ t, t ∈ joined w → t ∈ places (mem w).
Proof.
  split; [by vm_compute|]. split; [by vm_compute|].
  destruct (threads_have_one_place (execute two_waiting (booted O)) two_waiting_reachable)
    as (Hnd & _ & Hin & _).
  exact (conj Hnd (Hin always_heap_succeeds)).
Defined.

(** the scheduler can hang although a thread is ready to run and even holds
    the mutex that is waited for: when no queue but the current one has ready
    threads, [pick_next_queue] resets the opportunities and selects the first
    queue although it is empty, and [sched_wait_mutex] takes this for the
    absence of any thread. *)
Theorem lock_hangs_with_ready_holder : ∃ (w : world (H := nat)) m loc t,
  reachable w ∧ allowed (Op_mutex_lock m loc) w ∧ holders w m = [t] ∧
  t ∈ ready (s_queues (mem w)) ∧ run (Op_mutex_lock m loc) (mem w) = Fault Hang.
Proof.
  exists (execute two_waiting (booted O)), 8, loc0, 16. split_and!.
  - exact two_waiting_reachable.
  - by apply allowedb_allowed; vm_compute.
  - by vm_compute.
  - apply (bool_decide_unpack _). by vm_compute.
  - by vm_compute.
Qed.

(** A heap with room for two threads and one queue. *)
Definition losing : list op := [Op_thread_create 36; Op_sched_queue 48; Op_sched_schedule].
#[local] Existing Instance bounded_heap | 0.
#[local] Existing Instance bounded_heap_laws | 0.

(** when the heap has no memory for the queue of its priority, a thread that
    is preempted is lost: [sched_schedule] only prints a message when
    [sched_queue] fails, and switches to the next thread. *)
Theorem preempted_thread_lost : ∃ (w : world (H := nat * nat)) t th,
  reachable w ∧ threads (mem w) !! t = Some th ∧ saved th = In_schedule IRQSTATE_ENABLED ∧ t ∉ places (mem w).
Proof.
  set (w := execute losing (booted (O, 5%nat))).
  destruct (threads (mem w) !! 16) as [th|] eqn:E; [|by vm_compute in E].
  exists w, 16, th. split_and!.
  - apply reachable_execute, booted_reachable. by eexists.
  - done.
  - vm_compute in E. by injection E as <-.
  - apply (bool_decide_unpack _). by vm_compute.
Qed.
