(* ===== verification/ArchThread.v ===== *)
(** Kernel stacks of the i586 (src/kernel/arch/i586/thread.c) and the context
    switch (src/kernel/arch/i586/asm/contextswitch.S). *)
From S2P Require Import Prelude MiscMath HeapIface.

(** The index of each word of the initial stack, from the saved stack pointer
    up: what [archi586_context_switch] pops, then what the main function finds. *)
Inductive STACK_IDX :=
  | STACK_IDX_EDI | STACK_IDX_ESI | STACK_IDX_EBX | STACK_IDX_EFLAGS
  | STACK_IDX_EBP | STACK_IDX_EIP | STACK_IDX_MAIN_RETADDR | STACK_IDX_MAIN_ARG0.

Definition stack_idx (i : STACK_IDX) : Z :=
  match i with
  | STACK_IDX_EDI => 0 | STACK_IDX_ESI => 1 | STACK_IDX_EBX => 2 | STACK_IDX_EFLAGS => 3
  | STACK_IDX_EBP => 4 | STACK_IDX_EIP => 5 | STACK_IDX_MAIN_RETADDR => 6 | STACK_IDX_MAIN_ARG0 => 7
  end.
Definition STACK_ITEM_COUNT : Z := 8.
Definition STACK_MINSIZE : Z := STACK_ITEM_COUNT * 4.

(** A thread: the saved stack pointer, as an index into the words of the stack. *)
Record arch_thread := ArchThread { saved_esp : Z; stack : list Z }.

(** The words the initial stack is filled with, in the order of the writes. *)
Definition initial_words (exitcallback init_mainfunc init_data : Z) : list (STACK_IDX * Z) :=
  [(STACK_IDX_MAIN_RETADDR, exitcallback); (STACK_IDX_MAIN_ARG0, init_data); (STACK_IDX_EIP, init_mainfunc);
   (STACK_IDX_EBP, 0); (STACK_IDX_EFLAGS, 0); (STACK_IDX_EBX, 0); (STACK_IDX_ESI, 0); (STACK_IDX_EDI, 0)].

Fixpoint write_words (esp : Z) (ws : list (STACK_IDX * Z)) (st : list Z) : res (list Z) :=
  match ws with
  | [] => Ok st
  | (i, w) :: ws => st ← wr st (esp + stack_idx i) w; write_words esp ws st
  end.

Definition round_stacksize (init_stacksize : Z) : res Z :=
  let stacksize := if init_stacksize <? STACK_MINSIZE then STACK_MINSIZE else init_stacksize in
  stacksize ← (if negb (stacksize mod 4 =? 0) then align_up stacksize 4 else Ok stacksize);
  _ ← assert_ (stacksize mod 4 =? 0);
  Ok stacksize.

(** [arch_thread_create]: [garbage] is what the heap block of [n] words holds;
    [exitcallback] is the address of that function. *)
Definition arch_thread_create {H} `{!HeapOps H} (exitcallback : Z) (garbage : nat → list Z)
    (init_stacksize init_mainfunc init_data : Z) : M H (option arch_thread) :=
  stacksize ← lift (round_stacksize init_stacksize);
  if SIZE_MAX - 4 <? stacksize then mret None
  else
    thread ← heap_alloc (u32 (4 + stacksize)) 0;
    if thread =? 0 then mret None
    else
      let stack_top := stacksize / 4 in
      let esp := stack_top - STACK_ITEM_COUNT in
      st ← lift (write_words esp (initial_words exitcallback init_mainfunc init_data)
                   (garbage (Z.to_nat stack_top)));
      mret (Some (ArchThread esp st)).

(** ** The context switch *)

(** The registers it preserves; [esp] is an index into the current stack. *)
Record cpu := Cpu { edi : Z; esi : Z; ebx : Z; eflags : Z; ebp : Z; esp : Z }.

Definition push (w : Z) (x : Z * list Z) : res (Z * list Z) :=
  st ← wr x.2 (x.1 - 1) w; Ok (x.1 - 1, st).
Definition pop (st : list Z) (p : Z) : res (Z * Z) := w ← rd st p; Ok (w, p + 1).

(** The first half: save the registers and the stack pointer of the old
    thread. *)
Definition switch_from (c : cpu) (st : list Z) : res arch_thread :=
  x ← push (ebp c) (esp c, st);
  x ← push (eflags c) x;
  x ← push (ebx c) x;
  x ← push (esi c) x;
  x ← push (edi c) x;
  Ok (ArchThread x.1 x.2).

(** The second half: the registers of the new thread, and where it goes on. *)
Definition switch_to (t : arch_thread) : res (cpu * Z) :=
  '(edi, p) ← pop (stack t) (saved_esp t);
  '(esi, p) ← pop (stack t) p;
  '(ebx, p) ← pop (stack t) p;
  '(eflags, p) ← pop (stack t) p;
  '(ebp, p) ← pop (stack t) p;
  '(eip, p) ← pop (stack t) p;
  Ok (Cpu edi esi ebx eflags ebp p, eip).

(** ** Properties *)

Lemma wr_mid (l l2 l2' : list Z) i l1 a l3 w : l2 = l1 ++ a :: l3 → l2' = l1 ++ w :: l3 →
  i = Z.of_nat (length l) + Z.of_nat (length l1) → wr (l ++ l2) i w = Ok (l ++ l2').
Proof.
  intros -> -> ->. rewrite app_assoc, app_assoc, wr_ok by (rewrite !length_app; cbn; lia).
  rewrite insert_app_r_alt by (rewrite length_app; lia). rewrite length_app.
  by replace (Z.to_nat (Z.of_nat (length l) + Z.of_nat (length l1)) - (length l + length l1))%nat with 0%nat by lia.
Qed.

Lemma rd_shift (l l2 : list Z) i k w : 0 ≤ k → i = Z.of_nat (length l) + k → l2 !! Z.to_nat k = Some w →
  rd (l ++ l2) i = Ok w.
Proof.
  intros Hk -> E. apply rd_ok; [lia|]. rewrite lookup_app_r by lia.
  by replace (Z.to_nat (Z.of_nat (length l) + k) - length l)%nat with (Z.to_nat k) by lia.
Qed.

(** The stack around a point. *)
Lemma stack_split (n m : nat) (st : list Z) : (n + m ≤ length st)%nat →
  ∃ l mid rest, st = l ++ mid ++ rest ∧ length l = n ∧ length mid = m.
Proof.
  intros Hl. exists (take n st), (take m (drop n st)), (drop m (drop n st)).
  split; [by rewrite !take_drop|]. rewrite !length_take, length_drop. lia.
Qed.

(** a thread that is switched away from and later switched back to, its
    stack unchanged, goes on at the return address of its call, with the
    registers a C function must preserve, the flags and the stack pointer it
    had; and the words of its stack from the stack pointer up were not
    touched. *)
Theorem context_switch_roundtrip (c : cpu) (st : list Z) (ret : Z) :
  5 ≤ esp c → st !! Z.to_nat (esp c) = Some ret →
  ∃ t, switch_from c st = Ok t ∧ length (stack t) = length st ∧
    drop (Z.to_nat (esp c)) (stack t) = drop (Z.to_nat (esp c)) st ∧
    switch_to t = Ok (Cpu (edi c) (esi c) (ebx c) (eflags c) (ebp c) (esp c + 1), ret).
Proof.
  intros Hesp Hret. pose proof (lookup_lt_Some _ _ _ Hret) as Hlen.
  destruct (stack_split (Z.to_nat (esp c) - 5) 5 st) as (l & mid & rest & -> & Hl & Hm); [lia|].
  destruct mid as [|a1 [|a2 [|a3 [|a4 [|a5 [|]]]]]]; try done.
  rewrite lookup_app_r in Hret by lia. replace (Z.to_nat (esp c) - length l)%nat with 5%nat in Hret by lia.
  destruct rest as [|r rest]; [done|]. injection Hret as ->.
  exists (ArchThread (esp c - 5) (l ++ [edi c; esi c; ebx c; eflags c; ebp c] ++ ret :: rest)).
  split_and!.
  - unfold switch_from, push, mbind, res_bind. cbn [fst snd].
    rewrite (wr_mid l _ ([a1; a2; a3; a4; ebp c] ++ ret :: rest) (esp c - 1) [a1; a2; a3; a4] a5 (ret :: rest)) by (done || (cbn; lia)).
    cbn [fst snd].
    rewrite (wr_mid l _ ([a1; a2; a3; eflags c; ebp c] ++ ret :: rest) (esp c - 1 - 1) [a1; a2; a3] a4 ([ebp c] ++ ret :: rest)) by (done || (cbn; lia)).
    cbn [fst snd].
    rewrite (wr_mid l _ ([a1; a2; ebx c; eflags c; ebp c] ++ ret :: rest) (esp c - 1 - 1 - 1) [a1; a2] a3 ([eflags c; ebp c] ++ ret :: rest)) by (done || (cbn; lia)).
    cbn [fst snd].
    rewrite (wr_mid l _ ([a1; esi c; ebx c; eflags c; ebp c] ++ ret :: rest) (esp c - 1 - 1 - 1 - 1) [a1] a2 ([ebx c; eflags c; ebp c] ++ ret :: rest)) by (done || (cbn; lia)).
    cbn [fst snd].
    rewrite (wr_mid l _ ([edi c; esi c; ebx c; eflags c; ebp c] ++ ret :: rest) (esp c - 1 - 1 - 1 - 1 - 1) [] a1 ([esi c; ebx c; eflags c; ebp c] ++ ret :: rest)) by (done || (cbn; lia)).
    cbn [fst snd]. do 2 f_equal. lia.
  - cbn. rewrite !length_app. done.
  - cbn [stack]. replace (Z.to_nat (esp c)) with (length l + 5)%nat by lia. by rewrite !drop_app_add.
  - unfold switch_to, pop, mbind, res_bind. cbn [stack saved_esp].
    rewrite (rd_shift l _ (esp c - 5) 0 (edi c)) by (done || lia).
    rewrite (rd_shift l _ (esp c - 5 + 1) 1 (esi c)) by (done || lia).
    rewrite (rd_shift l _ (esp c - 5 + 1 + 1) 2 (ebx c)) by (done || lia).
    rewrite (rd_shift l _ (esp c - 5 + 1 + 1 + 1) 3 (eflags c)) by (done || lia).
    rewrite (rd_shift l _ (esp c - 5 + 1 + 1 + 1 + 1) 4 (ebp c)) by (done || lia).
    rewrite (rd_shift l _ (esp c - 5 + 1 + 1 + 1 + 1 + 1) 5 ret) by (done || lia).
    do 3 f_equal. lia.
Qed.

Lemma context_switch_roundtrip_witness :
  ∃ t, switch_from (Cpu 1 2 3 4 5 6) (replicate 6 0 ++ [77]) = Ok t ∧
    switch_to t = Ok (Cpu 1 2 3 4 5 7, 77).
Proof.
  destruct (context_switch_roundtrip (Cpu 1 2 3 4 5 6) (replicate 6 0 ++ [77]) 77) as (t & E & _ & _ & E2);
    [done|done|]. by exists t.
Defined.

Lemma round_stacksize_ok n : 0 ≤ n ≤ 2 ^ 32 - 4 → ∃ m, round_stacksize n = Ok m ∧
  m mod 4 = 0 ∧ n ≤ m ∧ 32 ≤ m ≤ 2 ^ 32 - 4 ∧ (m < n + 4 ∨ m = 32).
Proof.
  intros Hn. unfold round_stacksize, STACK_MINSIZE, STACK_ITEM_COUNT.
  assert (∀ k, 32 ≤ k ≤ 2 ^ 32 - 4 → ∃ m, (stacksize ← (if negb (k mod 4 =? 0) then align_up k 4 else Ok k);
    _ ← assert_ (stacksize mod 4 =? 0); Ok stacksize) = Ok m ∧ m mod 4 = 0 ∧ k ≤ m < k + 4 ∧ m ≤ 2 ^ 32 - 4) as Hk.
  { intros k Hk. destruct (Z.eqb_spec (k mod 4) 0) as [E|E]; cbn [negb].
    - exists k. unfold mbind, res_bind, assert_. rewrite E. split_and!; [done|done|lia..].
    - unfold align_up, is_aligned, mbind, res_bind, assert_. cbn [Z.eqb negb].
      destruct (Z.eqb_spec (k mod 4) 0); [done|]. exists (k + (4 - k mod 4)).
      assert ((k + (4 - k mod 4)) mod 4 = 0) as E4 by dlia.
      rewrite u32_small by dlia. rewrite E4. split_and!; [done|done|dlia..]. }
  destruct (Z.ltb_spec n (8 * 4)) as [H|H].
  - exists 32. split_and!; [done|done|lia..].
  - destruct (Hk n) as (m & E & H1 & H2 & H3); [lia|]. exists m. split; [exact E|]. lia.
Qed.

Lemma write_initial_words exitcallback init_mainfunc init_data n l a1 a2 a3 a4 a5 a6 a7 a8 : n = Z.of_nat (length l) →
  write_words n (initial_words exitcallback init_mainfunc init_data) (l ++ [a1; a2; a3; a4; a5; a6; a7; a8] ++ []) =
  Ok (l ++ [0; 0; 0; 0; 0; init_mainfunc; exitcallback; init_data]).
Proof.
  intros Hn.
  cbn [app initial_words write_words stack_idx]. unfold mbind, res_bind.
  rewrite (wr_mid l _ [a1; a2; a3; a4; a5; a6; exitcallback; a8] (n + 6) [a1; a2; a3; a4; a5; a6] a7 [a8]) by (done || (cbn; lia)).
  rewrite (wr_mid l _ [a1; a2; a3; a4; a5; a6; exitcallback; init_data] (n + 7) [a1; a2; a3; a4; a5; a6; exitcallback] a8 []) by (done || (cbn; lia)).
  rewrite (wr_mid l _ [a1; a2; a3; a4; a5; init_mainfunc; exitcallback; init_data] (n + 5) [a1; a2; a3; a4; a5] a6 [exitcallback; init_data]) by (done || (cbn; lia)).
  rewrite (wr_mid l _ [a1; a2; a3; a4; 0; init_mainfunc; exitcallback; init_data] (n + 4) [a1; a2; a3; a4] a5 [init_mainfunc; exitcallback; init_data]) by (done || (cbn; lia)).
  rewrite (wr_mid l _ [a1; a2; a3; 0; 0; init_mainfunc; exitcallback; init_data] (n + 3) [a1; a2; a3] a4 [0; init_mainfunc; exitcallback; init_data]) by (done || (cbn; lia)).
  rewrite (wr_mid l _ [a1; a2; 0; 0; 0; init_mainfunc; exitcallback; init_data] (n + 2) [a1; a2] a3 [0; 0; init_mainfunc; exitcallback; init_data]) by (done || (cbn; lia)).
  rewrite (wr_mid l _ [a1; 0; 0; 0; 0; init_mainfunc; exitcallback; init_data] (n + 1) [a1] a2 [0; 0; 0; init_mainfunc; exitcallback; init_data]) by (done || (cbn; lia)).
  rewrite (wr_mid l _ [0; 0; 0; 0; 0; init_mainfunc; exitcallback; init_data] (n + 0) [] a1 [0; 0; 0; 0; init_mainfunc; exitcallback; init_data]) by (done || (cbn; lia)).
  done.
Qed.

(** the stack of a new thread is laid out for the context switch: the first
    switch to it enters the main function, with the flags cleared (interrupts
    disabled), its argument and the address of [exitcallback] where a C function
    expects the argument and the return address. *)
Theorem new_thread_enters_main {H} `{!HeapOps H} (exitcallback init_stacksize init_mainfunc init_data : Z)
    (garbage : nat → list Z) (h h' : H) (p : Z) :
  (∀ n, length (garbage n) = n) → 0 ≤ init_stacksize ≤ 2 ^ 32 - 8 →
  (∀ size, heap_alloc size 0 h = Ok (p, h')) → p ≠ 0 →
  ∃ t, arch_thread_create exitcallback garbage init_stacksize init_mainfunc init_data h = Ok (Some t, h') ∧
    init_stacksize ≤ 4 * Z.of_nat (length (stack t)) ∧
    ∃ sp, switch_to t = Ok (Cpu 0 0 0 0 0 sp, init_mainfunc) ∧
      rd (stack t) sp = Ok exitcallback ∧ rd (stack t) (sp + 1) = Ok init_data.
Proof.
  intros Hg Hs Ha Hp. destruct (round_stacksize_ok init_stacksize) as (m & E & Hm & Hm1 & Hm2 & Hm3); [lia|].
  unfold arch_thread_create, lift, mbind, M_bind. rewrite E.
  destruct (Z.ltb_spec (SIZE_MAX - 4) m) as [Hlt|_]; [unfold SIZE_MAX in Hlt; dlia|].
  rewrite Ha. destruct (Z.eqb_spec p 0) as [|_]; [done|].
  assert (Z.of_nat (length (garbage (Z.to_nat (m / 4)))) = m / 4) as Hlen by (rewrite Hg; dlia).
  set (n := m / 4 - STACK_ITEM_COUNT). assert (0 ≤ n) as Hn by (unfold n, STACK_ITEM_COUNT; dlia).
  destruct (stack_split (Z.to_nat n) 8 (garbage (Z.to_nat (m / 4)))) as (l & mid & rest & El & Hl & Hmid).
  { unfold n, STACK_ITEM_COUNT in *. dlia. }
  rewrite El in *. destruct mid as [|a1 [|a2 [|a3 [|a4 [|a5 [|a6 [|a7 [|a8 [|]]]]]]]]]; try done.
  assert (rest = []) as ->.
  { destruct rest as [|]; [done|]. rewrite !length_app in Hlen. cbn in Hlen. unfold n, STACK_ITEM_COUNT in *. lia. }
  rewrite (write_initial_words _ _ _ n l a1 a2 a3 a4 a5 a6 a7 a8) by lia.
  eexists. split; [done|]. cbn [stack]. split.
  { rewrite !length_app in *. cbn in *. dlia. }
  exists (n + 6). unfold switch_to, pop, mbind, res_bind. cbn [stack saved_esp].
  rewrite (rd_shift l _ n 0 0), (rd_shift l _ (n + 1) 1 0), (rd_shift l _ (n + 1 + 1) 2 0),
    (rd_shift l _ (n + 1 + 1 + 1) 3 0), (rd_shift l _ (n + 1 + 1 + 1 + 1) 4 0),
    (rd_shift l _ (n + 1 + 1 + 1 + 1 + 1) 5 init_mainfunc),
    (rd_shift l _ (n + 6) 6 exitcallback), (rd_shift l _ (n + 6 + 1) 7 init_data) by (done || lia).
  split_and!; [|done..]. do 3 f_equal. lia.
Qed.

Lemma new_thread_enters_main_witness :
  ∃ t, @arch_thread_create nat always_heap 4096 (λ n, replicate n 7) 100 8192 5 O = Ok (Some t, 1%nat) ∧
    ∃ sp, switch_to t = Ok (Cpu 0 0 0 0 0 sp, 8192).
Proof.
  destruct (@new_thread_enters_main nat always_heap 4096 100 8192 5 (λ n, replicate n 7) O 1%nat 16)
    as (t & E & _ & sp & E2 & _); [intros k; apply length_replicate|lia|done|done|].
  exists t. split; [exact E|]. by exists sp.
Defined.

(** a stack size of more than 2 ^ 32 - 4 bytes wraps around to 0 when it is
    rounded up, after the minimum size was ensured: the allocation is 4 bytes
    long and the initial words are written in front of it. *)
Theorem huge_stack_out_of_bounds {H} `{!HeapOps H} (exitcallback init_stacksize init_mainfunc init_data : Z)
    (garbage : nat → list Z) (h h' : H) (p : Z) :
  2 ^ 32 - 4 < init_stacksize < 2 ^ 32 → heap_alloc 4 0 h = Ok (p, h') → p ≠ 0 →
  arch_thread_create exitcallback garbage init_stacksize init_mainfunc init_data h = Fault Out_of_bounds.
Proof.
  intros Hs Ha Hp. assert (round_stacksize init_stacksize = Ok 0) as E.
  { assert (init_stacksize = 2 ^ 32 - 3 ∨ init_stacksize = 2 ^ 32 - 2 ∨ init_stacksize = 2 ^ 32 - 1) as [->|[->| ->]] by lia;
      by vm_compute. }
  unfold arch_thread_create, lift, mbind, M_bind. rewrite E. cbn [Z.ltb]. change (SIZE_MAX - 4 <? 0) with false.
  change (u32 (4 + 0)) with 4. cbn beta iota. rewrite Ha. destruct (Z.eqb_spec p 0); [done|]. done.
Qed.

Lemma huge_stack_out_of_bounds_witness :
  @arch_thread_create nat always_heap 4096 (λ n, replicate n 7) (2 ^ 32 - 1) 8192 5 O = Fault Out_of_bounds.
Proof.
  apply (@huge_stack_out_of_bounds nat always_heap 4096 (2 ^ 32 - 1) 8192 5 (λ n, replicate n 7) O 1%nat 16); done.
Defined.
