(* ===== verification/Trap.v ===== *)
(** Traps and their handlers (src/kernel/trapmanager.c,
    src/include/kernel/trapmanager.h): for each trap number a list of handlers,
    each with a checksum over its fields and its links.

    Code is called through its address, so what a callback does is a parameter:
    [call] gives the effect of the code at an address on the whole machine. *)
From S2P Require Import Prelude Arch CList StructList.

(** ** Data *)

(** A [struct trap_handler] without its [node], which is in the node store at
    the offset of the member. *)
Record trap_handler := TrapHandler { callback : Z; cb_data : Z; checksum : Z }.

Definition NODE_OFFSET : Z := 12.
Definition YJKERNEL_ARCH_TRAP_COUNT : Z := 256.

(** The trap lists, the handlers by their address and the nodes in them, the
    interrupt flag, and the rest of the machine. *)
Record machine (W : Type) := Machine {
  s_traps : list clist; handlers : gmap Z trap_handler; tnodes : nodes;
  eflags_if : bool; rest : W;
}.
Arguments Machine {W}. Arguments s_traps {W}. Arguments handlers {W}. Arguments tnodes {W}.
Arguments eflags_if {W}. Arguments rest {W}.

(** The six words of the structure, the checksum taken as zero. *)
Definition words_of (h : trap_handler) (n : list_node) : list Z :=
  [callback h; cb_data h; 0; next n; prev n; data n].

Definition calculate_checksum (h : trap_handler) (n : list_node) : Z :=
  u32 (not32 0 - foldl (λ sum v, u32 (sum + v)) 0 (words_of h n)).

Section Operations.
Context {W : Type}.
Local Abbreviation machine := (machine W).
Implicit Types s : machine.

Definition with_traps (t : list clist) s : machine :=
  Machine t (handlers s) (tnodes s) (eflags_if s) (rest s).
Definition with_handlers (h : gmap Z trap_handler) s : machine :=
  Machine (s_traps s) h (tnodes s) (eflags_if s) (rest s).
Definition with_tnodes (n : nodes) s : machine :=
  Machine (s_traps s) (handlers s) n (eflags_if s) (rest s).
Definition with_if (b : bool) s : machine :=
  Machine (s_traps s) (handlers s) (tnodes s) b (rest s).
Definition with_rest (w : W) s : machine :=
  Machine (s_traps s) (handlers s) (tnodes s) (eflags_if s) w.

Definition update (f : machine → machine) : M machine unit := λ s, Ok (tt, f s).
Definition in_nodes {A} (op : M nodes A) : M machine A := λ s,
  match op (tnodes s) with Ok (a, n) => Ok (a, with_tnodes n s) | Fault f => Fault f end.
Definition in_rest {A} (op : M W A) : M machine A := λ s,
  match op (rest s) with Ok (a, w) => Ok (a, with_rest w s) | Fault f => Fault f end.

Definition irq_disable : M machine ARCH_IRQSTATE := λ s,
  let '(prev, i) := arch_irq_disable (eflags_if s) in Ok (prev, with_if i s).
Definition irq_restore (prev : ARCH_IRQSTATE) : M machine unit :=
  update (λ s, with_if (arch_irq_restore prev (eflags_if s)) s).

Definition load_handler (p : Z) : M machine trap_handler := λ s,
  match handlers s !! p with Some h => Ok (h, s) | None => Fault Bad_pointer end.
Definition store_handler (p : Z) (h : trap_handler) : M machine unit :=
  _ ← load_handler p;
  update (λ s, with_handlers (<[p := h]> (handlers s)) s).

(** The checksum of the handler at [p] as it is in memory. *)
Definition checksum_at (p : Z) : M machine Z :=
  h ← load_handler p;
  n ← in_nodes (load (p + NODE_OFFSET));
  mret (calculate_checksum h n).
Definition update_checksum (p : Z) : M machine unit :=
  c ← checksum_at p;
  h ← load_handler p;
  store_handler p (TrapHandler (callback h) (cb_data h) c).
(** The handler that a neighbour's node belongs to. *)
Definition update_neighbour (node : Z) : M machine unit :=
  if negb (node =? NULL) then
    n ← in_nodes (load node);
    update_checksum (data n)
  else mret tt.

(** The last two conditionals of [trapmanager_register_trap]. *)
Definition update_neighbours (out : Z) : M machine unit :=
  n ← in_nodes (load (out + NODE_OFFSET));
  _ ← update_neighbour (prev n);
  n ← in_nodes (load (out + NODE_OFFSET));
  update_neighbour (next n).

Definition trapmanager_register_trap (out trapnum cb d : Z) : M machine unit :=
  prev_interrupts ← irq_disable;
  h ← load_handler out;
  _ ← store_handler out (TrapHandler cb d (checksum h));
  s ← get;
  l ← lift (rd (s_traps s) trapnum);
  l ← in_nodes (list_insert_back l (out + NODE_OFFSET) out);
  t ← lift (wr (s_traps s) trapnum l);
  _ ← update (with_traps t);
  _ ← update_checksum out;
  _ ← update_neighbours out;
  irq_restore prev_interrupts.

(** ** Dispatch *)

(** The code at an address, called with a trap number, a trap frame and the
    handler's data. *)
Context (call : Z → Z → Z → Z → M machine unit).

Definition run_handler (trapnum trapframe : Z) (handler : Z) : M machine unit :=
  expected_checksum ← checksum_at handler;
  h ← load_handler handler;
  if negb (expected_checksum =? checksum h) then mret tt
  else call (callback h) trapnum trapframe (cb_data h).

(** The list is walked with one unit of fuel for each node of the store. *)
Definition trapmanager_trap (trapnum trapframe : Z) : M machine unit :=
  s ← get;
  _ ← lift (ASSERT_IRQ_DISABLED (eflags_if s));
  if YJKERNEL_ARCH_TRAP_COUNT <=? trapnum then mret tt
  else
    l ← lift (rd (s_traps s) trapnum);
    if front l =? NULL then mret tt
    else
      _ ← list_foreach (size (tnodes s)) (λ p, n ← in_nodes (load p); mret (next n))
            (λ p, n ← in_nodes (load p); _ ← run_handler trapnum trapframe (data n); mret None)
            (front l) : M machine (option unit);
      mret tt.
End Operations.

(** ** The checksum *)

Lemma foldl_u32 vs sum : u32 (foldl (λ sum v, u32 (sum + v)) sum vs) = u32 (sum + foldr Z.add 0 vs).
Proof.
  revert sum. induction vs as [|v vs IH]; intros sum; cbn; [by rewrite Z.add_0_r|].
  rewrite IH. unfold u32. rewrite Zplus_mod_idemp_l. f_equal. lia.
Qed.

Lemma u32_sub a x : u32 (a - u32 x) = u32 (a - x).
Proof. apply Zminus_mod_idemp_r. Qed.

Lemma checksum_sum h n :
  calculate_checksum h n = (2 ^ 32 - 1 - (callback h + cb_data h + next n + prev n + data n)) mod 2 ^ 32.
Proof.
  unfold calculate_checksum, not32. rewrite Z.lxor_0_l, <- u32_sub, foldl_u32, u32_sub.
  unfold u32, words_of. cbn [foldr]. f_equal. lia.
Qed.

(** A handler is accepted when the checksum it holds is the one of its words. *)
Definition checksum_ok (h : trap_handler) (n : list_node) : Prop := checksum h = calculate_checksum h n.
#[export] Instance checksum_ok_dec h n : Decision (checksum_ok h n).
Proof. unfold checksum_ok. apply _. Defined.

Definition total (h : trap_handler) (n : list_node) : Z :=
  callback h + cb_data h + next n + prev n + data n.

Lemma checksum_detects h n h' n' :
  checksum_ok h n → checksum h' = checksum h → (total h' n' - total h n) mod 2 ^ 32 ≠ 0 →
  ¬ checksum_ok h' n'.
Proof.
  unfold checksum_ok. rewrite !checksum_sum. fold (total h n) (total h' n'). intros H1 H2 H3 H4.
  apply H3. replace (total h' n' - total h n)
    with ((2 ^ 32 - 1 - total h n) - (2 ^ 32 - 1 - total h' n')) by lia.
  by rewrite Zminus_mod, <- H1, <- H2, H4, Z.sub_diag, Zmod_0_l.
Qed.

(** ** The trap lists as sequences of handlers *)

(** The lists hold the handlers [hs], each on one list, and every checksum is right. *)
Record traps_wf {W} (s : machine W) (hs : list (list Z)) : Prop := {
  tw_count : length (s_traps s) = Z.to_nat YJKERNEL_ARCH_TRAP_COUNT;
  tw_linked : linked NODE_OFFSET (tnodes s) (s_traps s) hs;
  tw_valid p : p ∈ concat hs → ∃ h n,
    handlers s !! p = Some h ∧ tnodes s !! (p + NODE_OFFSET) = Some n ∧ checksum_ok h n;
}.

(** [update_checksum] on the map of handlers. *)
Definition refresh (st : nodes) (p : Z) (hm : gmap Z trap_handler) : gmap Z trap_handler :=
  match hm !! p, st !! (p + NODE_OFFSET) with
  | Some h, Some n => <[p := TrapHandler (callback h) (cb_data h) (calculate_checksum h n)]> hm
  | _, _ => hm
  end.

Lemma refresh_ne st p hm q : q ≠ p → refresh st p hm !! q = hm !! q.
Proof. intros Hne. unfold refresh.
  destruct (hm !! p), (st !! (p + NODE_OFFSET)); [|done..]. by rewrite lookup_insert_ne.
Qed.
Lemma refresh_ok st p hm h n : hm !! p = Some h → st !! (p + NODE_OFFSET) = Some n →
  ∃ h', refresh st p hm !! p = Some h' ∧ checksum_ok h' n ∧ callback h' = callback h ∧ cb_data h' = cb_data h.
Proof. intros Hh Hn. unfold refresh. rewrite Hh, Hn, lookup_insert_eq.
  exists (TrapHandler (callback h) (cb_data h) (calculate_checksum h n)).
  unfold checksum_ok, calculate_checksum, words_of. cbn [callback cb_data checksum]. done.
Qed.

Section Proofs.
Context {W : Type}.
Local Abbreviation machine := (machine W).
Implicit Types s : machine.

Lemma update_checksum_eq s p : is_Some (handlers s !! p) → is_Some (tnodes s !! (p + NODE_OFFSET)) →
  update_checksum p s = Ok (tt, with_handlers (refresh (tnodes s) p (handlers s)) s).
Proof.
  intros [h Hh] [n Hn]. unfold update_checksum, checksum_at, store_handler, load_handler, in_nodes, load, refresh.
  repeat (unfold mbind, M_bind, mret, M_ret; cbn; rewrite ?Hh, ?Hn). by destruct s.
Qed.

(** What a registration at the end of the list [ps] does to the handlers. *)
Definition registered (st : nodes) (hm : gmap Z trap_handler) (ps : list Z) (out : Z) (h : trap_handler) :=
  from_option (refresh st) id (last ps) (refresh st out (<[out := h]> hm)).

Lemma update_neighbour_null s : update_neighbour NULL s = Ok (tt, s).
Proof. done. Qed.

Lemma update_neighbour_eq s node n : tnodes s !! node = Some n → node ≠ NULL →
  update_neighbour node s = update_checksum (data n) s.
Proof.
  intros Hn Hne. unfold update_neighbour. destruct (Z.eqb_spec node NULL); [done|]. cbn [negb].
  unfold in_nodes, load. unfold mbind, M_bind. rewrite Hn. by destruct s.
Qed.

Lemma store_handler_eq s p h : is_Some (handlers s !! p) →
  store_handler p h s = Ok (tt, with_handlers (<[p := h]> (handlers s)) s).
Proof. intros [h0 Hh]. unfold store_handler, load_handler, mbind, M_bind. by rewrite Hh. Qed.
Lemma in_nodes_eq {A} (op : M nodes A) s a n : op (tnodes s) = Ok (a, n) →
  in_nodes op s = Ok (a, with_tnodes n s).
Proof. intros H. unfold in_nodes. by rewrite H. Qed.

(** The callback and data that the handler at [p] was registered with. *)
Definition fields (h : trap_handler) : Z * Z := (callback h, cb_data h).
Definition registered_as s (p : Z) : option (Z * Z) := fields <$> handlers s !! p.

(** A handler ready to be registered: it exists, and is on no list. *)
Definition unregistered s (hs : list (list Z)) (out : Z) : Prop :=
  unlinked NODE_OFFSET (tnodes s) hs out ∧ is_Some (handlers s !! out).

(** The neighbours of the last handler of a list: the one before it, if any. *)
Lemma update_neighbours_eq s l ps out hm : dll (tnodes s) l (entries NODE_OFFSET (ps ++ [out])) →
  handlers s = refresh (tnodes s) out hm → (∀ p, p ∈ ps → is_Some (handlers s !! p)) →
  update_neighbours out s =
  Ok (tt, with_handlers (from_option (refresh (tnodes s)) id (last ps) (refresh (tnodes s) out hm)) s).
Proof.
  intros Hd Hhm Hh. unfold update_neighbours. rewrite entries_app in Hd. cbn in Hd.
  destruct (dll_split _ _ _ _ _ _ Hd) as (_ & Ho & _). cbn in Ho.
  assert (Hload : ∀ s', tnodes s' = tnodes s → in_nodes (load (out + NODE_OFFSET)) s' =
    Ok (ListNode NULL (last_or NULL (entries NODE_OFFSET ps)) out, s')).
  { intros s' E. unfold in_nodes, load. rewrite E, Ho, <- E. by destruct s'. }
  rewrite (M_bind_step _ _ _ _ _ (Hload _ eq_refl)). cbn [prev].
  destruct ps as [|p ps _] using rev_ind.
  { rewrite last_or_entries. cbn [last from_option].
    rewrite (M_bind_step _ _ _ _ _ (update_neighbour_null _)), (M_bind_step _ _ _ _ _ (Hload _ eq_refl)).
    cbn [next from_option]. rewrite update_neighbour_null. cbn. rewrite <- Hhm. by destruct s. }
  rewrite entries_app, <- (assoc_L (++)) in Hd. cbn in Hd.
  destruct (dll_split _ _ _ _ _ _ Hd) as (_ & Hp & _ & Hpn & _). cbn in Hp.
  rewrite last_or_entries, last_snoc. cbn [from_option].
  rewrite (M_bind_step _ _ _ tt (with_handlers (refresh (tnodes s) p (handlers s)) s)).
  - rewrite (M_bind_step _ _ _ _ _ (Hload (with_handlers _ s) eq_refl)). cbn [next]. by rewrite update_neighbour_null, Hhm.
  - rewrite (update_neighbour_eq _ _ _ Hp Hpn). cbn. apply update_checksum_eq; [|by eauto].
    apply Hh. set_solver.
Qed.

Lemma register_eq s hs out k cb d ps : traps_wf s hs → hs !! k = Some ps → unregistered s hs out →
  ∃ l l' st' h, trapmanager_register_trap out (Z.of_nat k) cb d s =
    Ok (tt, Machine (<[k := l']> (s_traps s)) (registered st' (handlers s) ps out h) st' (eflags_if s) (rest s)) ∧
    callback h = cb ∧ cb_data h = d ∧ dll (tnodes s) l (entries NODE_OFFSET ps) ∧
    dll st' l' (entries NODE_OFFSET (ps ++ [out])) ∧
    frame (out + NODE_OFFSET :: addrs (entries NODE_OFFSET ps)) (tnodes s) st' ∧
    linked NODE_OFFSET st' (<[k := l']> (s_traps s)) (<[k := ps ++ [out]]> hs).
Proof.
  intros Hwf Hk [Hun [h Hh]]. destruct (linked_lookup _ _ _ _ _ _ (tw_linked _ _ Hwf) Hk) as (l & Hl & _).
  destruct (linked_insert_back _ _ _ _ _ _ _ _ (tw_linked _ _ Hwf) Hk Hl Hun) as (l' & st' & E & Hd & Hd2 & Hf & Hl').
  destruct Hun as (Hni & _ & Hnn).
  assert (Hlt : (k < length (s_traps s))%nat) by by eapply lookup_lt_Some.
  exists l, l', st', (TrapHandler cb d (checksum h)). split_and!; [|done..].
  unfold trapmanager_register_trap.
  rewrite (M_bind_step _ _ _ (arch_irq_are_enabled (eflags_if s)) (with_if false s)) by done.
  rewrite (M_bind_step _ _ _ h (with_if false s)) by (unfold load_handler; cbn; by rewrite Hh).
  rewrite (M_bind_step _ _ _ _ _ (store_handler_eq (with_if false s) _ _ ltac:(eauto))).
  set (s1 := with_handlers _ _). rewrite (M_bind_step get _ s1 s1 s1) by done.
  rewrite (M_bind_step _ _ _ l s1) by (unfold lift; rewrite (rd_ok _ _ l); [done|lia|by rewrite Nat2Z.id]).
  rewrite (M_bind_step _ _ _ _ _ (in_nodes_eq (list_insert_back _ _ _) s1 _ _ E)).
  rewrite (M_bind_step _ _ _ (<[k := l']> (s_traps s)) (with_tnodes st' s1))
    by (unfold lift; rewrite wr_ok; [by rewrite Nat2Z.id|cbn; lia]).
  set (s2 := with_traps (<[k := l']> (s_traps s)) (with_tnodes st' s1)).
  rewrite (M_bind_step _ _ _ tt s2) by done. change st' with (tnodes s2) in Hd2.
  rewrite (M_bind_step _ _ _ _ _ (update_checksum_eq s2 out ltac:(cbn; rewrite lookup_insert_eq; eauto)
    ltac:(destruct (dll_entry _ _ _ _ out Hd2 ltac:(set_solver)) as (? & ? & _ & ->); eauto))).
  set (s3 := with_handlers _ s2).
  assert (Hps : ∀ p, p ∈ ps → is_Some (handlers s3 !! p)).
  { intros p Hp. assert (Hin : p ∈ concat hs) by by eapply in_concat.
    cbn. rewrite refresh_ne, lookup_insert_ne by set_solver.
    destruct (tw_valid _ _ Hwf p Hin) as (h' & n' & -> & _). eauto. }
  rewrite (M_bind_step _ _ _ _ _ (update_neighbours_eq s3 l' ps out _ Hd2 eq_refl Hps)).
  unfold irq_restore, update. cbn. by destruct (eflags_if s).
Qed.

(** The node of a handler that is not the last of its list is not touched. *)
Lemma inner_node_same st st' l l' ps out q : dll st l (entries NODE_OFFSET ps) → dll st' l' (entries NODE_OFFSET (ps ++ [out])) →
  q ∈ ps → last ps ≠ Some q → st' !! (q + NODE_OFFSET) = st !! (q + NODE_OFFSET).
Proof.
  intros Hd Hd' Hq Hl. apply list_elem_of_split in Hq as (k & r & ->).
  rewrite entries_app in Hd. cbn in Hd. rewrite <- (assoc_L (++)), entries_app in Hd'. cbn in Hd'.
  apply dll_split in Hd as (_ & -> & _), Hd' as (_ & -> & _). do 2 f_equal.
  destruct r as [|p r]; [by rewrite last_snoc in Hl|done].
Qed.

(** The handlers keep what they were registered with. *)
Lemma refresh_fields st p hm q : fields <$> refresh st p hm !! q = fields <$> hm !! q.
Proof.
  destruct (decide (q = p)) as [->|]; [|by rewrite refresh_ne].
  unfold refresh. destruct (hm !! p) as [h|] eqn:E; [|by rewrite E].
  destruct (st !! (p + NODE_OFFSET)); [by rewrite lookup_insert_eq|by rewrite E].
Qed.

Lemma registered_fields st hm ps out h q :
  fields <$> registered st hm ps out h !! q = if decide (q = out) then Some (fields h) else fields <$> hm !! q.
Proof.
  trans (fields <$> refresh st out (<[out := h]> hm) !! q).
  { unfold registered. destruct (last ps); cbn; [apply refresh_fields|done]. }
  rewrite refresh_fields. case_decide; [subst; by rewrite lookup_insert_eq|by rewrite lookup_insert_ne].
Qed.

Lemma last_elem (ps : list Z) p : last ps = Some p → p ∈ ps.
Proof. intros H. apply last_Some in H as [? ->]. set_solver. Qed.

Lemma registered_valid st st' hm l l' ps out h q : out ∉ ps → is_Some (hm !! out) →
  dll st l (entries NODE_OFFSET ps) → dll st' l' (entries NODE_OFFSET (ps ++ [out])) →
  frame (out + NODE_OFFSET :: addrs (entries NODE_OFFSET ps)) st st' →
  (q = out ∨ ∃ h n, hm !! q = Some h ∧ st !! (q + NODE_OFFSET) = Some n ∧ checksum_ok h n) →
  ∃ h' n', registered st' hm ps out h !! q = Some h' ∧ st' !! (q + NODE_OFFSET) = Some n' ∧ checksum_ok h' n'.
Proof.
  intros Hni Ho Hd Hd' Hf Hq. unfold registered. destruct (decide (q = out)) as [->|Hne].
  - destruct (dll_entry _ _ _ _ out Hd' ltac:(set_solver)) as (k & r & _ & Hn).
    destruct (refresh_ok st' out (<[out := h]> hm) _ _ (lookup_insert_eq _ _ _) Hn) as (h' & Hh' & Hc & _).
    exists h', (ListNode (first_or NULL (entries NODE_OFFSET r)) (last_or NULL (entries NODE_OFFSET k)) out). split_and!; [|done..].
    destruct (last ps) as [p|] eqn:E; [|done]. cbn. apply last_elem in E.
    by rewrite refresh_ne by set_solver.
  - destruct Hq as [|(h0 & n0 & Hh & Hn & Hc)]; [done|].
    assert (Hb : refresh st' out (<[out := h]> hm) !! q = Some h0) by by rewrite refresh_ne, lookup_insert_ne.
    destruct (decide (last ps = Some q)) as [E|E].
    + rewrite E. destruct (dll_entry _ _ _ _ q Hd' ltac:(apply last_elem in E; set_solver)) as (k & r & _ & Hn').
      destruct (refresh_ok st' q _ _ _ Hb Hn') as (h' & Hh' & Hc' & _). by eauto.
    + exists h0, n0. split_and!; [| |done].
      * destruct (last ps) as [p|]; [cbn|done]. rewrite refresh_ne; [done|congruence].
      * rewrite <- Hn. destruct (decide (q ∈ ps)) as [Hq|Hq]; [by eapply inner_node_same|].
        apply Hf. rewrite elem_of_cons, node_in_entries. intros [?|?]; [lia|done].
Qed.

Lemma register_ok s hs out k cb d ps : traps_wf s hs → hs !! k = Some ps → unregistered s hs out →
  ∃ s', trapmanager_register_trap out (Z.of_nat k) cb d s = Ok (tt, s') ∧
    traps_wf s' (<[k := ps ++ [out]]> hs) ∧ eflags_if s' = eflags_if s ∧ rest s' = rest s ∧
    (∀ q, registered_as s' q = if decide (q = out) then Some (cb, d) else registered_as s q) ∧
    (∀ q, q ≠ out → unregistered s hs q → unregistered s' (<[k := ps ++ [out]]> hs) q).
Proof.
  intros Hwf Hk Hun.
  destruct (register_eq _ _ _ _ cb d _ Hwf Hk Hun) as (l & l' & st' & h & E & <- & <- & Hd & Hd' & Hf & Hl').
  destruct Hun as [(Hni & _) Ho]. eexists. split; [exact E|]. split; [|split; [done|split; [done|]]].
  2: { split; [intros q; unfold registered_as; cbn; by rewrite registered_fields|].
       intros q Hq [(Hq1 & Hq2 & Hq3) Hq4]. split; [split_and!; [|cbn|done]|].
       - rewrite (concat_insert _ _ _ _ Hk). by apply not_elem_of_cons.
       - rewrite Hf; [done|]. rewrite elem_of_cons, node_in_entries.
         intros [?|?]; [lia|]. by eapply Hq1, in_concat.
       - apply (fmap_is_Some fields). cbn. rewrite registered_fields, decide_False by done. by apply fmap_is_Some. }
  split; cbn; [rewrite length_insert; apply (tw_count _ _ Hwf)|done|].
  intros q Hq. rewrite (concat_insert _ _ _ _ Hk) in Hq. eapply registered_valid; eauto.
  - intros Hp. by eapply Hni, in_concat.
  - apply elem_of_cons in Hq as [->|Hq]; [by left|]. right. by apply (tw_valid _ _ Hwf).
Qed.
End Proofs.

(** ** Dispatch *)

(** The registrations are the same. *)
Definition same_traps {W} (s s' : machine W) : Prop :=
  s_traps s' = s_traps s ∧ handlers s' = handlers s ∧ tnodes s' = tnodes s.

(** The handler at [p] is accepted. *)
Definition accepted {W} (s : machine W) (p : Z) : bool :=
  match handlers s !! p, tnodes s !! (p + NODE_OFFSET) with
  | Some h, Some n => bool_decide (checksum_ok h n)
  | _, _ => false
  end.

Section Dispatch.
Context {W : Type} (call : Z → Z → Z → Z → M (machine W) unit).
Local Abbreviation machine := (machine W).
Implicit Types s : machine.

(** Callbacks leave the registrations alone. *)
Definition keeps_traps (c : Z → Z → Z → Z → M machine unit) : Prop :=
  ∀ cb k f d s s', c cb k f d s = Ok (tt, s') → same_traps s s'.

(** The call of the handler registered at [p]. *)
Definition call_at (s : machine) (trapnum trapframe : Z) (p : Z) : M machine unit :=
  match handlers s !! p with
  | Some h => call (callback h) trapnum trapframe (cb_data h)
  | None => mret tt
  end.

(** What a trap does, on the sequence of the handlers: those that are accepted
    are called, in the order of registration. *)
Definition dispatch s (trapnum trapframe : Z) (ps : list Z) : M machine unit :=
  for_ (filter (λ p, accepted s p = true) ps) (call_at s trapnum trapframe).

Lemma run_handler_eq s s1 k f p : same_traps s s1 →
  is_Some (handlers s !! p) → is_Some (tnodes s !! (p + NODE_OFFSET)) →
  run_handler call k f p s1 = (if accepted s p then call_at s k f p s1 else Ok (tt, s1)).
Proof.
  intros (_ & Eh & En) [h Hh] [n Hn]. unfold run_handler, checksum_at, load_handler, in_nodes, load, accepted, call_at.
  rewrite Hh, Hn. unfold mbind, M_bind, mret, M_ret. rewrite Eh, Hh, En, Hn. cbn. rewrite Eh, Hh.
  unfold checksum_ok. rewrite <- En. case_bool_decide as E.
  - rewrite <- E, Z.eqb_refl. by destruct s1.
  - destruct (Z.eqb_spec (calculate_checksum h n) (checksum h)); [congruence|]. by destruct s1.
Qed.

(** Running every handler calls the ones that are accepted. *)
Lemma for_run_handler (Hcall : keeps_traps call) s k f ps : ∀ s1, same_traps s s1 →
  (∀ p, p ∈ ps → is_Some (handlers s !! p) ∧ is_Some (tnodes s !! (p + NODE_OFFSET))) →
  for_ ps (run_handler call k f) s1 = dispatch s k f ps s1.
Proof.
  induction ps as [|p ps IH]; intros s1 Hs Hp; [done|].
  destruct (Hp p ltac:(set_solver)) as [[h Hh] Hn].
  unfold dispatch. rewrite filter_cons. cbn [for_]. unfold mbind, M_bind.
  rewrite (run_handler_eq s) by eauto. unfold dispatch in IH.
  destruct (accepted s p); [rewrite decide_True by done|rewrite decide_False by done; by apply IH; [|set_solver]].
  cbn [for_]. unfold mbind, M_bind. destruct (call_at s k f p s1) as [[[] s2]|e] eqn:Ec; [|done].
  apply IH; [|set_solver]. unfold call_at in Ec. rewrite Hh in Ec.
  destruct (Hcall _ _ _ _ _ _ Ec) as (E1 & E2 & E3), Hs as (E4 & E5 & E6). split_and!; congruence.
Qed.

Lemma run_handler_keeps (Hcall : keeps_traps call) s k f p s1 s2 : same_traps s s1 →
  is_Some (handlers s !! p) → is_Some (tnodes s !! (p + NODE_OFFSET)) →
  run_handler call k f p s1 = Ok (tt, s2) → same_traps s s2.
Proof.
  intros Hs [h Hh] Hn E. rewrite (run_handler_eq s) in E by eauto.
  destruct (accepted s p); [|by simplify_eq]. unfold call_at in E. rewrite Hh in E.
  destruct (Hcall _ _ _ _ _ _ E) as (E1 & E2 & E3), Hs as (E4 & E5 & E6). split_and!; congruence.
Qed.

(** The lists hold the handlers [hs], whatever their checksums. *)
Record traps_linked s (hs : list (list Z)) : Prop := {
  tl_linked : linked NODE_OFFSET (tnodes s) (s_traps s) hs;
  tl_handlers p : p ∈ concat hs → is_Some (handlers s !! p);
}.

Lemma wf_linked s hs : traps_wf s hs → traps_linked s hs.
Proof using.
  intros Hwf. split; [apply (tw_linked _ _ Hwf)|]. intros p Hp.
  destruct (tw_valid _ _ Hwf p Hp) as (h & n & -> & _). eauto.
Qed.

Lemma filter_accepted s (ps : list Z) : (∀ p, p ∈ ps → accepted s p = true) → filter (λ p, accepted s p = true) ps = ps.
Proof using.
  induction ps as [|p ps IH]; intros H; [done|]. rewrite filter_cons_True by (apply H, elem_of_cons; by left).
  f_equal. apply IH. intros q Hq. apply H, elem_of_cons. by right.
Qed.

Lemma wf_accepted s hs p : traps_wf s hs → p ∈ concat hs → accepted s p = true.
Proof using.
  intros Hwf Hp. destruct (tw_valid _ _ Hwf p Hp) as (h & n & Hh & Hn & Hc).
  unfold accepted. rewrite Hh, Hn. by apply bool_decide_eq_true.
Qed.

Lemma trap_ok s hs k f ps : keeps_traps call → traps_linked s hs → hs !! k = Some ps →
  (k < Z.to_nat YJKERNEL_ARCH_TRAP_COUNT)%nat → eflags_if s = false →
  trapmanager_trap call (Z.of_nat k) f s = dispatch s (Z.of_nat k) f ps s.
Proof.
  intros Hcall Hl Hk Hlt Hif. unfold trapmanager_trap.
  rewrite (M_bind_step get _ s s s) by done.
  rewrite (M_bind_step _ _ _ tt s) by (unfold lift, ASSERT_IRQ_DISABLED; by rewrite Hif).
  destruct (Z.leb_spec YJKERNEL_ARCH_TRAP_COUNT (Z.of_nat k)); [lia|].
  destruct (linked_lookup _ _ _ _ _ _ (tl_linked _ _ Hl) Hk) as (l & Hlk & Hd).
  rewrite (M_bind_step _ _ _ l s) by (unfold lift; rewrite (rd_ok _ _ l); [done|lia|by rewrite Nat2Z.id]).
  assert (Hin : ∀ p, p ∈ ps → is_Some (handlers s !! p) ∧ is_Some (tnodes s !! (p + NODE_OFFSET))).
  { intros p Hp. split; [apply (tl_handlers _ _ Hl); by eapply in_concat|].
    destruct (dll_entry _ _ _ _ _ Hd Hp) as (? & ? & _ & ->). eauto. }
  destruct (Z.eqb_spec (front l) NULL) as [E|E].
  { rewrite <- (entries_data NODE_OFFSET ps). by rewrite (dll_front_null _ _ _ Hd E). }
  unfold mbind at 1, M_bind at 1.
  rewrite (foreach_dll _ _ (run_handler call (Z.of_nat k) f) (same_traps s) _ _ _ _ Hd); [|by split_and!|..].
  - rewrite entries_data. unfold mbind, M_bind. rewrite (for_run_handler Hcall s) by (done || by split_and!).
    by destruct (dispatch s (Z.of_nat k) f ps s) as [[[] ?]|].
  - intros q s1 n (_ & _ & En) Hq. unfold in_nodes, load, mbind, M_bind. rewrite En, Hq, <- En. by destruct s1.
  - intros q s1 n (_ & _ & En) Hq. unfold in_nodes, load, mbind, M_bind. rewrite En, Hq, <- En. by destruct s1.
  - rewrite entries_data. intros p s1 s2 Hp H1. destruct (Hin p Hp). by eapply run_handler_keeps.
Qed.
End Dispatch.

(** ** Properties *)

(** C27: Registering a handler makes it the last of its trap's list and leaves
    every handler, its neighbours included, with a checksum that is right; the
    other lists, the interrupt flag and the rest of the machine do not change,
    and every handler keeps the callback and data it was registered with. *)
Theorem trapmanager_register_keeps_checksums {W} (s : machine W) hs out k cb d ps :
  traps_wf s hs → hs !! k = Some ps → unregistered s hs out →
  ∃ s', trapmanager_register_trap out (Z.of_nat k) cb d s = Ok (tt, s') ∧
    traps_wf s' (<[k := ps ++ [out]]> hs) ∧ eflags_if s' = eflags_if s ∧ rest s' = rest s ∧
    (∀ q, registered_as s' q = if decide (q = out) then Some (cb, d) else registered_as s q).
Proof.
  intros Hwf Hk Hun. destruct (register_ok s hs out k cb d ps Hwf Hk Hun) as (s' & E & H1 & H2 & H3 & H4 & _).
  by exists s'.
Qed.

(** C26: A trap calls the handlers of its list whose checksums are right, in the
    order of registration, and skips the others: all are called when nothing
    was corrupted, and one whose callback, data or links changed by one word is
    not.  With interrupts enabled the trap fails its assertion; a number
    outside of the range has no effect. *)
Theorem trapmanager_trap_calls_accepted {W} (call : Z → Z → Z → Z → M (machine W) unit) s hs k f ps :
  keeps_traps call → traps_linked s hs → hs !! k = Some ps → (k < Z.to_nat YJKERNEL_ARCH_TRAP_COUNT)%nat →
  eflags_if s = false →
  trapmanager_trap call (Z.of_nat k) f s = dispatch call s (Z.of_nat k) f ps s ∧
  (traps_wf s hs → dispatch call s (Z.of_nat k) f ps = for_ ps (call_at call s (Z.of_nat k) f)) ∧
  (∀ p h n h0 n0, handlers s !! p = Some h → tnodes s !! (p + NODE_OFFSET) = Some n →
    checksum_ok h0 n0 → checksum h = checksum h0 → (total h n - total h0 n0) mod 2 ^ 32 ≠ 0 →
    accepted s p = false) ∧
  (∀ t, trapmanager_trap call t f (with_if true s) = Fault Assert_failed) ∧
  (∀ t, YJKERNEL_ARCH_TRAP_COUNT ≤ t → trapmanager_trap call t f s = Ok (tt, s)).
Proof.
  intros Hcall Hl Hk Hlt Hif. split_and!.
  - by eapply trap_ok.
  - intros Hwf. unfold dispatch. f_equal. apply filter_accepted.
    intros p Hp. eapply wf_accepted; [done|by eapply in_concat].
  - intros p h n h0 n0 Hh Hn Hc E Ht. unfold accepted. rewrite Hh, Hn.
    apply bool_decide_eq_false. by eapply checksum_detects.
  - done.
  - intros t Ht. unfold trapmanager_trap, mbind, M_bind, get, lift. rewrite Hif.
    by rewrite (proj2 (Z.leb_le _ _) Ht).
Qed.

(** ** A machine with two handlers for one trap *)

Definition log_call (cb k f d : Z) : M (machine (list (Z * Z))) unit := λ s,
  Ok (tt, with_rest (rest s ++ [(cb, d)]) s).

Definition no_handlers : list (list Z) := replicate 256 [].
Definition blank : machine (list (Z * Z)) :=
  Machine (replicate 256 list_init)
    (list_to_map [(1000, TrapHandler 0 0 0); (2000, TrapHandler 0 0 0)])
    (list_to_map [(1012, ListNode 0 0 0); (2012, ListNode 0 0 0)]) false [].

Definition state_of {S A} (s : S) (r : res (A * S)) : S := match r with Ok (_, s') => s' | Fault _ => s end.
Definition one_handler : machine (list (Z * Z)) :=
  state_of blank (trapmanager_register_trap 1000 14 7 70 blank).
Definition two_handlers : machine (list (Z * Z)) :=
  state_of blank (trapmanager_register_trap 2000 14 8 80 one_handler).

Lemma concat_no_handlers : concat no_handlers = [].
Proof. vm_compute. reflexivity. Qed.
Lemma blank_wf : traps_wf blank no_handlers.
Proof.
  split; [done|apply linked_empty|rewrite concat_no_handlers; set_solver].
Qed.

Lemma one_handler_wf : traps_wf one_handler (<[14%nat := [1000]]> no_handlers) ∧
  unregistered one_handler (<[14%nat := [1000]]> no_handlers) 2000.
Proof.
  destruct (register_ok blank no_handlers 1000 14 7 70 []) as (s' & E & Hwf & _).
  - apply blank_wf.
  - done.
  - split; [split_and!; [rewrite concat_no_handlers; set_solver|by eexists|done]|by eexists].
  - assert (Es : one_handler = s') by exact (f_equal (state_of blank) E). rewrite Es. split; [done|].
    split; [split_and!; [|rewrite <- Es; vm_compute; by eexists|done]|rewrite <- Es; vm_compute; by eexists].
    rewrite (concat_insert no_handlers 14 [] 1000 eq_refl), concat_no_handlers, list_elem_of_singleton. lia.
Qed.

Lemma two_handlers_wf : traps_wf two_handlers (<[14%nat := [1000; 2000]]> no_handlers).
Proof.
  destruct one_handler_wf as [Hwf Hun].
  destruct (register_ok one_handler _ 2000 14 8 80 [1000] Hwf ltac:(done) Hun) as (s' & E & Hwf' & _).
  assert (Es : two_handlers = s') by exact (f_equal (state_of blank) E). rewrite Es.
  by rewrite list_insert_insert_eq in Hwf'.
Qed.

Lemma trapmanager_register_keeps_checksums_witness :
  ∃ s', trapmanager_register_trap 2000 14 8 80 one_handler = Ok (tt, s') ∧
    traps_wf s' (<[14%nat := [1000; 2000]]> (<[14%nat := [1000]]> no_handlers)).
Proof.
  destruct (trapmanager_register_keeps_checksums one_handler (<[14%nat := [1000]]> no_handlers) 2000 14 8 80 [1000])
    as (s' & E & Hwf & _).
  - apply one_handler_wf.
  - reflexivity.
  - apply one_handler_wf.
  - exists s'. split; [exact E|exact Hwf].
Defined.

Lemma log_call_keeps : keeps_traps log_call.
Proof. intros cb k f d s s' [= <-]. done. Qed.

(** A trap with two handlers, of which the first is then corrupted. *)
Definition corrupted : machine (list (Z * Z)) :=
  with_handlers (alter (λ h, TrapHandler 6 (cb_data h) (checksum h)) 1000 (handlers two_handlers)) two_handlers.

Lemma trapmanager_trap_calls_accepted_witness :
  trapmanager_trap log_call 14 0 two_handlers = Ok (tt, with_rest [(7, 70); (8, 80)] two_handlers) ∧
  trapmanager_trap log_call 14 0 corrupted = Ok (tt, with_rest [(8, 80)] corrupted).
Proof.
  split.
  - destruct (trapmanager_trap_calls_accepted log_call two_handlers _ 14 0 [1000; 2000] log_call_keeps
      (wf_linked _ _ two_handlers_wf) ltac:(reflexivity) ltac:(vm_compute; lia) ltac:(reflexivity)) as (E & Ed & _).
    rewrite (Ed two_handlers_wf) in E. etransitivity; [exact E|]. vm_compute. reflexivity.
  - vm_compute. reflexivity.
Defined.
