(* ===== verification/Ports.v ===== *)
(** Access to i/o ports (src/kernel/arch/i586/ioport.h) and the chips behind
    some of them: the two 8259A interrupt controllers and channel 0 of the 8254
    timer, with what their data sheets say of the accesses that the kernel makes. *)
From S2P Require Import Prelude.

Class PortOps (D : Type) := {
  archi586_out8 : Z → Z → M D unit;
  archi586_in8 : Z → M D Z;
}.

(** ** The 8259A *)

(** What the next write to the data port is. *)
Inductive pic_phase := Icw2 (icw4 : bool) | Icw3 (icw4 : bool) | Icw4 | Operational.

Record pic_chip := PicChip {
  imr : Z; isr : Z; irr : Z; read_isr : bool; phase : pic_phase;
  vector_base : Z; cascade : Z; mode : Z;
}.

Definition pic_with_imr (m : Z) (c : pic_chip) : pic_chip :=
  PicChip m (isr c) (irr c) (read_isr c) (phase c) (vector_base c) (cascade c) (mode c).
Definition pic_with_isr (i : Z) (c : pic_chip) : pic_chip :=
  PicChip (imr c) i (irr c) (read_isr c) (phase c) (vector_base c) (cascade c) (mode c).
Definition pic_with_read_isr (b : bool) (c : pic_chip) : pic_chip :=
  PicChip (imr c) (isr c) (irr c) b (phase c) (vector_base c) (cascade c) (mode c).

(** The non-specific end of interrupt: the level in service with the highest
    priority, which is the lowest bit, is no longer in service. *)
Definition pic_eoi (c : pic_chip) : pic_chip := pic_with_isr (Z.land (isr c) (isr c - 1)) c.

(** A write to the command port: ICW1, OCW3 (which selects the register that
    is read) or OCW2. *)
Definition pic_command (v : Z) (c : pic_chip) : pic_chip :=
  if Z.testbit v 4 then PicChip 0 0 0 false (Icw2 (Z.testbit v 0)) (vector_base c) (cascade c) 0
  else if Z.testbit v 3 then if Z.testbit v 1 then pic_with_read_isr (Z.testbit v 0) c else c
  else if Z.shiftr v 5 =? 1 then pic_eoi c else c.

(** A write to the data port: ICW2 to ICW4, or the interrupt mask. *)
Definition pic_data (v : Z) (c : pic_chip) : pic_chip :=
  match phase c with
  | Icw2 i4 => PicChip (imr c) (isr c) (irr c) (read_isr c) (Icw3 i4) (Z.land v 0xf8) (cascade c) (mode c)
  | Icw3 i4 => PicChip (imr c) (isr c) (irr c) (read_isr c) (if i4 then Icw4 else Operational) (vector_base c) v (mode c)
  | Icw4 => PicChip (imr c) (isr c) (irr c) (read_isr c) Operational (vector_base c) (cascade c) v
  | Operational => pic_with_imr v c
  end.

(** ** Channel 0 of the 8254 *)

(** The mode byte, the low byte once it is written, and the reload value once
    both bytes are. *)
Record pit_chip := PitChip { pit_mode : Z; pit_low : option Z; pit_reload : option Z }.

Definition pit_control (v : Z) (c : pit_chip) : pit_chip :=
  if Z.shiftr v 6 =? 0 then PitChip (Z.land v 0x3f) None None else c.
Definition pit_data (v : Z) (c : pit_chip) : pit_chip :=
  match pit_low c with
  | None => PitChip (pit_mode c) (Some v) (pit_reload c)
  | Some l => PitChip (pit_mode c) None (Some (l + 2 ^ 8 * v))
  end.

(** ** The chips on the bus *)

Record chips := Chips { master : pic_chip; slave : pic_chip; pit : pit_chip }.

Definition chips_out (port v : Z) (c : chips) : chips :=
  if port =? 0x20 then Chips (pic_command v (master c)) (slave c) (pit c)
  else if port =? 0x21 then Chips (pic_data v (master c)) (slave c) (pit c)
  else if port =? 0xa0 then Chips (master c) (pic_command v (slave c)) (pit c)
  else if port =? 0xa1 then Chips (master c) (pic_data v (slave c)) (pit c)
  else if port =? 0x43 then Chips (master c) (slave c) (pit_control v (pit c))
  else if port =? 0x40 then Chips (master c) (slave c) (pit_data v (pit c))
  else c.

Definition pic_read (c : pic_chip) : Z := u8 (if read_isr c then isr c else irr c).

(** The bytes that are read; [None] for the ports of other devices. *)
Definition chips_in (port : Z) (c : chips) : option Z :=
  if port =? 0x20 then Some (pic_read (master c))
  else if port =? 0x21 then Some (u8 (imr (master c)))
  else if port =? 0xa0 then Some (pic_read (slave c))
  else if port =? 0xa1 then Some (u8 (imr (slave c)))
  else None.

(** Accesses to ports act on the chips as described, and those to other ports
    do not act on them. *)
Class PortLaws (D : Type) `{!PortOps D} := {
  chips_of : D → chips;
  out8_chips port v d : ∃ d', archi586_out8 port v d = Ok (tt, d') ∧ chips_of d' = chips_out port v (chips_of d);
  in8_chips port d : ∃ x d', archi586_in8 port d = Ok (x, d') ∧ chips_of d' = chips_of d ∧
    (∀ y, chips_in port (chips_of d) = Some y → x = y);
}.

(** A machine with nothing but the chips. *)
Definition chips_out8 (port v : Z) : M chips unit := λ c, Ok (tt, chips_out port v c).
Definition chips_in8 (port : Z) : M chips Z := λ c, Ok (default 0xff (chips_in port c), c).
#[export] Instance chips_ports : PortOps chips := {| archi586_out8 := chips_out8; archi586_in8 := chips_in8 |}.
#[export] Instance chips_port_laws : PortLaws chips.
Proof.
  refine {| chips_of := id |}.
  - intros port v d. by eexists.
  - intros port d. eexists _, d. split_and!; [done|done|]. intros y Hy. cbn in Hy. by rewrite Hy.
Defined.
