(* ===== verification/Pic.v ===== *)
(** The interrupt controllers and the timer (src/kernel/arch/i586/pic.c, pic.h,
    pit.c): the handlers of each interrupt line, called from the trap of the
    line, and the system timer, whose handler counts the ticks and schedules. *)
From S2P Require Import Prelude Arch CList StructList Trap Ports.

Definition CMDPORT_MASTER : Z := 0x20.
Definition DATAPORT_MASTER : Z := 0x21.
Definition CMDPORT_SLAVE : Z := 0xa0.
Definition DATAPORT_SLAVE : Z := 0xa1.
Definition CMD_READISR : Z := 0x0b.
Definition CMD_EOI : Z := 0x20.
Definition SLAVEPIN_ON_MASTER : Z := 2.
Definition IRQS_PER_PIC : Z := 8.
Definition IRQS_TOTAL : Z := 16.
Definition PIC_VECTOR_BASE : Z := 0x20.
Definition PIC_ICW1_FLAG_ICW4 : Z := Z.shiftl 1 0.
Definition PIC_ICW1_FLAG_INIT : Z := Z.shiftl 1 4.
Definition PIC_ICW4_FLAG_8086MODE : Z := Z.shiftl 1 0.

(** A [struct archi586_pic_irq_handler] without its [node]. *)
Record irq_handler := IrqHandler { irq_callback : Z; irq_data : Z }.
Definition IRQ_NODE_OFFSET : Z := 8.

(** The handlers of each line, the number of ticks, and the devices. *)
Record board (D : Type) := Board {
  s_irqs : list clist; irq_handlers : gmap Z irq_handler; inodes : nodes;
  g_ticktime : Z; dev : D;
}.
Arguments Board {D}. Arguments s_irqs {D}. Arguments irq_handlers {D}. Arguments inodes {D}.
Arguments g_ticktime {D}. Arguments dev {D}.

Section Operations.
Context {D : Type} `{!PortOps D}.
Local Abbreviation board := (board D).
Local Abbreviation machine := (machine board).
Implicit Types b : board.

(** ** Access to the state *)

Definition with_irqs (l : list clist) b : board := Board l (irq_handlers b) (inodes b) (g_ticktime b) (dev b).
Definition with_irq_handlers (h : gmap Z irq_handler) b : board :=
  Board (s_irqs b) h (inodes b) (g_ticktime b) (dev b).
Definition with_inodes (n : nodes) b : board := Board (s_irqs b) (irq_handlers b) n (g_ticktime b) (dev b).
Definition with_ticktime (t : Z) b : board := Board (s_irqs b) (irq_handlers b) (inodes b) t (dev b).
Definition with_dev (d : D) b : board := Board (s_irqs b) (irq_handlers b) (inodes b) (g_ticktime b) d.

Definition on_board {A} (op : M board A) : M machine A := in_rest op.
Definition in_dev {A} (op : M D A) : M machine A := on_board (λ b,
  match op (dev b) with Ok (a, d) => Ok (a, with_dev d b) | Fault f => Fault f end).
Definition in_inodes {A} (op : M nodes A) : M machine A := on_board (λ b,
  match op (inodes b) with Ok (a, n) => Ok (a, with_inodes n b) | Fault f => Fault f end).
Definition load_irq_handler (p : Z) : M machine irq_handler := on_board (λ b,
  match irq_handlers b !! p with Some h => Ok (h, b) | None => Fault Bad_pointer end).
Definition out8 (port v : Z) : M machine unit := in_dev (archi586_out8 port (u8 v)).
Definition in8 (port : Z) : M machine Z := in_dev (archi586_in8 port).

(** ** The controllers *)

Definition readirqreg (readcmd : Z) : M machine Z :=
  _ ← out8 CMDPORT_MASTER readcmd;
  _ ← out8 CMDPORT_SLAVE readcmd;
  s ← in8 CMDPORT_SLAVE;
  m ← in8 CMDPORT_MASTER;
  mret (u16 (Z.lor (Z.shiftl s 8) m)).
Definition readisr : M machine Z := readirqreg CMD_READISR.

Definition getirqmask : M machine Z :=
  master_mask ← in8 DATAPORT_MASTER;
  slave_mask ← in8 DATAPORT_SLAVE;
  mret (u16 (Z.lor (Z.shiftl slave_mask 8) master_mask)).
Definition setirqmask (mask : Z) : M machine unit :=
  _ ← out8 DATAPORT_MASTER mask;
  out8 DATAPORT_SLAVE (Z.shiftr mask 8).

Definition archi586_pic_send_eoi (irq : Z) : M machine unit :=
  _ ← (if IRQS_PER_PIC <=? irq then out8 CMDPORT_SLAVE CMD_EOI else mret tt);
  out8 CMDPORT_MASTER CMD_EOI.

Definition checkspuriousirq (irq : Z) : M machine bool :=
  r ← readisr;
  let is_real := negb (Z.land r (Z.shiftl 1 irq) =? 0) in
  if irq =? 7 then mret is_real
  else if irq =? 15 then
    _ ← (if negb is_real then archi586_pic_send_eoi SLAVEPIN_ON_MASTER else mret tt);
    mret is_real
  else mret true.

Definition archi586_pic_is_irq_masked (irq : Z) : M machine bool :=
  m ← getirqmask;
  mret (negb (Z.land m (Z.shiftl 1 irq) =? 0)).
Definition archi586_pic_mask_irq (irq : Z) : M machine unit :=
  m ← getirqmask;
  setirqmask (u16 (Z.lor m (Z.shiftl 1 irq))).
Definition archi586_pic_unmask_irq (irq : Z) : M machine unit :=
  m ← getirqmask;
  setirqmask (u16 (Z.land m (not32 (Z.shiftl 1 irq)))).

Definition archi586_pic_register_handler (out irqnum cb d : Z) : M machine unit :=
  prev_interrupts ← irq_disable;
  _ ← load_irq_handler out;
  _ ← on_board (λ b, Ok (tt, with_irq_handlers (<[out := IrqHandler cb d]> (irq_handlers b)) b));
  s ← get;
  l ← lift (rd (s_irqs (rest s)) irqnum);
  l ← in_inodes (list_insert_back l (out + IRQ_NODE_OFFSET) out);
  t ← lift (wr (s_irqs (rest s)) irqnum l);
  _ ← on_board (λ b, Ok (tt, with_irqs t b));
  irq_restore prev_interrupts.

(** ** Dispatch *)

(** The code at an address, called with a line and the handler's data. *)
Context (irqcall : Z → Z → Z → M machine unit).

Definition run_irq_handler (irqnum handler : Z) : M machine unit :=
  _ ← massert (negb (handler =? NULL));
  h ← load_irq_handler handler;
  irqcall (irq_callback h) irqnum (irq_data h).

(** One unit of fuel for each node of the store. *)
Definition default_irq_handler (trapnum trapframe d : Z) : M machine unit :=
  let irqnum := trapnum - PIC_VECTOR_BASE in
  _ ← massert (irqnum <? IRQS_TOTAL);
  is_suprious_irq ← checkspuriousirq (u8 irqnum);
  s ← get;
  l ← lift (rd (s_irqs (rest s)) irqnum);
  if front l =? NULL then mret tt
  else
    _ ← list_foreach (size (inodes (rest s))) (λ p, n ← in_inodes (load p); mret (next n))
          (λ p, n ← in_inodes (load p); _ ← run_irq_handler irqnum (data n); mret None)
          (front l) : M machine (option unit);
    if negb is_suprious_irq then archi586_pic_send_eoi (u8 irqnum) else mret tt.

(** ** Initialisation *)

(** The addresses of [default_irq_handler] and of the elements of
    [s_traphandler], which are 24 bytes each. *)
Context (DEFAULT_IRQ_HANDLER s_traphandler : Z).
Definition traphandler (i : Z) : Z := s_traphandler + 24 * i.

Definition archi586_pic_init : M machine unit :=
  _ ← out8 CMDPORT_MASTER (Z.lor PIC_ICW1_FLAG_INIT PIC_ICW1_FLAG_ICW4);
  _ ← out8 CMDPORT_SLAVE (Z.lor PIC_ICW1_FLAG_INIT PIC_ICW1_FLAG_ICW4);
  _ ← out8 DATAPORT_MASTER PIC_VECTOR_BASE;
  _ ← out8 DATAPORT_SLAVE (PIC_VECTOR_BASE + IRQS_PER_PIC);
  _ ← out8 DATAPORT_MASTER (Z.shiftl 1 SLAVEPIN_ON_MASTER);
  _ ← out8 DATAPORT_SLAVE SLAVEPIN_ON_MASTER;
  _ ← out8 DATAPORT_MASTER PIC_ICW4_FLAG_8086MODE;
  _ ← out8 DATAPORT_SLAVE PIC_ICW4_FLAG_8086MODE;
  _ ← for_ (seqZ 0 8) (λ i,
    _ ← trapmanager_register_trap (traphandler i) (PIC_VECTOR_BASE + i) DEFAULT_IRQ_HANDLER 0;
    trapmanager_register_trap (traphandler (IRQS_PER_PIC + i)) (PIC_VECTOR_BASE + IRQS_PER_PIC + i) DEFAULT_IRQ_HANDLER 0);
  setirqmask (u16 (not32 (u16 (Z.shiftl 1 2)))).
End Operations.

(** ** The chips during an operation *)

Section Chips.
Context {D : Type} `{!PortOps D, !PortLaws D}.
Local Abbreviation board := (board D).
Local Abbreviation machine := (machine board).
Implicit Types s : machine.

Definition the_chips s : chips := chips_of (dev (rest s)).

(** Only the devices moved, the chips as [f] says. *)
Definition moved (f : chips → chips) s s' : Prop :=
  ∃ d, s' = with_rest (with_dev d (rest s)) s ∧ chips_of d = f (the_chips s).

Lemma moved_chips f s s' : moved f s s' → the_chips s' = f (the_chips s).
Proof. by intros (d & -> & ?). Qed.
Lemma moved_id s : moved id s s.
Proof. exists (dev (rest s)). split; [|done]. by destruct s as [? ? ? ? []]. Qed.
Lemma moved_trans f g s s1 s2 : moved f s s1 → moved g s1 s2 → moved (g ∘ f) s s2.
Proof.
  intros (d1 & -> & H1) (d2 & -> & H2). exists d2. split; [done|]. unfold compose.
  by rewrite <- H1.
Qed.
Lemma moved_ext f g s s' : f (the_chips s) = g (the_chips s) → moved f s s' → moved g s s'.
Proof. intros E (d & -> & H). exists d. by rewrite <- E. Qed.

Lemma out8_ok port v s : ∃ s', out8 port v s = Ok (tt, s') ∧ moved (chips_out port (u8 v)) s s'.
Proof.
  destruct (out8_chips port (u8 v) (dev (rest s))) as (d & E & H).
  eexists. split; [|by eexists]. unfold out8, in_dev, on_board, in_rest. by rewrite E.
Qed.

Lemma in8_ok port s : ∃ x s', in8 port s = Ok (x, s') ∧ moved id s s' ∧
  (∀ y, chips_in port (the_chips s) = Some y → x = y).
Proof.
  destruct (in8_chips port (dev (rest s))) as (x & d & E & H & Hx).
  eexists x, _. split; [unfold in8, in_dev, on_board, in_rest; by rewrite E|]. split; [by eexists|done].
Qed.

(** ** The interrupt mask *)

Lemma u8_testbit x k : 0 ≤ k → Z.testbit (u8 x) k = (k <? 8) && Z.testbit x k.
Proof using.
  intros Hk. unfold u8. destruct (Z.ltb_spec k 8).
  - by rewrite Z.mod_pow2_bits_low.
  - by rewrite Z.mod_pow2_bits_high by lia.
Qed.
Lemma u16_testbit x k : 0 ≤ k → Z.testbit (u16 x) k = (k <? 16) && Z.testbit x k.
Proof using.
  intros Hk. unfold u16. destruct (Z.ltb_spec k 16).
  - by rewrite Z.mod_pow2_bits_low.
  - by rewrite Z.mod_pow2_bits_high by lia.
Qed.

(** The bit of a line in a pair of 8-bit registers. *)
Definition line_bit (m n : Z) (k : Z) : bool := if k <? 8 then Z.testbit m k else Z.testbit n (k - 8).

Lemma pair_testbit m n k : 0 ≤ k < 16 →
  Z.testbit (u16 (Z.lor (Z.shiftl (u8 n) 8) (u8 m))) k = line_bit m n k.
Proof using.
  intros Hk. unfold line_bit. rewrite u16_testbit, Z.lor_spec, Z.shiftl_spec, (u8_testbit m) by lia.
  destruct (Z.ltb_spec k 16), (Z.ltb_spec k 8); try lia; cbn [andb].
  - rewrite Z.testbit_neg_r by lia. done.
  - rewrite u8_testbit by lia. rewrite orb_false_r. by destruct (Z.ltb_spec (k - 8) 8); [|lia].
Qed.

(** The registers that hold a 16-bit value hold its bits. *)
Lemma split_testbit m k : 0 ≤ k < 16 → line_bit (u8 m) (u8 (Z.shiftr m 8)) k = Z.testbit m k.
Proof using.
  intros Hk. unfold line_bit. destruct (Z.ltb_spec k 8); rewrite u8_testbit by lia.
  - by destruct (Z.ltb_spec k 8); [|lia].
  - rewrite Z.shiftr_spec by lia. destruct (Z.ltb_spec (k - 8) 8); [|lia]. cbn. f_equal. lia.
Qed.

Lemma land_bit_nonzero x k : 0 ≤ k → negb (Z.land x (Z.shiftl 1 k) =? 0) = Z.testbit x k.
Proof using.
  intros Hk. rewrite Z.shiftl_1_l. destruct (Z.testbit x k) eqn:E.
  - destruct (Z.eqb_spec (Z.land x (2 ^ k)) 0) as [E0|]; [|done].
    assert (H : Z.testbit (Z.land x (2 ^ k)) k = false) by (rewrite E0; apply Z.bits_0).
    by rewrite Z.land_spec, Z.pow2_bits_true, E in H.
  - destruct (Z.eqb_spec (Z.land x (2 ^ k)) 0) as [|E0]; [done|]. destruct E0.
    apply Z.bits_inj'. intros j Hj. rewrite Z.land_spec, Z.bits_0.
    destruct (decide (j = k)) as [->|]; [by rewrite E|]. rewrite Z.pow2_bits_false by lia. apply andb_false_r.
Qed.

(** Whether a line is masked, and in service. *)
Definition masked (c : chips) (k : Z) : bool := line_bit (imr (master c)) (imr (slave c)) k.
Definition in_service (c : chips) (k : Z) : bool := line_bit (isr (master c)) (isr (slave c)) k.

Definition operational (c : chips) : Prop := phase (master c) = Operational ∧ phase (slave c) = Operational.
Definition with_mask (m : Z) (c : chips) : chips :=
  Chips (pic_with_imr (u8 m) (master c)) (pic_with_imr (u8 (Z.shiftr m 8)) (slave c)) (pit c).

Lemma masked_with_mask m c k : 0 ≤ k < 16 → masked (with_mask m c) k = Z.testbit m k.
Proof using. apply split_testbit. Qed.

Lemma getirqmask_ok s : ∃ m s', getirqmask s = Ok (m, s') ∧ moved id s s' ∧
  (∀ k, 0 ≤ k < 16 → Z.testbit m k = masked (the_chips s) k).
Proof.
  destruct (in8_ok DATAPORT_MASTER s) as (x & s1 & E1 & M1 & H1).
  destruct (in8_ok DATAPORT_SLAVE s1) as (y & s2 & E2 & M2 & H2).
  eexists _, s2. unfold getirqmask. rewrite (M_bind_step _ _ _ _ _ E1), (M_bind_step _ _ _ _ _ E2).
  split; [done|]. split; [apply (moved_trans _ _ _ _ _ M1 M2)|]. intros k Hk.
  rewrite (H1 _ eq_refl), (H2 _ eq_refl), (moved_chips _ _ _ M1). by apply pair_testbit.
Qed.

Lemma setirqmask_ok m s : operational (the_chips s) →
  ∃ s', setirqmask m s = Ok (tt, s') ∧ moved (with_mask m) s s'.
Proof.
  intros [Hm Hs]. destruct (out8_ok DATAPORT_MASTER m s) as (s1 & E1 & M1).
  destruct (out8_ok DATAPORT_SLAVE (Z.shiftr m 8) s1) as (s2 & E2 & M2).
  exists s2. unfold setirqmask. rewrite (M_bind_step _ _ _ _ _ E1). split; [done|].
  eapply moved_ext; [|by eapply moved_trans]. unfold compose, chips_out. cbn.
  unfold pic_data. by rewrite Hm, Hs.
Qed.

Lemma testbit_shift_1 j k : 0 ≤ j → 0 ≤ k → Z.testbit (Z.shiftl 1 k) j = (j =? k).
Proof using.
  intros Hj Hk. rewrite Z.shiftl_1_l. destruct (Z.eqb_spec j k) as [->|]; [by apply Z.pow2_bits_true|].
  apply Z.pow2_bits_false. lia.
Qed.

Definition change_mask (f : Z → Z) : M machine unit := m ← getirqmask; setirqmask (u16 (f m)).
Lemma change_mask_ok (f : Z → Z) (g : bool → bool) irq s : operational (the_chips s) →
  (∀ m k, 0 ≤ k < 16 → Z.testbit (f m) k = if k =? irq then g (Z.testbit m k) else Z.testbit m k) →
  ∃ m s', change_mask f s = Ok (tt, s') ∧ moved (with_mask m) s s' ∧
    (∀ k, 0 ≤ k < 16 → masked (the_chips s') k =
       if k =? irq then g (masked (the_chips s) k) else masked (the_chips s) k).
Proof.
  intros Hop Hf. destruct (getirqmask_ok s) as (m & s1 & E1 & M1 & Hm).
  destruct (setirqmask_ok (u16 (f m)) s1) as (s2 & E2 & M2); [by rewrite (moved_chips _ _ _ M1)|].
  exists (u16 (f m)), s2. unfold change_mask. rewrite (M_bind_step _ _ _ _ _ E1). split; [done|].
  split; [apply (moved_trans _ _ _ _ _ M1 M2)|]. intros k Hk.
  rewrite (moved_chips _ _ _ M2), masked_with_mask, u16_testbit by lia.
  destruct (Z.ltb_spec k 16); [|lia]. cbn [andb]. by rewrite Hf, Hm.
Qed.

Lemma mask_irq_ok irq s : operational (the_chips s) → 0 ≤ irq < 16 →
  ∃ m s', archi586_pic_mask_irq irq s = Ok (tt, s') ∧ moved (with_mask m) s s' ∧
    (∀ k, 0 ≤ k < 16 → masked (the_chips s') k = if k =? irq then true else masked (the_chips s) k).
Proof.
  intros Hop Hi. apply (change_mask_ok (λ m, Z.lor m (Z.shiftl 1 irq)) (λ _, true)); [done|].
  intros m k Hk. rewrite Z.lor_spec, testbit_shift_1 by lia.
  destruct (k =? irq); [apply orb_true_r|apply orb_false_r].
Qed.

Lemma unmask_irq_ok irq s : operational (the_chips s) → 0 ≤ irq < 16 →
  ∃ m s', archi586_pic_unmask_irq irq s = Ok (tt, s') ∧ moved (with_mask m) s s' ∧
    (∀ k, 0 ≤ k < 16 → masked (the_chips s') k = if k =? irq then false else masked (the_chips s) k).
Proof.
  intros Hop Hi. apply (change_mask_ok (λ m, Z.land m (not32 (Z.shiftl 1 irq))) (λ _, false)); [done|].
  intros m k Hk. rewrite Z.land_spec, not32_testbit, testbit_shift_1 by lia.
  destruct (k =? irq); [apply andb_false_r|apply andb_true_r].
Qed.

Lemma is_irq_masked_ok irq s : 0 ≤ irq < 16 →
  ∃ s', archi586_pic_is_irq_masked irq s = Ok (masked (the_chips s) irq, s') ∧ moved id s s'.
Proof.
  intros Hi. destruct (getirqmask_ok s) as (m & s1 & E1 & M1 & Hm). exists s1.
  unfold archi586_pic_is_irq_masked. rewrite (M_bind_step _ _ _ _ _ E1). split; [|done].
  unfold mret, M_ret. by rewrite land_bit_nonzero, Hm by lia.
Qed.

(** ** Spurious interrupts and the end of interrupts *)

(** Both controllers are set to deliver the interrupts in service. *)
Definition selecting_isr (c : chips) : chips :=
  Chips (pic_with_read_isr true (master c)) (pic_with_read_isr true (slave c)) (pit c).
Definition eoi_chips (irq : Z) (c : chips) : chips :=
  Chips (pic_eoi (master c)) (if 8 <=? irq then pic_eoi (slave c) else slave c) (pit c).

(** An interrupt on the last line of a controller is real if it is in service. *)
Definition is_real (c : chips) (irq : Z) : bool :=
  if (irq =? 7) || (irq =? 15) then in_service c irq else true.

(** What [checkspuriousirq] does to the chips. *)
Definition checked (irq : Z) (c : chips) : chips :=
  if (irq =? 15) && negb (is_real c irq) then eoi_chips 2 (selecting_isr c) else selecting_isr c.

Lemma readisr_ok s : ∃ r s', readisr s = Ok (r, s') ∧ moved selecting_isr s s' ∧
  (∀ k, 0 ≤ k < 16 → Z.testbit r k = in_service (the_chips s) k).
Proof.
  destruct (out8_ok CMDPORT_MASTER CMD_READISR s) as (s1 & E1 & M1).
  destruct (out8_ok CMDPORT_SLAVE CMD_READISR s1) as (s2 & E2 & M2).
  destruct (in8_ok CMDPORT_SLAVE s2) as (y & s3 & E3 & M3 & H3).
  destruct (in8_ok CMDPORT_MASTER s3) as (x & s4 & E4 & M4 & H4).
  pose proof (moved_trans _ _ _ _ _ M1 M2) as M12. pose proof (moved_trans _ _ _ _ _ M12 M3) as M123.
  eexists _, s4. unfold readisr, readirqreg.
  rewrite (M_bind_step _ _ _ _ _ E1), (M_bind_step _ _ _ _ _ E2), (M_bind_step _ _ _ _ _ E3), (M_bind_step _ _ _ _ _ E4).
  split; [done|]. split; [apply (moved_trans _ _ _ _ _ M123 M4)|]. intros k Hk.
  rewrite (H3 _ eq_refl), (H4 _ eq_refl), (moved_chips _ _ _ M123), (moved_chips _ _ _ M12).
  by apply pair_testbit.
Qed.

Lemma send_eoi_ok irq s : ∃ s', archi586_pic_send_eoi irq s = Ok (tt, s') ∧ moved (eoi_chips irq) s s'.
Proof.
  unfold archi586_pic_send_eoi, eoi_chips. change IRQS_PER_PIC with 8. destruct (8 <=? irq).
  - destruct (out8_ok CMDPORT_SLAVE CMD_EOI s) as (s1 & E1 & M1).
    destruct (out8_ok CMDPORT_MASTER CMD_EOI s1) as (s2 & E2 & M2).
    exists s2. rewrite (M_bind_step _ _ _ _ _ E1). split; [done|].
    eapply moved_ext; [|by eapply moved_trans]. done.
  - destruct (out8_ok CMDPORT_MASTER CMD_EOI s) as (s2 & E2 & M2).
    exists s2. rewrite (M_bind_step _ _ _ tt s) by done. split; [done|]. by eapply moved_ext; [|done].
Qed.

Lemma checkspuriousirq_ok irq s : 0 ≤ irq < 16 →
  ∃ s', checkspuriousirq irq s = Ok (is_real (the_chips s) irq, s') ∧ moved (checked irq) s s'.
Proof.
  intros Hi. destruct (readisr_ok s) as (r & s1 & E1 & M1 & Hr). unfold checkspuriousirq.
  rewrite (M_bind_step _ _ _ _ _ E1), land_bit_nonzero, Hr by lia. unfold is_real, checked, is_real.
  destruct (Z.eqb_spec irq 7) as [->|].
  { exists s1. split; [done|]. by eapply moved_ext; [|done]. }
  destruct (Z.eqb_spec irq 15) as [->|]; cbn [orb andb].
  2: { exists s1. split; [done|]. by eapply moved_ext; [|done]. }
  destruct (in_service (the_chips s) 15) eqn:E; cbn [negb].
  - exists s1. split; [done|]. eapply moved_ext; [|done]. cbv beta. by rewrite ?E.
  - destruct (send_eoi_ok SLAVEPIN_ON_MASTER s1) as (s2 & E2 & M2). exists s2.
    rewrite (M_bind_step _ _ _ _ _ E2). split; [done|].
    eapply moved_ext; [|by eapply moved_trans]. cbv beta. by rewrite ?E.
Qed.
End Chips.

(** ** The handlers of the lines *)

Record irqs_wf {D} (b : board D) (irqs : list (list Z)) : Prop := {
  iw_count : length (s_irqs b) = Z.to_nat IRQS_TOTAL;
  iw_linked : linked IRQ_NODE_OFFSET (inodes b) (s_irqs b) irqs;
  iw_handlers p : p ∈ concat irqs → p ≠ NULL ∧ is_Some (irq_handlers b !! p);
}.

(** The registrations are the same. *)
Definition same_irqs {D} (b b' : board D) : Prop :=
  s_irqs b' = s_irqs b ∧ irq_handlers b' = irq_handlers b ∧ inodes b' = inodes b.

Section Irqs.
Context {D : Type} `{!PortOps D, !PortLaws D}.
Local Abbreviation board := (board D).
Local Abbreviation machine := (machine board).
Implicit Types s : machine.
Context (irqcall : Z → Z → Z → M machine unit).

Lemma moved_same f s s' : moved f s s' → same_irqs (rest s) (rest s') ∧ same_traps s s' ∧
  eflags_if s' = eflags_if s ∧ g_ticktime (rest s') = g_ticktime (rest s).
Proof. by intros (d & -> & _). Qed.

(** Callbacks leave the registrations alone. *)
Definition keeps_irqs : Prop := ∀ cb k d s s', irqcall cb k d s = Ok (tt, s') → same_irqs (rest s) (rest s').

(** The call of the handler registered at [p]. *)
Definition irq_call_at (b : board) (irqnum p : Z) : M machine unit :=
  match irq_handlers b !! p with
  | Some h => irqcall (irq_callback h) irqnum (irq_data h)
  | None => mret tt
  end.

(** What the trap of a line does after the check. *)
Definition irq_dispatch (b : board) (irq : Z) (real : bool) (ps : list Z) : M machine unit :=
  match ps with
  | [] => mret tt
  | _ => _ ← for_ ps (irq_call_at b irq); if real then mret tt else archi586_pic_send_eoi irq
  end.

Lemma for_run_irq_handler irqs b k ps : irqs_wf b irqs → keeps_irqs → (∀ p, p ∈ ps → p ∈ concat irqs) →
  ∀ s, same_irqs b (rest s) → for_ ps (run_irq_handler irqcall k) s = for_ ps (irq_call_at b k) s.
Proof.
  intros Hwf Hcall. induction ps as [|p ps IH]; intros Hps s Hs; [done|].
  destruct (iw_handlers _ _ Hwf p) as [Hp [h Hh]]; [apply Hps; set_solver|].
  cbn [for_]. unfold mbind, M_bind.
  assert (Er : run_irq_handler irqcall k p s = irq_call_at b k p s).
  { unfold run_irq_handler, irq_call_at, massert, load_irq_handler, on_board, in_rest, mbind, M_bind.
    destruct (Z.eqb_spec p NULL); [done|]. cbn. destruct Hs as (_ & E & _). rewrite E, Hh. by destruct s. }
  rewrite Er. destruct (irq_call_at b k p s) as [[[] s1]|e] eqn:Ec; [|done].
  apply IH; [set_solver|]. unfold irq_call_at in Ec. rewrite Hh in Ec.
  destruct (Hcall _ _ _ _ _ Ec) as (E1 & E2 & E3), Hs as (E4 & E5 & E6). split_and!; congruence.
Qed.

Lemma default_irq_handler_ok s irqs irq f d ps : irqs_wf (rest s) irqs → keeps_irqs → 0 ≤ irq < 16 →
  irqs !! Z.to_nat irq = Some ps →
  ∃ s1, moved (checked irq) s s1 ∧
    default_irq_handler irqcall (PIC_VECTOR_BASE + irq) f d s =
    irq_dispatch (rest s) irq (is_real (the_chips s) irq) ps s1.
Proof.
  intros Hwf Hcall Hi Hk. destruct (checkspuriousirq_ok irq s Hi) as (s1 & E1 & M1). exists s1. split; [done|].
  destruct (linked_lookup _ _ _ _ _ _ (iw_linked _ _ Hwf) Hk) as (l & Hlk & Hd).
  destruct (moved_same _ _ _ M1) as [(Es & Eh & En) _].
  unfold default_irq_handler. replace (PIC_VECTOR_BASE + irq - PIC_VECTOR_BASE) with irq by lia.
  rewrite (M_bind_step _ _ _ tt s) by (unfold massert, IRQS_TOTAL; by destruct (Z.ltb_spec irq 16); [|lia]).
  assert (E8 : u8 irq = irq) by (apply Z.mod_small; lia).
  rewrite E8, (M_bind_step _ _ _ _ _ E1), (M_bind_step get _ s1 s1 s1) by done.
  rewrite (M_bind_step _ _ _ l s1) by (unfold lift; rewrite Es; by rewrite (rd_ok _ _ l); [|lia|]).
  destruct (Z.eqb_spec (front l) NULL) as [E|E].
  { pose proof (dll_front_null _ _ _ Hd E) as Hp. by destruct ps. }
  assert (Hin : ∀ p, p ∈ ps → p ∈ concat irqs) by (intros p; by apply in_concat with (k := Z.to_nat irq)).
  assert (Hload : ∀ s2 q n, same_irqs (rest s) (rest s2) → inodes (rest s) !! q = Some n →
    in_inodes (load q) s2 = Ok (n, s2)).
  { intros s2 q n (_ & _ & E2) Hq. unfold in_inodes, on_board, in_rest, load. rewrite E2, Hq, <- E2.
    by destruct s2 as [? ? ? ? []]. }
  unfold mbind at 1, M_bind at 1. rewrite En.
  rewrite (foreach_dll _ _ (run_irq_handler irqcall irq) (λ s2, same_irqs (rest s) (rest s2)) _ _ _ _ Hd); [|done|..].
  - rewrite entries_data. unfold mbind at 1, M_bind at 1. rewrite (for_run_irq_handler irqs (rest s)) by done.
    unfold irq_dispatch. destruct ps as [|p ps]; [by rewrite (dll_front _ _ _ Hd) in E|].
    unfold mbind, M_bind. destruct (for_ (p :: ps) _ s1) as [[[] s2]|e]; [|done]. cbn. by destruct (is_real _ _).
  - intros q s2 n Hs2 Hq. by rewrite (M_bind_step _ _ _ _ _ (Hload _ _ _ Hs2 Hq)).
  - intros q s2 n Hs2 Hq. by rewrite (M_bind_step _ _ _ _ _ (Hload _ _ _ Hs2 Hq)).
  - rewrite entries_data. intros p s2 s3 Hp Hs2 E3.
    pose proof (for_run_irq_handler irqs (rest s) irq [p] Hwf Hcall ltac:(set_solver) s2 Hs2) as Ef.
    cbn in Ef. unfold mbind, M_bind in Ef. rewrite E3 in Ef.
    destruct (irq_call_at (rest s) irq p s2) as [[[] s4]|] eqn:Ec; [|done]. injection Ef as <-.
    destruct (iw_handlers _ _ Hwf p (Hin _ Hp)) as [_ [h Hh]]. unfold irq_call_at in Ec. rewrite Hh in Ec.
    destruct (Hcall _ _ _ _ _ Ec) as (E4 & E5 & E6), Hs2 as (E7 & E8' & E9). split_and!; congruence.
Qed.
End Irqs.

(** ** Registration and initialisation *)

Section Init.
Context {D : Type} `{!PortOps D, !PortLaws D}.
Local Abbreviation board := (board D).
Local Abbreviation machine := (machine board).
Implicit Types s : machine.

(** The callback and data of the handler at [p]. *)
Definition irq_registered_as (b : board) (p : Z) : option (Z * Z) :=
  (λ h, (irq_callback h, irq_data h)) <$> irq_handlers b !! p.

Definition irq_unregistered (b : board) (irqs : list (list Z)) (out : Z) : Prop :=
  unlinked IRQ_NODE_OFFSET (inodes b) irqs out ∧ out ≠ NULL ∧ is_Some (irq_handlers b !! out).

Lemma register_handler_ok s irqs out irq cb d ps : irqs_wf (rest s) irqs → 0 ≤ irq < 16 →
  irqs !! Z.to_nat irq = Some ps → irq_unregistered (rest s) irqs out →
  ∃ b', archi586_pic_register_handler out irq cb d s = Ok (tt, with_rest b' s) ∧
    irqs_wf b' (<[Z.to_nat irq := ps ++ [out]]> irqs) ∧
    dev b' = dev (rest s) ∧ g_ticktime b' = g_ticktime (rest s) ∧
    (∀ q, irq_registered_as b' q = if decide (q = out) then Some (cb, d) else irq_registered_as (rest s) q).
Proof using.
  intros Hwf Hi Hk (Hun & Hnn & [h Hh]).
  destruct (linked_lookup _ _ _ _ _ _ (iw_linked _ _ Hwf) Hk) as (l & Hl & _).
  destruct (linked_insert_back _ _ _ _ _ _ _ _ (iw_linked _ _ Hwf) Hk Hl Hun)
    as (l' & st' & E & _ & _ & _ & Hl').
  eexists (Board (<[Z.to_nat irq := l']> (s_irqs (rest s))) (<[out := IrqHandler cb d]> (irq_handlers (rest s)))
    st' (g_ticktime (rest s)) (dev (rest s))).
  split_and!; [|split; cbn|done|done|].
  - unfold archi586_pic_register_handler, irq_disable, load_irq_handler, on_board, in_rest, in_inodes, get, lift.
    unfold mbind, M_bind. cbn. rewrite Hh. cbn. rewrite (rd_ok _ _ l) by (done || lia).
    unfold on_board, in_rest. cbn. rewrite E. cbn.
    rewrite wr_ok by (rewrite (iw_count _ _ Hwf); unfold IRQS_TOTAL; lia).
    unfold irq_restore, update. cbn. by destruct s as [? ? ? [] []].
  - rewrite length_insert. apply (iw_count _ _ Hwf).
  - done.
  - intros p Hp. rewrite (concat_insert _ _ _ _ Hk) in Hp. apply elem_of_cons in Hp as [->|Hp].
    + split; [done|]. rewrite lookup_insert_eq. eauto.
    + destruct (iw_handlers _ _ Hwf p Hp) as [? ?]. split; [done|].
      destruct (decide (p = out)) as [->|]; [rewrite lookup_insert_eq; eauto|by rewrite lookup_insert_ne].
  - intros q. unfold irq_registered_as. cbn.
    case_decide; [subst; by rewrite lookup_insert_eq|by rewrite lookup_insert_ne].
Qed.

Context (DEFAULT_IRQ_HANDLER s_traphandler : Z).
Local Abbreviation line_handler := (traphandler s_traphandler).

(** The trap lists with the handlers of the lines in [P] added. *)
Definition pic_lists (P : Z → bool) (hs : list (list Z)) : list (list Z) :=
  imap (λ t ps, if P (Z.of_nat t - PIC_VECTOR_BASE) then ps ++ [line_handler (Z.of_nat t - PIC_VECTOR_BASE)] else ps) hs.

(** The state when the handlers of the lines in [P] are registered. *)
Record inited (P : Z → bool) (hs : list (list Z)) s s' : Prop := {
  in_wf : traps_wf s' (pic_lists P hs);
  in_rest_same : rest s' = rest s;
  in_if : eflags_if s' = eflags_if s;
  in_done i : 0 ≤ i < 16 → P i = true → registered_as s' (line_handler i) = Some (DEFAULT_IRQ_HANDLER, 0);
  in_todo i : 0 ≤ i < 16 → P i = false → unregistered s' (pic_lists P hs) (line_handler i);
  in_others q : (∀ i, 0 ≤ i < 16 → q ≠ line_handler i) → registered_as s' q = registered_as s q;
}.

Lemma pic_lists_ext P Q hs : (∀ i, P i = Q i) → pic_lists P hs = pic_lists Q hs.
Proof using. intros H. apply imap_ext. intros i x _. by rewrite H. Qed.

Lemma inited_ext P Q hs s s' : (∀ i, P i = Q i) → inited P hs s s' → inited Q hs s s'.
Proof using.
  intros H [H1 H2 H3 H4 H5 H6]. rewrite (pic_lists_ext P Q) in H1 by done. split; [done..| | |done].
  - intros i Hi HQ. apply H4; [done|by rewrite H].
  - intros i Hi HQ. rewrite <- (pic_lists_ext P Q) by done. apply H5; [done|by rewrite H].
Qed.

Lemma pic_lists_insert P hs i ps : 0 ≤ i → hs !! Z.to_nat (PIC_VECTOR_BASE + i) = Some ps → P i = false →
  pic_lists P hs !! Z.to_nat (PIC_VECTOR_BASE + i) = Some ps ∧
  pic_lists (λ j, P j || (j =? i)) hs = <[Z.to_nat (PIC_VECTOR_BASE + i) := ps ++ [line_handler i]]> (pic_lists P hs).
Proof using.
  unfold PIC_VECTOR_BASE. intros Hi Hps HP.
  assert (E : Z.of_nat (Z.to_nat (0x20 + i)) - PIC_VECTOR_BASE = i) by (unfold PIC_VECTOR_BASE; lia). split.
  - unfold pic_lists. by rewrite list_lookup_imap, Hps, E; cbn; rewrite HP.
  - apply list_eq. intros t. destruct (decide (t = Z.to_nat (0x20 + i))) as [->|Hne].
    + rewrite list_lookup_insert_eq by (unfold pic_lists; rewrite length_imap; by eapply lookup_lt_Some).
      unfold pic_lists. rewrite list_lookup_imap, Hps. cbn. by rewrite E, Z.eqb_refl, orb_true_r.
    + rewrite list_lookup_insert_ne by done. unfold pic_lists. rewrite !list_lookup_imap.
      destruct (hs !! t); [|done]. cbn. do 2 f_equal.
      destruct (Z.eqb_spec (Z.of_nat t - PIC_VECTOR_BASE) i) as [Et|]; [|by rewrite orb_false_r].
      unfold PIC_VECTOR_BASE in Et. lia.
Qed.

Lemma register_line_ok P hs s s' i : length hs = 256%nat → 0 ≤ i < 16 → P i = false → inited P hs s s' →
  ∃ s2, trapmanager_register_trap (line_handler i) (PIC_VECTOR_BASE + i) DEFAULT_IRQ_HANDLER 0 s' = Ok (tt, s2) ∧
    inited (λ j, P j || (j =? i)) hs s s2.
Proof using.
  intros Hlen Hi HP [H1 H2 H3 H4 H5 H6].
  destruct (lookup_lt_is_Some_2 hs (Z.to_nat (PIC_VECTOR_BASE + i))) as [ps Hps]; [unfold PIC_VECTOR_BASE; lia|].
  destruct (pic_lists_insert P hs i ps) as [Hk E]; [lia|done..|].
  destruct (register_ok s' _ (line_handler i) _ DEFAULT_IRQ_HANDLER 0 _ H1 Hk (H5 i Hi HP))
    as (s2 & Er & Hwf & Hif & Hrest & Hreg & Hun).
  rewrite Z2Nat.id in Er by (unfold PIC_VECTOR_BASE; lia). rewrite <- E in Hwf, Hun.
  exists s2. split; [exact Er|]. split; [done|congruence|congruence|..].
  - intros j Hj Hp. rewrite Hreg. case_decide as Ej; [done|]. apply H4; [done|].
    destruct (Z.eqb_spec j i) as [->|]; [done|by rewrite orb_false_r in Hp].
  - intros j Hj Hp. apply orb_false_elim in Hp as [Hp Hne]. apply Z.eqb_neq in Hne.
    apply Hun; [unfold traphandler; lia|by apply H5].
  - intros q Hq. rewrite Hreg, decide_False by (by apply Hq). by apply H6.
Qed.

Lemma same_traps_wf s s' hs : same_traps s s' → traps_wf s hs → traps_wf s' hs.
Proof using. intros (E1 & E2 & E3) [H1 H2 H3]. split; by rewrite ?E1, ?E2, ?E3. Qed.
Lemma same_traps_unregistered s s' hs p : same_traps s s' → unregistered s hs p → unregistered s' hs p.
Proof using. intros (E1 & E2 & E3). unfold unregistered. by rewrite E2, E3. Qed.
Lemma same_traps_registered s s' p : same_traps s s' → registered_as s' p = registered_as s p.
Proof using. intros (_ & E & _). unfold registered_as. by rewrite E. Qed.

(** The controllers as they are initialised: the vectors from 0x20, and every
    line masked but the one of the slave. *)
Definition ready_chips (c : chips) : chips :=
  Chips (PicChip 0xfb 0 0 false Operational 0x20 4 1) (PicChip 0xff 0 0 false Operational 0x28 2 1) (pit c).
(** The same before the mask is set. *)
Definition icw_chips (c : chips) : chips :=
  Chips (PicChip 0 0 0 false Operational 0x20 4 1) (PicChip 0 0 0 false Operational 0x28 2 1) (pit c).

Definition is_line (i : Z) : bool := (0 <=? i) && (i <? 16).

Lemma init_lines_ok hs s : traps_wf s hs → length hs = 256%nat →
  (∀ i, 0 ≤ i < 16 → unregistered s hs (line_handler i)) →
  ∃ s', for_ (seqZ 0 8) (λ i,
    _ ← trapmanager_register_trap (line_handler i) (PIC_VECTOR_BASE + i) DEFAULT_IRQ_HANDLER 0;
    trapmanager_register_trap (line_handler (IRQS_PER_PIC + i)) (PIC_VECTOR_BASE + IRQS_PER_PIC + i) DEFAULT_IRQ_HANDLER 0) s
    = Ok (tt, s') ∧ inited is_line hs s s'.
Proof using.
  intros Hwf Hlen Hun.
  set (P := λ n i : Z, ((0 <=? i) && (i <? n)) || ((8 <=? i) && (i <? 8 + n))).
  match goal with |- ∃ s', ?m s = _ ∧ _ =>
    enough (wp m s (λ _ s', inited is_line hs s s')) as ([] & s' & ? & ?) by eauto end.
  apply (wp_for_seqZ 8 _ (λ n s', inited (P n) hs s s')); [lia| |..].
  - assert (E : pic_lists (P 0) hs = hs).
    { rewrite (pic_lists_ext _ (λ _, false)) by (intros i; unfold P; lia).
      apply list_eq. intros t. unfold pic_lists. rewrite list_lookup_imap. by destruct (hs !! t). }
    split; rewrite ?E; try done.
    + intros i Hi HP. unfold P in HP. lia.
    + auto.
  - intros n s1 Hn HI.
    destruct (register_line_ok (P n) _ _ _ n Hlen ltac:(lia) ltac:(unfold P; lia) HI) as (s2 & E2 & H2).
    destruct (register_line_ok (λ j, P n j || (j =? n)) _ _ _ (8 + n) Hlen ltac:(lia) ltac:(unfold P; lia) H2) as (s3 & E3 & H3).
    exists tt, s3. rewrite (M_bind_step _ _ _ _ _ E2). change IRQS_PER_PIC with 8.
    replace (PIC_VECTOR_BASE + 8 + n) with (PIC_VECTOR_BASE + (8 + n)) by lia. split; [done|].
    eapply inited_ext; [|exact H3]. intros i. unfold P. lia.
  - intros s' HI. eapply inited_ext; [|exact HI]. intros i. unfold P, is_line. lia.
Qed.

Lemma wp_out8 port v f s0 s (Q : unit → machine → Prop) : moved f s0 s →
  (∀ s1, moved (chips_out port (u8 v) ∘ f) s0 s1 → Q tt s1) → wp (out8 port v) s Q.
Proof using PortLaws0.
  intros M HQ. destruct (out8_ok port v s) as (s1 & E & M1). exists tt, s1. split; [done|].
  apply HQ. by eapply moved_trans.
Qed.

Lemma pic_init_ok s hs : traps_wf s hs → length hs = 256%nat →
  (∀ i, 0 ≤ i < 16 → unregistered s hs (line_handler i)) →
  ∃ s', archi586_pic_init DEFAULT_IRQ_HANDLER s_traphandler s = Ok (tt, s') ∧
    traps_wf s' (pic_lists is_line hs) ∧ the_chips s' = ready_chips (the_chips s) ∧
    (∀ i, 0 ≤ i < 16 → registered_as s' (line_handler i) = Some (DEFAULT_IRQ_HANDLER, 0)) ∧
    (∀ q, (∀ i, 0 ≤ i < 16 → q ≠ line_handler i) → registered_as s' q = registered_as s q) ∧
    same_irqs (rest s) (rest s') ∧ eflags_if s' = eflags_if s ∧ g_ticktime (rest s') = g_ticktime (rest s).
Proof.
  intros Hwf Hlen Hun. unfold archi586_pic_init. pose proof (moved_id s) as M.
  match goal with |- ∃ s', ?m s = _ ∧ @?Q s' =>
    enough (wp m s (λ _ s', Q s')) as ([] & s' & ? & ?) by eauto end.
  do 8 (apply wp_bind; eapply wp_out8; [exact M|clear M; intros ? M]).
  match goal with H : moved _ s ?s1 |- _ => rename s1 into t1; rename H into M1 end.
  apply (moved_ext _ icw_chips) in M1; [|done].
  destruct (moved_same _ _ _ M1) as (I1 & T1 & F1 & G1).
  destruct (init_lines_ok hs t1) as (t2 & E2 & H2);
    [by eapply same_traps_wf|done|intros i Hi; eapply same_traps_unregistered; eauto|].
  apply wp_bind. exists tt, t2. split; [exact E2|].
  assert (C2 : the_chips t2 = icw_chips (the_chips s)).
  { unfold the_chips. rewrite (in_rest_same _ _ _ _ H2). by apply moved_chips in M1. }
  destruct (setirqmask_ok (u16 (not32 (u16 (Z.shiftl 1 2)))) t2) as (t3 & E3 & M3); [by rewrite C2|].
  destruct (moved_same _ _ _ M3) as (I3 & T3 & F3 & G3). exists tt, t3. split; [done|].
  destruct H2 as [W2 R2 F2 D2 _ O2]. rewrite R2 in I3, G3.
  split_and!.
  - by eapply same_traps_wf.
  - rewrite (moved_chips _ _ _ M3), C2. reflexivity.
  - intros i Hi. rewrite (same_traps_registered _ _ _ T3). apply D2; [done|unfold is_line; lia].
  - intros q Hq. rewrite (same_traps_registered _ _ _ T3), O2 by done. by apply same_traps_registered.
  - destruct I1 as (? & ? & ?), I3 as (? & ? & ?). split_and!; congruence.
  - congruence.
  - congruence.
Qed.
End Init.

(** The facts about the handlers depend on the registrations only. *)
Section Transport.
Context {D : Type}.
Implicit Types b : board D.

Lemma same_irqs_wf b b' irqs : same_irqs b b' → irqs_wf b irqs → irqs_wf b' irqs.
Proof. intros (E1 & E2 & E3) [H1 H2 H3]. split; by rewrite ?E1, ?E2, ?E3. Qed.
Lemma same_irqs_unregistered b b' irqs p : same_irqs b b' → irq_unregistered b irqs p → irq_unregistered b' irqs p.
Proof. intros (E1 & E2 & E3). unfold irq_unregistered. by rewrite E2, E3. Qed.
Lemma same_irqs_registered b b' p : same_irqs b b' → irq_registered_as b' p = irq_registered_as b p.
Proof. intros (_ & E & _). unfold irq_registered_as. by rewrite E. Qed.
End Transport.

(** ** Computations that leave the trap lists alone *)

Section Keeps.
Context {D : Type} `{!PortOps D}.
Local Abbreviation machine := (machine (board D)).

Definition keeps {A} (m : M machine A) : Prop := ∀ s a s', m s = Ok (a, s') → same_traps s s'.

Lemma same_traps_trans (s1 s2 s3 : machine) : same_traps s1 s2 → same_traps s2 s3 → same_traps s1 s3.
Proof. intros (? & ? & ?) (? & ? & ?). split_and!; congruence. Qed.
Lemma keeps_ret {A} (a : A) : keeps (mret a).
Proof. by intros s b s' [= _ <-]. Qed.
Lemma keeps_get : keeps get.
Proof. by intros s b s' [= _ <-]. Qed.
Lemma keeps_lift {A} (m : res A) : keeps (lift m).
Proof. intros s b s'. unfold lift. destruct m; [|done]. by intros [= _ <-]. Qed.
Lemma keeps_massert b : keeps (massert b).
Proof. intros s a s'. unfold massert. destruct b; [|done]. by intros [= _ <-]. Qed.
Lemma keeps_bind {A B} (m : M machine A) (f : A → M machine B) :
  keeps m → (∀ a, keeps (f a)) → keeps (m ≫= f).
Proof.
  intros Hm Hf s b s' H. apply M_bind_ok in H as (a & s1 & H1 & H2).
  eapply same_traps_trans; [by eapply Hm|by eapply Hf].
Qed.
Lemma keeps_on_board {A} (m : M (board D) A) : keeps (on_board m).
Proof. intros s a s'. unfold on_board, in_rest. destruct (m (rest s)) as [[? ?]|]; [|done]. by intros [= _ <-]. Qed.
Lemma keeps_foreach {A} fuel (nx : Z → M machine Z) (body : Z → M machine (option A)) p :
  (∀ q, keeps (nx q)) → (∀ q, keeps (body q)) → keeps (list_foreach fuel nx body p).
Proof.
  intros Hn Hb. revert p. induction fuel as [|fuel IH]; intros p; cbn.
  - destruct (p =? NULL); [apply keeps_ret|done].
  - destruct (p =? NULL); [apply keeps_ret|]. apply keeps_bind; [done|]. intros [a|]; [apply keeps_ret|].
    by apply keeps_bind.
Qed.
End Keeps.

Create HintDb keeps.
#[export] Hint Resolve keeps_ret keeps_get keeps_lift keeps_massert keeps_bind keeps_on_board keeps_foreach : keeps.

(** ** Interrupts through the traps *)

Section Delivery.
Context {D : Type} `{!PortOps D, !PortLaws D}.
Local Abbreviation machine := (machine (board D)).
Implicit Types s : machine.
Context (irqcall : Z → Z → Z → M machine unit).

Lemma default_irq_handler_keeps k f d : (∀ cb n e, keeps (irqcall cb n e)) →
  keeps (default_irq_handler irqcall k f d).
Proof using.
  intros Hc. unfold default_irq_handler, checkspuriousirq, readisr, readirqreg, run_irq_handler, archi586_pic_send_eoi,
    out8, in8, in_dev, in_inodes, load_irq_handler.
  repeat (first [apply keeps_ret | apply keeps_get | apply keeps_lift | apply keeps_massert | apply keeps_on_board
    | apply Hc | apply keeps_foreach | apply keeps_bind
    | match goal with |- ∀ _, _ => intros ? end | progress cbv zeta | case_match]).
Qed.

(** The code that traps call: the handler of the interrupt lines, and others. *)
Context (DEFAULT_IRQ_HANDLER : Z) (other : Z → Z → Z → Z → M machine unit).
Definition trap_call (cb k f d : Z) : M machine unit :=
  if cb =? DEFAULT_IRQ_HANDLER then default_irq_handler irqcall k f d else other cb k f d.

Lemma delivery_ok s hs irqs irq p d ps f : traps_wf s hs → irqs_wf (rest s) irqs → 0 ≤ irq < 16 →
  hs !! Z.to_nat (PIC_VECTOR_BASE + irq) = Some [p] → registered_as s p = Some (DEFAULT_IRQ_HANDLER, d) →
  irqs !! Z.to_nat irq = Some ps → eflags_if s = false →
  (∀ cb n e, keeps (irqcall cb n e)) → keeps_traps other → keeps_irqs irqcall →
  ∃ s1, moved (checked irq) s s1 ∧ trapmanager_trap trap_call (PIC_VECTOR_BASE + irq) f s =
    irq_dispatch irqcall (rest s) irq (is_real (the_chips s) irq) ps s1.
Proof.
  intros Hwf Hirqs Hi Hk Hreg Hps Hif Hc Ho Hki.
  destruct (default_irq_handler_ok irqcall s irqs irq f d ps Hirqs Hki Hi Hps) as (s1 & M1 & E1).
  exists s1. split; [done|]. rewrite <- E1.
  replace (PIC_VECTOR_BASE + irq) with (Z.of_nat (Z.to_nat (PIC_VECTOR_BASE + irq))) by (unfold PIC_VECTOR_BASE; lia).
  rewrite (trap_ok trap_call s hs _ f [p]); [|..|by apply wf_linked|done| |done].
  - unfold dispatch. rewrite filter_accepted by (intros q Hq; eapply wf_accepted; [exact Hwf|exact (in_concat _ _ _ _ Hk Hq)]).
    unfold call_at, registered_as in *. cbn [for_]. unfold mbind, M_bind.
    destruct (handlers s !! p) as [h|]; [|done]. injection Hreg as Ecb Ed. rewrite Ecb, Ed.
    unfold trap_call. rewrite Z.eqb_refl.
    by match goal with |- context [match ?m with _ => _ end] => destruct m as [[[] ?]|] end.
  - intros cb n g e s2 s3. unfold trap_call. destruct (cb =? DEFAULT_IRQ_HANDLER); [|apply Ho].
    by apply default_irq_handler_keeps.
  - unfold PIC_VECTOR_BASE, YJKERNEL_ARCH_TRAP_COUNT. lia.
Qed.
End Delivery.

(** ** Properties *)

(** Masking and unmasking a line of initialised controllers changes the mask of
    that line only, and nothing else of the machine; asking for the mask of a
    line gives it. *)
Theorem pic_masks_exact {D} `{!PortOps D, !PortLaws D} (s : machine (board D)) irq :
  operational (the_chips s) → 0 ≤ irq < 16 →
  (∃ s', archi586_pic_is_irq_masked irq s = Ok (masked (the_chips s) irq, s') ∧ moved id s s') ∧
  (∃ m s', archi586_pic_mask_irq irq s = Ok (tt, s') ∧ moved (with_mask m) s s' ∧
    (∀ k, 0 ≤ k < 16 → masked (the_chips s') k = if k =? irq then true else masked (the_chips s) k)) ∧
  (∃ m s', archi586_pic_unmask_irq irq s = Ok (tt, s') ∧ moved (with_mask m) s s' ∧
    (∀ k, 0 ≤ k < 16 → masked (the_chips s') k = if k =? irq then false else masked (the_chips s) k)).
Proof.
  intros Hop Hi. split; [|split].
  - by apply is_irq_masked_ok.
  - by apply mask_irq_ok.
  - by apply unmask_irq_ok.
Qed.

(** C29: The trap of an interrupt line asks the controllers whether the interrupt is
    real and then calls the handlers of the line, in the order of registration,
    whether it is or not.  After the handlers of an interrupt that is not real,
    and only then, it ends the interrupt; a line without handlers is not ended. *)
Theorem irq_delivery {D} `{!PortOps D, !PortLaws D} irqcall DEFAULT_IRQ_HANDLER other
    (s : machine (board D)) hs irqs irq p d ps f :
  traps_wf s hs → irqs_wf (rest s) irqs → 0 ≤ irq < 16 →
  hs !! Z.to_nat (PIC_VECTOR_BASE + irq) = Some [p] → registered_as s p = Some (DEFAULT_IRQ_HANDLER, d) →
  irqs !! Z.to_nat irq = Some ps → eflags_if s = false →
  (∀ cb n e, keeps (irqcall cb n e)) → keeps_traps other → keeps_irqs irqcall →
  ∃ s1, moved (checked irq) s s1 ∧
    trapmanager_trap (trap_call irqcall DEFAULT_IRQ_HANDLER other) (PIC_VECTOR_BASE + irq) f s =
    match ps with
    | [] => Ok (tt, s1)
    | _ => (_ ← for_ ps (irq_call_at irqcall (rest s) irq);
            if is_real (the_chips s) irq then mret tt else archi586_pic_send_eoi irq) s1
    end.
Proof.
  intros Hwf Hirqs Hi Hk Hreg Hps Hif Hc Ho Hki.
  destruct (delivery_ok irqcall _ _ _ _ _ _ _ _ _ f Hwf Hirqs Hi Hk Hreg Hps Hif Hc Ho Hki) as (s1 & M1 & E1).
  exists s1. split; [done|]. rewrite E1. by destruct ps.
Qed.
