(* ===== verification/Pit.v ===== *)
(** The system timer (src/kernel/arch/i586/pit.c): channel 0 of the 8254 raises
    line 0 a thousand times a second; its handler counts the ticks, ends the
    interrupt and runs the scheduler. *)
From S2P Require Import Prelude Arch CList StructList Trap Ports Pic.

Definition PIT_CH0_DATA_PORT : Z := 0x40.
Definition PIT_MODE_PORT : Z := 0x43.
Definition PIT_FREQ : Z := 1193182.
Definition PIT_MODEFLAG_SELECT_CH0 : Z := Z.shiftl 0 6.
Definition PIT_MODEFLAG_ACCESS_LSB_MSB : Z := Z.shiftl 3 4.
Definition PIT_MODEFLAG_OP_RATEGEN : Z := Z.shiftl 2 1.
Definition PIT_MODEFLAG_BINMODE : Z := Z.shiftl 0 0.
Definition PIT_IRQ : Z := 0.
Definition FREQ_MILLIS : Z := 1.

Definition udiv (a b : Z) : res Z := if b =? 0 then Fault Div_by_zero else Ok (a / b).
Definition countervaluefromhz (hz : Z) : res Z := udiv PIT_FREQ hz.
Definition hzfrommillis (millis : Z) : res Z := udiv 1000 millis.
Definition countefrommillis (millis : Z) : res Z :=
  hz ← hzfrommillis millis;
  countervaluefromhz hz.

Section Operations.
Context {D : Type} `{!PortOps D}.
Local Abbreviation machine := (machine (board D)).

(** The scheduler, and the address of the static handler structure and of
    [irqhandler]. *)
Context (sched_schedule : M machine unit) (s_irqhandler IRQHANDLER : Z).

Definition shortinternaldelay : M machine unit :=
  _ ← in8 PIT_MODE_PORT;
  mret tt.

Definition irqhandler (irqnum d : Z) : M machine unit :=
  _ ← on_board (λ b, Ok (tt, with_ticktime (u64 (g_ticktime b + 1)) b));
  _ ← archi586_pic_send_eoi (u8 irqnum);
  sched_schedule.

Definition archi586_pit_init : M machine unit :=
  _ ← archi586_pic_mask_irq PIT_IRQ;
  initial_counter ← lift (countefrommillis FREQ_MILLIS);
  _ ← out8 PIT_MODE_PORT (Z.lor (Z.lor (Z.lor PIT_MODEFLAG_SELECT_CH0 PIT_MODEFLAG_ACCESS_LSB_MSB)
        PIT_MODEFLAG_OP_RATEGEN) PIT_MODEFLAG_BINMODE);
  _ ← out8 PIT_CH0_DATA_PORT initial_counter;
  _ ← shortinternaldelay;
  _ ← out8 PIT_CH0_DATA_PORT (Z.shiftr initial_counter 8);
  _ ← archi586_pic_register_handler s_irqhandler PIT_IRQ IRQHANDLER 0;
  archi586_pic_unmask_irq PIT_IRQ.

(** The code that interrupts call: the handler of the timer, and others. *)
Definition irq_call (other : Z → Z → Z → M machine unit) (cb k d : Z) : M machine unit :=
  if cb =? IRQHANDLER then irqhandler k d else other cb k d.
End Operations.

(** ** The timer after its initialisation *)

Section Init.
Context {D : Type} `{!PortOps D, !PortLaws D}.
Local Abbreviation machine := (machine (board D)).
Implicit Types s : machine.

(** One interrupt each 1193 cycles of the 1.193182 MHz clock. *)
Definition timer_chip : pit_chip := PitChip 0x34 None (Some 1193).

Lemma pit_init_ok s irqs ps out cb : irqs_wf (rest s) irqs → irqs !! 0%nat = Some ps →
  irq_unregistered (rest s) irqs out → operational (the_chips s) →
  ∃ s', archi586_pit_init out cb s = Ok (tt, s') ∧ same_traps s s' ∧ eflags_if s' = eflags_if s ∧
    irqs_wf (rest s') (<[0%nat := ps ++ [out]]> irqs) ∧ g_ticktime (rest s') = g_ticktime (rest s) ∧
    (∀ q, irq_registered_as (rest s') q = if decide (q = out) then Some (cb, 0) else irq_registered_as (rest s) q) ∧
    pit (the_chips s') = timer_chip ∧ operational (the_chips s') ∧
    (∀ k, 0 ≤ k < 16 → masked (the_chips s') k = if k =? 0 then false else masked (the_chips s) k).
Proof.
  intros Hwf Hps Hun Hop.
  match goal with |- ∃ s', ?m s = _ ∧ @?Q s' =>
    enough (wp m s (λ _ s', Q s')) as ([] & s' & ? & ?) by eauto end.
  destruct (mask_irq_ok PIT_IRQ s Hop ltac:(unfold PIT_IRQ; lia)) as (m & s1 & E1 & M1 & K1).
  apply wp_bind. exists tt, s1. split; [done|]. apply wp_bind, (wp_lift _ 1193); [done|].
  apply wp_bind. eapply wp_out8; [exact M1|intros s2 M2].
  apply wp_bind. eapply wp_out8; [exact M2|intros s3 M3].
  destruct (in8_ok PIT_MODE_PORT s3) as (x & s4 & E4 & M4 & _).
  apply wp_bind. exists tt, s4. split; [unfold shortinternaldelay; by rewrite (M_bind_step _ _ _ _ _ E4)|].
  apply wp_bind. eapply wp_out8; [exact (moved_trans _ _ _ _ _ M3 M4)|intros s5 M5].
  clear M2 M3 M4. destruct (moved_same _ _ _ M5) as (I5 & T5 & F5 & G5).
  assert (C5 : the_chips s5 = Chips (master (with_mask m (the_chips s))) (slave (with_mask m (the_chips s))) timer_chip)
    by by rewrite (moved_chips _ _ _ M5).
  destruct (register_handler_ok s5 irqs out PIT_IRQ cb 0 ps) as (b & E6 & W6 & D6 & G6 & R6);
    [by eapply same_irqs_wf|unfold PIT_IRQ; lia|done|by eapply same_irqs_unregistered|].
  apply wp_bind. exists tt, (with_rest b s5). split; [done|].
  assert (C6 : the_chips (with_rest b s5) = the_chips s5) by (unfold the_chips; cbn; by rewrite D6).
  destruct (unmask_irq_ok PIT_IRQ (with_rest b s5)) as (m' & s7 & E7 & M7 & K7);
    [by rewrite C6, C5|unfold PIT_IRQ; lia|].
  destruct (moved_same _ _ _ M7) as (I7 & T7 & F7 & G7).
  exists tt, s7. split; [done|]. rewrite (moved_chips _ _ _ M7), C6, C5. split_and!; try done.
  - destruct T5 as (? & ? & ?), T7 as (? & ? & ?). cbn in *. split_and!; congruence.
  - cbn in F7. congruence.
  - by eapply same_irqs_wf.
  - cbn in G7. congruence.
  - intros q. rewrite (same_irqs_registered _ _ _ I7). cbn. rewrite R6. case_decide; [done|].
    by apply same_irqs_registered.
  - intros k Hk. rewrite <- C5, <- C6, <- (moved_chips _ _ _ M7), K7, C6, C5 by done.
    change PIT_IRQ with 0. destruct (Z.eqb_spec k 0) as [|Hne]; [done|]. apply moved_chips in M1.
    specialize (K1 k Hk). rewrite M1 in K1. change PIT_IRQ with 0 in K1.
    by destruct (Z.eqb_spec k 0); [|exact K1].
Qed.
End Init.

(** ** The tick *)

(** Ending the interrupt with the highest priority leaves the others. *)
Lemma clear_lowest_testbit x k : Z.testbit x 0 = true → 0 ≤ k →
  Z.testbit (Z.land x (x - 1)) k = if k =? 0 then false else Z.testbit x k.
Proof.
  intros H0 Hk. rewrite Z.land_spec. rewrite Z.bit0_odd in H0. apply Z.odd_spec in H0 as [y ->].
  replace (2 * y + 1 - 1) with (2 * y) by lia. destruct (Z.eqb_spec k 0) as [->|].
  - by rewrite Z.testbit_even_0, andb_false_r.
  - replace k with (Z.succ (k - 1)) by lia. rewrite Z.testbit_odd_succ, Z.testbit_even_succ by lia.
    apply andb_diag.
Qed.

Lemma eoi_line_0 c k : in_service c 0 = true → 0 ≤ k < 16 →
  in_service (eoi_chips 0 c) k = if k =? 0 then false else in_service c k.
Proof.
  unfold in_service, line_bit. intros H0 Hk. cbn [eoi_chips master slave pic_eoi pic_with_isr isr].
  change (8 <=? 0) with false. cbn in H0 |- *. destruct (Z.ltb_spec k 8).
  - apply clear_lowest_testbit; [done|lia].
  - by destruct (Z.eqb_spec k 0); [lia|].
Qed.

Lemma ready_masked c k : 0 ≤ k < 16 → masked (ready_chips c) k = negb (k =? 2).
Proof.
  intros Hk. assert (H : Forall (λ k, line_bit 0xfb 0xff k = negb (k =? 2)) (seqZ 0 16)) by by repeat constructor.
  rewrite Forall_forall in H. apply H, elem_of_seqZ. lia.
Qed.

Section Tick.
Context {D : Type} `{!PortOps D, !PortLaws D}.
Local Abbreviation machine := (machine (board D)).
Implicit Types s : machine.
Context (sched_schedule : M machine unit) (IRQHANDLER : Z) (other_irq : Z → Z → Z → M machine unit).

Lemma irqhandler_ok d s : ∃ s3, irqhandler sched_schedule 0 d s = sched_schedule s3 ∧
  g_ticktime (rest s3) = u64 (g_ticktime (rest s) + 1) ∧ the_chips s3 = eoi_chips 0 (the_chips s) ∧
  same_traps s s3 ∧ same_irqs (rest s) (rest s3) ∧ eflags_if s3 = eflags_if s.
Proof.
  set (s1 := with_rest (with_ticktime (u64 (g_ticktime (rest s) + 1)) (rest s)) s).
  destruct (send_eoi_ok 0 s1) as (s3 & E & M). destruct (moved_same _ _ _ M) as (I & T & F & G).
  exists s3. unfold irqhandler. rewrite (M_bind_step _ _ _ tt s1) by done. change (u8 0) with 0.
  rewrite (M_bind_step _ _ _ _ _ E). split_and!; try done; by rewrite (moved_chips _ _ _ M).
Qed.

Lemma irq_call_keeps : keeps sched_schedule → (∀ cb k d, keeps (other_irq cb k d)) →
  ∀ cb k d, keeps (irq_call sched_schedule IRQHANDLER other_irq cb k d).
Proof using.
  intros Hs Ho cb k d. unfold irq_call, irqhandler, archi586_pic_send_eoi, out8, in_dev.
  destruct (cb =? IRQHANDLER); [|apply Ho].
  repeat (first [apply keeps_ret | apply keeps_on_board | apply Hs | apply keeps_bind
    | match goal with |- ∀ _, _ => intros ? end | case_match]).
Qed.

(** A computation that leaves the handlers of the lines alone. *)
Definition keeps_lines (m : M machine unit) : Prop := ∀ s s', m s = Ok (tt, s') → same_irqs (rest s) (rest s').

Lemma irq_call_keeps_irqs : keeps_lines sched_schedule → keeps_irqs other_irq →
  keeps_irqs (irq_call sched_schedule IRQHANDLER other_irq).
Proof.
  intros Hs Ho cb k d s s'. unfold irq_call. destruct (cb =? IRQHANDLER); [|apply Ho].
  set (s1 := with_rest (with_ticktime (u64 (g_ticktime (rest s) + 1)) (rest s)) s).
  destruct (send_eoi_ok (u8 k) s1) as (s3 & E & M). destruct (moved_same _ _ _ M) as ((I1 & I2 & I3) & _).
  unfold irqhandler. rewrite (M_bind_step _ _ _ tt s1), (M_bind_step _ _ _ _ _ E) by done.
  intros H. destruct (Hs _ _ H) as (J1 & J2 & J3). split_and!; [rewrite J1, I1|rewrite J2, I2|rewrite J3, I3]; done.
Qed.

Context (DEFAULT_IRQ_HANDLER : Z) (other : Z → Z → Z → Z → M machine unit).
Local Abbreviation interrupt :=
  (trapmanager_trap (trap_call (irq_call sched_schedule IRQHANDLER other_irq) DEFAULT_IRQ_HANDLER other)).

Lemma tick_ok s hs irqs p out f : traps_wf s hs → irqs_wf (rest s) irqs →
  hs !! 32%nat = Some [p] → registered_as s p = Some (DEFAULT_IRQ_HANDLER, 0) →
  irqs !! 0%nat = Some [out] → irq_registered_as (rest s) out = Some (IRQHANDLER, 0) → eflags_if s = false →
  keeps sched_schedule → keeps_lines sched_schedule → (∀ cb k d, keeps (other_irq cb k d)) → keeps_irqs other_irq →
  keeps_traps other → in_service (the_chips s) 0 = true →
  ∃ s3, interrupt (PIC_VECTOR_BASE + PIT_IRQ) f s = sched_schedule s3 ∧
    g_ticktime (rest s3) = u64 (g_ticktime (rest s) + 1) ∧
    (∀ k, 0 ≤ k < 16 → in_service (the_chips s3) k = if k =? 0 then false else in_service (the_chips s) k) ∧
    same_traps s s3 ∧ same_irqs (rest s) (rest s3) ∧ eflags_if s3 = false.
Proof.
  intros Hwf Hirqs Hk Hreg Hps Hout Hif Hs Hsl Hoi Hoi2 Ho H0.
  destruct (delivery_ok (irq_call sched_schedule IRQHANDLER other_irq) DEFAULT_IRQ_HANDLER other s hs irqs 0 p 0 [out] f)
    as (s1 & M1 & E1); [done..|by apply irq_call_keeps|done|by apply irq_call_keeps_irqs|].
  change PIT_IRQ with 0. rewrite E1. destruct (moved_same _ _ _ M1) as (I1 & T1 & F1 & G1).
  destruct (irqhandler_ok 0 s1) as (s3 & E3 & G3 & C3 & T3 & I3 & F3). exists s3.
  unfold irq_registered_as in Hout. destruct (irq_handlers (rest s) !! out) as [h|] eqn:Eh; [|done].
  injection Hout as Ecb Ed. split_and!.
  - unfold irq_dispatch, irq_call_at. cbn [for_]. unfold mbind, M_bind. rewrite Eh. unfold irq_call.
    rewrite Ecb, Ed, Z.eqb_refl, E3. by destruct (sched_schedule s3) as [[[] ?]|].
  - by rewrite G3, G1.
  - intros k Hk'. rewrite C3, (moved_chips _ _ _ M1).
    exact (eoi_line_0 (checked 0 (the_chips s)) k H0 Hk').
  - by eapply same_traps_trans.
  - destruct I1 as (? & ? & ?), I3 as (? & ? & ?). split_and!; congruence.
  - congruence.
Qed.
End Tick.

(** ** Properties *)

(** C28: Once the controllers and the timer are initialised, every line but those of
    the timer and of the slave controller is masked, and the timer divides its clock
    by 1193.  From then on, whatever else happens that leaves the registrations
    alone, an interrupt of the timer adds one tick, ends the interrupt and then
    runs the scheduler, and nothing more. *)
Theorem timer_interrupt_ticks {D} `{!PortOps D, !PortLaws D} sched_schedule other_irq other
    DEFAULT_IRQ_HANDLER IRQHANDLER s_traphandler s_irqhandler (s : machine (board D)) hs irqs :
  traps_wf s hs → length hs = 256%nat → hs !! 32%nat = Some [] →
  (∀ i, 0 ≤ i < 16 → unregistered s hs (traphandler s_traphandler i)) →
  irqs_wf (rest s) irqs → irqs !! 0%nat = Some [] → irq_unregistered (rest s) irqs s_irqhandler →
  keeps sched_schedule → keeps_lines sched_schedule → (∀ cb k d, keeps (other_irq cb k d)) →
  keeps_irqs other_irq → keeps_traps other →
  ∃ s1, (_ ← archi586_pic_init DEFAULT_IRQ_HANDLER s_traphandler; archi586_pit_init s_irqhandler IRQHANDLER) s
      = Ok (tt, s1) ∧
    (∀ k, 0 ≤ k < 16 → masked (the_chips s1) k = negb ((k =? 0) || (k =? 2))) ∧ pit (the_chips s1) = timer_chip ∧
    eflags_if s1 = eflags_if s ∧ g_ticktime (rest s1) = g_ticktime (rest s) ∧
    ∀ s2 f, same_traps s1 s2 → same_irqs (rest s1) (rest s2) → eflags_if s2 = false →
      in_service (the_chips s2) 0 = true →
      ∃ s3, trapmanager_trap (trap_call (irq_call sched_schedule IRQHANDLER other_irq) DEFAULT_IRQ_HANDLER other)
          (PIC_VECTOR_BASE + PIT_IRQ) f s2 = sched_schedule s3 ∧
        g_ticktime (rest s3) = u64 (g_ticktime (rest s2) + 1) ∧
        (∀ k, 0 ≤ k < 16 → in_service (the_chips s3) k = if k =? 0 then false else in_service (the_chips s2) k) ∧
        same_traps s2 s3 ∧ same_irqs (rest s2) (rest s3) ∧ eflags_if s3 = false.
Proof.
  intros Hwf Hlen Hk Hun Hirqs Hps Hiu Hs Hsl Hoi Hoi2 Ho.
  destruct (pic_init_ok DEFAULT_IRQ_HANDLER s_traphandler s hs Hwf Hlen Hun)
    as (t & Et & Wt & Ct & Rt & _ & It & Ft & Gt).
  destruct (pit_init_ok t irqs [] s_irqhandler IRQHANDLER) as (s1 & E1 & T1 & F1 & W1 & G1 & R1 & P1 & _ & K1);
    [by eapply same_irqs_wf|done|by eapply same_irqs_unregistered|by rewrite Ct|].
  exists s1. split_and!; [by rewrite (M_bind_step _ _ _ _ _ Et)| |done|congruence|congruence|].
  { intros k Hk'. rewrite K1, Ct, ready_masked by done. by destruct (k =? 0). }
  intros s2 f T2 I2 F2 H2.
  eapply (tick_ok _ _ _ _ _ s2 (pic_lists s_traphandler is_line hs) (<[0%nat := [s_irqhandler]]> irqs)
    (traphandler s_traphandler 0) s_irqhandler f); try done.
  - do 2 (eapply same_traps_wf; [done|]). done.
  - by eapply same_irqs_wf.
  - unfold pic_lists. by rewrite list_lookup_imap, Hk.
  - rewrite (same_traps_registered _ _ _ T2), (same_traps_registered _ _ _ T1). by apply Rt.
  - by rewrite list_lookup_insert_eq by (by eapply lookup_lt_Some).
  - rewrite (same_irqs_registered _ _ _ I2), R1. by rewrite decide_True.
Qed.

(** ** A machine that boots *)

(** The handlers of the traps are at 10000, those of the timer and of line 7 at
    20000 and 20100; nothing is registered.  The code of the trap handler is at
    1 and that of the timer's handler at 2. *)
Definition boot_handlers : list Z := traphandler 10000 <$> seqZ 0 16.
Definition no_irqs : list (list Z) := replicate 16 [].
Definition boot_board : board chips :=
  Board (replicate 16 list_init) (list_to_map [(20000, IrqHandler 0 0); (20100, IrqHandler 0 0)])
    (list_to_map [(20008, ListNode 0 0 0); (20108, ListNode 0 0 0)]) 41
    (Chips (PicChip 0 0 0 false Operational 8 4 1) (PicChip 0 0 0 false Operational 0x70 2 1) (PitChip 0 None None)).
Definition boot : machine (board chips) :=
  Machine (replicate 256 list_init) (list_to_map ((λ p, (p, TrapHandler 0 0 0)) <$> boot_handlers))
    (list_to_map ((λ p, (p + NODE_OFFSET, ListNode 0 0 0)) <$> boot_handlers)) false boot_board.

Definition nothing (s : machine (board chips)) : res (unit * machine (board chips)) := Ok (tt, s).

Lemma nothing_keeps : keeps_lines nothing ∧ keeps_irqs (λ _ _ _ : Z, nothing) ∧ keeps_traps (λ _ _ _ _ : Z, nothing).
Proof.
  split; [|split].
  - by intros s s' [= <-].
  - by intros cb k d s s' [= <-].
  - by intros cb k f d s s' [= <-].
Qed.

Lemma boot_wf : traps_wf boot no_handlers.
Proof.
  split; [vm_compute; reflexivity|apply linked_empty|].
  rewrite concat_no_handlers. by intros p ?%elem_of_nil.
Qed.

Lemma boot_unregistered i : 0 ≤ i < 16 → unregistered boot no_handlers (traphandler 10000 i).
Proof.
  intros Hi. assert (H : Forall (λ i, bool_decide (is_Some (handlers boot !! traphandler 10000 i) ∧
    is_Some (tnodes boot !! (traphandler 10000 i + NODE_OFFSET))) = true) (seqZ 0 16)) by by repeat constructor.
  rewrite Forall_forall in H. specialize (H i ltac:(apply elem_of_seqZ; lia)).
  apply bool_decide_eq_true in H as [H1 H2]. split; [split_and!; [|done|]|done].
  - rewrite concat_no_handlers. apply not_elem_of_nil.
  - unfold traphandler, NODE_OFFSET, NULL. lia.
Qed.

Lemma boot_irqs_wf : irqs_wf boot_board no_irqs.
Proof. split; [done|apply linked_empty|]. intros p. unfold no_irqs. rewrite concat_replicate_nil. by intros ?%elem_of_nil. Qed.
Lemma boot_irq_unregistered : irq_unregistered boot_board no_irqs 20000 ∧ irq_unregistered boot_board no_irqs 20100.
Proof.
  split; (split; [split_and!; [unfold no_irqs; rewrite concat_replicate_nil; apply not_elem_of_nil|by eexists|done]|]);
    (split; [done|by eexists]).
Qed.

(** An interrupt of the timer arrives. *)
Definition timer_raised (s : machine (board chips)) : machine (board chips) :=
  with_rest (with_dev (Chips (pic_with_isr 1 (master (the_chips s))) (slave (the_chips s)) (pit (the_chips s)))
    (rest s)) s.

Lemma timer_raised_same s : same_traps s (timer_raised s) ∧ same_irqs (rest s) (rest (timer_raised s)) ∧
  eflags_if (timer_raised s) = eflags_if s ∧ g_ticktime (rest (timer_raised s)) = g_ticktime (rest s) ∧
  in_service (the_chips (timer_raised s)) 0 = true.
Proof. done. Qed.

Lemma timer_interrupt_ticks_witness : ∃ s1 s3,
  (_ ← archi586_pic_init 1 10000; archi586_pit_init 20000 2) boot = Ok (tt, s1) ∧
  trapmanager_trap (trap_call (irq_call nothing 2 (λ _ _ _, nothing)) 1 (λ _ _ _ _, nothing)) 0x20 0 (timer_raised s1)
    = nothing s3 ∧
  g_ticktime (rest s3) = 42 ∧ in_service (the_chips s3) 0 = false.
Proof.
  destruct (timer_interrupt_ticks nothing (λ _ _ _, nothing) (λ _ _ _ _, nothing) 1 2 10000 20000 boot no_handlers no_irqs
    boot_wf ltac:(reflexivity) ltac:(reflexivity) boot_unregistered boot_irqs_wf ltac:(reflexivity)
    (proj1 boot_irq_unregistered) (keeps_ret tt) (proj1 nothing_keeps) (λ _ _ _, keeps_ret tt)
    (proj1 (proj2 nothing_keeps)) (proj2 (proj2 nothing_keeps)))
    as (s1 & E & _ & _ & F & G & H).
  destruct (timer_raised_same s1) as (T2 & I2 & F2 & G2 & H2). rewrite F in F2. rewrite G in G2.
  destruct (H _ 0 T2 I2 F2 H2) as (s3 & E3 & G3 & I3 & _).
  exists s1, s3. split; [exact E|]. split; [exact E3|]. rewrite G3, G2, (I3 0) by lia. split; reflexivity.
Defined.

Lemma pic_masks_exact_witness : operational (the_chips boot) ∧ ∃ m s',
  archi586_pic_mask_irq 9 boot = Ok (tt, s') ∧ moved (with_mask m) boot s' ∧ masked (the_chips s') 9 = true.
Proof.
  assert (Hop : operational (the_chips boot)) by (split; reflexivity). split; [exact Hop|].
  destruct (pic_masks_exact boot 9 Hop ltac:(lia)) as (_ & (m & s' & E & M & K) & _).
  exists m, s'. split; [exact E|]. split; [exact M|]. rewrite K by lia. reflexivity.
Defined.

(** Line 7 has a handler, and raises an interrupt that is not in service. *)
Lemma line_7_registered : ∃ s1 b irqs, archi586_pic_init 1 10000 boot = Ok (tt, s1) ∧
  traps_wf s1 (pic_lists 10000 is_line no_handlers) ∧ registered_as s1 (traphandler 10000 7) = Some (1, 0) ∧
  archi586_pic_register_handler 20100 7 3 30 s1 = Ok (tt, with_rest b s1) ∧ irqs_wf b irqs ∧
  irqs !! 7%nat = Some [20100] ∧ eflags_if s1 = false ∧ chips_of (dev b) = ready_chips (the_chips boot) ∧
  irq_registered_as b 20100 = Some (3, 30).
Proof.
  destruct (pic_init_ok 1 10000 boot no_handlers boot_wf ltac:(reflexivity) boot_unregistered)
    as (s1 & E1 & W1 & C1 & R1 & _ & I1 & F1 & _).
  destruct (register_handler_ok s1 no_irqs 20100 7 3 30 []) as (b & E2 & W2 & D2 & _ & R2);
    [by eapply same_irqs_wf, boot_irqs_wf|lia|reflexivity|by eapply same_irqs_unregistered, boot_irq_unregistered|].
  exists s1, b, (<[7%nat := [20100]]> no_irqs). split_and!; [exact E1|exact W1|apply R1; lia|exact E2|exact W2|..].
  - reflexivity.
  - exact F1.
  - rewrite D2. exact C1.
  - rewrite R2. reflexivity.
Qed.

Lemma irq_delivery_witness : ∃ s1 s2, irq_registered_as (rest s1) 20100 = Some (3, 30) ∧
  is_real (the_chips s1) 7 = false ∧ moved (checked 7) s1 s2 ∧
  trapmanager_trap (trap_call (λ _ _ _, nothing) 1 (λ _ _ _ _, nothing)) (PIC_VECTOR_BASE + 7) 0 s1 =
  archi586_pic_send_eoi 7 s2.
Proof.
  destruct line_7_registered as (s1 & b & irqs & E1 & W1 & R1 & E2 & W2 & K2 & F1 & C2 & R2).
  destruct (irq_delivery (λ _ _ _, nothing) 1 (λ _ _ _ _, nothing) (with_rest b s1) (pic_lists 10000 is_line no_handlers)
    irqs 7 (traphandler 10000 7) 0 [20100] 0) as (s2 & M2 & E3).
  - apply (same_traps_wf s1); [split_and!; reflexivity|exact W1].
  - exact W2.
  - lia.
  - reflexivity.
  - exact R1.
  - exact K2.
  - exact F1.
  - intros cb n e. exact (keeps_ret tt).
  - apply nothing_keeps.
  - apply nothing_keeps.
  - exists (with_rest b s1), s2. split; [exact R2|].
    assert (Hr : is_real (the_chips (with_rest b s1)) 7 = false).
    { change (the_chips (with_rest b s1)) with (chips_of (dev b)). rewrite C2. reflexivity. }
    split; [exact Hr|]. split; [exact M2|]. rewrite E3, Hr.
    rewrite (M_bind_step _ _ _ tt s2); [reflexivity|]. cbn [for_].
    rewrite (M_bind_step _ _ _ tt s2); [reflexivity|]. unfold irq_call_at.
    destruct (irq_handlers (rest (with_rest b s1)) !! 20100); reflexivity.
Defined.
