(* ===== verification/Disk.v ===== *)
(** Logical and physical disks (src/kernel/io/disk.c,
    src/include/kernel/io/disk.h): what a disk driver promises, the access to a
    partition, and the partition table of a disk. *)
From S2P Require Import Prelude MiscMath StrUtil HeapIface.

(** ** The interface of disk drivers

    [struct pdisk_ops]: a driver moves whole blocks between the disk and
    memory.  [pdisk_read] returns its return value and the bytes it stored from
    the start of the buffer; [pdisk_write] takes the bytes of the buffer. *)
Record pdisk := Pdisk { block_size : Z; data : Z }.

Class PdiskOps (D : Type) := {
  pdisk_read : pdisk → Z → Z → M D (Z * list Z);
  pdisk_write : pdisk → list Z → Z → Z → M D Z;
}.

(** The bytes of blocks [addr], ..., [addr + count - 1]. *)
Definition blocks_of (contents : Z → list Z) (addr : Z) (count : nat) : list Z :=
  concat ((λ k, contents (addr + Z.of_nat k)) <$> seq 0 count).

(** What the drivers of a disk promise: [contents] are the blocks on the disk.
    A call that succeeds moves the blocks, one that fails returns a negative
    error number and may have moved some of them. *)
Class PdiskLaws (D : Type) `{PdiskOps D} := {
  contents : D → pdisk → Z → list Z;
  contents_length d p a : 0 ≤ block_size p → Z.of_nat (length (contents d p a)) = block_size p;
  contents_bytes d p a : Forall (λ b, 0 ≤ b < 256) (contents d p a);
  pdisk_read_law p addr count d : 0 ≤ block_size p → 0 ≤ count → ∃ r bs d',
    pdisk_read p addr count d = Ok ((r, bs), d') ∧ contents d' = contents d ∧
    Z.of_nat (length bs) ≤ count * block_size p ∧
    (r < 0 ∨ 0 ≤ r ∧ bs = blocks_of (contents d p) addr (Z.to_nat count));
}.

(** A disk that has no read errors. *)
Class PdiskReliable (D : Type) `{PdiskOps D} : Prop :=
  pdisk_read_succeeds : ∀ p addr count d, ∃ r bs d',
    pdisk_read p addr count d = Ok ((r, bs), d') ∧ 0 ≤ r.

(** ** Access to a partition *)

Record ldisk := Ldisk { physdisk : pdisk; startblockaddr : Z; block_count : Z }.

(** The first physical block and the number of blocks of an access. *)
Definition to_abs_block_range (self : ldisk) (block_addr blockcount : Z) : Z * Z :=
  let disk_first_blockaddr := startblockaddr self in
  let disk_last_blockaddr := u32 (startblockaddr self + u32 (block_count self - 1)) in
  if u32 (disk_last_blockaddr - disk_first_blockaddr) <? block_addr then (0, 0)
  else
    let first_abs_addr := u32 (disk_first_blockaddr + block_addr) in
    let room := u32 (u32 (disk_last_blockaddr - first_abs_addr) + 1) in
    (first_abs_addr, if room <? blockcount then room else blockcount).

Section Access.
Context {D : Type} `{!PdiskOps D}.

(** The return value, and the bytes stored in the buffer. *)
Definition ldisk_read (self : ldisk) (block_addr block_count : Z) : M D (Z * list Z) :=
  let '(first_abs_addr, final_blockcount) := to_abs_block_range self block_addr block_count in
  if negb (final_blockcount =? 0) then
    '(ret, bytes) ← pdisk_read (physdisk self) first_abs_addr final_blockcount;
    if ret <? 0 then mret (ret, bytes) else mret (s32 final_blockcount, bytes)
  else mret (s32 final_blockcount, []).

Definition ldisk_write (self : ldisk) (buf : list Z) (block_addr block_count : Z) : M D Z :=
  let '(firstabsaddr, final_block_count) := to_abs_block_range self block_addr block_count in
  if negb (final_block_count =? 0) then
    ret ← pdisk_write (physdisk self) buf firstabsaddr final_block_count;
    if ret <? 0 then mret ret else mret (s32 final_block_count)
  else mret (s32 final_block_count).

Definition ldisk_read_exact (self : ldisk) (block_addr block_count : Z) : M D (Z * list Z) :=
  '(ret, bytes) ← ldisk_read self block_addr block_count;
  if ret <? 0 then mret (ret, bytes)
  else if negb (u32 ret =? block_count) then mret (- EINVAL, bytes)
  else mret (0, bytes).

Definition ldisk_write_exact (self : ldisk) (buf : list Z) (block_addr block_count : Z) : M D Z :=
  ret ← ldisk_write self buf block_addr block_count;
  if negb (u32 ret =? block_count) then mret (- EINVAL) else mret 0.

End Access.

(** ** The access stays inside the partition *)

(** The blocks of a partition do not wrap around the 32-bit block numbers. *)
Definition ldisk_wf (self : ldisk) : Prop :=
  0 < block_size (physdisk self) ∧ 0 ≤ startblockaddr self ∧ 0 < block_count self < 2 ^ 32 ∧
  startblockaddr self + block_count self ≤ 2 ^ 32.

Lemma to_abs_block_range_ok self addr n :
  ldisk_wf self → is_u32 addr → is_u32 n →
  to_abs_block_range self addr n =
    if block_count self <=? addr then (0, 0)
    else (startblockaddr self + addr, Z.min n (block_count self - addr)).
Proof.
  intros (Hb & Hs & Hc & Hw) Ha Hn. unfold to_abs_block_range, is_u32 in *.
  rewrite (u32_small (block_count self - 1)) by lia.
  rewrite (u32_small (startblockaddr self + (block_count self - 1))) by lia.
  rewrite (u32_small (_ - _)) by lia.
  destruct (Z.leb_spec (block_count self) addr), (Z.ltb_spec (startblockaddr self + (block_count self - 1) - startblockaddr self) addr);
    try lia; [done|].
  rewrite (u32_small (startblockaddr self + addr)) by lia.
  rewrite (u32_small (_ - _)) by lia.
  rewrite u32_small by lia. f_equal. zcase; lia.
Qed.

(** The bytes of a range of the partition. *)
Definition ldisk_bytes {D} `{PdiskLaws D} (d : D) (self : ldisk) (addr : Z) (count : nat) : list Z :=
  blocks_of (contents d (physdisk self)) (startblockaddr self + addr) count.

Lemma blocks_of_length c addr n b :
  (∀ a, Z.of_nat (length (c a)) = b) → Z.of_nat (length (blocks_of c addr n)) = Z.of_nat n * b.
Proof.
  intros Hc. unfold blocks_of. generalize 0%nat as i. induction n as [|n IH]; intros i; [done|].
  cbn [seq fmap list_fmap concat]. rewrite length_app, Nat2Z.inj_add, IH, Hc. lia.
Qed.

Lemma blocks_of_bytes c addr n :
  (∀ a, Forall (λ b, 0 ≤ b < 256) (c a)) → Forall (λ b, 0 ≤ b < 256) (blocks_of c addr n).
Proof.
  intros Hc. unfold blocks_of. generalize 0%nat as i. induction n as [|n IH]; intros i; [by constructor|].
  cbn [seq fmap list_fmap concat]. apply Forall_app. by split; [apply Hc|].
Qed.

Section Correct.
Context {D : Type} `{PdiskLaws D}.

(** A read inside of the partition: it fails only if the driver does. *)
Lemma ldisk_read_exact_ok self addr n d :
  ldisk_wf self → 0 ≤ addr → 0 < n < 2 ^ 31 → addr + n ≤ block_count self → ∃ r bs d',
    ldisk_read_exact self addr n d = Ok ((r, bs), d') ∧ contents d' = contents d ∧
    Z.of_nat (length bs) ≤ n * block_size (physdisk self) ∧
    (r < 0 ∧ ¬ PdiskReliable D ∨ r = 0 ∧ bs = ldisk_bytes d self addr (Z.to_nat n)).
Proof.
  intros Hwf Ha Hn Hr. pose proof Hwf as (Hb & Hs & Hc & Hw). unfold ldisk_read_exact, ldisk_read.
  rewrite to_abs_block_range_ok by (done || unfold is_u32; lia).
  destruct (Z.leb_spec (block_count self) addr); [lia|]. rewrite Z.min_l by lia.
  destruct (Z.eqb_spec n 0); [lia|]. cbn [negb].
  destruct (pdisk_read_law (physdisk self) (startblockaddr self + addr) n d ltac:(lia) ltac:(lia))
    as (r & bs & d' & Hrd & Hct & Hlen & Hout).
  unfold mbind, M_bind. rewrite Hrd. destruct (Z.ltb_spec r 0) as [Hneg|Hpos]; cbn.
  - destruct (Z.ltb_spec r 0); [|lia]. do 3 eexists. split; [done|]. split_and!; [done..|].
    left. split; [done|]. intros Hrel.
    destruct (Hrel (physdisk self) (startblockaddr self + addr) n d) as (r' & bs' & d'' & Hrd' & ?).
    rewrite Hrd in Hrd'. injection Hrd' as <- <- <-. lia.
  - rewrite s32_small by lia. destruct (Z.ltb_spec n 0); [lia|]. rewrite u32_small by lia.
    rewrite Z.eqb_refl. do 3 eexists. split; [done|]. split_and!; [done..|].
    right. split; [done|]. by destruct Hout as [?|[_ Hbs]]; [lia|].
Qed.

End Correct.

(** ** A disk that only holds what it was made with *)

Definition rom_block (p : pdisk) (bs : list Z) : list Z :=
  take (Z.to_nat (block_size p)) ((u8 <$> bs) ++ replicate (Z.to_nat (block_size p)) 0).

Definition rom (c : Z → list Z) : PdiskOps unit := {|
  pdisk_read p addr count := λ d,
    Ok ((0, blocks_of (λ a, rom_block p (c a)) addr (Z.to_nat count)), d);
  pdisk_write p buf addr count := λ d, Ok (- EIO, d);
|}.

Lemma rom_block_length p bs : 0 ≤ block_size p → Z.of_nat (length (rom_block p bs)) = block_size p.
Proof.
  intros Hb. unfold rom_block. rewrite length_take, length_app, length_replicate. lia.
Qed.

Lemma rom_block_bytes p bs : Forall (λ b, 0 ≤ b < 256) (rom_block p bs).
Proof.
  unfold rom_block. apply Forall_take, Forall_app. split.
  - apply Forall_fmap, Forall_forall. intros x _. unfold u8; cbn. apply Z.mod_pos_bound. lia.
  - apply Forall_replicate. lia.
Qed.

(** A negative count reads nothing, and a size that is not one is not read. *)
Lemma rom_read_law c p addr count (d : unit) : 0 ≤ block_size p → 0 ≤ count → ∃ r bs d',
  @pdisk_read _ (rom c) p addr count d = Ok ((r, bs), d') ∧
  Z.of_nat (length bs) ≤ count * block_size p ∧
  (r < 0 ∨ 0 ≤ r ∧ bs = blocks_of (λ a, rom_block p (c a)) addr (Z.to_nat count)).
Proof.
  intros Hb Hc. do 3 eexists. split; [done|]. split; [|by right].
  rewrite (blocks_of_length _ _ _ (block_size p)); [lia|]. intros a. by apply rom_block_length.
Qed.

Definition rom_laws (c : Z → list Z) : @PdiskLaws unit (rom c).
Proof.
  refine (@Build_PdiskLaws _ (rom c) (λ _ p a, rom_block p (c a)) _ _ _).
  - intros _ p a Hb. by apply rom_block_length.
  - intros _ p a. apply rom_block_bytes.
  - intros p addr count d Hb Hc. destruct (rom_read_law c p addr count d Hb Hc) as (r & bs & d' & ? & ? & ?).
    by exists r, bs, d'.
Defined.

Lemma rom_reliable c : @PdiskReliable unit (rom c).
Proof. intros p addr count d. do 3 eexists. split; [reflexivity|lia]. Defined.
