(* ===== verification/Psf.v ===== *)
(** The font of the kernel (src/kernel/raster/psf.c): PC Screen Font files of
    both versions, and the table from characters to glyphs. *)
From S2P Require Import Prelude MiscMath HeapIface.

Definition PSF1_MAGIC : Z := 0x0436.
Definition PSF2_MAGIC : Z := 0x864ab572.
Definition UINT16_MAX : Z := 2 ^ 16 - 1.

(** The static variables: pointers into the font are offsets from its start,
    and the table is zeroed memory, of [UINT16_MAX] entries. *)
Record psf := Psf {
  s_unicodetable : option (gmap Z Z); s_glyphs : Z;
  s_fontwidth : Z; s_fontheight : Z; s_bytesperglyph : Z; s_glyphcount : Z;
}.

Definition table_at (t : gmap Z Z) (unicode : Z) : res Z :=
  if (0 <=? unicode) && (unicode <? UINT16_MAX) then Ok (default 0 (t !! unicode))
  else Fault Out_of_bounds.
Definition table_set (t : gmap Z Z) (unicode glyph : Z) : res (gmap Z Z) :=
  if (0 <=? unicode) && (unicode <? UINT16_MAX) then Ok (<[unicode := u16 glyph]> t)
  else Fault Out_of_bounds.

(** ** UTF-8 *)

Definition utf8_get_bytes_len (leading_byte : Z) : Z :=
  if leading_byte <? 128 then 1
  else if Z.land leading_byte 0xe0 =? 0xc0 then 2
  else if Z.land leading_byte 0xf0 =? 0xe0 then 3
  else if Z.land leading_byte 0xf8 =? 0xf0 then 4
  else -1.

(** Whether the bytes at some places are continuation bytes, up to the first
    that is not. *)
Fixpoint continuations_at (buf : list Z) (places : list Z) : res bool :=
  match places with
  | [] => Ok true
  | i :: places =>
      b ← rd buf i;
      if negb (Z.land b 0xc0 =? 0x80) then Ok false else continuations_at buf places
  end.

Definition utf8_to_codepoint (buf : list Z) : res Z :=
  b0 ← rd buf 0;
  if b0 <? 128 then Ok b0
  else if Z.land b0 0xe0 =? 0xc0 then
    ok ← continuations_at buf [1];
    if negb ok then Ok (-1)
    else
      b1 ← rd buf 1;
      Ok (s32 (Z.lor (Z.shiftl (Z.land b0 0x1f) 6) (Z.land b1 0x3f)))
  else if Z.land b0 0xf0 =? 0xe0 then
    ok ← continuations_at buf [1; 2];
    if negb ok then Ok (-1)
    else
      b1 ← rd buf 1; b2 ← rd buf 2;
      Ok (s32 (Z.lor (Z.lor (Z.shiftl (Z.land b0 0x0f) 12) (Z.shiftl (Z.land b1 0x3f) 6)) (Z.land b2 0x3f)))
  else if Z.land b0 0xf8 =? 0xf0 then
    ok ← continuations_at buf [1; 2; 3];
    if negb ok then Ok (-1)
    else
      b1 ← rd buf 1; b2 ← rd buf 2; b3 ← rd buf 3;
      Ok (s32 (Z.lor (Z.lor (Z.lor (Z.shiftl (Z.land b0 0x07) 18) (Z.shiftl (Z.land b1 0x3f) 12))
                            (Z.shiftl (Z.land b2 0x3f) 6)) (Z.land b3 0x3f)))
  else Ok (-1).

(** ** The table from characters to glyphs *)

(** The variables of the loops that read the entries. *)
Record entry_reader := EntryReader {
  next_chr : Z; glyph : Z; had_multi_chars : bool; gotchar : bool; table : gmap Z Z;
}.

Definition skip_bytes (n : Z) (r : entry_reader) : entry_reader :=
  EntryReader (next_chr r + n) (glyph r) (had_multi_chars r) (gotchar r) (table r).
Definition next_glyph (n : Z) (r : entry_reader) : entry_reader :=
  EntryReader (next_chr r + n) (u32 (glyph r + 1)) (had_multi_chars r) false (table r).
(** [unicodedone]: the entry of the character is set. *)
Definition unicode_done (unicode n : Z) (r : entry_reader) : res entry_reader :=
  t ← table_set (table r) unicode (glyph r);
  Ok (EntryReader (next_chr r + n) (glyph r) (had_multi_chars r || gotchar r) true t).

Section Entries.
Variable font : list Z.
Local Abbreviation font_end := (Z.of_nat (length font)).

Definition psf_at (p : Z) : list Z := drop (Z.to_nat p) font.

Definition read_psf1_step (num_glyph : Z) (r : entry_reader) : res (entry_reader + entry_reader) :=
  if (next_chr r <? font_end) && (glyph r <? num_glyph) then
    unicode ← u16le_at (psf_at (next_chr r));
    if unicode =? 0xffff then Ok (inl (next_glyph 2 r))
    else if unicode =? 0xfffe then Ok (inl (skip_bytes 2 r))
    else r ← unicode_done unicode 2 r; Ok (inl r)
  else Ok (inr r).

Definition read_psf1_utf16_entries (s : psf) (t : gmap Z Z) (bytes_per_glyph num_glyph : Z) : res entry_reader :=
  loop (S (length font)) (read_psf1_step num_glyph)
    (EntryReader (s_glyphs s + u32 (bytes_per_glyph * num_glyph)) 0 false false t).

(** Whether one of the bytes after the first is an end-of-line mark or beyond
    the end of the font. *)
Definition psf2_will_eol_or_eof (base : Z) (len : Z) : bool :=
  existsb (λ i, if font_end <=? base + i then true
                else default 0 (font !! Z.to_nat (base + i)) =? 0xff) (seqZ 1 (len - 1)).

(** The character at a place and its length; an illegal sequence counts as its
    first byte. *)
Definition read_psf2_char (p byt : Z) : res (Z * Z) :=
  let bytes_len := utf8_get_bytes_len byt in
  if bytes_len <? 0 then Ok (byt, 1)
  else if psf2_will_eol_or_eof p bytes_len then Ok (byt, 1)
  else
    unicode ← utf8_to_codepoint (psf_at p);
    if unicode <? 0 then Ok (byt, 1) else Ok (unicode, bytes_len).

Definition read_psf2_step (num_glyph : Z) (r : entry_reader) : res (entry_reader + entry_reader) :=
  if (next_chr r <? font_end) && (glyph r <? num_glyph) then
    byt ← rd font (next_chr r);
    if byt =? 0xff then Ok (inl (next_glyph 1 r))
    else if byt =? 0xfe then Ok (inl (skip_bytes 1 r))
    else
      '(unicode, n) ← read_psf2_char (next_chr r) byt;
      if 0xffff <? unicode then Ok (inl (skip_bytes n r))
      else r ← unicode_done unicode n r; Ok (inl r)
  else Ok (inr r).

Definition read_psf2_utf8_entries (s : psf) (t : gmap Z Z) (bytes_per_glyph num_glyph : Z) : res entry_reader :=
  loop (S (length font)) (read_psf2_step num_glyph)
    (EntryReader (s_glyphs s + u32 (bytes_per_glyph * num_glyph)) 0 false false t).

(** ** Initialisation *)

Context {H : Type} `{!HeapOps H}.

(** [SIZE_MAX / bytes_per_glyph]. *)
Definition glyphs_too_large (bytes_per_glyph num_glyph : Z) : res bool :=
  if bytes_per_glyph =? 0 then Fault Div_by_zero else Ok (SIZE_MAX / bytes_per_glyph <? num_glyph).

Definition alloc_table : M H (option (gmap Z Z)) :=
  p ← heap_calloc 2 UINT16_MAX HEAP_FLAG_ZEROMEMORY;
  mret (if p =? 0 then None else Some ∅).

Definition init_psf1 (s : psf) : M H psf :=
  mode ← lift (rd font 2);
  let width := 8 in
  height ← lift (rd font 3);
  let num_glyph := if negb (Z.land mode 0x01 =? 0) then 512 else 256 in
  let headersize := 4 in
  let bytes_per_glyph := height in
  if Z.land mode (Z.lor 0x02 0x04) =? 0 then mret s
  else
    b ← lift (glyphs_too_large bytes_per_glyph num_glyph);
    if b : bool then mret s
    else
      t ← alloc_table;
      _ ← massert (width <? 32767);
      _ ← massert (height <? 32767);
      let s := Psf t headersize width height bytes_per_glyph num_glyph in
      match t with
      | None => mret s
      | Some t =>
          r ← lift (read_psf1_utf16_entries s t bytes_per_glyph num_glyph);
          mret (Psf (Some (table r)) headersize width height bytes_per_glyph num_glyph)
      end.

Definition init_psf2 (s : psf) : M H psf :=
  _ ← lift (u32le_at (psf_at 4));
  headersize ← lift (u32le_at (psf_at 8));
  flags ← lift (u32le_at (psf_at 12));
  num_glyph ← lift (u32le_at (psf_at 16));
  bytes_per_glyph ← lift (u32le_at (psf_at 20));
  height ← lift (u32le_at (psf_at 24));
  width ← lift (u32le_at (psf_at 28));
  _ ← massert (width <? 32767);
  _ ← massert (height <? 32767);
  let s := Psf (s_unicodetable s) headersize width height bytes_per_glyph num_glyph in
  if Z.land flags 0x1 =? 0 then mret s
  else
    b ← lift (glyphs_too_large bytes_per_glyph num_glyph);
    if b : bool then mret s
    else
      t ← alloc_table;
      match t with
      | None => mret (Psf None headersize width height bytes_per_glyph num_glyph)
      | Some t =>
          r ← lift (read_psf2_utf8_entries s t bytes_per_glyph num_glyph);
          mret (Psf (Some (table r)) headersize width height bytes_per_glyph num_glyph)
      end.

Definition psf_init (s : psf) : M H psf :=
  magic16 ← lift (u16le_at (psf_at 0));
  if magic16 =? PSF1_MAGIC then init_psf1 s
  else
    magic32 ← lift (u32le_at (psf_at 0));
    if magic32 =? PSF2_MAGIC then init_psf2 s
    else throw Panic.
End Entries.

(** ** Access to the font *)

Definition psf_getwidth (s : psf) : Z := s_fontwidth s.
Definition psf_getheight (s : psf) : Z := s_fontheight s.
Definition psf_getbytesperline (s : psf) : Z := (s_fontwidth s + 7) `quot` 8.

(** The pointer to the glyph of a character. *)
Definition psf_getglyph (s : psf) (chr : Z) : res Z :=
  let chr := if 0xffff <? chr then 63 else chr in
  glyphindex ← match s_unicodetable s with Some t => table_at t chr | None => Ok chr end;
  if s_glyphcount s =? 0 then Fault Div_by_zero
  else Ok (s_glyphs s + u32 (s_bytesperglyph s * (glyphindex mod s_glyphcount s))).
