(* ===== verification/PsfCorrect.v ===== *)
(** Fonts are read back: UTF-8 is decoded, and a font file of either version
    gives every character the glyph that the file lists it under. *)
From S2P Require Import Prelude MiscMath HeapIface Psf.

(** ** UTF-8 is decoded *)

Definition utf8_bytes (c : Z) : list Z :=
  if c <? 0x80 then [c]
  else if c <? 0x800 then [0xc0 + c / 64; 0x80 + c mod 64]
  else if c <? 0x10000 then [0xe0 + c / 4096; 0x80 + c / 64 mod 64; 0x80 + c mod 64]
  else [0xf0 + c / 262144; 0x80 + c / 4096 mod 64; 0x80 + c / 64 mod 64; 0x80 + c mod 64].

Lemma range_by_computation (P : Z → bool) (lo n : Z) :
  forallb P (seqZ lo n) = true → ∀ x, lo ≤ x < lo + n → P x = true.
Proof. rewrite forallb_forall. intros HP x Hx. apply HP, list_elem_of_In, elem_of_seqZ. lia. Qed.

(** The classes of bytes. *)
Lemma continuation_byte x : 0 ≤ x < 64 → (Z.land (0x80 + x) 0xc0 =? 0x80) = true ∧ Z.land (0x80 + x) 0x3f = x.
Proof.
  intros Hx. split.
  - by apply (range_by_computation (λ x, Z.land (0x80 + x) 0xc0 =? 0x80) 0 64).
  - change 0x3f with (Z.ones 6). rewrite Z.land_ones by lia. dlia.
Qed.

Lemma lead2_byte x : 0 ≤ x < 32 → (Z.land (0xc0 + x) 0xe0 =? 0xc0) = true ∧ Z.land (0xc0 + x) 0x1f = x.
Proof.
  intros Hx. split.
  - by apply (range_by_computation (λ x, Z.land (0xc0 + x) 0xe0 =? 0xc0) 0 32).
  - change 0x1f with (Z.ones 5). rewrite Z.land_ones by lia. dlia.
Qed.

Lemma lead3_byte x : 0 ≤ x < 16 →
  (Z.land (0xe0 + x) 0xe0 =? 0xc0) = false ∧ (Z.land (0xe0 + x) 0xf0 =? 0xe0) = true ∧ Z.land (0xe0 + x) 0x0f = x.
Proof.
  intros Hx. split_and!.
  - apply negb_true_iff. by apply (range_by_computation (λ x, negb (Z.land (0xe0 + x) 0xe0 =? 0xc0)) 0 16).
  - by apply (range_by_computation (λ x, Z.land (0xe0 + x) 0xf0 =? 0xe0) 0 16).
  - change 0x0f with (Z.ones 4). rewrite Z.land_ones by lia. dlia.
Qed.

Lemma lead4_byte x : 0 ≤ x < 8 →
  (Z.land (0xf0 + x) 0xe0 =? 0xc0) = false ∧ (Z.land (0xf0 + x) 0xf0 =? 0xe0) = false ∧
  (Z.land (0xf0 + x) 0xf8 =? 0xf0) = true ∧ Z.land (0xf0 + x) 0x07 = x.
Proof.
  intros Hx. split_and!.
  - apply negb_true_iff. by apply (range_by_computation (λ x, negb (Z.land (0xf0 + x) 0xe0 =? 0xc0)) 0 8).
  - apply negb_true_iff. by apply (range_by_computation (λ x, negb (Z.land (0xf0 + x) 0xf0 =? 0xe0)) 0 8).
  - by apply (range_by_computation (λ x, Z.land (0xf0 + x) 0xf8 =? 0xf0) 0 8).
  - change 0x07 with (Z.ones 3). rewrite Z.land_ones by lia. dlia.
Qed.

Lemma utf8_bytes_len c : 0 ≤ c < 0x110000 →
  utf8_get_bytes_len (hd 0 (utf8_bytes c)) = Z.of_nat (length (utf8_bytes c)).
Proof.
  intros Hc. unfold utf8_bytes, utf8_get_bytes_len.
  destruct (Z.ltb_spec c 0x80); [cbn; by destruct (Z.ltb_spec c 128); [|lia]|].
  destruct (Z.ltb_spec c 0x800); [|destruct (Z.ltb_spec c 0x10000)]; cbn [hd length].
  - destruct (lead2_byte (c / 64)) as [-> _]; [dlia|]. by destruct (Z.ltb_spec (0xc0 + c / 64) 128); [dlia|].
  - destruct (lead3_byte (c / 4096)) as (-> & -> & _); [dlia|]. by destruct (Z.ltb_spec (0xe0 + c / 4096) 128); [dlia|].
  - destruct (lead4_byte (c / 262144)) as (-> & -> & -> & _); [dlia|].
    by destruct (Z.ltb_spec (0xf0 + c / 262144) 128); [dlia|].
Qed.

Lemma continuations_ok buf places :
  Forall (λ i, ∃ x, rd buf i = Ok (0x80 + x) ∧ 0 ≤ x < 64) places → continuations_at buf places = Ok true.
Proof.
  induction 1 as [|i places (x & Hr & Hx) _ IH]; [done|]. cbn. rewrite Hr. mstep.
  by destruct (continuation_byte x Hx) as [-> _].
Qed.

Lemma rd_0 {A} (a : A) l : rd (a :: l) 0 = Ok a.
Proof. done. Qed.
Lemma rd_1 {A} (a b : A) l : rd (a :: b :: l) 1 = Ok b.
Proof. done. Qed.
Lemma rd_2 {A} (a b c : A) l : rd (a :: b :: c :: l) 2 = Ok c.
Proof. done. Qed.
Lemma rd_3 {A} (a b c d : A) l : rd (a :: b :: c :: d :: l) 3 = Ok d.
Proof. done. Qed.

Ltac solve_continuations :=
  repeat (apply Forall_cons_2; [eexists; split; [reflexivity|dlia]|]); apply Forall_nil_2.

Lemma utf8_decode c tl : 0 ≤ c < 0x110000 → utf8_to_codepoint (utf8_bytes c ++ tl) = Ok c.
Proof.
  intros Hc. unfold utf8_bytes, utf8_to_codepoint.
  destruct (Z.ltb_spec c 0x80); [|destruct (Z.ltb_spec c 0x800); [|destruct (Z.ltb_spec c 0x10000)]]; cbn [app];
    rewrite rd_0; unfold mbind at 1, res_bind at 1.
  - by destruct (Z.ltb_spec c 128); [|lia].
  - destruct (lead2_byte (c / 64)) as [-> ->]; [dlia|].
    destruct (Z.ltb_spec (0xc0 + c / 64) 128); [dlia|].
    rewrite continuations_ok by solve_continuations.
    rewrite rd_1. cbn [negb]. unfold mbind, res_bind.
    destruct (continuation_byte (c mod 64)) as [_ ->]; [dlia|].
    rewrite !Z.shiftl_mul_pow2, (lor_disjoint _ _ 6) by dlia. f_equal. rewrite s32_small; dlia.
  - destruct (lead3_byte (c / 4096)) as (-> & -> & ->); [dlia|].
    destruct (Z.ltb_spec (0xe0 + c / 4096) 128); [dlia|].
    rewrite continuations_ok by solve_continuations.
    rewrite rd_1, rd_2. cbn [negb]. unfold mbind, res_bind.
    destruct (continuation_byte (c / 64 mod 64)) as [_ ->]; [dlia|].
    destruct (continuation_byte (c mod 64)) as [_ ->]; [dlia|].
    rewrite !Z.shiftl_mul_pow2, (lor_disjoint (c / 4096 * 2 ^ 12) _ 12), (lor_disjoint (_ + _) _ 6) by dlia.
    f_equal. rewrite s32_small; dlia.
  - destruct (lead4_byte (c / 262144)) as (-> & -> & -> & ->); [dlia|].
    destruct (Z.ltb_spec (0xf0 + c / 262144) 128); [dlia|].
    rewrite continuations_ok by solve_continuations.
    rewrite rd_1, rd_2, rd_3.
    cbn [negb]. unfold mbind, res_bind.
    destruct (continuation_byte (c / 4096 mod 64)) as [_ ->]; [dlia|].
    destruct (continuation_byte (c / 64 mod 64)) as [_ ->]; [dlia|].
    destruct (continuation_byte (c mod 64)) as [_ ->]; [dlia|].
    rewrite !Z.shiftl_mul_pow2, (lor_disjoint (c / 262144 * 2 ^ 18) _ 18), (lor_disjoint (_ + c / 4096 mod 64 * 2 ^ 12) _ 12), (lor_disjoint (_ + _) _ 6) by dlia.
    f_equal. rewrite s32_small; dlia.
Qed.

(** ** Reading the entries *)

(** The table after the entry of glyph [i], and after the entries of the glyphs
    from [i] on. *)
Definition enter (i : Z) (e : list Z) (t : gmap Z Z) : gmap Z Z :=
  foldl (λ t c, if 0xffff <? c then t else <[c := u16 i]> t) t e.
Fixpoint enter_all (i : Z) (es : list (list Z)) (t : gmap Z Z) : gmap Z Z :=
  match es with [] => t | e :: es => enter_all (i + 1) es (enter i e t) end.

Lemma enter_unlisted c i e t : c ∉ e → enter i e t !! c = t !! c.
Proof.
  unfold enter. revert t. induction e as [|x e IH]; intros t Hc; [done|]. cbn.
  apply not_elem_of_cons in Hc as [Hx Hc]. rewrite IH by done.
  case_match; [done|]. by rewrite lookup_insert_ne.
Qed.

Lemma enter_listed c i e t : c ≤ 0xffff → c ∈ e → enter i e t !! c = Some (u16 i).
Proof.
  intros Hc. revert t. induction e as [|x e IH]; intros t He; [by apply elem_of_nil in He|].
  destruct (decide (c ∈ e)) as [He'|He']; [by apply IH|].
  apply elem_of_cons in He as [<-|?]; [|done]. cbn.
  change (enter i e (if 0xffff <? c then t else <[c:=u16 i]> t) !! c = Some (u16 i)).
  rewrite enter_unlisted by done. destruct (Z.ltb_spec 0xffff c); [lia|]. by rewrite lookup_insert_eq.
Qed.

Lemma enter_all_unlisted c i es t : Forall (λ e, c ∉ e) es → enter_all i es t !! c = t !! c.
Proof.
  intros He. revert i t. induction He as [|e es He _ IH]; intros i t; [done|]. cbn.
  by rewrite IH, enter_unlisted.
Qed.

(** The glyph of a character is the last that lists it. *)
Lemma enter_all_listed c i es t k e : c ≤ 0xffff → es !! k = Some e → c ∈ e →
  Forall (λ e, c ∉ e) (drop (S k) es) → enter_all i es t !! c = Some (u16 (i + Z.of_nat k)).
Proof.
  intros Hc. revert i t k. induction es as [|e' es IH]; intros i t k Hk He Hl; [done|].
  destruct k as [|k]; cbn in *.
  - injection Hk as ->. rewrite enter_all_unlisted, enter_listed by (by rewrite ?drop_0 in Hl). do 2 f_equal. lia.
  - rewrite (IH _ _ _ Hk He Hl). do 2 f_equal. lia.
Qed.

Section Read.
Variables (font : list Z) (num_glyph : Z).
Variables (step : entry_reader → res (entry_reader + entry_reader)).
Variables (char_bytes : Z → list Z) (eol : list Z) (legal : Z → Prop).

Definition entry_bytes (e : list Z) : list Z := concat (char_bytes <$> e) ++ eol.

Hypothesis step_char : ∀ pre c rest r, font = pre ++ char_bytes c ++ rest → legal c →
  next_chr r = Z.of_nat (length pre) → 0 ≤ glyph r < num_glyph →
  ∃ r', step r = Ok (inl r') ∧ next_chr r' = Z.of_nat (length (pre ++ char_bytes c)) ∧
    glyph r' = glyph r ∧ table r' = enter (glyph r) [c] (table r).
Hypothesis step_eol : ∀ pre rest r, font = pre ++ eol ++ rest →
  next_chr r = Z.of_nat (length pre) → 0 ≤ glyph r < num_glyph →
  ∃ r', step r = Ok (inl r') ∧ next_chr r' = Z.of_nat (length (pre ++ eol)) ∧
    glyph r' = glyph r + 1 ∧ table r' = table r.
Hypothesis step_end : ∀ r, num_glyph ≤ glyph r → step r = Ok (inr r).
Hypothesis char_bytes_pos : ∀ c, (0 < length (char_bytes c))%nat.
Hypothesis eol_pos : (0 < length eol)%nat.

Lemma loop_step r r' fuel : step r = Ok (inl r') → loop (S fuel) step r = loop fuel step r'.
Proof. intros Hs. rewrite loop_S. by rewrite Hs. Qed.

Lemma read_glyph_entry e pre rest r fuel : font = pre ++ entry_bytes e ++ rest → Forall legal e →
  next_chr r = Z.of_nat (length pre) → 0 ≤ glyph r < num_glyph →
  ∃ r', loop (S (length e) + fuel) step r = loop fuel step r' ∧
    next_chr r' = Z.of_nat (length (pre ++ entry_bytes e)) ∧
    glyph r' = glyph r + 1 ∧ table r' = enter (glyph r) e (table r).
Proof.
  intros Hf He. revert pre r Hf. induction He as [|c e Hc _ IH]; intros pre r Hf Hn Hg.
  - destruct (step_eol pre rest r Hf Hn Hg) as (r' & Hs & Hr'). exists r'. cbn [length Nat.add].
    by rewrite (loop_step _ _ _ Hs).
  - unfold entry_bytes in *. cbn [fmap list_fmap concat] in *.
    destruct (step_char pre c ((concat (char_bytes <$> e) ++ eol) ++ rest) r) as (r1 & Hs & Hn1 & Hg1 & Ht1); [|done..|].
    { by rewrite Hf, <- !(assoc_L (++)). }
    destruct (IH (pre ++ char_bytes c) r1) as (r' & Hl & Hn' & Hg' & Ht'); [|done|by rewrite Hg1|].
    { by rewrite Hf, <- !(assoc_L (++)). }
    exists r'. cbn [length Nat.add]. rewrite (loop_step _ _ _ Hs). split_and!; [done|..].
    + by rewrite Hn', <- !(assoc_L (++)).
    + by rewrite Hg', Hg1.
    + by rewrite Ht', Hg1, Ht1.
Qed.

Lemma entry_bytes_length e : (S (length e) ≤ length (entry_bytes e))%nat.
Proof.
  unfold entry_bytes. rewrite length_app. induction e as [|c e IH]; cbn; [lia|].
  rewrite length_app. pose proof (char_bytes_pos c). cbn in IH. lia.
Qed.

Lemma read_entries es pre rest r fuel : font = pre ++ concat (entry_bytes <$> es) ++ rest →
  Forall (Forall legal) es → next_chr r = Z.of_nat (length pre) → 0 ≤ glyph r →
  glyph r + Z.of_nat (length es) = num_glyph → (length (concat (entry_bytes <$> es)) < fuel)%nat →
  ∃ r', loop fuel step r = Ok r' ∧ table r' = enter_all (glyph r) es (table r).
Proof.
  intros Hf He. revert pre r fuel Hf. induction He as [|e es He _ IH]; intros pre r fuel Hf Hn Hg Hl Hfu.
  - destruct fuel as [|fuel]; [lia|]. exists r. rewrite loop_S, step_end by (cbn in Hl; lia). done.
  - cbn [fmap list_fmap concat length] in *. rewrite length_app in Hfu. pose proof (entry_bytes_length e).
    destruct (read_glyph_entry e pre (concat (entry_bytes <$> es) ++ rest) r (fuel - S (length e)))
      as (r1 & Hl1 & Hn1 & Hg1 & Ht1); [|done|done|lia|].
    { by rewrite Hf, <- !(assoc_L (++)). }
    replace (S (length e) + (fuel - S (length e)))%nat with fuel in Hl1 by lia. rewrite Hl1.
    destruct (IH (pre ++ entry_bytes e) r1 (fuel - S (length e))%nat) as (r' & Hl' & Ht');
      [by rewrite Hf, <- !(assoc_L (++))|done|lia|lia|lia|].
    exists r'. split; [done|]. cbn [enter_all]. by rewrite Ht', Hg1, Ht1.
Qed.
End Read.

Section Steps.
Variables (font : list Z) (num_glyph : Z).
Hypothesis num_glyph_u32 : num_glyph < 2 ^ 32.
Implicit Types (r : entry_reader) (pre rest : list Z).

Lemma psf_at_app pre rest : psf_at (pre ++ rest) (Z.of_nat (length pre)) = rest.
Proof. unfold psf_at. rewrite Nat2Z.id. apply drop_app_length. Qed.

Lemma in_font pre x rest r : font = pre ++ rest → rest ≠ [] → next_chr r = Z.of_nat (length pre) →
  0 ≤ glyph r < num_glyph → (next_chr r <? Z.of_nat (length font)) && (glyph r <? num_glyph) = x → x = true.
Proof.
  intros Hf Hr Hn Hg <-. apply andb_true_intro. rewrite !Z.ltb_lt, Hn, Hf, length_app.
  destruct rest; [done|]. cbn [length]. lia.
Qed.

Lemma next_glyph_step n r : 0 ≤ glyph r < num_glyph → glyph (next_glyph n r) = glyph r + 1.
Proof. intros. cbn. by rewrite u32_small by lia. Qed.

Lemma unicode_done_ok c n r : 0 ≤ c < 0xffff → unicode_done c n r =
  Ok (EntryReader (next_chr r + n) (glyph r) (had_multi_chars r || gotchar r) true (enter (glyph r) [c] (table r))).
Proof.
  intros Hc. unfold unicode_done, table_set. change UINT16_MAX with 0xffff.
  destruct (Z.leb_spec 0 c); [|lia]. destruct (Z.ltb_spec c 0xffff); [|lia].
  cbn -[u16]. by destruct (Z.ltb_spec 0xffff c); [lia|].
Qed.

Lemma psf1_step_char pre c rest r : font = pre ++ le_bytes 2 c ++ rest → 0 ≤ c < 0xfffe →
  next_chr r = Z.of_nat (length pre) → 0 ≤ glyph r < num_glyph →
  ∃ r', read_psf1_step font num_glyph r = Ok (inl r') ∧ next_chr r' = Z.of_nat (length (pre ++ le_bytes 2 c)) ∧
    glyph r' = glyph r ∧ table r' = enter (glyph r) [c] (table r).
Proof.
  intros Hf Hc Hn Hg. unfold read_psf1_step.
  rewrite (in_font pre _ _ r Hf ltac:(done) Hn Hg eq_refl), Hn. rewrite Hf, psf_at_app, u16le_of_bytes by lia.
  unfold mbind, res_bind. destruct (Z.eqb_spec c 0xffff); [lia|]. destruct (Z.eqb_spec c 0xfffe); [lia|].
  rewrite unicode_done_ok by lia. eexists. split; [done|]. cbn [next_chr glyph table].
  split; [|done]. rewrite length_app, Hn. cbn. lia.
Qed.

Lemma psf1_step_eol pre rest r : font = pre ++ [255; 255] ++ rest →
  next_chr r = Z.of_nat (length pre) → 0 ≤ glyph r < num_glyph →
  ∃ r', read_psf1_step font num_glyph r = Ok (inl r') ∧ next_chr r' = Z.of_nat (length (pre ++ [255; 255])) ∧
    glyph r' = glyph r + 1 ∧ table r' = table r.
Proof.
  intros Hf Hn Hg. unfold read_psf1_step.
  rewrite (in_font pre _ _ r Hf ltac:(done) Hn Hg eq_refl), Hn. rewrite Hf, psf_at_app.
  eexists. split; [done|]. rewrite next_glyph_step by done. cbn. split; [|done]. rewrite length_app, Hn. cbn. lia.
Qed.

Lemma psf1_step_end r : num_glyph ≤ glyph r → read_psf1_step font num_glyph r = Ok (inr r).
Proof.
  intros Hg. unfold read_psf1_step. destruct (Z.ltb_spec (glyph r) num_glyph); [lia|]. by rewrite andb_false_r.
Qed.

(** *** Version 2 *)

Lemma utf8_first c : 0 ≤ c < 0x110000 → ∃ b tl, utf8_bytes c = b :: tl ∧ 0 ≤ b < 0xfe ∧
  Forall (λ b, 0 ≤ b < 0xff) tl.
Proof.
  intros Hc. unfold utf8_bytes.
  destruct (Z.ltb_spec c 0x80); [|destruct (Z.ltb_spec c 0x800); [|destruct (Z.ltb_spec c 0x10000)]];
    (eexists _, _; split; [done|]; split; [dlia|]; repeat constructor; dlia).
Qed.

Lemma no_eol pre c rest : font = pre ++ utf8_bytes c ++ rest → 0 ≤ c < 0x110000 →
  psf2_will_eol_or_eof font (Z.of_nat (length pre)) (Z.of_nat (length (utf8_bytes c))) = false.
Proof.
  intros Hf Hc. apply not_true_iff_false. unfold psf2_will_eol_or_eof. rewrite existsb_exists.
  intros (i & Hi & Hb). apply list_elem_of_In, elem_of_seqZ in Hi.
  destruct (Z.leb_spec (Z.of_nat (length font)) (Z.of_nat (length pre) + i)) as [Hle|_].
  { rewrite Hf, !length_app in Hle. lia. }
  destruct (utf8_first c Hc) as (b & tl & Hu & _ & Htl).
  rewrite Hf, Hu in Hb. rewrite Hu in Hi. cbn [length] in Hi.
  replace (Z.to_nat (Z.of_nat (length pre) + i)) with (length pre + S (Z.to_nat (i - 1)))%nat in Hb by lia.
  rewrite lookup_app_r in Hb by lia. replace (_ + _ - _)%nat with (S (Z.to_nat (i - 1))) in Hb by lia.
  change (((b :: tl) ++ rest) !! S (Z.to_nat (i - 1))) with ((tl ++ rest) !! Z.to_nat (i - 1)) in Hb. rewrite lookup_app_l in Hb by lia.
  destruct (lookup_lt_is_Some_2 tl (Z.to_nat (i - 1))) as [x Hx]; [lia|].
  rewrite Hx in Hb. cbn in Hb. apply Z.eqb_eq in Hb. subst x.
  pose proof (Forall_lookup_1 _ _ _ _ Htl Hx) as Hx'. cbn in Hx'. lia.
Qed.

Lemma read_psf2_char_ok pre c rest b tl : font = pre ++ utf8_bytes c ++ rest → 0 ≤ c < 0x110000 →
  utf8_bytes c = b :: tl →
  read_psf2_char font (Z.of_nat (length pre)) b = Ok (c, Z.of_nat (length (utf8_bytes c))).
Proof.
  intros Hf Hc Hu. unfold read_psf2_char. pose proof (utf8_bytes_len c Hc) as Hl. rewrite Hu in Hl at 1.
  cbn [hd] in Hl. rewrite Hl. destruct (Z.ltb_spec (Z.of_nat (length (utf8_bytes c))) 0); [lia|].
  rewrite (no_eol _ _ _ Hf Hc). rewrite Hf, psf_at_app, utf8_decode by done.
  unfold mbind, res_bind. by destruct (Z.ltb_spec c 0); [lia|].
Qed.

Lemma psf2_step_char pre c rest r : font = pre ++ utf8_bytes c ++ rest → 0 ≤ c < 0x110000 ∧ c ≠ 0xffff →
  next_chr r = Z.of_nat (length pre) → 0 ≤ glyph r < num_glyph →
  ∃ r', read_psf2_step font num_glyph r = Ok (inl r') ∧ next_chr r' = Z.of_nat (length (pre ++ utf8_bytes c)) ∧
    glyph r' = glyph r ∧ table r' = enter (glyph r) [c] (table r).
Proof.
  intros Hf [Hc Hc'] Hn Hg. unfold read_psf2_step. destruct (utf8_first c Hc) as (b & tl & Hu & Hb & _).
  rewrite (in_font pre _ _ r Hf ltac:(by rewrite Hu) Hn Hg eq_refl), Hn.
  rewrite (rd_ok font _ b) by (try lia; by rewrite Hf, Hu, Nat2Z.id, lookup_app_r, Nat.sub_diag by done).
  unfold mbind, res_bind. destruct (Z.eqb_spec b 0xff); [lia|]. destruct (Z.eqb_spec b 0xfe); [lia|].
  rewrite (read_psf2_char_ok _ _ _ _ _ Hf Hc Hu). destruct (Z.ltb_spec 0xffff c).
  - eexists. split; [done|]. cbn. destruct (Z.ltb_spec 0xffff c); [|lia]. split; [|done]. rewrite length_app, Hn. lia.
  - rewrite unicode_done_ok by lia. eexists. split; [done|]. cbn [next_chr glyph table].
    split; [|done]. rewrite length_app, Hn. lia.
Qed.

Lemma psf2_step_eol pre rest r : font = pre ++ [255] ++ rest →
  next_chr r = Z.of_nat (length pre) → 0 ≤ glyph r < num_glyph →
  ∃ r', read_psf2_step font num_glyph r = Ok (inl r') ∧ next_chr r' = Z.of_nat (length (pre ++ [255])) ∧
    glyph r' = glyph r + 1 ∧ table r' = table r.
Proof.
  intros Hf Hn Hg. unfold read_psf2_step.
  rewrite (in_font pre _ _ r Hf ltac:(done) Hn Hg eq_refl), Hn.
  rewrite (rd_ok font _ 255) by (try lia; by rewrite Hf, Nat2Z.id, lookup_app_r, Nat.sub_diag by done).
  eexists. split; [done|]. rewrite next_glyph_step by done. cbn. split; [|done]. rewrite length_app, Hn. cbn. lia.
Qed.

Lemma psf2_step_end r : num_glyph ≤ glyph r → read_psf2_step font num_glyph r = Ok (inr r).
Proof.
  intros Hg. unfold read_psf2_step. destruct (Z.ltb_spec (glyph r) num_glyph); [lia|]. by rewrite andb_false_r.
Qed.
End Steps.

(** ** Font files *)

(** The contents of a file of either version: the glyphs, and the characters
    that each is the glyph of. *)
Record font_file := FontFile {
  version2 : bool; flags : Z; header_rest : list Z; width : Z; height : Z; bytes_per_glyph : Z;
  glyphs : list (list Z); entries : list (list Z); trailer : list Z;
}.

Definition char_bytes (f : font_file) : Z → list Z := if version2 f then utf8_bytes else le_bytes 2.
Definition eol (f : font_file) : list Z := if version2 f then [255] else [255; 255].
Definition num_glyph (f : font_file) : Z := Z.of_nat (length (glyphs f)).
Definition header (f : font_file) : list Z :=
  if version2 f then
    le_bytes 4 PSF2_MAGIC ++ le_bytes 4 0 ++ le_bytes 4 (32 + Z.of_nat (length (header_rest f))) ++
    le_bytes 4 (flags f) ++ le_bytes 4 (num_glyph f) ++ le_bytes 4 (bytes_per_glyph f) ++
    le_bytes 4 (height f) ++ le_bytes 4 (width f) ++ header_rest f
  else le_bytes 2 PSF1_MAGIC ++ [flags f; height f].
Definition file_bytes (f : font_file) : list Z :=
  header f ++ concat (glyphs f) ++ concat (entry_bytes (char_bytes f) (eol f) <$> entries f) ++ trailer f.

(** The characters that an entry can list: those with an entry in the table,
    and in version 2 those beyond the basic plane, which are left out. *)
Definition legal (f : font_file) (c : Z) : Prop :=
  if version2 f then 0 ≤ c < 0x110000 ∧ c ≠ 0xffff else 0 ≤ c < 0xfffe.

Record well_formed (f : font_file) : Prop := WellFormed {
  wf_entries : length (entries f) = length (glyphs f);
  wf_legal : Forall (Forall (legal f)) (entries f);
  wf_glyphs : Forall (λ g, Z.of_nat (length g) = bytes_per_glyph f) (glyphs f);
  wf_bytes : 0 < bytes_per_glyph f;
  wf_num : 0 < num_glyph f ≤ 65536;
  wf_size : Z.of_nat (length (header f)) + bytes_per_glyph f * num_glyph f < 2 ^ 32;
  wf_width : 0 ≤ width f < 32767;
  wf_height : 0 ≤ height f < 32767;
  wf_version : if version2 f then is_u32 (flags f) ∧ Z.testbit (flags f) 0 = true
    else header_rest f = [] ∧ is_u8 (flags f) ∧ Z.land (flags f) 6 ≠ 0 ∧ bytes_per_glyph f = height f ∧
      width f = 8 ∧ num_glyph f = if Z.testbit (flags f) 0 then 512 else 256;
}.

(** The variables once the font is read. *)
Definition font_of (f : font_file) : psf :=
  Psf (Some (enter_all 0 (entries f) ∅)) (Z.of_nat (length (header f)))
    (width f) (height f) (bytes_per_glyph f) (num_glyph f).

Lemma length_glyphs (n : Z) (gs : list (list Z)) :
  Forall (λ g, Z.of_nat (length g) = n) gs → Z.of_nat (length (concat gs)) = n * Z.of_nat (length gs).
Proof. induction 1 as [|g gs Hg _ IH]; cbn [concat length]; [lia|]. rewrite length_app. lia. Qed.

Lemma glyph_bytes (n : Z) (gs rest : list (list Z)) k g : Forall (λ g, Z.of_nat (length g) = n) gs →
  gs !! k = Some g → drop (Z.to_nat (n * Z.of_nat k)) (concat gs) = g ++ concat (drop (S k) gs).
Proof.
  intros Hgs Hk. rewrite <- (take_drop_middle gs k g Hk) at 1.
  rewrite concat_app. assert (length (take k gs) = k) as Hl.
  { rewrite length_take. apply lookup_lt_Some in Hk. lia. }
  rewrite <- Hl at 1. rewrite <- (length_glyphs n (take k gs)) by (by apply Forall_take).
  by rewrite Nat2Z.id, drop_app_length.
Qed.

(** The 32-bit fields of a header. *)
Lemma u32_field (fields : list Z) (rest : list Z) k x :
  fields !! k = Some x → is_u32 x →
  u32le_at (psf_at (concat (le_bytes 4 <$> fields) ++ rest) (4 * Z.of_nat k)) = Ok x.
Proof.
  intros Hk Hx. rewrite <- (take_drop_middle fields k x Hk), fmap_app, concat_app, <- (assoc_L (++)).
  assert (4 * Z.of_nat k = Z.of_nat (length (concat (le_bytes 4 <$> take k fields)))) as ->.
  { rewrite (length_glyphs 4) by (apply Forall_fmap, Forall_true; intros; done).
    rewrite length_fmap, length_take. apply lookup_lt_Some in Hk. lia. }
  rewrite psf_at_app. cbn [fmap list_fmap concat]. rewrite <- (assoc_L (++)). by apply u32le_of_bytes.
Qed.

Lemma glyphs_fit f : well_formed f → glyphs_too_large (bytes_per_glyph f) (num_glyph f) = Ok false.
Proof.
  intros Hf. pose proof (wf_bytes f Hf). pose proof (wf_size f Hf). pose proof (wf_num f Hf).
  unfold glyphs_too_large. destruct (Z.eqb_spec (bytes_per_glyph f) 0); [lia|]. f_equal.
  apply Z.ltb_ge, Z.div_le_lower_bound; unfold SIZE_MAX; lia.
Qed.

(** The loop reads all entries of the file. *)
Lemma read_file f step : well_formed f →
  (∀ pre c rest r, file_bytes f = pre ++ char_bytes f c ++ rest → legal f c →
    next_chr r = Z.of_nat (length pre) → 0 ≤ glyph r < num_glyph f →
    ∃ r', step r = Ok (inl r') ∧ next_chr r' = Z.of_nat (length (pre ++ char_bytes f c)) ∧
      glyph r' = glyph r ∧ table r' = enter (glyph r) [c] (table r)) →
  (∀ pre rest r, file_bytes f = pre ++ eol f ++ rest →
    next_chr r = Z.of_nat (length pre) → 0 ≤ glyph r < num_glyph f →
    ∃ r', step r = Ok (inl r') ∧ next_chr r' = Z.of_nat (length (pre ++ eol f)) ∧
      glyph r' = glyph r + 1 ∧ table r' = table r) →
  (∀ r, num_glyph f ≤ glyph r → step r = Ok (inr r)) →
  ∃ r, loop (S (length (file_bytes f))) step
    (EntryReader (Z.of_nat (length (header f)) + u32 (bytes_per_glyph f * num_glyph f)) 0 false false ∅) = Ok r ∧
    table r = enter_all 0 (entries f) ∅.
Proof.
  intros Hf Hc He Hend. pose proof (wf_bytes f Hf). pose proof (wf_size f Hf). pose proof (wf_num f Hf).
  apply (read_entries (file_bytes f) (num_glyph f) step (char_bytes f) (eol f) (legal f) Hc He Hend)
    with (pre := header f ++ concat (glyphs f)) (rest := trailer f).
  - intros c. unfold char_bytes. destruct (version2 f); [|cbn; lia]. unfold utf8_bytes. repeat case_match; cbn; lia.
  - unfold eol. destruct (version2 f); cbn; lia.
  - unfold file_bytes. by rewrite <- !(assoc_L (++)).
  - by apply wf_legal.
  - cbn. rewrite u32_small by nia. rewrite length_app, Nat2Z.inj_add.
    by rewrite (length_glyphs (bytes_per_glyph f)) by (by apply wf_glyphs).
  - done.
  - cbn. by rewrite (wf_entries f Hf).
  - unfold file_bytes. rewrite !length_app. lia.
Qed.

Section Init.
Context {H : Type} `{!HeapOps H} `{!HeapSucceeds H}.

Lemma alloc_table_ok h : ∃ h', alloc_table h = Ok (Some ∅, h').
Proof.
  destruct (heap_alloc_succeeds 131070 HEAP_FLAG_ZEROMEMORY h) as (p & h' & Ha & Hp). exists h'.
  unfold alloc_table. rewrite (M_bind_step _ _ h p h') by exact Ha.
  by destruct (Z.eqb_spec p 0).
Qed.

Lemma flag_bits flags : is_u8 flags → Z.land flags 6 ≠ 0 → (Z.land flags (Z.lor 2 4) =? 0) = false.
Proof. intros _ Hf. change (Z.lor 2 4) with 6. by apply Z.eqb_neq. Qed.

Lemma init_psf1_ok f s h : well_formed f → version2 f = false →
  ∃ h', psf_init (file_bytes f) s h = Ok (font_of f, h').
Proof.
  intros Hf Hv. pose proof (wf_version f Hf) as Hw. rewrite Hv in Hw.
  destruct Hw as (_ & Hfl & H6 & Hb & Hwd & Hn). pose proof (wf_num f Hf) as Hnum.
  destruct (alloc_table_ok h) as (h' & Ha). exists h'.
  destruct (read_file f (read_psf1_step (file_bytes f) (num_glyph f)) Hf) as (r & Hr & Ht).
  { intros pre c rest r. unfold char_bytes, legal. rewrite Hv. apply psf1_step_char. }
  { intros pre rest r. unfold eol. rewrite Hv. apply psf1_step_eol. lia. }
  { intros r. apply psf1_step_end. }
  assert (header f = le_bytes 2 PSF1_MAGIC ++ [flags f; height f]) as Hh by (unfold header; by rewrite Hv).
  unfold psf_init. rewrite (M_bind_step _ _ h PSF1_MAGIC h).
  2:{ unfold lift. change (psf_at (file_bytes f) 0) with (file_bytes f). unfold file_bytes.
      by rewrite Hh, <- !(assoc_L (++)), u16le_of_bytes. }
  change (PSF1_MAGIC =? PSF1_MAGIC) with true. cbv iota. unfold init_psf1.
  rewrite (M_bind_step _ _ h (flags f) h).
  2:{ unfold lift, file_bytes. by rewrite Hh. }
  rewrite (M_bind_step _ _ h (height f) h).
  2:{ unfold lift, file_bytes. by rewrite Hh. }
  rewrite (flag_bits _ Hfl H6). cbv zeta. rewrite <- !Hb.
  replace (if negb (Z.land (flags f) 0x01 =? 0) then 512 else 256) with (num_glyph f).
  2:{ rewrite land_1_testbit, negb_involutive. by rewrite Hn. }
  rewrite (M_bind_step _ _ h false h) by (unfold lift; by rewrite glyphs_fit).
  rewrite (M_bind_step _ _ _ _ _ Ha).
  rewrite (M_bind_step _ _ h' tt h') by done.
  rewrite (M_bind_step _ _ h' tt h').
  2:{ unfold massert. pose proof (wf_height f Hf). rewrite Hb. by destruct (Z.ltb_spec (height f) 32767); [|lia]. }
  rewrite (M_bind_step _ _ h' r h').
  2:{ unfold lift, read_psf1_utf16_entries. rewrite Hh in Hr. change (Z.of_nat (length (le_bytes 2 PSF1_MAGIC ++ [flags f; height f]))) with 4 in Hr. cbn [s_glyphs]. by rewrite Hr. }
  unfold mret, M_ret, font_of. rewrite Ht, Hh, Hwd, <- Hb. done.
Qed.

(** The header of version 2. *)
Definition header2 (f : font_file) : list Z :=
  [PSF2_MAGIC; 0; Z.of_nat (length (header f)); flags f; num_glyph f; bytes_per_glyph f; height f; width f].

Lemma header2_eq f : version2 f = true → ∃ rest, file_bytes f = concat (le_bytes 4 <$> header2 f) ++ rest.
Proof.
  intros Hv. eexists (header_rest f ++ _). unfold file_bytes, header2.
  assert (Z.of_nat (length (header f)) = 32 + Z.of_nat (length (header_rest f))) as ->.
  { unfold header. rewrite Hv, !length_app. cbn. lia. }
  unfold header at 1. rewrite Hv, <- !(assoc_L (++)). reflexivity.
Qed.

Lemma field2 f k x h : well_formed f → version2 f = true → header2 f !! k = Some x → is_u32 x →
  lift (u32le_at (psf_at (file_bytes f) (4 * Z.of_nat k))) h = Ok (x, h : H).
Proof.
  intros Hf Hv Hk Hx. destruct (header2_eq f Hv) as [rest ->]. unfold lift. by rewrite (u32_field _ _ _ _ Hk Hx).
Qed.

Lemma init_psf2_ok f s h : well_formed f → version2 f = true →
  ∃ h', psf_init (file_bytes f) s h = Ok (font_of f, h').
Proof.
  intros Hf Hv. pose proof (wf_version f Hf) as Hw. rewrite Hv in Hw. destruct Hw as (Hfl & H1).
  pose proof (wf_num f Hf). pose proof (wf_size f Hf). pose proof (wf_bytes f Hf).
  pose proof (wf_width f Hf). pose proof (wf_height f Hf).
  destruct (alloc_table_ok h) as (h' & Ha). exists h'.
  destruct (read_file f (read_psf2_step (file_bytes f) (num_glyph f)) Hf) as (r & Hr & Ht).
  { intros pre c rest r. unfold char_bytes, legal. rewrite Hv. apply psf2_step_char. }
  { intros pre rest r. unfold eol. rewrite Hv. apply psf2_step_eol. lia. }
  { intros r. apply psf2_step_end. }
  destruct (header2_eq f Hv) as [rest Hfile].
  unfold psf_init. rewrite (M_bind_step _ _ h 0xb572 h).
  2:{ unfold lift. change (psf_at (file_bytes f) 0) with (file_bytes f). by rewrite Hfile. }
  change (0xb572 =? PSF1_MAGIC) with false. cbv iota.
  rewrite (M_bind_step _ _ _ _ _ (field2 f 0 PSF2_MAGIC h Hf Hv eq_refl ltac:(done))).
  change (PSF2_MAGIC =? PSF2_MAGIC) with true. cbv iota. unfold init_psf2.
  rewrite (M_bind_step _ _ _ _ _ (field2 f 1 0 h Hf Hv eq_refl ltac:(done))).
  rewrite (M_bind_step _ _ _ _ _ (field2 f 2 _ h Hf Hv eq_refl ltac:(unfold is_u32; lia))).
  rewrite (M_bind_step _ _ _ _ _ (field2 f 3 _ h Hf Hv eq_refl Hfl)).
  rewrite (M_bind_step _ _ _ _ _ (field2 f 4 _ h Hf Hv eq_refl ltac:(unfold is_u32; lia))).
  rewrite (M_bind_step _ _ _ _ _ (field2 f 5 _ h Hf Hv eq_refl ltac:(unfold is_u32; nia))).
  rewrite (M_bind_step _ _ _ _ _ (field2 f 6 _ h Hf Hv eq_refl ltac:(unfold is_u32; lia))).
  rewrite (M_bind_step _ _ _ _ _ (field2 f 7 _ h Hf Hv eq_refl ltac:(unfold is_u32; lia))).
  rewrite (M_bind_step _ _ h tt h) by (unfold massert; by destruct (Z.ltb_spec (width f) 32767); [|lia]).
  rewrite (M_bind_step _ _ h tt h) by (unfold massert; by destruct (Z.ltb_spec (height f) 32767); [|lia]).
  cbv zeta. rewrite land_1_testbit, H1. cbn [negb].
  rewrite (M_bind_step _ _ h false h) by (unfold lift; by rewrite glyphs_fit).
  rewrite (M_bind_step _ _ _ _ _ Ha). cbv iota.
  rewrite (M_bind_step _ _ h' r h').
  2:{ unfold lift, read_psf2_utf8_entries. cbn [s_glyphs]. by rewrite Hr. }
  unfold mret, M_ret, font_of. by rewrite Ht.
Qed.

Lemma psf_init_ok f s h : well_formed f → ∃ h', psf_init (file_bytes f) s h = Ok (font_of f, h').
Proof. intros Hf. destruct (version2 f) eqn:Hv; [by apply init_psf2_ok|by apply init_psf1_ok]. Qed.
End Init.

(** ** Properties *)

(** The bytes of glyph [g] are where the driver looks for a character. *)
Definition shows (font : list Z) (s : psf) (c : Z) (g : list Z) : Prop :=
  ∃ p rest, psf_getglyph s c = Ok p ∧ psf_at font p = g ++ rest.

Lemma getglyph_index f c i k g : well_formed f → 0 ≤ c < 0xffff →
  default 0 (enter_all 0 (entries f) ∅ !! c) = i → i = Z.of_nat k → glyphs f !! k = Some g →
  shows (file_bytes f) (font_of f) c g.
Proof.
  intros Hf Hc Hi Hk Hg. pose proof (wf_size f Hf). pose proof (wf_bytes f Hf). pose proof (wf_num f Hf).
  pose proof (lookup_lt_Some _ _ _ Hg) as Hlt. unfold num_glyph in *.
  assert (psf_getglyph (font_of f) c = Ok (Z.of_nat (length (header f)) + bytes_per_glyph f * Z.of_nat k)) as Hgl.
  { unfold psf_getglyph, font_of, table_at, num_glyph. cbn [s_unicodetable s_glyphcount s_glyphs s_bytesperglyph].
    destruct (Z.ltb_spec 0xffff c); [lia|]. change UINT16_MAX with 0xffff.
    destruct (Z.leb_spec 0 c), (Z.ltb_spec c 0xffff); try lia. rewrite Hi, Hk. unfold mbind, res_bind. cbn [andb].
    destruct (Z.eqb_spec (Z.of_nat (length (glyphs f))) 0); [lia|].
    rewrite Z.mod_small, u32_small by nia. done. }
  eexists _, _. split; [exact Hgl|]. unfold psf_at, file_bytes.
  replace (Z.to_nat _) with (length (header f) + Z.to_nat (bytes_per_glyph f * Z.of_nat k))%nat by nia.
  rewrite <- drop_drop, drop_app_length, drop_app_le.
  2:{ apply Nat2Z.inj_le. rewrite (length_glyphs (bytes_per_glyph f)) by (by apply wf_glyphs). nia. }
  rewrite (glyph_bytes _ _ [] k g) by (done || by apply wf_glyphs). by rewrite <- (assoc_L (++)).
Qed.

(** C25: A font file is read back: once the font of a well-formed file is read, the
    glyph of every character is the one of the last entry that lists it, that
    of a character in no entry is the first, and that of a character beyond
    the basic plane the one of the question mark. *)
Theorem psf_font_roundtrip {H : Type} `{!HeapOps H} `{!HeapSucceeds H} (f : font_file) (s : psf) (h : H) :
  well_formed f → ∃ s' h', psf_init (file_bytes f) s h = Ok (s', h') ∧
    psf_getwidth s' = width f ∧ psf_getheight s' = height f ∧
    (∀ k e g c, entries f !! k = Some e → glyphs f !! k = Some g → c ∈ e → 0 ≤ c < 0xffff →
      Forall (λ e, c ∉ e) (drop (S k) (entries f)) → shows (file_bytes f) s' c g) ∧
    (∀ g c, glyphs f !! 0%nat = Some g → 0 ≤ c < 0xffff → Forall (λ e, c ∉ e) (entries f) →
      shows (file_bytes f) s' c g) ∧
    (∀ c, 0xffff < c → psf_getglyph s' c = psf_getglyph s' 63).
Proof.
  intros Hf. destruct (psf_init_ok f s h Hf) as [h' Hi]. exists (font_of f), h'.
  split_and!; [done|done|done|..].
  - intros k e g c He Hg Hce Hc Hlast. apply (getglyph_index f c (Z.of_nat k) k g); try done.
    rewrite (enter_all_listed c 0 _ ∅ k e ltac:(lia) He Hce Hlast). cbn.
    apply lookup_lt_Some in Hg. pose proof (wf_num f Hf). unfold num_glyph, u16 in *. rewrite Z.mod_small by lia. lia.
  - intros g c Hg Hc He. apply (getglyph_index f c 0 0 g); try done.
    by rewrite enter_all_unlisted.
  - intros c Hc. unfold psf_getglyph. by destruct (Z.ltb_spec 0xffff c); [|lia].
Qed.

(** A version 2 font of two glyphs, two pixels high. *)
Definition two_glyphs : font_file :=
  FontFile true 1 [] 8 2 2 [[0x18; 0x24]; [0x3c; 0x42]] [[65; 0x391]; [0x20ac; 0x1f600]] [].

Lemma psf_font_roundtrip_witness :
  well_formed two_glyphs ∧ ∃ s', psf_init (file_bytes two_glyphs) (Psf None 0 0 0 0 0) 0%nat (HeapOps0 := always_heap) = Ok (s', 1%nat) ∧
  shows (file_bytes two_glyphs) s' 0x20ac [0x3c; 0x42].
Proof.
  assert (well_formed two_glyphs) as Hf.
  { constructor; try done; repeat constructor; try done; cbn; lia. }
  split; [exact Hf|].
  destruct (@psf_font_roundtrip nat always_heap always_heap_succeeds two_glyphs (Psf None 0 0 0 0 0) 0%nat Hf)
    as (s' & h' & Hi & _ & _ & Hsh & _).
  exists s'. split.
  - vm_compute in Hi. injection Hi as <- <-. reflexivity.
  - apply (Hsh 1%nat [0x20ac; 0x1f600] [0x3c; 0x42] 0x20ac); try reflexivity; [left|lia|constructor].
Defined.

(** The table has no entry for the last character of the basic plane, and
    looking it up reads beyond its end. *)
Theorem psf_getglyph_ffff_out_of_bounds (s : psf) (t : gmap Z Z) :
  s_unicodetable s = Some t → psf_getglyph s 0xffff = Fault Out_of_bounds.
Proof. intros Hs. unfold psf_getglyph. by rewrite Hs. Qed.

(** A version 1 font without a table is not set up: its glyph count stays
    zero, and looking up any glyph divides by it. *)
Theorem psf1_without_table_divides_by_zero {H : Type} `{!HeapOps H} (mode height : Z) (rest : list Z) (h : H) (c : Z) :
  Z.land mode 6 = 0 →
  psf_init (le_bytes 2 PSF1_MAGIC ++ [mode; height] ++ rest) (Psf None 0 0 0 0 0) h = Ok (Psf None 0 0 0 0 0, h) ∧
  psf_getglyph (Psf None 0 0 0 0 0) c = Fault Div_by_zero.
Proof.
  intros Hm. split; [|done]. unfold psf_init.
  rewrite (M_bind_step _ _ h PSF1_MAGIC h) by done. change (PSF1_MAGIC =? PSF1_MAGIC) with true. cbv iota.
  unfold init_psf1. rewrite (M_bind_step _ _ h mode h), (M_bind_step _ _ h height h) by done.
  change (Z.lor 2 4) with 6. by rewrite Hm.
Qed.
