(* ===== verification/Fb.v ===== *)
(** The frame buffer (src/kernel/raster/fb.c): drawing into the back buffer, the
    damaged lines, and bringing them to the screen in the format of the video
    mode. *)
From S2P Require Import Prelude MiscMath HeapIface StrUtil Psf.

(** ** State *)

(** [s_colorinfo]; a colour is a 16-bit word, five bits for each of red, green
    and blue. *)
Inductive color_info :=
  | Rgb (red_field_pos green_field_pos blue_field_pos red_mask_size green_mask_size blue_mask_size : Z)
  | Indexed (palette : list Z) (colorcount : Z).

(** The values of the function pointer [fb_update]. *)
Inductive update_function := update_null | update32 | update24 | update16 | update8 | update1.

(** The static variables, those of [make_native_color_indexed] included; the
    memory at [s_fbbase] is the list of its bytes. *)
Record fb := Fb {
  s_width : Z; s_height : Z; s_damage_first_y : Z; s_damage_last_y : Z;
  s_backbuffer : option (list Z); s_colorinfo : color_info; s_fbbase : list Z; s_fbpitch : Z;
  s_lastavg : Z; s_lastcolor : Z; fb_update_ptr : update_function;
}.

Definition with_damage (first last : Z) (s : fb) : fb :=
  Fb (s_width s) (s_height s) first last (s_backbuffer s) (s_colorinfo s) (s_fbbase s) (s_fbpitch s)
     (s_lastavg s) (s_lastcolor s) (fb_update_ptr s).
Definition with_backbuffer (b : option (list Z)) (s : fb) : fb :=
  Fb (s_width s) (s_height s) (s_damage_first_y s) (s_damage_last_y s) b (s_colorinfo s) (s_fbbase s) (s_fbpitch s)
     (s_lastavg s) (s_lastcolor s) (fb_update_ptr s).
Definition with_screen (m : list Z) (s : fb) : fb :=
  Fb (s_width s) (s_height s) (s_damage_first_y s) (s_damage_last_y s) (s_backbuffer s) (s_colorinfo s) m (s_fbpitch s)
     (s_lastavg s) (s_lastcolor s) (fb_update_ptr s).
Definition with_last (avg color : Z) (s : fb) : fb :=
  Fb (s_width s) (s_height s) (s_damage_first_y s) (s_damage_last_y s) (s_backbuffer s) (s_colorinfo s) (s_fbbase s)
     (s_fbpitch s) avg color (fb_update_ptr s).

Definition gets_fb {A} (f : fb → A) : M fb A := λ s, Ok (f s, s).
Definition modify_fb (f : fb → fb) : M fb unit := λ s, Ok (tt, f s).

(** ** Colours *)

Definition make_color (red green blue : Z) : Z :=
  u16 (Z.lor (Z.lor (Z.shiftl (Z.shiftr red 3) 10) (Z.shiftl (Z.shiftr green 3) 5)) (Z.shiftr blue 3)).
Definition black : Z := make_color 0 0 0.
Definition white : Z := make_color 255 255 255.

(** ** Drawing *)

Definition include_damage (from to : Z) : M fb unit := λ s,
  let s := if (s_damage_first_y s =? -1) || (from <? s_damage_first_y s) then with_damage from (s_damage_last_y s) s else s in
  Ok (tt, if (s_damage_last_y s =? -1) || (s_damage_last_y s <? to) then with_damage (s_damage_first_y s) to s else s).

Definition backbuffer : M fb (list Z) := λ s,
  match s_backbuffer s with Some b => Ok (b, s) | None => Fault Bad_pointer end.

(** A pixel of the back buffer is written. *)
Definition put_pixel (i color : Z) : M fb unit :=
  b ← backbuffer;
  b ← lift (wr b i color);
  modify_fb (with_backbuffer (Some b)).

Definition fb_draw_pixel (x y color : Z) : M fb unit :=
  b ← gets_fb s_backbuffer;
  match b with
  | None => mret tt
  | Some _ =>
      w ← gets_fb s_width;
      _ ← put_pixel (u32 (s32 (y * w) + x)) color;
      include_damage y y
  end.

(** [vmemcpy] of [width] pixels from the image to the back buffer. *)
Definition copy_line (image : list Z) (src dest width : Z) : M fb unit :=
  b ← backbuffer;
  b ← lift (vmemcpy b dest image src width);
  modify_fb (with_backbuffer (Some b)).

Definition fb_draw_image (image : list Z) (width height pixels_per_line destx desty : Z) : M fb unit :=
  w ← gets_fb s_width;
  let baseoffset := u32 (s32 (desty * w) + destx) in
  _ ← for_ (seqZ 0 height) (λ srcy,
    copy_line image (srcy * pixels_per_line) (baseoffset + srcy * w) width);
  include_damage desty (desty + height - 1).

Definition fb_draw_rect (width height destx desty color : Z) : M fb unit :=
  w ← gets_fb s_width;
  let baseoffset := u32 (s32 (desty * w) + destx) in
  _ ← for_ (seqZ 0 height) (λ srcy,
    for_ (seqZ 0 width) (λ srcx, put_pixel (baseoffset + srcy * w + srcx) color));
  include_damage desty (desty + height - 1).

(** ** Text *)

(** The variables of the loop over a line of a glyph: [c], [mask] and the
    pointers [srcpixel], into the font, and [destpixel]. *)
Record pixel_loop := PixelLoop { pl_c : Z; pl_mask : Z; pl_src : Z; pl_dest : Z }.

(** [c++, mask >>= 1, destpixel++]. *)
Definition next_pixel (c mask src dest : Z) : pixel_loop := PixelLoop (c + 1) (Z.shiftr mask 1) src (dest + 1).

Section Text.
Variables (font : list Z) (p : psf).

Definition draw_pixel_step (color : Z) (l : pixel_loop) : M fb (pixel_loop + unit) :=
  let '(PixelLoop c mask src dest) := l in
  if negb (c <? psf_getwidth p) then mret (inr tt)
  else
    b ← lift (rd font src);
    if b =? 0 then
      mret (inl (next_pixel (c + (8 - c mod 8 - 1)) 0x7f (src + 1) dest))
    else
      let '(mask, src) := if mask =? 0 then (0x80, src + 1) else (mask, src) in
      b ← lift (rd font src);
      _ ← (if negb (Z.land b mask =? 0) then put_pixel dest color else mret tt);
      mret (inl (next_pixel c mask src dest)).

Definition draw_glyph_line (src dest color : Z) : M fb unit :=
  loop_m (S (Z.to_nat (psf_getwidth p))) (draw_pixel_step color) (PixelLoop 0 0x80 src dest).

(** [chr] is a [char]: those from 128 on are negative. *)
Definition draw_char (chr baseoffset color : Z) : M fb unit :=
  glyph ← lift (psf_getglyph p (u32 (s8 chr)));
  w ← gets_fb s_width;
  for_ (seqZ 0 (psf_getheight p)) (λ l,
    draw_glyph_line (glyph + l * psf_getbytesperline p) (baseoffset + l * w) color).

Fixpoint draw_chars (text : list Z) (baseoffset color : Z) : M fb unit :=
  match text with
  | [] => mret tt
  | chr :: text => _ ← draw_char chr baseoffset color; draw_chars text (u32 (baseoffset + psf_getwidth p)) color
  end.

(** The text, without the null character at its end. *)
Definition fb_draw_text (text : list Z) (destx desty color : Z) : M fb unit :=
  w ← gets_fb s_width;
  let baseoffset := u32 (s32 (desty * w) + destx) in
  _ ← draw_chars text baseoffset color;
  include_damage desty (desty + psf_getheight p - 1).
End Text.

(** ** The colours of the screen *)

Definition make_native_color_rgb (info : color_info) (rgb : Z) : res Z :=
  match info with
  | Rgb red_field_pos green_field_pos blue_field_pos red_mask_size green_mask_size blue_mask_size =>
      let red := Z.land (Z.shiftr rgb 10) 0x1f * 255 / 0x1f in
      let green := Z.land (Z.shiftr rgb 5) 0x1f * 255 / 0x1f in
      let blue := Z.land rgb 0x1f * 255 / 0x1f in
      red ← shr32 red (u32 (8 - red_mask_size)); red ← shl32 red (u8 red_field_pos);
      green ← shr32 green (u32 (8 - green_mask_size)); green ← shl32 green (u8 green_field_pos);
      blue ← shr32 blue (u32 (8 - blue_mask_size)); blue ← shl32 blue (u8 blue_field_pos);
      Ok (Z.lor (Z.lor red green) blue)
  | Indexed _ _ => Fault Bad_pointer
  end.

(** The average of red, green and blue, of eight bits each. *)
Definition average (rgb : Z) : Z :=
  let red := Z.shiftl (Z.land (Z.shiftr rgb 10) 0x1f) 3 in
  let green := Z.shiftl (Z.land (Z.shiftr rgb 5) 0x1f) 3 in
  let blue := Z.shiftl (Z.land rgb 0x1f) 3 in
  (red + green + blue) / 3.

(** The state of the search is [i], [mindiff] and [chosencolor]. *)
Definition palette_step (palette : list Z) (colorcount avgcolor : Z) (x : Z * Z * Z) : res (Z * Z * Z + Z) :=
  let '(i, mindiff, chosencolor) := x in
  if negb (i <? colorcount) then Ok (inr chosencolor)
  else
    pred ← rd palette (i * 3); pgreen ← rd palette (i * 3 + 1); pblue ← rd palette (i * 3 + 2);
    let pavg := (pred + pgreen + pblue) / 3 in
    let diff := if pavg - avgcolor <? 0 then - (pavg - avgcolor) else pavg - avgcolor in
    let '(mindiff, chosencolor) := if diff <? mindiff then (diff, i) else (mindiff, chosencolor) in
    if mindiff =? 0 then Ok (inr chosencolor) else Ok (inl (i + 1, mindiff, chosencolor)).

Definition make_native_color_indexed (rgb : Z) : M fb Z :=
  let avgcolor := average rgb in
  lastavg ← gets_fb s_lastavg;
  lastcolor ← gets_fb s_lastcolor;
  if lastavg =? avgcolor then mret (u32 lastcolor)
  else
    info ← gets_fb s_colorinfo;
    match info with
    | Indexed palette colorcount =>
        chosencolor ← lift (loop (S (Z.to_nat colorcount)) (palette_step palette colorcount avgcolor) (0, 0x7fff, 0));
        _ ← modify_fb (with_last avgcolor chosencolor);
        mret (u32 chosencolor)
    | Rgb _ _ _ _ _ _ => throw Bad_pointer
    end.

(** ** Bringing the damaged lines to the screen *)

(** The bytes of a pixel in the video mode, and the unit in which its lines are
    counted. *)
Definition pixel_bytes (f : update_function) : nat :=
  match f with update32 => 4 | update24 => 3 | update16 => 2 | _ => 1 end.
Definition line_unit (f : update_function) : Z :=
  match f with update32 => 4 | update16 => 2 | _ => 1 end.
Definition line_offset (f : update_function) (pitch y : Z) : Z := line_unit f * (y * (pitch / line_unit f)).

Definition native_color (f : update_function) (rgb : Z) : M fb Z :=
  match f with
  | update8 => make_native_color_indexed rgb
  | update1 => mret (if 128 <=? average rgb then 1 else 0)
  | _ => info ← gets_fb s_colorinfo; lift (make_native_color_rgb info rgb)
  end.

(** [lastcolor] and [lastnativecolor]. *)
Definition cached_color (f : update_function) (last : Z * Z) (color : Z) : M fb (Z * Z) :=
  if color =? last.1 then mret last
  else native ← native_color f color; mret (color, native).

Definition write_screen (offset : Z) (bytes : list Z) : M fb unit :=
  m ← gets_fb s_fbbase;
  m ← lift (mem_write m offset bytes);
  modify_fb (with_screen m).

(** One line, pixel by pixel; the state is the pointer [srcpixel], an index
    into the back buffer, and the cached colour. *)
Fixpoint update_line (f : update_function) (xs : list Z) (dest : Z) (src : Z) (last : Z * Z) : M fb (Z * (Z * Z)) :=
  match xs with
  | [] => mret (src, last)
  | srcx :: xs =>
      b ← backbuffer;
      color ← lift (rd b src);
      last ← cached_color f last color;
      _ ← write_screen (dest + Z.of_nat (pixel_bytes f) * srcx) (le_bytes (pixel_bytes f) last.2);
      update_line f xs dest (src + 1) last
  end.

(** A line of one bit for each pixel: [temppixeldata] collects eight. *)
Fixpoint update1_line (xs : list Z) (dest src temppixeldata : Z) (last : Z * Z) : M fb (Z * (Z * Z)) :=
  match xs with
  | [] => mret (src, last)
  | x :: xs =>
      b ← backbuffer;
      color ← lift (rd b src);
      last ← cached_color update1 last color;
      let temppixeldata := u8 (Z.shiftl temppixeldata 1) in
      let temppixeldata := if negb (last.2 =? 0) then Z.lor temppixeldata 1 else temppixeldata in
      temppixeldata ← (if (x + 1) mod 8 =? 0 then
                         _ ← write_screen (dest + x / 8) [temppixeldata]; mret 0
                       else mret temppixeldata);
      update1_line xs dest (src + 1) temppixeldata last
  end.

Fixpoint update_lines (f : update_function) (ys : list Z) (src : Z) (last : Z * Z) : M fb unit :=
  match ys with
  | [] => mret tt
  | srcy :: ys =>
      w ← gets_fb s_width;
      pitch ← gets_fb s_fbpitch;
      '(src, last) ← match f with
        | update1 => update1_line (seqZ 0 w) (line_offset f pitch srcy) src 0 last
        | _ => update_line f (seqZ 0 w) (line_offset f pitch srcy) src last
        end;
      update_lines f ys src last
  end.

(** [fb_update()]: [update32], [update24], [update16], [update8] or [update1];
    no colour of the back buffer is [-1]. *)
Definition fb_update : M fb unit :=
  f ← gets_fb fb_update_ptr;
  first ← gets_fb s_damage_first_y;
  last ← gets_fb s_damage_last_y;
  b ← gets_fb s_backbuffer;
  match f, b with
  | update_null, _ | _, None => mret tt
  | _, Some _ =>
      if first <? 0 then mret tt
      else
        w ← gets_fb s_width;
        _ ← update_lines f (seqZ first (last - first + 1)) (first * w) (-1, -1);
        modify_fb (with_damage (-1) (-1))
  end.

(** ** Scrolling *)

(** [vmemcpy32] of [n] words of four bytes, inside the screen and inside the
    back buffer, in which a word is two pixels. *)
Definition move_screen (dest src n : Z) : M fb unit :=
  m ← gets_fb s_fbbase;
  bytes ← lift (mem_read m src (4 * n));
  write_screen dest bytes.
Definition move_pixels (dest src n : Z) : M fb unit :=
  b ← backbuffer;
  pixels ← lift (mem_read b src (2 * n));
  b ← lift (mem_write b dest pixels);
  modify_fb (with_backbuffer (Some b)).

Definition fb_scroll (scrolllen : Z) : M fb unit :=
  _ ← massert (0 <? scrolllen);
  b ← gets_fb s_backbuffer;
  match b with
  | None => mret tt
  | Some _ =>
      h ← gets_fb s_height; w ← gets_fb s_width; pitch ← gets_fb s_fbpitch;
      _ ← for_ (seqZ 0 (h - scrolllen)) (λ y, move_screen (y * pitch) ((y + scrolllen) * pitch) (pitch / 4));
      for_ (seqZ 0 (h - scrolllen)) (λ y, move_pixels (y * w) ((y + scrolllen) * w) (w * 2 / 4))
  end.

Definition fb_get_width : M fb Z := gets_fb s_width.
Definition fb_get_height : M fb Z := gets_fb s_height.
