(* ===== verification/FbDraw.v ===== *)
(** Drawing is painting on a canvas: the effect of the drawing functions on the
    back buffer, pixel by pixel. *)
From S2P Require Import Prelude MiscMath HeapIface StrUtil Psf PsfCorrect Fb.

(** A picture: the colour at column [x] of line [y]. *)
Definition canvas := Z → Z → Z.

Definition in_rect (x0 y0 width height x y : Z) : bool :=
  (x0 <=? x) && (x <? x0 + width) && (y0 <=? y) && (y <? y0 + height).

(** The back buffer holds the picture. *)
Record holds (s : fb) (C : canvas) : Prop := Holds {
  holds_width : 0 < s_width s < 2 ^ 15;
  holds_height : 0 < s_height s < 2 ^ 15;
  holds_pixels : ∃ b, s_backbuffer s = Some b ∧ Z.of_nat (length b) = s_width s * s_height s ∧
    ∀ x y, 0 ≤ x < s_width s → 0 ≤ y < s_height s → b !! Z.to_nat (y * s_width s + x) = Some (C x y);
}.

(** Nothing but the back buffer has changed. *)
Definition same_but_buffer (s s' : fb) : Prop := s' = with_backbuffer (s_backbuffer s') s.

Lemma same_refl s : same_but_buffer s s.
Proof. by destruct s. Qed.
Lemma same_trans s1 s2 s3 : same_but_buffer s1 s2 → same_but_buffer s2 s3 → same_but_buffer s1 s3.
Proof. unfold same_but_buffer. intros -> ->. done. Qed.

Lemma same_width s s' : same_but_buffer s s' → s_width s' = s_width s ∧ s_height s' = s_height s.
Proof. by intros ->. Qed.

Lemma picture_ext s C C' : holds s C →
  (∀ x y, 0 ≤ x < s_width s → 0 ≤ y < s_height s → C x y = C' x y) → holds s C'.
Proof.
  intros [Hw Hh (b & Hb & Hl & Hp)] HC. constructor; [done..|]. exists b. split_and!; [done..|].
  intros x y Hx Hy. by rewrite Hp, HC.
Qed.

(** The index of a pixel determines its place. *)
Lemma pixel_index w x y x' y' : 0 ≤ x < w → 0 ≤ x' < w → y * w + x = y' * w + x' → x = x' ∧ y = y'.
Proof.
  intros Hx Hx' He. assert (y = y') as ->; [|split; lia].
  assert (y = (y * w + x) / w) by (apply (Z.div_unique _ _ _ x); lia).
  assert (y' = (y' * w + x') / w) by (apply (Z.div_unique _ _ _ x'); lia).
  congruence.
Qed.

Definition paint_pixel (x y color : Z) (C : canvas) : canvas :=
  λ x' y', if (x' =? x) && (y' =? y) then color else C x' y'.

Lemma put_pixel_ok x y color i s C : holds s C → 0 ≤ x < s_width s → 0 ≤ y < s_height s →
  i = y * s_width s + x →
  wp (put_pixel i color) s (λ _ s', same_but_buffer s s' ∧ holds s' (paint_pixel x y color C)).
Proof.
  intros [Hw Hh (b & Hb & Hl & Hp)] Hx Hy ->. unfold put_pixel, backbuffer, lift, modify_fb, wp, mbind, M_bind.
  assert (0 ≤ y * s_width s + x < Z.of_nat (length b)) as Hi by nia.
  rewrite Hb, wr_ok by done. eexists _, _. split; [done|]. split; [done|]. constructor; [done..|].
  eexists. split_and!; [done|by rewrite length_insert|]. intros x' y' Hx' Hy'. cbn in *. unfold paint_pixel.
  destruct (Z.eqb_spec x' x) as [->|Hne]; [destruct (Z.eqb_spec y' y) as [->|Hne]|]; cbn [andb].
  - apply list_lookup_insert_eq. lia.
  - rewrite list_lookup_insert_ne by (intros He%Z2Nat.inj; [apply pixel_index in He; lia|nia..]). by apply Hp.
  - rewrite list_lookup_insert_ne by (intros He%Z2Nat.inj; [apply pixel_index in He; lia|nia..]). by apply Hp.
Qed.

Lemma wp_gets_fb {A} (f : fb → A) s (Q : A → fb → Prop) : Q (f s) s → wp (gets_fb f) s Q.
Proof. intros HQ. by exists (f s), s. Qed.

(** The result of a drawing function: the picture it leaves. *)
Definition paints (C' : canvas) (s : fb) : unit → fb → Prop := λ _ s', same_but_buffer s s' ∧ holds s' C'.

Lemma paints_ext C C' s (m : M fb unit) : wp m s (paints C s) →
  (∀ x y, 0 ≤ x < s_width s → 0 ≤ y < s_height s → C x y = C' x y) → wp m s (paints C' s).
Proof.
  intros Hm HC. eapply wp_mono; [exact Hm|]. intros [] s' [Hs Hh]. split; [done|].
  destruct (same_width _ _ Hs) as [Hw Hh']. apply (picture_ext _ C); [done|]. by rewrite Hw, Hh'.
Qed.

(** A loop that paints: the picture after each iteration. *)
Lemma paint_loop (n : Z) (f : Z → M fb unit) (C : Z → canvas) s : 0 ≤ n → holds s (C 0) →
  (∀ k s', 0 ≤ k < n → same_but_buffer s s' → holds s' (C k) → wp (f k) s' (paints (C (k + 1)) s')) →
  wp (for_ (seqZ 0 n) f) s (paints (C n) s).
Proof.
  intros Hn H0 Hf. apply (wp_for_seqZ _ _ (λ k s', same_but_buffer s s' ∧ holds s' (C k))); [done|..].
  - split; [apply same_refl|done].
  - intros k s' Hk [Hs Hh]. eapply wp_mono; [by apply Hf|]. intros [] s2 [Hs2 Hh2]. split; [|done].
    by eapply same_trans.
  - intros s' Hs. exact Hs.
Qed.

(** *** Rectangles *)

Definition paint_rect (width height x0 y0 color : Z) (C : canvas) : canvas :=
  λ x y, if in_rect x0 y0 width height x y then color else C x y.

Lemma rect_line_ok width x0 y color base s C : holds s C → 0 ≤ width → 0 ≤ x0 → x0 + width ≤ s_width s →
  0 ≤ y < s_height s → base = y * s_width s + x0 →
  wp (for_ (seqZ 0 width) (λ srcx, put_pixel (base + srcx) color)) s (paints (paint_rect width 1 x0 y color C) s).
Proof.
  intros Hs Hwd Hx Hxw Hy ->. apply (paint_loop _ _ (λ k, paint_rect k 1 x0 y color C)); [done|..].
  - apply (picture_ext _ C); [done|]. intros x' y' _ _. unfold paint_rect, in_rect. zcase; cbn; done || lia.
  - intros k s' Hk Hsame Hh. destruct (same_width _ _ Hsame) as [Hw Hht].
    eapply paints_ext.
    + eapply (put_pixel_ok (x0 + k) y); [exact Hh|lia|lia|]. rewrite Hw. lia.
    + intros x' y' _ _. unfold paint_pixel, paint_rect, in_rect. zcase; cbn; done || lia.
Qed.

Lemma fb_draw_rect_pixels width height x0 y0 color s C : holds s C → 0 ≤ width → 0 ≤ height →
  0 ≤ x0 → x0 + width ≤ s_width s → 0 ≤ y0 → y0 + height ≤ s_height s →
  wp (for_ (seqZ 0 height) (λ srcy, for_ (seqZ 0 width) (λ srcx,
        put_pixel (y0 * s_width s + x0 + srcy * s_width s + srcx) color))) s
     (paints (paint_rect width height x0 y0 color C) s).
Proof.
  intros Hs Hwd Hht Hx Hxw Hy Hyh. apply (paint_loop _ _ (λ k, paint_rect width k x0 y0 color C)); [done|..].
  - apply (picture_ext _ C); [done|]. intros x' y' _ _. unfold paint_rect, in_rect. zcase; cbn; done || lia.
  - intros k s' Hk Hsame Hh. destruct (same_width _ _ Hsame) as [Hw Hht'].
    eapply paints_ext.
    + eapply (rect_line_ok width x0 (y0 + k)); [exact Hh|lia|lia|lia|lia|]. rewrite Hw. lia.
    + intros x' y' _ _. unfold paint_rect, in_rect. zcase; cbn; done || lia.
Qed.

(** *** Images *)

Definition image_pixel (image : list Z) (pixels_per_line x y : Z) : Z :=
  default 0 (image !! Z.to_nat (y * pixels_per_line + x)).
Definition paint_image (image : list Z) (width height pixels_per_line x0 y0 : Z) (C : canvas) : canvas :=
  λ x y, if in_rect x0 y0 width height x y then image_pixel image pixels_per_line (x - x0) (y - y0) else C x y.

Lemma copy_line_ok image src width x0 y dest s C : holds s C → 0 ≤ width → 0 ≤ x0 → x0 + width ≤ s_width s →
  0 ≤ y < s_height s → 0 ≤ src → src + width ≤ Z.of_nat (length image) → dest = y * s_width s + x0 →
  wp (copy_line image src dest width) s (paints (λ x' y', if in_rect x0 y width 1 x' y'
    then default 0 (image !! Z.to_nat (src + (x' - x0))) else C x' y') s).
Proof.
  intros [Hw Hh (b & Hb & Hl & Hp)] Hwd Hx Hxw Hy Hsrc Himg ->.
  unfold copy_line, backbuffer, modify_fb, wp, mbind, M_bind. rewrite Hb.
  unfold lift, vmemcpy. rewrite mem_read_ok by done. unfold mbind, res_bind.
  assert (Z.of_nat (length (take (Z.to_nat width) (drop (Z.to_nat src) image))) = width) as Hlen.
  { rewrite length_take, length_drop. lia. }
  destruct (mem_write_lookup b (y * s_width s + x0) (take (Z.to_nat width) (drop (Z.to_nat src) image)))
    as (b' & -> & Hl' & Hlook); [nia|rewrite Hlen; nia|].
  eexists _, _. split; [done|]. split; [done|]. constructor; [done..|].
  exists b'. split_and!; [done|cbn; lia|]. cbn. intros x' y' Hx' Hy'. rewrite Hlook, Hlen by nia. unfold in_rect.
  destruct (Z.leb_spec (y * s_width s + x0) (y' * s_width s + x')) as [H1|H1], (Z.ltb_spec (y' * s_width s + x') (y * s_width s + x0 + width)) as [H2|H2]; cbn.
  - assert (y' = y) as -> by nia. rewrite lookup_take_lt, lookup_drop by lia.
    destruct (lookup_lt_is_Some_2 image (Z.to_nat (src + (x' - x0)))) as [v Hv]; [lia|].
    replace (Z.to_nat src + _)%nat with (Z.to_nat (src + (x' - x0))) by lia. rewrite Hv. zcase; cbn; done || lia.
  - rewrite Hp by done. zcase; cbn; try done; exfalso; nia.
  - rewrite Hp by done. zcase; cbn; try done; exfalso; nia.
  - rewrite Hp by done. zcase; cbn; try done; exfalso; nia.
Qed.

Lemma fb_draw_image_pixels image width height ppl x0 y0 s C : holds s C → 0 ≤ width → 0 < height → 0 ≤ ppl →
  0 ≤ x0 → x0 + width ≤ s_width s → 0 ≤ y0 → y0 + height ≤ s_height s →
  (height - 1) * ppl + width ≤ Z.of_nat (length image) →
  wp (for_ (seqZ 0 height) (λ srcy, copy_line image (srcy * ppl) (y0 * s_width s + x0 + srcy * s_width s) width)) s
     (paints (paint_image image width height ppl x0 y0 C) s).
Proof.
  intros Hs Hwd Hht Hppl Hx Hxw Hy Hyh Himg.
  apply (paint_loop _ _ (λ k, paint_image image width k ppl x0 y0 C)); [lia|..].
  - apply (picture_ext _ C); [done|]. intros x' y' _ _. unfold paint_image, in_rect. zcase; cbn; done || lia.
  - intros k s' Hk Hsame Hh. destruct (same_width _ _ Hsame) as [Hw Hht'].
    eapply paints_ext.
    + eapply (copy_line_ok image (k * ppl) width x0 (y0 + k)); [exact Hh|lia..|nia|nia|]. rewrite Hw. lia.
    + intros x' y' _ _. unfold paint_image, image_pixel, in_rect. cbv beta.
      zcase; cbn; try done; try lia. assert (y' = y0 + k) as -> by lia. do 3 f_equal. lia.
Qed.

(** *** Text *)

Section Text.
Variables (font : list Z) (p : psf).

(** Fonts of at most eight columns: a line of a glyph is a byte. *)
Record narrow_font : Prop := NarrowFont {
  narrow_width : 0 < s_fontwidth p ≤ 8;
  narrow_height : 0 < s_fontheight p < 2 ^ 15;
  narrow_bytes : Forall is_u8 font;
}.
Hypothesis Hfont : narrow_font.

Lemma narrow_bytes_per_line : psf_getbytesperline p = 1.
Proof using Hfont. pose proof (narrow_width Hfont). unfold psf_getbytesperline. rewrite Z.quot_div_nonneg by lia. dlia. Qed.

(** The first [n] columns of a line whose pixels are the bits of [v]. *)
Definition paint_bits (v n x0 y0 color : Z) (C : canvas) : canvas :=
  λ x y, if in_rect x0 y0 n 1 x y && Z.testbit v (7 - (x - x0)) then color else C x y.

Lemma mask_testbit v c : 0 ≤ c < 8 → negb (Z.land v (Z.shiftr 0x80 c) =? 0) = Z.testbit v (7 - c).
Proof using.
  intros Hc. assert (Z.shiftr 0x80 c = 2 ^ (7 - c)) as ->.
  { change 0x80 with (2 ^ 7). rewrite Z.shiftr_div_pow2 by lia.
    replace 7 with ((7 - c) + c) at 1 by lia. rewrite Z.pow_add_r by lia. apply Z.div_mul. lia. }
  destruct (Z.testbit v (7 - c)) eqn:Hv.
  - apply negb_true_iff, Z.eqb_neq. intros He. apply (f_equal (λ z, Z.testbit z (7 - c))) in He.
    rewrite Z.land_spec, Hv, Z.pow2_bits_true, Z.bits_0 in He by lia. done.
  - apply negb_false_iff, Z.eqb_eq, Z.bits_inj'. intros k Hk. rewrite Z.land_spec, Z.bits_0.
    destruct (decide (k = 7 - c)) as [->|]; [by rewrite Hv|].
    by rewrite Z.pow2_bits_false, andb_false_r by lia.
Qed.

Lemma mask_nonzero c : 0 ≤ c < 8 → (Z.shiftr 0x80 c =? 0) = false.
Proof using. intros Hc. by apply negb_true_iff, (range_by_computation (λ c, negb (Z.shiftr 0x80 c =? 0)) 0 8). Qed.

Lemma draw_bit_ok v c x0 y color src s C :
  holds s (paint_bits v c x0 y color C) → rd font src = Ok v → v ≠ 0 → 0 ≤ c < s_fontwidth p →
  0 ≤ x0 → x0 + s_fontwidth p ≤ s_width s → 0 ≤ y < s_height s →
  wp (draw_pixel_step font p color (PixelLoop c (Z.shiftr 0x80 c) src (y * s_width s + x0 + c))) s
    (λ r s', r = inl (PixelLoop (c + 1) (Z.shiftr 0x80 (c + 1)) src (y * s_width s + x0 + (c + 1))) ∧
      paints (paint_bits v (c + 1) x0 y color C) s tt s').
Proof using Hfont.
  intros Hs Hv Hv0 Hc Hx Hxw Hy. pose proof (narrow_width Hfont).
  unfold draw_pixel_step, psf_getwidth. destruct (Z.ltb_spec c (s_fontwidth p)); [|lia]. cbn [negb].
  apply wp_bind, (wp_lift _ v); [done|]. destruct (Z.eqb_spec v 0); [done|]. rewrite mask_nonzero by lia.
  apply wp_bind, (wp_lift _ v); [done|]. rewrite mask_testbit by lia. apply wp_bind.
  unfold next_pixel. rewrite Z.shiftr_shiftr, <- (Z.add_assoc (y * s_width s + x0)) by lia.
  destruct (Z.testbit v (7 - c)) eqn:Hb.
  - eapply wp_mono; [apply (put_pixel_ok (x0 + c) y); [exact Hs|lia..]|].
    intros [] s' [Hsame Hh]. apply wp_ret. split; [done|]. split; [done|].
    apply (picture_ext _ _ _ Hh). intros x' y' _ _. unfold paint_pixel, paint_bits, in_rect.
    destruct (Z.eqb_spec x' (x0 + c)) as [->|]; [|zcase; cbn; done || lia].
    replace (7 - (x0 + c - x0)) with (7 - c) by lia. rewrite Hb. zcase; cbn; done || lia.
  - apply wp_ret, wp_ret. split; [done|]. split; [apply same_refl|].
    apply (picture_ext _ _ _ Hs). intros x' y' _ _. unfold paint_bits, in_rect.
    destruct (Z.eqb_spec x' (x0 + c)) as [->|]; [|zcase; cbn; done || lia].
    replace (7 - (x0 + c - x0)) with (7 - c) by lia. rewrite Hb. by rewrite !andb_false_r.
Qed.

Lemma draw_glyph_line_ok v x0 y color src s C : holds s C → rd font src = Ok v → 0 ≤ x0 → x0 + s_fontwidth p ≤ s_width s →
  0 ≤ y < s_height s →
  wp (draw_glyph_line font p src (y * s_width s + x0) color) s (paints (paint_bits v (s_fontwidth p) x0 y color C) s).
Proof using Hfont.
  intros Hs Hv Hx Hxw Hy. pose proof (narrow_width Hfont).
  apply (wp_loop _ (λ l s', same_but_buffer s s' ∧ holds s' (paint_bits v (Z.min (pl_c l) (s_fontwidth p)) x0 y color C) ∧ 0 ≤ pl_c l ∧
      (l = PixelLoop (pl_c l) (Z.shiftr 0x80 (pl_c l)) src (y * s_width s + x0 + pl_c l) ∨ s_fontwidth p ≤ pl_c l))
    (λ l, Z.to_nat (s_fontwidth p - pl_c l))); [|..].
  - intros l s' (Hsame & Hh & Hc & Hl). destruct (same_width _ _ Hsame) as [Hw Hht].
    destruct (Z.lt_ge_cases (pl_c l) (s_fontwidth p)) as [Hlt|Hge].
    2:{ destruct l as [c mask src' dest]. cbn [pl_c] in *. unfold draw_pixel_step, psf_getwidth.
        destruct (Z.ltb_spec c (s_fontwidth p)); [lia|]. cbn [negb]. apply wp_ret. split; [done|].
        by rewrite Z.min_r in Hh by lia. }
    destruct Hl as [->|]; [|lia]. cbn [pl_c] in *. set (c := pl_c l) in *. rewrite Z.min_l in Hh by lia.
    destruct (decide (v = 0)) as [->|Hv0].
    + unfold draw_pixel_step, psf_getwidth. destruct (Z.ltb_spec c (s_fontwidth p)); [|lia]. cbn [negb].
      apply wp_bind, (wp_lift _ 0); [done|]. apply wp_ret. unfold next_pixel. cbn [pl_c].
      assert (c + (8 - c mod 8 - 1) + 1 = 8) as -> by dlia. split; [|lia]. split; [done|]. split; [|lia].
      apply (picture_ext _ _ _ Hh). intros x' y' _ _. unfold paint_bits. by rewrite Z.bits_0, !andb_false_r.
    + rewrite <- Hw. eapply wp_mono; [apply (draw_bit_ok v c x0 y color src s' C); try done; lia|].
      intros r s2 (-> & Hsame2 & Hh2). cbn [pl_c]. rewrite Z.min_l by lia. split; [|lia].
      split; [by eapply same_trans|]. split; [done|]. split; [lia|]. by left.
  - cbn [pl_c]. split; [apply same_refl|]. split; [|split; [lia|left; by rewrite Z.add_0_r]].
    apply (picture_ext _ _ _ Hs). intros x' y' _ _. unfold paint_bits, in_rect. zcase; cbn; done || lia.
  - cbn [pl_c]. unfold psf_getwidth. lia.
Qed.

(** A glyph, whose lines are [bits]. *)
Definition paint_glyph (bits : Z → Z) (x0 y0 width height color : Z) (C : canvas) : canvas :=
  λ x y, if in_rect x0 y0 width height x y && Z.testbit (bits (y - y0)) (7 - (x - x0)) then color else C x y.

(** Where the lines of the glyph of a character are in the font. *)
Definition glyph_at (chr glyph : Z) : Prop :=
  psf_getglyph p (u32 (s8 chr)) = Ok glyph ∧ 0 ≤ glyph ∧ glyph + s_fontheight p ≤ Z.of_nat (length font).
Definition glyph_line (glyph l : Z) : Z := default 0 (font !! Z.to_nat (glyph + l)).

Lemma draw_char_ok chr glyph x0 y0 color s C : holds s C → glyph_at chr glyph → 0 ≤ x0 →
  x0 + s_fontwidth p ≤ s_width s → 0 ≤ y0 → y0 + s_fontheight p ≤ s_height s →
  wp (draw_char font p chr (y0 * s_width s + x0) color) s
    (paints (paint_glyph (glyph_line glyph) x0 y0 (s_fontwidth p) (s_fontheight p) color C) s).
Proof using Hfont.
  intros Hs (Hg & Hg0 & Hgl) Hx Hxw Hy Hyh. pose proof (narrow_height Hfont).
  unfold draw_char. apply wp_bind, (wp_lift _ glyph); [done|]. apply wp_bind, wp_gets_fb. unfold psf_getheight. rewrite narrow_bytes_per_line.
  apply (paint_loop _ _ (λ k, paint_glyph (glyph_line glyph) x0 y0 (s_fontwidth p) k color C)); [lia|..].
  - apply (picture_ext _ C); [done|]. intros x' y' _ _. unfold paint_glyph, in_rect. zcase; cbn; done || lia.
  - intros k s' Hk Hsame Hh. destruct (same_width _ _ Hsame) as [Hw Hht].
    destruct (rd_Some font (glyph + k * 1)) as (v & Hv & Hrd); [lia|].
    replace (y0 * s_width s + x0 + k * s_width s) with ((y0 + k) * s_width s' + x0) by lia.
    eapply paints_ext; [apply (draw_glyph_line_ok v); [exact Hh|done|lia..]|].
    intros x' y' _ _. unfold paint_bits, paint_glyph, glyph_line, in_rect.
    destruct (Z.eqb_spec y' (y0 + k)) as [->|]; [|zcase; cbn; done || lia].
    replace (y0 + k - y0) with (k * 1) by lia. rewrite Hv. cbn [default].
    zcase; cbn; done || lia.
Qed.

(** The picture of a text. *)
Definition glyph_of (chr : Z) : Z := match psf_getglyph p (u32 (s8 chr)) with Ok g => g | Fault _ => 0 end.
Fixpoint paint_text (text : list Z) (x0 y0 color : Z) (C : canvas) : canvas :=
  match text with
  | [] => C
  | chr :: text => paint_text text (x0 + s_fontwidth p) y0 color
      (paint_glyph (glyph_line (glyph_of chr)) x0 y0 (s_fontwidth p) (s_fontheight p) color C)
  end.

Lemma draw_chars_ok text x0 y0 color s C : holds s C → Forall (λ chr, ∃ g, glyph_at chr g) text → 0 ≤ x0 →
  x0 + Z.of_nat (length text) * s_fontwidth p ≤ s_width s → 0 ≤ y0 → y0 + s_fontheight p ≤ s_height s →
  wp (draw_chars font p text (y0 * s_width s + x0) color) s (paints (paint_text text x0 y0 color C) s).
Proof using Hfont.
  intros Hs Ht. revert x0 s C Hs. pose proof (narrow_width Hfont). pose proof (narrow_height Hfont).
  induction Ht as [|chr text [g Hg] _ IH]; intros x0 s C Hs Hx Hxw Hy Hyh; cbn [draw_chars paint_text length] in *.
  - apply wp_ret. split; [apply same_refl|done].
  - assert (glyph_of chr = g) as -> by (unfold glyph_of; by rewrite (proj1 Hg)).
    apply wp_bind. eapply wp_mono; [apply (draw_char_ok chr g); try done; nia|].
    intros [] s' [Hsame Hh]. destruct (same_width _ _ Hsame) as [Hw Hht]. pose proof (holds_width _ _ Hs). pose proof (holds_height _ _ Hs).
    unfold psf_getwidth. rewrite u32_small by nia. rewrite <- Hw, <- Z.add_assoc.
    eapply wp_mono; [apply (IH _ s' _ Hh); lia|]. intros [] s2 [Hsame2 Hh2]. split; [by eapply same_trans|done].
Qed.
End Text.
