(* ===== verification/FbCorrect.v ===== *)
(** The screen shows the picture: bringing the damaged lines of the back buffer
    to the screen, in every colour format, and sequences of drawing calls. *)
From S2P Require Import Prelude MiscMath HeapIface StrUtil Psf PsfCorrect Fb FbDraw.

(** ** The colours of the screen *)

Definition palette_average (palette : list Z) (i : Z) : Z :=
  (default 0 (palette !! Z.to_nat (i * 3)) + default 0 (palette !! Z.to_nat (i * 3 + 1)) +
   default 0 (palette !! Z.to_nat (i * 3 + 2))) / 3.
Definition palette_distance (palette : list Z) (avg i : Z) : Z := Z.abs (palette_average palette i - avg).

(** The first of the colours of the palette that are nearest in brightness. *)
Definition nearest (palette : list Z) (colorcount avg i : Z) : Prop :=
  0 ≤ i < colorcount ∧
  ∀ j, 0 ≤ j < colorcount → palette_distance palette avg i ≤ palette_distance palette avg j ∧
    (j < i → palette_distance palette avg i < palette_distance palette avg j).

(** The parts of a colour, each from 0 to 31: blue is the lowest five bits, then
    come green and red.  They are taken as 255 / 31 of that on a screen with
    eight bits for each, and as eight times that for the brightness. *)
Definition blue_of (rgb : Z) : Z := rgb mod 32.
Definition green_of (rgb : Z) : Z := rgb / 32 mod 32.
Definition red_of (rgb : Z) : Z := rgb / 1024 mod 32.
Definition brightness (rgb : Z) : Z := (8 * red_of rgb + 8 * green_of rgb + 8 * blue_of rgb) / 3.

(** Bit [k] of the field of [size] bits at [pos] that holds the highest bits of a
    part of a colour. *)
Definition field_bit (part pos size k : Z) : bool :=
  (pos <=? k) && (k <? pos + size) && Z.testbit (part * 255 / 31) (k - pos + (8 - size)).

(** What a colour is on the screen, in each of the formats: a word with a field
    for each part and no other bit, or the number of a colour of the palette. *)
Definition native_is (f : update_function) (info : color_info) (rgb v : Z) : Prop :=
  match f, info with
  | (update32 | update24 | update16), Rgb rpos gpos bpos rsize gsize bsize =>
      ∀ k, 0 ≤ k → Z.testbit v k = (k <? 32) &&
        (field_bit (red_of rgb) rpos rsize k || field_bit (green_of rgb) gpos gsize k || field_bit (blue_of rgb) bpos bsize k)
  | update8, Indexed palette colorcount => nearest palette colorcount (brightness rgb) v
  | _, _ => False
  end.

(** The video modes that the kernel sets up, but for those of one bit. *)
Definition valid_mode (f : update_function) (info : color_info) : Prop :=
  match f, info with
  | (update32 | update24 | update16), Rgb rpos gpos bpos rsize gsize bsize =>
      0 ≤ rpos < 32 ∧ 0 ≤ gpos < 32 ∧ 0 ≤ bpos < 32 ∧ 0 ≤ rsize ≤ 8 ∧ 0 ≤ gsize ≤ 8 ∧ 0 ≤ bsize ≤ 8
  | update8, Indexed palette colorcount =>
      0 < colorcount ≤ 256 ∧ Z.of_nat (length palette) = 3 * colorcount ∧ Forall is_u8 palette
  | _, _ => False
  end.

(** The colour that is kept in the static variables. *)
Definition cache_ok (s : fb) : Prop :=
  match s_colorinfo s with
  | Indexed palette colorcount => s_lastavg s = -1 ∨ nearest palette colorcount (s_lastavg s) (s_lastcolor s)
  | Rgb _ _ _ _ _ _ => True
  end.

Lemma part_of rgb n : 0 ≤ n → Z.land (Z.shiftr rgb n) 0x1f = rgb / 2 ^ n mod 32.
Proof. intros Hn. change 0x1f with (Z.ones 5). by rewrite Z.land_ones, Z.shiftr_div_pow2 by lia. Qed.

Lemma average_eq rgb : average rgb = brightness rgb.
Proof.
  unfold average, brightness, red_of, green_of, blue_of. rewrite !part_of, !Z.shiftl_mul_pow2 by lia.
  change 0x1f with (Z.ones 5). rewrite Z.land_ones by lia. f_equal. change (2 ^ 5) with 32. change (2 ^ 10) with 1024. lia.
Qed.

(** A part of a colour in its field. *)
Lemma field_testbit part pos size k : 0 ≤ part < 32 → 0 ≤ pos < 32 → 0 ≤ size ≤ 8 → 0 ≤ k →
  Z.testbit (u32 (Z.shiftl (Z.shiftr (part * 255 / 31) (8 - size)) pos)) k = (k <? 32) && field_bit part pos size k.
Proof.
  intros Hp Hpos Hsize Hk. unfold u32. destruct (Z.ltb_spec k 32) as [Hk32|Hk32].
  2: { rewrite Z.mod_pow2_bits_high by lia. done. }
  rewrite Z.mod_pow2_bits_low by lia. unfold field_bit. destruct (Z.leb_spec pos k).
  - rewrite Z.shiftl_spec_high, Z.shiftr_spec by lia. cbn [andb]. destruct (Z.ltb_spec k (pos + size)); cbn [andb]; [f_equal; lia|].
    apply Z.bits_above_log2; [dlia|]. destruct (decide (part * 255 / 31 = 0)) as [->|]; [cbn; lia|].
    assert (Z.log2 (part * 255 / 31) < 8); [apply Z.log2_lt_pow2; [dlia|change (2 ^ 8) with 256; dlia]|lia].
  - rewrite Z.shiftl_spec_low by lia. done.
Qed.

Lemma average_range rgb : 0 ≤ average rgb ≤ 248.
Proof.
  unfold average. change 0x1f with (Z.ones 5). rewrite !Z.land_ones, !Z.shiftl_mul_pow2 by lia.
  pose proof (Z.mod_pos_bound (Z.shiftr rgb 10) (2 ^ 5) ltac:(lia)).
  pose proof (Z.mod_pos_bound (Z.shiftr rgb 5) (2 ^ 5) ltac:(lia)).
  pose proof (Z.mod_pos_bound rgb (2 ^ 5) ltac:(lia)). dlia.
Qed.

Lemma rd_palette palette i : Forall is_u8 palette → 0 ≤ i < Z.of_nat (length palette) →
  rd palette i = Ok (default 0 (palette !! Z.to_nat i)) ∧ 0 ≤ default 0 (palette !! Z.to_nat i) < 256.
Proof.
  intros Hp Hi. destruct (rd_Some palette i Hi) as (v & Hv & Hr). rewrite Hv.
  split; [done|]. apply (Forall_lookup_1 _ _ _ _ Hp Hv).
Qed.

Section Nearest.
Variables (palette : list Z) (colorcount avg : Z).
Hypothesis Hpal : Forall is_u8 palette.
Hypothesis Hlen : Z.of_nat (length palette) = 3 * colorcount.
Hypothesis Hcount : 0 < colorcount ≤ 256.
Hypothesis Havg : 0 ≤ avg ≤ 248.
Local Abbreviation distance := (palette_distance palette avg).

(** The first [i] colours are searched. *)
Definition searched (x : Z * Z * Z) : Prop :=
  let '(i, mindiff, chosencolor) := x in
  0 ≤ i ≤ colorcount ∧ (i = 0 ∧ mindiff = 0x7fff ∧ chosencolor = 0 ∨
    0 ≤ chosencolor < i ∧ mindiff = distance chosencolor ∧
    ∀ j, 0 ≤ j < i → mindiff ≤ distance j ∧ (j < chosencolor → mindiff < distance j)).

Lemma palette_diff i : 0 ≤ i < colorcount →
  rd palette (i * 3) = Ok (default 0 (palette !! Z.to_nat (i * 3))) ∧
  rd palette (i * 3 + 1) = Ok (default 0 (palette !! Z.to_nat (i * 3 + 1))) ∧
  rd palette (i * 3 + 2) = Ok (default 0 (palette !! Z.to_nat (i * 3 + 2))) ∧ distance i < 0x7fff.
Proof using Hpal Hlen Havg.
  intros Hi. destruct (rd_palette palette (i * 3) Hpal) as [H1 H1']; [lia|].
  destruct (rd_palette palette (i * 3 + 1) Hpal) as [H2 H2']; [lia|].
  destruct (rd_palette palette (i * 3 + 2) Hpal) as [H3 H3']; [lia|].
  split_and!; try done. unfold palette_distance, palette_average. dlia.
Qed.

Lemma palette_step_ok x : searched x → ∃ y, palette_step palette colorcount avg x = Ok y ∧
  match y with
  | inl x' => searched x' ∧ (Z.to_nat (colorcount - x'.1.1) < Z.to_nat (colorcount - x.1.1))%nat
  | inr r => nearest palette colorcount avg r
  end.
Proof using Hpal Hlen Hcount Havg.
  destruct x as [[i mindiff] chosen]. intros [Hi Hs]. unfold palette_step.
  destruct (Z.ltb_spec i colorcount) as [Hlt|]; cbn [negb].
  2:{ eexists. split; [done|]. destruct Hs as [|(Hc & -> & Hj)]; [lia|]. split; [lia|].
      intros j Hj'. apply Hj. lia. }
  destruct (palette_diff i) as (-> & -> & -> & Hd); [lia|]. unfold mbind, res_bind.
  fold (palette_average palette i).
  assert ((if palette_average palette i - avg <? 0 then - (palette_average palette i - avg) else palette_average palette i - avg)
    = distance i) as -> by (unfold palette_distance; zcase; lia).
  assert (0 ≤ distance i) by (unfold palette_distance; lia).
  set (next := if distance i <? mindiff then (distance i, i) else (mindiff, chosen)).
  assert (searched (i + 1, next.1, next.2)) as Hnext.
  { split; [lia|]. right. subst next. destruct (Z.ltb_spec (distance i) mindiff); cbn [fst snd].
    - split; [lia|]. split; [done|]. intros j Hj. destruct (decide (j = i)) as [->|]; [lia|].
      destruct Hs as [|(_ & _ & Hs)]; [lia|]. destruct (Hs j); lia.
    - destruct Hs as [|(Hc & -> & Hs)]; [lia|]. split; [lia|]. split; [done|].
      intros j Hj. destruct (decide (j = i)) as [->|]; [lia|]. apply Hs. lia. }
  destruct next as [m c]. cbn [fst snd] in Hnext. destruct (Z.eqb_spec m 0) as [->|].
  - eexists. split; [done|]. destruct Hnext as [_ [|(Hc & Hm & Hs')]]; [lia|]. split; [lia|].
    intros j Hj. destruct (Z.lt_ge_cases j (i + 1)); [rewrite <- Hm; apply Hs'; lia|].
    rewrite <- Hm. unfold palette_distance. lia.
  - eexists. split; [done|]. split; [done|]. cbn. lia.
Qed.

Lemma palette_search : ∃ r, loop (S (Z.to_nat colorcount)) (palette_step palette colorcount avg) (0, 0x7fff, 0) = Ok r ∧
  nearest palette colorcount avg r.
Proof using Hpal Hlen Hcount Havg.
  apply (loop_rule _ searched (λ x, Z.to_nat (colorcount - x.1.1))).
  - exact palette_step_ok.
  - split; [lia|by left].
  - cbn. lia.
Qed.
End Nearest.

(** ** One pixel *)

(** Only the screen and the kept colour have changed. *)
Definition same_but_screen (s s' : fb) : Prop :=
  s' = with_screen (s_fbbase s') (with_last (s_lastavg s') (s_lastcolor s') s).

Lemma screen_refl s : same_but_screen s s.
Proof. by destruct s. Qed.
Lemma screen_trans s1 s2 s3 : same_but_screen s1 s2 → same_but_screen s2 s3 → same_but_screen s1 s3.
Proof. unfold same_but_screen. intros -> ->. done. Qed.

Lemma native_rgb_ok f info rgb : valid_mode f info → f = update32 ∨ f = update24 ∨ f = update16 →
  ∃ v, make_native_color_rgb info rgb = Ok v ∧ native_is f info rgb v.
Proof.
  intros Hm Hf. destruct info as [rpos gpos bpos rsize gsize bsize|pal cnt].
  2:{ by destruct Hf as [->|[->| ->]]. }
  assert (0 ≤ rpos < 32 ∧ 0 ≤ gpos < 32 ∧ 0 ≤ bpos < 32 ∧ 0 ≤ rsize ≤ 8 ∧ 0 ≤ gsize ≤ 8 ∧ 0 ≤ bsize ≤ 8)
    as (Hr & Hg & Hb & Hrs & Hgs & Hbs) by (by destruct Hf as [->|[->| ->]]).
  unfold make_native_color_rgb.
  assert (∀ x size, 0 ≤ size ≤ 8 → shr32 x (u32 (8 - size)) = Ok (Z.shiftr x (8 - size))) as Hshr.
  { intros x size Hs. rewrite u32_small by lia. unfold shr32. zcase; done || lia. }
  assert (∀ x pos, 0 ≤ pos < 32 → shl32 x (u8 pos) = Ok (u32 (Z.shiftl x pos))) as Hshl.
  { intros x pos Hp. unfold u8. rewrite Z.mod_small by lia. unfold shl32. zcase; done || lia. }
  rewrite !Hshr by done. unfold mbind, res_bind. rewrite !Hshl by done. eexists. split; [done|].
  enough (∀ k, 0 ≤ k → Z.testbit (Z.lor (Z.lor (u32 (Z.shiftl (Z.shiftr (red_of rgb * 255 / 31) (8 - rsize)) rpos))
      (u32 (Z.shiftl (Z.shiftr (green_of rgb * 255 / 31) (8 - gsize)) gpos)))
      (u32 (Z.shiftl (Z.shiftr (blue_of rgb * 255 / 31) (8 - bsize)) bpos))) k = (k <? 32) &&
        (field_bit (red_of rgb) rpos rsize k || field_bit (green_of rgb) gpos gsize k || field_bit (blue_of rgb) bpos bsize k)) as H.
  { assert (Z.land rgb 0x1f = blue_of rgb) as -> by (change 0x1f with (Z.ones 5); by rewrite Z.land_ones).
    rewrite !part_of by lia. by destruct Hf as [->|[->| ->]]. }
  intros k Hk. rewrite !Z.lor_spec. unfold red_of, green_of, blue_of.
  rewrite !field_testbit by (done || apply Z.mod_pos_bound; lia). by destruct (k <? 32).
Qed.

Lemma native_color_ok f rgb s : fb_update_ptr s = f → valid_mode f (s_colorinfo s) → cache_ok s →
  wp (native_color f rgb) s (λ v s', native_is f (s_colorinfo s) rgb v ∧ same_but_screen s s' ∧
    s_fbbase s' = s_fbbase s ∧ cache_ok s').
Proof.
  intros Hf Hm Hc.
  assert (f = update32 ∨ f = update24 ∨ f = update16 → wp (lift (make_native_color_rgb (s_colorinfo s) rgb)) s
    (λ v s', native_is f (s_colorinfo s) rgb v ∧ same_but_screen s s' ∧ s_fbbase s' = s_fbbase s ∧ cache_ok s')) as Hrgb.
  { intros Hf'. destruct (native_rgb_ok f (s_colorinfo s) rgb Hm Hf') as (v & Hv & Hn). apply (wp_lift _ v); [done|].
    split; [done|]. split; [apply screen_refl|done]. }
  unfold native_color. destruct f; try (apply wp_bind, wp_gets_fb, Hrgb; tauto); try done.
  unfold make_native_color_indexed. apply wp_bind, wp_gets_fb. apply wp_bind, wp_gets_fb.
  pose proof Hc as Hc'. unfold cache_ok in Hc'. unfold valid_mode in Hm.
  destruct (s_colorinfo s) as [|palette colorcount] eqn:Hinfo; [done|]. destruct Hm as (Hn & Hl & Hp).
  destruct (Z.eqb_spec (s_lastavg s) (average rgb)) as [Heq|_].
  - apply wp_ret. destruct Hc' as [Hc'|Hc']; [pose proof (average_range rgb); lia|].
    pose proof (proj1 Hc') as Hr. rewrite u32_small by lia.
    split; [by cbn; rewrite <- average_eq, <- Heq|]. split; [apply screen_refl|done].
  - apply wp_bind, wp_gets_fb. rewrite Hinfo.
    destruct (palette_search palette colorcount (average rgb) Hp Hl Hn (average_range rgb)) as (r & Hloop & Hr).
    apply wp_bind, (wp_lift _ r); [done|]. apply wp_bind. eexists _, _. split; [done|]. apply wp_ret.
    rewrite u32_small by (pose proof (proj1 Hr); lia). split; [cbn; by rewrite <- average_eq|]. split; [by destruct s|]. split; [done|].
    unfold cache_ok. cbn. rewrite Hinfo. by right.
Qed.

Definition last_ok (s : fb) (last : Z * Z) : Prop :=
  last.1 = -1 ∨ native_is (fb_update_ptr s) (s_colorinfo s) last.1 last.2.

Lemma cached_color_ok color last s : valid_mode (fb_update_ptr s) (s_colorinfo s) → cache_ok s → last_ok s last → 0 ≤ color →
  wp (cached_color (fb_update_ptr s) last color) s (λ last' s', last'.1 = color ∧
    native_is (fb_update_ptr s) (s_colorinfo s) color last'.2 ∧ same_but_screen s s' ∧ s_fbbase s' = s_fbbase s ∧ cache_ok s').
Proof.
  intros Hm Hc Hlast Hcol. unfold cached_color. destruct (Z.eqb_spec color last.1) as [->|].
  - apply wp_ret. destruct Hlast as [|Hl]; [lia|]. split_and!; [done|done|apply screen_refl|done|done].
  - apply wp_bind. eapply wp_mono; [by apply native_color_ok|]. intros v s' (Hv & Hs & Hb & Hc').
    apply wp_ret. done.
Qed.

(** ** The lines *)

(** The video mode is valid, and the screen has room for its lines. *)
Record screen_ok (s : fb) : Prop := ScreenOk {
  so_mode : valid_mode (fb_update_ptr s) (s_colorinfo s);
  so_cache : cache_ok s;
  so_pitch : Z.of_nat (pixel_bytes (fb_update_ptr s)) * s_width s ≤
    line_unit (fb_update_ptr s) * (s_fbpitch s / line_unit (fb_update_ptr s));
  so_size : line_unit (fb_update_ptr s) * (s_fbpitch s / line_unit (fb_update_ptr s)) * s_height s ≤
    Z.of_nat (length (s_fbbase s));
}.

Definition pixel_place (s : fb) (x y : Z) : Z :=
  line_offset (fb_update_ptr s) (s_fbpitch s) y + Z.of_nat (pixel_bytes (fb_update_ptr s)) * x.

(** The screen shows a colour at a place. *)
Definition shown (s : fb) (x y rgb : Z) : Prop :=
  ∃ v, native_is (fb_update_ptr s) (s_colorinfo s) rgb v ∧
    mem_read (s_fbbase s) (pixel_place s x y) (Z.of_nat (pixel_bytes (fb_update_ptr s))) =
      Ok (le_bytes (pixel_bytes (fb_update_ptr s)) v).

(** The places of different pixels are apart. *)
Lemma places_apart s x y x' y' : screen_ok s → 0 < s_width s → 0 ≤ x < s_width s → 0 ≤ x' < s_width s →
  x ≠ x' ∨ y ≠ y' →
  pixel_place s x y + Z.of_nat (pixel_bytes (fb_update_ptr s)) ≤ pixel_place s x' y' ∨
  pixel_place s x' y' + Z.of_nat (pixel_bytes (fb_update_ptr s)) ≤ pixel_place s x y.
Proof.
  intros Hs Hw Hx Hx' Hne. pose proof (so_pitch s Hs) as Hp. unfold pixel_place, line_offset.
  set (n := Z.of_nat (pixel_bytes (fb_update_ptr s))) in *. set (u := line_unit (fb_update_ptr s)) in *.
  assert (0 ≤ n) by lia. set (q := s_fbpitch s / u) in *.
  destruct (Z.lt_trichotomy y y') as [Hlt|[->|Hlt]].
  - left. assert (u * q * (y + 1) ≤ u * q * y') by nia. nia.
  - destruct (Z.lt_trichotomy x x') as [Hlt|[->|Hlt]]; [left; nia|lia|right; nia].
  - right. assert (u * q * (y' + 1) ≤ u * q * y) by nia. nia.
Qed.

Lemma place_on_screen s x y : screen_ok s → 0 ≤ x < s_width s → 0 ≤ y < s_height s →
  0 ≤ pixel_place s x y ∧
  pixel_place s x y + Z.of_nat (pixel_bytes (fb_update_ptr s)) ≤ Z.of_nat (length (s_fbbase s)).
Proof.
  intros Hs Hx Hy. pose proof (so_pitch s Hs) as Hp. pose proof (so_size s Hs) as Hz. unfold pixel_place, line_offset.
  set (n := Z.of_nat (pixel_bytes (fb_update_ptr s))) in *. set (u := line_unit (fb_update_ptr s)) in *.
  assert (0 ≤ n) by lia. set (q := s_fbpitch s / u) in *. assert (0 ≤ u * q) by nia.
  split; [nia|]. assert (u * q * (y + 1) ≤ u * q * s_height s) by nia. nia.
Qed.

(** What bringing pixels to the screen leaves: the state with those pixels
    shown, and the others as before. *)
Record refreshed (s s' : fb) (C : canvas) (done_ : Z → Z → Prop) : Prop := Refreshed {
  rf_same : same_but_screen s s';
  rf_cache : cache_ok s';
  rf_length : length (s_fbbase s') = length (s_fbbase s);
  rf_shown : ∀ x y, 0 ≤ x < s_width s → 0 ≤ y < s_height s → done_ x y → shown s' x y (C x y);
  rf_other : ∀ x y c, 0 ≤ x < s_width s → 0 ≤ y < s_height s → ¬ done_ x y → shown s x y c → shown s' x y c;
}.

Lemma refreshed_screen_ok s s' C P : screen_ok s → refreshed s s' C P → screen_ok s'.
Proof.
  intros [Hm Hc Hp Hz] [Hs Hc' Hl _ _]. unfold same_but_screen in Hs. rewrite Hs in *. cbn in *.
  constructor; cbn; try done. by rewrite Hl.
Qed.

Lemma refreshed_holds s s' C P C' : refreshed s s' C P → holds s C' → holds s' C'.
Proof. intros [Hs _ _ _ _] [Hw Hh Hp]. rewrite Hs. by constructor. Qed.

Lemma refreshed_geometry s s' C P : refreshed s s' C P → fb_update_ptr s' = fb_update_ptr s ∧ s_width s' = s_width s ∧
  s_height s' = s_height s ∧ s_fbpitch s' = s_fbpitch s ∧ s_colorinfo s' = s_colorinfo s ∧ s_backbuffer s' = s_backbuffer s.
Proof. intros [Hs _ _ _ _]. by rewrite Hs. Qed.

Lemma refreshed_refl s C : screen_ok s → refreshed s s C (λ _ _, False).
Proof. intros Hs. constructor; [apply screen_refl|by apply so_cache|done|done|done]. Qed.

Lemma refreshed_weaken s s' C (P Q : Z → Z → Prop) : refreshed s s' C P →
  (∀ x y, 0 ≤ x < s_width s → 0 ≤ y < s_height s → P x y ↔ Q x y) → refreshed s s' C Q.
Proof.
  intros [Hs Hc Hl Hsh Ho] HPQ. constructor; [done..| |].
  - intros x y Hx Hy HQ. apply Hsh, HPQ; done.
  - intros x y c Hx Hy HQ. apply Ho; [done..|]. by rewrite HPQ.
Qed.

Lemma refreshed_trans s1 s2 s3 C (P Q : Z → Z → Prop) : (∀ x y, Decision (Q x y)) →
  refreshed s1 s2 C P → refreshed s2 s3 C Q → refreshed s1 s3 C (λ x y, P x y ∨ Q x y).
Proof.
  intros Hdec H1 H2. destruct (refreshed_geometry _ _ _ _ H1) as (_ & Hw & Hh & _).
  destruct H1 as [Hs Hc Hl Hsh Ho], H2 as [Hs2 Hc2 Hl2 Hsh2 Ho2]. rewrite Hw, Hh in *. constructor.
  - by eapply screen_trans.
  - done.
  - congruence.
  - intros x y Hx Hy HPQ. destruct (decide (Q x y)); [by apply Hsh2|]. apply Ho2; [done..|].
    apply Hsh; tauto.
  - intros x y c Hx Hy HPQ Hc1. apply Ho2, Ho; tauto.
Qed.

(** One pixel is written. *)
Lemma write_pixel_ok s x y v C : screen_ok s → 0 ≤ x < s_width s → 0 ≤ y < s_height s →
  native_is (fb_update_ptr s) (s_colorinfo s) (C x y) v →
  wp (write_screen (pixel_place s x y) (le_bytes (pixel_bytes (fb_update_ptr s)) v)) s
    (λ _ s', refreshed s s' C (λ x' y', x' = x ∧ y' = y)).
Proof.
  intros Hs Hx Hy Hv. destruct (place_on_screen s x y Hs Hx Hy) as [H0 Hlen].
  unfold write_screen. apply wp_bind, wp_gets_fb.
  destruct (mem_write (s_fbbase s) (pixel_place s x y) (le_bytes (pixel_bytes (fb_update_ptr s)) v)) as [m|] eqn:Hmw.
  2:{ rewrite mem_write_ok in Hmw; [done|done|]. by rewrite length_le_bytes. }
  apply wp_bind, (wp_lift _ m); [done|]. eexists _, _. split; [done|].
  destruct (mem_write_read _ _ _ _ Hmw) as [Hr Hl]. rewrite length_le_bytes in Hr.
  constructor.
  - by destruct s.
  - exact (so_cache s Hs).
  - done.
  - intros x' y' _ _ [-> ->]. by exists v.
  - intros x' y' c Hx' Hy' Hne (v' & Hv' & Hr'). exists v'. split; [done|]. etrans; [|exact Hr'].
    apply (mem_write_read_other _ _ _ _ _ _ Hmw). rewrite length_le_bytes.
    destruct (places_apart s x y x' y' Hs ltac:(lia) Hx Hx'); [lia|right; done|left; done].
Qed.

(** A line, from column [x] on. *)
Lemma update_line_ok k : ∀ x y s C last, screen_ok s → holds s C → last_ok s last →
  (∀ x y, 0 ≤ x < s_width s → 0 ≤ y < s_height s → 0 ≤ C x y) →
  0 ≤ x → Z.of_nat k = s_width s - x → 0 ≤ y < s_height s →
  wp (update_line (fb_update_ptr s) (seqZ x (Z.of_nat k)) (line_offset (fb_update_ptr s) (s_fbpitch s) y) (y * s_width s + x) last) s
    (λ r s', r.1 = (y + 1) * s_width s ∧ last_ok s' r.2 ∧ refreshed s s' C (λ x' y', x ≤ x' ∧ y' = y)).
Proof.
  induction k as [|k IH]; intros x y s C last Hs Hh Hlast HC Hx Hk Hy.
  - apply wp_ret. cbn [fst snd]. split; [lia|]. split; [done|].
    eapply refreshed_weaken; [by apply refreshed_refl|]. intros x' y' Hx' Hy'. cbv beta. lia.
  - rewrite Nat2Z.inj_succ, seqZ_cons by lia. cbn [update_line].
    replace (Z.pred (Z.succ (Z.of_nat k))) with (Z.of_nat k) by lia. rewrite <- Z.add_1_r.
    pose proof Hh as [_ _ (b & Hb & Hlb & Hpix)].
    apply wp_bind. exists b, s. split; [unfold backbuffer; by rewrite Hb|].
    apply wp_bind, (wp_lift _ (C x y)).
    { apply rd_ok; [nia|]. apply Hpix; lia. }
    apply wp_bind. eapply wp_mono; [apply (cached_color_ok (C x y) last s); [apply Hs|apply Hs|done|apply HC; lia]|].
    intros last' s1 (Hl1 & Hl2 & Hsame & Hbase & Hcache).
    assert (refreshed s s1 C (λ _ _, False)) as Hr1.
    { constructor; [done|done|by rewrite Hbase|done|]. intros x' y' c _ _ _ (v & Hv & Hm). exists v.
      unfold pixel_place. rewrite Hbase. by rewrite Hsame. }
    destruct (refreshed_geometry _ _ _ _ Hr1) as (Hf & Hw & Hht & Hp & Hi & Hbb).
    pose proof (refreshed_screen_ok _ _ _ _ Hs Hr1) as Hs1.
    apply wp_bind. rewrite <- Hf, <- Hp.
    eapply wp_mono; [apply (write_pixel_ok s1 x y last'.2 C Hs1); rewrite ?Hw, ?Hht, ?Hf, ?Hi; (lia || done)|].
    intros [] s2 Hr2. destruct (refreshed_geometry _ _ _ _ Hr2) as (Hf2 & Hw2 & Hht2 & Hp2 & Hi2 & Hbb2).
    rewrite <- Hf2, <- Hp2, <- Hw, <- Hw2, <- Z.add_assoc.
    eapply wp_mono; [apply (IH (x + 1) y s2 C last')|].
    + by eapply refreshed_screen_ok.
    + eapply refreshed_holds; [done|]. by eapply refreshed_holds.
    + right. rewrite Hf2, Hf, Hi2, Hi, Hl1. done.
    + rewrite Hw2, Hw, Hht2, Hht. exact HC.
    + lia.
    + lia.
    + lia.
    + intros r s3 (Hr & Hl3 & Hr3). split; [done|]. split; [done|].
      pose proof (refreshed_trans _ _ _ _ _ _ _ Hr1 (refreshed_trans _ _ _ _ _ _ _ Hr2 Hr3)) as Hall.
      eapply refreshed_weaken; [exact Hall|]. intros x' y' _ _. cbv beta. lia.
Qed.

Lemma update_lines_ok k : ∀ y s C last, screen_ok s → holds s C → last_ok s last →
  (∀ x y, 0 ≤ x < s_width s → 0 ≤ y < s_height s → 0 ≤ C x y) →
  0 ≤ y → y + Z.of_nat k ≤ s_height s →
  wp (update_lines (fb_update_ptr s) (seqZ y (Z.of_nat k)) (y * s_width s) last) s
    (λ _ s', refreshed s s' C (λ _ y', y ≤ y' < y + Z.of_nat k)).
Proof.
  induction k as [|k IH]; intros y s C last Hs Hh Hlast HC Hy Hk.
  - apply wp_ret. eapply refreshed_weaken; [by apply refreshed_refl|]. intros x' y' _ _. cbv beta. lia.
  - rewrite Nat2Z.inj_succ, seqZ_cons by lia. cbn [update_lines].
    replace (Z.pred (Z.succ (Z.of_nat k))) with (Z.of_nat k) by lia. rewrite <- Z.add_1_r.
    apply wp_bind, wp_gets_fb. apply wp_bind, wp_gets_fb. apply wp_bind.
    pose proof (holds_width _ _ Hh) as Hw0.
    pose proof (update_line_ok (Z.to_nat (s_width s)) 0 y s C last Hs Hh Hlast HC ltac:(lia) ltac:(lia) ltac:(lia)) as Hline.
    rewrite Z2Nat.id, Z.add_0_r in Hline by lia. pose proof (so_mode s Hs) as Hm.
    eapply wp_mono with (P := λ r s', r.1 = (y + 1) * s_width s ∧ last_ok s' r.2 ∧ refreshed s s' C (λ x' y', 0 ≤ x' ∧ y' = y)).
    { destruct (fb_update_ptr s); done. }
    intros [src last'] s1 (Hsrc & Hl1 & Hr1). cbn [fst snd] in *. subst src.
    destruct (refreshed_geometry _ _ _ _ Hr1) as (Hf & Hw & Hht & Hp & Hi & Hbb).
    rewrite <- Hf, <- Hw.
    eapply wp_mono; [apply (IH (y + 1) s1 C last')|].
    + by eapply refreshed_screen_ok.
    + by eapply refreshed_holds.
    + done.
    + by rewrite Hw, Hht.
    + lia.
    + lia.
    + intros [] s2 Hr2. pose proof (refreshed_trans _ _ _ _ _ _ _ Hr1 Hr2) as Hall.
      eapply refreshed_weaken; [exact Hall|]. intros x' y' Hx' Hy'. cbv beta. lia.
Qed.

(** ** The picture and the screen *)

(** The video mode and the size of the screen are the same. *)
Definition same_geometry (s s' : fb) : Prop :=
  s_width s' = s_width s ∧ s_height s' = s_height s ∧ s_fbpitch s' = s_fbpitch s ∧
  fb_update_ptr s' = fb_update_ptr s ∧ s_colorinfo s' = s_colorinfo s.

Lemma same_geometry_trans s1 s2 s3 : same_geometry s1 s2 → same_geometry s2 s3 → same_geometry s1 s3.
Proof. unfold same_geometry. intuition congruence. Qed.

(** Nothing of the back buffer is waiting for an update. *)
Definition undamaged (s : fb) : Prop := s_damage_first_y s = -1 ∧ s_damage_last_y s = -1.

Definition damaged (s : fb) (y : Z) : Prop := s_damage_first_y s ≤ y ≤ s_damage_last_y s.

(** The back buffer holds the picture, and the screen shows it on the lines [V]
    outside of the damaged ones. *)
Record displays_on (V : Z → Prop) (s : fb) (C : canvas) : Prop := Displays {
  dp_holds : holds s C;
  dp_screen : screen_ok s;
  dp_colors : ∀ x y, 0 ≤ x < s_width s → 0 ≤ y < s_height s → 0 ≤ C x y;
  dp_damage : s_damage_first_y s = -1 ∧ s_damage_last_y s = -1 ∨
    0 ≤ s_damage_first_y s ≤ s_damage_last_y s ∧ s_damage_last_y s < s_height s;
  dp_shown : ∀ x y, 0 ≤ x < s_width s → 0 ≤ y < s_height s → V y → ¬ damaged s y → shown s x y (C x y);
}.
Arguments dp_holds {V s C}. Arguments dp_screen {V s C}. Arguments dp_colors {V s C}. Arguments dp_damage {V s C}. Arguments dp_shown {V s C}.
Abbreviation displays := (displays_on (λ _, True)).

Lemma displays_lines V V' s C : displays_on V s C → (∀ y, V' y → V y) → displays_on V' s C.
Proof. intros [? ? ? ? Hsh] HV. constructor; [done..|]. intros x y Hx Hy Hv. apply Hsh; [done..|by apply HV]. Qed.

Lemma fb_update_ok V s C : displays_on V s C → wp fb_update s (λ _ s', displays_on (λ y, V y ∨ damaged s y) s' C ∧ same_geometry s s' ∧ undamaged s' ∧
  ∀ x y, 0 ≤ x < s_width s → 0 ≤ y < s_height s → V y ∨ damaged s y → shown s' x y (C x y)).
Proof.
  intros [Hh Hs Hc Hd Hsh]. pose proof Hh as [_ _ (b & Hb & _)]. pose proof (so_mode s Hs) as Hm.
  unfold fb_update. apply wp_bind, wp_gets_fb. apply wp_bind, wp_gets_fb. apply wp_bind, wp_gets_fb. apply wp_bind, wp_gets_fb.
  rewrite Hb.
  set (body := if s_damage_first_y s <? 0 then mret tt else _).
  assert (wp body s (λ _ s', displays_on (λ y, V y ∨ damaged s y) s' C ∧ same_geometry s s' ∧ undamaged s' ∧
    ∀ x y, 0 ≤ x < s_width s → 0 ≤ y < s_height s → V y ∨ damaged s y → shown s' x y (C x y))) as Hbody.
  2:{ subst body. destruct (fb_update_ptr s); done. }
  subst body. destruct (Z.ltb_spec (s_damage_first_y s) 0).
  - assert (∀ y, 0 ≤ y → ¬ damaged s y) as Hno by (unfold damaged; intros; lia).
    apply wp_ret. split; [|split; [done|split; [destruct Hd; [done|lia]|]]].
    + constructor; [done..|]. intros x y Hx Hy [Hv|Hv] Hnd; [by apply Hsh|done].
    + intros x y Hx Hy [Hv|Hv]; [apply Hsh; [done..|apply Hno; lia]|]. exfalso. by apply (Hno y); [lia|].
  - destruct Hd as [|Hd]; [lia|]. apply wp_bind, wp_gets_fb. apply wp_bind.
    eapply wp_mono.
    { rewrite <- (Z2Nat.id (s_damage_last_y s - s_damage_first_y s + 1)) by lia.
      apply (update_lines_ok _ _ s C (-1, -1)); [done|done|by left|done|lia|lia]. }
    intros [] s1 Hr. destruct (refreshed_geometry _ _ _ _ Hr) as (Hf & Hw & Hht & Hp & Hi & Hbb).
    assert (∀ x y, 0 ≤ x < s_width s → 0 ≤ y < s_height s → V y ∨ damaged s y → shown s1 x y (C x y)) as Hall.
    { intros x y Hx Hy Hv. destruct (decide (s_damage_first_y s ≤ y ≤ s_damage_last_y s)).
      - apply (rf_shown _ _ _ _ Hr); [done..|]. cbv beta. lia.
      - apply (rf_other _ _ _ _ Hr); [done..|cbv beta; lia|]. destruct Hv as [Hv|Hv]; [by apply Hsh|done]. }
    eexists _, _. split; [done|]. split; [|by split_and!]. constructor.
    + destruct (refreshed_holds _ _ _ _ _ Hr Hh) as [? ? ?]. by constructor.
    + destruct (refreshed_screen_ok _ _ _ _ Hs Hr) as [? ? ? ?]. by constructor.
    + cbn. by rewrite Hw, Hht.
    + by left.
    + cbn. rewrite Hw, Hht. intros x y Hx Hy Hv _. by apply Hall.
Qed.

Lemma fb_update_displays s C : displays s C → wp fb_update s (λ _ s', displays s' C ∧ same_geometry s s' ∧ undamaged s').
Proof.
  intros Hd. eapply wp_mono; [by apply (fb_update_ok (λ _, True))|]. intros [] s' (Hd' & Hg & Hu & _).
  split; [|done]. eapply displays_lines; [exact Hd'|]. intros y _. by left.
Qed.

(** ** Drawing calls *)

Lemma include_damage_ok lo hi V s C C' s1 : displays_on V s C → same_but_buffer s s1 → holds s1 C' →
  0 ≤ lo ≤ hi → hi < s_height s →
  (∀ x y, 0 ≤ x < s_width s → 0 ≤ y < s_height s → 0 ≤ C' x y) →
  (∀ x y, 0 ≤ x < s_width s → 0 ≤ y < s_height s → y < lo ∨ hi < y → C' x y = C x y) →
  wp (include_damage lo hi) s1 (λ _ s', (displays_on (λ y, V y ∨ lo ≤ y ≤ hi) s' C' ∧ same_geometry s s') ∧
    s_damage_first_y s' = (if s_damage_first_y s =? -1 then lo else Z.min lo (s_damage_first_y s)) ∧
    s_damage_last_y s' = Z.max hi (s_damage_last_y s)).
Proof.
  intros [Hh Hs Hc Hd Hsh] Hsame Hh1 Hlo Hhi HC' Hsamepix. eexists _, _. split; [done|].
  set (s2 := if _ || _ then with_damage (s_damage_first_y _) hi _ else _).
  assert (s2 = with_damage (s_damage_first_y s2) (s_damage_last_y s2) s1) as Heq.
  { subst s2. destruct s1. repeat case_match; done. }
  assert (s_damage_first_y s2 = (if s_damage_first_y s =? -1 then lo else Z.min lo (s_damage_first_y s)) ∧
    s_damage_last_y s2 = Z.max hi (s_damage_last_y s)) as [H1 H2].
  { subst s2. rewrite Hsame. unfold with_backbuffer. cbn [s_damage_first_y s_damage_last_y].
    destruct (Z.eqb_spec (s_damage_first_y s) (-1)), (Z.ltb_spec lo (s_damage_first_y s)); cbn -[Z.ltb Z.eqb];
    destruct (Z.eqb_spec (s_damage_last_y s) (-1)), (Z.ltb_spec (s_damage_last_y s) hi); cbn; lia. }
  assert (same_geometry s s2) as Hgeo by (by rewrite Heq, Hsame). pose proof Hgeo as (Hw & Hht & _).
  split; [split; [clear Hgeo|exact Hgeo]|done]. rewrite Heq in *. clear Heq. set (first := s_damage_first_y s2) in *. set (last := s_damage_last_y s2) in *.
  clearbody first last. clear s2. cbn in H1, H2, Hw, Hht. rewrite Hsame in *. constructor.
  - destruct Hh1 as [? ? ?]. by constructor.
  - destruct Hs as [? ? ? ?]. by constructor.
  - done.
  - right. cbn. destruct (Z.eqb_spec (s_damage_first_y s) (-1)); lia.
  - cbn. unfold damaged. cbn. intros x y Hx Hy Hv Hnd. rewrite Hsamepix.
    + destruct Hv as [Hv|Hv]; [apply Hsh; [done..|]; unfold damaged|exfalso]; destruct (Z.eqb_spec (s_damage_first_y s) (-1)); lia.
    + done.
    + done.
    + destruct (Z.eqb_spec (s_damage_first_y s) (-1)); lia.
Qed.

Inductive draw_call :=
  | DrawPixel (x y color : Z)
  | DrawImage (image : list Z) (width height pixels_per_line destx desty : Z)
  | DrawRect (width height destx desty color : Z)
  | DrawText (text : list Z) (destx desty color : Z)
  | Update.

Section Calls.
Variables (font : list Z) (p : psf).

Definition run (c : draw_call) : M fb unit :=
  match c with
  | DrawPixel x y color => fb_draw_pixel x y color
  | DrawImage image width height ppl destx desty => fb_draw_image image width height ppl destx desty
  | DrawRect width height destx desty color => fb_draw_rect width height destx desty color
  | DrawText text destx desty color => fb_draw_text font p text destx desty color
  | Update => fb_update
  end.

(** What a call means. *)
Definition paint (C : canvas) (c : draw_call) : canvas :=
  match c with
  | DrawPixel x y color => paint_pixel x y color C
  | DrawImage image width height ppl destx desty => paint_image image width height ppl destx desty C
  | DrawRect width height destx desty color => paint_rect width height destx desty color C
  | DrawText text destx desty color => paint_text font p text destx desty color C
  | Update => C
  end.

(** The lines that a call draws on. *)
Definition draws_line (c : draw_call) (y : Z) : Prop :=
  match c with
  | DrawPixel _ y0 _ => y = y0
  | DrawImage _ _ height _ _ desty | DrawRect _ height _ desty _ => desty ≤ y < desty + height
  | DrawText _ _ desty _ => desty ≤ y < desty + s_fontheight p
  | Update => False
  end.

(** The calls that stay inside of a screen. *)
Definition in_bounds (w h : Z) (c : draw_call) : Prop :=
  match c with
  | DrawPixel x y color => 0 ≤ x < w ∧ 0 ≤ y < h ∧ 0 ≤ color
  | DrawImage image width height ppl destx desty =>
      0 ≤ width ∧ 0 < height ∧ 0 ≤ ppl ∧ 0 ≤ destx ∧ destx + width ≤ w ∧ 0 ≤ desty ∧ desty + height ≤ h ∧
      (height - 1) * ppl + width ≤ Z.of_nat (length image) ∧ Forall (λ c, 0 ≤ c) image
  | DrawRect width height destx desty color =>
      0 ≤ width ∧ 0 < height ∧ 0 ≤ destx ∧ destx + width ≤ w ∧ 0 ≤ desty ∧ desty + height ≤ h ∧ 0 ≤ color
  | DrawText text destx desty color =>
      Forall (λ chr, ∃ g, glyph_at font p chr g) text ∧ 0 ≤ destx ∧
      destx + Z.of_nat (length text) * s_fontwidth p ≤ w ∧ 0 ≤ desty ∧ desty + s_fontheight p ≤ h ∧ 0 ≤ color
  | Update => True
  end.

Lemma baseoffset_eq s C x y : holds s C → 0 ≤ x ≤ s_width s → 0 ≤ y < s_height s →
  u32 (s32 (y * s_width s) + x) = y * s_width s + x.
Proof using.
  intros [Hw Hh _] Hx Hy. rewrite s32_small by nia. apply u32_small. nia.
Qed.

Lemma wp_draw m lo hi V (L : Z → Prop) s C C' : displays_on V s C → (∀ y, L y → lo ≤ y ≤ hi) → wp m s (paints C' s) → 0 ≤ lo ≤ hi → hi < s_height s →
  (∀ x y, 0 ≤ x < s_width s → 0 ≤ y < s_height s → 0 ≤ C' x y) →
  (∀ x y, 0 ≤ x < s_width s → 0 ≤ y < s_height s → y < lo ∨ hi < y → C' x y = C x y) →
  wp (_ ← m; include_damage lo hi) s (λ _ s', displays_on (λ y, V y ∨ L y) s' C' ∧ same_geometry s s').
Proof using.
  intros Hd HL Hm Hlo Hhi HC' Heq. apply wp_bind. eapply wp_mono; [exact Hm|]. intros [] s1 [Hsame Hh1].
  eapply wp_mono; [by apply (include_damage_ok lo hi V s C)|]. intros [] s' [[Hd' Hg] _].
  split; [|done]. eapply displays_lines; [exact Hd'|]. intros y [|?%HL]; tauto.
Qed.

Lemma paint_text_outside text x0 y0 color C x y : y < y0 ∨ y0 + s_fontheight p ≤ y →
  paint_text font p text x0 y0 color C x y = C x y.
Proof using.
  intros Hy. revert x0 C. induction text as [|chr text IH]; intros x0 C; [done|]. cbn. rewrite IH.
  unfold paint_glyph, in_rect. zcase; cbn; done || lia.
Qed.

Lemma paint_text_color text x0 y0 color C x y : 0 ≤ color → 0 ≤ C x y → 0 ≤ paint_text font p text x0 y0 color C x y.
Proof using.
  intros Hc. revert x0 C. induction text as [|chr text IH]; intros x0 C HC; [done|]. cbn. apply IH.
  unfold paint_glyph. by case_match.
Qed.

(** What is drawn on is damaged, and an update keeps no line from being shown. *)
Lemma draw_call_ok c V s C : narrow_font font p → displays_on V s C → in_bounds (s_width s) (s_height s) c →
  wp (run c) s (λ _ s', displays_on (λ y, (V y ∨ damaged s y) ∨ draws_line c y) s' (paint C c) ∧ same_geometry s s').
Proof using.
  intros Hfont Hd0 Hc. assert (displays_on (λ y, V y ∨ damaged s y) s C) as Hd.
  { destruct Hd0 as [? ? ? ? Hsh]. constructor; [done..|]. intros x y Hx Hy [Hv|Hv] Hnd; [by apply Hsh|done]. }
  pose proof (dp_holds Hd) as Hh. pose proof (dp_colors Hd) as Hcol.
  destruct c as [x y color|image width height ppl x0 y0|width height x0 y0 color|text x0 y0 color|]; cbn [run paint in_bounds draws_line] in *.
  - destruct Hc as (Hx & Hy & Hc). unfold fb_draw_pixel. apply wp_bind, wp_gets_fb.
    destruct (holds_pixels _ _ Hh) as (b & -> & _). apply wp_bind, wp_gets_fb.
    apply (wp_draw _ y y _ _ s C); [done|lia| |lia|lia|..].
    + apply put_pixel_ok; try done. by apply (baseoffset_eq _ C); [|lia|].
    + intros x' y' Hx' Hy'. unfold paint_pixel. case_match; [done|by apply Hcol].
    + intros x' y' _ _ Hy'. unfold paint_pixel. zcase; cbn; done || lia.
  - destruct Hc as (Hwd & Hht & Hppl & Hx & Hxw & Hy & Hyh & Himg & Hpos). unfold fb_draw_image. apply wp_bind, wp_gets_fb.
    cbv zeta. rewrite (baseoffset_eq _ C) by (done || lia). apply (wp_draw _ y0 (y0 + height - 1) _ _ s C); [done|lia| |lia|lia|..].
    + apply fb_draw_image_pixels; done || lia.
    + intros x' y' Hx' Hy'. unfold paint_image, image_pixel. case_match; [|by apply Hcol].
      destruct (image !! _) as [v|] eqn:Hv; [|done]. by apply (Forall_lookup_1 _ _ _ _ Hpos Hv).
    + intros x' y' _ _ Hy'. unfold paint_image, in_rect. zcase; cbn; done || lia.
  - destruct Hc as (Hwd & Hht & Hx & Hxw & Hy & Hyh & Hc). unfold fb_draw_rect. apply wp_bind, wp_gets_fb.
    cbv zeta. rewrite (baseoffset_eq _ C) by (done || lia). apply (wp_draw _ y0 (y0 + height - 1) _ _ s C); [done|lia| |lia|lia|..].
    + apply fb_draw_rect_pixels; done || lia.
    + intros x' y' Hx' Hy'. unfold paint_rect. case_match; [done|by apply Hcol].
    + intros x' y' _ _ Hy'. unfold paint_rect, in_rect. zcase; cbn; done || lia.
  - destruct Hc as (Ht & Hx & Hxw & Hy & Hyh & Hc). pose proof (narrow_width _ _ Hfont). pose proof (narrow_height _ _ Hfont).
    unfold fb_draw_text. apply wp_bind, wp_gets_fb. cbv zeta. rewrite (baseoffset_eq _ C) by (done || nia).
    unfold psf_getheight. apply (wp_draw _ y0 (y0 + s_fontheight p - 1) _ _ s C); [done|lia| |lia|lia|..].
    + apply draw_chars_ok; done || lia.
    + intros x' y' Hx' Hy'. by apply paint_text_color, Hcol.
    + intros x' y' _ _ Hy'. apply paint_text_outside. lia.
  - eapply wp_mono; [by apply (fb_update_ok V)|]. intros [] s' (Hd' & Hgeo & _). split; [|done].
    eapply displays_lines; [exact Hd'|]. cbv beta. tauto.
Qed.

(** On a screen that is in order everywhere. *)
Lemma draw_call_displays c s C : narrow_font font p → displays s C → in_bounds (s_width s) (s_height s) c →
  wp (run c) s (λ _ s', displays s' (paint C c) ∧ same_geometry s s').
Proof using.
  intros Hfont Hd Hc. eapply wp_mono; [by apply (draw_call_ok c (λ _, True) s C)|]. intros [] s' [Hd' Hg].
  split; [|done]. eapply displays_lines; [exact Hd'|]. intros y _. by left; left.
Qed.

(** What was drawn on is either damaged or in order. *)
Lemma run_all_ok cs : ∀ V s C, narrow_font font p → displays_on V s C → Forall (in_bounds (s_width s) (s_height s)) cs →
  wp (for_ cs run) s (λ _ s', displays_on (λ y, (V y ∨ damaged s y) ∨ Exists (λ c, draws_line c y) cs) s' (foldl paint C cs) ∧ same_geometry s s').
Proof using.
  induction cs as [|c cs IH]; intros V s C Hfont Hd Hcs.
  { apply wp_ret. split; [|done]. destruct Hd as [? ? ? ? Hsh]. constructor; [done..|].
    intros x y Hx Hy [[Hv|Hv]|Hv%Exists_nil] Hnd; [by apply Hsh|done|done]. }
  apply Forall_cons in Hcs as [Hc Hcs]. cbn [for_ foldl]. apply wp_bind.
  eapply wp_mono; [by apply (draw_call_ok c V s C)|]. intros [] s1 [Hd1 Hgeo].
  eapply wp_mono; [apply (IH _ s1 _ Hfont Hd1); by destruct Hgeo as (-> & -> & _)|].
  intros [] s2 [Hd2 Hgeo2]. split; [|by eapply same_geometry_trans]. eapply displays_lines; [exact Hd2|].
  intros y. cbv beta. rewrite Exists_cons. tauto.
Qed.
End Calls.

(** The state that [fb_init_rgb] and [fb_init_indexed] leave: the back buffer and
    the screen hold anything, and nothing is damaged. *)
Record fresh_screen (s : fb) : Prop := FreshScreen {
  fr_width : 0 < s_width s < 2 ^ 15;
  fr_height : 0 < s_height s < 2 ^ 15;
  fr_buffer : ∃ b, s_backbuffer s = Some b ∧ Z.of_nat (length b) = s_width s * s_height s ∧ Forall (λ c, 0 ≤ c) b;
  fr_screen : screen_ok s;
  fr_damage : undamaged s;
}.

(** The picture that is in the back buffer. *)
Definition picture_of (s : fb) : canvas := λ x y, default 0 (default [] (s_backbuffer s) !! Z.to_nat (y * s_width s + x)).

Lemma fresh_screen_displays s : fresh_screen s → displays_on (λ _, False) s (picture_of s).
Proof.
  intros [Hw Hh (b & Hb & Hl & Hpos) Hs Hd]. assert (∀ x y, 0 ≤ x < s_width s → 0 ≤ y < s_height s →
    b !! Z.to_nat (y * s_width s + x) = Some (picture_of s x y)) as Hpix.
  { intros x y Hx Hy. unfold picture_of. rewrite Hb. cbn.
    destruct (lookup_lt_is_Some_2 b (Z.to_nat (y * s_width s + x))) as [c Hc]; [nia|]. by rewrite Hc. }
  constructor; [constructor; [done..|by exists b]|done| |by left|done].
  intros x y Hx Hy. by apply (Forall_lookup_1 _ _ _ _ Hpos (Hpix x y Hx Hy)).
Qed.

(** A screen that is damaged as a whole displays any picture. *)
Lemma displays_damaged s C : holds s C → screen_ok s →
  (∀ x y, 0 ≤ x < s_width s → 0 ≤ y < s_height s → 0 ≤ C x y) →
  s_damage_first_y s = 0 → s_damage_last_y s = s_height s - 1 → displays s C.
Proof.
  intros Hh Hs Hc H1 H2. pose proof (holds_height _ _ Hh). constructor; [done..|lia|].
  intros x y Hx Hy _ Hd. exfalso. apply Hd. unfold damaged. lia.
Qed.

(** C23: The screen shows the picture: after any sequence of drawing calls inside of
    the screen and a last update, with other updates in between or not, every
    pixel of a line that was drawn on, or was in order or waiting for an update
    before, has the value that the video mode gives to the colour that the calls
    painted there: the highest bits of its red, green and blue in their fields, or
    the first colour of the palette that is nearest in brightness. No call fails,
    or writes outside of the back buffer or of the screen. It starts with any
    contents of the back buffer and of the screen, as after [fb_init_rgb] and
    [fb_init_indexed] ([fresh_screen_displays]). Text is in a font of at most
    eight columns, and video modes of one bit are left out. *)
Theorem fb_screen_shows_picture (font : list Z) (p : psf) (cs : list draw_call) (V : Z → Prop) (s : fb) (C : canvas) :
  narrow_font font p → displays_on V s C → Forall (in_bounds font p (s_width s) (s_height s)) cs →
  ∃ s', (_ ← for_ cs (run font p); fb_update) s = Ok (tt, s') ∧
    ∀ x y, 0 ≤ x < s_width s → 0 ≤ y < s_height s → V y ∨ damaged s y ∨ Exists (λ c, draws_line p c y) cs →
      shown s' x y (foldl (paint font p) C cs x y).
Proof.
  intros Hfont Hd Hcs. destruct (run_all_ok font p cs V s C Hfont Hd Hcs) as ([] & s1 & H1 & Hd1 & Hw & Hh & _).
  destruct (fb_update_ok _ s1 _ Hd1) as ([] & s2 & H2 & _ & _ & _ & Hsh).
  exists s2. split; [by rewrite (M_bind_step _ _ _ _ _ H1)|]. rewrite <- Hw, <- Hh.
  intros x y Hx Hy Hv. apply Hsh; [done..|tauto].
Qed.

(** A screen of 16 by 2 pixels with 24 bits for each, as it is after its
    initialisation, and a text of two characters in the middle of it; and one of
    two pixels with a palette of three colours. *)
Definition small_screen : fb :=
  Fb 16 2 (-1) (-1) (Some (replicate 32 0x1234)) (Rgb 16 8 0 8 8 8) (replicate 96 0xaa) 48 (-1) (-1) update24.
Definition palette_screen : fb :=
  Fb 2 1 (-1) (-1) (Some [5; 6]) (Indexed [255; 255; 255; 0; 0; 0; 250; 0; 0] 3) [7; 7; 7; 7] 4 (-1) (-1) update8.
Definition small_font : psf := font_of two_glyphs.
Definition small_calls : list draw_call :=
  [DrawRect 16 2 0 0 black; DrawText [65; 66] 0 0 white; Update; DrawPixel 15 1 (make_color 255 16 0)].
Definition palette_calls : list draw_call := [DrawPixel 0 0 0x7c00; DrawPixel 1 0 0x7fff].

Lemma small_font_narrow : narrow_font (file_bytes two_glyphs) small_font.
Proof. constructor; [cbn; lia..|]. apply (bool_decide_unpack _). vm_compute. exact I. Qed.

Lemma small_screen_fresh : fresh_screen small_screen.
Proof.
  constructor; [cbn; lia..| |constructor; cbn; (done || lia)|done]. exists (replicate 32 0x1234).
  split; [done|]. split; [done|]. apply Forall_replicate. lia.
Qed.

Lemma palette_screen_fresh : fresh_screen palette_screen.
Proof.
  constructor; [cbn; lia..| |constructor; cbn; try (done || lia)|done].
  - exists [5; 6]. split; [done|]. split; [done|]. repeat constructor; lia.
  - split; [lia|]. split; [lia|]. repeat constructor; unfold is_u8; lia.
Qed.

Lemma fb_screen_shows_picture_witness : (∃ s',
  (_ ← for_ small_calls (run (file_bytes two_glyphs) small_font); fb_update) small_screen = Ok (tt, s') ∧
  shown s' 3 0 (foldl (paint (file_bytes two_glyphs) small_font) (picture_of small_screen) small_calls 3 0) ∧
  mem_read (s_fbbase s') 9 6 = Ok [255; 255; 255; 255; 255; 255] ∧ mem_read (s_fbbase s') 93 3 = Ok [0; 16; 255]) ∧
  ∃ s', (_ ← for_ palette_calls (run (file_bytes two_glyphs) small_font); fb_update) palette_screen = Ok (tt, s') ∧
  shown s' 0 0 0x7c00 ∧ s_fbbase s' = [2; 0; 7; 7].
Proof.
  split.
  - assert (Forall (in_bounds (file_bytes two_glyphs) small_font (s_width small_screen) (s_height small_screen)) small_calls) as Hb.
    { repeat constructor; try (cbn; lia); try (vm_compute; discriminate).
      - exists 32. split; [vm_compute; reflexivity|]. vm_compute. split; discriminate.
      - exists 32. split; [vm_compute; reflexivity|]. vm_compute. split; discriminate. }
    destruct (fb_screen_shows_picture (file_bytes two_glyphs) small_font small_calls (λ _, False) small_screen (picture_of small_screen)
      small_font_narrow (fresh_screen_displays _ small_screen_fresh) Hb) as (s' & Hrun & Hshown).
    exists s'. split; [exact Hrun|]. split.
    + apply Hshown; [cbn; lia|cbn; lia|]. right. right. apply Exists_cons_hd. cbn. lia.
    + vm_compute in Hrun. injection Hrun as <-. split; reflexivity.
  - assert (Forall (in_bounds (file_bytes two_glyphs) small_font (s_width palette_screen) (s_height palette_screen)) palette_calls) as Hb.
    { repeat constructor; try (cbn; lia); try (vm_compute; discriminate). }
    destruct (fb_screen_shows_picture (file_bytes two_glyphs) small_font palette_calls (λ _, False) palette_screen (picture_of palette_screen)
      small_font_narrow (fresh_screen_displays _ palette_screen_fresh) Hb) as (s' & Hrun & Hshown).
    exists s'. split; [exact Hrun|]. split.
    + apply (Hshown 0 0); [cbn; lia|cbn; lia|]. right. right. apply Exists_cons_hd. done.
    + vm_compute in Hrun. injection Hrun as <-. reflexivity.
Defined.
