(* ===== verification/FbScroll.v ===== *)
(** Scrolling: the screen and the back buffer move up together. *)
From S2P Require Import Prelude MiscMath HeapIface StrUtil Psf PsfCorrect Fb FbDraw FbCorrect.

(** The lines of the screen and of the back buffer consist of whole words. *)
Definition whole_words (s : fb) : Prop := s_fbpitch s mod 4 = 0 ∧ s_width s mod 2 = 0 ∧ 0 ≤ s_fbpitch s.

(** Either nothing is waiting for an update, or everything is: what is damaged
    does not move when the lines do. *)
Definition settled (s : fb) : Prop := undamaged s ∨ s_damage_first_y s = 0 ∧ s_damage_last_y s = s_height s - 1.

Definition scrolled (k h : Z) (C : canvas) : canvas := λ x y, if y <? h - k then C x (y + k) else C x y.

(** ** The screen *)

Section Screen.
Variables (s0 : fb) (C : canvas) (k : Z).
Hypothesis Hs0 : screen_ok s0.
Hypothesis Hwords : whole_words s0.
Hypothesis Hk : 0 < k ≤ s_height s0.

Lemma place_line x y : 0 ≤ y → pixel_place s0 x y = y * s_fbpitch s0 + Z.of_nat (pixel_bytes (fb_update_ptr s0)) * x.
Proof using Hwords.
  clear Hk. intros Hy. unfold pixel_place, line_offset. destruct Hwords as (Hp & _ & _). f_equal.
  assert (line_unit (fb_update_ptr s0) = 1 ∨ line_unit (fb_update_ptr s0) = 2 ∨ line_unit (fb_update_ptr s0) = 4) as [->|[->| ->]].
  { destruct (fb_update_ptr s0); cbn; tauto. }
  - rewrite Z.div_1_r. lia.
  - assert (2 * (s_fbpitch s0 / 2) = s_fbpitch s0) by dlia. nia.
  - assert (4 * (s_fbpitch s0 / 4) = s_fbpitch s0) by dlia. nia.
Qed.

Lemma place_in_line x : 0 ≤ x < s_width s0 →
  0 ≤ Z.of_nat (pixel_bytes (fb_update_ptr s0)) * x ∧
  Z.of_nat (pixel_bytes (fb_update_ptr s0)) * x + Z.of_nat (pixel_bytes (fb_update_ptr s0)) ≤ s_fbpitch s0.
Proof using Hwords Hs0.
  clear Hk.
  intros Hx. pose proof (so_pitch s0 Hs0) as Hp. pose proof (place_line 0 1 ltac:(lia)) as Hl.
  unfold pixel_place, line_offset in Hl. nia.
Qed.

Lemma lines_fit : s_fbpitch s0 * s_height s0 ≤ Z.of_nat (length (s_fbbase s0)).
Proof using Hwords Hs0.
  clear Hk.
  pose proof (so_size s0 Hs0) as Hz. pose proof (place_line 0 1 ltac:(lia)) as Hl. unfold pixel_place, line_offset in Hl. nia.
Qed.

(** After the first [j] lines. *)
Record screen_moved (j : Z) (s : fb) : Prop := ScreenMoved {
  sm_same : s = with_screen (s_fbbase s) s0;
  sm_length : length (s_fbbase s) = length (s_fbbase s0);
  sm_bytes i y : 0 ≤ i < s_fbpitch s0 → 0 ≤ y < s_height s0 →
    s_fbbase s !! Z.to_nat (y * s_fbpitch s0 + i) =
    s_fbbase s0 !! Z.to_nat ((if y <? j then y + k else y) * s_fbpitch s0 + i);
}.

Lemma move_screen_ok j s : 0 ≤ j → j + k < s_height s0 → screen_moved j s →
  wp (move_screen (j * s_fbpitch s0) ((j + k) * s_fbpitch s0) (s_fbpitch s0 / 4)) s (λ _, screen_moved (j + 1)).
Proof using Hwords Hs0 Hk.
  intros Hj Hjk [Hsame Hl Hb]. pose proof lines_fit as Hfit. destruct Hwords as (Hp & _ & Hp0).
  assert (4 * (s_fbpitch s0 / 4) = s_fbpitch s0) as E by dlia. unfold move_screen.
  assert (∀ y, 0 ≤ y < s_height s0 → 0 ≤ y * s_fbpitch s0 ∧ y * s_fbpitch s0 + s_fbpitch s0 ≤ Z.of_nat (length (s_fbbase s))) as Hfits.
  { intros y Hy. rewrite Hl. nia. }
  pose proof (Hfits j ltac:(lia)). pose proof (Hfits (j + k) ltac:(lia)).
  destruct (mem_move (s_fbbase s) ((j + k) * s_fbpitch s0) (s_fbpitch s0) (j * s_fbpitch s0)) as (bytes & m' & Hr & Hw & Hl' & Hlook); try lia.
  apply wp_bind, wp_gets_fb. apply wp_bind, (wp_lift _ bytes); [by rewrite E|]. unfold write_screen.
  apply wp_bind, wp_gets_fb. apply wp_bind, (wp_lift _ m'); [done|]. eexists _, _. split; [done|].
  constructor; [by rewrite Hsame|by cbn; congruence|]. cbn [s_fbbase with_screen]. intros i y Hi Hy. rewrite Hlook by nia.
  destruct (Z.leb_spec (j * s_fbpitch s0) (y * s_fbpitch s0 + i)) as [H1|H1],
    (Z.ltb_spec (y * s_fbpitch s0 + i) (j * s_fbpitch s0 + s_fbpitch s0)) as [H2|H2]; cbn [andb].
  - assert (y = j) as -> by nia. replace (_ - _ + _) with ((j + k) * s_fbpitch s0 + i) by lia.
    rewrite Hb by lia. do 2 f_equal. zcase; lia.
  - rewrite Hb by lia. assert (j < y) by nia. do 2 f_equal. zcase; lia.
  - rewrite Hb by lia. assert (y < j) by nia. do 2 f_equal. zcase; lia.
  - exfalso. nia.
Qed.

Lemma moved_shown s x y c : screen_moved (s_height s0 - k) s → 0 ≤ x < s_width s0 → 0 ≤ y < s_height s0 →
  shown s0 x (if y <? s_height s0 - k then y + k else y) c → shown s x y c.
Proof using Hwords Hs0 Hk.
  intros [Hsame Hl Hb] Hx Hy (v & Hv & Hm). pose proof lines_fit as Hfit. destruct (place_in_line x Hx) as [Ho He].
  set (y' := if y <? s_height s0 - k then y + k else y) in *. assert (0 ≤ y' < s_height s0) as Hy' by (subst y'; zcase; lia).
  assert (fb_update_ptr s = fb_update_ptr s0 ∧ s_colorinfo s = s_colorinfo s0 ∧ pixel_place s x y = pixel_place s0 x y)
    as (E1 & E2 & E3) by (by rewrite Hsame).
  exists v. rewrite E1, E2, E3. split; [done|].
  rewrite <- Hm. rewrite !place_line by lia. apply mem_read_ext; [nia..|rewrite Hl; nia|].
  intros i Hi. rewrite <- !Z.add_assoc, Hb by nia. done.
Qed.
End Screen.

(** ** The back buffer *)

Section Buffer.
Variables (s0 : fb) (b0 : list Z) (k : Z).
Hypothesis Hb0 : s_backbuffer s0 = Some b0.
Hypothesis Hl0 : Z.of_nat (length b0) = s_width s0 * s_height s0.
Hypothesis Hwords : whole_words s0.
Hypothesis Hk : 0 < k ≤ s_height s0.
Hypothesis Hw0 : 0 < s_width s0.

Definition buffer_moved (j : Z) (s : fb) : Prop :=
  ∃ b, s = with_backbuffer (Some b) s0 ∧ length b = length b0 ∧
    ∀ x y, 0 ≤ x < s_width s0 → 0 ≤ y < s_height s0 →
      b !! Z.to_nat (y * s_width s0 + x) = b0 !! Z.to_nat ((if y <? j then y + k else y) * s_width s0 + x).

Lemma move_pixels_ok j s : 0 ≤ j → j + k < s_height s0 → buffer_moved j s →
  wp (move_pixels (j * s_width s0) ((j + k) * s_width s0) (s_width s0 * 2 / 4)) s (λ _, buffer_moved (j + 1)).
Proof using Hwords Hl0 Hk Hw0.
  intros Hj Hjk (b & -> & Hl & Hb). destruct Hwords as (_ & Hp & _).
  assert (2 * (s_width s0 * 2 / 4) = s_width s0) as E by dlia. unfold move_pixels.
  assert (∀ y, 0 ≤ y < s_height s0 → 0 ≤ y * s_width s0 ∧ y * s_width s0 + s_width s0 ≤ Z.of_nat (length b)) as Hfits.
  { intros y Hy. rewrite Hl. nia. }
  pose proof (Hfits j ltac:(lia)). pose proof (Hfits (j + k) ltac:(lia)).
  destruct (mem_move b ((j + k) * s_width s0) (s_width s0) (j * s_width s0)) as (bytes & m' & Hr & Hw & Hl' & Hlook); try lia.
  apply wp_bind. exists b, (with_backbuffer (Some b) s0). split; [done|].
  apply wp_bind, (wp_lift _ bytes); [by rewrite E|]. apply wp_bind, (wp_lift _ m'); [done|]. eexists _, _. split; [done|].
  exists m'. split; [done|]. split; [congruence|]. intros x y Hx Hy. rewrite Hlook by nia.
  destruct (Z.leb_spec (j * s_width s0) (y * s_width s0 + x)) as [H1|H1],
    (Z.ltb_spec (y * s_width s0 + x) (j * s_width s0 + s_width s0)) as [H2|H2]; cbn [andb].
  - assert (y = j) as -> by nia. replace (_ - _ + _) with ((j + k) * s_width s0 + x) by lia.
    rewrite Hb by lia. do 2 f_equal. zcase; lia.
  - rewrite Hb by lia. assert (j < y) by nia. do 2 f_equal. zcase; lia.
  - rewrite Hb by lia. assert (y < j) by nia. do 2 f_equal. zcase; lia.
  - exfalso. nia.
Qed.
End Buffer.

Lemma fb_scroll_ok s C k : displays s C → settled s → whole_words s → 0 < k ≤ s_height s →
  wp (fb_scroll k) s (λ _ s', displays s' (scrolled k (s_height s) C) ∧ settled s' ∧ same_geometry s s' ∧
    ∀ x y c, 0 ≤ x < s_width s → 0 ≤ y < s_height s - k → shown s x (y + k) c → shown s' x y c).
Proof.
  intros [Hh Hs Hc Hd Hsh] Hund Hwords Hk. pose proof Hh as [Hw0 _ (b & Hb & Hlb & Hpix)].
  unfold fb_scroll. apply wp_bind, wp_massert; [zcase; done || lia|]. apply wp_bind, wp_gets_fb. rewrite Hb.
  apply wp_bind, wp_gets_fb. apply wp_bind, wp_gets_fb. apply wp_bind, wp_gets_fb. apply wp_bind.
  eapply wp_mono; [apply (wp_for_seqZ _ _ (screen_moved s k) _ (λ _, screen_moved s k (s_height s - k)))|].
  - lia.
  - constructor; [by destruct s|done|]. intros i y Hi Hy. do 2 f_equal. zcase; lia.
  - intros j s' Hj Hs'. apply move_screen_ok; done || lia.
  - done.
  - intros [] s1 Hs1. pose proof Hs1 as [Hsame1 Hl1 _].
    assert (s_backbuffer s1 = Some b ∧ s_width s1 = s_width s ∧ s_height s1 = s_height s) as (Hb1 & Hw1 & Hh1) by (by rewrite Hsame1).
    assert (whole_words s1) as Hwords1 by (by rewrite Hsame1).
    assert (∀ x y c, 0 ≤ x < s_width s → 0 ≤ y < s_height s →
      shown s x (if y <? s_height s - k then y + k else y) c → shown s1 x y c) as Hmoved by (intros x y c; by apply moved_shown).
    rewrite <- Hw1, <- Hh1 in *.
    eapply wp_mono; [apply (wp_for_seqZ _ _ (buffer_moved s1 b k) _ (λ _, buffer_moved s1 b k (s_height s1 - k)))|].
    + lia.
    + exists b. split; [by rewrite <- Hb1; destruct s1|]. split; [done|]. intros x y Hx Hy. do 2 f_equal. zcase; lia.
    + intros j s' Hj Hs'. apply move_pixels_ok; done || lia.
    + done.
    + intros [] s2 (b' & -> & Hl' & Hb'). split; [|split; [by rewrite Hsame1|split; [by rewrite Hsame1|]]].
      2:{ intros x y c Hx Hy Hc'. change (shown s1 x y c). apply Hmoved; [done|lia|]. by destruct (Z.ltb_spec y (s_height s1 - k)); [|lia]. }
      constructor.
      * constructor; [cbn; lia|cbn; rewrite Hh1; apply Hh|]. exists b'. split; [done|]. cbn. split; [lia|].
        intros x y Hx Hy. rewrite Hb' by done. unfold scrolled. destruct (Z.ltb_spec y (s_height s1 - k)); apply Hpix; lia.
      * rewrite Hsame1. destruct Hs as [? ? ? Hz]. constructor; try done. cbn. by rewrite Hl1.
      * cbn. intros x y Hx Hy. unfold scrolled. case_match; apply Hc; lia.
      * cbn. rewrite Hh1 in Hd. rewrite Hsame1. exact Hd.
      * cbn. intros x y Hx Hy _ Hnd. change (shown s1 x y (scrolled k (s_height s1) C x y)).
        apply Hmoved; [done|done|]. unfold scrolled. unfold damaged in Hnd. cbn in Hnd. rewrite Hsame1 in Hnd. cbn in Hnd.
        destruct Hund as [[]|[]]; [|exfalso; apply Hnd; lia].
        destruct (Z.ltb_spec y (s_height s1 - k)); (apply Hsh; [done|lia|done|]); unfold damaged; lia.
Qed.
