(* ===== verification/Vt100.v ===== *)
(** The text terminal (src/kernel/io/vt100tty.c): a grid of characters with
    flags for what the screen does not show yet, on a device that can bring it
    to the screen and may be able to scroll. *)
From S2P Require Import Prelude MiscMath StrUtil Queue Kbd.

(** ** State *)

Record vt100tty_char := Char { tc_chr : Z; need_supdate : bool }.
Record vt100tty_line_info := LineInfo { is_continuation : bool; line_need_supdate : bool }.

(** The arrays [lineinfos] and [chars] are the lists of their elements. *)
Record vt100tty := Tty {
  lineinfos : list vt100tty_line_info; chars : list vt100tty_char;
  columns : Z; rows : Z; currentcolumn : Z; currentrow : Z;
}.

Definition with_chars (l : list vt100tty_char) (t : vt100tty) : vt100tty :=
  Tty (lineinfos t) l (columns t) (rows t) (currentcolumn t) (currentrow t).
Definition with_lineinfos (l : list vt100tty_line_info) (t : vt100tty) : vt100tty :=
  Tty l (chars t) (columns t) (rows t) (currentcolumn t) (currentrow t).
Definition with_cursor (row column : Z) (t : vt100tty) : vt100tty :=
  Tty (lineinfos t) (chars t) (columns t) (rows t) column row.

(** [struct vt100tty_ops]: [W] is the state of the device. *)
Class TtyOps (W : Type) := {
  update_screen : M (vt100tty * W) unit;
  scroll : option (Z → M (vt100tty * W) unit);
}.

Definition STREAM_MAX_TRANSFER_SIZE : Z := 0x7fffffff.

Section Operations.
Context {W : Type} `{!TtyOps W}.
Local Abbreviation MM A := (M (vt100tty * W) A).

Definition get_tty : MM vt100tty := λ s, Ok (s.1, s).
Definition modify_tty (f : vt100tty → vt100tty) : MM unit := λ s, Ok (tt, (f s.1, s.2)).

(** The index of the character that the pointer points to. *)
Definition char_at (row column : Z) : MM Z :=
  t ← get_tty;
  _ ← massert (0 <=? row);
  _ ← massert (0 <=? column);
  _ ← massert (row <? rows t);
  _ ← massert (column <? columns t);
  mret (s32 (s32 (row * columns t) + column)).

Definition update_char (i : Z) (f : vt100tty_char → vt100tty_char) : MM unit :=
  t ← get_tty;
  c ← lift (rd (chars t) i);
  l ← lift (wr (chars t) i (f c));
  modify_tty (with_chars l).
Definition update_line_info (row : Z) (f : vt100tty_line_info → vt100tty_line_info) : MM unit :=
  t ← get_tty;
  i ← lift (rd (lineinfos t) row);
  l ← lift (wr (lineinfos t) row (f i));
  modify_tty (with_lineinfos l).

Definition dirty (c : vt100tty_char) : vt100tty_char := Char (tc_chr c) true.
Definition blank (c : vt100tty_char) : vt100tty_char := Char 32 true.
Definition line_dirty (i : vt100tty_line_info) : vt100tty_line_info := LineInfo (is_continuation i) true.
Definition with_continuation (b : bool) (i : vt100tty_line_info) : vt100tty_line_info := LineInfo b (line_need_supdate i).

Definition has_scroll : bool := match scroll (W := W) with Some _ => true | None => false end.

(** One line moves up. *)
Definition move_line (srcline : Z) : MM unit :=
  let destline := srcline - 1 in
  dest ← char_at destline 0;
  src ← char_at srcline 0;
  t ← get_tty;
  l ← lift (vmemcpy (chars t) dest (chars t) src (columns t));
  _ ← modify_tty (with_chars l);
  _ ← (if negb has_scroll then
         for_ (seqZ 0 (columns t)) (λ col, _ ← update_char (dest + col) dirty; update_char (src + col) dirty)
       else mret tt);
  t ← get_tty;
  i ← lift (rd (lineinfos t) srcline);
  _ ← update_line_info destline (with_continuation (is_continuation i));
  if negb has_scroll then update_line_info destline line_dirty else mret tt.

Definition scroll_step (_ : unit) : MM (unit + unit) :=
  t ← get_tty;
  if negb (rows t <=? currentrow t) then mret (inr tt)
  else
    _ ← for_ (seqZ 1 (rows t - 1)) move_line;
    _ ← modify_tty (λ t, with_cursor (currentrow t - 1) (currentcolumn t) t);
    _ ← match scroll with Some scroll => scroll 1 | None => mret tt end;
    t ← get_tty;
    _ ← (if currentrow t <? rows t then
           dest ← char_at (currentrow t) 0;
           _ ← for_ (seqZ 0 (columns t)) (λ col, update_char (dest + col) blank);
           update_line_info (currentrow t) line_dirty
         else mret tt);
    mret (inl tt).

Definition advanceline (wastextoverflow : bool) : MM unit :=
  _ ← modify_tty (λ t, with_cursor (currentrow t + 1) 0 t);
  t ← get_tty;
  _ ← loop_m (S (Z.to_nat (currentrow t - rows t + 1))) scroll_step tt;
  _ ← update_line_info 0 (with_continuation false);
  t ← get_tty;
  update_line_info (currentrow t) (with_continuation wastextoverflow).

Definition write_char (chr : Z) : MM unit :=
  if chr =? 10 then advanceline false
  else if chr =? 13 then modify_tty (λ t, with_cursor (currentrow t) 0 t)
  else
    t ← get_tty;
    _ ← (if columns t <=? currentcolumn t then advanceline true else mret tt);
    t ← get_tty;
    dest ← char_at (currentrow t) (currentcolumn t);
    _ ← update_char dest (λ _, Char (s8 chr) true);
    _ ← update_line_info (currentrow t) line_dirty;
    modify_tty (λ t, with_cursor (currentrow t) (currentcolumn t + 1) t).

Definition stream_op_write (data : list Z) : MM Z :=
  let size := Z.of_nat (length data) in
  _ ← massert (size <=? STREAM_MAX_TRANSFER_SIZE);
  _ ← for_ data write_char;
  mret size.

(** The loop clears the flag of the current line only. *)
Definition stream_op_flush : MM unit :=
  _ ← update_screen;
  t ← get_tty;
  for_ (seqZ 0 (rows t)) (λ r, update_line_info (currentrow t) (λ i, LineInfo (is_continuation i) false)).

(** The dimensions, the arrays and the screen; the cursor keeps its place. *)
Definition vt100tty_init (lineinfos : list vt100tty_line_info) (chars : list vt100tty_char) (columns rows : Z) : MM unit :=
  _ ← modify_tty (λ t, Tty lineinfos chars columns rows (currentcolumn t) (currentrow t));
  for_ (seqZ 0 rows) (λ r,
    _ ← for_ (seqZ 0 columns) (λ c,
      i ← char_at r c; _ ← update_char i (λ x, Char 32 (need_supdate x));
      i ← char_at r c; update_char i dirty);
    update_line_info r line_dirty).
End Operations.

(** Reading: the characters of the key presses; each is stored at the start of
    the buffer. The result is the buffer and the length, and the state of the
    loop is [idx], the buffer, [read_len] and the event. *)
Definition read_step (size : Z) (x : Z * list Z * Z * list Z) : M kbd (Z * list Z * Z * list Z + list Z * Z) :=
  let '(idx, buf, read_len, event) := x in
  if negb (idx <? size) then mret (inr (buf, read_len))
  else
    '(r, event) ← (λ s, '(r, event, s) ← kbd_pull_event event s; Ok ((r, event), s));
    if negb (r : bool) then mret (inr (buf, read_len))
    else
      is_down ← lift (rd event 5);
      chr ← lift (rd event 4);
      if Z.land is_down 1 =? 0 then mret (inl (idx + 1, buf, read_len, event))
      else if chr =? 0 then mret (inl (idx + 1, buf, read_len, event))
      else
        buf ← lift (wr buf 0 (u8 chr));
        mret (inl (idx + 1, buf, read_len + 1, event)).

(** [event] is what the stack holds where the event is stored. *)
Definition stream_op_read (event buf : list Z) (size : Z) : M kbd (list Z * Z) :=
  _ ← massert (size <=? STREAM_MAX_TRANSFER_SIZE);
  loop_m (S (Z.to_nat size)) (read_step size) (0, buf, 0, event).
