(* ===== verification/Vt100Correct.v ===== *)
(** The terminal shows the end of what was typed: the grid of characters refines
    an endless roll of paper, on any device that keeps its promises. *)
From S2P Require Import Prelude MiscMath StrUtil Queue Kbd Vt100.

(** ** What a device promises

    [tty_ok C R w]: the device is in order, with room for [R] lines of [C]
    characters; [cell_shown w r c chr]: it shows a character at a place. *)
Definition clean_char (c : vt100tty_char) : vt100tty_char := Char (tc_chr c) false.

(** The grid has its dimensions, and the device shows its clean characters. *)
Record tty_wf (C R : Z) (t : vt100tty) : Prop := TtyWf {
  tw_columns : columns t = C;
  tw_rows : rows t = R;
  tw_chars : Z.of_nat (length (chars t)) = R * C;
}.
Definition shows_clean (shown : Z → Z → Z → Prop) (C R : Z) (t : vt100tty) : Prop := ∀ r c ch,
  0 ≤ r < R → 0 ≤ c < C → chars t !! Z.to_nat (r * C + c) = Some ch → need_supdate ch = false → shown r c (tc_chr ch).

Class TtyLaws (W : Type) `{!TtyOps W} := {
  tty_ok : Z → Z → W → Prop;
  cell_shown : W → Z → Z → Z → Prop;
  char_ok : Z → Prop;
  tty_dims C R w : tty_ok C R w → 0 < C ∧ 0 < R ∧ R * C < 2 ^ 31;
  blank_ok : char_ok 32;
  scroll_law f C R t w : scroll = Some f → tty_ok C R w → tty_wf C R t →
    wp (f 1) (t, w) (λ _ s', s'.1 = t ∧ tty_ok C R s'.2 ∧
      ∀ r c chr, 0 ≤ r < R - 1 → 0 ≤ c < C → cell_shown w (r + 1) c chr → cell_shown s'.2 r c chr);
  update_screen_law C R t w : tty_ok C R w → tty_wf C R t → shows_clean (cell_shown w) C R t →
    (∀ r c ch, 0 ≤ r < R → 0 ≤ c < C → chars t !! Z.to_nat (r * C + c) = Some ch → char_ok (tc_chr ch)) →
    wp update_screen (t, w) (λ _ s', s'.1 = with_chars (clean_char <$> chars t) t ∧ tty_ok C R s'.2 ∧
      shows_clean (cell_shown s'.2) C R s'.1);
}.

Lemma for_fmap {S A B} (h : A → B) (l : list A) (g : B → M S unit) : for_ (h <$> l) g = for_ l (λ x, g (h x)).
Proof. induction l as [|x l IH]; [done|]. cbn. by rewrite IH. Qed.

(** ** The grid *)

Section Grid.
Context {W : Type} `{!TtyOps W}.
Implicit Types (t : vt100tty) (w : W).
Variables (C R : Z).
Hypothesis Hdims : 0 < C ∧ 0 < R ∧ R * C < 2 ^ 31.

(** The characters are [T], those that are clean satisfy [Q], and [K] are the
    lines that continue the one before. *)
Record grid (T : Z → Z → Z) (Q : Z → Z → Prop) (K : Z → bool) t : Prop := Grid {
  g_columns : columns t = C;
  g_rows : rows t = R;
  g_chars : Z.of_nat (length (chars t)) = R * C;
  g_char r c : 0 ≤ r < R → 0 ≤ c < C →
    ∃ ch, chars t !! Z.to_nat (r * C + c) = Some ch ∧ tc_chr ch = T r c ∧ (need_supdate ch = false → Q r c);
  g_lines : Z.of_nat (length (lineinfos t)) = R;
  g_line r : 0 ≤ r < R → ∃ i, lineinfos t !! Z.to_nat r = Some i ∧ is_continuation i = K r;
}.

Lemma grid_ext T Q K T' Q' K' t : grid T Q K t →
  (∀ r c, 0 ≤ r < R → 0 ≤ c < C → T r c = T' r c ∧ (Q r c → Q' r c)) → (∀ r, 0 ≤ r < R → K r = K' r) →
  grid T' Q' K' t.
Proof using Type.
  intros [Hc Hr Hl Hch Hli Hline] HT HK. constructor; [done..| |done|].
  - intros r c Hr' Hc'. destruct (Hch r c Hr' Hc') as (ch & E & HT1 & HQ). destruct (HT r c Hr' Hc') as [HT2 HQ2].
    exists ch. split; [done|]. split; [by rewrite HT1|]. auto.
  - intros r Hr'. destruct (Hline r Hr') as (i & E & HK1). exists i. by rewrite <- HK.
Qed.

Lemma grid_cursor T Q K t row col : grid T Q K t → grid T Q K (with_cursor row col t).
Proof using Type. intros [? ? ? ? ? ?]. by constructor. Qed.

(** Nothing but the grid changes. *)
Definition same_cursor (s s' : vt100tty * W) : Prop :=
  currentrow s'.1 = currentrow s.1 ∧ currentcolumn s'.1 = currentcolumn s.1 ∧ s'.2 = s.2.
Definition to_grid T Q K (s : vt100tty * W) : unit → vt100tty * W → Prop := λ _ s',
  same_cursor s s' ∧ grid T Q K s'.1.

Lemma same_cursor_trans s1 s2 s3 : same_cursor s1 s2 → same_cursor s2 s3 → same_cursor s1 s3.
Proof using Type. intros (? & ? & ?) (? & ? & ?). unfold same_cursor. split_and!; congruence. Qed.

Lemma to_grid_ext T Q K T' Q' K' (m : M (vt100tty * W) unit) s : wp m s (to_grid T Q K s) →
  (∀ r c, 0 ≤ r < R → 0 ≤ c < C → T r c = T' r c ∧ (Q r c → Q' r c)) → (∀ r, 0 ≤ r < R → K r = K' r) →
  wp m s (to_grid T' Q' K' s).
Proof using Type.
  intros Hm HT HK. eapply wp_mono; [exact Hm|]. intros [] s' [Hs Hg]. split; [done|]. by eapply grid_ext.
Qed.

Lemma grid_seq T Q K T' Q' K' (m m' : M (vt100tty * W) unit) s : wp m s (to_grid T Q K s) →
  (∀ s', grid T Q K s'.1 → wp m' s' (to_grid T' Q' K' s')) → wp (_ ← m; m') s (to_grid T' Q' K' s).
Proof using Type.
  intros Hm Hm'. apply wp_bind. eapply wp_mono; [exact Hm|]. intros [] s' [Hs Hg].
  eapply wp_mono; [by apply Hm'|]. intros [] s2 [Hs2 Hg2]. split; [by eapply same_cursor_trans|done].
Qed.

Lemma grid_skip T Q K (s : vt100tty * W) : grid T Q K s.1 → wp (mret tt) s (to_grid T Q K s).
Proof using Type. intros Hg. by apply wp_ret. Qed.

(** A loop over the columns of a line, or over the lines. *)
Lemma grid_loop n (f : Z → M (vt100tty * W) unit) T Q K s : 0 ≤ n → grid (T 0) (Q 0) (K 0) s.1 →
  (∀ k s', 0 ≤ k < n → grid (T k) (Q k) (K k) s'.1 → wp (f k) s' (to_grid (T (k + 1)) (Q (k + 1)) (K (k + 1)) s')) →
  wp (for_ (seqZ 0 n) f) s (to_grid (T n) (Q n) (K n) s).
Proof using Type.
  intros Hn H0 Hf. apply (wp_for_seqZ _ _ (λ k s', same_cursor s s' ∧ grid (T k) (Q k) (K k) s'.1)); [done|done| |done].
  intros k s' Hk [Hs Hg]. eapply wp_mono; [by apply Hf|]. intros [] s2 [Hs2 Hg2]. split; [by eapply same_cursor_trans|done].
Qed.

Lemma char_at_ok T Q K (s : vt100tty * W) r c : grid T Q K s.1 → 0 ≤ r < R → 0 ≤ c < C → char_at r c s = Ok (r * C + c, s).
Proof using Hdims.
  intros Hg Hr Hc. unfold char_at, get_tty, massert, lift, assert_, mbind, M_bind.
  rewrite (g_columns _ _ _ _ Hg), (g_rows _ _ _ _ Hg).
  assert (r * C + c < R * C) by nia.
  rewrite (s32_small (r * C)), s32_small by nia. zcase; try lia. done.
Qed.

Lemma place_inj r c r' c' : 0 ≤ c < C → 0 ≤ c' < C → r * C + c = r' * C + c' → r = r' ∧ c = c'.
Proof using Type. clear Hdims. intros Hc Hc' E. assert (r = r') as -> by nia. split; [done|lia]. Qed.

(** One character: what it becomes may depend on what it was. *)
Lemma update_char_ok T Q K T' Q' (s : vt100tty * W) r c i f : grid T Q K s.1 → 0 ≤ r < R → 0 ≤ c < C → i = r * C + c →
  (∀ ch, tc_chr ch = T r c → (need_supdate ch = false → Q r c) →
    tc_chr (f ch) = T' r c ∧ (need_supdate (f ch) = false → Q' r c)) →
  (∀ r' c', 0 ≤ r' < R → 0 ≤ c' < C → ¬ (r' = r ∧ c' = c) → T' r' c' = T r' c' ∧ (Q r' c' → Q' r' c')) →
  wp (update_char i f) s (to_grid T' Q' K s).
Proof using Hdims.
  intros Hg Hr Hc -> Hf Hother. destruct (g_char _ _ _ _ Hg r c Hr Hc) as (ch & Hch & HT & HQ).
  pose proof (g_chars _ _ _ _ Hg) as Hl. assert (0 ≤ r * C + c < R * C) as Hi by nia.
  unfold update_char. apply wp_bind. eexists _, _. split; [done|].
  apply wp_bind, (wp_lift _ ch); [apply rd_ok; done || lia|].
  apply wp_bind, (wp_lift _ (<[Z.to_nat (r * C + c) := f ch]> (chars s.1))); [apply wr_ok; lia|].
  eexists _, _. split; [done|]. split; [done|]. destruct Hg as [Hcs Hrs _ Hchs Hli Hline].
  constructor; [done|done|by cbn; rewrite length_insert| |done|done].
  intros r' c' Hr' Hc'. cbn. destruct (decide (r' = r ∧ c' = c)) as [[-> ->]|Hne].
  - exists (f ch). rewrite list_lookup_insert_eq by lia. split; [done|]. by apply Hf.
  - destruct (Hchs r' c' Hr' Hc') as (ch' & Hch' & HT' & HQ'). exists ch'.
    rewrite list_lookup_insert_ne.
    2:{ intros E%Z2Nat.inj; [|nia..]. apply Hne. apply place_inj in E; [|done..]. destruct E. by split. }
    destruct (Hother r' c' Hr' Hc' Hne) as [-> HQ2]. split; [done|]. split; [done|]. auto.
Qed.

Lemma update_line_info_ok T Q K K' (s : vt100tty * W) r f : grid T Q K s.1 → 0 ≤ r < R →
  (∀ i, is_continuation i = K r → is_continuation (f i) = K' r) → (∀ r', 0 ≤ r' < R → r' ≠ r → K' r' = K r') →
  wp (update_line_info r f) s (to_grid T Q K' s).
Proof using Type.
  clear Hdims.
  intros Hg Hr Hf Hother. destruct (g_line _ _ _ _ Hg r Hr) as (i & Hi & HK).
  pose proof (g_lines _ _ _ _ Hg) as Hl. unfold update_line_info. apply wp_bind. eexists _, _. split; [done|].
  apply wp_bind, (wp_lift _ i); [apply rd_ok; done || lia|].
  apply wp_bind, (wp_lift _ (<[Z.to_nat r := f i]> (lineinfos s.1))); [apply wr_ok; lia|].
  eexists _, _. split; [done|]. split; [done|]. destruct Hg as [? ? ? ? _ Hline].
  constructor; [done..|by cbn; rewrite length_insert|]. intros r' Hr'. cbn. destruct (decide (r' = r)) as [->|Hne].
  - exists (f i). rewrite list_lookup_insert_eq by lia. split; [done|]. by apply Hf.
  - rewrite list_lookup_insert_ne by lia. rewrite Hother by done. by apply Hline.
Qed.

(** ** Scrolling *)

Definition row_up {A} (d : Z) (f : Z → A) : Z → A := λ r, if r =? d then f (r + 1) else f r.

Lemma tty_line_copied T Q K t src : grid T Q K t → 1 ≤ src < R →
  ∃ l, vmemcpy (chars t) ((src - 1) * C) (chars t) (src * C) C = Ok l ∧
    grid (row_up (src - 1) T) (row_up (src - 1) Q) K (with_chars l t).
Proof using Hdims.
  intros Hg Hs. destruct Hg as [Hc Hr Hl Hch Hli Hline].
  destruct (mem_move (chars t) (src * C) C ((src - 1) * C)) as (bytes & m' & Hrd & Hw & Hl' & Hlook); [nia..|].
  exists m'. split; [unfold vmemcpy; rewrite Hrd; exact Hw|].
  constructor; [done|done|cbn; lia| |done|done].
  intros r c Hr' Hc'. cbn. rewrite Hlook by nia. unfold row_up.
  destruct (Z.eqb_spec r (src - 1)) as [->|Hne].
  - destruct (Z.leb_spec ((src - 1) * C) ((src - 1) * C + c)); [|lia].
    destruct (Z.ltb_spec ((src - 1) * C + c) ((src - 1) * C + C)); [|lia]. cbn [andb].
    replace (_ - _ + _) with (src * C + c) by lia. replace (src - 1 + 1) with src by lia. apply Hch; lia.
  - destruct (Z.leb_spec ((src - 1) * C) (r * C + c)), (Z.ltb_spec (r * C + c) ((src - 1) * C + C)); cbn [andb];
      try (by apply Hch). exfalso. nia.
Qed.

Lemma dirty_lines_ok T Q K (s : vt100tty * W) src : grid T Q K s.1 → 1 ≤ src < R →
  wp (for_ (seqZ 0 C) (λ col, _ ← update_char ((src - 1) * C + col) dirty; update_char (src * C + col) dirty)) s
    (to_grid T (λ r c, if r =? src - 1 then False else Q r c) K s).
Proof using Hdims.
  intros Hg Hs. eapply to_grid_ext; [|intros r c _ Hc; split; [reflexivity|]|done].
  1:{ apply (grid_loop C _ (λ _, T) (λ k r c, if (r =? src - 1) && (c <? k) then False else Q r c) (λ _, K)).
    - lia.
    - eapply grid_ext; [exact Hg| |done]. intros r c Hr Hc. split; [done|]. zcase; cbn; try done; lia.
    - intros k s' Hk Hg'. eapply grid_seq.
      + apply (update_char_ok _ _ _ T (λ r c, if (r =? src - 1) && (c <? k + 1) then False else Q r c) _ (src - 1) k _ _ Hg'); [lia..|done|done|].
        intros r' c' Hr' Hc' Hne. split; [done|]. zcase; cbn; try done; lia.
      + intros s2 Hg2. apply (update_char_ok _ _ _ _ _ _ src k _ _ Hg2); [lia..|done|done|done]. }
  cbv beta. destruct (Z.eqb_spec r (src - 1)); cbn [andb]; [|done]. destruct (Z.ltb_spec c C); [done|lia].
Qed.

Definition clean_up (d : Z) (Q : Z → Z → Prop) : Z → Z → Prop :=
  λ r c, if r =? d then has_scroll = true ∧ Q (r + 1) c else Q r c.

Lemma move_line_ok T Q K (s : vt100tty * W) src : grid T Q K s.1 → 1 ≤ src < R →
  wp (move_line src) s (to_grid (row_up (src - 1) T) (clean_up (src - 1) Q) (row_up (src - 1) K) s).
Proof using Hdims.
  intros Hg Hs. unfold move_line. apply wp_bind. eexists _, s. split; [apply (char_at_ok T Q K); done || lia|].
  apply wp_bind. eexists _, s. split; [apply (char_at_ok T Q K); done || lia|]. rewrite !Z.add_0_r.
  apply wp_bind. eexists _, s. split; [done|]. rewrite (g_columns _ _ _ _ Hg).
  destruct (tty_line_copied T Q K s.1 src Hg Hs) as (l & Hl & Hg1). apply wp_bind, (wp_lift _ l); [done|].
  eapply grid_seq; [eexists _, _; split; [done|]; split; [done|exact Hg1]|]. intros s1 Hg1'.
  eapply (grid_seq _ (clean_up (src - 1) Q)).
  { unfold clean_up. destruct has_scroll eqn:Hsc; cbn [negb].
    - apply grid_skip. eapply grid_ext; [exact Hg1'| |done]. intros r c _ _. split; [done|]. unfold row_up. by case_match.
    - eapply to_grid_ext; [by apply (dirty_lines_ok _ _ _ _ _ Hg1')| |done]. intros r c _ _. split; [done|].
      unfold row_up. by case_match. }
  intros s2 Hg2. apply wp_bind. eexists _, s2. split; [done|]. destruct (g_line _ _ _ _ Hg2 src) as (i & Hi & HK); [lia|].
  apply wp_bind, (wp_lift _ i); [apply rd_ok; done || lia|].
  eapply (grid_seq _ _ (row_up (src - 1) K)).
  { apply (update_line_info_ok _ _ _ _ _ _ _ Hg2); [lia| |].
    - intros i' _. cbn. unfold row_up. rewrite Z.eqb_refl, HK. f_equal. lia.
    - intros r' _ Hne. unfold row_up. by destruct (Z.eqb_spec r' (src - 1)). }
  intros s3 Hg3. destruct has_scroll; cbn [negb]; [by apply grid_skip|].
  by apply (update_line_info_ok _ _ _ _ _ _ _ Hg3); [lia|..].
Qed.

(** All lines move up: the last one stays as it is. *)
Lemma move_lines_ok T Q K (s : vt100tty * W) : grid T Q K s.1 →
  wp (for_ (seqZ 1 (R - 1)) move_line) s (to_grid (λ r, if r <? R - 1 then T (r + 1) else T r)
    (λ r c, if r <? R - 1 then has_scroll = true ∧ Q (r + 1) c else Q r c)
    (λ r, if r <? R - 1 then K (r + 1) else K r) s).
Proof using Hdims.
  intros Hg.
  pose proof (grid_loop (R - 1) (λ k, move_line (1 + k)) (λ k r, if r <? k then T (r + 1) else T r)
    (λ k r c, if r <? k then has_scroll = true ∧ Q (r + 1) c else Q r c) (λ k r, if r <? k then K (r + 1) else K r) s) as Hloop.
  rewrite <- (Z.add_0_r 1), <- fmap_add_seqZ, for_fmap.
  apply Hloop; [lia| |].
  - eapply grid_ext; [exact Hg| |].
    + intros r c Hr _. by destruct (Z.ltb_spec r 0); [lia|].
    + intros r Hr. by destruct (Z.ltb_spec r 0); [lia|].
  - intros k s' Hk Hg'. eapply to_grid_ext; [by apply (move_line_ok _ _ _ _ _ Hg'); lia|..].
    + intros r c Hr Hc. unfold row_up, clean_up. replace (1 + k - 1) with k by lia.
      destruct (Z.eqb_spec r k) as [->|].
      * destruct (Z.ltb_spec (k + 1) k); [lia|]. by destruct (Z.ltb_spec k (k + 1)); [|lia].
      * by destruct (Z.ltb_spec r k), (Z.ltb_spec r (k + 1)); try lia.
    + intros r Hr. unfold row_up. replace (1 + k - 1) with k by lia. destruct (Z.eqb_spec r k) as [->|].
      * destruct (Z.ltb_spec (k + 1) k); [lia|]. by destruct (Z.ltb_spec k (k + 1)); [|lia].
      * by destruct (Z.ltb_spec r k), (Z.ltb_spec r (k + 1)); try lia.
Qed.
End Grid.

(** ** The paper

    An endless roll of lines, each with its characters and whether it continues
    the line before; writing over a character replaces it. *)
Record paper := Paper { finished : list (list Z * bool); current : list Z * bool; pos : Z }.

Definition lines (p : paper) : list (list Z * bool) := finished p ++ [current p].
Definition put (i chr : Z) (l : list Z) : list Z := take (Z.to_nat i) l ++ s8 chr :: drop (S (Z.to_nat i)) l.
Definition new_line (continuation : bool) (p : paper) : paper := Paper (lines p) ([], continuation) 0.

(** A character is typed, on a roll that is [C] characters wide. *)
Definition typed (C : Z) (p : paper) (chr : Z) : paper :=
  if chr =? 10 then new_line false p
  else if chr =? 13 then Paper (finished p) (current p) 0
  else
    let p := if C <=? pos p then new_line true p else p in
    Paper (finished p) (put (pos p) chr (current p).1, (current p).2) (pos p + 1).

(** What a window of [R] lines at the end of the paper shows. *)
Definition first_line (R : Z) (p : paper) : Z := Z.max 0 (Z.of_nat (length (lines p)) - R).
Definition view (R : Z) (p : paper) (r c : Z) : Z :=
  match lines p !! Z.to_nat (first_line R p + r) with Some l => default 32 (l.1 !! Z.to_nat c) | None => 32 end.
Definition continues (R : Z) (p : paper) (r : Z) : bool :=
  match lines p !! Z.to_nat (first_line R p + r) with Some l => l.2 | None => false end.

Section Console.
Context {W : Type} `{!TtyOps W, !TtyLaws W}.
Variables (C R : Z).

Definition shown_on (w : W) (T : Z → Z → Z) : Z → Z → Prop := λ r c, cell_shown w r c (T r c).

(** The grid is the end of the paper, and the device shows its clean part. *)
Record console (p : paper) (s : vt100tty * W) : Prop := Console {
  co_pos : 0 ≤ pos p ≤ Z.of_nat (length (current p).1);
  co_width : Z.of_nat (length (current p).1) ≤ C;
  co_row : currentrow s.1 = Z.min (Z.of_nat (length (lines p))) R - 1;
  co_column : currentcolumn s.1 = pos p;
  co_device : tty_ok C R s.2;
  co_chars : Forall (λ l, Forall char_ok l.1) (lines p);
  co_grid : ∃ K, grid C R (view R p) (shown_on s.2 (view R p)) K s.1 ∧
    ∀ r, 0 < r < Z.of_nat (length (lines p)) → r < R → K r = continues R p r;
}.

Lemma blank_line_ok T Q K (s : vt100tty * W) r : 0 < C ∧ 0 < R ∧ R * C < 2 ^ 31 → grid C R T Q K s.1 → 0 ≤ r < R →
  wp (for_ (seqZ 0 C) (λ col, update_char (r * C + col) blank)) s
    (to_grid C R (λ r' c, if r' =? r then 32 else T r' c) (λ r' c, if r' =? r then False else Q r' c) K s).
Proof using Type.
  intros Hdims Hg Hr. eapply to_grid_ext; [|intros r' c _ Hc; split|done].
  1:{ apply (grid_loop C R C _ (λ k r' c, if (r' =? r) && (c <? k) then 32 else T r' c)
        (λ k r' c, if (r' =? r) && (c <? k) then False else Q r' c) (λ _, K)).
    - lia.
    - eapply grid_ext; [exact Hg| |done]. intros r' c Hr' Hc. destruct (Z.ltb_spec c 0); [lia|]. by rewrite andb_false_r.
    - intros k s' Hk Hg'. apply (update_char_ok C R Hdims _ _ _ _ _ _ r k _ _ Hg'); [lia..| |].
      + intros ch _ _. destruct (Z.eqb_spec r r); [|done]. by destruct (Z.ltb_spec k (k + 1)); [|lia].
      + intros r' c' Hr' Hc' Hne. destruct (Z.eqb_spec r' r) as [->|]; [|done]. cbn [andb].
        by destruct (Z.ltb_spec c' k), (Z.ltb_spec c' (k + 1)); try lia. }
  - cbv beta. destruct (Z.eqb_spec r' r); [|done]. cbn. by destruct (Z.ltb_spec c C); [|lia].
  - cbv beta. destruct (Z.eqb_spec r' r); cbn [andb]; [|by intros]. destruct (Z.ltb_spec c C); [done|lia].
Qed.

(** The window moves down by a line. *)
Lemma scroll_step_ok T K (s : vt100tty * W) : tty_ok C R s.2 → grid C R T (shown_on s.2 T) K s.1 → currentrow s.1 = R →
  let T' := λ r c, if r =? R - 1 then 32 else T (r + 1) c in
  wp (scroll_step tt) s (λ y s', y = inl tt ∧ currentrow s'.1 = R - 1 ∧ currentcolumn s'.1 = currentcolumn s.1 ∧
    tty_ok C R s'.2 ∧ grid C R T' (shown_on s'.2 T') (λ r, if r <? R - 1 then K (r + 1) else K r) s'.1).
Proof using Type.
  intros Hok Hg Hrow T'. destruct (tty_dims C R s.2 Hok) as (HC & HR & HCR).
  unfold scroll_step. apply wp_bind. eexists _, _. split; [done|]. rewrite (g_rows _ _ _ _ _ _ Hg), Hrow.
  destruct (Z.leb_spec R R); [|lia]. cbn [negb]. apply wp_bind.
  eapply wp_mono; [by apply (move_lines_ok C R)|]. intros [] s1 [(Hr1 & Hc1 & Hw1) Hg1].
  apply wp_bind. eexists _, _. split; [done|]. apply wp_bind.
  set (t2 := with_cursor (currentrow s1.1 - 1) (currentcolumn s1.1) s1.1).
  pose proof (grid_cursor C R _ _ _ _ (currentrow s1.1 - 1) (currentcolumn s1.1) Hg1 : grid C R _ _ _ t2) as Hg2.
  rewrite Hw1. assert (wp (match scroll with Some scroll => scroll 1 | None => mret tt end) (t2, s.2) (λ _ s', s'.1 = t2 ∧ tty_ok C R s'.2 ∧
    ∀ r c chr, 0 ≤ r < R - 1 → 0 ≤ c < C → has_scroll = true → cell_shown s.2 (r + 1) c chr → cell_shown s'.2 r c chr)) as Hscroll.
  { unfold has_scroll. destruct scroll as [f|] eqn:Hf; [|by apply wp_ret].
    eapply wp_mono; [apply (scroll_law f C R t2 s.2 Hf Hok)|].
    - constructor; [apply Hg2|apply Hg2|exact (g_chars _ _ _ _ _ _ Hg2)].
    - intros [] s' (E & Hok' & Hsh). split; [done|]. split; [done|]. intros r c chr Hr Hc _. by apply Hsh. }
  eapply wp_mono; [exact Hscroll|]. intros [] [t3 w3] (E & Hok3 & Hsh). cbn [fst snd] in *. subst t3.
  apply wp_bind. eexists _, _. split; [done|]. change (currentrow (t2, w3).1) with (currentrow s1.1 - 1). change (rows (t2, w3).1) with (rows t2).
  change (columns (t2, w3).1) with (columns t2). rewrite Hr1, Hrow, (g_rows _ _ _ _ _ _ Hg2), (g_columns _ _ _ _ _ _ Hg2).
  destruct (Z.ltb_spec (R - 1) R); [|lia]. apply wp_bind.
  eapply wp_mono; [apply wp_bind; eexists _, _; split; [apply (char_at_ok C R (conj HC (conj HR HCR)) _ _ _ (t2, w3) (R - 1) 0 Hg2); lia|]|].
  - rewrite Z.add_0_r. eapply grid_seq; [apply (blank_line_ok _ _ _ (t2, w3) _ (conj HC (conj HR HCR)) Hg2); lia|]. intros s' Hg'.
    apply (update_line_info_ok C R _ _ _ (λ r, if r <? R - 1 then K (r + 1) else K r) _ _ _ Hg'); [lia|done|done].
  - intros [] s4 [(Hr4 & Hc4 & Hw4) Hg4]. apply wp_ret. split; [done|]. cbn in Hr4, Hc4, Hw4. rewrite Hr4, Hc4, Hw4, Hr1, Hc1, Hrow.
    split; [done|]. split; [done|]. split; [done|]. eapply grid_ext; [exact Hg4| |done].
    intros r c Hr Hc. cbv beta. unfold shown_on, T'. destruct (Z.eqb_spec r (R - 1)); [done|].
    destruct (Z.ltb_spec r (R - 1)); [|lia]. split; [done|]. intros [Hs Hq]. apply Hsh; done || lia.
Qed.

Lemma lines_new b p : lines (new_line b p) = lines p ++ [([], b)].
Proof using Type. done. Qed.
Lemma length_lines_new b p : Z.of_nat (length (lines (new_line b p))) = Z.of_nat (length (lines p)) + 1.
Proof using Type. rewrite lines_new, length_app. cbn. lia. Qed.
Lemma length_lines p : 0 < Z.of_nat (length (lines p)).
Proof using Type. unfold lines. rewrite length_app. cbn. lia. Qed.

(** A new line while there is room for it, and when there is none. *)
Lemma view_new_below b p r c : Z.of_nat (length (lines p)) < R → 0 ≤ r → view R (new_line b p) r c = view R p r c.
Proof using Type.
  intros Hn Hr. unfold view, first_line. rewrite length_lines_new, lines_new, !Z.max_l, !Z.add_0_l by lia.
  destruct (decide (Z.to_nat r < length (lines p))%nat).
  - by rewrite lookup_app_l.
  - rewrite (lookup_ge_None_2 (lines p)), lookup_app_r by lia.
    destruct (Z.to_nat r - length (lines p))%nat as [|[|k]]; done.
Qed.
Lemma view_new_end b p r c : R ≤ Z.of_nat (length (lines p)) → 0 ≤ r < R →
  view R (new_line b p) r c = if r =? R - 1 then 32 else view R p (r + 1) c.
Proof using Type.
  intros Hn Hr. unfold view, first_line. rewrite length_lines_new, lines_new, !Z.max_r by lia.
  destruct (Z.eqb_spec r (R - 1)) as [->|].
  - rewrite lookup_app_r by lia. replace (_ - _)%nat with 0%nat by lia. done.
  - rewrite lookup_app_l by lia. by replace (Z.of_nat (length (lines p)) + 1 - R + r) with (Z.of_nat (length (lines p)) - R + (r + 1)) by lia.
Qed.
Lemma continues_new_below b p r : Z.of_nat (length (lines p)) < R → 0 ≤ r ≤ Z.of_nat (length (lines p)) →
  continues R (new_line b p) r = if r =? Z.of_nat (length (lines p)) then b else continues R p r.
Proof using Type.
  intros Hn Hr. unfold continues, first_line. rewrite length_lines_new, lines_new, !Z.max_l, !Z.add_0_l by lia.
  destruct (Z.eqb_spec r (Z.of_nat (length (lines p)))) as [->|].
  - rewrite lookup_app_r by lia. replace (_ - _)%nat with 0%nat by lia. done.
  - by rewrite lookup_app_l by lia.
Qed.
Lemma continues_new_end b p r : R ≤ Z.of_nat (length (lines p)) → 0 ≤ r < R →
  continues R (new_line b p) r = if r =? R - 1 then b else continues R p (r + 1).
Proof using Type.
  intros Hn Hr. unfold continues, first_line. rewrite length_lines_new, lines_new, !Z.max_r by lia.
  destruct (Z.eqb_spec r (R - 1)) as [->|].
  - rewrite lookup_app_r by lia. replace (_ - _)%nat with 0%nat by lia. done.
  - rewrite lookup_app_l by lia. by replace (Z.of_nat (length (lines p)) + 1 - R + r) with (Z.of_nat (length (lines p)) - R + (r + 1)) by lia.
Qed.

(** What the loop leaves: the cursor is in a line of the grid. *)
Lemma scroll_loop_ok b p (s : vt100tty * W) : console p s →
  let p' := new_line b p in
  wp (loop_m (S (Z.to_nat (currentrow s.1 + 1 - rows s.1 + 1))) scroll_step tt) (with_cursor (currentrow s.1 + 1) 0 s.1, s.2)
    (λ _ s', currentrow s'.1 = Z.min (Z.of_nat (length (lines p'))) R - 1 ∧ currentcolumn s'.1 = 0 ∧ tty_ok C R s'.2 ∧
    ∃ K, grid C R (view R p') (shown_on s'.2 (view R p')) K s'.1 ∧
      ∀ r, 0 < r < Z.min (Z.of_nat (length (lines p'))) R - 1 → K r = continues R p' r).
Proof using Type.
  intros [Hpos Hwidth Hrow Hcol Hdev Hchars (K & Hg & HK)] p'. pose proof (length_lines p) as Hn.
  destruct (tty_dims C R s.2 Hdev) as (HC & HR & HCR). unfold p'. rewrite length_lines_new.
  pose proof (g_rows _ _ _ _ _ _ Hg) as Hrows. set (n := Z.of_nat (length (lines p))) in *. rewrite Hrow, Hrows.
  assert (∀ (s' : vt100tty * W) k, rows s'.1 = R → currentrow s'.1 < R → loop_m (S k) scroll_step tt s' = Ok (tt, s')) as Hdone.
  { intros s' k Hr' Hc'. rewrite (loop_m_step k _ _ s' (inr tt) s'); [done|]. unfold scroll_step, get_tty, mbind, M_bind.
    rewrite Hr'. by destruct (Z.leb_spec R (currentrow s'.1)); [lia|]. }
  set (s1 := (with_cursor _ 0 s.1, s.2)). pose proof (grid_cursor C R _ _ _ _ (Z.min n R - 1 + 1) 0 Hg : grid C R _ _ _ s1.1) as Hg1.
  destruct (Z.lt_ge_cases n R) as [Hlt|Hge].
  - exists tt, s1. split; [apply Hdone; cbn; lia|]. cbn [s1 fst snd currentrow currentcolumn with_cursor].
    split; [lia|]. split; [done|]. split; [done|]. exists K. split.
    + eapply grid_ext; [exact Hg1| |done]. intros r c Hr _. unfold shown_on. by rewrite view_new_below by (done || lia).
    + intros r Hr. rewrite continues_new_below, HK by (fold n; lia). fold n. by destruct (Z.eqb_spec r n); [lia|].
  - replace (Z.to_nat (Z.min n R - 1 + 1 - R + 1)) with 1%nat by lia.
    destruct (scroll_step_ok (view R p) K s1) as (y & s2 & H2 & -> & Hr2 & Hc2 & Hdev2 & Hg2); [done|done|cbn; lia|].
    exists tt, s2. split; [rewrite (loop_m_step 1 _ _ _ _ _ H2); apply Hdone; [apply Hg2|lia]|].
    split; [lia|]. split; [done|]. split; [done|]. exists (λ r, if r <? R - 1 then K (r + 1) else K r). split.
    + eapply grid_ext; [exact Hg2| |done]. intros r c Hr _. unfold shown_on. by rewrite view_new_end by (done || lia).
    + intros r Hr. rewrite continues_new_end by (fold n; lia). destruct (Z.ltb_spec r (R - 1)); [|lia].
      destruct (Z.eqb_spec r (R - 1)); [lia|]. apply HK; lia.
Qed.

Lemma view_char_ok p : Forall (λ l, Forall char_ok l.1) (lines p) → ∀ r c, char_ok (view R p r c).
Proof using Type.
  intros Hp r c. unfold view. destruct (lines p !! _) as [l|] eqn:Hl; [|apply blank_ok].
  pose proof (Forall_lookup_1 _ _ _ _ Hp Hl) as Hlc. cbv beta in Hlc.
  destruct (l.1 !! _) as [x|] eqn:Hx; [|apply blank_ok]. exact (Forall_lookup_1 _ _ _ _ Hlc Hx).
Qed.

Lemma advanceline_ok b p (s : vt100tty * W) : console p s → wp (advanceline b) s (λ _ s', console (new_line b p) s').
Proof using Type.
  intros Hc. unfold advanceline. apply wp_bind. eexists _, _. split; [done|]. apply wp_bind. eexists _, _. split; [done|].
  apply wp_bind. eapply wp_mono; [exact (scroll_loop_ok b p s Hc)|]. cbv zeta.
  intros [] s1 (Hrow & Hcol & Hdev & K & Hg & HK). destruct (tty_dims C R s1.2 Hdev) as (HC & HR & HCR).
  pose proof (length_lines (new_line b p)) as Hn. set (n := Z.of_nat (length (lines (new_line b p)))) in *.
  apply wp_bind. eapply wp_mono.
  { apply (update_line_info_ok C R _ _ K (λ r, if r =? 0 then false else K r) s1 0 _ Hg); [lia|done|].
    intros r' _ Hne. by destruct (Z.eqb_spec r' 0). }
  intros [] s2 [(Hr2 & Hc2 & Hw2) Hg2]. apply wp_bind. eexists _, _. split; [done|]. eapply wp_mono.
  { apply (update_line_info_ok C R _ _ _ (λ r, if r =? Z.min n R - 1 then b else if r =? 0 then false else K r) s2 _ _ Hg2).
    - lia.
    - intros i _. rewrite Hr2, Hrow, Z.eqb_refl. done.
    - intros r' _ Hne. destruct (Z.eqb_spec r' (Z.min n R - 1)); [lia|done]. }
  intros [] s3 [(Hr3 & Hc3 & Hw3) Hg3]. pose proof (co_chars p s Hc) as Hchars. constructor.
  - cbn. lia.
  - cbn. lia.
  - fold n. congruence.
  - cbn [pos new_line]. congruence.
  - by rewrite Hw3, Hw2.
  - rewrite lines_new. apply Forall_app_2; [done|]. by repeat constructor.
  - eexists. rewrite Hw3, Hw2. split; [exact Hg3|]. cbv beta. fold n. intros r Hr HrR.
    destruct (Z.eqb_spec r (Z.min n R - 1)) as [->|].
    + unfold n in *. rewrite length_lines_new in *. destruct (Z.lt_ge_cases (Z.of_nat (length (lines p))) R).
      * rewrite continues_new_below by lia. by destruct (Z.eqb_spec (Z.min (Z.of_nat (length (lines p)) + 1) R - 1) (Z.of_nat (length (lines p)))); [|lia].
      * rewrite continues_new_end by lia. by destruct (Z.eqb_spec (Z.min (Z.of_nat (length (lines p)) + 1) R - 1) (R - 1)); [|lia].
    + destruct (Z.eqb_spec r 0); [lia|]. apply HK. lia.
Qed.

(** ** Typing *)

Lemma length_put i chr l : 0 ≤ i ≤ Z.of_nat (length l) → Z.of_nat (length (put i chr l)) = Z.max (Z.of_nat (length l)) (i + 1).
Proof using Type. intros Hi. unfold put. rewrite length_app, length_take. cbn [length]. rewrite length_drop. lia. Qed.
Lemma put_lookup i chr l j : 0 ≤ i ≤ Z.of_nat (length l) → 0 ≤ j →
  put i chr l !! Z.to_nat j = if j =? i then Some (s8 chr) else l !! Z.to_nat j.
Proof using Type.
  intros Hi Hj. unfold put. destruct (Z.eqb_spec j i) as [->|Hne].
  - rewrite lookup_app_r by (rewrite length_take; lia). rewrite length_take.
    by replace (_ - _)%nat with 0%nat by lia.
  - destruct (Z.lt_ge_cases j i).
    + rewrite lookup_app_l by (rewrite length_take; lia). by rewrite lookup_take_lt by lia.
    + rewrite lookup_app_r by (rewrite length_take; lia). rewrite length_take.
      replace (Z.to_nat j - _)%nat with (S (Z.to_nat (j - i - 1))) by lia.
      change (drop (S (Z.to_nat i)) l !! Z.to_nat (j - i - 1) = l !! Z.to_nat j). rewrite lookup_drop. f_equal. lia.
Qed.

Definition put_char (chr : Z) (p : paper) : paper := Paper (finished p) (put (pos p) chr (current p).1, (current p).2) (pos p + 1).

Lemma lines_put chr p i : lines (put_char chr p) !! i =
  if decide (S i = length (lines p)) then Some (put (pos p) chr (current p).1, (current p).2) else lines p !! i.
Proof using Type.
  unfold lines, put_char. cbn [finished current]. rewrite length_app. cbn [length].
  case_decide as Hi.
  - rewrite lookup_app_r by lia. by replace (i - _)%nat with 0%nat by lia.
  - destruct (decide (i < length (finished p))%nat); [by rewrite !lookup_app_l|].
    rewrite !lookup_ge_None_2 by (rewrite length_app; cbn; lia). done.
Qed.
Lemma length_lines_put chr p : length (lines (put_char chr p)) = length (lines p).
Proof using Type. unfold lines. by rewrite !length_app. Qed.
Lemma lines_last p i : S i = length (lines p) → lines p !! i = Some (current p).
Proof using Type.
  unfold lines. rewrite length_app. cbn. intros Hi. rewrite lookup_app_r by lia. by replace (i - _)%nat with 0%nat by lia.
Qed.

Lemma view_put chr p r c : 0 < R → 0 ≤ pos p ≤ Z.of_nat (length (current p).1) → 0 ≤ c → 0 ≤ r →
  view R (put_char chr p) r c =
    if (r =? Z.min (Z.of_nat (length (lines p))) R - 1) && (c =? pos p) then s8 chr else view R p r c.
Proof using Type.
  intros HR Hpos Hc Hr. unfold view, first_line. rewrite length_lines_put, lines_put.
  case_decide as Hi.
  - rewrite (lines_last p) by done. cbn [fst]. rewrite put_lookup by done.
    destruct (Z.eqb_spec r (Z.min (Z.of_nat (length (lines p))) R - 1)); [|lia]. cbn [andb]. by case_match.
  - destruct (Z.eqb_spec r (Z.min (Z.of_nat (length (lines p))) R - 1)); [lia|done].
Qed.
Lemma continues_put chr p r : continues R (put_char chr p) r = continues R p r.
Proof using Type.
  unfold continues, first_line. rewrite length_lines_put, lines_put. case_decide as Hi; [|done].
  by rewrite (lines_last p).
Qed.

Lemma char_ok_put chr p : char_ok (s8 chr) → Forall (λ l, Forall char_ok l.1) (lines p) →
  Forall (λ l, Forall char_ok l.1) (lines (put_char chr p)).
Proof using Type.
  intros Hchr [Hf Hc]%Forall_app. apply Forall_app_2; [done|]. apply Forall_singleton. cbn [put_char current fst].
  apply Forall_cons in Hc as [Hc _]. unfold put. apply Forall_app_2; [by apply Forall_take|].
  apply Forall_cons_2; [done|by apply Forall_drop].
Qed.

Lemma put_char_ok chr p (s : vt100tty * W) : console p s → pos p < C → char_ok (s8 chr) →
  wp (t ← get_tty; dest ← char_at (currentrow t) (currentcolumn t); _ ← update_char dest (λ _, Char (s8 chr) true);
      _ ← update_line_info (currentrow t) line_dirty;
      modify_tty (λ t, with_cursor (currentrow t) (currentcolumn t + 1) t)) s (λ _ s', console (put_char chr p) s').
Proof using Type.
  intros [Hpos Hwidth Hrow Hcol Hdev Hchars (K & Hg & HK)] Hlt Hchr. destruct (tty_dims C R s.2 Hdev) as (HC & HR & HCR).
  pose proof (length_lines p) as Hn. set (n := Z.of_nat (length (lines p))) in *.
  apply wp_bind. eexists _, s. split; [done|]. rewrite Hrow, Hcol.
  apply wp_bind. eexists _, s. split; [apply (char_at_ok C R (conj HC (conj HR HCR)) _ _ _ s _ _ Hg); lia|].
  apply wp_bind. eapply wp_mono.
  { apply (update_char_ok C R (conj HC (conj HR HCR)) _ _ _ (view R (put_char chr p)) (shown_on s.2 (view R (put_char chr p))) s
      (Z.min n R - 1) (pos p) _ _ Hg); [lia|lia|done| |].
    - intros ch _ _. split; [|done]. rewrite view_put by lia. fold n. by rewrite !Z.eqb_refl.
    - intros r c Hr Hc Hne. unfold shown_on. rewrite view_put by lia. fold n.
      destruct (Z.eqb_spec r (Z.min n R - 1)), (Z.eqb_spec c (pos p)); cbn [andb]; try done. destruct Hne. by split. }
  intros [] s1 [(Hr1 & Hc1 & Hw1) Hg1]. apply wp_bind. eapply wp_mono.
  { apply (update_line_info_ok C R _ _ K K s1 _ line_dirty Hg1); [lia|done|done]. }
  intros [] s2 [(Hr2 & Hc2 & Hw2) Hg2]. eexists _, _. split; [done|]. constructor; cbn [fst snd currentrow currentcolumn with_cursor].
  - cbn. rewrite length_put by done. lia.
  - cbn. rewrite length_put by done. lia.
  - rewrite length_lines_put. fold n. congruence.
  - cbn. congruence.
  - by rewrite Hw2, Hw1.
  - by apply char_ok_put.
  - exists K. rewrite Hw2, Hw1. split; [by apply grid_cursor|]. rewrite length_lines_put. intros r Hr HrR.
    rewrite continues_put. by apply HK.
Qed.

Lemma write_char_ok chr p (s : vt100tty * W) : console p s → chr = 10 ∨ chr = 13 ∨ char_ok (s8 chr) →
  wp (write_char chr) s (λ _ s', console (typed C p chr) s').
Proof using Type.
  intros Hc Hchr. unfold write_char, typed. destruct (Z.eqb_spec chr 10) as [->|]; [by apply advanceline_ok|].
  destruct (Z.eqb_spec chr 13) as [->|].
  { eexists _, _. split; [done|]. destruct Hc as [Hpos Hwidth Hrow Hcol Hdev Hchars (K & Hg & HK)]. constructor; try done.
    - cbn. lia.
    - exists K. split; [by apply grid_cursor|exact HK]. }
  destruct (co_grid p s Hc) as (K & Hg & _). apply wp_bind. eexists _, s. split; [done|].
  rewrite (co_column p s Hc), (g_columns _ _ _ _ _ _ Hg).
  apply wp_bind. eapply wp_mono with (P := λ _ s', console (if C <=? pos p then new_line true p else p) s').
  - destruct (Z.leb_spec C (pos p)); [by apply advanceline_ok|by apply wp_ret].
  - intros [] s1 Hc1. apply (put_char_ok chr _ s1 Hc1); [|by destruct Hchr as [|[|]]].
    destruct (tty_dims C R s1.2 (co_device _ _ Hc1)) as (HC & _). destruct (Z.leb_spec C (pos p)); [cbn; lia|done].
Qed.

Lemma write_chars_ok data : ∀ p (s : vt100tty * W), console p s → Forall (λ chr, chr = 10 ∨ chr = 13 ∨ char_ok (s8 chr)) data →
  wp (for_ data write_char) s (λ _ s', console (foldl (typed C) p data) s').
Proof using Type.
  induction data as [|chr data IH]; intros p s Hc Hd; [by apply wp_ret|]. apply Forall_cons in Hd as [Hchr Hd].
  cbn [for_ foldl]. apply wp_bind. eapply wp_mono; [by apply (write_char_ok chr p)|]. intros [] s1 Hc1. by apply IH.
Qed.

(** Everything that the window shows of the paper is on the screen. *)
Definition on_screen (p : paper) (w : W) : Prop := ∀ r c, 0 ≤ r < R → 0 ≤ c < C → cell_shown w r c (view R p r c).

Lemma flush_ok p (s : vt100tty * W) : console p s → wp stream_op_flush s (λ _ s', console p s' ∧ on_screen p s'.2).
Proof using Type.
  intros [Hpos Hwidth Hrow Hcol Hdev Hchars (K & Hg & HK)]. destruct (tty_dims C R s.2 Hdev) as (HC & HR & HCR).
  pose proof (length_lines p) as Hn. destruct s as [t w]. cbn [fst snd] in *.
  unfold stream_op_flush. apply wp_bind. eapply wp_mono; [apply (update_screen_law C R t w Hdev)|].
  - constructor; [apply Hg|apply Hg|apply (g_chars _ _ _ _ _ _ Hg)].
  - intros r c ch Hr Hc Hch Hclean. destruct (g_char _ _ _ _ _ _ Hg r c Hr Hc) as (ch' & Hch' & HT & HQ).
    rewrite Hch' in Hch. injection Hch as ->. rewrite HT. by apply HQ.
  - intros r c ch Hr Hc Hch. destruct (g_char _ _ _ _ _ _ Hg r c Hr Hc) as (ch' & Hch' & HT & _).
    rewrite Hch' in Hch. injection Hch as ->. rewrite HT. by apply view_char_ok.
  - intros [] [t1 w1] (E & Hdev1 & Hsh). cbn [fst snd] in *. subst t1.
    assert (on_screen p w1) as Hon.
    { intros r c Hr Hc. destruct (g_char _ _ _ _ _ _ Hg r c Hr Hc) as (ch & Hch & HT & _). rewrite <- HT.
      change (tc_chr ch) with (tc_chr (clean_char ch)). apply Hsh; [done|done| |done].
      cbn. by rewrite list_lookup_fmap, Hch. }
    assert (grid C R (view R p) (shown_on w1 (view R p)) K (with_chars (clean_char <$> chars t) t)) as Hg1.
    { destruct Hg as [H1 H2 H3 H4 H5 H6]. constructor; [done|done|cbn; by rewrite length_fmap| |done|done].
      intros r c Hr Hc. destruct (H4 r c Hr Hc) as (ch & Hch & HT & _). exists (clean_char ch). cbn.
      rewrite list_lookup_fmap, Hch. split; [done|]. split; [done|]. intros _. by apply Hon. }
    apply wp_bind. eexists _, _. split; [done|].
    set (s1 := (with_chars (clean_char <$> chars t) t, w1)). change (rows s1.1) with (rows t). change (currentrow s1.1) with (currentrow t).
    rewrite (g_rows _ _ _ _ _ _ Hg).
    eapply wp_mono; [apply (grid_loop C R R _ (λ _, view R p) (λ _, shown_on w1 (view R p)) (λ _, K) _)|].
    + lia.
    + exact Hg1.
    + intros k s' Hk Hg'. apply (update_line_info_ok C R _ _ K K s' _ _ Hg'); [lia|done|done].
    + intros [] s2 [(Hr2 & Hc2 & Hw2) Hg2]. cbn in Hr2, Hc2, Hw2. rewrite Hw2. split; [|done].
      constructor; [done|done|congruence|congruence|by rewrite Hw2|done|]. exists K. by rewrite Hw2.
Qed.

(** The terminal shows the end of what was typed: whatever is written to it, and
    however often, after a flush every place of the screen shows the character
    that is there on the last lines of a roll of paper on which the same
    characters were typed, on any device that keeps its promises. *)
Lemma terminal_shows_paper_ok (p : paper) (s : vt100tty * W) (data : list Z) :
  console p s → Forall (λ chr, chr = 10 ∨ chr = 13 ∨ char_ok (s8 chr)) data → Z.of_nat (length data) ≤ STREAM_MAX_TRANSFER_SIZE →
  ∃ s', (n ← stream_op_write data; _ ← stream_op_flush; mret n) s = Ok (Z.of_nat (length data), s') ∧
    console (foldl (typed C) p data) s' ∧ on_screen (foldl (typed C) p data) s'.2.
Proof using Type.
  intros Hc Hd Hl. destruct (write_chars_ok data p s Hc Hd) as ([] & s1 & H1 & Hc1).
  destruct (flush_ok _ s1 Hc1) as ([] & s2 & H2 & Hc2 & Hon). exists s2. split; [|done].
  unfold stream_op_write, massert, lift, assert_, mbind, M_bind. destruct (Z.leb_spec (Z.of_nat (length data)) STREAM_MAX_TRANSFER_SIZE); [|lia].
  unfold mbind, M_bind in *. rewrite H1. cbn. by rewrite H2.
Qed.

(** ** Initialisation *)

Definition empty_paper : paper := Paper [] ([], false) 0.

Lemma view_empty r c : 0 < R → view R empty_paper r c = 32.
Proof using Type.
  intros HR. unfold view, empty_paper, lines. cbn [finished current app]. destruct (Z.to_nat (_ + r)) as [|[|k]]; done.
Qed.

Lemma init_line_ok T Q K (s : vt100tty * W) r : 0 < C ∧ 0 < R ∧ R * C < 2 ^ 31 → grid C R T Q K s.1 → 0 ≤ r < R →
  wp (_ ← for_ (seqZ 0 C) (λ c, i ← char_at r c; _ ← update_char i (λ x, Char 32 (need_supdate x));
        i ← char_at r c; update_char i dirty); update_line_info r line_dirty) s
    (to_grid C R (λ r' c, if r' =? r then 32 else T r' c) (λ r' c, if r' =? r then False else Q r' c) K s).
Proof using Type.
  intros Hdims Hg Hr. eapply (grid_seq C R).
  2:{ intros s' Hg'. apply (update_line_info_ok C R _ _ K K s' _ _ Hg'); [lia|done|done]. }
  eapply (to_grid_ext C R).
  { apply (grid_loop C R C _ (λ k r' c, if (r' =? r) && (c <? k) then 32 else T r' c)
      (λ k r' c, if (r' =? r) && (c <? k) then False else Q r' c) (λ _, K)); [lia| |].
    - eapply grid_ext; [exact Hg| |done]. intros r' c Hr' Hc. destruct (Z.ltb_spec c 0); [lia|]. by rewrite andb_false_r.
    - intros k s' Hk Hg'. apply wp_bind. eexists _, s'. split; [apply (char_at_ok C R Hdims _ _ _ s' _ _ Hg'); lia|].
      eapply (grid_seq C R _ (λ r' c, if (r' =? r) && (c <? k) then False else Q r' c)).
      { apply (update_char_ok C R Hdims _ _ _ (λ r' c, if (r' =? r) && (c <? k + 1) then 32 else T r' c) _ _ r k _ _ Hg'); [lia..| |].
        - intros ch _ HQ. rewrite Z.eqb_refl in *. destruct (Z.ltb_spec k (k + 1)); [done|lia].
        - intros r' c' Hr' Hc' Hne. destruct (Z.eqb_spec r' r) as [->|]; [|done]. cbn [andb].
          by destruct (Z.ltb_spec c' k), (Z.ltb_spec c' (k + 1)); try lia. }
      intros s2 Hg2. apply wp_bind. eexists _, s2. split; [apply (char_at_ok C R Hdims _ _ _ s2 _ _ Hg2); lia|].
      apply (update_char_ok C R Hdims _ _ _ _ _ _ r k _ _ Hg2); [lia..|by intros ch HT _|].
      intros r' c' Hr' Hc' Hne. split; [done|]. destruct (Z.eqb_spec r' r) as [->|]; [|done]. cbn [andb].
      by destruct (Z.ltb_spec c' k), (Z.ltb_spec c' (k + 1)); try lia. }
  - intros r' c Hr' Hc. cbv beta. destruct (Z.eqb_spec r' r); cbn [andb]; [|done]. destruct (Z.ltb_spec c C); [done|lia].
  - done.
Qed.

Lemma vt100tty_init_ok (s : vt100tty * W) (lineinfos0 : list vt100tty_line_info) (chars0 : list vt100tty_char) :
  tty_ok C R s.2 → currentrow s.1 = 0 → currentcolumn s.1 = 0 →
  Z.of_nat (length lineinfos0) = R → Z.of_nat (length chars0) = R * C →
  wp (vt100tty_init lineinfos0 chars0 C R) s (λ _ s', console empty_paper s' ∧ s'.2 = s.2).
Proof using Type.
  intros Hdev Hrow Hcol Hli Hch. pose proof (tty_dims C R s.2 Hdev) as Hdims.
  unfold vt100tty_init. apply wp_bind. eexists _, _. split; [done|].
  set (t0 := Tty lineinfos0 chars0 C R (currentcolumn s.1) (currentrow s.1)).
  set (T0 := λ r c, from_option tc_chr 0 (chars0 !! Z.to_nat (r * C + c))).
  set (K0 := λ r, from_option is_continuation false (lineinfos0 !! Z.to_nat r)).
  assert (grid C R T0 (λ _ _, True) K0 t0) as Hg0.
  { constructor; try done.
    - intros r c Hr Hc. destruct (lookup_lt_is_Some_2 chars0 (Z.to_nat (r * C + c))) as [ch E]; [nia|].
      exists ch. unfold T0. by rewrite E.
    - intros r Hr. destruct (lookup_lt_is_Some_2 lineinfos0 (Z.to_nat r)) as [i E]; [lia|]. exists i. unfold K0. by rewrite E. }
  eapply wp_mono; [apply (grid_loop C R R _ (λ k r c, if r <? k then 32 else T0 r c) (λ k r _, if r <? k then False else True) (λ _, K0) (t0, s.2))|].
  - lia.
  - eapply grid_ext; [exact Hg0| |done]. intros r c Hr Hc. by destruct (Z.ltb_spec r 0); [lia|].
  - intros k s' Hk Hg'. eapply (to_grid_ext C R); [by apply (init_line_ok _ _ _ _ k Hdims Hg')| |done].
    intros r c Hr Hc. cbv beta. destruct (Z.eqb_spec r k) as [->|]; [by destruct (Z.ltb_spec k (k + 1)); [|lia]|].
    by destruct (Z.ltb_spec r k), (Z.ltb_spec r (k + 1)); try lia.
  - intros [] s1 [(Hr1 & Hc1 & Hw1) Hg1]. split; [|done]. constructor; try done.
    + cbn. lia.
    + cbn in Hr1 |- *. lia.
    + cbn in Hc1 |- *. lia.
    + by rewrite Hw1.
    + by repeat constructor.
    + exists K0. split; [|cbn; lia]. eapply grid_ext; [exact Hg1| |done]. intros r c Hr Hc. cbv beta.
      destruct (Z.ltb_spec r R); [|lia]. by rewrite view_empty by lia.
Qed.
End Console.
