(* ===== verification/Fbtty.v ===== *)
(** The terminal on the frame buffer (src/kernel/raster/fbtty.c): the device
    behind the text terminal that draws its characters. *)
From S2P Require Import Prelude MiscMath HeapIface StrUtil Psf PsfCorrect Fb Vt100.

(** The frame buffer, and [s_linetempbuf] with the characters it points to. *)
Record fbtty := Fbtty { the_fb : fb; s_linetempbuf : option (list Z) }.

(** A loop with local variables. *)
Fixpoint fold_m {S A X} (l : list A) (f : A → X → M S X) (x : X) : M S X :=
  match l with
  | [] => mret x
  | a :: l => x ← f a x; fold_m l f x
  end.

(** The characters before the null character. *)
Fixpoint c_string (l : list Z) : res (list Z) :=
  match l with
  | [] => Fault Out_of_bounds
  | x :: l => if x =? 0 then Ok [] else l ← c_string l; Ok (x :: l)
  end.

Section Fbtty.
Variables (font : list Z) (p : psf).
Local Abbreviation MM A := (M (vt100tty * fbtty) A).

Definition in_fb {A} (f : M fb A) : MM A := λ '(t, w),
  '(a, s) ← f (the_fb w); Ok (a, (t, Fbtty s (s_linetempbuf w))).
Definition get_buf : MM (list Z) := λ s,
  match s_linetempbuf s.2 with Some b => Ok (b, s) | None => Fault Bad_pointer end.
Definition set_buf (b : option (list Z)) : MM unit := λ '(t, w), Ok (tt, (t, Fbtty (the_fb w) b)).
Definition write_buf (i chr : Z) : MM unit :=
  b ← get_buf;
  b ← lift (wr b i chr);
  set_buf (Some b).

(** The body of the loop over the columns; its variables are [writepos],
    [writelen] and the pointer [src], an index into the characters. *)
Definition update_cell (row col : Z) (x : Z * Z * Z) : MM (Z * Z * Z) :=
  let '(writepos, writelen, src) := x in
  t ← get_tty;
  c ← lift (rd (chars t) src);
  '(writepos, writelen) ← (if need_supdate c then
      let writepos := if writelen =? 0 then col else writepos in
      _ ← write_buf writelen (tc_chr c);
      _ ← update_char src (λ c, Char (tc_chr c) false);
      mret (writepos, writelen + 1)
    else mret (writepos, writelen));
  t ← get_tty;
  c ← lift (rd (chars t) src);
  writelen ← (if (negb (need_supdate c) || (col =? columns t - 1)) && negb (writelen =? 0) then
      _ ← write_buf writelen 0;
      let destx := s32 (writepos * psf_getwidth p) in
      let desty := s32 (row * psf_getheight p) in
      _ ← in_fb (fb_draw_rect (s32 (writelen * psf_getwidth p)) (psf_getheight p) destx desty black);
      b ← get_buf;
      text ← lift (c_string b);
      _ ← in_fb (fb_draw_text font p text destx desty white);
      mret 0
    else mret writelen);
  mret (writepos, writelen, src + 1).

Definition vt100tty_op_updatescreen : MM unit :=
  b ← (λ s, Ok (s_linetempbuf s.2, s));
  _ ← massert (match b with Some _ => true | None => false end);
  t ← get_tty;
  _ ← fold_m (seqZ 0 (rows t)) (λ row, fold_m (seqZ 0 (columns t)) (update_cell row)) (0, 0, 0);
  in_fb fb_update.

Definition vt100tty_op_scroll (lines : Z) : MM unit := in_fb (fb_scroll (s32 (lines * psf_getheight p))).

#[export] Instance fbtty_ops : TtyOps fbtty := {|
  update_screen := vt100tty_op_updatescreen;
  scroll := Some vt100tty_op_scroll;
|}.

(** The memory of the arrays is zeroed; when there is not enough of it, the
    terminal stays as it is. The console is not part of the state. *)
Definition on_tty {H A} (f : MM A) : M ((vt100tty * fbtty) * H) A := λ '(s, h), '(a, s) ← f s; Ok (a, (s, h)).
Definition on_heap {H A} (f : M H A) : M ((vt100tty * fbtty) * H) A := λ '(s, h), '(a, h) ← f h; Ok (a, (s, h)).
Definition fbtty_init {H : Type} `{!HeapOps H} : M ((vt100tty * fbtty) * H) unit :=
  w ← on_tty (in_fb fb_get_width);
  h ← on_tty (in_fb fb_get_height);
  _ ← on_tty (in_fb (fb_draw_rect w h 0 0 black));
  if (psf_getwidth p =? 0) || (psf_getheight p =? 0) then throw Div_by_zero
  else
    let columns := Z.quot w (psf_getwidth p) in
    let rows := Z.quot h (psf_getheight p) in
    lineinfos ← on_heap (heap_calloc 1 (u32 rows) HEAP_FLAG_ZEROMEMORY);
    chars ← on_heap (heap_calloc 2 (u32 (s32 (columns * rows))) HEAP_FLAG_ZEROMEMORY);
    linetempbuf ← on_heap (heap_calloc 1 (u32 (columns + 1)) HEAP_FLAG_ZEROMEMORY);
    _ ← on_tty (set_buf (if linetempbuf =? 0 then None else Some (replicate (Z.to_nat (columns + 1)) 0)));
    if (lineinfos =? 0) || (chars =? 0) || (linetempbuf =? 0) then
      _ ← on_heap (heap_free lineinfos);
      _ ← on_heap (heap_free chars);
      on_heap (heap_free linetempbuf)
    else
      on_tty (vt100tty_init (replicate (Z.to_nat rows) (LineInfo false false))
                            (replicate (Z.to_nat (columns * rows)) (Char 0 false)) columns rows).
End Fbtty.
