(* ===== verification/FbttyCorrect.v ===== *)
(** The terminal on the frame buffer keeps the promises of a device: every
    character is on the screen as its glyph, white on black. *)
From S2P Require Import Prelude MiscMath HeapIface StrUtil Psf PsfCorrect Fb FbDraw FbCorrect FbScroll.
From S2P Require Import Vt100 Vt100Correct Fbtty.

(** ** Pixels *)

(** A pixel has a colour, in the back buffer and on the screen. *)
Definition shows_pixel (s : fb) (x y rgb : Z) : Prop :=
  (∃ b, s_backbuffer s = Some b ∧ b !! Z.to_nat (y * s_width s + x) = Some rgb) ∧ shown s x y rgb.

Lemma shows_pixel_buffer s C x y rgb : displays s C → 0 ≤ x < s_width s → 0 ≤ y < s_height s → shows_pixel s x y rgb → C x y = rgb.
Proof.
  intros Hd Hx Hy [(b' & Hb' & Hpix) _]. destruct (holds_pixels _ _ (dp_holds Hd)) as (b & Hb & _ & Hp).
  rewrite Hb in Hb'. injection Hb' as <-. rewrite Hp in Hpix by done. by injection Hpix.
Qed.
Lemma canvas_shown s C x y rgb : displays s C → 0 ≤ x < s_width s → 0 ≤ y < s_height s →
  C x y = rgb → shown s x y rgb → shows_pixel s x y rgb.
Proof.
  intros Hd Hx Hy <- Hsh. destruct (holds_pixels _ _ (dp_holds Hd)) as (b & Hb & _ & Hp).
  split; [exists b; split; [done|by apply Hp]|done].
Qed.

Section Device.
Variables (font : list Z) (p : psf) (s0 : fb).
Hypothesis Hfont : narrow_font font p.
Hypothesis Hblank : ∃ g, glyph_at font p 32 g.
Local Abbreviation fw := (s_fontwidth p).
Local Abbreviation fh := (s_fontheight p).

(** The colour of a pixel of a character, white or black; nothing is drawn for the
    null character. *)
Definition cell_color (chr dx dy : Z) : Z :=
  if negb (chr =? 0) && Z.testbit (glyph_line font (glyph_of p chr) dy) (7 - dx) then 0x7fff else 0.

Definition drawable (chr : Z) : Prop := chr = 0 ∨ ∃ g, glyph_at font p chr g.

Definition cell_on (C : canvas) (r c chr : Z) : Prop := ∀ dx dy, 0 ≤ dx < fw → 0 ≤ dy < fh →
  C (c * fw + dx) (r * fh + dy) = cell_color chr dx dy.
Definition cell_pixels (w : fbtty) (r c chr : Z) : Prop := ∀ dx dy, 0 ≤ dx < fw → 0 ≤ dy < fh →
  shows_pixel (the_fb w) (c * fw + dx) (r * fh + dy) (cell_color chr dx dy).

(** The frame buffer is in order, in the mode of [s0], and has room for the
    characters. *)
Record screen_fits (Cs Rs : Z) (s : fb) : Prop := ScreenFits {
  sf_columns : 0 < Cs; sf_rows : 0 < Rs;
  sf_width : Cs * fw ≤ s_width s; sf_height : Rs * fh ≤ s_height s;
  sf_words : whole_words s;
}.
Record device_ok (Cs Rs : Z) (w : fbtty) : Prop := DeviceOk {
  do_mode : same_geometry s0 (the_fb w);
  do_fits : screen_fits Cs Rs (the_fb w);
  do_displays : ∃ C, displays (the_fb w) C;
  do_settled : settled (the_fb w);
  do_buf : ∃ b, s_linetempbuf w = Some b ∧ Z.of_nat (length b) = Cs + 1;
}.

Lemma screen_fits_same Cs Rs s s' : screen_fits Cs Rs s → same_geometry s s' → screen_fits Cs Rs s'.
Proof using Type.
  intros [? ? ? ? (? & ? & ?)] (Hw & Hh & Hp & _ & _). constructor; try congruence; unfold whole_words; rewrite Hw, Hp || rewrite ?Hw, ?Hh; try done.
Qed.

Lemma cell_in_screen Cs Rs s r c dx dy : screen_fits Cs Rs s → 0 ≤ r < Rs → 0 ≤ c < Cs → 0 ≤ dx < fw → 0 ≤ dy < fh →
  0 ≤ c * fw + dx < s_width s ∧ 0 ≤ r * fh + dy < s_height s.
Proof using Type. intros [? ? ? ? _] Hr Hc Hdx Hdy. nia. Qed.

Lemma cell_pixels_on Cs Rs w C r c chr : screen_fits Cs Rs (the_fb w) → displays (the_fb w) C →
  0 ≤ r < Rs → 0 ≤ c < Cs → cell_pixels w r c chr → cell_on C r c chr.
Proof using Type.
  intros Hf Hd Hr Hc H dx dy Hdx Hdy. destruct (cell_in_screen Cs Rs _ r c dx dy Hf Hr Hc Hdx Hdy).
  by apply (shows_pixel_buffer (the_fb w)), H.
Qed.
Lemma cell_on_pixels Cs Rs w C r c chr : screen_fits Cs Rs (the_fb w) → displays (the_fb w) C → undamaged (the_fb w) →
  0 ≤ r < Rs → 0 ≤ c < Cs → cell_on C r c chr → cell_pixels w r c chr.
Proof using Type.
  intros Hf Hd Hu Hr Hc H dx dy Hdx Hdy. destruct (cell_in_screen Cs Rs _ r c dx dy Hf Hr Hc Hdx Hdy).
  apply (canvas_shown _ C); [done..|by apply H|]. rewrite <- (H dx dy Hdx Hdy). apply (dp_shown Hd); [done..|].
  unfold damaged. destruct Hu. lia.
Qed.

Lemma device_dims Cs Rs w : device_ok Cs Rs w → 0 < Cs ∧ 0 < Rs ∧ Rs * Cs < 2 ^ 31.
Proof using Hfont.
  intros [_ [? ? ? ? _] (C & Hd) _ _]. pose proof (holds_width _ _ (dp_holds Hd)). pose proof (holds_height _ _ (dp_holds Hd)).
  pose proof (narrow_width _ _ Hfont). pose proof (narrow_height _ _ Hfont). split; [done|]. split; [done|].
  assert (Cs < 2 ^ 15) by nia. assert (Rs < 2 ^ 15) by nia. nia.
Qed.

(** ** Scrolling *)

Lemma wp_in_fb {A} (f : M fb A) t w (Q : A → vt100tty * fbtty → Prop) :
  wp f (the_fb w) (λ a s, Q a (t, Fbtty s (s_linetempbuf w))) → wp (in_fb f) (t, w) Q.
Proof using Type. intros (a & s & H & HQ). exists a, (t, Fbtty s (s_linetempbuf w)). unfold in_fb. rewrite H. done. Qed.

Lemma op_scroll_ok Cs Rs t w : device_ok Cs Rs w →
  wp (vt100tty_op_scroll p 1) (t, w) (λ _ s', s'.1 = t ∧ device_ok Cs Rs s'.2 ∧
    ∀ r c chr, 0 ≤ r < Rs - 1 → 0 ≤ c < Cs → cell_pixels w (r + 1) c chr → cell_pixels s'.2 r c chr).
Proof using Hfont.
  intros [Hmode Hf (C & Hd) Hu Hb]. pose proof (narrow_height _ _ Hfont). pose proof Hf as [HC HR Hw Hh Hwords].
  unfold vt100tty_op_scroll, psf_getheight. apply wp_in_fb. rewrite Z.mul_1_l, s32_small by lia.
  eapply wp_mono; [apply (fb_scroll_ok _ C); try done; nia|]. intros [] s' (Hd' & Hu' & Hgeo & Hmoved).
  pose proof (screen_fits_same _ _ _ _ Hf Hgeo) as Hf'. split; [done|]. split.
  - constructor; [by eapply same_geometry_trans|done|by eexists|done|done].
  - intros r c chr Hr Hc Hcell dx dy Hdx Hdy.
    destruct (cell_in_screen Cs Rs s' r c dx dy Hf' ltac:(lia) Hc Hdx Hdy) as [Hx Hy].
    pose proof (cell_pixels_on Cs Rs w C (r + 1) c chr Hf Hd ltac:(lia) Hc Hcell dx dy Hdx Hdy) as Hon.
    specialize (Hcell dx dy Hdx Hdy). replace ((r + 1) * fh + dy) with (r * fh + dy + fh) in * by lia.
    assert (r * fh + dy < s_height (the_fb w) - fh) as Hlt by nia.
    apply (canvas_shown s' _ _ _ _ Hd' Hx Hy).
    + unfold scrolled. by destruct (Z.ltb_spec (r * fh + dy) (s_height (the_fb w) - fh)); [|lia].
    + destruct Hgeo as (Hw' & _). rewrite Hw' in Hx. apply Hmoved; [done|lia|]. apply Hcell.
Qed.

(** ** Drawing a character *)

Lemma in_cell row col r c dx dy : 0 ≤ dx < fw → 0 ≤ dy < fh →
  in_rect (col * fw) (row * fh) fw fh (c * fw + dx) (r * fh + dy) = (r =? row) && (c =? col).
Proof using Type.
  intros Hdx Hdy. unfold in_rect. destruct (Z.eqb_spec r row) as [->|Hr], (Z.eqb_spec c col) as [->|Hc]; cbn [andb].
  - zcase; cbn; done || lia.
  - assert (c + 1 ≤ col ∨ col + 1 ≤ c) as [|] by lia; zcase; cbn; try done; exfalso; nia.
  - assert (r + 1 ≤ row ∨ row + 1 ≤ r) as [|] by lia; zcase; cbn; try done; exfalso; nia.
  - assert (r + 1 ≤ row ∨ row + 1 ≤ r) as [|] by lia; zcase; cbn; try done; exfalso; nia.
Qed.

Definition text_of (chr : Z) : list Z := if chr =? 0 then [] else [chr].

Lemma c_string_cell (b : list Z) chr : (2 ≤ length b)%nat → c_string (<[1%nat := 0]> (<[0%nat := chr]> b)) = Ok (text_of chr).
Proof using Type.
  intros Hl. destruct b as [|x [|y b]]; [cbn in Hl; lia..|]. cbn. unfold text_of. by destruct (Z.eqb_spec chr 0).
Qed.

(** The picture after a character is drawn. *)
Definition paint_cell (row col chr : Z) (C : canvas) : canvas :=
  paint_text font p (text_of chr) (col * fw) (row * fh) white (paint_rect fw fh (col * fw) (row * fh) black C).

Lemma paint_cell_on row col chr C r c chr' : (r = row ∧ c = col → chr' = chr) → (¬ (r = row ∧ c = col) → cell_on C r c chr') →
  cell_on (paint_cell row col chr C) r c chr'.
Proof using Type.
  intros Hsame Hother dx dy Hdx Hdy. unfold paint_cell, text_of, cell_color.
  assert (paint_rect fw fh (col * fw) (row * fh) black C (c * fw + dx) (r * fh + dy) =
    if (r =? row) && (c =? col) then black else C (c * fw + dx) (r * fh + dy)) as Hrect.
  { unfold paint_rect. by rewrite in_cell. }
  destruct (decide (r = row ∧ c = col)) as [[-> ->]|Hne].
  - rewrite Hsame by done. rewrite !Z.eqb_refl in Hrect. destruct (Z.eqb_spec chr 0); cbn [negb andb paint_text]; [done|].
    unfold paint_glyph. rewrite in_cell, !Z.eqb_refl, Hrect by done. cbn [andb].
    replace (row * fh + dy - row * fh) with dy by lia. by replace (7 - (col * fw + dx - col * fw)) with (7 - dx) by lia.
  - assert ((r =? row) && (c =? col) = false) as Hf.
    { destruct (Z.eqb_spec r row), (Z.eqb_spec c col); cbn; try done. destruct Hne. by split. }
    rewrite Hf in Hrect. etrans; [|exact (Hother Hne dx dy Hdx Hdy)]. destruct (chr =? 0); cbn [paint_text]; [done|].
    unfold paint_glyph. by rewrite in_cell, Hf, Hrect by done.
Qed.

Lemma draw_cell_ok Cs Rs row col chr C (s : fb) : screen_fits Cs Rs s → displays s C → 0 ≤ row < Rs → 0 ≤ col < Cs → drawable chr →
  ∃ s1 s2, fb_draw_rect fw fh (col * fw) (row * fh) black s = Ok (tt, s1) ∧
    fb_draw_text font p (text_of chr) (col * fw) (row * fh) white s1 = Ok (tt, s2) ∧
    displays s2 (paint_cell row col chr C) ∧ same_geometry s s2.
Proof using Hfont.
  intros [HC HR Hw Hh _] Hd Hr Hc Hchr. pose proof (narrow_width _ _ Hfont). pose proof (narrow_height _ _ Hfont).
  assert (0 ≤ col * fw ∧ col * fw + fw ≤ s_width s ∧ 0 ≤ row * fh ∧ row * fh + fh ≤ s_height s) as (H1 & H2 & H3 & H4) by nia.
  assert (0 ≤ black ∧ 0 ≤ white) as [Hb Hwh] by (vm_compute; split; discriminate).
  destruct (draw_call_displays font p (DrawRect fw fh (col * fw) (row * fh) black) s C Hfont Hd) as ([] & s1 & E1 & Hd1 & Hg1).
  { cbn. split_and!; lia. }
  pose proof Hg1 as (Hw1 & Hh1 & _).
  destruct (draw_call_displays font p (DrawText (text_of chr) (col * fw) (row * fh) white) s1 _ Hfont Hd1) as ([] & s2 & E2 & Hd2 & Hg2).
  { cbn. rewrite Hw1, Hh1. unfold text_of. destruct (Z.eqb_spec chr 0); cbn [length]; split_and!; try lia; [by constructor|].
    destruct Hchr as [|Hg]; [done|]. by repeat constructor. }
  exists s1, s2. split; [exact E1|]. split; [exact E2|]. split; [exact Hd2|]. by eapply same_geometry_trans.
Qed.

(** ** The loops *)

Lemma wp_fold_from {S X} (n : nat) (f : Z → X → M S X) (I : Z → X → S → Prop) : ∀ a x s,
  (∀ k x s, a ≤ k < a + Z.of_nat n → I k x s → wp (f k x) s (I (k + 1))) → I a x s →
  wp (fold_m (seqZ a (Z.of_nat n)) f x) s (I (a + Z.of_nat n)).
Proof using Type.
  induction n as [|n IH]; intros a x s Hf HI; [apply wp_ret; by rewrite Z.add_0_r|].
  rewrite Nat2Z.inj_succ, seqZ_cons by lia. cbn [fold_m]. rewrite Z.pred_succ, <- !Z.add_1_r in *.
  apply wp_bind. eapply wp_mono; [apply Hf; [lia|done]|]. intros x' s' HI'.
  replace (a + (Z.of_nat n + 1)) with (a + 1 + Z.of_nat n) by lia. apply IH; [|done]. intros k x2 s2 Hk. apply Hf. lia.
Qed.
Lemma wp_fold {S X} n (f : Z → X → M S X) (I : Z → X → S → Prop) x s : 0 ≤ n →
  (∀ k x s, 0 ≤ k < n → I k x s → wp (f k x) s (I (k + 1))) → I 0 x s → wp (fold_m (seqZ 0 n) f x) s (I n).
Proof using Type. intros Hn Hf HI. rewrite <- (Z2Nat.id n) in * by done. by apply wp_fold_from. Qed.

(** The first [i] characters are clean. *)
Definition cleaned (i : Z) (t : vt100tty) : vt100tty :=
  with_chars ((clean_char <$> take (Z.to_nat i) (chars t)) ++ drop (Z.to_nat i) (chars t)) t.

Lemma cleaned_lookup i j t : 0 ≤ i ≤ j →
  chars (cleaned i t) !! Z.to_nat j = chars t !! Z.to_nat j.
Proof using Type.
  intros Hij. cbn. destruct (decide (Z.to_nat i < length (chars t))%nat).
  - rewrite lookup_app_r by (rewrite length_fmap, length_take; lia). rewrite length_fmap, length_take, lookup_drop. f_equal. lia.
  - rewrite lookup_app_r by (rewrite length_fmap, length_take; lia). rewrite lookup_drop, !lookup_ge_None_2; [done|lia..].
Qed.

Lemma cleaned_next i t ch : 0 ≤ i → chars t !! Z.to_nat i = Some ch →
  cleaned (i + 1) t = with_chars (<[Z.to_nat i := clean_char ch]> (chars (cleaned i t))) (cleaned i t).
Proof using Type.
  intros Hi Hch. unfold cleaned, with_chars. cbn. f_equal. replace (Z.to_nat (i + 1)) with (S (Z.to_nat i)) by lia.
  pose proof (lookup_lt_Some _ _ _ Hch). rewrite (take_S_r _ _ _ Hch), fmap_app, (drop_S _ _ _ Hch), <- app_assoc.
  rewrite insert_app_r_alt by (rewrite length_fmap, length_take; lia). rewrite length_fmap, length_take.
  by replace (_ - _)%nat with 0%nat by lia.
Qed.

Lemma cleaned_all Cs Rs t : tty_wf Cs Rs t → cleaned (Rs * Cs) t = with_chars (clean_char <$> chars t) t.
Proof using Type.
  intros [_ _ Hl]. unfold cleaned. rewrite <- Hl, Nat2Z.id, drop_all, take_ge, app_nil_r by done. done.
Qed.

Section Update.
Variables (Cs Rs : Z) (t : vt100tty).
Hypothesis Ht : tty_wf Cs Rs t.
Hypothesis Hchars : ∀ r c ch, 0 ≤ r < Rs → 0 ≤ c < Cs → chars t !! Z.to_nat (r * Cs + c) = Some ch → drawable (tc_chr ch).

(** The characters before the index [i], and those that were clean, are in the
    picture. *)
Record drawn_to (i : Z) (s : vt100tty * fbtty) : Prop := DrawnTo {
  dt_tty : s.1 = cleaned i t;
  dt_mode : same_geometry s0 (the_fb s.2);
  dt_fits : screen_fits Cs Rs (the_fb s.2);
  dt_buf : ∃ b, s_linetempbuf s.2 = Some b ∧ Z.of_nat (length b) = Cs + 1;
  dt_canvas : ∃ C, displays (the_fb s.2) C ∧ ∀ r c ch, 0 ≤ r < Rs → 0 ≤ c < Cs →
    chars t !! Z.to_nat (r * Cs + c) = Some ch → r * Cs + c < i ∨ need_supdate ch = false → cell_on C r c (tc_chr ch);
}.

Lemma update_dirty_ok row col wpos b C ch (s : fb) : 0 ≤ row < Rs → 0 ≤ col < Cs → screen_fits Cs Rs s → displays s C →
  Z.of_nat (length b) = Cs + 1 → chars t !! Z.to_nat (row * Cs + col) = Some ch → need_supdate ch = true →
  wp (update_cell font p row col (wpos, 0, row * Cs + col)) (cleaned (row * Cs + col) t, Fbtty s (Some b)) (λ x s',
    (∃ wpos', x = (wpos', 0, row * Cs + col + 1)) ∧ s'.1 = cleaned (row * Cs + col + 1) t ∧
    (∃ b', s_linetempbuf s'.2 = Some b' ∧ Z.of_nat (length b') = Cs + 1) ∧
    displays (the_fb s'.2) (paint_cell row col (tc_chr ch) C) ∧ same_geometry s (the_fb s'.2)).
Proof using Hfont Ht Hchars.
  intros Hr Hc Hf Hd Hbl Hch Hdirty. destruct Ht as [Hcols Hrows Hlen]. pose proof (Hchars row col ch Hr Hc Hch) as Hdraw.
  set (i := row * Cs + col) in *. assert (0 ≤ i < Rs * Cs) as Hi by (unfold i; nia).
  pose proof (cleaned_lookup i i t ltac:(lia)) as Hlook. rewrite Hch in Hlook. pose proof (lookup_lt_Some _ _ _ Hlook) as Hll.
  pose proof (holds_width _ _ (dp_holds Hd)) as HW. pose proof (holds_height _ _ (dp_holds Hd)) as HH.
  pose proof (narrow_width _ _ Hfont). pose proof (narrow_height _ _ Hfont). pose proof Hf as [HC HR Hsw Hsh _].
  assert (col * fw < 2 ^ 15 ∧ row * fh < 2 ^ 15) as [Hx Hy] by nia.
  destruct (draw_cell_ok Cs Rs row col (tc_chr ch) C s Hf Hd Hr Hc Hdraw) as (s1 & s2 & E1 & E2 & Hd2 & Hg2).
  assert (rd (chars (cleaned i t)) i = Ok ch) as Hrd by (apply rd_ok; done || lia).
  unfold update_cell. apply wp_bind. eexists _, _. split; [done|]. apply wp_bind, (wp_lift _ ch); [exact Hrd|].
  rewrite Hdirty. apply wp_bind. cbn [Z.eqb].
  apply wp_bind. eexists tt, (_, Fbtty s (Some (<[0%nat := tc_chr ch]> b))). split.
  { unfold write_buf, get_buf, set_buf, mbind, M_bind, lift. cbn. rewrite wr_ok by lia. done. }
  apply wp_bind. eexists tt, (cleaned (i + 1) t, _). split.
  { unfold update_char, get_tty, modify_tty, mbind, M_bind, lift. cbn [fst snd]. rewrite Hrd, wr_ok by lia. cbn [fst snd].
    rewrite (cleaned_next i t ch) by (done || lia). done. }
  apply wp_ret. apply wp_bind. eexists _, _. split; [done|]. apply wp_bind, (wp_lift _ (clean_char ch)).
  { apply rd_ok; [lia|]. cbn [fst]. rewrite (cleaned_next i t ch) by (done || lia). apply list_lookup_insert_eq. lia. }
  cbn [need_supdate clean_char negb orb andb Z.eqb Z.add]. apply wp_bind. apply wp_bind.
  eexists tt, (_, Fbtty s (Some (<[1%nat := 0]> (<[0%nat := tc_chr ch]> b)))). split.
  { unfold write_buf, get_buf, set_buf, mbind, M_bind, lift. cbn [snd s_linetempbuf]. rewrite wr_ok by (rewrite length_insert; lia). done. }
  cbv zeta. unfold psf_getwidth, psf_getheight. rewrite Z.mul_1_l, !s32_small by lia.
  apply wp_bind. eexists tt, (_, Fbtty s1 _). split; [unfold in_fb; cbn [the_fb]; rewrite E1; done|].
  apply wp_bind. eexists _, _. split; [done|]. apply wp_bind, (wp_lift _ (text_of (tc_chr ch))); [apply c_string_cell; lia|].
  apply wp_bind. eexists tt, (_, Fbtty s2 _). split; [unfold in_fb; cbn [the_fb]; rewrite E2; done|].
  apply wp_ret, wp_ret. split; [by eexists|]. split; [done|]. split; [|done].
  eexists. split; [done|]. by rewrite !length_insert.
Qed.

Lemma update_cell_ok row col wpos (s : vt100tty * fbtty) : 0 ≤ row < Rs → 0 ≤ col < Cs → drawn_to (row * Cs + col) s →
  wp (update_cell font p row col (wpos, 0, row * Cs + col)) s (λ x s', (∃ wpos', x = (wpos', 0, row * Cs + col + 1)) ∧
    drawn_to (row * Cs + col + 1) s').
Proof using Hfont Ht Hchars.
  intros Hr Hc [Hst Hmode Hf (b & Hb & Hbl) (C & Hd & Hcells)]. destruct s as [t1 w]. cbn [fst snd] in *. subst t1.
  destruct Ht as [Hcols Hrows Hlen]. set (i := row * Cs + col) in *. assert (0 ≤ i < Rs * Cs) as Hi by (unfold i; nia).
  destruct (lookup_lt_is_Some_2 (chars t) (Z.to_nat i)) as [ch Hch]; [lia|].
  pose proof (cleaned_lookup i i t ltac:(lia)) as Hlook. rewrite Hch in Hlook.
  assert (rd (chars (cleaned i t)) i = Ok ch) as Hrd by (apply rd_ok; done || lia).
  destruct (need_supdate ch) eqn:Hdirty.
  - destruct w as [sf lb]. cbn [s_linetempbuf the_fb] in *. subst lb.
    eapply wp_mono; [by apply (update_dirty_ok row col wpos b C ch sf)|].
    intros x [t2 w2] (Hx & Ht2 & Hb2 & Hd2 & Hg2). split; [exact Hx|]. constructor; [done|by eapply same_geometry_trans|by eapply screen_fits_same|done|].
    eexists. split; [exact Hd2|]. intros r c ch' Hr' Hc' Hch' Hcase. apply paint_cell_on.
    + intros [-> ->]. fold i in Hch'. rewrite Hch in Hch'. by injection Hch' as <-.
    + intros Hne. apply (Hcells r c); [done..|]. destruct Hcase as [Hlt|]; [left|by right].
      assert (r * Cs + c ≠ i); [|lia]. intros E. apply Hne. unfold i in E. assert (r = row) as -> by nia. split; [done|lia].
  - unfold update_cell. apply wp_bind. eexists _, _. split; [done|]. apply wp_bind, (wp_lift _ ch); [exact Hrd|].
    rewrite Hdirty. apply wp_bind, wp_ret. apply wp_bind. eexists _, _. split; [done|]. apply wp_bind, (wp_lift _ ch); [exact Hrd|].
    rewrite Hdirty. cbn [negb andb orb Z.eqb]. apply wp_bind, wp_ret, wp_ret. split; [by exists wpos|].
    constructor; [|done|done|by exists b|].
    + cbn [fst]. rewrite (cleaned_next i t ch) by (done || lia).
      assert (clean_char ch = ch) as -> by (destruct ch as [x []]; done). by rewrite list_insert_id.
    + exists C. split; [done|]. intros r c ch' Hr' Hc' Hch' [Hlt|Hcl]; [|by apply (Hcells r c); [..|right]].
      destruct (decide (r * Cs + c = i)) as [E|Hne]; [|apply (Hcells r c); try done; left; lia].
      apply (Hcells r c); try done. right. rewrite E, Hch in Hch'. by injection Hch' as <-.
Qed.

Lemma update_cells_ok (s : vt100tty * fbtty) : 0 < Cs → 0 < Rs → drawn_to 0 s →
  wp (fold_m (seqZ 0 Rs) (λ row, fold_m (seqZ 0 Cs) (update_cell font p row)) (0, 0, 0)) s (λ _ s', drawn_to (Rs * Cs) s').
Proof using Hfont Ht Hchars.
  intros HC HR H0. eapply wp_mono; [apply (wp_fold Rs _ (λ row x s', (∃ wpos, x = (wpos, 0, row * Cs)) ∧ drawn_to (row * Cs) s'))|].
  - lia.
  - intros row x s' Hrow [[wpos ->] Hs']. eapply wp_mono.
    { apply (wp_fold Cs _ (λ col x s', (∃ wpos, x = (wpos, 0, row * Cs + col)) ∧ drawn_to (row * Cs + col) s')); [lia| |].
      - intros col x s2 Hcol [[wpos2 ->] Hs2]. rewrite Z.add_assoc. by apply update_cell_ok.
      - rewrite Z.add_0_r. split; [by exists wpos|done]. }
    intros x s2 [[wpos2 ->] Hs2]. replace ((row + 1) * Cs) with (row * Cs + Cs) by lia. split; [by exists wpos2|done].
  - split; [by exists 0|done].
  - by intros x s' [_ Hs'].
Qed.
End Update.

Lemma op_updatescreen_ok Cs Rs t w : device_ok Cs Rs w → tty_wf Cs Rs t → shows_clean (cell_pixels w) Cs Rs t →
  (∀ r c ch, 0 ≤ r < Rs → 0 ≤ c < Cs → chars t !! Z.to_nat (r * Cs + c) = Some ch → drawable (tc_chr ch)) →
  wp (vt100tty_op_updatescreen font p) (t, w) (λ _ s', s'.1 = with_chars (clean_char <$> chars t) t ∧ device_ok Cs Rs s'.2 ∧
    shows_clean (cell_pixels s'.2) Cs Rs s'.1).
Proof using Hfont.
  intros [Hmode Hf (C & Hd) Hu (b & Hb & Hbl)] Ht Hclean Hchars. pose proof Hf as [HC HR _ _ _]. pose proof Ht as [Hcols Hrows Hlen].
  unfold vt100tty_op_updatescreen. apply wp_bind. eexists _, _. split; [done|]. cbn [snd]. rewrite Hb.
  apply wp_bind, wp_massert; [done|]. apply wp_bind. eexists _, _. split; [done|]. cbn [fst]. rewrite Hcols, Hrows. apply wp_bind.
  eapply wp_mono; [apply (update_cells_ok Cs Rs t Ht Hchars); [done..|]|].
  - constructor; [by destruct t|done|done|by exists b|]. exists C. split; [done|].
    intros r c ch Hr Hc Hch [Hlt|Hcl]; [nia|]. apply (cell_pixels_on Cs Rs w C); [done..|]. by apply Hclean.
  - intros [[wpos wlen] src] [t1 w1] [Ht1 Hm1 Hf1 Hb1 (C1 & Hd1 & Hcells)]. cbn [fst snd] in *. subst t1. apply wp_in_fb.
    eapply wp_mono; [by apply (fb_update_displays _ C1)|]. intros [] s2 (Hd2 & Hgeo & Hu2). cbn [fst snd].
    pose proof (screen_fits_same _ _ _ _ Hf1 Hgeo) as Hf2.
    rewrite (cleaned_all Cs Rs) by done. split; [done|]. split; [constructor; [by eapply same_geometry_trans|done|by exists C1|by left|done]|].
    intros r c ch Hr Hc Hch _. cbn in Hch. rewrite list_lookup_fmap in Hch.
    destruct (chars t !! Z.to_nat (r * Cs + c)) as [ch'|] eqn:Hch'; [|done]. injection Hch as <-.
    apply (cell_on_pixels Cs Rs (Fbtty s2 _) C1); [done..|]. apply (Hcells r c ch'); [done..|]. left. nia.
Qed.

#[export] Instance fbtty_laws : @TtyLaws fbtty (fbtty_ops font p).
Proof using s0 Hfont Hblank.
  refine (@Build_TtyLaws fbtty (fbtty_ops font p) device_ok cell_pixels drawable device_dims _ _ _).
  - by right.
  - intros f Cs Rs t w Hscroll Hdev Ht. injection Hscroll as <-. by apply op_scroll_ok.
  - intros Cs Rs t w Hdev Ht Hclean Hchars. by apply op_updatescreen_ok.
Defined.
End Device.

(** ** The whole terminal *)

Section Init.
Variables (font : list Z) (p : psf).
Hypothesis Hfont : narrow_font font p.
Hypothesis Hblank : ∃ g, glyph_at font p 32 g.
Context {H : Type} `{!HeapOps H, !HeapSucceeds H}.
Local Abbreviation fw := (s_fontwidth p).
Local Abbreviation fh := (s_fontheight p).
Let the_ops : TtyOps fbtty := fbtty_ops font p.
#[local] Existing Instance the_ops.

Lemma clear_screen_ok s : fresh_screen s →
  wp (fb_draw_rect (s_width s) (s_height s) 0 0 black) s (λ _ s', (∃ C', displays s' C') ∧ same_geometry s s' ∧ settled s').
Proof using Type.
  intros Hfr. pose proof (fresh_screen_displays s Hfr) as Hd. pose proof (dp_holds Hd) as Hh.
  pose proof (holds_width _ _ Hh). pose proof (holds_height _ _ Hh).
  unfold fb_draw_rect. apply wp_bind, wp_gets_fb. cbv zeta. rewrite (baseoffset_eq _ (picture_of s)) by (done || lia). apply wp_bind.
  eapply wp_mono; [apply (fb_draw_rect_pixels (s_width s) (s_height s) 0 0 black s (picture_of s) Hh); lia|].
  intros [] s1 [Hsame Hh1]. eapply wp_mono; [apply (include_damage_ok 0 (0 + s_height s - 1) _ s (picture_of s) _ s1 Hd Hsame Hh1)|].
  - lia.
  - lia.
  - intros x y Hx Hy. unfold paint_rect, in_rect. case_match; [vm_compute; discriminate|by apply (dp_colors Hd)].
  - lia.
  - intros [] s2 ([Hd2 Hg2] & Hf & Hl). destruct (fr_damage s Hfr) as [E1 E2]. rewrite E1, E2 in *. cbn in Hf, Hl.
    destruct Hd2 as [? ? ? ? _]. pose proof Hg2 as (Hw2 & Hh2 & _). split; [|split; [done|right; rewrite Hh2; lia]].
    eexists. apply displays_damaged; [done..|lia|rewrite Hh2; lia].
Qed.

Lemma calloc_succeeds size elements (h : H) : 0 < size → 0 ≤ size * elements ≤ 2 ^ 31 →
  ∃ a h', heap_calloc size elements HEAP_FLAG_ZEROMEMORY h = Ok (a, h') ∧ a ≠ 0.
Proof using HeapSucceeds0.
  intros Hs He. unfold heap_calloc. destruct (Z.eqb_spec size 0); [lia|].
  assert (elements ≤ SIZE_MAX / size) by (apply Z.div_le_lower_bound; [lia|]; unfold SIZE_MAX; change (2 ^ 31) with 2147483648 in He; lia).
  destruct (Z.ltb_spec (SIZE_MAX / size) elements); [lia|]. apply heap_alloc_succeeds.
Qed.

Definition screen_columns (s : fb) : Z := s_width s / fw.
Definition screen_rows (s : fb) : Z := s_height s / fh.

Lemma wp_on_tty {A} (f : M (vt100tty * fbtty) A) s (h : H) (Q : A → (vt100tty * fbtty) * H → Prop) :
  wp f s (λ a s', Q a (s', h)) → wp (on_tty f) (s, h) Q.
Proof using Type. intros (a & s' & E & HQ). exists a, (s', h). unfold on_tty. rewrite E. done. Qed.

Lemma fbtty_init_ok s t lb (h : H) : fresh_screen s → whole_words s → fw ≤ s_width s → fh ≤ s_height s →
  currentrow t = 0 → currentcolumn t = 0 →
  wp (fbtty_init p) ((t, Fbtty s lb), h) (λ _ s',
    @console fbtty _ (fbtty_laws font p s Hfont Hblank) (screen_columns s) (screen_rows s) empty_paper s'.1).
Proof using Hfont Hblank HeapSucceeds0.
  intros Hd Hwords Hfw Hfh Hrow Hcol. pose proof (narrow_width _ _ Hfont). pose proof (narrow_height _ _ Hfont).
  pose proof (fr_width s Hd) as HW. pose proof (fr_height s Hd) as HH.
  set (Cs := screen_columns s). set (Rs := screen_rows s).
  assert (0 < Cs ∧ Cs * fw ≤ s_width s ∧ 0 < Rs ∧ Rs * fh ≤ s_height s) as (HC & HCw & HR & HRh).
  { unfold Cs, Rs, screen_columns, screen_rows. pose proof (Z.div_str_pos (s_width s) fw ltac:(lia)).
    pose proof (Z.div_str_pos (s_height s) fh ltac:(lia)). pose proof (Z.mul_div_le (s_width s) fw ltac:(lia)).
    pose proof (Z.mul_div_le (s_height s) fh ltac:(lia)). lia. }
  assert (Cs < 2 ^ 15 ∧ Rs < 2 ^ 15) as [HC15 HR15] by nia.
  unfold fbtty_init. apply wp_bind, wp_on_tty, wp_in_fb, wp_gets_fb. apply wp_bind, wp_on_tty, wp_in_fb, wp_gets_fb.
  apply wp_bind, wp_on_tty, wp_in_fb. cbn [the_fb s_linetempbuf].
  eapply wp_mono; [by apply (clear_screen_ok s)|]. intros [] s1 ([C1 Hd1] & Hg1 & Hset1).
  unfold psf_getwidth, psf_getheight. destruct (Z.eqb_spec fw 0); [lia|]. destruct (Z.eqb_spec fh 0); [lia|]. cbn [orb].
  rewrite !Z.quot_div_nonneg by lia.
  change (s_width s / fw) with Cs. change (s_height s / fh) with Rs. rewrite (s32_small (Cs * Rs)) by nia.
  rewrite (u32_small Rs), (u32_small (Cs * Rs)), (u32_small (Cs + 1)) by nia.
  destruct (calloc_succeeds 1 Rs h) as (a1 & h1 & E1 & Hn1); [lia|lia|].
  destruct (calloc_succeeds 2 (Cs * Rs) h1) as (a2 & h2 & E2 & Hn2); [lia|nia|].
  destruct (calloc_succeeds 1 (Cs + 1) h2) as (a3 & h3 & E3 & Hn3); [lia|lia|].
  apply wp_bind. eexists a1, (_, h1). split; [unfold on_heap; by rewrite E1|].
  apply wp_bind. eexists a2, (_, h2). split; [unfold on_heap; by rewrite E2|].
  apply wp_bind. eexists a3, (_, h3). split; [unfold on_heap; by rewrite E3|].
  destruct (Z.eqb_spec a1 0), (Z.eqb_spec a2 0), (Z.eqb_spec a3 0); try done. cbn [orb].
  apply wp_bind, wp_on_tty. eexists _, _. split; [done|]. apply wp_on_tty.
  eapply wp_mono; [apply (@vt100tty_init_ok fbtty _ (fbtty_laws font p s Hfont Hblank) Cs Rs (t, Fbtty s1 _))|]; try done.
  - cbn [snd]. constructor; cbn [the_fb s_linetempbuf]; [done| |by exists C1|done|].
    + apply (screen_fits_same p Cs Rs s); [|done]. by constructor.
    + eexists. split; [done|]. rewrite length_replicate. lia.
  - rewrite length_replicate. lia.
  - rewrite length_replicate. nia.
  - intros [] s2 [Hcon _]. exact Hcon.
Qed.

(** C24: The terminal on the frame buffer shows what was written to it: after its
    initialisation on a frame buffer and a screen with any contents, as
    [fb_init_rgb] and [fb_init_indexed] leave them, any text and a flush, the
    pixels of every place of the screen are the glyph, white on black, of the
    character that is there on the last lines of a roll of paper on which the text
    was typed; scrolling, lines that are too long, and text that fills the screen
    many times included. The font has at most eight columns, and the video mode
    more than one bit for each pixel. *)
Theorem fbtty_shows_text (s : fb) (t : vt100tty) (lb : option (list Z)) (h : H) (text : list Z) :
  fresh_screen s → whole_words s → fw ≤ s_width s → fh ≤ s_height s → currentrow t = 0 → currentcolumn t = 0 →
  Forall (λ chr, chr = 10 ∨ chr = 13 ∨ drawable font p (s8 chr)) text → Z.of_nat (length text) ≤ STREAM_MAX_TRANSFER_SIZE →
  ∃ n t' w' h', (_ ← fbtty_init p; on_tty (n ← stream_op_write text; _ ← stream_op_flush; mret n)) ((t, Fbtty s lb), h) =
      Ok (n, ((t', w'), h')) ∧ n = Z.of_nat (length text) ∧ same_geometry s (the_fb w') ∧
    ∀ r c dx dy, 0 ≤ r < screen_rows s → 0 ≤ c < screen_columns s → 0 ≤ dx < fw → 0 ≤ dy < fh →
      shown (the_fb w') (c * fw + dx) (r * fh + dy)
        (cell_color font p (view (screen_rows s) (foldl (typed (screen_columns s)) empty_paper text) r c) dx dy).
Proof using Hfont Hblank HeapSucceeds0.
  intros Hd Hwords Hfw Hfh Hrow Hcol Htext Hlen.
  destruct (fbtty_init_ok s t lb h) as ([] & [s1 h1] & E1 & Hcon); [done..|]. cbn [fst] in *.
  destruct (@terminal_shows_paper_ok fbtty _ (fbtty_laws font p s Hfont Hblank) (screen_columns s) (screen_rows s) empty_paper s1 text Hcon Htext Hlen)
    as ([t' w'] & E2 & Hcon2 & Hon).
  exists (Z.of_nat (length text)), t', w', h1. split; [|split; [done|split]].
  - rewrite (M_bind_step _ _ _ _ _ E1). unfold on_tty. subst the_ops. by rewrite E2.
  - apply (co_device _ _ _ _ Hcon2).
  - intros r c dx dy Hr Hc Hdx Hdy. by apply Hon.
Qed.
End Init.

(** A screen of two lines of two characters, with 24 bits for each pixel. The
    text is longer than the screen: it wraps, and the screen scrolls. *)
#[local] Existing Instances always_heap always_heap_succeeds.

Definition text_file : font_file :=
  FontFile true 1 [] 8 2 2 [[0x18; 0x24]; [0x3c; 0x42]; [0; 0]] [[65]; [66]; [32]] [].
Definition text_font : psf := font_of text_file.
Definition tiny_screen : fb :=
  Fb 16 4 (-1) (-1) (Some (replicate 64 0x1234)) (Rgb 16 8 0 8 8 8) (replicate 192 0xaa) 48 (-1) (-1) update24.
Definition tiny_tty : vt100tty := Tty [] [] 0 0 0 0.
Definition tiny_text : list Z := [65; 66; 65; 10; 66; 13; 66; 65].

Lemma text_font_narrow : narrow_font (file_bytes text_file) text_font.
Proof. constructor; [cbn; lia..|]. apply (bool_decide_unpack _). vm_compute. exact I. Qed.

Lemma text_glyph c : c ∈ [32; 65; 66] → ∃ g, glyph_at (file_bytes text_file) text_font c g.
Proof.
  intros Hc. exists (glyph_of text_font c). revert c Hc. apply Forall_forall.
  repeat constructor; try (vm_compute; discriminate).
Qed.

Lemma tiny_screen_fresh : fresh_screen tiny_screen.
Proof.
  constructor; [cbn; lia..| |constructor; cbn; (done || lia)|done]. exists (replicate 64 0x1234).
  split; [done|]. split; [done|]. apply Forall_replicate. lia.
Qed.

(** The screen ends with the lines A and BA; the second pixel of the upper line
    of the B is white, the first is black: all of the bits of its three bytes, and
    none. *)
Lemma fbtty_shows_text_witness : ∃ n t' w' h',
  (_ ← fbtty_init text_font; on_tty (n ← stream_op_write (TtyOps0 := fbtty_ops (file_bytes text_file) text_font) tiny_text;
     _ ← stream_op_flush (TtyOps0 := fbtty_ops (file_bytes text_file) text_font); mret n))
    ((tiny_tty, Fbtty tiny_screen None), 0%nat) = Ok (n, ((t', w'), h')) ∧ n = 8 ∧
  shown (the_fb w') 2 2 0x7fff ∧ shown (the_fb w') 1 2 0 ∧ shown (the_fb w') 11 0 0 ∧ shown (the_fb w') 3 0 0x7fff ∧
  mem_read (s_fbbase (the_fb w')) 99 6 = Ok [0; 0; 0; 255; 255; 255].
Proof.
  assert (Forall (λ chr, chr = 10 ∨ chr = 13 ∨ drawable (file_bytes text_file) text_font (s8 chr)) tiny_text) as Htext.
  { repeat (apply Forall_cons_2; [first [by left|by right; left|do 3 right; apply text_glyph; vm_compute; repeat constructor]|]).
    apply Forall_nil_2. }
  destruct (fbtty_shows_text (file_bytes text_file) text_font text_font_narrow (text_glyph 32 ltac:(repeat constructor))
    tiny_screen tiny_tty None 0%nat tiny_text tiny_screen_fresh ltac:(by split_and!) ltac:(cbn; lia) ltac:(cbn; lia)
    eq_refl eq_refl Htext ltac:(by vm_compute)) as (n & t' & w' & h' & E & Hn & _ & Hsh).
  assert (∀ r c dx dy x y rgb, 0 ≤ r < screen_rows text_font tiny_screen → 0 ≤ c < screen_columns text_font tiny_screen →
    0 ≤ dx < s_fontwidth text_font → 0 ≤ dy < s_fontheight text_font →
    c * s_fontwidth text_font + dx = x → r * s_fontheight text_font + dy = y →
    cell_color (file_bytes text_file) text_font
      (view (screen_rows text_font tiny_screen) (foldl (typed (screen_columns text_font tiny_screen)) empty_paper tiny_text) r c) dx dy = rgb →
    shown (the_fb w') x y rgb) as Hpixel.
  { clear -Hsh. intros r c dx dy x y rgb Hr Hc Hdx Hdy <- <- <-. exact (Hsh r c dx dy Hr Hc Hdx Hdy). }
  assert (mem_read (s_fbbase (the_fb w')) 99 6 = Ok [0; 0; 0; 255; 255; 255]) as Hbytes.
  { clear -E. vm_compute in E. injection E as _ _ <- _. reflexivity. }
  exists n, t', w', h'. split; [exact E|]. split; [exact Hn|]. clear -Hpixel Hbytes.
  split; [apply (Hpixel 1 0 2 0); by vm_compute|]. split; [apply (Hpixel 1 0 1 0); by vm_compute|].
  split; [apply (Hpixel 0 1 3 0); by vm_compute|]. split; [apply (Hpixel 0 0 3 0); by vm_compute|exact Hbytes].
Defined.
