(* ===== verification/Vgatty.v ===== *)
(** The terminal in the text mode of the VGA (src/kernel/arch/i586/vgatty.c): the
    characters are in the memory of the screen.  It shows the end of what was
    written, as the terminal of Vt100 does. *)
From S2P Require Import Prelude MiscMath StrUtil Queue Kbd Vt100 Vt100Correct.

Record chr := Chr { c_chr : Z; c_attr : Z }.

(** The memory of the screen that [s_chars] points to is the list of its
    characters. *)
Record vgatty := Vgatty {
  s_chars : list chr; s_totalcolumns : Z; s_totalrows : Z; s_currentcolumn : Z; s_currentrow : Z;
}.
Local Abbreviation VM A := (M vgatty A).

Definition with_screen (l : list chr) (s : vgatty) : vgatty :=
  Vgatty l (s_totalcolumns s) (s_totalrows s) (s_currentcolumn s) (s_currentrow s).
Definition with_position (row column : Z) (s : vgatty) : vgatty :=
  Vgatty (s_chars s) (s_totalcolumns s) (s_totalrows s) column row.
Definition modify_vga (f : vgatty → vgatty) : VM unit := λ s, Ok (tt, f s).

Definition update_at (row col : Z) (f : chr → chr) : VM unit :=
  s ← get;
  let i := u32 (row * s_totalcolumns s + col) in
  c ← lift (rd (s_chars s) i);
  l ← lift (wr (s_chars s) i (f c));
  modify_vga (with_screen l).
Definition write_char_at (row col c : Z) : VM unit := update_at (u16 row) (u16 col) (λ x, Chr (s8 c) (c_attr x)).
Definition write_attr_at (row col attr : Z) : VM unit := update_at (u16 row) (u16 col) (λ x, Chr (c_chr x) (u8 attr)).

Definition copy_line_up (src_line : Z) : VM unit :=
  let dest_line := src_line - 1 in
  s ← get;
  l ← lift (vmemcpy (s_chars s) (u32 (dest_line * s_totalcolumns s)) (s_chars s) (u32 (src_line * s_totalcolumns s)) (s_totalcolumns s));
  modify_vga (with_screen l).

Definition scroll_screen (_ : unit) : VM (unit + unit) :=
  s ← get;
  if negb (s_totalrows s <=? s_currentrow s) then mret (inr tt)
  else
    _ ← for_ (seqZ 1 (s_totalrows s - 1)) copy_line_up;
    _ ← modify_vga (λ s, with_position (u16 (s_currentrow s - 1)) (s_currentcolumn s) s);
    s ← get;
    _ ← (if s_currentrow s <? s_totalrows s then
           for_ (seqZ 0 (s_totalcolumns s)) (λ i, write_char_at (s_currentrow s) i 32)
         else mret tt);
    mret (inl tt).

Definition advance_line : VM unit :=
  _ ← modify_vga (λ s, with_position (u16 (s_currentrow s + 1)) 0 s);
  s ← get;
  loop_m (S (Z.to_nat (s_currentrow s - s_totalrows s + 1))) scroll_screen tt.

Definition write_char (chr : Z) : VM unit :=
  if chr =? 10 then advance_line
  else if chr =? 13 then modify_vga (λ s, with_position (s_currentrow s) 0 s)
  else
    s ← get;
    _ ← (if s_totalcolumns s <=? s_currentcolumn s then advance_line else mret tt);
    s ← get;
    _ ← write_char_at (s_currentrow s) (s_currentcolumn s) chr;
    modify_vga (λ s, with_position (s_currentrow s) (u16 (s_currentcolumn s + 1)) s).

Definition stream_op_write (data : list Z) : VM Z :=
  let size := Z.of_nat (length data) in
  _ ← massert (size <=? STREAM_MAX_TRANSFER_SIZE);
  _ ← for_ data (λ c, write_char (s8 c));
  mret size.

(** The loop is the one of vt100tty.c. *)
Definition stream_op_read (event buf : list Z) (size : Z) : M kbd (list Z * Z) :=
  _ ← massert (size <=? STREAM_MAX_TRANSFER_SIZE);
  loop_m (S (Z.to_nat size)) (read_step size) (0, buf, 0, event).

(** [chars] is what the memory at the fixed address, or the memory that
    [vmm_ezmap] maps, holds. *)
Definition archi586_vgatty_init_early_debug (chars : list chr) : VM unit :=
  modify_vga (λ s, Vgatty chars 80 25 (s_currentcolumn s) (s_currentrow s)).
Definition archi586_vgatty_init (chars : list chr) (columns rows bytes_per_row : Z) : VM unit :=
  _ ← modify_vga (λ s, Vgatty (s_chars s) columns rows (s_currentcolumn s) (s_currentrow s));
  _ ← massert (u32 (columns * 2) =? bytes_per_row);
  _ ← modify_vga (with_screen chars);
  for_ (seqZ 0 rows) (λ r, for_ (seqZ 0 columns) (λ c,
    _ ← write_char_at r c 32;
    write_attr_at r c 7)).

(** ** The screen *)

Section Screen.
Variables (C R : Z).

(** A screen of [R] lines of [C] characters: the characters are [T], with the
    attributes [A]. *)
Record screen (T A : Z → Z → Z) (s : vgatty) : Prop := Screen {
  sc_columns : s_totalcolumns s = C;
  sc_rows : s_totalrows s = R;
  sc_chars : Z.of_nat (length (s_chars s)) = R * C;
  sc_char r c : 0 ≤ r < R → 0 ≤ c < C → s_chars s !! Z.to_nat (r * C + c) = Some (Chr (T r c) (A r c));
}.
Definition to_screen (T A : Z → Z → Z) (s : vgatty) (_ : unit) (s' : vgatty) : Prop :=
  s_currentrow s' = s_currentrow s ∧ s_currentcolumn s' = s_currentcolumn s ∧ screen T A s'.

Definition same_inside (T T' : Z → Z → Z) : Prop := ∀ r c, 0 ≤ r < R → 0 ≤ c < C → T r c = T' r c.

Lemma screen_ext T A T' A' s : screen T A s → same_inside T T' → same_inside A A' → screen T' A' s.
Proof.
  intros [? ? ? Hch] HT HA. constructor; [done..|]. intros r c Hr Hc. by rewrite Hch, HT, HA.
Qed.
Lemma to_screen_ext T A T' A' s (m : M vgatty unit) : wp m s (to_screen T A s) → same_inside T T' → same_inside A A' →
  wp m s (to_screen T' A' s).
Proof.
  intros Hm HT HA. eapply wp_mono; [exact Hm|]. intros [] s' (Hr & Hc & Hs). split; [done|split; [done|by eapply screen_ext]].
Qed.
Lemma screen_seq T A T' A' s (m m' : M vgatty unit) : wp m s (to_screen T A s) →
  (∀ s1, screen T A s1 → wp m' s1 (to_screen T' A' s1)) → wp (_ ← m; m') s (to_screen T' A' s).
Proof.
  intros Hm Hm'. apply wp_bind. eapply wp_mono; [exact Hm|]. intros [] s1 (Hr & Hc & Hs1).
  eapply wp_mono; [by apply Hm'|]. intros [] s2 (Hr2 & Hc2 & Hs2). split; [congruence|split; [congruence|done]].
Qed.
Lemma screen_position T A row column s : screen T A s → screen T A (with_position row column s).
Proof. by intros []. Qed.

Hypothesis Hdims : 0 < C < 2 ^ 16 ∧ 0 < R < 2 ^ 16.

Lemma screen_loop (n : Z) (f : Z → M vgatty unit) (T A : Z → Z → Z → Z) s : 0 ≤ n → screen (T 0) (A 0) s →
  (∀ k s', 0 ≤ k < n → screen (T k) (A k) s' → s_currentrow s' = s_currentrow s → wp (f k) s' (to_screen (T (k + 1)) (A (k + 1)) s')) →
  wp (for_ (seqZ 0 n) f) s (to_screen (T n) (A n) s).
Proof using Type.
  intros Hn H0 Hf. apply (wp_for_seqZ n f (λ k s', to_screen (T k) (A k) s tt s')); [done|done| |by intros s' ?].
  intros k s' Hk (Hr & Hc & Hs'). eapply wp_mono; [by apply Hf|]. intros [] s2 (Hr2 & Hc2 & Hs2).
  split; [congruence|split; [congruence|done]].
Qed.

Lemma cell_inside r c : 0 ≤ r < R → 0 ≤ c < C → 0 ≤ r * C + c < R * C ∧ u32 (r * C + c) = r * C + c.
Proof using Hdims.
  intros Hr Hc. assert (0 ≤ r * C + c < R * C) as Hi by nia. split; [done|]. apply u32_small.
  change (2 ^ 16) with 65536 in Hdims. change (2 ^ 32) with 4294967296. nia.
Qed.

Lemma cell_inj r c r' c' : 0 ≤ c < C → 0 ≤ c' < C → r * C + c = r' * C + c' → r = r' ∧ c = c'.
Proof using Type.
  clear Hdims. intros Hc Hc' E. destruct (Z.lt_trichotomy r r') as [|[->|]]; [exfalso; nia|split; [done|lia]|exfalso; nia].
Qed.

Lemma update_at_ok T A T' A' s r c f : screen T A s → 0 ≤ r < R → 0 ≤ c < C →
  f (Chr (T r c) (A r c)) = Chr (T' r c) (A' r c) →
  (∀ r' c', 0 ≤ r' < R → 0 ≤ c' < C → ¬ (r' = r ∧ c' = c) → T' r' c' = T r' c' ∧ A' r' c' = A r' c') →
  wp (update_at r c f) s (to_screen T' A' s).
Proof using Hdims.
  intros Hs Hr Hc Hf Hother. destruct Hs as [Hcols Hrows Hl Hch]. destruct (cell_inside r c Hr Hc) as [Hi Hu].
  unfold update_at. apply wp_bind. eexists _, s. split; [done|]. rewrite Hcols, Hu.
  apply wp_bind, (wp_lift _ (Chr (T r c) (A r c))); [apply rd_ok; [lia|by apply Hch]|].
  apply wp_bind, (wp_lift _ (<[Z.to_nat (r * C + c) := f (Chr (T r c) (A r c))]> (s_chars s))); [apply wr_ok; lia|].
  eexists _, _. split; [done|]. split; [done|]. split; [done|]. constructor; [done..|by cbn; rewrite length_insert|].
  intros r' c' Hr' Hc'. cbn [with_screen s_chars]. destruct (cell_inside r' c' Hr' Hc') as [Hi' _].
  destruct (decide (r' = r ∧ c' = c)) as [[-> ->]|Hne].
  - rewrite list_lookup_insert_eq by lia. by rewrite Hf.
  - destruct (Hother r' c' Hr' Hc' Hne) as [-> ->]. rewrite list_lookup_insert_ne; [by apply Hch|].
    intros E. apply Hne, (cell_inj r' c' r c); done || lia.
Qed.

Lemma u16_inside n i : 0 ≤ i < n → n < 2 ^ 16 → u16 i = i.
Proof using Type. intros. unfold u16. apply Z.mod_small. lia. Qed.

Lemma write_char_at_ok T A T' s r c x : screen T A s → 0 ≤ r < R → 0 ≤ c < C → T' r c = s8 x →
  (∀ r' c', 0 ≤ r' < R → 0 ≤ c' < C → ¬ (r' = r ∧ c' = c) → T' r' c' = T r' c') →
  wp (write_char_at r c x) s (to_screen T' A s).
Proof using Hdims.
  intros Hs Hr Hc HT Hother. unfold write_char_at. destruct Hdims as [[_ HC] [_ HR]]. rewrite (u16_inside R r Hr HR), (u16_inside C c Hc HC).
  eapply update_at_ok; [exact Hs|done|done|by rewrite HT|]. intros. split; [by apply Hother|done].
Qed.

(** ** Scrolling *)

Lemma copy_line_up_ok T A s src : screen T A s → 1 ≤ src < R →
  wp (copy_line_up src) s (to_screen (row_up (src - 1) T) (row_up (src - 1) A) s).
Proof using Hdims.
  intros [Hcols Hrows Hl Hch] Hs. unfold copy_line_up. apply wp_bind. eexists _, s. split; [done|]. rewrite Hcols.
  destruct (cell_inside src 0) as [H1 U1]; [lia..|]. destruct (cell_inside (src - 1) 0) as [H2 U2]; [lia..|].
  rewrite !Z.add_0_r in *. rewrite U1, U2.
  destruct (mem_move (s_chars s) (src * C) C ((src - 1) * C)) as (bytes & m' & Hrd & Hw & Hl' & Hlook); [nia..|].
  apply wp_bind, (wp_lift _ m'); [unfold vmemcpy; rewrite Hrd; exact Hw|].
  eexists _, _. split; [done|]. split; [done|]. split; [done|]. constructor; [done|done|cbn; lia|].
  intros r c Hr Hc. cbn [with_screen s_chars]. rewrite Hlook by nia. unfold row_up.
  destruct (Z.eqb_spec r (src - 1)) as [->|Hne].
  - destruct (Z.leb_spec ((src - 1) * C) ((src - 1) * C + c)); [|lia].
    destruct (Z.ltb_spec ((src - 1) * C + c) ((src - 1) * C + C)); [|lia]. cbn [andb].
    replace (_ - _ + _) with (src * C + c) by lia. replace (src - 1 + 1) with src by lia. apply Hch; lia.
  - destruct (Z.leb_spec ((src - 1) * C) (r * C + c)), (Z.ltb_spec (r * C + c) ((src - 1) * C + C)); cbn [andb];
      try (by apply Hch). exfalso. nia.
Qed.

Definition rows_up (T : Z → Z → Z) (k : Z) : Z → Z → Z := λ r, if r <? k then T (r + 1) else T r.

Lemma rows_up_step T k : 0 ≤ k → same_inside (row_up k (rows_up T k)) (rows_up T (k + 1)).
Proof using Type.
  clear Hdims. intros Hk r c Hr Hc. unfold row_up, rows_up. destruct (Z.eqb_spec r k) as [->|].
  - destruct (Z.ltb_spec (k + 1) k); [lia|]. by destruct (Z.ltb_spec k (k + 1)); [|lia].
  - by destruct (Z.ltb_spec r k), (Z.ltb_spec r (k + 1)); try lia.
Qed.
Lemma rows_up_0 T : same_inside T (rows_up T 0).
Proof using Type. clear Hdims. intros r c Hr Hc. unfold rows_up. by destruct (Z.ltb_spec r 0); [lia|]. Qed.

Lemma copy_lines_up_ok T A s : screen T A s →
  wp (for_ (seqZ 1 (R - 1)) copy_line_up) s (to_screen (rows_up T (R - 1)) (rows_up A (R - 1)) s).
Proof using Hdims.
  intros Hs. rewrite <- (Z.add_0_r 1), <- fmap_add_seqZ, for_fmap.
  apply (screen_loop (R - 1) (λ k, copy_line_up (1 + k)) (rows_up T) (rows_up A)); [lia| |].
  - eapply screen_ext; [exact Hs|apply rows_up_0..].
  - intros k s' Hk Hs' _. eapply to_screen_ext; [by apply (copy_line_up_ok _ _ _ _ Hs'); lia|..];
      replace (1 + k - 1) with k by lia; apply rows_up_step; lia.
Qed.

Lemma blank_row_ok T A s : screen T A s → 0 ≤ s_currentrow s < R →
  wp (for_ (seqZ 0 C) (λ i, write_char_at (s_currentrow s) i 32)) s
    (to_screen (λ r c, if r =? s_currentrow s then 32 else T r c) A s).
Proof using Hdims.
  intros Hs Hr. set (row := s_currentrow s) in *. eapply (to_screen_ext _ A); [|intros r c _ Hc|done].
  1:{ apply (screen_loop C _ (λ k r c, if (r =? row) && (c <? k) then 32 else T r c) (λ _, A)); [lia| |].
    - eapply screen_ext; [exact Hs| |done]. intros r c _ Hc. destruct (Z.ltb_spec c 0); [lia|]. by rewrite andb_false_r.
    - intros k s' Hk Hs' _. apply (write_char_at_ok _ _ _ _ _ _ _ Hs'); [lia..| |].
      + rewrite Z.eqb_refl. by destruct (Z.ltb_spec k (k + 1)); [|lia].
      + intros r' c' Hr' Hc' Hne. destruct (Z.eqb_spec r' row) as [->|]; [|done]. cbn [andb].
        by destruct (Z.ltb_spec c' k), (Z.ltb_spec c' (k + 1)); try lia. }
  cbv beta. destruct (Z.eqb_spec r row); [|done]. cbn. by destruct (Z.ltb_spec c C); [|lia].
Qed.

(** The window moves down by a line. *)
Lemma scroll_screen_ok T A s : screen T A s → s_currentrow s = R →
  wp (scroll_screen tt) s (λ y s', y = inl tt ∧ s_currentrow s' = R - 1 ∧ s_currentcolumn s' = s_currentcolumn s ∧
    screen (λ r c, if r =? R - 1 then 32 else T (r + 1) c) (rows_up A (R - 1)) s').
Proof using Hdims.
  intros Hs Hrow. unfold scroll_screen. apply wp_bind. eexists _, _. split; [done|]. rewrite (sc_rows _ _ _ Hs), Hrow.
  destruct (Z.leb_spec R R); [|lia]. cbn [negb]. apply wp_bind.
  eapply wp_mono; [apply (copy_lines_up_ok _ _ _ Hs)|]. intros [] s1 (Hr1 & Hc1 & Hs1).
  set (s2 := with_position (R - 1) (s_currentcolumn s1) s1).
  apply wp_bind. eexists _, s2. split.
  { unfold modify_vga. by rewrite Hr1, Hrow, (u16_inside R) by (lia || apply Hdims). }
  apply wp_bind. eexists _, _. split; [done|].
  pose proof (screen_position _ _ (R - 1) (s_currentcolumn s1) _ Hs1 : screen _ _ s2) as Hs2.
  change (s_currentrow s2) with (R - 1). rewrite (sc_rows _ _ _ Hs2), (sc_columns _ _ _ Hs2).
  destruct (Z.ltb_spec (R - 1) R); [|lia]. apply wp_bind.
  eapply wp_mono; [apply (blank_row_ok _ _ s2 Hs2); cbn; lia|]. intros [] s3 (Hr3 & Hc3 & Hs3). apply wp_ret.
  split; [done|]. split; [done|]. split; [by rewrite Hc3, <- Hc1|]. eapply screen_ext; [exact Hs3| |done].
  intros r c Hr _. change (s_currentrow s2) with (R - 1). cbv beta. unfold rows_up.
  destruct (Z.eqb_spec r (R - 1)); [done|]. by destruct (Z.ltb_spec r (R - 1)); [|lia].
Qed.

(** ** The paper *)

Definition attribute : Z → Z → Z := λ _ _, 7.

(** The screen is the end of the paper. *)
Record shows_paper (p : paper) (s : vgatty) : Prop := ShowsPaper {
  sp_pos : 0 ≤ pos p ≤ Z.of_nat (length (current p).1);
  sp_width : Z.of_nat (length (current p).1) ≤ C;
  sp_row : s_currentrow s = Z.min (Z.of_nat (length (lines p))) R - 1;
  sp_column : s_currentcolumn s = pos p;
  sp_screen : screen (view R p) attribute s;
}.

Lemma scroll_done s k : s_totalrows s = R → s_currentrow s < R → loop_m (S k) scroll_screen tt s = Ok (tt, s).
Proof using Type.
  clear Hdims. intros Hr Hc. rewrite (loop_m_step k _ _ s (inr tt) s); [done|]. unfold scroll_screen, get, mbind, M_bind.
  rewrite Hr. by destruct (Z.leb_spec R (s_currentrow s)); [lia|].
Qed.

Lemma advance_line_ok b p s : shows_paper p s → wp advance_line s (λ _ s', shows_paper (new_line b p) s').
Proof using Hdims.
  intros [Hpos Hwidth Hrow Hcol Hs]. pose proof (length_lines p) as Hn. unfold advance_line.
  set (n := Z.of_nat (length (lines p))) in *. set (s1 := with_position (Z.min n R) 0 s).
  apply wp_bind. eexists _, s1. split.
  { unfold modify_vga. rewrite Hrow. unfold u16. rewrite Z.mod_small by lia. by replace (Z.min n R - 1 + 1) with (Z.min n R) by lia. }
  apply wp_bind. eexists _, _. split; [done|].
  pose proof (screen_position _ _ (Z.min n R) 0 _ Hs : screen _ _ s1) as Hs1.
  change (s_currentrow s1) with (Z.min n R). rewrite (sc_rows _ _ _ Hs1).
  destruct (Z.lt_ge_cases n R) as [Hlt|Hge].
  - exists tt, s1. split; [apply scroll_done; [apply Hs1|cbn; lia]|]. constructor; [cbn; lia..| |done|].
    + rewrite length_lines_new. fold n. cbn. lia.
    + eapply screen_ext; [exact Hs1| |done]. intros r c Hr _. by rewrite view_new_below by (fold n; lia).
  - replace (Z.to_nat (Z.min n R - R + 1)) with 1%nat by lia.
    destruct (scroll_screen_ok _ _ s1 Hs1) as (y & s2 & H2 & -> & Hr2 & Hc2 & Hs2); [cbn; lia|].
    exists tt, s2. split; [rewrite (loop_m_step 1 _ _ _ _ _ H2); apply scroll_done; [apply Hs2|lia]|].
    constructor; [cbn; lia..| |exact Hc2|].
    + rewrite length_lines_new. fold n. lia.
    + eapply screen_ext; [exact Hs2| |].
      * intros r c Hr _. by rewrite view_new_end by (fold n; lia).
      * intros r c _ _. unfold rows_up, attribute. by case_match.
Qed.

Lemma put_char_shown chr p s : shows_paper p s → pos p < C →
  wp (s ← get; _ ← write_char_at (s_currentrow s) (s_currentcolumn s) chr;
      modify_vga (λ s, with_position (s_currentrow s) (u16 (s_currentcolumn s + 1)) s)) s (λ _ s', shows_paper (put_char chr p) s').
Proof using Hdims.
  intros [Hpos Hwidth Hrow Hcol Hs] Hlt. pose proof (length_lines p) as Hn. set (n := Z.of_nat (length (lines p))) in *.
  apply wp_bind. eexists _, s. split; [done|]. rewrite Hrow, Hcol. apply wp_bind. eapply wp_mono.
  { apply (write_char_at_ok _ _ (view R (put_char chr p)) _ _ _ _ Hs); [lia..| |].
    - rewrite view_put by lia. fold n. by rewrite !Z.eqb_refl.
    - intros r c Hr Hc Hne. rewrite view_put by lia. fold n.
      destruct (Z.eqb_spec r (Z.min n R - 1)), (Z.eqb_spec c (pos p)); cbn [andb]; try done. destruct Hne. by split. }
  intros [] s1 (Hr1 & Hc1 & Hs1). eexists _, _. split; [done|]. constructor.
  - cbn. rewrite length_put by done. lia.
  - cbn. rewrite length_put by done. lia.
  - rewrite length_lines_put. fold n. cbn. congruence.
  - cbn. rewrite Hc1, Hcol. apply Z.mod_small. lia.
  - by apply screen_position.
Qed.

Lemma vga_char_ok chr p s : shows_paper p s → wp (write_char chr) s (λ _ s', shows_paper (typed C p chr) s').
Proof using Hdims.
  intros Hp. unfold write_char, typed. destruct (Z.eqb_spec chr 10) as [->|]; [by apply advance_line_ok|].
  destruct (Z.eqb_spec chr 13) as [->|].
  { eexists _, _. split; [done|]. destruct Hp as [? ? ? ? Hs]. constructor; try done; [cbn; lia|by apply screen_position]. }
  apply wp_bind. eexists _, s. split; [done|]. rewrite (sp_column p s Hp), (sc_columns _ _ _ (sp_screen p s Hp)).
  apply wp_bind. eapply wp_mono with (P := λ _ s', shows_paper (if C <=? pos p then new_line true p else p) s').
  - destruct (Z.leb_spec C (pos p)); [by apply advance_line_ok|by apply wp_ret].
  - intros [] s1 Hp1. apply (put_char_shown chr _ s1 Hp1). destruct (Z.leb_spec C (pos p)); [cbn; lia|done].
Qed.

Lemma vga_chars_ok data : ∀ p s, shows_paper p s →
  wp (for_ data (λ c, write_char (s8 c))) s (λ _ s', shows_paper (foldl (typed C) p (s8 <$> data)) s').
Proof using Hdims.
  induction data as [|c data IH]; intros p s Hp; [by apply wp_ret|]. cbn [for_]. apply wp_bind.
  eapply wp_mono; [by apply vga_char_ok|]. intros [] s1 Hp1. by apply IH.
Qed.

Lemma init_cells_ok T A s : screen T A s →
  wp (for_ (seqZ 0 R) (λ r, for_ (seqZ 0 C) (λ c, _ ← write_char_at r c 32; write_attr_at r c 7))) s
    (to_screen (λ _ _, 32) attribute s).
Proof using Hdims.
  intros Hs. set (F := λ (k : Z) (x : Z) (T : Z → Z → Z) (r : Z) (c : Z), if r <? k then x else T r c).
  set (G := λ (r0 k : Z) (x : Z) (T : Z → Z → Z) (r : Z) (c : Z), if (r =? r0) && (c <? k) then x else T r c).
  eapply (to_screen_ext (F R 32 T) (F R 7 A)).
  2,3: intros r c Hr _; unfold F; by destruct (Z.ltb_spec r R); [|lia].
  assert (∀ x T, same_inside T (F 0 x T)) as HF0. { intros x X r c Hr _. unfold F. by destruct (Z.ltb_spec r 0); [lia|]. }
  assert (∀ r0 x T, same_inside T (G r0 0 x T)) as HG0.
  { intros r0 x X r c _ Hc. unfold G. destruct (Z.ltb_spec c 0); [lia|]. by rewrite andb_false_r. }
  assert (∀ r0 x T, same_inside (G r0 C x (F r0 x T)) (F (r0 + 1) x T)) as HGC.
  { intros r0 x X r c _ Hc. unfold F, G. destruct (Z.ltb_spec c C); [|lia].
    by destruct (Z.eqb_spec r r0), (Z.ltb_spec r r0), (Z.ltb_spec r (r0 + 1)); cbn; try lia. }
  assert (∀ r0 k x T, G r0 (k + 1) x T r0 k = x) as HG1.
  { intros r0 k x X. unfold G. rewrite Z.eqb_refl. by destruct (Z.ltb_spec k (k + 1)); [|lia]. }
  assert (∀ r0 k x T r c, ¬ (r = r0 ∧ c = k) → G r0 (k + 1) x T r c = G r0 k x T r c) as HGne.
  { intros r0 k x X r c Hne. unfold G. destruct (Z.eqb_spec r r0) as [->|]; [|done]. cbn [andb].
    by destruct (Z.ltb_spec c k), (Z.ltb_spec c (k + 1)); try lia. }
  apply (screen_loop R _ (λ k, F k 32 T) (λ k, F k 7 A)); [lia|by eapply screen_ext|].
  intros r s1 Hr Hs1 _. eapply to_screen_ext; [|apply HGC..].
  apply (screen_loop C _ (λ k, G r k 32 (F r 32 T)) (λ k, G r k 7 (F r 7 A))); [lia|by eapply screen_ext|].
  clearbody F G. intros c s2 Hc Hs2 _. eapply screen_seq.
  - apply (write_char_at_ok _ _ (G r (c + 1) 32 (F r 32 T)) _ _ _ _ Hs2); [done|done|by rewrite HG1|]. intros. by apply HGne.
  - intros s3 Hs3. unfold write_attr_at. destruct Hdims as [[_ HC] [_ HR]]. rewrite (u16_inside R r Hr HR), (u16_inside C c Hc HC).
    apply (update_at_ok _ _ (G r (c + 1) 32 (F r 32 T)) (G r (c + 1) 7 (F r 7 A)) _ _ _ _ Hs3);
      [done|done|cbn; by rewrite !HG1|]. intros. split; [done|]. by apply HGne.
Qed.

Lemma vgatty_init_ok (chars : list chr) s : s_currentrow s = 0 → s_currentcolumn s = 0 → Z.of_nat (length chars) = R * C →
  wp (archi586_vgatty_init chars C R (C * 2)) s (λ _ s', shows_paper empty_paper s').
Proof using Hdims.
  intros Hrow Hcol Hl. unfold archi586_vgatty_init. apply wp_bind. eexists _, _. split; [done|].
  apply wp_bind, wp_massert. { rewrite u32_small by lia. apply Z.eqb_refl. }
  apply wp_bind. eexists _, _. split; [done|]. set (s0 := with_screen chars (Vgatty (s_chars s) C R (s_currentcolumn s) (s_currentrow s))).
  assert (screen (λ r c, from_option c_chr 0 (chars !! Z.to_nat (r * C + c))) (λ r c, from_option c_attr 0 (chars !! Z.to_nat (r * C + c))) s0) as Hs0.
  { constructor; [done..|]. intros r c Hr Hc. destruct (cell_inside r c Hr Hc).
    destruct (lookup_lt_is_Some_2 chars (Z.to_nat (r * C + c))) as [x E]; [lia|]. cbn. rewrite E. by destruct x. }
  eapply wp_mono; [apply (init_cells_ok _ _ s0 Hs0)|]. intros [] s1 (Hr1 & Hc1 & Hs1).
  cbn in Hr1, Hc1. constructor; cbn; try lia. eapply screen_ext; [exact Hs1| |done].
  intros r c Hr Hc. by rewrite view_empty by lia.
Qed.

(** After the terminal is initialised, with a mode whose lines are stored one
    after the other, writing a text always ends, and shows on the screen the
    last lines of the paper on which the text was typed, in grey. *)
Theorem vgatty_shows_text (chars : list chr) (s : vgatty) (text : list Z) :
  s_currentrow s = 0 → s_currentcolumn s = 0 → Z.of_nat (length chars) = R * C →
  Z.of_nat (length text) ≤ STREAM_MAX_TRANSFER_SIZE →
  ∃ s', (_ ← archi586_vgatty_init chars C R (C * 2); stream_op_write text) s = Ok (Z.of_nat (length text), s') ∧
    ∀ r c, 0 ≤ r < R → 0 ≤ c < C → s_chars s' !! Z.to_nat (r * C + c) =
      Some (Chr (view R (foldl (typed C) empty_paper (s8 <$> text)) r c) 7).
Proof using Hdims.
  intros Hrow Hcol Hl Htext. destruct (vgatty_init_ok chars s Hrow Hcol Hl) as ([] & s1 & H1 & Hp1).
  destruct (vga_chars_ok text _ s1 Hp1) as ([] & s2 & H2 & Hp2). exists s2. split.
  - rewrite (M_bind_step _ _ _ _ _ H1). unfold stream_op_write. rewrite (M_bind_step _ _ _ tt s1).
    + by rewrite (M_bind_step _ _ _ _ _ H2).
    + unfold massert. by destruct (Z.leb_spec (Z.of_nat (length text)) STREAM_MAX_TRANSFER_SIZE); [|lia].
  - apply (sc_char _ _ _ (sp_screen _ _ Hp2)).
Qed.
End Screen.

(** A screen of two lines of three characters; the text wraps and scrolls. *)
Definition tiny_vga : vgatty := Vgatty [] 0 0 0 0.
Definition tiny_lines : list Z := [72; 101; 108; 108; 111; 10; 79; 75; 13; 111].

Lemma vgatty_shows_text_witness : ∃ s',
  (_ ← archi586_vgatty_init (replicate 6 (Chr 0 0)) 3 2 6; stream_op_write tiny_lines) tiny_vga = Ok (10, s') ∧
  s_chars s' !! 0%nat = Some (Chr 108 7) ∧ s_chars s' !! 1%nat = Some (Chr 111 7) ∧ s_chars s' !! 2%nat = Some (Chr 32 7) ∧
  s_chars s' !! 3%nat = Some (Chr 111 7) ∧ s_chars s' !! 4%nat = Some (Chr 75 7).
Proof.
  destruct (vgatty_shows_text 3 2 ltac:(lia) (replicate 6 (Chr 0 0)) tiny_vga tiny_lines eq_refl eq_refl eq_refl ltac:(done)) as (s' & E & Hs).
  exists s'. split; [exact E|].
  split; [exact (Hs 0 0 ltac:(lia) ltac:(lia))|]. split; [exact (Hs 0 1 ltac:(lia) ltac:(lia))|].
  split; [exact (Hs 0 2 ltac:(lia) ltac:(lia))|]. split; [exact (Hs 1 0 ltac:(lia) ltac:(lia))|].
  exact (Hs 1 1 ltac:(lia) ltac:(lia)).
Defined.
