(* ===== verification/Iodev.v ===== *)
(** The registry of devices (src/kernel/io/iodev.c, src/include/kernel/io/iodev.h):
    a list of devices for each type, in which they have consecutive numbers. *)
From S2P Require Import Prelude StrUtil Arch HeapIface.

(** ** Data *)

Record iodevtype := IodevType { devices : list Z; name : list Z; nextid : Z }.
Record iodev := Iodev { id : Z; devtype : list Z; data : Z }.

Definition SIZEOF_IODEVTYPE : Z := 28.

(** "pdisk" and "ldisk". *)
Definition IODEV_TYPE_PHYSICAL_DISK : list Z := [112; 100; 105; 115; 107; 0].
Definition IODEV_TYPE_LOGICAL_DISK : list Z := [108; 100; 105; 115; 107; 0].

(** The types in the order of their list, the [struct iodev]s by their address,
    the heap, and the interrupt flag. *)
Record iodevs (H : Type) := Iodevs {
  s_iodevtypes : list iodevtype; devs : gmap Z iodev; io_heap : H; io_irq : bool;
}.
Arguments Iodevs {H}. Arguments s_iodevtypes {H}. Arguments devs {H}. Arguments io_heap {H}. Arguments io_irq {H}.

(** The number of the type with a name. *)
Fixpoint getiodevtypefor (types : list iodevtype) (devtype : list Z) : res (option nat) :=
  match types with
  | [] => Ok None
  | type :: types =>
      c ← kstrcmp devtype (name type);
      if c =? 0 then Ok (Some 0%nat)
      else
        r ← getiodevtypefor types devtype;
        Ok (option_map S r)
  end.

Section Operations.
Context {H : Type} `{!HeapOps H}.
Local Abbreviation iodevs := (iodevs H).
Implicit Types s : iodevs.

Definition with_types (t : list iodevtype) s : iodevs := Iodevs t (devs s) (io_heap s) (io_irq s).
Definition with_devs (d : gmap Z iodev) s : iodevs := Iodevs (s_iodevtypes s) d (io_heap s) (io_irq s).
Definition with_io_irq (b : bool) s : iodevs := Iodevs (s_iodevtypes s) (devs s) (io_heap s) b.

Definition update (f : iodevs → iodevs) : M iodevs unit := λ s, Ok (tt, f s).
Definition in_heap {A} (op : M H A) : M iodevs A := λ s,
  match op (io_heap s) with
  | Ok (a, h) => Ok (a, Iodevs (s_iodevtypes s) (devs s) h (io_irq s))
  | Fault f => Fault f
  end.

Definition irq_disable : M iodevs ARCH_IRQSTATE := λ s,
  let '(prev, i) := arch_irq_disable (io_irq s) in Ok (prev, with_io_irq i s).
Definition irq_restore (prev : ARCH_IRQSTATE) : M iodevs unit :=
  update (λ s, with_io_irq (arch_irq_restore prev (io_irq s)) s).

(** The fields of the structure at an address; one that is new is zero. *)
Definition set_iodev (dev : Z) (f : iodev → iodev) : M iodevs unit :=
  update (λ s, with_devs (<[dev := f (default (Iodev 0 [] 0) (devs s !! dev))]> (devs s)) s).

(** The type for a new device, created when there is none. *)
Definition desttype_for (devtype : list Z) : M iodevs (option nat) :=
  s ← get;
  desttype ← lift (getiodevtypefor (s_iodevtypes s) devtype);
  match desttype with
  | Some i => mret (Some i)
  | None =>
      type ← in_heap (heap_alloc SIZEOF_IODEVTYPE HEAP_FLAG_ZEROMEMORY);
      if type =? 0 then mret None
      else
        _ ← update (λ s, with_types (s_iodevtypes s ++ [IodevType [] devtype 0]) s);
        mret (Some (length (s_iodevtypes s)))
  end.

(** A number is given to the device, which becomes the last of its type. *)
Definition add_device (dev_out : Z) (desttype : nat) : M iodevs unit :=
  s ← get;
  match s_iodevtypes s !! desttype with
  | None => throw Bad_pointer
  | Some t =>
      _ ← set_iodev dev_out (λ d, Iodev (nextid t) (devtype d) (data d));
      if nextid t =? SIZE_MAX then throw Panic
      else
        update (λ s, with_types (<[desttype := IodevType (devices t ++ [dev_out]) (name t) (u32 (nextid t + 1))]> (s_iodevtypes s)) s)
  end.

Definition iodev_register (dev_out : Z) (devtype : list Z) (data : Z) : M iodevs Z :=
  prev_interrupts ← irq_disable;
  _ ← set_iodev dev_out (λ d, Iodev (id d) devtype data);
  desttype ← desttype_for devtype;
  result ← match desttype with
           | None => mret (- ENOMEM)
           | Some i => _ ← add_device dev_out i; mret 0
           end;
  _ ← irq_restore prev_interrupts;
  mret result.

(** [None] is the null pointer. *)
Definition iodev_get_list (devtype : list Z) : M iodevs (option (list Z)) :=
  s ← get;
  type ← lift (getiodevtypefor (s_iodevtypes s) devtype);
  mret (type ≫= λ i, devices <$> s_iodevtypes s !! i).
End Operations.

(** ** The registry as a map from names to sequences *)

(** The characters before the terminator. *)
Fixpoint cstr_of (s : list Z) : list Z :=
  match s with [] => [] | c :: s => if c =? 0 then [] else c :: cstr_of s end.

Lemma cstr_of_eq s cs : cstr s cs → cstr_of s = cs.
Proof.
  intros [Hz [t ->]]. induction cs as [|c cs IH]; cbn; [done|].
  destruct (Z.eqb_spec c 0) as [->|]; [set_solver|]. f_equal. apply IH. set_solver.
Qed.

Definition has_name (n : list Z) (t : iodevtype) : Prop := cstr (name t) n.

(** No two types have the same name. *)
Record types_wf (types : list iodevtype) : Prop := {
  ty_named t : t ∈ types → ∃ n, has_name n t;
  ty_distinct : NoDup (cstr_of ∘ name <$> types);
  ty_nextid t : t ∈ types → nextid t = Z.of_nat (length (devices t)) ∧ nextid t ≤ SIZE_MAX;
}.

(** The devices of the type with a name. *)
Definition devices_of (types : list iodevtype) (n : list Z) : list Z :=
  concat (devices <$> filter (λ t, cstr_of (name t) = n) types).

#[local] Arguments devices_of : simpl never.

Lemma devices_of_cons t types n :
  devices_of (t :: types) n = (if decide (cstr_of (name t) = n) then devices t else []) ++ devices_of types n.
Proof. unfold devices_of. rewrite filter_cons. by case_decide. Qed.
Lemma devices_of_app types types' n : devices_of (types ++ types') n = devices_of types n ++ devices_of types' n.
Proof. unfold devices_of. by rewrite filter_app, fmap_app, concat_app. Qed.

Lemma devices_of_none types n : n ∉ (cstr_of ∘ name <$> types) → devices_of types n = [].
Proof.
  induction types as [|t types IH]; [done|]. rewrite devices_of_cons, fmap_cons. intros Hn.
  rewrite decide_False, IH; [done|set_solver|]. intros E. apply Hn. rewrite <- E. by left.
Qed.

(** The search finds the only type of the name. *)
Lemma getiodevtypefor_ok types s n : (∀ t, t ∈ types → ∃ m, has_name m t) → cstr s n → ∃ r, getiodevtypefor types s = Ok r ∧
  match r with
  | None => n ∉ (cstr_of ∘ name <$> types)
  | Some i => ∃ t types1 types2, types = types1 ++ t :: types2 ∧ length types1 = i ∧ cstr_of (name t) = n
  end.
Proof.
  intros Hnamed Hs. induction types as [|t types IH]; cbn.
  { exists None. split; [done|]. apply not_elem_of_nil. }
  destruct (Hnamed t) as [m Hm]; [by left|]. destruct (kstrcmp_ok _ _ _ _ Hs Hm) as (r & -> & Hr). cbn.
  pose proof (cstr_of_eq _ _ Hm) as Em. destruct (Z.eqb_spec r 0) as [->|Hne].
  - exists (Some 0%nat). split; [done|]. exists t, [], types. split; [done|]. split; [done|]. rewrite Em. symmetry. by apply Hr.
  - destruct IH as (r' & -> & Hr'); [intros t' Ht'; apply Hnamed; by right|]. exists (option_map S r'). split; [done|].
    destruct r' as [i|]; cbn.
    + destruct Hr' as (t' & l1 & l2 & -> & <- & E). by exists t', (t :: l1), l2.
    + rewrite not_elem_of_cons. split; [|done]. cbn. rewrite Em. naive_solver.
Qed.

(** ** Registration *)

Section Correct.
Context {H : Type} `{!HeapOps H, !HeapLaws H}.
Local Abbreviation iodevs := (iodevs H).
Implicit Types s : iodevs.

(** The devices of each type have consecutive numbers, and no device is
    registered twice. *)
Record iodevs_wf s : Prop := {
  io_types : types_wf (s_iodevtypes s);
  io_nodup : NoDup (concat (devices <$> s_iodevtypes s));
  io_numbers t k p : t ∈ s_iodevtypes s → devices t !! k = Some p →
    ∃ d, devs s !! p = Some d ∧ id d = Z.of_nat k ∧ cstr_of (devtype d) = cstr_of (name t);
}.

Definition registered s (p : Z) : Prop := p ∈ concat (devices <$> s_iodevtypes s).

(** Adding a device to a type. *)
Definition with_device (p : Z) (t : iodevtype) : iodevtype := IodevType (devices t ++ [p]) (name t) (nextid t + 1).

Lemma devices_perm types1 t types2 p :
  concat (devices <$> types1 ++ with_device p t :: types2) ≡ₚ p :: concat (devices <$> types1 ++ t :: types2).
Proof.
  rewrite !fmap_app, !fmap_cons, !concat_app. cbn. rewrite <- (assoc_L (++) (devices t)). cbn.
  by rewrite !(assoc_L (++) (concat _)), <- Permutation_middle.
Qed.

Lemma registered_device s t k p : t ∈ s_iodevtypes s → devices t !! k = Some p → registered s p.
Proof.
  intros Ht Hk. apply list_elem_of_In, in_concat. exists (devices t).
  rewrite <- !list_elem_of_In, list_elem_of_fmap. split; [by exists t|]. by eapply list_elem_of_lookup_2.
Qed.

Lemma add_device_wf s types1 t types2 p d : iodevs_wf s → s_iodevtypes s = types1 ++ t :: types2 → ¬ registered s p →
  cstr_of (devtype d) = cstr_of (name t) → id d = Z.of_nat (length (devices t)) → nextid t < SIZE_MAX →
  iodevs_wf (with_types (types1 ++ with_device p t :: types2) (with_devs (<[p := d]> (devs s)) s)).
Proof.
  intros [[Hnm Hdist Hnx] Hnd Hnum] Et Hp Hname Hid Hlt. assert (t ∈ s_iodevtypes s) as Ht by (rewrite Et; set_solver).
  assert (∀ t0, t0 ∈ types1 ++ with_device p t :: types2 → t0 = with_device p t ∨ t0 ∈ s_iodevtypes s) as Hcase.
  { intros t0. rewrite Et, !elem_of_app, !elem_of_cons. tauto. }
  split; [split|..]; cbn.
  - intros t0 [->|Ht0]%Hcase; [by apply (Hnm t)|by apply Hnm].
  - rewrite Et in Hdist. by rewrite fmap_app, fmap_cons in *.
  - intros t0 [->|Ht0]%Hcase; [|by apply Hnx]. destruct (Hnx t Ht). cbn. rewrite length_app. cbn. lia.
  - rewrite devices_perm, <- Et. by apply NoDup_cons.
  - intros t0 k q [->|Ht0]%Hcase Hk.
    + apply lookup_app_Some in Hk as [Hk|[Hle Hk]].
      * rewrite lookup_insert_ne; [by apply (Hnum t)|]. intros ->. by eapply Hp, registered_device.
      * apply list_lookup_singleton_Some in Hk as [Hk ->]. exists d. rewrite lookup_insert_eq. split; [done|]. split; [|done].
        rewrite Hid. f_equal. lia.
    + rewrite lookup_insert_ne; [by apply (Hnum t0)|]. intros ->. by eapply Hp, registered_device.
Qed.

Lemma add_device_ok s types1 t types2 p d : iodevs_wf s → s_iodevtypes s = types1 ++ t :: types2 → ¬ registered s p →
  devs s !! p = Some d → cstr_of (devtype d) = cstr_of (name t) → Z.of_nat (length (devices t)) < SIZE_MAX →
  add_device p (length types1) s = Ok (tt, with_types (types1 ++ with_device p t :: types2)
    (with_devs (<[p := Iodev (Z.of_nat (length (devices t))) (devtype d) (data d)]> (devs s)) s)).
Proof.
  intros Hwf Et Hp Hd Hname Hlen. destruct (ty_nextid _ (io_types _ Hwf) t) as [En Hle]; [rewrite Et; set_solver|].
  unfold add_device. rewrite (M_bind_step _ _ s s s) by done. rewrite Et, list_lookup_middle by done.
  erewrite (M_bind_step _ _ _ tt) by reflexivity. destruct (Z.eqb_spec (nextid t) SIZE_MAX); [lia|].
  unfold update. cbn [with_types with_devs s_iodevtypes devs]. rewrite Et, insert_app_r_alt, Nat.sub_diag by done.
  unfold SIZE_MAX in *. rewrite (u32_small (nextid t + 1)) by lia. rewrite Hd. cbn [default id devtype data]. by rewrite <- En.
Qed.

Lemma iodevs_wf_irq s b : iodevs_wf s → iodevs_wf (with_io_irq b s).
Proof. by intros []. Qed.
Lemma iodevs_wf_heap s h : iodevs_wf s → iodevs_wf (Iodevs (s_iodevtypes s) (devs s) h (io_irq s)).
Proof. by intros []. Qed.
Lemma iodevs_wf_set s p d : iodevs_wf s → ¬ registered s p → iodevs_wf (with_devs (<[p := d]> (devs s)) s).
Proof.
  intros [Ht Hnd Hnum] Hp. split; [done..|]. intros t k q Hin Hk. cbn. rewrite lookup_insert_ne; [by apply (Hnum t)|].
  intros ->. by eapply Hp, registered_device.
Qed.

(** A new type has no devices. *)
Lemma new_type_wf s dt cs : iodevs_wf s → cstr dt cs → cs ∉ (cstr_of ∘ name <$> s_iodevtypes s) →
  iodevs_wf (with_types (s_iodevtypes s ++ [IodevType [] dt 0]) s).
Proof.
  intros [[Hnm Hdist Hnx] Hnd Hnum] Hdt Hnew.
  assert (∀ t, t ∈ s_iodevtypes s ++ [IodevType [] dt 0] → t ∈ s_iodevtypes s ∨ t = IodevType [] dt 0) as Hcase.
  { intros t. by rewrite elem_of_app, list_elem_of_singleton. }
  split; [split|..]; cbn.
  - intros t [Ht| ->]%Hcase; [by apply Hnm|by exists cs].
  - rewrite fmap_app. apply NoDup_app. split; [done|]. cbn. rewrite (cstr_of_eq _ _ Hdt). split; [|apply NoDup_singleton].
    intros n Hn ->%list_elem_of_singleton. done.
  - intros t [Ht| ->]%Hcase; [by apply Hnx|done].
  - rewrite fmap_app, concat_app. cbn. by rewrite app_nil_r.
  - intros t k p [Ht| ->]%Hcase; [by apply Hnum|done].
Qed.

(** The type exists, or is created, or there is no memory for it. *)
Lemma desttype_for_ok s dt cs : iodevs_wf s → cstr dt cs → wp (desttype_for dt) s (λ r s', iodevs_wf s' ∧ devs s' = devs s ∧ io_irq s' = io_irq s ∧
  (∀ n, devices_of (s_iodevtypes s') n = devices_of (s_iodevtypes s) n) ∧ (∀ p, registered s' p ↔ registered s p) ∧
  (∀ a, in_use (io_heap s) a → in_use (io_heap s') a) ∧
  match r with
  | None => s_iodevtypes s' = s_iodevtypes s ∧ cs ∉ (cstr_of ∘ name <$> s_iodevtypes s) ∧ ¬ HeapSucceeds H
  | Some i => ∃ t types1 types2, s_iodevtypes s' = types1 ++ t :: types2 ∧ length types1 = i ∧ cstr_of (name t) = cs
  end).
Proof.
  intros Hwf Hdt. unfold desttype_for. apply wp_bind. exists s, s. split; [done|].
  destruct (getiodevtypefor_ok (s_iodevtypes s) dt cs (ty_named _ (io_types _ Hwf)) Hdt) as (r & E & Hr).
  apply wp_bind. eapply wp_lift; [done|]. destruct r as [i|]; [by apply wp_ret|].
  destruct (heap_alloc_law SIZEOF_IODEVTYPE HEAP_FLAG_ZEROMEMORY (io_heap s)) as (p & h & Ea & Hkeep & _).
  apply wp_bind. eexists p, _. split; [unfold in_heap; by rewrite Ea|]. destruct (Z.eqb_spec p 0) as [->|].
  - apply wp_ret. split; [by apply iodevs_wf_heap|]. do 5 (split; [done|]). split; [done|]. split; [done|].
    intros Hs. destruct (Hs SIZEOF_IODEVTYPE HEAP_FLAG_ZEROMEMORY (io_heap s)) as (p & h' & Ea' & Hp). rewrite Ea in Ea'. by injection Ea' as <- _.
  - apply wp_bind. eexists tt, _. split; [done|]. apply wp_ret. cbn.
    split; [by apply (new_type_wf (Iodevs (s_iodevtypes s) (devs s) h (io_irq s)) dt cs); [apply iodevs_wf_heap|..]|].
    split; [done|]. split; [done|]. split; [|split; [|split; [done|]]].
    + intros m. rewrite devices_of_app, devices_of_cons. cbn. case_decide; by rewrite !app_nil_r.
    + intros q. unfold registered. cbn. rewrite fmap_app, concat_app. cbn. by rewrite app_nil_r.
    + exists (IodevType [] dt 0), (s_iodevtypes s), []. split; [done|]. split; [done|]. by apply cstr_of_eq.
Qed.

(** The type of a name is the only one. *)
Lemma devices_of_middle types1 t types2 n : types_wf (types1 ++ t :: types2) →
  devices_of (types1 ++ t :: types2) n =
    if decide (cstr_of (name t) = n) then devices t else devices_of types1 n ++ devices_of types2 n.
Proof.
  intros [_ Hd _]. rewrite devices_of_app, devices_of_cons. case_decide as E; [|done].
  rewrite fmap_app, fmap_cons in Hd. apply NoDup_app in Hd as (_ & Hd1 & [Hd2 _]%NoDup_cons). cbn in *. rewrite E in *.
  rewrite !devices_of_none, app_nil_r; [done|done|]. intros Hin. apply (Hd1 _ Hin). by left.
Qed.

Lemma devices_of_with_device types1 t types2 p n : types_wf (types1 ++ t :: types2) → types_wf (types1 ++ with_device p t :: types2) →
  devices_of (types1 ++ with_device p t :: types2) n =
    devices_of (types1 ++ t :: types2) n ++ (if decide (cstr_of (name t) = n) then [p] else []).
Proof.
  intros Hwf Hwf'. rewrite !devices_of_middle by done. cbn. case_decide; [done|by rewrite app_nil_r].
Qed.

Lemma iodev_register_ok s p dt cs dat : iodevs_wf s → cstr dt cs → ¬ registered s p →
  Z.of_nat (length (devices_of (s_iodevtypes s) cs)) < SIZE_MAX →
  wp (iodev_register p dt dat) s (λ r s', iodevs_wf s' ∧ io_irq s' = io_irq s ∧ (∀ q, q ≠ p → devs s' !! q = devs s !! q) ∧
    (∀ a, in_use (io_heap s) a → in_use (io_heap s') a) ∧
    (r = 0 ∧ devs s' !! p = Some (Iodev (Z.of_nat (length (devices_of (s_iodevtypes s) cs))) dt dat) ∧
     (∀ n, devices_of (s_iodevtypes s') n = devices_of (s_iodevtypes s) n ++ (if decide (cs = n) then [p] else [])) ∧
     (∀ q, registered s' q ↔ registered s q ∨ q = p) ∨
     r = - ENOMEM ∧ ¬ HeapSucceeds H ∧ cs ∉ (cstr_of ∘ name <$> s_iodevtypes s) ∧ s_iodevtypes s' = s_iodevtypes s)).
Proof.
  intros Hwf Hdt Hp Hlen. unfold iodev_register. apply wp_bind. eexists _, (with_io_irq false s). split; [done|].
  set (d := default (Iodev 0 [] 0) (devs s !! p)).
  apply wp_bind. eexists tt, (with_devs (<[p := Iodev (id d) dt dat]> (devs s)) (with_io_irq false s)). split; [done|].
  set (s1 := with_devs _ _). assert (iodevs_wf s1) as Hwf1 by (apply (iodevs_wf_set (with_io_irq false s)); [by apply iodevs_wf_irq|done]).
  apply wp_bind. eapply wp_mono; [by apply (desttype_for_ok s1 dt cs)|]. intros r s2 (Hwf2 & Hdevs & Hirq & Hof & Hreg & Hheap & Hr).
  destruct r as [i|].
  - destruct Hr as (t & types1 & types2 & Et & <- & En).
    assert (devices_of (s_iodevtypes s) cs = devices t) as Edev.
    { change (devices_of (s_iodevtypes s) cs) with (devices_of (s_iodevtypes s1) cs).
      rewrite <- Hof, Et, devices_of_middle, decide_True; [done|done|]. rewrite <- Et. apply Hwf2. }
    assert (¬ registered s2 p) as Hp2 by (by rewrite Hreg). rewrite Edev in *.
    assert (cstr_of dt = cstr_of (name t)) as Ename by (by rewrite (cstr_of_eq _ _ Hdt)).
    apply wp_bind. apply wp_bind. eexists tt, _. split.
    { eapply (add_device_ok s2 types1 t types2 p (Iodev (id d) dt dat)); try done. rewrite Hdevs. cbn. by rewrite lookup_insert_eq. }
    cbn [devtype data]. set (new := Iodev (Z.of_nat (length (devices t))) dt dat).
    assert (iodevs_wf (with_types (types1 ++ with_device p t :: types2) (with_devs (<[p := new]> (devs s2)) s2))) as Hwf3.
    { apply add_device_wf; [done|done|done|exact Ename|reflexivity|]. destruct (ty_nextid _ (io_types _ Hwf2) t) as [-> _]; [rewrite Et; set_solver|done]. }
    apply wp_ret. apply wp_bind. eexists tt, _. split; [done|]. apply wp_ret. split; [by apply iodevs_wf_irq|]. cbn.
    split; [rewrite Hirq; by destruct (io_irq s)|]. rewrite Hdevs. cbn. split; [intros q Hq; by rewrite !lookup_insert_ne|]. split; [done|]. left.
    split; [done|]. split; [by rewrite lookup_insert_eq|]. split.
    + intros n. rewrite devices_of_with_device; [|rewrite <- Et; apply Hwf2|apply Hwf3]. rewrite <- Et, Hof. cbn. by rewrite En.
    + intros q. unfold registered in *. cbn. rewrite devices_perm, <- Et, elem_of_cons, Hreg. cbn. tauto.
  - destruct Hr as (Et & Hnew & Hnever). apply wp_bind. apply wp_ret. apply wp_bind. eexists tt, _. split; [done|]. apply wp_ret.
    split; [by apply iodevs_wf_irq|]. cbn. split; [rewrite Hirq; by destruct (io_irq s)|]. rewrite Hdevs. cbn.
    split; [intros q Hq; by rewrite lookup_insert_ne|]. split; [done|]. by right.
Qed.
End Correct.

(** registering a device that is not registered gives it the next number of its
    type, and makes it the last of the type's devices; the type is created when
    it is new. Without memory for it the call returns -ENOMEM and the registry
    is as it was. The numbers of a type stay consecutive, and the interrupt flag
    is what it was. *)
Theorem iodev_register_correct {H : Type} `{!HeapOps H, !HeapLaws H} (s : iodevs H) p dt cs dat :
  iodevs_wf s → cstr dt cs → ¬ registered s p → Z.of_nat (length (devices_of (s_iodevtypes s) cs)) < SIZE_MAX →
  wp (iodev_register p dt dat) s (λ r s', iodevs_wf s' ∧ io_irq s' = io_irq s ∧ (∀ q, q ≠ p → devs s' !! q = devs s !! q) ∧
    (∀ a, in_use (io_heap s) a → in_use (io_heap s') a) ∧
    (r = 0 ∧ devs s' !! p = Some (Iodev (Z.of_nat (length (devices_of (s_iodevtypes s) cs))) dt dat) ∧
     (∀ n, devices_of (s_iodevtypes s') n = devices_of (s_iodevtypes s) n ++ (if decide (cs = n) then [p] else [])) ∧
     (∀ q, registered s' q ↔ registered s q ∨ q = p) ∨
     r = - ENOMEM ∧ ¬ HeapSucceeds H ∧ cs ∉ (cstr_of ∘ name <$> s_iodevtypes s) ∧ s_iodevtypes s' = s_iodevtypes s)).
Proof. apply iodev_register_ok. Qed.

(** The first device. *)
Lemma iodev_register_correct_witness :
  let s := Iodevs [] ∅ (0%nat, 1%nat) true in
  wp (@iodev_register _ bounded_heap 0x5000 IODEV_TYPE_PHYSICAL_DISK 0x5000) s (λ r s', iodevs_wf s' ∧ io_irq s' = true ∧
    (∀ q, q ≠ 0x5000 → devs s' !! q = (∅ : gmap Z iodev) !! q) ∧
    (∀ a, bounded_heap_in_use (0%nat, 1%nat) a → bounded_heap_in_use (io_heap s') a) ∧
    (r = 0 ∧ devs s' !! 0x5000 = Some (Iodev 0 IODEV_TYPE_PHYSICAL_DISK 0x5000) ∧
     (∀ n, devices_of (s_iodevtypes s') n = [] ++ (if decide ([112; 100; 105; 115; 107] = n) then [0x5000] else [])) ∧
     (∀ q, registered s' q ↔ registered s q ∨ q = 0x5000) ∨
     r = - ENOMEM ∧ ¬ @HeapSucceeds _ bounded_heap ∧ ([112; 100; 105; 115; 107] : list Z) ∉ ([] : list (list Z)) ∧ s_iodevtypes s' = [])).
Proof.
  apply (@iodev_register_correct _ bounded_heap bounded_heap_laws (Iodevs [] ∅ (0%nat, 1%nat) true) 0x5000
    IODEV_TYPE_PHYSICAL_DISK [112; 100; 105; 115; 107] 0x5000).
  - split; [split|..]; cbn; try (by intros ? ?%not_elem_of_nil); try apply NoDup_nil_2. by intros ? ? ? ?%not_elem_of_nil.
  - split; [|by exists []]. cbn. rewrite !not_elem_of_cons. by repeat split; [..|apply not_elem_of_nil].
  - intros Hr. by apply not_elem_of_nil in Hr.
  - reflexivity.
Defined.
