(* ===== verification/Mbr.v ===== *)
(** The discovery of partitions (src/kernel/io/disk.c): the partition table of
    each physical disk is read, and its partitions are registered as logical
    disks. *)
From S2P Require Import Prelude MiscMath StrUtil Arch HeapIface Disk Iodev.

(** ** The partition table *)

Record mbr_entry := MbrEntry { startlba : Z; sectorcount : Z; partitiontype : Z; flags : Z }.

Definition mbr_entry_at (ptr : list Z) : res mbr_entry :=
  flags ← rd ptr 0x0;
  partitiontype ← rd ptr 0x4;
  startlba ← u32le_at (drop 0x8 ptr);
  sectorcount ← u32le_at (drop 0xc ptr);
  Ok (MbrEntry startlba sectorcount partitiontype flags).

Definition MBR_BLOCK_SIZE : Z := 512.
Definition SIZEOF_LDISK : Z := 36.

(** The registry of devices, the disks by their address, and the driver. *)
Record disks (H D : Type) := Disks {
  registry : iodevs H; pdisks : gmap Z pdisk; ldisks : gmap Z ldisk; driver : D;
}.
Arguments Disks {H D}. Arguments registry {H D}. Arguments pdisks {H D}. Arguments ldisks {H D}. Arguments driver {H D}.

Section Operations.
Context {H D : Type} `{!HeapOps H, !PdiskOps D}.
Local Abbreviation disks := (disks H D).
Implicit Types s : disks.

Definition in_registry {A} (op : M (iodevs H) A) : M disks A := λ s,
  match op (registry s) with
  | Ok (a, r) => Ok (a, Disks r (pdisks s) (ldisks s) (driver s))
  | Fault f => Fault f
  end.
Definition in_driver {A} (op : M D A) : M disks A := λ s,
  match op (driver s) with
  | Ok (a, d) => Ok (a, Disks (registry s) (pdisks s) (ldisks s) d)
  | Fault f => Fault f
  end.
Definition set_ldisk (p : Z) (l : option ldisk) : M disks unit := λ s,
  Ok (tt, Disks (registry s) (pdisks s) (partial_alter (λ _, l) p (ldisks s)) (driver s)).

Definition alloc (size flags : Z) : M disks Z := in_registry (in_heap (heap_alloc size flags)).
Definition free (p : Z) : M disks unit := in_registry (in_heap (heap_free p)).

Definition register_ldisk (pdisk : pdisk) (startblockaddr block_count : Z) : M disks Z :=
  disk ← alloc SIZEOF_LDISK HEAP_FLAG_ZEROMEMORY;
  if disk =? 0 then
    _ ← free disk;
    mret (- ENOMEM)
  else
    _ ← set_ldisk disk (Some (Ldisk pdisk startblockaddr block_count));
    result ← in_registry (iodev_register disk IODEV_TYPE_LOGICAL_DISK disk);
    if result <? 0 then
      _ ← free disk;
      _ ← set_ldisk disk None;
      mret result
    else mret result.

Definition mbr_entries (first_block : list Z) : res (list mbr_entry) :=
  e0 ← mbr_entry_at (drop 0x1be first_block);
  e1 ← mbr_entry_at (drop 0x1ce first_block);
  e2 ← mbr_entry_at (drop 0x1de first_block);
  e3 ← mbr_entry_at (drop 0x1ee first_block);
  Ok [e0; e1; e2; e3].

Definition parse_mbr (disk : pdisk) (first_block : list Z) (block_size : Z) : M disks bool :=
  _ ← massert (MBR_BLOCK_SIZE =? block_size);
  b510 ← lift (rd first_block 510);
  invalid ← (if negb (b510 =? 0x55) then mret true
             else b511 ← lift (rd first_block 511); mret (negb (b511 =? 0xaa)));
  if invalid : bool then mret false
  else
    mbrentries ← lift (mbr_entries first_block);
    _ ← for_ mbrentries (λ e,
          if partitiontype e =? 0x00 then mret tt
          else _ ← register_ldisk disk (startlba e) (sectorcount e); mret tt);
    mret true.

(** [disk_out] is at [p]; it is cleared and filled in. *)
Definition pdisk_register (p : Z) (blocksize data : Z) : M disks Z :=
  _ ← (λ s, Ok (tt, Disks (registry s) (<[p := Pdisk blocksize data]> (pdisks s)) (ldisks s) (driver s)));
  in_registry (iodev_register p IODEV_TYPE_PHYSICAL_DISK p).

(** The block read from a disk: its address, null on failure, and contents. *)
Definition read_first_block (disk : pdisk) : M disks (Z * list Z) :=
  first_block ← alloc (block_size disk) 0;
  if first_block =? 0 then
    _ ← free first_block;
    mret (0, [])
  else
    '(ret, bytes) ← in_driver (pdisk_read disk 0 1);
    if ret <? 0 then
      _ ← free first_block;
      mret (0, [])
    else mret (first_block, bytes).

Definition discover (devnode : Z) : M disks unit :=
  s ← get;
  match devs (registry s) !! devnode with
  | None => throw Bad_pointer
  | Some device =>
      match pdisks s !! data device with
      | None => throw Bad_pointer
      | Some disk =>
          '(first_block, bytes) ← read_first_block disk;
          _ ← (if negb (first_block =? 0) then
                 _ ← parse_mbr disk bytes (block_size disk); mret tt
               else mret tt);
          free first_block
      end
  end.

Definition ldisk_discover : M disks unit :=
  devlist ← in_registry (iodev_get_list IODEV_TYPE_PHYSICAL_DISK);
  match devlist with
  | None | Some [] => mret tt
  | Some devlist => for_ devlist discover
  end.
End Operations.

(** ** What the partition table says *)

Definition le_value (bs : list Z) : Z := foldr (λ b v, b + 256 * v) 0 bs.

(** The bytes of an entry: its type, the first block and the number of blocks. *)
Definition entry_bytes (block : list Z) (i : nat) : list Z := drop (446 + 16 * i) block.
Definition entry_type (block : list Z) (i : nat) : Z := nth 4 (entry_bytes block i) 0.
Definition entry_partition (disk : pdisk) (block : list Z) (i : nat) : ldisk :=
  Ldisk disk (le_value (take 4 (drop 8 (entry_bytes block i)))) (le_value (take 4 (drop 12 (entry_bytes block i)))).

(** The partitions of a disk: those of the entries whose type is not zero, if
    the block ends with the signature. *)
Definition partitions (disk : pdisk) (block : list Z) : list ldisk :=
  if decide (nth 510 block 0 = 0x55 ∧ nth 511 block 0 = 0xaa)
  then entry_partition disk block <$> filter (λ i, entry_type block i ≠ 0) [0; 1; 2; 3]%nat
  else [].

Lemma u32le_value l : (4 ≤ length l)%nat → Forall is_u8 l → u32le_at l = Ok (le_value (take 4 l)).
Proof.
  intros Hl Hb. destruct l as [|b0 [|b1 [|b2 [|b3 l]]]]; cbn in Hl; try lia.
  repeat (apply Forall_cons in Hb as [? Hb]). rewrite u32le_at_sum by done.
  change (take 4 (b0 :: b1 :: b2 :: b3 :: l)) with [b0; b1; b2; b3]. unfold le_value. cbn [foldr]. f_equal. lia.
Qed.

Lemma rd_nth (l : list Z) i : (i < length l)%nat → rd l (Z.of_nat i) = Ok (nth i l 0).
Proof. intros Hi. apply rd_ok; [lia|]. rewrite Nat2Z.id. destruct (nth_lookup_or_length l i 0); [done|lia]. Qed.

Lemma mbr_entry_ok ptr : (16 ≤ length ptr)%nat → Forall is_u8 ptr →
  mbr_entry_at ptr = Ok (MbrEntry (le_value (take 4 (drop 8 ptr))) (le_value (take 4 (drop 12 ptr))) (nth 4 ptr 0) (nth 0 ptr 0)).
Proof.
  intros Hl Hb. unfold mbr_entry_at. rewrite (rd_nth ptr 0 ltac:(lia) : rd ptr 0 = _), (rd_nth ptr 4 ltac:(lia) : rd ptr 4 = _).
  rewrite !u32le_value by (by apply Forall_drop || (rewrite length_drop; lia)). done.
Qed.

Definition entry_at (block : list Z) (i : nat) : mbr_entry :=
  MbrEntry (le_value (take 4 (drop 8 (entry_bytes block i)))) (le_value (take 4 (drop 12 (entry_bytes block i))))
    (entry_type block i) (nth 0 (entry_bytes block i) 0).

Lemma mbr_entries_ok block : length block = 512%nat → Forall is_u8 block →
  mbr_entries block = Ok (entry_at block <$> [0; 1; 2; 3]%nat).
Proof.
  intros Hl Hb. unfold mbr_entries.
  rewrite !mbr_entry_ok by (by apply Forall_drop || (rewrite length_drop; lia)). done.
Qed.

(** ** Registering the partitions *)

Definition ldisk_name : list Z := cstr_of IODEV_TYPE_LOGICAL_DISK.
Definition pdisk_name : list Z := cstr_of IODEV_TYPE_PHYSICAL_DISK.

Section Correct.
Context {H D : Type} `{!HeapOps H, !HeapLaws H, !HeapSucceeds H, !PdiskOps D, !PdiskLaws D}.
Local Abbreviation disks := (disks H D).
Implicit Types s : disks.

Definition types_of s (n : list Z) : list Z := devices_of (s_iodevtypes (registry s)) n.

Lemma Forall2_impl_elem {A B} (P Q : A → B → Prop) l k :
  Forall2 P l k → (∀ x y, x ∈ l → P x y → Q x y) → Forall2 Q l k.
Proof using Type. induction 1; intros HPQ; constructor; [apply HPQ; [by left|done]|apply IHForall2; intros; apply HPQ; [by right|done]]. Qed.

(** What is registered is in memory that is in use. *)
Record disks_ok s : Prop := {
  reg_wf : iodevs_wf (registry s);
  reg_in_use p : registered (registry s) p → in_use (io_heap (registry s)) p;
}.

(** The logical disks, in the order of their numbers. *)
Definition has_ldisks s (ls : list ldisk) : Prop :=
  Forall2 (λ a l, ldisks s !! a = Some l) (types_of s ldisk_name) ls.

(** Memory that is used for something else. *)
Definition other_memory s (a : Z) : Prop := in_use (io_heap (registry s)) a ∧ ¬ registered (registry s) a.

(** Only logical disks were added. *)
Record kept s s' : Prop := {
  kept_ok : disks_ok s';
  kept_pdisks : pdisks s' = pdisks s;
  kept_contents : contents (driver s') = contents (driver s);
  kept_devs q : registered (registry s) q → devs (registry s') !! q = devs (registry s) !! q ∧ registered (registry s') q;
  kept_types n : n ≠ ldisk_name → types_of s' n = types_of s n;
  kept_irq : io_irq (registry s') = io_irq (registry s);
}.

(** The driver was not called, and memory that is used stays so. *)
Definition aside s s' : Prop := driver s' = driver s ∧ ∀ a, other_memory s a → other_memory s' a.
Lemma aside_trans s1 s2 s3 : aside s1 s2 → aside s2 s3 → aside s1 s3.
Proof using Type. intros [H1 H2] [H3 H4]. split; [congruence|]. intros a Ha. by apply H4, H2. Qed.

Lemma kept_refl s : disks_ok s → kept s s.
Proof using Type. by split. Qed.
Lemma kept_trans s1 s2 s3 : kept s1 s2 → kept s2 s3 → kept s1 s3.
Proof using Type.
  intros [H1 H2 H3 H4 H5 H6] [K1 K2 K3 K4 K5 K6]. split; [done|congruence|congruence| |intros n Hn; by rewrite K5, H5|congruence].
  intros q Hq. destruct (H4 q Hq) as [E1 Hq2]. destruct (K4 q Hq2) as [-> Hq3]. done.
Qed.

Lemma registered_type s n p : p ∈ types_of s n → registered (registry s) p.
Proof using Type.
  unfold types_of, devices_of, registered. rewrite !list_elem_of_In, !in_concat. intros (l & Hl & Hp). exists l. split; [|done].
  apply list_elem_of_In, list_elem_of_fmap in Hl as (t & -> & [_ Ht]%list_elem_of_filter).
  apply list_elem_of_In, list_elem_of_fmap. by exists t.
Qed.

Definition with_registry (r : iodevs H) s : disks := Disks r (pdisks s) (ldisks s) (driver s).
Definition heap_of s : H := io_heap (registry s).
Definition with_heap (h : H) s : disks :=
  with_registry (Iodevs (s_iodevtypes (registry s)) (devs (registry s)) h (io_irq (registry s))) s.

Lemma alloc_block_ok s size fl : disks_ok s → ∃ p h, alloc size fl s = Ok (p, with_heap h s) ∧ p ≠ 0 ∧ disks_ok (with_heap h s) ∧
  ¬ in_use (heap_of s) p ∧ other_memory (with_heap h s) p ∧ ∀ a, other_memory s a → other_memory (with_heap h s) a.
Proof using All.
  intros [Hwf Hin]. destruct (heap_alloc_law size fl (heap_of s)) as (p & h & E & Hkeep & Hp).
  destruct (heap_alloc_succeeds size fl (heap_of s)) as (p' & h' & E' & Hp'). rewrite E in E'. injection E' as <- <-.
  destruct Hp as [?|[Hnew Huse]]; [done|]. exists p, h. split; [unfold alloc, in_registry, in_heap, heap_of in *; by rewrite E|].
  split; [done|]. split; [|split; [done|split]].
  - split; [by apply (iodevs_wf_heap (registry s))|]. intros q Hq. apply Hkeep, Hin, Hq.
  - split; [done|]. intros Hr. by apply Hnew, Hin.
  - intros a [Ha Hna]. split; [by apply Hkeep|done].
Qed.

Lemma free_block_ok s p : disks_ok s → p = 0 ∨ other_memory s p → ∃ h, free p s = Ok (tt, with_heap h s) ∧ disks_ok (with_heap h s) ∧
  ∀ a, a ≠ p → other_memory s a → other_memory (with_heap h s) a.
Proof using Type.
  intros [Hwf Hin] Hp. assert (∀ q, registered (registry s) q → q ≠ p) as Hne.
  { intros q Hq ->. destruct Hp as [->|[_ Hnp]]; [|by apply Hnp]. by eapply heap_null, Hin. }
  destruct (heap_free_law p (heap_of s)) as (h & E & Hkeep); [destruct Hp as [|[]]; [by left|by right]|].
  exists h. split; [unfold free, in_registry, in_heap, heap_of in *; by rewrite E|]. split.
  - split; [by apply (iodevs_wf_heap (registry s))|]. intros q Hq. apply Hkeep; [by apply Hne|by apply Hin].
  - intros a Ha [Hu Hn]. split; [by apply Hkeep|done].
Qed.

(** A logical disk is added at the end of the list. *)
Lemma register_ldisk_ok s pd st n ls : disks_ok s → has_ldisks s ls → Z.of_nat (length ls) < SIZE_MAX →
  wp (register_ldisk pd st n) s (λ _ s', kept s s' ∧ has_ldisks s' (ls ++ [Ldisk pd st n]) ∧
    aside s s').
Proof using All.
  intros Hok Hls Hlen. unfold register_ldisk.
  destruct (alloc_block_ok s SIZEOF_LDISK HEAP_FLAG_ZEROMEMORY Hok) as (p & h & E & Hnn & Hok1 & Hnew & [Huse Hnr] & Hother).
  apply wp_bind. eexists p, _. split; [done|]. destruct (Z.eqb_spec p 0); [done|].
  apply wp_bind. eexists tt, _. split; [done|]. set (s2 := Disks _ _ _ _).
  destruct (iodev_register_ok (registry s2) p IODEV_TYPE_LOGICAL_DISK ldisk_name p) as (r & reg' & Er & Hwf' & Hirq & Hdevs & Huses & Hcase);
    [apply Hok1| |done|by change (Z.of_nat (length (types_of s ldisk_name)) < SIZE_MAX); rewrite (Forall2_length _ _ _ Hls)|].
  { split; [|by exists []]. cbn. rewrite !not_elem_of_cons. by repeat split; [..|apply not_elem_of_nil]. }
  destruct Hcase as [(-> & Hp & Hof & Hreg)|(_ & Hnever & _)]; [|by destruct Hnever].
  apply wp_bind. eexists 0, (with_registry reg' s2). split; [unfold in_registry; by rewrite Er|]. apply wp_ret.
  change (registered (registry s2)) with (registered (registry s)) in Hreg.
  split; [|split].
  - split.
    + split; [done|]. intros q [Hq| ->]%Hreg; apply Huses; [by apply Hok1|done].
    + done.
    + done.
    + intros q Hq. split; [|apply Hreg; by left]. apply Hdevs. intros ->. done.
    + intros m Hm. unfold types_of. cbn. rewrite Hof, decide_False by done. by rewrite app_nil_r.
    + done.
  - unfold has_ldisks, types_of in *. cbn. rewrite Hof, decide_True by done. apply Forall2_app.
    + eapply Forall2_impl_elem; [exact Hls|]. intros a l Ha. cbn. rewrite lookup_partial_alter_ne; [done|].
      intros <-. by apply Hnr, (registered_type s ldisk_name).
    + repeat constructor. cbn. by rewrite lookup_partial_alter_eq.
  - split; [done|]. intros a [Ha Hna]. split; [by apply Huses, Hother|]. cbn. rewrite Hreg. intros [?| ->]; [done|]. by destruct Hnew.
Qed.

Lemma partitions_entries disk block :
  partitions disk block = if decide (nth 510 block 0 = 0x55 ∧ nth 511 block 0 = 0xaa)
    then (λ e, Ldisk disk (startlba e) (sectorcount e)) <$> filter (λ e, partitiontype e ≠ 0) (entry_at block <$> [0; 1; 2; 3]%nat)
    else [].
Proof using Type.
  unfold partitions. case_decide; [|done]. generalize [0; 1; 2; 3]%nat as l. induction l as [|i l IH]; [done|].
  rewrite fmap_cons, !filter_cons. change (partitiontype (entry_at block i)) with (entry_type block i).
  destruct (decide (entry_type block i ≠ 0)); [by rewrite !fmap_cons, IH|done].
Qed.

(** The partitions of a list of entries are registered one after the other. *)
Lemma register_entries_ok s disk es ls : disks_ok s → has_ldisks s ls → Z.of_nat (length ls + length es) ≤ SIZE_MAX →
  wp (for_ es (λ e, if partitiontype e =? 0x00 then mret tt else _ ← register_ldisk disk (startlba e) (sectorcount e); mret tt)) s
    (λ _ s', kept s s' ∧ has_ldisks s' (ls ++ ((λ e, Ldisk disk (startlba e) (sectorcount e)) <$> filter (λ e, partitiontype e ≠ 0) es)) ∧ aside s s').
Proof using All.
  revert s ls. induction es as [|e es IH]; intros s ls Hok Hls Hlen; cbn [for_].
  { apply wp_ret. rewrite filter_nil, app_nil_r. split; [by apply kept_refl|done]. }
  rewrite filter_cons. destruct (Z.eqb_spec (partitiontype e) 0) as [E|E].
  - apply wp_bind, wp_ret. rewrite decide_False by (by intros []). apply IH; [done..|]. cbn [length] in Hlen. lia.
  - rewrite decide_True by done. apply wp_bind, wp_bind. eapply wp_mono; [apply register_ldisk_ok; [done..|cbn [length] in Hlen; lia]|].
    intros r s1 (Hk & Hls1 & Hm). apply wp_ret. eapply wp_mono.
    { apply (IH s1 (ls ++ [Ldisk disk (startlba e) (sectorcount e)])); [apply Hk|done|]. rewrite length_app. cbn [length] in *. lia. }
    intros [] s2 (Hk2 & Hls2 & Hm2). rewrite <- (assoc_L (++)) in Hls2. split; [by eapply kept_trans|]. split; [done|].
    by eapply aside_trans.
Qed.

Lemma parse_mbr_ok s disk block ls : disks_ok s → has_ldisks s ls → Z.of_nat (length ls + 4) ≤ SIZE_MAX →
  length block = 512%nat → Forall is_u8 block →
  wp (parse_mbr disk block 512) s (λ _ s', kept s s' ∧ has_ldisks s' (ls ++ partitions disk block) ∧ aside s s').
Proof using All.
  intros Hok Hls Hlen Hblock Hb. unfold parse_mbr. apply wp_bind. exists tt, s. split; [done|].
  apply wp_bind. eapply wp_lift; [apply (rd_nth block 510); lia|]. rewrite partitions_entries.
  apply wp_bind. exists (negb (bool_decide (nth 510 block 0 = 0x55 ∧ nth 511 block 0 = 0xaa))), s. split.
  { destruct (Z.eqb_spec (nth 510 block 0) 0x55); cbn [negb]; [|by rewrite bool_decide_eq_false_2 by naive_solver].
    rewrite (M_bind_step _ _ s (nth 511 block 0) s) by (unfold lift; by rewrite (rd_nth block 511 ltac:(lia) : rd block 511 = _)).
    destruct (Z.eqb_spec (nth 511 block 0) 0xaa); [by rewrite bool_decide_eq_true_2|by rewrite bool_decide_eq_false_2 by naive_solver]. }
  destruct (decide (nth 510 block 0 = 0x55 ∧ nth 511 block 0 = 0xaa)) as [E|E];
    [rewrite (bool_decide_eq_true_2 _ E)|rewrite (bool_decide_eq_false_2 _ E)]; cbn [negb].
  - apply wp_bind. eapply wp_lift; [by apply mbr_entries_ok|]. apply wp_bind.
    eapply wp_mono; [by apply register_entries_ok|]. intros [] s' Hs'. by apply wp_ret.
  - apply wp_ret. rewrite app_nil_r. split; [by apply kept_refl|done].
Qed.

(** ** Discovery *)

(** A physical disk with blocks of 512 bytes. *)
Definition has_pdisk s (dev : Z) (disk : pdisk) : Prop :=
  ∃ d, devs (registry s) !! dev = Some d ∧ pdisks s !! data d = Some disk ∧ block_size disk = 512.

(** Its first block. *)
Definition first_block_of s (disk : pdisk) : list Z := contents (driver s) disk 0.

(** What the disks add, one after the other: a disk whose own first block is read
    adds its partitions, one whose read fails adds nothing. [C] are the blocks on
    the disks. *)
Fixpoint found (C : pdisk → Z → list Z) (d : D) (ds : list pdisk) : list ldisk :=
  match ds with
  | [] => []
  | disk :: ds =>
      match pdisk_read disk 0 1 d with
      | Ok ((r, _), d') => (if r <? 0 then [] else partitions disk (C disk 0)) ++ found C d' ds
      | Fault _ => []
      end
  end.

Lemma read_first_block_ok s disk : disks_ok s → block_size disk = 512 → wp (read_first_block disk) s (λ '(p, bytes) s',
  kept s s' ∧ ldisks s' = ldisks s ∧ types_of s' ldisk_name = types_of s ldisk_name ∧
  ∃ r bs, pdisk_read disk 0 1 (driver s) = Ok ((r, bs), driver s') ∧
    if r <? 0 then p = 0 else p ≠ 0 ∧ bytes = first_block_of s disk ∧ other_memory s' p).
Proof using All.
  intros Hok Hsize. unfold read_first_block. destruct (alloc_block_ok s (block_size disk) 0 Hok) as (p & h & E & Hnn & Hok1 & _ & Hp & _).
  apply wp_bind. eexists p, _. split; [done|]. destruct (Z.eqb_spec p 0); [done|].
  destruct (pdisk_read_law disk 0 1 (driver s)) as (r & bs & d' & Er & Hct & _ & Hcase); [lia..|].
  set (s2 := Disks (registry (with_heap h s)) (pdisks s) (ldisks s) d').
  apply wp_bind. eexists (r, bs), s2. split; [unfold in_driver; cbn; by rewrite Er|].
  assert (disks_ok s2) as Hok2 by (by destruct Hok1). assert (other_memory s2 p) as Hp2 by done.
  destruct (Z.ltb_spec r 0) as [Hneg|Hpos].
  - destruct (free_block_ok s2 p Hok2 (or_intror Hp2)) as (h3 & E3 & Hok3 & _). apply wp_bind. eexists tt, _. split; [done|]. apply wp_ret.
    split; [by split|]. split; [done|]. split; [done|]. exists r, bs. split; [done|]. by destruct (Z.ltb_spec r 0); [|lia].
  - apply wp_ret. split; [by split|]. split; [done|]. split; [done|]. exists r, bs. split; [done|].
    destruct (Z.ltb_spec r 0); [lia|]. split; [done|]. split; [|done].
    destruct Hcase as [?|[_ ->]]; [lia|]. transitivity (contents (driver s) disk 0 ++ []); [done|by rewrite app_nil_r].
Qed.

Lemma discover_ok s dev disk ls : disks_ok s → has_ldisks s ls → Z.of_nat (length ls + 4) ≤ SIZE_MAX → has_pdisk s dev disk →
  wp (discover dev) s (λ _ s', kept s s' ∧ ∃ r bs new, pdisk_read disk 0 1 (driver s) = Ok ((r, bs), driver s') ∧
    new = (if r <? 0 then [] else partitions disk (first_block_of s disk)) ∧ (length new ≤ 4)%nat ∧ has_ldisks s' (ls ++ new)).
Proof using All.
  intros Hok Hls Hlen (d & Hd & Hdisk & Hsize). unfold discover. apply wp_bind. exists s, s. split; [done|]. rewrite Hd, Hdisk.
  apply wp_bind. eapply wp_mono; [by apply read_first_block_ok|]. intros [p bytes] s1 (Hk1 & Hlds & Hty & r & bs & Hrd & Hcase).
  assert (has_ldisks s1 ls) as Hls1 by (unfold has_ldisks; by rewrite Hty, Hlds). pose proof (kept_ok _ _ Hk1) as Hok1.
  destruct (r <? 0) eqn:Er.
  - subst p. apply wp_bind, wp_ret. destruct (free_block_ok s1 0 Hok1) as (h & E & Hok3 & _); [by left|].
    exists tt, (with_heap h s1). split; [done|]. split; [eapply kept_trans; [done|by split]|].
    exists r, bs, []. split; [done|]. rewrite Er, app_nil_r. split; [done|]. split; [cbn; lia|done].
  - destruct Hcase as (Hnn & -> & Hp). apply Z.eqb_neq in Hnn. rewrite Hnn. cbn [negb]. apply wp_bind, wp_bind. rewrite Hsize. eapply wp_mono.
    { apply (parse_mbr_ok s1 disk (first_block_of s disk) ls Hok1 Hls1 Hlen).
      - pose proof (contents_length (driver s) disk 0 ltac:(lia)) as Hl. rewrite Hsize in Hl. unfold first_block_of. lia.
      - eapply Forall_impl; [apply contents_bytes|]. done. }
    intros x s2 (Hk2 & Hls2 & [Hdr Hm]). apply wp_ret. destruct (free_block_ok s2 p) as (h & E & Hok3 & _); [apply Hk2|right; by apply Hm|].
    exists tt, (with_heap h s2). split; [done|]. split; [eapply kept_trans; [done|eapply kept_trans; [done|by split]]|].
    exists r, bs, (partitions disk (first_block_of s disk)). rewrite Er. split; [by cbn; rewrite Hdr|]. split; [done|]. split; [|done].
    unfold partitions. case_decide; [|cbn; lia]. rewrite length_fmap. apply (length_filter _ [0; 1; 2; 3]%nat).
Qed.

Lemma kept_pdisk s s' dev disk : kept s s' → registered (registry s) dev → has_pdisk s dev disk → has_pdisk s' dev disk.
Proof using Type.
  intros Hk Hr (d & Hd & Hdisk & Hs). exists d. destruct (kept_devs _ _ Hk dev Hr) as [-> _]. by rewrite (kept_pdisks _ _ Hk).
Qed.

Lemma discover_all_ok s devs ds ls : disks_ok s → has_ldisks s ls → Z.of_nat (length ls + 4 * length devs) ≤ SIZE_MAX →
  Forall (registered (registry s)) devs → Forall2 (has_pdisk s) devs ds →
  wp (for_ devs discover) s (λ _ s', kept s s' ∧ has_ldisks s' (ls ++ found (contents (driver s)) (driver s) ds)).
Proof using All.
  intros Hok Hls Hlen Hreg Hds. revert s ls Hok Hls Hlen Hreg Hds. revert ds.
  induction devs as [|dev devs IH]; intros ds s ls Hok Hls Hlen Hreg Hds; inversion Hds as [|? disk ? ds' Hd Hds']; subst; cbn [for_].
  { apply wp_ret. split; [by apply kept_refl|]. by rewrite app_nil_r. }
  apply Forall_cons in Hreg as [Hr Hreg]. cbn [length] in Hlen.
  apply wp_bind. eapply wp_mono; [apply (discover_ok s dev disk ls); [done|done|lia|done]|].
  intros [] s1 (Hk1 & r & bs & new & Hrd & -> & Hl & Hls1). eapply wp_mono.
  { apply (IH ds' s1 (ls ++ if r <? 0 then [] else partitions disk (first_block_of s disk)));
      [apply Hk1|done|rewrite length_app; lia| |].
    - eapply Forall_impl; [exact Hreg|]. intros q Hq. by apply (kept_devs _ _ Hk1).
    - eapply Forall2_impl_elem; [exact Hds'|]. intros q e Hq He. eapply kept_pdisk; [done| |done].
      by apply (proj1 (Forall_forall _ _) Hreg). }
  intros [] s2 (Hk2 & Hls2). split; [by eapply kept_trans|]. cbn [found]. rewrite Hrd.
  rewrite (kept_contents _ _ Hk1) in Hls2. rewrite <- (assoc_L (++)) in Hls2. exact Hls2.
Qed.

Lemma iodev_get_list_ok (r : iodevs H) dt n : iodevs_wf r → cstr dt n → ∃ o, iodev_get_list dt r = Ok (o, r) ∧
  default [] o = devices_of (s_iodevtypes r) n.
Proof using Type.
  intros Hwf Hdt. destruct (getiodevtypefor_ok (s_iodevtypes r) dt n (ty_named _ (io_types _ Hwf)) Hdt) as (o & E & Ho).
  eexists _. split.
  { unfold iodev_get_list. rewrite (M_bind_step _ _ r r r) by done. by rewrite (M_bind_step _ _ r o r) by (unfold lift; by rewrite E). }
  destruct o as [i|]; cbn; [|by rewrite devices_of_none].
  destruct Ho as (t & l1 & l2 & Et & <- & En). rewrite Et, list_lookup_middle by done. cbn.
  rewrite devices_of_middle, decide_True; [done|done|]. rewrite <- Et. apply Hwf.
Qed.

Lemma ldisk_discover_ok s ds ls : disks_ok s → has_ldisks s ls → Z.of_nat (length ls + 4 * length ds) ≤ SIZE_MAX →
  Forall2 (has_pdisk s) (types_of s pdisk_name) ds →
  wp ldisk_discover s (λ _ s', kept s s' ∧ has_ldisks s' (ls ++ found (contents (driver s)) (driver s) ds)).
Proof using All.
  intros Hok Hls Hlen Hds. unfold ldisk_discover.
  destruct (iodev_get_list_ok (registry s) IODEV_TYPE_PHYSICAL_DISK pdisk_name) as (o & E & Ho); [apply Hok| |].
  { split; [|by exists []]. cbn. rewrite !not_elem_of_cons. by repeat split; [..|apply not_elem_of_nil]. }
  apply wp_bind. exists o, s. split; [unfold in_registry; rewrite E; by destruct s|].
  fold (types_of s pdisk_name) in Ho. assert (wp (for_ (types_of s pdisk_name) discover) s (λ _ s', kept s s' ∧
    has_ldisks s' (ls ++ found (contents (driver s)) (driver s) ds))) as Hall.
  { apply discover_all_ok; [done|done|by rewrite (Forall2_length _ _ _ Hds)| |done].
    apply Forall_forall. intros p. apply registered_type. }
  rewrite <- Ho in Hall. by destruct o as [[|dev devs]|].
Qed.
End Correct.

Section Theorems.
Context {H D : Type} `{!HeapOps H, !HeapLaws H, !HeapSucceeds H, !PdiskOps D, !PdiskLaws D}.

(** C20: discovery registers, as logical disks in the order of the physical disks
    and of their partition tables, exactly the partitions that the tables name,
    with their first blocks and sizes; a disk whose own first block cannot be read,
    or that has no table, adds none, and the disks after it are discovered all
    the same. No other device, disk or block changes. The disks have blocks of 512
    bytes, as the kernel asserts, and memory does not run out. *)
Theorem ldisk_discover_correct (s : disks H D) ds ls : disks_ok s → has_ldisks s ls →
  Z.of_nat (length ls + 4 * length ds) ≤ SIZE_MAX → Forall2 (has_pdisk s) (types_of s pdisk_name) ds →
  wp ldisk_discover s (λ _ s', kept s s' ∧ has_ldisks s' (ls ++ found (contents (driver s)) (driver s) ds)).
Proof using All. apply ldisk_discover_ok. Qed.
End Theorems.

(** ** Three disks, the second of which cannot be read *)

#[local] Existing Instances always_heap always_heap_laws always_heap_succeeds.

Definition sample_mbr (first : Z) : list Z :=
  replicate 446 0 ++ [0x80; 0; 0; 0; 0x83; 0; 0; 0; first; 0; 0; 0; 100; 0; 0; 0] ++ replicate 48 0 ++ [0x55; 0xaa].
Definition sample_contents (p : pdisk) (addr : Z) : list Z := rom_block p (if addr =? 0 then sample_mbr (Disk.data p) else []).
Definition broken : Z := 32.
#[local] Instance sample_driver : PdiskOps unit := {|
  pdisk_read p addr count := λ d,
    Ok (if Disk.data p =? broken then (- EIO, []) else (0, blocks_of (sample_contents p) addr (Z.to_nat count)), d);
  pdisk_write p buf addr count := λ d, Ok (- EIO, d);
|}.

Lemma sample_read_law p addr count (d : unit) : 0 ≤ block_size p → 0 ≤ count → ∃ r bs d',
  pdisk_read p addr count d = Ok ((r, bs), d') ∧ sample_contents = sample_contents ∧
  Z.of_nat (length bs) ≤ count * block_size p ∧ (r < 0 ∨ 0 ≤ r ∧ bs = blocks_of (sample_contents p) addr (Z.to_nat count)).
Proof.
  intros Hb Hc. cbn [pdisk_read sample_driver]. destruct (Disk.data p =? broken); do 3 eexists; (split; [reflexivity|]); (split; [done|]).
  - split; [cbn [length]; lia|by left].
  - split; [|by right]. rewrite (blocks_of_length _ _ _ (block_size p)); [lia|]. intros a. by apply rom_block_length.
Qed.

#[local] Instance sample_driver_laws : PdiskLaws unit :=
  Build_PdiskLaws unit sample_driver (λ _, sample_contents) (λ _ p a, rom_block_length p _) (λ _ p a, rom_block_bytes p _) sample_read_law.

Definition sample_pdisk (p : Z) : pdisk := Pdisk 512 p.
(** The state once the disks, at addresses 16, 32 and 48, are registered. *)
Definition sample_disks : disks nat unit :=
  Disks (Iodevs [IodevType [16; 32; 48] IODEV_TYPE_PHYSICAL_DISK 3]
    (list_to_map ((λ p, (p.2, Iodev p.1 IODEV_TYPE_PHYSICAL_DISK p.2)) <$> [(0, 16); (1, 32); (2, 48)])) 4%nat true)
    (list_to_map ((λ p, (p, sample_pdisk p)) <$> [16; 32; 48])) ∅ tt.

Example sample_disks_eq :
  (p ← alloc 100 0; q ← alloc 100 0; r ← alloc 100 0;
   _ ← pdisk_register p 512 p; _ ← pdisk_register q 512 q; pdisk_register r 512 r) (Disks (Iodevs [] ∅ 0%nat true) ∅ ∅ tt) = Ok (0, sample_disks).
Proof. vm_compute. reflexivity. Qed.

Lemma sample_disks_ok : disks_ok sample_disks.
Proof.
  split; [split; [split|..]|]; cbn.
  - intros t ->%list_elem_of_singleton. exists pdisk_name. split; [|by exists []].
    cbn. rewrite !not_elem_of_cons. by repeat split; [..|apply not_elem_of_nil].
  - apply NoDup_singleton.
  - by intros t ->%list_elem_of_singleton.
  - repeat (apply NoDup_cons; split; [rewrite ?elem_of_cons, elem_of_nil; intuition discriminate|]). constructor.
  - intros t k p ->%list_elem_of_singleton Hk. cbn in Hk.
    destruct k as [|[|[|k]]]; cbn in Hk; [injection Hk as <-; eexists; (split; [reflexivity|done])..|done].
  - unfold registered. cbn. intros p Hp. rewrite !elem_of_cons, elem_of_nil in Hp.
    destruct Hp as [->|[->|[->|[]]]]; [exists 0%nat|exists 1%nat|exists 2%nat]; cbn; split; lia.
Qed.

(** The first and the third disk have their partitions; the second has one as
    well, which cannot be read. *)
Lemma ldisk_discover_correct_witness :
  partitions (sample_pdisk 32) (sample_contents (sample_pdisk 32) 0) = [Ldisk (sample_pdisk 32) 32 100] ∧
  wp ldisk_discover sample_disks (λ _ s', kept sample_disks s' ∧
    has_ldisks s' [Ldisk (sample_pdisk 16) 16 100; Ldisk (sample_pdisk 48) 48 100]).
Proof.
  split; [vm_compute; reflexivity|]. eapply wp_mono.
  - apply (ldisk_discover_correct sample_disks [sample_pdisk 16; sample_pdisk 32; sample_pdisk 48] []).
    + exact sample_disks_ok.
    + constructor.
    + discriminate.
    + repeat constructor; (eexists; split; [reflexivity|]; split; reflexivity).
  - intros [] s' [Hk Hls]. split; [exact Hk|].
    change (found _ _ _) with (found sample_contents tt [sample_pdisk 16; sample_pdisk 32; sample_pdisk 48]) in Hls.
    assert (found sample_contents tt [sample_pdisk 16; sample_pdisk 32; sample_pdisk 48] =
      [Ldisk (sample_pdisk 16) 16 100; Ldisk (sample_pdisk 48) 48 100]) as Ef by (vm_compute; reflexivity).
    rewrite Ef in Hls. exact Hls.
Defined.
