(* ===== verification/AtaDisk.v ===== *)
(** ATA disks (src/kernel/dev/atadisk.c, src/include/kernel/dev/atadisk.h): the
    commands that move sectors, with programmed i/o or DMA, the waits on the
    device and their time limits, and the retries. *)
From S2P Require Import Prelude StrUtil HeapIface Disk Iodev Mbr.

Definition ATA_STATUSFLAG_ERR : Z := Z.shiftl 1 0.
Definition ATA_STATUSFLAG_DRQ : Z := Z.shiftl 1 3.
Definition ATA_STATUSFLAG_DF : Z := Z.shiftl 1 5.
Definition ATA_STATUSFLAG_BSY : Z := Z.shiftl 1 7.

Definition ATA_CMD_FLUSH_CACHE : Z := 0xe7.
Definition ATA_CMD_IDENTIFY_DEVICE : Z := 0xec.
Definition ATA_CMD_READ_DMA : Z := 0xc8.
Definition ATA_CMD_READ_SECTORS : Z := 0x20.
Definition ATA_CMD_WRITE_DMA : Z := 0xca.
Definition ATA_CMD_WRITE_SECTORS : Z := 0x30.

Definition ATA_MAX_SECTORS_PER_TRANSFER : Z := 256.
Definition ATA_SECTOR_SIZE : Z := 512.
Definition TIMEOUT : Z := 5000.
Definition MAX_RETRIES : nat := 3.
Definition STATUS_POLL_PERIOD : Z := 10.

Inductive ATA_DMASTATUS :=
  | ATA_DMASTATUS_FAIL_UDMA_CRC
  | ATA_DMASTATUS_FAIL_OTHER_IO
  | ATA_DMASTATUS_FAIL_NOMEM
  | ATA_DMASTATUS_SUCCESS
  | ATA_DMASTATUS_BUSY.

(** [struct atadisk_ops]: what the driver of a controller provides for the disk
    it is given, and the clock [g_ticktime], which advances while the code runs.
    A [struct ata_data_buf] is the list of its 256 words.  [dma_end_transfer]
    returns the bytes it stores in the buffer that [dma_init_transfer] was given. *)
Class AtaOps (D : Type) := {
  g_ticktime : M D Z;
  dma_begin_session : Z → M D bool;
  dma_end_session : Z → M D unit;
  lock : Z → M D unit;
  unlock : Z → M D unit;
  read_status : Z → M D Z;
  select_disk : Z → M D unit;
  set_features_param : Z → Z → M D unit;
  set_count_param : Z → Z → M D unit;
  set_lba_param : Z → Z → M D unit;
  get_lba_output : Z → M D Z;
  issue_command : Z → Z → M D unit;
  get_irq_flag : Z → M D bool;
  clear_irq_flag : Z → M D unit;
  read_data : Z → M D (list Z);
  write_data : Z → list Z → M D unit;
  soft_reset : Z → M D unit;
  dma_init_transfer : Z → list Z → Z → bool → M D Z;
  dma_begin_transfer : Z → M D Z;
  dma_check_transfer : Z → M D ATA_DMASTATUS;
  dma_end_transfer : Z → bool → M D (list Z);
  dma_deinit_transfer : Z → M D unit;
  (* bounds on the iterations of a loop until the time is out, and of one that
     waits for interrupts *)
  WAIT_FUEL : nat;
  IRQ_FUEL : nat;
}.

Section Operations.
Context {D : Type} `{!AtaOps D}.

(** ** Waiting *)

Definition has_flag (status flags : Z) : bool := negb (Z.land status flags =? 0).
Definition ERR_OR_DF : Z := Z.lor ATA_STATUSFLAG_ERR ATA_STATUSFLAG_DF.

(** [while ((g_ticktime - starttime) < TIMEOUT) ...], on 64-bit unsigned
    integers: the body gives the state of the next iteration or the result, and
    the result is an error when the time is out. *)
Definition while_in_time {X} (body : X → M D (X + Z)) (x : X) : M D Z :=
  starttime ← g_ticktime;
  loop_m WAIT_FUEL (λ x,
    now ← g_ticktime;
    if u64 (now - starttime) <? TIMEOUT then body x else mret (inr (- EIO))) x.

(** The loop of [wait_irq]; its state is [lastchecktime]. *)
Definition wait_irq_body (disk lastchecktime : Z) : M D (Z + Z) :=
  now ← g_ticktime;
  r ← (if STATUS_POLL_PERIOD <=? u64 (lastchecktime - now) then
         diskstatus ← read_status disk;
         if has_flag diskstatus ERR_OR_DF then mret (inr (- EIO))
         else now ← g_ticktime; mret (inl now)
       else mret (inl lastchecktime));
  match r with
  | inr e => mret (inr e)
  | inl lastchecktime =>
      flag ← get_irq_flag disk;
      if flag : bool then
        _ ← clear_irq_flag disk;
        mret (inr 0)
      else mret (inl lastchecktime)
  end.
Definition wait_irq (disk : Z) : M D Z := while_in_time (wait_irq_body disk) 0.

Definition wait_busy_clear_body (disk : Z) (_ : unit) : M D (unit + Z) :=
  diskstatus ← read_status disk;
  mret (if negb (has_flag diskstatus ATA_STATUSFLAG_BSY) then inr 0
        else if has_flag diskstatus ERR_OR_DF then inr (- EIO)
        else inl tt).
Definition wait_busy_clear (disk : Z) : M D Z := while_in_time (wait_busy_clear_body disk) tt.

(** The loop has no time limit of its own. *)
Definition wait_busy_clear_irq_step (disk : Z) (_ : unit) : M D (unit + Z) :=
  ret ← wait_irq disk;
  if ret <? 0 then mret (inr ret)
  else
    diskstatus ← read_status disk;
    if negb (has_flag diskstatus ATA_STATUSFLAG_BSY) then mret (inr ret) else mret (inl tt).
Definition wait_busy_clear_irq (disk : Z) : M D Z :=
  loop_m IRQ_FUEL (wait_busy_clear_irq_step disk) tt.

Definition wait_drq_set_body (disk : Z) (_ : unit) : M D (unit + Z) :=
  diskstatus ← read_status disk;
  mret (if has_flag diskstatus ERR_OR_DF then inr (- EIO)
        else if has_flag diskstatus ATA_STATUSFLAG_DRQ then inr 0
        else inl tt).
Definition wait_drq_set (disk : Z) : M D Z := while_in_time (wait_drq_set_body disk) tt.

(** ** Identification *)

Record identify_result := IdentifyResult { serial : list Z; firmware : list Z; modelnum : list Z }.

(** Words [start_offset], ..., [endoffset], the high byte of each first. *)
Definition extract_string_from_identify_data (raw_data : list Z) (start_offset endoffset : nat) : list Z :=
  concat ((λ w, [u8 (Z.shiftr w 8); u8 w]) <$> take (endoffset + 1 - start_offset) (drop start_offset raw_data)).

Definition identify_wait_body (disk : Z) (_ : unit) : M D (unit + Z) :=
  lba ← get_lba_output disk;
  if negb (Z.land lba 0xffff00 =? 0) then mret (inr (- ENODEV))
  else
    diskstatus ← read_status disk;
    mret (if has_flag diskstatus ERR_OR_DF then inr (- EIO)
          else if has_flag diskstatus ATA_STATUSFLAG_DRQ then inr 0
          else inl tt).

(** The arrays of the result are zero after their strings. *)
Definition identify_device (disk : Z) : M D (Z + identify_result) :=
  _ ← select_disk disk;
  _ ← set_lba_param disk 0;
  _ ← issue_command disk ATA_CMD_IDENTIFY_DEVICE;
  diskstatus ← read_status disk;
  if diskstatus =? 0 then mret (inl (- ENODEV))
  else
    ret ← wait_busy_clear_irq disk;
    if ret <? 0 then mret (inl ret)
    else
      ret ← while_in_time (identify_wait_body disk) tt;
      if ret <? 0 then mret (inl ret)
      else
        buffer ← read_data disk;
        mret (inr (IdentifyResult
          (extract_string_from_identify_data buffer 10 19 ++ replicate 21 0)
          (extract_string_from_identify_data buffer 23 26 ++ [0])
          (extract_string_from_identify_data buffer 27 46 ++ [0]))).

Definition flush_cache (disk : Z) : M D Z :=
  _ ← select_disk disk;
  _ ← issue_command disk ATA_CMD_FLUSH_CACHE;
  wait_busy_clear disk.

(** ** Transfers *)

(** The loop of [try_write_dma] and [try_read_dma] until the transfer is done:
    the result, and whether the error is one of the link. *)
Definition dma_wait_step (disk : Z) (_ : unit) : M D (unit + (Z * bool)) :=
  ret ← wait_irq disk;
  if ret <? 0 then mret (inr (ret, false))
  else
    dmastatus ← dma_check_transfer disk;
    mret match dmastatus with
         | ATA_DMASTATUS_BUSY => inl tt
         | ATA_DMASTATUS_SUCCESS => inr (ret, false)
         | ATA_DMASTATUS_FAIL_UDMA_CRC => inr (- EIO, true)
         | ATA_DMASTATUS_FAIL_OTHER_IO => inr (- EIO, false)
         | ATA_DMASTATUS_FAIL_NOMEM => inr (- ENOMEM, false)
         end.

(** [try_write_dma] and [try_read_dma] but for their command: the result,
    whether it is an error of the link, and the bytes stored in the buffer. *)
Definition try_dma (disk command : Z) : M D (Z * bool * list Z) :=
  _ ← issue_command disk command;
  ret ← dma_begin_transfer disk;
  if ret <? 0 then mret (ret, false, [])
  else
    '(ret, is_crc_error) ← loop_m IRQ_FUEL (dma_wait_step disk) tt;
    if ret <? 0 then
      bytes ← dma_end_transfer disk false;
      mret (ret, is_crc_error, bytes)
    else
      bytes ← dma_end_transfer disk true;
      _ ← dma_deinit_transfer disk;
      mret (ret, is_crc_error, bytes).
Definition try_write_dma (disk : Z) : M D (Z * bool) :=
  '(ret, is_crc_error, _) ← try_dma disk ATA_CMD_WRITE_DMA;
  mret (ret, is_crc_error).
Definition try_read_dma (disk : Z) : M D (Z * bool * list Z) := try_dma disk ATA_CMD_READ_DMA.

(** The 256 words of the next sector of a buffer. *)
Fixpoint words_of_bytes (bs : list Z) : list Z :=
  match bs with b0 :: b1 :: bs => Z.lor (Z.shiftl b1 8) b0 :: words_of_bytes bs | _ => [] end.
Definition bytes_of_words (ws : list Z) : list Z := concat ((λ w, [u8 w; u8 (Z.shiftr w 8)]) <$> ws).

Definition write_pio_step (disk : Z) (srcbuf : list Z) (sector : Z) : M D (Z + unit) :=
  ret ← wait_busy_clear disk;
  if ret <? 0 then mret (inl ret)
  else
    ret ← wait_drq_set disk;
    if ret <? 0 then mret (inl ret)
    else
      _ ← write_data disk (words_of_bytes (take 512 (drop (Z.to_nat (512 * sector)) srcbuf)));
      ret ← wait_busy_clear_irq disk;
      if ret <? 0 then mret (inl ret) else mret (inr tt).
Definition try_write_pio (disk : Z) (srcbuf : list Z) (sector_count : Z) : M D Z :=
  _ ← issue_command disk ATA_CMD_WRITE_SECTORS;
  r ← for_try (seqZ 0 sector_count) (write_pio_step disk srcbuf);
  mret (match r with inl e => e | inr _ => 0 end).

(** One sector is read: an error, or its bytes. *)
Definition read_pio_sector (disk : Z) : M D (Z + list Z) :=
  ret ← wait_busy_clear_irq disk;
  if ret <? 0 then mret (inl ret)
  else
    ret ← wait_drq_set disk;
    if ret <? 0 then mret (inl ret)
    else
      buffer ← read_data disk;
      mret (inr (bytes_of_words buffer)).
(** The bytes stored by the sectors before, and the sectors left. *)
Fixpoint read_pio_sectors (disk : Z) (sector_count : nat) (stored : list Z) : M D (Z * list Z) :=
  match sector_count with
  | O => mret (0, stored)
  | S n =>
      r ← read_pio_sector disk;
      match r with
      | inl e => mret (e, stored)
      | inr bytes => read_pio_sectors disk n (stored ++ bytes)
      end
  end.
Definition try_read_pio (disk sector_count : Z) : M D (Z * list Z) :=
  _ ← issue_command disk ATA_CMD_READ_SECTORS;
  read_pio_sectors disk (Z.to_nat sector_count) [].

(** The parameters of a transfer command; a count of 0 stands for 256. *)
Definition set_params (disk lba sector_count : Z) : M D unit :=
  _ ← select_disk disk;
  _ ← set_features_param disk 0;
  _ ← (if sector_count =? ATA_MAX_SECTORS_PER_TRANSFER then set_count_param disk 0
       else set_count_param disk sector_count);
  set_lba_param disk lba.

(** The result, and whether it is an error of the link. *)
Definition try_write (disk : Z) (srcbuf : list Z) (can_dma : bool) (lba sector_count : Z) : M D (Z * bool) :=
  init ← (if can_dma then dma_init_transfer disk srcbuf (sector_count * ATA_SECTOR_SIZE) false else mret 0);
  if init <? 0 then mret (init, false)
  else
    _ ← set_params disk lba sector_count;
    '(ret, is_crc_error) ← (if can_dma then try_write_dma disk
                            else ret ← try_write_pio disk srcbuf sector_count; mret (ret, false));
    ret ← (if ret <? 0 then mret ret
           else
             ret ← wait_busy_clear disk;
             if ret <? 0 then mret ret else flush_cache disk);
    _ ← (if can_dma then dma_deinit_transfer disk else mret tt);
    mret (ret, is_crc_error).

(** The result and the bytes stored; [*is_crc_error_out] is false in every case. *)
Definition try_read (disk : Z) (destbuf : list Z) (can_dma : bool) (lba sector_count : Z) : M D (Z * bool * list Z) :=
  init ← (if can_dma then dma_init_transfer disk destbuf (sector_count * ATA_SECTOR_SIZE) true else mret 0);
  if init <? 0 then mret (init, false, [])
  else
    _ ← set_params disk lba sector_count;
    '(ret, bytes) ← (if can_dma then '(ret, _, bytes) ← try_read_dma disk; mret (ret, bytes)
                     else try_read_pio disk sector_count);
    _ ← (if can_dma then dma_deinit_transfer disk else mret tt);
    mret (ret, false, bytes).

(** ** Retries *)

(** The loop over [try], with [retries] left: the attempt is made again after
    an error, after a reset when DMA is in use and the link is not to blame. *)
Fixpoint tries {A} (disk : Z) (can_dma : bool) (attempt : A → M D (Z * bool * A)) (retries : nat) (a : A)
    : M D (Z * A) :=
  '(ret, is_crc_error, a) ← attempt a;
  if ret <? 0 then
    match retries with
    | O => mret (ret, a)
    | S retries =>
        _ ← (if negb is_crc_error && can_dma then soft_reset disk else mret tt);
        tries disk can_dma attempt retries a
    end
  else mret (ret, a).

Definition current_count (remaining : Z) : Z :=
  if ATA_MAX_SECTORS_PER_TRANSFER <? remaining then ATA_MAX_SECTORS_PER_TRANSFER else remaining.

(** The state of the loop of [write_sectors]: the sectors that remain, the
    address of the next, and the rest of the buffer. *)
Definition write_sectors_step (disk : Z) (can_dma : bool) (st : Z * Z * list Z) : M D (Z * Z * list Z + Z) :=
  let '(remaining, lba, srcbuf) := st in
  if negb (0 <? remaining) then mret (inr 0)
  else
    let n := current_count remaining in
    '(ret, _) ← tries (A := unit) disk can_dma
      (λ _ : unit, '(ret, crc) ← try_write disk srcbuf can_dma lba n; mret (ret, crc, tt)) MAX_RETRIES tt;
    if ret <? 0 then mret (inr ret)
    else mret (inl (remaining - n, u32 (lba + n), drop (Z.to_nat (n * ATA_SECTOR_SIZE)) srcbuf)).
Definition write_sectors (disk lba sector_count : Z) (buf : list Z) : M D Z :=
  _ ← lock disk;
  can_dma ← dma_begin_session disk;
  ret ← loop_m (S (Z.to_nat sector_count)) (write_sectors_step disk can_dma) (sector_count, lba, buf);
  _ ← (if can_dma : bool then dma_end_session disk else mret tt);
  _ ← unlock disk;
  mret ret.

(** What a store of [new] at the start of a buffer leaves in it. *)
Definition stored_over (new old : list Z) : list Z := new ++ drop (length new) old.

(** The state of the loop of [read_sectors]: the sectors that remain, the
    address of the next, the bytes of the sectors that were read, and those in
    the buffer after them. *)
Definition read_sectors_step (disk : Z) (can_dma : bool) (st : Z * Z * list Z * list Z)
    : M D (Z * Z * list Z * list Z + Z * list Z) :=
  let '(remaining, lba, done, rest) := st in
  if negb (0 <? remaining) then mret (inr (0, done ++ rest))
  else
    let n := current_count remaining in
    '(ret, rest) ← tries disk can_dma
      (λ rest, '(ret, crc, bytes) ← try_read disk rest can_dma lba n; mret (ret, crc, stored_over bytes rest))
      MAX_RETRIES rest;
    if ret <? 0 then mret (inr (ret, done ++ rest))
    else
      let k := Z.to_nat (n * ATA_SECTOR_SIZE) in
      mret (inl (remaining - n, u32 (lba + n), done ++ take k rest, drop k rest)).
Definition read_sectors (disk lba sector_count : Z) : M D (Z * list Z) :=
  _ ← lock disk;
  can_dma ← dma_begin_session disk;
  r ← loop_m (S (Z.to_nat sector_count)) (read_sectors_step disk can_dma) (sector_count, lba, [], []);
  _ ← (if can_dma : bool then dma_end_session disk else mret tt);
  _ ← unlock disk;
  mret r.

Definition op_read (self : pdisk) (block_addr block_count : Z) : M D (Z * list Z) :=
  read_sectors (Disk.data self) (u32 block_addr) block_count.
Definition op_write (self : pdisk) (buf : list Z) (block_addr block_count : Z) : M D Z :=
  write_sectors (Disk.data self) (u32 block_addr) block_count buf.
End Operations.

(** Identification and registration; [disk_out] is at [p], and its [physdisk]
    is its first member. *)
Section Register.
Context {H D : Type} `{!HeapOps H, !PdiskOps D, !AtaOps D}.

Definition atadisk_register (p : Z) : M (disks H D) Z :=
  r ← in_driver (identify_device p);
  match r with
  | inl e => mret e
  | inr _ => pdisk_register p ATA_SECTOR_SIZE p
  end.
End Register.
