(* ===== verification/AtaLaws.v ===== *)
(** What the driver of an ATA disk relies on: the documented behaviour of a
    controller, and of the clock, under the operations of [AtaOps]; and the
    waits of src/kernel/dev/atadisk.c under it. *)
From S2P Require Import Prelude Disk AtaDisk.

(** ** The controller *)

(** How far a DMA transfer is: its command was issued, the bus master moves its
    data, and it was seen to be finished. *)
Inductive dma_phase := Waiting | Running | Finished.

(** The transfer in progress: the disk, the address of the next sector and the
    number of sectors that are left, or of the transfer, and how far it is. *)
Inductive transfer :=
  | NoTransfer
  | PioIn (drive lba : Z) (left : nat)
  | PioOut (drive lba : Z) (left : nat)
  | DmaIn (drive lba : Z) (count : nat) (phase : dma_phase)
  | DmaOut (drive lba : Z) (count : nat) (phase : dma_phase).

(** A channel, which two disks may share: whether it is locked and DMA may be used,
    the disk that is selected, the parameters of the next command, the transfer,
    whether the data register is ready for the next sector, and the length,
    direction and contents of the buffer that DMA was set up for. *)
Record view := View {
  v_held : bool; v_session : bool; v_selected : Z;
  v_count : Z; v_lba : Z; v_transfer : transfer; v_ready : bool; v_dma : option (Z * bool * list Z);
}.

Definition with_held (b : bool) (v : view) : view :=
  View b (v_session v) (v_selected v) (v_count v) (v_lba v) (v_transfer v) (v_ready v) (v_dma v).
Definition with_session (b : bool) (v : view) : view :=
  View (v_held v) b (v_selected v) (v_count v) (v_lba v) (v_transfer v) (v_ready v) (v_dma v).
Definition with_selected (q : Z) (v : view) : view :=
  View (v_held v) (v_session v) q (v_count v) (v_lba v) (v_transfer v) (v_ready v) (v_dma v).
Definition with_count (c : Z) (v : view) : view :=
  View (v_held v) (v_session v) (v_selected v) c (v_lba v) (v_transfer v) (v_ready v) (v_dma v).
Definition with_lba (l : Z) (v : view) : view :=
  View (v_held v) (v_session v) (v_selected v) (v_count v) l (v_transfer v) (v_ready v) (v_dma v).
Definition with_transfer (t : transfer) (v : view) : view :=
  View (v_held v) (v_session v) (v_selected v) (v_count v) (v_lba v) t false (v_dma v).
Definition with_ready (b : bool) (v : view) : view :=
  View (v_held v) (v_session v) (v_selected v) (v_count v) (v_lba v) (v_transfer v) b (v_dma v).
Definition with_dma (m : option (Z * bool * list Z)) (v : view) : view :=
  View (v_held v) (v_session v) (v_selected v) (v_count v) (v_lba v) NoTransfer false m.

(** The count register has 8 bits, and 0 stands for 256. *)
Definition count_of (v : view) : nat := let c := u8 (v_count v) in if c =? 0 then 256 else Z.to_nat c.

(** A command goes to the disk that is selected and starts its transfer; without
    the lock of the channel nothing is known of it. *)
Definition command (cmd : Z) (v : view) : view :=
  with_transfer
    (if negb (v_held v) then NoTransfer
     else if cmd =? ATA_CMD_READ_SECTORS then PioIn (v_selected v) (v_lba v) (count_of v)
     else if cmd =? ATA_CMD_WRITE_SECTORS then PioOut (v_selected v) (v_lba v) (count_of v)
     else if cmd =? ATA_CMD_READ_DMA then DmaIn (v_selected v) (v_lba v) (count_of v) Waiting
     else if cmd =? ATA_CMD_WRITE_DMA then DmaOut (v_selected v) (v_lba v) (count_of v) Waiting
     else NoTransfer) v.

(** The bus master is started: the transfer whose command waits moves its data, if
    DMA may be used and was set up. *)
Definition begun (t : transfer) : transfer :=
  match t with
  | DmaIn q l n Waiting => DmaIn q l n Running
  | DmaOut q l n Waiting => DmaOut q l n Running
  | t => t
  end.
Definition begin_dma (v : view) : view :=
  with_transfer (if v_session v && bool_decide (is_Some (v_dma v)) then begun (v_transfer v) else v_transfer v) v.

(** DRQ without an error says that the data register is ready. *)
Definition status_ready (status : Z) : bool :=
  negb (has_flag status ERR_OR_DF) && has_flag status ATA_STATUSFLAG_DRQ.

(** The sector of the data register is moved. *)
Definition next_sector (v : view) : view :=
  match v_transfer v with
  | PioIn q l (S n) => with_transfer (PioIn q (l + 1) n) v
  | PioOut q l (S n) => with_transfer (PioOut q (l + 1) n) v
  | _ => with_transfer (v_transfer v) v
  end.

(** A transfer that was begun is seen to be finished; that the bus master is not
    active says nothing of one that was not. *)
Definition finished (t : transfer) : transfer :=
  match t with
  | DmaIn q l n Running => DmaIn q l n Finished
  | DmaOut q l n Running => DmaOut q l n Finished
  | t => t
  end.
Definition dma_seen (s : ATA_DMASTATUS) (v : view) : view :=
  match s with ATA_DMASTATUS_SUCCESS => with_transfer (finished (v_transfer v)) v | _ => v end.

(** Addresses have 28 bits. *)
Definition LBA_LIMIT : Z := 2 ^ 28.

(** The bytes of [n] sectors from [lba], and the sectors with [bytes] written there. *)
Definition sectors_from (s : Z → list Z) (lba : Z) (n : nat) : list Z :=
  concat ((λ k, s ((lba + Z.of_nat k) mod LBA_LIMIT)) <$> seq 0 n).

(** Only sectors of the [n] from [lba] on [disk] are written. *)
Definition written_only (disk lba : Z) (n : nat) (s s' : Z → Z → list Z) : Prop :=
  ∀ disk' a, (disk' = disk → ∀ k, (k < n)%nat → a ≠ (lba + Z.of_nat k) mod LBA_LIMIT) → s' disk' a = s disk' a.

(** What the end of a DMA transfer does to the sectors, and the bytes it stores
    in the buffer: a transfer that is finished and fills the buffer has moved all
    of the data, one that is not may have moved some of it. *)
Definition dma_moved (ok : bool) (v : view) (s s' : Z → Z → list Z) (bytes : list Z) : Prop :=
  ∀ len r buf, v_dma v = Some (len, r, buf) → 0 ≤ len → Z.of_nat (length bytes) ≤ len ∧
    match v_transfer v with
    | DmaIn q l n f => s' = s ∧
        (f = Finished → ok = true → r = true → len = Z.of_nat n * ATA_SECTOR_SIZE → bytes = sectors_from (s q) l n)
    | DmaOut q l n f => written_only q l n s s' ∧
        (f = Finished → ok = true → r = false → len = Z.of_nat n * ATA_SECTOR_SIZE → Z.of_nat n ≤ LBA_LIMIT →
         len ≤ Z.of_nat (length buf) → Forall (λ b, 0 ≤ b < 256) buf →
         sectors_from (s' q) l n = take (Z.to_nat len) buf)
    | _ => s' = s
    end.

(** What the code relies on.  The clock: time passes at every look, and an
    operation takes at most [STEP] of it.  Interrupts: the device raises a bounded
    number of them for a command.  Data: each operation on a disk acts on its
    channel, [view_of], as described above: a command acts on the disk that was
    selected last, and the order of the operations of a DMA transfer is that of
    atadisk.h (set up, command, begin, end); only a write moves the sectors.  A
    reset keeps the lock and the DMA session, and nothing else is known after it. *)
Class AtaLaws (D : Type) `{AtaOps D} := {
  view_of : D → Z → view;
  sectors : D → Z → Z → list Z;
  cycles : D → Z;
  cycles_per_tick : Z;
  irqs : D → nat;

  per_tick_pos : 0 < cycles_per_tick;
  wait_fuel_law : (TIMEOUT + 1) * cycles_per_tick < Z.of_nat WAIT_FUEL;
  irq_fuel_law d : (irqs d < IRQ_FUEL)%nat;
  sector_length d disk a : length (sectors d disk a) = 512%nat;
  sector_bytes d disk a : Forall (λ b, 0 ≤ b < 256) (sectors d disk a);

  (* the cost of an operation, which raises no new interrupts but for a command *)
  STEP : Z := 2 ^ 32 * cycles_per_tick;
  short (n : Z) (d d' : D) : Prop := cycles d ≤ cycles d' ≤ cycles d + n * STEP;
  (* an operation that has the effect [f] on the channel of its disk *)
  acts {A} (disk : Z) (op : M D A) (f : A → view → view) (P : A → D → D → Prop) : Prop :=
    ∀ d, ∃ a d', op d = Ok (a, d') ∧ short 1 d d' ∧ (irqs d' ≤ irqs d)%nat ∧
      view_of d' disk = f a (view_of d disk) ∧ sectors d' = sectors d ∧ P a d d';

  ticktime_law d : ∃ d', g_ticktime d = Ok (u64 (cycles d / cycles_per_tick), d') ∧
    cycles d < cycles d' ∧ short 1 d d' ∧ (irqs d' ≤ irqs d)%nat ∧ view_of d' = view_of d ∧ sectors d' = sectors d;
  lock_law disk : acts disk (lock disk) (λ _, with_held true) (λ _ _ _, True);
  unlock_law disk : acts disk (unlock disk) (λ _, with_held false) (λ _ _ _, True);
  begin_session_law disk : acts disk (dma_begin_session disk) with_session (λ _ _ _, True);
  end_session_law disk : acts disk (dma_end_session disk) (λ _, with_session false) (λ _ _ _, True);
  select_law disk : acts disk (select_disk disk) (λ _, with_selected disk) (λ _ _ _, True);
  features_law disk x : acts disk (set_features_param disk x) (λ _ v, v) (λ _ _ _, True);
  count_law disk x : acts disk (set_count_param disk x) (λ _, with_count x) (λ _ _ _, True);
  lba_law disk x : acts disk (set_lba_param disk x) (λ _, with_lba x) (λ _ _ _, True);
  lba_output_law disk : acts disk (get_lba_output disk) (λ _ v, v) (λ _ _ _, True);
  status_law disk : acts disk (read_status disk) (λ s, with_ready (status_ready s)) (λ _ _ _, True);
  irq_flag_law disk : acts disk (get_irq_flag disk) (λ _ v, v) (λ b _ d', b = true → (0 < irqs d')%nat);
  clear_irq_law disk : acts disk (clear_irq_flag disk) (λ _ v, v)
    (λ _ d d', (0 < irqs d)%nat → (irqs d' < irqs d)%nat);
  read_data_law disk : acts disk (read_data disk) (λ _, next_sector)
    (λ ws d _, length ws = 256%nat ∧ ∀ q l n, v_transfer (view_of d disk) = PioIn q l (S n) →
       v_ready (view_of d disk) = true → bytes_of_words ws = sectors d q (l mod LBA_LIMIT));
  dma_init_law disk buf len r : acts disk (dma_init_transfer disk buf len r)
    (λ e, if e <? 0 then λ v, v else with_dma (Some (len, r, buf))) (λ _ _ _, True);
  dma_begin_law disk : acts disk (dma_begin_transfer disk) (λ e, if e <? 0 then λ v, v else begin_dma) (λ _ _ _, True);
  dma_check_law disk : acts disk (dma_check_transfer disk) dma_seen (λ _ _ _, True);
  dma_deinit_law disk : acts disk (dma_deinit_transfer disk) (λ _, with_dma None) (λ _ _ _, True);

  (* a command or a reset may be followed by interrupts *)
  command_law disk cmd d : ∃ d', issue_command disk cmd d = Ok (tt, d') ∧ short 1 d d' ∧
    view_of d' disk = command cmd (view_of d disk) ∧ sectors d' = sectors d;
  reset_law disk d : ∃ d', soft_reset disk d = Ok (tt, d') ∧ short 1 d d' ∧ sectors d' = sectors d ∧
    v_held (view_of d' disk) = v_held (view_of d disk) ∧ v_session (view_of d' disk) = v_session (view_of d disk);

  (* data moves to the disk *)
  write_data_law disk ws d : ∃ d', write_data disk ws d = Ok (tt, d') ∧ short 1 d d' ∧ (irqs d' ≤ irqs d)%nat ∧
    view_of d' disk = next_sector (view_of d disk) ∧
    ∀ q l n, v_transfer (view_of d disk) = PioOut q l (S n) →
      (∀ disk' a, (disk', a) ≠ (q, l mod LBA_LIMIT) → sectors d' disk' a = sectors d disk' a) ∧
      (v_ready (view_of d disk) = true → length ws = 256%nat →
        sectors d' q (l mod LBA_LIMIT) = bytes_of_words ws);
  (* the end of a DMA transfer moves its data *)
  dma_end_law disk ok d : ∃ bytes d', dma_end_transfer disk ok d = Ok (bytes, d') ∧ short 1 d d' ∧
    (irqs d' ≤ irqs d)%nat ∧ view_of d' disk = with_transfer NoTransfer (view_of d disk) ∧
    dma_moved ok (view_of d disk) (sectors d) (sectors d') bytes;
}.

Section Waits.
Context {D : Type} `{!AtaOps D, !AtaLaws D}.
Implicit Types d : D.

Lemma short_refl d : short 0 d d.
Proof. unfold short. lia. Qed.
Lemma short_trans n m d d1 d2 : short n d d1 → short m d1 d2 → short (n + m) d d2.
Proof. unfold short. lia. Qed.
Lemma STEP_pos : 0 < STEP.
Proof. unfold STEP. pose proof per_tick_pos. lia. Qed.
Lemma short_le n m d d' : n ≤ m → short n d d' → short m d d'.
Proof. pose proof STEP_pos. unfold short. nia. Qed.

(** Nothing moves but the clock, interrupts that arrive and the readiness. *)
Record calm (disk : Z) d d' : Prop := {
  calm_irqs : (irqs d' ≤ irqs d)%nat;
  calm_sectors : sectors d' = sectors d;
  calm_view : ∃ b, view_of d' disk = with_ready b (view_of d disk);
}.

Lemma with_ready_same v : with_ready (v_ready v) v = v.
Proof. by destruct v. Qed.
Lemma calm_refl disk d : calm disk d d.
Proof. split; [done|done|]. exists (v_ready (view_of d disk)). by rewrite with_ready_same. Qed.
Lemma calm_trans disk d d1 d2 : calm disk d d1 → calm disk d1 d2 → calm disk d d2.
Proof.
  intros [H1 H2 [b H3]] [K1 K2 [c K3]]. split; [lia|congruence|]. exists c. by rewrite K3, H3.
Qed.

(** The operations, as steps of a proof. *)
Lemma wp_acts {A} disk (op : M D A) f P d : acts disk op f P → wp op d (λ a d', short 1 d d' ∧ (irqs d' ≤ irqs d)%nat ∧
  view_of d' disk = f a (view_of d disk) ∧ sectors d' = sectors d ∧ P a d d').
Proof. intros H. destruct (H d) as (a & d' & E & HP). by exists a, d'. Qed.

Lemma wp_calm {A} disk (op : M D A) P d : acts disk op (λ _ v, v) P →
  wp op d (λ a d', short 1 d d' ∧ calm disk d d' ∧ P a d d').
Proof.
  intros H. eapply wp_mono; [by apply wp_acts|]. intros a d' (? & ? & E & ? & ?). split_and!; [done| |done].
  split; [done|done|]. exists (v_ready (view_of d disk)). by rewrite E, with_ready_same.
Qed.

Lemma wp_ticktime disk d : wp g_ticktime d (λ t d', short 1 d d' ∧ calm disk d d').
Proof.
  destruct (ticktime_law d) as (d' & E & _ & Hs & Hi & Hv & Hc). exists (u64 (cycles d / cycles_per_tick)), d'.
  split_and!; [done|done|]. split; [done|done|]. exists (v_ready (view_of d disk)). by rewrite Hv, with_ready_same.
Qed.

Lemma wp_status disk d : wp (read_status disk) d (λ s d', short 1 d d' ∧ calm disk d d' ∧
  v_ready (view_of d' disk) = status_ready s).
Proof.
  eapply wp_mono; [apply wp_acts, status_law|]. intros s d' (? & ? & E & ? & _). split_and!; [done| |by rewrite E].
  split; [done|done|]. by eexists.
Qed.

(** The elapsed time does not wrap around while it is short. *)
Lemma elapsed_ticks c0 c : c0 ≤ c ≤ c0 + (TIMEOUT + 1) * cycles_per_tick + 32 * STEP →
  u64 (u64 (c / cycles_per_tick) - u64 (c0 / cycles_per_tick)) = c / cycles_per_tick - c0 / cycles_per_tick ∧
  (c / cycles_per_tick - c0 / cycles_per_tick < TIMEOUT → c < c0 + TIMEOUT * cycles_per_tick).
Proof.
  pose proof per_tick_pos as Hr. unfold STEP, TIMEOUT. intros Hc.
  assert (Hr0 : cycles_per_tick ≠ 0) by lia.
  pose proof (Z.div_mod c cycles_per_tick Hr0) as E1. pose proof (Z.mod_pos_bound c cycles_per_tick Hr).
  pose proof (Z.div_mod c0 cycles_per_tick Hr0) as E2. pose proof (Z.mod_pos_bound c0 cycles_per_tick Hr).
  assert (Hmono : c0 / cycles_per_tick ≤ c / cycles_per_tick) by (apply Z.div_le_mono; lia).
  set (a := c / cycles_per_tick) in *. set (b := c0 / cycles_per_tick) in *.
  change (2 ^ 32) with 4294967296 in Hc. split; [|nia].
  assert (a - b < 2 ^ 64).
  { apply (Z.mul_lt_mono_pos_r cycles_per_tick); [done|]. change (2 ^ 64) with 18446744073709551616. lia. }
  unfold u64. rewrite Zminus_mod_idemp_l, Zminus_mod_idemp_r. apply Z.mod_small. lia.
Qed.

(** A loop that looks at the clock before each iteration ends: with what its
    body makes of it, or with an error when the time is out. *)
Lemma wp_while_in_time {X} (body : X → M D (X + Z)) (I : X → D → Prop) (Q : Z → D → Prop) disk x d :
  (∀ x d d', I x d → calm disk d d' → I x d') → (∀ x d, I x d → Q (- EIO) d) →
  (∀ x d, I x d → wp (body x) d (λ y d', short 8 d d' ∧ match y with inl x' => I x' d' | inr r => Q r d' end)) →
  I x d → wp (while_in_time body x) d Q.
Proof.
  intros Hcalm Hout Hbody HI. unfold while_in_time.
  destruct (ticktime_law d) as (d1 & E1 & _ & Hs1 & Hi1 & Hv1 & Hc1).
  apply wp_bind. exists (u64 (cycles d / cycles_per_tick)), d1. split; [done|].
  assert (Hfuel : (Z.to_nat (cycles d + (TIMEOUT + 1) * cycles_per_tick - cycles d1) < WAIT_FUEL)%nat).
  { pose proof wait_fuel_law. pose proof per_tick_pos. unfold TIMEOUT, short in *. lia. }
  assert (HI1 : I x d1).
  { eapply Hcalm; [done|]. split; [done|done|]. exists (v_ready (view_of d disk)). by rewrite Hv1, with_ready_same. }
  assert (Hr1 : cycles d ≤ cycles d1 ≤ cycles d + (TIMEOUT + 1) * cycles_per_tick + 16 * STEP).
  { pose proof per_tick_pos. pose proof STEP_pos. unfold short, TIMEOUT in *. lia. }
  clear E1 Hs1 Hi1 Hv1 Hc1 HI. revert x d1 HI1 Hr1 Hfuel. generalize WAIT_FUEL as fuel.
  induction fuel as [|fuel IH]; intros x d1 HI1 Hr1 Hfuel; [lia|].
  destruct (ticktime_law d1) as (d2 & E2 & Hlt & Hs2 & Hi2 & Hv2 & Hc2).
  assert (HI2 : I x d2).
  { eapply Hcalm; [done|]. split; [done|done|]. exists (v_ready (view_of d1 disk)). by rewrite Hv2, with_ready_same. }
  pose proof STEP_pos as HS. destruct (elapsed_ticks (cycles d) (cycles d1)) as [Eu Hel]; [lia|].
  set (el := cycles d1 / cycles_per_tick - cycles d / cycles_per_tick) in *.
  destruct (Z.ltb_spec el TIMEOUT) as [Hin|Hex].
  - destruct (Hbody x d2 HI2) as (y & d3 & E3 & Hs3 & Hy).
    unfold wp. erewrite loop_m_step.
    2: { rewrite (M_bind_step _ _ _ _ _ E2), Eu. destruct (Z.ltb_spec el TIMEOUT); [exact E3|lia]. }
    destruct y as [x'|r]; [|by exists r, d3].
    specialize (Hel Hin). pose proof per_tick_pos. unfold short in *. apply IH; [done| |]; unfold TIMEOUT in *; lia.
  - unfold wp. erewrite loop_m_step.
    2: { rewrite (M_bind_step _ _ _ _ _ E2), Eu. destruct (Z.ltb_spec el TIMEOUT); [lia|done]. }
    exists (- EIO), d2. split; [done|]. by eapply Hout.
Qed.

(** ** The waits *)

Definition failed_or (P : Prop) (r : Z) : Prop := r < 0 ∨ r = 0 ∧ P.

Lemma EIO_neg : - EIO < 0.
Proof using. unfold EIO. lia. Qed.

Lemma short_8 n d d' : n ≤ 8 → short n d d' → short 8 d d'.
Proof. apply short_le. Qed.

Lemma wp_wait_drq_set disk d : wp (wait_drq_set disk) d (λ r d', calm disk d d' ∧
  failed_or (v_ready (view_of d' disk) = true) r).
Proof.
  apply (wp_while_in_time _ (λ _ d', calm disk d d') _ disk).
  - intros x d1 d2. apply calm_trans.
  - intros x d1 H. split; [done|]. left. apply EIO_neg.
  - intros x d1 H. unfold wait_drq_set_body. apply wp_bind.
    eapply wp_mono; [apply (wp_status disk)|]. intros s d2 (Hs & Hc & Hr). apply wp_ret.
    split; [by eapply short_8; [|done]|]. assert (calm disk d d2) by by eapply calm_trans.
    unfold status_ready in Hr. destruct (has_flag s ERR_OR_DF); [split; [done|left; apply EIO_neg]|].
    destruct (has_flag s ATA_STATUSFLAG_DRQ); [|done]. split; [done|]. by right.
  - apply calm_refl.
Qed.

Lemma wp_wait_busy_clear disk d : wp (wait_busy_clear disk) d (λ r d', calm disk d d' ∧ failed_or True r).
Proof.
  apply (wp_while_in_time _ (λ _ d', calm disk d d') _ disk).
  - intros x d1 d2. apply calm_trans.
  - intros x d1 H. split; [done|]. left. apply EIO_neg.
  - intros x d1 H. unfold wait_busy_clear_body. apply wp_bind.
    eapply wp_mono; [apply (wp_status disk)|]. intros s d2 (Hs & Hc & _). apply wp_ret.
    split; [by eapply short_8; [|done]|]. assert (calm disk d d2) by by eapply calm_trans.
    destruct (negb _); [split; [done|by right]|].
    destruct (has_flag s ERR_OR_DF); [split; [done|left; apply EIO_neg]|done].
  - apply calm_refl.
Qed.

(** The status is polled: the next [lastchecktime], or an error. *)
Lemma wp_poll disk last d :
  wp (now ← g_ticktime;
      (if STATUS_POLL_PERIOD <=? u64 (last - now) then
         diskstatus ← read_status disk;
         if has_flag diskstatus ERR_OR_DF then mret (inr (- EIO))
         else now ← g_ticktime; mret (inl now)
       else mret (inl last)) : M D (Z + Z)) d
    (λ r d', short 3 d d' ∧ calm disk d d' ∧ match r with inl _ => True | inr e => e < 0 end).
Proof.
  apply wp_bind. eapply wp_mono; [apply (wp_ticktime disk)|]. intros now d1 (S1 & C1).
  destruct (_ <=? _).
  2: { apply wp_ret. split_and!; [|done|done]. eapply short_le; [|done]. lia. }
  apply wp_bind. eapply wp_mono; [apply (wp_status disk)|]. intros s d2 (S2 & C2 & _).
  pose proof (short_trans _ _ _ _ _ S1 S2). pose proof (calm_trans _ _ _ _ C1 C2).
  destruct (has_flag s ERR_OR_DF).
  - apply wp_ret. split_and!; [|done|apply EIO_neg]. eapply short_le; [|done]. lia.
  - apply wp_bind. eapply wp_mono; [apply (wp_ticktime disk)|]. intros t d3 (S3 & C3). apply wp_ret.
    split_and!; [by eapply (short_trans 2 1)|by eapply calm_trans|done].
Qed.

Lemma wp_wait_irq disk d : wp (wait_irq disk) d (λ r d', calm disk d d' ∧
  failed_or (irqs d' < irqs d)%nat r).
Proof.
  apply (wp_while_in_time _ (λ _ d', calm disk d d') _ disk).
  - intros x d1 d2. apply calm_trans.
  - intros x d1 H. split; [done|]. left. apply EIO_neg.
  - intros last d1 H. unfold wait_irq_body.
    destruct (wp_poll disk last d1) as (r & d2 & E & S2 & C2 & Hr).
    pose proof (calm_trans _ _ _ _ H C2) as C12. apply M_bind_ok in E as (now & d1' & Et & E).
    apply wp_bind. exists now, d1'. split; [done|]. apply wp_bind. exists r, d2. split; [done|].
    destruct r as [last'|e]; [|apply wp_ret; split; [by eapply short_8; [|done]|by split; [|left]]].
    apply wp_bind. eapply wp_mono; [apply wp_calm, irq_flag_law|]. intros b d3 (S3 & C3 & Hb).
    pose proof (short_trans _ _ _ _ _ S2 S3). pose proof (calm_trans _ _ _ _ C12 C3) as C13.
    destruct b; [|apply wp_ret; split; [by eapply short_8; [|done]|done]].
    apply wp_bind. eapply wp_mono; [apply wp_calm, clear_irq_law|]. intros [] d4 (S4 & C4 & Hc).
    apply wp_ret. split; [eapply short_8; [|by eapply short_trans]; lia|].
    split; [by eapply calm_trans|]. right. split; [done|].
    specialize (Hc (Hb eq_refl)). apply calm_irqs in C13. lia.
  - apply calm_refl.
Qed.

(** The interrupts run out: the loop without a time limit ends. *)
Lemma wp_wait_busy_clear_irq disk d : wp (wait_busy_clear_irq disk) d (λ r d', calm disk d d' ∧ failed_or True r).
Proof.
  unfold wait_busy_clear_irq. pose proof (irq_fuel_law d) as Hf. revert Hf. generalize IRQ_FUEL as fuel.
  intros fuel. revert d. induction fuel as [|fuel IH]; intros d Hf; [lia|].
  destruct (wp_wait_irq disk d) as (r & d1 & E1 & C1 & H1).
  assert (Hstep : wp (wait_busy_clear_irq_step disk tt) d (λ y d', calm disk d d' ∧
    match y with inl _ => (irqs d' < irqs d)%nat | inr e => failed_or True e end)).
  { unfold wait_busy_clear_irq_step. apply wp_bind. exists r, d1. split; [done|].
    destruct (Z.ltb_spec r 0); [apply wp_ret; split; [done|by left]|].
    destruct H1 as [|[-> H1]]; [lia|].
    apply wp_bind. eapply wp_mono; [apply (wp_status disk)|]. intros s d2 (S2 & C2 & _).
    destruct (negb _); apply wp_ret; (split; [by eapply calm_trans|]); [by right|].
    apply calm_irqs in C2. lia. }
  destruct Hstep as (y & d2 & E & C & Hy). unfold wp. rewrite (loop_m_step _ _ _ _ _ _ E).
  destruct y as [[]|e]; [|by exists e, d2].
  destruct (IH d2 ltac:(lia)) as (r' & d' & E' & C' & H'). exists r', d'. split_and!; [done| |done].
  by eapply calm_trans.
Qed.
End Waits.
