(* ===== verification/AtaRead.v ===== *)
(** Reading from an ATA disk: the transfers, their retries, and the driver of a
    physical disk that they implement (src/kernel/dev/atadisk.c). *)
From S2P Require Import Prelude Disk AtaDisk AtaLaws.

(** ** Runs of sectors *)

Section Sectors.
Implicit Types s : Z → list Z.

Lemma sectors_from_S s l n : sectors_from s l (S n) = s (l mod LBA_LIMIT) ++ sectors_from s (l + 1) n.
Proof.
  unfold sectors_from. cbn [seq fmap list_fmap concat]. rewrite Z.add_0_r. f_equal. f_equal.
  rewrite <- fmap_S_seq, <- list_fmap_compose. apply list_fmap_ext. intros i k _. unfold compose. do 2 f_equal. lia.
Qed.
Lemma sectors_from_app s l n m : sectors_from s l (n + m) = sectors_from s l n ++ sectors_from s (l + Z.of_nat n) m.
Proof.
  revert l. induction n as [|n IH]; intros l; [by rewrite Z.add_0_r|].
  cbn [Nat.add]. rewrite !sectors_from_S, IH, <- (assoc_L (++)). do 3 f_equal. lia.
Qed.
Lemma sectors_from_mod s l l' n : l mod LBA_LIMIT = l' mod LBA_LIMIT → sectors_from s l n = sectors_from s l' n.
Proof.
  intros E. unfold sectors_from. f_equal. apply list_fmap_ext. intros i k _. f_equal.
  by rewrite <- Zplus_mod_idemp_l, E, Zplus_mod_idemp_l.
Qed.
Lemma sectors_from_length s l n : (∀ a, length (s a) = 512%nat) → length (sectors_from s l n) = (512 * n)%nat.
Proof.
  intros Hs. revert l. induction n as [|n IH]; intros l; [done|].
  rewrite sectors_from_S, length_app, Hs, IH. lia.
Qed.

Lemma stored_over_all new old : (length old ≤ length new)%nat → stored_over new old = new.
Proof. intros H. unfold stored_over. by rewrite drop_ge, app_nil_r. Qed.
Lemma stored_over_length new old k : (length new ≤ k)%nat → (length old ≤ k)%nat → (length (stored_over new old) ≤ k)%nat.
Proof. intros. unfold stored_over. rewrite length_app, length_drop. lia. Qed.
End Sectors.

Section Read.
Context {D : Type} `{!AtaOps D, !AtaLaws D}.
Implicit Types d : D.

(** ** Operations that only prepare *)

(** An operation that leaves the sectors, with what it makes of the view. *)
Lemma wp_view {A} disk (op : M D A) f P d : acts disk op f P →
  wp op d (λ a d', sectors d' = sectors d ∧ view_of d' disk = f a (view_of d disk) ∧ P a d d').
Proof. intros H. eapply wp_mono; [by apply wp_acts|]. by intros a d' (_ & _ & ? & ? & ?). Qed.

Lemma calm_transfer disk d d' : calm disk d d' → v_transfer (view_of d' disk) = v_transfer (view_of d disk).
Proof. intros [_ _ [b ->]]. done. Qed.
Lemma calm_dma disk d d' : calm disk d d' → v_dma (view_of d' disk) = v_dma (view_of d disk).
Proof. intros [_ _ [b ->]]. done. Qed.

(** The channel is locked, and a DMA session is open or not. *)
Definition has_bus (disk : Z) (can_dma : bool) d : Prop :=
  v_held (view_of d disk) = true ∧ v_session (view_of d disk) = can_dma.

Lemma calm_bus disk c d d' : calm disk d d' → has_bus disk c d → has_bus disk c d'.
Proof. unfold has_bus. intros [_ _ [b ->]]. done. Qed.

(** A command for [n] sectors at [lba] would go to the disk. *)
Definition params_set (disk lba n : Z) d : Prop :=
  v_selected (view_of d disk) = disk ∧ v_lba (view_of d disk) = lba ∧ count_of (view_of d disk) = Z.to_nat n.

Lemma wp_set_params disk c lba n d : 1 ≤ n ≤ 256 → has_bus disk c d →
  wp (set_params disk lba n) d (λ _ d', sectors d' = sectors d ∧ has_bus disk c d' ∧ params_set disk lba n d' ∧
    v_dma (view_of d' disk) = v_dma (view_of d disk)).
Proof.
  intros Hn Hb. unfold set_params, has_bus, params_set in *.
  apply wp_bind. eapply wp_mono; [apply wp_view, select_law|]. intros [] d1 (S1 & V1 & _).
  apply wp_bind. eapply wp_mono; [apply wp_view, features_law|]. intros [] d2 (S2 & V2 & _).
  apply wp_bind. apply (wp_mono _ _ (λ _ d3, sectors d3 = sectors d2 ∧
    view_of d3 disk = with_count (if n =? 256 then 0 else n) (view_of d2 disk))).
  { change ATA_MAX_SECTORS_PER_TRANSFER with 256.
    destruct (n =? 256); (eapply wp_mono; [apply wp_view, count_law|]); by intros [] d3 (? & ? & _). }
  intros [] d3 (S3 & V3). eapply wp_mono; [apply wp_view, lba_law|]. intros [] d4 (S4 & V4 & _).
  rewrite V4, V3, V2, V1. split; [congruence|]. split; [exact Hb|]. split; [split; [done|split; [done|]]|done].
 unfold count_of. cbn [v_count with_lba with_count].
  destruct (Z.eqb_spec n 256) as [->|]; [done|]. assert (E8 : u8 n = n) by (apply Z.mod_small; lia).
  rewrite E8.
  by destruct (Z.eqb_spec n 0); [lia|].
Qed.

(** ** Programmed i/o *)

Lemma wp_read_pio_sector disk c l n d : has_bus disk c d → v_transfer (view_of d disk) = PioIn disk l (S n) →
  wp (read_pio_sector disk) d (λ r d', sectors d' = sectors d ∧ has_bus disk c d' ∧ match r with
    | inl e => e < 0
    | inr bytes => bytes = sectors d disk (l mod LBA_LIMIT) ∧ v_transfer (view_of d' disk) = PioIn disk (l + 1) n
    end).
Proof.
  intros Hb Ht. unfold read_pio_sector.
  apply wp_bind. eapply wp_mono; [apply wp_wait_busy_clear_irq|]. intros r d1 (C1 & H1).
  destruct (Z.ltb_spec r 0); [apply wp_ret; split; [apply (calm_sectors _ _ _ C1)|split; [by apply (calm_bus _ _ _ _ C1)|done]]|].
  apply wp_bind. eapply wp_mono; [apply wp_wait_drq_set|]. intros r2 d2 (C2 & H2).
  pose proof (calm_trans _ _ _ _ C1 C2) as C. pose proof (calm_bus _ _ _ _ C Hb) as Hb2.
  destruct (Z.ltb_spec r2 0); [apply wp_ret; split; [apply (calm_sectors _ _ _ C)|done]|].
  destruct H2 as [|[_ Hready]]; [lia|].
  apply wp_bind. eapply wp_mono; [apply wp_view, read_data_law|]. intros ws d3 (S3 & V3 & _ & Hw).
  rewrite (calm_transfer _ _ _ C), Ht in Hw. apply wp_ret.
  rewrite S3, (calm_sectors _ _ _ C), (Hw _ _ _ eq_refl Hready), (calm_sectors _ _ _ C).
  unfold has_bus. rewrite V3. unfold next_sector. rewrite (calm_transfer _ _ _ C), Ht. split_and!; [done|apply Hb2..|done|done].
Qed.

(** The result of a read: the sectors stay, no more than the space is stored,
    and on success the data is all there. *)
Definition read_result (disk : Z) (c : bool) (lba : Z) (n : nat) d (r : Z) (bytes : list Z) d' : Prop :=
  has_bus disk c d' ∧ sectors d' = sectors d ∧ (length bytes ≤ 512 * n)%nat ∧
  failed_or (bytes = sectors_from (sectors d disk) lba n) r.

Lemma wp_read_pio_sectors disk c n : ∀ l stored d, has_bus disk c d → v_transfer (view_of d disk) = PioIn disk l n →
  wp (read_pio_sectors disk n stored) d (λ '(r, bytes) d', ∃ new, bytes = stored ++ new ∧
    read_result disk c l n d r new d').
Proof.
  induction n as [|n IH]; intros l stored d Hb Ht; cbn [read_pio_sectors].
  { apply wp_ret. exists []. rewrite app_nil_r. split; [done|]. split_and!; [done|done|cbn; lia|by right]. }
  apply wp_bind. eapply wp_mono; [by apply (wp_read_pio_sector disk c)|]. intros [e|bytes] d1 (S1 & Hb1 & H1).
  { apply wp_ret. exists []. rewrite app_nil_r. split; [done|]. split_and!; [done|done|cbn; lia|by left]. }
  destruct H1 as [-> V1]. eapply wp_mono; [by apply IH|]. intros [r bytes] d2 (new & -> & Hb2 & S2 & L2 & H2).
  exists (sectors d disk (l mod LBA_LIMIT) ++ new). split; [by rewrite (assoc_L (++))|]. split_and!.
  - apply Hb2.
  - congruence.
  - rewrite length_app, sector_length. lia.
  - destruct H2 as [|[-> ->]]; [by left|]. right. split; [done|]. by rewrite sectors_from_S, S1.
Qed.

(** A command starts the transfer that was asked for. *)
Lemma wp_command disk c cmd lba n d : has_bus disk c d → params_set disk lba n d →
  wp (issue_command disk cmd) d (λ _ d', sectors d' = sectors d ∧ has_bus disk c d' ∧
    v_dma (view_of d' disk) = v_dma (view_of d disk) ∧
    v_transfer (view_of d' disk) =
      if cmd =? ATA_CMD_READ_SECTORS then PioIn disk lba (Z.to_nat n)
      else if cmd =? ATA_CMD_WRITE_SECTORS then PioOut disk lba (Z.to_nat n)
      else if cmd =? ATA_CMD_READ_DMA then DmaIn disk lba (Z.to_nat n) Waiting
      else if cmd =? ATA_CMD_WRITE_DMA then DmaOut disk lba (Z.to_nat n) Waiting
      else NoTransfer).
Proof.
  intros Hb (Hs & Hl & Hn). destruct (command_law disk cmd d) as (d1 & E1 & _ & V1 & S1). exists tt, d1. split; [done|].
  split; [done|]. unfold has_bus in *. rewrite V1. split; [exact Hb|]. split; [done|].
  unfold command. cbn [v_transfer with_transfer]. rewrite (proj1 Hb), Hs, Hl, Hn. done.
Qed.

Lemma wp_try_read_pio disk c lba n d : has_bus disk c d → params_set disk lba n d →
  wp (try_read_pio disk n) d (λ '(r, bytes) d', read_result disk c lba (Z.to_nat n) d r bytes d').
Proof.
  intros Hb Hps. unfold try_read_pio. apply wp_bind. eapply wp_mono; [by apply (wp_command disk c _ lba n)|].
  intros [] d1 (S1 & Hb1 & _ & T1). eapply wp_mono; [by apply (wp_read_pio_sectors disk c _ lba)|].
  intros [r bytes] d2 (new & -> & Hb2 & S2 & L2 & H2). cbn. split_and!; [done|congruence|done|by rewrite S1 in H2].
Qed.

(** ** DMA *)

Lemma dma_seen_dma s v : v_dma (dma_seen s v) = v_dma v.
Proof using. by destruct s. Qed.
Lemma dma_seen_transfer s v : v_transfer (dma_seen s v) =
  match s with ATA_DMASTATUS_SUCCESS => finished (v_transfer v) | _ => v_transfer v end.
Proof using. by destruct s. Qed.

Lemma wp_dma_wait disk c d : has_bus disk c d → wp (loop_m IRQ_FUEL (dma_wait_step disk) tt) d (λ '(r, _) d',
  sectors d' = sectors d ∧ has_bus disk c d' ∧ v_dma (view_of d' disk) = v_dma (view_of d disk) ∧
  (r < 0 ∧ v_transfer (view_of d' disk) = v_transfer (view_of d disk) ∨
   r = 0 ∧ v_transfer (view_of d' disk) = finished (v_transfer (view_of d disk)))).
Proof.
  intros Hb. pose proof (irq_fuel_law d) as Hf. revert Hf Hb. generalize IRQ_FUEL as fuel. intros fuel. revert d.
  induction fuel as [|fuel IH]; intros d Hf Hb; [lia|].
  assert (Hstep : wp (dma_wait_step disk tt) d (λ y d', sectors d' = sectors d ∧ has_bus disk c d' ∧
    v_dma (view_of d' disk) = v_dma (view_of d disk) ∧ match y with
    | inl _ => (irqs d' < irqs d)%nat ∧ v_transfer (view_of d' disk) = v_transfer (view_of d disk)
    | inr (r, _) => r < 0 ∧ v_transfer (view_of d' disk) = v_transfer (view_of d disk) ∨
        r = 0 ∧ v_transfer (view_of d' disk) = finished (v_transfer (view_of d disk))
    end)).
  { unfold dma_wait_step. apply wp_bind. eapply wp_mono; [apply wp_wait_irq|]. intros r d1 (C1 & H1).
    pose proof (calm_sectors _ _ _ C1). pose proof (calm_dma _ _ _ C1). pose proof (calm_transfer _ _ _ C1) as T1.
    pose proof (calm_bus _ _ _ _ C1 Hb) as Hb1.
    destruct (Z.ltb_spec r 0); [apply wp_ret; split_and!; [done|apply Hb1..|done|by left]|].
    destruct H1 as [|[-> H1]]; [lia|].
    apply wp_bind. eapply wp_mono; [apply wp_acts, dma_check_law|]. intros s d2 (_ & Hi & V2 & S2 & _).
    apply wp_ret. unfold has_bus. rewrite S2, V2, dma_seen_dma, dma_seen_transfer, T1. split; [done|]. split; [by destruct s|]. split; [done|].
    destruct s; [left|left|left|right|split; [lia|done]]; (split; [unfold EIO, ENOMEM; lia|done]). }
  destruct Hstep as (y & d1 & E & S1 & Hb1 & M1 & Hy). unfold wp. rewrite (loop_m_step _ _ _ _ _ _ E).
  destruct y as [[]|[r crc]]; [|by exists (r, crc), d1].
  destruct Hy as [Hi T1]. destruct (IH d1 ltac:(lia) Hb1) as ([r crc] & d2 & E2 & S2 & Hb2 & M2 & H2).
  exists (r, crc), d2. rewrite S2, S1, M2, M1. rewrite T1 in H2. done.
Qed.

(** What a DMA command does: nothing, or what the end of its transfer does, which
    was begun and is finished when there is no error. *)
Definition dma_result (disk : Z) (c : bool) (t : transfer) d (r : Z) (bytes : list Z) d' : Prop :=
  has_bus disk c d' ∧
  (r < 0 ∧ bytes = [] ∧ sectors d' = sectors d ∨
   ∃ v ok, v_dma v = v_dma (view_of d disk) ∧ dma_moved ok v (sectors d) (sectors d') bytes ∧
    (r < 0 ∧ v_transfer v = begun t ∨ r = 0 ∧ ok = true ∧ v_transfer v = finished (begun t))).

Lemma wp_try_dma disk cmd lba n d t : has_bus disk true d → params_set disk lba n d → is_Some (v_dma (view_of d disk)) →
  t = (if cmd =? ATA_CMD_READ_SECTORS then PioIn disk lba (Z.to_nat n)
       else if cmd =? ATA_CMD_WRITE_SECTORS then PioOut disk lba (Z.to_nat n)
       else if cmd =? ATA_CMD_READ_DMA then DmaIn disk lba (Z.to_nat n) Waiting
       else if cmd =? ATA_CMD_WRITE_DMA then DmaOut disk lba (Z.to_nat n) Waiting
       else NoTransfer) →
  wp (try_dma disk cmd) d (λ '(r, _, bytes) d', dma_result disk true t d r bytes d').
Proof.
  intros Hb Hps Hm Ht. unfold try_dma.
  apply wp_bind. eapply wp_mono; [by apply (wp_command disk true _ lba n)|]. intros [] d1 (S1 & Hb1 & M1 & T1). rewrite <- Ht in T1.
  apply wp_bind. eapply wp_mono; [apply wp_view, dma_begin_law|]. intros r d2 (S2 & V2 & _).
  destruct (Z.ltb_spec r 0).
  { apply wp_ret. unfold has_bus in Hb1. rewrite <- V2 in Hb1. split; [done|]. left. split_and!; [done|done|congruence]. }
  assert (T2 : v_transfer (view_of d2 disk) = begun t).
  { rewrite V2. unfold begin_dma. cbn [v_transfer with_transfer]. destruct Hb1 as [_ Hses]. by rewrite Hses, M1, bool_decide_eq_true_2, T1. }
  assert (M2 : v_dma (view_of d2 disk) = v_dma (view_of d disk)) by by rewrite V2.
  assert (Hb2 : has_bus disk true d2) by (unfold has_bus; by rewrite V2).
  apply wp_bind. eapply wp_mono; [by apply (wp_dma_wait disk true)|]. intros [r3 crc] d3 (S3 & Hb3 & M3 & H3).
  rewrite M2 in M3. rewrite T2 in H3. unfold dma_result, has_bus in *.
  destruct (Z.ltb_spec r3 0).
  - destruct (dma_end_law disk false d3) as (bytes & d4 & E4 & _ & _ & V4 & Hd).
    apply wp_bind. exists bytes, d4. split; [done|]. apply wp_ret. rewrite V4. split; [exact Hb3|]. right.
    exists (view_of d3 disk), false. rewrite S3, S2, S1 in Hd. split_and!; [done|done|].
    destruct H3 as [[? ?]|[? ?]]; [by left|lia].
  - destruct (dma_end_law disk true d3) as (bytes & d4 & E4 & _ & _ & V4 & Hd).
    apply wp_bind. exists bytes, d4. split; [done|].
    apply wp_bind. eapply wp_mono; [apply wp_view, dma_deinit_law|]. intros [] d5 (S5 & V5 & _). apply wp_ret.
    rewrite V5, V4. split; [exact Hb3|]. right.
    exists (view_of d3 disk), true. rewrite S3, S2, S1 in Hd. rewrite S5. split_and!; [done|done|].
    destruct H3 as [[? ?]|[-> ?]]; [lia|by right].
Qed.

(** ** Attempts *)

(** The first step of an attempt sets DMA up. *)
Lemma wp_init disk buf (c r : bool) n d : has_bus disk c d →
  wp (if c then dma_init_transfer disk buf (n * ATA_SECTOR_SIZE) r else mret 0) d
    (λ init d1, sectors d1 = sectors d ∧ has_bus disk c d1 ∧ (0 ≤ init → c = true →
       v_dma (view_of d1 disk) = Some (n * ATA_SECTOR_SIZE, r, buf))).
Proof.
  intros Hb. destruct c; [|by apply wp_ret]. eapply wp_mono; [apply wp_view, dma_init_law|].
  intros init d1 (S1 & V1 & _). split; [done|]. unfold has_bus in *. rewrite V1. destruct (Z.ltb_spec init 0); [|done].
  split; [done|lia].
Qed.

(** Its last step leaves the channel to the next. *)
Lemma wp_deinit disk (c : bool) d : has_bus disk c d →
  wp (if c then dma_deinit_transfer disk else mret tt) d (λ _ d', sectors d' = sectors d ∧ has_bus disk c d').
Proof.
  intros Hb. destruct c; [|by apply wp_ret]. eapply wp_mono; [apply wp_view, dma_deinit_law|].
  intros [] d4 (S4 & V4 & _). split; [done|]. unfold has_bus. by rewrite V4.
Qed.

Lemma wp_try_read disk buf can_dma lba n d : 1 ≤ n ≤ 256 → has_bus disk can_dma d →
  wp (try_read disk buf can_dma lba n) d (λ '(r, _, bytes) d', read_result disk can_dma lba (Z.to_nat n) d r bytes d').
Proof.
  intros Hn Hb. unfold try_read. apply wp_bind. eapply wp_mono; [by apply wp_init|]. intros init d1 (S1 & Hb1 & M1).
  destruct (Z.ltb_spec init 0); [apply wp_ret; split_and!; [done|done|cbn; lia|by left]|].
  apply wp_bind. eapply wp_mono; [by apply (wp_set_params disk can_dma)|]. intros [] d2 (S2 & Hb2 & P2 & M2).
  assert (Hread : wp (if can_dma then '(ret, _, bytes) ← try_read_dma disk; mret (ret, bytes) else try_read_pio disk n) d2
    (λ '(r, bytes) d3, read_result disk can_dma lba (Z.to_nat n) d r bytes d3)).
  { unfold read_result. rewrite <- S1, <- S2. destruct can_dma; [|by apply (wp_try_read_pio disk false)].
    specialize (M1 ltac:(lia) eq_refl). unfold try_read_dma. rewrite M1 in M2.
    apply wp_bind. eapply wp_mono; [apply (wp_try_dma disk _ lba n d2 _ Hb2 P2 ltac:(by rewrite M2) eq_refl)|].
    intros [[r crc] bytes] d3 [Hb3 Hr]. apply wp_ret. split; [done|].
    destruct Hr as [(Hr & -> & S3)|(v & ok & Hv & Hm & Ht)]; [split_and!; [done|cbn; lia|by left]|].
    rewrite M2 in Hv. destruct (Hm _ _ _ Hv ltac:(unfold ATA_SECTOR_SIZE; lia)) as [Hlen Hs]. cbn in Ht.
    assert (Hl : (length bytes ≤ 512 * Z.to_nat n)%nat) by (unfold ATA_SECTOR_SIZE in Hlen; lia).
    destruct Ht as [[Hr Ht]|(-> & -> & Ht)]; rewrite Ht in Hs; destruct Hs as [S3 Hbs].
    - split_and!; [done|done|by left].
    - split_and!; [done|done|]. right. split; [done|]. apply Hbs; [done..|]. by rewrite Z2Nat.id by lia. }
  apply wp_bind. eapply wp_mono; [exact Hread|]. intros [r bytes] d3 [Hb3 Hr]. clear Hread.
  apply wp_bind. eapply wp_mono; [by apply wp_deinit|]. intros [] d4 [S4 Hb4]. apply wp_ret. unfold read_result. by rewrite S4.
Qed.

(** An attempt is repeated at most [retries] times; the last one decides. *)
Lemma wp_tries {A} disk can_dma (attempt : A → M D (Z * bool * A)) (I : A → D → Prop) (P : A → D → Prop) retries :
  (∀ a d, I a d → wp (attempt a) d (λ '(r, _, a') d', I a' d' ∧ failed_or (P a' d') r)) →
  (∀ a d d', I a d → sectors d' = sectors d → (has_bus disk can_dma d → has_bus disk can_dma d') → I a d') →
  ∀ a d, I a d → wp (tries disk can_dma attempt retries a) d (λ '(r, a') d', I a' d' ∧ failed_or (P a' d') r).
Proof.
  intros Hatt Hsect. induction retries as [|retries IH]; intros a d HI; cbn [tries];
    (apply wp_bind; eapply wp_mono; [by apply Hatt|]); intros [[r crc] a'] d1 [HI1 Hr];
    (destruct (Z.ltb_spec r 0); [|by apply wp_ret]).
  - by apply wp_ret.
  - apply wp_bind. apply (wp_mono _ _ (λ _ d2, sectors d2 = sectors d1 ∧ (has_bus disk can_dma d1 → has_bus disk can_dma d2)));
      [|intros [] d2 [S2 B2]; apply IH; by eapply Hsect].
    destruct (_ && _); [|by apply wp_ret]. destruct (reset_law disk d1) as (d2 & E2 & _ & S2 & H1 & H2). exists tt, d2.
    unfold has_bus. by rewrite H1, H2.
Qed.

Lemma current_count_range remaining : 0 < remaining → 1 ≤ current_count remaining ≤ 256 ∧ current_count remaining ≤ remaining.
Proof using.
  intros H. unfold current_count. change ATA_MAX_SECTORS_PER_TRANSFER with 256.
  destruct (Z.ltb_spec 256 remaining); lia.
Qed.

Lemma wp_tries_read disk can_dma lba n d : 1 ≤ n ≤ 256 → has_bus disk can_dma d →
  wp (tries disk can_dma
       (λ rest, '(ret, crc, bytes) ← try_read disk rest can_dma lba n; mret (ret, crc, stored_over bytes rest))
       MAX_RETRIES []) d (λ '(r, bytes) d', read_result disk can_dma lba (Z.to_nat n) d r bytes d').
Proof.
  intros Hn Hb. set (len := (512 * Z.to_nat n)%nat).
  eapply wp_mono.
  - apply (wp_tries disk can_dma _ (λ rest d', has_bus disk can_dma d' ∧ sectors d' = sectors d ∧ (length rest ≤ len)%nat)
      (λ rest d', rest = sectors_from (sectors d disk) lba (Z.to_nat n))).
    + intros rest d1 (B1 & S1 & L1). apply wp_bind. eapply wp_mono; [by apply wp_try_read|].
      intros [[r crc] bytes] d2 (B2 & S2 & L2 & H2). apply wp_ret. rewrite S2.
      split; [split; [done|split; [done|by apply stored_over_length]]|].
      destruct H2 as [|[-> ->]]; [by left|]. right. split; [done|]. rewrite S1. apply stored_over_all.
      rewrite sectors_from_length by (intros; apply sector_length). done.
    + intros rest d1 d2 (B1 & S1 & L1) S2 B2. rewrite S2. by split; [apply B2|].
    + split; [done|]. split; [done|cbn; lia].
  - intros [r bytes] d' [(B & S & L) H]. by split.
Qed.

(** ** Sector reads *)

(** The state of the loop that reads [count] sectors from [lba]. *)
Record reading (disk : Z) (c : bool) (lba count : Z) d (st : Z * Z * list Z * list Z) d' : Prop := {
  rd_remaining : 0 ≤ st.1.1.1 ≤ count;
  rd_lba : st.1.1.2 mod LBA_LIMIT = (lba + (count - st.1.1.1)) mod LBA_LIMIT;
  rd_done : st.1.2 = sectors_from (sectors d disk) lba (Z.to_nat (count - st.1.1.1));
  rd_rest : st.2 = [];
  rd_sectors : sectors d' = sectors d;
  rd_bus : has_bus disk c d';
}.

Lemma u32_lba x : u32 x mod LBA_LIMIT = x mod LBA_LIMIT.
Proof using.
  unfold u32, LBA_LIMIT. change (2 ^ 32) with (2 ^ 28 * 2 ^ 4). rewrite Z.rem_mul_r by lia.
  rewrite Z.mul_comm, Z_mod_plus_full. apply Z.mod_mod. lia.
Qed.

Lemma wp_read_sectors_step disk can_dma lba count d st d1 : reading disk can_dma lba count d st d1 →
  wp (read_sectors_step disk can_dma st) d1 (λ y d2, match y with
    | inl st' => reading disk can_dma lba count d st' d2 ∧ (Z.to_nat st'.1.1.1 < Z.to_nat st.1.1.1)%nat
    | inr (r, bytes) => read_result disk can_dma lba (Z.to_nat count) d r bytes d2
    end).
Proof.
  destruct st as [[[remaining cur] done_] rest]. intros [H1 H2 H3 H4 H5 H6]. cbn in *. subst done_ rest.
  assert (Hlen : ∀ l n, length (sectors_from (sectors d disk) l n) = (512 * n)%nat)
    by (intros; apply sectors_from_length; intros; apply sector_length).
  destruct (Z.ltb_spec 0 remaining) as [Hr|Hr]; cbn [negb].
  2: { apply wp_ret. replace remaining with 0 by lia. rewrite Z.sub_0_r, app_nil_r.
       split_and!; [done|done|by rewrite Hlen|by right]. }
  destruct (current_count_range remaining Hr) as [Hc1 Hc2]. set (n := current_count remaining) in *.
  apply wp_bind. eapply wp_mono; [by apply wp_tries_read|]. intros [r bytes] d2 (B2 & S2 & L2 & R2). rewrite H5 in S2, R2.
  destruct (Z.ltb_spec r 0).
  { apply wp_ret. split_and!; [done|done| |by left]. rewrite length_app, Hlen. lia. }
  destruct R2 as [|[_ ->]]; [lia|]. apply wp_ret. cbn.
  assert (Hk : Z.to_nat (n * ATA_SECTOR_SIZE) = (512 * Z.to_nat n)%nat) by (unfold ATA_SECTOR_SIZE; lia).
  split; [|lia]. split; cbn; [lia| | | |done|done].
  - rewrite u32_lba, <- Zplus_mod_idemp_l, H2, Zplus_mod_idemp_l. f_equal. lia.
  - rewrite Hk, take_ge by by rewrite Hlen.
    replace (Z.to_nat (count - (remaining - n))) with (Z.to_nat (count - remaining) + Z.to_nat n)%nat by lia.
    rewrite sectors_from_app. f_equal. apply sectors_from_mod. rewrite H2. f_equal. lia.
  - by rewrite Hk, drop_ge by by rewrite Hlen.
Qed.

(** The channel is free again. *)
Definition released (disk : Z) d : Prop := v_held (view_of d disk) = false ∧ v_session (view_of d disk) = false.

(** The channel is locked around the transfers, and a DMA session is ended. *)
Lemma wp_acquire disk d : wp (_ ← lock disk; dma_begin_session disk) d (λ c d', sectors d' = sectors d ∧ has_bus disk c d').
Proof.
  apply wp_bind. eapply wp_mono; [apply wp_view, lock_law|]. intros [] d1 (S1 & V1 & _).
  eapply wp_mono; [apply wp_view, begin_session_law|]. intros c d2 (S2 & V2 & _).
  split; [congruence|]. unfold has_bus. by rewrite V2, V1.
Qed.

Lemma wp_release disk (c : bool) d : has_bus disk c d →
  wp (_ ← (if c then dma_end_session disk else mret tt); unlock disk) d (λ _ d', sectors d' = sectors d ∧ released disk d').
Proof.
  intros [_ Hc]. apply wp_bind. apply (wp_mono _ _ (λ _ d1, sectors d1 = sectors d ∧ v_session (view_of d1 disk) = false)).
  { destruct c; [|by apply wp_ret]. eapply wp_mono; [apply wp_view, end_session_law|].
    intros [] d1 (S1 & V1 & _). by rewrite V1. }
  intros [] d1 [S1 V1]. eapply wp_mono; [apply wp_view, unlock_law|]. intros [] d2 (S2 & V2 & _).
  split; [congruence|]. unfold released. by rewrite V2.
Qed.

(** What is locked is released, whatever is done in between. *)
Lemma wp_locked {A} disk (op : bool → M D A) (Q : A → D → Prop) d :
  (∀ c d1, sectors d1 = sectors d → has_bus disk c d1 → wp (op c) d1 (λ a d2, has_bus disk c d2 ∧ Q a d2)) →
  (∀ a d2 d3, Q a d2 → sectors d3 = sectors d2 → Q a d3) →
  wp (_ ← lock disk; can_dma ← dma_begin_session disk; a ← op can_dma;
      _ ← (if can_dma : bool then dma_end_session disk else mret tt); _ ← unlock disk; mret a) d
    (λ a d', released disk d' ∧ Q a d').
Proof.
  intros Hop HQ. destruct (wp_acquire disk d) as (c & d1 & E1 & S1 & B1). apply M_bind_ok in E1 as ([] & d0 & E0 & E1).
  apply wp_bind. exists tt, d0. split; [done|]. apply wp_bind. exists c, d1. split; [done|].
  apply wp_bind. eapply wp_mono; [by apply Hop|]. intros a d2 [B2 H2].
  destruct (wp_release disk c d2 B2) as ([] & d4 & E4 & S4 & R4). apply M_bind_ok in E4 as ([] & d3 & E3 & E4).
  apply wp_bind. exists tt, d3. split; [done|]. apply wp_bind. exists tt, d4. split; [done|]. apply wp_ret.
  split; [done|by eapply HQ].
Qed.

Definition read_done (disk lba : Z) (n : nat) d (r : Z) (bytes : list Z) d' : Prop :=
  sectors d' = sectors d ∧ (length bytes ≤ 512 * n)%nat ∧
  failed_or (bytes = sectors_from (sectors d disk) lba n) r.

Lemma wp_read_sectors disk lba count d : 0 ≤ count →
  wp (read_sectors disk lba count) d (λ '(r, bytes) d', released disk d' ∧ read_done disk lba (Z.to_nat count) d r bytes d').
Proof.
  intros Hc. unfold read_sectors. eapply wp_mono.
  - apply (wp_locked disk (λ can_dma, loop_m (S (Z.to_nat count)) (read_sectors_step disk can_dma) (count, lba, [], []))
      (λ x d3, read_done disk lba (Z.to_nat count) d x.1 x.2 d3)).
    + intros can_dma d1 S1 B1. eapply wp_mono.
      * eapply (wp_loop _ (reading disk can_dma lba count d) (λ st, Z.to_nat st.1.1.1)
          (λ '(r, bytes) d3, read_result disk can_dma lba (Z.to_nat count) d r bytes d3)).
        -- intros st d3 H. eapply wp_mono; [by apply wp_read_sectors_step|]. intros [st'|[r bytes]] d4; done.
        -- split; cbn; [lia| |by rewrite Z.sub_diag|done|done|done]. f_equal. lia.
        -- cbn. lia.
      * by intros [r bytes] d2 [B2 H2].
    + intros [r bytes] d2 d3 H S3. unfold read_done in *. by rewrite S3.
  - by intros [r bytes] d'.
Qed.
End Read.
