(* ===== verification/AtaWrite.v ===== *)
(** Writing to an ATA disk (src/kernel/dev/atadisk.c): which sectors a write
    touches, and that they hold the data when it succeeds. *)
From S2P Require Import Prelude MiscMath Disk AtaDisk AtaLaws AtaRead.

Section Sectors.
Implicit Types s : Z → Z → list Z.

(** Two sectors of a run of less than 2^28 have different addresses. *)
Lemma lba_distinct l j k : j < k → k - j < LBA_LIMIT → (l + j) mod LBA_LIMIT ≠ (l + k) mod LBA_LIMIT.
Proof.
  unfold LBA_LIMIT. change (2 ^ 28) with 268435456. intros Hjk Hlt E.
  assert (H : ((l + k) - (l + j)) mod 268435456 = 0) by by rewrite Zminus_mod, E, Z.sub_diag.
  replace (l + k - (l + j)) with (k - j) in H by lia. rewrite Z.mod_small in H; lia.
Qed.

Lemma written_only_refl disk l n s : written_only disk l n s s.
Proof. done. Qed.
Lemma written_only_trans disk l n s s1 s2 :
  written_only disk l n s s1 → written_only disk l n s1 s2 → written_only disk l n s s2.
Proof. intros H1 H2 q a Ha. by rewrite H2, H1. Qed.
Lemma written_only_mono disk l n l' n' s s' : written_only disk l n s s' →
  (∀ k, (k < n)%nat → ∃ k', (k' < n')%nat ∧ (l + Z.of_nat k) mod LBA_LIMIT = (l' + Z.of_nat k') mod LBA_LIMIT) →
  written_only disk l' n' s s'.
Proof.
  intros H Hk q a Ha. apply H. intros -> k Hlt. destruct (Hk k Hlt) as (k' & Hk' & ->). by apply Ha.
Qed.

Lemma sectors_from_ext (s s' : Z → list Z) l n :
  (∀ k, (k < n)%nat → s' ((l + Z.of_nat k) mod LBA_LIMIT) = s ((l + Z.of_nat k) mod LBA_LIMIT)) →
  sectors_from s' l n = sectors_from s l n.
Proof.
  intros H. unfold sectors_from. f_equal. apply list_fmap_ext. intros i k Hk.
  apply H. apply lookup_seq in Hk. lia.
Qed.

(** A run is not touched by a write of the sectors after it. *)
Lemma sectors_before disk l n m s s' : written_only disk (l + Z.of_nat n) m s s' →
  Z.of_nat n + Z.of_nat m ≤ LBA_LIMIT → sectors_from (s' disk) l n = sectors_from (s disk) l n.
Proof.
  intros H Hlt. apply sectors_from_ext. intros j Hj. apply H. intros _ k Hk.
  rewrite <- Z.add_assoc. apply lba_distinct; lia.
Qed.
End Sectors.

Lemma bytes_of_words_of_bytes bs k : Forall (λ b, 0 ≤ b < 256) bs → length bs = (2 * k)%nat →
  bytes_of_words (words_of_bytes bs) = bs ∧ length (words_of_bytes bs) = k.
Proof.
  revert bs. induction k as [|k IH]; intros bs Hb Hl; [by destruct bs|].
  destruct bs as [|b0 [|b1 bs]]; cbn in Hl; try lia.
  apply Forall_cons in Hb as [H0 Hb]. apply Forall_cons in Hb as [H1 Hb].
  destruct (IH bs Hb ltac:(lia)) as [E1 E2]. cbn [words_of_bytes length]. split; [|by rewrite E2].
  unfold bytes_of_words in *. cbn [fmap list_fmap concat]. rewrite E1. cbn [app].
  rewrite Z.shiftl_mul_pow2, (lor_disjoint _ b0 8) by (lia || dlia). rewrite Z.shiftr_div_pow2 by lia. unfold u8.
  do 2 f_equal; [|f_equal]; change (2 ^ 8) with 256; dlia.
Qed.

Section Write.
Context {D : Type} `{!AtaOps D, !AtaLaws D}.
Implicit Types d : D.

(** The data of [n] sectors at the start of a buffer. *)
Definition data_of (buf : list Z) (n : nat) : list Z := take (512 * n) buf.
#[local] Arguments data_of : simpl never.
Definition is_data (buf : list Z) (n : nat) : Prop :=
  Forall (λ b, 0 ≤ b < 256) buf ∧ (512 * n ≤ length buf)%nat.

Lemma data_of_app buf k m : data_of buf (k + m) = data_of buf k ++ data_of (drop (512 * k) buf) m.
Proof using. unfold data_of. by rewrite Nat.mul_add_distr_l, <- take_take_drop. Qed.

(** The result of a write of [n] sectors at [lba]. *)
Definition write_done (disk lba : Z) (n : nat) (buf : list Z) d (r : Z) d' : Prop :=
  written_only disk lba n (sectors d) (sectors d') ∧
  failed_or (sectors_from (sectors d' disk) lba n = data_of buf n) r.
Definition write_result (disk : Z) (c : bool) (lba : Z) (n : nat) (buf : list Z) d (r : Z) d' : Prop :=
  has_bus disk c d' ∧ write_done disk lba n buf d r d'.

(** ** Programmed i/o *)

(** The state of the loop when [k] of [n] sectors are written. *)
Record pio_writing (disk : Z) (c : bool) (lba : Z) (n : nat) (buf : list Z) d (k : nat) d' : Prop := {
  pw_bus : has_bus disk c d';
  pw_transfer : v_transfer (view_of d' disk) = PioOut disk (lba + Z.of_nat k) (n - k);
  pw_only : written_only disk lba k (sectors d) (sectors d');
  pw_data : sectors_from (sectors d' disk) lba k = data_of buf k;
}.

Lemma sector_of_data buf n k : is_data buf n → (k < n)%nat →
  let ws := words_of_bytes (take 512 (drop (512 * k) buf)) in
  length ws = 256%nat ∧ data_of buf (S k) = data_of buf k ++ bytes_of_words ws.
Proof using.
  intros [Hb Hl] Hk. cbn zeta.
  destruct (bytes_of_words_of_bytes (take 512 (drop (512 * k) buf)) 256) as [-> ->];
    [by apply Forall_take, Forall_drop|rewrite length_take, length_drop; lia|].
  split; [done|]. unfold data_of. replace (512 * S k)%nat with (512 * k + 512)%nat by lia.
  by rewrite <- take_take_drop.
Qed.

Lemma wp_write_pio_step disk c lba n buf k d d1 : is_data buf n → (k < n)%nat → Z.of_nat n ≤ LBA_LIMIT →
  pio_writing disk c lba n buf d k d1 →
  wp (write_pio_step disk buf (Z.of_nat k)) d1 (λ r d2, match r with
    | inl e => e < 0 ∧ has_bus disk c d2 ∧ written_only disk lba n (sectors d) (sectors d2)
    | inr _ => pio_writing disk c lba n buf d (S k) d2
    end).
Proof.
  intros Hdata Hk Hn [B1 T1 W1 D1]. unfold write_pio_step.
  assert (Hw : written_only disk lba n (sectors d) (sectors d1))
    by (eapply written_only_mono; [exact W1|]; intros j Hj; exists j; split; [lia|done]).
  apply wp_bind. eapply wp_mono; [apply wp_wait_busy_clear|]. intros r2 d2 (C2 & H2).
  destruct (Z.ltb_spec r2 0); [apply wp_ret; split; [done|]; split; [by eapply calm_bus|]; by rewrite (calm_sectors _ _ _ C2)|].
  apply wp_bind. eapply wp_mono; [apply wp_wait_drq_set|]. intros r3 d3 (C3 & H3).
  pose proof (calm_trans _ _ _ _ C2 C3) as C. pose proof (calm_sectors _ _ _ C) as S3. pose proof (calm_bus _ _ _ _ C B1) as B3.
  destruct (Z.ltb_spec r3 0); [apply wp_ret; split; [done|]; split; [done|]; by rewrite S3|].
  destruct H3 as [|[_ Hready]]; [lia|]. replace (Z.to_nat (512 * Z.of_nat k)) with (512 * k)%nat by lia.
  destruct (sector_of_data buf n k Hdata Hk) as [Hlen Happ]. set (ws := words_of_bytes _) in *.
  destruct (write_data_law disk ws d3) as (d4 & E4 & _ & _ & V4 & H4).
  pose proof (calm_transfer _ _ _ C) as T3. rewrite T1 in T3.
  replace (n - k)%nat with (S (n - S k)) in T3 by lia. destruct (H4 _ _ _ T3) as [O4 D4]. specialize (D4 Hready Hlen).
  assert (O4' : written_only disk (lba + Z.of_nat k) 1 (sectors d1) (sectors d4)).
  { intros q a Ha. rewrite O4, S3; [done|]. intros [= -> ->]. apply (Ha eq_refl 0%nat); [lia|]. f_equal. lia. }
  assert (HP : pio_writing disk c lba n buf d (S k) d4).
  { split.
    - unfold has_bus. rewrite V4. unfold next_sector. by rewrite T3.
    - rewrite V4. unfold next_sector. rewrite T3. cbn. f_equal. lia.
    - apply (written_only_trans _ _ _ _ (sectors d1)).
      + eapply written_only_mono; [exact W1|]. intros j Hj. exists j. split; [lia|done].
      + eapply written_only_mono; [exact O4'|]. intros j Hj. exists k. split; [lia|]. f_equal. lia.
    - replace (S k) with (k + 1)%nat at 1 by lia. rewrite sectors_from_app, Happ. f_equal.
      + rewrite <- D1. eapply sectors_before; [exact O4'|]. lia.
      + rewrite sectors_from_S. cbn. by rewrite app_nil_r. }
  apply wp_bind. exists tt, d4. split; [done|].
  apply wp_bind. eapply wp_mono; [apply wp_wait_busy_clear_irq|]. intros r5 d5 (C5 & H5).
  destruct HP as [B4 T4 W4 D4']. pose proof (calm_bus _ _ _ _ C5 B4) as B5. pose proof (calm_sectors _ _ _ C5) as S5.
  destruct (Z.ltb_spec r5 0); apply wp_ret.
  - split; [done|]. split; [done|]. rewrite S5. eapply written_only_mono; [exact W4|]. intros j Hj. exists j. split; [lia|done].
  - split; rewrite ?S5; [done|by rewrite (calm_transfer _ _ _ C5)|done|done].
Qed.

Lemma wp_try_write_pio disk c lba n buf d : is_data buf (Z.to_nat n) → 0 ≤ n ≤ LBA_LIMIT →
  has_bus disk c d → params_set disk lba n d →
  wp (try_write_pio disk buf n) d (λ r d', write_result disk c lba (Z.to_nat n) buf d r d').
Proof.
  intros Hdata Hn Hb Hps. unfold try_write_pio. apply wp_bind.
  eapply wp_mono; [by apply (wp_command disk c _ lba n)|]. intros [] d1 (S1 & B1 & _ & T1).
  apply wp_bind. apply (wp_for_try_seqZ n _ (λ k, pio_writing disk c lba (Z.to_nat n) buf d (Z.to_nat k))); [lia| |..].
  - split; [done| |by rewrite S1|done]. rewrite T1. cbn. f_equal; lia.
  - intros k d2 Hk HP. rewrite <- (Z2Nat.id k) at 1 by lia. eapply wp_mono; [apply (wp_write_pio_step _ c lba (Z.to_nat n)); [done|lia|lia|exact HP]|].
    intros [e|[]] d3 H3.
    + apply wp_ret. destruct H3 as (He & Hb3 & Hw). split; [done|]. split; [done|by left].
    + by replace (Z.to_nat (k + 1)) with (S (Z.to_nat k)) by lia.
  - intros d2 [B2 T2 W2 D2]. apply wp_ret. split; [done|]. split; [done|by right].
Qed.

(** ** Attempts *)

Lemma wp_flush_cache disk c d : has_bus disk c d →
  wp (flush_cache disk) d (λ r d', sectors d' = sectors d ∧ has_bus disk c d' ∧ failed_or True r).
Proof.
  intros Hb. unfold flush_cache. apply wp_bind. eapply wp_mono; [apply wp_view, select_law|]. intros [] d1 (S1 & V1 & _).
  destruct (command_law disk ATA_CMD_FLUSH_CACHE d1) as (d2 & E2 & _ & V2 & S2).
  assert (B2 : has_bus disk c d2) by (unfold has_bus; by rewrite V2, V1).
  apply wp_bind. exists tt, d2. split; [done|]. eapply wp_mono; [apply wp_wait_busy_clear|].
  intros r d3 (C3 & H3). split; [|split; [by eapply calm_bus|done]]. rewrite (calm_sectors _ _ _ C3). congruence.
Qed.

(** The commands of [try_write], once the parameters are set. *)
Lemma wp_write_command disk buf (can_dma : bool) n lba d : is_data buf (Z.to_nat n) → 1 ≤ n ≤ 256 →
  has_bus disk can_dma d → params_set disk lba n d →
  (can_dma = true → v_dma (view_of d disk) = Some (n * ATA_SECTOR_SIZE, false, buf)) →
  wp (if can_dma then try_write_dma disk else ret ← try_write_pio disk buf n; mret (ret, false)) d
    (λ '(r, _) d', write_result disk can_dma lba (Z.to_nat n) buf d r d').
Proof.
  intros Hdata Hn Hb Hps Hm. destruct can_dma.
  2: { apply wp_bind. eapply wp_mono; [apply (wp_try_write_pio disk false lba); [done|unfold LBA_LIMIT; lia|done..]|].
       intros r d' H. by apply wp_ret. }
  specialize (Hm eq_refl). unfold try_write_dma.
  apply wp_bind. eapply wp_mono; [apply (wp_try_dma disk _ lba n d _ Hb Hps ltac:(by rewrite Hm) eq_refl)|].
  intros [[r crc] bytes] d' [B1 Hr]. apply wp_ret. split; [done|].
  destruct Hr as [(Hr & _ & S)|(v & ok & Hv & Hd & Ht)]; [split; [by rewrite S|by left]|].
  rewrite Hm in Hv. destruct (Hd _ _ _ Hv ltac:(unfold ATA_SECTOR_SIZE; lia)) as [_ Hs]. cbn in Ht.
  destruct Ht as [[Hr Ht]|(-> & -> & Ht)]; rewrite Ht in Hs; destruct Hs as [Hw Hbs].
  - split; [done|by left].
  - split; [done|]. right. split; [done|]. destruct Hdata as [Hbytes Hlen].
    rewrite Hbs by (done || unfold ATA_SECTOR_SIZE, LBA_LIMIT; lia). unfold data_of. f_equal. unfold ATA_SECTOR_SIZE. lia.
Qed.

Lemma wp_try_write disk buf can_dma lba n d : is_data buf (Z.to_nat n) → 1 ≤ n ≤ 256 → has_bus disk can_dma d →
  wp (try_write disk buf can_dma lba n) d (λ '(r, _) d', write_result disk can_dma lba (Z.to_nat n) buf d r d').
Proof.
  intros Hdata Hn Hb. unfold try_write. apply wp_bind. eapply wp_mono; [by apply wp_init|]. intros init d1 (S1 & B1 & M1).
  destruct (Z.ltb_spec init 0); [apply wp_ret; split; [done|]; split; [by rewrite S1|by left]|].
  apply wp_bind. eapply wp_mono; [by apply (wp_set_params disk can_dma)|]. intros [] d2 (S2 & B2 & P2 & M2).
  apply wp_bind. eapply wp_mono; [apply (wp_write_command _ _ _ _ lba); [done..|]|].
  { intros Hcd. rewrite M2. apply M1; [lia|done]. }
  intros [r crc] d3 (B3 & W3 & H3). rewrite S2, S1 in W3.
  apply wp_bind. apply (wp_mono _ _ (λ r' d4, has_bus disk can_dma d4 ∧ sectors d4 = sectors d3 ∧ failed_or (0 ≤ r) r')).
  { destruct (Z.ltb_spec r 0); [apply wp_ret; split; [done|]; split; [done|by left]|].
    apply wp_bind. eapply wp_mono; [apply wp_wait_busy_clear|]. intros r4 d4 (C4 & H4).
    pose proof (calm_sectors _ _ _ C4) as S4. pose proof (calm_bus _ _ _ _ C4 B3) as B4.
    destruct (Z.ltb_spec r4 0); [apply wp_ret; split; [done|]; split; [done|by left]|].
    eapply wp_mono; [by apply (wp_flush_cache disk can_dma)|]. intros r5 d5 (S5 & B5 & H5). split; [done|]. split; [congruence|].
    destruct H5 as [|[-> _]]; [by left|by right]. }
  intros r' d4 (B4 & S4 & H4). apply wp_bind. eapply wp_mono; [by apply wp_deinit|].
  intros [] d5 [S5 B5]. apply wp_ret. split; [done|]. unfold write_done. rewrite S5, S4. split; [done|].
  destruct H4 as [|[-> Hr]]; [by left|]. destruct H3 as [|[_ H3]]; [lia|by right].
Qed.

Lemma wp_tries_write disk buf can_dma lba n d : is_data buf (Z.to_nat n) → 1 ≤ n ≤ 256 → has_bus disk can_dma d →
  wp (tries disk can_dma (λ _ : unit, '(ret, crc) ← try_write disk buf can_dma lba n; mret (ret, crc, tt))
       MAX_RETRIES tt) d (λ '(r, _) d', write_result disk can_dma lba (Z.to_nat n) buf d r d').
Proof.
  intros Hdata Hn Hb. eapply wp_mono.
  - apply (wp_tries disk can_dma _ (λ _ d', has_bus disk can_dma d' ∧ written_only disk lba (Z.to_nat n) (sectors d) (sectors d'))
      (λ _ d', sectors_from (sectors d' disk) lba (Z.to_nat n) = data_of buf (Z.to_nat n))).
    + intros [] d1 [B1 W1]. apply wp_bind. eapply wp_mono; [by apply wp_try_write|].
      intros [r crc] d2 (B2 & W2 & H2). apply wp_ret. split; [split; [done|by eapply written_only_trans]|done].
    + intros _ d1 d2 [B1 W1] S2 B2. rewrite S2. by split; [apply B2|].
    + done.
  - intros [r []] d' [[B W] H]. by split.
Qed.

(** ** Sector writes *)

(** The state of the loop that writes [count] sectors from [lba]. *)
Record writing (disk : Z) (c : bool) (lba count : Z) (buf : list Z) d (st : Z * Z * list Z) d' : Prop := {
  wr_bus : has_bus disk c d';
  wr_remaining : 0 ≤ st.1.1 ≤ count;
  wr_lba : st.1.2 mod LBA_LIMIT = (lba + (count - st.1.1)) mod LBA_LIMIT;
  wr_src : st.2 = drop (512 * Z.to_nat (count - st.1.1)) buf;
  wr_only : written_only disk lba (Z.to_nat (count - st.1.1)) (sectors d) (sectors d');
  wr_data : sectors_from (sectors d' disk) lba (Z.to_nat (count - st.1.1)) = data_of buf (Z.to_nat (count - st.1.1));
}.

Lemma wp_write_sectors_step disk can_dma lba count buf d st d1 : is_data buf (Z.to_nat count) → count ≤ LBA_LIMIT →
  writing disk can_dma lba count buf d st d1 →
  wp (write_sectors_step disk can_dma st) d1 (λ y d2, match y with
    | inl st' => writing disk can_dma lba count buf d st' d2 ∧ (Z.to_nat st'.1.1 < Z.to_nat st.1.1)%nat
    | inr r => write_result disk can_dma lba (Z.to_nat count) buf d r d2
    end).
Proof.
  destruct st as [[remaining cur] src]. intros [Hb Hl] Hcount [H0 H1 H2 H3 H4 H5]. cbn [fst snd] in *. subst src.
  unfold write_sectors_step.
  destruct (Z.ltb_spec 0 remaining) as [Hr|Hr]; cbn [negb].
  2: { apply wp_ret. replace remaining with 0 in * by lia. rewrite Z.sub_0_r in *. split; [done|]. split; [done|by right]. }
  destruct (current_count_range remaining Hr) as [Hc1 Hc2]. set (n := current_count remaining) in *.
  set (k := Z.to_nat (count - remaining)) in *.
  assert (Hk : Z.to_nat (count - (remaining - n)) = (k + Z.to_nat n)%nat) by lia.
  assert (Hsrc : is_data (drop (512 * k) buf) (Z.to_nat n))
    by (split; [by apply Forall_drop|rewrite length_drop; lia]).
  assert (Hmod : ∀ j, (cur + Z.of_nat j) mod LBA_LIMIT = (lba + Z.of_nat (k + j)) mod LBA_LIMIT).
  { intros j. rewrite <- Zplus_mod_idemp_l, H2, Zplus_mod_idemp_l. f_equal. lia. }
  apply wp_bind. eapply wp_mono; [by apply wp_tries_write|]. intros [r []] d2 (B2 & W2 & R2).
  assert (W : written_only disk lba (k + Z.to_nat n) (sectors d) (sectors d2)).
  { apply (written_only_trans _ _ _ _ (sectors d1)).
    - eapply written_only_mono; [exact H4|]. intros j Hj. exists j. split; [lia|done].
    - eapply written_only_mono; [exact W2|]. intros j Hj. exists (k + j)%nat. split; [lia|apply Hmod]. }
  destruct (Z.ltb_spec r 0); apply wp_ret.
  { split; [done|]. split; [|by left]. eapply written_only_mono; [exact W|]. intros j Hj. exists j. split; [lia|done]. }
  destruct R2 as [|[_ R2]]; [lia|]. cbn [fst snd]. split; [|lia]. split; cbn [fst snd]; rewrite ?Hk; [done|lia| | |done|].
  - rewrite u32_lba, <- Zplus_mod_idemp_l, H2, Zplus_mod_idemp_l. f_equal. lia.
  - rewrite drop_drop. f_equal. unfold ATA_SECTOR_SIZE. lia.
  - rewrite sectors_from_app, data_of_app. f_equal.
    + rewrite <- H5. eapply (sectors_before _ _ _ (Z.to_nat n)); [|lia]. eapply written_only_mono; [exact W2|].
      intros j Hj. exists j. split; [done|]. rewrite Hmod. f_equal. lia.
    + rewrite <- R2. apply sectors_from_mod. rewrite H2. f_equal. lia.
Qed.

Lemma wp_write_sectors disk lba count buf d : is_data buf (Z.to_nat count) → 0 ≤ count ≤ LBA_LIMIT →
  wp (write_sectors disk lba count buf) d (λ r d', released disk d' ∧ write_done disk lba (Z.to_nat count) buf d r d').
Proof.
  intros Hdata Hc. unfold write_sectors.
  apply (wp_locked disk (λ can_dma, loop_m (S (Z.to_nat count)) (write_sectors_step disk can_dma) (count, lba, buf))).
  - intros can_dma d1 S1 B1.
    eapply (wp_loop _ (writing disk can_dma lba count buf d) (λ st, Z.to_nat st.1.1)
      (λ r d3, write_result disk can_dma lba (Z.to_nat count) buf d r d3)).
    + intros st d3 H. apply wp_write_sectors_step; [done|lia|done].
    + split; cbn; rewrite ?Z.sub_diag; [done|lia|f_equal; lia|done| |done]. by rewrite S1.
    + cbn. lia.
  - intros r d2 d3 H S3. unfold write_done in *. by rewrite S3.
Qed.
End Write.
