(* ===== verification/AtaDriver.v ===== *)
(** ATA disks as physical disks: what their driver promises to the code above it
    (src/kernel/dev/atadisk.c, src/kernel/io/disk.c), and a simulated controller. *)
From S2P Require Import Prelude Disk AtaDisk AtaLaws AtaRead AtaWrite.

(** ** The driver of physical disks *)

Section Driver.
Context {D : Type} `{!AtaOps D, !AtaLaws D}.
Implicit Types d : D.

Lemma sector_rom_block (p : pdisk) d disk a : block_size p = ATA_SECTOR_SIZE →
  rom_block p (sectors d disk a) = sectors d disk a.
Proof.
  intros Hb. unfold rom_block. rewrite Hb. change (Z.to_nat ATA_SECTOR_SIZE) with 512%nat.
  assert (E : u8 <$> sectors d disk a = sectors d disk a).
  { pose proof (sector_bytes d disk a) as H. induction H as [|b bs Hb' _ IH]; [done|]. cbn. f_equal; [|done].
    by apply Z.mod_small. }
  rewrite E, take_app_le by by rewrite sector_length. by rewrite take_ge by by rewrite sector_length.
Qed.

Lemma op_read_ok (p : pdisk) addr count d : 0 ≤ count →
  wp (op_read p addr count) d (λ '(r, bytes) d', released (Disk.data p) d' ∧
    read_done (Disk.data p) addr (Z.to_nat count) d r bytes d').
Proof.
  intros Hc. unfold op_read. eapply wp_mono; [by apply wp_read_sectors|]. intros [r bytes] d' (R & S & L & H).
  split; [done|]. split; [done|]. split; [done|]. by rewrite (sectors_from_mod _ _ addr) in H by apply u32_lba.
Qed.

Lemma op_write_ok (p : pdisk) buf addr count d : is_data buf (Z.to_nat count) → 0 ≤ count ≤ LBA_LIMIT →
  wp (op_write p buf addr count) d (λ r d', released (Disk.data p) d' ∧
    write_done (Disk.data p) addr (Z.to_nat count) buf d r d').
Proof.
  intros Hd Hc. unfold op_write. eapply wp_mono; [by apply wp_write_sectors|]. intros r d' (R & W & H). split; [done|]. split.
  - eapply written_only_mono; [exact W|]. intros k Hk. exists k. split; [done|].
    by rewrite <- Zplus_mod_idemp_l, u32_lba, Zplus_mod_idemp_l.
  - by rewrite (sectors_from_mod _ _ addr) in H by apply u32_lba.
Qed.

(** Every ATA disk is registered with blocks of 512 bytes; there are no others. *)
#[export] Instance ata_pdisk : PdiskOps D := {|
  pdisk_read p addr count := if block_size p =? ATA_SECTOR_SIZE then op_read p addr count else mret (- EIO, []);
  pdisk_write p buf addr count := if block_size p =? ATA_SECTOR_SIZE then op_write p buf addr count else mret (- EIO);
|}.

Lemma sectors_from_blocks d (p : pdisk) addr n : block_size p = ATA_SECTOR_SIZE →
  sectors_from (sectors d (Disk.data p)) addr n =
  blocks_of (λ a, rom_block p (sectors d (Disk.data p) (a mod LBA_LIMIT))) addr n.
Proof.
  intros Hb. unfold sectors_from, blocks_of. f_equal. apply list_fmap_ext. intros i k _. by rewrite sector_rom_block.
Qed.

#[export] Instance ata_pdisk_laws : PdiskLaws D.
Proof.
  refine {| contents := λ d p a, rom_block p (sectors d (Disk.data p) (a mod LBA_LIMIT)) |}.
  - intros d p a Hb. by apply rom_block_length.
  - intros d p a. apply rom_block_bytes.
  - intros p addr count d Hb Hc. cbn. destruct (Z.eqb_spec (block_size p) ATA_SECTOR_SIZE) as [E|].
    + destruct (op_read_ok p addr count d Hc) as ([r bytes] & d' & Er & _ & S & L & H).
      exists r, bytes, d'. rewrite S, E. split_and!; [done|done|unfold ATA_SECTOR_SIZE; lia|].
      destruct H as [|[-> ->]]; [by left|]. right. split; [done|]. by apply sectors_from_blocks.
    + exists (- EIO), [], d. split_and!; [done|done|cbn; lia|left; unfold EIO; lia].
Defined.
End Driver.

(** ** Properties *)

(** C22: A read from an ATA disk always ends: every wait is limited by the time or by
    the interrupts of the device.  It never changes the disk or stores more bytes
    than the buffer has, and when it does not fail it stores exactly the sectors
    asked for, of the disk asked for, however many transfers and retries it takes,
    with DMA or without.  The channel is unlocked in the end and no DMA session is
    left open. *)
Theorem ata_read_correct {D} `{!AtaOps D, !AtaLaws D} (p : pdisk) addr count (d : D) : 0 ≤ count →
  ∃ r bytes d', op_read p addr count d = Ok ((r, bytes), d') ∧ sectors d' = sectors d ∧ released (Disk.data p) d' ∧
    (length bytes ≤ 512 * Z.to_nat count)%nat ∧
    (r < 0 ∨ r = 0 ∧ bytes = sectors_from (sectors d (Disk.data p)) addr (Z.to_nat count)).
Proof.
  intros Hc. destruct (op_read_ok p addr count d Hc) as ([r bytes] & d' & E & R & S & H). by exists r, bytes, d'.
Qed.

(** C21: A write to an ATA disk always ends, and never touches a sector that it was
    not given, of this disk or of another.  When it does not fail, a read of the
    same sectors that does not fail either returns the data that was written.  The
    channel is unlocked in the end and no DMA session is left open.  What a disk
    keeps in its cache is not told apart from what is on its medium. *)
Theorem ata_write_read_roundtrip {D} `{!AtaOps D, !AtaLaws D} (p : pdisk) buf addr count (d : D) :
  is_data buf (Z.to_nat count) → 0 ≤ count ≤ LBA_LIMIT →
  ∃ r d', op_write p buf addr count d = Ok (r, d') ∧ released (Disk.data p) d' ∧
    written_only (Disk.data p) addr (Z.to_nat count) (sectors d) (sectors d') ∧
    (r < 0 ∨ r = 0 ∧ ∃ r2 bytes d2, op_read p addr count d' = Ok ((r2, bytes), d2) ∧
       (r2 < 0 ∨ r2 = 0 ∧ bytes = data_of buf (Z.to_nat count))).
Proof.
  intros Hd Hc. destruct (op_write_ok p buf addr count d Hd Hc) as (r & d' & E & R & W & H).
  exists r, d'. split_and!; [done|done|done|]. destruct H as [|[-> H]]; [by left|]. right. split; [done|].
  destruct (op_read_ok p addr count d' ltac:(lia)) as ([r2 bytes] & d2 & E2 & _ & _ & _ & H2).
  exists r2, bytes, d2. split; [done|]. by rewrite H in H2.
Qed.

(** ** A simulated controller

    One channel with all the disks, with DMA or without; each look at its clock
    takes a tick, its status always says that data is ready, a command raises 300
    interrupts, and its bus master, as that of idebus.c, seems to have succeeded
    whenever it is not active. *)

Record sim := Sim { clock : Z; pending : nat; dma_works : bool; chan : view; medium : Z → Z → list Z }.

Definition norm (bs : list Z) : list Z := take 512 ((u8 <$> bs) ++ replicate 512 0).

Definition sim_irqs (s : sim) : nat := Nat.min (pending s) 300.
Definition sim_change (f : view → view) (s : sim) : sim := Sim (clock s) (pending s) (dma_works s) (f (chan s)) (medium s).
Definition sim_store (m : Z → Z → list Z) (s : sim) : sim := Sim (clock s) (pending s) (dma_works s) (chan s) m.

Definition sim_op {A} (a : sim → A) (f : A → view → view) : M sim A := λ s, Ok (a s, sim_change (f (a s)) s).
Definition sim_set (f : view → view) : M sim unit := sim_op (λ _, tt) (λ _, f).

Definition sim_read : M sim (list Z) := sim_op (λ s,
  match v_transfer (chan s) with
  | PioIn q l (S n) => words_of_bytes (norm (medium s q (l mod LBA_LIMIT)))
  | _ => replicate 256 0
  end) (λ _, next_sector).
Definition sim_write (ws : list Z) : M sim unit := λ s,
  let s' := sim_change next_sector s in
  Ok (tt, match v_transfer (chan s) with
          | PioOut drive l (S n) =>
              sim_store (λ q a, if (q =? drive) && (a =? l mod LBA_LIMIT) then bytes_of_words ws else medium s q a) s'
          | _ => s'
          end).

(** The sectors with those from a buffer. *)
Definition put (m : Z → Z → list Z) (drive l : Z) (n : nat) (buf : list Z) (q a : Z) : list Z :=
  let k := (a - l) mod LBA_LIMIT in
  if (q =? drive) && (k <? Z.of_nat n) && (a =? (l + k) mod LBA_LIMIT) then take 512 (drop (512 * Z.to_nat k) buf) else m q a.

Definition sim_dma_end (ok : bool) : M sim (list Z) := λ s,
  let s' := sim_change (with_transfer NoTransfer) s in
  match v_dma (chan s), v_transfer (chan s) with
  | Some (len, r, buf), DmaIn q l n Finished =>
      Ok (if ok && r && (len =? Z.of_nat n * ATA_SECTOR_SIZE) then sectors_from (λ a, norm (medium s q a)) l n else [], s')
  | Some (len, r, buf), DmaOut q l n Finished =>
      Ok ([], if ok && negb r && (len =? Z.of_nat n * ATA_SECTOR_SIZE) then sim_store (put (medium s) q l n buf) s' else s')
  | _, _ => Ok ([], s')
  end.

#[export] Instance sim_ops : AtaOps sim := {|
  g_ticktime := λ s, Ok (u64 (clock s), Sim (clock s + 1) (pending s) (dma_works s) (chan s) (medium s));
  dma_begin_session disk := sim_op dma_works with_session;
  dma_end_session disk := sim_set (with_session false);
  lock disk := sim_set (with_held true);
  unlock disk := sim_set (with_held false);
  read_status disk := sim_op (λ _, 0x48) (λ _, with_ready true);
  select_disk disk := sim_set (with_selected disk);
  set_features_param disk x := sim_set id;
  set_count_param disk x := sim_set (with_count x);
  set_lba_param disk x := sim_set (with_lba x);
  get_lba_output disk := sim_op (λ _, 0) (λ _, id);
  issue_command disk cmd := λ s,
    Ok (tt, let s' := sim_change (command cmd) s in Sim (clock s') 300 (dma_works s') (chan s') (medium s'));
  get_irq_flag disk := λ s, Ok (negb (pending s =? 0)%nat, s);
  clear_irq_flag disk := λ s, Ok (tt, Sim (clock s) (Nat.min (pending s) 300 - 1) (dma_works s) (chan s) (medium s));
  read_data disk := sim_read;
  write_data disk := sim_write;
  soft_reset disk := sim_set (λ v, View (v_held v) (v_session v) 99 0 0 NoTransfer false None);
  dma_init_transfer disk buf len r := sim_op (λ _, 0) (λ _, with_dma (Some (len, r, buf)));
  dma_begin_transfer disk := sim_op (λ _, 0) (λ _, begin_dma);
  dma_check_transfer disk := sim_op (λ _, ATA_DMASTATUS_SUCCESS) dma_seen;
  dma_end_transfer disk ok := sim_dma_end ok;
  dma_deinit_transfer disk := sim_set (with_dma None);
  WAIT_FUEL := Z.to_nat 5010;
  IRQ_FUEL := 301;
|}.

Lemma norm_length bs : length (norm bs) = 512%nat.
Proof. unfold norm. rewrite length_take, length_app, length_replicate. lia. Qed.
Lemma norm_bytes bs : Forall (λ b, 0 ≤ b < 256) (norm bs).
Proof.
  unfold norm. apply Forall_take, Forall_app. split.
  - apply Forall_fmap, Forall_forall. intros x _. apply Z.mod_pos_bound. lia.
  - apply Forall_replicate. lia.
Qed.
Lemma norm_id bs : length bs = 512%nat → Forall (λ b, 0 ≤ b < 256) bs → norm bs = bs.
Proof.
  intros Hl Hb. unfold norm. assert (E : u8 <$> bs = bs).
  { clear Hl. induction Hb as [|b bs Hb' _ IH]; [done|]. cbn. f_equal; [|done]. by apply Z.mod_small. }
  rewrite E, take_app_le by lia. by rewrite take_ge by lia.
Qed.
Lemma bytes_of_words_length ws : length (bytes_of_words ws) = (2 * length ws)%nat.
Proof. induction ws as [|w ws IH]; [done|]. unfold bytes_of_words in *. cbn in *. rewrite IH. lia. Qed.
Lemma bytes_of_words_bytes ws : Forall (λ b, 0 ≤ b < 256) (bytes_of_words ws).
Proof.
  unfold bytes_of_words. induction ws as [|w ws IH]; [constructor|]. cbn.
  constructor; [by apply Z.mod_pos_bound|]. constructor; [by apply Z.mod_pos_bound|done].
Qed.

(** An operation of the simulation acts as its effect says. *)
Lemma sim_law {A} (a : sim → A) (f : A → view → view) (P : A → sim → sim → Prop) :
  (∀ d, P (a d) d (sim_change (f (a d)) d)) → ∀ d, ∃ a' d', sim_op a f d = Ok (a', d') ∧
    clock d ≤ clock d' ≤ clock d + 1 * (2 ^ 32 * 1) ∧ (sim_irqs d' ≤ sim_irqs d)%nat ∧ chan d' = f a' (chan d) ∧
    (λ q x, norm (medium d' q x)) = (λ q x, norm (medium d q x)) ∧ P a' d d'.
Proof. intros HP d. exists (a d), (sim_change (f (a d)) d). split_and!; [done|cbn; lia..|done|done|done|done]. Qed.

Lemma sim_read_law (d : sim) : ∃ ws d', sim_read d = Ok (ws, d') ∧
  clock d ≤ clock d' ≤ clock d + 1 * (2 ^ 32 * 1) ∧ (sim_irqs d' ≤ sim_irqs d)%nat ∧ chan d' = next_sector (chan d) ∧
  (λ q x, norm (medium d' q x)) = (λ q x, norm (medium d q x)) ∧ length ws = 256%nat ∧
  ∀ q l n, v_transfer (chan d) = PioIn q l (S n) → v_ready (chan d) = true →
    bytes_of_words ws = norm (medium d q (l mod LBA_LIMIT)).
Proof.
  apply (sim_law _ (λ _, next_sector) (λ ws d _, length ws = 256%nat ∧ ∀ q l n, v_transfer (chan d) = PioIn q l (S n) →
    v_ready (chan d) = true → bytes_of_words ws = norm (medium d q (l mod LBA_LIMIT)))).
  intros d'. split.
  - destruct (v_transfer (chan d')) as [|q l [|n]| | |]; try (by rewrite length_replicate).
    apply (bytes_of_words_of_bytes _ 256); [apply norm_bytes|by rewrite norm_length].
  - intros q l n Ht _. rewrite Ht. apply (bytes_of_words_of_bytes _ 256); [apply norm_bytes|by rewrite norm_length].
Qed.

Lemma sim_write_law ws (d : sim) : ∃ d', sim_write ws d = Ok (tt, d') ∧
  clock d ≤ clock d' ≤ clock d + 1 * (2 ^ 32 * 1) ∧ (sim_irqs d' ≤ sim_irqs d)%nat ∧ chan d' = next_sector (chan d) ∧
  ∀ drive l n, v_transfer (chan d) = PioOut drive l (S n) →
    (∀ q x, (q, x) ≠ (drive, l mod LBA_LIMIT) → norm (medium d' q x) = norm (medium d q x)) ∧
    (v_ready (chan d) = true → length ws = 256%nat → norm (medium d' drive (l mod LBA_LIMIT)) = bytes_of_words ws).
Proof.
  eexists. split; [reflexivity|]. split_and!.
  - destruct (v_transfer (chan d)) as [| |? ? [|?]| |]; cbn; lia.
  - destruct (v_transfer (chan d)) as [| |? ? [|?]| |]; cbn; lia.
  - destruct (v_transfer (chan d)) as [| |? ? [|?]| |]; cbn; unfold sim_irqs; cbn; lia.
  - by destruct (v_transfer (chan d)) as [| |? ? [|?]| |].
  - intros drive l n Ht. rewrite Ht. cbn [medium sim_store]. split.
    + intros q x Hne. destruct (Z.eqb_spec q drive), (Z.eqb_spec x (l mod LBA_LIMIT)); try done. by subst.
    + intros _ Hl. rewrite !Z.eqb_refl. cbn [andb]. apply norm_id; [|apply bytes_of_words_bytes].
      rewrite bytes_of_words_length. lia.
Qed.

(** A buffer that was put is read back. *)
Lemma concat_sectors (buf : list Z) n :
  concat ((λ k, take 512 (drop (512 * k) buf)) <$> seq 0 n) = take (512 * n) buf.
Proof.
  induction n as [|n IH]; [done|]. rewrite seq_S, fmap_app, concat_app, IH. cbn [fmap list_fmap concat]. rewrite app_nil_r.
  replace (512 * S n)%nat with (512 * n + 512)%nat by lia. by rewrite <- take_take_drop.
Qed.
Lemma put_get m drive l n buf : Z.of_nat n ≤ LBA_LIMIT → (512 * n ≤ length buf)%nat → Forall (λ b, 0 ≤ b < 256) buf →
  sectors_from (λ a, norm (put m drive l n buf drive a)) l n = take (512 * n) buf.
Proof.
  intros Hn Hl Hb. rewrite <- concat_sectors. unfold sectors_from. f_equal. apply list_fmap_ext. intros i k Hk%lookup_seq.
  assert (0 < LBA_LIMIT) by done. unfold put.
  assert (((l + Z.of_nat k) mod LBA_LIMIT - l) mod LBA_LIMIT = Z.of_nat k) as ->.
  { rewrite Zminus_mod_idemp_l. replace (l + Z.of_nat k - l) with (Z.of_nat k) by lia. apply Z.mod_small. lia. }
  rewrite !Z.eqb_refl, Nat2Z.id. destruct (Z.ltb_spec (Z.of_nat k) (Z.of_nat n)); [|lia]. cbn [andb].
  apply norm_id; [|by apply Forall_take, Forall_drop]. rewrite length_take, length_drop. lia.
Qed.
Lemma put_only m drive l n buf : written_only drive l n (λ q a, norm (m q a)) (λ q a, norm (put m drive l n buf q a)).
Proof.
  intros q a Hne. unfold put. set (k := (a - l) mod LBA_LIMIT). destruct (Z.eqb_spec q drive) as [->|]; [|done].
  pose proof (Z.mod_pos_bound (a - l) LBA_LIMIT eq_refl) as Hk. fold k in Hk.
  destruct (Z.ltb_spec k (Z.of_nat n)); [|done]. destruct (Z.eqb_spec a ((l + k) mod LBA_LIMIT)); [|done].
  exfalso. apply (Hne eq_refl (Z.to_nat k)); [lia|]. by rewrite Z2Nat.id by lia.
Qed.

Lemma sim_dma_end_law ok (d : sim) : ∃ bytes d', sim_dma_end ok d = Ok (bytes, d') ∧
  clock d ≤ clock d' ≤ clock d + 1 * (2 ^ 32 * 1) ∧ (sim_irqs d' ≤ sim_irqs d)%nat ∧
  chan d' = with_transfer NoTransfer (chan d) ∧
  dma_moved ok (chan d) (λ q x, norm (medium d q x)) (λ q x, norm (medium d' q x)) bytes.
Proof.
  unfold sim_dma_end, dma_moved. destruct (v_dma (chan d)) as [[[len r] buf]|] eqn:Em.
  2: { eexists _, _. split; [reflexivity|]. split_and!; [cbn; lia..|done|done|done]. }
  destruct (v_transfer (chan d)) as [|? ? ?|? ? ?|q l n [| |]|q l n [| |]] eqn:Et;
    try (eexists _, _; split; [reflexivity|]; split_and!; [cbn; lia..|done|done|]; intros ? ? ? [= <- <- <-] H0; split; [cbn; lia|]; done).
  - eexists _, _. split; [reflexivity|]. split_and!; [cbn; lia..|done|done|]. intros ? ? ? [= <- <- <-] H0.
    assert (length (sectors_from (λ a, norm (medium d q a)) l n) = (512 * n)%nat) as Hl
      by (apply sectors_from_length; intros; apply norm_length).
    destruct (Z.eqb_spec len (Z.of_nat n * ATA_SECTOR_SIZE)) as [->|]; destruct ok, r; cbn [andb negb length];
      (split; [rewrite ?Hl; unfold ATA_SECTOR_SIZE in *; lia|]); done.
  - eexists _, _. split; [reflexivity|]. destruct (ok && negb r && (len =? Z.of_nat n * ATA_SECTOR_SIZE)) eqn:E.
    + apply andb_prop in E as [_ ->%Z.eqb_eq]. split_and!; [cbn; lia..|done|done|]. intros ? ? ? [= <- <- <-] H0.
      split; [done|]. split; [apply put_only|]. intros _ _ _ _ Hn Hl Hb. unfold ATA_SECTOR_SIZE in *.
      transitivity (take (512 * n) buf); [apply put_get; [done|lia|done]|f_equal; lia].
    + split_and!; [cbn; lia..|done|done|]. intros ? ? ? [= <- <- <-] H0. split; [done|]. split; [done|].
      intros _ -> -> ->. by rewrite Z.eqb_refl in E.
Qed.

#[export] Instance sim_laws : AtaLaws sim.
Proof.
  refine {|
    view_of s disk := chan s;
    sectors s disk a := norm (medium s disk a);
    cycles := clock; cycles_per_tick := 1; irqs := sim_irqs |}.
  - lia.
  - cbn. rewrite Z2Nat.id; unfold TIMEOUT; lia.
  - intros d. unfold sim_irqs. cbn. lia.
  - intros. apply norm_length.
  - intros. apply norm_bytes.
  - intros d. eexists. split; [cbn; rewrite Z.div_1_r; reflexivity|]. split_and!; cbn; done || lia.
  - intros disk. by apply sim_law.
  - intros disk. by apply sim_law.
  - intros disk. by apply sim_law.
  - intros disk. by apply sim_law.
  - intros disk. by apply sim_law.
  - intros disk x. by apply sim_law.
  - intros disk x. by apply sim_law.
  - intros disk x. by apply sim_law.
  - intros disk. by apply sim_law.
  - intros disk d. exists 0x48, (sim_change (with_ready true) d). split_and!; [done|cbn; lia..|done|done|done|done].
  - intros disk d. do 2 eexists. split; [reflexivity|]. split_and!; [cbn; lia..|done|done|done|].
    intros H. apply negb_true_iff, Nat.eqb_neq in H. unfold sim_irqs. lia.
  - intros disk d. eexists tt, _. split; [reflexivity|]. unfold sim_irqs. cbn. split_and!; lia || done.
  - intros disk. apply sim_read_law.
  - intros disk buf len r d. exists 0, (sim_change (with_dma (Some (len, r, buf))) d). split_and!; [done|cbn; lia..|done|done|done|done].
  - intros disk d. exists 0, (sim_change begin_dma d). split_and!; [done|cbn; lia..|done|done|done|done].
  - intros disk. by apply sim_law.
  - intros disk. by apply sim_law.
  - intros disk cmd d. eexists. split; [reflexivity|]. split_and!; cbn; lia || done.
  - intros disk d. eexists. split; [reflexivity|]. split_and!; cbn; lia || done.
  - intros disk. apply sim_write_law.
  - intros disk. apply sim_dma_end_law.
Defined.

(** Disk 7 of a channel on which disk 6 is selected; the sectors are filled with
    the number of their disk and their address. *)
Definition sim_disk : pdisk := Pdisk ATA_SECTOR_SIZE 7.
Definition sim_start (dma : bool) : sim :=
  Sim 41 0 dma (View false false 6 0 0 NoTransfer false None) (λ q a, replicate 512 ((16 * q + a) mod 256)).
Definition status_of {A} (r : res (Z * A * sim)) : Z := match r with Ok (e, _, _) => e | Fault _ => 1 end.

(** 300 sectors take two transfers, with DMA or without. *)
Lemma ata_read_correct_witness : (∃ bytes d', op_read sim_disk 5 300 (sim_start true) = Ok ((0, bytes), d') ∧
    bytes = sectors_from (sectors (sim_start true) 7) 5 300) ∧
  ∃ bytes d', op_read sim_disk 5 300 (sim_start false) = Ok ((0, bytes), d') ∧
    bytes = sectors_from (sectors (sim_start false) 7) 5 300.
Proof.
  split.
  - destruct (ata_read_correct sim_disk 5 300 (sim_start true) ltac:(lia)) as (r & bytes & d' & E & _ & _ & _ & H).
    assert (Hr : status_of (op_read sim_disk 5 300 (sim_start true)) = 0) by (vm_compute; reflexivity).
    rewrite E in Hr. cbn in Hr. subst r. destruct H as [H|[_ H]]; [lia|].
    exists bytes, d'. split; [exact E|exact H].
  - destruct (ata_read_correct sim_disk 5 300 (sim_start false) ltac:(lia)) as (r & bytes & d' & E & _ & _ & _ & H).
    assert (Hr : status_of (op_read sim_disk 5 300 (sim_start false)) = 0) by (vm_compute; reflexivity).
    rewrite E in Hr. cbn in Hr. subst r. destruct H as [H|[_ H]]; [lia|].
    exists bytes, d'. split; [exact E|exact H].
Defined.

Definition two_sectors : list Z := replicate 512 170 ++ replicate 512 85.

Lemma two_sectors_data : is_data two_sectors (Z.to_nat 2).
Proof. split; [|vm_compute; lia]. apply Forall_app. split; apply Forall_replicate; lia. Qed.

Lemma ata_write_read_roundtrip_witness : ∃ d' bytes d2, op_write sim_disk two_sectors 9 2 (sim_start true) = Ok (0, d') ∧
  op_read sim_disk 9 2 d' = Ok ((0, bytes), d2) ∧ bytes = two_sectors ∧ sectors d' 6 9 = sectors (sim_start true) 6 9.
Proof.
  destruct (ata_write_read_roundtrip sim_disk two_sectors 9 2 (sim_start true) two_sectors_data ltac:(unfold LBA_LIMIT; lia))
    as (r & d' & E & _ & W & H).
  assert (Hr : match op_write sim_disk two_sectors 9 2 (sim_start true) with
      Ok (e, s) => e = 0 ∧ status_of (op_read sim_disk 9 2 s) = 0 | Fault _ => False end)
    by (vm_compute; split; reflexivity).
  rewrite E in Hr. destruct Hr as [-> Hr2]. destruct H as [H|(_ & r2 & bytes & d2 & E2 & H2)]; [lia|].
  rewrite E2 in Hr2. cbn in Hr2. subst r2. exists d', bytes, d2. split; [exact E|]. split; [exact E2|].
  destruct H2 as [H2|[_ ->]]; [lia|]. split; [vm_compute; reflexivity|]. apply W. intros H6. discriminate H6.
Defined.
