(* ===== verification/FsWorld.v ===== *)
(** The world of the file system code: the kernel heap, the disks and the open
    files (the file descriptor part of src/kernel/fs/vfs.c and
    src/include/kernel/fs/vfs.h). *)
From S2P Require Import Prelude HeapIface Disk.

(** File descriptors: the next number, and [open_file_count] of each mounted
    file system, by the address of its [struct vfs_fscontext]. *)
Record fd_table := FdTable { s_next_fd_num : Z; open_file_count : gmap Z Z }.

Record world (H D : Type) := World { w_heap : H; w_disk : D; w_fds : fd_table }.
Arguments World {H D} _ _ _.
Arguments w_heap {H D} _.
Arguments w_disk {H D} _.
Arguments w_fds {H D} _.

(** [struct file], but for its operations. *)
Record file := File { fscontext_of : Z; id : Z }.

Section World.
Context {H D : Type} `{!HeapOps H} `{!PdiskOps D}.
Local Abbreviation W := (world H D).

Definition on_heap {A} (m : M H A) : M W A := λ w,
  match m (w_heap w) with
  | Ok (a, h) => Ok (a, World h (w_disk w) (w_fds w))
  | Fault f => Fault f
  end.

Definition on_disk {A} (m : M D A) : M W A := λ w,
  match m (w_disk w) with
  | Ok (a, d) => Ok (a, World (w_heap w) d (w_fds w))
  | Fault f => Fault f
  end.

Definition heap_calloc (size elements flags : Z) : M W Z := on_heap (HeapIface.heap_calloc size elements flags).

(** A zeroed [struct vfs_fscontext] appears at an address, and is freed. *)
Definition new_fscontext (a : Z) : M W unit := λ w,
  Ok (tt, World (w_heap w) (w_disk w)
            (FdTable (s_next_fd_num (w_fds w)) (<[a := 0]> (open_file_count (w_fds w))))).
Definition drop_fscontext (a : Z) : M W unit := λ w,
  Ok (tt, World (w_heap w) (w_disk w)
            (FdTable (s_next_fd_num (w_fds w)) (delete a (open_file_count (w_fds w))))).

(** [++] on an [_Atomic int] wraps around. *)
Definition vfs_register_file (fscontext : Z) : M W (Z + file) := λ w,
  let t := w_fds w in
  let id := s_next_fd_num t in
  if id =? INT_MAX then Fault Panic
  else match open_file_count t !! fscontext with
       | None => Fault Bad_pointer
       | Some n =>
           Ok (inr (File fscontext id),
               World (w_heap w) (w_disk w)
                 (FdTable (s32 (id + 1)) (<[fscontext := u32 (n + 1)]> (open_file_count t))))
       end.

Definition vfs_unregister_file (self : file) : M W unit := λ w,
  let t := w_fds w in
  match open_file_count t !! fscontext_of self with
  | None => Fault Bad_pointer
  | Some n =>
      Ok (tt, World (w_heap w) (w_disk w)
                (FdTable (s_next_fd_num t) (<[fscontext_of self := u32 (n - 1)]> (open_file_count t))))
  end.

End World.
