(* ===== verification/Ext2.v ===== *)
(** The ext2 driver (src/kernel/fs/fs_ext2.c): its data and operations.

    Memory of the driver's own is explicit where it outlives a call: the block
    buffers of an open inode are addresses of the kernel heap with the bytes
    they hold.  A call returns [inl e] for the negative error number [e], and
    [inr] of what it stores through its output parameters.  The messages of
    [iodev_printf] are left out. *)
From S2P Require Import Prelude MiscMath StrUtil HeapIface PathReader Disk FsWorld.

(** ** Constants *)

Definition EXT2_SIGNATURE : Z := 0xef53.
Definition INODE_ROOTDIRECTORY : Z := 2.
Definition REQUIRED_FEATUREFLAG_DIRENTRY_CONTAINS_TYPE_FIELD : Z := Z.shiftl 1 1.
Definition RWMOUNT_FEATUREFLAG_SPARSE_SUPERBLOCK_AND_GDTABLE : Z := Z.shiftl 1 0.
Definition RWMOUNT_FEATUREFLAG_64BIT_FILE_SIZE : Z := Z.shiftl 1 1.
Definition SUPPORTED_REQUIRED_FLAGS : Z := REQUIRED_FEATUREFLAG_DIRENTRY_CONTAINS_TYPE_FIELD.
Definition SUPPORTED_RWMOUNT_FLAGS : Z :=
  Z.lor RWMOUNT_FEATUREFLAG_SPARSE_SUPERBLOCK_AND_GDTABLE RWMOUNT_FEATUREFLAG_64BIT_FILE_SIZE.
Definition INODE_TYPE_MASK : Z := 0xf000.
Definition INODE_TYPE_DIRECTORY : Z := 0x4000.
Definition STREAM_MAX_TRANSFER_SIZE : Z := 0x7fffffff.
Definition SEEK_SET : Z := 0.
Definition SEEK_CUR : Z := 1.
Definition SEEK_END : Z := 2.

(** Sizes of the structures on the i586. *)
Definition SIZEOF_fscontext : Z := 288.
Definition SIZEOF_directory : Z := 184.
Definition SIZEOF_openfdcontext : Z := 212.
Definition OFFSETOF_vfs_fscontext : Z := 260.

(** ** Data *)

(** The extended superblock, of version 1.0 and later. *)
Record superblock_v1 := SuperblockV1 {
  block_group : Z;
  first_non_reserved_inode : Z;
  inode_size : Z;
  optional_features : Z;
  required_features : Z;
  required_features_rw : Z;
  compressionalgorithms : Z;
  preallocatefileblks : Z;
  preallocatedirblks : Z;
  journalinode : Z;
  journaldevice : Z;
  orphaninodelisthead : Z;
  filesystem_id : list Z;
  journalid : list Z;
  volumename : list Z;
  last_mount_path : list Z;
}.

Record superblock := Superblock {
  superblock_block_num : Z;
  total_inodes : Z;
  total_blocks : Z;
  total_unallocated_blocks : Z;
  total_unallocated_inodes : Z;
  reserved_blocks_for_su : Z;
  blocksize_of_fs : Z;
  blocks_in_block_group : Z;
  inodes_in_block_group : Z;
  last_mount_time : Z;
  last_written_time : Z;
  mounts_since_last_fsck : Z;
  mounts_before_fsck_required : Z;
  signature : Z;
  fs_state : Z;
  err_action : Z;
  minor_ver : Z;
  last_fsck_time : Z;
  fsck_interval : Z;
  creator_os_id : Z;
  major_ver : Z;
  reserved_block_uid : Z;
  reserved_block_gid : Z;
  v1 : superblock_v1;
}.

Record fscontext := Fscontext {
  super : superblock;
  disk : ldisk;
  blk_group_count : Z;
  blk_group_descriptor_blk : Z;
}.
Definition blocksize (self : fscontext) : Z := blocksize_of_fs (super self).

Record block_group_descriptor := BlockGroupDescriptor {
  blkusagebitmap : Z;
  inodeusagebitmap : Z;
  inodetable : Z;
  unallocatedblocks : Z;
  unallocatedinodes : Z;
  directories : Z;
}.

(** What an inode holds on the disk. *)
Record inode := Inode {
  size : Z;
  hardlinks : Z;
  disksectors : Z;
  direct_block_ptrs : list Z;
  singly_indirect_table : Z;
  doublyindirecttable : Z;
  triplyindirecttable : Z;
  lastaccesstime : Z;
  creationtime : Z;
  lastmodifiedtime : Z;
  deletiontime : Z;
  flags : Z;
  generationnumber : Z;
  typeandpermissions : Z;
  uid : Z;
  gid : Z;
}.

(** A block buffer on the heap, and a position in it; [None] is the null
    pointer. *)
Record buffer := Buffer { address : Z; bytes : list Z }.
Record cursor := Cursor { offset_in_buf : Z; buf : option buffer }.
Definition no_buf : cursor := Cursor 0 None.

Record ino_context := InoContext {
  inode_of : inode;
  fs : fscontext;
  current_block_addr : Z;
  next_direct_ptr_index : Z;
  cnt : Z;
  singly_indirect_buf : cursor;
  doubly_indirect_buf : cursor;
  triply_indirect_buf : cursor;
  blockbuf : cursor;
  singly_indirect_used : bool;
  doubly_indirect_used : bool;
  triply_indirect_used : bool;
}.

(** ** Updates of an open inode *)

Definition with_current (a n : Z) (c : ino_context) : ino_context :=
  InoContext (inode_of c) (fs c) a (next_direct_ptr_index c) n (singly_indirect_buf c)
    (doubly_indirect_buf c) (triply_indirect_buf c) (blockbuf c) (singly_indirect_used c)
    (doubly_indirect_used c) (triply_indirect_used c).
Definition with_index (i : Z) (c : ino_context) : ino_context :=
  InoContext (inode_of c) (fs c) (current_block_addr c) i (cnt c) (singly_indirect_buf c)
    (doubly_indirect_buf c) (triply_indirect_buf c) (blockbuf c) (singly_indirect_used c)
    (doubly_indirect_used c) (triply_indirect_used c).
Definition with_singly (b : cursor) (c : ino_context) : ino_context :=
  InoContext (inode_of c) (fs c) (current_block_addr c) (next_direct_ptr_index c) (cnt c) b
    (doubly_indirect_buf c) (triply_indirect_buf c) (blockbuf c) (singly_indirect_used c)
    (doubly_indirect_used c) (triply_indirect_used c).
Definition with_doubly (b : cursor) (c : ino_context) : ino_context :=
  InoContext (inode_of c) (fs c) (current_block_addr c) (next_direct_ptr_index c) (cnt c)
    (singly_indirect_buf c) b (triply_indirect_buf c) (blockbuf c) (singly_indirect_used c)
    (doubly_indirect_used c) (triply_indirect_used c).
Definition with_triply (b : cursor) (c : ino_context) : ino_context :=
  InoContext (inode_of c) (fs c) (current_block_addr c) (next_direct_ptr_index c) (cnt c)
    (singly_indirect_buf c) (doubly_indirect_buf c) b (blockbuf c) (singly_indirect_used c)
    (doubly_indirect_used c) (triply_indirect_used c).
Definition with_blockbuf (b : cursor) (c : ino_context) : ino_context :=
  InoContext (inode_of c) (fs c) (current_block_addr c) (next_direct_ptr_index c) (cnt c)
    (singly_indirect_buf c) (doubly_indirect_buf c) (triply_indirect_buf c) b
    (singly_indirect_used c) (doubly_indirect_used c) (triply_indirect_used c).
Definition with_used (s d t : bool) (c : ino_context) : ino_context :=
  InoContext (inode_of c) (fs c) (current_block_addr c) (next_direct_ptr_index c) (cnt c)
    (singly_indirect_buf c) (doubly_indirect_buf c) (triply_indirect_buf c) (blockbuf c) s d t.

Definition with_offset (o : Z) (b : cursor) : cursor := Cursor o (buf b).

(** Signed 64-bit division and remainder. *)
Definition div_ (x y : Z) : res Z := if y =? 0 then Fault Div_by_zero else Ok (Z.quot x y).
Definition mod_ (x y : Z) : res Z := if y =? 0 then Fault Div_by_zero else Ok (Z.rem x y).

Section Driver.
Context {H D : Type} `{!HeapOps H} `{!PdiskOps D}.
Local Abbreviation W := (world H D).

(** ** Blocks *)

(** The error number or 0, and the bytes stored in the buffer. *)
Definition read_blocks (self : fscontext) (block_addr blkcount : Z) : M W (Z * list Z) :=
  let physbs := block_size (physdisk (disk self)) in
  r ← lift (mod_ (u32 (blocksize self)) physbs);
  _ ← massert (r =? 0);
  ratio ← lift (div_ (u32 (blocksize self)) physbs);
  let diskblockaddr := u32 (block_addr * ratio) in
  let diskblkcount := u32 (blkcount * ratio) in
  on_disk (ldisk_read_exact (disk self) diskblockaddr diskblkcount).

Definition alloc_block_buf (self : fscontext) (count flags : Z) : M W Z :=
  heap_calloc count (u32 (blocksize self)) flags.

Definition heap_free_ptr (p : Z) : M W unit := on_heap (heap_free p).

Definition readblocks_alloc (self : fscontext) (block_addr block_count : Z) : M W (Z + buffer) :=
  p ← alloc_block_buf self block_count 0;
  if p =? 0 then _ ← heap_free_ptr p; mret (inl (- ENOMEM))
  else
    '(ret, bs) ← read_blocks self block_addr block_count;
    if ret <? 0 then _ ← heap_free_ptr p; mret (inl ret)
    else mret (inr (Buffer p bs)).

(** The pointer of a buffer that may be null. *)
Definition buf_ptr (b : option buffer) : Z := match b with Some b => address b | None => 0 end.
Definition free_buf (b : option buffer) : M W unit := heap_free_ptr (buf_ptr b).

(** The bytes from an index of a buffer on. *)
Definition bytes_at (b : option buffer) (off : Z) : res (list Z) :=
  match b with
  | None => Fault Bad_pointer
  | Some b => if off <? 0 then Fault Out_of_bounds else Ok (drop (Z.to_nat off) (bytes b))
  end.

(** ** Block groups and inodes *)

Definition DESCRIPTOR_SIZE : Z := 32.

Definition parse_descriptor (data : list Z) : res block_group_descriptor :=
  blkusage ← u32le_at data;
  inodeusage ← u32le_at (drop 0x04 data);
  table ← u32le_at (drop 0x08 data);
  blocks ← u16le_at (drop 0x0c data);
  inodes ← u16le_at (drop 0x0e data);
  dirs ← u16le_at (drop 0x10 data);
  Ok (BlockGroupDescriptor blkusage inodeusage table blocks inodes dirs).

Definition read_block_group_descriptor (self : fscontext) (block_group : Z)
    : M W (Z + block_group_descriptor) :=
  _ ← massert (block_group <? SIZE_MAX / DESCRIPTOR_SIZE);
  let byteoffset := block_group * DESCRIPTOR_SIZE in
  blockoffset ← lift (div_ byteoffset (blocksize self));
  let blockoffset := u32 blockoffset in
  byteoffsetinblk ← lift (mod_ byteoffset (blocksize self));
  _ ← massert (blockoffset <? u32 (SIZE_MAX - blk_group_descriptor_blk self));
  let blockoffset := u32 (blockoffset + blk_group_descriptor_blk self) in
  r ← readblocks_alloc self blockoffset 1;
  match r with
  | inl e => _ ← heap_free_ptr 0; mret (inl e)
  | inr b =>
      data ← lift (bytes_at (Some b) byteoffsetinblk);
      out ← lift (parse_descriptor data);
      _ ← heap_free_ptr (address b);
      mret (inr out)
  end.

Definition block_group_of_inode (self : fscontext) (inodeaddr : Z) : res Z :=
  div_ (u32 (inodeaddr - 1)) (inodes_in_block_group (super self)).

(** The block of an inode and its offset there. *)
Definition locate_inode (self : fscontext) (inodeaddr : Z) : M W (Z + (Z * Z)) :=
  group ← lift (block_group_of_inode self inodeaddr);
  blkgroup ⇐ read_block_group_descriptor self group;
  index ← lift (mod_ (u32 (inodeaddr - 1)) (inodes_in_block_group (super self)));
  max ← lift (div_ SIZE_MAX (inode_size (v1 (super self))));
  _ ← massert (index <? max);
  let byteoff := index * inode_size (v1 (super self)) in
  q ← lift (div_ byteoff (blocksize self));
  o ← lift (mod_ byteoff (blocksize self));
  mret (inr (u32 (inodetable blkgroup + q), o)).

(** ** Iterating over the blocks of an inode *)

Local Abbreviation MI A := (M (ino_context * W) A).

Definition gets {A} (f : ino_context → A) : MI A := λ s, Ok (f s.1, s).
Definition modify (f : ino_context → ino_context) : MI unit := λ s, Ok (tt, (f s.1, s.2)).
Definition up {A} (m : M W A) : MI A := λ s,
  match m s.2 with Ok (a, w) => Ok (a, (s.1, w)) | Fault f => Fault f end.

Definition next_direct_block_ptr : MI (Z + Z) :=
  ptrs ← gets (direct_block_ptrs ∘ inode_of);
  i ← gets next_direct_ptr_index;
  result_addr ← lift (rd ptrs i);
  if result_addr =? 0 then mret (inl (- ENOENT))
  else
    _ ← modify (with_index (u32 (i + 1)));
    mret (inr result_addr).

Definition next_triply_indirect_table : MI (Z + unit) :=
  used ← gets triply_indirect_used;
  if used : bool then mret (inl (- ENOENT))
  else
    tableaddr ← gets (triplyindirecttable ∘ inode_of);
    if tableaddr =? 0 then
      old ← gets triply_indirect_buf;
      _ ← up (free_buf (buf old));
      _ ← modify (with_triply no_buf);
      mret (inl (- ENOENT))
    else
      self ← gets fs;
      newtable ⇐ up (readblocks_alloc self tableaddr 1);
      old ← gets triply_indirect_buf;
      _ ← up (free_buf (buf old));
      _ ← modify (with_triply (Cursor 0 (Some newtable)));
      mret (inr tt).

(** The buffer is absent or read to its end. *)
Definition exhausted (self : fscontext) (b : cursor) : bool :=
  match buf b with None => true | Some _ => blocksize self <=? offset_in_buf b end.

Definition next_triply_block_ptr : MI (Z + Z) :=
  b ← gets triply_indirect_buf;
  self ← gets fs;
  _ ⇐ (if exhausted self b then next_triply_indirect_table else mret (inr tt));
  _ ← modify (λ c, with_used (singly_indirect_used c) (doubly_indirect_used c) true c);
  b ← gets triply_indirect_buf;
  data ← lift (bytes_at (buf b) (offset_in_buf b));
  tableaddr ← lift (u32le_at data);
  _ ← modify (with_triply (with_offset (offset_in_buf b + 4) b));
  mret (inr tableaddr).

Definition next_doubly_indirect_table : MI (Z + unit) :=
  used ← gets doubly_indirect_used;
  r ← (if used : bool then next_triply_block_ptr
       else
         tableaddr ← gets (doublyindirecttable ∘ inode_of);
         _ ← modify (λ c, with_used (singly_indirect_used c) true (triply_indirect_used c) c);
         if tableaddr =? 0 then mret (inl (- ENOENT)) else mret (inr tableaddr));
  match r with
  | inl e =>
      old ← gets doubly_indirect_buf;
      _ ← up (free_buf (buf old));
      _ ← modify (with_doubly no_buf);
      mret (inl e)
  | inr tableaddr =>
      self ← gets fs;
      newtable ⇐ up (readblocks_alloc self tableaddr 1);
      old ← gets doubly_indirect_buf;
      _ ← up (free_buf (buf old));
      _ ← modify (with_doubly (Cursor 0 (Some newtable)));
      mret (inr tt)
  end.

Definition next_doubly_block_ptr : MI (Z + Z) :=
  b ← gets doubly_indirect_buf;
  self ← gets fs;
  _ ⇐ (if exhausted self b then next_doubly_indirect_table else mret (inr tt));
  b ← gets doubly_indirect_buf;
  data ← lift (bytes_at (buf b) (offset_in_buf b));
  result_addr ← lift (u32le_at data);
  _ ← modify (with_doubly (with_offset (offset_in_buf b + 4) b));
  if result_addr =? 0 then mret (inl (- ENOENT)) else mret (inr result_addr).

Definition next_singly_indirect_table : MI (Z + unit) :=
  used ← gets singly_indirect_used;
  r ← (if used : bool then next_doubly_block_ptr
       else
         tableaddr ← gets (singly_indirect_table ∘ inode_of);
         if tableaddr =? 0 then mret (inl (- ENOENT)) else mret (inr tableaddr));
  match r with
  | inl _ =>
      old ← gets singly_indirect_buf;
      _ ← up (free_buf (buf old));
      _ ← modify (with_singly no_buf);
      mret (inl (- ENOENT))
  | inr tableaddr =>
      self ← gets fs;
      newtable ⇐ up (readblocks_alloc self tableaddr 1);
      old ← gets singly_indirect_buf;
      _ ← up (free_buf (buf old));
      _ ← modify (with_singly (Cursor 0 (Some newtable)));
      _ ← modify (λ c, with_used true (doubly_indirect_used c) (triply_indirect_used c) c);
      mret (inr tt)
  end.

(** The return value is the one variable [ret] holds when the entry is zero:
    that of the call that fetched the table, if there was one; the output
    parameter keeps the value the caller gave it. *)
Definition next_singly_block_ptr (addr_out : Z) : MI (Z + Z) :=
  b ← gets singly_indirect_buf;
  self ← gets fs;
  let fetch := exhausted self b in
  _ ⇐ (if fetch then next_singly_indirect_table else mret (inr tt));
  b ← gets singly_indirect_buf;
  data ← lift (bytes_at (buf b) (offset_in_buf b));
  result_addr ← lift (u32le_at data);
  if result_addr =? 0 then mret (if fetch then inr addr_out else inl (- ENOENT))
  else
    _ ← modify (with_singly (with_offset (offset_in_buf b + 4) b));
    mret (inr result_addr).

Definition DIRECT_BLOCK_POINTER_COUNT : Z := 12.

Definition next_inode_block : MI (Z + unit) :=
  i ← gets next_direct_ptr_index;
  result_addr ⇐ (if i <? DIRECT_BLOCK_POINTER_COUNT then next_direct_block_ptr
                  else next_singly_block_ptr 0);
  _ ← modify (λ c, with_current result_addr (u32 (cnt c + 1)) c);
  mret (inr tt).

(** [closeinode] frees the same buffers, and leaves the pointers. *)
Definition closeinode : MI unit :=
  b ← gets blockbuf; _ ← up (free_buf (buf b));
  b ← gets singly_indirect_buf; _ ← up (free_buf (buf b));
  b ← gets doubly_indirect_buf; _ ← up (free_buf (buf b));
  b ← gets triply_indirect_buf; up (free_buf (buf b)).

(** [MUST_SUCCEED]: the kernel stops when the call failed. *)
Definition must_succeed {S A} (r : Z + A) : M S unit :=
  massert (match r with inl _ => false | inr _ => true end).

Definition fresh_ino (i : inode) (self : fscontext) : ino_context :=
  InoContext i self 0 0 0 no_buf no_buf no_buf no_buf false false false.

Definition rewindinode : MI unit :=
  b ← gets blockbuf; _ ← up (free_buf (buf b));
  b ← gets singly_indirect_buf; _ ← up (free_buf (buf b));
  b ← gets doubly_indirect_buf; _ ← up (free_buf (buf b));
  b ← gets triply_indirect_buf; _ ← up (free_buf (buf b));
  _ ← modify (λ c, fresh_ino (inode_of c) (fs c));
  ret ← next_inode_block;
  must_succeed ret.

Definition next_inode_block_and_reset_blockbuf : MI (Z + unit) :=
  _ ⇐ next_inode_block;
  old ← gets blockbuf;
  _ ← up (free_buf (buf old));
  _ ← modify (with_blockbuf no_buf);
  mret (inr tt).

(** ** Reading and skipping *)

Fixpoint next_inode_blocks (count : nat) : MI (Z + unit) :=
  match count with
  | O => mret (inr tt)
  | S n => _ ⇐ next_inode_block; next_inode_blocks n
  end.

(** [blockbuf.buf] freed and set to null; the offset stays. *)
Definition drop_blockbuf : MI unit :=
  b ← gets blockbuf;
  _ ← up (free_buf (buf b));
  modify (with_blockbuf (Cursor (offset_in_buf b) None)).

(** Go to the next block when the current one is used up. *)
Definition advance_if_at_end : MI (Z + unit) :=
  self ← gets fs;
  b ← gets blockbuf;
  if blocksize self <=? offset_in_buf b then next_inode_block_and_reset_blockbuf
  else mret (inr tt).

(** Skip whole blocks, at the start of a block. *)
Definition skip_whole (remaining_len : Z) : MI (Z + Z) :=
  self ← gets fs;
  b ← gets blockbuf;
  if (offset_in_buf b =? 0) && (u32 (blocksize self) <=? remaining_len) then
    count ← lift (div_ remaining_len (u32 (blocksize self)));
    _ ⇐ next_inode_blocks (Z.to_nat count);
    _ ← drop_blockbuf;
    mret (inr (u32 (remaining_len - u32 (blocksize self * count))))
  else mret (inr remaining_len).

(** An iteration of the loop of [skipread_inode]. *)
Definition skipread_step (remaining_len : Z) : MI (Z + (Z + unit)) :=
  if remaining_len =? 0 then mret (inr (inr tt))
  else
    r ← advance_if_at_end;
    match r with
    | inl e => mret (inr (inl e))
    | inr _ =>
        r ← skip_whole remaining_len;
        match r with
        | inl e => mret (inr (inl e))
        | inr remaining_len =>
            if remaining_len =? 0 then mret (inr (inr tt))
            else
              self ← gets fs;
              b ← gets blockbuf;
              _ ← massert (offset_in_buf b <? blocksize self);
              let maxlen := u32 (blocksize self - offset_in_buf b) in
              let skiplen := if maxlen <? remaining_len then maxlen else remaining_len in
              _ ← massert (negb (skiplen =? 0));
              _ ← modify (with_blockbuf (with_offset (offset_in_buf b + skiplen) b));
              mret (inl (u32 (remaining_len - skiplen)))
        end
    end.

Definition skipread_inode (len : Z) : MI (Z + unit) :=
  _ ← massert (len <=? STREAM_MAX_TRANSFER_SIZE);
  loop_m (S (Z.to_nat len)) skipread_step len.

(** [SEEK_CUR], [SEEK_END] and running into the end of the file are still to
    be done: assertions that fail. *)
Definition seek_step (remaining : Z) : MI (Z + (Z + unit)) :=
  if remaining =? 0 then mret (inr (inr tt))
  else
    let skiplen := if SIZE_MAX <? remaining then SIZE_MAX else remaining in
    _ ← massert (negb (skiplen =? 0));
    ret ← skipread_inode (u32 skiplen);
    match ret with
    | inl e => if e =? - ENOENT then throw Assert_failed else mret (inr (inl e))
    | inr _ => mret (inl (remaining - skiplen))
    end.

Definition seek_inode (offset whence : Z) : MI (Z + unit) :=
  if whence =? SEEK_SET then
    _ ← rewindinode;
    loop_m (S (S (Z.to_nat offset))) seek_step offset
  else if (whence =? SEEK_CUR) || (whence =? SEEK_END) then throw Assert_failed
  else mret (inl (- EINVAL)).

(** The destination of a read: the caller's buffer, the index of the next byte
    to store, and the number of bytes still to be read. *)
Record dest := Dest { dbuf : list Z; doff : Z; remaining : Z }.

Definition store (bs : list Z) (n : Z) (d : dest) : res dest :=
  b ← mem_write (dbuf d) (doff d) bs;
  Ok (Dest b (doff d + n) (u32 (remaining d - n))).

(** Read [contiguous_len] blocks from [last_base] into the destination; on an
    error the bytes the driver stored are there, the pointer is not moved. *)
Definition read_run (last_base contiguous_len : Z) (d : dest) : MI (dest * (Z + unit)) :=
  self ← gets fs;
  '(ret, bs) ← up (read_blocks self last_base contiguous_len);
  if ret <? 0 then
    b ← lift (mem_write (dbuf d) (doff d) bs);
    mret (Dest b (doff d) (remaining d), inl ret)
  else
    d ← lift (store bs (u32 (blocksize self * contiguous_len)) d);
    mret (d, inr tt).

(** The loop of [read_inode_blocks]: as many blocks at once as are adjacent. *)
Fixpoint read_runs (n : nat) (last_base contiguous_len : Z) (d : dest) : MI (dest * (Z + (Z * Z))) :=
  match n with
  | O => mret (d, inr (last_base, contiguous_len))
  | S n =>
      ret ← next_inode_block;
      match ret with
      | inl e => mret (d, inl e)
      | inr _ =>
          current ← gets current_block_addr;
          if negb (current =? u32 (last_base + contiguous_len)) then
            '(d, ret) ← read_run last_base contiguous_len d;
            match ret with
            | inl e => mret (d, inl e)
            | inr _ => read_runs n current 1 d
            end
          else read_runs n last_base (u32 (contiguous_len + 1)) d
      end
  end.

Definition read_inode_blocks (count : Z) (d : dest) : MI (dest * (Z + unit)) :=
  last_base ← gets current_block_addr;
  '(d, ret) ← read_runs (Z.to_nat (u32 (count - 1))) last_base 1 d;
  match ret with
  | inl e => mret (d, inl e)
  | inr (last_base, contiguous_len) =>
      '(d, ret) ← read_run last_base contiguous_len d;
      match ret with
      | inl e => mret (d, inl e)
      | inr _ =>
          _ ← drop_blockbuf;
          ret ← next_inode_block;
          match ret with
          | inl e =>
              if negb (e =? - ENOENT) || negb (remaining d =? 0) then mret (d, inl e)
              else mret (d, inr tt)
          | inr _ => mret (d, inr tt)
          end
      end
  end.

(** Have the current block in the block buffer. *)
Definition fill_blockbuf : MI (Z + unit) :=
  b ← gets blockbuf;
  match buf b with
  | Some _ => mret (inr tt)
  | None =>
      self ← gets fs;
      current ← gets current_block_addr;
      newbuf ⇐ up (readblocks_alloc self current 1);
      _ ← modify (with_blockbuf (Cursor (offset_in_buf b) (Some newbuf)));
      mret (inr tt)
  end.

(** Copy from the block buffer, as much as it has. *)
Definition copy_from_blockbuf (d : dest) : MI dest :=
  self ← gets fs;
  b ← gets blockbuf;
  _ ← massert (offset_in_buf b <? blocksize self);
  let maxlen := u32 (blocksize self - offset_in_buf b) in
  let readlen := if maxlen <? remaining d then maxlen else remaining d in
  _ ← massert (negb (readlen =? 0));
  src ← lift (bytes_at (buf b) 0);
  bs ← lift (mem_read src (offset_in_buf b) readlen);
  d ← lift (store bs readlen d);
  _ ← modify (with_blockbuf (with_offset (offset_in_buf b + readlen) b));
  mret d.

(** Read whole blocks directly, at the start of a block. *)
Definition read_whole (d : dest) : MI (dest * (Z + unit)) :=
  self ← gets fs;
  b ← gets blockbuf;
  if (offset_in_buf b =? 0) && (u32 (blocksize self) <=? remaining d) then
    blkcount ← lift (div_ (remaining d) (u32 (blocksize self)));
    read_inode_blocks blkcount d
  else mret (d, inr tt).

(** An iteration of the loop of [read_inode]. *)
Definition read_step (d : dest) : MI (dest + (dest * (Z + unit))) :=
  if remaining d =? 0 then mret (inr (d, inr tt))
  else
    r ← advance_if_at_end;
    match r with
    | inl e => mret (inr (d, inl e))
    | inr _ =>
        '(d, r) ← read_whole d;
        match r with
        | inl e => mret (inr (d, inl e))
        | inr _ =>
            if remaining d =? 0 then mret (inr (d, inr tt))
            else
              r ← fill_blockbuf;
              match r with
              | inl e => mret (inr (d, inl e))
              | inr _ => d ← copy_from_blockbuf d; mret (inl d)
              end
        end
    end.

(** [buf] is the memory of the caller's buffer. *)
Definition read_inode (buf : list Z) (len : Z) : MI (list Z * (Z + unit)) :=
  _ ← massert (len <=? STREAM_MAX_TRANSFER_SIZE);
  '(d, r) ← loop_m (S (Z.to_nat len)) read_step (Dest buf 0 len);
  mret (dbuf d, r).

(** ** Opening an inode *)

(** Run a step of an open inode. *)
Definition with_ino {A} (m : MI A) (c : ino_context) : M W (A * ino_context) := λ w,
  match m (c, w) with Ok (a, (c', w')) => Ok ((a, c'), w') | Fault f => Fault f end.

Fixpoint parse_direct (data : list Z) (offs : list Z) : res (list Z) :=
  match offs with
  | [] => Ok []
  | o :: offs =>
      p ← u32le_at (drop (Z.to_nat o) data);
      ps ← parse_direct data offs;
      Ok (p :: ps)
  end.

Definition direct_offsets : list Z := (λ i, 0x28 + 4 * Z.of_nat i) <$> seq 0 12.

Definition parse_inode (self : fscontext) (data : list Z) : res (Z + inode) :=
  typeandpermissions ← u16le_at data;
  uid ← u16le_at (drop 0x02 data);
  sizel ← u32le_at (drop 0x04 data);
  lastaccesstime ← u32le_at (drop 0x08 data);
  creationtime ← u32le_at (drop 0x0c data);
  lastmodifiedtime ← u32le_at (drop 0x10 data);
  deletiontime ← u32le_at (drop 0x14 data);
  gid ← u16le_at (drop 0x18 data);
  hardlinks ← u16le_at (drop 0x1a data);
  disksectors ← u32le_at (drop 0x1c data);
  flags ← u32le_at (drop 0x20 data);
  direct ← parse_direct data direct_offsets;
  singly ← u32le_at (drop 0x58 data);
  doubly ← u32le_at (drop 0x5c data);
  triply ← u32le_at (drop 0x60 data);
  generationnumber ← u32le_at (drop 0x64 data);
  sizeh ← (if (1 <=? major_ver (super self)) &&
              negb (Z.land (required_features_rw (v1 (super self))) RWMOUNT_FEATUREFLAG_64BIT_FILE_SIZE =? 0)
           then u32le_at (drop 0x6c data) else Ok 0);
  if negb (Z.shiftr sizeh 31 =? 0) then Ok (inl (- EINVAL))
  else
    Ok (inr (Inode (s64 (Z.lor (u64 (Z.shiftl sizeh 32)) sizel)) hardlinks disksectors direct
               singly doubly triply lastaccesstime creationtime lastmodifiedtime deletiontime
               flags generationnumber typeandpermissions uid gid)).

(** [out] is the address of the structure the inode is stored in. *)
Definition openinode (out : Z) (self : fscontext) (ino : Z) : M W (Z + ino_context) :=
  '(block_addr, offset) ⇐ locate_inode self ino;
  blkdata ⇐ readblocks_alloc self block_addr 1;
  inodedata ← lift (bytes_at (Some blkdata) offset);
  if out =? 0 then throw Bad_pointer
  else
    r ← lift (parse_inode self inodedata);
    match r with
    | inl e => _ ← heap_free_ptr (address blkdata); mret (inl e)
    | inr i =>
        '(ret, c) ← with_ino next_inode_block (fresh_ino i self);
        _ ← must_succeed ret;
        _ ← heap_free_ptr (address blkdata);
        mret (inr c)
    end.

(** ** Directories *)

Record dirent := Dirent { d_ino : Z; d_name : list Z }.

(** A [struct directory] on the heap. *)
Record directory := Directory { dir_address : Z; inocontext : ino_context }.

(** A directory entry; one that is not in use is skipped. *)
Definition read_directory_step (_ : unit) : MI (unit + (Z + dirent)) :=
  '(header, r) ← read_inode (replicate 8 0) 8;
  match r with
  | inl e => mret (inr (inl e))
  | inr _ =>
      d_ino ← lift (u32le_at header);
      entrysize ← lift (u16le_at (drop 4 header));
      namelen ← lift (rd header 6);
      namelen_high ← lift (rd header 7);
      self ← gets fs;
      if (Z.land (required_features (v1 (super self)))
            REQUIRED_FEATUREFLAG_DIRENTRY_CONTAINS_TYPE_FIELD =? 0) && negb (namelen_high =? 0)
      then mret (inr (inl (- ENAMETOOLONG)))
      else
        '(name, r) ← read_inode (replicate (Z.to_nat (NAME_MAX + 1)) 0) namelen;
        match r with
        | inl e => mret (inr (inl e))
        | inr _ =>
            let readlen := namelen + 8 in
            let skiplen := u32 (entrysize - readlen) in
            r ← skipread_inode skiplen;
            match r with
            | inl e => mret (inr (inl e))
            | inr _ =>
                if negb (d_ino =? 0) then mret (inr (inr (Dirent d_ino (s8 <$> name))))
                else mret (inl tt)
            end
        end
  end.

Definition read_directory (fuel : nat) : MI (Z + dirent) := loop_m fuel read_directory_step tt.

Definition open_directory (self : fscontext) (ino : Z) : M W (Z + directory) :=
  dir ← on_heap (heap_alloc SIZEOF_directory HEAP_FLAG_ZEROMEMORY);
  if dir =? 0 then mret (inl (- ENOMEM))
  else
    r ← openinode dir self ino;
    match r with
    | inl e => _ ← heap_free_ptr dir; mret (inl e)
    | inr c =>
        if negb (Z.land (typeandpermissions (inode_of c)) INODE_TYPE_MASK =? INODE_TYPE_DIRECTORY) then
          _ ← with_ino closeinode c;
          _ ← heap_free_ptr dir;
          mret (inl (- ENOTDIR))
        else mret (inr (Directory dir c))
    end.

Definition close_directory (self : directory) : M W unit :=
  _ ← with_ino closeinode (inocontext self);
  heap_free_ptr (dir_address self).

(** ** Path resolution *)

(** Read the entries of an open directory up to the one with this name; the
    inode number kept is the one of the last entry that was read. *)
Definition search_step (fuel : nat) (name : list Z) (current_ino : Z) : MI (Z + (Z * (Z + unit))) :=
  r ← read_directory fuel;
  match r with
  | inl e => mret (inr (current_ino, inl e))
  | inr ent =>
      c ← lift (kstrcmp name (d_name ent));
      if c =? 0 then mret (inr (d_ino ent, inr tt)) else mret (inl (d_ino ent))
  end.

Definition search_directory (fuel : nat) (name : list Z) (current_ino : Z) : MI (Z * (Z + unit)) :=
  loop_m fuel (search_step fuel name) current_ino.

Definition resolve_step (fuel : nat) (self : fscontext) (x : Z * path_reader)
    : M W (Z * path_reader + (Z + Z)) :=
  let '(current_ino, reader) := x in
  '(ret, name, reader) ← lift (pathreader_next reader);
  match name with
  | None => mret (inr (if ret =? - ENOENT then inr current_ino else inl ret))
  | Some name =>
      r ← open_directory self current_ino;
      match r with
      | inl e => mret (inr (inl e))
      | inr dir =>
          '(current_ino, r, c) ← with_ino (search_directory fuel name current_ino) (inocontext dir);
          _ ← close_directory (Directory (dir_address dir) c);
          match r with
          | inl e => mret (inr (inl e))
          | inr _ => mret (inl (current_ino, reader))
          end
      end
  end.

(** [name_buf] is what the stack holds. *)
Definition resolve_path (fuel : nat) (name_buf : list Z) (self : fscontext) (parent : Z) (path : list Z)
    : M W (Z + Z) :=
  loop_m fuel (resolve_step fuel self) (parent, pathreader_init (PathReader [] name_buf) path).

(** ** Files *)

Definition openfile (out : Z) (self : fscontext) (ino : Z) : M W (Z + ino_context) :=
  r ← openinode out self ino;
  match r with
  | inl e => if e =? - ENOENT then throw Assert_failed else mret (inl e)
  | inr c =>
      if Z.land (typeandpermissions (inode_of c)) INODE_TYPE_MASK =? INODE_TYPE_DIRECTORY then
        _ ← with_ino closeinode c;
        mret (inl (- EISDIR))
      else mret (inr c)
  end.

Definition closefile (c : ino_context) : M W unit := _ ← with_ino closeinode c; mret tt.

(** A [struct openfdcontext] on the heap. *)
Record openfdcontext := Openfdcontext {
  fd_address : Z; ino_of : ino_context; fd : file; cursorpos : Z }.

Definition fd_op_read (self : openfdcontext) (buf : list Z) (len : Z)
    : M W (Z * list Z * openfdcontext) :=
  _ ← massert (len <=? STREAM_MAX_TRANSFER_SIZE);
  let maxlen := size (inode_of (ino_of self)) - cursorpos self in
  let readlen := if maxlen <? len then u32 maxlen else len in
  '(buf, ret, c) ← with_ino (read_inode buf readlen) (ino_of self);
  match ret with
  | inl e =>
      if e =? - ENOENT then throw Assert_failed
      else mret (-1, buf, Openfdcontext (fd_address self) c (fd self) (cursorpos self))
  | inr _ => mret (s32 readlen, buf, Openfdcontext (fd_address self) c (fd self) (cursorpos self + readlen))
  end.

Definition fd_op_write (len : Z) : M W Z :=
  _ ← massert (len <=? STREAM_MAX_TRANSFER_SIZE); mret (- EIO).

Definition fd_op_seek (self : openfdcontext) (offset whence : Z) : M W (Z * openfdcontext) :=
  '(ret, c) ← with_ino (seek_inode offset whence) (ino_of self);
  let self := Openfdcontext (fd_address self) c (fd self) (cursorpos self) in
  match ret with
  | inl e => if e =? - ENOENT then throw Assert_failed else mret (e, self)
  | inr _ => mret (0, self)
  end.

Definition fd_op_close (self : openfdcontext) : M W unit :=
  _ ← vfs_unregister_file (fd self);
  _ ← closefile (ino_of self);
  heap_free_ptr (fd_address self).

(** ** Mounting *)

Definition terminate (s : list Z) : list Z :=
  match last s with
  | Some c => if c =? 0 then s else <[pred (length s) := 0]> s
  | None => s
  end.

Definition superblock_v0 : superblock_v1 :=
  SuperblockV1 0 11 128 0 0 0 0 0 0 0 0 0 (replicate 16 0) (replicate 16 0) (replicate 16 0) (replicate 64 0).

Definition parse_superblock_v1 (superblk : list Z) : res superblock_v1 :=
  first_non_reserved_inode ← u16le_at (drop 0x054 superblk);
  inode_size ← u16le_at (drop 0x058 superblk);
  block_group ← u16le_at (drop 0x05a superblk);
  optional_features ← u32le_at (drop 0x05c superblk);
  required_features ← u32le_at (drop 0x060 superblk);
  required_features_rw ← u32le_at (drop 0x064 superblk);
  filesystem_id ← mem_read superblk 0x068 16;
  volumename ← mem_read superblk 0x078 16;
  last_mount_path ← mem_read superblk 0x088 64;
  compressionalgorithms ← u32le_at (drop 0x0c8 superblk);
  preallocatefileblks ← rd superblk 0x0cc;
  preallocatedirblks ← rd superblk 0x0cd;
  journalid ← mem_read superblk 0x0d0 16;
  journalinode ← u32le_at (drop 0x0e0 superblk);
  journaldevice ← u32le_at (drop 0x0e4 superblk);
  orphaninodelisthead ← u32le_at (drop 0x0e8 superblk);
  Ok (SuperblockV1 block_group first_non_reserved_inode inode_size optional_features
        required_features required_features_rw compressionalgorithms preallocatefileblks
        preallocatedirblks journalinode journaldevice orphaninodelisthead filesystem_id
        journalid (terminate volumename) (terminate last_mount_path)).

(** The block size is a signed 32-bit integer. *)
Definition parse_superblock (superblk : list Z) : res (Z + superblock) :=
  signature ← u16le_at (drop 0x038 superblk);
  if negb (signature =? EXT2_SIGNATURE) then Ok (inl (- EINVAL))
  else
    total_inodes ← u32le_at superblk;
    total_blocks ← u32le_at (drop 0x004 superblk);
    reserved_blocks_for_su ← u32le_at (drop 0x008 superblk);
    total_unallocated_blocks ← u32le_at (drop 0x00c superblk);
    total_unallocated_inodes ← u32le_at (drop 0x010 superblk);
    superblock_block_num ← u32le_at (drop 0x014 superblk);
    blocksize_raw ← u32le_at (drop 0x018 superblk);
    if 21 <? blocksize_raw then Ok (inl (- EINVAL))
    else
      blocksize ← shl32 1024 blocksize_raw;
      blocks_in_block_group ← u32le_at (drop 0x020 superblk);
      inodes_in_block_group ← u32le_at (drop 0x028 superblk);
      last_mount_time ← u32le_at (drop 0x02c superblk);
      last_written_time ← u32le_at (drop 0x030 superblk);
      mounts_since_last_fsck ← u16le_at (drop 0x034 superblk);
      mounts_before_fsck_required ← u16le_at (drop 0x036 superblk);
      fs_state ← u16le_at (drop 0x03a superblk);
      err_action ← u16le_at (drop 0x03c superblk);
      minor_ver ← u16le_at (drop 0x03e superblk);
      last_fsck_time ← u32le_at (drop 0x040 superblk);
      fsck_interval ← u32le_at (drop 0x044 superblk);
      creator_os_id ← u32le_at (drop 0x048 superblk);
      major_ver ← u32le_at (drop 0x04c superblk);
      reserved_block_uid ← u16le_at (drop 0x050 superblk);
      reserved_block_gid ← u16le_at (drop 0x052 superblk);
      v1 ← (if 1 <=? major_ver then parse_superblock_v1 superblk else Ok superblock_v0);
      Ok (inr (Superblock superblock_block_num total_inodes total_blocks total_unallocated_blocks
                 total_unallocated_inodes reserved_blocks_for_su (s32 blocksize)
                 blocks_in_block_group inodes_in_block_group last_mount_time last_written_time
                 mounts_since_last_fsck mounts_before_fsck_required signature fs_state err_action
                 minor_ver last_fsck_time fsck_interval creator_os_id major_ver
                 reserved_block_uid reserved_block_gid v1)).

(** The rest of mounting, once the superblock is parsed: the position of the
    block group descriptors, and the features. *)
Definition check_superblock (disk : ldisk) (sb : superblock) : res (Z + fscontext) :=
  blk_group_count ← size_to_blocks (total_blocks sb) (blocks_in_block_group sb);
  _ ← size_to_blocks (total_inodes sb) (inodes_in_block_group sb);
  let blk_group_descriptor_blk := if blocksize_of_fs sb =? 1024 then 2 else 1 in
  if negb (Z.land (required_features (v1 sb)) (not32 SUPPORTED_REQUIRED_FLAGS) =? 0)
  then Ok (inl (- EINVAL))
  else if negb (Z.land (required_features_rw (v1 sb)) (not32 SUPPORTED_RWMOUNT_FLAGS) =? 0)
  then Ok (inl (- EINVAL))
  else Ok (inr (Fscontext sb disk blk_group_count blk_group_descriptor_blk)).

(** The context and the address of the [struct vfs_fscontext] inside of it. *)
Definition vfs_op_mount (disk : ldisk) : M W (Z + (Z * fscontext)) :=
  context ← on_heap (heap_alloc SIZEOF_fscontext HEAP_FLAG_ZEROMEMORY);
  let physbs := block_size (physdisk disk) in
  r ← lift (mod_ 1024 physbs);
  _ ← massert (r =? 0);
  blk ← lift (div_ 1024 physbs);
  '(ret, superblk) ← on_disk (ldisk_read_exact disk (u32 blk) (u32 blk));
  if ret <? 0 then _ ← heap_free_ptr context; mret (inl ret)
  else if context =? 0 then throw Bad_pointer
  else
    r ← lift (parse_superblock superblk);
    match r with
    | inl e => _ ← heap_free_ptr context; mret (inl e)
    | inr sb =>
        r ← lift (check_superblock disk sb);
        match r with
        | inl e => _ ← heap_free_ptr context; mret (inl e)
        | inr self =>
            _ ← new_fscontext (context + OFFSETOF_vfs_fscontext);
            mret (inr (context + OFFSETOF_vfs_fscontext, self))
        end
    end.

Definition vfs_op_umount (self : Z) : M W unit :=
  _ ← drop_fscontext self;
  heap_free_ptr (self - OFFSETOF_vfs_fscontext).

Definition vfs_op_open (fuel : nat) (name_buf : list Z) (context : Z) (self : fscontext) (path : list Z)
    : M W (Z + openfdcontext) :=
  fdcontext ← on_heap (heap_alloc SIZEOF_openfdcontext HEAP_FLAG_ZEROMEMORY);
  r ← resolve_path fuel name_buf self INODE_ROOTDIRECTORY path;
  match r with
  | inl e => _ ← heap_free_ptr fdcontext; mret (inl e)
  | inr ino =>
      r ← openfile fdcontext self ino;
      match r with
      | inl e => _ ← heap_free_ptr fdcontext; mret (inl e)
      | inr c =>
          r ← vfs_register_file context;
          match r with
          | inl e => _ ← closefile c; _ ← heap_free_ptr fdcontext; mret (inl e)
          | inr f => mret (inr (Openfdcontext fdcontext c f 0))
          end
      end
  end.

Definition vfs_op_opendir (fuel : nat) (name_buf : list Z) (self : fscontext) (path : list Z)
    : M W (Z + directory) :=
  ino ⇐ resolve_path fuel name_buf self INODE_ROOTDIRECTORY path;
  open_directory self ino.

Definition vfs_op_closedir (self : directory) : M W Z := _ ← close_directory self; mret 0.

Definition vfs_op_readdir (fuel : nat) (self : directory) : M W ((Z + dirent) * directory) :=
  '(r, c) ← with_ino (read_directory fuel) (inocontext self);
  mret (r, Directory (dir_address self) c).

End Driver.
