(* ===== verification/Ext2Block.v ===== *)
(** The blocks of an ext2 file: the memory the driver owns, the specification
    of the block map, and the block iterator of the driver as an implementation
    of it. *)
From S2P Require Import Prelude MiscMath StrUtil HeapIface Disk FsWorld Ext2.

Section Blocks.
Context {H D : Type} `{!HeapOps H} `{!HeapLaws H} `{!PdiskOps D} `{!PdiskLaws D}.
Local Abbreviation W := (world H D).
Implicit Types (w : W) (l L : list Z) (c : ino_context) (b : cursor).

(** What a failure has to be explained by: memory ran out, or the disk failed. *)
Definition reliable : Prop := HeapSucceeds H ∧ PdiskReliable D.

(** The contents of all disks. *)
Variable C : pdisk → Z → list Z.

(** A world in which the driver owns the heap blocks [l]. *)
Definition good w l : Prop :=
  contents (w_disk w) = C ∧ NoDup l ∧ ∀ p, p ∈ l → in_use (w_heap w) p.

Lemma good_perm w l l' : l ≡ₚ l' → good w l → good w l'.
Proof.
  intros Hp (Hc & Hn & Hu). split; [done|]. rewrite <- Hp. split; [done|].
  intros p Hin. apply Hu. by rewrite Hp.
Qed.

Lemma good_nonnull w l p : good w l → p ∈ l → p ≠ 0.
Proof. intros (_ & _ & Hu) Hp ->. apply (heap_null (w_heap w)). by apply Hu. Qed.

(** ** Memory *)

(** The heap block of a buffer that may be null. *)
Definition ptrs (b : option buffer) : list Z := match b with Some b => [address b] | None => [] end.

Lemma heap_alloc_ok size flags w l : good w l →
  wp (on_heap (heap_alloc size flags)) w (λ p w', w_fds w' = w_fds w ∧
    ((p = 0 ∧ ¬ reliable ∧ good w' l) ∨ (p ≠ 0 ∧ good w' (p :: l)))).
Proof.
  intros (Hc & Hn & Hu). destruct (heap_alloc_law size flags (w_heap w)) as (p & h' & Ha & Hin & Hp).
  exists p, (World h' (w_disk w) (w_fds w)). unfold on_heap. rewrite Ha. split; [done|]. split; [done|].
  destruct (decide (p = 0)) as [->|Hne].
  - left. split; [done|]. split.
    + intros [Hs _]. destruct (Hs size flags (w_heap w)) as (p & h'' & Ha' & Hne). congruence.
    + split; [done|]. split; [done|]. intros q Hq. cbn. auto.
  - right. split; [done|]. split; [done|]. destruct Hp as [|[Hnew Hp]]; [done|]. split.
    + constructor; [|done]. intros Hin'. auto.
    + intros q [->|Hq]%elem_of_cons; cbn; auto.
Qed.

Lemma heap_free_ok p w l : good w (p :: l) →
  wp (heap_free_ptr p) w (λ _ w', w_fds w' = w_fds w ∧ good w' l).
Proof.
  intros (Hc & [Hnp Hn]%NoDup_cons & Hu).
  destruct (heap_free_law p (w_heap w)) as (h' & Hf & Hin); [right; apply Hu; set_solver|].
  exists tt, (World h' (w_disk w) (w_fds w)). unfold heap_free_ptr, on_heap. rewrite Hf.
  split; [done|]. split; [done|]. split; [done|]. split; [done|].
  intros q Hq. cbn. apply Hin; [set_solver|]. apply Hu. set_solver.
Qed.

Lemma heap_free_null_ok w l : good w l →
  wp (heap_free_ptr 0) w (λ _ w', w_fds w' = w_fds w ∧ good w' l).
Proof.
  intros (Hc & Hn & Hu). destruct (heap_free_law 0 (w_heap w)) as (h' & Hf & Hin); [by left|].
  exists tt, (World h' (w_disk w) (w_fds w)). unfold heap_free_ptr, on_heap. rewrite Hf.
  split; [done|]. split; [done|]. split; [done|]. split; [done|].
  intros q Hq. cbn. apply Hin; [|by apply Hu]. intros ->. apply (heap_null (w_heap w)). auto.
Qed.

Lemma free_buf_ok o w l : good w (ptrs o ++ l) →
  wp (free_buf o) w (λ _ w', w_fds w' = w_fds w ∧ good w' l).
Proof. destruct o; [apply heap_free_ok|apply heap_free_null_ok]. Qed.

(** ** Blocks of the file system *)

(** Disk blocks to a block of the file system. *)
Definition ratio (f : fscontext) : Z := blocksize f / block_size (physdisk (disk f)).

(** The geometry of a file system: its blocks are a whole number of disk
    blocks and of block numbers, and its disk is one. *)
Definition geometry (f : fscontext) : Prop :=
  ldisk_wf (disk f) ∧ 1024 ≤ blocksize f < 2 ^ 31 ∧ (4 | blocksize f) ∧
  (block_size (physdisk (disk f)) | blocksize f).

(** The bytes of [n] blocks of the file system from [a] on. *)
Definition data (f : fscontext) (a n : Z) : list Z :=
  blocks_of (C (physdisk (disk f))) (startblockaddr (disk f) + a * ratio f) (Z.to_nat (n * ratio f)).

Definition in_range (f : fscontext) (a : Z) : Prop :=
  0 ≤ a ∧ (a + 1) * ratio f ≤ block_count (disk f).

Section Geometry.
Context (f : fscontext) (Hf : geometry f).

Lemma ratio_eq : ratio f * block_size (physdisk (disk f)) = blocksize f.
Proof using Hf.
  destruct Hf as ((Hp & _) & _ & _ & [k Hk]). unfold ratio. rewrite Hk at 1.
  rewrite Z.div_mul by lia. lia.
Qed.

Lemma ratio_pos : 0 < ratio f.
Proof using Hf. pose proof ratio_eq. destruct Hf as ((Hp & _) & Hb & _). nia. Qed.

Hypothesis HC : ∃ d : D, contents d = C.

Lemma data_length a n : 0 ≤ n → Z.of_nat (length (data f a n)) = n * blocksize f.
Proof using Hf HC.
  intros Hn. pose proof ratio_pos as Hr. pose proof ratio_eq as Hre. unfold data.
  destruct HC as [d Hd].
  rewrite (blocks_of_length _ _ _ (block_size (physdisk (disk f)))).
  - rewrite Z2Nat.id by nia. rewrite <- Hre. lia.
  - intros a'. rewrite <- Hd. apply contents_length. destruct Hf as ((Hp & _) & _). lia.
Qed.

Lemma data_bytes a n : Forall (λ x, 0 ≤ x < 256) (data f a n).
Proof using HC. destruct HC as [d Hd]. apply blocks_of_bytes. intros. rewrite <- Hd. apply contents_bytes. Qed.

Lemma blocks_of_app cs a m n : blocks_of cs a (m + n) = blocks_of cs a m ++ blocks_of cs (a + Z.of_nat m) n.
Proof.
  unfold blocks_of. rewrite seq_app, fmap_app, concat_app. f_equal. f_equal.
  replace (seq (0 + m) n) with (Nat.add m <$> seq 0 n) by (rewrite fmap_add_seq; f_equal; lia).
  rewrite <- list_fmap_compose.
  apply list_fmap_ext. intros i k _. cbn. f_equal. lia.
Qed.

Lemma data_app a m n : 0 ≤ m → 0 ≤ n → data f a (m + n) = data f a m ++ data f (a + m) n.
Proof using Hf.
  intros Hm Hn. pose proof ratio_pos as Hr. unfold data.
  replace (Z.to_nat ((m + n) * ratio f)) with (Z.to_nat (m * ratio f) + Z.to_nat (n * ratio f))%nat by nia.
  rewrite blocks_of_app. do 2 f_equal. rewrite Z2Nat.id by nia. lia.
Qed.

(** [n] blocks of the file system fit in 31 bits of bytes, and are there. *)
Lemma read_blocks_ok a n w l : good w l → 0 < n → n * blocksize f < 2 ^ 31 → 0 ≤ a →
  (a + n) * ratio f ≤ block_count (disk f) →
  wp (read_blocks f a n) w (λ r w', w_fds w' = w_fds w ∧ good w' l ∧
    Z.of_nat (length r.2) ≤ n * blocksize f ∧
    (r.1 < 0 ∧ ¬ reliable ∨ r.1 = 0 ∧ r.2 = data f a n)).
Proof using Hf.
  intros (Hc & Hn & Hu) Hn0 Hsz Ha Hr. pose proof ratio_pos as Hrp. pose proof ratio_eq as Hre.
  pose proof Hf as (Hwf & Hb & _ & [k Hk]). pose proof Hwf as (Hp & Hs & Hbc & Hw).
  unfold read_blocks. rewrite (u32_small (blocksize f)) by lia.
  unfold mod_, div_. destruct (Z.eqb_spec (block_size (physdisk (disk f))) 0); [lia|].
  rewrite Z.rem_mod_nonneg, Z.quot_div_nonneg by lia. fold (ratio f).
  apply wp_bind. eapply wp_lift; [done|]. rewrite Hk, Z.mod_mul by lia.
  apply wp_bind. apply wp_massert; [done|]. apply wp_bind. eapply wp_lift; [done|].
  assert (n * ratio f ≤ n * blocksize f) by nia.
  rewrite (u32_small (a * ratio f)), (u32_small (n * ratio f)) by nia.
  destruct (ldisk_read_exact_ok (disk f) (a * ratio f) (n * ratio f) (w_disk w)) as (r & bs & d' & Hrd & Hct & Hlen & Hout);
    [done|nia..|].
  exists (r, bs), (World (w_heap w) d' (w_fds w)). unfold on_disk. rewrite Hrd. split; [done|].
  split; [done|]. split; [split_and!; [cbn; congruence|done|done]|]. cbn [fst snd].
  split; [rewrite <- Hk, <- Hre; lia|].
  destruct Hout as [[Hneg Hrel]|[-> ->]]; [left; split; [done|]; by intros [_ ?]|right].
  split; [done|]. unfold data, ldisk_bytes. by rewrite Hc.
Qed.

Lemma readblocks_alloc_ok a w l : good w l → in_range f a →
  wp (readblocks_alloc f a 1) w (λ r w', w_fds w' = w_fds w ∧
    match r with
    | inl e => e < 0 ∧ ¬ reliable ∧ good w' l
    | inr b => good w' (address b :: l) ∧ bytes b = data f a 1
    end).
Proof using Hf.
  intros Hg [Ha Hr]. pose proof Hf as (Hwf & Hb & _). unfold readblocks_alloc, alloc_block_buf, heap_calloc, HeapIface.heap_calloc.
  apply wp_bind. rewrite (u32_small (blocksize f)) by lia.
  change (1 =? 0) with false. cbn [negb]. rewrite Z.div_1_r.
  unfold SIZE_MAX. destruct (Z.ltb_spec (2 ^ 32 - 1) (blocksize f)); [lia|].
  eapply wp_mono; [by apply heap_alloc_ok|]. cbn. intros p w1 (Hfd & [(-> & Hrel & Hg1)|(Hne & Hg1)]).
  - apply wp_bind. eapply wp_mono; [by apply heap_free_null_ok|]. cbn. intros _ w2 [Hfd2 Hg2].
    apply wp_ret. split; [congruence|]. unfold ENOMEM. split; [lia|done].
  - destruct (Z.eqb_spec p 0); [done|]. apply wp_bind.
    eapply wp_mono; [apply (read_blocks_ok a 1 w1 (p :: l) Hg1); lia|].
    intros [r bs] w2 (Hfd2 & Hg2 & Hlen & Hout). cbn [fst snd] in *.
    destruct (Z.ltb_spec r 0).
    + apply wp_bind. eapply wp_mono; [by apply heap_free_ok|]. cbn. intros _ w3 [Hfd3 Hg3].
      apply wp_ret. split; [congruence|]. split; [done|]. destruct Hout as [[_ ?]|[-> _]]; [done|lia].
    + apply wp_ret. split; [congruence|]. cbn. split; [done|]. by destruct Hout as [[? _]|[_ ->]]; [lia|].
Qed.

End Geometry.
End Blocks.
