(* ===== verification/Ext2Iter.v ===== *)
(** The block map of an ext2 inode, and the block iterator of the driver as an
    implementation of it. *)
From S2P Require Import Prelude MiscMath StrUtil HeapIface Disk FsWorld Ext2 Ext2Block.

(** ** The block map

    Where block [n] of a file is: there, past the end of the file, or behind a
    pointer the driver does not check. *)
Inductive mapped := Blk (a : Z) | Eof | Bad.

#[export] Instance mapped_eq_dec : EqDecision mapped.
Proof. solve_decision. Defined.

Definition nz (a : Z) : mapped := if a =? 0 then Eof else Blk a.

(** The [n]th 32-bit entry of a table. *)
Definition entry (bs : list Z) (n : nat) : Z :=
  match u32le_at (drop (4 * n) bs) with Ok v => v | Fault _ => 0 end.

Lemma u32le_at_entry bs n : (4 * n + 4 ≤ length bs)%nat → u32le_at (drop (4 * n) bs) = Ok (entry bs n).
Proof.
  intros Hn. unfold entry.
  assert (∃ v, u32le_at (drop (4 * n) bs) = Ok v) as [v ->]; [|done].
  unfold u32le_at. assert (Hl : (4 ≤ length (drop (4 * n) bs))%nat) by (rewrite length_drop; lia).
  revert Hl. generalize (drop (4 * n) bs). intros l Hl.
  destruct l as [|x0 [|x1 [|x2 [|x3 l]]]]; cbn in Hl; [lia..|]. by eexists.
Qed.

#[export] Instance in_range_dec f a : Decision (in_range f a).
Proof. unfold in_range. apply _. Defined.

Section Map.
Variables (C : pdisk → Z → list Z) (f : fscontext) (i : inode).

(** Entries of a table. *)
Definition P : nat := Z.to_nat (blocksize f / 4).

(** Entry [n] of the table at [t]; [zero] is what a zero entry means. *)
Definition of_table (t : mapped) (n : nat) (zero : mapped) : mapped :=
  match t with
  | Blk a =>
      if decide (in_range f a) then
        let e := entry (data C f a 1) n in if e =? 0 then zero else Blk e
      else Bad
  | t => t
  end.

(** The triply indirect table lists doubly indirect ones, up to its end. *)
Definition tri_map (n : nat) : mapped :=
  if decide (P ≤ n)%nat then Eof else of_table (nz (triplyindirecttable i)) n Bad.

(** Doubly indirect tables list singly indirect ones. *)
Definition dbl_table (t : nat) : mapped :=
  match t with O => nz (doublyindirecttable i) | S r => tri_map r end.
Definition dbl_map (n : nat) : mapped := of_table (dbl_table (n / P)) (n mod P) Eof.

(** Singly indirect tables list blocks of the file; the driver does not notice
    an empty one. *)
Definition sgl_table (t : nat) : mapped :=
  match t with O => nz (singly_indirect_table i) | S r => dbl_map r end.
Definition sgl_map (n : nat) : mapped :=
  of_table (sgl_table (n / P)) (n mod P) (if decide (n mod P = 0)%nat then Bad else Eof).

Definition block_map (k : nat) : mapped :=
  if decide (k < 12)%nat then nz (nth k (direct_block_ptrs i) 0) else sgl_map (k - 12).
End Map.

(** ** Reasoning about steps of an open inode *)
Section Steps.
Context {H D : Type} `{!HeapOps H} `{!PdiskOps D}.
Local Abbreviation W := (world H D).
Local Abbreviation MI A := (M (ino_context * W) A).

Lemma wp_gets {A} (g : ino_context → A) c (w : W) Q : Q (g c) (c, w) → wp (gets g) (c, w) Q.
Proof. intros HQ. by exists (g c), (c, w). Qed.
Lemma wp_modify (g : ino_context → ino_context) c (w : W) Q :
  Q tt (g c, w) → wp (modify g) (c, w) Q.
Proof. intros HQ. by exists tt, (g c, w). Qed.
Lemma wp_up {A} (m : M W A) c (w : W) (Q : A → ino_context * W → Prop) :
  wp m w (λ a w', Q a (c, w')) → wp (up m : MI A) (c, w) Q.
Proof.
  intros (a & w' & Hm & HQ). exists a, (c, w'). unfold up. cbn. by rewrite Hm.
Qed.
Lemma wp_with_ino {A} (m : MI A) c (w : W) (Q : A * ino_context → W → Prop) :
  wp m (c, w) (λ a s', Q (a, s'.1) s'.2) → wp (with_ino m c) w Q.
Proof.
  intros (a & [c' w'] & Hm & HQ). exists (a, c'), w'. unfold with_ino. by rewrite Hm.
Qed.
End Steps.

(** Steps of a [wp] goal that need no choice. *)
Ltac wp_run :=
  repeat lazymatch goal with
  | |- wp (mbind _ (gets _)) _ _ => apply wp_bind, wp_gets; cbn beta
  | |- wp (mbind _ (modify _)) _ _ => apply wp_bind, wp_modify; cbn beta
  | |- wp (mret _) _ _ => apply wp_ret; cbn beta
  | |- wp (try_ (mret _) _) _ _ => apply wp_try, wp_ret; cbn beta iota
  | |- wp (mbind _ (mret _)) _ _ => apply wp_bind, wp_ret; cbn beta iota
  end.

(** ** The state of the iterator *)
Section Iter.
Context {H D : Type} `{!HeapOps H} `{!HeapLaws H} `{!PdiskOps D} `{!PdiskLaws D}.
Local Abbreviation W := (world H D).
Implicit Types (w : W) (L : list Z) (c : ino_context) (b : cursor).
Variables (C : pdisk → Z → list Z) (f : fscontext) (i : inode).
Hypothesis (Hf : geometry f).

Local Abbreviation P := (P f).
Local Abbreviation good := (good C (H:=H) (D:=D)).
Local Abbreviation reliable := (reliable (H:=H) (D:=D)).

Lemma P_eq : 4 * Z.of_nat P = blocksize f.
Proof using Hf.
  clear C i. destruct Hf as (_ & Hb & [k Hk] & _). unfold Ext2Iter.P. rewrite Z2Nat.id by dlia. dlia.
Qed.
Lemma P_pos : (0 < P)%nat.
Proof using Hf. pose proof P_eq. destruct Hf as (_ & Hb & _). lia. Qed.

(** [b] has the entry after the first [n] of the tables [tab] still to be read,
    the table being there. *)
Definition positioned b (tab : nat → mapped) (n : nat) : Prop :=
  ∃ a bb, tab (n / P)%nat = Blk a ∧ in_range f a ∧ buf b = Some bb ∧
    bytes bb = data C f a 1 ∧ offset_in_buf b = 4 * Z.of_nat (n mod P).

(** [b] has read [n] entries of the tables [tab]. *)
Definition consumed b (tab : nat → mapped) (n : nat) : Prop :=
  match n with
  | O => buf b = None
  | S m => ∃ a bb, tab (m / P)%nat = Blk a ∧ in_range f a ∧ buf b = Some bb ∧
      bytes bb = data C f a 1 ∧ offset_in_buf b = 4 * Z.of_nat (m mod P) + 4
  end.

Lemma div_mod_succ m : if decide (S m mod P = 0)%nat then (S m / P = S (m / P) ∧ S (m mod P) = P)%nat
                       else (S m / P = m / P ∧ S m mod P = S (m mod P))%nat.
Proof using Hf.
  pose proof P_pos as HP.
  pose proof (Nat.div_mod_eq m P) as E. pose proof (Nat.mod_upper_bound m P ltac:(lia)) as B.
  destruct (decide (S (m mod P) = P)) as [Hl|Hl].
  - assert (S m / P = S (m / P))%nat as Hd by (symmetry; apply (Nat.div_unique _ _ _ 0); nia).
    assert (S m mod P = 0)%nat as -> by (symmetry; apply (Nat.mod_unique _ _ (S (m / P))); nia).
    by rewrite decide_True.
  - assert (S m / P = m / P)%nat as Hd by (symmetry; apply (Nat.div_unique _ _ _ (S (m mod P))); nia).
    assert (S m mod P = S (m mod P))%nat as Hm by (symmetry; apply (Nat.mod_unique _ _ (m / P)); nia).
    rewrite Hm. by rewrite decide_False.
Qed.

Lemma consumed_exhausted b tab n : consumed b tab n → exhausted f b = bool_decide (n mod P = 0)%nat.
Proof using Hf.
  pose proof P_eq as HPe. pose proof P_pos as HP. destruct n as [|m]; cbn; unfold exhausted.
  - intros ->. symmetry. apply bool_decide_eq_true. by apply Nat.Div0.mod_0_l.
  - intros (a & bb & _ & _ & -> & _ & ->). pose proof (div_mod_succ m) as Hs.
    case_decide as Hd; destruct Hs as [_ Hs].
    + rewrite bool_decide_true by done. apply Z.leb_le. lia.
    + rewrite bool_decide_false by done. apply Z.leb_gt.
      pose proof (Nat.mod_upper_bound (S m) P ltac:(lia)). lia.
Qed.

Lemma consumed_positioned b tab n : consumed b tab n → (n mod P ≠ 0)%nat → positioned b tab n.
Proof using Hf.
  destruct n as [|m]; cbn; [intros _ Hn; destruct Hn; by apply Nat.Div0.mod_0_l|].
  intros (a & bb & Ht & Hr & Hb & Hd & Ho) Hn. pose proof (div_mod_succ m) as Hs.
  rewrite decide_False in Hs by done. destruct Hs as [Hs1 Hs2].
  exists a, bb. rewrite Hs1, Hs2. split_and!; [done..|]. lia.
Qed.

Lemma positioned_next b tab n : positioned b tab n → consumed (with_offset (offset_in_buf b + 4) b) tab (S n).
Proof. intros (a & bb & ? & ? & ? & ? & Ho). exists a, bb. cbn. rewrite Ho. split_and!; done || lia. Qed.

Lemma fresh_positioned tab n a bb : (n mod P = 0)%nat → tab (n / P)%nat = Blk a → in_range f a →
  bytes bb = data C f a 1 → positioned (Cursor 0 (Some bb)) tab n.
Proof. intros Hn Ht Hr Hb. exists a, bb. rewrite Hn. done. Qed.

(** What is read at the position. *)
Lemma positioned_read b tab n zero : (∃ w l, good w l) → positioned b tab n → ∃ bs,
  bytes_at (buf b) (offset_in_buf b) = Ok bs ∧ ∃ e, u32le_at bs = Ok e ∧
  of_table C f (tab (n / P)%nat) (n mod P) zero = if e =? 0 then zero else Blk e.
Proof using Hf.
  intros (w & l & Hg & _) (a & bb & Ht & Hr & -> & Hd & ->). cbn.
  destruct (Z.ltb_spec (4 * Z.of_nat (n mod P)) 0); [lia|].
  eexists. split; [done|]. pose proof P_pos as HP. pose proof P_eq as HPe.
  pose proof (Nat.mod_upper_bound n P ltac:(lia)) as Hm.
  replace (Z.to_nat (4 * Z.of_nat (n mod P))) with (4 * (n mod P))%nat by lia.
  exists (entry (bytes bb) (n mod P)). split.
  - apply u32le_at_entry. assert (Hl : Z.of_nat (length (bytes bb)) = 1 * blocksize f)
      by (rewrite Hd; apply data_length; [done|by eexists|lia]). lia.
  - rewrite Ht. cbn. rewrite decide_True by done. by rewrite Hd.
Qed.

(** The fields of an open inode a level of the iterator leaves alone. *)
Definition outside_tri c : ino_context :=
  with_triply no_buf (with_used (singly_indirect_used c) (doubly_indirect_used c) false c).
Definition outside_dbl c : ino_context :=
  with_doubly no_buf (with_used (singly_indirect_used c) false false (outside_tri c)).
Definition outside_sgl c : ino_context :=
  with_singly no_buf (with_used false false false (outside_dbl c)).

Lemma outside_tri_dbl c c' : outside_tri c' = outside_tri c → outside_dbl c' = outside_dbl c.
Proof. unfold outside_dbl. intros E. pose proof (f_equal singly_indirect_used E) as Eu. cbn in Eu. by rewrite E, Eu. Qed.
Lemma outside_dbl_sgl c c' : outside_dbl c' = outside_dbl c → outside_sgl c' = outside_sgl c.
Proof. unfold outside_sgl. by intros ->. Qed.

(** The inode and file system the iterator is for. *)
Definition base c : Prop := fs c = f ∧ inode_of c = i.

Lemma outside_base c c' : outside_sgl c' = outside_sgl c → base c → base c'.
Proof.
  intros E [Hfs Hi]. split; [rewrite <- Hfs; exact (f_equal fs E)|rewrite <- Hi; exact (f_equal inode_of E)].
Qed.

(** The outcome of a step that was to find [lk]. *)
Definition failed (lk : mapped) (e : Z) : Prop := e < 0 ∧ (¬ reliable ∨ lk = Eof ∧ e = - ENOENT).

Definition tri_at c n : Prop :=
  triply_indirect_used c = negb (n =? 0)%nat ∧ (n ≤ P)%nat ∧
  consumed (triply_indirect_buf c) (λ _, nz (triplyindirecttable i)) n.

Definition upstream (n : nat) : nat := match n with O => O | S m => (m / P)%nat end.

Definition dbl_at c n : Prop :=
  doubly_indirect_used c = negb (n =? 0)%nat ∧
  consumed (doubly_indirect_buf c) (dbl_table C f i) n ∧ tri_at c (upstream n).

Definition sgl_at c n : Prop :=
  singly_indirect_used c = negb (n =? 0)%nat ∧
  consumed (singly_indirect_buf c) (sgl_table C f i) n ∧ dbl_at c (upstream n).

Lemma upstream_next n : (n mod P ≠ 0)%nat → upstream (S n) = upstream n.
Proof using Hf.
  destruct n as [|m]; intros Hn; [destruct Hn; by apply Nat.Div0.mod_0_l|]. cbn.
  pose proof (div_mod_succ m) as Hs. rewrite decide_False in Hs by done. apply Hs.
Qed.

Lemma upstream_step n : (n ≠ 0)%nat → (n mod P = 0)%nat → (n / P)%nat = S (upstream n).
Proof using Hf.
  destruct n as [|m]; intros Hne Hn; [done|]. cbn.
  pose proof (div_mod_succ m) as Hs. rewrite decide_True in Hs by done. apply Hs.
Qed.

(** The table of an entry that is not [Bad]. *)
Lemma of_table_inv t n zero : of_table C f t n zero ≠ Bad →
  t = Eof ∧ of_table C f t n zero = Eof ∨ ∃ a, t = Blk a ∧ in_range f a.
Proof. destruct t as [a| |]; cbn; [|by left|done]. case_decide; [right; by eexists|done]. Qed.

Ltac frames := first [reflexivity | by match goal with E : _ = _ |- _ => exact E end].

(** The two ways a level changes its table: a new one, or none. *)
Lemma replace_ok {B} (get : ino_context → cursor) (k : buffer → M (ino_context * W) (Z + B)) c w a L Q :
  good w (ptrs (buf (get c)) ++ L) → in_range f a →
  (∀ e w', e < 0 → ¬ reliable → w_fds w' = w_fds w → good w' (ptrs (buf (get c)) ++ L) → Q (inl e) (c, w')) →
  (∀ bb w', bytes bb = data C f a 1 → w_fds w' = w_fds w → good w' (address bb :: L) →
     wp (k bb) (c, w') Q) →
  wp (newtable ⇐ up (readblocks_alloc f a 1);
      old ← gets get; _ ← up (free_buf (buf old)); k newtable) (c, w) Q.
Proof using Hf.
  intros Hg Hr He Hk. apply wp_try, wp_up. eapply wp_mono; [by apply readblocks_alloc_ok|].
  cbn. intros [e|bb] w1 [Hfd H1].
  - destruct H1 as (He1 & Hrel & Hg1). auto.
  - destruct H1 as [Hg1 Hbb]. wp_run. apply wp_bind, wp_up.
    eapply wp_mono; [apply (free_buf_ok C _ _ (address bb :: L))|].
    { eapply good_perm; [|done]. by rewrite Permutation_middle. }
    cbn. intros _ w2 [Hfd2 Hg2]. apply Hk; [done|congruence|done].
Qed.

Lemma release_ok {B} (get : ino_context → cursor) (k : M (ino_context * W) B) c w L Q :
  good w (ptrs (buf (get c)) ++ L) →
  (∀ w', w_fds w' = w_fds w → good w' L → wp k (c, w') Q) →
  wp (old ← gets get; _ ← up (free_buf (buf old)); k) (c, w) Q.
Proof using Type.
  intros Hg Hk. wp_run. apply wp_bind, wp_up. eapply wp_mono; [by apply free_buf_ok|].
  cbn. intros _ w1 [Hfd Hg1]. by apply Hk.
Qed.

Lemma failed_eof lk : lk = Eof → failed lk (- ENOENT).
Proof using Type. intros ->. unfold failed, ENOENT. split; [lia|]. by right. Qed.

(** A pointer that is not [Bad] is zero or leads to a table. *)
Lemma nz_table a n zero : of_table C f (nz a) n zero ≠ Bad →
  a = 0 ∧ of_table C f (nz a) n zero = Eof ∨ a ≠ 0 ∧ nz a = Blk a ∧ in_range f a.
Proof using Type.
  intros Hb. destruct (of_table_inv _ _ _ Hb) as [[Hz ?]|(a' & Ha & Hr)];
    unfold nz in *; destruct (Z.eqb_spec a 0); naive_solver.
Qed.

Lemma tri_fetch c w n L : base c → tri_at c n → (n mod P = 0)%nat → tri_map C f i n ≠ Bad →
  good w (ptrs (buf (triply_indirect_buf c)) ++ L) →
  wp next_triply_indirect_table (c, w) (λ r s, outside_tri s.1 = outside_tri c ∧ w_fds s.2 = w_fds w ∧
    good s.2 (ptrs (buf (triply_indirect_buf s.1)) ++ L) ∧
    match r with
    | inl e => failed (tri_map C f i n) e
    | inr _ => positioned (triply_indirect_buf s.1) (λ _, nz (triplyindirecttable i)) n ∧ (n < P)%nat
    end).
Proof using Hf.
  intros [Hfs Hi] (Hu & Hle & Hc) Hn Hnb Hg. pose proof P_pos as HP.
  unfold next_triply_indirect_table. wp_run. rewrite Hu. destruct n as [|m]; cbn [Nat.eqb negb].
  - wp_run. unfold tri_map in *. rewrite decide_False in Hnb |- * by lia. cbn [compose]. rewrite Hi.
    destruct (nz_table _ _ _ Hnb) as [[-> ->]|(Hne & Hz & Hr)].
    + cbn [Z.eqb]. eapply release_ok; [done|]. intros w1 Hfd Hg1. wp_run.
      split_and!; [frames|done..|]. by apply failed_eof.
    + destruct (Z.eqb_spec (triplyindirecttable i) 0); [done|]. wp_run. rewrite Hfs. eapply replace_ok; [done|done|..].
      * intros e w1 He Hrel Hfd Hg1. split_and!; [done..|]. split; [done|]. by left.
      * intros bb w1 Hbb Hfd Hg1. wp_run. split_and!; [frames|done|done| |lia].
        by eapply fresh_positioned.
  - wp_run. split_and!; [done..|]. apply failed_eof. unfold tri_map.
    destruct (decide (P ≤ S m)%nat) as [|Hlt]; [done|].
    rewrite Nat.mod_small in Hn by lia. lia.
Qed.

Lemma tri_ok c w n L : base c → tri_at c n → tri_map C f i n ≠ Bad →
  good w (ptrs (buf (triply_indirect_buf c)) ++ L) →
  wp next_triply_block_ptr (c, w) (λ r s, outside_tri s.1 = outside_tri c ∧ w_fds s.2 = w_fds w ∧
    good s.2 (ptrs (buf (triply_indirect_buf s.1)) ++ L) ∧
    match r with
    | inl e => failed (tri_map C f i n) e
    | inr a => tri_map C f i n = Blk a ∧ tri_at s.1 (S n)
    end).
Proof using Hf.
  intros Hb Ht Hnb Hg. pose proof Ht as (Hu & Hle & Hc). pose proof P_pos as HP.
  unfold next_triply_block_ptr. wp_run. destruct Hb as [Hfs Hi]. rewrite Hfs.
  rewrite (consumed_exhausted _ _ _ Hc). apply wp_try.
  apply (wp_mono _ _ (λ r s, outside_tri s.1 = outside_tri c ∧ w_fds s.2 = w_fds w ∧
    good s.2 (ptrs (buf (triply_indirect_buf s.1)) ++ L) ∧
    match r with
    | inl e => failed (tri_map C f i n) e
    | inr _ => positioned (triply_indirect_buf s.1) (λ _, nz (triplyindirecttable i)) n ∧ (n < P)%nat
    end)).
  { case_bool_decide; [by apply tri_fetch|]. wp_run. split_and!; [done..| |]; [by apply consumed_positioned|].
    apply Nat.le_neq. split; [done|]. intros ->. by rewrite Nat.Div0.mod_same in *. }
  intros [e|[]] [c1 w1]; cbn [fst snd]; [done|]. intros (Hfr & Hfd & Hg1 & Hp & Hlt). wp_run.
  destruct (positioned_read _ _ _ Bad ltac:(by eexists _, _) Hp) as (bs & Hbs & e & He & Hm).
  cbn. apply wp_bind. eapply wp_lift; [done|]. apply wp_bind. eapply wp_lift; [done|]. wp_run.
  unfold tri_map in *. rewrite decide_False in Hnb |- * by lia. rewrite Nat.mod_small in Hm by done.
  rewrite Hm in Hnb |- *. destruct (Z.eqb_spec e 0); [done|].
  split_and!; [frames|done..|]. split; [done|]. split; [cbn; lia|by apply positioned_next].
Qed.

(** The levels above: the doubly and the singly indirect tables. *)
Lemma dbl_fetch c w n L : base c → dbl_at c n → (n mod P = 0)%nat → dbl_map C f i n ≠ Bad →
  good w (ptrs (buf (doubly_indirect_buf c)) ++ ptrs (buf (triply_indirect_buf c)) ++ L) →
  wp next_doubly_indirect_table (c, w) (λ r s, outside_dbl s.1 = outside_dbl c ∧ w_fds s.2 = w_fds w ∧
    good s.2 (ptrs (buf (doubly_indirect_buf s.1)) ++ ptrs (buf (triply_indirect_buf s.1)) ++ L) ∧
    match r with
    | inl e => failed (dbl_map C f i n) e
    | inr _ => doubly_indirect_used s.1 = true ∧ positioned (doubly_indirect_buf s.1) (dbl_table C f i) n ∧
        tri_at s.1 (upstream (S n))
    end).
Proof using Hf.
  intros [Hfs Hi] (Hu & Hc & Ht) Hn Hnb Hg. unfold next_doubly_indirect_table. wp_run. rewrite Hu.
  apply wp_bind.
  apply (wp_mono _ _ (λ r s, outside_dbl s.1 = outside_dbl c ∧ w_fds s.2 = w_fds w ∧
    good s.2 (ptrs (buf (doubly_indirect_buf s.1)) ++ ptrs (buf (triply_indirect_buf s.1)) ++ L) ∧
    doubly_indirect_used s.1 = true ∧
    match r with
    | inl e => failed (dbl_map C f i n) e
    | inr a => dbl_table C f i (n / P) = Blk a ∧ in_range f a ∧ tri_at s.1 (upstream (S n))
    end)).
  { unfold dbl_map in *. rewrite Hn in Hnb |- *. destruct n as [|m]; cbn [Nat.eqb negb].
    - wp_run. rewrite Nat.Div0.div_0_l in *. cbn [compose dbl_table] in *. rewrite Hi.
      destruct (nz_table _ _ _ Hnb) as [[-> ->]|(Hne & Hz & Hr)].
      + cbn [Z.eqb]. wp_run. split_and!; [frames|done..|]. by apply failed_eof.
      + destruct (Z.eqb_spec (doublyindirecttable i) 0); [done|]. wp_run.
        split_and!; [frames|done..|]. cbn. by rewrite Nat.Div0.div_0_l.
    - rewrite upstream_step in Hnb |- * by done. cbn [dbl_table] in *.
      eapply wp_mono; [apply (tri_ok c w (upstream (S m)) (ptrs (buf (doubly_indirect_buf c)) ++ L)); [done..| |]|].
      { intros E. rewrite E in Hnb. done. }
      { eapply good_perm; [apply Permutation_app_swap_app|done]. }
      intros r [c1 w1]; cbn [fst snd]. intros (Hfr & Hfd & Hg1 & Hr).
      pose proof (f_equal doubly_indirect_buf Hfr) as Hdb. cbn in Hdb.
      pose proof (f_equal doubly_indirect_used Hfr) as Hdu. cbn in Hdu.
      split_and!; [by apply outside_tri_dbl|done| |by rewrite Hdu|].
      { rewrite Hdb. eapply good_perm; [apply Permutation_app_swap_app|done]. }
      destruct r as [e|a].
      + destruct Hr as [He [Hrel|[Hz Hr]]]; (split; [done|]); [by left|right]. by rewrite Hz.
      + destruct Hr as [Hz Ht1]. rewrite Hz in Hnb |- *.
        destruct (of_table_inv _ _ _ Hnb) as [[? _]|(a' & [= <-] & Hr)]; [done|].
        split_and!; [done..|]. cbn. by rewrite upstream_step. }
  intros [e|a] [c1 w1]; cbn [fst snd]; intros (Hfr & Hfd & Hg1 & Hu1 & Hr).
  - eapply release_ok; [done|]. intros w2 Hfd2 Hg2. wp_run. split_and!; [frames|cbn; congruence|done..].
  - destruct Hr as (Ha & Hr & Ht1). wp_run.
    destruct (outside_base c c1) as [Hfs1 _]; [by apply outside_dbl_sgl|done|]. rewrite Hfs1.
    eapply replace_ok; [done|done|..].
    + intros e w2 He Hrel Hfd2 Hg2. split_and!; [done|cbn; congruence|done|]. split; [done|]. by left.
    + intros bb w2 Hbb Hfd2 Hg2. wp_run. split_and!; [frames|cbn; congruence|done|done| |done].
      by eapply fresh_positioned.
Qed.

Lemma dbl_ok c w n L : base c → dbl_at c n → dbl_map C f i n ≠ Bad →
  good w (ptrs (buf (doubly_indirect_buf c)) ++ ptrs (buf (triply_indirect_buf c)) ++ L) →
  wp next_doubly_block_ptr (c, w) (λ r s, outside_dbl s.1 = outside_dbl c ∧ w_fds s.2 = w_fds w ∧
    good s.2 (ptrs (buf (doubly_indirect_buf s.1)) ++ ptrs (buf (triply_indirect_buf s.1)) ++ L) ∧
    match r with
    | inl e => failed (dbl_map C f i n) e
    | inr a => dbl_map C f i n = Blk a ∧ dbl_at s.1 (S n)
    end).
Proof using Hf.
  intros Hb Hd Hnb Hg. pose proof Hd as (Hu & Hc & Ht).
  unfold next_doubly_block_ptr. wp_run. destruct Hb as [Hfs Hi]. rewrite Hfs.
  rewrite (consumed_exhausted _ _ _ Hc). apply wp_try.
  apply (wp_mono _ _ (λ r s, outside_dbl s.1 = outside_dbl c ∧ w_fds s.2 = w_fds w ∧
    good s.2 (ptrs (buf (doubly_indirect_buf s.1)) ++ ptrs (buf (triply_indirect_buf s.1)) ++ L) ∧
    match r with
    | inl e => failed (dbl_map C f i n) e
    | inr _ => doubly_indirect_used s.1 = true ∧ positioned (doubly_indirect_buf s.1) (dbl_table C f i) n ∧
        tri_at s.1 (upstream (S n))
    end)).
  { case_bool_decide as Hn; [by apply dbl_fetch|]. wp_run. split_and!; [done..| | |].
    - cbn. rewrite Hu. destruct n; [by rewrite Nat.Div0.mod_0_l in Hn|done].
    - by apply consumed_positioned.
    - by rewrite upstream_next. }
  intros [e|[]] [c1 w1]; cbn [fst snd]; [done|]. intros (Hfr & Hfd & Hg1 & Hu1 & Hp & Ht1). wp_run.
  destruct (positioned_read _ _ _ Eof ltac:(by eexists _, _) Hp) as (bs & Hbs & e & He & Hm).
  cbn. apply wp_bind. eapply wp_lift; [done|]. apply wp_bind. eapply wp_lift; [done|]. wp_run.
  unfold dbl_map in *. rewrite Hm. destruct (Z.eqb_spec e 0) as [->|Hne]; wp_run; (split_and!; [frames|done|done|..]).
  - by apply failed_eof.
  - done.
  - split; [done|]. split; [by apply positioned_next|done].
Qed.

Lemma sgl_fetch c w n L : base c → sgl_at c n → (n mod P = 0)%nat → sgl_map C f i n ≠ Bad →
  good w (ptrs (buf (singly_indirect_buf c)) ++ ptrs (buf (doubly_indirect_buf c)) ++
          ptrs (buf (triply_indirect_buf c)) ++ L) →
  wp next_singly_indirect_table (c, w) (λ r s, outside_sgl s.1 = outside_sgl c ∧ w_fds s.2 = w_fds w ∧
    good s.2 (ptrs (buf (singly_indirect_buf s.1)) ++ ptrs (buf (doubly_indirect_buf s.1)) ++
              ptrs (buf (triply_indirect_buf s.1)) ++ L) ∧
    match r with
    | inl e => failed (sgl_map C f i n) e
    | inr _ => singly_indirect_used s.1 = true ∧ positioned (singly_indirect_buf s.1) (sgl_table C f i) n ∧
        dbl_at s.1 (upstream (S n))
    end).
Proof using Hf.
  intros [Hfs Hi] (Hu & Hc & Hd) Hn Hnb Hg. unfold next_singly_indirect_table. wp_run. rewrite Hu.
  apply wp_bind.
  apply (wp_mono _ _ (λ r s, outside_sgl s.1 = outside_sgl c ∧ w_fds s.2 = w_fds w ∧
    good s.2 (ptrs (buf (singly_indirect_buf s.1)) ++ ptrs (buf (doubly_indirect_buf s.1)) ++
              ptrs (buf (triply_indirect_buf s.1)) ++ L) ∧
    match r with
    | inl e => failed (sgl_map C f i n) e
    | inr a => sgl_table C f i (n / P) = Blk a ∧ in_range f a ∧ dbl_at s.1 (upstream (S n))
    end)).
  { unfold sgl_map in *. rewrite Hn in Hnb |- *. rewrite decide_True in Hnb |- * by done.
    destruct n as [|m]; cbn [Nat.eqb negb].
    - wp_run. rewrite Nat.Div0.div_0_l in *. cbn [compose sgl_table] in *. rewrite Hi.
      destruct (nz_table _ _ _ Hnb) as [[-> ->]|(Hne & Hz & Hr)].
      + cbn [Z.eqb]. wp_run. split_and!; [frames|done..|]. by apply failed_eof.
      + destruct (Z.eqb_spec (singly_indirect_table i) 0); [done|]. wp_run.
        split_and!; [frames|done..|]. cbn. by rewrite Nat.Div0.div_0_l.
    - rewrite upstream_step in Hnb |- * by done. cbn [sgl_table] in *.
      eapply wp_mono; [apply (dbl_ok c w (upstream (S m)) (ptrs (buf (singly_indirect_buf c)) ++ L)); [done..| |]|].
      { intros E. rewrite E in Hnb. done. }
      { eapply good_perm; [|done]. solve_Permutation. }
      intros r [c1 w1]; cbn [fst snd]. intros (Hfr & Hfd & Hg1 & Hr).
      pose proof (f_equal singly_indirect_buf Hfr) as Hdb. cbn in Hdb.
      split_and!; [by apply outside_dbl_sgl|done| |].
      { rewrite Hdb. eapply good_perm; [|done]. solve_Permutation. }
      destruct r as [e|a].
      + destruct Hr as [He [Hrel|[Hz Hr]]]; (split; [done|]); [by left|right]. by rewrite Hz.
      + destruct Hr as [Hz Ht1]. rewrite Hz in Hnb |- *.
        destruct (of_table_inv _ _ _ Hnb) as [[? _]|(a' & [= <-] & Hr)]; [done|].
        split_and!; [done..|]. cbn. by rewrite upstream_step. }
  intros [e|a] [c1 w1]; cbn [fst snd]; intros (Hfr & Hfd & Hg1 & Hr).
  - eapply release_ok; [done|]. intros w2 Hfd2 Hg2. wp_run.
    split_and!; [frames|cbn; congruence|done..|]. destruct Hr as [He [Hrel|[-> ->]]].
    + split; [unfold ENOENT; lia|by left].
    + by apply failed_eof.
  - destruct Hr as (Ha & Hr & Ht1). wp_run.
    destruct (outside_base c c1) as [Hfs1 _]; [done..|]. rewrite Hfs1.
    eapply replace_ok; [done|done|..].
    + intros e w2 He Hrel Hfd2 Hg2. split_and!; [done|cbn; congruence|done|]. split; [done|]. by left.
    + intros bb w2 Hbb Hfd2 Hg2. wp_run. split_and!; [frames|cbn; congruence|done|done| |done].
      by eapply fresh_positioned.
Qed.

(** The heap blocks of the tables of an open inode. *)
Definition tables c : list Z :=
  ptrs (buf (singly_indirect_buf c)) ++ ptrs (buf (doubly_indirect_buf c)) ++
  ptrs (buf (triply_indirect_buf c)).

Lemma good_tables w c L : good w (tables c ++ L) ↔
  good w (ptrs (buf (singly_indirect_buf c)) ++ ptrs (buf (doubly_indirect_buf c)) ++
          ptrs (buf (triply_indirect_buf c)) ++ L).
Proof using Type. unfold tables. by rewrite <- !(assoc_L (++)). Qed.

Lemma sgl_ok c w n L addr_out : base c → sgl_at c n → sgl_map C f i n ≠ Bad →
  good w (tables c ++ L) →
  wp (next_singly_block_ptr addr_out) (c, w) (λ r s, outside_sgl s.1 = outside_sgl c ∧
    w_fds s.2 = w_fds w ∧ good s.2 (tables s.1 ++ L) ∧
    match r with
    | inl e => failed (sgl_map C f i n) e
    | inr a => sgl_map C f i n = Blk a ∧ sgl_at s.1 (S n)
    end).
Proof using Hf.
  intros Hb Hs Hnb Hg. pose proof Hs as (Hu & Hc & Hd). rewrite good_tables in Hg.
  unfold next_singly_block_ptr. wp_run. destruct Hb as [Hfs Hi]. rewrite Hfs.
  rewrite (consumed_exhausted _ _ _ Hc). apply wp_try.
  apply (wp_mono _ _ (λ r s, outside_sgl s.1 = outside_sgl c ∧ w_fds s.2 = w_fds w ∧
    good s.2 (tables s.1 ++ L) ∧
    match r with
    | inl e => failed (sgl_map C f i n) e
    | inr _ => singly_indirect_used s.1 = true ∧ positioned (singly_indirect_buf s.1) (sgl_table C f i) n ∧
        dbl_at s.1 (upstream (S n))
    end)).
  { case_bool_decide as Hn.
    - eapply wp_mono; [by apply sgl_fetch|]. cbn beta. intros r s'. by rewrite good_tables.
    - wp_run. cbn [fst snd]. rewrite good_tables. split_and!; [done..| | |].
      + rewrite Hu. destruct n; [by rewrite Nat.Div0.mod_0_l in Hn|done].
      + by apply consumed_positioned.
      + by rewrite upstream_next. }
  intros [e|[]] [c1 w1]; cbn [fst snd]; [done|]. intros (Hfr & Hfd & Hg1 & Hu1 & Hp & Ht1). wp_run.
  destruct (positioned_read _ _ _ (if decide (n mod P = 0)%nat then Bad else Eof) ltac:(by eexists _, _) Hp)
    as (bs & Hbs & e & He & Hm).
  cbn. apply wp_bind. eapply wp_lift; [done|]. apply wp_bind. eapply wp_lift; [done|].
  unfold sgl_map in *. rewrite Hm in Hnb |- *. destruct (Z.eqb_spec e 0) as [E|Hne]; [subst e|]; wp_run.
  - case_decide; [done|]. rewrite bool_decide_false by done. split_and!; [done..|]. by apply failed_eof.
  - split_and!; [frames|done..|]. split; [done|]. split; [by apply positioned_next|done].
Qed.

(** The iterator has returned [k] blocks. *)
Definition iter_at c (k : nat) : Prop :=
  next_direct_ptr_index c = Z.of_nat (min k 12) ∧ sgl_at c (k - 12).

(** What the iterator leaves alone. *)
Definition outside_iter c : inode * fscontext * cursor := (inode_of c, fs c, blockbuf c).

Lemma outside_sgl_iter c c' : outside_sgl c' = outside_sgl c → outside_iter c' = outside_iter c.
Proof using Type.
  intros E. unfold outside_iter.
  pose proof (f_equal inode_of E) as E1. pose proof (f_equal fs E) as E2.
  pose proof (f_equal blockbuf E) as E3. cbn in *. congruence.
Qed.

Hypothesis Hdirect : length (direct_block_ptrs i) = 12%nat.

Lemma next_inode_block_ok c w k L : base c → iter_at c k → block_map C f i k ≠ Bad →
  good w (tables c ++ L) →
  wp next_inode_block (c, w) (λ r s, outside_iter s.1 = outside_iter c ∧
    w_fds s.2 = w_fds w ∧ good s.2 (tables s.1 ++ L) ∧
    match r with
    | inl e => failed (block_map C f i k) e
    | inr _ => block_map C f i k = Blk (current_block_addr s.1) ∧ iter_at s.1 (S k)
    end).
Proof using Hf Hdirect.
  intros Hb [Hidx Hs] Hnb Hg. unfold next_inode_block, DIRECT_BLOCK_POINTER_COUNT. wp_run.
  apply wp_try. rewrite Hidx. unfold block_map in *.
  destruct (decide (k < 12)%nat) as [Hk|Hk].
  - destruct (Z.ltb_spec (Z.of_nat (min k 12)) 12); [|lia]. unfold next_direct_block_ptr. wp_run.
    rewrite Hidx. cbn [compose]. rewrite (proj2 Hb).
    rewrite Nat.min_l by lia. apply wp_bind. eapply wp_lift.
    { apply rd_ok; [lia|]. rewrite Nat2Z.id.
      destruct (nth_lookup_or_length (direct_block_ptrs i) k 0) as [E|]; [exact E|lia]. }
    unfold nz in *. destruct (Z.eqb_spec (nth k (direct_block_ptrs i) 0) 0); wp_run.
    + split_and!; [done..|]. by apply failed_eof.
    + split_and!; [done..|]. split; [cbn; rewrite u32_small by lia; lia|]. by replace (S k - 12)%nat with (k - 12)%nat by lia.
  - destruct (Z.ltb_spec (Z.of_nat (min k 12)) 12); [lia|].
    eapply wp_mono; [by eapply sgl_ok|]. intros [e|a] [c1 w1]; cbn [fst snd]; intros (Hfr & Hfd & Hg1 & Hr).
    + split_and!; [by apply outside_sgl_iter|done..].
    + wp_run. destruct Hr as [Hr Hs1].
      split_and!; [exact (outside_sgl_iter _ _ Hfr)|done..|].
      pose proof (f_equal next_direct_ptr_index Hfr) as Hx. cbn in Hx.
      split; [cbn; lia|]. by replace (S k - 12)%nat with (S (k - 12))%nat by lia.
Qed.

Lemma fresh_iter : iter_at (fresh_ino i f) 0.
Proof using Type. clear Hdirect Hf. unfold iter_at, sgl_at, dbl_at, tri_at. cbn. split_and!; done || lia. Qed.

End Iter.
