(* ===== verification/Ext2Read.v ===== *)
(** Reading and skipping through an ext2 file: what is read are the bytes of
    the blocks of the block map. *)
From S2P Require Import Prelude MiscMath StrUtil HeapIface Disk FsWorld Ext2 Ext2Block Ext2Iter.

(** ** Concatenations of pieces of one length *)
Section Pieces.
Context (B : nat) (g : nat → list Z) (Hg : ∀ k, length (g k) = B).

Definition pieces (k m : nat) : list Z := concat (g <$> seq k m).

Lemma pieces_length k m : length (pieces k m) = (m * B)%nat.
Proof using Hg.
  unfold pieces. revert k. induction m as [|m IH]; intros k; cbn; [done|].
  rewrite length_app, Hg. specialize (IH (S k)). cbn in IH. rewrite IH. lia.
Qed.

Lemma pieces_app k m m' : pieces k (m + m') = pieces k m ++ pieces (k + m) m'.
Proof using Type. unfold pieces. by rewrite seq_app, fmap_app, concat_app. Qed.

Lemma pieces_one k : pieces k 1 = g k.
Proof using Type. unfold pieces. cbn. by rewrite app_nil_r. Qed.

Lemma pieces_slice n k m : (k + m ≤ n)%nat → take (m * B) (drop (k * B) (pieces 0 n)) = pieces k m.
Proof using Hg.
  intros Hn. replace n with (k + (m + (n - k - m)))%nat by lia. rewrite !pieces_app.
  rewrite drop_app_length' by (by rewrite pieces_length). cbn.
  by rewrite take_app_length' by (by rewrite pieces_length).
Qed.

Lemma pieces_within n k o r : (k < n)%nat → (o + r ≤ B)%nat →
  take r (drop (k * B + o) (pieces 0 n)) = take r (drop o (g k)).
Proof using Hg.
  intros Hk Hr. rewrite <- (pieces_one k), <- (pieces_slice n k 1) by lia.
  rewrite <- drop_drop. rewrite Nat.mul_1_l.
  set (l := drop (k * B) (pieces 0 n)). rewrite <- (take_drop B l) at 1.
  assert (length (take B l) = B) as Hl.
  { unfold l. rewrite length_take, length_drop, pieces_length. nia. }
  rewrite drop_app_le by lia. rewrite take_app_le; [done|]. rewrite length_drop. lia.
Qed.
End Pieces.

(** ** A destination that is being filled *)

(** [d] has the first [doff d] of the [len] bytes [st] that are to replace those
    of [buf0]. *)
Definition filled (st buf0 : list Z) (len : Z) (d : dest) : Prop :=
  0 ≤ doff d ∧ 0 ≤ remaining d ∧ doff d + remaining d = len ∧
  dbuf d = take (Z.to_nat (doff d)) st ++ drop (Z.to_nat (doff d)) buf0.

Lemma filled_length st buf0 len d : filled st buf0 len d → len ≤ Z.of_nat (length st) →
  len ≤ Z.of_nat (length buf0) → length (dbuf d) = length buf0.
Proof.
  intros (H0 & H1 & H2 & ->) Hst Hb. rewrite length_app, length_take, length_drop. lia.
Qed.

Lemma store_ok st buf0 len d bs n : filled st buf0 len d → len ≤ Z.of_nat (length st) →
  len ≤ Z.of_nat (length buf0) → len < 2 ^ 32 → Z.of_nat (length bs) = n → n ≤ remaining d →
  bs = take (Z.to_nat n) (drop (Z.to_nat (doff d)) st) →
  ∃ d', store bs n d = Ok d' ∧ filled st buf0 len d' ∧ doff d' = doff d + n ∧
    remaining d' = remaining d - n.
Proof.
  intros Hd Hst Hb Hlen Hn Hr Hbs. pose proof (filled_length _ _ _ _ Hd Hst Hb) as Hdl.
  destruct Hd as (H0 & H1 & H2 & Hd). unfold store.
  rewrite mem_write_ok by lia. cbn. rewrite u32_small by lia. eexists. split; [done|].
  split; [|done]. unfold filled; cbn. split_and!; [lia..|].
  rewrite Hd, Hbs. set (k := Z.to_nat (doff d)).
  replace (Z.to_nat (doff d + n)) with (k + Z.to_nat n)%nat by lia.
  rewrite take_app_length' by (rewrite length_take; lia).
  rewrite length_take, length_drop.
  replace (Z.to_nat n `min` (length st - k))%nat with (Z.to_nat n) by lia.
  rewrite drop_app_ge by (rewrite length_take; lia). rewrite drop_drop, length_take.
  rewrite (assoc_L (++)), take_take_drop. do 2 f_equal. lia.
Qed.

(** ** Positions in an open file *)
Section Read.
Context {H D : Type} `{!HeapOps H} `{!HeapLaws H} `{!PdiskOps D} `{!PdiskLaws D}.
Local Abbreviation W := (world H D).
Implicit Types (w : W) (L : list Z) (c : ino_context).
Variables (C : pdisk → Z → list Z) (f : fscontext) (i : inode).
Hypotheses (Hf : geometry f) (Hdirect : length (direct_block_ptrs i) = 12%nat).

Local Abbreviation good := (good C (H:=H) (D:=D)).
Local Abbreviation reliable := (reliable (H:=H) (D:=D)).
Local Abbreviation block_map := (block_map C f i).
Local Abbreviation bs := (blocksize f).
Local Abbreviation B := (Z.to_nat (blocksize f)).

(** The address of a block of the file, the first [n] blocks, and their bytes. *)
Definition blk (k : nat) : Z := match block_map k with Blk a => a | _ => 0 end.
Definition present (n : nat) : Prop := ∀ k, (k < n)%nat → ∃ a, block_map k = Blk a ∧ in_range f a.
Definition fdata (n : nat) : list Z := pieces (λ k, data C f (blk k) 1) 0 n.

Definition held c L : list Z := ptrs (buf (blockbuf c)) ++ tables c ++ L.

(** An open inode of the file that owns its buffers. *)
Definition owned c w L : Prop := base f i c ∧ good w (held c L).

(** It is in block [k] of the file, at offset [o]. *)
Definition in_block c (k : nat) (o : Z) : Prop :=
  iter_at C f i c (S k) ∧ block_map k = Blk (current_block_addr c) ∧ in_range f (current_block_addr c) ∧
  0 ≤ o ≤ bs ∧ offset_in_buf (blockbuf c) = o ∧
  ∀ bb, buf (blockbuf c) = Some bb → bytes bb = data C f (current_block_addr c) 1.

Definition opened c w L (k : nat) (o : Z) : Prop := owned c w L ∧ in_block c k o.

Lemma bs_pos : 0 < bs < 2 ^ 31.
Proof using Hf. clear Hdirect. destruct Hf as (_ & ? & _). lia. Qed.

Lemma present_blk n k : present n → (k < n)%nat → block_map k = Blk (blk k) ∧ in_range f (blk k).
Proof using Type. intros Hp Hk. unfold blk. destruct (Hp k Hk) as (a & -> & Hr). done. Qed.

(** The next block, the block buffer staying as it is. *)
Lemma next_block_ok c w L k : owned c w L → iter_at C f i c k → block_map k ≠ Bad →
  (∀ a, block_map k = Blk a → in_range f a) →
  wp next_inode_block (c, w) (λ r s, owned s.1 s.2 L ∧ w_fds s.2 = w_fds w ∧
    blockbuf s.1 = blockbuf c ∧
    match r with
    | inl e => failed (H:=H) (D:=D) (block_map k) e
    | inr _ => block_map k = Blk (current_block_addr s.1) ∧ in_range f (current_block_addr s.1) ∧
        iter_at C f i s.1 (S k)
    end).
Proof using Hf Hdirect.
  intros [Hb Hg] Hi Hnb Hr.
  eapply wp_mono; [apply (next_inode_block_ok C f i Hf Hdirect c w k (ptrs (buf (blockbuf c)) ++ L)); [done..|]|].
  { eapply good_perm; [|done]. unfold held. solve_Permutation. }
  intros r [c1 w1]; cbn [fst snd]. intros (Hfr & Hfd & Hg1 & Hout).
  injection Hfr as E1 E2 E3. split_and!; [|done|done|].
  - split; [destruct Hb; split; congruence|]. eapply good_perm; [|done]. unfold held. rewrite E3. solve_Permutation.
  - destruct r as [e|[]]; [done|]. destruct Hout as [Hbk Hit]. auto.
Qed.

(** Going on to the next block, when the current one is used up. *)
Lemma advance_ok c w L k o : opened c w L k o →
  (o = bs → block_map (S k) ≠ Bad ∧ ∀ a, block_map (S k) = Blk a → in_range f a) →
  wp advance_if_at_end (c, w) (λ r s, owned s.1 s.2 L ∧ w_fds s.2 = w_fds w ∧
    match r with
    | inl e => o = bs ∧ failed (H:=H) (D:=D) (block_map (S k)) e
    | inr _ => in_block s.1 (if o =? bs then S k else k) (if o =? bs then 0 else o)
    end).
Proof using Hf Hdirect.
  intros [Hown Hin] Hnext. pose proof Hin as (Hit & Hbk & Hr & Ho & Hoff & Hbuf).
  pose proof (proj1 Hown) as [Hfs Hino]. pose proof bs_pos as Hbs.
  unfold advance_if_at_end. wp_run. rewrite Hfs, Hoff.
  destruct (Z.leb_spec bs o) as [Hend|Hlt].
  - assert (o = bs) as -> by lia. rewrite Z.eqb_refl. destruct (Hnext eq_refl) as [Hnb Hrn].
    unfold next_inode_block_and_reset_blockbuf. apply wp_try.
    eapply wp_mono; [by apply next_block_ok|]. intros [e|[]] [c1 w1]; cbn [fst snd];
      intros ([Hb1 Hg1] & Hfd & Hbb & Hout); [done|].
    eapply release_ok; [exact Hg1|]. intros w2 Hfd2 Hg2. wp_run. destruct Hout as (Hbk1 & Hr1 & Hit1).
    split_and!; [by split|cbn; congruence|]. unfold in_block. cbn. split_and!; try done; lia.
  - destruct (Z.eqb_spec o bs); [lia|]. wp_run. done.
Qed.

Lemma block_length k : (∃ d : D, contents d = C) →
  length (data C f (blk k) 1) = B.
Proof using Hf. clear Hdirect. intros HC. pose proof (data_length C f Hf HC (blk k) 1 ltac:(lia)). lia. Qed.

(** Adjacent blocks of the disk are the pieces of the file. *)
Lemma run_data last m k : (∀ j, (j < m)%nat → blk (k + j) = last + Z.of_nat j) →
  data C f last (Z.of_nat m) = pieces (λ k, data C f (blk k) 1) k m.
Proof using Hf.
  clear Hdirect.
  revert k last. induction m as [|m IH]; intros k last Hj.
  - done.
  - replace (Z.of_nat (S m)) with (1 + Z.of_nat m) by lia.
    rewrite data_app by (done || lia). rewrite (pieces_app _ k 1 m), pieces_one.
    rewrite (IH (k + 1)%nat (last + 1)).
    + f_equal. specialize (Hj 0%nat ltac:(lia)). rewrite Nat.add_0_r in Hj. rewrite Hj. f_equal. lia.
    + intros j Hlt. replace (k + 1 + j)%nat with (k + S j)%nat by lia. rewrite Hj by lia. lia.
Qed.

Lemma in_range_u32 a : in_range f a → 0 ≤ a ∧ a + 1 < 2 ^ 32.
Proof using Hf.
  clear Hdirect. intros [Ha Hr]. pose proof (ratio_pos f Hf). destruct Hf as ((_ & _ & Hbc & _) & _). nia.
Qed.

(** ** Whole blocks into the destination *)
Section Dest.
Variables (n : nat) (p0 len : Z) (buf0 : list Z).
Hypotheses (Hpres : present n) (Hp0 : 0 ≤ p0) (Hlen : p0 + len ≤ Z.of_nat n * bs)
  (Hbuf0 : len ≤ Z.of_nat (length buf0)) (Hmax : len < 2 ^ 31) (HC : ∃ d : D, contents d = C).

Definition stream : list Z := drop (Z.to_nat p0) (fdata n).
Definition going (d : dest) : Prop := filled stream buf0 len d.

Lemma stream_length : len ≤ Z.of_nat (length stream).
Proof using All.
  unfold stream, fdata. rewrite length_drop, (pieces_length B _ (λ k, block_length k HC)).
  pose proof bs_pos. nia.
Qed.

Lemma read_run_ok c w L k m last d : owned c w L → (0 < m)%nat → (k + m ≤ n)%nat →
  (∀ j, (j < m)%nat → blk (k + j) = last + Z.of_nat j) → going d →
  p0 + doff d = Z.of_nat k * bs → Z.of_nat m * bs ≤ remaining d →
  wp (read_run last (Z.of_nat m) d) (c, w) (λ r s, s.1 = c ∧ owned c s.2 L ∧ w_fds s.2 = w_fds w ∧
    match r.2 with
    | inl e => e < 0 ∧ ¬ reliable
    | inr _ => going r.1 ∧ doff r.1 = doff d + Z.of_nat m * bs ∧ remaining r.1 = remaining d - Z.of_nat m * bs
    end).
Proof using All.
  intros [[Hfs Hi] Hg] Hm Hk Hrun Hd Hpos Hrem. pose proof bs_pos as Hbs.
  pose proof stream_length as Hst. pose proof (filled_length _ _ _ _ Hd Hst Hbuf0) as Hdl.
  pose proof Hd as (Hd0 & Hd1 & Hd2 & _). unfold read_run. wp_run. rewrite Hfs. apply wp_bind, wp_up.
  destruct (present_blk n (k + (m - 1)) Hpres) as [_ [_ Hlast]]; [lia|].
  destruct (present_blk n k Hpres) as [_ [Hfirst _]]; [lia|].
  rewrite Hrun in Hlast by lia. rewrite <- (Nat.add_0_r k) in Hfirst. rewrite Hrun in Hfirst by lia.
  eapply wp_mono; [apply (read_blocks_ok C f Hf last (Z.of_nat m) w (held c L)); [done|nia|nia|lia|]|].
  { pose proof (ratio_pos f Hf). nia. }
  intros [r bs1] w1; cbn [fst snd]. intros (Hfd & Hg1 & Hl & Hout). destruct (Z.ltb_spec r 0).
  - apply wp_bind. eapply wp_lift; [apply mem_write_ok; [lia|]|].
    { rewrite Hdl. lia. }
    wp_run. split_and!; [done..|by split|done|done|]. by destruct Hout as [[_ ?]|[-> _]]; [|lia].
  - destruct Hout as [[? _]|[_ ->]]; [lia|].
    rewrite (run_data last m k Hrun) in *.
    destruct (store_ok stream buf0 len d (pieces (λ k, data C f (blk k) 1) k m) (Z.of_nat m * bs)) as (d' & Hs & Hd' & Ho & Hr).
    + done.
    + done.
    + done.
    + lia.
    + rewrite (pieces_length B _ (λ k, block_length k HC)). lia.
    + done.
    + unfold stream, fdata. rewrite drop_drop.
      replace (Z.to_nat p0 + Z.to_nat (doff d))%nat with (k * B)%nat by nia.
      replace (Z.to_nat (Z.of_nat m * bs)) with (m * B)%nat by nia.
      by rewrite (pieces_slice B _ (λ k, block_length k HC)).
    + apply wp_bind. eapply wp_lift.
      { rewrite u32_small by nia. rewrite (Z.mul_comm bs). exact Hs. }
      wp_run. split_and!; [done|by split|done..].
Qed.

(** The blocks up to [k] have been found, the last [m] of which lie from [last]
    on and are still to be read into [d]. *)
Definition pending (d : dest) (k m : nat) (last : Z) : Prop :=
  (0 < m ≤ S k)%nat ∧ (∀ j, (j < m)%nat → blk (S k - m + j) = last + Z.of_nat j) ∧ going d ∧
  p0 + doff d = Z.of_nat (S k - m) * bs.

Lemma pending_start d k : going d → p0 + doff d = Z.of_nat k * bs → pending d k 1 (blk k).
Proof using Type.
  clear Hf Hdirect Hp0 Hlen Hbuf0 Hmax. intros Hd Hp. split_and!; [lia..| |done|].
  - intros j Hj. assert (j = 0)%nat as -> by lia. replace (S k - 1 + 0)%nat with k by lia. lia.
  - by replace (S k - 1)%nat with k by lia.
Qed.

Lemma pending_in_range d k m last : (k < n)%nat → pending d k m last →
  0 ≤ last ∧ last + Z.of_nat m < 2 ^ 32.
Proof using All.
  intros Hk ([Hm0 Hm1] & Hrun & _ & _).
  destruct (present_blk n k Hpres Hk) as [_ Hlast%in_range_u32].
  destruct (present_blk n (S k - m) Hpres) as [_ Hfirst%in_range_u32]; [lia|].
  pose proof (Hrun 0%nat ltac:(lia)) as H0. rewrite Nat.add_0_r in H0.
  pose proof (Hrun (m - 1)%nat ltac:(lia)) as H1. replace (S k - m + (m - 1))%nat with k in H1 by lia.
  lia.
Qed.

Lemma pending_read c w L d k m last : owned c w L → (k < n)%nat → pending d k m last →
  Z.of_nat (S k) * bs ≤ p0 + len →
  wp (read_run last (Z.of_nat m) d) (c, w) (λ r s, s.1 = c ∧ owned c s.2 L ∧ w_fds s.2 = w_fds w ∧
    match r.2 with
    | inl e => e < 0 ∧ ¬ reliable
    | inr _ => going r.1 ∧ p0 + doff r.1 = Z.of_nat (S k) * bs
    end).
Proof using All.
  intros Hown Hk ([Hm0 Hm1] & Hrun & Hd & Hp) Hle. pose proof Hd as (_ & _ & Hsum & _).
  eapply wp_mono; [apply (read_run_ok c w L (S k - m) m last d); [done|lia|lia|done..|nia]|].
  intros [d' [e|[]]] [c1 w1]; cbn [fst snd]; intros (-> & Hown1 & Hfd & Hout); [done|].
  destruct Hout as (Hd' & Ho & Hr). split_and!; [done..|nia].
Qed.

Lemma read_runs_ok r c w L k m last d : owned c w L → iter_at C f i c (S k) → (k + r < n)%nat →
  pending d k m last → Z.of_nat (S k + r) * bs ≤ p0 + len →
  wp (read_runs r last (Z.of_nat m) d) (c, w) (λ x s, owned s.1 s.2 L ∧ w_fds s.2 = w_fds w ∧
    blockbuf s.1 = blockbuf c ∧
    match x.2 with
    | inl e => e < 0 ∧ ¬ reliable
    | inr y => ∃ m', y.2 = Z.of_nat m' ∧ pending x.1 (k + r) m' y.1 ∧ iter_at C f i s.1 (S (k + r))
    end).
Proof using All.
  revert c w k m last d. induction r as [|r IH]; intros c w k m last d Hown Hit Hk Hpend Hle; cbn [read_runs].
  { wp_run. split_and!; [done..|]. exists m. rewrite Nat.add_0_r. done. }
  pose proof bs_pos as Hbs. destruct (present_blk n (S k) Hpres) as [Hb Hr]; [lia|].
  apply wp_bind. eapply wp_mono; [apply (next_block_ok c w L (S k)); [done|done| |]|]; rewrite Hb; [done|by intros ? [= <-]|].
  intros [e|[]] [c1 w1]; cbn [fst snd]; intros (Hown1 & Hfd1 & Hbb1 & Hout).
  { wp_run. split_and!; [done..|]. destruct Hout as [He [?|[? _]]]; [done|congruence]. }
  destruct Hout as ([= Hcur] & _ & Hit1). wp_run. rewrite <- Hcur.
  destruct (pending_in_range d k m last ltac:(lia) Hpend) as [Hl0 Hl1].
  rewrite u32_small by lia.
  destruct (Z.eqb_spec (blk (S k)) (last + Z.of_nat m)) as [Hadj|Hfar]; cbn [negb].
  - pose proof (in_range_u32 _ Hr). rewrite u32_small by lia. replace (Z.of_nat m + 1) with (Z.of_nat (S m)) by lia.
    replace (k + S r)%nat with (S k + r)%nat by lia.
    eapply wp_mono; [apply (IH c1 w1 (S k) (S m) last d); [done|done|lia| |nia]|].
    + destruct Hpend as (Hm & Hrun & Hd & Hp). split_and!; [lia..| |done|].
      * intros j Hj. destruct (decide (j = m)) as [->|].
        -- by replace (S (S k) - S m + m)%nat with (S k) by lia.
        -- replace (S (S k) - S m + j)%nat with (S k - m + j)%nat by lia. apply Hrun. lia.
      * by replace (S (S k) - S m)%nat with (S k - m)%nat by lia.
    + intros x [c2 w2]; cbn [fst snd]. intros (Hown2 & Hfd2 & Hbb2 & Hout).
      split_and!; [done|congruence|congruence|done].
  - apply wp_bind. eapply wp_mono; [apply (pending_read c1 w1 L d k m last); [done|lia|done|nia]|].
    intros [d' [e|[]]] [c2 w2]; cbn [fst snd]; intros (-> & Hown2 & Hfd2 & Hout).
    { wp_run. split_and!; [done|cbn;congruence|done..]. }
    destruct Hout as (Hd' & Hp'). replace (k + S r)%nat with (S k + r)%nat by lia.
    eapply wp_mono; [apply (IH c1 w2 (S k) 1%nat (blk (S k)) d'); [done|done|lia| |nia]|].
    + by apply pending_start.
    + intros x [c3 w3]; cbn [fst snd]. intros (Hown3 & Hfd3 & Hbb3 & Hout3).
      split_and!; [done|congruence|congruence|done].
Qed.

(** What is read ends before the last block does, or the file ends there. *)
Hypothesis Hend : p0 + len < Z.of_nat n * bs ∨ block_map n = Eof.

Lemma drop_blockbuf_ok c w L : owned c w L →
  wp drop_blockbuf (c, w) (λ _ s, owned s.1 s.2 L ∧ w_fds s.2 = w_fds w ∧
    s.1 = with_blockbuf (Cursor (offset_in_buf (blockbuf c)) None) c).
Proof using Type.
  intros [Hb Hg]. unfold drop_blockbuf. eapply release_ok; [exact Hg|]. intros w1 Hfd Hg1.
  apply wp_modify. done.
Qed.

(** The position is lost when whole blocks were read up to the end of the file:
    nothing is left to read. *)
Definition lost (d : dest) : Prop :=
  remaining d = 0 ∧ (¬ reliable ∨ p0 + len = Z.of_nat n * bs ∧ bs ≤ len).

(** The next block is there, or the file has ended and nothing is left to read. *)
Lemma next_known k : Z.of_nat k * bs ≤ p0 + len →
  block_map k ≠ Bad ∧ (∀ a, block_map k = Blk a → in_range f a) ∧
  (block_map k = Eof → p0 + len = Z.of_nat n * bs ∧ Z.of_nat k * bs = p0 + len).
Proof using All.
  intros Hk. pose proof bs_pos as Hbs. destruct (decide (k < n)%nat) as [Hlt|].
  - destruct (present_blk n k Hpres Hlt) as [-> Hr]. split_and!; [done|by intros ? [= <-]|done].
  - assert (k = n) as -> by nia. destruct Hend as [|E]; [lia|]. rewrite E. split_and?; [done..|lia].
Qed.

Lemma read_inode_blocks_ok c w L k m d : opened c w L k 0 → going d → p0 + doff d = Z.of_nat k * bs →
  (0 < m)%nat → Z.of_nat (k + m) * bs ≤ p0 + len →
  wp (read_inode_blocks (Z.of_nat m) d) (c, w) (λ x s, owned s.1 s.2 L ∧ w_fds s.2 = w_fds w ∧
    match x.2 with
    | inl e => e < 0 ∧ ¬ reliable
    | inr _ => going x.1 ∧ p0 + doff x.1 = Z.of_nat (k + m) * bs ∧
        (in_block s.1 (k + m) 0 ∨ lost x.1)
    end).
Proof using All.
  intros [Hown Hin] Hd Hp Hm Hle. pose proof bs_pos as Hbs. destruct Hin as (Hit & Hbk & Hr & _ & Hoff & _).
  assert (k + m ≤ n)%nat as Hkm by nia.
  assert (current_block_addr c = blk k) as Hcur.
  { destruct (present_blk n k Hpres) as [E _]; [lia|]. congruence. }
  unfold read_inode_blocks. wp_run. rewrite Hcur.
  replace (Z.to_nat (u32 (Z.of_nat m - 1))) with (m - 1)%nat.
  2: { rewrite u32_small; [lia|]. pose proof Hd as (? & _). nia. }
  apply wp_bind. eapply wp_mono; [apply (read_runs_ok (m - 1) c w L k 1%nat (blk k) d); [done|done|lia| |]|].
  { by apply pending_start. } { replace (S k + (m - 1))%nat with (k + m)%nat by lia. done. }
  replace (k + (m - 1))%nat with (k + m - 1)%nat by lia.
  intros [d1 [e|[last cl]]] [c1 w1]; cbn [fst snd]; intros (Hown1 & Hfd1 & Hbb1 & Hout); [by wp_run|].
  destruct Hout as (m' & -> & Hpend & Hit1). apply wp_bind.
  eapply wp_mono; [apply (pending_read c1 w1 L d1 (k + m - 1) m' last); [done|lia|done|]|].
  { replace (S (k + m - 1))%nat with (k + m)%nat by lia. done. }
  replace (S (k + m - 1))%nat with (k + m)%nat in * by lia.
  intros [d2 [e|[]]] [c2 w2]; cbn [fst snd]; intros (-> & Hown2 & Hfd2 & Hout).
  { wp_run. split_and!; [done|cbn; congruence|done..]. }
  destruct Hout as (Hd2 & Hp2). apply wp_bind. eapply wp_mono; [by apply drop_blockbuf_ok|].
  intros [] [c3 w3]; cbn [fst snd]; intros (Hown3 & Hfd3 & ->).
  destruct (next_known (k + m) Hle) as (Hnb & Hnr & Hne).
  apply wp_bind. eapply wp_mono; [by apply (next_block_ok _ w3 L (k + m))|].
  intros [e|[]] [c4 w4]; cbn [fst snd]; intros (Hown4 & Hfd4 & Hbb4 & Hout).
  - destruct (Z.eqb_spec e (- ENOENT)) as [->|Hne']; cbn [negb orb].
    + pose proof Hd2 as (_ & _ & Hsum & _).
      destruct (Z.eqb_spec (remaining d2) 0); cbn [negb]; wp_run; cbn [fst snd]; (split_and?; [done|congruence|..]).
      * done.
      * done.
      * right. split; [done|]. destruct Hout as [_ [?|[Heof _]]]; [by left|right]. pose proof Hd as (? & _).
        destruct (Hne Heof). split; [done|nia].
      * unfold ENOENT. lia.
      * destruct Hout as [_ [?|[Heof _]]]; [done|]. specialize (Hne Heof). lia.
    + wp_run. cbn [fst snd]. destruct Hout as [He [?|[_ ?]]]; [|done]. split_and?; [done|congruence|done..].
  - destruct Hout as (Hbk4 & Hr4 & Hit4). wp_run. cbn [fst snd]. split_and?; [done|congruence|done|done|].
    left. unfold in_block. rewrite Hbb4. cbn. rewrite Hbb1. split_and!; [done..|lia|lia|done|done].
Qed.

Lemma fill_blockbuf_ok c w L k o : opened c w L k o →
  wp fill_blockbuf (c, w) (λ r s, owned s.1 s.2 L ∧ w_fds s.2 = w_fds w ∧
    match r with
    | inl e => e < 0 ∧ ¬ reliable
    | inr _ => in_block s.1 k o ∧ ∃ bb, buf (blockbuf s.1) = Some bb ∧ bytes bb = data C f (blk k) 1
    end).
Proof using All.
  intros [[Hb Hg] Hin]. pose proof Hin as (Hit & Hbk & Hr & Ho & Hoff & Hbuf).
  assert (current_block_addr c = blk k) as Hcur by (unfold blk; by rewrite Hbk).
  unfold fill_blockbuf. wp_run. destruct (buf (blockbuf c)) as [bb|] eqn:Ebuf; wp_run.
  - split_and?; [by split|done|done|]. exists bb. rewrite <- Hcur. auto.
  - rewrite (proj1 Hb). unfold held in Hg. rewrite Ebuf in Hg. apply wp_try, wp_up.
    eapply wp_mono; [by apply readblocks_alloc_ok|]. cbn. intros [e|bb] w1 [Hfd H1].
    + destruct H1 as (He & Hrel & Hg1). split_and?; [|done..].
      split; [done|]. unfold held. by rewrite Ebuf.
    + destruct H1 as [Hg1 Hbb]. wp_run. split_and?; [done|done| |].
      * unfold in_block. cbn. split_and!; [done..|lia|lia|done|]. by intros ? [= <-].
      * exists bb. by rewrite <- Hcur.
Qed.

Lemma copy_ok c w L k o d bb : owned c w L → in_block c k o → o < bs → buf (blockbuf c) = Some bb →
  bytes bb = data C f (blk k) 1 → going d → p0 + doff d = Z.of_nat k * bs + o → 0 < remaining d →
  wp (copy_from_blockbuf d) (c, w) (λ d' s, owned s.1 s.2 L ∧ w_fds s.2 = w_fds w ∧ going d' ∧
    remaining d' < remaining d ∧ ∃ o', in_block s.1 k o' ∧ p0 + doff d' = Z.of_nat k * bs + o').
Proof using All.
  intros [[Hfs Hi] Hg] Hin Hlt Hbuf Hbb Hd Hp Hrem. pose proof bs_pos as Hbs.
  pose proof Hin as (Hit & Hbk & Hr & Ho & Hoff & _). pose proof Hd as (Hd0 & _ & Hsum & _).
  assert (k < n)%nat as Hk by nia.
  assert (Z.of_nat (length (bytes bb)) = bs) as Hl by (rewrite Hbb, (block_length k HC); lia).
  unfold copy_from_blockbuf. wp_run. rewrite Hfs, Hoff, Hbuf.
  apply wp_bind, wp_massert; [by apply Z.ltb_lt|]. rewrite u32_small by lia.
  set (r := if bs - o <? remaining d then bs - o else remaining d).
  assert (0 < r ∧ r ≤ remaining d ∧ o + r ≤ bs) as (Hr0 & Hr1 & Hr2) by (unfold r; zcase; lia).
  apply wp_bind, wp_massert; [by destruct (Z.eqb_spec r 0); [lia|]|].
  apply wp_bind. eapply wp_lift; [reflexivity|]. cbn [drop]. rewrite drop_0.
  apply wp_bind. eapply wp_lift; [apply mem_read_ok; lia|].
  destruct (store_ok stream buf0 len d (take (Z.to_nat r) (drop (Z.to_nat o) (bytes bb))) r)
    as (d' & Hs & Hd' & Ho' & Hr').
  - done.
  - apply stream_length.
  - done.
  - lia.
  - rewrite length_take, length_drop. lia.
  - done.
  - unfold stream, fdata. rewrite drop_drop, Hbb.
    replace (Z.to_nat p0 + Z.to_nat (doff d))%nat with (k * B + Z.to_nat o)%nat by nia.
    by rewrite (pieces_within B _ (λ k, block_length k HC)) by lia.
  - apply wp_bind. eapply wp_lift; [exact Hs|]. wp_run. cbn [fst snd].
    split_and?; [|done|done|lia|].
    + split; [done|exact Hg].
    + exists (o + r). split; [|lia]. unfold in_block. cbn. split_and!; [done..|lia|lia|lia|].
      intros b' E. assert (b' = bb) as -> by congruence. rewrite Hbb. unfold blk. by rewrite Hbk.
Qed.

(** A state of the loop of [read_inode], and what the loop ends with. *)
Definition position (d : dest) c : Prop :=
  lost d ∨ ∃ k o, in_block c k o ∧ p0 + doff d = Z.of_nat k * bs + o.

Definition reading (F : fd_table) L (d : dest) (s : ino_context * W) : Prop :=
  owned s.1 s.2 L ∧ w_fds s.2 = F ∧ going d ∧ position d s.1.

Definition read_done (F : fd_table) L (x : dest * (Z + unit)) (s : ino_context * W) : Prop :=
  owned s.1 s.2 L ∧ w_fds s.2 = F ∧
  match x.2 with
  | inl e => e < 0 ∧ ¬ reliable
  | inr _ => going x.1 ∧ remaining x.1 = 0 ∧ position x.1 s.1
  end.

Lemma read_whole_ok c w L k o d : opened c w L k o → o < bs → going d → p0 + doff d = Z.of_nat k * bs + o →
  wp (read_whole d) (c, w) (λ x s, owned s.1 s.2 L ∧ w_fds s.2 = w_fds w ∧
    match x.2 with
    | inl e => e < 0 ∧ ¬ reliable
    | inr _ => going x.1 ∧ remaining x.1 ≤ remaining d ∧
        (lost x.1 ∨ ∃ k o, in_block s.1 k o ∧ o < bs ∧ p0 + doff x.1 = Z.of_nat k * bs + o)
    end).
Proof using All.
  intros [Hown Hin] Hlt Hd Hp. pose proof bs_pos as Hbs. pose proof Hin as (_ & _ & _ & Ho & Hoff & _).
  pose proof Hd as (Hd0 & Hd1 & Hsum & _).
  unfold read_whole. wp_run. rewrite (proj1 (proj1 Hown)), Hoff, u32_small by lia.
  destruct (Z.eqb_spec o 0) as [->|], (Z.leb_spec bs (remaining d)) as [Hle|]; cbn [andb].
  2-4: (wp_run; cbn [fst snd]; split_and?; [done..|right; by exists k, o]) || (wp_run; cbn [fst snd]; split_and?; [done..|right; by exists k, 0]).
  apply wp_bind. eapply wp_lift.
  { unfold div_. destruct (Z.eqb_spec bs 0); [lia|]. by rewrite Z.quot_div_nonneg by lia. }
  assert (0 < remaining d / bs) as Hq0 by (apply Z.div_str_pos; lia).
  assert (bs * (remaining d / bs) ≤ remaining d) as Hq1 by (apply Z.mul_div_le; lia).
  rewrite <- (Z2Nat.id (remaining d / bs)) by lia.
  eapply wp_mono; [apply (read_inode_blocks_ok c w L k (Z.to_nat (remaining d / bs)) d); [done|done|lia|lia|nia]|].
  intros [d' [e|[]]] [c' w']; cbn [fst snd]; intros (Hown' & Hfd & Hout); [done|].
  destruct Hout as (Hd' & Hp' & Hpos). pose proof Hd' as (_ & _ & Hsum' & _).
  split_and?; [done..|nia|]. destruct Hpos as [Hin'|]; [right|by left].
  eexists _, 0. split_and?; [done|lia|lia].
Qed.

Lemma read_step_ok F L d s : reading F L d s →
  wp (read_step d) s (λ y s', match y with
    | inl d' => reading F L d' s' ∧ (Z.to_nat (remaining d') < Z.to_nat (remaining d))%nat
    | inr x => read_done F L x s'
    end).
Proof using All.
  destruct s as [c w]. intros (Hown & Hfd & Hd & Hpos). cbn [fst snd] in *. pose proof bs_pos as Hbs.
  pose proof Hd as (Hd0 & Hd1 & Hsum & _). unfold read_step, read_done.
  destruct (Z.eqb_spec (remaining d) 0); [by wp_run|].
  destruct Hpos as [[? _]|(k & o & Hin & Hp)]; [done|].
  pose proof Hin as (_ & _ & _ & Ho & _). apply wp_bind. eapply wp_mono.
  { apply (advance_ok c w L k o); [by split|]. intros ->.
    destruct (next_known (S k)) as (? & ? & _); [lia|done]. }
  intros [e|[]] [c1 w1]; cbn [fst snd]; intros (Hown1 & Hfd1 & Hout).
  { wp_run. cbn [fst snd]. destruct Hout as [-> [He [?|[Heof _]]]]; [split_and?; [done|congruence|done..]|].
    destruct (next_known (S k)) as (_ & _ & Hn); [lia|]. specialize (Hn Heof). lia. }
  apply wp_bind. eapply wp_mono.
  { apply (read_whole_ok c1 w1 L (if o =? bs then S k else k) (if o =? bs then 0 else o) d); [done| |done|];
      destruct (Z.eqb_spec o bs); lia. }
  intros [d2 [e|[]]] [c2 w2]; cbn [fst snd]; intros (Hown2 & Hfd2 & Hout2).
  { wp_run. cbn [fst snd]. split_and?; [done|congruence|apply Hout2..]. }
  destruct Hout2 as (Hd2 & Hr2 & Hpos2). destruct (Z.eqb_spec (remaining d2) 0) as [Hz|Hnz].
  { wp_run. cbn [fst snd]. split_and?; [done|congruence|done|done|].
    destruct Hpos2 as [|(k2 & o2 & ? & _ & ?)]; [by left|right; by exists k2, o2]. }
  destruct Hpos2 as [[? _]|(k2 & o2 & Hin2 & Hlt2 & Hp2)]; [done|].
  apply wp_bind. eapply wp_mono; [apply (fill_blockbuf_ok c2 w2 L k2 o2); by split|].
  intros [e|[]] [c3 w3]; cbn [fst snd]; intros (Hown3 & Hfd3 & Hout3).
  { wp_run. cbn [fst snd]. split_and?; [done|congruence|apply Hout3..]. }
  destruct Hout3 as (Hin3 & bb & Hbuf & Hbb). pose proof Hd2 as (_ & ? & _).
  apply wp_bind. eapply wp_mono; [apply (copy_ok c3 w3 L k2 o2 d2 bb); done || lia|].
  intros d4 [c4 w4]; cbn [fst snd]; intros (Hown4 & Hfd4 & Hd4 & Hr4 & o4 & Hin4 & Hp4). wp_run.
  split; [|lia]. unfold reading. cbn [fst snd]. split_and?; [done|congruence|done|].
  right. by exists k2, o4.
Qed.

End Dest.
Lemma owned_disk c w L : owned c w L → ∃ d : D, contents d = C.
Proof using Type. intros [_ [Hc _]]. by eexists. Qed.

(** Where an open file of [n] blocks is after a successful read of [len] bytes
    that leaves it at [p]. *)
Definition arrived (n : nat) (p len : Z) c : Prop :=
  ¬ reliable ∨ p = Z.of_nat n * bs ∧ bs ≤ len ∨ ∃ k o, in_block c k o ∧ p = Z.of_nat k * bs + o.

Lemma read_inode_ok c w L k o n buf len : opened c w L k o → present n →
  let p := Z.of_nat k * bs + o in
  0 ≤ len ≤ STREAM_MAX_TRANSFER_SIZE → len ≤ Z.of_nat (length buf) →
  p + len < Z.of_nat n * bs ∨ p + len = Z.of_nat n * bs ∧ block_map n = Eof →
  wp (read_inode buf len) (c, w) (λ x s, owned s.1 s.2 L ∧ w_fds s.2 = w_fds w ∧
    match x.2 with
    | inl e => e < 0 ∧ ¬ reliable
    | inr _ => x.1 = take (Z.to_nat len) (drop (Z.to_nat p) (fdata n)) ++ drop (Z.to_nat len) buf ∧
        arrived n (p + len) len s.1
    end).
Proof using Hf Hdirect.
  intros [Hown Hin] Hpres p Hlen Hbuf Hend. unfold STREAM_MAX_TRANSFER_SIZE in *.
  pose proof Hin as (_ & _ & _ & Ho & _). pose proof bs_pos as Hbs.
  unfold read_inode. apply wp_bind, wp_massert; [apply Z.leb_le; unfold STREAM_MAX_TRANSFER_SIZE; lia|].
  apply wp_bind. apply (wp_mono _ _ (read_done n p len buf (w_fds w) L)).
  - apply (wp_loop read_step (reading n p len buf (w_fds w) L) (λ d, Z.to_nat (remaining d))).
    + intros d s Hr. apply read_step_ok; [done|lia..|by eapply owned_disk|naive_solver|done].
    + split; [done|]. split; [done|]. split.
      * unfold going, filled. cbn. rewrite drop_0. split_and?; lia || done.
      * right. exists k, o. split; [done|]. cbn. lia.
    + cbn. lia.
  - intros [d [e|[]]] [c1 w1] (Hown1 & Hfd & Hout); cbn [fst snd] in *; wp_run; cbn [fst snd].
    { done. }
    destruct Hout as ((Hd0 & _ & Hsum & Hd) & Hrem & Hpos). split_and?; [done..| |].
    + rewrite Hd. replace (doff d) with len by lia. done.
    + destruct Hpos as [[_ [?|?]]|(k1 & o1 & Hin1 & Hp1)]; [by left|by right; left|].
      right. right. exists k1, o1. split; [done|lia].
Qed.

(** At the end of the file there is nothing to read. *)
Lemma read_inode_eof c w L k buf len : opened c w L k bs → block_map (S k) = Eof →
  0 < len ≤ STREAM_MAX_TRANSFER_SIZE →
  wp (read_inode buf len) (c, w) (λ x s, owned s.1 s.2 L ∧ w_fds s.2 = w_fds w ∧ x.1 = buf ∧
    match x.2 with inl e => e < 0 ∧ (¬ reliable ∨ e = - ENOENT) | inr _ => False end).
Proof using Hf Hdirect.
  intros Hop Heof Hlen. pose proof Hlen as Hlen'. unfold STREAM_MAX_TRANSFER_SIZE in Hlen'.
  unfold read_inode. apply wp_bind, wp_massert; [apply Z.leb_le; lia|].
  apply wp_bind. eapply wp_mono; [apply (wp_loop read_step
    (λ d s, s = (c, w) ∧ d = Dest buf 0 len) (λ _, 0%nat) (λ x s, owned s.1 s.2 L ∧ w_fds s.2 = w_fds w ∧ dbuf x.1 = buf ∧
    match x.2 with inl e => e < 0 ∧ (¬ reliable ∨ e = - ENOENT) | inr _ => False end))|..].
  - intros d s [-> ->]. unfold read_step. cbn [remaining]. destruct (Z.eqb_spec len 0); [lia|].
    apply wp_bind. eapply wp_mono; [apply (advance_ok c w L k bs Hop)|].
    { intros _. rewrite Heof. done. }
    intros [e|[]] [c1 w1]; cbn [fst snd]; intros (Hown1 & Hfd & Hout).
    + wp_run. cbn [fst snd]. destruct Hout as [_ [He Hout]]. split_and?; try done. destruct Hout as [?|[_ ?]]; auto.
    + exfalso. rewrite Z.eqb_refl in Hout. destruct Hout as (_ & Hbk & _). congruence.
  - done.
  - lia.
  - intros [d r] [c1 w1]; cbn [fst snd]. intros (? & ? & ? & ?). wp_run. cbn [fst snd]. done.
Qed.

(** ** Skipping *)

Lemma next_inode_blocks_ok m c w L k n : owned c w L → iter_at C f i c k → present n → (k + m ≤ n)%nat →
  wp (next_inode_blocks m) (c, w) (λ r s, owned s.1 s.2 L ∧ w_fds s.2 = w_fds w ∧
    blockbuf s.1 = blockbuf c ∧
    match r with
    | inl e => e < 0 ∧ ¬ reliable
    | inr _ => iter_at C f i s.1 (k + m) ∧
        current_block_addr s.1 = if decide (m = 0)%nat then current_block_addr c else blk (k + m - 1)
    end).
Proof using Hf Hdirect.
  revert c w k. induction m as [|m IH]; intros c w k Hown Hit Hpres Hk; cbn [next_inode_blocks].
  { wp_run. split_and?; [done..|by rewrite Nat.add_0_r|done]. }
  destruct (present_blk n k Hpres) as [Hb Hr]; [lia|].
  apply wp_try. eapply wp_mono; [apply (next_block_ok c w L k); [done..| |]|]; rewrite Hb; [done|by intros ? [= <-]|].
  intros [e|[]] [c1 w1]; cbn [fst snd]; intros (Hown1 & Hfd1 & Hbb1 & Hout).
  { split_and?; [done..|apply Hout|]. by destruct Hout as [_ [?|[? _]]]. }
  destruct Hout as ([= Hcur] & _ & Hit1).
  eapply wp_mono; [apply (IH c1 w1 (S k)); done || lia|].
  intros r [c2 w2]; cbn [fst snd]. intros (Hown2 & Hfd2 & Hbb2 & Hout).
  split_and?; [done|congruence|congruence|]. destruct r as [e|[]]; [done|].
  destruct Hout as [Hit2 Hcur2]. split; [by replace (k + S m)%nat with (S k + m)%nat by lia|].
  rewrite Hcur2. rewrite (decide_False (P := S m = 0%nat)) by lia. case_decide as Hm; [|f_equal; lia].
  rewrite <- Hcur. f_equal. lia.
Qed.

(** Skipping stays in the current block, or ends before the last one does. *)
Definition skippable (n : nat) (k : nat) (o r : Z) : Prop :=
  Z.of_nat k * bs + o + r < Z.of_nat n * bs ∨ 0 < o ∧ o + r ≤ bs.

Lemma skip_whole_ok c w L k o n r : opened c w L k o → o < bs → present n → 0 ≤ r < 2 ^ 31 →
  skippable n k o r →
  wp (skip_whole r) (c, w) (λ x s, owned s.1 s.2 L ∧ w_fds s.2 = w_fds w ∧
    match x with
    | inl e => e < 0 ∧ ¬ reliable
    | inr r' => 0 ≤ r' ≤ r ∧ ∃ k', in_block s.1 k' o ∧ Z.of_nat k' * bs + r' = Z.of_nat k * bs + r ∧
        (r' = 0 ∨ skippable n k' o r')
    end).
Proof using Hf Hdirect.
  intros [Hown Hin] Hlt Hpres Hr Hskip. pose proof bs_pos as Hbs.
  pose proof Hin as (Hit & Hbk & Hrg & Ho & Hoff & Hbuf).
  unfold skip_whole. wp_run. rewrite (proj1 (proj1 Hown)), Hoff, u32_small by lia.
  destruct (Z.eqb_spec o 0) as [->|], (Z.leb_spec bs r) as [Hle|]; cbn [andb].
  2-4: wp_run; split_and?; [done|done|lia|lia|exists k; split_and?; [done|done|by right]].
  apply wp_bind. eapply wp_lift.
  { unfold div_. destruct (Z.eqb_spec bs 0); [lia|]. by rewrite Z.quot_div_nonneg by lia. }
  assert (0 < r / bs) as Hq0 by (apply Z.div_str_pos; lia).
  pose proof (Z.div_mod r bs ltac:(lia)) as Hdm. pose proof (Z.mod_pos_bound r bs ltac:(lia)) as Hm.
  set (m := Z.to_nat (r / bs)). assert (r / bs = Z.of_nat m) as Em by lia. rewrite Em in *.
  destruct Hskip as [Hskip|]; [|lia].
  apply wp_try. eapply wp_mono; [apply (next_inode_blocks_ok m c w L (S k) n); [done..|nia]|].
  intros [e|[]] [c1 w1]; cbn [fst snd]; intros (Hown1 & Hfd1 & Hbb1 & Hout); [done|].
  destruct Hout as [Hit1 Hcur1]. rewrite decide_False in Hcur1 by lia.
  apply wp_bind. eapply wp_mono; [by apply drop_blockbuf_ok|].
  intros [] [c2 w2]; cbn [fst snd]; intros (Hown2 & Hfd2 & ->). wp_run.
  rewrite (u32_small (bs * Z.of_nat m)), (u32_small (r - _)) by lia.
  split_and?; [done|cbn; congruence|lia|lia|]. exists (k + m)%nat. split_and?; [|lia|].
  - destruct (present_blk n (k + m) Hpres) as [Hb Hrb]; [nia|].
    unfold in_block. cbn. rewrite Hbb1, Hcur1. replace (S k + m - 1)%nat with (k + m)%nat by lia.
    split; [exact Hit1|]. split; [done|]. split; [done|]. split; [lia|done].
  - right. left. lia.
Qed.

(** A state of the loop of [skipread_inode] that is to end at [p]. *)
Definition skipping (F : fd_table) L (n : nat) (p len r : Z) (s : ino_context * W) : Prop :=
  owned s.1 s.2 L ∧ w_fds s.2 = F ∧ 0 ≤ r ≤ len ∧
  ∃ k o, in_block s.1 k o ∧ Z.of_nat k * bs + o + r = p ∧ (r = 0 ∨ skippable n k o r).

Definition skip_done (F : fd_table) L (p : Z) (x : Z + unit) (s : ino_context * W) : Prop :=
  owned s.1 s.2 L ∧ w_fds s.2 = F ∧
  match x with
  | inl e => e < 0 ∧ ¬ reliable
  | inr _ => ∃ k o, in_block s.1 k o ∧ Z.of_nat k * bs + o = p
  end.

Lemma skipread_step_ok F L n p len r s : present n → len < 2 ^ 31 → skipping F L n p len r s →
  wp (skipread_step r) s (λ y s', match y with
    | inl r' => skipping F L n p len r' s' ∧ (Z.to_nat r' < Z.to_nat r)%nat
    | inr x => skip_done F L p x s'
    end).
Proof using Hf Hdirect.
  destruct s as [c w]. intros Hpres Hlen (Hown & Hfd & Hr & k & o & Hin & Hp & Hskip).
  cbn [fst snd] in *. pose proof bs_pos as Hbs. unfold skipread_step, skip_done.
  destruct (Z.eqb_spec r 0) as [->|Hr0].
  { wp_run. cbn [fst snd]. split_and?; [done..|]. exists k, o. split; [done|lia]. }
  destruct Hskip as [|Hskip]; [done|]. pose proof Hin as (_ & _ & _ & Ho & _).
  apply wp_bind. eapply wp_mono.
  { apply (advance_ok c w L k o); [by split|]. intros ->. destruct Hskip as [Hs|]; [|lia].
    destruct (present_blk n (S k) Hpres) as [-> Hrg]; [nia|]. split; [done|]. by intros ? [= <-]. }
  intros [e|[]] [c1 w1]; cbn [fst snd]; intros (Hown1 & Hfd1 & Hout).
  { wp_run. cbn [fst snd]. destruct Hout as [-> [He [?|[Heof _]]]]; [split_and?; [done|congruence|done..]|].
    destruct Hskip as [Hs|]; [|lia]. destruct (present_blk n (S k) Hpres) as [E _]; [nia|]. congruence. }
  apply wp_bind. eapply wp_mono.
  { apply (skip_whole_ok c1 w1 L (if o =? bs then S k else k) (if o =? bs then 0 else o) n r);
      [by split| |done|lia|]; unfold skippable in *; destruct (Z.eqb_spec o bs); lia. }
  intros [e|r'] [c2 w2]; cbn [fst snd]; intros (Hown2 & Hfd2 & Hout2).
  { wp_run. cbn [fst snd]. split_and?; [done|congruence|apply Hout2..]. }
  set (o1 := if o =? bs then 0 else o) in *. assert (o1 < bs) as Hlt by (unfold o1; zcase; lia).
  destruct Hout2 as (Hr' & k' & Hin2 & Hp2 & Hskip2).
  assert (Z.of_nat k' * bs + o1 + r' = p) as Hp3.
  { unfold o1 in *. destruct (Z.eqb_spec o bs); lia. }
  destruct (Z.eqb_spec r' 0) as [->|Hnz].
  { wp_run. cbn [fst snd]. split_and?; [done|congruence|]. exists k', o1. split; [done|lia]. }
  destruct Hskip2 as [|Hskip2]; [done|]. pose proof Hin2 as (Hit2 & Hbk2 & Hrg2 & Ho2 & Hoff2 & Hbuf2).
  wp_run. rewrite (proj1 (proj1 Hown2)), Hoff2.
  apply wp_bind, wp_massert; [by apply Z.ltb_lt|]. rewrite (u32_small (bs - o1)) by lia.
  set (q := if bs - o1 <? r' then bs - o1 else r').
  assert (0 < q ∧ q ≤ r' ∧ o1 + q ≤ bs ∧ (q = r' ∨ o1 + q = bs)) as (Hq0 & Hq1 & Hq2 & Hq3) by (unfold q; zcase; lia).
  apply wp_bind, wp_massert; [by destruct (Z.eqb_spec q 0); [lia|]|]. wp_run. rewrite u32_small by lia.
  split; [|lia]. split; [exact Hown2|]. split; [cbn; congruence|]. split; [lia|].
  exists k', (o1 + q). split_and?; [|lia|].
  - split; [exact Hit2|]. split; [done|]. split; [done|]. split; [lia|]. split; [done|]. exact Hbuf2.
  - destruct Hq3 as [->|Hq3]; [left; lia|]. unfold skippable in *. lia.
Qed.

Lemma skipread_ok c w L k o n len : opened c w L k o → present n →
  0 ≤ len ≤ STREAM_MAX_TRANSFER_SIZE → len = 0 ∨ skippable n k o len →
  wp (skipread_inode len) (c, w) (skip_done (w_fds w) L (Z.of_nat k * bs + o + len)).
Proof using Hf Hdirect.
  intros [Hown Hin] Hpres Hlen Hskip. pose proof Hlen as Hlen'. unfold STREAM_MAX_TRANSFER_SIZE in Hlen'.
  unfold skipread_inode. apply wp_bind, wp_massert; [apply Z.leb_le; lia|].
  eapply (wp_loop skipread_step (skipping (w_fds w) L n (Z.of_nat k * bs + o + len) len) Z.to_nat).
  - intros r s Hs. eapply skipread_step_ok; [done|lia|done].
  - split; [done|]. split; [done|]. split; [lia|]. by exists k, o.
  - lia.
Qed.

End Read.
