(* ===== verification/Ext2File.v ===== *)
(** Opening, seeking in, reading and closing an ext2 file. *)
From S2P Require Import Prelude MiscMath StrUtil HeapIface Disk FsWorld Ext2 Ext2Block Ext2Iter Ext2Read.

(** ** The inodes on the disk *)
Section OnDisk.
Variables (C : pdisk → Z → list Z) (f : fscontext).

(** The block group of an inode and its index there. *)
Definition group_of (ino : Z) : Z := (ino - 1) / inodes_in_block_group (super f).
Definition index_of (ino : Z) : Z := (ino - 1) mod inodes_in_block_group (super f).

(** Where the descriptor of a block group is. *)
Definition descriptor_block (g : Z) : Z := g * 32 / blocksize f + blk_group_descriptor_blk f.
Definition descriptor_offset (g : Z) : Z := g * 32 mod blocksize f.

(** Where inode [ino] is, the inode table of its group starting at [table]. *)
Definition inode_block (table ino : Z) : Z :=
  table + index_of ino * inode_size (v1 (super f)) / blocksize f.
Definition inode_offset (ino : Z) : Z := index_of ino * inode_size (v1 (super f)) mod blocksize f.

(** The disk holds inode [i] as number [ino]. *)
Definition has_inode (ino : Z) (i : inode) : Prop :=
  1 ≤ ino < 2 ^ 32 ∧ 0 < inodes_in_block_group (super f) ∧ 0 < inode_size (v1 (super f)) ∧
  group_of ino < SIZE_MAX / 32 ∧ index_of ino < SIZE_MAX / inode_size (v1 (super f)) ∧
  0 ≤ blk_group_descriptor_blk f ∧ in_range f (descriptor_block (group_of ino)) ∧
  ∃ desc, parse_descriptor (drop (Z.to_nat (descriptor_offset (group_of ino)))
            (data C f (descriptor_block (group_of ino)) 1)) = Ok desc ∧
    in_range f (inode_block (inodetable desc) ino) ∧
    parse_inode f (drop (Z.to_nat (inode_offset ino)) (data C f (inode_block (inodetable desc) ino) 1)) = Ok (inr i).
End OnDisk.

Lemma parse_direct_length d offs ps : parse_direct d offs = Ok ps → length ps = length offs.
Proof.
  revert ps. induction offs as [|o offs IH]; cbn; intros ps; [by intros [= <-]|].
  intros (p & _ & (ps' & Hps & [= <-])%bind_ok)%bind_ok. cbn. f_equal. by apply IH.
Qed.

Lemma parse_inode_direct f d i : parse_inode f d = Ok (inr i) → length (direct_block_ptrs i) = 12%nat.
Proof.
  unfold parse_inode. intros H.
  repeat (apply bind_ok in H as (? & ? & H)).
  match type of H with (if ?b then _ else _) = _ => destruct b; [discriminate|] end.
  injection H as <-. cbn.
  match goal with E : parse_direct _ _ = Ok _ |- _ => exact (parse_direct_length _ _ _ E) end.
Qed.

Section File.
Context {H D : Type} `{!HeapOps H} `{!HeapLaws H} `{!PdiskOps D} `{!PdiskLaws D}.
Local Abbreviation W := (world H D).
Implicit Types (w : W) (L : list Z) (c : ino_context).
Variables (C : pdisk → Z → list Z) (f : fscontext).
Hypotheses (Hf : geometry f) (Hrel : reliable (H:=H) (D:=D)).

Local Abbreviation good := (good C (H:=H) (D:=D)).

Lemma readblocks_alloc_succeeds a w L : good w L → in_range f a →
  wp (readblocks_alloc f a 1) w (λ r w', w_fds w' = w_fds w ∧
    ∃ b, r = inr b ∧ good w' (address b :: L) ∧ bytes b = data C f a 1).
Proof using Hf Hrel.
  intros Hg Hr. eapply wp_mono; [by apply readblocks_alloc_ok|].
  intros [e|b] w' [Hfd Hout]; [by destruct Hout as (_ & ? & _)|]. split; [done|]. by exists b.
Qed.

Lemma locate_inode_ok ino i w L : good w L → has_inode C f ino i →
  wp (locate_inode f ino) w (λ r w', w_fds w' = w_fds w ∧ good w' L ∧ ∃ a, r = inr (a, inode_offset f ino) ∧
    in_range f a ∧ parse_inode f (drop (Z.to_nat (inode_offset f ino)) (data C f a 1)) = Ok (inr i)).
Proof using Hf Hrel.
  intros Hg (Hino & Hipg & Hisz & Hgr & Hix & Hbgd & Hrd & desc & Hdesc & Hri & Hpi).
  pose proof Hf as (_ & Hbs & _). unfold locate_inode, block_group_of_inode, div_, mod_.
  rewrite u32_small by lia. destruct (Z.eqb_spec (inodes_in_block_group (super f)) 0); [lia|].
  assert (0 ≤ group_of f ino) as Hg0 by (apply Z.div_pos; lia).
  apply wp_bind. eapply wp_lift; [done|]. rewrite Z.quot_div_nonneg by lia. fold (group_of f ino).
  apply wp_try. unfold read_block_group_descriptor, div_, mod_, DESCRIPTOR_SIZE.
  apply wp_bind, wp_massert; [by apply Z.ltb_lt|].
  destruct (Z.eqb_spec (blocksize f) 0); [lia|].
  apply wp_bind. eapply wp_lift; [done|]. apply wp_bind. eapply wp_lift; [done|].
  rewrite Z.quot_div_nonneg, Z.rem_mod_nonneg by lia. fold (descriptor_offset f (group_of f ino)).
  pose proof (in_range_u32 f Hf _ Hrd) as Hd32. unfold descriptor_block in Hd32.
  assert (0 ≤ group_of f ino * 32 / blocksize f) as Hq0 by (apply Z.div_pos; lia).
  unfold SIZE_MAX. rewrite (u32_small (group_of f ino * 32 / blocksize f)), (u32_small (2 ^ 32 - 1 - _)) by lia.
  apply wp_bind, wp_massert; [apply Z.ltb_lt; lia|]. rewrite u32_small by lia.
  fold (descriptor_block f (group_of f ino)).
  apply wp_bind. eapply wp_mono; [by apply readblocks_alloc_succeeds|].
  intros r w1 (Hfd1 & b & -> & Hg1 & Hb). apply wp_bind. eapply wp_lift.
  { cbn. destruct (Z.ltb_spec (descriptor_offset f (group_of f ino)) 0) as [Hneg|]; [|done].
    unfold descriptor_offset in Hneg. pose proof (Z.mod_pos_bound (group_of f ino * 32) (blocksize f)). lia. }
  apply wp_bind. eapply wp_lift; [rewrite Hb; exact Hdesc|].
  apply wp_bind. eapply wp_mono; [by apply heap_free_ok|]. intros [] w2 [Hfd2 Hg2]. apply wp_ret.
  destruct (Z.eqb_spec (inode_size (v1 (super f))) 0); [lia|].
  apply wp_bind. eapply wp_lift; [done|]. apply wp_bind. eapply wp_lift; [done|].
  rewrite (Z.rem_mod_nonneg (ino - 1) (inodes_in_block_group (super f))) by lia. fold (index_of f ino).
  assert (0 ≤ index_of f ino) as Hix0 by (apply Z.mod_pos_bound; lia).
  apply wp_bind, wp_massert; [apply Z.ltb_lt; rewrite Z.quot_div_nonneg by (unfold SIZE_MAX; lia); done|].
  apply wp_bind. eapply wp_lift; [done|]. apply wp_bind. eapply wp_lift; [done|].
  rewrite Z.quot_div_nonneg, Z.rem_mod_nonneg by nia. apply wp_ret.
  split; [congruence|]. split; [done|]. exists (inode_block f (inodetable desc) ino).
  split; [|done]. pose proof (in_range_u32 f Hf _ Hri). unfold inode_block in *. by rewrite u32_small by lia.
Qed.

(** The block map of an inode, with the first [n] blocks there. *)
Local Abbreviation present i := (present C f i).
Local Abbreviation opened i := (opened (H:=H) (D:=D) C f i).
Local Abbreviation owned i := (owned (H:=H) (D:=D) C f i).
Local Abbreviation in_block i := (in_block C f i).
Local Abbreviation bs := (blocksize f).

Lemma first_block_ok i w L n : length (direct_block_ptrs i) = 12%nat → good w L → present i n → (0 < n)%nat →
  wp next_inode_block (fresh_ino i f, w) (λ r s, r = inr tt ∧ opened i s.1 s.2 L 0 0 ∧ w_fds s.2 = w_fds w).
Proof using Hf Hrel.
  intros Hd Hg Hp Hn. destruct (present_blk C f i n 0 Hp Hn) as [Hb Hr]. pose proof Hf as (_ & Hbs & _).
  eapply wp_mono.
  { apply (next_block_ok C f i Hf Hd _ w L 0); [by split|by apply fresh_iter|by rewrite Hb|].
    rewrite Hb. by intros ? [= <-]. }
  intros [e|[]] [c1 w1]; cbn [fst snd]; intros (Hown & Hfd & Hbb & Hout).
  { destruct Hout as [_ [?|[Heof _]]]; [done|congruence]. }
  destruct Hout as (Hbk & Hrg & Hit). split_and?; [done|split; [done|]|done].
  unfold Ext2Read.in_block. rewrite Hbb. cbn. split; [exact Hit|]. split; [done|]. split; [done|]. split; [lia|done].
Qed.

Lemma closeinode_ok i c w L : owned i c w L →
  wp closeinode (c, w) (λ _ s, good s.2 L ∧ w_fds s.2 = w_fds w).
Proof using Type.
  intros [_ Hg]. unfold held, tables in Hg. rewrite <- !(assoc_L (++)) in Hg. unfold closeinode.
  eapply release_ok; [exact Hg|]. intros w1 Hfd1 Hg1.
  eapply release_ok; [exact Hg1|]. intros w2 Hfd2 Hg2.
  eapply release_ok; [exact Hg2|]. intros w3 Hfd3 Hg3. wp_run. apply wp_up.
  eapply wp_mono; [by apply (free_buf_ok C)|]. cbn. intros _ w4 [Hfd4 Hg4]. split; [done|congruence].
Qed.

Lemma rewindinode_ok i c w L n : length (direct_block_ptrs i) = 12%nat → owned i c w L →
  present i n → (0 < n)%nat →
  wp rewindinode (c, w) (λ _ s, opened i s.1 s.2 L 0 0 ∧ w_fds s.2 = w_fds w).
Proof using Hf Hrel.
  intros Hd [[Hfs Hi] Hg] Hp Hn. unfold held, tables in Hg. rewrite <- !(assoc_L (++)) in Hg.
  unfold rewindinode.
  eapply release_ok; [exact Hg|]. intros w1 Hfd1 Hg1.
  eapply release_ok; [exact Hg1|]. intros w2 Hfd2 Hg2.
  eapply release_ok; [exact Hg2|]. intros w3 Hfd3 Hg3.
  eapply release_ok; [exact Hg3|]. intros w4 Hfd4 Hg4. wp_run. rewrite Hi, Hfs.
  apply wp_bind. eapply wp_mono; [by apply (first_block_ok i w4 L n)|].
  intros r [c5 w5]; cbn [fst snd]. intros (-> & Hop & Hfd5).
  apply wp_massert; [done|]. split; [done|cbn; congruence].
Qed.

Lemma bytes_at_ok b o : 0 ≤ o → bytes_at (Some b) o = Ok (drop (Z.to_nat o) (bytes b)).
Proof using Type. clear. intros. cbn. by destruct (Z.ltb_spec o 0); [lia|]. Qed.

Lemma inode_offset_nonneg ino : 0 ≤ inode_offset f ino.
Proof using Hf. pose proof Hf as (_ & Hbs & _). apply Z.mod_pos_bound. lia. Qed.

Lemma openinode_ok out ino i w L n : good w L → out ≠ 0 → has_inode C f ino i → present i n → (0 < n)%nat →
  wp (openinode out f ino) w (λ r w', w_fds w' = w_fds w ∧ ∃ c, r = inr c ∧ opened i c w' L 0 0).
Proof using Hf Hrel.
  intros Hg Hout Hi Hp Hn. unfold openinode. apply wp_try.
  eapply wp_mono; [by apply locate_inode_ok|]. intros r w1 (Hfd1 & Hg1 & a & -> & Ha & Hpi).
  apply wp_try. eapply wp_mono; [by apply readblocks_alloc_succeeds|].
  intros r w2 (Hfd2 & b & -> & Hg2 & Hb).
  apply wp_bind. eapply wp_lift; [apply bytes_at_ok, inode_offset_nonneg|].
  destruct (Z.eqb_spec out 0); [done|]. rewrite Hb. apply wp_bind. eapply wp_lift; [exact Hpi|].
  apply wp_bind, wp_with_ino. eapply wp_mono.
  { apply (first_block_ok i w2 (address b :: L) n); [by eapply parse_inode_direct|done..]. }
  intros r [c3 w3]; cbn [fst snd]. intros (-> & [[Hb3 Hg3] Hin3] & Hfd3).
  apply wp_bind, wp_massert; [done|].
  apply wp_bind. eapply wp_mono; [apply (heap_free_ok C (address b) w3 (held c3 L))|].
  { eapply good_perm; [|exact Hg3]. unfold held. rewrite !(assoc_L (++)). by rewrite Permutation_middle. }
  intros _ w4 [Hfd4 Hg4]. apply wp_ret. split; [congruence|]. exists c3. split; [done|]. by split.
Qed.

Lemma seek_inode_ok i c w L n offset : length (direct_block_ptrs i) = 12%nat → owned i c w L →
  present i n → 0 ≤ offset ≤ STREAM_MAX_TRANSFER_SIZE → offset < Z.of_nat n * bs →
  wp (seek_inode offset SEEK_SET) (c, w) (λ r s, r = inr tt ∧ owned i s.1 s.2 L ∧ w_fds s.2 = w_fds w ∧
    ∃ k o, in_block i s.1 k o ∧ Z.of_nat k * bs + o = offset).
Proof using Hf Hrel.
  intros Hd Hown Hp Hoff Hn. pose proof Hf as (_ & Hbs & _). pose proof Hoff as Hoff'.
  unfold STREAM_MAX_TRANSFER_SIZE in Hoff'. unfold seek_inode. cbn [Z.eqb SEEK_SET].
  apply wp_bind. eapply wp_mono; [apply (rewindinode_ok i c w L n); done || lia|].
  intros [] [c1 w1]; cbn [fst snd]. intros (Hop & Hfd1).
  destruct (decide (offset = 0)) as [->|Hnz].
  { exists (inr tt), (c1, w1). split; [done|]. destruct Hop as [Hown1 Hin1].
    split_and?; [done..|]. exists 0%nat, 0. done. }
  assert (wp (seek_step offset) (c1, w1) (λ y s, y = inl 0 ∧ owned i s.1 s.2 L ∧ w_fds s.2 = w_fds w ∧
    ∃ k o, in_block i s.1 k o ∧ Z.of_nat k * bs + o = offset)) as (y & [c2 w2] & Hs & -> & Hout).
  { unfold seek_step. destruct (Z.eqb_spec offset 0); [done|].
    destruct (Z.ltb_spec SIZE_MAX offset) as [|_]; [unfold SIZE_MAX in *; lia|].
    apply wp_bind, wp_massert; [by destruct (Z.eqb_spec offset 0)|]. rewrite u32_small by lia.
    apply wp_bind. eapply wp_mono.
    { apply (skipread_ok C f i Hf Hd c1 w1 L 0 0 n offset); [done..|]. right. left. lia. }
    intros [e|[]] [c2 w2] (Hown2 & Hfd2 & Hout); cbn [fst snd] in *; [by destruct Hout as [_ ?]|].
    wp_run. cbn [fst snd]. split_and?; [f_equal; lia|done|congruence|].
    destruct Hout as (k & o & ? & ?). exists k, o. split; [done|lia]. }
  exists (inr tt), (c2, w2). split; [|done]. rewrite (loop_m_step _ _ _ _ _ _ Hs).
  by erewrite loop_m_step by reflexivity.
Qed.

(** ** Open files *)

(** An open file of [n] blocks: the block iterator is where the cursor is, or
    the whole file has been read. *)
Definition file_state (i : inode) (n : nat) (o : openfdcontext) w L : Prop :=
  owned i (ino_of o) w L ∧ 0 ≤ cursorpos o ≤ size i ∧
  (cursorpos o = size i ∨ ∃ k off, in_block i (ino_of o) k off ∧ cursorpos o = Z.of_nat k * bs + off).

(** The file has [n] blocks, which hold its [size] bytes. *)
Definition file_blocks (i : inode) (n : nat) : Prop :=
  length (direct_block_ptrs i) = 12%nat ∧ present i n ∧
  (size i < Z.of_nat n * bs ∨ size i = Z.of_nat n * bs ∧ block_map C f i n = Eof).

Definition file_contents (i : inode) (n : nat) : list Z := take (Z.to_nat (size i)) (fdata C f i n).

Lemma read_nothing c w buf : read_inode buf 0 (c, w) = Ok (buf, inr tt, (c, w)).
Proof using Type. reflexivity. Qed.

(** C16: reading an open file. *)
Theorem ext2_read_correct i n o w L buf len : file_blocks i n → file_state i n o w L →
  0 ≤ len ≤ STREAM_MAX_TRANSFER_SIZE → len ≤ Z.of_nat (length buf) →
  let r := Z.min len (size i - cursorpos o) in
  wp (fd_op_read o buf len) w (λ x w', w_fds w' = w_fds w ∧
    x.1 = (r, take (Z.to_nat r) (drop (Z.to_nat (cursorpos o)) (file_contents i n)) ++ drop (Z.to_nat r) buf) ∧
    cursorpos x.2 = cursorpos o + r ∧ file_state i n x.2 w' L).
Proof using Hf Hrel.
  intros (Hd & Hp & Hsz) (Hown & Hc & Hpos) Hlen Hbuf r. pose proof Hlen as Hlen'.
  unfold STREAM_MAX_TRANSFER_SIZE in Hlen'.
  unfold fd_op_read. apply wp_bind, wp_massert; [apply Z.leb_le; unfold STREAM_MAX_TRANSFER_SIZE; lia|].
  pose proof Hown as [[Hfs Hi] _]. rewrite Hi.
  assert ((if size i - cursorpos o <? len then u32 (size i - cursorpos o) else len) = r) as ->.
  { unfold r. destruct (Z.ltb_spec (size i - cursorpos o) len); [rewrite u32_small|]; lia. }
  assert (0 ≤ r ∧ r ≤ len ∧ cursorpos o + r ≤ size i) as (Hr0 & Hr1 & Hr2) by lia. clearbody r.
  assert (take (Z.to_nat r) (drop (Z.to_nat (cursorpos o)) (file_contents i n)) =
          take (Z.to_nat r) (drop (Z.to_nat (cursorpos o)) (fdata C f i n))) as ->.
  { unfold file_contents. rewrite skipn_firstn_comm, take_take. f_equal. lia. }
  apply wp_bind, wp_with_ino. destruct (decide (r = 0)) as [->|Hrnz].
  - exists (buf, inr tt), (ino_of o, w). split; [apply read_nothing|]. apply wp_ret. cbn.
    split_and?; [done|by rewrite drop_0|done|]. unfold file_state. cbn. rewrite Z.add_0_r. done.
  - destruct Hpos as [|(k & off & Hin & Hcur)]; [lia|].
    eapply wp_mono.
    { apply (read_inode_ok C f i Hf Hd (ino_of o) w L k off n buf r); [by split|done|..].
      - unfold STREAM_MAX_TRANSFER_SIZE. lia.
      - lia.
      - destruct Hsz as [|[? ?]]; [lia|]. destruct (decide (cursorpos o + r = size i)); [right; split; [lia|done]|lia]. }
    intros [b [e|[]]] [c1 w1]; cbn [fst snd]; intros (Hown1 & Hfd1 & Hout); [by destruct Hout as [_ ?]|].
    destruct Hout as [-> Harr]. rewrite <- Hcur in *. apply wp_ret. cbn.
    rewrite s32_small by lia. split_and?; [done..|]. unfold file_state. cbn. split_and?; [done|lia|lia|].
    destruct Harr as [?|[[He _]|(k1 & o1 & Hin1 & Hp1)]]; [done|left; lia|right; by exists k1, o1].
Qed.

Lemma fd_op_seek_ok i n o w L offset : file_blocks i n → file_state i n o w L →
  0 ≤ offset ≤ STREAM_MAX_TRANSFER_SIZE → offset < Z.of_nat n * bs →
  wp (fd_op_seek o offset SEEK_SET) w (λ x w', w_fds w' = w_fds w ∧ x.1 = 0 ∧
    owned i (ino_of x.2) w' L ∧ cursorpos x.2 = cursorpos o ∧ fd_address x.2 = fd_address o ∧
    ∃ k off, in_block i (ino_of x.2) k off ∧ Z.of_nat k * bs + off = offset).
Proof using Hf Hrel.
  intros (Hd & Hp & Hsz) (Hown & Hc & Hpos) Hoff Hn. unfold fd_op_seek.
  apply wp_bind, wp_with_ino. eapply wp_mono; [by apply (seek_inode_ok i _ w L n)|].
  intros r [c1 w1]; cbn [fst snd]. intros (-> & Hown1 & Hfd & Hout). apply wp_ret. done.
Qed.

End File.
