(* ===== verification/Ext2Dir.v ===== *)
(** Directories of an ext2 file system, and the resolution of paths. *)
From S2P Require Import Prelude MiscMath StrUtil HeapIface PathReader Disk FsWorld.
From S2P Require Import Ext2 Ext2Block Ext2Iter Ext2Read Ext2File.

(** ** Directories on the disk *)

Record dentry := Dentry { de_ino : Z; de_reclen : Z; de_type : Z; de_name : list Z }.

Definition entry_header (e : dentry) : list Z :=
  le_bytes 4 (de_ino e) ++ le_bytes 2 (de_reclen e) ++ [Z.of_nat (length (de_name e)); de_type e].

(** The byte after the length of a name belongs to it in the file systems that
    have no types in directory entries. *)
Definition typed (f : fscontext) : bool :=
  negb (Z.land (required_features (v1 (super f))) REQUIRED_FEATUREFLAG_DIRENTRY_CONTAINS_TYPE_FIELD =? 0).

Definition entry_wf (f : fscontext) (e : dentry) : Prop :=
  is_u32 (de_ino e) ∧ de_reclen e < 2 ^ 16 ∧ 8 + Z.of_nat (length (de_name e)) ≤ de_reclen e ∧
  Z.of_nat (length (de_name e)) ≤ NAME_MAX ∧ 0 ≤ de_type e < 256 ∧
  (typed f = true ∨ de_type e = 0) ∧ Forall (λ b, 0 < b < 256) (de_name e).

(** The bytes [fd] of a directory of [size] bytes hold the entries [es] from [p]
    on; no entry crosses a block boundary. *)
Fixpoint dir_at (f : fscontext) (fd : list Z) (size p : Z) (es : list dentry) : Prop :=
  match es with
  | [] => p = size
  | e :: es =>
      entry_wf f e ∧ p mod blocksize f + de_reclen e ≤ blocksize f ∧
      take 8 (drop (Z.to_nat p) fd) = entry_header e ∧
      take (length (de_name e)) (drop (Z.to_nat (p + 8)) fd) = de_name e ∧
      dir_at f fd size (p + de_reclen e) es
  end.

(** What the driver makes of an entry. *)
Definition dirent_of (e : dentry) : dirent :=
  Dirent (de_ino e) (s8 <$> (de_name e ++ replicate (256 - length (de_name e)) 0)).

(** The first entry that is in use, and the entries after it. *)
Fixpoint next_used (es : list dentry) : option (dentry * list dentry) :=
  match es with
  | [] => None
  | e :: es => if de_ino e =? 0 then next_used es else Some (e, es)
  end.

(** The entry of a name, as [char]s. *)
Fixpoint find_name (name : list Z) (es : list dentry) : option dentry :=
  match es with
  | [] => None
  | e :: es =>
      if negb (de_ino e =? 0) && bool_decide (s8 <$> de_name e = name) then Some e
      else find_name name es
  end.

Lemma next_used_length es e es' : next_used es = Some (e, es') → (length es' < length es)%nat.
Proof.
  induction es as [|e0 es IH]; cbn; [done|]. zcase; [intros ?%IH; lia|intros [= <- <-]; lia].
Qed.

Lemma find_name_next name es : find_name name es =
  match next_used es with
  | None => None
  | Some (e, es') => if bool_decide (s8 <$> de_name e = name) then Some e else find_name name es'
  end.
Proof.
  induction es as [|e es IH]; cbn; [done|]. destruct (de_ino e =? 0); cbn; [done|].
  by destruct (bool_decide _).
Qed.

Lemma dir_at_le f fd size p es : dir_at f fd size p es → p ≤ size.
Proof.
  revert p. induction es as [|e es IH]; cbn; intros p; [lia|].
  intros ((_ & _ & Hr & _) & _ & _ & _ & Hd). apply IH in Hd. lia.
Qed.

Lemma dirent_name f e : entry_wf f e → cstr (d_name (dirent_of e)) (s8 <$> de_name e).
Proof.
  intros (_ & _ & _ & Hl & _ & _ & Hb). unfold NAME_MAX in Hl. split.
  - intros (b & Hz & Hin)%list_elem_of_fmap. rewrite Forall_forall in Hb. specialize (Hb b Hin).
    unfold s8 in Hz. dlia.
  - exists (s8 <$> replicate (255 - length (de_name e)) 0). cbn. rewrite fmap_app. f_equal.
    by replace (256 - length (de_name e))%nat with (S (255 - length (de_name e))) by lia.
Qed.

Section Dir.
Context {H D : Type} `{!HeapOps H} `{!HeapLaws H} `{!PdiskOps D} `{!PdiskLaws D}.
Local Abbreviation W := (world H D).
Implicit Types (w : W) (L : list Z) (c : ino_context).
Variables (C : pdisk → Z → list Z) (f : fscontext).
Hypotheses (Hf : geometry f) (Hrel : reliable (H:=H) (D:=D)).
Local Abbreviation bs := (blocksize f).

Section OneDir.
Variables (i : inode) (n : nat).
Hypotheses (Hdirect : length (direct_block_ptrs i) = 12%nat) (Hpres : present C f i n)
  (Heof : block_map C f i n = Eof).
Local Abbreviation dir p es := (dir_at f (fdata C f i n) (Z.of_nat n * bs) p es).

(** An open directory at byte [p]. *)
Definition dir_pos c w L (p : Z) : Prop :=
  owned (H:=H) (D:=D) C f i c w L ∧ ∃ k o, in_block C f i c k o ∧ p = Z.of_nat k * bs + o.

Lemma read_small_ok c w L p buf len : dir_pos c w L p → 0 ≤ len < 1024 → len ≤ Z.of_nat (length buf) →
  p + len ≤ Z.of_nat n * bs →
  wp (read_inode buf len) (c, w) (λ x s, w_fds s.2 = w_fds w ∧ dir_pos s.1 s.2 L (p + len) ∧
    x = (take (Z.to_nat len) (drop (Z.to_nat p) (fdata C f i n)) ++ drop (Z.to_nat len) buf, inr tt)).
Proof using All.
  intros (Hown & k & o & Hin & ->) Hlen Hbuf Hle. pose proof Hf as (_ & Hbs & _).
  eapply wp_mono.
  { apply (read_inode_ok C f i Hf Hdirect c w L k o n buf len); [by split|done| |done|].
    - unfold STREAM_MAX_TRANSFER_SIZE. lia.
    - destruct (decide (Z.of_nat k * bs + o + len = Z.of_nat n * bs)); [by right|left; lia]. }
  intros [b [e|[]]] [c1 w1]; cbn [fst snd]; intros (Hown1 & Hfd1 & Hout); [by destruct Hout|].
  destruct Hout as [-> [?|[[_ ?]|(k1 & o1 & Hin1 & Hp1)]]]; [done|lia|].
  split_and?; [done| |done]. split; [done|]. exists k1, o1. split; [done|lia].
Qed.

Lemma skip_small_ok c w L p len : dir_pos c w L p → 0 ≤ len < 2 ^ 16 →
  (len = 0 ∨ 0 < p mod bs ∧ p mod bs + len ≤ bs) →
  wp (skipread_inode len) (c, w) (λ r s, r = inr tt ∧ w_fds s.2 = w_fds w ∧ dir_pos s.1 s.2 L (p + len)).
Proof using All.
  intros (Hown & k & o & Hin & ->) Hlen Hle. pose proof Hf as (_ & Hbs & _).
  pose proof Hin as (_ & _ & _ & Ho & _). eapply wp_mono.
  { apply (skipread_ok C f i Hf Hdirect c w L k o n len); [by split|done|unfold STREAM_MAX_TRANSFER_SIZE; lia|].
    destruct Hle as [|Hle]; [by left|right; right].
    rewrite Z.add_comm, Z.mod_add in Hle by lia. destruct (decide (o = bs)) as [->|].
    - rewrite Z.mod_same in Hle by lia. lia.
    - rewrite Z.mod_small in Hle by lia. lia. }
  intros [e|[]] [c1 w1] (Hown1 & Hfd1 & Hout); cbn [fst snd] in *; [by destruct Hout|].
  destruct Hout as (k1 & o1 & Hin1 & Hp1). split_and?; [done..|]. split; [done|]. exists k1, o1.
  split; [done|lia].
Qed.

(** After the header and the name of an entry, the rest of it is skipped. *)
Lemma entry_rest p e : entry_wf f e → p mod bs + de_reclen e ≤ bs →
  let q := p + 8 + Z.of_nat (length (de_name e)) in
  let rest := de_reclen e - (8 + Z.of_nat (length (de_name e))) in
  rest = 0 ∨ 0 < q mod bs ∧ q mod bs + rest ≤ bs.
Proof using Hf.
  clear Hrel Hdirect Hpres Heof. intros (_ & _ & Hr & _) Hle q rest. pose proof Hf as (_ & Hbs & _).
  destruct (decide (rest = 0)) as [|Hne]; [by left|right].
  assert (q mod bs = p mod bs + (8 + Z.of_nat (length (de_name e)))) as ->; [|unfold rest in *].
  - unfold q. rewrite <- Z.add_assoc, <- Zplus_mod_idemp_l. pose proof (Z.mod_pos_bound p bs ltac:(lia)).
    apply Z.mod_small. unfold rest in *. lia.
  - pose proof (Z.mod_pos_bound p bs ltac:(lia)). lia.
Qed.

Lemma read_directory_step_ok c w L p e es : dir p (e :: es) → dir_pos c w L p →
  wp (read_directory_step tt) (c, w) (λ y s, w_fds s.2 = w_fds w ∧ dir_pos s.1 s.2 L (p + de_reclen e) ∧
    y = if de_ino e =? 0 then inl tt else inr (inr (dirent_of e))).
Proof using All.
  intros (Hwf & Hfit & Hhd & Hname & Hrest) Hp. pose proof (dir_at_le _ _ _ _ _ Hrest) as Hle.
  pose proof (entry_rest p e Hwf Hfit) as Hskip.
  destruct Hwf as (Hino & Hr1 & Hr0 & Hnl & Hty & Htyped & Hb). unfold NAME_MAX in Hnl.
  unfold read_directory_step. apply wp_bind. eapply wp_mono; [apply read_small_ok; [done|lia|done|lia]|].
  intros x [c1 w1]; cbn [fst snd]. intros (Hfd1 & Hp1 & ->). change (Z.to_nat 8) with 8%nat.
  rewrite Hhd. change (drop 8 (replicate 8 0)) with ([] : list Z). rewrite app_nil_r. unfold entry_header.
  apply wp_bind. eapply wp_lift; [by apply u32le_of_bytes|].
  apply wp_bind. eapply wp_lift; [apply (u16le_of_bytes (de_reclen e)); lia|].
  apply wp_bind. eapply wp_lift; [reflexivity|]. apply wp_bind. eapply wp_lift; [reflexivity|].
  wp_run. destruct Hp1 as [Hown1 Hin1]. rewrite (proj1 (proj1 Hown1)).
  assert ((Z.land (required_features (v1 (super f))) REQUIRED_FEATUREFLAG_DIRENTRY_CONTAINS_TYPE_FIELD =? 0)
          && negb (de_type e =? 0) = false) as ->.
  { destruct Htyped as [Ht| ->]; [|by rewrite andb_false_r].
    unfold typed in Ht. by apply negb_true_iff in Ht as ->. }
  apply wp_bind. eapply wp_mono.
  { apply (read_small_ok c1 w1 L (p + 8) _ (Z.of_nat (length (de_name e)))); [by split|lia| |lia].
    rewrite length_replicate. unfold NAME_MAX. lia. }
  intros x [c2 w2]; cbn [fst snd]. intros (Hfd2 & Hp2 & ->).
  rewrite Nat2Z.id, Hname, drop_replicate. unfold NAME_MAX. change (Z.to_nat (255 + 1)) with 256%nat.
  rewrite (Z.add_comm (Z.of_nat (length (de_name e))) 8), u32_small by lia.
  apply wp_bind. eapply wp_mono; [by apply skip_small_ok; [|lia|]|].
  intros r [c3 w3]; cbn [fst snd]. intros (-> & Hfd3 & Hp3).
  replace (p + 8 + Z.of_nat (length (de_name e)) + (de_reclen e - (8 + Z.of_nat (length (de_name e)))))
    with (p + de_reclen e) in Hp3 by lia.
  destruct (Z.eqb_spec (de_ino e) 0); cbn [negb]; wp_run; cbn [fst snd]; (split_and?; [congruence|done..]).
Qed.

(** The position after the entries before [es']. *)
Definition dir_open c w L (es : list dentry) : Prop := ∃ p, dir p es ∧ dir_pos c w L p.

Lemma dir_end c w L : dir_open c w L [] → ∃ k, opened (H:=H) (D:=D) C f i c w L k bs ∧ S k = n.
Proof using All.
  intros (p & -> & Hown & k & o & Hin & Hp). pose proof Hin as (_ & Hbk & _ & Ho & _). pose proof Hf as (_ & Hbs & _).
  destruct (decide (k = n)) as [->|]; [congruence|].
  assert (S k = n) as <- by nia. exists k. split; [|done]. split; [done|]. by replace bs with o by nia.
Qed.

Lemma read_directory_ok fuel c w L es : (length es < fuel)%nat → dir_open c w L es →
  wp (read_directory fuel) (c, w) (λ r s, w_fds s.2 = w_fds w ∧
    match next_used es with
    | Some (e, es') => r = inr (dirent_of e) ∧ entry_wf f e ∧ dir_open s.1 s.2 L es'
    | None => r = inl (- ENOENT) ∧ owned (H:=H) (D:=D) C f i s.1 s.2 L
    end).
Proof using All.
  revert c w es. induction fuel as [|fuel IH]; intros c w es Hfuel Ho; [lia|].
  unfold read_directory. destruct es as [|e es].
  - destruct (dir_end _ _ _ Ho) as (k & Hop & <-).
    assert (wp (read_directory_step tt) (c, w) (λ y s, w_fds s.2 = w_fds w ∧ y = inr (inl (- ENOENT)) ∧
      owned (H:=H) (D:=D) C f i s.1 s.2 L)) as (y & s & Hs & Hfd & -> & Hown).
    { unfold read_directory_step. apply wp_bind. eapply wp_mono.
      { apply (read_inode_eof C f i Hf Hdirect c w L k _ 8 Hop Heof). unfold STREAM_MAX_TRANSFER_SIZE. lia. }
      intros [b [e|[]]] [c1 w1]; cbn [fst snd]; intros (Hown1 & Hfd1 & _ & Hout); [|done].
      wp_run. cbn [fst snd]. destruct Hout as [_ [?| ->]]; [done|]. split_and?; done. }
    exists (inl (- ENOENT)), s. rewrite (loop_m_step _ _ _ _ _ _ Hs). done.
  - destruct Ho as (p & Hd & Hp). destruct (read_directory_step_ok c w L p e es Hd Hp) as (y & [c1 w1] & Hs & Hfd & Hp1 & ->).
    cbn [fst snd] in *. unfold wp. rewrite (loop_m_step _ _ _ _ _ _ Hs). cbn [next_used].
    pose proof Hd as (Hwf & _ & _ & _ & Hd').
    destruct (Z.eqb_spec (de_ino e) 0).
    + destruct (IH c1 w1 es) as (r & s & Hr & Hfd2 & Hout); [cbn in *; lia|by exists (p + de_reclen e)|].
      exists r, s. split; [done|]. split; [congruence|done].
    + eexists _, _. split; [done|]. split_and?; [done..|]. by exists (p + de_reclen e).
Qed.

Lemma search_directory_ok fuel fuel' name cs cur c w L es : cstr name cs →
  (length es < fuel)%nat → (length es < fuel')%nat → dir_open c w L es →
  wp (loop_m fuel' (search_step fuel name) cur) (c, w) (λ r s, w_fds s.2 = w_fds w ∧
    owned (H:=H) (D:=D) C f i s.1 s.2 L ∧
    match find_name cs es with
    | Some e => r = (de_ino e, inr tt)
    | None => r.2 = inl (- ENOENT)
    end).
Proof using All.
  intros Hname Hfuel. revert cur c w es Hfuel. induction fuel' as [|fuel' IH]; intros cur c w es Hfuel Hfuel' Ho; [lia|].
  destruct (read_directory_ok fuel c w L es Hfuel Ho) as (r & [c1 w1] & Hr & Hfd & Hout). cbn [fst snd] in *.
  rewrite find_name_next. destruct (next_used es) as [[e es']|] eqn:Enext.
  - destruct Hout as (-> & Hwf & Ho1). pose proof (next_used_length _ _ _ Enext).
    destruct (kstrcmp_ok name (d_name (dirent_of e)) cs (s8 <$> de_name e)) as (r & Hcmp & Heq);
      [done|by eapply dirent_name|].
    assert (search_step fuel name cur (c, w) =
      Ok (if r =? 0 then inr (de_ino e, inr tt) else inl (de_ino e), (c1, w1))) as Hs.
    { unfold search_step. rewrite (M_bind_step _ _ _ _ _ Hr). unfold lift, mbind, M_bind. rewrite Hcmp.
      by destruct (r =? 0). }
    unfold wp. rewrite (loop_m_step _ _ _ _ _ _ Hs). destruct (Z.eqb_spec r 0) as [E|E].
    + rewrite bool_decide_true by (symmetry; by apply Heq). eexists _, _. split; [done|].
      destruct Ho1 as (q & _ & Hown1 & _). done.
    + rewrite bool_decide_false by (intros E'; by apply E, Heq).
      destruct (IH (de_ino e) c1 w1 es') as (r' & s & Hr' & Hfd2 & Hout); [lia|lia|done|].
      exists r', s. split; [done|]. split; [congruence|done].
  - destruct Hout as [-> Hown]. exists (cur, inl (- ENOENT)), (c1, w1). split; [|done].
    assert (search_step fuel name cur (c, w) = Ok (inr (cur, inl (- ENOENT)), (c1, w1))) as Hs.
    { unfold search_step. by rewrite (M_bind_step _ _ _ _ _ Hr). }
    by rewrite (loop_m_step _ _ _ _ _ _ Hs).
Qed.

End OneDir.
(** ** Trees of directories *)

Definition is_directory (i : inode) : Prop :=
  Z.land (typeandpermissions i) INODE_TYPE_MASK = INODE_TYPE_DIRECTORY.

Definition dir_blocks (i : inode) (n : nat) (es : list dentry) : Prop :=
  (0 < n)%nat ∧ present C f i n ∧ block_map C f i n = Eof ∧
  dir_at f (fdata C f i n) (Z.of_nat n * bs) 0 es.

(** What the disk holds as an inode number. *)
Inductive node := Dir (es : list dentry) | Leaf.

Definition has_node (ino : Z) (x : node) : Prop :=
  ∃ i, has_inode C f ino i ∧
  match x with
  | Dir es => is_directory i ∧ ∃ n, dir_blocks i n es
  | Leaf => ¬ is_directory i ∧ present C f i 1
  end.

(** Following a path in a tree: the inode number or the error number. *)
Fixpoint walk (tree : Z → option node) (names : list (list Z)) (ino : Z) : option (Z + Z) :=
  match names with
  | [] => Some (inr ino)
  | name :: names =>
      match tree ino with
      | None => None
      | Some Leaf => Some (inl (- ENOTDIR))
      | Some (Dir es) =>
          match find_name name es with
          | None => Some (inl (- ENOENT))
          | Some e => walk tree names (de_ino e)
          end
      end
  end.

Local Abbreviation good := (good C (H:=H) (D:=D)).

Lemma has_inode_direct ino i : has_inode C f ino i → length (direct_block_ptrs i) = 12%nat.
Proof using Type.
  intros (_ & _ & _ & _ & _ & _ & _ & desc & _ & _ & Hp). by eapply parse_inode_direct.
Qed.

Lemma heap_alloc_succeeds_ok size flags w L : good w L →
  wp (on_heap (heap_alloc size flags)) w (λ p w', w_fds w' = w_fds w ∧ p ≠ 0 ∧ good w' (p :: L)).
Proof using Hrel.
  intros Hg. eapply wp_mono; [by apply heap_alloc_ok|]. cbn.
  intros p w1 (Hfd & [(_ & ? & _)|[Hne Hg1]]); done.
Qed.

Lemma open_directory_ok ino es w L : good w L → has_node ino (Dir es) →
  wp (open_directory f ino) w (λ r w', w_fds w' = w_fds w ∧ ∃ d i n, r = inr d ∧
    length (direct_block_ptrs i) = 12%nat ∧ dir_blocks i n es ∧
    dir_open i n (inocontext d) w' (dir_address d :: L) es).
Proof using Hf Hrel.
  intros Hg (i & Hi & Hty & n & Hdb). pose proof Hdb as (Hn & Hp & He & Hd). unfold open_directory.
  apply wp_bind. eapply wp_mono; [by apply heap_alloc_succeeds_ok|]. intros dir w1 (Hfd1 & Hne & Hg1).
  destruct (Z.eqb_spec dir 0); [done|].
  apply wp_bind. eapply wp_mono; [by eapply (openinode_ok C f Hf Hrel dir ino i w1 (dir :: L) n)|].
  intros r w2 (Hfd2 & c & -> & Hop). pose proof Hop as [[[Hfs Hino] _] _].
  rewrite Hino, Hty. cbn [Z.eqb negb INODE_TYPE_DIRECTORY Pos.eqb]. apply wp_ret. split; [congruence|].
  exists (Directory dir c), i, n. split_and?; [done|by eapply has_inode_direct|done|]. exists 0.
  split; [done|]. destruct Hop as [Hown Hin]. split; [done|]. exists 0%nat, 0. done.
Qed.

Lemma open_leaf_ok ino w L : good w L → has_node ino Leaf →
  wp (open_directory f ino) w (λ r w', w_fds w' = w_fds w ∧ r = inl (- ENOTDIR) ∧ good w' L).
Proof using Hf Hrel.
  intros Hg (i & Hi & Hty & Hp). unfold open_directory.
  apply wp_bind. eapply wp_mono; [by apply heap_alloc_succeeds_ok|]. intros dir w1 (Hfd1 & Hne & Hg1).
  destruct (Z.eqb_spec dir 0); [done|].
  apply wp_bind. eapply wp_mono; [by eapply (openinode_ok C f Hf Hrel dir ino i w1 (dir :: L) 1); [..|lia]|].
  intros r w2 (Hfd2 & c & -> & Hop). pose proof Hop as [Hown _]. pose proof Hown as [[Hfs Hino] _].
  rewrite Hino. destruct (Z.eqb_spec (Z.land (typeandpermissions i) INODE_TYPE_MASK) INODE_TYPE_DIRECTORY); [done|].
  cbn [negb]. apply wp_bind, wp_with_ino. eapply wp_mono; [by eapply closeinode_ok|].
  intros [] [c3 w3]; cbn [fst snd]. intros [Hg3 Hfd3].
  apply wp_bind. eapply wp_mono; [by apply heap_free_ok|]. intros [] w4 [Hfd4 Hg4]. apply wp_ret.
  split_and?; [congruence|done..].
Qed.

Lemma close_directory_ok i d w L : owned (H:=H) (D:=D) C f i (inocontext d) w (dir_address d :: L) →
  wp (close_directory d) w (λ _ w', good w' L ∧ w_fds w' = w_fds w).
Proof using Type.
  intros Hown. unfold close_directory. apply wp_bind, wp_with_ino.
  eapply wp_mono; [by eapply closeinode_ok|]. intros [] [c1 w1]; cbn [fst snd]. intros [Hg1 Hfd1].
  eapply wp_mono; [by apply heap_free_ok|]. intros [] w2 [Hfd2 Hg2]. split; [done|congruence].
Qed.

Section Resolve.
Variables (tree : Z → option node) (fuel : nat).
Hypotheses (Htree : ∀ ino x, tree ino = Some x → has_node ino x)
  (Hfuel : ∀ ino es, tree ino = Some (Dir es) → (length es < fuel)%nat).

Lemma resolve_loop ps : ∀ fuel' ino reader cs w L r, good w L → reads reader cs → components cs = ps →
  Forall (λ p, Z.of_nat (length p) ≤ NAME_MAX) ps → (length ps < fuel')%nat →
  walk tree ps ino = Some r →
  wp (loop_m fuel' (resolve_step fuel f) (ino, reader)) w (λ r' w', r' = r ∧ w_fds w' = w_fds w ∧ good w' L).
Proof using All.
  induction ps as [|p ps IH]; intros fuel' ino reader cs w L r Hg Hrd Hcs Hlen Hfl Hw;
    destruct fuel' as [|fuel']; [lia| |lia|];
    destruct (pathreader_next_ok reader cs Hrd) as ([[ret name] reader'] & Hnext & Hout);
    unfold next_outcome in Hout; rewrite Hcs in Hout; cbn in Hout.
  - injection Hout as -> ->. injection Hw as <-. exists (inr ino), w. split; [|done].
    rewrite (loop_m_step _ _ _ _ (inr (inr ino)) w); [done|]. unfold resolve_step, lift, mbind, M_bind. by rewrite Hnext.
  - apply Forall_cons in Hlen as [Hp Hlen]. destruct Hout as [[_ ?]|(nm & cs' & [= -> ->] & Hnm & Hrd' & Hcs')]; [lia|].
    assert (∀ Q, wp (r ← open_directory f ino;
        match r with
        | inl e => mret (inr (inl e))
        | inr dir =>
            '(current_ino, r, c) ← with_ino (search_directory fuel nm ino) (inocontext dir);
            _ ← close_directory (Directory (dir_address dir) c);
            match r with
            | inl e => mret (inr (inl e))
            | inr _ => mret (inl (current_ino, reader'))
            end
        end) w Q → wp (resolve_step fuel f (ino, reader)) w Q) as Hstep.
    { intros Q HQ. unfold resolve_step. apply wp_bind. eapply wp_lift; [exact Hnext|]. exact HQ. }
    cbn in Hw. destruct (tree ino) as [[es|]|] eqn:Et; [| |done].
    + assert (wp (resolve_step fuel f (ino, reader)) w (λ y w', w_fds w' = w_fds w ∧ good w' L ∧
        y = match find_name p es with None => inr (inl (- ENOENT)) | Some e => inl (de_ino e, reader') end))
        as (y & w1 & Hs & Hfd1 & Hg1 & ->).
      { apply Hstep. apply wp_bind. eapply wp_mono; [by apply open_directory_ok, Htree|].
        intros x w1 (Hfd1 & d & i & n & -> & Hd12 & (Hn & Hpr & He & Hda) & Hop).
        apply wp_bind, wp_with_ino. eapply wp_mono.
        { apply (search_directory_ok i n Hd12 Hpr He fuel fuel nm p ino (inocontext d) w1 (dir_address d :: L) es); [done|eauto..|done]. }
        intros [cur rs] [c2 w2]; cbn [fst snd]. intros (Hfd2 & Hown2 & Hres).
        apply wp_bind. eapply wp_mono; [by eapply (close_directory_ok i (Directory (dir_address d) c2))|].
        intros [] w3 [Hg3 Hfd3]. destruct (find_name p es) as [e|]; [injection Hres as -> ->|rewrite Hres];
          apply wp_ret; (split_and?; [congruence|done..]). }
      unfold wp. rewrite (loop_m_step _ _ _ _ _ _ Hs). destruct (find_name p es) as [e|].
      * destruct (IH fuel' (de_ino e) reader' cs' w1 L r) as (r' & w2 & Hr & -> & Hfd2 & Hg2); [done..|cbn in *; lia|done|].
        exists r, w2. split; [done|]. split_and?; [done|congruence|done].
      * injection Hw as <-. eexists _, _. split; [done|]. done.
    + assert (wp (resolve_step fuel f (ino, reader)) w (λ y w', w_fds w' = w_fds w ∧ good w' L ∧
        y = inr (inl (- ENOTDIR)))) as (y & w1 & Hs & Hfd1 & Hg1 & ->).
      { apply Hstep. apply wp_bind. eapply wp_mono; [by apply open_leaf_ok, Htree|].
        intros x w1 (Hfd1 & -> & Hg1). by apply wp_ret. }
      unfold wp. rewrite (loop_m_step _ _ _ _ _ _ Hs). injection Hw as <-. by eexists _, _.
Qed.

End Resolve.
End Dir.
