(* ===== verification/Ext2Correct.v ===== *)
(** What the ext2 driver does, from the block map up to opening a file by its
    path, on a concrete file system as well; and what it gets wrong. *)
From S2P Require Import Prelude MiscMath StrUtil HeapIface PathReader Disk FsWorld.
From S2P Require Import Ext2 Ext2Block Ext2Iter Ext2Read Ext2File Ext2Dir.

(** ** Opening a file by its path *)
Section Open.
Context {H D : Type} `{!HeapOps H} `{!HeapLaws H} `{!PdiskOps D} `{!PdiskLaws D}.
Local Abbreviation W := (world H D).
Implicit Types (w : W) (L : list Z).
Variables (C : pdisk → Z → list Z) (f : fscontext).
Hypotheses (Hf : geometry f) (Hrel : reliable (H:=H) (D:=D)).
Local Abbreviation good := (good C (H:=H) (D:=D)).

Lemma openfile_ok out ino i n w L : good w L → out ≠ 0 → has_inode C f ino i →
  present C f i n → (0 < n)%nat →
  wp (openfile out f ino) w (λ r w', w_fds w' = w_fds w ∧
    if decide (is_directory i) then r = inl (- EISDIR) ∧ good w' L
    else ∃ c, r = inr c ∧ opened (H:=H) (D:=D) C f i c w' L 0 0).
Proof using Hf Hrel.
  intros Hg Hout Hi Hp Hn. unfold openfile. apply wp_bind.
  eapply wp_mono; [by eapply (openinode_ok C f Hf Hrel out ino i w L n)|].
  intros r w1 (Hfd1 & c & -> & Hop). pose proof Hop as [Hown _]. pose proof Hown as [[_ ->] _].
  unfold is_directory. case_decide as Hdir.
  - rewrite Hdir, Z.eqb_refl. apply wp_bind, wp_with_ino. eapply wp_mono; [by eapply closeinode_ok|].
    intros [] [c2 w2]; cbn [fst snd]. intros [Hg2 Hfd2]. apply wp_ret. split; [congruence|done].
  - destruct (Z.eqb_spec (Z.land (typeandpermissions i) INODE_TYPE_MASK) INODE_TYPE_DIRECTORY); [done|].
    apply wp_ret. split; [done|]. by exists c.
Qed.

Section Path.
Variables (tree : Z → option node) (fuel : nat).
Hypotheses (Htree : ∀ ino x, tree ino = Some x → has_node C f ino x)
  (Hfuel : ∀ ino es, tree ino = Some (Dir es) → (length es < fuel)%nat).

(** A path as the file system code is given it. *)
Definition path_ok (fuel : nat) (path cs : list Z) : Prop :=
  cstr path cs ∧ Forall (λ p, Z.of_nat (length p) ≤ NAME_MAX) (components cs) ∧
  (length (components cs) < fuel)%nat.

Lemma resolve_path_ok name_buf ino path cs w L r : good w L → path_ok fuel path cs →
  Z.of_nat (length name_buf) = NAME_MAX + 1 → walk tree (components cs) ino = Some r →
  wp (resolve_path fuel name_buf f ino path) w (λ r' w', r' = r ∧ w_fds w' = w_fds w ∧ good w' L).
Proof using All.
  intros Hg (Hc & Hlen & Hfl) Hnb Hw. unfold resolve_path.
  by eapply (resolve_loop C f Hf Hrel tree fuel Htree Hfuel (components cs)).
Qed.

Lemma walk_error names : ∀ ino e, walk tree names ino = Some (inl e) → e = - ENOENT ∨ e = - ENOTDIR.
Proof using Type.
  clear. induction names as [|name names IH]; intros ino e; cbn; [done|].
  destruct (tree ino) as [[es|]|]; [|intros [= <-]; by right|done].
  destruct (find_name name es); [apply IH|intros [= <-]; by left].
Qed.

(** An inode of the disk that has a first block, and all the blocks of its size
    when it is not a directory. *)
Definition openable (ino : Z) (i : inode) (n : nat) : Prop :=
  has_inode C f ino i ∧ present C f i n ∧ (0 < n)%nat ∧ (¬ is_directory i → file_blocks C f i n ∧ 0 ≤ size i).

(** C17: opening a file by its path follows the directories on the disk: the
    error number of a name that is missing ([-ENOENT]) or that is looked up in a
    file ([-ENOTDIR]), [-EISDIR] when the path leads to a directory, and nothing
    but those errors; all memory is given back with an error, and no file is
    counted. Otherwise the file the path leads to is open at its first byte, with
    one more open file counted. *)
Theorem ext2_open_by_path name_buf path cs context w L nopen :
  good w L → path_ok fuel path cs → Z.of_nat (length name_buf) = NAME_MAX + 1 →
  open_file_count (w_fds w) !! context = Some nopen → s_next_fd_num (w_fds w) ≠ INT_MAX →
  ∀ r, walk tree (components cs) INODE_ROOTDIRECTORY = Some r →
  (∀ ino, r = inr ino → ∃ i n, openable ino i n) →
  wp (vfs_op_open fuel name_buf context f path) w (λ r' w',
    match r with
    | inl e => (e = - ENOENT ∨ e = - ENOTDIR) ∧ r' = inl e ∧ w_fds w' = w_fds w ∧ good w' L
    | inr ino => ∃ i n, openable ino i n ∧
        if decide (is_directory i) then r' = inl (- EISDIR) ∧ w_fds w' = w_fds w ∧ good w' L
        else ∃ o, r' = inr o ∧ cursorpos o = 0 ∧ fd o = File context (s_next_fd_num (w_fds w)) ∧
          open_file_count (w_fds w') = <[context := u32 (nopen + 1)]> (open_file_count (w_fds w)) ∧
          file_state (H:=H) (D:=D) C f i n o w' (fd_address o :: L)
    end).
Proof using All.
  intros Hg Hpath Hnb Hopen Hmax r Hw Hfile. unfold vfs_op_open.
  apply wp_bind. eapply wp_mono; [by apply (heap_alloc_succeeds_ok C Hrel)|].
  intros fdc w1 (Hfd1 & Hne & Hg1).
  apply wp_bind. eapply wp_mono; [by eapply (resolve_path_ok name_buf _ path cs w1 (fdc :: L) r)|].
  intros r' w2 (-> & Hfd2 & Hg2). destruct r as [e|ino].
  { apply wp_bind. eapply wp_mono; [by apply heap_free_ok|]. intros [] w3 [Hfd3 Hg3]. apply wp_ret.
    split; [by eapply walk_error|]. split_and?; [done|congruence|done]. }
  destruct (Hfile ino eq_refl) as (i & n & Hok). pose proof Hok as (Hi & Hp & Hn & Hreg).
  apply wp_bind. eapply wp_mono; [by apply (openfile_ok fdc ino i n w2 (fdc :: L))|].
  intros r w3 [Hfd3 Hout]. unfold is_directory in *. case_decide as Hd.
  { destruct Hout as [-> Hg3]. apply wp_bind. eapply wp_mono; [by apply heap_free_ok|]. intros [] w4 [Hfd4 Hg4].
    apply wp_ret. exists i, n. split; [done|]. case_decide; [|done]. split_and?; [done|congruence|done]. }
  destruct Hout as (c & -> & [Hb3 Hg3] & Hin3). destruct (Hreg Hd) as [_ Hsz].
  assert (w_fds w3 = w_fds w) as Hfd by congruence.
  apply wp_bind. unfold vfs_register_file, wp. rewrite Hfd, Hopen.
  destruct (Z.eqb_spec (s_next_fd_num (w_fds w)) INT_MAX); [done|].
  do 2 eexists. split; [done|]. do 2 eexists. split; [done|].
  exists i, n. split; [done|]. case_decide; [done|]. eexists. split_and?; [done..|]. unfold file_state. cbn. split_and?.
  - split; [exact Hb3|exact Hg3].
  - lia.
  - done.
  - right. exists 0%nat, 0. split; [exact Hin3|done].
Qed.

End Path.
End Open.

(** ** Mounting *)

(** The number in little-endian bytes, and a field of the superblock by its
    offset and width. *)
Definition le_value (bs : list Z) : Z := foldr (λ b v, b + 256 * v) 0 bs.
Definition sb_field (s : list Z) (off n : nat) : Z := le_value (take n (drop off s)).

(** The superblock as the format lays it out; the volume name and the path of the
    last mount end with a zero. *)
Definition format_v0 : superblock_v1 := {|
  block_group := 0; first_non_reserved_inode := 11; inode_size := 128; optional_features := 0;
  required_features := 0; required_features_rw := 0; compressionalgorithms := 0; preallocatefileblks := 0;
  preallocatedirblks := 0; journalinode := 0; journaldevice := 0; orphaninodelisthead := 0;
  filesystem_id := replicate 16 0; journalid := replicate 16 0; volumename := replicate 16 0;
  last_mount_path := replicate 64 0 |}.

Definition format_v1 (s : list Z) : superblock_v1 := {|
  first_non_reserved_inode := sb_field s 84 2;
  inode_size := sb_field s 88 2;
  block_group := sb_field s 90 2;
  optional_features := sb_field s 92 4;
  required_features := sb_field s 96 4;
  required_features_rw := sb_field s 100 4;
  filesystem_id := take 16 (drop 104 s);
  volumename := take 15 (drop 120 s) ++ [0];
  last_mount_path := take 63 (drop 136 s) ++ [0];
  compressionalgorithms := sb_field s 200 4;
  preallocatefileblks := sb_field s 204 1;
  preallocatedirblks := sb_field s 205 1;
  journalid := take 16 (drop 208 s);
  journalinode := sb_field s 224 4;
  journaldevice := sb_field s 228 4;
  orphaninodelisthead := sb_field s 232 4 |}.

Definition format_superblock (s : list Z) : superblock := {|
  total_inodes := sb_field s 0 4;
  total_blocks := sb_field s 4 4;
  reserved_blocks_for_su := sb_field s 8 4;
  total_unallocated_blocks := sb_field s 12 4;
  total_unallocated_inodes := sb_field s 16 4;
  superblock_block_num := sb_field s 20 4;
  blocksize_of_fs := s32 (1024 * 2 ^ sb_field s 24 4);
  blocks_in_block_group := sb_field s 32 4;
  inodes_in_block_group := sb_field s 40 4;
  last_mount_time := sb_field s 44 4;
  last_written_time := sb_field s 48 4;
  mounts_since_last_fsck := sb_field s 52 2;
  mounts_before_fsck_required := sb_field s 54 2;
  signature := sb_field s 56 2;
  fs_state := sb_field s 58 2;
  err_action := sb_field s 60 2;
  minor_ver := sb_field s 62 2;
  last_fsck_time := sb_field s 64 4;
  fsck_interval := sb_field s 68 4;
  creator_os_id := sb_field s 72 4;
  major_ver := sb_field s 76 4;
  reserved_block_uid := sb_field s 80 2;
  reserved_block_gid := sb_field s 82 2;
  v1 := if sb_field s 76 4 =? 0 then format_v0 else format_v1 s |}.

(** The exponent of the block size. *)
Definition sb_log (s : list Z) : Z := sb_field s 24 4.

(** The signature and the block size are accepted; no features are required but
    the types in directory entries (bit 1), and for writing sparse superblocks
    and large files (bits 0 and 1), or the version has no features. *)
Definition readable (s : list Z) : bool := (sb_field s 56 2 =? 0xef53) && (sb_log s <=? 21).
Definition supported (s : list Z) : bool :=
  (sb_field s 76 4 =? 0) || (Z.ldiff (sb_field s 96 4) 2 =? 0) && (Z.ldiff (sb_field s 100 4) 3 =? 0).

Lemma field_lt s off n : Forall (λ b, 0 ≤ b < 256) s → 0 ≤ sb_field s off n < 256 ^ Z.of_nat n.
Proof.
  intros Hb. unfold sb_field. assert (∀ bs, Forall (λ b, 0 ≤ b < 256) bs → 0 ≤ le_value bs < 256 ^ Z.of_nat (length bs)) as H.
  { clear. induction 1 as [|b bs Hb _ IH]; [done|]. change (le_value (b :: bs)) with (b + 256 * le_value bs).
    cbn [length]. rewrite Nat2Z.inj_succ, Z.pow_succ_r by lia. lia. }
  specialize (H (take n (drop off s)) (Forall_take _ _ _ (Forall_drop _ _ _ Hb))).
  assert (256 ^ Z.of_nat (length (take n (drop off s))) ≤ 256 ^ Z.of_nat n) by (apply Z.pow_le_mono_r; rewrite ?length_take; lia). lia.
Qed.

Lemma u16le_field s off : Forall (λ b, 0 ≤ b < 256) s → (off + 2 ≤ length s)%nat → u16le_at (drop off s) = Ok (sb_field s off 2).
Proof.
  intros Hb Hl. assert (2 ≤ length (drop off s))%nat as Hd by (rewrite length_drop; lia). unfold sb_field.
  apply (Forall_drop _ off) in Hb. destruct (drop off s) as [|b0 [|b1 l]]; cbn in Hd; [lia..|].
  repeat (apply Forall_cons in Hb as [? Hb]). rewrite u16le_at_sum by (unfold is_u8; lia). f_equal. unfold le_value. cbn [take foldr]. rewrite take_0. cbn [foldr]. lia.
Qed.

Lemma u32le_field s off : Forall (λ b, 0 ≤ b < 256) s → (off + 4 ≤ length s)%nat → u32le_at (drop off s) = Ok (sb_field s off 4).
Proof.
  intros Hb Hl. assert (4 ≤ length (drop off s))%nat as Hd by (rewrite length_drop; lia). unfold sb_field.
  apply (Forall_drop _ off) in Hb. destruct (drop off s) as [|b0 [|b1 [|b2 [|b3 l]]]]; cbn in Hd; [lia..|].
  repeat (apply Forall_cons in Hb as [? Hb]). rewrite u32le_at_sum by (unfold is_u8; lia). f_equal. unfold le_value. cbn [take foldr]. rewrite take_0. cbn [foldr]. lia.
Qed.

Lemma u8_field s off : (off < length s)%nat → rd s (Z.of_nat off) = Ok (sb_field s off 1).
Proof.
  intros Hl. destruct (lookup_lt_is_Some_2 s off Hl) as [b Hb]. rewrite (rd_ok s _ b) by (rewrite ?Nat2Z.id; lia || done).
  unfold sb_field. rewrite (drop_S s b off Hb). unfold le_value. cbn [take foldr]. rewrite take_0. cbn [foldr]. f_equal. lia.
Qed.

Lemma terminate_eq s off n : (off + S n ≤ length s)%nat → terminate (take (S n) (drop off s)) = take n (drop off s) ++ [0].
Proof.
  intros Hl. assert (S n ≤ length (drop off s))%nat as Hd by (rewrite length_drop; lia). generalize dependent (drop off s). clear. intros l Hd.
  destruct (lookup_lt_is_Some_2 l n ltac:(lia)) as [c Hc]. rewrite (take_S_r _ _ _ Hc). unfold terminate.
  rewrite last_snoc. destruct (Z.eqb_spec c 0) as [->|]; [done|]. rewrite length_app. cbn [length].
  rewrite Nat.add_1_r, Nat.pred_succ, insert_app_r_alt, Nat.sub_diag by lia. done.
Qed.

(** Fetch the fields of a superblock of 1024 bytes one after the other. *)
Ltac fetch :=
  lazymatch goal with
  | Hb : Forall _ ?s, Hl : length ?s = 1024%nat |- context [mbind _ ?m] =>
      lazymatch m with
      | u32le_at (drop ?o s) => rewrite (u32le_field s o Hb) by (rewrite Hl; lia)
      | u16le_at (drop ?o s) => rewrite (u16le_field s o Hb) by (rewrite Hl; lia)
      | mem_read s ?o ?n => rewrite (mem_read_ok s o n) by (rewrite ?Hl; lia)
      | rd s ?o => let E := fresh in pose proof (u8_field s (Z.to_nat o) ltac:(rewrite Hl; lia)) as E;
          change (Z.of_nat (Z.to_nat o)) with o in E; rewrite E; clear E
      end; cbn [mbind res_bind]
  end.

Lemma parse_superblock_v1_ok s : Forall (λ b, 0 ≤ b < 256) s → length s = 1024%nat →
  parse_superblock_v1 s = Ok (format_v1 s).
Proof.
  intros Hb Hl. unfold parse_superblock_v1. repeat fetch. f_equal. unfold format_v1.
  change (Z.to_nat 120) with 120%nat. change (Z.to_nat 136) with 136%nat. change (Z.to_nat 16) with 16%nat. change (Z.to_nat 64) with 64%nat.
  rewrite (terminate_eq s 120 15), (terminate_eq s 136 63) by (rewrite Hl; lia). done.
Qed.

Lemma parse_superblock_ok s : Forall (λ b, 0 ≤ b < 256) s → length s = 1024%nat →
  parse_superblock s = Ok (if readable s then inr (format_superblock s) else inl (- EINVAL)).
Proof.
  intros Hb Hl. unfold parse_superblock, readable, sb_log. change (u32le_at s) with (u32le_at (drop 0 s)).
  fetch. change (Z.to_nat 0x38) with 56%nat. unfold EXT2_SIGNATURE.
  destruct (Z.eqb_spec (sb_field s 56 2) 0xef53) as [Hs|Hs]; [|done]. cbn [negb andb].
  do 7 fetch. pose proof (field_lt s 24 4 Hb) as Hraw. change (256 ^ Z.of_nat 4) with (2 ^ 32) in Hraw.
  rewrite Z.ltb_antisym. destruct (Z.leb_spec (sb_field s 24 4) 21) as [Hle|]; [|done]. cbn [negb].
  unfold shl32. destruct (Z.leb_spec 0 (sb_field s 24 4)), (Z.ltb_spec (sb_field s 24 4) 32); try lia. cbn [andb mbind res_bind].
  repeat fetch. rewrite Z.shiftl_mul_pow2 by lia.
  assert (1024 * 2 ^ sb_field s 24 4 ≤ 1024 * 2 ^ 21) as Hp by (apply Z.mul_le_mono_nonneg_l; [lia|apply Z.pow_le_mono_r; lia]).
  assert (0 < 2 ^ sb_field s 24 4) by (apply Z.pow_pos_nonneg; lia).
  rewrite (u32_small (1024 * _)) by lia. rewrite parse_superblock_v1_ok by done.
  unfold format_superblock. change (Z.to_nat 76) with 76%nat. pose proof (field_lt s 76 4 Hb).
  destruct (Z.leb_spec 1 (sb_field s 76 4)), (Z.eqb_spec (sb_field s 76 4) 0); try lia; done.
Qed.

(** The 1024 bytes of the superblock, 1024 bytes into the partition. *)
Definition superblock_bytes (C : pdisk → Z → list Z) (disk : ldisk) : list Z :=
  let n := 1024 / block_size (physdisk disk) in
  blocks_of (C (physdisk disk)) (startblockaddr disk + n) (Z.to_nat n).

(** The disk holds a superblock. *)
Definition superblock_disk (disk : ldisk) : Prop :=
  ldisk_wf disk ∧ (block_size (physdisk disk) | 1024) ∧
  2 * (1024 / block_size (physdisk disk)) ≤ block_count disk.

Lemma land_not32 a m : is_u32 a → is_u32 m → Z.land a (not32 m) = Z.ldiff a m.
Proof.
  intros Ha Hm. apply Z.bits_inj'. intros k Hk. rewrite Z.land_spec, Z.ldiff_spec. destruct (Z.lt_ge_cases k 32).
  - by rewrite not32_testbit by lia.
  - assert (Z.testbit a k = false) as ->; [|done]. destruct (decide (a = 0)) as [->|]; [apply Z.testbit_0_l|].
    apply Z.bits_above_log2; [apply Ha|]. assert (Z.log2 a < 32); [|lia]. apply Z.log2_lt_pow2; unfold is_u32 in Ha; lia.
Qed.

Lemma check_superblock_ok disk s : Forall (λ b, 0 ≤ b < 256) s → readable s = true →
  sb_field s 32 4 ≠ 0 → sb_field s 40 4 ≠ 0 →
  check_superblock disk (format_superblock s) = Ok (if supported s
    then inr (Fscontext (format_superblock s) disk ((sb_field s 4 4 + sb_field s 32 4 - 1) / sb_field s 32 4) (if sb_log s =? 0 then 2 else 1))
    else inl (- EINVAL)).
Proof.
  intros Hb Hr Hbpg Hipg. unfold readable in Hr. apply andb_prop in Hr as [_ Hlog%Z.leb_le].
  pose proof (λ o, field_lt s o 4 Hb) as Hf. unfold check_superblock. cbn [format_superblock total_blocks blocks_in_block_group total_inodes inodes_in_block_group].
  pose proof (Hf 32%nat). pose proof (Hf 40%nat). rewrite size_to_blocks_eq by lia. cbn [mbind res_bind].
  rewrite size_to_blocks_eq by lia. cbn [mbind res_bind].
  assert (∀ o m, is_u32 m → Z.land (sb_field s o 4) (not32 m) = Z.ldiff (sb_field s o 4) m) as Hl.
  { intros o m. apply land_not32. apply (Hf o). }
  assert ((blocksize_of_fs (format_superblock s) =? 1024) = (sb_log s =? 0)) as ->.
  { cbn [format_superblock blocksize_of_fs]. fold (sb_log s). pose proof (Hf 24%nat) as H24. fold (sb_log s) in H24. change (256 ^ Z.of_nat 4) with (2 ^ 32) in H24.
    destruct (decide (sb_log s = 21)) as [->|]; [done|].
    assert (1024 * 2 ^ sb_log s ≤ 1024 * 2 ^ 20) by (apply Z.mul_le_mono_nonneg_l; [lia|apply Z.pow_le_mono_r; lia]).
    assert (0 < 2 ^ sb_log s) by (apply Z.pow_pos_nonneg; lia). rewrite s32_small by lia.
    destruct (Z.eqb_spec (sb_log s) 0) as [->|]; [done|]. apply Z.eqb_neq.
    assert (2 ^ 1 ≤ 2 ^ sb_log s) by (apply Z.pow_le_mono_r; lia). lia. }
  unfold supported. cbn [format_superblock v1]. destruct (Z.eqb_spec (sb_field s 76 4) 0); [done|]. cbn [orb].
  cbn [format_v1 required_features required_features_rw].
  change SUPPORTED_REQUIRED_FLAGS with 2. change SUPPORTED_RWMOUNT_FLAGS with 3. rewrite !Hl by done.
  by destruct (Z.ldiff (sb_field s 96 4) 2 =? 0), (Z.ldiff (sb_field s 100 4) 3 =? 0).
Qed.

Section Mount.
Context {H D : Type} `{!HeapOps H} `{!HeapLaws H} `{!PdiskOps D} `{!PdiskLaws D}.
Local Abbreviation W := (world H D).
Implicit Types (w : W) (L : list Z).
Variable C : pdisk → Z → list Z.
Local Abbreviation good := (good C (H:=H) (D:=D)).

Lemma superblock_bytes_ok disk w L : superblock_disk disk → good w L →
  length (superblock_bytes C disk) = 1024%nat ∧ Forall (λ b, 0 ≤ b < 256) (superblock_bytes C disk).
Proof using Type.
  intros ((Hp & _) & [k Hk] & _) (HC & _). unfold superblock_bytes. rewrite <- HC. split.
  - apply Nat2Z.inj. rewrite (blocks_of_length _ _ _ (block_size (physdisk disk))).
    + rewrite Hk, Z.div_mul, Z2Nat.id by nia. lia.
    + intros a. apply contents_length. lia.
  - apply blocks_of_bytes. intros a. apply contents_bytes.
Qed.

(** The first steps of mounting: the memory of the context, and the superblock. *)
Lemma mount_read_ok disk w L : superblock_disk disk → good w L → PdiskReliable D →
  let n := 1024 / block_size (physdisk disk) in
  mod_ 1024 (block_size (physdisk disk)) = Ok 0 ∧ div_ 1024 (block_size (physdisk disk)) = Ok n ∧ u32 n = n ∧
  wp (on_disk (ldisk_read_exact disk n n)) w (λ x w', w_fds w' = w_fds w ∧ good w' L ∧
    x = (0, superblock_bytes C disk)).
Proof using Type.
  intros (Hwf & [k Hk] & Hbc) (HC & Hn & Hu) Hrel n. pose proof Hwf as (Hp & Hs & Hb & Hw).
  assert (n = k) as En by (unfold n; rewrite Hk at 1; by rewrite Z.div_mul by lia).
  assert (0 < k ≤ 1024) as Hk0 by nia.
  unfold mod_, div_. destruct (Z.eqb_spec (block_size (physdisk disk)) 0); [lia|].
  rewrite Z.rem_mod_nonneg, Z.quot_div_nonneg by lia. fold n.
  split; [rewrite Hk at 1; by rewrite Z.mod_mul by lia|]. split; [done|]. split; [apply u32_small; lia|].
  destruct (ldisk_read_exact_ok disk n n (w_disk w)) as (r & bs & d' & Hrd & Hct & _ & Hout);
    [done|fold n in Hbc; lia..|].
  exists (r, bs), (World (w_heap w) d' (w_fds w)). unfold on_disk. rewrite Hrd. split; [done|].
  split; [done|]. split; [by split_and!; [cbn; congruence|..]|].
  destruct Hout as [[_ ?]|[-> ->]]; [done|]. f_equal. unfold ldisk_bytes, superblock_bytes. fold n. by rewrite HC.
Qed.

(** What mounting ends with: a context that holds the fields of the superblock,
    or an error and no memory in use. *)
Definition mounted disk L w (r : Z + (Z * fscontext)) w' : Prop :=
  let s := superblock_bytes C disk in
  if readable s && supported s then
    ∃ a, let self := Fscontext (format_superblock s) disk ((sb_field s 4 4 + sb_field s 32 4 - 1) / sb_field s 32 4)
                       (if sb_log s =? 0 then 2 else 1) in
      r = inr (a, self) ∧ (sb_log s < 21 → blocksize self = 1024 * 2 ^ sb_log s ∧ geometry self) ∧
      open_file_count (w_fds w') !! a = Some 0 ∧ good w' (a - OFFSETOF_vfs_fscontext :: L)
  else r = inl (- EINVAL) ∧ good w' L ∧ w_fds w' = w_fds w.

Lemma mount_fail disk L w p w1 : readable (superblock_bytes C disk) && supported (superblock_bytes C disk) = false →
  good w1 (p :: L) → w_fds w1 = w_fds w →
  wp (_ ← heap_free_ptr p; mret (inl (- EINVAL))) w1 (mounted disk L w).
Proof using Type.
  intros Hno Hg Hfd. apply wp_bind. eapply wp_mono; [by apply heap_free_ok|]. intros [] w3 [Hfd3 Hg3].
  apply wp_ret. unfold mounted. rewrite Hno. split_and!; [done..|congruence].
Qed.

Lemma pow2_1024 k : 0 ≤ k < 21 → 1024 ≤ 1024 * 2 ^ k < 2 ^ 31.
Proof using Type.
  clear. intros Hk. assert (1024 * 2 ^ k ≤ 1024 * 2 ^ 20) by (apply Z.mul_le_mono_nonneg_l; [lia|apply Z.pow_le_mono_r; lia]).
  assert (0 < 2 ^ k) by (apply Z.pow_pos_nonneg; lia). lia.
Qed.

Lemma mount_geometry disk sb g b s : superblock_disk disk → 0 ≤ s < 21 →
  blocksize_of_fs sb = s32 (1024 * 2 ^ s) →
  blocksize_of_fs sb = 1024 * 2 ^ s ∧ geometry (Fscontext sb disk g b).
Proof using Type.
  clear. intros (Hwf & [k Hk] & _) Hs Hb. pose proof (pow2_1024 s Hs) as Hp.
  rewrite s32_small in Hb by lia. split; [done|]. unfold geometry, blocksize. cbn. rewrite Hb.
  split_and?; [done|lia|lia| |].
  - exists (256 * 2 ^ s). lia.
  - exists (k * 2 ^ s). rewrite Hk. lia.
Qed.

(** C18: mounting reads the superblock from the disk: when its signature is that
    of ext2, its block size exponent is at most 21 and it requires no feature but
    the supported ones, the context holds the fields of the superblock, each from
    its place in the format ([format_superblock]), the number of block groups and
    the block of their descriptors; in every other case the result is [-EINVAL],
    and the memory is given back. The numbers of blocks and inodes per group are
    assumed not to be zero. *)
Theorem ext2_mount_correct disk w L : superblock_disk disk → good w L → reliable (H:=H) (D:=D) →
  (readable (superblock_bytes C disk) = true →
     sb_field (superblock_bytes C disk) 32 4 ≠ 0 ∧ sb_field (superblock_bytes C disk) 40 4 ≠ 0) →
  wp (vfs_op_mount disk) w (mounted disk L w).
Proof using Type.
  intros Hsd Hg Hrel Hper. destruct (superblock_bytes_ok disk w L Hsd Hg) as [Hlen Hbytes].
  unfold vfs_op_mount. apply wp_bind. eapply wp_mono; [by apply (heap_alloc_succeeds_ok C Hrel)|].
  intros p w1 (Hfd1 & Hne & Hg1).
  destruct (mount_read_ok disk w1 (p :: L) Hsd Hg1 (proj2 Hrel)) as (Em & Ed & Eu & Hrd).
  apply wp_bind. eapply wp_lift; [exact Em|]. apply wp_bind, wp_massert; [done|].
  apply wp_bind. eapply wp_lift; [exact Ed|]. rewrite Eu. apply wp_bind. eapply wp_mono; [exact Hrd|].
  intros x w2 (Hfd2 & Hg2 & ->). cbn [Z.ltb Z.compare]. destruct (Z.eqb_spec p 0); [done|].
  apply wp_bind. eapply wp_lift; [by apply parse_superblock_ok|].
  destruct (readable (superblock_bytes C disk)) eqn:Er; [|apply mount_fail; [by rewrite Er|done|congruence]].
  destruct (Hper eq_refl) as [Hbpg Hipg].
  apply wp_bind. eapply wp_lift; [by apply check_superblock_ok|].
  destruct (supported (superblock_bytes C disk)) eqn:Es; [|apply mount_fail; [by rewrite Er, Es|done|congruence]].
  apply wp_bind. eexists _, _. split; [done|]. apply wp_ret. unfold mounted. rewrite Er, Es. cbn [andb].
  eexists. split; [done|]. split; [|split].
  - intros Hlt. pose proof (field_lt (superblock_bytes C disk) 24 4 Hbytes) as H24. apply (mount_geometry disk _ _ _ _ Hsd); [|done].
    split; [apply H24|done].
  - cbn. by rewrite lookup_insert_eq.
  - rewrite Z.add_simpl_r. exact Hg2.
Qed.

(** no memory. *)
Theorem ext2_mount_no_memory `{!HeapExhausted H} disk w L :
  superblock_disk disk → good w L → PdiskReliable D → vfs_op_mount disk w = Fault Bad_pointer.
Proof using Type.
  intros Hsd Hg Hrel. destruct Hg as (HC & Hn & Hu).
  destruct (heap_alloc_fails SIZEOF_fscontext HEAP_FLAG_ZEROMEMORY (w_heap w)) as [h' Ha].
  set (w1 := World h' (w_disk w) (w_fds w)).
  assert (good w1 []) as Hg1 by (split_and!; [done|constructor|by intros ? ?%not_elem_of_nil]).
  destruct (mount_read_ok disk w1 [] Hsd Hg1 Hrel) as (Em & Ed & Eu & (x & w2 & Hrd & _ & _ & ->)).
  unfold vfs_op_mount, mbind, M_bind, on_heap at 1. rewrite Ha. fold w1. unfold lift. rewrite Em, Ed.
  cbn [massert Z.eqb]. rewrite Eu, Hrd. reflexivity.
Qed.
End Mount.

(** ** The block iterator, and what goes wrong *)
Section Blocks.
Context {H D : Type} `{!HeapOps H} `{!HeapLaws H} `{!PdiskOps D} `{!PdiskLaws D}.
Local Abbreviation W := (world H D).
Implicit Types (w : W) (L : list Z).
Variables (C : pdisk → Z → list Z) (f : fscontext) (i : inode).
Hypotheses (Hf : geometry f) (Hrel : reliable (H:=H) (D:=D)) (Hdirect : length (direct_block_ptrs i) = 12%nat).
Local Abbreviation good := (good C (H:=H) (D:=D)).

Lemma fresh_owned w L : good w L → owned (H:=H) (D:=D) C f i (fresh_ino i f) w L.
Proof using Type. intros Hg. split; [done|exact Hg]. Qed.

(** C19: iterating over the blocks of an inode gives the blocks of its block map
    one after the other, through the direct, singly, doubly and triply indirect
    pointers, and an error at the end of the file. *)
Theorem ext2_block_iteration w L n : good w L → present C f i n → (0 < n)%nat →
  wp (next_inode_blocks n) (fresh_ino i f, w) (λ r s, r = inr tt ∧
    block_map C f i (n - 1) = Blk (current_block_addr s.1) ∧
    (block_map C f i n = Eof → wp next_inode_block s (λ r _, r = inl (- ENOENT)))).
Proof using Hf Hrel Hdirect.
  intros Hg Hp Hn. eapply wp_mono.
  { apply (next_inode_blocks_ok C f i Hf Hdirect n _ w L 0 n); [by apply fresh_owned| |done|lia].
    by apply fresh_iter. }
  intros [e|[]] [c1 w1]; cbn [fst snd]; intros (Hown & _ & _ & Hout); [by destruct Hout|].
  destruct Hout as [Hit Hcur]. rewrite decide_False in Hcur by lia. cbn [Nat.add] in *.
  destruct (present_blk C f i n (n - 1) Hp) as [Hb _]; [lia|].
  split; [done|]. split; [by rewrite Hcur|]. intros He. eapply wp_mono.
  { apply (next_block_ok C f i Hf Hdirect c1 w1 L n Hown Hit); rewrite He; done. }
  intros [e|[]] [c2 w2]; cbn [fst snd]; intros (_ & _ & _ & Hout2).
  - by destruct Hout2 as [_ [?|[_ ->]]].
  - destruct Hout2 as [? _]. congruence.
Qed.

(** an empty indirect table is not the end of the file to the iterator: it
    succeeds, and the next block of the file is block 0 of the disk. *)
Theorem ext2_empty_table_gives_block_zero c w L : base f i c → iter_at C f i c 12 → good w (tables c ++ L) →
  singly_indirect_table i ≠ 0 → in_range f (singly_indirect_table i) →
  entry (data C f (singly_indirect_table i) 1) 0 = 0 →
  wp next_inode_block (c, w) (λ r s, r = inr tt ∧ current_block_addr s.1 = 0).
Proof using Hf Hrel.
  clear Hdirect.
  intros [Hfs Hi] [Hidx (Hu & Hc & Hd)] Hg Hne Hr Hz. rewrite good_tables in Hg.
  pose proof (P_eq f Hf) as HP. pose proof Hf as (_ & Hbs & _). pose proof Hg as (HC & _).
  unfold next_inode_block. wp_run. rewrite Hidx.
  change (Z.of_nat (min 12 12) <? DIRECT_BLOCK_POINTER_COUNT) with false. cbv iota. apply wp_try.
  unfold next_singly_block_ptr. wp_run. cbn in Hc. rewrite Hfs. unfold exhausted. rewrite Hc.
  apply wp_try. unfold next_singly_indirect_table. wp_run. rewrite Hu. cbn [Nat.eqb negb Nat.sub].
  apply wp_bind. wp_run. cbn [compose]. rewrite Hi. destruct (Z.eqb_spec (singly_indirect_table i) 0); [done|].
  wp_run. rewrite Hfs. eapply (replace_ok C f Hf); [exact Hg|done|by intros ? ? _ ?|].
  intros bb w1 Hbb _ Hg1. wp_run. cbn. apply wp_bind. eapply wp_lift; [reflexivity|].
  apply wp_bind. eapply wp_lift.
  { rewrite Hbb. apply (u32le_at_entry _ 0). assert (Hl : Z.of_nat (length (data C f (singly_indirect_table i) 1)) = 1 * blocksize f)
      by (apply data_length; [done|by eexists|lia]). lia. }
  rewrite Hz. cbn [Z.eqb]. wp_run. done.
Qed.

(** opening a file that has no first block stops the kernel. *)
Theorem ext2_empty_file_panics out ino w L : good w L → out ≠ 0 → has_inode C f ino i →
  nth 0 (direct_block_ptrs i) 0 = 0 → openinode out f ino w = Fault Assert_failed.
Proof using Hf Hrel Hdirect.
  intros Hg Hout Hi Hz. destruct (locate_inode_ok C f Hf Hrel ino i w L Hg Hi) as (r & w1 & Hl & _ & Hg1 & a & -> & Ha & Hpi).
  destruct (readblocks_alloc_succeeds C f Hf Hrel a w1 L Hg1 Ha) as (r & w2 & Hb & _ & b & -> & _ & Hbb).
  unfold openinode, try_. rewrite Hl, Hb. unfold mbind, M_bind, lift.
  rewrite (bytes_at_ok b (inode_offset f ino) (inode_offset_nonneg f Hf ino)).
  destruct (Z.eqb_spec out 0); [done|]. rewrite Hbb, Hpi.
  assert (next_inode_block (fresh_ino i f, w2) = Ok (inl (- ENOENT), (fresh_ino i f, w2))) as Hn.
  { destruct (direct_block_ptrs i) as [|x l] eqn:E; [done|]. cbn in Hz. subst x.
    unfold next_inode_block, next_direct_block_ptr, try_, gets, lift, mbind, M_bind. cbn. by rewrite E. }
  unfold with_ino. by rewrite Hn.
Qed.

End Blocks.

Section Files.
Context {H D : Type} `{!HeapOps H} `{!HeapLaws H} `{!PdiskOps D} `{!PdiskLaws D}.
Local Abbreviation W := (world H D).
Implicit Types (w : W) (L : list Z).
Variables (C : pdisk → Z → list Z) (f : fscontext) (i : inode) (n : nat).
Hypotheses (Hf : geometry f) (Hrel : reliable (H:=H) (D:=D)) (Hfb : file_blocks C f i n).

(** [fd_op_seek] moves the block iterator and not the cursor: when the whole
    file has been read, seeking back succeeds, and reading still returns 0 and
    leaves the buffer as it was. *)
Theorem ext2_seek_keeps_cursor o w L offset : file_state (H:=H) (D:=D) C f i n o w L →
  0 ≤ offset ≤ STREAM_MAX_TRANSFER_SIZE → offset < Z.of_nat n * blocksize f →
  wp (fd_op_seek o offset SEEK_SET) w (λ x w', x.1 = 0 ∧ cursorpos x.2 = cursorpos o ∧
    (∃ k off, in_block C f i (ino_of x.2) k off ∧ Z.of_nat k * blocksize f + off = offset) ∧
    (cursorpos o = size i → ∀ buf len, 0 ≤ len ≤ STREAM_MAX_TRANSFER_SIZE →
       wp (fd_op_read x.2 buf len) w' (λ y _, y.1 = (0, buf)))).
Proof using All.
  intros Hst Hoff Hn. eapply wp_mono; [by apply (fd_op_seek_ok C f Hf Hrel i n o w L offset)|].
  intros [r o'] w1; cbn [fst snd]. intros (_ & -> & Hown & Hcur & _ & Hpos).
  split_and?; [done..|]. intros Hend buf len Hlen. unfold fd_op_read.
  apply wp_bind, wp_massert; [apply Z.leb_le; lia|].
  rewrite (proj2 (proj1 Hown)), Hcur, Hend, Z.sub_diag.
  assert ((if 0 <? len then u32 0 else len) = 0) as -> by (destruct (Z.ltb_spec 0 len); [done|lia]).
  apply wp_bind, wp_with_ino. exists (buf, inr tt), (ino_of o', w1). split; [apply read_nothing|].
  by apply wp_ret.
Qed.

(** closing a file gives its memory back, and the file is no longer counted. *)
Theorem ext2_close_releases o w L k : file_state (H:=H) (D:=D) C f i n o w (fd_address o :: L) →
  open_file_count (w_fds w) !! fscontext_of (fd o) = Some k →
  wp (fd_op_close o) w (λ _ w', good C w' L ∧
    open_file_count (w_fds w') = <[fscontext_of (fd o) := u32 (k - 1)]> (open_file_count (w_fds w))).
Proof using Type.
  intros ([Hb Hg] & _) Hk. unfold fd_op_close. apply wp_bind.
  unfold vfs_unregister_file, wp at 1. rewrite Hk. do 2 eexists. split; [done|].
  set (w1 := World _ _ _). assert (good C w1 (held (ino_of o) (fd_address o :: L))) as Hg1 by exact Hg.
  apply wp_bind. unfold closefile. apply wp_bind, wp_with_ino.
  eapply wp_mono; [eapply (closeinode_ok C f i); by split|]. intros [] [c2 w2]; cbn [fst snd]. intros [Hg2 Hfd2].
  apply wp_ret. eapply wp_mono; [by apply heap_free_ok|]. intros [] w3 [Hfd3 Hg3].
  split; [done|]. by rewrite Hfd3, Hfd2.
Qed.

End Files.
