(* ===== verification/Ext2Image.v ===== *)
(** A small ext2 file system, block by block, on which the theorems about the
    driver are applied. *)
From S2P Require Import Prelude MiscMath StrUtil HeapIface PathReader Disk FsWorld.
From S2P Require Import Ext2 Ext2Block Ext2Iter Ext2Read Ext2File Ext2Dir Ext2Correct.

(** ** The image: 1 KiB blocks on a disk of 512-byte blocks *)

Definition poke (off : nat) (bs : list Z) (block : list Z) : list Z :=
  take off block ++ bs ++ drop (off + length bs) block.
Definition zeros (n : nat) : list Z := replicate n 0.

(** 16 inodes of 128 bytes, one block group, version 1.0 with types in the
    directory entries and sparse superblocks. *)
Definition img_superblock : list Z :=
  poke 0x38 (le_bytes 2 0xef53) $ poke 0 (le_bytes 4 16) $ poke 4 (le_bytes 4 64) $
  poke 0x20 (le_bytes 4 8192) $ poke 0x28 (le_bytes 4 16) $ poke 0x4c (le_bytes 4 1) $ poke 0x54 (le_bytes 2 11) $
  poke 0x58 (le_bytes 2 128) $ poke 0x60 (le_bytes 4 2) $ poke 0x64 (le_bytes 4 1) $ poke 0x78 [102; 111; 111] $ zeros 1024.

Definition img_descriptors : list Z := poke 8 (le_bytes 4 5) (zeros 1024).

(** An inode: mode, size, block pointers and singly indirect table. *)
Definition img_inode (mode size : Z) (ptrs : list Z) (table : Z) : list Z :=
  poke 0 (le_bytes 2 mode) $ poke 4 (le_bytes 4 size) $ poke 0x28 (concat (le_bytes 4 <$> ptrs)) $
  poke 0x58 (le_bytes 4 table) $ zeros 128.

(** Inode 2 is the root directory, 12 a file of 13 blocks and some bytes, 13 an
    empty file. *)
Definition img_root : list Z := img_inode 0x41ed 1024 [20] 0.
Definition img_foo : list Z := img_inode 0x81a4 (1024 * 13 + 100) ((λ k, 30 + Z.of_nat k) <$> seq 0 12) 21.
Definition img_empty : list Z := img_inode 0x81a4 0 [] 22.

Definition img_dirent (ino len : Z) (name : list Z) : list Z :=
  le_bytes 4 ino ++ le_bytes 2 len ++ [Z.of_nat (length name); 0] ++ name.

(** Entries ".", "..", a free one, "foo" and "e". *)
Definition img_entries : list dentry :=
  [Dentry 2 12 0 [46]; Dentry 2 12 0 [46; 46]; Dentry 0 16 0 []; Dentry 12 12 0 [102; 111; 111];
   Dentry 13 972 0 [101]].
Fixpoint img_dir (off : nat) (es : list dentry) : list Z :=
  match es with
  | [] => zeros 1024
  | e :: es => poke off (img_dirent (de_ino e) (de_reclen e) (de_name e)) (img_dir (off + Z.to_nat (de_reclen e)) es)
  end.

Definition img_block (a : Z) : list Z :=
  if a =? 1 then img_superblock
  else if a =? 2 then img_descriptors
  else if a =? 5 then poke 128 img_root (zeros 1024)
  else if a =? 6 then poke (3 * 128) img_foo $ poke (4 * 128) img_empty $ zeros 1024
  else if a =? 20 then img_dir 0 img_entries
  else if a =? 21 then poke 0 (le_bytes 4 50 ++ le_bytes 4 51) (zeros 1024)
  else if (30 <=? a) && (a <? 60) then replicate 1024 a
  else zeros 1024.
Definition img_sector (a : Z) : list Z := take 512 (drop (Z.to_nat (512 * (a mod 2))) (img_block (a / 2))).

Definition img_disk : ldisk := Ldisk (Pdisk 512 0) 0 1000.

#[local] Existing Instances always_heap always_heap_laws always_heap_succeeds.
#[local] Instance img_ops : PdiskOps unit := rom img_sector.
#[local] Instance img_laws : PdiskLaws unit := rom_laws img_sector.

Definition img_contents : pdisk → Z → list Z := contents tt.
Definition img_world : world nat unit := World 0%nat tt (FdTable 3 ∅).

Lemma img_reliable : reliable (H:=nat) (D:=unit).
Proof. split; [apply always_heap_succeeds|apply rom_reliable]. Defined.

Lemma img_good : good img_contents img_world [].
Proof. split; [reflexivity|]. split; [constructor|]. intros p Hp. by apply not_elem_of_nil in Hp. Defined.

(** ** Mounting it *)

Lemma superblock_disk_at a : 0 ≤ a < 100 → superblock_disk (Ldisk (Pdisk 512 0) a 1000).
Proof.
  intros Ha. split; [unfold ldisk_wf; cbn; lia|]. split; [by exists 2|]. vm_compute. discriminate.
Qed.

(** Two blocks into the disk there is no superblock. *)
Lemma ext2_mount_correct_witness :
  wp (vfs_op_mount img_disk) img_world (λ r w', ∃ a self, r = inr (a, self) ∧ inode_size (v1 (super self)) = 128 ∧
    major_ver (super self) = 1 ∧ total_blocks (super self) = 64 ∧ blocksize self = 1024 ∧ blk_group_count self = 1) ∧
  wp (vfs_op_mount (Ldisk (Pdisk 512 0) 2 1000)) img_world (λ r w', r = inl (- EINVAL) ∧ w_fds w' = w_fds img_world).
Proof.
  split; (eapply wp_mono; [apply (ext2_mount_correct img_contents _ img_world []);
    [apply superblock_disk_at; lia|apply img_good|apply img_reliable|]|]).
  - split; vm_compute; discriminate.
  - intros r w' Hm. unfold mounted in Hm. destruct (readable _ && supported _) eqn:E; [|exfalso; revert E; vm_compute; discriminate].
    destruct Hm as (a & -> & _). exists a. eexists. split; [reflexivity|]. split_and!; vm_compute; reflexivity.
  - vm_compute. discriminate.
  - intros r w' Hm. unfold mounted in Hm. destruct (readable _ && supported _) eqn:E; [exfalso; revert E; vm_compute; discriminate|].
    by destruct Hm as (-> & _ & ->).
Defined.

Definition img_mounted : Z * fscontext * world nat unit :=
  match vfs_op_mount img_disk img_world with
  | Ok (inr x, w) => (x, w)
  | _ => (0, Fscontext (Superblock 0 0 0 0 0 0 0 0 0 0 0 0 0 0 0 0 0 0 0 0 0 0 0 superblock_v0) img_disk 0 0, img_world)
  end.
Definition img_fs : fscontext := Eval vm_compute in img_mounted.1.2.

Lemma img_geometry : geometry img_fs.
Proof.
  split; [unfold ldisk_wf; cbn; lia|]. split; [unfold blocksize; cbn; lia|].
  split; [by exists 256|by exists 2].
Defined.

Definition img_node (ino : Z) : inode :=
  match locate_inode img_fs ino img_world with
  | Ok (inr (a, o), _) =>
      match parse_inode img_fs (drop (Z.to_nat o) (data img_contents img_fs a 1)) with
      | Ok (inr i) => i
      | _ => Inode 0 0 0 [] 0 0 0 0 0 0 0 0 0 0 0 0
      end
  | _ => Inode 0 0 0 [] 0 0 0 0 0 0 0 0 0 0 0 0
  end.
Definition i_root : inode := Eval vm_compute in img_node 2.
Definition i_foo : inode := Eval vm_compute in img_node 12.
Definition i_empty : inode := Eval vm_compute in img_node 13.

Ltac by_decide := match goal with |- ?P => refine (proj1 (bool_decide_eq_true P) _) end; vm_compute; reflexivity.
Ltac has_inode_tac :=
  unfold has_inode; (split; [lia|]); (split; [reflexivity|]); (split; [reflexivity|]);
  (split; [reflexivity|]); (split; [reflexivity|]); (split; [discriminate|]); (split; [by_decide|]);
  eexists; (split; [vm_compute; reflexivity|]); (split; [by_decide|]); vm_compute; reflexivity.

Lemma img_has_root : has_inode img_contents img_fs 2 i_root. Proof. has_inode_tac. Defined.
Lemma img_has_foo : has_inode img_contents img_fs 12 i_foo. Proof. has_inode_tac. Defined.
Lemma img_has_empty : has_inode img_contents img_fs 13 i_empty. Proof. has_inode_tac. Defined.

(** ** Its block maps and directories *)

Definition blk_ok (C : pdisk → Z → list Z) (f : fscontext) (i : inode) (k : nat) : bool :=
  match block_map C f i k with Blk a => bool_decide (in_range f a) | _ => false end.

Lemma present_check C f i n : forallb (blk_ok C f i) (seq 0 n) = true → present C f i n.
Proof.
  intros Hall k Hk. rewrite forallb_forall in Hall.
  specialize (Hall k ltac:(apply in_seq; lia)). unfold blk_ok in Hall.
  destruct (block_map C f i k) as [a| |]; [|done|done]. exists a. split; [done|].
  exact (proj1 (bool_decide_eq_true _) Hall).
Defined.

#[local] Instance dir_at_dec f fd size p es : Decision (dir_at f fd size p es).
Proof.
  revert p. induction es as [|e es IH]; intros p; cbn; [apply _|].
  unfold entry_wf, is_u32. pose proof (IH (p + de_reclen e)). apply _.
Defined.

Lemma img_foo_blocks : file_blocks img_contents img_fs i_foo 14.
Proof.
  split; [reflexivity|]. split; [apply present_check; vm_compute; reflexivity|]. left. reflexivity.
Defined.

Lemma img_root_blocks : dir_blocks img_contents img_fs i_root 1 img_entries.
Proof.
  split; [lia|]. split; [apply present_check; vm_compute; reflexivity|]. split; [vm_compute; reflexivity|].
  by_decide.
Defined.

Definition img_tree (ino : Z) : option node :=
  if ino =? 2 then Some (Dir img_entries) else if ino =? 12 then Some Leaf else None.

Lemma img_tree_ok ino x : img_tree ino = Some x → has_node img_contents img_fs ino x.
Proof.
  unfold img_tree. destruct (Z.eqb_spec ino 2) as [->|].
  - intros [= <-]. exists i_root. split; [apply img_has_root|]. split; [reflexivity|].
    exists 1%nat. apply img_root_blocks.
  - destruct (Z.eqb_spec ino 12) as [->|]; [|discriminate]. intros [= <-].
    exists i_foo. split; [apply img_has_foo|]. split; [discriminate|].
    intros k Hk. destruct img_foo_blocks as (_ & Hp & _). apply Hp. lia.
Defined.

Lemma img_tree_small ino es : img_tree ino = Some (Dir es) → (length es < 100)%nat.
Proof.
  unfold img_tree. destruct (ino =? 2); [intros [= <-]; cbn; lia|]. destruct (ino =? 12); discriminate.
Defined.

(** ** Opening, reading and closing "/foo" *)

Definition img_path : list Z := [47; 102; 111; 111; 0].
Definition img_world1 : world nat unit := World 1%nat tt (FdTable 3 {[276 := 0]}).

Lemma img_good1 : good img_contents img_world1 [16].
Proof.
  split; [reflexivity|]. split; [apply NoDup_singleton|].
  intros p ->%list_elem_of_singleton. exists 0%nat. cbn. split; [lia|reflexivity].
Defined.

Lemma has_inode_unique C f ino i i' : has_inode C f ino i → has_inode C f ino i' → i = i'.
Proof. intros (_ & _ & _ & _ & _ & _ & _ & d & Hd & _ & Hi) (_ & _ & _ & _ & _ & _ & _ & d' & Hd' & _ & Hi'). congruence. Qed.

Lemma img_openable ino : img_tree ino ≠ None → ∃ i n, openable img_contents img_fs ino i n.
Proof.
  unfold img_tree. destruct (Z.eqb_spec ino 2) as [->|]; [intros _|destruct (Z.eqb_spec ino 12) as [->|]; [intros _|done]].
  - exists i_root, 1%nat. split; [apply img_has_root|]. split; [apply img_root_blocks|]. split; [lia|]. by destruct 1.
  - exists i_foo, 14%nat. split; [apply img_has_foo|]. split; [apply img_foo_blocks|]. split; [lia|]. intros _.
    split; [apply img_foo_blocks|discriminate].
Defined.

Ltac img_open path cs res :=
  apply (ext2_open_by_path img_contents img_fs img_geometry img_reliable img_tree 100 img_tree_ok
    img_tree_small (zeros 256) path cs 276 img_world1 [16] 0 img_good1) with (r := res);
  [split; [split; [by_decide|by exists []]|]; split; by_decide|reflexivity|reflexivity|discriminate|vm_compute; reflexivity|
   intros ino [= <-] || intros ino [=]; try (apply img_openable; discriminate)].

(** "/foo" is a file, "/." is the root directory, there is no "/oo", and "/foo" has
    no entries. *)
Lemma ext2_open_by_path_witness :
  wp (vfs_op_open 100 (zeros 256) 276 img_fs img_path) img_world1 (λ r w', ∃ o, r = inr o ∧ cursorpos o = 0 ∧
    open_file_count (w_fds w') = <[276 := 1]> {[276 := 0]}) ∧
  wp (vfs_op_open 100 (zeros 256) 276 img_fs [47; 46; 0]) img_world1 (λ r w', r = inl (- EISDIR) ∧ w_fds w' = w_fds img_world1) ∧
  wp (vfs_op_open 100 (zeros 256) 276 img_fs [47; 111; 111; 0]) img_world1 (λ r w', r = inl (- ENOENT)) ∧
  wp (vfs_op_open 100 (zeros 256) 276 img_fs [47; 102; 111; 111; 47; 46; 0]) img_world1 (λ r w', r = inl (- ENOTDIR)).
Proof.
  split; [|split; [|split]].
  - eapply wp_mono; [img_open img_path [47; 102; 111; 111] (inr 12 : Z + Z)|].
    cbn beta iota. intros r w' (i & n & (Hi & _) & Hout). destruct (decide (is_directory i)) as [Hd|Hd].
    + rewrite (has_inode_unique _ _ _ _ _ Hi img_has_foo) in Hd. discriminate Hd.
    + destruct Hout as (o & -> & Hc & _ & Hn & _). exists o. done.
  - eapply wp_mono; [img_open [47; 46; 0] [47; 46] (inr 2 : Z + Z)|].
    cbn beta iota. intros r w' (i & n & (Hi & _) & Hout). destruct (decide (is_directory i)) as [Hd|Hd].
    + by destruct Hout as (-> & -> & _).
    + destruct Hd. by rewrite (has_inode_unique _ _ _ _ _ Hi img_has_root).
  - eapply wp_mono; [img_open [47; 111; 111; 0] [47; 111; 111] (inl (- ENOENT) : Z + Z)|]. by intros r w' (_ & -> & _).
  - eapply wp_mono; [img_open [47; 102; 111; 111; 47; 46; 0] [47; 102; 111; 111; 47; 46] (inl (- ENOTDIR) : Z + Z)|]. by intros r w' (_ & -> & _).
Defined.

(** The file, just opened. *)
Definition img_file : openfdcontext :=
  Openfdcontext 32 (with_index 1 (with_current 30 1 (fresh_ino i_foo img_fs))) (File 276 3) 0.
Definition img_world2 : world nat unit := World 2%nat tt (FdTable 4 {[276 := 1]}).

Lemma img_file_state : file_state (H:=nat) (D:=unit) img_contents img_fs i_foo 14 img_file img_world2 [32].
Proof.
  split.
  - split; [done|]. split; [reflexivity|]. split; [apply NoDup_singleton|].
    intros p ->%list_elem_of_singleton. exists 1%nat. cbn. split; [lia|reflexivity].
  - split; [cbn; lia|]. right. exists 0%nat, 0. split; [|reflexivity].
    split; [unfold iter_at, sgl_at, dbl_at, tri_at; cbn; split_and!; done || lia|].
    split; [vm_compute; reflexivity|]. split; [by_decide|]. split; [cbn; lia|done].
Defined.

Lemma ext2_read_correct_witness :
  wp (fd_op_read img_file (zeros 2000) 2000) img_world2 (λ x _, x.1.1 = 2000 ∧ cursorpos x.2 = 2000).
Proof.
  eapply wp_mono.
  - apply (ext2_read_correct img_contents img_fs img_geometry img_reliable i_foo 14 img_file img_world2 [32]
      (zeros 2000) 2000 img_foo_blocks img_file_state).
    + unfold STREAM_MAX_TRANSFER_SIZE. lia.
    + unfold zeros. rewrite length_replicate. lia.
  - cbn beta zeta. intros [[r b] o] w' (_ & [= -> _] & Hc & _). split; [reflexivity|exact Hc].
Defined.

Lemma ext2_seek_keeps_cursor_witness :
  wp (fd_op_seek img_file 1500 SEEK_SET) img_world2 (λ x _, x.1 = 0 ∧ cursorpos x.2 = 0).
Proof.
  eapply wp_mono.
  - apply (ext2_seek_keeps_cursor img_contents img_fs i_foo 14 img_geometry img_reliable img_foo_blocks
      img_file img_world2 [32] 1500 img_file_state).
    + unfold STREAM_MAX_TRANSFER_SIZE. lia.
    + reflexivity.
  - intros x w' (Hr & Hc & _). done.
Defined.

Lemma ext2_close_releases_witness :
  wp (fd_op_close img_file) img_world2 (λ _ w', open_file_count (w_fds w') !! 276 = Some 0).
Proof.
  eapply wp_mono.
  - apply (ext2_close_releases img_contents img_fs i_foo 14 img_file img_world2 [] 1 img_file_state). reflexivity.
  - intros [] w' [_ ->]. reflexivity.
Defined.

(** ** The block iterator *)

Lemma ext2_block_iteration_witness :
  wp (next_inode_blocks 14) (fresh_ino i_foo img_fs, img_world1) (λ r s, r = inr tt ∧ current_block_addr s.1 = 51 ∧
    wp next_inode_block s (λ r _, r = inl (- ENOENT))).
Proof.
  eapply wp_mono.
  - apply (ext2_block_iteration img_contents img_fs i_foo img_geometry img_reliable eq_refl img_world1 [16] 14).
    + apply img_good1.
    + apply img_foo_blocks.
    + lia.
  - intros r s (Hr & Hb & He). split; [exact Hr|]. split.
    + vm_compute in Hb. injection Hb as Hb. symmetry. exact Hb.
    + apply He. vm_compute. reflexivity.
Defined.

(** Block 22 is the empty singly indirect table of inode 13. *)
Lemma ext2_empty_table_gives_block_zero_witness :
  wp next_inode_block (with_index 12 (fresh_ino i_empty img_fs), img_world1)
    (λ r s, r = inr tt ∧ current_block_addr s.1 = 0).
Proof.
  apply (ext2_empty_table_gives_block_zero img_contents img_fs i_empty img_geometry img_reliable _ _ [16]).
  - done.
  - unfold iter_at, sgl_at, dbl_at, tri_at. cbn. split_and!; done || lia.
  - apply img_good1.
  - discriminate.
  - by_decide.
  - vm_compute. reflexivity.
Defined.

Lemma ext2_empty_file_panics_witness : openinode 32 img_fs 13 img_world1 = Fault Assert_failed.
Proof.
  apply (ext2_empty_file_panics img_contents img_fs i_empty img_geometry img_reliable eq_refl 32 13 img_world1 [16]).
  - apply img_good1.
  - discriminate.
  - apply img_has_empty.
  - reflexivity.
Defined.

(** ** Out of memory *)

#[local] Existing Instances empty_heap empty_heap_laws empty_heap_exhausted.

Lemma ext2_mount_no_memory_witness :
  vfs_op_mount img_disk (World () tt (FdTable 0 ∅)) = Fault Bad_pointer.
Proof.
  apply (ext2_mount_no_memory (H:=unit) img_contents img_disk _ []).
  - split; [unfold ldisk_wf; cbn; lia|]. split; [by exists 2|]. vm_compute. discriminate.
  - split; [reflexivity|]. split; [constructor|]. intros p Hp. by apply not_elem_of_nil in Hp.
  - apply rom_reliable.
Defined.
