(* ===== verification/Vfs.v ===== *)
(** The virtual file system (src/kernel/fs/vfs.c,
    src/include/kernel/fs/vfs.h): mount points, the resolution of a path to a
    mounted file system, and the calls that go through its operations. *)
From S2P Require Import Prelude StrUtil HeapIface PathReader Disk FsWorld.

(** ** Paths without . and .. *)

Definition DOT : Z := 46.
Definition dot : list Z := [DOT; 0].
Definition dotdot : list Z := [DOT; DOT; 0].

(** A string on the heap. *)
Record hstring := Hstring { str_address : Z; chars : list Z }.

(** An iteration of the loop of [remove_rel_path]: the reader, the buffer and
    the index [dest] points to; the loop ends with a return value. *)
Definition rel_step (x : path_reader * list Z * Z)
    : res (path_reader * list Z * Z + (Z * list Z * Z)) :=
  let '(reader, new_path, dest) := x in
  '(ret, name, reader) ← pathreader_next reader;
  match name with
  | None => Ok (inr (if ret =? - ENOENT then 0 else ret, new_path, dest))
  | Some name =>
      c ← kstrcmp name dot;
      if c =? 0 then Ok (inl (reader, new_path, dest))
      else
        c ← kstrcmp name dotdot;
        if c =? 0 then
          found_pos ← kstrrchr new_path SLASH;
          let dest := match found_pos with None => 0 | Some p => p end in
          new_path ← wr new_path dest 0;
          Ok (inl (reader, new_path, dest))
        else
          c ← rd name 0;
          if negb (c =? 0) then
            new_path ← wr new_path dest SLASH;
            name_len ← kstrlen name;
            new_path ← vmemcpy new_path (dest + 1) name 0 name_len;
            Ok (inl (reader, new_path, dest + 1 + name_len))
          else Ok (inl (reader, new_path, dest))
  end.

Section FileSystems.
Context {W : Type} `{!HeapOps W} {File DirData Dirent : Type}.

(** What a block of memory of a size holds when it is allocated, and what the
    stack does. *)
Variables (garbage : nat → list Z) (name_buf : list Z).

(** The error number, with the new path when it is 0; on an error the buffer is
    freed only if it could not be allocated. *)
Definition remove_rel_path (path : list Z) : M W (Z + hstring) :=
  len ← lift (kstrlen path);
  let size := u32 (len + 2) in
  if size =? 0 then _ ← heap_free 0; mret (inl (- ENOMEM))
  else
    new_path ← heap_alloc size 0;
    if new_path =? 0 then _ ← heap_free new_path; mret (inl (- ENOMEM))
    else
      let fuel := S (length path) in
      '(ret, buf, dest) ← lift (loop fuel rel_step
         (pathreader_init (PathReader [] name_buf) path, garbage (Z.to_nat size), 0));
      if ret <? 0 then mret (inl ret)
      else
        buf ← lift (wr buf dest 0);
        mret (inr (Hstring new_path buf)).

(** ** Mount points *)

(** A directory stream: [struct DIR]. *)
Record DIR := Dir_ { dir_fscontext : Z; dir_data : DirData }.

(** The operations of a file system; those that are optional may be null. *)
Record vfs_fstype_ops := FstypeOps {
  op_mount : option ldisk → M W (Z + Z);
  op_umount : Z → M W Z;
  op_open : option (Z → list Z → Z → M W (Z + File));
  op_open_directory : option (Z → list Z → M W (Z + DIR));
  op_close_directory : option (DIR → M W Z);
  op_read_directory : option (DIR → M W ((Z + Dirent) * DIR));
}.

Record vfs_fstype := Fstype { name : list Z; ops : vfs_fstype_ops }.

(** What the virtual file system stores in a [struct vfs_fscontext]. *)
Record vfs_fscontext := Fscontext_ { mount_path : hstring; fstype : vfs_fstype }.

(** [s_fstypes], the addresses in [s_mounts], and the contexts that have not
    been freed. *)
Record vfs_state := VfsState {
  s_fstypes : list vfs_fstype;
  s_mounts : list Z;
  contexts : gmap Z vfs_fscontext;
  rest : W;
}.

Local Abbreviation MV A := (M vfs_state A).

Definition on_rest {A} (m : M W A) : MV A := λ s,
  match m (rest s) with
  | Ok (a, w) => Ok (a, VfsState (s_fstypes s) (s_mounts s) (contexts s) w)
  | Fault f => Fault f
  end.

Definition get_mounts : MV (list Z) := λ s, Ok (s_mounts s, s).
Definition get_fstypes : MV (list vfs_fstype) := λ s, Ok (s_fstypes s, s).

(** Reading a context through its address. *)
Definition context_at (a : Z) : MV vfs_fscontext := λ s,
  match contexts s !! a with Some c => Ok (c, s) | None => Fault Bad_pointer end.

Definition add_mount (a : Z) (c : vfs_fscontext) : MV unit := λ s,
  Ok (tt, VfsState (s_fstypes s) (s_mounts s ++ [a]) (<[a := c]> (contexts s)) (rest s)).

(** The file system frees its context. *)
Definition free_context (a : Z) : MV unit := λ s,
  Ok (tt, VfsState (s_fstypes s) (s_mounts s) (delete a (contexts s)) (rest s)).

(** When the path cannot be built, the pointer that is freed was not
    initialised. *)
Definition mount (fstype : vfs_fstype) (disk : option ldisk) (mountpath : list Z) : MV Z :=
  r ← on_rest (remove_rel_path mountpath);
  match r with
  | inl _ => throw Bad_pointer
  | inr newmountpath =>
      r ← on_rest (op_mount (ops fstype) disk);
      match r with
      | inl e => _ ← on_rest (heap_free (str_address newmountpath)); mret e
      | inr context => _ ← add_mount context (Fscontext_ newmountpath fstype); mret 0
      end
  end.

(** The first mount point of a list with this path. *)
Fixpoint find_mount_path (mounts : list Z) (path : list Z) : MV (option (Z * vfs_fscontext)) :=
  match mounts with
  | [] => mret None
  | a :: mounts =>
      entry ← context_at a;
      c ← lift (kstrcmp (chars (mount_path entry)) path);
      if c =? 0 then mret (Some (a, entry)) else find_mount_path mounts path
  end.

Definition findmount (mountpath : list Z) : MV (Z + (Z * vfs_fscontext)) :=
  r ← on_rest (remove_rel_path mountpath);
  match r with
  | inl e => _ ← on_rest (heap_free 0); mret (inl e)
  | inr newmountpath =>
      mounts ← get_mounts;
      _ ← massert (negb (bool_decide (mounts = [])));
      fscontext ← find_mount_path mounts (chars newmountpath);
      _ ← on_rest (heap_free (str_address newmountpath));
      mret match fscontext with None => inl (- EINVAL) | Some c => inr c end
  end.

(** [vfs_mount] with no type: the types one after the other, [ret] being what
    the last one returned. *)
Fixpoint mount_any (fstypes : list vfs_fstype) (disk : option ldisk) (mountpath : list Z) (ret : Z) : MV Z :=
  match fstypes with
  | [] => mret ret
  | t :: fstypes =>
      ret ← mount t disk mountpath;
      if (ret <? 0) && negb (ret =? - EINVAL) then mret ret
      else if ret =? 0 then mret ret
      else mount_any fstypes disk mountpath 0
  end.

(** The last type of this name. *)
Fixpoint find_fstype (fstypes : list vfs_fstype) (n : list Z) (result : option vfs_fstype)
    : res (option vfs_fstype) :=
  match fstypes with
  | [] => Ok result
  | t :: fstypes =>
      c ← kstrcmp (name t) n;
      find_fstype fstypes n (if c =? 0 then Some t else result)
  end.

Definition vfs_mount (fstype : option (list Z)) (disk : option ldisk) (mountpath : list Z) : MV Z :=
  fstypes ← get_fstypes;
  match fstype with
  | None => mount_any fstypes disk mountpath (- ENODEV)
  | Some n =>
      fstyperesult ← lift (find_fstype fstypes n None);
      match fstyperesult with
      | None => mret (- ENODEV)
      | Some t => mount t disk mountpath
      end
  end.

Definition vfs_umount (mountpath : list Z) : MV Z :=
  r ← findmount mountpath;
  match r with
  | inl e => mret e
  | inr (fscontext, c) =>
      let contextmountpath := str_address (mount_path c) in
      ret ← on_rest (op_umount (ops (fstype c)) fscontext);
      if ret <? 0 then mret ret
      else
        _ ← free_context fscontext;
        _ ← on_rest (heap_free contextmountpath);
        mret ret
  end.

Definition vfs_register_fstype (n : list Z) (o : vfs_fstype_ops) : MV unit := λ s,
  Ok (tt, VfsState (s_fstypes s ++ [Fstype n o]) (s_mounts s) (contexts s) (rest s)).

Definition ROOT : list Z := [SLASH; 0].
Definition DUMMYFS : list Z := [100; 117; 109; 109; 121; 102; 115; 0].

Fixpoint mount_first (disks : list ldisk) : MV unit :=
  match disks with
  | [] => mret tt
  | d :: disks =>
      status ← vfs_mount None (Some d) ROOT;
      if status <? 0 then mount_first disks else mret tt
  end.

Definition vfs_mount_root (disks : list ldisk) : MV unit :=
  match disks with
  | [] => ret ← vfs_mount (Some DUMMYFS) None ROOT; massert (0 <=? ret)
  | _ => mount_first disks
  end.

(** ** Files and directories *)

(** The mount point whose path the given one starts with, as far as characters
    go; a later one wins against an earlier one that is not longer. *)
Fixpoint best_mount (mounts : list Z) (path : list Z) (result : option (Z * vfs_fscontext))
    (lastmatchlen : Z) : MV (option (Z * vfs_fscontext) * Z) :=
  match mounts with
  | [] => mret (result, lastmatchlen)
  | a :: mounts =>
      entry ← context_at a;
      len ← lift (kstrlen (chars (mount_path entry)));
      if lastmatchlen <=? len then
        c ← lift (kstrncmp (chars (mount_path entry)) path len);
        if c =? 0 then best_mount mounts path (Some (a, entry)) len
        else best_mount mounts path result lastmatchlen
      else best_mount mounts path result lastmatchlen
  end.

(** The callback gets the file system and the rest of the path. *)
Definition resolve_path {A} (path : list Z) (callback : Z → vfs_fscontext → list Z → MV A) : MV (Z + A) :=
  r ← on_rest (remove_rel_path path);
  match r with
  | inl e => _ ← on_rest (heap_free 0); mret (inl e)
  | inr newpath =>
      mounts ← get_mounts;
      _ ← massert (negb (bool_decide (mounts = [])));
      '(result, lastmatchlen) ← best_mount mounts path None 0;
      match result with
      | None => throw Assert_failed
      | Some (a, c) =>
          if Z.of_nat (length (chars newpath)) <? lastmatchlen then throw Out_of_bounds
          else
            x ← callback a c (drop (Z.to_nat lastmatchlen) (chars newpath));
            mret (inr x)
      end
  end.

Definition resolve_path_callback_open_file (flags : Z) (fscontext : Z) (c : vfs_fscontext) (path : list Z)
    : MV (Z + File) :=
  match op_open (ops (fstype c)) with
  | None => mret (inl (- ENOENT))
  | Some f => on_rest (f fscontext path flags)
  end.

Definition vfs_open_file (path : list Z) (flags : Z) : MV (Z + File) :=
  r ← resolve_path path (resolve_path_callback_open_file flags);
  mret match r with inl e => inl e | inr x => x end.

Definition resolve_path_callback_open_directory (fscontext : Z) (c : vfs_fscontext) (path : list Z)
    : MV (Z + DIR) :=
  match op_open_directory (ops (fstype c)) with
  | None => mret (inl (- ENOENT))
  | Some f => on_rest (f fscontext path)
  end.

Definition vfs_open_directory (path : list Z) : MV (Z + DIR) :=
  r ← resolve_path path resolve_path_callback_open_directory;
  mret match r with inl e => inl e | inr x => x end.

(** [None] is the null pointer. *)
Definition vfs_close_directory (dir : option DIR) : MV Z :=
  match dir with
  | None => mret (- EBADF)
  | Some dir =>
      c ← context_at (dir_fscontext dir);
      match op_close_directory (ops (fstype c)) with
      | None => mret (- EBADF)
      | Some f => on_rest (f dir)
      end
  end.

Definition vfs_read_directory (dir : option DIR) : MV ((Z + Dirent) * option DIR) :=
  match dir with
  | None => mret (inl (- EBADF), None)
  | Some dir =>
      c ← context_at (dir_fscontext dir);
      match op_read_directory (ops (fstype c)) with
      | None => mret (inl (- EBADF), Some dir)
      | Some f => '(r, dir) ← on_rest (f dir); mret (r, Some dir)
      end
  end.

(** ** The operations of an open file *)

Record file_ops := FileOps {
  op_read : File → list Z → Z → M W (Z * list Z * File);
  op_write : File → list Z → Z → M W (Z * File);
  op_seek : File → Z → Z → M W (Z * File);
  op_close : File → M W unit;
}.

Definition vfs_close_file (o : file_ops) (fd : File) : MV unit := on_rest (op_close o fd).
Definition vfs_read_file (o : file_ops) (fd : File) (buf : list Z) (len : Z) : MV (Z * list Z * File) :=
  on_rest (op_read o fd buf len).
Definition vfs_write_file (o : file_ops) (fd : File) (buf : list Z) (len : Z) : MV (Z * File) :=
  on_rest (op_write o fd buf len).
Definition vfs_seek_file (o : file_ops) (fd : File) (offset whence : Z) : MV (Z * File) :=
  on_rest (op_seek o fd offset whence).

End FileSystems.
