(* ===== verification/VfsCorrect.v ===== *)
(** What the virtual file system does: normal paths, the choice of the mount
    point, mounting and unmounting. *)
From S2P Require Import Prelude StrUtil HeapIface PathReader Disk FsWorld Vfs.

(** ** Paths *)

(** The path a list of names is turned into. *)
Definition join (names : list (list Z)) : list Z := concat (cons SLASH <$> names).

(** The names that are left: the dots go. *)
Definition normal (cs : list Z) : list (list Z) := filter (λ p, p ≠ [DOT]) (components cs).

(** The room a list of names takes. *)
Definition room (names : list (list Z)) : nat := sum_list (S ∘ length <$> names).

Lemma join_length names : length (join names) = room names.
Proof. induction names as [|p ps IH]; cbn; [done|]. rewrite length_app. unfold join, room in IH. lia. Qed.

Lemma room_cons p ps : room (p :: ps) = (S (length p) + room ps)%nat.
Proof. done. Qed.

Lemma room_split cs : room (split_slash cs) = S (length cs).
Proof.
  induction cs as [|c cs IH]; cbn; [done|]. destruct (c =? SLASH); cbn.
  - unfold room in IH. lia.
  - destruct (split_slash cs) as [|p ps] eqn:E; cbn in *; lia.
Qed.

Lemma room_filter (P : list Z → Prop) `{∀ x, Decision (P x)} ps : (room (filter P ps) ≤ room ps)%nat.
Proof.
  induction ps as [|p ps IH]; [done|]. rewrite filter_cons. unfold room in *. case_decide; cbn; lia.
Qed.

Lemma room_components cs : (room (components cs) ≤ S (length cs))%nat.
Proof. rewrite <- room_split. apply room_filter. Qed.

Lemma components_count cs : (length (components cs) ≤ length cs)%nat.
Proof.
  assert (∀ ps, Forall (λ p, p ≠ []) ps → (2 * length ps ≤ room ps)%nat) as Hr.
  { induction ps as [|p ps IH]; intros Hp; cbn; [lia|]. apply Forall_cons in Hp as [Hp Hps].
    specialize (IH Hps). unfold room in IH. destruct p; [done|]. cbn. lia. }
  pose proof (room_components cs). pose proof (Hr (components cs)) as Hc.
  assert (Forall (λ p, p ≠ []) (components cs)) as Hne.
  { apply Forall_forall. intros p Hp. by apply list_elem_of_filter in Hp as [? _]. }
  specialize (Hc Hne). destruct (components cs); cbn in *; lia.
Qed.

Section Rel.
Variable buf0 : list Z.

(** The buffer while names are appended to it. *)
Definition appended (names : list (list Z)) (buf : list Z) (dest : Z) : Prop :=
  dest = Z.of_nat (room names) ∧ buf = join names ++ drop (room names) buf0.

Lemma wr_app {A} (pre post : list A) (x y : A) : wr (pre ++ x :: post) (Z.of_nat (length pre)) y = Ok (pre ++ y :: post).
Proof using Type.
  rewrite wr_ok by (rewrite length_app; cbn; lia). f_equal.
  by rewrite Nat2Z.id, insert_app_r_alt, Nat.sub_diag by lia.
Qed.

Lemma mem_write_app (pre post bs : list Z) : (length bs ≤ length post)%nat →
  mem_write (pre ++ post) (Z.of_nat (length pre)) bs = Ok (pre ++ bs ++ drop (length bs) post).
Proof using Type.
  intros Hl. rewrite mem_write_ok by (rewrite ?length_app; lia). rewrite Nat2Z.id, take_app_length.
  do 3 f_equal. rewrite drop_app_ge by lia. f_equal. lia.
Qed.

Lemma mem_read_cstr name p : cstr name p → mem_read name 0 (Z.of_nat (length p)) = Ok p.
Proof using Type.
  intros [_ [tl ->]]. rewrite mem_read_ok by (rewrite ?length_app; lia).
  by rewrite Nat2Z.id, drop_0, take_app_length.
Qed.

Lemma join_snoc names p : join (names ++ [p]) = join names ++ SLASH :: p.
Proof using Type. unfold join. rewrite fmap_app, concat_app. cbn. by rewrite app_nil_r. Qed.

Lemma room_snoc names p : room (names ++ [p]) = (room names + S (length p))%nat.
Proof using Type. rewrite <- !join_length, join_snoc, length_app. done. Qed.

(** The branch of [rel_step] that appends a name. *)
Lemma append_name names buf dest name p : appended names buf dest → cstr name p →
  (room names + S (length p) < length buf0)%nat → Z.of_nat (length buf0) < 2 ^ 32 →
  ∃ b b', wr buf dest SLASH = Ok b ∧ kstrlen name = Ok (Z.of_nat (length p)) ∧
    vmemcpy b (dest + 1) name 0 (Z.of_nat (length p)) = Ok b' ∧
    appended (names ++ [p]) b' (dest + 1 + Z.of_nat (length p)).
Proof using Type.
  intros [-> ->] Hname Hroom Hsz. pose proof (join_length names) as Hj.
  destruct (drop (room names) buf0) as [|g gs] eqn:Eg.
  { apply (f_equal length) in Eg. rewrite length_drop in Eg. cbn in Eg. lia. }
  assert (gs = drop (S (room names)) buf0) as Hgs.
  { replace (S (room names)) with (room names + 1)%nat by lia. by rewrite <- drop_drop, Eg. }
  exists (join names ++ SLASH :: gs), ((join names ++ [SLASH]) ++ p ++ drop (length p) gs).
  rewrite <- Hj, wr_app. split; [done|]. split; [apply kstrlen_ok; [done|lia]|].
  unfold vmemcpy. rewrite (mem_read_cstr name p) by done. cbn [mbind res_bind]. split.
  - rewrite (cons_middle SLASH), (assoc_L (++)).
    replace (Z.of_nat (length (join names)) + 1) with (Z.of_nat (length (join names ++ [SLASH])))
      by (by rewrite length_app, Nat2Z.inj_add).
    apply mem_write_app. rewrite Hgs, length_drop. lia.
  - split; [rewrite room_snoc; lia|]. rewrite join_snoc, room_snoc, Hgs, drop_drop.
    rewrite <- !(assoc_L (++)). cbn. do 4 f_equal. lia.
Qed.

(** What is left to do: the names to come fit into the buffer. *)
Definition fits (names todo : list (list Z)) : Prop := (room names + room todo < length buf0)%nat.

Lemma dot_eq name p : cstr name p → ∃ c, kstrcmp name dot = Ok c ∧ (c = 0 ↔ p = [DOT]).
Proof using Type. intros Hn. apply kstrcmp_ok; [done|]. split; [by apply not_elem_of_cons; split; [|apply not_elem_of_nil]|by exists []]. Qed.
Lemma dotdot_eq name p : cstr name p → ∃ c, kstrcmp name dotdot = Ok c ∧ (c = 0 ↔ p = [DOT; DOT]).
Proof using Type.
  intros Hn. apply kstrcmp_ok; [done|]. split; [|by exists []].
  by rewrite !not_elem_of_cons; split_and!; [..|apply not_elem_of_nil].
Qed.

Lemma component_nonempty cs p ps : components cs = p :: ps → p ≠ [].
Proof using Type.
  intros E. assert (p ∈ components cs) as Hp by (rewrite E; set_solver).
  by apply list_elem_of_filter in Hp as [? _].
Qed.

(** The loop, up to a list of names [rest] that is left. *)
Lemma rel_step_name reader cs p ps names buf dest : reads reader cs → components cs = p :: ps →
  Z.of_nat (length p) ≤ NAME_MAX → p ≠ [DOT; DOT] → appended names buf dest → fits names (p :: ps) →
  Z.of_nat (length buf0) < 2 ^ 32 →
  ∃ reader' cs' buf' dest' names', rel_step (reader, buf, dest) = Ok (inl (reader', buf', dest')) ∧
    reads reader' cs' ∧ components cs' = ps ∧ appended names' buf' dest' ∧ fits names' ps ∧
    names' = names ++ filter (λ p, p ≠ [DOT]) [p].
Proof using Type.
  intros Hrd Hcs Hlen Hdd Happ Hfits Hsz.
  destruct (pathreader_next_ok reader cs Hrd) as ([[ret nm] reader'] & Hnext & Hout).
  unfold next_outcome in Hout. rewrite Hcs in Hout. cbn in Hout.
  destruct Hout as [[_ ?]|(name & cs' & [= -> ->] & Hname & Hrd' & Hcs')]; [lia|].
  destruct (dot_eq name p Hname) as (c & Hc & Hceq). destruct (dotdot_eq name p Hname) as (c' & Hc' & Hceq').
  unfold rel_step. rewrite Hnext. cbn [mbind res_bind]. rewrite Hc. cbn [mbind res_bind].
  unfold fits in Hfits. rewrite room_cons in Hfits.
  destruct (Z.eqb_spec c 0) as [E|E].
  - exists reader', cs', buf, dest, names. split_and?; [done..|unfold fits; lia|].
    rewrite filter_cons_False by (intros Hn; by apply Hn, Hceq). by rewrite filter_nil, app_nil_r.
  - rewrite Hc'. cbn [mbind res_bind]. destruct (Z.eqb_spec c' 0) as [E'|_]; [by apply Hceq' in E'|].
    destruct p as [|x p]; [by apply component_nonempty in Hcs|].
    assert (rd name 0 = Ok x ∧ x ≠ 0) as [Hx Hx0].
    { destruct Hname as [Hz [tl ->]]. split; [done|]. intros ->. apply Hz. set_solver. }
    rewrite Hx. cbn [mbind res_bind]. destruct (Z.eqb_spec x 0); [done|]. cbn [negb].
    destruct (append_name names buf dest name (x :: p) Happ Hname) as (b & b' & Hw & Hl & Hcp & Happ');
      [lia|done|].
    rewrite Hw. cbn [mbind res_bind]. rewrite Hl. cbn [mbind res_bind]. rewrite Hcp. cbn [mbind res_bind].
    eexists _, _, _, _, _. split; [reflexivity|]. split_and?; [done|done|exact Happ'| |].
    + unfold fits. rewrite room_snoc. lia.
    + f_equal. rewrite filter_cons_True; [by rewrite filter_nil|]. intros Ed. by apply E, Hceq.
Qed.

(** The loop, over the first names. *)
Lemma rel_loop ps qs : ∀ fuel reader cs names buf dest, reads reader cs → components cs = ps ++ qs →
  Forall (λ p, Z.of_nat (length p) ≤ NAME_MAX) ps → [DOT; DOT] ∉ ps → appended names buf dest →
  fits names (ps ++ qs) → Z.of_nat (length buf0) < 2 ^ 32 →
  ∃ reader' cs' buf' dest', loop (length ps + fuel) rel_step (reader, buf, dest) =
      loop fuel rel_step (reader', buf', dest') ∧ reads reader' cs' ∧ components cs' = qs ∧
    appended (names ++ filter (λ p, p ≠ [DOT]) ps) buf' dest' ∧
    fits (names ++ filter (λ p, p ≠ [DOT]) ps) qs.
Proof using Type.
  induction ps as [|p ps IH]; intros fuel reader cs names buf dest Hrd Hcs Hlen Hdd Happ Hfits Hsz.
  - exists reader, cs, buf, dest. rewrite filter_nil, app_nil_r. done.
  - apply Forall_cons in Hlen as [Hp Hlen].
    destruct (rel_step_name reader cs p (ps ++ qs) names buf dest) as (r' & cs' & b' & d' & n' & Hs & Hrd' & Hcs' & Ha' & Hf' & ->);
      [done..|set_solver|done|done|done|].
    cbn [length Nat.add]. rewrite loop_S, Hs.
    destruct (IH fuel r' cs' (names ++ filter (λ p, p ≠ [DOT]) [p]) b' d' Hrd' Hcs') as (r2 & cs2 & b2 & d2 & Hl & Hr2 & Hc2 & Ha2 & Hf2);
      [done|set_solver|done..|].
    exists r2, cs2, b2, d2. rewrite <- (assoc_L (++)), <- filter_app in Ha2, Hf2. done.
Qed.

Lemma rel_end reader cs (buf : list Z) (dest : Z) : reads reader cs → components cs = [] →
  rel_step (reader, buf, dest) = Ok (inr (0, buf, dest)).
Proof using Type.
  intros Hrd Hcs. destruct (pathreader_next_ok reader cs Hrd) as ([[ret nm] reader'] & Hnext & Hout).
  unfold next_outcome in Hout. rewrite Hcs in Hout. cbn in Hout. injection Hout as -> ->.
  unfold rel_step. by rewrite Hnext.
Qed.

(** The last slash of a buffer that has no end is not found. *)
Lemma kstrrchr_unterminated buf i r c : Forall (λ x, x ≠ 0) buf → kstrrchr_from i r buf c = Fault Out_of_bounds.
Proof using Type.
  revert i r. induction buf as [|x buf IH]; intros i r Hn; [done|]. apply Forall_cons in Hn as [Hx Hn]. cbn.
  destruct (Z.eqb_spec x 0); [done|]. by apply IH.
Qed.

Lemma rel_dotdot reader cs ps (buf : list Z) (dest : Z) : reads reader cs → components cs = [DOT; DOT] :: ps →
  Forall (λ x, x ≠ 0) buf → rel_step (reader, buf, dest) = Fault Out_of_bounds.
Proof using Type.
  intros Hrd Hcs Hbuf. destruct (pathreader_next_ok reader cs Hrd) as ([[ret nm] reader'] & Hnext & Hout).
  unfold next_outcome in Hout. rewrite Hcs in Hout. cbn in Hout.
  destruct Hout as [[_ ?]|(name & cs' & [= -> ->] & Hname & Hrd' & Hcs')]; [unfold NAME_MAX in *; lia|].
  destruct (dot_eq name _ Hname) as (c & Hc & Hceq). destruct (dotdot_eq name _ Hname) as (c' & Hc' & Hceq').
  unfold rel_step. rewrite Hnext. cbn [mbind res_bind]. rewrite Hc. cbn [mbind res_bind].
  destruct (Z.eqb_spec c 0) as [E|_]; [by apply Hceq in E|]. rewrite Hc'. cbn [mbind res_bind].
  destruct (Z.eqb_spec c' 0) as [_|E]; [|exfalso; by apply E, Hceq'].
  unfold kstrrchr. by rewrite kstrrchr_unterminated.
Qed.

End Rel.

(** The characters of the names of a path are those of the path. *)
Lemma split_slash_chars cs c p : p ∈ split_slash cs → c ∈ p → c ∈ cs.
Proof.
  revert p. induction cs as [|x cs IH]; intros p Hp Hc; cbn in Hp.
  { apply list_elem_of_singleton in Hp as ->. by apply not_elem_of_nil in Hc. }
  destruct (x =? SLASH).
  - apply elem_of_cons in Hp as [->|Hp]; [by apply not_elem_of_nil in Hc|]. right. by eapply IH.
  - destruct (split_slash cs) as [|q qs] eqn:E.
    + apply list_elem_of_singleton in Hp as ->. apply list_elem_of_singleton in Hc as ->. left.
    + apply elem_of_cons in Hp as [->|Hp].
      * apply elem_of_cons in Hc as [->|Hc]; [left|right]. apply (IH q); [left|done].
      * right. apply (IH p); [by right|done].
Qed.

Lemma join_nonzero names : Forall (λ p, 0 ∉ p) names → Forall (λ x, x ≠ 0) (join names).
Proof.
  induction 1 as [|p ps Hp Hps IH]; [by constructor|]. cbn. constructor; [done|].
  apply Forall_app. split; [|done]. apply Forall_forall. by intros x Hx ->.
Qed.

Lemma components_nonzero cs : 0 ∉ cs → Forall (λ p, 0 ∉ p) (components cs).
Proof.
  intros Hz. apply Forall_forall. intros p Hp H0. apply Hz.
  apply list_elem_of_filter in Hp as [_ Hp]. by eapply split_slash_chars.
Qed.

Lemma Forall_filter {A} (P Q : A → Prop) `{∀ x, Decision (Q x)} l : Forall P l → Forall P (filter Q l).
Proof. rewrite !Forall_forall. intros Hl x [_ Hx]%list_elem_of_filter. auto. Qed.

Section Remove.
Context {W : Type} `{!HeapOps W} (garbage : nat → list Z) (name_buf : list Z).
Hypotheses (Hgarbage : ∀ n, length (garbage n) = n) (Hname : Z.of_nat (length name_buf) = NAME_MAX + 1).

(** A path of at most [NAME_MAX] characters a name, that fits into memory. *)
Definition path_fits (path cs : list Z) : Prop :=
  cstr path cs ∧ Forall (λ p, Z.of_nat (length p) ≤ NAME_MAX) (components cs) ∧ Z.of_nat (length cs) + 2 < 2 ^ 32.

Lemma path_buffer path cs : path_fits path cs →
  kstrlen path = Ok (Z.of_nat (length cs)) ∧ u32 (Z.of_nat (length cs) + 2) = Z.of_nat (length cs + 2) ∧
  reads (pathreader_init (PathReader [] name_buf) path) cs ∧ (length (components cs) < S (length path))%nat.
Proof using Hname.
  intros (Hc & _ & Hl). split; [apply kstrlen_ok; [done|lia]|]. split; [rewrite u32_small; lia|].
  split; [done|]. pose proof (components_count cs). destruct Hc as [_ [tl ->]]. rewrite length_app. lia.
Qed.

Lemma remove_rel_path_ok path cs w p w' : path_fits path cs → [DOT; DOT] ∉ components cs →
  heap_alloc (Z.of_nat (length cs) + 2) 0 w = Ok (p, w') → p ≠ 0 →
  ∃ buf, remove_rel_path garbage name_buf path w = Ok (inr (Hstring p buf), w') ∧
    cstr buf (join (normal cs)) ∧ length buf = (length cs + 2)%nat.
Proof using All.
  intros Hp Hdd Ha Hne. destruct (path_buffer path cs Hp) as (Hlen & Hu & Hrd & Hfuel).
  pose proof Hp as ([Hz _] & Hnames & Hl). pose proof (room_components cs) as Hroom.
  unfold remove_rel_path, lift, mbind, M_bind. rewrite Hlen, Hu.
  destruct (Z.eqb_spec (Z.of_nat (length cs + 2)) 0); [lia|].
  replace (Z.of_nat (length cs + 2)) with (Z.of_nat (length cs) + 2) by lia. rewrite Ha.
  destruct (Z.eqb_spec p 0); [done|]. replace (Z.to_nat (Z.of_nat (length cs) + 2)) with (length cs + 2)%nat by lia.
  set (g := garbage (length cs + 2)). assert (length g = length cs + 2)%nat as Hg by apply Hgarbage.
  replace (S (length path)) with (length (components cs) + S (length path - length (components cs)))%nat by lia.
  destruct (rel_loop g (components cs) [] (S (length path - length (components cs)))
    (pathreader_init (PathReader [] name_buf) path) cs [] g 0) as (r & cs' & buf & dest & -> & Hr & Hc & [-> ->] & Hf);
    [done|by rewrite app_nil_r|done|done|by split|unfold fits; rewrite app_nil_r; cbn; lia|lia|].
  rewrite loop_S, (rel_end r cs' _ _ Hr Hc). cbn [Z.ltb Z.compare app]. fold (normal cs).
  unfold fits in Hf. cbn [app] in Hf. fold (normal cs) in Hf. rewrite Nat.add_0_r in Hf.
  destruct (drop (room (normal cs)) g) as [|x gs] eqn:E.
  { apply (f_equal length) in E. rewrite length_drop in E. cbn in E. lia. }
  rewrite <- (join_length (normal cs)), wr_app. eexists. split; [done|]. split; [split; [|by eexists]|].
  2: { apply (f_equal length) in E. rewrite length_drop in E. cbn in E. rewrite length_app, join_length. cbn. lia. }
  assert (Forall (λ x, x ≠ 0) (join (normal cs))) as Hj
    by (apply join_nonzero, Forall_filter, components_nonzero; done).
  intros H0. rewrite Forall_forall in Hj. by apply (Hj 0).
Qed.

(** [..] in a path reads the buffer past what was written to it: when what
    the heap hands out holds no zero byte, the first [..] runs off its end. *)
Theorem dotdot_runs_off_the_buffer path cs w p w' : path_fits path cs →
  [DOT; DOT] ∈ components cs → (∀ n, Forall (λ x, x ≠ 0) (garbage n)) →
  heap_alloc (Z.of_nat (length cs) + 2) 0 w = Ok (p, w') → p ≠ 0 →
  remove_rel_path garbage name_buf path w = Fault Out_of_bounds.
Proof using All.
  intros Hp Hcs Hgz Ha Hne. destruct (path_buffer path cs Hp) as (Hlen & Hu & Hrd & Hfuel).
  pose proof Hp as ([Hz _] & Hnames & Hl). pose proof (room_components cs) as Hroom.
  pose proof (components_nonzero cs Hz) as Hnz.
  apply list_elem_of_split_l in Hcs as (pre & post & Hcs & Hpre). rewrite Hcs in *.
  unfold remove_rel_path, lift, mbind, M_bind. rewrite Hlen, Hu.
  destruct (Z.eqb_spec (Z.of_nat (length cs + 2)) 0); [lia|].
  replace (Z.of_nat (length cs + 2)) with (Z.of_nat (length cs) + 2) by lia. rewrite Ha.
  destruct (Z.eqb_spec p 0); [done|]. replace (Z.to_nat (Z.of_nat (length cs) + 2)) with (length cs + 2)%nat by lia.
  set (g := garbage (length cs + 2)). assert (length g = length cs + 2)%nat as Hg by apply Hgarbage.
  rewrite length_app in Hfuel. cbn in Hfuel.
  replace (S (length path)) with (length pre + S (length path - length pre))%nat by lia.
  apply Forall_app in Hnames as [Hnames _]. apply Forall_app in Hnz as [Hnz _].
  destruct (rel_loop g pre ([DOT; DOT] :: post) (S (length path - length pre))
    (pathreader_init (PathReader [] name_buf) path) cs [] g 0) as (r & cs' & buf & dest & -> & Hr & Hc & [-> ->] & Hf);
    [done|done|done|done|by split|unfold fits; rewrite Hg; cbn [room]; change (room []) with 0%nat; lia|lia|].
  rewrite loop_S, (rel_dotdot r cs' post _ _ Hr Hc); [done|]. apply Forall_app. split.
  - apply join_nonzero. cbn [app]. by apply Forall_filter.
  - apply Forall_drop, Hgz.
Qed.
End Remove.

(** ** The choice of the mount point *)
Section Resolve.
Context {W : Type} `{!HeapOps W} {File DirData Dirent : Type}.
Variables (garbage : nat → list Z) (name_buf : list Z).
Hypotheses (Hgarbage : ∀ n, length (garbage n) = n) (Hname : Z.of_nat (length name_buf) = NAME_MAX + 1).
Local Abbreviation state := (@vfs_state W File DirData Dirent).
Local Abbreviation ctx := (@vfs_fscontext W File DirData Dirent).
Implicit Types (s : state) (c : ctx).

(** The mount path of a context, and the contexts of the mount list. *)
Definition mpath c : list Z := cstr_of (chars (mount_path c)).

Definition live s (a : Z) : Prop := ∃ c, contexts s !! a = Some c ∧
  cstr (chars (mount_path c)) (mpath c) ∧ Z.of_nat (length (mpath c)) < 2 ^ 32.

(** The choice so far is right for the mount points [ms]. *)
Definition chosen s (cs : list Z) (ms : list Z) (r : option (Z * ctx)) (n : Z) : Prop :=
  match r with
  | None => n = 0 ∧ ∀ a c, a ∈ ms → contexts s !! a = Some c → ¬ mpath c `prefix_of` cs
  | Some (a, c) => a ∈ ms ∧ contexts s !! a = Some c ∧ mpath c `prefix_of` cs ∧ n = Z.of_nat (length (mpath c)) ∧
      ∀ a' c', a' ∈ ms → contexts s !! a' = Some c' → mpath c' `prefix_of` cs →
        (length (mpath c') ≤ length (mpath c))%nat
  end.

Lemma kstrncmp_mount m path cs tl : 0 ∉ m → cstr path cs →
  ∃ r, kstrncmp (m ++ 0 :: tl) path (Z.of_nat (length m)) = Ok r ∧ (r = 0 ↔ m `prefix_of` cs).
Proof using Type.
  clear. intros Hm [Hz [tl' ->]]. unfold kstrncmp. rewrite Nat2Z.id. revert cs Hz.
  induction m as [|x m IH]; intros cs Hz; cbn.
  { exists 0. split; [done|]. split; [|done]. intros _. apply prefix_nil. }
  assert (x ≠ 0) as Hx by (intros ->; set_solver).
  destruct cs as [|y cs]; cbn.
  - destruct (Z.eqb_spec x 0); [done|]. cbn. exists (x - 0). split; [done|]. split; [lia|].
    by intros ?%prefix_nil_not.
  - destruct (Z.eqb_spec x y) as [->|Hne]; cbn.
    + destruct (Z.eqb_spec y 0); [done|]. destruct (IH ltac:(set_solver) cs ltac:(set_solver)) as (r & -> & Hr).
      exists r. split; [done|]. rewrite Hr. split; [apply prefix_cons|apply prefix_cons_inv_2].
    + exists (x - y). split; [done|]. split; [lia|]. by intros ?%prefix_cons_inv_1.
Qed.

Lemma best_mount_ok path cs s : cstr path cs → ∀ todo done_ r n, Forall (live s) todo →
  chosen s cs done_ r n →
  ∃ r' n', best_mount todo path r n s = Ok ((r', n'), s) ∧ chosen s cs (done_ ++ todo) r' n'.
Proof using Type.
  clear Hgarbage Hname. intros Hpath. induction todo as [|a todo IH]; intros done_ r n Hlive Hch.
  { exists r, n. rewrite app_nil_r. done. }
  apply Forall_cons in Hlive as [(c & Hc & Hstr & Hlen) Hlive].
  cbn [best_mount]. unfold context_at at 1. unfold mbind, M_bind at 1. rewrite Hc.
  unfold lift, mbind, M_bind. rewrite (kstrlen_ok _ (mpath c)) by done.
  pose proof Hstr as [Hz [tl Etl]]. rewrite Etl.
  destruct (kstrncmp_mount (mpath c) path cs tl Hz Hpath) as (r0 & Hr0 & Heq).
  assert (∀ r' n', chosen s cs (done_ ++ [a]) r' n' →
    ∃ r2 n2, best_mount todo path r' n' s = Ok ((r2, n2), s) ∧ chosen s cs (done_ ++ a :: todo) r2 n2) as Hgo.
  { intros r' n' Hch'. destruct (IH (done_ ++ [a]) r' n' Hlive Hch') as (r2 & n2 & H2 & Hch2).
    exists r2, n2. split; [done|]. by rewrite <- (assoc_L (++)) in Hch2. }
  assert (∀ c', mpath c `prefix_of` cs → n ≤ Z.of_nat (length (mpath c)) → c' = c → chosen s cs (done_ ++ [a]) (Some (a, c')) (Z.of_nat (length (mpath c)))) as Hyes.
  { intros c' Hpre Hn ->. cbn. split_and?; [set_solver|done|done|done|].
    intros a' c' [Ha'|Ha']%elem_of_app Hc' Hp'.
    - destruct r as [[b d]|]; cbn in Hch.
      + destruct Hch as (_ & _ & _ & -> & Hmax). specialize (Hmax a' c' Ha' Hc' Hp'). lia.
      + destruct Hch as [_ Hno]. by destruct (Hno a' c' Ha' Hc').
    - apply list_elem_of_singleton in Ha' as ->. rewrite Hc in Hc'. by injection Hc' as ->. }
  assert (¬ mpath c `prefix_of` cs ∨ Z.of_nat (length (mpath c)) < n → chosen s cs (done_ ++ [a]) r n) as Hno.
  { intros Hn. destruct r as [[b d]|]; cbn in Hch |- *.
    - destruct Hch as (Hb & Hd & Hp & -> & Hmax). split_and?; [set_solver|done..|].
      intros a' c' [Ha'|Ha']%elem_of_app Hc' Hp'; [by apply (Hmax a')|].
      apply list_elem_of_singleton in Ha' as ->. rewrite Hc in Hc'. injection Hc' as <-. destruct Hn; [done|lia].
    - destruct Hch as [-> Hall]. split; [done|]. intros a' c' [Ha'|Ha']%elem_of_app Hc'; [by apply (Hall a')|].
      apply list_elem_of_singleton in Ha' as ->. rewrite Hc in Hc'. injection Hc' as <-. destruct Hn; [done|lia]. }
  destruct (Z.leb_spec n (Z.of_nat (length (mpath c)))) as [Hle|Hgt]; [|by apply Hgo, Hno; right].
  rewrite Hr0. destruct (Z.eqb_spec r0 0) as [E|E].
  - apply Hgo, Hyes; [by apply Heq|done|done].
  - apply Hgo, Hno. left. intros Hp. by apply E, Heq.
Qed.

Definition with_rest (w : W) s : state := VfsState (s_fstypes s) (s_mounts s) (contexts s) w.

(** A result of a file system, in the state of the virtual file system. *)
Definition from_rest {A} (s : state) (r : res (A * W)) : res (A * state) :=
  match r with Ok (a, w) => Ok (a, with_rest w s) | Fault f => Fault f end.

Lemma cstr_drop buf m sub : cstr buf (m ++ sub) → cstr (drop (length m) buf) sub.
Proof using Type.
  clear. intros [Hz [tl ->]]. rewrite <- (assoc_L (++)), drop_app_length. split; [set_solver|by eexists].
Qed.

(** C36: opening a file goes to the file system whose mount path is the longest
    that the path starts with, character by character, and hands it the rest of
    the path; the path is one without empty names and dots. *)
Theorem vfs_open_file_dispatch path cs flags s p w' : path_fits path cs → [DOT; DOT] ∉ components cs →
  join (normal cs) = cs → heap_alloc (Z.of_nat (length cs) + 2) 0 (rest s) = Ok (p, w') → p ≠ 0 →
  Forall (live s) (s_mounts s) → (∃ a c, a ∈ s_mounts s ∧ contexts s !! a = Some c ∧ mpath c = []) →
  ∃ a c sub buf, a ∈ s_mounts s ∧ contexts s !! a = Some c ∧ cs = mpath c ++ sub ∧ cstr buf sub ∧
    (∀ a' c', a' ∈ s_mounts s → contexts s !! a' = Some c' → mpath c' `prefix_of` cs →
       (length (mpath c') ≤ length (mpath c))%nat) ∧
    vfs_open_file garbage name_buf path flags s =
      match op_open (ops (fstype c)) with
      | None => Ok (inl (- ENOENT), with_rest w' s)
      | Some f => from_rest s (f a buf flags w')
      end.
Proof using All.
  intros Hp Hdd Hn Ha Hne Hlive (ra & rc & Hra & Hrc & Hroot).
  destruct (remove_rel_path_ok garbage name_buf Hgarbage Hname path cs (rest s) p w' Hp Hdd Ha Hne)
    as (buf & Hrel & Hbuf & Hlen).
  set (s1 := with_rest w' s).
  destruct (best_mount_ok path cs s1 (proj1 Hp) (s_mounts s) [] None 0) as (r & n & Hb & Hch).
  { eapply Forall_impl; [exact Hlive|]. intros a (c & ? & ?). by exists c. } { by split; [|intros ? ? ?%not_elem_of_nil]. }
  destruct r as [[a c]|]; cbn in Hch.
  2: { destruct Hch as [_ Hno]. destruct (Hno ra rc Hra Hrc). rewrite Hroot. apply prefix_nil. }
  destruct Hch as (Hin & Hc & [sub Hsub] & -> & Hmax). rewrite Hn, Hsub in Hbuf.
  exists a, c, sub, (drop (length (mpath c)) buf). split_and?; [done|done|done|by apply cstr_drop|done|].
  assert (length cs = length (mpath c) + length sub)%nat as Hl by (rewrite Hsub at 1; apply length_app).
  assert (on_rest (remove_rel_path garbage name_buf path) s = Ok (inr (Hstring p buf), s1)) as Hrel1
    by (unfold on_rest; by rewrite Hrel).
  unfold vfs_open_file, resolve_path, mbind, M_bind. rewrite Hrel1. unfold get_mounts. rewrite bool_decide_false by (intros E; change (s_mounts s1) with (s_mounts s) in E; rewrite E in Hra; by apply not_elem_of_nil in Hra).
  cbn [negb massert]. change (s_mounts s1) with (s_mounts s). rewrite Hb. cbn [chars].
  destruct (Z.ltb_spec (Z.of_nat (length buf)) (Z.of_nat (length (mpath c)))); [lia|].
  rewrite Nat2Z.id. unfold resolve_path_callback_open_file. destruct (op_open (ops (fstype c))) as [f|]; [|done].
  unfold on_rest, from_rest. cbn [rest s1 with_rest]. by destruct (f a _ flags w') as [[[e|x] w2]|e].
Qed.

End Resolve.

(** ** Mounting *)
Section Mount.
Context {W : Type} `{!HeapOps W} {File DirData Dirent : Type}.
Variables (garbage : nat → list Z) (name_buf : list Z).
Hypotheses (Hgarbage : ∀ n, length (garbage n) = n) (Hname : Z.of_nat (length name_buf) = NAME_MAX + 1).
Local Abbreviation state := (@vfs_state W File DirData Dirent).
Local Abbreviation ctx := (@vfs_fscontext W File DirData Dirent).
Local Abbreviation ty := (@vfs_fstype W File DirData Dirent).
Implicit Types (s : state) (c : ctx) (t : ty).

(** A heap on which the calls of this file succeed. *)
Hypothesis (Halloc : HeapSucceeds W) (Hfree : ∀ p w, ∃ w', heap_free p w = Ok (tt, w')).

Definition find_last (n : list Z) (ts : list ty) : option ty := last (filter (λ t, cstr_of (name t) = n) ts).

Lemma find_fstype_ok nm n ts r : cstr nm n → Forall (λ t, cstr (name t) (cstr_of (name t))) ts →
  find_fstype ts nm r = Ok (match find_last n ts with Some t => Some t | None => r end).
Proof using Type.
  clear. intros Hn. revert r. induction ts as [|t ts IH]; intros r Hts; [done|].
  apply Forall_cons in Hts as [Ht Hts]. cbn [find_fstype].
  destruct (kstrcmp_ok (name t) nm (cstr_of (name t)) n Ht Hn) as (x & -> & Hx). cbn [mbind res_bind].
  rewrite IH by done. unfold find_last. rewrite filter_cons.
  destruct (Z.eqb_spec x 0) as [E|E].
  - rewrite decide_True by (by apply Hx). rewrite last_cons. by destruct (last _).
  - rewrite decide_False by (intros En; by apply E, Hx). done.
Qed.

Lemma mount_ok t path cs disk s : path_fits path cs → [DOT; DOT] ∉ components cs →
  ∃ p w1 m, heap_alloc (Z.of_nat (length cs) + 2) 0 (rest s) = Ok (p, w1) ∧
    cstr (chars m) (join (normal cs)) ∧
    match op_mount (ops t) disk w1 with
    | Fault f => mount garbage name_buf t disk path s = Fault f
    | Ok (inl e, w2) => ∃ w3, heap_free p w2 = Ok (tt, w3) ∧
        mount garbage name_buf t disk path s = Ok (e, with_rest w3 s)
    | Ok (inr a, w2) => mount garbage name_buf t disk path s =
        Ok (0, VfsState (s_fstypes s) (s_mounts s ++ [a]) (<[a := Fscontext_ m t]> (contexts s)) w2)
    end.
Proof using All.
  intros Hp Hdd. destruct (Halloc (Z.of_nat (length cs) + 2) 0 (rest s)) as (p & w1 & Ha & Hne).
  destruct (remove_rel_path_ok garbage name_buf Hgarbage Hname path cs (rest s) p w1 Hp Hdd Ha Hne)
    as (buf & Hrel & Hbuf & _).
  exists p, w1, (Hstring p buf). split; [done|]. split; [done|].
  assert (on_rest (remove_rel_path garbage name_buf path) s = Ok (inr (Hstring p buf), with_rest w1 s)) as Hrel1
    by (unfold on_rest; by rewrite Hrel).
  assert (∀ B (k : Z + Z → M state B), (on_rest (op_mount (ops t) disk) ≫= k) (with_rest w1 s) =
    match op_mount (ops t) disk w1 with Ok (r, w2) => k r (with_rest w2 s) | Fault f => Fault f end) as Hop.
  { intros B k. unfold mbind, M_bind, on_rest. cbn [rest with_rest]. by destruct (op_mount (ops t) disk w1) as [[r w2]|f]. }
  unfold mount. rewrite (M_bind_step _ _ _ _ _ Hrel1), Hop.
  destruct (op_mount (ops t) disk w1) as [[[e|a] w2]|f]; [|done..].
  destruct (Hfree p w2) as [w3 Hf]. exists w3. split; [done|]. unfold mbind, M_bind, on_rest. cbn [rest with_rest str_address].
  by rewrite Hf.
Qed.

(** C37: mounting by type: the last registered type of that name mounts the disk;
    its error is returned and the path is freed, or the mount point is the last
    of the list, with the path in normal form. *)
Theorem vfs_mount_correct nm n path cs disk s : cstr nm n →
  Forall (λ t, cstr (name t) (cstr_of (name t))) (s_fstypes s) →
  path_fits path cs → [DOT; DOT] ∉ components cs →
  match find_last n (s_fstypes s) with
  | None => vfs_mount garbage name_buf (Some nm) disk path s = Ok (- ENODEV, s)
  | Some t => ∃ p w1 m, heap_alloc (Z.of_nat (length cs) + 2) 0 (rest s) = Ok (p, w1) ∧
      cstr (chars m) (join (normal cs)) ∧
      match op_mount (ops t) disk w1 with
      | Fault f => vfs_mount garbage name_buf (Some nm) disk path s = Fault f
      | Ok (inl e, w2) => ∃ w3, heap_free p w2 = Ok (tt, w3) ∧
          vfs_mount garbage name_buf (Some nm) disk path s = Ok (e, with_rest w3 s)
      | Ok (inr a, w2) => vfs_mount garbage name_buf (Some nm) disk path s =
          Ok (0, VfsState (s_fstypes s) (s_mounts s ++ [a]) (<[a := Fscontext_ m t]> (contexts s)) w2)
      end
  end.
Proof using All.
  intros Hn Hts Hp Hdd. unfold vfs_mount, mbind, M_bind, get_fstypes, lift.
  rewrite (find_fstype_ok nm n (s_fstypes s) None Hn Hts).
  destruct (find_last n (s_fstypes s)) as [t|]; [|done]. by apply mount_ok.
Qed.

(** when every type says the disk is not of its kind, mounting without a
    type reports success, and nothing is mounted. *)
Theorem vfs_mount_probe_reports_success path cs disk s : path_fits path cs → [DOT; DOT] ∉ components cs →
  s_fstypes s ≠ [] →
  Forall (λ t, ∀ w, ∃ w', op_mount (ops t) disk w = Ok (inl (- EINVAL), w')) (s_fstypes s) →
  ∃ w', vfs_mount garbage name_buf None disk path s = Ok (0, with_rest w' s).
Proof using All.
  intros Hp Hdd Hne Hall. unfold vfs_mount, mbind, M_bind, get_fstypes.
  assert (∀ ts ret s1, Forall (λ t, ∀ w, ∃ w', op_mount (ops t) disk w = Ok (inl (- EINVAL), w')) ts →
    ts ≠ [] ∨ ret = 0 → ∃ w', mount_any garbage name_buf ts disk path ret s1 = Ok (0, with_rest w' s1)) as Hgo.
  2: { apply Hgo; [done|by left]. }
  clear Hne Hall s. induction ts as [|t ts IH]; intros ret s1 Hts Hret.
  { destruct Hret as [?| ->]; [done|]. exists (rest s1). by destruct s1. }
  apply Forall_cons in Hts as [Ht Hts].
  destruct (mount_ok t path cs disk s1 Hp Hdd) as (p & w1 & m & Ha & _ & Hm).
  destruct (Ht w1) as [w2 E]. rewrite E in Hm. destruct Hm as (w3 & _ & Hm).
  cbn [mount_any]. rewrite (M_bind_step _ _ _ _ _ Hm).
  destruct (IH 0 (with_rest w3 s1) Hts (or_intror eq_refl)) as [w' Hw']. exists w'. exact Hw'.
Qed.

End Mount.

(** ** Unmounting *)
Section Umount.
Context {W : Type} `{!HeapOps W} {File DirData Dirent : Type}.
Variables (garbage : nat → list Z) (name_buf : list Z).
Local Abbreviation state := (@vfs_state W File DirData Dirent).
Local Abbreviation ctx := (@vfs_fscontext W File DirData Dirent).
Implicit Types (s : state).

Lemma find_mount_path_in ms path s s' a (c : ctx) : find_mount_path ms path s = Ok (Some (a, c), s') →
  s' = s ∧ a ∈ ms ∧ contexts s !! a = Some c.
Proof using Type.
  revert s. induction ms as [|x ms IH]; intros s; cbn [find_mount_path]; [done|].
  unfold mbind, M_bind, context_at, lift. destruct (contexts s !! x) as [d|] eqn:Ed; [|done].
  destruct (kstrcmp _ path) as [r|]; [|done]. destruct (r =? 0).
  - intros [= <- <- <-]. split_and!; [done|by left|done].
  - intros (? & ? & ?)%IH. split_and!; [done|by right|done].
Qed.

Lemma best_mount_dead ms path r n s a : a ∈ ms → contexts s !! a = None → ∀ x, best_mount ms path r n s ≠ Ok x.
Proof using Type.
  intros Ha Hc. revert r n. induction ms as [|b ms IH]; intros r n x; [by apply not_elem_of_nil in Ha|].
  cbn [best_mount]. unfold mbind, M_bind, context_at, lift. destruct (contexts s !! b) as [d|] eqn:Ed; [|done].
  apply elem_of_cons in Ha as [->|Ha]; [congruence|]. specialize (IH Ha).
  destruct (kstrlen _) as [l|]; [|done]. destruct (n <=? l); [|apply IH].
  destruct (kstrncmp _ _ _) as [r0|]; [|done]. destruct (r0 =? 0); apply IH.
Qed.

Lemma on_rest_frame {A} (m : M W A) s a s' : on_rest m s = Ok (a, s') →
  s_mounts s' = s_mounts s ∧ contexts s' = contexts s.
Proof using Type. unfold on_rest. destruct (m (rest s)) as [[x w]|]; [|done]. by intros [= <- <-]. Qed.

Lemma findmount_frame path s r s' : findmount garbage name_buf path s = Ok (r, s') →
  s_mounts s' = s_mounts s ∧ contexts s' = contexts s ∧
  ∀ a (c : ctx), r = inr (a, c) → a ∈ s_mounts s ∧ contexts s !! a = Some c.
Proof using Type.
  unfold findmount. intros (q & s1 & Hq & H)%M_bind_ok. apply on_rest_frame in Hq as [Hm1 Hc1].
  destruct q as [e|np].
  { apply M_bind_ok in H as ([] & s2 & Hf & [= <- <-]). apply on_rest_frame in Hf as [? ?].
    split_and!; congruence. }
  apply M_bind_ok in H as (ms & s2 & [= <- <-] & H). apply M_bind_ok in H as ([] & s2 & Ha & H).
  assert (s2 = s1) as -> by (unfold massert in Ha; by destruct (negb _); [injection Ha as <-|]).
  apply M_bind_ok in H as (o & s2 & Hfind & H). apply M_bind_ok in H as ([] & s3 & Hf & [= <- <-]).
  apply on_rest_frame in Hf as [Hm3 Hc3]. destruct o as [[a c]|].
  - apply find_mount_path_in in Hfind as (-> & Hin & Hc). split_and!; [congruence..|].
    intros a' c' [= <- <-]. rewrite <- Hm1, <- Hc1. done.
  - assert (s2 = s1) as ->; [|split_and!; [congruence..|done]].
    clear -Hfind. revert Hfind. generalize (s_mounts s1). induction l as [|x ms IH]; cbn [find_mount_path]; [by intros [= <-]|].
    unfold mbind, M_bind, context_at, lift. destruct (contexts s1 !! x) as [d|]; [|done].
    destruct (kstrcmp _ _) as [r|]; [|done]. destruct (r =? 0); [done|apply IH].
Qed.

Lemma remove_rel_path_negative path w e w' : remove_rel_path garbage name_buf path w = Ok (inl e, w') → e < 0.
Proof using Type.
  unfold remove_rel_path. intros (len & w1 & _ & H)%M_bind_ok. revert H. cbv zeta.
  destruct (_ =? 0); [by intros ([] & w2 & _ & [= <- <-])%M_bind_ok|].
  intros (np & w2 & _ & H)%M_bind_ok. revert H.
  destruct (np =? 0); [by intros ([] & w3 & _ & [= <- <-])%M_bind_ok|].
  intros ([[ret buf] dest] & w3 & _ & H)%M_bind_ok. revert H.
  destruct (Z.ltb_spec ret 0); [by intros [= <- <-]|].
  by intros (b & w4 & _ & [= ])%M_bind_ok.
Qed.

Lemma findmount_negative path s e s' : findmount garbage name_buf path s = Ok (inl e, s') → e < 0.
Proof using Type.
  unfold findmount. intros (q & s1 & Hq & H)%M_bind_ok. destruct q as [e'|np].
  - apply M_bind_ok in H as ([] & s2 & _ & [= <- <-]). unfold on_rest in Hq.
    destruct (remove_rel_path _ _ _ _) as [[r w]|] eqn:E; [|done]. injection Hq as -> <-.
    by eapply remove_rel_path_negative.
  - apply M_bind_ok in H as (ms & s2 & _ & H). apply M_bind_ok in H as ([] & s3 & _ & H).
    apply M_bind_ok in H as (o & s4 & _ & H). apply M_bind_ok in H as ([] & s5 & _ & [= Hr <-]).
    destruct o; [done|]. injection Hr as <-. done.
Qed.

(** C39: a file system that was unmounted stays in the list of mount points: its
    context is freed, and from then on no path can be resolved. *)
Theorem vfs_umount_leaves_mount_point path s ret s' : vfs_umount garbage name_buf path s = Ok (ret, s') → 0 ≤ ret →
  s_mounts s' = s_mounts s ∧ ∃ a, a ∈ s_mounts s' ∧ contexts s' = delete a (contexts s) ∧
    ∀ A path' (callback : Z → ctx → list Z → M state A) x s'',
      resolve_path garbage name_buf path' callback s' ≠ Ok (inr x, s'').
Proof using Type.
  unfold vfs_umount. intros (r & s1 & Hfm & H)%M_bind_ok Hret. pose proof Hfm as Hneg.
  apply findmount_frame in Hfm as (Hm1 & Hc1 & Hin).
  destruct r as [e|[a c]].
  { apply findmount_negative in Hneg. injection H as -> <-. lia. }
  destruct (Hin a c eq_refl) as [Ha Hc].
  apply M_bind_ok in H as (r & s2 & Hu & H). apply on_rest_frame in Hu as [Hm2 Hc2].
  destruct (Z.ltb_spec r 0); [injection H as -> <-; lia|].
  apply M_bind_ok in H as ([] & s3 & [= <-] & H).
  apply M_bind_ok in H as ([] & s4 & Hf & [= <- <-]). apply on_rest_frame in Hf as [Hm4 Hc4].
  cbn [s_mounts contexts] in Hm4, Hc4. split; [congruence|]. exists a.
  assert (a ∈ s_mounts s4) as Ha4 by congruence.
  assert (contexts s4 !! a = None) as Hd by (rewrite Hc4; apply lookup_delete_eq).
  split_and?; [done|congruence|]. intros A path' callback x s5 Hres. revert Hres. unfold resolve_path.
  intros (q & s6 & Hq & H')%M_bind_ok. apply on_rest_frame in Hq as [Hm6 Hc6]. destruct q as [e|np].
  { by apply M_bind_ok in H' as ([] & s7 & _ & [= ]). }
  apply M_bind_ok in H' as (ms & s7 & [= <- <-] & H'). apply M_bind_ok in H' as ([] & s7 & Hm & H').
  assert (s7 = s6) as -> by (unfold massert in Hm; by destruct (negb _); [injection Hm as <-|]).
  apply M_bind_ok in H' as (bm & s7 & Hbm & _).
  eapply best_mount_dead; [..|exact Hbm]; [rewrite Hm6; exact Ha4|by rewrite Hc6].
Qed.
End Umount.

(** ** Examples: two mounted file systems, whose files are pairs of their
    number and the path they were opened with *)
Section Examples.
#[local] Existing Instances always_heap always_heap_succeeds.

Definition toy_file : Type := Z * list Z.
Definition toy_garbage (n : nat) : list Z := replicate n 0x90.
Definition toy_name : list Z := replicate 256 0.
Definition toy_ops (accepts : bool) : @vfs_fstype_ops nat toy_file unit unit :=
  FstypeOps (λ _, mret (if accepts then inr 256 else inl (- EINVAL))) (λ _, mret 0)
    (Some (λ a path _, mret (inr (a, path)))) None None None.

(** "toy" and "a" *)
Definition toy : list Z := [116; 111; 121; 0].
Definition slash_a : list Z := [SLASH; 97; 0].
Definition slash_a_b : list Z := [SLASH; 97; SLASH; 98; 0].
Definition toy_type : vfs_fstype := Fstype toy (toy_ops true).
Definition toy_state : vfs_state := VfsState [toy_type] [16; 32]
  (<[16 := Fscontext_ (Hstring 100 [0]) toy_type]> (<[32 := Fscontext_ (Hstring 108 slash_a) toy_type]> ∅)) 0%nat.
Definition other_state : vfs_state := VfsState [Fstype toy (toy_ops false)] [] ∅ 0%nat.

Lemma toy_garbage_length n : length (toy_garbage n) = n.
Proof. apply length_replicate. Defined.
Lemma toy_free (p : Z) (w : nat) : ∃ w', heap_free p w = Ok (tt, w').
Proof. by exists w. Defined.

Ltac by_decide := match goal with |- ?P => refine (proj1 (bool_decide_eq_true P) _) end; vm_compute; reflexivity.
Ltac example_path :=
  unfold path_fits, cstr; split_and?; [by_decide|eexists; reflexivity|by_decide|vm_compute; reflexivity].

Lemma slash_a_b_fits : path_fits slash_a_b [SLASH; 97; SLASH; 98].
Proof. example_path. Defined.
Lemma slash_a_fits : path_fits slash_a [SLASH; 97].
Proof. example_path. Defined.

Lemma toy_live : Forall (live toy_state) (s_mounts toy_state).
Proof.
  repeat constructor; unfold live; eexists; (split; [reflexivity|]); (split; [|vm_compute; reflexivity]);
    (split; [by_decide|eexists; reflexivity]).
Defined.

Lemma dotdot_runs_off_the_buffer_witness :
  remove_rel_path toy_garbage toy_name [SLASH; DOT; DOT; 0] 0%nat = Fault Out_of_bounds.
Proof.
  apply (dotdot_runs_off_the_buffer toy_garbage toy_name toy_garbage_length eq_refl _ [SLASH; DOT; DOT] _ 16 1%nat).
  - example_path.
  - by_decide.
  - intros n. apply Forall_replicate. discriminate.
  - reflexivity.
  - discriminate.
Defined.

Lemma vfs_open_file_dispatch_witness :
  ∃ a c sub buf, a ∈ s_mounts toy_state ∧ contexts toy_state !! a = Some c ∧
    [SLASH; 97; SLASH; 98] = mpath c ++ sub ∧ cstr buf sub ∧
    (∀ a' c', a' ∈ s_mounts toy_state → contexts toy_state !! a' = Some c' →
       mpath c' `prefix_of` [SLASH; 97; SLASH; 98] → (length (mpath c') ≤ length (mpath c))%nat) ∧
    vfs_open_file toy_garbage toy_name slash_a_b 0 toy_state =
      match op_open (ops (fstype c)) with
      | None => Ok (inl (- ENOENT), with_rest 1%nat toy_state)
      | Some f => from_rest toy_state (f a buf 0 1%nat)
      end.
Proof.
  apply (vfs_open_file_dispatch toy_garbage toy_name toy_garbage_length eq_refl _ _ _ _ 16 1%nat).
  - apply slash_a_b_fits.
  - by_decide.
  - reflexivity.
  - reflexivity.
  - discriminate.
  - apply toy_live.
  - eexists 16, _. split; [by_decide|]. split; reflexivity.
Defined.

Lemma vfs_mount_correct_witness : ∃ p w1 m, heap_alloc 4 0 (rest other_state) = Ok (p, w1) ∧
  cstr (chars m) [SLASH; 97] ∧ ∃ w3, heap_free p w1 = Ok (tt, w3) ∧
    vfs_mount toy_garbage toy_name (Some toy) None slash_a other_state = Ok (- EINVAL, with_rest w3 other_state).
Proof.
  apply (vfs_mount_correct toy_garbage toy_name toy_garbage_length eq_refl _ toy_free
    toy [116; 111; 121] slash_a [SLASH; 97] None other_state).
  - split; [by_decide|eexists; reflexivity].
  - repeat constructor; [by_decide|eexists; reflexivity].
  - apply slash_a_fits.
  - by_decide.
Defined.

Lemma vfs_mount_probe_reports_success_witness :
  ∃ w', vfs_mount toy_garbage toy_name None None slash_a other_state = Ok (0, with_rest w' other_state).
Proof.
  apply (vfs_mount_probe_reports_success toy_garbage toy_name toy_garbage_length eq_refl _ toy_free
    slash_a [SLASH; 97] None other_state).
  - apply slash_a_fits.
  - by_decide.
  - discriminate.
  - repeat constructor. intros w. by exists w.
Defined.

Definition toy_unmounted : vfs_state :=
  VfsState [toy_type] [16; 32] (<[16 := Fscontext_ (Hstring 100 [0]) toy_type]> ∅) 1%nat.

Lemma vfs_umount_leaves_mount_point_witness :
  s_mounts toy_unmounted = [16; 32] ∧ ∃ a, a ∈ s_mounts toy_unmounted ∧
    contexts toy_unmounted = delete a (contexts toy_state) ∧
    ∀ A path' (callback : Z → _ → list Z → M _ A) x s'',
      resolve_path toy_garbage toy_name path' callback toy_unmounted ≠ Ok (inr x, s'').
Proof.
  apply (vfs_umount_leaves_mount_point toy_garbage toy_name slash_a toy_state 0).
  - vm_compute. reflexivity.
  - discriminate.
Defined.
End Examples.
