(* ===== verification/Unistd.v ===== *)
(** Command line options (src/kernel/lib/libc/unistd.c): [getopt], and what the
    calls of it find in the arguments of a program. *)
From S2P Require Import Prelude StrUtil.

(** ** State *)

(** The variables of unistd.c.  A pointer to characters is the memory from
    there on, as a list of [char]s. *)
Record getopt_vars := GetoptVars {
  optarg : option (list Z); opterr : Z; optind : Z; optopt : Z; s_next_char_idx : Z;
}.
Local Abbreviation GM A := (M getopt_vars A).

Definition modify_vars (f : getopt_vars → getopt_vars) : GM unit := λ s, Ok (tt, f s).
Definition set_optarg (a : option (list Z)) : GM unit :=
  modify_vars (λ s, GetoptVars a (opterr s) (optind s) (optopt s) (s_next_char_idx s)).
Definition set_optopt (c : Z) : GM unit :=
  modify_vars (λ s, GetoptVars (optarg s) (opterr s) (optind s) c (s_next_char_idx s)).
Definition next_char : GM unit :=
  modify_vars (λ s, GetoptVars (optarg s) (opterr s) (optind s) (optopt s) (s32 (s_next_char_idx s + 1))).

Definition getopt_nextarg : GM unit :=
  modify_vars (λ s, GetoptVars (optarg s) (opterr s) (s32 (optind s + 1)) (optopt s) 1).

(** ** Operations *)

Section Getopt.
Variables (argc : Z) (argv : list (option (list Z))).

Definition getopt_get_arg (argopt : list Z) (opt_char : Z) : GM bool :=
  let fail := _ ← getopt_nextarg; _ ← set_optopt opt_char; mret false in
  c ← lift (rd argopt 1);
  if c =? 0 then
    s ← get;
    if argc - optind s <? 2 then fail
    else
      arg ← lift (rd argv (optind s + 1));
      _ ← set_optarg arg;
      _ ← getopt_nextarg;
      _ ← getopt_nextarg;
      mret true
  else
    _ ← set_optarg (Some (drop 1 argopt));
    c ← lift (rd (drop 1 argopt) 0);
    if c =? 0 then fail
    else _ ← getopt_nextarg; mret true.

Definition getopt_opt_char_skip_len (argopt next_opt_char : list Z) : res Z :=
  opt_char ← rd next_opt_char 0;
  if (opt_char =? 43) || (opt_char =? 58) || (opt_char =? 63) then Ok 1
  else
    n ← rd next_opt_char 1;
    let has_args := n =? 58 in
    c ← rd argopt 0;
    if negb (c =? opt_char) then Ok (if has_args then 2 else 1) else Ok 0.

(** How the loop over the options ends. *)
Inductive search := Not_found | Found (result_opt : Z) | Missing_arg.

Definition search_step (argopt next_opt_char : list Z) : GM (list Z + search) :=
  c ← lift (rd next_opt_char 0);
  s ← get;
  if (c =? 0) || negb (optind s <? argc) then mret (inr Not_found)
  else
    skip_len ← lift (getopt_opt_char_skip_len argopt next_opt_char);
    if negb (skip_len =? 0) then mret (inl (drop (Z.to_nat skip_len) next_opt_char))
    else
      n ← lift (rd next_opt_char 1);
      if n =? 58 then
        ok ← getopt_get_arg argopt c;
        mret (inr (if ok : bool then Found c else Missing_arg))
      else
        _ ← next_char;
        c1 ← lift (rd argopt 1);
        _ ← (if c1 =? 0 then getopt_nextarg else mret tt);
        mret (inr (Found c)).

Definition invalid_option (argopt : list Z) (print_err : bool) : GM Z :=
  s ← get;
  if optind s =? argc then mret (-1)
  else
    c ← lift (rd argopt 0);
    _ ← set_optopt (u8 c);
    _ ← next_char;
    c1 ← lift (rd argopt 1);
    _ ← (if c1 =? 0 then getopt_nextarg else mret tt);
    mret 63.

(** The result is [-1] when there are no more options; the messages are not
    part of the model. *)
Definition getopt (optstring : list Z) : GM Z :=
  s ← get;
  if argc <=? optind s then mret (-1)
  else
    c ← lift (rd optstring 0);
    let next_opt_char := if c =? 43 then drop 1 optstring else optstring in
    c ← lift (rd next_opt_char 0);
    let print_err := negb (c =? 58) in
    let next_opt_char := if negb print_err then drop 1 next_opt_char else next_opt_char in
    let print_err := if opterr s =? 0 then false else print_err in
    arg ← lift (rd argv (optind s));
    match arg with
    | None => mret (-1)
    | Some arg =>
        c ← lift (rd arg 0);
        if negb (c =? 45) then mret (-1)
        else
          r ← lift (kstrcmp arg [45; 0]);
          if r =? 0 then mret (-1)
          else
            r ← lift (kstrcmp arg [45; 45; 0]);
            if r =? 0 then _ ← getopt_nextarg; mret (-1)
            else
              _ ← (if s_next_char_idx s <? 0 then throw Out_of_bounds else mret tt);
              let argopt := drop (Z.to_nat (s_next_char_idx s)) arg in
              result ← loop_m (S (length optstring)) (search_step argopt) next_opt_char;
              match result with
              | Found c => if negb (c =? 63) then mret c else invalid_option argopt print_err
              | Not_found => invalid_option argopt print_err
              | Missing_arg => mret (if print_err then 63 else 58)
              end
    end.
End Getopt.

(** The calls of the repository's own test of [getopt]. *)
Definition call (argc : Z) (argv : list (option (list Z))) (optstring : list Z) (s : getopt_vars) : option (Z * Z * Z * option (list Z)) :=
  match getopt argc argv optstring s with
  | Ok (r, s') => Some (r, optind s', optopt s', optarg s')
  | Fault _ => None
  end.

(** ** Options of a program

    An option is a character, and whether it takes an argument. *)
Inductive token := Option_ (c : Z) | Option_arg (c : Z) (arg : list Z) | Invalid (c : Z) | Missing (c : Z).

Section Options.
Variable opts : list (Z * bool).

Definition find_opt (c : Z) : option bool := snd <$> find (λ o, o.1 =? c) opts.

(** A cluster of option characters: what it holds, and the last one when its
    argument is the next word. *)
Fixpoint scan (cluster : list Z) : list token * option Z :=
  match cluster with
  | [] => ([], None)
  | c :: cs =>
      match find_opt c with
      | None => let '(ts, o) := scan cs in (Invalid c :: ts, o)
      | Some false => let '(ts, o) := scan cs in (Option_ c :: ts, o)
      | Some true => match cs with [] => ([], Some c) | _ => ([Option_arg c cs], None) end
      end
  end.

(** The options of the words of a command, and the words that are left: those
    from the first that is no option, or after a double dash. *)
Fixpoint tokens (args : list (list Z)) : list token * list (list Z) :=
  match args with
  | [] => ([], [])
  | a :: args' =>
      match a with
      | 45 :: (c :: cs) =>
          if bool_decide (a = [45; 45]) then ([], args')
          else
            match scan (c :: cs) with
            | (ts, None) => let '(r, left_) := tokens args' in (ts ++ r, left_)
            | (ts, Some c) =>
                match args' with
                | [] => (ts ++ [Missing c], [])
                | b :: args'' => let '(r, left_) := tokens args'' in (ts ++ Option_arg c b :: r, left_)
                end
            end
      | _ => ([], args)
      end
  end.

(** The same, from the middle of a cluster. *)
Definition tokens_from (cluster : list Z) (args : list (list Z)) : list token * list (list Z) :=
  match scan cluster with
  | (ts, None) => let '(r, left_) := tokens args in (ts ++ r, left_)
  | (ts, Some c) =>
      match args with
      | [] => (ts ++ [Missing c], [])
      | b :: args' => let '(r, left_) := tokens args' in (ts ++ Option_arg c b :: r, left_)
      end
  end.

(** How the options are written for [getopt]. *)
Definition render_opts : list Z := concat ((λ o : Z * bool, if o.2 then [o.1; 58] else [o.1]) <$> opts).
Definition optstring_of (plus quiet : bool) : list Z :=
  (if plus then [43] else []) ++ (if quiet then [58] else []) ++ render_opts ++ [0].

(** What a call reports: its result, [optarg] and [optopt]. *)
Definition reports (print_err : bool) (t : token) (r : Z) (s : getopt_vars) : Prop :=
  match t with
  | Option_ c => r = c
  | Option_arg c arg => r = c ∧ ∃ m, optarg s = Some m ∧ cstr m arg
  | Invalid c => r = 63 ∧ optopt s = u8 c
  | Missing c => r = (if print_err then 63 else 58) ∧ optopt s = c
  end.

(** The loop of a program that calls [getopt] until there are no more options:
    what it sees after each call. *)
Fixpoint all_options (fuel : nat) (argc : Z) (argv : list (option (list Z))) (optstring : list Z) : GM (list (Z * getopt_vars)) :=
  match fuel with
  | O => throw No_fuel
  | S fuel =>
      r ← getopt argc argv optstring;
      if r =? -1 then mret []
      else
        s ← get;
        l ← all_options fuel argc argv optstring;
        mret ((r, s) :: l)
  end.
End Options.

Example getopt_test :
  let str s := Some (s ++ [0]) in
  let options := optstring_of [(105, false); (114, false); (111, false); (104, false); (97, true)] true true in
  let argv := [str [63]; str [45; 105]; str [45; 104; 105]; str [45; 97]; str [45; 97]; str [100; 97]; str [45; 122]] in
  let vars ind := GetoptVars None 0 ind 0 1 in
  call 1 argv options (vars 1) = Some (-1, 1, 0, None) ∧
  call 2 argv options (vars 1) = Some (105, 2, 0, None) ∧
  call 3 argv options (vars 2) = Some (104, 2, 0, None) ∧
  call 4 argv options (vars 3) = Some (58, 4, 97, None) ∧
  call 6 argv options (vars 4) = Some (97, 6, 0, str [100; 97]) ∧
  call 7 argv options (vars 6) = Some (63, 7, 122, None).
Proof. vm_compute. repeat split. Qed.

(** ** Correctness *)

(** Option characters: no terminator, none of [+:?], and not the [char] -1. *)
Definition option_ok (o : Z * bool) : Prop := o.1 ≠ 0 ∧ o.1 ≠ 43 ∧ o.1 ≠ 58 ∧ o.1 ≠ 63 ∧ o.1 ≠ -1.

Definition word_at (m : option (list Z)) (a : list Z) : Prop := ∃ x, m = Some x ∧ cstr x a.

Lemma render_cons o opts : render_opts (o :: opts) = (if o.2 then [o.1; 58] else [o.1]) ++ render_opts opts.
Proof. done. Qed.

Lemma length_render opts : (length opts ≤ length (render_opts opts))%nat.
Proof.
  induction opts as [|o opts IH]; [done|]. rewrite render_cons, length_app. cbn [length]. destruct (o.2); cbn [length]; lia.
Qed.

Lemma render_head opts : Forall option_ok opts →
  ∃ n l, render_opts opts ++ [0] = n :: l ∧ n ≠ 58 ∧ n ≠ 43.
Proof.
  intros [|o opts' (H0 & H43 & H58 & _) _]; [by exists 0, []|]. rewrite render_cons. destruct (o.2); by eexists _, _.
Qed.

Section Calls.
Variables (opts : list (Z * bool)) (argc : Z) (argv : list (option (list Z))) (all : list (list Z)).
Hypothesis Hopts : Forall option_ok opts.
Hypothesis Hargv : Forall2 word_at argv all.
Hypothesis Hargc : argc = Z.of_nat (length all) ∧ argc < 2 ^ 31 - 1 ∧ Forall (λ a, Z.of_nat (length a) < 2 ^ 31 - 1) all.

(** What follows when the option character [c] is found. *)
Definition found (argopt : list Z) (c : Z) (has_args : bool) : M getopt_vars search :=
  if has_args then ok ← getopt_get_arg argc argv argopt c; mret (if ok : bool then Found c else Missing_arg)
  else
    _ ← next_char;
    c1 ← lift (rd argopt 1);
    _ ← (if c1 =? 0 then getopt_nextarg else mret tt);
    mret (Found c).

Lemma lift_step {S A B} (m : res A) (f : A → M S B) a s : m = Ok a → (x ← lift m; f x) s = f a s.
Proof using Type. clear Hopts Hargv Hargc. intros H. apply M_bind_step. unfold lift. by rewrite H. Qed.

Lemma skip_len_ok o os (c : Z) tl : option_ok o → Forall option_ok os →
  getopt_opt_char_skip_len (c :: tl) (render_opts (o :: os) ++ [0]) =
    Ok (if c =? o.1 then 0 else if o.2 then 2 else 1) ∧
  rd (render_opts (o :: os) ++ [0]) 0 = Ok o.1 ∧
  ∃ n, rd (render_opts (o :: os) ++ [0]) 1 = Ok n ∧ (n =? 58) = o.2.
Proof using Type.
  clear Hopts Hargv Hargc.
  intros (H0 & H43 & H58 & H63 & _) Hos. rewrite render_cons. unfold getopt_opt_char_skip_len.
  assert (∃ n l, ((if o.2 then [o.1; 58] else [o.1]) ++ render_opts os) ++ [0] = o.1 :: n :: l ∧ (n =? 58) = o.2) as (n & l & -> & Hn).
  { destruct (o.2); [by eexists _, _|]. destruct (render_head os Hos) as (n & l & E & Hn & _). cbn. rewrite E.
    eexists _, _. split; [done|]. by apply Z.eqb_neq. }
  split; [|split; [done|by exists n]]. rewrite (rd_ok (o.1 :: n :: l) 0 o.1), (rd_ok (o.1 :: n :: l) 1 n), (rd_ok (c :: tl) 0 c) by done.
  unfold mbind, res_bind. destruct (Z.eqb_spec o.1 43), (Z.eqb_spec o.1 58), (Z.eqb_spec o.1 63); try done. cbn [orb]. rewrite Hn.
  by destruct (Z.eqb_spec c o.1), (o.2).
Qed.

Lemma search_ok c tl os : ∀ fuel (s : getopt_vars), Forall option_ok os → optind s < argc → (length os < fuel)%nat →
  loop_m fuel (search_step argc argv (c :: tl)) (render_opts os ++ [0]) s =
  match find_opt os c with None => Ok (Not_found, s) | Some b => found (c :: tl) c b s end.
Proof using Type.
  clear Hopts Hargv Hargc. intros fuel s Hos Hind. revert fuel.
  induction os as [|o os IH]; intros [|fuel] Hf; cbn in Hf; [lia| |lia|].
  - by rewrite (loop_m_step _ _ _ s (inr Not_found) s).
  - apply Forall_cons in Hos as [Ho Hos]. destruct (skip_len_ok o os c tl Ho Hos) as (Hskip & Hrd0 & n & Hrd1 & Hn).
    assert (search_step argc argv (c :: tl) (render_opts (o :: os) ++ [0]) s =
      if c =? o.1 then (r ← found (c :: tl) c o.2; mret (inr r)) s else Ok (inl (render_opts os ++ [0]), s)) as E.
    { unfold search_step. rewrite (lift_step _ _ o.1) by done. destruct Ho as (H0 & _). rewrite (M_bind_step get _ s s s) by done.
      destruct (Z.eqb_spec o.1 0); [done|]. destruct (Z.ltb_spec (optind s) argc); [|lia]. cbn [orb negb].
      rewrite (lift_step _ _ _ _ Hskip). destruct (Z.eqb_spec c o.1) as [<-|]; cbn [Z.eqb negb].
      - rewrite (lift_step _ _ _ _ Hrd1), Hn. unfold found.
        destruct (o.2); unfold mbind, M_bind, next_char, getopt_nextarg, modify_vars, lift.
        + by destruct (getopt_get_arg _ _ _ _ _) as [[[] ?]|].
        + destruct (rd (c :: tl) 1) as [d|]; [|done]. by destruct (d =? 0).
      - rewrite render_cons. by destruct (o.2). }
    unfold find_opt. cbn [find]. destruct (Z.eqb_spec c o.1) as [->|Hne].
    + rewrite Z.eqb_refl. cbn [fmap option_fmap option_map]. change (snd <$> Some o) with (Some o.2). cbv iota.
      change ((y ← search_step argc argv (o.1 :: tl) (render_opts (o :: os) ++ [0]);
        match y with inl x => loop_m fuel (search_step argc argv (o.1 :: tl)) x | inr r => mret r end) s = found (o.1 :: tl) o.1 o.2 s).
      unfold mbind, M_bind in *. rewrite E. by destruct (found _ _ _ s) as [[r s']|].
    + rewrite (loop_m_step fuel _ _ s _ s E). destruct (Z.eqb_spec o.1 c); [congruence|]. apply IH; [done|lia].
Qed.

(** ** One call *)

Variables (plus quiet : bool).
Local Abbreviation optstring := (optstring_of opts plus quiet).
Definition prints (s : getopt_vars) : bool := if opterr s =? 0 then false else negb quiet.

Lemma word_lookup i a : 0 ≤ i → all !! Z.to_nat i = Some a →
  i < argc ∧ ∃ tl, rd argv i = Ok (Some (a ++ 0 :: tl)) ∧ cstr (a ++ 0 :: tl) a ∧ Z.of_nat (length a) < 2 ^ 31 - 1.
Proof using Hargv Hargc.
  clear Hopts. destruct Hargc as (-> & _ & Hlen). intros Hi Ha. pose proof (lookup_lt_Some _ _ _ Ha).
  destruct (Forall2_lookup_r _ _ _ _ _ Hargv Ha) as (m & Hm & x & -> & Hx). split; [lia|].
  destruct Hx as [Hz (tl & ->)]. exists tl. split; [by apply rd_ok|]. split; [split; [done|by eexists]|].
  exact (Forall_lookup_1 _ _ _ _ Hlen Ha).
Qed.

(** The start of a call, up to the search. *)
Lemma getopt_enter (s : getopt_vars) a tl : 0 ≤ optind s < argc → rd argv (optind s) = Ok (Some (a ++ 0 :: tl)) → cstr (a ++ 0 :: tl) a →
  getopt argc argv optstring s =
  match a with
  | 45 :: (_ :: _) =>
      if bool_decide (a = [45; 45]) then (_ ← getopt_nextarg; mret (-1)) s
      else (_ ← (if s_next_char_idx s <? 0 then throw Out_of_bounds else mret tt);
            let argopt := drop (Z.to_nat (s_next_char_idx s)) (a ++ 0 :: tl) in
            result ← loop_m (S (length optstring)) (search_step argc argv argopt) (render_opts opts ++ [0]);
            match result with
            | Found c => if negb (c =? 63) then mret c else invalid_option argc argopt (prints s)
            | Not_found => invalid_option argc argopt (prints s)
            | Missing_arg => mret (if prints s then 63 else 58)
            end) s
  | _ => Ok (-1, s)
  end.
Proof using Hopts.
  clear Hargv Hargc. intros Hi Hrd Hcstr. unfold getopt. rewrite (M_bind_step get _ s s s) by done.
  destruct (Z.leb_spec argc (optind s)); [lia|].
  assert (∃ c0, rd optstring 0 = Ok c0 ∧ let next := if c0 =? 43 then drop 1 optstring else optstring in
    ∃ c1, rd next 0 = Ok c1 ∧ (c1 =? 58) = quiet ∧ (if negb (negb (c1 =? 58)) then drop 1 next else next) = render_opts opts ++ [0])
    as (c0 & H0 & c1 & H1 & Hq & Hnext).
  { destruct (render_head opts Hopts) as (n & l & E & Hn58%Z.eqb_neq & Hn43%Z.eqb_neq). unfold optstring_of. rewrite E.
    destruct plus, quiet; cbn -[Z.eqb]; eexists; (split; [reflexivity|]); cbn zeta; rewrite ?Hn43; eexists; (split; [reflexivity|]);
      rewrite ?Hn58; done. }
  rewrite (lift_step _ _ _ _ H0). cbn zeta in H1, Hnext. rewrite (lift_step _ _ _ _ H1), Hnext, Hq. fold (prints s).
  rewrite (lift_step _ _ _ _ Hrd).
  assert (∀ cs, 0 ∉ cs → ∃ r, kstrcmp (a ++ 0 :: tl) (cs ++ [0]) = Ok r ∧ (r = 0 ↔ a = cs)) as Hcmp.
  { intros cs Hcs. apply kstrcmp_ok; [done|]. split; [done|by exists []]. }
  destruct Hcstr as [Hz _]. destruct a as [|x a].
  { by rewrite (lift_step _ _ 0). }
  rewrite (lift_step _ _ x) by done. destruct (Z.eqb_spec x 45) as [->|Hx]; cbn [negb].
  2:{ destruct x as [|p|p]; [done| |done]. repeat (destruct p as [p|p|]; try done). }
  destruct (Hcmp [45]) as (r1 & E1 & Hr1); [set_solver|]. rewrite (lift_step _ _ _ _ E1).
  destruct (Z.eqb_spec r1 0) as [Hr|Hr]. { apply Hr1 in Hr as [= ->]. done. }
  destruct a as [|y a]; [exfalso; by apply Hr, Hr1|].
  destruct (Hcmp [45; 45]) as (r2 & E2 & Hr2); [set_solver|]. rewrite (lift_step _ _ _ _ E2).
  destruct (Z.eqb_spec r2 0) as [Hr'|Hr'].
  - rewrite bool_decide_eq_true_2 by by apply Hr2. done.
  - rewrite bool_decide_eq_false_2 by (intros Ha; by apply Hr', Hr2). done.
Qed.

(** Where [getopt] is: before the words [args], or at a character of a cluster
    with the words [args] after it. *)
Definition position (cluster : list Z) (args : list (list Z)) (s : getopt_vars) : Prop :=
  0 ≤ optind s ≤ argc ∧
  match cluster with
  | [] => s_next_char_idx s = 1 ∧ args = drop (Z.to_nat (optind s)) all
  | _ => ∃ pre, all !! Z.to_nat (optind s) = Some (45 :: pre ++ cluster) ∧ 45 :: pre ++ cluster ≠ [45; 45] ∧
      s_next_char_idx s = 1 + Z.of_nat (length pre) ∧ args = drop (S (Z.to_nat (optind s))) all
  end.

Definition step_to (s : getopt_vars) (t : token) (cluster : list Z) (args : list (list Z)) (r : Z) (s' : getopt_vars) : Prop :=
  r ≠ -1 ∧ reports (prints s) t r s' ∧ position cluster args s' ∧ opterr s' = opterr s.

(** Past a character that is done. *)
Lemma passed {A} (k : M getopt_vars A) (c : Z) cs args tl (s : getopt_vars) (Q : A → getopt_vars → Prop) :
  position (c :: cs) args s → 0 ∉ cs →
  (∀ s', position cs args s' → opterr s' = opterr s → optopt s' = optopt s → wp k s' Q) →
  wp (_ ← next_char; c1 ← lift (rd (c :: cs ++ 0 :: tl) 1); _ ← (if c1 =? 0 then getopt_nextarg else mret tt); k) s Q.
Proof using Hargc Hargv.
  clear Hopts. intros (Hi & pre & Hlook & Hne & Hidx & ->) Hz Hk. destruct (word_lookup _ _ (proj1 Hi) Hlook) as (Hlt & _ & _ & _ & Hlen).
  rewrite length_cons, length_app, length_cons in Hlen. destruct Hargc as (_ & Hmax & _).
  apply wp_bind. eexists _, _. split; [done|]. rewrite Hidx, (s32_small (_ + _)) by lia.
  destruct cs as [|d cs].
  - apply wp_bind, (wp_lift _ 0); [done|]. apply wp_bind. eexists _, _. split; [done|]. apply Hk; [|done..].
    cbn. rewrite s32_small by lia. split; [cbn; lia|]. cbn. split; [done|]. by rewrite Z2Nat.inj_add, Nat.add_1_r by lia.
  - apply wp_bind, (wp_lift _ d); [done|]. destruct (Z.eqb_spec d 0); [set_solver|]. apply wp_bind. eexists _, _. split; [done|].
    apply Hk; [|done..]. split; [done|]. exists (pre ++ [c]). cbn [optind s_next_char_idx].
    rewrite <- app_assoc. cbn [app]. split; [done|]. split; [done|]. split; [rewrite length_app; cbn; lia|done].
Qed.

Lemma next_word_ok (s : getopt_vars) : 0 ≤ optind s < argc →
  wp getopt_nextarg s (λ _ s', position [] (drop (S (Z.to_nat (optind s))) all) s' ∧
    opterr s' = opterr s ∧ optopt s' = optopt s ∧ optarg s' = optarg s ∧ optind s' = optind s + 1).
Proof using Hargc.
  clear Hopts Hargv. intros Hi. destruct Hargc as (_ & Hmax & _). eexists _, _. split; [done|]. cbn [opterr optopt optarg optind].
  rewrite s32_small by lia. split; [|done]. split; [cbn; lia|]. cbn. split; [done|]. by rewrite Z2Nat.inj_add, Nat.add_1_r by lia.
Qed.

(** The cluster at which a call starts. *)
Lemma cluster_memory c cs args (s : getopt_vars) : position (c :: cs) args s → ∃ tl,
  getopt argc argv optstring s =
    (result ← (λ s, match find_opt opts c with None => Ok (Not_found, s) | Some b => found (c :: cs ++ 0 :: tl) c b s end);
     match result with
     | Found x => if negb (x =? 63) then mret x else invalid_option argc (c :: cs ++ 0 :: tl) (prints s)
     | Not_found => invalid_option argc (c :: cs ++ 0 :: tl) (prints s)
     | Missing_arg => mret (if prints s then 63 else 58)
     end) s.
Proof using Hopts Hargv Hargc.
  intros (Hi & pre & Hlook & Hne & Hidx & ->). destruct (word_lookup _ _ (proj1 Hi) Hlook) as (Hlt & tl & Hrd & Hcstr & Hlen).
  exists tl. rewrite (getopt_enter s _ tl (conj (proj1 Hi) Hlt) Hrd Hcstr).
  assert (∀ A (x y : A), match 45 :: pre ++ c :: cs with 45 :: _ :: _ => x | _ => y end = x) as Hmatch by (intros; by destruct pre).
  rewrite Hmatch, bool_decide_eq_false_2 by done. destruct (Z.ltb_spec (s_next_char_idx s) 0); [lia|].
  rewrite (M_bind_step _ _ s tt s) by done. cbv zeta.
  replace (drop (Z.to_nat (s_next_char_idx s)) ((45 :: pre ++ c :: cs) ++ 0 :: tl)) with (c :: cs ++ 0 :: tl).
  2:{ rewrite Hidx, Z2Nat.inj_add, Nat2Z.id by lia. change (Z.to_nat 1 + length pre)%nat with (S (length pre)). cbn [app drop].
      by rewrite <- app_assoc, drop_app_length. }
  unfold mbind, M_bind. rewrite search_ok; [done|exact Hopts|exact Hlt|].
  unfold optstring_of. rewrite !length_app. pose proof (length_render opts). lia.
Qed.

Lemma tokens_from_nil args : tokens_from opts [] args = tokens opts args.
Proof using Type. unfold tokens_from. cbn. by destruct (tokens opts args). Qed.

Lemma tokens_from_plain c cs args (t : token) : 
  (find_opt opts c = None ∧ t = Invalid c) ∨ (find_opt opts c = Some false ∧ t = Option_ c) →
  tokens_from opts (c :: cs) args = (t :: (tokens_from opts cs args).1, (tokens_from opts cs args).2).
Proof using Type.
  unfold tokens_from. cbn [scan]. intros [[-> ->]|[-> ->]]; destruct (scan opts cs) as [ts [o|]];
    [destruct args as [|b args]; [done|]; by destruct (tokens opts args)|by destruct (tokens opts args)|
     destruct args as [|b args]; [done|]; by destruct (tokens opts args)|by destruct (tokens opts args)].
Qed.

Lemma find_opt_ok c b : find_opt opts c = Some b → c ≠ 63 ∧ c ≠ -1.
Proof using Hopts.
  unfold find_opt. intros H. apply fmap_Some in H as (o & Hf & _). apply find_some in Hf as [Hin Hc%Z.eqb_eq].
  apply list_elem_of_In in Hin. destruct (proj1 (Forall_forall _ _) Hopts o Hin) as (_ & _ & _ & ? & ?). by subst c.
Qed.

Lemma invalid_ok c cs args tl (s : getopt_vars) : position (c :: cs) args s → 0 ∉ cs →
  wp (invalid_option argc (c :: cs ++ 0 :: tl) (prints s)) s (step_to s (Invalid c) cs args).
Proof using Hargv Hargc.
  intros Hp Hz. pose proof Hp as (Hi & pre & Hlook & _). destruct (word_lookup _ _ (proj1 Hi) Hlook) as (Hlt & _).
  unfold invalid_option. apply wp_bind. eexists _, s. split; [done|]. destruct (Z.eqb_spec (optind s) argc); [lia|].
  apply wp_bind, (wp_lift _ c); [done|]. apply wp_bind. eexists _, _. split; [done|].
  eapply passed; [|done|]; [exact Hp|]. intros s' Hp' He Ho. apply wp_ret. by split_and!.
Qed.

Lemma word_not_0 i a : 0 ≤ i → all !! Z.to_nat i = Some a → 0 ∉ a.
Proof using Hargv Hargc. intros Hi Ha. by destruct (word_lookup i a Hi Ha) as (_ & tl & _ & [Hz _] & _). Qed.

(** An option that takes an argument. *)
Lemma arg_ok c cs args tl (s : getopt_vars) : position (c :: cs) args s → 0 ∉ cs → c ≠ 63 → c ≠ -1 →
  ∃ t args', (match cs with
    | [] => match args with [] => t = Missing c ∧ args' = [] | b :: r => t = Option_arg c b ∧ args' = r end
    | _ => t = Option_arg c cs ∧ args' = args end) ∧
    wp (r ← found (c :: cs ++ 0 :: tl) c true;
        match r with
        | Not_found => invalid_option argc (c :: cs ++ 0 :: tl) (prints s)
        | Found x => if negb (x =? 63) then mret x else invalid_option argc (c :: cs ++ 0 :: tl) (prints s)
        | Missing_arg => mret (if prints s then 63 else 58)
        end) s (step_to s t [] args').
Proof using Hargv Hargc.
  clear Hopts. intros Hp Hz H63 H1. pose proof Hp as (Hi & pre & Hlook & _ & _ & ->).
  destruct (word_lookup _ _ (proj1 Hi) Hlook) as (Hlt & _). set (rest := drop (S (Z.to_nat (optind s))) all).
  unfold found, getopt_get_arg. apply Z.eqb_neq in H63. destruct cs as [|d cs]; [destruct rest as [|b r] eqn:Hrest; subst rest|].
  - exists (Missing c), []. split; [done|]. apply wp_bind, wp_bind, wp_bind, (wp_lift _ 0); [done|]. cbn [Z.eqb].
    apply wp_bind. eexists _, s. split; [done|]. destruct (Z.ltb_spec (argc - optind s) 2).
    + apply wp_bind. eapply wp_mono; [apply next_word_ok; cbn; lia|]. rewrite Hrest. intros [] s1 (Hp1 & He & _).
      apply wp_bind. eexists _, _. split; [done|]. apply wp_ret, wp_ret, wp_ret. unfold prints. rewrite <- He.
      split; [by repeat case_match|]. split; [|split; [exact Hp1|done]]. cbn. unfold prints. by rewrite <- He.
    + apply (f_equal length) in Hrest. rewrite length_drop in Hrest. destruct Hargc as (-> & _). cbn in Hrest. lia.
  - exists (Option_arg c b), r. split; [done|]. assert (all !! Z.to_nat (optind s + 1) = Some b) as Hb.
    { rewrite Z2Nat.inj_add by lia. change (Z.to_nat 1) with 1%nat. rewrite Nat.add_1_r.
      rewrite <- (Nat.add_0_r (S _)), <- lookup_drop, Hrest. done. }
    destruct (word_lookup (optind s + 1) b) as (Hlt' & tl' & Hrd & Hcstr & _); [lia|done|].
    apply wp_bind, wp_bind, wp_bind, (wp_lift _ 0); [done|]. cbn [Z.eqb]. apply wp_bind. eexists _, s. split; [done|].
    destruct (Z.ltb_spec (argc - optind s) 2); [lia|]. apply wp_bind, (wp_lift _ _ _ _ Hrd).
    apply wp_bind. eexists _, _. split; [done|]. apply wp_bind. eapply wp_mono; [apply next_word_ok; cbn; lia|].
    cbn [opterr optind optarg]. intros [] s1 (_ & He1 & _ & Ha1 & Hi1).
    apply wp_bind. eapply wp_mono; [apply (next_word_ok s1); lia|]. intros [] s2 (Hp2 & He2 & _ & Ha2 & _).
    apply wp_ret, wp_ret. rewrite H63. apply wp_ret. split; [done|]. split; [|split; [|congruence]].
    + split; [done|]. exists (b ++ 0 :: tl'). split; [congruence|done].
    + rewrite Hi1 in Hp2. replace (drop (S (Z.to_nat (optind s + 1))) all) with r in Hp2; [done|].
      rewrite Z2Nat.inj_add by lia. change (Z.to_nat 1) with 1%nat. rewrite Nat.add_1_r.
      by rewrite <- (Nat.add_1_r (S _)), <- drop_drop, Hrest.
  - exists (Option_arg c (d :: cs)), rest. split; [done|]. assert (d ≠ 0) as Hd%Z.eqb_neq by set_solver.
    apply wp_bind, wp_bind, wp_bind, (wp_lift _ d); [done|]. rewrite Hd. apply wp_bind. eexists _, _. split; [done|].
    apply wp_bind, (wp_lift _ d); [done|]. rewrite Hd. apply wp_bind. eapply wp_mono; [apply next_word_ok; cbn; lia|].
    cbn [opterr optind optarg]. intros [] s1 (Hp1 & He1 & _ & Ha1 & _). apply wp_ret, wp_ret. rewrite H63. apply wp_ret.
    split; [done|]. split; [|split; [exact Hp1|congruence]]. split; [done|].
    eexists. split; [exact Ha1|]. split; [done|by exists tl].
Qed.

Definition goes_on (s : getopt_vars) (o : list token * list (list Z)) (r : Z) (s' : getopt_vars) : Prop :=
  ∃ t cluster args, o = (t :: (tokens_from opts cluster args).1, (tokens_from opts cluster args).2) ∧
    step_to s t cluster args r s'.

Lemma cluster_ok c cs args (s : getopt_vars) : position (c :: cs) args s →
  wp (getopt argc argv optstring) s (goes_on s (tokens_from opts (c :: cs) args)).
Proof using Hopts Hargv Hargc.
  intros Hp. destruct (cluster_memory c cs args s Hp) as (tl & E). unfold wp. rewrite E.
  pose proof Hp as (Hi & pre & Hlook & _). pose proof (word_not_0 _ _ (proj1 Hi) Hlook) as Hz0.
  assert (0 ∉ cs) as Hz by set_solver. assert (c ≠ 0) as Hc0 by set_solver. clear Hz0. fold (prints s).
  destruct (find_opt opts c) as [[|]|] eqn:Hf.
  - destruct (find_opt_ok _ _ Hf) as [H63 H1]. destruct (arg_ok c cs args tl s Hp Hz H63 H1) as (t & args' & Ht & Hw).
    eapply wp_mono; [exact Hw|]. intros r s' Hstep. exists t, [], args'. split; [|done]. rewrite tokens_from_nil.
    unfold tokens_from. cbn [scan]. rewrite Hf. destruct cs as [|d cs]; [destruct args as [|b args]|]; destruct Ht as [-> ->]; [done| |];
      by destruct (tokens opts _).
  - destruct (find_opt_ok _ _ Hf) as [H63%Z.eqb_neq H1].
    eapply wp_bind, (passed _ c cs args tl s _ Hp Hz). intros s' Hp' He Ho. apply wp_ret. rewrite H63. apply wp_ret.
    exists (Option_ c), cs, args. split; [apply tokens_from_plain; by right|]. by split_and!.
  - eapply wp_bind. eexists Not_found, s. split; [done|]. eapply wp_mono; [by apply (invalid_ok c cs args)|].
    intros r s' Hstep. exists (Invalid c), cs, args. split; [apply tokens_from_plain; by left|done].
Qed.

(** Every call reports the next option, or that there is none. *)
Lemma getopt_ok cluster args (s : getopt_vars) : position cluster args s →
  wp (getopt argc argv optstring) s (λ r s', goes_on s (tokens_from opts cluster args) r s' ∨
    r = -1 ∧ tokens_from opts cluster args = ([], drop (Z.to_nat (optind s')) all) ∧ s_next_char_idx s' = 1).
Proof using Hopts Hargv Hargc.
  destruct cluster as [|c cs]; [|intros Hp; eapply wp_mono; [by apply cluster_ok|by left]].
  intros Hp. pose proof Hp as (Hi & Hidx & ->). rewrite tokens_from_nil. destruct Hargc as (Hlen & _).
  destruct (Z.leb_spec argc (optind s)) as [Hle|Hlt].
  { exists (-1), s. split; [|right; split; [done|split; [by rewrite drop_ge by lia|done]]].
    unfold getopt, get, mbind, M_bind. by destruct (Z.leb_spec argc (optind s)); [|lia]. }
  destruct (lookup_lt_is_Some_2 all (Z.to_nat (optind s))) as [a Ha]; [lia|].
  destruct (word_lookup _ _ (proj1 Hi) Ha) as (_ & tl & Hrd & Hcstr & _). rewrite (drop_S _ _ _ Ha).
  assert (∀ r : list token * list (list Z), getopt argc argv optstring s = Ok (-1, s) → r = ([], a :: drop (S (Z.to_nat (optind s))) all) →
    wp (getopt argc argv optstring) s (λ x s', goes_on s r x s' ∨ x = -1 ∧ r = ([], drop (Z.to_nat (optind s')) all) ∧ s_next_char_idx s' = 1)) as Hend.
  { intros r E ->. exists (-1), s. split; [done|]. right. by rewrite (drop_S _ _ _ Ha). }
  pose proof (getopt_enter s a tl (conj (proj1 Hi) Hlt) Hrd Hcstr) as E.
  destruct a as [|x [|c cs]]; [by apply Hend|apply Hend; [rewrite E|]; by (destruct x as [|p|p]; try done; repeat (destruct p as [p|p|]; try done))|].
  destruct (decide (x = 45)) as [->|Hx].
  2:{ apply Hend; [rewrite E|]; destruct x as [|p|p]; try done; repeat (destruct p as [p|p|]; try done). }
  case_bool_decide as Hdd.
  - destruct (next_word_ok s) as ([] & s1 & E1 & Hp1 & _); [lia|]. exists (-1), s1. split; [by rewrite E, (M_bind_step _ _ _ _ _ E1)|].
    right. split; [done|]. destruct Hp1 as (_ & H1 & <-). cbn [tokens]. by rewrite bool_decide_eq_true_2.
  - replace (tokens opts _) with (tokens_from opts (c :: cs) (drop (S (Z.to_nat (optind s))) all)).
    2:{ cbn [tokens]. by rewrite bool_decide_eq_false_2. }
    eapply wp_mono; [apply cluster_ok|by left]. split; [done|]. exists []. by split_and!.
Qed.

Lemma all_options_ok : ∀ ts left_ cluster args (s : getopt_vars) fuel, position cluster args s →
  tokens_from opts cluster args = (ts, left_) → (length ts < fuel)%nat →
  wp (all_options fuel argc argv optstring) s (λ l s',
    Forall2 (λ t e, reports (prints s) t e.1 e.2) ts l ∧ left_ = drop (Z.to_nat (optind s')) all ∧ s_next_char_idx s' = 1).
Proof using Hopts Hargv Hargc.
  induction ts as [|t ts IH]; intros left_ cluster args s [|fuel] Hp Hts Hf; cbn in Hf; try lia; cbn [all_options].
  - apply wp_bind. eapply wp_mono; [by apply (getopt_ok cluster args)|]. rewrite Hts.
    intros r s1 [(t & cl & args' & [=] & _)|(-> & [= ->] & H1)]. by apply wp_ret.
  - apply wp_bind. eapply wp_mono; [by apply (getopt_ok cluster args)|]. rewrite Hts.
    intros r s1 [(t' & cl & args' & [= -> Hts' Hl] & Hr & Hrep & Hp1 & He)|(_ & [=] & _)].
    destruct (Z.eqb_spec r (-1)); [done|]. apply wp_bind. eexists s1, s1. split; [done|]. apply wp_bind.
    eapply wp_mono; [apply (IH left_ cl args' s1 fuel Hp1); [|lia]|].
    + rewrite Hts', Hl. apply surjective_pairing.
    + intros l s2 [Hall Hleft]. apply wp_ret. split; [|done]. apply Forall2_cons_2; [done|].
      unfold prints in *. by rewrite He in Hall.
Qed.
End Calls.

(** C40: A program that calls [getopt] until it returns -1 sees exactly the options
    of its arguments ([tokens]), in their order, with the arguments they take,
    whether these are the rest of a cluster of options or the next word; an
    option that the program does not have is reported as a question mark, one
    whose argument is missing as a question mark or a colon. What is left is at
    [optind], and the next program finds the place in the cluster reset. The
    option characters are none of +, : and ?, which [getopt] takes for marks, nor
    the character that is -1; the words are as many and as long as an int can
    count. *)
Theorem getopt_finds_options (opts : list (Z * bool)) (plus quiet : bool) (argv : list (option (list Z))) (all : list (list Z))
    (s : getopt_vars) ts left_ fuel :
  Forall option_ok opts → Forall2 word_at argv all → Z.of_nat (length all) < 2 ^ 31 - 1 →
  Forall (λ a, Z.of_nat (length a) < 2 ^ 31 - 1) all → 0 ≤ optind s ≤ Z.of_nat (length all) → s_next_char_idx s = 1 →
  tokens opts (drop (Z.to_nat (optind s)) all) = (ts, left_) → (length ts < fuel)%nat →
  ∃ l s', all_options fuel (Z.of_nat (length all)) argv (optstring_of opts plus quiet) s = Ok (l, s') ∧
    Forall2 (λ t e, reports (prints quiet s) t e.1 e.2) ts l ∧ left_ = drop (Z.to_nat (optind s')) all ∧ s_next_char_idx s' = 1.
Proof.
  intros Hopts Hargv Hlen Hwords Hi Hidx Hts Hf.
  apply (all_options_ok opts _ argv all Hopts Hargv (conj eq_refl (conj Hlen Hwords)) plus quiet ts left_ [] (drop (Z.to_nat (optind s)) all)); [|by rewrite tokens_from_nil|done].
  by split.
Qed.

Definition demo_opts : list (Z * bool) := [(97, false); (98, true); (99, false)].
Definition demo_words : list (list Z) := [[108; 115]; [45; 97; 120]; [45; 98]; [118]; [45; 99; 98; 119]; [45; 45]; [45; 97]].
Definition demo_argv : list (option (list Z)) := (λ a, Some (a ++ [0])) <$> demo_words.
Definition demo_vars : getopt_vars := GetoptVars None 1 1 0 1.

Lemma demo_argv_words : Forall2 word_at demo_argv demo_words.
Proof.
  assert (Forall (λ a : list Z, 0 ∉ a) demo_words) as Hz by (apply (bool_decide_unpack _); vm_compute; exact I).
  apply Forall2_fmap_l. induction Hz as [|a l Ha _ IH]; constructor; [|done]. eexists. split; [done|]. split; [done|by exists []].
Qed.

(** The command [ls -ax -b v -cbw -- -a], where [b] takes an argument. *)
Lemma getopt_finds_options_witness : ∃ l s',
  all_options 6 7 demo_argv (optstring_of demo_opts true false) demo_vars = Ok (l, s') ∧
  Forall2 (λ t e, reports true t e.1 e.2)
    [Option_ 97; Invalid 120; Option_arg 98 [118]; Option_ 99; Option_arg 98 [119]] l ∧
  [[45; 97]] = drop (Z.to_nat (optind s')) demo_words ∧ s_next_char_idx s' = 1.
Proof.
  apply (getopt_finds_options demo_opts true false demo_argv demo_words demo_vars).
  - repeat constructor; done.
  - exact demo_argv_words.
  - done.
  - by repeat constructor.
  - done.
  - done.
  - reflexivity.
  - cbn. lia.
Defined.

(** Without messages a missing argument is reported as a colon, also when the
    option string does not begin with one. *)
Lemma getopt_missing_is_colon :
  ∃ s, getopt 2 [Some [108; 115; 0]; Some [45; 98; 0]] (optstring_of demo_opts false false) (GetoptVars None 0 1 0 1) = Ok (58, s).
Proof. eexists. vm_compute. reflexivity. Qed.
