(* ===== verification/Shell.v ===== *)
(** The shell (src/kernel/shell/shell.c): reading a line, splitting it into the
    words of a command, and running the program of that name. *)
From stdpp Require Import gmap.
From S2P Require Import Prelude StrUtil HeapIface Unistd.

Definition SHELL_EXITCODE_OK : Z := 0.
Definition SHELL_MAX_CMDLINE_LEN : Z := 80.
Definition CON_BACKSPACE : Z := 127.
Definition CON_DELETE : Z := 8.

Class ReallocOps (H : Type) := heap_realloc : Z → Z → Z → M H Z.

(** A string on the heap; the array [argv] is the list of its elements, which
    [heap_realloc] keeps. *)
Record argument := Argument { arg_address : Z; arg_chars : list Z }.

Inductive shellcmd := CMD_EMPTY | CMD_RUNPROGRAM (argv : Z) (args : list argument).

(** How the loop over the words ends. *)
Inductive parsed :=
  | Parsed (argv : Z) (args : list argument) (cmdstr : smatcher)
  | Fail_alloc (argv : Z) (args : list argument).

Section Shell.
Context {H : Type} `{!HeapOps H, !ReallocOps H}.

(** A program is called with [argc] and [argv], on the variables of [getopt]
    and the rest of the kernel. *)
Record shell_program := Program { name : list Z; main : Z → list (option (list Z)) → M (getopt_vars * H) Z }.
(** What a block of memory of a size holds when it is allocated; the programs
    in the order of the list [s_programs]. *)
Variables (garbage : Z → list Z) (s_programs : list shell_program).

Definition parse_step (x : Z * list argument * smatcher) : M H (Z * list argument * smatcher + parsed) :=
  let '(argv, args, cmdstr) := x in
  let argc := Z.of_nat (length args) in
  cmdstr ← lift (smatcher_skip_whitespaces cmdstr);
  if currentindex cmdstr =? len cmdstr then mret (inr (Parsed argv args cmdstr))
  else
    '(matched, cmdstr) ← lift (smatcher_consume_str_if_match cmdstr [59; 0]);
    if matched : bool then mret (inr (Parsed argv args cmdstr))
    else
      '(word, cmdstr) ← lift (smatcher_consume_word cmdstr);
      match word with
      | None => throw Assert_failed
      | Some (str, n) =>
          if argc =? INT_MAX then mret (inr (Fail_alloc argv args))
          else if SIZE_MAX / 4 <? argc then mret (inr (Fail_alloc argv args))
          else
            argv ← heap_realloc argv (u32 ((argc + 1) * 4)) 0;
            if argv =? 0 then mret (inr (Fail_alloc argv args))
            else
              p ← heap_alloc (u32 (n + 1)) 0;
              if p =? 0 then mret (inr (Fail_alloc argv args))
              else
                b ← lift (vmemcpy (garbage (u32 (n + 1))) 0 str 0 n);
                b ← lift (wr b n 0);
                mret (inl (argv, args ++ [Argument p b], cmdstr))
      end.

Definition free_args (argv : Z) (args : list argument) : M H unit :=
  _ ← for_ args (λ a, heap_free (arg_address a));
  heap_free argv.

(** The result is the command and the matcher; [out] is empty before. *)
Definition parse_cmd_runprogram (cmdstr : smatcher) : M H (Z * shellcmd * smatcher) :=
  p ← loop_m (S (length (str cmdstr))) parse_step (0, [], cmdstr);
  match p with
  | Parsed argv args cmdstr => mret (SHELL_EXITCODE_OK, CMD_RUNPROGRAM argv args, cmdstr)
  | Fail_alloc argv args =>
      _ ← (if negb (argv =? 0) then free_args argv args else mret tt);
      mret (SHELL_EXITCODE_OK, CMD_EMPTY, cmdstr)
  end.

Definition parse_cmd (cmdstr : smatcher) : M H (Z * shellcmd * smatcher) :=
  cmdstr ← lift (smatcher_skip_whitespaces cmdstr);
  if currentindex cmdstr =? len cmdstr then mret (SHELL_EXITCODE_OK, CMD_EMPTY, cmdstr)
  else parse_cmd_runprogram cmdstr.

Definition cmd_destroy (cmd : shellcmd) : M H unit :=
  match cmd with
  | CMD_RUNPROGRAM argv args => free_args argv args
  | CMD_EMPTY => mret tt
  end.

Fixpoint find_program (programs : list shell_program) (arg0 : list Z) : res (option shell_program) :=
  match programs with
  | [] => Ok None
  | p :: programs =>
      c ← kstrcmp (name p) arg0;
      if c =? 0 then Ok (Some p) else find_program programs arg0
  end.

Definition reset_vars (v : getopt_vars) : getopt_vars := GetoptVars (optarg v) 1 1 (optopt v) (s_next_char_idx v).

Definition cmd_exec (cmd : shellcmd) : M (getopt_vars * H) Z :=
  match cmd with
  | CMD_RUNPROGRAM argv args =>
      _ ← massert (negb (Z.of_nat (length args) =? 0));
      _ ← massert (negb (argv =? 0));
      arg0 ← lift (rd args 0);
      program_to_run ← lift (find_program s_programs (arg_chars arg0));
      match program_to_run with
      | None => mret 127
      | Some p =>
          _ ← (λ '(v, h), Ok (tt, (reset_vars v, h)));
          main p (Z.of_nat (length args)) (Some ∘ arg_chars <$> args)
      end
  | CMD_EMPTY => mret 0
  end.

Definition on_sh {A} (m : M H A) : M (getopt_vars * H) A := λ '(v, h), '(a, h) ← m h; Ok (a, (v, h)).

Definition shell_exec_cmd (str : list Z) : M (getopt_vars * H) Z :=
  linematcher ← lift (smatcher_init str);
  '(ret, cmd, _) ← on_sh (parse_cmd linematcher);
  if ret <? 0 then mret ret
  else
    match cmd with
    | CMD_EMPTY => mret 0
    | _ =>
        ret ← cmd_exec cmd;
        _ ← on_sh (cmd_destroy cmd);
        mret (if negb (ret =? 0) then ret else 0)
    end.
End Shell.
#[global] Arguments shell_program : clear implicits.

(** ** The line editor

    One character of the input of [shell_repl]: [true] when the line ends. *)
Definition repl_char (cmdline : list Z) (cursorpos c : Z) : res (list Z * Z * bool) :=
  if (c =? CON_BACKSPACE) || (c =? CON_DELETE) then
    Ok (cmdline, if negb (cursorpos =? 0) then cursorpos - 1 else cursorpos, false)
  else if (c =? 13) || (c =? 10) then
    cmdline ← wr cmdline cursorpos 0;
    Ok (cmdline, cursorpos, true)
  else if cursorpos <? SHELL_MAX_CMDLINE_LEN - 1 then
    cmdline ← wr cmdline cursorpos (s8 c);
    Ok (cmdline, cursorpos + 1, false)
  else Ok (cmdline, cursorpos, false).

(** The line, and what it leaves of the input; [None] while it has no end. *)
Fixpoint repl_chars (cmdline : list Z) (cursorpos : Z) (input : list Z) : res (option (list Z * list Z)) :=
  match input with
  | [] => Ok None
  | c :: input =>
      '(cmdline, cursorpos, finished) ← repl_char cmdline cursorpos c;
      if finished : bool then Ok (Some (cmdline, input)) else repl_chars cmdline cursorpos input
  end.
Definition repl_line (cmdline input : list Z) : res (option (list Z * list Z)) :=
  cmdline ← wr cmdline 0 0;
  repl_chars cmdline 0 input.
