(* ===== verification/ShellCorrect.v ===== *)
(** The shell runs the program that the first word of a line names, with the
    words of the line as its arguments, and gives back the memory it took. *)
From stdpp Require Import gmap.
From S2P Require Import Prelude StrUtil HeapIface Unistd Shell.

(** ** Words *)

Fixpoint drop_space (l : list Z) : list Z :=
  match l with
  | [] => []
  | c :: l' => if isspace c then drop_space l' else l
  end.

(** The words of a line, with the part of the first one that was read. *)
Fixpoint split_words (cur l : list Z) : list (list Z) :=
  match l with
  | [] => match cur with [] => [] | _ => [cur] end
  | c :: l =>
      if isspace c then match cur with [] => split_words [] l | _ => cur :: split_words [] l end
      else split_words (cur ++ [c]) l
  end.
Definition words : list Z → list (list Z) := split_words [].

(** A command ends before a word that begins with a semicolon. *)
Fixpoint before_semicolon (ws : list (list Z)) : list (list Z) :=
  match ws with
  | [] => []
  | w :: ws => match w with 59 :: _ => [] | _ => w :: before_semicolon ws end
  end.
Definition command_words (l : list Z) : list (list Z) := before_semicolon (words l).

Example command_words_demo : command_words [32; 108; 115; 32; 45; 97; 59; 32; 47; 32; 59; 120] = [[108; 115]; [45; 97; 59]; [47]].
Proof. reflexivity. Qed.

Lemma words_drop_space l : words (drop_space l) = words l.
Proof. induction l as [|c l IH]; [done|]. cbn. destruct (isspace c) eqn:E; [done|]. unfold words. cbn. by rewrite E. Qed.

Lemma split_words_cur l : ∀ cur, cur ≠ [] → split_words cur l = (cur ++ word_of l) :: words (drop (length (word_of l)) l).
Proof.
  induction l as [|c l IH]; intros [|x cur] Hcur; try done; cbn; [by rewrite app_nil_r|].
  destruct (isspace c) eqn:E.
  - cbn. rewrite app_nil_r. unfold words. cbn. by rewrite E.
  - change (x :: cur ++ [c]) with ((x :: cur) ++ [c]). rewrite IH by done. cbn. by rewrite <- app_assoc.
Qed.

Lemma words_step l : words l =
  match drop_space l with
  | [] => []
  | l' => word_of l' :: words (drop (length (word_of l')) l')
  end.
Proof.
  rewrite <- words_drop_space. induction l as [|c l IH]; [done|]. cbn. destruct (isspace c) eqn:E; [exact IH|].
  unfold words at 1. cbn. rewrite E. cbn. by rewrite split_words_cur.
Qed.

Lemma drop_space_head l c l' : drop_space l = c :: l' → isspace c = false.
Proof. induction l as [|x l IH]; [done|]. cbn. destruct (isspace x) eqn:E; [done|]. by intros [= -> _]. Qed.

Lemma drop_space_suffix l : ∃ k, l = k ++ drop_space l.
Proof.
  induction l as [|c l [k Hk]]; [by exists []|]. cbn. destruct (isspace c); [|by exists []]. exists (c :: k). cbn. by rewrite <- Hk.
Qed.

Lemma word_of_prefix l : l = word_of l ++ drop (length (word_of l)) l.
Proof. induction l as [|c l IH]; [done|]. cbn. destruct (isspace c); [done|]. cbn. by rewrite <- IH. Qed.

Lemma command_words_step l : command_words l =
  match drop_space l with
  | [] => []
  | c :: l' => if c =? 59 then [] else word_of (c :: l') :: command_words (drop (length (word_of (c :: l'))) (c :: l'))
  end.
Proof.
  unfold command_words. rewrite words_step. destruct (drop_space l) as [|c l'] eqn:E; [done|].
  cbn [word_of before_semicolon]. rewrite (drop_space_head _ _ _ E). destruct (Z.eqb_spec c 59) as [->|Hne]; [done|].
  destruct c as [|p|p]; try done. repeat (destruct p as [p|p|]; try done).
Qed.

Lemma length_split_words l : ∀ cur, (length (split_words cur l) ≤ length cur + length l)%nat.
Proof.
  induction l as [|c l IH]; intros cur; cbn; [destruct cur; cbn; lia|]. destruct (isspace c).
  - pose proof (IH []). destruct cur; cbn in *; lia.
  - specialize (IH (cur ++ [c])). rewrite length_app in IH. cbn in IH. lia.
Qed.
Lemma length_command_words l : (length (command_words l) ≤ length l)%nat.
Proof.
  unfold command_words. pose proof (length_split_words l []) as Hl. unfold words. revert Hl. generalize (split_words [] l) as ws.
  intros ws Hl. cbn in Hl. enough (length (before_semicolon ws) ≤ length ws)%nat by lia. clear Hl.
  induction ws as [|w ws IH]; [done|]. cbn. repeat case_match; cbn; lia.
Qed.

(** ** The matcher on a C string *)

Record on_string (m : smatcher) : Prop := OnString {
  os_wf : smatcher_wf m;
  os_end : str m !! Z.to_nat (len m) = Some 0;
  os_zero : 0 ∉ rest m;
}.

Lemma rest_nil m : smatcher_wf m → (currentindex m =? len m) = bool_decide (rest m = []).
Proof.
  intros Hwf. pose proof (length_rest m Hwf) as Hl. destruct Hwf as [Hi _ _]. destruct (Z.eqb_spec (currentindex m) (len m)) as [E|E].
  - symmetry. apply bool_decide_eq_true_2, nil_length_inv. lia.
  - symmetry. apply bool_decide_eq_false_2. intros Hr. rewrite Hr in Hl. cbn in Hl. lia.
Qed.

Lemma skip_whitespaces_ok m : on_string m → ∃ m', smatcher_skip_whitespaces m = Ok m' ∧ on_string m' ∧
  str m' = str m ∧ rest m' = drop_space (rest m).
Proof.
  intros Hm. unfold smatcher_skip_whitespaces.
  apply (loop_rule _ (λ x, on_string x ∧ str x = str m ∧ drop_space (rest x) = drop_space (rest m)) (λ x, length (rest x))
    (λ m', on_string m' ∧ str m' = str m ∧ rest m' = drop_space (rest m))).
  - intros x (Hx & Hs & Hr). pose proof Hx as [Hwf Hend Hz]. pose proof (length_rest x Hwf) as Hl.
    destruct (Z.lt_ge_cases (currentindex x) (len x)) as [Hlt|Hge].
    + destruct (rest_cons x Hwf Hlt) as (c & Hrd & Hrest & Hwf'). rewrite Hrd. rewrite Hrest in Hr, Hz. cbn in Hr.
      destruct (isspace c) eqn:E; cbn; rewrite E; eexists; (split; [done|]).
      * split; [split; [constructor; [done|done|set_solver]|by split]|rewrite Hrest; cbn; lia].
      * split; [done|]. split; [done|]. by rewrite Hrest, <- Hr.
    + assert (currentindex x = len x) as Ei by (destruct Hwf; lia). rewrite (rd_ok _ _ 0); [|destruct Hwf; lia|by rewrite Ei].
      eexists. split; [done|]. split; [done|]. split; [done|]. rewrite <- Hr.
      by rewrite (nil_length_inv (rest x)) by lia.
  - done.
  - destruct Hm as [[Hi Hl Hm'] _ _]. rewrite length_rest by done. lia.
Qed.

Lemma rest_forward m m' k : smatcher_wf m → str m' = str m → len m' = len m → 0 ≤ k → currentindex m' = currentindex m + k →
  rest m' = drop (Z.to_nat k) (rest m).
Proof.
  intros [Hi _ _] Hs Hl Hk E. unfold rest, at_index. rewrite Hs, Hl, E, Z2Nat.inj_add by lia.
  rewrite skipn_firstn_comm, drop_drop. f_equal. lia.
Qed.

Lemma word_of_sub l c : c ∈ word_of l → c ∈ l.
Proof. intros Hc. rewrite (word_of_prefix l). apply elem_of_app. by left. Qed.

(** The next word, and where it is in memory. *)
Lemma consume_word_next m c l : on_string m → rest m = c :: l → isspace c = false →
  ∃ m' mem, smatcher_consume_word m = Ok (Some (mem, Z.of_nat (length (word_of (c :: l)))), m') ∧ on_string m' ∧ str m' = str m ∧
    rest m' = drop (length (word_of (c :: l))) (c :: l) ∧
    mem_read mem 0 (Z.of_nat (length (word_of (c :: l)))) = Ok (word_of (c :: l)).
Proof.
  intros [Hwf Hend Hz] Hrest Hc. destruct (consume_word_ok m Hwf) as (m' & E & Hwf' & Hs & Hl & Hi). rewrite Hrest in *.
  set (w := word_of (c :: l)) in *. assert (w ≠ []) as Hw by (unfold w; cbn; by rewrite Hc).
  rewrite decide_False in E by done. exists m', (at_index m). split; [exact E|].
  pose proof (rest_forward m m' (Z.of_nat (length w)) Hwf Hs Hl ltac:(lia) Hi) as Hr. rewrite Hrest, Nat2Z.id in Hr.
  split; [constructor; [done|by rewrite Hs, Hl|]|].
  { rewrite Hr. intros Hin. apply Hz. rewrite (word_of_prefix (c :: l)). apply elem_of_app. by right. }
  split; [done|]. split; [done|]. pose proof (length_rest m Hwf) as Hlr. rewrite Hrest in Hlr.
  pose proof (f_equal length (word_of_prefix (c :: l))) as Hpl. rewrite length_app in Hpl. fold w in Hpl.
  assert (c :: l `prefix_of` at_index m) as [tl Htl].
  { rewrite <- Hrest. unfold rest. apply prefix_take. }
  rewrite mem_read_ok; [|lia|lia|rewrite Htl, length_app; lia]. f_equal.
  rewrite Nat2Z.id. change (Z.to_nat 0) with 0%nat. rewrite drop_0, Htl, take_app_le by lia.
  rewrite (word_of_prefix (c :: l)) at 1. fold w. by rewrite take_app_length.
Qed.

(** ** What the shell relies on when it allocates: the addresses in use *)

Class HeapTracks (H : Type) `{!HeapOps H, !ReallocOps H} := {
  live : H → gset Z;
  live_null h : 0 ∉ live h;
  alloc_tracks size flags h : ∃ p h', heap_alloc size flags h = Ok (p, h') ∧
    (p = 0 ∧ live h' = live h ∨ p ≠ 0 ∧ p ∉ live h ∧ live h' = {[p]} ∪ live h);
  free_tracks p h : p = 0 ∨ p ∈ live h → ∃ h', heap_free p h = Ok (tt, h') ∧ live h' = live h ∖ {[p]};
  realloc_tracks p size flags h : p = 0 ∨ p ∈ live h → ∃ q h', heap_realloc p size flags h = Ok (q, h') ∧
    (q = 0 ∧ live h' = live h ∨ q ≠ 0 ∧ q ∉ live h ∧ live h' = {[q]} ∪ live h ∖ {[p]});
}.

Section Parser.
Context {H : Type} `{!HeapOps H, !ReallocOps H, !HeapTracks H}.
Implicit Types h : H.

Definition out_of_memory : Prop :=
  (∃ size h h', heap_alloc size 0 h = Ok (0, h')) ∨ ∃ p size h h', heap_realloc p size 0 h = Ok (0, h').

(** The command has the blocks of [argv] and its arguments, besides [L]. *)
Definition blocks (argv : Z) (args : list argument) : list Z := (if argv =? 0 then [] else [argv]) ++ (arg_address <$> args).
Definition owns (L : gset Z) (argv : Z) (args : list argument) h : Prop :=
  (argv = 0 → args = []) ∧ NoDup (blocks argv args) ∧ list_to_set (blocks argv args) ## L ∧
  live h = list_to_set (blocks argv args) ∪ L.

Lemma owns_start h : owns (live h) 0 [] h.
Proof using Type. split; [done|]. split; [constructor|]. cbn. set_solver. Qed.

Lemma owns_not_null L argv args h a : owns L argv args h → a ∈ blocks argv args → a ≠ 0.
Proof using Type. intros (_ & _ & _ & Hl) Ha ->. apply (live_null h). rewrite Hl. set_solver. Qed.

Lemma owns_realloc L argv args h q h' : owns L argv args h → q ≠ 0 → q ∉ live h → live h' = {[q]} ∪ live h ∖ {[argv]} → 
  (q =? 0) = false ∧ NoDup (blocks q args) ∧ list_to_set (blocks q args) ## L ∧ live h' = list_to_set (blocks q args) ∪ L.
Proof using Type.
  intros (H0 & Hnd & Hdisj & Hl) Hq Hnew Hl'. pose proof (live_null h) as Hnull. apply Z.eqb_neq in Hq. split; [done|].
  unfold blocks in *. rewrite Hq. rewrite Hl in Hnew, Hl', Hnull. destruct (Z.eqb_spec argv 0) as [->|Hne].
  - rewrite (H0 eq_refl) in *. cbn in *. split; [apply NoDup_singleton|]. set_solver.
  - cbn [app list_to_set foldr] in *. apply NoDup_cons in Hnd as [Hin Hnd]. split; [constructor; [set_solver|done]|].
    set_solver.
Qed.

Lemma owns_alloc L argv args h p b h' : argv ≠ 0 → NoDup (blocks argv args) → list_to_set (blocks argv args) ## L →
  live h = list_to_set (blocks argv args) ∪ L → p ∉ live h → live h' = {[p]} ∪ live h → owns L argv (args ++ [Argument p b]) h'.
Proof using Type.
  intros Hargv Hnd Hdisj Hl Hp Hl'. rewrite Hl in Hp, Hl'. split; [done|].
  assert (blocks argv (args ++ [Argument p b]) = blocks argv args ++ [p]) as ->.
  { unfold blocks. by rewrite fmap_app, app_assoc. }
  rewrite NoDup_app, list_to_set_app_L. cbn. split; [|set_solver].
  split; [done|]. split; [set_solver|apply NoDup_singleton].
Qed.

Lemma free_all (l : list Z) : ∀ h, NoDup l → list_to_set l ⊆ live h →
  wp (for_ l heap_free) h (λ _ h', live h' = live h ∖ list_to_set l).
Proof using Type.
  induction l as [|p l IH]; intros h Hnd Hin; [apply wp_ret; set_solver|]. apply NoDup_cons in Hnd as [Hp Hnd]. cbn [for_].
  destruct (free_tracks p h) as (h1 & E & Hl1); [right; set_solver|]. apply wp_bind. exists tt, h1. split; [done|].
  eapply wp_mono; [apply (IH h1 Hnd); set_solver|]. intros [] h2 Hl2. cbn. rewrite Hl2, Hl1. set_solver.
Qed.

Lemma for_fmap_free {A B} (g : A → B) (l : list A) (f : B → M H unit) : for_ (g <$> l) f = for_ l (λ a, f (g a)).
Proof using Type. induction l as [|a l IH]; [done|]. cbn. by rewrite IH. Qed.

(** The blocks are given back, the array last. *)
Lemma free_args_ok L argv args h h' : owns L argv args h → live h' = live h →
  wp (free_args argv args) h' (λ _ h2, live h2 = L).
Proof using Type.
  intros (H0 & Hnd & Hdisj & Hl) Hl'. rewrite <- Hl' in Hl. clear Hl'. unfold free_args, blocks in *.
  rewrite <- for_fmap_free. set (l := arg_address <$> args) in *. apply wp_bind.
  eapply wp_mono; [apply (free_all l h')|].
  - by apply NoDup_app in Hnd as (_ & _ & ?).
  - rewrite Hl, list_to_set_app_L. set_solver.
  - intros [] h1 Hl1. assert (argv = 0 ∨ argv ∈ live h1) as Hargv.
    { rewrite Hl1, Hl. destruct (Z.eqb_spec argv 0); [by left|]. right. apply NoDup_app in Hnd as (_ & Hx & _). set_solver. }
    destruct (free_tracks argv h1 Hargv) as (h2 & E & Hl2). exists tt, h2. split; [done|]. rewrite Hl2, Hl1, Hl.
    pose proof (live_null h') as Hnull. rewrite Hl in Hnull. destruct (Z.eqb_spec argv 0); set_solver.
Qed.

Variable garbage : Z → list Z.
Hypothesis Hgarbage : ∀ n, 0 ≤ n → Z.of_nat (length (garbage n)) = n.

Lemma copy_word mem w : mem_read mem 0 (Z.of_nat (length w)) = Ok w → 0 ∉ w → Z.of_nat (length w) < 2 ^ 32 - 1 →
  ∃ b b', vmemcpy (garbage (u32 (Z.of_nat (length w) + 1))) 0 mem 0 (Z.of_nat (length w)) = Ok b ∧
    wr b (Z.of_nat (length w)) 0 = Ok b' ∧ cstr b' w.
Proof using Hgarbage.
  intros Hrd Hz Hl. rewrite u32_small by lia. set (g := garbage _). pose proof (Hgarbage (Z.of_nat (length w) + 1) ltac:(lia)) as Hg. fold g in Hg.
  unfold vmemcpy. rewrite Hrd. cbn [mbind res_bind]. rewrite mem_write_ok by lia. change (Z.to_nat 0) with 0%nat.
  rewrite take_0, Nat.add_0_l. cbn [app].
  assert (length (drop (length w) g) = 1%nat) as Hd by (rewrite length_drop; lia).
  destruct (drop (length w) g) as [|x [|]] eqn:E; try done. eexists _, _. split; [done|].
  split; [apply wr_ok; rewrite length_app; cbn; lia|].
  rewrite Nat2Z.id, insert_app_r_alt by lia. rewrite Nat.sub_diag. split; [done|by exists []].
Qed.

Definition failed (L : gset Z) (p : parsed) h : Prop :=
  out_of_memory ∧ ∃ argv args, p = Fail_alloc argv args ∧ (argv ≠ 0 → owns L argv args h) ∧ L ⊆ live h.

(** A word of the command. *)
Lemma parse_word_ok argv args m1 h L c l : on_string m1 → rest m1 = c :: l → isspace c = false → c ≠ 59 → owns L argv args h →
  Z.of_nat (length args + length (rest m1)) < 2 ^ 30 - 1 →
  wp ('(word, cmdstr) ← lift (smatcher_consume_word m1);
      match word with
      | None => throw Assert_failed
      | Some (str, n) =>
          if Z.of_nat (length args) =? INT_MAX then mret (inr (Fail_alloc argv args))
          else if SIZE_MAX / 4 <? Z.of_nat (length args) then mret (inr (Fail_alloc argv args))
          else
            argv ← heap_realloc argv (u32 ((Z.of_nat (length args) + 1) * 4)) 0;
            if argv =? 0 then mret (inr (Fail_alloc argv args))
            else
              p ← heap_alloc (u32 (n + 1)) 0;
              if p =? 0 then mret (inr (Fail_alloc argv args))
              else
                b ← lift (vmemcpy (garbage (u32 (n + 1))) 0 str 0 n);
                b ← lift (wr b n 0);
                mret (inl (argv, args ++ [Argument p b], cmdstr))
      end) h (λ y h', (∃ q a m', y = inl (q, args ++ [a], m') ∧ on_string m' ∧ rest m' = drop (length (word_of (c :: l))) (c :: l) ∧
      cstr (arg_chars a) (word_of (c :: l)) ∧ owns L q (args ++ [a]) h') ∨ ∃ p, y = inr p ∧ failed L p h').
Proof using Hgarbage HeapTracks0.
  intros Hm Hrest Hc H59 Ho Hlen. destruct (consume_word_next m1 c l Hm Hrest Hc) as (m' & mem & E & Hm' & Hs & Hr & Hmem).
  apply wp_bind, (wp_lift _ _ _ _ E). set (w := word_of (c :: l)) in *.
  pose proof (f_equal length (word_of_prefix (c :: l))) as Hpl. rewrite length_app in Hpl. fold w in Hpl. rewrite Hrest in Hlen.
  assert (0 ∉ w) as Hz. { intros Hin. apply (os_zero m1 Hm). rewrite Hrest. by apply word_of_sub. }
  destruct (copy_word mem w Hmem Hz ltac:(lia)) as (b & b' & E1 & E2 & Hb).
  unfold INT_MAX, SIZE_MAX. destruct (Z.eqb_spec (Z.of_nat (length args)) (2 ^ 31 - 1)); [lia|].
  change ((2 ^ 32 - 1) / 4) with 1073741823. destruct (Z.ltb_spec 1073741823 (Z.of_nat (length args))); [lia|].
  assert (L ⊆ live h) as HL by (destruct Ho as (_ & _ & _ & ->); set_solver).
  assert (argv = 0 ∨ argv ∈ live h) as Hargv.
  { destruct Ho as (_ & _ & _ & ->). unfold blocks. destruct (Z.eqb_spec argv 0); [by left|right; set_solver]. }
  destruct (realloc_tracks argv (u32 ((Z.of_nat (length args) + 1) * 4)) 0 h Hargv) as (q & h1 & Eq & Hq).
  apply wp_bind. exists q, h1. split; [done|]. destruct Hq as [[-> Hl1]|(Hq0 & Hqn & Hl1)].
  { apply wp_ret. right. eexists. split; [done|]. split; [right; eauto|]. exists 0, args. split; [done|]. split; [done|by rewrite Hl1]. }
  destruct (owns_realloc L argv args h q h1 Ho Hq0 Hqn Hl1) as (Hqb & Hnd & Hdisj & Hlive). rewrite Hqb.
  destruct (alloc_tracks (u32 (Z.of_nat (length w) + 1)) 0 h1) as (p & h2 & Ep & Hp). apply wp_bind. exists p, h2. split; [done|].
  destruct Hp as [[-> Hl2]|(Hp0%Z.eqb_neq & Hpn & Hl2)].
  - apply wp_ret. right. eexists. split; [done|]. split; [left; eauto|]. exists q, args. split; [done|].
    assert (owns L q args h2) as Ho2 by (split; [done|]; by rewrite Hl2). split; [done|]. rewrite Hl2, Hlive. set_solver.
  - rewrite Hp0. apply wp_bind, (wp_lift _ _ _ _ E1), wp_bind, (wp_lift _ _ _ _ E2), wp_ret. left.
    exists q, (Argument p b'), m'. split; [done|]. split; [done|]. split; [done|]. split; [done|]. by apply (owns_alloc L q args h1).
Qed.

(** One turn of the loop. *)
Lemma parse_step_ok argv args m h L : on_string m → owns L argv args h → Z.of_nat (length args + length (rest m)) < 2 ^ 30 - 1 →
  wp (parse_step garbage (argv, args, m)) h (λ y h',
    match command_words (rest m) with
    | [] => (∃ m', y = inr (Parsed argv args m')) ∧ h' = h
    | w :: ws => (∃ q a m', y = inl (q, args ++ [a], m') ∧ on_string m' ∧ command_words (rest m') = ws ∧
          (length (rest m') < length (rest m))%nat ∧ cstr (arg_chars a) w ∧ owns L q (args ++ [a]) h') ∨
        ∃ p, y = inr p ∧ failed L p h'
    end).
Proof using Hgarbage HeapTracks0.
  intros Hm Ho Hlen. destruct (skip_whitespaces_ok m Hm) as (m1 & E1 & Hm1 & Hs1 & Hr1).
  assert (length (rest m1) ≤ length (rest m))%nat as Hl.
  { destruct (drop_space_suffix (rest m)) as [k Hk]. rewrite Hr1. apply (f_equal length) in Hk. rewrite length_app in Hk. lia. }
  unfold parse_step. apply wp_bind, (wp_lift _ _ _ _ E1). rewrite (rest_nil m1 (os_wf m1 Hm1)), command_words_step, <- Hr1.
  destruct (rest m1) as [|c l] eqn:Hrest. { rewrite bool_decide_eq_true_2 by done. apply wp_ret. split; [by eexists|done]. }
  rewrite bool_decide_eq_false_2 by done.
  pose proof (consume_str_ok m1 [59; 0] [59] (os_wf m1 Hm1) ltac:(split; [set_solver|by exists []]) ltac:(cbn; lia)) as E2.
  apply wp_bind, (wp_lift _ _ _ _ E2). rewrite Hrest. destruct (Z.eqb_spec c 59) as [->|H59].
  - rewrite decide_True by (by exists l). apply wp_ret. split; [by eexists|done].
  - rewrite decide_False by (intros [k [= -> _]]; done). symmetry in Hr1. pose proof (drop_space_head _ _ _ Hr1) as Hc.
    eapply wp_mono; [apply (parse_word_ok argv args m1 h L c l Hm1 Hrest Hc H59 Ho); rewrite Hrest; lia|].
    intros y h' [(q & a & m' & -> & Hm' & Hr' & Ha & Ho')|Hf]; [|by right]. left. exists q, a, m'.
    split; [done|]. split; [done|]. split; [by rewrite Hr'|]. split; [|done]. rewrite Hr', length_drop.
    cbn [word_of]. rewrite Hc. cbn [length] in *. lia.
Qed.

(** The words of the command, one after the other. *)
Lemma parse_loop_ok ws : ∀ fuel argv args m h L, on_string m → command_words (rest m) = ws → owns L argv args h →
  (length ws < fuel)%nat → Z.of_nat (length args + length (rest m)) < 2 ^ 30 - 1 →
  wp (loop_m fuel (parse_step garbage) (argv, args, m)) h (λ p h',
    (∃ argv' args' m', p = Parsed argv' (args ++ args') m' ∧ Forall2 (λ a w, cstr (arg_chars a) w) args' ws ∧ owns L argv' (args ++ args') h') ∨
    ws ≠ [] ∧ failed L p h').
Proof using Hgarbage HeapTracks0.
  induction ws as [|w ws IH]; intros [|fuel] argv args m h L Hm Hws Ho Hfuel Hlen; cbn in Hfuel; try lia;
    destruct (parse_step_ok argv args m h L Hm Ho Hlen) as (y & h1 & E & Hy); rewrite Hws in Hy; unfold wp;
    rewrite (loop_m_step fuel _ _ _ _ _ E).
  - destruct Hy as [(m' & ->) ->]. do 2 eexists. split; [done|]. left. exists argv, [], m'. by rewrite app_nil_r.
  - destruct Hy as [(q & a & m' & -> & Hm' & Hws' & Hl & Ha & Ho')|(p & -> & Hf)]; [|do 2 eexists; split; [done|by right]].
    destruct (IH fuel q (args ++ [a]) m' h1 L Hm' Hws' Ho') as (p & h2 & E2 & Hp); [lia|rewrite length_app; cbn; lia|].
    exists p, h2. split; [exact E2|]. destruct Hp as [(argv' & args' & m2 & -> & Hall & Ho2)|[_ Hf]]; [left|by right].
    exists argv', (a :: args'), m2. rewrite <- app_assoc in *. split; [done|]. split; [by constructor|done].
Qed.

Lemma matcher_of s cs : cstr s cs → Z.of_nat (length cs) < 2 ^ 32 → let m := Smatcher s (Z.of_nat (length cs)) 0 in
  smatcher_init s = Ok m ∧ on_string m ∧ rest m = cs.
Proof using Type.
  intros Hs Hl m. pose proof Hs as [Hz [tl Etl]]. assert (rest m = cs) as Hr.
  { unfold rest, at_index, m. cbn [len currentindex str]. rewrite Z.sub_0_r, Nat2Z.id. change (Z.to_nat 0) with 0%nat.
    by rewrite drop_0, Etl, take_app_length. }
  split; [unfold smatcher_init; by rewrite (kstrlen_ok s cs Hs Hl)|]. split; [|done]. constructor; [|cbn|by rewrite Hr].
  - constructor; cbn; [lia|done|]. rewrite Etl, length_app. cbn. lia.
  - by rewrite Nat2Z.id, Etl, lookup_app_r, Nat.sub_diag by lia.
Qed.

(** The command of a line. *)
Lemma parse_cmd_ok m h : on_string m → Z.of_nat (length (rest m)) < 2 ^ 30 - 1 →
  wp (parse_cmd garbage m) h (λ '(ret, cmd, _) h', ret = 0 ∧
    ((words (rest m) = [] ∧ cmd = CMD_EMPTY ∧ h' = h) ∨
     (words (rest m) ≠ [] ∧ ∃ argv args, cmd = CMD_RUNPROGRAM argv args ∧ Forall2 (λ a w, cstr (arg_chars a) w) args (command_words (rest m)) ∧
        owns (live h) argv args h') ∨
     (words (rest m) ≠ [] ∧ command_words (rest m) ≠ [] ∧ out_of_memory ∧ cmd = CMD_EMPTY ∧ live h ⊆ live h'))).
Proof using Hgarbage HeapTracks0.
  intros Hm Hlen. destruct (skip_whitespaces_ok m Hm) as (m1 & E1 & Hm1 & Hs1 & Hr1).
  unfold parse_cmd. apply wp_bind, (wp_lift _ _ _ _ E1). rewrite (rest_nil m1 (os_wf m1 Hm1)), words_step, <- Hr1.
  assert (command_words (rest m1) = command_words (rest m)) as Hcw by (unfold command_words; by rewrite Hr1, words_drop_space).
  assert (length (rest m1) ≤ length (rest m))%nat as Hl.
  { destruct (drop_space_suffix (rest m)) as [k Hk]. rewrite Hr1. apply (f_equal length) in Hk. rewrite length_app in Hk. lia. }
  destruct (rest m1) as [|c l] eqn:Hrest. { rewrite bool_decide_eq_true_2 by done. apply wp_ret. split; [done|]. by left. }
  rewrite bool_decide_eq_false_2 by done. unfold parse_cmd_runprogram. apply wp_bind. rewrite <- Hcw.
  assert (length (rest m1) ≤ length (str m1))%nat as Hls.
  { rewrite length_rest by apply Hm1. destruct (os_wf m1 Hm1). lia. }
  pose proof (length_command_words (rest m1)) as Hlc. rewrite Hrest in Hls, Hlc.
  eapply wp_mono; [apply (parse_loop_ok _ _ 0 [] m1 h (live h) Hm1 eq_refl (owns_start h)); rewrite Hrest; cbn [length]; cbn [length] in *; lia|].
  rewrite Hrest. intros p h1 [(argv & args & m' & -> & Hall & Ho)|(Hne & Hoom & argv & args & -> & Ho & HL)].
  - apply wp_ret. split; [done|]. right. left. split; [done|]. exists argv, args. by split_and!.
  - apply wp_bind. eapply wp_mono with (P := λ _ h2, live h ⊆ live h2).
    + destruct (Z.eqb_spec argv 0) as [->|Hargv]; cbn [negb]; [by apply wp_ret|].
      eapply wp_mono; [by apply (free_args_ok (live h) argv args h1 h1); [apply Ho|]|]. by intros [] h2 ->.
    + intros [] h2 Hsub. apply wp_ret. split; [done|]. right. right. by split_and!.
Qed.
End Parser.

(** ** Running the command *)

Lemma M_lift_step {S A B} (m : res A) (f : A → M S B) a s : m = Ok a → (x ← lift m; f x) s = f a s.
Proof. intros H. apply M_bind_step. unfold lift. by rewrite H. Qed.

Section Exec.
Context {H : Type} `{!HeapOps H, !ReallocOps H, !HeapTracks H}.
Variable garbage : Z → list Z.
Hypothesis Hgarbage : ∀ n, 0 ≤ n → Z.of_nat (length (garbage n)) = n.
Variables (programs : list (shell_program H)) (ident : shell_program H → list Z).
Hypothesis Hnames : Forall (λ p, cstr (name p) (ident p)) programs.

(** The first program of a name. *)
Definition named (w : list Z) : option (shell_program H) := find (λ p, bool_decide (ident p = w)) programs.

Lemma find_program_ok arg0 w : cstr arg0 w → find_program programs arg0 = Ok (named w).
Proof using Hnames.
  clear -Hnames. intros Ha. unfold named. revert Hnames. induction programs as [|p ps IH]; [done|]. intros [Hp Hps]%Forall_cons. cbn.
  destruct (kstrcmp_ok _ _ _ _ Hp Ha) as (r & -> & Hr). cbn. destruct (Z.eqb_spec r 0) as [E|E].
  - by rewrite bool_decide_eq_true_2 by by apply Hr.
  - rewrite bool_decide_eq_false_2 by (intros ?; by apply E, Hr). by apply IH.
Qed.

(** The program of a command is called, and its memory freed. *)
Lemma run_command_ok argv args w ws L (v : getopt_vars) (h1 : H) (Q : Z → getopt_vars → Prop) :
  Forall2 (λ a w, cstr (arg_chars a) w) args (w :: ws) → owns L argv args h1 →
  (∀ p argv, named w = Some p → Forall2 word_at argv (w :: ws) →
    wp (main p (Z.of_nat (length (w :: ws))) argv) (reset_vars v, h1) (λ r s', live s'.2 = live h1 ∧ Q r s'.1)) →
  wp (ret ← cmd_exec programs (CMD_RUNPROGRAM argv args); _ ← on_sh (cmd_destroy (CMD_RUNPROGRAM argv args));
      mret (if negb (ret =? 0) then ret else 0)) (v, h1) (λ r s',
    live s'.2 = L ∧ match named w with Some _ => Q r s'.1 | None => r = 127 ∧ s'.1 = v end).
Proof using HeapTracks0 Hnames.
  clear Hgarbage. intros Hall Ho Hmain. pose proof (Forall2_length _ _ _ Hall) as Hl.
  assert (argv ≠ 0) as Hargv%Z.eqb_neq. { intros E. destruct Ho as (H0 & _). by rewrite (H0 E) in Hl. }
  destruct args as [|a args]; [done|]. pose proof (Forall2_cons_1 _ _ _ _ _ Hall) as [Ha _].
  assert (∀ r v2 h2, live h2 = live h1 → (match named w with Some _ => Q r v2 | None => r = 127 ∧ v2 = v end) →
    wp (_ ← on_sh (cmd_destroy (CMD_RUNPROGRAM argv (a :: args))); mret (if negb (r =? 0) then r else 0)) (v2, h2) (λ r s',
      live s'.2 = L ∧ match named w with Some _ => Q r s'.1 | None => r = 127 ∧ s'.1 = v end)) as Hend.
  { intros r v2 h2 Hl2 HQ. destruct (free_args_ok L argv (a :: args) h1 h2 Ho Hl2) as ([] & h3 & E & Hl3).
    apply wp_bind. exists tt, (v2, h3). split; [unfold on_sh, cmd_destroy; by rewrite E|]. apply wp_ret. split; [done|].
    replace (if negb (r =? 0) then r else 0) with r; [done|]. by destruct (Z.eqb_spec r 0). }
  apply wp_bind. unfold cmd_exec. apply wp_bind, wp_massert; [done|]. apply wp_bind, wp_massert; [by rewrite Hargv|].
  apply wp_bind, (wp_lift _ a); [done|]. apply wp_bind, (wp_lift _ _ _ _ (find_program_ok _ _ Ha)).
  destruct (named w) as [p|] eqn:Hp; [|apply wp_ret; by apply Hend].
  apply wp_bind. exists tt, (reset_vars v, h1). split; [done|]. rewrite Hl. eapply wp_mono; [apply (Hmain p); [done|]|].
  - apply Forall2_fmap_l. eapply Forall2_impl; [exact Hall|]. intros x y Hxy. by exists (arg_chars x).
  - intros r [v2 h2] [Hl2 HQ]. by apply Hend.
Qed.

(** A line is run: a blank line does nothing; a command that begins with a
    semicolon stops the kernel; otherwise the program that the first word names
    is called with the words of the command, on the initial state of [getopt],
    and what was allocated for the call is freed afterwards.  Only when the
    memory runs out, the line is ignored instead. *)
Theorem shell_exec_cmd_correct (s cs : list Z) (v : getopt_vars) (h : H) (Q : Z → getopt_vars → Prop) :
  cstr s cs → Z.of_nat (length cs) < 2 ^ 30 - 1 →
  (∀ p w ws argv h1, command_words cs = w :: ws → named w = Some p → Forall2 word_at argv (w :: ws) →
    wp (main p (Z.of_nat (length (w :: ws))) argv) (reset_vars v, h1) (λ r s', live s'.2 = live h1 ∧ Q r s'.1)) →
  match words cs, command_words cs with
  | [], _ => shell_exec_cmd garbage programs s (v, h) = Ok (0, (v, h))
  | _, [] => shell_exec_cmd garbage programs s (v, h) = Fault Assert_failed
  | _, w :: _ => wp (shell_exec_cmd garbage programs s) (v, h) (λ r s',
      live s'.2 = live h ∧ match named w with Some _ => Q r s'.1 | None => r = 127 ∧ s'.1 = v end ∨
      out_of_memory (H := H) ∧ r = 0 ∧ s'.1 = v ∧ live h ⊆ live s'.2)
  end.
Proof using Hgarbage HeapTracks0 Hnames.
  intros Hs Hlen Hmain. destruct (matcher_of s cs Hs ltac:(lia)) as (Hi & Hm & Hr).
  destruct (parse_cmd_ok garbage Hgarbage _ h Hm ltac:(by rewrite Hr)) as ([[ret cmd] m'] & h1 & E & -> & Hcmd). rewrite Hr in Hcmd.
  assert (∀ r s', (match cmd with CMD_EMPTY => mret 0
      | _ => ret ← cmd_exec programs cmd; _ ← on_sh (cmd_destroy cmd); mret (if negb (ret =? 0) then ret else 0) end) (v, h1) = r →
    r = s' → shell_exec_cmd garbage programs s (v, h) = s') as Hrun.
  { intros r s' <- <-. unfold shell_exec_cmd. rewrite (M_lift_step _ _ _ _ Hi).
    rewrite (M_bind_step _ _ _ (0, cmd, m') (v, h1)); [done|]. unfold on_sh. by rewrite E. }
  unfold wp. rewrite (Hrun _ _ eq_refl eq_refl).
  destruct Hcmd as [(Hw & -> & ->)|[(Hw & argv & args & -> & Hall & Ho)|(Hw & Hcw & Hoom & -> & Hsub)]].
  - by rewrite Hw.
  - destruct (words cs) as [|]; [done|]. destruct (command_words cs) as [|w ws] eqn:Hcw.
    + by apply Forall2_nil_inv_r in Hall as ->.
    + destruct (run_command_ok argv args w ws (live h) v h1 Q Hall Ho) as (r & s' & Er & HQ); [intros; by eapply Hmain|].
      exists r, s'. split; [exact Er|by left].
  - destruct (words cs) as [|]; [done|]. destruct (command_words cs) as [|w ws]; [done|].
    exists 0, (v, h1). split; [done|]. by right.
Qed.
End Exec.
